(* ===== verification/_CoqProject ===== *)
-Q . S2P
Prelude.v
Timing.v
Types.v
Helper.v
CacheMap.v
RefCount.v
Uplink.v
UplinkIO.v
UplinkTrace.v
Replication.v
Integrity.v
AltServers.v
AltCheck.v
Wire.v
CrcTables.v
Crc32.v
Images.v
ImageLife.v
Net.v
ImageCrc.v
FuseQueue.v
FuseAlts.v
KernelServers.v
KernelDiscover.v
KernelQueue.v
KernelNet.v
KernelIoctl.v
ImageStore.v
ImageName.v
ImageLoad.v
ImageSpace.v
UrlDecode.v
Jobs.v
ThreadPool.v
FileUtil.v
RpcAcl.v
HttpParse.v
Sockets.v
Rpc.v
ServerFuse.v
FuseLife.v
Ini.v
Config.v
FuseNet.v
EndToEnd.v
FuseInit.v
UplinkMain.v
ImageProxy.v
Locks.v
FuseMain.v
Client.v
Signals.v
Log.v
Server.v
KernelLife.v
ImageScan.v
Report.v
IntegrityLife.v
