(* ===== verification/Prelude.v ===== *)
(** * dnbd3: a verified model of a network block device for read-only images

    dnbd3 serves disk images over TCP.  A _server_ ([src/server]) keeps images as files;
    as a _proxy_ it fetches missing blocks from other servers and stores them.  Clients
    are a _kernel module_ ([src/kernel]), with a command line program for it
    ([src/client]), and a _FUSE client_ ([src/fuse]).  Both switch between servers while
    requests are under way.

    This library translates the code that keeps state into Gallina and proves what makes
    it correct.  A C struct is a record with the same members, a function is a definition
    with the same branches, a loop is a fixpoint; an array access out of bounds, a failed
    assertion, a null dereference and a use after free are values of [fault], so "no fault"
    is part of the theorems.  Integers are [Z]; the width is written out where the source
    converts or wraps.  What the system, another machine or another thread contributes
    (results of system calls, bytes from a socket, clocks, random numbers, the
    order of operations) is an argument or a sequence of events, and the theorems
    quantify over it.  Threads: every critical section or atomic operation is one step, or
    a larger part of a thread where the comment of the theorem says so;
    theorems about concurrency hold for every sequence of steps.

    ** Files

    Shared: [Prelude] (C arithmetic, the [result] monad, arrays, sums, hint databases
    and tactics), [Timing] ([inc/dnbd3/shared/timing.h]), [Types] ([globals.h], [types.h],
    the constants of [config/server.h]), [Helper] ([server/helper.c]: addresses, [atoi],
    printing numbers), [Wire] ([types.h], [protocol.h], [shared/serialize.c]), [CrcTables]
    and [Crc32] ([shared/crc32.c]), [Signals] ([shared/fdsignal.c] with its three
    implementations as instances of a class), [Log] ([shared/log.c]).

    Server:
    - [CacheMap] ([image.c], [image.h]): the bitmap of the blocks that are stored locally;
    - [RefCount] ([reference.c], [reference.h]): weak references that are taken without a lock;
    - [Uplink], [UplinkIO], [UplinkTrace] ([uplink.c]): the queue of requests relayed to
      another server, sending, receiving and storing, and all interleavings of these;
    - [Replication] ([uplink.c]): fetching missing blocks in the background;
    - [Integrity], [IntegrityLife] ([integrity.c]): the queue of checksum tests and its worker;
      starting and stopping it;
    - [AltServers], [AltCheck] ([altservers.c]): the other servers, and measuring them to
      choose the best;
    - [Images], [ImageLife] ([image.c]): the list of images, and the life time of its
      entries in all interleavings with uplinks, clients and periodic jobs;
    - [ImageCrc] ([image.c]): the list of checksums on disk;
    - [ImageStore] ([image.c]): saving the bitmap and the access time, with crashes;
    - [ImageName], [ImageLoad] ([image.c]): file names, finding revisions, creating and
      loading images, reopening them, the limit on asking upstream;
    - [ImageScan] ([image.c]): searching the disk for images and dropping those that vanished;
    - [ImageSpace] ([image.c]): deleting images to make room;
    - [ImageProxy] ([image.c]): fetching an image from another server;
    - [UplinkMain] ([uplink.c]): the uplink's thread from its start to its end, with the
      request for the list of checksums;
    - [Net] ([net.c]): the clients, their handshake and requests;
    - [Server] ([server.c], [net.c]): command line, starting and stopping everything,
      signals, accepting clients;
    - [Jobs] ([server.c]): timed jobs;
    - [Locks] ([locks.c]): the checker for the order of locks in debug builds;
    - [ThreadPool] ([threadpool.c]): the threads that run them;
    - [FileUtil] ([fileutil.c]), [Sockets] ([sock*.c]): files, and connecting to several
      servers at once;
    - [HttpParse] ([picohttpparser.c]), [UrlDecode] ([urldecode.c]), [RpcAcl], [Rpc]
      ([rpc.c]): the status interface over HTTP, its form fields and its access rules;
    - [Report] ([rpc.c], [image.c], [net.c], [altservers.c]): the documents it answers with;
    - [ServerFuse], [FuseLife] ([server/fuse.c]): the images as a file system on the
      server, its callbacks, its start and stop;
    - [Ini], [Config] ([ini.c], [globals.c]): the configuration file and the settings.

    FUSE client ([fuse/connection.c]): [FuseQueue], the linked list of pending requests and
    all interleavings of readers, receivers and reconnection; [FuseAlts], the servers and
    probing them; [FuseNet], the receiver on the bytes of the connection and switching;
    [FuseInit], the first connection.  [EndToEnd] is the loop of the server on the bytes a client sends;
    [FuseMain] ([fuse/main.c], [fuse/helper.c]) is the mounted file system, and puts it together with the
    client's queue and receiver and the server.

    Kernel module ([kernel/*.c]): [KernelServers], the server table; [KernelDiscover],
    probing and switching; [KernelQueue], the block layer's requests in the driver's queues
    under all interleavings of its workers; [KernelNet], replies and handshake on the
    bytes of the connection; [KernelIoctl], opening, closing and switching a device;
    [KernelLife], loading and unloading the module, connecting, and its files in sysfs.
    [Client] ([client/client.c]) is the command line program and its daemon.

    ** What the theorems show

    The comment before a theorem states its conditions; the list below only says what the groups are about.

    - End to end: on a connection that works, reads of the mounted file get the bytes of the file on the server, through
      the client's queue, the encoding, the server's loop and the client's receiver, in any order of
      reading, sending, serving and receiving ([FuseMain.file_reads_get_image_bytes]).
    - Exactly once: every request that is accepted is answered once, for an uplink
      ([UplinkTrace.every_request_answered_once]) and its whole life
      ([UplinkMain.uplink_lifecycle]), the FUSE client, unless the request is answered before the thread that queued it has sent it
      ([FuseQueue.fuse_reads_answered_once]), and the kernel module as long as a server answers only what it was asked
      ([KernelQueue.kernel_requests_answered_once]); closing a device ends all that is left
      ([KernelQueue.kernel_close_ends_all]); after a switch the FUSE client sends every pending request
      again ([FuseNet.switch_resends_pending]); the thread pool runs every job
      once ([ThreadPool.threadpool_safe]).
    - The right bytes: with servers that answer with the content of the range they were asked for, clients get the bytes of the image
      ([Net.get_block_served], [Net.get_block_relayed], [UplinkTrace.receive_correct],
      [UplinkMain.uplink_turn_correct], [FuseNet.fuse_receiver_correct],
      [ServerFuse.fuse_read_correct]).
    - Memory: references never touch freed objects ([RefCount]), an image is not used after it was freed
      but for one place where the code keeps no reference and a race with the end of an uplink ([ImageLife.image_lifetime_safe]), entries of the file system are referenced as
      often as they are open ([ServerFuse.fuse_tree_invariant]), no descriptor or socket is
      lost or closed twice ([AltCheck], [FuseAlts], [Sockets], [ImageProxy], [UplinkMain],
      [FuseInit], [KernelDiscover], [KernelIoctl]); the kernel module gives back all it took
      ([KernelLife.module_lifecycle]); log lines and the files in sysfs stay inside their
      buffers ([Log.logadd_line], [KernelLife.alt_servers_file]).
    - Refinement: bit masks implement a set of blocks ([CacheMap]), pointers a list
      ([FuseQueue.request_list_refines]), the receive worker its reply-by-reply
      specification ([KernelNet.recv_worker_refines]), the optimised checksum the
      polynomial division ([Crc32.crc32_correct]), eventfds and pipes that do not block a counter of calls
      ([Signals.signals_counted]), the tables of the lock checker what threads really hold
      ([Locks.lock_checker_exact]).
    - Persistence: a crash leaves no map that lists lost blocks, if the image could be flushed
      ([ImageStore.saveCacheMap_safe]); names, checksums, access times, settings and whole
      images survive being written and read again ([ImageName], [ImageCrc], [ImageStore],
      [Config], [ImageLoad]); the list follows what is on disk ([ImageScan.loadAll_correct]);
      making room deletes only what nobody used when it was chosen ([ImageSpace]).
    - Choosing a server: the decision to switch follows the measurements and keeps the
      connection that works ([AltCheck], [FuseAlts], [KernelDiscover]); a proxy takes an
      image only from a server that has a newer one, or the one asked for ([ImageProxy]).
    - Starting and stopping: interleavings of start, stop and the running threads come to an end and
      use nothing that was freed ([FuseLife], [FuseInit],
      [IntegrityLife.integrity_shutdown_ends]); whichever call fails, the
      server starts and stops its parts in order ([Server.server_lifecycle]); threads that the
      lock checker lets pass never wait for each other in a circle
      ([Locks.lock_order_prevents_deadlock]).
    - The status interface: requests are parsed as the grammar says once they are complete, answered in order and
      within the permissions of the rules ([HttpParse], [Rpc], [RpcAcl]), which is all that
      anybody learns ([Report.status_reveals_only_permitted]); the settings are in range
      whatever the file holds ([Config.config_always_valid]).
    - The daemon of the command line program keeps the devices in its table apart by user
      ([Client.daemon_keeps_users_apart]).
    - Errors: theorems named after a defect evaluate a concrete run in which the code does
      not do what it means to; many are the reasons for the conditions of the theorems above, for instance [UplinkTrace.short_reply_delivers_stale_data],
      [RefCount.ref_get_null_deref], [ImageStore.map_ahead_of_data],
      [ThreadPool.parked_after_close], [FuseInit.connection_init_deadlock],
      [UplinkMain.failed_thread_double_close], [ImageProxy.wrong_revision_returned].

    ** Bounds and fuel

    Sizes of images are at most 2^46 bytes, where the length of the bitmap fits an [int]
    as the code assumes.  Fixpoints that are not structural take as fuel the number of
    bytes or entries left, with a lemma that this is enough, or the list of results of
    the system calls they make.  The search for images has the stack as its bound: 2000
    calls are enough, since paths are shorter.  [RefCount] allows 31 threads inside [ref_get] at
    once, the most the alignment of the union can count; with 32 it fails.

    ** Not modelled

    The benchmark, which is not part of the service.  Of the modelled files: creating threads
    and setting options of sockets and block queues, which only call the system; help texts;
    the text of JSON documents, which the library makes; code for old kernels, for fuzzing
    and for big-endian machines in [crc32]; and what the server does not call of the
    vendored HTTP parser. *)

From Stdlib Require Export ZArith Lia Bool List.
From stdpp Require Export base list list_numbers numbers strings option.

#[export] Set Default Goal Selector "!".

(** * C arithmetic

    Integers of the program are [Z]; the width of a C type is written out
    where the source converts to it or where an unsigned operation wraps. *)

Declare Scope c_scope.
Delimit Scope c_scope with C.
Open Scope Z_scope.

Definition u8 (x : Z) : Z := x mod 2 ^ 8.
Definition u16 (x : Z) : Z := x mod 2 ^ 16.
Definition u32 (x : Z) : Z := x mod 2 ^ 32.
Definition u64 (x : Z) : Z := x mod 2 ^ 64.
Definition i32 (x : Z) : Z := (x + 2 ^ 31) mod 2 ^ 32 - 2 ^ 31.
Definition i64 (x : Z) : Z := (x + 2 ^ 63) mod 2 ^ 64 - 2 ^ 63.

Notation "x '.&' y" := (Z.land x y) (at level 41, left associativity) : c_scope.
Notation "x '.|' y" := (Z.lor x y) (at level 43, left associativity) : c_scope.
Notation "x '<<' y" := (Z.shiftl x y) (at level 40, left associativity) : c_scope.
Notation "x '>>' y" := (Z.shiftr x y) (at level 40, left associativity) : c_scope.
(** [~x] on an unsigned 64 bit operand *)
Definition not64 (x : Z) : Z := u64 (Z.lnot x).
Open Scope c_scope.

Definition in_u8 (x : Z) : Prop := 0 <= x < 2 ^ 8.
Definition in_u16 (x : Z) : Prop := 0 <= x < 2 ^ 16.
Definition in_u32 (x : Z) : Prop := 0 <= x < 2 ^ 32.
Definition in_u64 (x : Z) : Prop := 0 <= x < 2 ^ 64.
Definition in_i32 (x : Z) : Prop := - 2 ^ 31 <= x < 2 ^ 31.

Create HintDb cint discriminated.

Lemma u8_range x : in_u8 (u8 x).
Proof. apply Z.mod_pos_bound. lia. Qed.
Lemma u16_range x : in_u16 (u16 x).
Proof. apply Z.mod_pos_bound. lia. Qed.
Lemma u32_range x : in_u32 (u32 x).
Proof. apply Z.mod_pos_bound. lia. Qed.
Lemma u64_range x : in_u64 (u64 x).
Proof. apply Z.mod_pos_bound. lia. Qed.
Lemma u8_id x : in_u8 x -> u8 x = x.
Proof. apply Z.mod_small. Qed.
Lemma u16_id x : in_u16 x -> u16 x = x.
Proof. apply Z.mod_small. Qed.
Lemma u32_id x : in_u32 x -> u32 x = x.
Proof. apply Z.mod_small. Qed.
Lemma u64_id x : in_u64 x -> u64 x = x.
Proof. apply Z.mod_small. Qed.
Lemma i32_id x : in_i32 x -> i32 x = x.
Proof. unfold in_i32, i32. intros. rewrite Z.mod_small; lia. Qed.
#[export] Hint Resolve u8_range u16_range u32_range u64_range : cint.

(** Unfold the range predicates and finish with [lia]. *)
Ltac crange := unfold in_u8, in_u16, in_u32, in_u64, in_i32 in *; lia.
(** Drop a conversion whose operand is provably in range. *)
Ltac cdrop :=
  repeat first
    [ rewrite u8_id by crange | rewrite u16_id by crange
    | rewrite u32_id by crange | rewrite u64_id by crange
    | rewrite i32_id by crange ].
(** Case analysis on the boolean tests of the code, turning each into the
    arithmetic fact it decides. *)
Ltac cases_if :=
  repeat match goal with
  | |- context [if ?b then _ else _] =>
      let E := fresh "E" in destruct b eqn:E
  end.
Ltac b2p :=
  repeat match goal with
  | H : (_ && _)%bool = true |- _ => apply andb_true_iff in H as [? ?]
  | H : (_ || _)%bool = false |- _ => apply orb_false_iff in H as [? ?]
  | H : negb _ = true |- _ => apply negb_true_iff in H
  | H : negb _ = false |- _ => apply negb_false_iff in H
  | H : (_ <? _) = true |- _ => apply Z.ltb_lt in H
  | H : (_ <? _) = false |- _ => apply Z.ltb_ge in H
  | H : (_ <=? _) = true |- _ => apply Z.leb_le in H
  | H : (_ <=? _) = false |- _ => apply Z.leb_gt in H
  | H : (_ =? _) = true |- _ => apply Z.eqb_eq in H
  | H : (_ =? _) = false |- _ => apply Z.eqb_neq in H
  end.

(** * Faults

    An execution the C standard leaves undefined, or which an [assert] or
    [abort] stops, is a value of [fault]; a definition that can reach one
    returns [result]. *)
Inductive fault := OutOfBounds | AssertFailed | NullDeref | UseAfterFree | SignedOverflow.
#[global] Instance fault_eq_dec : EqDecision fault.
Proof. solve_decision. Defined.

Inductive result (A : Type) :=
| Ok (a : A)
| Fault (f : fault).
Arguments Ok {A} a.
Arguments Fault {A} f.
#[global] Instance Ok_inj {A} : Inj (=) (=) (@Ok A).
Proof. by intros a b [= ->]. Qed.

#[global] Instance result_ret : MRet result := fun A a => Ok a.
#[global] Instance result_bind : MBind result :=
  fun A B k m => match m with Ok a => k a | Fault f => Fault f end.
#[global] Instance result_fmap : FMap result :=
  fun A B k m => match m with Ok a => Ok (k a) | Fault f => Fault f end.

(** [assert(b)] *)
Definition assert_ (b : bool) : result unit := if b then Ok tt else Fault AssertFailed.

(** An array access: an index outside the object is a fault. *)
Definition aget {A} (l : list A) (i : Z) : result A :=
  if i <? 0 then Fault OutOfBounds
  else match l !! Z.to_nat i with Some v => Ok v | None => Fault OutOfBounds end.
Definition aset {A} (l : list A) (i : Z) (v : A) : result (list A) :=
  if (i <? 0) || (Z.of_nat (length l) <=? i) then Fault OutOfBounds
  else Ok (<[Z.to_nat i := v]> l).

Lemma aget_ok {A} (l : list A) i v :
  0 <= i -> l !! Z.to_nat i = Some v -> aget l i = Ok v.
Proof. intros Hi Hl. unfold aget. destruct (Z.ltb_spec i 0); [lia|]. by rewrite Hl. Qed.
Lemma aget_inv {A} (l : list A) i v :
  aget l i = Ok v -> 0 <= i < Z.of_nat (length l) /\ l !! Z.to_nat i = Some v.
Proof.
  unfold aget. destruct (Z.ltb_spec i 0); [done|].
  destruct (l !! Z.to_nat i) eqn:E; [|done]. intros [= ->]. split; [|done].
  apply lookup_lt_Some in E. lia.
Qed.
Lemma aget_in_range {A} `{Inhabited A} (l : list A) i :
  0 <= i < Z.of_nat (length l) -> aget l i = Ok (l !!! Z.to_nat i).
Proof. intros Hi. apply aget_ok; [lia|]. apply list_lookup_lookup_total_lt. lia. Qed.
Lemma aset_ok {A} (l : list A) i v :
  0 <= i < Z.of_nat (length l) -> aset l i v = Ok (<[Z.to_nat i := v]> l).
Proof.
  intros Hi. unfold aset. destruct (Z.ltb_spec i 0); [lia|].
  destruct (Z.leb_spec (Z.of_nat (length l)) i); [lia|]. done.
Qed.

(** [for (i = a; i < a + n * step; i += step) if (!p(i)) return false; return true;] *)
Fixpoint for_all (p : Z -> result bool) (a step : Z) (n : nat) : result bool :=
  match n with
  | O => Ok true
  | S n' => b ← p a; if (b : bool) then for_all p (a + step) step n' else Ok false
  end.

(** [for (i = a; i < a + n * step; i += step) s = body(i, s);] *)
Fixpoint for_each {S} (body : Z -> S -> result S) (a step : Z) (n : nat) (s : S) : result S :=
  match n with
  | O => Ok s
  | Datatypes.S n' => s' ← body a s; for_each body (a + step) step n' s'
  end.

(** The number of iterations of [for (i = a; i < b; i += step)]. *)
Definition trips (a b step : Z) : nat := Z.to_nat ((b - a + step - 1) / step).

Lemma trips_1 a b : trips a b 1 = Z.to_nat (b - a).
Proof. unfold trips. f_equal. rewrite Z.div_1_r. lia. Qed.

Lemma forallb_map_seq (f : nat -> bool) i n :
  forallb f (seq (S i) n) = forallb (fun k => f (S k)) (seq i n).
Proof. revert i. induction n as [|n IH]; intros i; [done|]. cbn. by rewrite IH. Qed.
Lemma forallb_ext_in {A} (f g : A -> bool) l :
  (forall x, f x = g x) -> forallb f l = forallb g l.
Proof. intros H. induction l as [|x l IH]; cbn; [done|]. by rewrite H, IH. Qed.

(** What a checking loop computes when no access of it faults. *)
Lemma for_all_ok (p : Z -> result bool) (q : Z -> bool) a step n :
  (forall k, (k < n)%nat -> p (a + step * Z.of_nat k) = Ok (q (a + step * Z.of_nat k))) ->
  for_all p a step n = Ok (forallb (fun k => q (a + step * Z.of_nat k)) (seq 0 n)).
Proof.
  revert a. induction n as [|n IH]; intros a Hp; [done|].
  cbn [for_all]. pose proof (Hp 0%nat ltac:(lia)) as H0.
  rewrite Z.mul_0_r, Z.add_0_r in H0. rewrite H0. cbn [mbind result_bind].
  cbn [seq forallb]. rewrite Z.mul_0_r, Z.add_0_r.
  destruct (q a); [|done]. cbn [andb]. rewrite IH.
  - f_equal. rewrite forallb_map_seq. apply forallb_ext_in. intros k.
    f_equal. lia.
  - intros k Hk. specialize (Hp (S k) ltac:(lia)).
    replace (a + step + step * Z.of_nat k) with (a + step * Z.of_nat (S k)) by lia. done.
Qed.

Lemma forallb_seq_iff (f : nat -> bool) n :
  forallb f (seq 0 n) = true <-> forall k, (k < n)%nat -> f k = true.
Proof.
  rewrite forallb_forall. split; intros H k Hk.
  - apply H. apply in_seq. lia.
  - apply H. apply in_seq in Hk. lia.
Qed.
Lemma forallb_seq_false (f : nat -> bool) n :
  forallb f (seq 0 n) = false -> exists k, (k < n)%nat /\ f k = false.
Proof.
  assert (forall l, forallb f l = false -> exists x, In x l /\ f x = false) as H.
  { induction l as [|x l IH]; cbn; [done|]. intros [Hx|Hl]%andb_false_iff; [eauto|].
    destruct (IH Hl) as (y & ? & ?). eauto. }
  intros (k & Hk & ?)%H. apply in_seq in Hk. exists k. split; [lia|done].
Qed.

(** * Bits and alignment *)

Lemma testbit_not64 x n : 0 <= n < 64 -> Z.testbit (not64 x) n = negb (Z.testbit x n).
Proof.
  intros Hn. unfold not64, u64. rewrite Z.mod_pow2_bits_low by lia.
  apply Z.lnot_spec. lia.
Qed.

(** Masking with [~(2^k - 1)] rounds down to a multiple of [2^k]. *)
Lemma land_not64_pow2 x k :
  in_u64 x -> 0 <= k <= 64 -> x .& not64 (2 ^ k - 1) = 2 ^ k * (x / 2 ^ k).
Proof.
  intros Hx Hk. replace (2 ^ k - 1) with (Z.ones k) by (rewrite Z.ones_equiv; lia).
  apply Z.bits_inj'. intros n Hn. rewrite Z.land_spec.
  rewrite (Z.mul_comm (2 ^ k)), <- Z.shiftr_div_pow2, <- Z.shiftl_mul_pow2 by lia.
  rewrite Z.shiftl_spec by lia.
  destruct (Z.lt_ge_cases n 64) as [Hlt|Hge].
  - rewrite testbit_not64 by lia. rewrite Z.testbit_ones_nonneg by lia.
    destruct (Z.ltb_spec n k).
    + rewrite (Z.testbit_neg_r _ (n - k)) by lia. apply andb_false_r.
    + rewrite Z.shiftr_spec by lia. rewrite andb_true_r. f_equal. lia.
  - rewrite Z.shiftr_spec by lia.
    assert (forall m, 64 <= m -> Z.testbit x m = false) as Hhi.
    { intros m Hm. destruct (Z.eq_dec x 0) as [->|]; [apply Z.testbit_0_l|].
      apply Z.bits_above_log2; [unfold in_u64 in Hx; lia|].
      apply Z.log2_lt_pow2; [unfold in_u64 in Hx; lia|].
      eapply Z.lt_le_trans; [apply Hx|]. apply Z.pow_le_mono_r; lia. }
    rewrite !Hhi by lia. done.
Qed.

Lemma shiftr_div x k : 0 <= k -> x >> k = x / 2 ^ k.
Proof. intros. by apply Z.shiftr_div_pow2. Qed.
Lemma land_ones_mod x k : 0 <= k -> x .& (2 ^ k - 1) = x mod 2 ^ k.
Proof.
  intros. replace (2 ^ k - 1) with (Z.ones k) by (rewrite Z.ones_equiv; lia).
  by apply Z.land_ones.
Qed.

(** Two bytes are equal when their eight bits are. *)
Lemma byte_bits_inj x y :
  in_u8 x -> in_u8 y -> (forall j, 0 <= j < 8 -> Z.testbit x j = Z.testbit y j) -> x = y.
Proof.
  intros Hx Hy Hb. apply Z.bits_inj'. intros n Hn.
  destruct (Z.lt_ge_cases n 8); [apply Hb; lia|].
  assert (forall z, in_u8 z -> Z.testbit z n = false) as Hhi.
  { intros z Hz. unfold in_u8 in Hz. destruct (Z.eq_dec z 0) as [->|]; [apply Z.testbit_0_l|].
    apply Z.bits_above_log2; [lia|]. apply Z.log2_lt_pow2; [lia|].
    eapply Z.lt_le_trans; [apply Hz|]. apply Z.pow_le_mono_r; lia. }
  by rewrite !Hhi.
Qed.

Lemma lor_u8 x y : in_u8 x -> in_u8 y -> in_u8 (x .| y).
Proof.
  unfold in_u8. intros Hx Hy. split; [apply Z.lor_nonneg; lia|].
  destruct (Z.eq_dec (x .| y) 0) as [->|]; [lia|].
  assert (0 < Z.lor x y) by (pose proof (proj2 (Z.lor_nonneg x y)); lia).
  apply Z.log2_lt_pow2; [done|]. rewrite Z.log2_lor by lia.
  assert (forall z, 0 <= z < 2 ^ 8 -> Z.log2 z < 8) as Hl.
  { intros z Hz. destruct (Z.eq_dec z 0) as [->|]; [cbn; lia|]. apply Z.log2_lt_pow2; lia. }
  pose proof (Hl x Hx). pose proof (Hl y Hy). lia.
Qed.
Lemma land_u8 x y : in_u8 x -> 0 <= y -> in_u8 (x .& y).
Proof.
  unfold in_u8. intros Hx Hy. split; [apply Z.land_nonneg; lia|].
  assert (Z.land x y <= x); [|lia].
  replace x with (Z.land x y + Z.ldiff x y) at 2.
  - assert (0 <= Z.ldiff x y) by (apply Z.ldiff_nonneg; lia). lia.
  - rewrite Z.add_nocarry_lxor.
    + apply Z.bits_inj'. intros n Hn. rewrite Z.lxor_spec, Z.land_spec, Z.ldiff_spec.
      by destruct (Z.testbit x n), (Z.testbit y n).
    + apply Z.bits_inj'. intros n Hn. rewrite !Z.land_spec, Z.ldiff_spec, Z.testbit_0_l.
      by destruct (Z.testbit x n), (Z.testbit y n).
Qed.
#[export] Hint Resolve lor_u8 : cint.

(** * Lists *)

(** Changing an entry that is there. *)
Lemma alter_insert {A} (f : A -> A) (l : list A) (i : nat) a : l !! i = Some a -> alter f i l = <[i := f a]> l.
Proof.
  intros Ha. apply list_eq. intros j. destruct (decide (j = i)) as [->|].
  - rewrite list_lookup_alter_eq, Ha, list_lookup_insert_eq; [done|]. by eapply lookup_lt_Some.
  - by rewrite list_lookup_alter_ne, list_lookup_insert_ne.
Qed.

(** * Sums over a list *)

Fixpoint zsum {A} (f : A -> Z) (l : list A) : Z :=
  match l with [] => 0 | x :: l' => f x + zsum f l' end.

Section Zsum.
Context {A : Type} (f : A -> Z).

Lemma zsum_insert l i x y :
  l !! i = Some x -> zsum f (<[i := y]> l) = zsum f l - f x + f y.
Proof.
  revert i. induction l as [|z l IH]; intros i Hi; [done|]. destruct i as [|i].
  - injection Hi as ->. cbn. lia.
  - change (<[S i := y]> (z :: l)) with (z :: <[i := y]> l). cbn [zsum]. rewrite (IH i Hi). lia.
Qed.
Lemma zsum_app l1 l2 : zsum f (l1 ++ l2) = zsum f l1 + zsum f l2.
Proof. induction l1 as [|z l IH]; cbn; [done|]. lia. Qed.

Lemma zsum_nonneg l : (forall i x, l !! i = Some x -> 0 <= f x) -> 0 <= zsum f l.
Proof.
  induction l as [|z l IH]; intros Hf; cbn; [done|]. pose proof (Hf 0%nat z eq_refl).
  specialize (IH (fun i x => Hf (S i) x)). lia.
Qed.
Lemma zsum_lookup_le l i x :
  (forall i x, l !! i = Some x -> 0 <= f x) -> l !! i = Some x -> f x <= zsum f l.
Proof.
  revert i. induction l as [|z l IH]; intros i Hf Hi; [done|].
  pose proof (zsum_nonneg l (fun i x => Hf (S i) x)) as Hn. pose proof (Hf 0%nat z eq_refl).
  destruct i as [|i]; cbn in *.
  - injection Hi as ->. lia.
  - specialize (IH i (fun i x => Hf (S i) x) Hi). lia.
Qed.
Lemma zsum_scale k l : zsum (fun x => k * f x) l = k * zsum f l.
Proof. induction l as [|z l IH]; cbn; lia. Qed.
Lemma zsum_zero l : (forall i x, l !! i = Some x -> f x = 0) -> zsum f l = 0.
Proof.
  induction l as [|z l IH]; intros H; [done|]. cbn. rewrite (H 0%nat z eq_refl).
  rewrite IH; [done|]. intros i x Hi. exact (H (S i) x Hi).
Qed.
Lemma zsum_le_length l : (forall x, f x <= 1) -> zsum f l <= Z.of_nat (length l).
Proof.
  intros H1. induction l as [|z l IH]; cbn; [done|]. specialize (H1 z). lia.
Qed.
End Zsum.

Lemma zsum_ext {A} (f g : A -> Z) l :
  (forall i x, l !! i = Some x -> f x = g x) -> zsum f l = zsum g l.
Proof.
  induction l as [|z l IH]; intros H; [done|]. cbn. rewrite (H 0%nat z eq_refl).
  f_equal. apply IH. intros i x Hi. exact (H (S i) x Hi).
Qed.
