(* ===== verification/Timing.v ===== *)
(** * Timing: the monotonic clock helpers of [inc/dnbd3/shared/timing.h]

    A [ticks] value is a [struct timespec]: whole seconds and nanoseconds.
    The system clock is an argument: [timing_get] is given what
    [clock_gettime] returned and the base second recorded at start-up. *)

From S2P Require Import Prelude.

Record ticks := Ticks { tv_sec : Z; tv_nsec : Z }.
#[global] Instance ticks_eq_dec : EqDecision ticks.
Proof. solve_decision. Defined.

(** [clock_gettime] normalises the nanosecond part. *)
Definition ticks_wf (t : ticks) : Prop := 0 <= tv_nsec t < 1000000000.

Definition timing_get (clock basetime : ticks) : ticks :=
  Ticks (tv_sec clock - tv_sec basetime) (tv_nsec clock).
Definition timing_gets (clock basetime : ticks) (addSeconds : Z) : ticks :=
  let r := timing_get clock basetime in Ticks (tv_sec r + addSeconds) (tv_nsec r).
Definition timing_set (src : ticks) (secs : Z) : ticks :=
  Ticks (tv_sec src + secs) (tv_nsec src).
Definition timing_addSeconds (base : ticks) (addSeconds : Z) : ticks :=
  Ticks (tv_sec base + addSeconds) (tv_nsec base).

Definition timing_reached (timeout now : ticks) : bool := tv_sec timeout <=? tv_sec now.
Definition timing_1le2 (one two : ticks) : bool := timing_reached one two.
Definition timing_reachedPrecise (timeout now : ticks) : bool :=
  (tv_sec timeout <? tv_sec now)
  || ((tv_sec now =? tv_sec timeout) && (tv_nsec timeout <? tv_nsec now)).

Definition timing_diff (start end_ : ticks) : Z :=
  if tv_sec end_ <=? tv_sec start then 0
  else u32 ((tv_sec end_ - tv_sec start)
            + (if tv_nsec end_ <? tv_nsec start then -1 else 0)).

(** [timing_diffMs] and [timing_diffUs] are the same code at two scales: [per]
    units in a second, [nanos] nanoseconds in a unit. *)
Definition timing_diff_scaled (per nanos : Z) (start end_ : ticks) : Z :=
  if tv_sec end_ <? tv_sec start then 0
  else
    let diff := u64 (u64 (tv_sec end_ - tv_sec start) * per) in
    if tv_nsec end_ <=? tv_nsec start then
      if diff =? 0 then 0
      else u64 (diff - Z.quot (tv_nsec start - tv_nsec end_) nanos)
    else u64 (diff + Z.quot (tv_nsec end_ - tv_nsec start) nanos).
Definition timing_diffMs := timing_diff_scaled 1000 1000000.
Definition timing_diffUs := timing_diff_scaled 1000000 1000.

(** ** What the helpers compute *)

(** The instant in nanoseconds. *)
Definition nanos_of (t : ticks) : Z := tv_sec t * 1000000000 + tv_nsec t.

Section Differences.
Context (s e : ticks) (Hs : ticks_wf s) (He : ticks_wf e).

Lemma timing_reached_of_precise : timing_reachedPrecise s e = true -> timing_reached s e = true.
Proof.
  unfold timing_reachedPrecise, timing_reached. intros H.
  apply orb_true_iff in H as [H|H]; b2p; apply Z.leb_le; lia.
Qed.

(** The coarse test never fires a full second early. *)
Lemma timing_reached_early :
  timing_reached s e = true -> nanos_of s < nanos_of e + 1000000000.
Proof. unfold timing_reached, nanos_of, ticks_wf in *. intros H. b2p. lia. Qed.

Lemma timing_diff_floor :
  tv_sec e - tv_sec s < 2 ^ 32 ->
  timing_diff s e = Z.max 0 ((nanos_of e - nanos_of s) / 1000000000).
Proof.
  unfold timing_diff, nanos_of, ticks_wf in *. intros Hb.
  destruct (Z.leb_spec (tv_sec e) (tv_sec s)) as [Hle|Hlt].
  - assert ((tv_sec e * 1000000000 + tv_nsec e - (tv_sec s * 1000000000 + tv_nsec s))
              / 1000000000 < 1); [|lia].
    apply Z.div_lt_upper_bound; lia.
  - rewrite u32_id by (destruct (Z.ltb_spec (tv_nsec e) (tv_nsec s)); crange).
    rewrite Z.max_r by (apply Z.div_pos; lia).
    destruct (Z.ltb_spec (tv_nsec e) (tv_nsec s)).
    + apply Z.div_unique with (r := tv_nsec e - tv_nsec s + 1000000000); lia.
    + apply Z.div_unique with (r := tv_nsec e - tv_nsec s); lia.
Qed.

Context (per nanos : Z) (Hp : 0 < per) (Hpn : nanos * per = 1000000000).

Local Lemma nanos_pos : 0 < nanos.
Proof. nia. Qed.

(** [timing_diffMs] and [timing_diffUs] round towards the earlier unit only when
    the nanosecond part advanced; otherwise they round up. *)
Lemma timing_diff_scaled_spec :
  nanos_of s <= nanos_of e -> (tv_sec e - tv_sec s) * per + per < 2 ^ 64 ->
  timing_diff_scaled per nanos s e
  = if tv_nsec e <=? tv_nsec s
    then - ((nanos_of s - nanos_of e) / nanos)
    else (nanos_of e - nanos_of s) / nanos.
Proof.
  pose proof nanos_pos as Hn. unfold timing_diff_scaled, nanos_of, ticks_wf in *.
  intros Hle Hb. destruct (Z.ltb_spec (tv_sec e) (tv_sec s)); [lia|].
  set (d := tv_sec e - tv_sec s) in *. assert (0 <= d) by lia.
  assert (0 <= d * per) by nia.
  assert (d * per * nanos = d * 1000000000) as Hdp by (rewrite <- Hpn; ring).
  rewrite (u64_id d) by (unfold in_u64; nia). rewrite (u64_id (d * per)) by crange.
  destruct (Z.leb_spec (tv_nsec e) (tv_nsec s)) as [Hns|Hns].
  - set (g := tv_nsec s - tv_nsec e) in *.
    assert (0 <= g / nanos < per) as Hg.
    { split; [apply Z.div_pos; lia|]. apply Z.div_lt_upper_bound; lia. }
    destruct (Z.eqb_spec (d * per) 0) as [Hz|Hz].
    + assert (d = 0) by nia. assert (g = 0) by lia.
      replace (tv_sec s * 1000000000 + tv_nsec s - (tv_sec e * 1000000000 + tv_nsec e))
        with 0 by lia. by rewrite Z.div_0_l by lia.
    + rewrite Z.quot_div_nonneg by lia. rewrite u64_id by (unfold in_u64; nia).
      replace (tv_sec s * 1000000000 + tv_nsec s - (tv_sec e * 1000000000 + tv_nsec e))
        with (g + (- (d * per)) * nanos) by lia.
      rewrite Z.div_add by lia. lia.
  - set (g := tv_nsec e - tv_nsec s) in *.
    assert (0 <= g / nanos < per) as Hg.
    { split; [apply Z.div_pos; lia|]. apply Z.div_lt_upper_bound; lia. }
    rewrite Z.quot_div_nonneg by lia. rewrite u64_id by crange.
    replace (tv_sec e * 1000000000 + tv_nsec e - (tv_sec s * 1000000000 + tv_nsec s))
      with (g + d * per * nanos) by lia.
    rewrite Z.div_add by lia. lia.
Qed.
End Differences.

(** ** Theorem *)

(** For instants a program can observe, [timing_diff] is the elapsed time in
    whole seconds (zero if the order is reversed), while [timing_diffMs] and
    [timing_diffUs] round down only if the nanosecond part advanced: otherwise the
    elapsed time is rounded up to the next unit. *)
Theorem timing_differences s e :
  ticks_wf s -> ticks_wf e -> nanos_of s <= nanos_of e -> tv_sec e - tv_sec s < 2 ^ 32 ->
  timing_diff s e = (nanos_of e - nanos_of s) / 1000000000
  /\ timing_diffMs s e = (if tv_nsec e <=? tv_nsec s then - ((nanos_of s - nanos_of e) / 1000000)
                          else (nanos_of e - nanos_of s) / 1000000)
  /\ timing_diffUs s e = (if tv_nsec e <=? tv_nsec s then - ((nanos_of s - nanos_of e) / 1000)
                          else (nanos_of e - nanos_of s) / 1000).
Proof.
  intros Hs He Hle Hb. rewrite timing_diff_floor by done.
  rewrite Z.max_r by (apply Z.div_pos; lia). split; [done|].
  split; [apply timing_diff_scaled_spec|apply timing_diff_scaled_spec]; done || lia.
Qed.

Lemma timing_differences_witness :
  timing_diff (Ticks 1 500000000) (Ticks 3 0) = 1
  /\ timing_diffMs (Ticks 1 500000001) (Ticks 3 0) = 1500.
Proof.
  destruct (timing_differences (Ticks 1 500000000) (Ticks 3 0)) as (-> & _);
    [split; cbn; lia|split; cbn; lia|by vm_compute|by vm_compute|].
  destruct (timing_differences (Ticks 1 500000001) (Ticks 3 0)) as (_ & -> & _);
    [split; cbn; lia|split; cbn; lia|by vm_compute|by vm_compute|].
  split; reflexivity.
Defined.
