(* ===== verification/Types.v ===== *)
(** * Types: the structs of [inc/dnbd3/types.h] and [src/server/globals.h]

    One record per C struct, one field per member the program logic reads or
    writes; mutexes, thread handles and the wake-up signal are not data and are
    left out.  A pointer is a [ptr] ([0] is [NULL]); a weak reference
    ([reftypes.h]) to an object is the pointer it resolves to, or [None] for
    [NULL] (the counting protocol behind it is the subject of [RefCount]). *)

From S2P Require Import Prelude Timing.

Abbreviation ptr := Z (only parsing).
Definition NULL : ptr := 0.

(** ** Compile-time constants *)

Definition DNBD3_BLOCK_SIZE : Z := 4096.
Definition HASH_BLOCK_SIZE : Z := 1 << 24.
Definition MAX_PAYLOAD : Z := 1000.
Definition PROTOCOL_VERSION : Z := 3.
Definition NUMBER_SERVERS : Z := 8.

Definition SERVER_MAX_CLIENTS : Z := 4000.
Definition SERVER_MAX_IMAGES : Z := 5000.
Definition SERVER_MAX_ALTS : Z := 50.
Definition SERVER_GLOBAL_DUP_TIME : Z := 6.
Definition SERVER_BAD_UPLINK_MIN : Z := 10.
Definition SERVER_BAD_UPLINK_MAX : Z := 20.
Definition UPLINK_MAX_QUEUE : Z := 500.
Definition UPLINK_MAX_CLIENTS_PER_REQUEST : Z := 32.
Definition SERVER_UPLINK_QUEUELEN_THRES : Z := 900.
Definition CACHE_MAP_MAX_UNSAVED_BYTES : Z := 500 * 1000 * 1000.
Definition SERVER_UPLINK_IDLE_TIMEOUT : Z := 1800.
Definition SERVER_RTT_PROBES : Z := 5.
Definition MIN_SUPPORTED_CLIENT : Z := 2.
Definition MIN_SUPPORTED_SERVER : Z := 2.
Definition RTT_UNREACHABLE : Z := 134217727. (* 0x7FFFFFF *)

(** Background replication modes *)
Definition BGR_DISABLED : Z := 0.
Definition BGR_FULL : Z := 1.
Definition BGR_HASHBLOCK : Z := 2.

(** ** [types.h] *)

Definition HOST_NONE : Z := 0.
Definition HOST_IP4 : Z := 2.
Definition HOST_IP6 : Z := 10.

Record dnbd3_host_t := Host {
  host_addr : list Z;   (* 16 bytes, network representation *)
  host_port : Z;        (* network byte order *)
  host_type : Z;
}.
#[global] Instance host_eq_dec : EqDecision dnbd3_host_t.
Proof. solve_decision. Defined.

Definition CMD_GET_BLOCK : Z := 1.
Definition CMD_SELECT_IMAGE : Z := 2.
Definition CMD_GET_SERVERS : Z := 3.
Definition CMD_ERROR : Z := 4.
Definition CMD_KEEPALIVE : Z := 5.
Definition CMD_LATEST_RID : Z := 6.
Definition CMD_SET_CLIENT_MODE : Z := 7.
Definition CMD_GET_CRC32 : Z := 8.

(** ** [globals.h] *)

Record dnbd3_queue_client_t := QueueClient {
  qc_data : ptr;
  qc_handle : Z;
  qc_from : Z; qc_to : Z;
  qc_callback : ptr;
}.
#[global] Instance queue_client_eq_dec : EqDecision dnbd3_queue_client_t.
Proof. solve_decision. Defined.

Record dnbd3_queue_entry_t := QueueEntry {
  qe_handle : Z;
  qe_from : Z;
  qe_to : Z;
  qe_clients : list dnbd3_queue_client_t;
  qe_hopCount : Z;
  qe_sent : bool;
}.
#[global] Instance queue_entry_eq_dec : EqDecision dnbd3_queue_entry_t.
Proof. solve_decision. Defined.

(** A name space is a prefix of image names. *)
Record dnbd3_alt_server_t := AltServer {
  as_fails : Z;
  as_rttIndex : Z;
  as_rtt : list Z;
  as_isPrivate : bool;
  as_isClientOnly : bool;
  as_blocked : bool;
  as_lastFail : ticks;
  as_host : dnbd3_host_t;
  as_comment : string;
  as_nameSpaces : list string;
}.

Record dnbd3_alt_local_t := AltLocal {
  al_fails : Z;
  al_rttIndex : Z;
  al_rtt : list Z;
  al_blocked : bool;
  al_initDone : bool;
}.

Record dnbd3_server_connection_t := Conn {
  conn_fd : Z;
  conn_version : Z;
  conn_index : Z;
}.

Definition RTT_IDLE : Z := 0.
Definition RTT_INPROGRESS : Z := 1.
Definition RTT_DONTCHANGE : Z := 2.
Definition RTT_DOCHANGE : Z := 3.
Definition RTT_NOT_REACHABLE : Z := 4.

Record dnbd3_cache_map_t := CacheMapT {
  cm_dirty : bool;
  cm_unchanged : bool;
  cm_map : list Z;      (* one byte covers eight 4 KiB blocks *)
}.

Record image_problems := Problems {
  pr_read : bool;
  pr_write : bool;
  pr_changed : bool;
  pr_uplink : bool;
  pr_queue : bool;
}.

Record dnbd3_image_t := Image {
  img_path : string;
  img_name : string;
  img_cacheMap : option dnbd3_cache_map_t;
  img_virtualFilesize : Z;
  img_realFilesize : Z;
  img_atime : ticks;
  img_nextCompletenessEstimate : ticks;
  img_crc32 : option (list Z);
  img_masterCrc32 : Z;
  img_readFd : Z;
  img_completenessEstimate : Z;
  img_users : Z;
  img_id : Z;
  img_problem : image_problems;
  img_rid : Z;
  img_accessed : bool;
}.

(** ** Field updates *)

Definition img_set_cacheMap (c : option dnbd3_cache_map_t) (i : dnbd3_image_t) : dnbd3_image_t :=
  Image (img_path i) (img_name i) c (img_virtualFilesize i) (img_realFilesize i) (img_atime i)
    (img_nextCompletenessEstimate i) (img_crc32 i) (img_masterCrc32 i) (img_readFd i)
    (img_completenessEstimate i) (img_users i) (img_id i) (img_problem i) (img_rid i)
    (img_accessed i).
Definition img_set_problem (p : image_problems) (i : dnbd3_image_t) : dnbd3_image_t :=
  Image (img_path i) (img_name i) (img_cacheMap i) (img_virtualFilesize i) (img_realFilesize i)
    (img_atime i) (img_nextCompletenessEstimate i) (img_crc32 i) (img_masterCrc32 i) (img_readFd i)
    (img_completenessEstimate i) (img_users i) (img_id i) p (img_rid i) (img_accessed i).
Definition img_set_estimate (e : Z) (next : ticks) (i : dnbd3_image_t) : dnbd3_image_t :=
  Image (img_path i) (img_name i) (img_cacheMap i) (img_virtualFilesize i) (img_realFilesize i)
    (img_atime i) next (img_crc32 i) (img_masterCrc32 i) (img_readFd i) e (img_users i) (img_id i)
    (img_problem i) (img_rid i) (img_accessed i).

Definition cm_set_map (m : list Z) (c : dnbd3_cache_map_t) : dnbd3_cache_map_t :=
  CacheMapT (cm_dirty c) (cm_unchanged c) m.
Definition cm_set_dirty (b : bool) (c : dnbd3_cache_map_t) : dnbd3_cache_map_t :=
  CacheMapT b (cm_unchanged c) (cm_map c).
Definition pr_set_queue (b : bool) (p : image_problems) : image_problems :=
  Problems (pr_read p) (pr_write p) (pr_changed p) (pr_uplink p) b.
Definition pr_set_uplink (b : bool) (p : image_problems) : image_problems :=
  Problems (pr_read p) (pr_write p) (pr_changed p) b (pr_queue p).
Definition pr_set_write (b : bool) (p : image_problems) : image_problems :=
  Problems (pr_read p) b (pr_changed p) (pr_uplink p) (pr_queue p).
