(* ===== verification/Helper.v ===== *)
(** * Helper: address and string helpers of [src/server/helper.c] and [helper.h]

    A C string is a [string]; a buffer that a function shortens in place is the
    string up to the first terminator.  [inet_pton] and [inet_ntop] are library
    functions and arguments of the definitions that call them. *)

From Stdlib Require Import Ascii.
From stdpp Require Import sets.
From S2P Require Import Prelude Timing Types.

Abbreviation chars := String.list_ascii_of_string.
Abbreviation unchars := String.string_of_list_ascii.

(** ** Comparing addresses *)

Definition addrLen (type : Z) : nat := if type =? HOST_IP4 then 4%nat else 16%nat.
Definition isSameAddress (a b : dnbd3_host_t) : bool :=
  (host_type a =? host_type b)
  && bool_decide (take (addrLen (host_type a)) (host_addr a) = take (addrLen (host_type a)) (host_addr b)).
Definition isSameAddressPort (a b : dnbd3_host_t) : bool :=
  (host_type a =? host_type b) && (host_port a =? host_port b)
  && bool_decide (take (addrLen (host_type a)) (host_addr a) = take (addrLen (host_type a)) (host_addr b)).

(** ** Strings *)

Fixpoint dropWhile {A} (p : A -> bool) (l : list A) : list A :=
  match l with [] => [] | x :: r => if p x then dropWhile p r else l end.
(** Overwrite the characters at the end that satisfy [p]. *)
Definition dropEnd (p : ascii -> bool) (s : string) : string :=
  unchars (rev (dropWhile p (rev (chars s)))).

Definition remove_trailing_slash (s : string) : string := dropEnd (Ascii.eqb "/") s.
Definition is_trimmed (c : ascii) : bool :=
  Ascii.eqb c "013" || Ascii.eqb c "010" || Ascii.eqb c " " || Ascii.eqb c "009".
Definition trim_right (s : string) : string := dropEnd is_trimmed s.

Definition strend (s : option string) (suffix : option string) : bool :=
  match s, suffix with
  | None, _ => false
  | Some _, None => true
  | Some s, Some suffix =>
      if (suffix =? "")%string then true
      else
        let len1 := String.length s in
        let len2 := String.length suffix in
        if (len1 <? len2)%nat then false
        else (String.substring (len1 - len2) len2 s =? suffix)%string
  end.

(** ** [atoi] and byte order *)

Definition digit (c : ascii) : option Z :=
  let n := Z.of_N (N_of_ascii c) - 48 in if (0 <=? n) && (n <=? 9) then Some n else None.
Fixpoint digits (s : list ascii) (acc : Z) : Z :=
  match s with
  | c :: r => match digit c with Some d => digits r (acc * 10 + d) | None => acc end
  | [] => acc
  end.
Definition is_space (c : ascii) : bool :=
  let n := Z.of_N (N_of_ascii c) in (n =? 32) || ((9 <=? n) && (n <=? 13)).
Definition atoi (s : string) : Z :=
  match dropWhile is_space (chars s) with
  | c :: r => if Ascii.eqb c "-" then - digits r 0
              else if Ascii.eqb c "+" then digits r 0 else digits (c :: r) 0
  | [] => 0
  end.

(** The host is little endian. *)
Definition htons (p : Z) : Z := ((p .& 255) << 8) .| ((p >> 8) .& 255).
Definition ntohs (p : Z) : Z := htons p.

(** [%d] *)
Fixpoint print_digits (fuel : nat) (n : Z) : list ascii :=
  let c := ascii_of_N (Z.to_N (48 + n mod 10)) in
  match fuel with
  | O => [c]
  | S f => if n <? 10 then [c] else print_digits f (n / 10) ++ [c]
  end.
Definition print_port (p : Z) : string := unchars (print_digits 5 p).

(** ** Addresses *)

Definition PORT : Z := 5003.

(** Split at the last [':']. *)
Definition splitPort (s : string) : option (string * string) :=
  let r := rev (chars s) in
  let port := list.list_find (fun c => c = ":"%char) r in
  match port with
  | None => None
  | Some (i, _) => Some (unchars (rev (drop (S i) r)), unchars (rev (take i r)))
  end.

(** [*string == '[' && *(portpos - 1) == ']']: step over the brackets. *)
Definition stripBrackets (s : string) : string :=
  match chars s with
  | c :: r =>
      if Ascii.eqb c "[" then
        match rev r with
        | d :: r' => if Ascii.eqb d "]" then unchars (rev r') else s
        | [] => s
        end
      else s
  | [] => s
  end.

Definition padAddr (a : list Z) : list Z := a ++ replicate (16 - length a) 0.

Section Addresses.
Context (inet_pton4 inet_pton6 : string -> option (list Z)).
Context (inet_ntop4 inet_ntop6 : list Z -> string).

Definition parseIp (s : string) (port : Z) : option dnbd3_host_t :=
  match inet_pton4 s with
  | Some v4 => Some (Host (padAddr v4) port HOST_IP4)
  | None => match inet_pton6 s with
            | Some v6 => Some (Host v6 port HOST_IP6)
            | None => None
            end
  end.
Definition parse_address (s : string) : option dnbd3_host_t :=
  match parseIp s (htons PORT) with
  | Some h => Some h
  | None =>
      match splitPort s with
      | None => None
      | Some (ip, port) =>
          let p := atoi port in
          if (p <? 1) || (65535 <? p) then None else parseIp (stripBrackets ip) (htons p)
      end
  end.

(** The text written, or [None] for an address type without one; a buffer the
    address does not fit leaves the terminator unwritten. *)
Definition ntop (ip : string) (size : Z) : result string :=
  if Z.of_nat (String.length ip) <? size then Ok ip else Fault OutOfBounds.
Definition host_to_string (h : dnbd3_host_t) (targetlen : Z) : result (option string) :=
  if targetlen <? 10 then Ok None
  else
    let port := if host_port h =? 0 then "" else ":" +:+ print_port (ntohs (host_port h)) in
    if host_type h =? HOST_IP6 then
      ip ← ntop (inet_ntop6 (host_addr h)) (targetlen - 10);
      Ok (Some ("[" +:+ ip +:+ "]" +:+ port))
    else if host_type h =? HOST_IP4 then
      ip ← ntop (inet_ntop4 (take 4 (host_addr h))) (targetlen - 8);
      Ok (Some (ip +:+ port))
    else Ok None.
End Addresses.

(** ** Facts *)

Lemma chars_unchars l : chars (unchars l) = l.
Proof. apply String.list_ascii_of_string_of_list_ascii. Qed.
Lemma unchars_chars s : unchars (chars s) = s.
Proof. apply String.string_of_list_ascii_of_string. Qed.
Lemma chars_app s t : chars (s +:+ t) = (chars s ++ chars t)%list.
Proof. induction s as [|c s IH]; [done|]. by apply (f_equal (cons c)). Qed.

(** Comparing addresses is an equivalence. *)
Lemma isSameAddressPort_spec a b :
  isSameAddressPort a b = true <->
  host_type a = host_type b /\ host_port a = host_port b
  /\ take (addrLen (host_type a)) (host_addr a) = take (addrLen (host_type a)) (host_addr b).
Proof.
  unfold isSameAddressPort. rewrite !andb_true_iff, !Z.eqb_eq, bool_decide_eq_true. tauto.
Qed.
#[global] Instance same_host_equiv : Equivalence (fun a b => isSameAddressPort a b = true).
Proof.
  split; intros a; intros; rewrite ?isSameAddressPort_spec in *.
  - done.
  - intuition congruence.
  - intuition congruence.
Qed.

(** Decide the comparisons of a goal by [lia] and simplify the booleans. *)
Ltac bit_cases :=
  repeat match goal with
         | |- context [?a <=? ?b] => destruct (Z.leb_spec a b); try lia
         | |- context [?a <? ?b] => destruct (Z.ltb_spec a b); try lia
         end; rewrite ?andb_true_r, ?andb_false_r, ?orb_false_r, ?orb_true_r; try reflexivity.

Lemma testbit_htons p n :
  0 <= n -> Z.testbit (htons p) n =
    if n <? 8 then Z.testbit p (n + 8) else if n <? 16 then Z.testbit p (n - 8) else false.
Proof.
  intros Hn. unfold htons. change 255 with (Z.ones 8). rewrite Z.lor_spec, Z.shiftl_spec by lia.
  rewrite !Z.land_spec, Z.shiftr_spec, !Z.testbit_ones by lia. bit_cases.
Qed.
Lemma htons_involutive p : in_u16 p -> htons (htons p) = p.
Proof.
  intros Hp. apply Z.bits_inj'. intros n Hn. rewrite testbit_htons by lia.
  destruct (Z.ltb_spec n 8); [|destruct (Z.ltb_spec n 16)].
  - rewrite testbit_htons by lia. bit_cases. f_equal. lia.
  - rewrite testbit_htons by lia. bit_cases. f_equal. lia.
  - symmetry. rewrite <- (u16_id p Hp). apply Z.mod_pow2_bits_high. lia.
Qed.

Lemma htons_u16 p : in_u16 (htons p).
Proof.
  assert (htons p = u16 (htons p)) as ->; [|apply u16_range].
  apply Z.bits_inj'. intros n Hn. unfold u16. destruct (Z.lt_ge_cases n 16).
  - by rewrite Z.mod_pow2_bits_low by lia.
  - rewrite Z.mod_pow2_bits_high, testbit_htons by lia. bit_cases.
Qed.

Lemma digit_print n : 0 <= n -> digit (ascii_of_N (Z.to_N (48 + n mod 10))) = Some (n mod 10).
Proof.
  intros Hn. pose proof (Z.mod_pos_bound n 10 ltac:(lia)). unfold digit.
  rewrite N_ascii_embedding by lia. rewrite Z2N.id by lia.
  replace (48 + n mod 10 - 48) with (n mod 10) by lia.
  destruct (Z.leb_spec 0 (n mod 10)); [|lia]. by destruct (Z.leb_spec (n mod 10) 9); [|lia].
Qed.
Lemma digits_app_digits l c acc d :
  (forall x, x ∈ l -> is_Some (digit x)) -> digit c = Some d ->
  digits (l ++ [c]) acc = digits l acc * 10 + d.
Proof.
  revert acc. induction l as [|x l IH]; intros acc Hl Hc; cbn.
  - by rewrite Hc.
  - destruct (Hl x) as [dx ->]; [by left|]. apply IH; [|done].
    intros y Hy. apply Hl. by right.
Qed.
Lemma print_digits_digit f n : 0 <= n -> forall x, x ∈ print_digits f n -> is_Some (digit x).
Proof.
  revert n. induction f as [|f IH]; intros n Hn x; cbn [print_digits].
  - intros ->%list_elem_of_singleton. rewrite digit_print by lia. eauto.
  - destruct (n <? 10).
    + intros ->%list_elem_of_singleton. rewrite digit_print by lia. eauto.
    + intros [Hx| ->%list_elem_of_singleton]%elem_of_app.
      * apply (IH (n / 10)); [|done]. by apply Z.div_pos.
      * rewrite digit_print by lia. eauto.
Qed.
Lemma digits_print f n : 0 <= n < 10 ^ Z.of_nat (S f) -> digits (print_digits f n) 0 = n.
Proof.
  revert n. induction f as [|f IH]; intros n Hn; cbn [print_digits].
  - cbn [digits]. rewrite digit_print by lia. rewrite Z.mod_small; lia.
  - destruct (Z.ltb_spec n 10).
    + cbn [digits]. rewrite digit_print by lia. rewrite Z.mod_small; lia.
    + rewrite (digits_app_digits _ _ _ (n mod 10)).
      * rewrite IH; [pose proof (Z.div_mod n 10); lia|]. split; [by apply Z.div_pos; lia|].
        apply Z.div_lt_upper_bound; [lia|]. rewrite <- Z.pow_succ_r by lia.
        replace (Z.succ (Z.of_nat (S f))) with (Z.of_nat (S (S f))) by lia. lia.
      * apply print_digits_digit. by apply Z.div_pos; lia.
      * apply digit_print. lia.
Qed.

Lemma digit_not_space c : is_Some (digit c) -> is_space c = false /\ Ascii.eqb c "-" = false /\ Ascii.eqb c "+" = false /\ c <> ":"%char.
Proof. destruct c as [[] [] [] [] [] [] [] []]; vm_compute; intros [? ?]; try done; repeat split; done. Qed.
Lemma atoi_print p : 0 <= p <= 65535 -> atoi (print_port p) = p.
Proof.
  intros Hp. unfold atoi, print_port. rewrite chars_unchars.
  pose proof (digits_print 5 p ltac:(lia)) as Hd. pose proof (print_digits_digit 5 p ltac:(lia)) as Hx.
  destruct (print_digits 5 p) as [|c r]; [done|].
  destruct (digit_not_space c) as (H1 & H2 & H3 & _); [by apply Hx; left|].
  cbn [dropWhile]. by rewrite H1, H2, H3.
Qed.
Lemma splitPort_app ip port :
  ":"%char ∉ chars port -> splitPort (ip +:+ ":" +:+ port) = Some (ip, port).
Proof.
  intros Hn. unfold splitPort. rewrite !chars_app. change (chars ":") with [":"%char].
  rewrite !rev_app_distr. cbn [rev app]. rewrite <- app_assoc. cbn [app].
  rewrite (list_find_app_r _ (rev (chars port))).
  - cbn. rewrite decide_True by done. cbn.
    rewrite take_app_length, drop_app_ge by lia.
    replace (S (length (rev (chars port))) - length (rev (chars port)))%nat with 1%nat by lia.
    cbn [drop]. rewrite drop_0. by rewrite !rev_involutive, !unchars_chars.
  - apply list_find_None, list.Forall_forall. intros c Hc ->. apply Hn.
    apply list_elem_of_In, in_rev, list_elem_of_In, Hc.
Qed.
Lemma stripBrackets_wrap s : stripBrackets ("[" +:+ s +:+ "]") = s.
Proof.
  unfold stripBrackets. rewrite !chars_app. cbn [app chars].
  change (chars "[") with ["["%char]. change (chars "]") with ["]"%char]. cbn [app].
  rewrite rev_app_distr. cbn. by rewrite rev_involutive, unchars_chars.
Qed.
Lemma stripBrackets_plain s : head (chars s) <> Some "["%char -> stripBrackets s = s.
Proof.
  unfold stripBrackets. destruct (chars s) as [|c r]; [done|]. intros H.
  destruct (Ascii.eqb_spec c "["); [by subst|done].
Qed.

(** ** Printing an address and reading it back *)

Section RoundTrip.
Context (inet_pton4 inet_pton6 : string -> option (list Z)).
Context (inet_ntop4 inet_ntop6 : list Z -> string).
Context (h : dnbd3_host_t).

(** What [inet_pton(3)] documents: an IPv4 address has no [':'], an IPv6 address no
    ['['] and a dotted quad only as its last part; and what [inet_ntop] prints is
    read back, and is in the syntax of its family. *)
Record inet_laws : Prop := {
  pton4_no_colon : forall s, ":"%char ∈ chars s -> inet_pton4 s = None;
  pton6_no_bracket : forall s, "["%char ∈ chars s -> inet_pton6 s = None;
  pton6_dotted_last : forall s t, "."%char ∈ chars s -> inet_pton6 (s +:+ ":" +:+ t) = None;
  pton6_not_dotted : forall s, ":"%char ∉ chars s -> inet_pton6 s = None;
  pton4_ntop4 : host_type h = HOST_IP4 -> inet_pton4 (inet_ntop4 (take 4 (host_addr h))) = Some (take 4 (host_addr h));
  pton6_ntop6 : host_type h = HOST_IP6 -> inet_pton6 (inet_ntop6 (host_addr h)) = Some (host_addr h);
  ntop4_dotted : host_type h = HOST_IP4 -> "."%char ∈ chars (inet_ntop4 (take 4 (host_addr h)));
  ntop4_digit : host_type h = HOST_IP4 ->
    exists d, head (chars (inet_ntop4 (take 4 (host_addr h)))) = Some d /\ is_Some (digit d);
  ntop6_colon : host_type h = HOST_IP6 -> ":"%char ∈ chars (inet_ntop6 (host_addr h));
}.

(** A host as the program builds it: 16 bytes, the unused ones 0, and a port. *)
Definition host_wf : Prop :=
  length (host_addr h) = 16%nat /\ in_u16 (host_port h) /\ host_port h <> 0
  /\ (host_type h = HOST_IP4 -> drop 4 (host_addr h) = replicate 12 0).

Lemma port_text : host_wf ->
  let p := ntohs (host_port h) in 1 <= p <= 65535 /\ (":"%char ∉ chars (print_port p)) /\ htons p = host_port h.
Proof.
  intros (_ & Hp & Hn & _) p. assert (htons p = host_port h) as He by by apply htons_involutive.
  pose proof (htons_u16 (host_port h)) as Hr. fold (ntohs (host_port h)) in Hr. fold p in Hr.
  assert (p <> 0) by (intros E; apply Hn; rewrite <- He, E; reflexivity).
  split_and!; [crange|crange| |done].
  unfold print_port. rewrite chars_unchars. intros Hx%print_digits_digit%digit_not_space; [tauto|crange].
Qed.

Lemma parse_host_to_string_spec len s :
  inet_laws -> host_wf ->
  host_to_string inet_ntop4 inet_ntop6 h len = Ok (Some s) ->
  parse_address inet_pton4 inet_pton6 s = Some h.
Proof.
  intros L Hw. destruct (port_text Hw) as (Hp & Hc & Hh). destruct Hw as (Hl & Hu & Hn & Hz).
  unfold host_to_string. destruct (len <? 10); [done|].
  destruct (Z.eqb_spec (host_port h) 0); [done|].
  unfold parse_address.
  destruct (Z.eqb_spec (host_type h) HOST_IP6) as [H6|_]; [|destruct (Z.eqb_spec (host_type h) HOST_IP4) as [H4|_]; [|done]].
  - unfold ntop. destruct (_ <? _); [|done]. cbn [mbind result_bind]. intros [= <-].
    set (ip := inet_ntop6 (host_addr h)). set (port := print_port _).
    assert ("[" +:+ ip +:+ "]" +:+ ":" +:+ port = ("[" +:+ ip +:+ "]") +:+ ":" +:+ port) as ->.
    { rewrite <- (unchars_chars ("[" +:+ _)), <- (unchars_chars (("[" +:+ _) +:+ _)). f_equal.
      rewrite !chars_app. by rewrite <- !app_assoc. }
    unfold parseIp at 1. rewrite (pton4_no_colon L), (pton6_no_bracket L), splitPort_app; [|done|..].
    2,3: rewrite !chars_app; change (chars "[") with ["["%char]; change (chars ":") with [":"%char]; set_unfold; tauto.
    unfold port. rewrite atoi_print by lia.
    destruct (Z.ltb_spec (ntohs (host_port h)) 1); [lia|].
    destruct (Z.ltb_spec 65535 (ntohs (host_port h))); [lia|]. cbn [orb].
    rewrite stripBrackets_wrap. unfold parseIp. unfold ip.
    rewrite (pton4_no_colon L), (pton6_ntop6 L), Hh by (by try apply (ntop6_colon L)).
    destruct h; cbn in *; by subst.
  - unfold ntop. destruct (_ <? _); [|done]. cbn [mbind result_bind]. intros [= <-].
    set (ip := inet_ntop4 (take 4 (host_addr h))). set (port := print_port _).
    unfold parseIp at 1. rewrite (pton4_no_colon L), (pton6_dotted_last L), splitPort_app; [|done|..].
    2: apply (ntop4_dotted L H4).
    2: rewrite !chars_app; change (chars ":") with [":"%char]; set_unfold; tauto.
    unfold port. rewrite atoi_print by lia.
    destruct (Z.ltb_spec (ntohs (host_port h)) 1); [lia|].
    destruct (Z.ltb_spec 65535 (ntohs (host_port h))); [lia|]. cbn [orb].
    rewrite stripBrackets_plain; [|].
    + unfold parseIp, ip. rewrite (pton4_ntop4 L H4), Hh. unfold padAddr.
      rewrite length_take, Hl. cbn [Nat.min Nat.sub]. rewrite <- Hz by done. rewrite take_drop.
      destruct h; cbn in *; by subst.
    + intros E. destruct (ntop4_digit L H4) as (d & Hd & [x Hx]). fold ip in Hd. by simplify_eq.
Qed.
End RoundTrip.

(** Writing an address with its port and parsing the text again gives the same
    host, for IPv4 and (in brackets) for IPv6, whatever the buffer size the text
    fits in. *)
Theorem host_text_roundtrip inet_pton4 inet_pton6 inet_ntop4 inet_ntop6 h len s :
  inet_laws inet_pton4 inet_pton6 inet_ntop4 inet_ntop6 h -> host_wf h ->
  host_to_string inet_ntop4 inet_ntop6 h len = Ok (Some s) ->
  parse_address inet_pton4 inet_pton6 s = Some h.
Proof. apply parse_host_to_string_spec. Qed.

(** A library that knows one address of each family. *)
Definition demo_pton4 (s : string) : option (list Z) :=
  if decide (s = "10.0.0.1") then Some [10; 0; 0; 1] else None.
Definition demo_pton6 (s : string) : option (list Z) :=
  if decide (s = "fe80::1") then Some (254 :: 128 :: replicate 13 0 ++ [1]) else None.
Definition demo_host6 : dnbd3_host_t := Host (254 :: 128 :: replicate 13 0 ++ [1]) (htons 5003) HOST_IP6.
Lemma demo_inet_laws : inet_laws demo_pton4 demo_pton6 (fun _ => "10.0.0.1") (fun _ => "fe80::1") demo_host6.
Proof.
  split; try (vm_compute; done); unfold demo_pton4, demo_pton6.
  - intros s Hs%(bool_decide_eq_true_2 _). destruct (decide _) as [->|]; [|done]. by vm_compute in Hs.
  - intros s Hs%(bool_decide_eq_true_2 _). destruct (decide _) as [->|]; [|done]. by vm_compute in Hs.
  - intros s t Hs. destruct (decide _) as [E|]; [|done]. exfalso.
    assert ("."%char ∈ chars "fe80::1") as Hd%(bool_decide_eq_true_2 _); [|by vm_compute in Hd].
    rewrite <- E, chars_app. apply elem_of_app. by left.
  - intros s Hs%(bool_decide_eq_true_2 _). destruct (decide _) as [->|]; [|done]. by vm_compute in Hs.
  - intros _. by apply (bool_decide_eq_true_1 _).
Qed.
Lemma host_text_roundtrip_witness :
  host_to_string (fun _ => "10.0.0.1") (fun _ => "fe80::1") demo_host6 48 = Ok (Some "[fe80::1]:5003")
  /\ parse_address demo_pton4 demo_pton6 "[fe80::1]:5003" = Some demo_host6.
Proof.
  split; [by vm_compute|].
  apply (host_text_roundtrip demo_pton4 demo_pton6 (fun _ => "10.0.0.1") (fun _ => "fe80::1") demo_host6 48).
  - apply demo_inet_laws.
  - vm_compute. split_and!; done.
  - by vm_compute.
Defined.
