(* ===== verification/CacheMap.v ===== *)
(** * CacheMap: which 4 KiB blocks of an image are stored locally

    The bitmap routines of [src/server/image.c] and [src/server/image.h].  A
    concurrent writer changes single bytes atomically; a call is modelled as it
    runs without interference on the bytes it touches.

    The specification side sees an image as the set of its cached blocks
    ([is_cached]); the theorems of the last section show that every routine
    implements the obvious operation on that set. *)

From S2P Require Import Prelude Timing Types.

(** ** Definitions *)

(** [bytes] is an unsigned 64 bit size; the result is converted to [int]. *)
Definition IMGSIZE_TO_MAPBYTES (bytes : Z) : Z := i32 (u64 (bytes + (1 << 15) - 1) >> 15).
Definition IMGSIZE_TO_HASHBLOCKS (bytes : Z) : Z :=
  i32 (u64 (bytes + HASH_BLOCK_SIZE - 1) / HASH_BLOCK_SIZE).

(** The masks [fb] and [lb]: the bits of the first byte from [start] on, and the
    bits of the last byte up to the one that holds [end - 1]. *)
Definition first_mask (start : Z) : Z := u8 (255 << ((start >> 12) .& 7)).
Definition last_mask (end_ : Z) : Z :=
  u8 (Z.lnot (255 << (((u64 (end_ - 1) >> 12) .& 7) + 1))).

Definition image_isRangeCachedUnsafe (cache : dnbd3_cache_map_t) (start end_ : Z) : result bool :=
  let map := cm_map cache in
  let firstByteInMap := start >> 15 in
  let lastByteInMap := u64 (end_ - 1) >> 15 in
  let fb := first_mask start in
  let lb := last_mask end_ in
  if firstByteInMap =? lastByteInMap then
    b ← aget map firstByteInMap;
    Ok ((b .& (fb .& lb)) =? (fb .& lb))
  else
    b ← aget map firstByteInMap;
    if negb ((b .& fb) =? fb) then Ok false else
    b ← aget map lastByteInMap;
    if negb ((b .& lb) =? lb) then Ok false else
    for_all (fun pos => v ← aget map pos; Ok (v =? 255))
      (firstByteInMap + 1) 1 (trips (firstByteInMap + 1) lastByteInMap 1).

Definition image_isHashBlockComplete (cache : option dnbd3_cache_map_t) (block realFilesize : Z)
  : result bool :=
  match cache with
  | None => Ok true
  | Some cache =>
      let cacheMap := cm_map cache in
      let end_ := u64 (u64 (block + 1) * HASH_BLOCK_SIZE) in
      if end_ <=? realFilesize then
        let startCacheIndex := i32 (u64 (block * HASH_BLOCK_SIZE) / (DNBD3_BLOCK_SIZE * 8)) in
        let endCacheIndex := startCacheIndex + i32 (HASH_BLOCK_SIZE / (DNBD3_BLOCK_SIZE * 8)) in
        for_all (fun i => v ← aget cacheMap i; Ok (v =? 255))
          startCacheIndex 1 (trips startCacheIndex endCacheIndex 1)
      else
        let mapPos := u64 (block * HASH_BLOCK_SIZE) in
        for_all (fun mapPos =>
                   v ← aget cacheMap (mapPos >> 15);
                   Ok (negb ((v .& (1 << ((mapPos >> 12) .& 7))) =? 0)))
          mapPos DNBD3_BLOCK_SIZE (trips mapPos realFilesize DNBD3_BLOCK_SIZE)
  end.

(** [malloc] leaves the members the function does not set at indeterminate
    values, [junk]. *)
Definition allocCacheMap (junk : bool * bool) (image : dnbd3_image_t) (complete : bool)
  : dnbd3_image_t :=
  let val := if complete then 255 else 0 in
  let byteSize := IMGSIZE_TO_MAPBYTES (img_virtualFilesize image) in
  let cache := CacheMapT junk.1 junk.2 (replicate (Z.to_nat byteSize) val) in
  match img_cacheMap image with
  | Some _ => image
  | None => img_set_cacheMap (Some cache) image
  end.

(** An atomic read-modify-write of one byte; returns the old value. *)
Definition atomic_fetch (m : list Z) (i : Z) (f : Z -> Z) : result (Z * list Z) :=
  o ← aget m i; m' ← aset m i (f o); Ok (o, m').

(** The critical part of [image_updateCachemap]: set or clear the bits of the
    block range, and tell whether a bit was newly set. *)
Definition updateMapBits (m : list Z) (start end_ : Z) (set : bool) : result (bool * list Z) :=
  let firstByteInMap := start >> 15 in
  let lastByteInMap := u64 (end_ - 1) >> 15 in
  let fb := first_mask start in
  let lb := last_mask end_ in
  if firstByteInMap =? lastByteInMap then
    if set then
      '(o, m) ← atomic_fetch m firstByteInMap (fun o => o .| (fb .& lb));
      Ok (negb (o =? (o .| (fb .& lb))), m)
    else
      '(_, m) ← atomic_fetch m firstByteInMap (fun o => o .& u8 (Z.lnot (fb .& lb)));
      Ok (false, m)
  else
    '(news, m) ←
      (if set then
         '(fo, m) ← atomic_fetch m firstByteInMap (fun o => o .| fb);
         '(lo, m) ← atomic_fetch m lastByteInMap (fun o => o .| lb);
         Ok (negb (fo =? (fo .| fb)) || negb (lo =? (lo .| lb)), m)
       else
         '(_, m) ← atomic_fetch m firstByteInMap (fun o => o .& u8 (Z.lnot fb));
         '(_, m) ← atomic_fetch m lastByteInMap (fun o => o .& u8 (Z.lnot lb));
         Ok (false, m));
    let nval := if set then 255 else 0 in
    for_each (fun pos s =>
                '(o, m) ← atomic_fetch s.2 pos (fun _ => nval);
                Ok (s.1 || (negb (o =? nval) && set), m))
      (firstByteInMap + 1) 1 (trips (firstByteInMap + 1) lastByteInMap 1) (news, m).

(** The hash blocks passed to [integrity_check] after new blocks arrived. *)
Definition queueHashChecks (cache : dnbd3_cache_map_t) (realFilesize start end_ : Z)
  : result (list Z) :=
  let start := start .& not64 (HASH_BLOCK_SIZE - 1) in
  let end_ := u64 (end_ + HASH_BLOCK_SIZE - 1) .& not64 (HASH_BLOCK_SIZE - 1) in
  for_each (fun pos acc =>
              let block := i32 (pos / HASH_BLOCK_SIZE) in
              c ← image_isHashBlockComplete (Some cache) (u64 block) realFilesize;
              Ok (if (c : bool) then acc ++ [block] else acc))
    start HASH_BLOCK_SIZE (trips start end_ HASH_BLOCK_SIZE) [].

(** The image whose map is updated: a complete image gets its map back before a
    block is marked as missing. *)
Definition cachemapForUpdate (junk : bool * bool) (image : dnbd3_image_t) (set : bool)
  : dnbd3_image_t :=
  match img_cacheMap image with
  | Some _ => image
  | None => if set then image else allocCacheMap junk image true
  end.

(** From the point where a reference to the map is held. *)
Definition updateCachemapLocked (image : dnbd3_image_t) (cache : dnbd3_cache_map_t)
    (start end_ : Z) (set : bool) : result (dnbd3_image_t * list Z) :=
  '(setNewBlocks, m) ← updateMapBits (cm_map cache) start end_ set;
  let cache := cm_set_map m cache in
  match setNewBlocks, img_crc32 image with
  | true, Some _ =>
      checks ← queueHashChecks cache (img_realFilesize image) start end_;
      Ok (img_set_cacheMap (Some cache) image, checks)
  | _, _ =>
      let cache := if set then cache else cm_set_dirty true cache in
      Ok (img_set_cacheMap (Some cache) image, [])
  end.

(** Returns the image and the blocks handed to [integrity_check(image, _, false)]. *)
Definition image_updateCachemap (junk : bool * bool) (image : dnbd3_image_t) (start end_ : Z)
    (set : bool) : result (dnbd3_image_t * list Z) :=
  _ ← assert_ (end_ <=? img_virtualFilesize image);
  _ ← assert_ (start <=? end_);
  let '(start, end_) :=
    if set then
      (u64 (start + DNBD3_BLOCK_SIZE - 1) .& not64 (DNBD3_BLOCK_SIZE - 1),
       end_ .& not64 (DNBD3_BLOCK_SIZE - 1))
    else
      (start .& not64 (DNBD3_BLOCK_SIZE - 1),
       u64 (end_ + DNBD3_BLOCK_SIZE - 1) .& not64 (DNBD3_BLOCK_SIZE - 1)) in
  if end_ <=? start then Ok (image, [])
  else
    let image := cachemapForUpdate junk image set in
    match img_cacheMap image with
    | None => Ok (image, [])
    | Some cache => updateCachemapLocked image cache start end_ set
    end.

(** The second result tells whether the map file was unlinked.  [ref_cacheMap] is
    read again under the image lock and still is the map seen complete. *)
Definition image_isComplete (image : dnbd3_image_t) : result (bool * bool * dnbd3_image_t) :=
  if img_virtualFilesize image =? 0 then Ok (false, false, image)
  else match img_cacheMap image with
  | None => Ok (true, false, image)
  | Some cache =>
      let map_len_bytes := IMGSIZE_TO_MAPBYTES (img_virtualFilesize image) in
      complete ← for_all (fun j => v ← aget (cm_map cache) j; Ok (v =? 255))
                   0 1 (trips 0 (map_len_bytes - 1) 1);
      complete ←
        (if (complete : bool) then
           let blocks_in_last_byte := (img_virtualFilesize image >> 12) .& 7 in
           let last_byte :=
             if blocks_in_last_byte =? 0 then 255
             else foldl (fun acc j => acc .| u8 (1 << Z.of_nat j)) 0
                        (seq 0 (Z.to_nat blocks_in_last_byte)) in
           v ← aget (cm_map cache) (map_len_bytes - 1);
           Ok ((v .& last_byte) =? last_byte)
         else Ok false);
      if (complete : bool) then Ok (true, true, img_set_cacheMap None image)
      else Ok (false, false, image)
  end.

(** [now] is the clock, [r] the value of [rand()]. *)
Definition image_getCompletenessEstimate (now : ticks) (r : Z) (image : dnbd3_image_t)
  : result (Z * dnbd3_image_t) :=
  match img_cacheMap image with
  | None => Ok (100, image)
  | Some cache =>
      let len := IMGSIZE_TO_MAPBYTES (img_virtualFilesize image) in
      if len =? 0 then Ok (0, image)
      else if negb (timing_reached (img_nextCompletenessEstimate image) now) then
        Ok (img_completenessEstimate image, image)
      else
        percent ← for_each (fun i percent =>
                              v ← aget (cm_map cache) i;
                              Ok (if v =? 255 then i32 (percent + 100)
                                  else if negb (v =? 0) then i32 (percent + 50) else percent))
                    0 1 (trips 0 len 1) 0;
        let e := Z.quot percent len in
        Ok (e, img_set_estimate e (timing_set now (4 + Z.rem r 16)) image)
  end.

(** [file] is what [open] and [read] of the map file give: [None] when it cannot
    be opened, else the bytes [read] stored, at most [map_size] of them; the rest
    of the fresh map stays zero. *)
Definition image_loadCacheMap (file : option (list Z)) (fileSize : Z) : option dnbd3_cache_map_t :=
  match file with
  | None => None
  | Some bytes =>
      let map_size := Z.to_nat (IMGSIZE_TO_MAPBYTES fileSize) in
      let rd := take map_size bytes in
      Some (CacheMapT false false (rd ++ replicate (map_size - length rd) 0))
  end.

(** ** The abstract view *)

(** Block [b] of the bitmap. *)
Definition block_cached (m : list Z) (b : Z) : bool :=
  Z.testbit (m !!! Z.to_nat (b / 8)) (b mod 8).

(** An image without a cache map is complete. *)
Definition is_cached (image : dnbd3_image_t) (b : Z) : bool :=
  match img_cacheMap image with
  | None => true
  | Some c => block_cached (cm_map c) b
  end.

Definition num_blocks (image : dnbd3_image_t) : Z := img_virtualFilesize image / DNBD3_BLOCK_SIZE.

Definition map_wf (vfs : Z) (m : list Z) : Prop :=
  Z.of_nat (length m) = (vfs + 32767) / 32768 /\ Forall in_u8 m.

(** What [image_load] establishes: a non-empty file, its size rounded up to the
    block size, and a map that covers it.  Sizes are below 64 TiB, where the map
    length fits an [int]. *)
Record image_wf (image : dnbd3_image_t) : Prop := {
  wf_real : 0 < img_realFilesize image;
  wf_virtual : img_virtualFilesize image = 4096 * ((img_realFilesize image + 4095) / 4096);
  wf_limit : img_virtualFilesize image <= 2 ^ 46 - 2 ^ 15;
  wf_map : forall c, img_cacheMap image = Some c -> map_wf (img_virtualFilesize image) (cm_map c);
}.

(** ** Masks and bytes *)

Lemma testbit_255 j : 0 <= j -> Z.testbit 255 j = (j <? 8).
Proof. intros. change 255 with (Z.ones 8). apply Z.testbit_ones_nonneg; lia. Qed.

Lemma testbit_u8 x j : 0 <= j < 8 -> Z.testbit (u8 x) j = Z.testbit x j.
Proof. intros. unfold u8. apply Z.mod_pow2_bits_low. lia. Qed.

Lemma testbit_first_mask start j :
  0 <= start -> 0 <= j < 8 ->
  Z.testbit (first_mask start) j = ((start / 4096) mod 8 <=? j).
Proof.
  intros Hs Hj. unfold first_mask. rewrite testbit_u8, shiftr_div by lia.
  change 7 with (2 ^ 3 - 1). rewrite land_ones_mod by lia.
  change (2 ^ 12) with 4096. change (2 ^ 3) with 8.
  pose proof (Z.mod_pos_bound (start / 4096) 8 ltac:(lia)).
  rewrite Z.shiftl_spec by lia. destruct (Z.leb_spec ((start / 4096) mod 8) j).
  - rewrite testbit_255 by lia. apply Z.ltb_lt. lia.
  - apply Z.testbit_neg_r. lia.
Qed.

Lemma testbit_last_mask end_ j :
  0 < end_ < 2 ^ 64 -> 0 <= j < 8 ->
  Z.testbit (last_mask end_) j = (j <=? ((end_ - 1) / 4096) mod 8).
Proof.
  intros He Hj. unfold last_mask. rewrite (u64_id (end_ - 1)) by crange.
  rewrite testbit_u8, Z.lnot_spec, shiftr_div by lia.
  change 7 with (2 ^ 3 - 1). rewrite land_ones_mod by lia.
  change (2 ^ 12) with 4096. change (2 ^ 3) with 8.
  pose proof (Z.mod_pos_bound ((end_ - 1) / 4096) 8 ltac:(lia)).
  rewrite Z.shiftl_spec by lia. destruct (Z.leb_spec j (((end_ - 1) / 4096) mod 8)).
  - rewrite Z.testbit_neg_r by lia. done.
  - rewrite testbit_255 by lia. apply negb_false_iff, Z.ltb_lt. lia.
Qed.

Lemma first_mask_u8 start : in_u8 (first_mask start).
Proof. apply u8_range. Qed.
Lemma last_mask_u8 end_ : in_u8 (last_mask end_).
Proof. apply u8_range. Qed.
Lemma masks_u8 start end_ : in_u8 (first_mask start .& last_mask end_).
Proof. apply land_u8; [apply first_mask_u8 | apply last_mask_u8]. Qed.
#[export] Hint Resolve first_mask_u8 last_mask_u8 masks_u8 : cint.

(** A mask test says that every bit of the mask is set. *)
Lemma mask_test v k :
  in_u8 v -> in_u8 k ->
  ((v .& k) =? k) = true <-> (forall j, 0 <= j < 8 -> Z.testbit k j = true -> Z.testbit v j = true).
Proof.
  intros Hv Hk. rewrite Z.eqb_eq. split.
  - intros Heq j Hj Hb. rewrite <- Heq, Z.land_spec in Hb. by apply andb_true_iff in Hb as [? ?].
  - intros Hb. apply byte_bits_inj; [apply land_u8; [done|unfold in_u8 in *; lia]|done|].
    intros j Hj. rewrite Z.land_spec. specialize (Hb j Hj).
    destruct (Z.testbit k j); [rewrite Hb by done; done | apply andb_false_r].
Qed.

(** Setting a mask changes a byte exactly if it lacks a bit of the mask. *)
Lemma mask_new v k :
  in_u8 v -> in_u8 k ->
  negb (v =? (v .| k)) = true
  <-> exists j, 0 <= j < 8 /\ Z.testbit k j = true /\ Z.testbit v j = false.
Proof.
  intros Hv Hk. rewrite negb_true_iff, Z.eqb_neq. split.
  - intros Hne.
    destruct (forallb (fun n => implb (Z.testbit k (Z.of_nat n)) (Z.testbit v (Z.of_nat n))) (seq 0 8))
      eqn:E.
    + exfalso. apply Hne. apply byte_bits_inj; [done|auto with cint|].
      intros j Hj. rewrite Z.lor_spec. rewrite forallb_seq_iff in E.
      specialize (E (Z.to_nat j) ltac:(lia)). rewrite Z2Nat.id in E by lia.
      by destruct (Z.testbit k j), (Z.testbit v j).
    + apply forallb_seq_false in E as (n & Hn & Hb). exists (Z.of_nat n). split; [lia|].
      by destruct (Z.testbit k (Z.of_nat n)), (Z.testbit v (Z.of_nat n)).
  - intros (j & Hj & Hk1 & Hv0) Heq. rewrite Heq, Z.lor_spec, Hk1 in Hv0.
    by rewrite orb_true_r in Hv0.
Qed.

Lemma full_byte v :
  in_u8 v -> (v =? 255) = true <-> forall j, 0 <= j < 8 -> Z.testbit v j = true.
Proof.
  intros Hv. rewrite Z.eqb_eq. split.
  - intros -> j Hj. rewrite testbit_255 by lia. apply Z.ltb_lt. lia.
  - intros Hb. apply byte_bits_inj; [done|crange|].
    intros j Hj. rewrite Hb, testbit_255 by lia. symmetry. apply Z.ltb_lt. lia.
Qed.

(** ** Ranges of blocks *)

Lemma block_at m i j :
  0 <= i -> 0 <= j < 8 -> block_cached m (8 * i + j) = Z.testbit (m !!! Z.to_nat i) j.
Proof.
  intros Hi Hj. unfold block_cached. f_equal.
  - do 2 f_equal. symmetry. apply Z.div_unique with (r := j); lia.
  - symmetry. apply Z.mod_unique with (q := i); lia.
Qed.

Lemma block_split b : 0 <= b -> exists i j, b = 8 * i + j /\ 0 <= i /\ 0 <= j < 8.
Proof.
  intros. exists (b / 8), (b mod 8). pose proof (Z.mod_pos_bound b 8 ltac:(lia)).
  pose proof (Z.div_mod b 8 ltac:(lia)). pose proof (Z.div_pos b 8). lia.
Qed.

Lemma div_mod_block a : a = 8 * (a / 8) + a mod 8 /\ 0 <= a mod 8 < 8.
Proof. pose proof (Z.div_mod a 8). pose proof (Z.mod_pos_bound a 8). lia. Qed.

Lemma shiftr15 x : x >> 15 = x / 4096 / 8.
Proof. rewrite shiftr_div, Z.div_div by lia. done. Qed.

Lemma lookup_u8 m i : Forall in_u8 m -> 0 <= i < Z.of_nat (length m) -> in_u8 (m !!! Z.to_nat i).
Proof.
  intros Hm Hi. apply (proj1 (Forall_lookup _ _) Hm (Z.to_nat i)).
  apply list_lookup_lookup_total_lt. lia.
Qed.

(** A run of complete bytes. *)
Lemma for_all_full m a n :
  Forall in_u8 m -> 0 <= a -> a + Z.of_nat n <= Z.of_nat (length m) ->
  exists r, for_all (fun pos => v ← aget m pos; Ok (v =? 255)) a 1 n = Ok r
    /\ (r = true <-> forall b, 8 * a <= b < 8 * (a + Z.of_nat n) -> block_cached m b = true).
Proof.
  intros Hm Ha Hn. eexists. split.
  { apply (for_all_ok _ (fun i => m !!! Z.to_nat i =? 255)). intros k Hk.
    rewrite aget_in_range by lia. done. }
  rewrite forallb_seq_iff. split.
  - intros H b Hb. destruct (block_split b) as (i & j & -> & Hi & Hj); [lia|].
    rewrite block_at by lia. specialize (H (Z.to_nat (i - a)) ltac:(lia)).
    replace (a + 1 * Z.of_nat (Z.to_nat (i - a))) with i in H by lia.
    rewrite full_byte in H by (apply lookup_u8; [done|lia]). auto.
  - intros H k Hk. apply full_byte; [apply lookup_u8; [done|lia]|]. intros j Hj.
    rewrite <- block_at by lia. apply H. lia.
Qed.

Lemma atomic_fetch_ok m i g :
  0 <= i < Z.of_nat (length m) ->
  atomic_fetch m i g = Ok (m !!! Z.to_nat i, <[Z.to_nat i := g (m !!! Z.to_nat i)]> m).
Proof.
  intros Hi. unfold atomic_fetch. rewrite aget_in_range by lia. cbn [mbind result_bind].
  by rewrite aset_ok by lia.
Qed.

Lemma lookup_insert_Z (m : list Z) i k v :
  0 <= i < Z.of_nat (length m) -> 0 <= k ->
  <[Z.to_nat i := v]> m !!! Z.to_nat k = if k =? i then v else m !!! Z.to_nat k.
Proof.
  intros Hi Hk. rewrite list_lookup_total_insert. 
  destruct (Z.eqb_spec k i); subst; case_decide; (done || lia).
Qed.

(** Applying a mask to a byte, and its bits. *)
Definition mask_op (set : bool) (o k : Z) : Z := if set then o .| k else o .& u8 (Z.lnot k).

Lemma testbit_mask_op set o k j :
  0 <= j < 8 ->
  Z.testbit (mask_op set o k) j
  = if set then Z.testbit o j || Z.testbit k j else Z.testbit o j && negb (Z.testbit k j).
Proof.
  intros. unfold mask_op. destruct set; [apply Z.lor_spec|].
  by rewrite Z.land_spec, testbit_u8, Z.lnot_spec by lia.
Qed.
Lemma mask_op_u8 set o k : in_u8 o -> in_u8 k -> in_u8 (mask_op set o k).
Proof.
  intros. unfold mask_op. destruct set; [auto with cint|]. apply land_u8; [done|].
  pose proof (u8_range (Z.lnot k)). unfold in_u8 in *. lia.
Qed.

(** The loop over the bytes strictly between the first and the last one. *)
Lemma fill_loop (set : bool) a n news m :
  let nval := if set then 255 else 0 in
  Forall in_u8 m -> 0 <= a -> a + Z.of_nat n <= Z.of_nat (length m) ->
  exists news' m',
    for_each (fun pos s =>
                '(o, m) ← atomic_fetch s.2 pos (fun _ => nval);
                Ok (s.1 || (negb (o =? nval) && set), m)) a 1 n (news, m) = Ok (news', m')
    /\ length m' = length m /\ Forall in_u8 m'
    /\ (forall k, 0 <= k -> m' !!! Z.to_nat k
          = if (a <=? k) && (k <? a + Z.of_nat n) then nval else m !!! Z.to_nat k)
    /\ (news' = true <-> news = true \/ (set = true /\
          exists k, a <= k < a + Z.of_nat n /\ m !!! Z.to_nat k <> 255)).
Proof.
  intros nval. revert a news m. induction n as [|n IH]; intros a news m Hm Ha Hn.
  { exists news, m. split; [done|]. split; [done|]. split; [done|]. split.
    - intros k Hk. destruct (_ && _) eqn:E; [b2p; lia|done].
    - split; [by left|]. intros [?|(_ & k & ? & _)]; [done|lia]. }
  cbn [for_each snd fst]. rewrite atomic_fetch_ok by lia. cbn [mbind result_bind].
  assert (in_u8 nval) by (subst nval; destruct set; crange).
  destruct (IH (a + 1) (news || (negb (m !!! Z.to_nat a =? nval) && set))
              (<[Z.to_nat a := nval]> m)) as (news' & m' & -> & Hl & Hu & Hk & Hnew);
    [by apply Forall_insert|lia|rewrite length_insert; lia|].
  exists news', m'. rewrite length_insert in Hl. split; [done|]. split; [done|]. split; [done|].
  split.
  - intros k Hk0. rewrite Hk, lookup_insert_Z by lia.
    destruct (Z.leb_spec (a + 1) k), (Z.ltb_spec k (a + 1 + Z.of_nat n)), (Z.leb_spec a k),
      (Z.ltb_spec k (a + Z.of_nat (S n))), (Z.eqb_spec k a); cbn [andb]; done || lia.
  - rewrite Hnew, orb_true_iff, andb_true_iff, negb_true_iff, Z.eqb_neq. split.
    + intros [[H1|[H1 H2]]|[H1 (k & Hkr & Hkv)]]; [by left| |].
      * right. split; [done|]. exists a. split; [lia|]. by destruct set.
      * right. split; [done|]. exists k. split; [lia|].
        rewrite lookup_insert_Z in Hkv by lia. destruct (Z.eqb_spec k a); [lia|done].
    + intros [H1|[H1 (k & Hkr & Hkv)]]; [by left; left|].
      destruct (Z.eq_dec k a) as [->|Hne].
      * left; right. subst nval. by destruct set.
      * right. split; [done|]. exists k. split; [lia|].
        rewrite lookup_insert_Z by lia. destruct (Z.eqb_spec k a); [lia|done].
Qed.

Definition upd (set x p : bool) : bool := if set then x || p else x && negb p.

Lemma masked_block (m : list Z) set i k (P : Z -> bool) b :
  0 <= i < Z.of_nat (length m) -> 0 <= b ->
  (forall j, 0 <= j < 8 -> Z.testbit k j = P (8 * i + j)) ->
  block_cached (<[Z.to_nat i := mask_op set (m !!! Z.to_nat i) k]> m) b
  = if b / 8 =? i then upd set (block_cached m b) (P b) else block_cached m b.
Proof.
  intros Hi Hb HP. pose proof (div_mod_block b). unfold block_cached.
  rewrite lookup_insert_Z by (try apply Z.div_pos; lia).
  destruct (Z.eqb_spec (b / 8) i) as [<-|]; [|done].
  rewrite testbit_mask_op, HP by lia. by replace (8 * (b / 8) + b mod 8) with b by lia.
Qed.

Section Range.
Context (m : list Z) (start end_ : Z).
Hypothesis Hm : Forall in_u8 m.
Hypothesis Hs : 0 <= start < end_.
Hypothesis He : end_ < 2 ^ 64.
Let f := start / 4096.
Let l := (end_ - 1) / 4096.
Hypothesis Hlen : l / 8 < Z.of_nat (length m).

Local Lemma range_order : 0 <= f <= l /\ 0 <= f / 8 <= l / 8.
Proof.
  assert (0 <= f) by (apply Z.div_pos; lia).
  assert (f <= l) by (apply Z.div_le_mono; lia).
  pose proof (Z.div_le_mono f l 8). pose proof (Z.div_pos f 8). lia.
Qed.

Local Lemma testbit_fb j : 0 <= j < 8 -> Z.testbit (first_mask start) j = (f mod 8 <=? j).
Proof. intros. by rewrite testbit_first_mask by lia. Qed.
Local Lemma testbit_lb j : 0 <= j < 8 -> Z.testbit (last_mask end_) j = (j <=? l mod 8).
Proof. intros. by rewrite testbit_last_mask by lia. Qed.
Local Lemma last_byte_eq : u64 (end_ - 1) >> 15 = l / 8.
Proof. rewrite u64_id by crange. apply shiftr15. Qed.

(** The byte of a mask test, seen as blocks. *)
Local Lemma mask_blocks k i (P : Z -> bool) :
  in_u8 k -> 0 <= i < Z.of_nat (length m) ->
  (forall j, 0 <= j < 8 -> Z.testbit k j = P (8 * i + j)) ->
  ((m !!! Z.to_nat i .& k) =? k) = true
  <-> forall b, 8 * i <= b < 8 * i + 8 -> P b = true -> block_cached m b = true.
Proof.
  intros Hk Hi Hp. rewrite mask_test by (try apply lookup_u8; done). split.
  - intros H b Hb HP. replace b with (8 * i + (b - 8 * i)) by lia.
    rewrite block_at by lia. apply H; [lia|]. rewrite Hp by lia. by replace (8 * i + (b - 8 * i)) with b by lia.
  - intros H j Hj Hb. rewrite <- block_at by lia. apply H; [lia|]. by rewrite <- Hp by lia.
Qed.

Local Ltac mask_side :=
  intros; rewrite ?Z.land_spec, ?testbit_fb, ?testbit_lb by lia;
  apply eq_true_iff_eq; rewrite ?andb_true_iff, ?Z.leb_le;
  pose proof (div_mod_block f); pose proof (div_mod_block l); lia.

Local Lemma first_byte_test :
  ((m !!! Z.to_nat (f / 8) .& first_mask start) =? first_mask start) = true
  <-> forall b, f <= b < 8 * (f / 8) + 8 -> block_cached m b = true.
Proof.
  pose proof range_order. pose proof (div_mod_block f).
  rewrite (mask_blocks _ _ (fun b => f <=? b)); [|auto with cint|lia|mask_side].
  split; intros H2 b Hb; [apply H2; [lia|apply Z.leb_le; lia]|intros; b2p; apply H2; lia].
Qed.
Local Lemma last_byte_test :
  ((m !!! Z.to_nat (l / 8) .& last_mask end_) =? last_mask end_) = true
  <-> forall b, 8 * (l / 8) <= b <= l -> block_cached m b = true.
Proof.
  pose proof range_order. pose proof (div_mod_block l).
  rewrite (mask_blocks _ _ (fun b => b <=? l)); [|auto with cint|lia|mask_side].
  split; intros H2 b Hb; [apply H2; [lia|apply Z.leb_le; lia]|intros; b2p; apply H2; lia].
Qed.
Local Lemma single_byte_test :
  f / 8 = l / 8 ->
  ((m !!! Z.to_nat (f / 8) .& (first_mask start .& last_mask end_))
     =? (first_mask start .& last_mask end_)) = true
  <-> forall b, f <= b <= l -> block_cached m b = true.
Proof.
  intros Heq. pose proof range_order. pose proof (div_mod_block f). pose proof (div_mod_block l).
  rewrite (mask_blocks _ _ (fun b => (f <=? b) && (b <=? l))); [|auto with cint|lia|mask_side].
  split; intros H2 b Hb; [apply H2; [lia|]|intros; b2p; apply H2; lia].
  apply andb_true_iff. rewrite !Z.leb_le. lia.
Qed.

Lemma image_isRangeCachedUnsafe_spec c :
  cm_map c = m ->
  exists r, image_isRangeCachedUnsafe c start end_ = Ok r
    /\ (r = true <-> forall b, f <= b <= l -> block_cached m b = true).
Proof.
  intros Hc. pose proof range_order as [Hfl Hb]. unfold image_isRangeCachedUnsafe.
  rewrite last_byte_eq, shiftr15, Hc. fold f.
  pose proof (div_mod_block f). pose proof (div_mod_block l).
  destruct (Z.eqb_spec (f / 8) (l / 8)) as [Heq|Hne].
  { rewrite aget_in_range by lia. eexists. split; [done|]. by apply single_byte_test. }
  rewrite !aget_in_range by lia. cbn [mbind result_bind].
  destruct (_ =? first_mask start) eqn:E1; cbn [negb].
  2: { eexists. split; [done|]. split; [done|]. intros Hx. rewrite <- E1.
       apply first_byte_test. intros b Hbb. apply Hx. lia. }
  destruct (_ =? last_mask end_) eqn:E2; cbn [negb].
  2: { eexists. split; [done|]. split; [done|]. intros Hx. rewrite <- E2.
       apply last_byte_test. intros b Hbb. apply Hx. lia. }
  rewrite first_byte_test in E1. rewrite last_byte_test in E2. rewrite trips_1.
  destruct (for_all_full m (f / 8 + 1) (Z.to_nat (l / 8 - (f / 8 + 1)))) as (r & -> & Hr);
    [done|lia|lia|].
  exists r. split; [done|]. rewrite Hr. split; intros Hx b Hbb; [|apply Hx; lia].
  destruct (Z.lt_ge_cases b (8 * (f / 8) + 8)); [apply E1; lia|].
  destruct (Z.lt_ge_cases b (8 * (l / 8))); [apply Hx; lia|apply E2; lia].
Qed.
Local Definition inr (b : Z) : bool := (f <=? b) && (b <=? l).

Local Lemma insert_mask_u8 set i k (m' : list Z) :
  Forall in_u8 m' -> 0 <= i < Z.of_nat (length m') -> in_u8 k ->
  Forall in_u8 (<[Z.to_nat i := mask_op set (m' !!! Z.to_nat i) k]> m').
Proof. intros. apply Forall_insert; [done|]. apply mask_op_u8; [by apply lookup_u8|done]. Qed.

Local Lemma new_in_byte i k (P : Z -> bool) :
  0 <= i < Z.of_nat (length m) -> in_u8 k ->
  (forall j, 0 <= j < 8 -> Z.testbit k j = P (8 * i + j)) ->
  negb (m !!! Z.to_nat i =? (m !!! Z.to_nat i .| k)) = true
  <-> exists b, 8 * i <= b < 8 * i + 8 /\ P b = true /\ block_cached m b = false.
Proof.
  intros Hi Hk HP. rewrite mask_new by (try apply lookup_u8; done). split.
  - intros (j & Hj & H1 & H2). exists (8 * i + j). rewrite block_at, <- HP by lia.
    split; [lia|done].
  - intros (b & Hb & H1 & H2). exists (b - 8 * i).
    rewrite HP, <- block_at by lia. replace (8 * i + (b - 8 * i)) with b by lia.
    split; [lia|done].
Qed.

(** One byte holds the whole range. *)
Local Lemma update_single set :
  f / 8 = l / 8 ->
  exists news m', updateMapBits m start end_ set = Ok (news, m')
    /\ length m' = length m /\ Forall in_u8 m'
    /\ (forall b, 0 <= b -> block_cached m' b = upd set (block_cached m b) (inr b))
    /\ (news = true <-> set = true /\ exists b, f <= b <= l /\ block_cached m b = false).
Proof.
  intros Heq. pose proof range_order. pose proof (div_mod_block f). pose proof (div_mod_block l).
  assert (forall j, 0 <= j < 8 ->
    Z.testbit (first_mask start .& last_mask end_) j = inr (8 * (f / 8) + j)) as HP
    by (unfold inr; mask_side).
  exists (set && negb (m !!! Z.to_nat (f / 8)
            =? (m !!! Z.to_nat (f / 8) .| (first_mask start .& last_mask end_)))),
    (<[Z.to_nat (f / 8) := mask_op set (m !!! Z.to_nat (f / 8))
            (first_mask start .& last_mask end_)]> m).
  split. { unfold updateMapBits. rewrite last_byte_eq, shiftr15. fold f.
    rewrite (proj2 (Z.eqb_eq _ _) Heq). by destruct set; rewrite atomic_fetch_ok by lia. }
  split; [apply length_insert|].
  split; [apply insert_mask_u8; [done|lia|auto with cint]|]. split.
  - intros b Hb. rewrite (masked_block m set _ _ inr) by (done || lia).
    destruct (Z.eqb_spec (b / 8) (f / 8)); [done|].
    pose proof (div_mod_block b). unfold inr, upd.
    destruct (Z.leb_spec f b), (Z.leb_spec b l); cbn [andb negb];
      rewrite ?orb_false_r, ?andb_true_r; destruct set; done || lia.
  - rewrite andb_true_iff, (new_in_byte _ _ inr) by (auto with cint || lia).
    unfold inr. setoid_rewrite andb_true_iff. setoid_rewrite Z.leb_le.
    split; (intros [? (b & Hb)]; split; [done|]; exists b; intuition lia).
Qed.
(** The range spans at least two bytes: the map after the two masked bytes, and
    whether they had a new block. *)
Let ends_map (set : bool) : list Z :=
  let m1 := <[Z.to_nat (f / 8) := mask_op set (m !!! Z.to_nat (f / 8)) (first_mask start)]> m in
  <[Z.to_nat (l / 8) := mask_op set (m1 !!! Z.to_nat (l / 8)) (last_mask end_)]> m1.
Let ends_new : bool :=
  negb (m !!! Z.to_nat (f / 8) =? (m !!! Z.to_nat (f / 8) .| first_mask start))
  || negb (m !!! Z.to_nat (l / 8) =? (m !!! Z.to_nat (l / 8) .| last_mask end_)).

Local Lemma first_mask_blocks j : 0 <= j < 8 -> f / 8 < l / 8 ->
  Z.testbit (first_mask start) j = inr (8 * (f / 8) + j).
Proof. unfold inr. mask_side. Qed.
Local Lemma last_mask_blocks j : 0 <= j < 8 -> f / 8 < l / 8 ->
  Z.testbit (last_mask end_) j = inr (8 * (l / 8) + j).
Proof. unfold inr. mask_side. Qed.

Local Lemma ends_map_wf set : length (ends_map set) = length m /\ Forall in_u8 (ends_map set).
Proof.
  pose proof range_order. unfold ends_map. rewrite !length_insert. split; [done|].
  apply insert_mask_u8; [apply insert_mask_u8|rewrite length_insert|]; auto with cint; lia.
Qed.

Local Lemma ends_map_mid set k : f / 8 < k < l / 8 -> ends_map set !!! Z.to_nat k = m !!! Z.to_nat k.
Proof.
  intros Hk. pose proof range_order. unfold ends_map.
  rewrite !lookup_insert_Z by (rewrite ?length_insert; lia).
  destruct (Z.eqb_spec k (l / 8)), (Z.eqb_spec k (f / 8)); done || lia.
Qed.

Local Lemma ends_map_block set b :
  f / 8 < l / 8 -> 0 <= b -> ~ f / 8 < b / 8 < l / 8 ->
  block_cached (ends_map set) b = upd set (block_cached m b) (inr b).
Proof.
  intros Hlt Hb Hout. pose proof range_order. pose proof (div_mod_block b).
  pose proof (div_mod_block f). pose proof (div_mod_block l). unfold ends_map. cbn zeta.
  rewrite (masked_block _ set _ _ inr); [|rewrite length_insert; lia|lia|intros; by apply last_mask_blocks].
  rewrite !(masked_block m set _ _ inr) by (lia || (intros; by apply first_mask_blocks)).
  destruct (Z.eqb_spec (b / 8) (l / 8)), (Z.eqb_spec (b / 8) (f / 8)); try done; try lia.
  replace (inr b) with false by (symmetry; unfold inr; apply andb_false_iff; rewrite !Z.leb_gt; lia).
  unfold upd. cbn [negb]. rewrite orb_false_r, andb_true_r. by destruct set.
Qed.

(** A byte that is not full misses a block. *)
Local Lemma missing_in_byte k :
  0 <= k < Z.of_nat (length m) -> m !!! Z.to_nat k <> 255 ->
  exists b, 8 * k <= b < 8 * k + 8 /\ block_cached m b = false.
Proof.
  intros Hk Hne.
  destruct (forallb (fun j => Z.testbit (m !!! Z.to_nat k) (Z.of_nat j)) (seq 0 8)) eqn:Ef.
  - destruct Hne. apply Z.eqb_eq, full_byte; [by apply lookup_u8|]. intros j Hj.
    rewrite forallb_seq_iff in Ef. specialize (Ef (Z.to_nat j) ltac:(lia)). by rewrite Z2Nat.id in Ef by lia.
  - apply forallb_seq_false in Ef as (j & ? & Hj). exists (8 * k + Z.of_nat j).
    rewrite block_at by lia. split; [lia|done].
Qed.

Local Lemma ends_new_iff :
  f / 8 < l / 8 ->
  (ends_new = true \/ exists k, f / 8 + 1 <= k < l / 8 /\ m !!! Z.to_nat k <> 255)
  <-> exists b, f <= b <= l /\ block_cached m b = false.
Proof.
  intros Hlt. pose proof range_order. pose proof (div_mod_block f). pose proof (div_mod_block l).
  unfold ends_new. rewrite orb_true_iff.
  rewrite (new_in_byte (f / 8) _ inr) by (auto with cint || lia || (intros; by apply first_mask_blocks)).
  rewrite (new_in_byte (l / 8) _ inr) by (auto with cint || lia || (intros; by apply last_mask_blocks)).
  split.
  - intros [[(b & ? & Hin & ?)|(b & ? & Hin & ?)]|(k & Hkr & Hkv)].
    1, 2: exists b; unfold inr in Hin; b2p; (split; [lia|done]).
    destruct (missing_in_byte k ltac:(lia) Hkv) as (b & ? & ?). exists b. split; [lia|done].
  - intros (b & Hb & Hc). pose proof (div_mod_block b).
    assert (inr b = true) by (unfold inr; rewrite andb_true_iff, !Z.leb_le; lia).
    destruct (Z.eq_dec (b / 8) (f / 8)); [left; left; exists b; split; [lia|done]|].
    destruct (Z.eq_dec (b / 8) (l / 8)); [left; right; exists b; split; [lia|done]|].
    right. exists (b / 8). split; [lia|].
    intros Hfull. unfold block_cached in Hc. rewrite Hfull, testbit_255 in Hc by lia. b2p. lia.
Qed.

Local Lemma update_multi set :
  f / 8 < l / 8 ->
  exists news m', updateMapBits m start end_ set = Ok (news, m')
    /\ length m' = length m /\ Forall in_u8 m'
    /\ (forall b, 0 <= b -> block_cached m' b = upd set (block_cached m b) (inr b))
    /\ (news = true <-> set = true /\ exists b, f <= b <= l /\ block_cached m b = false).
Proof.
  intros Hlt. pose proof range_order. pose proof (div_mod_block f). pose proof (div_mod_block l).
  destruct (ends_map_wf set) as [Hl2 Hu2].
  destruct (fill_loop set (f / 8 + 1) (Z.to_nat (l / 8 - (f / 8 + 1))) (set && ends_new) (ends_map set))
    as (news & m' & Hloop & Hl & Hu & Hk & Hnew); [done|lia|lia|].
  exists news, m'. split.
  { rewrite <- Hloop. unfold updateMapBits, ends_map, ends_new. rewrite last_byte_eq, shiftr15, trips_1. fold f.
    destruct (Z.eqb_spec (f / 8) (l / 8)); [lia|].
    destruct set; cbv [mask_op]; rewrite atomic_fetch_ok by lia; cbn [mbind result_bind];
      rewrite atomic_fetch_ok by (rewrite length_insert; lia); cbn [mbind result_bind andb];
      rewrite !lookup_insert_Z by lia; destruct (Z.eqb_spec (l / 8) (f / 8)); done || lia. }
  split; [lia|]. split; [done|]. split.
  - intros b Hb. pose proof (div_mod_block b). assert (0 <= b / 8) by (apply Z.div_pos; lia).
    unfold block_cached at 1. rewrite Hk by lia.
    destruct (Z.leb_spec (f / 8 + 1) (b / 8)),
      (Z.ltb_spec (b / 8) (f / 8 + 1 + Z.of_nat (Z.to_nat (l / 8 - (f / 8 + 1))))); cbn [andb].
    2, 3, 4: apply ends_map_block; lia.
    replace (inr b) with true by (symmetry; unfold inr; rewrite andb_true_iff, !Z.leb_le; lia).
    unfold upd. destruct set; [|by rewrite Z.testbit_0_l, andb_false_r].
    rewrite testbit_255, orb_true_r by lia. apply Z.ltb_lt. lia.
  - rewrite Hnew, <- (ends_new_iff Hlt), andb_true_iff.
    split; [intros [[? ?]|[? (k & Hkr & Hkv)]]|intros [-> [?|(k & Hkr & Hkv)]]].
    + split; [done|by left].
    + split; [done|]. right. exists k. rewrite ends_map_mid in Hkv by lia. split; [lia|done].
    + by left.
    + right. split; [done|]. exists k. rewrite ends_map_mid by lia. split; [lia|done].
Qed.

Lemma updateMapBits_spec set :
  exists news m', updateMapBits m start end_ set = Ok (news, m')
    /\ length m' = length m /\ Forall in_u8 m'
    /\ (forall b, 0 <= b ->
          block_cached m' b = upd set (block_cached m b) ((f <=? b) && (b <=? l)))
    /\ (news = true <-> set = true /\ exists b, f <= b <= l /\ block_cached m b = false).
Proof.
  pose proof range_order as [_ Ho].
  destruct (Z.eq_dec (f / 8) (l / 8)); [by apply update_single|apply update_multi; lia].
Qed.
End Range.

(** ** Hash blocks *)

Lemma HASH_BLOCK_SIZE_val : HASH_BLOCK_SIZE = 16777216.
Proof. reflexivity. Qed.

Lemma land_bit v x : 0 <= x -> negb ((v .& (1 << x)) =? 0) = Z.testbit v x.
Proof.
  intros Hx. rewrite Z.shiftl_1_l. destruct (Z.testbit v x) eqn:E.
  - apply negb_true_iff, Z.eqb_neq. intros H0.
    assert (Z.testbit (v .& 2 ^ x) x = false) as H1 by (rewrite H0; apply Z.testbit_0_l).
    rewrite Z.land_spec, E, Z.pow2_bits_true in H1 by lia. done.
  - apply negb_false_iff, Z.eqb_eq. apply Z.bits_inj'. intros n Hn.
    rewrite Z.land_spec, Z.pow2_bits_eqb, Z.testbit_0_l by lia.
    destruct (Z.eqb_spec x n); [subst; by rewrite E|by rewrite andb_false_r].
Qed.

(** The blocks of hash block [block] that hold file data. *)
Definition in_hash_block (block real b : Z) : Prop :=
  4096 * block <= b < 4096 * (block + 1) /\ 4096 * b < real.

Section HashBlock.
Context (c : dnbd3_cache_map_t) (vfs real : Z).
Hypothesis Hwf : map_wf vfs (cm_map c).
Hypothesis Hreal : 0 <= real <= vfs.
Hypothesis Hlim : vfs <= 2 ^ 46 - 2 ^ 15.

Local Lemma map_covers x : 0 <= x < vfs -> 0 <= x / 32768 < Z.of_nat (length (cm_map c)).
Proof.
  intros Hx. destruct Hwf as [-> _]. split; [apply Z.div_pos; lia|].
  apply Z.div_lt_upper_bound; [lia|]. pose proof (Z.div_mod (vfs + 32767) 32768 ltac:(lia)).
  pose proof (Z.mod_pos_bound (vfs + 32767) 32768 ltac:(lia)). lia.
Qed.

Lemma image_isHashBlockComplete_spec block :
  0 <= block < 2 ^ 31 ->
  exists r, image_isHashBlockComplete (Some c) block real = Ok r
    /\ (r = true <-> forall b, in_hash_block block real b -> block_cached (cm_map c) b = true).
Proof.
  intros Hb. unfold image_isHashBlockComplete, in_hash_block, DNBD3_BLOCK_SIZE.
  rewrite HASH_BLOCK_SIZE_val. rewrite !(u64_id (block * _)) by crange.
  rewrite (u64_id (block + 1)), (u64_id ((block + 1) * _)) by crange.
  destruct (Z.leb_spec ((block + 1) * 16777216) real) as [Hle|Hgt].
  - replace (block * 16777216 / (4096 * 8)) with (512 * block)
      by (apply Z.div_unique with (r := 0); lia).
    rewrite i32_id by crange. change (i32 (16777216 / (4096 * 8))) with 512.
    rewrite trips_1. replace (512 * block + 512 - 512 * block) with 512 by lia.
    destruct (for_all_full (cm_map c) (512 * block) (Z.to_nat 512)) as (r & -> & Hr).
    + apply Hwf.
    + lia.
    + pose proof (map_covers ((block + 1) * 16777216 - 1) ltac:(lia)) as Hc.
      assert (((block + 1) * 16777216 - 1) / 32768 = 512 * block + 511) as He
        by (symmetry; apply Z.div_unique with (r := 32767); lia). lia.
    + exists r. split; [done|]. rewrite Hr.
      split; intros Hx b Hbb; apply Hx; lia.
  - eexists. split.
    { apply (for_all_ok _ (fun pos => block_cached (cm_map c) (pos / 4096))).
      intros k Hk. unfold trips in Hk.
      assert (block * 16777216 + 4096 * Z.of_nat k < real) as Hin.
      { assert (4096 * ((real - block * 16777216 + 4096 - 1) / 4096)
                <= real - block * 16777216 + 4096 - 1) by (apply Z.mul_div_le; lia). lia. }
      set (pos := block * 16777216 + 4096 * Z.of_nat k) in *. assert (0 <= pos) by lia.
      rewrite (shiftr_div pos 15), (shiftr_div pos 12) by lia.
      rewrite aget_in_range by (apply map_covers; lia).
      cbn [mbind result_bind]. f_equal. rewrite land_bit by (apply Z.land_nonneg; lia).
      unfold block_cached. rewrite Z.div_div by lia. f_equal.
      change 7 with (2 ^ 3 - 1). by rewrite land_ones_mod by lia. }
    rewrite forallb_seq_iff. unfold trips. split.
    + intros Hx b [Hb1 Hb2]. specialize (Hx (Z.to_nat (b - 4096 * block))).
      replace ((block * 16777216 + 4096 * Z.of_nat (Z.to_nat (b - 4096 * block))) / 4096)
        with b in Hx by (apply Z.div_unique with (r := 0); lia).
      apply Hx. apply Z2Nat.inj_lt; [lia|apply Z.div_pos; lia|].
      apply Z.lt_le_trans with (b - 4096 * block + 1); [lia|].
      apply Z.div_le_lower_bound; lia.
    + intros Hx k Hk.
      assert (4096 * ((real - block * 16777216 + 4096 - 1) / 4096)
              <= real - block * 16777216 + 4096 - 1) by (apply Z.mul_div_le; lia).
      replace ((block * 16777216 + 4096 * Z.of_nat k) / 4096) with (4096 * block + Z.of_nat k)
        by (apply Z.div_unique with (r := 0); lia).
      apply Hx. lia.
Qed.
End HashBlock.

(** The loop that collects the hash blocks to check. *)
Lemma collect_loop (p : Z -> result bool) (q : Z -> bool) (g : Z -> Z) a step n acc :
  (forall k, (k < n)%nat -> p (a + step * Z.of_nat k) = Ok (q (a + step * Z.of_nat k))) ->
  exists out,
    for_each (fun pos acc => c ← p pos; Ok (if (c : bool) then acc ++ [g pos] else acc)) a step n acc
      = Ok (acc ++ out)
    /\ (forall h, In h out <-> exists k, (k < n)%nat /\ q (a + step * Z.of_nat k) = true
                                 /\ h = g (a + step * Z.of_nat k)).
Proof.
  revert a acc. induction n as [|n IH]; intros a acc Hp.
  { exists []. split; [cbn; by rewrite app_nil_r|]. intros h. split; [done|]. intros (k & ? & _). lia. }
  cbn [for_each]. pose proof (Hp 0%nat ltac:(lia)) as H0. rewrite Z.mul_0_r, Z.add_0_r in H0.
  rewrite H0. cbn [mbind result_bind].
  destruct (IH (a + step) (if q a then acc ++ [g a] else acc)) as (out & -> & Hout).
  { intros k Hk. replace (a + step + step * Z.of_nat k) with (a + step * Z.of_nat (S k)) by lia.
    apply Hp. lia. }
  exists ((if q a then [g a] else []) ++ out). split.
  { f_equal. destruct (q a); [by rewrite <- app_assoc|done]. }
  intros h. rewrite in_app_iff, Hout. split.
  - intros [Hh|(k & Hk & Hq & ->)].
    + destruct (q a) eqn:E; [|done]. destruct Hh as [<-|[]]. exists 0%nat.
      rewrite Z.mul_0_r, Z.add_0_r. repeat split; [lia|done].
    + exists (S k). replace (a + step * Z.of_nat (S k)) with (a + step + step * Z.of_nat k) by lia.
      repeat split; [lia|done].
  - intros (k & Hk & Hq & ->). destruct k as [|k].
    + left. rewrite Z.mul_0_r, Z.add_0_r in *. rewrite Hq. by left.
    + right. exists k. replace (a + step + step * Z.of_nat k) with (a + step * Z.of_nat (S k)) by lia.
      repeat split; [lia|done].
Qed.

Lemma image_updateCachemap_checks c vfs real start end_ :
  map_wf vfs (cm_map c) -> 0 <= real <= vfs -> vfs <= 2 ^ 46 - 2 ^ 15 -> 0 <= start < end_ -> end_ <= vfs ->
  exists checks, queueHashChecks c real start end_ = Ok checks
    /\ forall h, In h checks <-> start / 16777216 <= h <= (end_ - 1) / 16777216
        /\ forall b, in_hash_block h real b -> block_cached (cm_map c) b = true.
Proof.
  intros Hwf Hreal Hlim Hs He. unfold queueHashChecks. rewrite HASH_BLOCK_SIZE_val.
  change (16777216 - 1) with (2 ^ 24 - 1). rewrite !land_not64_pow2 by (try apply u64_range; crange).
  rewrite u64_id by crange. change (2 ^ 24) with 16777216.
  set (A := start / 16777216). set (B := (end_ - 1) / 16777216).
  assert (0 <= A) by (apply Z.div_pos; lia). assert (A <= B) by (apply Z.div_le_mono; lia).
  assert (B < 2 ^ 24) by (apply Z.div_lt_upper_bound; lia).
  replace ((end_ + 16777216 - 1) / 16777216) with (B + 1)
    by (unfold B; rewrite <- (Z.div_add (end_ - 1) 1) by lia; f_equal; lia).
  unfold trips. replace ((16777216 * (B + 1) - 16777216 * A + 16777216 - 1) / 16777216)
    with (B + 1 - A) by (apply Z.div_unique with (r := 16777215); lia).
  assert (forall k, (k < Z.to_nat (B + 1 - A))%nat ->
    i32 ((16777216 * A + 16777216 * Z.of_nat k) / 16777216) = A + Z.of_nat k) as Hblk.
  { intros k Hk. replace ((16777216 * A + 16777216 * Z.of_nat k) / 16777216) with (A + Z.of_nat k)
      by (apply Z.div_unique with (r := 0); lia). apply i32_id. crange. }
  set (complete := fun h => match image_isHashBlockComplete (Some c) h real with Ok r => r | _ => false end).
  destruct (collect_loop
    (fun pos => image_isHashBlockComplete (Some c) (u64 (i32 (pos / 16777216))) real)
    (fun pos => complete (i32 (pos / 16777216))) (fun pos => i32 (pos / 16777216))
    (16777216 * A) 16777216 (Z.to_nat (B + 1 - A)) []) as (out & Hrun & Hout).
  { intros k Hk. rewrite Hblk by lia. rewrite u64_id by crange. unfold complete.
    destruct (image_isHashBlockComplete_spec c vfs real Hwf Hreal Hlim (A + Z.of_nat k)) as (r & -> & _);
      [lia|done]. }
  exists out. split; [exact Hrun|]. intros h. rewrite Hout. unfold complete. split.
  - intros (k & Hk & Hq & ->). rewrite Hblk in Hq |- * by lia. split; [lia|].
    destruct (image_isHashBlockComplete_spec c vfs real Hwf Hreal Hlim (A + Z.of_nat k))
      as (r & Hr & Hspec); [lia|]. rewrite Hr in Hq. by apply Hspec.
  - intros [Hh Hall]. exists (Z.to_nat (h - A)). rewrite Hblk by lia.
    rewrite Z2Nat.id by lia. replace (A + (h - A)) with h by lia. split; [lia|]. split; [|done].
    destruct (image_isHashBlockComplete_spec c vfs real Hwf Hreal Hlim h) as (r & -> & Hspec); [lia|].
    by apply Hspec.
Qed.

(** ** Refinement of the block set *)

(** The blocks a call affects: when setting, those entirely inside the byte range;
    when clearing, those that touch it. *)
Definition covered (set : bool) (start end_ b : Z) : bool :=
  if set then (start <=? 4096 * b) && (4096 * (b + 1) <=? end_)
  else (4096 * b <? end_) && (start <? 4096 * (b + 1)).

(** The rounded byte range, in blocks: [first] up to, not including, [last]. *)
Definition first_block (set : bool) (start : Z) : Z := if set then (start + 4095) / 4096 else start / 4096.
Definition end_block (set : bool) (end_ : Z) : Z := if set then end_ / 4096 else (end_ + 4095) / 4096.

Lemma rounded_range (set : bool) start end_ :
  0 <= start <= end_ -> end_ <= 2 ^ 46 ->
  (if set
   then (u64 (start + DNBD3_BLOCK_SIZE - 1) .& not64 (DNBD3_BLOCK_SIZE - 1),
         end_ .& not64 (DNBD3_BLOCK_SIZE - 1))
   else (start .& not64 (DNBD3_BLOCK_SIZE - 1),
         u64 (end_ + DNBD3_BLOCK_SIZE - 1) .& not64 (DNBD3_BLOCK_SIZE - 1)))
  = (4096 * first_block set start, 4096 * end_block set end_).
Proof.
  intros Hs He. unfold DNBD3_BLOCK_SIZE. change (4096 - 1) with (2 ^ 12 - 1).
  rewrite !land_not64_pow2 by (try apply u64_range; crange). rewrite !u64_id by crange.
  change (2 ^ 12) with 4096. unfold first_block, end_block.
  destruct set; repeat f_equal; lia.
Qed.

Lemma covered_iff set start end_ b :
  covered set start end_ b = true <-> first_block set start <= b < end_block set end_.
Proof.
  unfold covered, first_block, end_block.
  pose proof (Z.div_mod (start + 4095) 4096 ltac:(lia)). pose proof (Z.mod_pos_bound (start + 4095) 4096 ltac:(lia)).
  pose proof (Z.div_mod start 4096 ltac:(lia)). pose proof (Z.mod_pos_bound start 4096 ltac:(lia)).
  pose proof (Z.div_mod end_ 4096 ltac:(lia)). pose proof (Z.mod_pos_bound end_ 4096 ltac:(lia)).
  pose proof (Z.div_mod (end_ + 4095) 4096 ltac:(lia)). pose proof (Z.mod_pos_bound (end_ + 4095) 4096 ltac:(lia)).
  destruct set; rewrite andb_true_iff, ?Z.leb_le, ?Z.ltb_lt; lia.
Qed.

Lemma covered_eq set start end_ b :
  covered set start end_ b
  = (first_block set start <=? b) && (b <=? end_block set end_ - 1).
Proof. apply eq_true_iff_eq. rewrite covered_iff, andb_true_iff, !Z.leb_le. lia. Qed.

Lemma end_block_limit set image end_ :
  image_wf image -> 0 <= end_ <= img_virtualFilesize image ->
  4096 * end_block set end_ <= img_virtualFilesize image.
Proof.
  intros Hwf He. rewrite (wf_virtual _ Hwf) in *. unfold end_block.
  set (n := (img_realFilesize image + 4095) / 4096) in *. destruct set.
  - pose proof (Z.mul_div_le end_ 4096). lia.
  - assert ((end_ + 4095) / 4096 < n + 1); [|lia]. apply Z.div_lt_upper_bound; lia.
Qed.

Lemma image_wf_set_map image c m :
  image_wf image -> map_wf (img_virtualFilesize image) m -> cm_map c = m ->
  image_wf (img_set_cacheMap (Some c) image).
Proof. intros Hwf Hm Hc. split; cbn; [apply Hwf..|]. intros c' [= <-]. by rewrite Hc. Qed.

Lemma mapbytes_val vfs : 0 <= vfs <= 2 ^ 46 - 2 ^ 15 -> IMGSIZE_TO_MAPBYTES vfs = (vfs + 32767) / 32768.
Proof.
  intros Hv. unfold IMGSIZE_TO_MAPBYTES. change (1 << 15) with 32768.
  rewrite u64_id by crange. rewrite shiftr_div by lia. change (2 ^ 15) with 32768.
  replace (vfs + 32768 - 1) with (vfs + 32767) by lia. apply i32_id. unfold in_i32.
  split; [pose proof (Z.div_pos (vfs + 32767) 32768); lia|]. apply Z.div_lt_upper_bound; lia.
Qed.

Lemma virtual_nonneg image : image_wf image -> 0 <= img_realFilesize image <= img_virtualFilesize image.
Proof.
  intros Hwf. pose proof (wf_real _ Hwf). rewrite (wf_virtual _ Hwf).
  pose proof (Z.div_mod (img_realFilesize image + 4095) 4096 ltac:(lia)).
  pose proof (Z.mod_pos_bound (img_realFilesize image + 4095) 4096 ltac:(lia)). lia.
Qed.

(** A freshly recreated map of a complete image has every bit set. *)
Lemma allocCacheMap_complete junk image :
  image_wf image -> img_cacheMap image = None ->
  exists c, allocCacheMap junk image true = img_set_cacheMap (Some c) image
    /\ map_wf (img_virtualFilesize image) (cm_map c)
    /\ (forall b, 0 <= b < num_blocks image -> block_cached (cm_map c) b = true).
Proof.
  intros Hwf Hc. pose proof (virtual_nonneg _ Hwf). pose proof (wf_limit _ Hwf).
  unfold allocCacheMap. rewrite Hc, mapbytes_val by lia.
  eexists. split; [reflexivity|]. cbn [cm_map].
  assert (0 <= (img_virtualFilesize image + 32767) / 32768) by (apply Z.div_pos; lia).
  split.
  - split; [rewrite length_replicate; lia|]. apply Forall_replicate. crange.
  - intros b Hb. unfold block_cached, num_blocks, DNBD3_BLOCK_SIZE in *. pose proof (div_mod_block b).
    rewrite lookup_total_replicate_2.
    + rewrite testbit_255 by lia. apply Z.ltb_lt. lia.
    + apply Z2Nat.inj_lt; [apply Z.div_pos; lia|lia|].
      pose proof (Z.mul_div_le (img_virtualFilesize image) 4096).
      apply Z.div_lt_upper_bound; [lia|].
      pose proof (Z.div_mod (img_virtualFilesize image + 32767) 32768 ltac:(lia)).
      pose proof (Z.mod_pos_bound (img_virtualFilesize image + 32767) 32768 ltac:(lia)). lia.
Qed.

(** The hash blocks a range of 4 KiB blocks meets. *)
Lemma hash_range_meets F E h :
  F < E ->
  4096 * F / 16777216 <= h <= (4096 * E - 1) / 16777216 <-> exists b, F <= b < E /\ b / 4096 = h.
Proof.
  intros HFE.
  replace (4096 * F / 16777216) with (F / 4096)
    by (change 16777216 with (4096 * 4096); by rewrite Z.div_mul_cancel_l by lia).
  replace ((4096 * E - 1) / 16777216) with ((E - 1) / 4096).
  2: { change 16777216 with (4096 * 4096). rewrite <- Z.div_div by lia. f_equal.
       apply Z.div_unique with (r := 4095); lia. }
  pose proof (Z.div_mod F 4096 ltac:(lia)). pose proof (Z.mod_pos_bound F 4096 ltac:(lia)).
  pose proof (Z.div_mod (E - 1) 4096 ltac:(lia)). pose proof (Z.mod_pos_bound (E - 1) 4096 ltac:(lia)).
  split.
  - intros Hh. exists (Z.max F (4096 * h)). split; [lia|].
    symmetry. apply Z.div_unique with (r := Z.max F (4096 * h) - 4096 * h); lia.
  - intros (b & Hb & <-). split; apply Z.div_le_mono; lia.
Qed.

(** What a call does once there is a map to update. *)
Lemma update_map_spec image c (set : bool) F E :
  image_wf image -> img_cacheMap image = Some c -> 0 <= F < E -> 4096 * E <= img_virtualFilesize image ->
  exists news m, updateMapBits (cm_map c) (4096 * F) (4096 * E) set = Ok (news, m)
    /\ map_wf (img_virtualFilesize image) m
    /\ (forall b, 0 <= b -> block_cached m b = upd set (block_cached (cm_map c) b) ((F <=? b) && (b <=? E - 1)))
    /\ (news = true <-> set = true /\ exists b, F <= b < E /\ block_cached (cm_map c) b = false).
Proof.
  intros Hwf Hc HFE HE. pose proof (wf_limit _ Hwf). destruct (wf_map _ Hwf _ Hc) as [Hlen Hu].
  assert ((4096 * E - 1) / 4096 = E - 1) as Hl by (symmetry; apply Z.div_unique with (r := 4095); lia).
  assert (4096 * F / 4096 = F) as Hf by (rewrite Z.mul_comm; apply Z.div_mul; lia).
  destruct (updateMapBits_spec (cm_map c) (4096 * F) (4096 * E) Hu ltac:(lia) ltac:(lia)) with (set := set)
    as (news & m & Hrun & Hl' & Hu' & Hb & Hn).
  { rewrite Hl, Hlen. apply Z.div_lt_upper_bound; [lia|].
    pose proof (Z.div_mod (img_virtualFilesize image + 32767) 32768 ltac:(lia)).
    pose proof (Z.mod_pos_bound (img_virtualFilesize image + 32767) 32768 ltac:(lia)). lia. }
  rewrite Hl, Hf in *. exists news, m. split; [done|]. split; [split; [lia|done]|]. split; [done|].
  rewrite Hn. split; intros [? (b & ? & ?)]; (split; [done|]); exists b; (split; [lia|done]).
Qed.

Lemma upd_ff set x : upd set x false = x.
Proof. destruct set, x; reflexivity. Qed.

Lemma cachemapForUpdate_spec junk image set :
  image_wf image ->
  let image1 := cachemapForUpdate junk image set in
  image_wf image1
  /\ (img_virtualFilesize image1 = img_virtualFilesize image
      /\ img_realFilesize image1 = img_realFilesize image /\ img_crc32 image1 = img_crc32 image)
  /\ (forall b, 0 <= b < num_blocks image -> is_cached image1 b = is_cached image b)
  /\ (img_cacheMap image1 = None -> set = true /\ img_cacheMap image = None).
Proof.
  intros Hwf. unfold cachemapForUpdate. destruct (img_cacheMap image) as [c|] eqn:Hc.
  { cbn. rewrite Hc. by repeat (split; [done|]). }
  destruct set; [cbn; rewrite Hc; by repeat (split; [done|])|].
  destruct (allocCacheMap_complete junk image Hwf Hc) as (c & -> & Hm & Hfull). cbn.
  split; [by eapply image_wf_set_map|]. split; [done|]. split; [|done].
  intros b Hb. unfold is_cached. rewrite Hc. by apply Hfull.
Qed.

Lemma updateCachemapLocked_spec image c (set : bool) F E :
  image_wf image -> img_cacheMap image = Some c -> 0 <= F < E -> 4096 * E <= img_virtualFilesize image ->
  exists image' checks,
    updateCachemapLocked image c (4096 * F) (4096 * E) set = Ok (image', checks)
    /\ image_wf image'
    /\ (forall b, 0 <= b -> is_cached image' b = upd set (is_cached image b) ((F <=? b) && (b <=? E - 1)))
    /\ (forall h, In h checks <->
          (set = true /\ exists b, F <= b < E /\ is_cached image b = false) /\ img_crc32 image <> None
          /\ (exists b, F <= b < E /\ b / 4096 = h)
          /\ (forall b, in_hash_block h (img_realFilesize image) b -> is_cached image' b = true)).
Proof.
  intros Hwf Hc HFE HE. pose proof (virtual_nonneg _ Hwf) as Hv. pose proof (wf_limit _ Hwf).
  destruct (update_map_spec image c set F E Hwf Hc HFE HE) as (news & m & Hrun & Hm & Hb & Hn).
  unfold updateCachemapLocked. rewrite Hrun. cbn [mbind result_bind].
  replace (is_cached image) with (block_cached (cm_map c)) by (unfold is_cached; by rewrite Hc).
  assert (forall c', cm_map c' = m -> image_wf (img_set_cacheMap (Some c') image)) as Hwf'
    by (intros; by eapply image_wf_set_map).
  set (dirtied := if set then cm_set_map m c else cm_set_dirty true (cm_set_map m c)).
  assert (image_wf (img_set_cacheMap (Some dirtied) image) /\ forall b, 0 <= b ->
    is_cached (img_set_cacheMap (Some dirtied) image) b
    = upd set (block_cached (cm_map c) b) ((F <=? b) && (b <=? E - 1))) as Hnone.
  { split; [apply Hwf'; unfold dirtied; by destruct set|]. intros b Hb0. rewrite <- Hb by done.
    unfold dirtied. by destruct set. }
  destruct news, (img_crc32 image) as [crcs|] eqn:Hcrc.
  - destruct (image_updateCachemap_checks (cm_set_map m c) (img_virtualFilesize image)
      (img_realFilesize image) (4096 * F) (4096 * E)) as (checks & -> & Hch); [done|lia..|].
    cbn [mbind result_bind]. eexists _, checks. split; [done|]. split; [by apply Hwf'|].
    split; [exact Hb|]. intros h. rewrite Hch, hash_range_meets by lia.
    rewrite <- Hn. split; [intros [? ?]; by repeat split|by intros (_ & _ & ?)].
  - destruct Hnone as [H1 H2]. eexists _, []. split; [done|]. split; [done|]. split; [done|].
    intros h. split; [done|by intros (_ & ? & _)].
  - destruct Hnone as [H1 H2]. eexists _, []. split; [done|]. split; [done|]. split; [done|].
    intros h. rewrite <- Hn. split; [done|by intros (? & _)].
  - destruct Hnone as [H1 H2]. eexists _, []. split; [done|]. split; [done|]. split; [done|].
    intros h. split; [done|by intros (_ & ? & _)].
Qed.

Lemma image_updateCachemap_spec junk image start end_ (set : bool) :
  image_wf image -> 0 <= start <= end_ -> end_ <= img_virtualFilesize image ->
  exists image' checks,
    image_updateCachemap junk image start end_ set = Ok (image', checks)
    /\ image_wf image'
    /\ (forall b, 0 <= b < num_blocks image ->
          is_cached image' b = upd set (is_cached image b) (covered set start end_ b))
    /\ (forall h, In h checks <->
          (set = true /\ exists b, covered set start end_ b = true /\ is_cached image b = false)
          /\ img_crc32 image <> None
          /\ (exists b, covered set start end_ b = true /\ b / 4096 = h)
          /\ (forall b, in_hash_block h (img_realFilesize image) b -> is_cached image' b = true)).
Proof.
  intros Hwf Hs He. pose proof (wf_limit _ Hwf) as Hlim. pose proof (virtual_nonneg _ Hwf) as Hv.
  unfold image_updateCachemap. rewrite (proj2 (Z.leb_le _ _) He), (proj2 (Z.leb_le start end_)) by lia.
  cbn [assert_ mbind result_bind]. rewrite rounded_range by lia.
  pose proof (end_block_limit set image end_ Hwf ltac:(lia)) as HE.
  setoid_rewrite covered_iff. setoid_rewrite covered_eq.
  set (F := first_block set start) in *. set (E := end_block set end_) in *.
  assert (0 <= F) as HF by (subst F; unfold first_block; destruct set; apply Z.div_pos; lia).
  destruct (Z.leb_spec (4096 * E) (4096 * F)) as [Hno|Hyes].
  { exists image, []. split; [done|]. split; [done|]. split.
    - intros b _. replace ((F <=? b) && (b <=? E - 1)) with false; [by rewrite upd_ff|].
      symmetry. apply andb_false_iff. rewrite !Z.leb_gt. lia.
    - intros h. split; [done|]. intros ((_ & b & ? & _) & _). lia. }
  destruct (cachemapForUpdate_spec junk image set Hwf) as (Hwf1 & (Hv1 & Hr1 & Hc1) & Hsame & Hnone).
  set (image1 := cachemapForUpdate junk image set) in *.
  assert (forall b, F <= b < E -> 0 <= b < num_blocks image) as Hin.
  { intros b Hb. unfold num_blocks, DNBD3_BLOCK_SIZE. split; [lia|].
    apply Z.lt_le_trans with E; [lia|]. apply Z.div_le_lower_bound; lia. }
  destruct (img_cacheMap image1) as [c|] eqn:Hc.
  - destruct (updateCachemapLocked_spec image1 c set F E Hwf1 Hc) as (image' & checks & -> & ? & Hb & Hch);
      [lia|lia|]. exists image', checks. split; [done|]. split; [done|]. split.
    + intros b Hb0. rewrite Hb, Hsame by lia. done.
    + intros h. rewrite Hch, Hc1, Hr1.
      assert ((exists b, F <= b < E /\ is_cached image1 b = false)
              <-> (exists b, F <= b < E /\ is_cached image b = false)) as ->; [|done].
      split; intros (b & Hb1 & Hb2); exists b; (split; [done|]); by rewrite Hsame in * by auto.
  - destruct (Hnone eq_refl) as [-> Hc0]. exists image1, []. split; [done|]. split; [done|]. split.
    + intros b Hb0. rewrite Hsame by done. unfold is_cached. by rewrite Hc0.
    + intros h. split; [done|]. unfold is_cached. rewrite Hc0. intros ((_ & b & _ & ?) & _). done.
Qed.

(** ** Completeness *)

Definition low_bits (n : nat) : Z := foldl (fun acc j => acc .| u8 (1 << Z.of_nat j)) 0 (seq 0 n).

Lemma low_bits_spec n j : (n < 8)%nat -> 0 <= j < 8 -> Z.testbit (low_bits n) j = (j <? Z.of_nat n).
Proof.
  intros Hn Hj. assert (low_bits n = Z.ones (Z.of_nat n)) as ->.
  { do 8 (destruct n as [|n]; [reflexivity|]). lia. }
  apply Z.testbit_ones_nonneg; lia.
Qed.
Lemma low_bits_u8 n : (n < 8)%nat -> in_u8 (low_bits n).
Proof. intros Hn. do 8 (destruct n as [|n]; [vm_compute; split; congruence|]). lia. Qed.

Section Complete.
Context (image : dnbd3_image_t) (c : dnbd3_cache_map_t).
Hypothesis Hwf : image_wf image.
Hypothesis Hc : img_cacheMap image = Some c.
Let nb := num_blocks image.

Local Lemma map_len : 0 < nb /\ img_virtualFilesize image = 4096 * nb
  /\ Z.of_nat (length (cm_map c)) = (nb + 7) / 8 /\ Forall in_u8 (cm_map c).
Proof.
  destruct (wf_map _ Hwf _ Hc) as [Hlen Hu]. pose proof (wf_real _ Hwf).
  assert (img_virtualFilesize image = 4096 * nb) as Hv.
  { unfold nb, num_blocks, DNBD3_BLOCK_SIZE. rewrite (wf_virtual _ Hwf).
    rewrite (Z.mul_comm 4096 (_ / _)), Z.div_mul by lia. lia. }
  pose proof (virtual_nonneg _ Hwf). split; [lia|]. split; [done|]. split; [|done].
  rewrite Hlen, Hv. change 32768 with (4096 * 8). rewrite <- Z.div_div by lia. f_equal.
  symmetry. apply Z.div_unique with (r := 4095); lia.
Qed.

(** The test of the last byte, which may stand for fewer than eight blocks. *)
Local Lemma last_byte_complete :
  let n := Z.of_nat (length (cm_map c)) in
  let bl := (img_virtualFilesize image >> 12) .& 7 in
  let last_byte := if bl =? 0 then 255 else low_bits (Z.to_nat bl) in
  (((cm_map c !!! Z.to_nat (n - 1)) .& last_byte) =? last_byte) = true
  <-> forall b, 8 * (n - 1) <= b < nb -> block_cached (cm_map c) b = true.
Proof.
  destruct map_len as (Hpos & Hv & Hlen & Hu). intros n bl last_byte.
  assert (bl = nb mod 8) as Hbl.
  { unfold bl. change 7 with (2 ^ 3 - 1). rewrite land_ones_mod, shiftr_div, Hv by lia.
    rewrite Z.mul_comm, Z.div_mul by lia. done. }
  pose proof (div_mod_block nb). pose proof (div_mod_block (nb + 7)). unfold n in *.
  set (e := Z.of_nat (length (cm_map c))) in *.
  assert (0 <= e - 1 < e) by (unfold e in *; lia).
  assert (in_u8 last_byte /\ forall j, 0 <= j < 8 -> Z.testbit last_byte j = (8 * (e - 1) + j <? nb))
    as [Hlb Hbits].
  { unfold last_byte. destruct (Z.eqb_spec bl 0).
    - split; [crange|]. intros j Hj. rewrite testbit_255 by lia. apply eq_true_iff_eq.
      rewrite !Z.ltb_lt. lia.
    - split; [apply low_bits_u8; lia|]. intros j Hj. rewrite low_bits_spec by lia.
      apply eq_true_iff_eq. rewrite !Z.ltb_lt. lia. }
  rewrite mask_test by first [done | apply lookup_u8; [done|unfold e in *; lia]]. split.
  - intros HH b Hb. replace b with (8 * (e - 1) + (b - 8 * (e - 1))) by lia.
    rewrite block_at by lia. apply HH; [lia|]. rewrite Hbits by lia. apply Z.ltb_lt. lia.
  - intros HH j Hj Hb. rewrite <- block_at by lia. apply HH. rewrite Hbits in Hb by lia. b2p. lia.
Qed.

Lemma image_isComplete_map :
  exists r, image_isComplete image
    = Ok (r, r, if (r : bool) then img_set_cacheMap None image else image)
    /\ (r = true <-> forall b, 0 <= b < nb -> block_cached (cm_map c) b = true).
Proof.
  destruct map_len as (Hpos & Hv & Hlen & Hu). pose proof (wf_limit _ Hwf).
  pose proof last_byte_complete as Hlast. cbn zeta in Hlast.
  unfold image_isComplete. destruct (Z.eqb_spec (img_virtualFilesize image) 0); [lia|].
  rewrite Hc, mapbytes_val by lia.
  replace ((img_virtualFilesize image + 32767) / 32768) with (Z.of_nat (length (cm_map c)))
    by (apply (wf_map _ Hwf _ Hc)).
  set (e := Z.of_nat (length (cm_map c))) in *. pose proof (div_mod_block (nb + 7)).
  rewrite trips_1. destruct (for_all_full (cm_map c) 0 (Z.to_nat (e - 1 - 0))) as (r & -> & Hr);
    [done|lia|unfold e; lia|]. cbn [mbind result_bind].
  destruct r; cbn [mbind result_bind].
  - rewrite aget_in_range by (unfold e in *; lia). cbn [mbind result_bind].
    fold (low_bits (Z.to_nat ((img_virtualFilesize image >> 12) .& 7))).
    set (t := (_ =? _)) in *. exists t. split; [by destruct t|]. rewrite Hlast. split.
    + intros HH b Hb. destruct (Z.lt_ge_cases b (8 * (e - 1))); [|apply HH; lia].
      apply (proj1 Hr eq_refl). unfold e in *. lia.
    + intros HH b Hb. apply HH. unfold e in *. lia.
  - exists false. split; [done|]. rewrite Hr. split; intros HH b Hb; [|apply HH; unfold e in *; lia].
    pose proof (proj2 Hr) as Hf. discriminate Hf. intros b' Hb'. apply HH. lia.
Qed.
End Complete.

(** ** The completeness estimate *)

(** What one byte of the map adds to the estimate. *)
Definition byte_percent (v : Z) : Z := if v =? 255 then 100 else if negb (v =? 0) then 50 else 0.

Lemma estimate_loop m a n acc :
  0 <= a -> a + Z.of_nat n <= Z.of_nat (length m) -> 0 <= acc -> acc + 100 * Z.of_nat n < 2 ^ 31 ->
  exists p,
    for_each (fun i percent =>
                v ← aget m i;
                Ok (if v =? 255 then i32 (percent + 100)
                    else if negb (v =? 0) then i32 (percent + 50) else percent)) a 1 n acc = Ok p
    /\ acc <= p <= acc + 100 * Z.of_nat n
    /\ (p = acc + 100 * Z.of_nat n
        <-> forall k, a <= k < a + Z.of_nat n -> m !!! Z.to_nat k = 255).
Proof.
  revert a acc. induction n as [|n IH]; intros a acc Ha Hn Hacc Hlim.
  { exists acc. split; [done|]. split; [lia|]. split; [lia|]. lia. }
  cbn [for_each]. rewrite aget_in_range by lia. cbn [mbind result_bind].
  set (v := m !!! Z.to_nat a).
  destruct (IH (a + 1) (acc + byte_percent v)) as (p & Hrun & Hp & Hiff);
    [lia|lia|unfold byte_percent; destruct (v =? 255), (v =? 0); cbn; lia..|].
  exists p. split.
  { rewrite <- Hrun. f_equal. unfold byte_percent.
    destruct (v =? 255), (v =? 0); cbn [negb]; rewrite ?i32_id by crange; lia. }
  unfold byte_percent in *. split; [destruct (v =? 255), (v =? 0); cbn in *; lia|].
  destruct (Z.eqb_spec v 255) as [Hv|Hv].
  - rewrite <- (Z.add_assoc acc 100) in Hiff.
    replace (acc + 100 * Z.of_nat (S n)) with (acc + (100 + 100 * Z.of_nat n)) by lia.
    rewrite Hiff. split; intros HH k Hk; [|apply HH; lia].
    destruct (Z.eq_dec k a) as [->|]; [done|apply HH; lia].
  - split; [destruct (v =? 0); cbn in *; lia|]. intros HH. destruct Hv. apply HH. lia.
Qed.

(** ** Theorems *)

(** The blocks a byte range touches. *)
Definition touched (start end_ b : Z) : Prop := start / 4096 <= b <= (end_ - 1) / 4096.

Lemma map_range_length image c end_ :
  image_wf image -> img_cacheMap image = Some c -> 0 < end_ <= img_virtualFilesize image ->
  (end_ - 1) / 4096 / 8 < Z.of_nat (length (cm_map c)).
Proof.
  intros Hwf Hc He. destruct (wf_map _ Hwf _ Hc) as [-> _]. rewrite Z.div_div by lia.
  pose proof (Z.div_mod (img_virtualFilesize image + 32767) 32768 ltac:(lia)).
  pose proof (Z.mod_pos_bound (img_virtualFilesize image + 32767) 32768 ltac:(lia)).
  apply Z.div_lt_upper_bound; lia.
Qed.

Lemma range_cached image c start end_ :
  image_wf image -> img_cacheMap image = Some c -> 0 <= start < end_ -> end_ <= img_virtualFilesize image ->
  exists r, image_isRangeCachedUnsafe c start end_ = Ok r
    /\ (r = true <-> forall b, touched start end_ b -> is_cached image b = true).
Proof.
  intros Hwf Hc Hs He. pose proof (wf_limit _ Hwf).
  destruct (image_isRangeCachedUnsafe_spec (cm_map c) start end_ (proj2 (wf_map _ Hwf _ Hc)) Hs
    ltac:(lia) (map_range_length image c end_ Hwf Hc ltac:(lia)) c eq_refl) as (r & Hr & Hiff).
  exists r. split; [done|]. rewrite Hiff. unfold is_cached. by rewrite Hc.
Qed.

(** An update changes nothing but the map. *)
Lemma updateCachemap_sizes junk image start end_ set image' checks :
  image_updateCachemap junk image start end_ set = Ok (image', checks) ->
  img_virtualFilesize image' = img_virtualFilesize image
  /\ img_realFilesize image' = img_realFilesize image /\ img_crc32 image' = img_crc32 image.
Proof.
  unfold image_updateCachemap.
  destruct (assert_ (end_ <=? img_virtualFilesize image)); cbn [mbind result_bind]; [|done].
  destruct (assert_ (start <=? end_)); cbn [mbind result_bind]; [|done].
  set (rng := if set then _ else _). destruct rng as [F E]. destruct (E <=? F); [by intros [= <- <-]|].
  assert (Hcf : forall i, i = cachemapForUpdate junk image set ->
    img_virtualFilesize i = img_virtualFilesize image
    /\ img_realFilesize i = img_realFilesize image /\ img_crc32 i = img_crc32 image).
  { intros i ->. unfold cachemapForUpdate, allocCacheMap. by destruct (img_cacheMap image), set. }
  specialize (Hcf _ eq_refl). destruct (img_cacheMap _) as [c|]; [|by intros [= <- <-]].
  unfold updateCachemapLocked. destruct (updateMapBits _ _ _ _) as [[news m]|]; cbn [mbind result_bind]; [|done].
  destruct news; [destruct (img_crc32 _) eqn:Hcrc; [destruct (queueHashChecks _ _ _ _)|]|];
    cbn [mbind result_bind]; try done; intros [= <- <-]; cbn; rewrite ?Hcrc; apply Hcf.
Qed.

(** C4. On a well-formed image, [image_updateCachemap] implements the update of the
    set of cached blocks: it does not fail, keeps the image well-formed, and marks
    exactly the blocks that lie completely inside the range as cached (or, when
    clearing, every block the range touches as missing).  If the image has a checksum list and the
    call marks at least one block that was missing, it hands to the integrity checker exactly the
    hash blocks that the range meets and that are complete after the call, those that
    were complete before it included; otherwise it hands over none. *)
Theorem image_updateCachemap_refines junk image start end_ (set : bool) :
  image_wf image -> 0 <= start <= end_ -> end_ <= img_virtualFilesize image ->
  exists image' checks,
    image_updateCachemap junk image start end_ set = Ok (image', checks)
    /\ image_wf image'
    /\ (forall b, 0 <= b < num_blocks image ->
          is_cached image' b = upd set (is_cached image b) (covered set start end_ b))
    /\ (forall h, In h checks <->
          (set = true /\ exists b, covered set start end_ b = true /\ is_cached image b = false)
          /\ img_crc32 image <> None
          /\ (exists b, covered set start end_ b = true /\ b / 4096 = h)
          /\ (forall b, in_hash_block h (img_realFilesize image) b -> is_cached image' b = true)).
Proof. apply image_updateCachemap_spec. Qed.

(** A 9000 byte image of which the blocks 0 and 2 are cached. *)
Definition demo_image : dnbd3_image_t :=
  Image "/x/demo.r1" "demo" (Some (CacheMapT false true [5])) 12288 9000 (Ticks 0 0) (Ticks 0 0)
    (Some [1]) 7 3 0 0 1 (Problems false false false false false) 1 false.

Lemma demo_image_wf : image_wf demo_image.
Proof.
  split; cbn; try lia.
  - reflexivity.
  - intros c [= <-]. split; [reflexivity|]. cbn. repeat constructor; crange.
Qed.

Lemma image_updateCachemap_refines_witness :
  exists image' checks,
    image_updateCachemap (false, false) demo_image 4000 9000 true = Ok (image', checks)
    /\ image_wf image' /\ is_cached image' 1 = true.
Proof.
  destruct (image_updateCachemap_refines (false, false) demo_image 4000 9000 true)
    as (i & ch & Hrun & Hwf & Hb & _).
  - apply demo_image_wf.
  - lia.
  - cbn. lia.
  - exists i, ch. split; [exact Hrun|]. split; [exact Hwf|]. rewrite Hb by (split; [lia|reflexivity]). reflexivity.
Defined.

(** [image_isRangeCachedUnsafe] on a byte range of a well-formed image reads only
    bytes of the map and answers true exactly if every block the range touches is
    cached. *)
Theorem image_isRangeCachedUnsafe_correct image c start end_ :
  image_wf image -> img_cacheMap image = Some c -> 0 <= start < end_ ->
  end_ <= img_virtualFilesize image ->
  exists r, image_isRangeCachedUnsafe c start end_ = Ok r
    /\ (r = true <-> forall b, touched start end_ b -> is_cached image b = true).
Proof. apply range_cached. Qed.

Lemma image_isRangeCachedUnsafe_correct_witness :
  exists r, image_isRangeCachedUnsafe (CacheMapT false true [5]) 100 4096 = Ok r /\ r = true.
Proof.
  destruct (image_isRangeCachedUnsafe_correct demo_image (CacheMapT false true [5]) 100 4096)
    as (r & Hr & Hiff); [apply demo_image_wf|reflexivity|lia|cbn; lia|].
  exists r. split; [exact Hr|]. apply Hiff. intros b [H1 H2].
  change (100 / 4096) with 0 in H1. change ((4096 - 1) / 4096) with 0 in H2.
  replace b with 0 by lia. reflexivity.
Defined.

(** What was stored is found: after [image_updateCachemap] marked a range, every
    range of whole blocks inside it is reported as cached, whatever the map held
    before. *)
Theorem update_then_cached junk image start end_ first n image' checks c :
  image_wf image -> 0 <= start <= end_ -> end_ <= img_virtualFilesize image ->
  image_updateCachemap junk image start end_ true = Ok (image', checks) ->
  img_cacheMap image' = Some c ->
  0 < n -> start <= 4096 * first -> 4096 * (first + n) <= end_ ->
  image_isRangeCachedUnsafe c (4096 * first) (4096 * (first + n)) = Ok true.
Proof.
  intros Hwf Hs He Hrun Hc Hn Hf Hl.
  destruct (image_updateCachemap_spec junk image start end_ true Hwf Hs He)
    as (i & ch & Hrun' & Hwf' & Hb & _).
  rewrite Hrun in Hrun'. injection Hrun' as <- <-.
  pose proof (updateCachemap_sizes _ _ _ _ _ _ _ Hrun) as [Hv _].
  destruct (range_cached image' c (4096 * first) (4096 * (first + n)) Hwf' Hc) as (r & -> & Hiff); [lia|lia|].
  f_equal. apply Hiff. intros b [H1 H2]. rewrite (Z.mul_comm 4096 first), Z.div_mul in H1 by lia.
  assert (b <= first + n - 1).
  { apply Z.lt_succ_r. unfold Z.succ. replace (first + n - 1 + 1) with (first + n) by lia.
    eapply Z.le_lt_trans; [exact H2|]. apply Z.div_lt_upper_bound; lia. }
  rewrite Hb. { cbn [upd]. assert (covered true start end_ b = true) as ->; [|apply orb_true_r].
    apply covered_iff. unfold first_block, end_block. split.
    - apply Z.le_trans with first; [|lia]. apply Z.lt_succ_r, Z.div_lt_upper_bound; lia.
    - apply Z.lt_le_trans with (first + n); [lia|]. apply Z.div_le_lower_bound; lia. }
  unfold num_blocks, DNBD3_BLOCK_SIZE. split; [lia|].
  apply Z.lt_le_trans with (first + n); [lia|]. apply Z.div_le_lower_bound; lia.
Qed.

Lemma update_then_cached_witness :
  exists image' checks c,
    image_updateCachemap (false, false) demo_image 4000 9000 true = Ok (image', checks)
    /\ img_cacheMap image' = Some c
    /\ image_isRangeCachedUnsafe c (4096 * 1) (4096 * (1 + 1)) = Ok true.
Proof.
  eexists _, _, _. split; [reflexivity|]. split; [reflexivity|].
  eapply (update_then_cached (false, false) demo_image 4000 9000 1 1);
    [apply demo_image_wf|lia|cbn; lia|reflexivity|reflexivity|lia..].
Defined.

(** [image_isComplete] is true exactly if every block of the image is cached, and
    then the cache map and its file are dropped; otherwise nothing changes. *)
Theorem image_isComplete_spec image :
  image_wf image ->
  exists r unlinked image',
    image_isComplete image = Ok (r, unlinked, image')
    /\ (r = true <-> forall b, 0 <= b < num_blocks image -> is_cached image b = true)
    /\ img_cacheMap image' = (if (r : bool) then None else img_cacheMap image)
    /\ (unlinked = true <-> r = true /\ img_cacheMap image <> None).
Proof.
  intros Hwf. destruct (img_cacheMap image) as [c|] eqn:Hc.
  - destruct (image_isComplete_map image c Hwf Hc) as (r & -> & Hr). eexists r, r, _.
    split; [done|]. split; [unfold is_cached; by rewrite Hc|]. split; [by destruct r|].
    split; [by intros ->|by intros [? _]].
  - pose proof (virtual_nonneg _ Hwf). pose proof (wf_real _ Hwf).
    unfold image_isComplete. destruct (Z.eqb_spec (img_virtualFilesize image) 0); [lia|].
    rewrite Hc. exists true, false, image. unfold is_cached. rewrite Hc.
    repeat split; by intros [].
Qed.

Lemma image_isComplete_spec_witness :
  exists r unlinked image', image_isComplete demo_image = Ok (r, unlinked, image') /\ r = false.
Proof.
  destruct (image_isComplete_spec demo_image demo_image_wf) as (r & u & i & Hrun & Hiff & _).
  exists r, u, i. split; [exact Hrun|]. destruct r; [|reflexivity].
  assert (H1 : is_cached demo_image 1 = true) by (apply Hiff; [reflexivity|split; [lia|reflexivity]]).
  discriminate H1.
Defined.

(** The estimate computed when it is due is a percentage, is remembered, and is 100
    only for a full map, for maps on which the sum of [image_getCompletenessEstimate]
    does not leave an [int]. *)
Theorem image_getCompletenessEstimate_spec now r image c :
  image_wf image -> img_cacheMap image = Some c ->
  timing_reached (img_nextCompletenessEstimate image) now = true ->
  100 * Z.of_nat (length (cm_map c)) < 2 ^ 31 ->
  exists e image', image_getCompletenessEstimate now r image = Ok (e, image')
    /\ 0 <= e <= 100 /\ img_completenessEstimate image' = e
    /\ (e = 100 <-> Forall (eq 255) (cm_map c)).
Proof.
  intros Hwf Hc Ht Hlim. destruct (map_len image c Hwf Hc) as (Hpos & Hv & Hlen & Hu).
  pose proof (wf_limit _ Hwf). unfold image_getCompletenessEstimate.
  rewrite Hc, mapbytes_val, Ht by lia.
  replace ((img_virtualFilesize image + 32767) / 32768) with (Z.of_nat (length (cm_map c)))
    by (apply (wf_map _ Hwf _ Hc)).
  pose proof (div_mod_block (num_blocks image + 7)).
  set (n := Z.of_nat (length (cm_map c))) in *.
  destruct (Z.eqb_spec n 0); [lia|]. cbn [negb]. rewrite trips_1.
  destruct (estimate_loop (cm_map c) 0 (Z.to_nat (n - 0)) 0) as (p & -> & Hp & Hiff); [lia..|].
  cbn [mbind result_bind]. rewrite Z.quot_div_nonneg by lia. eexists _, _. split; [done|].
  split; [split; [apply Z.div_pos; lia|apply Z.div_le_upper_bound; lia]|]. split; [done|].
  assert (p / n = 100 <-> p = 0 + 100 * Z.of_nat (Z.to_nat (n - 0))) as ->.
  { split.
    - intros Heq. pose proof (Z.mul_div_le p n). nia.
    - intros ->. symmetry. apply Z.div_unique with (r := 0); lia. }
  rewrite Hiff, Forall_lookup. split.
  - intros HH i x Hx. specialize (HH (Z.of_nat i)). apply lookup_lt_Some in Hx as Hi.
    rewrite Nat2Z.id, (list_lookup_total_correct _ _ _ Hx) in HH. symmetry. apply HH. lia.
  - intros HH k Hk. symmetry. apply (HH (Z.to_nat k)). apply list_lookup_lookup_total_lt. lia.
Qed.

Lemma image_getCompletenessEstimate_spec_witness :
  exists e image', image_getCompletenessEstimate (Ticks 9 0) 1 demo_image = Ok (e, image')
    /\ 0 <= e <= 100.
Proof.
  destruct (image_getCompletenessEstimate_spec (Ticks 9 0) 1 demo_image (CacheMapT false true [5]))
    as (e & i & Hrun & Hb & _); [apply demo_image_wf|reflexivity|reflexivity|cbn; lia|].
  by exists e, i.
Defined.

(** A map read from disk covers the image, and a short map file never makes a block
    count as cached that the file does not list. *)
Theorem image_loadCacheMap_spec bytes vfs :
  0 <= vfs <= 2 ^ 46 - 2 ^ 15 -> Forall in_u8 bytes ->
  exists c, image_loadCacheMap (Some bytes) vfs = Some c /\ map_wf vfs (cm_map c)
    /\ (forall b, 0 <= b < vfs / 4096 -> block_cached (cm_map c) b = true ->
          b / 8 < Z.of_nat (length bytes) /\ block_cached bytes b = true).
Proof.
  intros Hv Hu. cbn [image_loadCacheMap]. rewrite mapbytes_val by done.
  assert (0 <= (vfs + 32767) / 32768) by (apply Z.div_pos; lia).
  set (n := Z.to_nat ((vfs + 32767) / 32768)) in *.
  eexists. split; [done|]. cbn [cm_map]. split; [split|].
  - rewrite length_app, length_replicate, length_take. lia.
  - apply Forall_app. split; [by apply Forall_take|]. apply Forall_replicate. crange.
  - intros b Hb Hbit. unfold block_cached in *. pose proof (div_mod_block b).
    assert (0 <= b / 8) by (apply Z.div_pos; lia).
    destruct (decide (Z.to_nat (b / 8) < length (take n bytes))%nat) as [Hlt|Hge].
    + rewrite lookup_total_app_l in Hbit by done. rewrite length_take in Hlt.
      rewrite lookup_total_take_lt in Hbit by lia. split; [lia|done].
    + exfalso. rewrite lookup_total_app_r in Hbit by lia.
      assert (b / 8 < (vfs + 32767) / 32768).
      { pose proof (Z.mul_div_le vfs 4096). apply Z.div_lt_upper_bound; [lia|].
        pose proof (Z.div_mod (vfs + 32767) 32768 ltac:(lia)).
        pose proof (Z.mod_pos_bound (vfs + 32767) 32768 ltac:(lia)). lia. }
      rewrite lookup_total_replicate_2, Z.testbit_0_l in Hbit by lia. done.
Qed.

Lemma image_loadCacheMap_spec_witness :
  exists c, image_loadCacheMap (Some [1]) 65536 = Some c /\ block_cached (cm_map c) 8 = false.
Proof.
  destruct (image_loadCacheMap_spec [1] 65536) as (c & Hc & _ & Hb); [lia|repeat constructor; crange|].
  exists c. split; [exact Hc|]. destruct (block_cached (cm_map c) 8) eqn:E; [|reflexivity].
  destruct (Hb 8 ltac:(split; [lia|reflexivity]) E) as [H1 _]. vm_compute in H1. discriminate H1.
Defined.
