(* ===== verification/RefCount.v ===== *)
(** * RefCount: weak references with a split counter

    [src/server/reference.h] and [src/server/reference.c].  A weak reference is an
    atomic pointer to a 32 byte union inside the object; the low bits of the
    pointer count the [ref_get] calls that are under way, so that a thread can
    take a reference without a lock while another one replaces the pointer.

    A thread executes one atomic access per step and the steps of all threads
    interleave freely.  An object is [(count, held)]: its counter and, as a ghost,
    the number of references that code outside this file owns; an object whose
    counter reached zero is gone and any access to it is a fault. *)

From stdpp Require Import gmap.
From S2P Require Import Prelude.

(** ** Pointers *)

(** [sizeof(union _aligned_ref_)] *)
Definition UNION_SIZE : Z := 32.

(** A [char *] value of a weak reference: the union of which object it is computed
    from ([None] for the null pointer) and the byte offset. *)
Abbreviation wptr := (option Z * Z)%type.
Definition wnull : wptr := (None, 0).
Definition wadd (w : wptr) (n : Z) : wptr := (w.1, w.2 + n).
(** [aligned_ref(ptr)] *)
Definition aligned_ref (w : wptr) : wptr := (w.1, w.2 / UNION_SIZE).
(** [aligned_ref(ptr)->ref] *)
Definition load_ref (w : wptr) : result Z :=
  match aligned_ref w with
  | (None, _) => Fault NullDeref
  | (Some r, o) => if o =? 0 then Ok r else Fault OutOfBounds
  end.

(** ** Threads *)

Inductive pc :=
| Idle
(** [ref_get] *)
| GetLoad (c : nat)                             (* old_weakref = *weakref *)
| GetBody (c : nat) (old : wptr)                (* body of the first loop *)
| GetCond (c : nat) (old : wptr)                (* its compare-exchange *)
| GetInc (c : nat) (old : wptr)                 (* ++ref->count *)
| GetReload (c : nat) (r : Z) (old : wptr)      (* cur_weakref = *weakref *)
| GetUncas (c : nat) (r : Z) (old cur : wptr)   (* second loop *)
(** [ref_setref] *)
| SetExch (c : nat) (new : option Z)            (* atomic_exchange *)
| SetDrop (old : wptr)                          (* old_ref->count += ... *)
| SetPut (r : Z).                               (* ref_put( old_ref ) *)

Record state := State {
  cells : list wptr;              (* the weak references *)
  objs : gmap Z (Z * Z);          (* live objects: count, references held *)
  hist : list (nat * Z);          (* ghost: which object was put into which cell *)
  pcs : list pc;
}.

(** What a thread does next.  [CStep b] lets it take its next atomic step; [b]
    makes a weak compare-exchange fail spuriously. *)
Inductive choice :=
| CNew (r n : Z)                  (* allocate and [ref_init(r, _, n)] *)
| CGet (c : nat)
| CInc (r : Z)
| CPut (r : Z)
| CSet (c : nat) (new : option Z)
| CStep (spurious : bool).

Definition set_pc (s : state) (t : nat) (p : pc) : state :=
  State (cells s) (objs s) (hist s) (<[t := p]> (pcs s)).
Definition set_cell (s : state) (c : nat) (w : wptr) : state :=
  State (<[c := w]> (cells s)) (objs s) (hist s) (pcs s).
Definition set_obj (s : state) (r : Z) (o : option (Z * Z)) : state :=
  State (cells s) (match o with Some x => <[r := x]> (objs s) | None => delete r (objs s) end)
    (hist s) (pcs s).

(** An atomic addition to the counter, and to the ghost. *)
Definition add_count (s : state) (r d dh : Z) : result state :=
  match objs s !! r with
  | None => Fault UseAfterFree
  | Some (n, h) => Ok (set_obj s r (Some (n + d, h + dh)))
  end.

(** A new object, possibly at the address of one that was freed. *)
Definition ref_init (s : state) (r n : Z) : state :=
  let s' := set_obj s r (Some (n, n)) in
  State (cells s') (objs s') (filter (fun x => x.2 <> r) (hist s')) (pcs s').
Definition ref_inc (s : state) (r : Z) : result state := add_count s r 1 1.

(** [if (--ref->count == 0) ref->free(ref)] *)
Definition ref_put (s : state) (r dh : Z) : result state :=
  match objs s !! r with
  | None => Fault UseAfterFree
  | Some (n, h) =>
      if n - 1 =? 0 then Ok (set_obj s r None) else Ok (set_obj s r (Some (n - 1, h + dh)))
  end.

Definition cas (s : state) (c : nat) (expected new : wptr) (spurious : bool)
  : state + wptr :=
  match cells s !! c with
  | Some w => if decide (w = expected) then (if spurious then inr w else inl (set_cell s c new))
              else inr w
  | None => inr wnull
  end.

(** One atomic step of [ref_get].  A [continue] in a [do ... while] goes to the
    condition, so a reloaded pointer reaches the compare-exchange unchecked. *)
Definition ref_get_step (s : state) (t : nat) (p : pc) (spurious : bool) : result state :=
  match p with
  | GetLoad c => Ok (set_pc s t (GetBody c (default wnull (cells s !! c))))
  | GetBody c old =>
      if decide (old = wnull) then Ok (set_pc s t Idle)
      else if decide (aligned_ref old = aligned_ref (wadd old 1)) then Ok (set_pc s t (GetCond c old))
      else Ok (set_pc s t (GetCond c (default wnull (cells s !! c))))
  | GetCond c old =>
      match cas s c old (wadd old 1) spurious with
      | inl s' => Ok (set_pc s' t (GetInc c old))
      | inr cur => Ok (set_pc s t (GetBody c cur))
      end
  | GetInc c old =>
      r ← load_ref old;
      match objs s !! r with
      | None => Fault UseAfterFree
      | Some (n, h) =>
          if n + 1 =? -1 then Fault AssertFailed
          else Ok (set_pc (set_obj s r (Some (n + 1, h))) t (GetReload c r old))
      end
  | GetReload c r old => Ok (set_pc s t (GetUncas c r old (default wnull (cells s !! c))))
  | GetUncas c r old cur =>
      if decide (aligned_ref cur = aligned_ref old) then
        match cas s c cur (wadd cur (-1)) spurious with
        | inl s' => s'' ← add_count s' r 0 1; Ok (set_pc s'' t Idle)
        | inr cur' => Ok (set_pc s t (GetUncas c r old cur'))
        end
      else s' ← add_count s r (-1) 1; Ok (set_pc s' t Idle)
  | _ => Ok s
  end.

(** The first part of [ref_setref]: store the back pointer and count the weak
    reference. *)
Definition ref_setref_begin (s : state) (t c : nat) (new : option Z) : result state :=
  match new with
  | None => Ok (set_pc s t (SetExch c None))
  | Some r =>
      s' ← add_count s r (UNION_SIZE + 1) 0;
      Ok (set_pc (State (cells s') (objs s') ((c, r) :: hist s') (pcs s')) t (SetExch c (Some r)))
  end.
Definition ref_setref_step (s : state) (t : nat) (p : pc) : result state :=
  match p with
  | SetExch c new =>
      let old := default wnull (cells s !! c) in
      let s' := set_cell s c (new, 0) in
      if decide (old = wnull) then Ok (set_pc s' t Idle) else Ok (set_pc s' t (SetDrop old))
  | SetDrop old =>
      r ← load_ref old;
      s' ← add_count s r (old.2 - UNION_SIZE * (old.2 / UNION_SIZE) - UNION_SIZE) 0;
      Ok (set_pc s' t (SetPut r))
  | SetPut r => s' ← ref_put s r 0; Ok (set_pc s' t Idle)
  | _ => Ok s
  end.

(** [None] when the choice is not open to the thread: a thread only uses a
    reference that is held, and an object is put into a given cell at most once
    in its life (every call site passes a fresh object or a fresh weak reference). *)
Definition exec (s : state) (t : nat) (ch : choice) : option (result state) :=
  match pcs s !! t with
  | None => None
  | Some Idle =>
      match ch with
      | CNew r n =>
          if decide (objs s !! r = None /\ (n = 0 \/ n = 1)) then Some (Ok (ref_init s r n)) else None
      | CGet c => if decide (c < length (cells s))%nat then Some (Ok (set_pc s t (GetLoad c))) else None
      | CInc r =>
          match objs s !! r with
          | Some (_, h) => if 0 <? h then Some (ref_inc s r) else None
          | None => None
          end
      | CPut r =>
          match objs s !! r with
          | Some (_, h) => if 0 <? h then Some (ref_put s r (-1)) else None
          | None => None
          end
      | CSet c new =>
          if decide (c < length (cells s))%nat then
            match new with
            | None => Some (ref_setref_begin s t c None)
            | Some r =>
                match objs s !! r with
                | Some (_, h) =>
                    if ((0 <? h) || forallb (fun x => negb (x.2 =? r)) (hist s))
                       && negb (bool_decide ((c, r) ∈ hist s))
                    then Some (ref_setref_begin s t c (Some r)) else None
                | None => None
                end
            end
          else None
      | CStep _ => None
      end
  | Some p =>
      match ch with
      | CStep sp =>
          match p with
          | SetExch _ _ | SetDrop _ | SetPut _ => Some (ref_setref_step s t p)
          | _ => Some (ref_get_step s t p sp)
          end
      | _ => None
      end
  end.

(** Executions from [ncells] null weak references and [nthreads] idle threads. *)
Definition init (ncells nthreads : nat) : state :=
  State (replicate ncells wnull) ∅ [] (replicate nthreads Idle).

Inductive reachable (ncells nthreads : nat) : state -> Prop :=
| reach_init : reachable ncells nthreads (init ncells nthreads)
| reach_step s t ch s' :
    reachable ncells nthreads s -> exec s t ch = Some (Ok s') -> reachable ncells nthreads s'.

(** Run a schedule; stops at a fault. *)
Fixpoint run (s : state) (sched : list (nat * choice)) : option (result state) :=
  match sched with
  | [] => Some (Ok s)
  | (t, ch) :: rest =>
      match exec s t ch with
      | Some (Ok s') => run s' rest
      | other => other
      end
  end.

(** ** Accounting

    Every reference to an object that is reachable from the shared state or from a
    thread's progress has a weight, and the counter is the sum of the weights. *)

Definition weight_cell (r : Z) (w : wptr) : Z :=
  match w with (Some r', k) => if r =? r' then UNION_SIZE + 1 - k else 0 | _ => 0 end.

Definition weight_pc (r : Z) (p : pc) : Z :=
  match p with
  | GetInc _ (Some r', _) => if r =? r' then 1 else 0
  | GetReload _ r' _ | GetUncas _ r' _ _ => if r =? r' then 2 else 0
  | SetExch _ (Some r') => if r =? r' then UNION_SIZE + 1 else 0
  | SetDrop (Some r', k) => if r =? r' then UNION_SIZE + 1 - k else 0
  | SetPut r' => if r =? r' then 1 else 0
  | _ => 0
  end.

(** Is the thread between the two compare-exchanges of [ref_get] on this cell and
    object? *)
Definition getting (c : nat) (r : Z) (p : pc) : Z :=
  match p with
  | GetInc c' (Some r', _) | GetReload c' r' _ | GetUncas c' r' _ _ =>
      if bool_decide (c = c') && (r =? r') then 1 else 0
  | _ => 0
  end.
(** Is it about to put this object into this cell? *)
Definition putting (c : nat) (r : Z) (p : pc) : Z :=
  match p with
  | SetExch c' (Some r') => if bool_decide (c = c') && (r =? r') then 1 else 0
  | _ => 0
  end.

Definition total_weight (s : state) (r : Z) : Z :=
  zsum (weight_cell r) (cells s) + zsum (weight_pc r) (pcs s).

(** A pointer into the union of a live reference, with room for one more. *)
Definition has_room (w : wptr) : Prop := exists r k, w = (Some r, k) /\ 0 <= k <= 30.

Definition pc_ok (s : state) (p : pc) : Prop :=
  match p with
  | Idle | SetPut _ => True
  | GetLoad c => (c < length (cells s))%nat
  | GetBody c old => (c < length (cells s))%nat /\ (old = wnull \/ has_room old)
  | GetCond c old => (c < length (cells s))%nat /\ has_room old
  | GetInc c old => (c < length (cells s))%nat /\ exists r k, old = (Some r, k) /\ 0 <= k <= 30 /\ (c, r) ∈ hist s
  | GetReload c r old => (c < length (cells s))%nat /\ (c, r) ∈ hist s /\ exists k, old = (Some r, k) /\ 0 <= k <= 30
  | GetUncas c r old _ => (c < length (cells s))%nat /\ (c, r) ∈ hist s /\ exists k, old = (Some r, k) /\ 0 <= k <= 30
  | SetExch c new => (c < length (cells s))%nat /\ (forall r, new = Some r -> (c, r) ∈ hist s)
  | SetDrop old => exists r k, old = (Some r, k) /\ 0 <= k <= 31
  end.

Record Inv (s : state) : Prop := {
  inv_threads : (length (pcs s) <= 31)%nat;
  inv_obj : forall r n h, objs s !! r = Some (n, h) -> 0 <= h /\ n = h + total_weight s r;
  inv_dead : forall r, objs s !! r = None -> total_weight s r = 0;
  inv_cell : forall c w, cells s !! c = Some w ->
    w = wnull \/ exists r, w = (Some r, zsum (getting c r) (pcs s)) /\ (c, r) ∈ hist s;
  inv_pc : forall t p, pcs s !! t = Some p -> pc_ok s p;
  inv_put : forall c r, zsum (putting c r) (pcs s) <> 0 ->
    zsum (putting c r) (pcs s) = 1 /\ zsum (getting c r) (pcs s) = 0
    /\ forall k, cells s !! c <> Some (Some r, k);
  inv_gone : forall t c r old cur, pcs s !! t = Some (GetUncas c r old cur) ->
    aligned_ref cur <> aligned_ref old -> forall k, cells s !! c <> Some (Some r, k);
}.

Ltac weights :=
  repeat match goal with
  | |- context [bool_decide ?P] => destruct (bool_decide_reflect P); subst
  | |- context [?x =? ?y] => destruct (Z.eqb_spec x y); subst
  | p : wptr |- _ => destruct p as [[?|] ?]
  | o : option Z |- _ => destruct o
  end; cbn; unfold UNION_SIZE; lia.

Lemma getting_nonneg c r p : 0 <= getting c r p.
Proof. destruct p; cbn; weights. Qed.
Lemma getting_le1 c r p : getting c r p <= 1.
Proof. destruct p; cbn; weights. Qed.
Lemma putting_nonneg c r p : 0 <= putting c r p.
Proof. destruct p; cbn; weights. Qed.
#[export] Hint Resolve getting_nonneg getting_le1 putting_nonneg : cint.

(** Of at most 31 threads, the others can hold at most 30 pending increments. *)
Lemma getting_bound (l : list pc) t p c r :
  (length l <= 31)%nat -> l !! t = Some p -> getting c r p = 0 ->
  0 <= zsum (getting c r) l <= 30.
Proof.
  intros Hl Ht Hp. split; [apply zsum_nonneg; intros; apply getting_nonneg|].
  pose proof (zsum_insert (getting c r) l t p (GetReload c r wnull) Ht) as Hi.
  pose proof (zsum_le_length (getting c r) (<[t := GetReload c r wnull]> l) (getting_le1 c r)) as Hle.
  rewrite length_insert in Hle. cbn [getting] in Hi.
  rewrite bool_decide_eq_true_2, Z.eqb_refl in Hi by done. cbn in Hi. lia.
Qed.

(** Weights are not negative, and a positive one keeps the object alive. *)
Lemma weight_pc_nonneg s r t p : Inv s -> pcs s !! t = Some p -> 0 <= weight_pc r p.
Proof.
  intros Hi Hp. pose proof (inv_pc _ Hi _ _ Hp) as Hok.
  destruct p as [| | | |c old| | |c new|old|]; cbn in *; try weights.
  destruct Hok as (r' & k & -> & Hk). unfold UNION_SIZE. destruct (_ =? _); lia.
Qed.

Lemma getting_count_bound s c r : Inv s -> 0 <= zsum (getting c r) (pcs s) <= 31.
Proof.
  intros Hi. pose proof (inv_threads _ Hi).
  pose proof (zsum_le_length (getting c r) (pcs s) (getting_le1 c r)).
  pose proof (zsum_nonneg (getting c r) (pcs s) (fun _ x _ => getting_nonneg c r x)). lia.
Qed.

Lemma weight_cell_pos s r c k : Inv s -> cells s !! c = Some (Some r, k) -> 2 <= weight_cell r (Some r, k).
Proof.
  intros Hi Hc. cbn. rewrite Z.eqb_refl. destruct (inv_cell _ Hi _ _ Hc) as [[=]|(r' & [= <- ->] & _)].
  pose proof (getting_count_bound s c r Hi). unfold UNION_SIZE. lia.
Qed.

(** ** Preservation *)

Lemma weight_cell_nonneg s r : Inv s ->
  forall c w, cells s !! c = Some w -> 0 <= weight_cell r w.
Proof.
  intros Hi c [[r'|] k] Hc; cbn; [|lia]. destruct (Z.eqb_spec r r') as [->|]; [|lia].
  pose proof (weight_cell_pos s r' c k Hi Hc) as Hw. cbn in Hw. rewrite Z.eqb_refl in Hw. lia.
Qed.

Lemma weights_nonneg s r :
  Inv s -> 0 <= zsum (weight_cell r) (cells s) /\ 0 <= zsum (weight_pc r) (pcs s).
Proof.
  intros Hi. split; apply zsum_nonneg.
  - by apply weight_cell_nonneg.
  - intros t p Hp. by eapply weight_pc_nonneg.
Qed.

(** An object a cell points to is alive. *)
Lemma cell_keeps_alive s c r k :
  Inv s -> cells s !! c = Some (Some r, k) -> 2 <= total_weight s r.
Proof.
  intros Hi Hc. destruct (weights_nonneg s r Hi) as [_ Hp].
  pose proof (weight_cell_pos s r c k Hi Hc).
  pose proof (zsum_lookup_le (weight_cell r) (cells s) c _ (weight_cell_nonneg s r Hi) Hc).
  unfold total_weight. lia.
Qed.

(** An object some thread's progress refers to is alive, and its counter exceeds
    what that thread accounts for. *)
Lemma pc_keeps_alive s t p r :
  Inv s -> pcs s !! t = Some p -> 0 < weight_pc r p ->
  exists n h, objs s !! r = Some (n, h) /\ 0 <= h /\ n = h + total_weight s r
    /\ weight_pc r p <= total_weight s r.
Proof.
  intros Hi Hp Hw. destruct (weights_nonneg s r Hi) as [Hc Hpc].
  pose proof (zsum_lookup_le (weight_pc r) (pcs s) t p
    (fun t' p' H => weight_pc_nonneg s r t' p' Hi H) Hp) as Hle.
  assert (weight_pc r p <= total_weight s r) by (unfold total_weight; lia).
  destruct (objs s !! r) as [[n h]|] eqn:Ho.
  - destruct (inv_obj _ Hi _ _ _ Ho). by exists n, h.
  - pose proof (inv_dead _ Hi _ Ho). lia.
Qed.

Lemma pc_ok_mono s s' p :
  length (cells s') = length (cells s) ->
  (forall c r, (c, r) ∈ hist s -> 0 < weight_pc r p -> (c, r) ∈ hist s') ->
  pc_ok s p -> pc_ok s' p.
Proof.
  intros Hl Hh.
  destruct p as [|c|c old|c old|c old|c r old|c r old cur|c new|old|r]; cbn in *; rewrite ?Hl; try done.
  - intros (? & r & k & -> & ? & ?). split; [done|]. exists r, k. split; [done|]. split; [done|].
    apply Hh; [done|]. rewrite Z.eqb_refl. lia.
  - intros (? & ? & ?). split; [done|]. split; [|done]. apply Hh; [done|]. rewrite Z.eqb_refl. lia.
  - intros (? & ? & ?). split; [done|]. split; [|done]. apply Hh; [done|]. rewrite Z.eqb_refl. lia.
  - intros (? & Hn). split; [done|]. intros r ->. apply Hh; [by apply Hn|]. rewrite Z.eqb_refl.
    unfold UNION_SIZE. lia.
Qed.

Lemma getting_other_pos (l : list pc) t q c r :
  l !! t = Some q -> getting c r q = 1 -> 1 <= zsum (getting c r) l.
Proof.
  intros Hq H1. rewrite <- H1. apply (zsum_lookup_le (getting c r) l t q); [|done].
  intros. apply getting_nonneg.
Qed.

(** One thread moved from [p] to [p'], possibly changing cells and objects.  A cell
    only comes to hold an object again that no thread is getting from it. *)
Lemma inv_change s t p p' cells' objs' hist' :
  Inv s -> pcs s !! t = Some p -> length cells' = length (cells s) ->
  (forall x, x ∈ hist s -> x ∈ hist') ->
  (forall r, let W := zsum (weight_cell r) cells' + zsum (weight_pc r) (pcs s)
                      - weight_pc r p + weight_pc r p' in
     match objs' !! r with Some (n, h) => 0 <= h /\ n = h + W | None => W = 0 end) ->
  (forall c w, cells' !! c = Some w -> w = wnull \/
     exists r, w = (Some r, zsum (getting c r) (pcs s) - getting c r p + getting c r p')
               /\ (c, r) ∈ hist') ->
  pc_ok (State cells' objs' hist' (<[t := p']> (pcs s))) p' ->
  (forall c r, let P := zsum (putting c r) (pcs s) - putting c r p + putting c r p' in
     P <> 0 -> P = 1 /\ zsum (getting c r) (pcs s) - getting c r p + getting c r p' = 0
               /\ forall k, cells' !! c <> Some (Some r, k)) ->
  (forall c r k, cells' !! c = Some (Some r, k) ->
     (exists k', cells s !! c = Some (Some r, k')) \/ zsum (getting c r) (pcs s) = 0) ->
  (forall c r old cur, p' = GetUncas c r old cur -> aligned_ref cur <> aligned_ref old ->
     forall k, cells' !! c <> Some (Some r, k)) ->
  Inv (State cells' objs' hist' (<[t := p']> (pcs s))).
Proof.
  intros Hi Hp Hlen Hh Ho Hc Hok Hput Hback Hgone. split; cbn -[weight_pc getting putting].
  - rewrite length_insert. apply Hi.
  - intros r n h Hr. specialize (Ho r). cbn zeta in Ho. rewrite Hr in Ho.
    unfold total_weight. cbn [cells pcs]. rewrite (zsum_insert _ _ _ _ _ Hp). lia.
  - intros r Hr. specialize (Ho r). cbn zeta in Ho. rewrite Hr in Ho.
    unfold total_weight. cbn [cells pcs]. rewrite (zsum_insert _ _ _ _ _ Hp). lia.
  - intros c w Hw. destruct (Hc c w Hw) as [->|(r & -> & ?)]; [by left|right].
    exists r. by rewrite (zsum_insert _ _ _ _ _ Hp).
  - intros t' q Hq. apply list_lookup_insert_Some in Hq as [(-> & <- & _)|(Hne & Hq)]; [done|].
    eapply pc_ok_mono; [..|by eapply inv_pc]; [done|]. cbn. auto.
  - intros c r. rewrite !(zsum_insert _ _ _ _ _ Hp). apply Hput.
  - intros t' c r old cur Hq Hal k Hk.
    apply list_lookup_insert_Some in Hq as [(-> & -> & _)|(Hne & Hq)]; [by eapply Hgone|].
    destruct (Hback c r k Hk) as [[k' Hk']|H0]; [by eapply inv_gone|].
    pose proof (getting_other_pos _ _ _ c r Hq) as H1. cbn in H1.
    rewrite bool_decide_eq_true_2, Z.eqb_refl in H1 by done. specialize (H1 eq_refl). lia.
Qed.

Lemma obj_facts s r :
  Inv s -> match objs s !! r with
           | Some (n, h) => 0 <= h /\ n = h + total_weight s r
           | None => total_weight s r = 0
           end.
Proof.
  intros Hi. destruct (objs s !! r) as [[n h]|] eqn:Ho; [by eapply inv_obj|by apply inv_dead].
Qed.

(** The cases in which the cells stay: the counter of one object moves with the
    weight of the thread's progress. *)
Lemma inv_keep_cells s t p p' objs' :
  Inv s -> pcs s !! t = Some p ->
  (forall r, let W := total_weight s r - weight_pc r p + weight_pc r p' in
     match objs' !! r with Some (n, h) => 0 <= h /\ n = h + W | None => W = 0 end) ->
  (forall c r, getting c r p' = getting c r p
     \/ forall k, cells s !! c <> Some (Some r, k)) ->
  (forall c r, getting c r p' <= getting c r p) ->
  (forall c r, putting c r p' = putting c r p) -> pc_ok s p' ->
  (forall c r old cur, p' = GetUncas c r old cur -> aligned_ref cur <> aligned_ref old ->
     forall k, cells s !! c <> Some (Some r, k)) ->
  Inv (State (cells s) objs' (hist s) (<[t := p']> (pcs s))).
Proof.
  intros Hi Hp Ho Hg Hle Hpt Hok Hgone. apply (inv_change s t p p'); [done|done|done|done|..].
  - intros r. specialize (Ho r). cbn zeta in *. unfold total_weight in Ho.
    destruct (objs' !! r) as [[n h]|]; lia.
  - intros c w Hc. destruct (inv_cell _ Hi _ _ Hc) as [->|(r & -> & ?)]; [by left|right].
    exists r. split; [|done]. destruct (Hg c r) as [->|Hno]; [f_equal; lia|].
    by destruct (Hno _ Hc).
  - eapply pc_ok_mono; [..|done]; done.
  - intros c r. rewrite Hpt. cbn zeta. intros HP.
    destruct (inv_put _ Hi c r) as (? & ? & ?); [lia|]. split; [lia|]. split; [|done].
    pose proof (Hle c r). pose proof (getting_nonneg c r p').
    pose proof (zsum_lookup_le (getting c r) (pcs s) t p (fun _ x _ => getting_nonneg c r x) Hp). lia.
  - intros c r k Hk. left. by exists k.
  - done.
Qed.

(** The cases in which only the program counter moves. *)
Lemma inv_set_pc s t p p' :
  Inv s -> pcs s !! t = Some p ->
  (forall r, weight_pc r p' = weight_pc r p) -> (forall c r, getting c r p' = getting c r p) ->
  (forall c r, putting c r p' = putting c r p) -> pc_ok s p' ->
  (forall c r old cur, p' = GetUncas c r old cur -> aligned_ref cur <> aligned_ref old ->
     forall k, cells s !! c <> Some (Some r, k)) ->
  Inv (set_pc s t p').
Proof.
  intros Hi Hp Hw Hg Hpt Hok Hgone. apply (inv_keep_cells s t p p'); try done.
  - intros r. rewrite Hw. pose proof (obj_facts s r Hi) as Ho. cbn zeta.
    destruct (objs s !! r) as [[n h]|]; lia.
  - intros c r. by left.
  - intros c r. by rewrite Hg.
Qed.

(** The same thread set to the program counter it has. *)
Lemma pcs_insert_id s t p : pcs s !! t = Some p ->
  forall cs os hs, State cs os hs (pcs s) = State cs os hs (<[t := p]> (pcs s)).
Proof. intros Hp cs os hs. by rewrite list_insert_id. Qed.

(** A lookup in an updated object map, splitting on the key. *)
Ltac obj_cases s r0 :=
  let r := fresh "r" in
  intros r; cbn zeta; pose proof (obj_facts s r ltac:(assumption));
  destruct (decide (r0 = r)) as [<-|?];
  [rewrite ?lookup_insert_eq, ?lookup_delete_eq
  |rewrite ?lookup_insert_ne, ?lookup_delete_ne by done;
   destruct (objs s !! r) as [[? ?]|]].

Lemma inv_init ncells nthreads : (nthreads <= 31)%nat -> Inv (init ncells nthreads).
Proof.
  intros Hn. unfold init. split; cbn.
  - by rewrite length_replicate.
  - intros r n h Hr. by rewrite lookup_empty in Hr.
  - intros r _. unfold total_weight. cbn. rewrite !zsum_zero; [done|..].
    + intros t p Hp. by apply lookup_replicate in Hp as [-> _].
    + intros t p Hp. by apply lookup_replicate in Hp as [-> _].
  - intros c w Hw. apply lookup_replicate in Hw as [-> _]. by left.
  - intros t p Hp. by apply lookup_replicate in Hp as [-> _].
  - intros c r []. apply zsum_zero. intros t p Hp. by apply lookup_replicate in Hp as [-> _].
  - intros t c r old cur Hp. by apply lookup_replicate in Hp as [[=] _].
Qed.

(** *** Steps outside [ref_get] and [ref_setref] *)

Lemma inv_ref_init s r n :
  Inv s -> objs s !! r = None -> 0 <= n -> Inv (ref_init s r n).
Proof.
  intros Hi Hr Hn. pose proof (inv_dead _ Hi _ Hr) as H0.
  destruct (weights_nonneg s r Hi) as [Hc0 Hp0]. unfold total_weight in H0.
  split; cbn -[total_weight].
  - apply Hi.
  - intros r' n' h'. change (total_weight (ref_init s r n) r') with (total_weight s r').
    destruct (decide (r = r')) as [<-|Hne].
    + rewrite lookup_insert_eq. intros [= <- <-]. unfold total_weight. lia.
    + rewrite lookup_insert_ne by done. apply Hi.
  - intros r'. change (total_weight (ref_init s r n) r') with (total_weight s r').
    destruct (decide (r = r')) as [<-|Hne]; [by rewrite lookup_insert_eq|].
    rewrite lookup_insert_ne by done. apply Hi.
  - intros c w Hw. destruct (inv_cell _ Hi _ _ Hw) as [->|(r' & -> & Hh)]; [by left|right].
    exists r'. split; [done|]. apply list_elem_of_filter. split; [|done]. cbn. intros ->.
    pose proof (cell_keeps_alive s c r _ Hi Hw) as Hle. unfold total_weight in Hle. lia.
  - intros t p Hp. eapply pc_ok_mono; [..|by eapply inv_pc]; [done|].
    intros c r' Hh Hw. apply list_elem_of_filter. split; [|done]. cbn. intros ->.
    destruct (pc_keeps_alive s t p r Hi Hp Hw) as (? & ? & Ho & _). congruence.
  - apply Hi.
  - apply Hi.
Qed.

Lemma inv_objs_only s t p objs' :
  Inv s -> pcs s !! t = Some p ->
  (forall r, match objs' !! r with
             | Some (n, h) => 0 <= h /\ n = h + total_weight s r
             | None => total_weight s r = 0
             end) ->
  Inv (State (cells s) objs' (hist s) (pcs s)).
Proof.
  intros Hi Hp Ho. rewrite (pcs_insert_id s t p Hp). apply (inv_keep_cells s t p p); try done.
  - intros r. specialize (Ho r). cbn zeta. destruct (objs' !! r) as [[n h]|]; lia.
  - intros c r. by left.
  - by eapply inv_pc.
  - intros c r old cur ->. by eapply inv_gone.
Qed.

(** Give up a reference: an owned one ([dh = -1]), or, inside [ref_setref], the one
    a thread's progress accounts for. *)
Lemma ref_put_ok s r n h dh :
  objs s !! r = Some (n, h) ->
  exists s', ref_put s r dh = Ok s' /\ cells s' = cells s /\ hist s' = hist s /\ pcs s' = pcs s
    /\ objs s' = if n - 1 =? 0 then delete r (objs s) else <[r := (n - 1, h + dh)]> (objs s).
Proof.
  intros Ho. unfold ref_put. rewrite Ho. destruct (n - 1 =? 0); eexists; by split_and!.
Qed.

Lemma inv_ref_put s t r n h :
  Inv s -> pcs s !! t = Some Idle -> objs s !! r = Some (n, h) -> 0 < h ->
  exists s', ref_put s r (-1) = Ok s' /\ Inv s'.
Proof.
  intros Hi Hp Ho Hh. destruct (ref_put_ok s r n h (-1) Ho) as ([cs os hs ps] & -> & Hs). cbn in Hs.
  destruct Hs as (-> & -> & -> & ->). eexists. split; [done|]. apply (inv_objs_only s t Idle); [done..|].
  destruct (inv_obj _ Hi _ _ _ Ho) as [_ Hn]. destruct (weights_nonneg s r Hi) as [? ?].
  unfold total_weight in Hn. destruct (Z.eqb_spec (n - 1) 0); obj_cases s r; unfold total_weight in *; lia.
Qed.

Lemma inv_ref_inc s t r n h :
  Inv s -> pcs s !! t = Some Idle -> objs s !! r = Some (n, h) -> 0 < h ->
  exists s', ref_inc s r = Ok s' /\ Inv s'.
Proof.
  intros Hi Hp Ho Hh. unfold ref_inc, add_count. rewrite Ho. eexists. split; [done|].
  apply (inv_objs_only s t Idle); [done..|]. cbn. destruct (inv_obj _ Hi _ _ _ Ho) as [_ Hn].
  obj_cases s r; lia.
Qed.

(** *** Steps of [ref_get] *)

(** What a thread that is not between the two exchanges reads from a cell. *)
Lemma cell_room s t p c :
  Inv s -> pcs s !! t = Some p -> (forall r, getting c r p = 0) ->
  default wnull (cells s !! c) = wnull \/ has_room (default wnull (cells s !! c)).
Proof.
  intros Hi Hp Hg. destruct (cells s !! c) as [w|] eqn:Hc; [|by left]. cbn.
  destruct (inv_cell _ Hi _ _ Hc) as [->|(r & -> & _)]; [by left|right].
  pose proof (getting_bound (pcs s) t p c r (inv_threads _ Hi) Hp (Hg r)). by eexists _, _.
Qed.

Lemma aligned_small r k : 0 <= k < 32 -> aligned_ref (Some r, k) = (Some r, 0).
Proof. intros Hk. unfold aligned_ref, UNION_SIZE. cbn. by rewrite Z.div_small. Qed.

Lemma load_ref_small r k : 0 <= k < 32 -> load_ref (Some r, k) = Ok r.
Proof. intros Hk. unfold load_ref. by rewrite aligned_small. Qed.

Lemma cas_spec s c w expected new sp :
  cells s !! c = Some w ->
  (w = expected /\ cas s c expected new sp = inl (set_cell s c new))
  \/ (cas s c expected new sp = inr w).
Proof.
  intros Hc. unfold cas. rewrite Hc. destruct (decide (w = expected)) as [->|]; [|by right].
  destruct sp; [by right|by left].
Qed.

(** The cell a compare-exchange moved by one. *)
Lemma weight_cell_insert s c r k k' r0 :
  cells s !! c = Some (Some r, k) ->
  zsum (weight_cell r0) (<[c := (Some r, k')]> (cells s))
  = zsum (weight_cell r0) (cells s) + (if r0 =? r then k - k' else 0).
Proof.
  intros Hc. rewrite (zsum_insert _ _ _ _ _ Hc). cbn. destruct (r0 =? r); lia.
Qed.

Lemma inv_move_cell s t c r k k' p p' objs' :
  Inv s -> pcs s !! t = Some p -> cells s !! c = Some (Some r, k) ->
  (forall c' r', getting c' r' p' - getting c' r' p = if bool_decide (c' = c) && (r' =? r) then k' - k else 0) ->
  (forall r0, let W := total_weight s r0 + (if r0 =? r then k - k' else 0)
                       - weight_pc r0 p + weight_pc r0 p' in
     match objs' !! r0 with Some (n, h) => 0 <= h /\ n = h + W | None => W = 0 end) ->
  (forall c r, putting c r p = 0) -> (forall c r, putting c r p' = 0) ->
  pc_ok s p' -> (forall c r old cur, p' <> GetUncas c r old cur) ->
  Inv (State (<[c := (Some r, k')]> (cells s)) objs' (hist s) (<[t := p']> (pcs s))).
Proof.
  intros Hi Hp Hc Hg Ho Hpt Hpt' Hok Hgone.
  assert (Hlk : forall c' w, <[c := (Some r, k')]> (cells s) !! c' = Some w ->
    (c' = c /\ w = (Some r, k')) \/ (c' <> c /\ cells s !! c' = Some w)).
  { intros c' w Hw. apply list_lookup_insert_Some in Hw as [(-> & <- & _)|(Hne & Hw)];
      [by left|right; by split]. }
  apply (inv_change s t p p'); [done|done|by rewrite length_insert|done|..].
  - intros r0. specialize (Ho r0). cbn zeta in *. rewrite (weight_cell_insert s c r k k' r0 Hc).
    unfold total_weight in Ho. destruct (objs' !! r0) as [[? ?]|]; lia.
  - intros c' w Hw. destruct (Hlk c' w Hw) as [[-> ->]|[Hne Hw']].
    + right. exists r. specialize (Hg c r). rewrite bool_decide_eq_true_2, Z.eqb_refl in Hg by done.
      destruct (inv_cell _ Hi _ _ Hc) as [[=]|(r' & [= <- Hk] & ?)]. cbn in Hg.
      split; [f_equal; lia|done].
    + destruct (inv_cell _ Hi _ _ Hw') as [->|(r' & -> & ?)]; [by left|right]. exists r'.
      specialize (Hg c' r'). rewrite bool_decide_eq_false_2 in Hg by done. cbn in Hg.
      split; [f_equal; lia|done].
  - eapply pc_ok_mono; [..|done]; [by apply length_insert|done].
  - intros c' r'. rewrite Hpt, Hpt'. cbn zeta. intros HP.
    destruct (inv_put _ Hi c' r') as (? & ? & Hno); [lia|]. split; [lia|].
    assert (Hne : bool_decide (c' = c) && (r' =? r) = false).
    { destruct (bool_decide_reflect (c' = c)) as [->|]; [|done]. cbn.
      apply Z.eqb_neq. intros ->. by apply (Hno k). }
    specialize (Hg c' r'). rewrite Hne in Hg. split; [lia|].
    intros k0 Hk0. destruct (Hlk _ _ Hk0) as [[-> [= -> _]]|[_ Hk1]]; [by apply (Hno k)|by apply (Hno k0)].
  - intros c' r' k0 Hk0. left.
    destruct (Hlk _ _ Hk0) as [[-> [= -> _]]|[_ Hk1]]; [by exists k|by exists k0].
  - intros c' r' old cur ->. by destruct (Hgone c' r' old cur).
Qed.

(** Expose the components of an updated state. *)
Ltac open_state := unfold set_pc, set_obj, set_cell; cbn [cells objs hist pcs].

Ltac split_keys :=
  repeat match goal with
  | |- context [bool_decide ?P] => destruct (bool_decide_reflect P)
  | |- context [?x =? ?y] => destruct (Z.eqb_spec x y)
  end; subst; cbn -[total_weight]; try lia; try congruence.

Lemma step_get_cond s t c old sp :
  Inv s -> pcs s !! t = Some (GetCond c old) ->
  exists s', ref_get_step s t (GetCond c old) sp = Ok s' /\ Inv s'.
Proof.
  intros Hi Hp. destruct (inv_pc _ Hi _ _ Hp) as [Hc (r & k & -> & Hk)].
  destruct (lookup_lt_is_Some_2 _ _ Hc) as [w Hw]. cbn [ref_get_step].
  destruct (cas_spec s c w (Some r, k) (wadd (Some r, k) 1) sp Hw) as [[-> ->]| ->].
  - eexists. split; [done|]. open_state. apply (inv_move_cell s t c r k (k + 1) (GetCond c (Some r, k))); try done.
    + intros c' r'. cbn. split_keys.
    + intros r0. cbn -[total_weight]. pose proof (obj_facts s r0 Hi). destruct (objs s !! r0) as [[? ?]|]; split_keys.
    + destruct (inv_cell _ Hi _ _ Hw) as [[=]|(r' & [= <- _] & Hh)].
      split; [done|]. by exists r, k.
  - eexists. split; [done|]. apply (inv_set_pc s t (GetCond c (Some r, k))); try done.
    split; [done|]. pose proof (cell_room s t _ c Hi Hp) as Hroom. rewrite Hw in Hroom. by apply Hroom.
Qed.

Lemma step_get_inc s t c old sp :
  Inv s -> pcs s !! t = Some (GetInc c old) ->
  exists s', ref_get_step s t (GetInc c old) sp = Ok s' /\ Inv s'.
Proof.
  intros Hi Hp. destruct (inv_pc _ Hi _ _ Hp) as (Hc & r & k & -> & Hk & Hh). cbn [ref_get_step].
  destruct (pc_keeps_alive s t _ r Hi Hp) as (n & h & Ho & Hh0 & Hn & Hw).
  { cbn. rewrite Z.eqb_refl. lia. }
  rewrite load_ref_small by lia. cbn [mbind result_bind]. rewrite Ho. cbn in Hw. rewrite Z.eqb_refl in Hw.
  destruct (Z.eqb_spec (n + 1) (-1)); [lia|]. eexists. split; [done|]. open_state.
  apply (inv_keep_cells s t (GetInc c (Some r, k))); try done.
  - obj_cases s r; cbn [weight_pc]; split_keys.
  - intros c' r'. by left.
  - split; [done|]. split; [done|]. by exists k.
Qed.

Lemma step_get_uncas s t c r old cur sp :
  Inv s -> pcs s !! t = Some (GetUncas c r old cur) ->
  exists s', ref_get_step s t (GetUncas c r old cur) sp = Ok s' /\ Inv s'.
Proof.
  intros Hi Hp. pose proof (inv_gone _ Hi _ _ _ _ _ Hp) as Hgone.
  destruct (inv_pc _ Hi _ _ Hp) as (Hc & Hh & k & -> & Hk).
  destruct (pc_keeps_alive s t _ r Hi Hp) as (n & h & Ho & Hh0 & Hn & Hw).
  { cbn. rewrite Z.eqb_refl. lia. }
  destruct (lookup_lt_is_Some_2 _ _ Hc) as [w Hcell]. cbn [ref_get_step].
  rewrite aligned_small in * by lia.
  destruct (decide (aligned_ref cur = (Some r, 0))) as [Hal|Hal].
  - destruct (cas_spec s c w cur (wadd cur (-1)) sp Hcell) as [[-> ->]| ->].
    + destruct cur as [[r'|] k']; [|done]. injection Hal as -> _. cbn. unfold add_count. cbn. rewrite Ho.
      eexists. split; [done|]. open_state.
      apply (inv_move_cell s t c r k' (k' + -1) (GetUncas c r (Some r, k) (Some r, k'))); try done.
      * intros c' r'. cbn. split_keys.
      * obj_cases s r; cbn [weight_pc]; split_keys.
    + eexists. split; [done|]. apply (inv_set_pc s t (GetUncas c r (Some r, k) cur)); try done.
      * split; [done|]. split; [done|]. by exists k.
      * intros c' r' old' cur' [= <- <- <- <-] Hal' k0 Hk0. apply Hal'. rewrite Hcell in Hk0. injection Hk0 as ->.
        destruct (inv_cell _ Hi _ _ Hcell) as [[=]|(r' & [= <- ->] & _)].
        pose proof (getting_count_bound s c r Hi). by rewrite !aligned_small by lia.
  - unfold add_count. cbn. rewrite Ho. eexists. split; [done|]. open_state.
    apply (inv_keep_cells s t (GetUncas c r (Some r, k) cur)); try done.
    + obj_cases s r; cbn [weight_pc]; split_keys.
    + intros c' r'. cbn. destruct (bool_decide_reflect (c' = c)) as [->|]; [|by left].
      destruct (Z.eqb_spec r' r) as [->|]; [right; by apply Hgone|by left].
    + intros c' r'. apply getting_nonneg.
Qed.

Lemma step_get s t p sp :
  Inv s -> pcs s !! t = Some p -> exists s', ref_get_step s t p sp = Ok s' /\ Inv s'.
Proof.
  intros Hi Hp. pose proof (inv_pc _ Hi _ _ Hp) as Hok.
  destruct p as [|c|c old|c old|c old|c r old|c r old cur|c new|old|r]; try by eexists.
  - eexists. split; [done|]. apply (inv_set_pc s t (GetLoad c)); try done. split; [done|].
    by eapply cell_room.
  - destruct Hok as [Hc [->|(r & k & -> & Hk)]].
    + eexists. split; [done|]. by apply (inv_set_pc s t (GetBody c wnull)).
    + cbn [ref_get_step]. unfold wadd. cbn [fst snd]. rewrite !aligned_small by lia.
      rewrite decide_False by done. rewrite decide_True by done.
      eexists. split; [done|]. apply (inv_set_pc s t (GetBody c (Some r, k))); try done.
      split; [done|]. by exists r, k.
  - by apply step_get_cond.
  - by apply step_get_inc.
  - eexists. split; [done|]. apply (inv_set_pc s t (GetReload c r old)); try done.
    intros c' r' old' cur' [= <- <- <- <-] Hal k0 Hk0. apply Hal. rewrite Hk0. cbn.
    destruct Hok as (_ & _ & k & -> & Hk).
    destruct (inv_cell _ Hi _ _ Hk0) as [[=]|(r' & [= <- ->] & _)].
    pose proof (getting_count_bound s c r Hi). by rewrite !aligned_small by lia.
  - by apply step_get_uncas.
Qed.

(** *** Steps of [ref_setref] *)

(** No thread is busy with an object that was never put into the cell. *)
Lemma hist_fresh s c r : Inv s -> (c, r) ∉ hist s ->
  zsum (getting c r) (pcs s) = 0 /\ zsum (putting c r) (pcs s) = 0.
Proof.
  intros Hi Hh. split; apply zsum_zero; intros t q Hq; pose proof (inv_pc _ Hi _ _ Hq) as Hok.
  - destruct q; cbn in *; try done; repeat match goal with
      | H : exists _, _ |- _ => destruct H as [? H]
      | H : _ /\ _ |- _ => destruct H
      end; subst; destruct (bool_decide_reflect (c = c0)) as [<-|]; try done; cbn;
      match goal with |- context [r =? ?x] => destruct (Z.eqb_spec r x) as [<-|] end; done.
  - destruct q as [| | | | | | |c' [r'|]| |]; try done. cbn in *. destruct Hok as [_ Hok].
    destruct (bool_decide_reflect (c = c')) as [<-|]; [|done].
    destruct (Z.eqb_spec r r') as [<-|]; [|done]. destruct Hh. by apply Hok.
Qed.

(** A pending exchange is the only one that puts its object into its cell. *)
Lemma putting_facts s t c r : Inv s -> pcs s !! t = Some (SetExch c (Some r)) ->
  zsum (putting c r) (pcs s) = 1 /\ zsum (getting c r) (pcs s) = 0
  /\ forall k, cells s !! c <> Some (Some r, k).
Proof.
  intros Hi Hp. apply (inv_put _ Hi). intros H0.
  pose proof (zsum_lookup_le (putting c r) (pcs s) t _ (fun _ x _ => putting_nonneg c r x) Hp) as Hle.
  cbn in Hle. rewrite bool_decide_eq_true_2, Z.eqb_refl in Hle by done. cbn in Hle. lia.
Qed.

Lemma step_set_begin s t c new :
  Inv s -> pcs s !! t = Some Idle -> (c < length (cells s))%nat ->
  (forall r, new = Some r -> is_Some (objs s !! r) /\ (c, r) ∉ hist s) ->
  exists s', ref_setref_begin s t c new = Ok s' /\ Inv s'.
Proof.
  intros Hi Hp Hc Hnew. destruct new as [r|]; cbn [ref_setref_begin].
  2: { eexists. split; [done|]. by apply (inv_set_pc s t Idle). }
  destruct (Hnew r eq_refl) as [[[n h] Ho] Hh]. unfold add_count. rewrite Ho. cbn [mbind result_bind].
  eexists. split; [done|]. open_state.
  destruct (hist_fresh s c r Hi Hh) as [Hg0 Hp0].
  apply (inv_change s t Idle); [done|done|done|..].
  - intros x Hx. by right.
  - obj_cases s r; destruct (inv_obj _ Hi _ _ _ Ho); cbn [weight_pc]; unfold UNION_SIZE, total_weight in *; split_keys.
  - intros c' w Hw. destruct (inv_cell _ Hi _ _ Hw) as [->|(r' & -> & ?)]; [by left|right].
    exists r'. cbn. split; [f_equal; lia|by right].
  - split; [done|]. intros ? [= <-]. by left.
  - intros c' r'. cbn. destruct (bool_decide_reflect (c' = c)) as [->|]; cbn.
    + destruct (Z.eqb_spec r' r) as [->|]; cbn.
      * intros _. rewrite Hp0, Hg0. split; [done|]. split; [done|]. intros k Hk.
        destruct (inv_cell _ Hi _ _ Hk) as [[=]|(r' & [= <- _] & ?)]. done.
      * rewrite !Z.sub_0_r, !Z.add_0_r. apply (inv_put _ Hi).
    + rewrite !Z.sub_0_r, !Z.add_0_r. apply (inv_put _ Hi).
  - intros c' r' k Hk. left. by exists k.
  - done.
Qed.

Lemma step_set_exch s t c new :
  Inv s -> pcs s !! t = Some (SetExch c new) ->
  exists s', ref_setref_step s t (SetExch c new) = Ok s' /\ Inv s'.
Proof.
  intros Hi Hp. destruct (inv_pc _ Hi _ _ Hp) as [Hc Hh].
  destruct (lookup_lt_is_Some_2 _ _ Hc) as [w Hw].
  set (p' := if decide (w = wnull) then Idle else SetDrop w).
  exists (set_pc (set_cell s c (new, 0)) t p'). cbn [ref_setref_step]. rewrite Hw. cbn [default].
  split; [unfold p'; by destruct (decide _)|]. open_state.
  assert (Hput : forall r, new = Some r -> zsum (putting c r) (pcs s) = 1
     /\ zsum (getting c r) (pcs s) = 0 /\ forall k, cells s !! c <> Some (Some r, k)).
  { intros r ->. by apply (putting_facts s t). }
  assert (Hpw : forall r, weight_pc r p' = weight_cell r w).
  { intros r. unfold p'. destruct (decide (w = wnull)) as [->|]; [done|]. by destruct w as [[?|] ?]. }
  assert (Hpg : forall c r, getting c r p' = 0 /\ putting c r p' = 0).
  { intros ? ?. unfold p'. by destruct (decide _). }
  apply (inv_change s t (SetExch c new)); [done|done|by rewrite length_insert|done|..].
  - intros r. cbn zeta. rewrite (zsum_insert _ _ _ _ _ Hw), Hpw. pose proof (obj_facts s r Hi) as Ho.
    unfold total_weight in Ho. destruct new as [r'|]; cbn; destruct (objs s !! r) as [[? ?]|]; split_keys.
  - intros c' w' Hw'. apply list_lookup_insert_Some in Hw' as [(-> & <- & _)|(Hne & Hw')].
    + destruct new as [r|]; [right|by left]. exists r. destruct (Hput r eq_refl) as (_ & -> & _).
      destruct (Hpg c' r) as [-> _]. split; [done|by apply Hh].
    + destruct (inv_cell _ Hi _ _ Hw') as [->|(r & -> & ?)]; [by left|right]. exists r.
      destruct (Hpg c' r) as [-> _]. cbn. split; [f_equal; lia|done].
  - unfold p'. destruct (decide (w = wnull)); [done|].
    destruct (inv_cell _ Hi _ _ Hw) as [->|(r & -> & _)]; [done|].
    pose proof (getting_count_bound s c r Hi). cbn. eauto.
  - intros c' r. cbn zeta. destruct (Hpg c' r) as [-> ->]. cbn [getting]. intros HP.
    destruct (inv_put _ Hi c' r) as (H1 & H2 & H3).
    { pose proof (putting_nonneg c' r (SetExch c new)). pose proof (zsum_lookup_le (putting c' r) (pcs s) t _
        (fun _ x _ => putting_nonneg c' r x) Hp). lia. }
    assert (Hne : ~ (c' = c /\ new = Some r)).
    { intros [-> ->]. cbn in HP. rewrite bool_decide_eq_true_2, Z.eqb_refl in HP by done. cbn in HP. lia. }
    split; [|split; [lia|]].
    + destruct new as [r'|]; cbn in *; [|lia]. revert HP. split_keys.
    + intros k Hk. apply list_lookup_insert_Some in Hk as [(-> & [= -> _] & _)|(_ & Hk)]; [by apply Hne|].
      by apply (H3 k).
  - intros c' r k Hk. apply list_lookup_insert_Some in Hk as [(-> & [= -> <-] & _)|(_ & Hk)].
    + right. by apply Hput.
    + left. by exists k.
  - intros c' r old cur Heq. unfold p' in Heq. by destruct (decide _).
Qed.

Lemma step_set s t p :
  Inv s -> pcs s !! t = Some p -> exists s', ref_setref_step s t p = Ok s' /\ Inv s'.
Proof.
  intros Hi Hp. pose proof (inv_pc _ Hi _ _ Hp) as Hok.
  destruct p as [| | | | | | |c new|old|r]; try by eexists.
  - by apply step_set_exch.
  - destruct Hok as (r & k & -> & Hk). cbn [ref_setref_step]. rewrite load_ref_small by lia.
    destruct (pc_keeps_alive s t _ r Hi Hp) as (n & h & Ho & Hh & Hn & Hw).
    { cbn. rewrite Z.eqb_refl. unfold UNION_SIZE. lia. }
    cbn [mbind result_bind]. unfold add_count. rewrite Ho. cbn [mbind result_bind].
    eexists. split; [done|]. open_state. apply (inv_keep_cells s t (SetDrop (Some r, k))); try done.
    + cbn [snd]. obj_cases s r; cbn [weight_pc]; unfold UNION_SIZE;
        rewrite ?(Z.div_small k 32) by lia; split_keys.
    + intros c' r'. by left.
  - destruct (pc_keeps_alive s t _ r Hi Hp) as (n & h & Ho & Hh & Hn & Hw).
    { cbn. rewrite Z.eqb_refl. lia. }
    cbn in Hw. rewrite Z.eqb_refl in Hw. cbn [ref_setref_step].
    destruct (ref_put_ok s r n h 0 Ho) as ([cs os hs ps] & -> & Hs). cbn in Hs.
    destruct Hs as (-> & -> & -> & ->). cbn [mbind result_bind].
    eexists. split; [done|]. open_state. apply (inv_keep_cells s t (SetPut r)); try done.
    + destruct (Z.eqb_spec (n - 1) 0); obj_cases s r; cbn [weight_pc]; split_keys.
    + intros c' r'. by left.
Qed.

Lemma inv_exec s t ch res :
  Inv s -> exec s t ch = Some res -> exists s', res = Ok s' /\ Inv s'.
Proof.
  intros Hi. unfold exec. destruct (pcs s !! t) as [p|] eqn:Hp; [|done].
  destruct p as [|c|c old|c old|c old|c r old|c r old cur|c new|old|r]; destruct ch as [r' n'|c'|r'|r'|c' new'|sp];
    try done;
    try (intros [= <-]; apply (step_get s t _ sp Hi Hp)); try (intros [= <-]; apply (step_set s t _ Hi Hp)).
  - destruct (decide _) as [[Ho Hn]|]; [|done]. intros [= <-]. eexists. split; [done|].
    apply inv_ref_init; [done|done|lia].
  - destruct (decide _); [|done]. intros [= <-]. eexists. split; [done|].
    by apply (inv_set_pc s t Idle).
  - destruct (objs s !! r') as [[n h]|] eqn:Ho; [|done]. destruct (Z.ltb_spec 0 h); [|done].
    intros [= <-]. by eapply inv_ref_inc.
  - destruct (objs s !! r') as [[n h]|] eqn:Ho; [|done]. destruct (Z.ltb_spec 0 h); [|done].
    intros [= <-]. by eapply inv_ref_put.
  - destruct (decide _); [|done]. destruct new' as [r'|].
    + destruct (objs s !! r') as [[n h]|] eqn:Ho; [|done]. destruct (_ && _) eqn:Hg; [|done].
      intros [= <-]. apply andb_prop in Hg as [_ Hg].
      apply (step_set_begin s t c' (Some r')); try done.
      intros r0 [= <-]. split; [by eexists|]. intros Hin. by rewrite bool_decide_eq_true_2 in Hg.
    + intros [= <-]. by apply (step_set_begin s t c' None).
Qed.

Lemma reachable_inv ncells nthreads s :
  (nthreads <= 31)%nat -> reachable ncells nthreads s -> Inv s.
Proof.
  intros Hn. induction 1 as [|s t ch s' _ IH Hex]; [by apply inv_init|].
  destruct (inv_exec s t ch _ IH Hex) as (s'' & [= <-] & ?). done.
Qed.

(** *** No counter of a published object is left at zero *)

Definition counted (s : state) : Prop :=
  forall c r n h, (c, r) ∈ hist s -> objs s !! r = Some (n, h) -> 0 < n.

Lemma counted_insert cs os hs ps cs' ps' hs' r0 n0 h0 :
  counted (State cs os hs ps) -> 0 < n0 -> (forall x, x ∈ hs' -> x ∈ hs \/ x.2 = r0) ->
  counted (State cs' (<[r0 := (n0, h0)]> os) hs' ps').
Proof.
  intros Hc Hn Hh c r n h Hin Ho. cbn in *. destruct (decide (r0 = r)) as [<-|Hne].
  - rewrite lookup_insert_eq in Ho. by injection Ho as -> ->.
  - rewrite lookup_insert_ne in Ho by done. destruct (Hh _ Hin) as [Hin'|Heq]; [by eapply Hc|].
    by destruct Hne.
Qed.

Lemma counted_put s r0 dh s' :
  Inv s -> counted s -> ref_put s r0 dh = Ok s' -> counted s'.
Proof.
  intros Hi Hc. unfold ref_put. destruct (objs s !! r0) as [[n h]|] eqn:Ho; [|done].
  destruct (inv_obj _ Hi _ _ _ Ho) as [Hh Hn]. destruct (weights_nonneg s r0 Hi) as [H1 H2].
  unfold total_weight in Hn. intros Hs. destruct (Z.eqb_spec (n - 1) 0); injection Hs as <-.
  - intros c r n' h' Hin Ho'. cbn in *. apply lookup_delete_Some in Ho' as [_ Ho']. by eapply Hc.
  - intros c r n' h' Hin Ho'. cbn in *.
    destruct (decide (r0 = r)) as [<-|Hne].
    + rewrite lookup_insert_eq in Ho'. injection Ho' as <- <-. pose proof (Hc c r0 n h Hin Ho). lia.
    + rewrite lookup_insert_ne in Ho' by done. by eapply Hc.
Qed.

Lemma counted_get_step s t p sp s' :
  Inv s -> pcs s !! t = Some p -> counted s -> ref_get_step s t p sp = Ok s' -> counted s'.
Proof.
  intros Hi Hp Hc.
  assert (Hkeep : forall cs ps, counted (State cs (objs s) (hist s) ps)) by (intros ? ? ? ? ? ?; by apply Hc).
  destruct p as [|c|c old|c old|c old|c r old|c r old cur|c new|old|r]; cbn [ref_get_step];
    try (intros [= <-]; apply Hkeep).
  - intros [= <-]; done.
  - repeat destruct (decide _); intros [= <-]; apply Hkeep.
  - destruct (cas _ _ _ _ _) as [s1|w] eqn:Hcas; intros [= <-]; [|apply Hkeep].
    unfold cas in Hcas. destruct (cells s !! c); [|done]. destruct (decide _); [|done].
    destruct sp; [done|]. injection Hcas as <-. apply Hkeep.
  - destruct (load_ref old) as [r|]; [|done]. cbn [mbind result_bind].
    destruct (objs s !! r) as [[n h]|] eqn:Ho; [|done]. destruct (_ =? _); [done|]. intros [= <-].
    open_state. apply (counted_insert (cells s) (objs s) (hist s) (pcs s)); [by destruct s|..|by left].
    destruct (inv_obj _ Hi _ _ _ Ho). destruct (weights_nonneg s r Hi). unfold total_weight in *. lia.
  - destruct (pc_keeps_alive s t _ r Hi Hp) as (n & h & Ho & Hh & Hn & Hw).
    { cbn. rewrite Z.eqb_refl. lia. }
    cbn in Hw. rewrite Z.eqb_refl in Hw. destruct (decide _).
    + destruct (cas _ _ _ _ _) as [s1|w] eqn:Hcas; [|intros [= <-]; apply Hkeep].
      unfold cas in Hcas. destruct (cells s !! c); [|done]. destruct (decide _); [|done].
      destruct sp; [done|]. injection Hcas as <-. unfold add_count. cbn [objs set_cell]. rewrite Ho.
      cbn [mbind result_bind]. intros [= <-]. open_state.
      apply (counted_insert (cells s) (objs s) (hist s) (pcs s)); [by destruct s|lia|by left].
    + unfold add_count. rewrite Ho. cbn [mbind result_bind]. intros [= <-]. open_state.
      apply (counted_insert (cells s) (objs s) (hist s) (pcs s)); [by destruct s|lia|by left].
  - intros [= <-]; done.
  - intros [= <-]; done.
  - intros [= <-]; done.
Qed.

Lemma counted_set_step s t p s' :
  Inv s -> pcs s !! t = Some p -> counted s -> ref_setref_step s t p = Ok s' -> counted s'.
Proof.
  intros Hi Hp Hc.
  assert (Hkeep : forall cs ps, counted (State cs (objs s) (hist s) ps)) by (intros ? ? ? ? ? ?; by apply Hc).
  destruct p as [|c|c old|c old|c old|c r old|c r old cur|c new|old|r]; cbn [ref_setref_step];
    try (intros [= <-]; done).
  - destruct (decide _); intros [= <-]; apply Hkeep.
  - destruct (inv_pc _ Hi _ _ Hp) as (r & k & -> & Hk). rewrite load_ref_small by lia.
    destruct (pc_keeps_alive s t _ r Hi Hp) as (n & h & Ho & Hh & Hn & Hw).
    { cbn. rewrite Z.eqb_refl. unfold UNION_SIZE. lia. }
    cbn in Hw. rewrite Z.eqb_refl in Hw. cbn [mbind result_bind]. unfold add_count. rewrite Ho.
    cbn [mbind result_bind]. intros [= <-]. open_state.
    apply (counted_insert (cells s) (objs s) (hist s) (pcs s)); [by destruct s|..|by left].
    cbn [snd]. unfold UNION_SIZE in *. rewrite (Z.div_small k 32) by lia. lia.
  - destruct (ref_put s r 0) as [s1|] eqn:Hput; [|done]. cbn [mbind result_bind]. intros [= <-].
    pose proof (counted_put s r 0 s1 Hi Hc Hput) as Hc1. intros c0 r0 n0 h0. apply Hc1.
Qed.

Lemma counted_init s r n : counted s -> counted (ref_init s r n).
Proof.
  intros Hc c r' n' h' Hin Ho. cbn in *. apply list_elem_of_filter in Hin as [Hne Hin]. cbn in Hne.
  rewrite lookup_insert_ne in Ho by done. by eapply Hc.
Qed.

Lemma counted_exec s t ch s' :
  Inv s -> counted s -> exec s t ch = Some (Ok s') -> counted s'.
Proof.
  intros Hi Hc. unfold exec. destruct (pcs s !! t) as [p|] eqn:Hp; [|done].
  assert (Hadd : forall r n h d dh s', objs s !! r = Some (n, h) -> 0 < d ->
    add_count s r d dh = Ok s' -> counted s').
  { intros r n h d dh s1 Ho Hd. unfold add_count. rewrite Ho. intros [= <-]. unfold set_obj. cbn [cells hist pcs].
    apply (counted_insert (cells s) (objs s) (hist s) (pcs s)); [by destruct s|..|by left].
    destruct (inv_obj _ Hi _ _ _ Ho). destruct (weights_nonneg s r Hi). unfold total_weight in *. lia. }
  destruct p as [|c|c old|c old|c old|c r old|c r old cur|c new|old|r]; destruct ch as [r' n'|c'|r'|r'|c' new'|sp];
    try done; try (intros Hs; eapply (counted_get_step s t _ sp); [done..|by injection Hs as <-]);
    try (intros Hs; eapply (counted_set_step s t); [done..|by injection Hs as <-]).
  - destruct (decide _) as [[Ho Hn]|]; [|done]. intros [= <-]. by apply counted_init.
  - destruct (decide _); [|done]. intros [= <-]. done.
  - destruct (objs s !! r') as [[n h]|] eqn:Ho; [|done]. destruct (_ <? _); [|done].
    intros Hs. eapply (Hadd r' n h 1 1); [done|lia|]. by injection Hs as <-.
  - destruct (objs s !! r') as [[n h]|] eqn:Ho; [|done]. destruct (_ <? _); [|done].
    intros Hs. eapply (counted_put s r' (-1)); [done|done|]. by injection Hs as <-.
  - destruct (decide _); [|done]. destruct new' as [r'|]; [|by intros [= <-]].
    destruct (objs s !! r') as [[n h]|] eqn:Ho; [|done]. destruct (_ && _); [|done].
    unfold ref_setref_begin, add_count. rewrite Ho. cbn [mbind result_bind]. intros [= <-]. open_state.
    apply (counted_insert (cells s) (objs s) (hist s) (pcs s)); [by destruct s|..].
    + destruct (inv_obj _ Hi _ _ _ Ho). destruct (weights_nonneg s r' Hi). unfold total_weight, UNION_SIZE in *. lia.
    + intros x [->|Hx]%elem_of_cons; [by right|by left].
Qed.

Lemma reachable_counted ncells nthreads s :
  (nthreads <= 31)%nat -> reachable ncells nthreads s -> counted s.
Proof.
  intros Hn Hr. induction Hr as [|s t ch s' Hr IH Hex].
  - intros c r n h Hin. by apply elem_of_nil in Hin.
  - eapply counted_exec; [by eapply reachable_inv|done..].
Qed.

(** ** Theorems *)

Lemma run_reachable ncells nthreads sched : forall s s',
  reachable ncells nthreads s -> run s sched = Some (Ok s') -> reachable ncells nthreads s'.
Proof.
  induction sched as [|[t ch] rest IH]; intros s s' Hr; cbn; [by intros [= <-]|].
  destruct (exec s t ch) as [[s1|]|] eqn:Hex; try done. apply IH. by eapply reach_step.
Qed.

(** C5. With at most 31 threads, no interleaving of [ref_get], [ref_setref], [ref_inc]
    and [ref_put] ever dereferences a null or freed object, reads outside the
    union or reports a counter overflow: whatever step is open to a thread in a
    reachable state succeeds. *)
Theorem refcount_safe ncells nthreads s t ch res :
  (nthreads <= 31)%nat -> reachable ncells nthreads s -> exec s t ch = Some res ->
  exists s', res = Ok s'.
Proof.
  intros Hn Hr Hex. destruct (inv_exec s t ch res (reachable_inv _ _ _ Hn Hr) Hex) as (s' & -> & _).
  by exists s'.
Qed.

(** With at most 31 threads, when every thread is idle the counter of an object
    is exactly the number of references held plus 33 per weak reference that
    points to it, a weak reference points to a live object only, and an object
    that was published is gone once nobody holds it and no cell points to it. *)
Theorem refcount_exact ncells nthreads s r :
  (nthreads <= 31)%nat -> reachable ncells nthreads s ->
  (forall t p, pcs s !! t = Some p -> p = Idle) ->
  let refs := zsum (fun w => if bool_decide (w.1 = Some r) then 1 else 0) (cells s) in
  match objs s !! r with
  | Some (n, h) => 0 <= h /\ n = h + (UNION_SIZE + 1) * refs
                   /\ ((exists c, (c, r) ∈ hist s) -> 0 < h \/ 0 < refs)
  | None => refs = 0
  end.
Proof.
  intros Hn Hr Hidle refs. pose proof (reachable_inv _ _ _ Hn Hr) as Hi.
  assert (Hw : total_weight s r = (UNION_SIZE + 1) * refs).
  { unfold total_weight, refs. rewrite (zsum_zero (weight_pc r)), Z.add_0_r.
    2: { intros t p Hp. by rewrite (Hidle t p Hp). }
    rewrite <- zsum_scale. apply zsum_ext. intros c [[r'|] k] Hc; cbn; [|done].
    destruct (inv_cell _ Hi _ _ Hc) as [[=]|(r'' & [= <- ->] & _)].
    rewrite zsum_zero; [|intros t p Hp; by rewrite (Hidle t p Hp)].
    destruct (Z.eqb_spec r r') as [->|Hne]; [by rewrite bool_decide_eq_true_2|].
    rewrite bool_decide_eq_false_2; [lia|congruence]. }
  pose proof (obj_facts s r Hi) as Ho. unfold UNION_SIZE in *.
  destruct (objs s !! r) as [[n h]|] eqn:Hlk; [|lia].
  split; [lia|]. split; [lia|]. intros [c Hin].
  pose proof (reachable_counted _ _ _ Hn Hr c r n h Hin Hlk). lia.
Qed.

(** ** The bound on the threads is needed

    32 threads: the reference is published, the threads 0 to 30 take the low bits
    to 31, thread 31 reads that pointer, thread 0 finishes and clears the weak
    reference, and thread 31 goes on. *)
Definition one_pending (t : nat) : list (nat * choice) :=
  [(t, CGet 0); (t, CStep false); (t, CStep false); (t, CStep false)].

Definition overflow_schedule : list (nat * choice) :=
  [(0%nat, CNew 7 1); (0%nat, CSet 0 (Some 7)); (0%nat, CStep false)]
  ++ concat (map one_pending (seq 0 31))
  ++ [(31%nat, CGet 0); (31%nat, CStep false)]
  ++ [(0%nat, CStep false); (0%nat, CStep false); (0%nat, CStep false)]
  ++ [(0%nat, CSet 0 None); (0%nat, CStep false)]
  ++ [(31%nat, CStep false); (31%nat, CStep false)].

(** The bound of [refcount_safe] is tight: with 32 threads there is an
    execution in which [ref_get] dereferences the null pointer, because the
    [continue] of its first loop goes on to the compare-exchange with a reloaded
    pointer that was not checked. *)
Theorem ref_get_null_deref :
  exists s, reachable 1 32 s /\ exec s 31 (CStep false) = Some (Fault NullDeref).
Proof.
  destruct (run (init 1 32) overflow_schedule) as [[s|]|] eqn:Hrun.
  - exists s. split; [eapply run_reachable; [apply reach_init|exact Hrun]|].
    vm_compute in Hrun. injection Hrun as <-. by vm_compute.
  - by vm_compute in Hrun.
  - by vm_compute in Hrun.
Qed.

(** ** A concrete execution *)

(** Thread 0 publishes an object and gives up its own reference; thread 1 gets it. *)
Definition demo_schedule : list (nat * choice) :=
  [(0%nat, CNew 7 1); (0%nat, CSet 0 (Some 7)); (0%nat, CStep false); (0%nat, CPut 7);
   (1%nat, CGet 0); (1%nat, CStep false); (1%nat, CStep false); (1%nat, CStep true);
   (1%nat, CStep false); (1%nat, CStep false); (1%nat, CStep false); (1%nat, CStep false);
   (1%nat, CStep false)].

Definition demo (n : nat) : state :=
  match run (init 1 2) (take n demo_schedule) with Some (Ok s) => s | _ => init 1 2 end.

Lemma demo_run n : match run (init 1 2) (take n demo_schedule) with Some (Ok _) => True | _ => False end ->
  reachable 1 2 (demo n).
Proof.
  unfold demo. destruct (run _ _) as [[s|]|] eqn:Hrun; intros []. eapply run_reachable; [apply reach_init|done].
Qed.

Lemma refcount_safe_witness :
  exists s', ref_get_step (demo 9) 1 (GetCond 0 (Some 7, 0)) false = Ok s'.
Proof.
  apply (refcount_safe 1 2 (demo 9) 1 (CStep false)).
  - lia.
  - by apply demo_run.
  - by vm_compute.
Defined.

Lemma refcount_exact_witness :
  objs (demo 13) !! 7 = Some (34, 1)
  /\ 34 = 1 + (UNION_SIZE + 1)
              * zsum (fun w => if bool_decide (w.1 = Some 7) then 1 else 0) (cells (demo 13)).
Proof.
  assert (Hidle : forall t p, pcs (demo 13) !! t = Some p -> p = Idle).
  { intros [|[|t]] p; vm_compute; congruence. }
  assert (Ho : objs (demo 13) !! 7 = Some (34, 1)) by (vm_compute; reflexivity).
  split; [exact Ho|].
  pose proof (refcount_exact 1 2 (demo 13) 7 ltac:(lia) (demo_run 13 I) Hidle) as H.
  rewrite Ho in H. destruct H as (_ & H & _). exact H.
Defined.
