(* ===== verification/Uplink.v ===== *)
(** * Uplink: the queue of requests relayed to another server

    [src/server/uplink.c].  Clients that need a missing range attach to a queued
    request that covers it or append a new one; the reply is stored in the image
    file, recorded in the cache map and passed on to every client attached.

    [dnbd3_uplink_t] is the struct; a function that holds the queue lock is one
    definition on it.  What is sent over the connection is returned as a list of
    packets; whether a [send] succeeds is an argument.  A call of a client's
    callback is a value of type [answer]. *)

From S2P Require Import Prelude Timing Types CacheMap.

(** ** State *)

Definition HOP_FLAG_BGR : Z := 128.
Definition HOP_FLAG_PREFETCH : Z := 64.
Definition FILE_BYTES_PER_MAP_BYTE : Z := DNBD3_BLOCK_SIZE * 8.
Definition MAP_BYTES_PER_HASH_BLOCK : Z := i32 (HASH_BLOCK_SIZE / FILE_BYTES_PER_MAP_BYTE).
Definition MAP_INDEX_HASH_START_MASK : Z := Z.lnot (MAP_BYTES_PER_HASH_BLOCK - 1).

(** The global settings the uplink reads. *)
Record config := Config {
  _maxPayload : Z;
  _minRequestSize : Z;
  _maxPrefetch : Z;
  _backgroundReplication : Z;
  _bgrMinClients : Z;
  _bgrWindowSize : Z;
  _pretendClient : bool;
}.

Record dnbd3_uplink_t := Uplink {
  up_current : dnbd3_server_connection_t;
  up_better : dnbd3_server_connection_t;
  up_rttTestResult : Z;
  up_cacheFd : Z;
  up_recvBuffer : list Z;           (* [recvBufferLen] bytes *)
  up_shutdown : bool;
  up_replicatedLastBlock : bool;
  up_cycleDetected : bool;
  up_nextReplicationIndex : Z;
  up_bytesReceived : Z;
  up_queueLen : Z;
  up_idleTime : Z;
  up_queue : list dnbd3_queue_entry_t;
  up_queueId : Z;
  up_image : dnbd3_image_t;
}.

Section Setters.
Context (u : dnbd3_uplink_t).
Definition up_set_queue (q : list dnbd3_queue_entry_t) (len id : Z) (img : dnbd3_image_t) : dnbd3_uplink_t :=
  Uplink (up_current u) (up_better u) (up_rttTestResult u) (up_cacheFd u) (up_recvBuffer u)
    (up_shutdown u) (up_replicatedLastBlock u) (up_cycleDetected u) (up_nextReplicationIndex u)
    (up_bytesReceived u) len (up_idleTime u) q id img.
Definition up_set_entries (q : list dnbd3_queue_entry_t) : dnbd3_uplink_t :=
  up_set_queue q (up_queueLen u) (up_queueId u) (up_image u).
Definition up_set_image (img : dnbd3_image_t) : dnbd3_uplink_t :=
  up_set_queue (up_queue u) (up_queueLen u) (up_queueId u) img.
Definition up_set_shutdown (b : bool) : dnbd3_uplink_t :=
  Uplink (up_current u) (up_better u) (up_rttTestResult u) (up_cacheFd u) (up_recvBuffer u)
    b (up_replicatedLastBlock u) (up_cycleDetected u) (up_nextReplicationIndex u)
    (up_bytesReceived u) (up_queueLen u) (up_idleTime u) (up_queue u) (up_queueId u) (up_image u).
Definition up_set_current (c : dnbd3_server_connection_t) (next : Z) (img : dnbd3_image_t) : dnbd3_uplink_t :=
  Uplink c (up_better u) (up_rttTestResult u) (up_cacheFd u) (up_recvBuffer u)
    (up_shutdown u) (up_replicatedLastBlock u) (up_cycleDetected u) next
    (up_bytesReceived u) (up_queueLen u) (up_idleTime u) (up_queue u) (up_queueId u) img.
Definition up_set_replication (last : bool) (next id : Z) : dnbd3_uplink_t :=
  Uplink (up_current u) (up_better u) (up_rttTestResult u) (up_cacheFd u) (up_recvBuffer u)
    (up_shutdown u) last (up_cycleDetected u) next
    (up_bytesReceived u) (up_queueLen u) (up_idleTime u) (up_queue u) id (up_image u).
Definition up_set_recv (buf : list Z) (received fd : Z) : dnbd3_uplink_t :=
  Uplink (up_current u) (up_better u) (up_rttTestResult u) fd buf
    (up_shutdown u) (up_replicatedLastBlock u) (up_cycleDetected u) (up_nextReplicationIndex u)
    received (up_queueLen u) (up_idleTime u) (up_queue u) (up_queueId u) (up_image u).
Definition up_set_idle (idle next : Z) : dnbd3_uplink_t :=
  Uplink (up_current u) (up_better u) (up_rttTestResult u) (up_cacheFd u) (up_recvBuffer u)
    (up_shutdown u) (up_replicatedLastBlock u) (up_cycleDetected u) next
    (up_bytesReceived u) (up_queueLen u) idle (up_queue u) (up_queueId u) (up_image u).
Definition up_set_cycle (b : bool) : dnbd3_uplink_t :=
  Uplink (up_current u) (up_better u) (up_rttTestResult u) (up_cacheFd u) (up_recvBuffer u)
    (up_shutdown u) (up_replicatedLastBlock u) b (up_nextReplicationIndex u)
    (up_bytesReceived u) (up_queueLen u) (up_idleTime u) (up_queue u) (up_queueId u) (up_image u).
End Setters.

Definition qe_set_clients (cs : list dnbd3_queue_client_t) (e : dnbd3_queue_entry_t) : dnbd3_queue_entry_t :=
  QueueEntry (qe_handle e) (qe_from e) (qe_to e) cs (qe_hopCount e) (qe_sent e).
Definition qe_set_sent (b : bool) (e : dnbd3_queue_entry_t) : dnbd3_queue_entry_t :=
  QueueEntry (qe_handle e) (qe_from e) (qe_to e) (qe_clients e) (qe_hopCount e) b.

Definition set_problem_queue (b : bool) (i : dnbd3_image_t) : dnbd3_image_t :=
  img_set_problem (pr_set_queue b (img_problem i)) i.
Definition set_problem_uplink (b : bool) (i : dnbd3_image_t) : dnbd3_image_t :=
  img_set_problem (pr_set_uplink b (img_problem i)) i.
Definition set_problem_write (b : bool) (i : dnbd3_image_t) : dnbd3_image_t :=
  img_set_problem (pr_set_write b (img_problem i)) i.

(** A block request as [dnbd3_get_block] sends it. *)
Record packet := Packet { pk_start : Z; pk_size : Z; pk_handle : Z; pk_hops : Z }.

(** A call of a client's callback; [ans_data = None] is the [NULL] buffer that
    tells the client its request was dropped. *)
Record answer := Answer { ans_client : dnbd3_queue_client_t; ans_data : option (list Z) }.

(** ** Requesting *)

Definition COND_HOPCOUNT (vers hopcount : Z) : Z := if 3 <=? vers then hopcount else 0.

Definition extendRequest (cfg : config) (start end_ : Z) (image : dnbd3_image_t) (wanted : Z) : Z :=
  let length := u32 (end_ - start) in
  if wanted <=? length then end_
  else
    let length := wanted in
    let e := if (_backgroundReplication cfg =? BGR_HASHBLOCK)
                && negb (end_ / HASH_BLOCK_SIZE =? u64 (start + length) / HASH_BLOCK_SIZE)
             then u64 (start + length) .& not64 (HASH_BLOCK_SIZE - 1)
             else u64 (start + length) in
    let e := if img_virtualFilesize image <? e then img_virtualFilesize image else e in
    u64 (e + DNBD3_BLOCK_SIZE - 1) .& not64 (DNBD3_BLOCK_SIZE - 1).

(** [send] tells whether the packet could be sent. *)
Definition requestBlock (u : dnbd3_uplink_t) (send : packet -> bool) (start end_ handle hops : Z)
  : bool * list packet :=
  if conn_fd (up_current u) =? -1 then (false, [])
  else
    let p := Packet start (u32 (end_ - start)) handle
               (COND_HOPCOUNT (conn_version (up_current u)) hops) in
    (send p, [p]).

Definition markRequestUnsent (u : dnbd3_uplink_t) (handle : Z) : dnbd3_uplink_t :=
  match list_find (fun e => qe_handle e = handle) (up_queue u) with
  | Some (i, e) => up_set_entries u (<[i := qe_set_sent false e]> (up_queue u))
  | None => u
  end.

(** The queued request a client can attach to. *)
Definition findRequest (q : list dnbd3_queue_entry_t) (start end_ : Z)
  : option (nat * dnbd3_queue_entry_t) :=
  list_find (fun e => qe_from e <= start /\ end_ <= qe_to e) q.

(** What the part of [uplink_requestInternal] that holds the queue lock hands to
    the part that sends: the request's handle, whether it is new, and the
    prefetch request. *)
Record prepared := Prepared {
  prep_handle : Z;
  prep_isNew : bool;
  prep_pre : option (Z * Z * Z);   (* start, end, handle *)
}.

(** Find or append the request; [None] is the exit at [fail_lock].  The result
    has the position of the request in the queue and whether it is new. *)
Definition acquireRequest (u : dnbd3_uplink_t) (callback hops start end_ rstart rend : Z)
  : option (dnbd3_uplink_t * nat * bool) :=
  match findRequest (up_queue u) start end_ with
  | None =>
      if UPLINK_MAX_QUEUE <=? up_queueLen u then None
      else
        let len := up_queueLen u + 1 in
        let image := if SERVER_UPLINK_QUEUELEN_THRES <? len then set_problem_queue true (up_image u)
                     else up_image u in
        let id := u64 (up_queueId u + 1) in
        let request := QueueEntry id rstart rend [] hops true in
        Some (up_set_queue u (up_queue u ++ [request]) len id image, length (up_queue u), true)
  | Some (i, request) =>
      if callback =? NULL then Some (u, i, false)
      else if (qe_hopCount request <? hops) && (qe_from request =? start) && (qe_to request =? end_)
      then None
      else if UPLINK_MAX_CLIENTS_PER_REQUEST <=? Z.of_nat (length (qe_clients request)) then None
      else Some (u, i, false)
  end.

(** Queue a request for the range behind the one at position [i]. *)
Definition prefetch (cfg : config) (u : dnbd3_uplink_t) (data callback length hops end_ : Z)
    (i : nat) (isNew : bool) : dnbd3_uplink_t * option (Z * Z * Z) :=
  match up_queue u !! i with
  | None => (u, None)
  | Some request =>
      if negb (callback =? NULL)
         && (isNew || match qe_clients request with [] => true | c :: _ => qc_data c =? data end)
         && ((hops .& (HOP_FLAG_BGR .| HOP_FLAG_PREFETCH)) =? 0)
         && (end_ =? qe_to request) && (length <=? _maxPrefetch cfg)
      then
        let preEnd := extendRequest cfg end_ end_ (up_image u) (Z.min (u32 (length * 3)) (_maxPrefetch cfg)) in
        if end_ <? preEnd then
          let id := u64 (up_queueId u + 1) in
          let pre := QueueEntry id end_ preEnd [] (hops .| HOP_FLAG_PREFETCH) true in
          (up_set_queue u (take (S i) (up_queue u) ++ pre :: drop (S i) (up_queue u))
             (up_queueLen u + 1) id (up_image u),
           Some (end_, preEnd, id))
        else (u, None)
      else (u, None)
  end.

Definition attachClient (u : dnbd3_uplink_t) (i : nat) (c : dnbd3_queue_client_t) : dnbd3_uplink_t :=
  match up_queue u !! i with
  | None => u
  | Some e => up_set_entries u (<[i := qe_set_clients (qe_clients e ++ [c]) e]> (up_queue u))
  end.

(** The critical section on the queue. *)
Definition queueRequest (cfg : config) (u : dnbd3_uplink_t) (data callback handle start length hops rstart rend : Z)
  : option (dnbd3_uplink_t * prepared) :=
  let end_ := u64 (start + length) in
  if up_shutdown u then None
  else
    '(u, i, isNew) ← acquireRequest u callback hops start end_ rstart rend;
    let '(u, pre) := prefetch cfg u data callback length hops end_ i isNew in
    request ← up_queue u !! i;
    let u := if callback =? NULL then u
             else attachClient u i (QueueClient data handle start end_ callback) in
    Some (u, Prepared (qe_handle request) isNew pre).

(** Send what was queued; a request that could not be sent is marked for the
    uplink thread. *)
Definition sendPrepared (u : dnbd3_uplink_t) (send : packet -> bool) (rstart rend hops : Z) (p : prepared)
  : dnbd3_uplink_t * list packet :=
  let '(ret1, sent1) := if prep_isNew p then requestBlock u send rstart rend (prep_handle p) hops
                        else (true, []) in
  let '(ret2, sent2) := match prep_pre p with
                        | Some (s, e, h) => requestBlock u send s e h (hops .| HOP_FLAG_PREFETCH)
                        | None => (true, [])
                        end in
  let u := if ret1 && ret2 then u else up_set_image u (set_problem_uplink true (up_image u)) in
  let u := if (ret1 : bool) then u else markRequestUnsent u (prep_handle p) in
  let u := if (ret2 : bool) then u
           else match prep_pre p with Some (_, _, h) => markRequestUnsent u h | None => u end in
  (u, sent1 ++ sent2).

(** The hop count of the relayed request: one more, and flagged if no client asked. *)
Definition requestHops (cfg : config) (callback hops : Z) : Z :=
  let hops := u8 (hops + 1) in
  if callback =? NULL then hops .| (if _pretendClient cfg then HOP_FLAG_PREFETCH else HOP_FLAG_BGR) else hops.

(** The range to request: whole blocks, and at least [_minRequestSize] for a client. *)
Definition requestRange (cfg : config) (image : dnbd3_image_t) (callback start length : Z) : Z * Z :=
  let end_ := u64 (start + length) in
  let rstart := start .& not64 (DNBD3_BLOCK_SIZE - 1) in
  let rend := if negb (callback =? NULL) && negb (_minRequestSize cfg =? 0)
              then extendRequest cfg rstart end_ image (_minRequestSize cfg) else end_ in
  (rstart, u64 (rend + DNBD3_BLOCK_SIZE - 1) .& not64 (DNBD3_BLOCK_SIZE - 1)).

Definition uplink_requestInternal (cfg : config) (send : packet -> bool) (u : dnbd3_uplink_t)
    (data callback handle start length hops : Z) : result (bool * dnbd3_uplink_t * list packet) :=
  _ ← assert_ ((data =? NULL) || negb (callback =? NULL));
  if negb ((hops .& HOP_FLAG_BGR) =? 0) && negb (_backgroundReplication cfg =? BGR_FULL) then Ok (false, u, [])
  else if up_shutdown u then Ok (false, u, [])
  else if _maxPayload cfg <? length then Ok (false, u, [])
  else
    let hops := requestHops cfg callback hops in
    let '(rstart, rend) := requestRange cfg (up_image u) callback start length in
    match queueRequest cfg u data callback handle start length hops rstart rend with
    | None => Ok (false, u, [])
    | Some (u, p) =>
        if match prep_pre p with None => negb (prep_isNew p) | Some _ => false end then Ok (true, u, [])
        else let '(u, sent) := sendPrepared u send rstart rend hops p in Ok (true, u, sent)
    end.

(** [uplink_requestClient] and [uplink_request] after the uplink was looked up
    ([None]: there is none and none could be started).  [sameHost] is
    [isSameAddress] of the current server and the client. *)
Definition uplink_requestClient (cfg : config) (send : packet -> bool) (uplink : option dnbd3_uplink_t)
    (sameHost : bool) (client callback handle start length hops : Z)
  : result (bool * option dnbd3_uplink_t * list packet) :=
  _ ← assert_ (negb (client =? NULL) && negb (callback =? NULL));
  if 60 <? (hops .& 63) then Ok (false, uplink, [])
  else match uplink with
  | None => Ok (false, None, [])
  | Some u =>
      if (1 <? hops) && sameHost then Ok (false, Some (up_set_cycle u true), [])
      else
        '(ret, u, sent) ← uplink_requestInternal cfg send u client callback handle start length hops;
        Ok (ret, Some u, sent)
  end.

Definition uplink_request (cfg : config) (send : packet -> bool) (uplink : option dnbd3_uplink_t)
    (data callback handle start length : Z) : result (bool * option dnbd3_uplink_t * list packet) :=
  match uplink with
  | None => Ok (false, None, [])
  | Some u =>
      '(ret, u, sent) ← uplink_requestInternal cfg send u data callback handle start length 0;
      Ok (ret, Some u, sent)
  end.

(** ** Dropping requests *)

Definition cancelAllRequests (u : dnbd3_uplink_t) : dnbd3_uplink_t * list answer :=
  (up_set_queue u [] 0 (up_queueId u) (set_problem_queue false (up_image u)),
   concat (map (fun e => map (fun c => Answer c None) (qe_clients e)) (up_queue u))).

(** The clients of one entry: which stay and which are told off. *)
Fixpoint removeClients (data callback : Z) (cs : list dnbd3_queue_client_t)
  : list dnbd3_queue_client_t * list answer :=
  match cs with
  | [] => ([], [])
  | c :: rest =>
      let '(kept, gone) := removeClients data callback rest in
      if (qc_data c =? data) && (qc_callback c =? callback) then (kept, Answer c None :: gone)
      else (c :: kept, gone)
  end.
Definition uplink_removeEntry (u : dnbd3_uplink_t) (data callback : Z) : dnbd3_uplink_t * list answer :=
  (up_set_entries u (map (fun e => qe_set_clients (removeClients data callback (qe_clients e)).1 e) (up_queue u)),
   concat (map (fun e => (removeClients data callback (qe_clients e)).2) (up_queue u))).

(** The part of [uplink_shutdown] that holds the queue lock. *)
Definition shutdownQueue (u : dnbd3_uplink_t) : dnbd3_uplink_t * list answer :=
  cancelAllRequests (up_set_shutdown u true).

(** ** Replies *)

(** Look up the entry of a reply by its handle. *)
Definition findEntry (u : dnbd3_uplink_t) (handle : Z) : option (nat * dnbd3_queue_entry_t) :=
  list_find (fun e => qe_handle e = handle) (up_queue u).

(** Take the entry out of the queue; [None] if it vanished in the meantime. *)
Definition takeEntry (u : dnbd3_uplink_t) (handle : Z) : dnbd3_uplink_t * option dnbd3_queue_entry_t :=
  let '(q, len, found) :=
    match findEntry u handle with
    | Some (i, e) => (delete i (up_queue u), up_queueLen u - 1, Some e)
    | None => (up_queue u, up_queueLen u, None)
    end in
  let image := if len <? SERVER_UPLINK_QUEUELEN_THRES then set_problem_queue false (up_image u)
               else up_image u in
  (up_set_queue u q len (up_queueId u) image, found).

(** The bytes [buf + from .. + n], which must lie inside the buffer. *)
Definition slice (buf : list Z) (from n : Z) : result (list Z) :=
  if (0 <=? from) && (0 <=? n) && (from + n <=? Z.of_nat (length buf))
  then Ok (take (Z.to_nat n) (drop (Z.to_nat from) buf)) else Fault OutOfBounds.

(** Serve the clients of an entry that was taken out of the queue. *)
Fixpoint answerClients (buf : list Z) (start end_ : Z) (cs : list dnbd3_queue_client_t) : result (list answer) :=
  match cs with
  | [] => Ok []
  | c :: rest =>
      _ ← assert_ ((start <=? qc_from c) && (qc_to c <=? end_));
      data ← slice buf (qc_from c - start) (u32 (qc_to c - qc_from c));
      more ← answerClients buf start end_ rest;
      Ok (Answer c (Some data) :: more)
  end.

(** The end of an iteration of [handleReceive]: from the removal of the entry on. *)
Definition finishEntry (u : dnbd3_uplink_t) (handle : Z) : result (dnbd3_uplink_t * list answer) :=
  let '(u, found) := takeEntry u handle in
  match found with
  | None => Ok (u, [])
  | Some e =>
      answers ← answerClients (up_recvBuffer u) (qe_from e) (qe_to e) (qe_clients e);
      match qe_clients e with
      | [] => Ok (u, answers)
      | _ =>
          let next := if up_nextReplicationIndex u =? -1
                      then i32 (qe_from e / FILE_BYTES_PER_MAP_BYTE) .& MAP_INDEX_HASH_START_MASK
                      else up_nextReplicationIndex u in
          Ok (up_set_idle u 0 next, answers)
      end
  end.

(** ** Invariant *)

Definition client_ok (e : dnbd3_queue_entry_t) (c : dnbd3_queue_client_t) : Prop :=
  qe_from e <= qc_from c /\ qc_from c <= qc_to c /\ qc_to c <= qe_to e.

(** A queued request: a range of whole blocks inside an image of [vfs] bytes that
    covers every attached client. *)
Record entry_ok (vfs id : Z) (e : dnbd3_queue_entry_t) : Prop := {
  eo_handle : 0 < qe_handle e <= id;
  eo_range : 0 <= qe_from e <= qe_to e /\ qe_to e <= vfs;
  eo_from : qe_from e mod 4096 = 0;
  eo_to : qe_to e mod 4096 = 0;
  eo_size : qe_to e - qe_from e < 2 ^ 32;
  eo_clients : Forall (client_ok e) (qe_clients e);
  eo_max : Z.of_nat (length (qe_clients e)) <= UPLINK_MAX_CLIENTS_PER_REQUEST;
}.

Record queue_wf (vfs id : Z) (q : list dnbd3_queue_entry_t) : Prop := {
  qw_handles : NoDup (map qe_handle q);
  qw_entries : Forall (entry_ok vfs id) q;
}.

Record uplink_wf (u : dnbd3_uplink_t) : Prop := {
  uw_len : up_queueLen u = Z.of_nat (length (up_queue u));
  uw_queue : queue_wf (img_virtualFilesize (up_image u)) (up_queueId u) (up_queue u);
  uw_id : 0 <= up_queueId u;
  uw_size : 0 < img_virtualFilesize (up_image u) <= 2 ^ 46 - 2 ^ 15;
  uw_aligned : img_virtualFilesize (up_image u) mod 4096 = 0;
}.

(** The client requests that were accepted and not answered yet. *)
Definition pending (q : list dnbd3_queue_entry_t) : list dnbd3_queue_client_t :=
  concat (map qe_clients q).
Arguments pending : simpl never.

Lemma pending_cons e q : pending (e :: q) = qe_clients e ++ pending q.
Proof. done. Qed.
Lemma pending_app q1 q2 : pending (q1 ++ q2) = pending q1 ++ pending q2.
Proof. unfold pending. by rewrite map_app, concat_app. Qed.

#[global] Instance pending_perm : Proper ((≡ₚ) ==> (≡ₚ)) pending.
Proof.
  induction 1 as [|e q q' _ IH|e e' q|q q' q'' _ IH1 _ IH2]; rewrite ?pending_cons; [done|by rewrite IH|solve_Permutation|].
  by rewrite IH1.
Qed.

Lemma pending_split q i e :
  q !! i = Some e -> pending q = pending (take i q) ++ qe_clients e ++ pending (drop (S i) q).
Proof.
  intros Hi. rewrite <- (take_drop_middle q i e Hi) at 1. by rewrite pending_app, pending_cons.
Qed.

Lemma pending_insert q i e e' :
  q !! i = Some e ->
  pending (<[i := e']> q) = pending (take i q) ++ qe_clients e' ++ pending (drop (S i) q).
Proof.
  intros Hi. rewrite insert_take_drop by (by eapply lookup_lt_Some). by rewrite pending_app, pending_cons.
Qed.

Lemma entry_ok_mono vfs id id' e : id <= id' -> entry_ok vfs id e -> entry_ok vfs id' e.
Proof. intros Hle [? ? ? ? ? ? ?]. split; try done. lia. Qed.

Lemma queue_wf_mono vfs id id' q : id <= id' -> queue_wf vfs id q -> queue_wf vfs id' q.
Proof.
  intros Hle [? Hf]. split; [done|]. eapply list.Forall_impl; [exact Hf|]. intros e He. by eapply entry_ok_mono.
Qed.

(** A new entry, with the next handle, anywhere in the queue. *)
Lemma queue_wf_new vfs id q1 q2 e :
  queue_wf vfs id (q1 ++ q2) -> qe_handle e = id + 1 -> entry_ok vfs (id + 1) e ->
  queue_wf vfs (id + 1) (q1 ++ e :: q2).
Proof.
  intros Hq He Hok.
  assert (Hfresh : ~ In (id + 1) (map qe_handle (q1 ++ q2))).
  { intros (x & Hx & Hin)%in_map_iff.
    pose proof (proj1 (List.Forall_forall _ _) (qw_entries _ _ _ Hq) x Hin) as Hx'.
    pose proof (eo_handle _ _ _ Hx'). lia. }
  apply (queue_wf_mono _ _ (id + 1)) in Hq as [Hnd Hf]; [|lia].
  split.
  - rewrite map_app. cbn [map]. rewrite He, <- Permutation_middle, <- map_app.
    apply list.NoDup_cons. split; [by rewrite list_elem_of_In|done].
  - apply Forall_app in Hf as [? ?]. apply Forall_app. split; [done|]. by constructor.
Qed.

(** An entry changed in place. *)
Lemma queue_wf_update vfs id q i e e' :
  queue_wf vfs id q -> q !! i = Some e -> qe_handle e' = qe_handle e -> entry_ok vfs id e' ->
  queue_wf vfs id (<[i := e']> q).
Proof.
  intros [Hnd Hf] Hi Hh Hok. split; [|by apply Forall_insert].
  rewrite list_fmap_insert. rewrite list_insert_id; [done|].
  rewrite list_lookup_fmap, Hi. cbn. by rewrite Hh.
Qed.

Lemma queue_wf_lookup vfs id q i e : queue_wf vfs id q -> q !! i = Some e -> entry_ok vfs id e.
Proof. intros [_ Hf] Hi. by apply (proj1 (Forall_lookup _ _) Hf i). Qed.

Lemma queue_wf_delete vfs id q i : queue_wf vfs id q -> queue_wf vfs id (delete i q).
Proof.
  intros [Hnd Hf]. split; [|by apply Forall_delete].
  assert (map qe_handle (delete i q) = delete i (map qe_handle q)) as -> by apply list_fmap_delete.
  eapply sublist_NoDup; [done|apply sublist_delete].
Qed.

(** ** Rounding *)

Lemma block_down x : 0 <= x < 2 ^ 64 -> x .& not64 (DNBD3_BLOCK_SIZE - 1) = 4096 * (x / 4096).
Proof. intros. unfold DNBD3_BLOCK_SIZE. change (4096 - 1) with (2 ^ 12 - 1). by rewrite land_not64_pow2 by crange. Qed.

Lemma block_up x : 0 <= x < 2 ^ 64 - 4096 ->
  u64 (x + DNBD3_BLOCK_SIZE - 1) .& not64 (DNBD3_BLOCK_SIZE - 1) = 4096 * ((x + 4095) / 4096).
Proof.
  intros. rewrite u64_id by (unfold DNBD3_BLOCK_SIZE; crange). rewrite block_down by (unfold DNBD3_BLOCK_SIZE; lia).
  unfold DNBD3_BLOCK_SIZE. do 2 f_equal. lia.
Qed.

Lemma round_up_bounds x : x <= 4096 * ((x + 4095) / 4096) < x + 4096.
Proof.
  pose proof (Z.div_mod (x + 4095) 4096 ltac:(lia)). pose proof (Z.mod_pos_bound (x + 4095) 4096 ltac:(lia)). lia.
Qed.
Lemma round_down_bounds x : x - 4096 < 4096 * (x / 4096) <= x.
Proof. pose proof (Z.div_mod x 4096 ltac:(lia)). pose proof (Z.mod_pos_bound x 4096 ltac:(lia)). lia. Qed.
Lemma mult_mod x : (4096 * x) mod 4096 = 0.
Proof. rewrite Z.mul_comm. apply Z.mod_mul. lia. Qed.
Lemma round_up_le x vfs : x <= vfs -> vfs mod 4096 = 0 -> 4096 * ((x + 4095) / 4096) <= vfs.
Proof.
  intros Hx Hv. pose proof (Z.div_mod vfs 4096 ltac:(lia)). 
  assert ((x + 4095) / 4096 <= vfs / 4096); [|lia].
  apply Z.lt_succ_r, Z.div_lt_upper_bound; lia.
Qed.
#[export] Hint Resolve mult_mod : cint.

(** [extendRequest] moves the end forward, within the image, and to a block border
    unless it leaves it alone. *)
Lemma extendRequest_spec cfg start end_ image wanted :
  0 <= start <= end_ -> end_ <= img_virtualFilesize image -> img_virtualFilesize image <= 2 ^ 46 ->
  img_virtualFilesize image mod 4096 = 0 -> end_ - start < 2 ^ 32 -> 0 <= wanted < 2 ^ 32 ->
  let r := extendRequest cfg start end_ image wanted in
  end_ <= r <= img_virtualFilesize image /\ (r = end_ \/ r mod 4096 = 0)
  /\ r - start < Z.max (end_ - start) wanted + 4096.
Proof.
  intros Hs He Hv Ha Hd Hw. unfold extendRequest. rewrite (u32_id (end_ - start)) by crange.
  rewrite (u64_id (start + wanted)) by crange.
  destruct (Z.leb_spec wanted (end_ - start)); [cbn zeta; split; [lia|]; split; [by left|lia]|].
  set (e0 := if (_ && _) then _ else _).
  assert (end_ <= e0 <= start + wanted) as He0.
  { unfold e0. destruct (_ && _) eqn:Hc; [|lia]. apply andb_prop in Hc as [_ Hc].
    apply negb_true_iff, Z.eqb_neq in Hc. unfold HASH_BLOCK_SIZE in *. change (1 << 24) with (2 ^ 24) in *.
    rewrite land_not64_pow2 by crange.
    pose proof (Z.div_le_mono end_ (start + wanted) (2 ^ 24) ltac:(lia) ltac:(lia)).
    pose proof (Z.div_mod (start + wanted) (2 ^ 24) ltac:(lia)). pose proof (Z.mod_pos_bound (start + wanted) (2 ^ 24) ltac:(lia)).
    pose proof (Z.div_mod end_ (2 ^ 24) ltac:(lia)). pose proof (Z.mod_pos_bound end_ (2 ^ 24) ltac:(lia)). lia. }
  set (e1 := if img_virtualFilesize image <? e0 then img_virtualFilesize image else e0).
  assert (end_ <= e1 <= img_virtualFilesize image /\ e1 <= start + wanted) as He1.
  { unfold e1. destruct (Z.ltb_spec (img_virtualFilesize image) e0); lia. }
  cbn zeta. rewrite block_up by lia. pose proof (round_up_bounds e1).
  pose proof (round_up_le e1 (img_virtualFilesize image) ltac:(lia) Ha).
  split; [lia|]. split; [right; auto with cint|lia].
Qed.

(** ** The critical section of a request *)

(** What a request does not touch. *)
Record same_rest (u u' : dnbd3_uplink_t) : Prop := {
  sr_vfs : img_virtualFilesize (up_image u') = img_virtualFilesize (up_image u);
  sr_real : img_realFilesize (up_image u') = img_realFilesize (up_image u);
  sr_map : img_cacheMap (up_image u') = img_cacheMap (up_image u);
  sr_shutdown : up_shutdown u' = up_shutdown u;
  sr_buffer : up_recvBuffer u' = up_recvBuffer u;
  sr_current : up_current u' = up_current u;
}.
#[global] Instance same_rest_preorder : PreOrder same_rest.
Proof.
  split; [by intros ?|]. intros u1 u2 u3 [] []. split; congruence.
Qed.

Lemma findRequest_Some q start end_ i e :
  findRequest q start end_ = Some (i, e) -> q !! i = Some e /\ qe_from e <= start /\ end_ <= qe_to e.
Proof. intros H. apply list_find_Some in H as (? & [? ?] & _). by split_and!. Qed.

Section Request.
Context (cfg : config).
Hypothesis Hpayload : 0 <= _maxPayload cfg <= 2 ^ 31.
Hypothesis Hprefetch : 0 <= _maxPrefetch cfg <= 2 ^ 31.
Hypothesis Hminreq : 0 <= _minRequestSize cfg <= 2 ^ 31.

Context (u : dnbd3_uplink_t).
Hypothesis Hwf : uplink_wf u.
Let vfs := img_virtualFilesize (up_image u).

(** The request a client's range [start, end_) is rounded to. *)
Definition covers (vfs start end_ rstart rend : Z) : Prop :=
  0 <= rstart <= start /\ end_ <= rend <= vfs /\ rstart mod 4096 = 0 /\ rend mod 4096 = 0
  /\ rend - rstart < 2 ^ 32.

Lemma acquireRequest_spec callback hops start end_ rstart rend u' i isNew :
  start <= end_ -> covers vfs start end_ rstart rend -> up_queueId u < 2 ^ 64 - 1 ->
  acquireRequest u callback hops start end_ rstart rend = Some (u', i, isNew) ->
  uplink_wf u' /\ same_rest u u' /\ pending (up_queue u') = pending (up_queue u)
  /\ up_queueId u <= up_queueId u' <= up_queueId u + 1
  /\ exists e, up_queue u' !! i = Some e /\ qe_from e <= start /\ end_ <= qe_to e
       /\ (callback <> NULL -> Z.of_nat (length (qe_clients e)) < UPLINK_MAX_CLIENTS_PER_REQUEST).
Proof.
  intros Hse (Hrs & Hre & Ha1 & Ha2 & Hsz) Hid. unfold acquireRequest. pose proof (uw_id _ Hwf).
  destruct (findRequest _ _ _) as [[j e]|] eqn:Hf.
  - apply findRequest_Some in Hf as (Hj & Hfrom & Hto).
    destruct (Z.eqb_spec callback NULL); [|destruct (_ && _); [done|]; destruct (Z.leb_spec UPLINK_MAX_CLIENTS_PER_REQUEST
      (Z.of_nat (length (qe_clients e)))); [done|]].
    all: intros [= <- <- <-]; split; [done|]; split; [done|]; split; [done|]; split; [lia|].
    all: exists e; split; [done|]; split; [done|]; split; [done|]; intros ?; (done || lia).
  - destruct (Z.leb_spec UPLINK_MAX_QUEUE (up_queueLen u)); [done|]. intros [= <- <- <-].
    set (img := if SERVER_UPLINK_QUEUELEN_THRES <? up_queueLen u + 1 then set_problem_queue true (up_image u)
                else up_image u).
    assert (Himg : img_virtualFilesize img = vfs /\ img_realFilesize img = img_realFilesize (up_image u)
                   /\ img_cacheMap img = img_cacheMap (up_image u)) by (unfold img; by destruct (_ <? _)).
    destruct Himg as (Hv & Hr & Hm). rewrite u64_id by crange.
    set (e := QueueEntry _ _ _ _ _ _).
    split; [split; cbn; rewrite ?Hv|].
    + rewrite length_app, (uw_len _ Hwf). cbn. lia.
    + apply queue_wf_new; [rewrite app_nil_r; apply Hwf|done|]. split; cbn; try done; try lia.
    + lia.
    + apply Hwf.
    + apply Hwf.
    + split; [by split|]. split; [cbn; by rewrite pending_app, pending_cons, app_nil_r|]. split; [cbn; lia|].
      exists e. cbn. rewrite lookup_app_r, Nat.sub_diag by lia. split; [done|]. split; [lia|]. split; [lia|]. done.
Qed.

Lemma prefetch_spec data callback length hops end_ i e isNew u' pre :
  0 <= length < 2 ^ 32 -> up_queueId u < 2 ^ 64 - 1 -> up_queue u !! i = Some e ->
  prefetch cfg u data callback length hops end_ i isNew = (u', pre) ->
  uplink_wf u' /\ same_rest u u' /\ pending (up_queue u') = pending (up_queue u)
  /\ up_queueId u <= up_queueId u' <= up_queueId u + 1
  /\ up_queue u' !! i = Some e.
Proof.
  intros Hl Hid Hi. unfold prefetch. rewrite Hi. pose proof (uw_id _ Hwf). pose proof (uw_size _ Hwf).
  assert (Hnone : forall p, (u, p) = (u', pre) -> uplink_wf u' /\ same_rest u u'
    /\ pending (up_queue u') = pending (up_queue u) /\ up_queueId u <= up_queueId u' <= up_queueId u + 1
    /\ up_queue u' !! i = Some e) by (intros p [= <- _]; by split_and!; try lia).
  destruct (_ && (length <=? _maxPrefetch cfg)) eqn:Hc; [|apply Hnone].
  apply andb_prop in Hc as [Hc Hlen]. apply andb_prop in Hc as [_ Hend]. apply Z.eqb_eq in Hend. apply Z.leb_le in Hlen.
  pose proof (queue_wf_lookup _ _ _ _ _ (uw_queue _ Hwf) Hi) as Hok.
  destruct (eo_range _ _ _ Hok) as [Hr1 Hr2]. pose proof (eo_to _ _ _ Hok) as Hto.
  pose proof (u32_range (length * 3)) as Hu. unfold in_u32 in Hu.
  destruct (extendRequest_spec cfg end_ end_ (up_image u) (Z.min (u32 (length * 3)) (_maxPrefetch cfg)))
    as (Hb & Hal & Hsz); [lia|lia|lia|apply Hwf|lia|lia|].
  set (pend := extendRequest _ _ _ _ _) in *.
  destruct (Z.ltb_spec end_ pend); [|apply Hnone]. intros [= <- <-]. rewrite u64_id by crange.
  assert (Hlt : (i < List.length (up_queue u))%nat) by (by eapply lookup_lt_Some).
  split; [split; cbn|].
  - rewrite length_app. cbn. rewrite length_take, length_drop, (uw_len _ Hwf). lia.
  - apply queue_wf_new; [by rewrite take_drop; apply Hwf|done|].
    rewrite <- Hend in Hto. split; cbn; try done; try lia.
  - lia.
  - apply Hwf.
  - apply Hwf.
  - split; [done|]. cbn. split; [|split; [lia|]].
    + rewrite <- (take_drop (S i) (up_queue u)) at 3. by rewrite !pending_app, pending_cons.
    + rewrite lookup_app_l by (rewrite length_take; lia). rewrite lookup_take_lt by lia. done.
Qed.

Lemma attachClient_spec i e c :
  up_queue u !! i = Some e -> client_ok e c ->
  Z.of_nat (length (qe_clients e)) < UPLINK_MAX_CLIENTS_PER_REQUEST ->
  let u' := attachClient u i c in
  uplink_wf u' /\ same_rest u u' /\ pending (up_queue u') ≡ₚ c :: pending (up_queue u)
  /\ up_queueId u' = up_queueId u.
Proof.
  intros Hi Hc Hmax u'. unfold u', attachClient. rewrite Hi.
  pose proof (queue_wf_lookup _ _ _ _ _ (uw_queue _ Hwf) Hi) as [? ? ? ? ? ? ?].
  split; [split; cbn|].
  - rewrite length_insert. apply Hwf.
  - eapply queue_wf_update; [apply Hwf|done|done|]. split; cbn; try done.
    + apply Forall_app. split; [done|]. by constructor.
    + rewrite length_app. cbn. lia.
  - apply Hwf.
  - apply Hwf.
  - apply Hwf.
  - split; [done|]. split; [|done]. cbn. rewrite (pending_insert _ _ _ _ Hi), (pending_split _ _ _ Hi). cbn.
    rewrite <- app_assoc. cbn. by rewrite !Permutation_middle.
Qed.

Lemma markRequestUnsent_spec h :
  let u' := markRequestUnsent u h in
  uplink_wf u' /\ same_rest u u' /\ pending (up_queue u') = pending (up_queue u)
  /\ up_queueId u' = up_queueId u.
Proof.
  cbn zeta. unfold markRequestUnsent. destruct (list_find _ _) as [[i e]|] eqn:Hf; [|done].
  apply list_find_Some in Hf as (Hi & _).
  pose proof (queue_wf_lookup _ _ _ _ _ (uw_queue _ Hwf) Hi) as [? ? ? ? ? ? ?].
  split; [split; cbn; try apply Hwf|].
  - rewrite length_insert. apply Hwf.
  - eapply queue_wf_update; [apply Hwf|done|done|]. by split.
  - split; [done|]. split; [|done]. cbn. by rewrite (pending_insert _ _ _ _ Hi), (pending_split _ _ _ Hi).
Qed.
End Request.

(** Settings in the range [globals.c] expects. *)
Record config_ok (cfg : config) : Prop := {
  co_payload : 0 <= _maxPayload cfg <= 2 ^ 31;
  co_prefetch : 0 <= _maxPrefetch cfg <= 2 ^ 31;
  co_minreq : 0 <= _minRequestSize cfg <= 2 ^ 31;
}.

Section Internal.
Context (cfg : config) (Hcfg : config_ok cfg) (send : packet -> bool).
Context (u : dnbd3_uplink_t) (Hwf : uplink_wf u).
Context (data callback handle start length hops : Z).
Hypothesis Hstart : 0 <= start.
Hypothesis Hlength : 0 <= length < 2 ^ 32.
Hypothesis Hend : start + length <= img_virtualFilesize (up_image u).
Hypothesis Hids : up_queueId u < 2 ^ 64 - 2.

(** The client entry of the request. *)
Definition new_client : dnbd3_queue_client_t := QueueClient data handle start (start + length) callback.

(** The accepted requests after an accepted one. *)
Definition with_client (before : list dnbd3_queue_client_t) : list dnbd3_queue_client_t :=
  if callback =? NULL then before else new_client :: before.

Lemma queueRequest_spec h rstart rend u' p :
  covers (img_virtualFilesize (up_image u)) start (start + length) rstart rend ->
  queueRequest cfg u data callback handle start length h rstart rend = Some (u', p) ->
  uplink_wf u' /\ same_rest u u' /\ pending (up_queue u') ≡ₚ with_client (pending (up_queue u))
  /\ up_queueId u <= up_queueId u' <= up_queueId u + 2.
Proof.
  intros Hcov. unfold queueRequest, with_client. pose proof (uw_size _ Hwf).
  rewrite u64_id by crange. destruct (up_shutdown u); [done|].
  destruct (acquireRequest _ _ _ _ _ _ _) as [[[u1 i] isNew]|] eqn:Hacq; cbn [mbind option_bind]; [|done].
  destruct (acquireRequest_spec u Hwf callback h start (start + length) rstart rend u1 i isNew ltac:(lia) Hcov ltac:(lia) Hacq)
    as (Hwf1 & Hs1 & Hp1 & Hid1 & e & He & Hf & Ht & Hmax).
  destruct (prefetch _ _ _ _ _ _ _ _ _) as [u2 pre] eqn:Hpre.
  destruct (prefetch_spec cfg (co_prefetch _ Hcfg) u1 Hwf1 _ _ _ _ _ _ e _ u2 pre Hlength ltac:(lia) He Hpre)
    as (Hwf2 & Hs2 & Hp2 & Hid2 & He2).
  rewrite He2. cbn [mbind option_bind]. intros [= <- <-].
  assert (Hs : same_rest u u2) by (by transitivity u1).
  destruct (Z.eqb_spec callback NULL) as [|Hcb].
  - split; [done|]. split; [done|]. split; [by rewrite Hp2, Hp1|lia].
  - destruct (attachClient_spec u2 Hwf2 i e new_client He2) as (Hwf3 & Hs3 & Hp3 & Hid3);
      [unfold client_ok, new_client; cbn; lia|by apply Hmax|]. fold new_client.
    split; [done|]. split; [by transitivity u2|]. split; [|lia]. by rewrite Hp3, Hp2, Hp1.
Qed.

Lemma sendPrepared_spec u0 rstart rend h p u' sent :
  uplink_wf u0 -> sendPrepared u0 send rstart rend h p = (u', sent) ->
  uplink_wf u' /\ same_rest u0 u' /\ pending (up_queue u') = pending (up_queue u0)
  /\ up_queueId u' = up_queueId u0.
Proof.
  intros Hwf0. unfold sendPrepared.
  destruct (if prep_isNew p then _ else _) as [ret1 sent1].
  destruct (match prep_pre p with Some _ => _ | None => _ end) as [ret2 sent2].
  set (u1 := if ret1 && ret2 then u0 else _).
  assert (H1 : uplink_wf u1 /\ same_rest u0 u1 /\ pending (up_queue u1) = pending (up_queue u0)
    /\ up_queueId u1 = up_queueId u0).
  { unfold u1. destruct (ret1 && ret2); [done|]. split; [split; apply Hwf0|done]. }
  destruct H1 as (Hwf1 & Hs1 & Hp1 & Hid1).
  set (u2 := if ret1 then u1 else _).
  assert (H2 : uplink_wf u2 /\ same_rest u1 u2 /\ pending (up_queue u2) = pending (up_queue u1)
    /\ up_queueId u2 = up_queueId u1).
  { unfold u2. destruct ret1; [done|]. by apply markRequestUnsent_spec. }
  destruct H2 as (Hwf2 & Hs2 & Hp2 & Hid2). intros [= <- <-].
  assert (H3 : forall h', uplink_wf (markRequestUnsent u2 h') /\ same_rest u0 (markRequestUnsent u2 h')
    /\ pending (up_queue (markRequestUnsent u2 h')) = pending (up_queue u0)
    /\ up_queueId (markRequestUnsent u2 h') = up_queueId u0).
  { intros h'. destruct (markRequestUnsent_spec u2 Hwf2 h') as (? & ? & Hp3 & Hid3).
    split; [done|]. split; [by transitivity u1; [|transitivity u2]|]. split; congruence. }
  assert (H4 : uplink_wf u2 /\ same_rest u0 u2 /\ pending (up_queue u2) = pending (up_queue u0)
    /\ up_queueId u2 = up_queueId u0)
    by (split; [done|]; split; [by transitivity u1|]; split; congruence).
  destruct ret2; [done|]. destruct (prep_pre p) as [[[? ?] ?]|]; [apply H3|done].
Qed.

(** The range the client's request is rounded to consists of whole blocks of the image. *)
Lemma requestRange_covers rstart rend :
  length <= _maxPayload cfg -> requestRange cfg (up_image u) callback start length = (rstart, rend) ->
  covers (img_virtualFilesize (up_image u)) start (start + length) rstart rend.
Proof.
  intros Hmax. pose proof (uw_size _ Hwf). pose proof (uw_aligned _ Hwf) as Ha.
  pose proof (round_down_bounds start). pose proof (co_payload _ Hcfg). pose proof (co_minreq _ Hcfg).
  assert (0 <= start / 4096) by (apply Z.div_pos; lia).
  unfold requestRange. rewrite (u64_id (start + length)) by crange. rewrite block_down by lia.
  set (rend0 := if _ && _ then _ else start + length).
  assert (Hr0 : start + length <= rend0 <= img_virtualFilesize (up_image u)
                /\ rend0 - 4096 * (start / 4096) < 2 ^ 32 - 4096).
  { unfold rend0. destruct (_ && _); [|lia].
    destruct (extendRequest_spec cfg (4096 * (start / 4096)) (start + length) (up_image u) (_minRequestSize cfg))
      as (? & _ & ?); try done; try lia. }
  pose proof (round_up_bounds rend0). pose proof (round_up_le rend0 _ (proj2 (proj1 Hr0)) Ha).
  rewrite block_up by lia. intros [= <- <-]. unfold covers. split_and!; auto with cint; lia.
Qed.

Lemma uplink_requestInternal_spec :
  (data = NULL \/ callback <> NULL) ->
  exists ok u' sent,
    uplink_requestInternal cfg send u data callback handle start length hops = Ok (ok, u', sent)
    /\ uplink_wf u' /\ same_rest u u' /\ up_queueId u <= up_queueId u' <= up_queueId u + 2
    /\ (ok = true -> pending (up_queue u') ≡ₚ with_client (pending (up_queue u)))
    /\ (ok = false -> u' = u /\ sent = []).
Proof.
  intros Hcb. pose proof (uw_size _ Hwf). unfold uplink_requestInternal.
  assert (Hrefuse : exists ok u' sent, Ok (false, u, []) = Ok (A := bool * dnbd3_uplink_t * list packet) (ok, u', sent)
    /\ uplink_wf u' /\ same_rest u u' /\ up_queueId u <= up_queueId u' <= up_queueId u + 2
    /\ (ok = true -> pending (up_queue u') ≡ₚ with_client (pending (up_queue u)))
    /\ (ok = false -> u' = u /\ sent = [])).
  { exists false, u, []. split_and!; try done; lia. }
  assert (Hassert : (data =? NULL) || negb (callback =? NULL) = true).
  { apply orb_true_iff. destruct Hcb as [->|]; [by left|right]. by apply negb_true_iff, Z.eqb_neq. }
  rewrite Hassert. cbn [assert_ mbind result_bind].
  destruct (_ && _); [done|]. destruct (up_shutdown u); [done|].
  destruct (Z.ltb_spec (_maxPayload cfg) length); [done|].
  destruct (requestRange cfg (up_image u) callback start length) as [rstart rend] eqn:Hrange.
  pose proof (requestRange_covers rstart rend ltac:(lia) Hrange) as Hcov.
  destruct (queueRequest _ _ _ _ _ _ _ _ _ _) as [[u1 p]|] eqn:Hq; [|done].
  destruct (queueRequest_spec _ _ _ u1 p Hcov Hq) as (Hwf1 & Hs1 & Hp1 & Hid1).
  destruct (match prep_pre p with None => _ | Some _ => _ end).
  - exists true, u1, []. by split_and!; try lia.
  - destruct (sendPrepared _ _ _ _ _ _) as [u2 sent] eqn:Hsend.
    destruct (sendPrepared_spec u1 _ _ _ p u2 sent Hwf1 Hsend) as (Hwf2 & Hs2 & Hp2 & Hid2).
    exists true, u2, sent. split; [done|]. split; [done|]. split; [by transitivity u1|].
    split; [lia|]. split; [intros _; by rewrite Hp2|done].
Qed.
End Internal.

(** ** Dropping and answering *)

Definition answered (l : list answer) : list dnbd3_queue_client_t := map ans_client l.

Lemma removeClients_spec data callback cs kept gone :
  removeClients data callback cs = (kept, gone) ->
  cs ≡ₚ kept ++ answered gone
  /\ Forall (fun c => ~ (qc_data c = data /\ qc_callback c = callback)) kept
  /\ Forall (fun a => ans_data a = None /\ qc_data (ans_client a) = data
                      /\ qc_callback (ans_client a) = callback) gone.
Proof.
  revert kept gone. induction cs as [|c cs IH]; intros kept gone; cbn; [intros [= <- <-]; by repeat constructor|].
  destruct (removeClients data callback cs) as [kept' gone']. destruct (IH _ _ eq_refl) as (Hp & Hk & Hg).
  destruct ((qc_data c =? data) && (qc_callback c =? callback)) eqn:Hm; intros [= <- <-].
  - apply andb_prop in Hm as [?%Z.eqb_eq ?%Z.eqb_eq]. split; [|split; [done|by constructor]].
    cbn. rewrite Hp at 1. by rewrite Permutation_middle.
  - split; [cbn; by rewrite Hp at 1|]. split; [|done]. constructor; [|done].
    intros [<- <-]. by rewrite !Z.eqb_refl in Hm.
Qed.

Lemma uplink_removeEntry_spec u data callback u' answers :
  uplink_wf u -> uplink_removeEntry u data callback = (u', answers) ->
  uplink_wf u' /\ same_rest u u' /\ up_queueId u' = up_queueId u
  /\ pending (up_queue u) ≡ₚ pending (up_queue u') ++ answered answers
  /\ Forall (fun c => ~ (qc_data c = data /\ qc_callback c = callback)) (pending (up_queue u'))
  /\ Forall (fun a => ans_data a = None /\ qc_data (ans_client a) = data
                      /\ qc_callback (ans_client a) = callback) answers.
Proof.
  intros Hwf [= <- <-]. destruct Hwf as [Hlen [Hnd Hent] Hid Hsz Hal].
  split; [split; cbn; [by rewrite length_map| |done..]; split|].
  - rewrite map_map. cbn. done.
  - clear -Hent. induction Hent as [|e q [? ? ? ? ? Hcl Hmax] _ IH]; cbn; constructor; [|done].
    destruct (removeClients data callback (qe_clients e)) as [kept gone] eqn:Hr.
    destruct (removeClients_spec _ _ _ _ _ Hr) as (Hp & _). cbn. split; cbn; try done.
    + rewrite Hp in Hcl. by apply Forall_app in Hcl as [? _].
    + apply Permutation_length in Hp. rewrite length_app in Hp. lia.
  - split; [done|]. split; [done|]. cbn. clear. induction (up_queue u) as [|e q (IH1 & IH2 & IH3)]; cbn.
    { by split_and!; try constructor. }
    rewrite !pending_cons. cbn. destruct (removeClients data callback (qe_clients e)) as [kept gone] eqn:Hr.
    destruct (removeClients_spec _ _ _ _ _ Hr) as (Hp & Hk & Hg). cbn. unfold answered in *.
    split_and!; [|by apply Forall_app|by apply Forall_app].
    rewrite Hp, IH1, map_app. solve_Permutation.
Qed.

Lemma cancelAllRequests_spec u u' answers :
  uplink_wf u -> cancelAllRequests u = (u', answers) ->
  uplink_wf u' /\ same_rest u u' /\ up_queueId u' = up_queueId u /\ up_queue u' = []
  /\ answered answers = pending (up_queue u) /\ Forall (fun a => ans_data a = None) answers.
Proof.
  intros [Hlen Hq Hid Hsz Hal] [= <- <-]. split; [split; cbn; try done; by split; constructor|].
  split; [done|]. split; [done|]. split; [done|]. cbn. clear.
  induction (up_queue u) as [|e q [IH1 IH2]]; cbn; [by repeat constructor|]. rewrite pending_cons. split.
  - unfold answered in *. rewrite map_app, IH1, map_map. cbn. by rewrite map_id.
  - apply Forall_app. split; [|done]. apply List.Forall_map, list.Forall_true. done.
Qed.

Lemma takeEntry_spec u handle u' found :
  uplink_wf u -> takeEntry u handle = (u', found) ->
  uplink_wf u' /\ same_rest u u' /\ up_queueId u' = up_queueId u
  /\ match found with
     | None => up_queue u' = up_queue u /\ forall e, e ∈ up_queue u -> qe_handle e <> handle
     | Some e => entry_ok (img_virtualFilesize (up_image u)) (up_queueId u) e
                 /\ qe_handle e = handle /\ up_queue u ≡ₚ e :: up_queue u'
     end.
Proof.
  intros Hwf. unfold takeEntry, findEntry.
  set (clear := fun (len : Z) => if len <? SERVER_UPLINK_QUEUELEN_THRES then set_problem_queue false (up_image u)
                       else up_image u).
  assert (Hclear : forall len, img_virtualFilesize (clear len) = img_virtualFilesize (up_image u)
    /\ img_realFilesize (clear len) = img_realFilesize (up_image u)
    /\ img_cacheMap (clear len) = img_cacheMap (up_image u)) by (intros; unfold clear; by destruct (_ <? _)).
  destruct (list_find _ _) as [[i e]|] eqn:Hf; intros [= <- <-]; fold (clear (up_queueLen u - 1)) (clear (up_queueLen u)).
  - apply list_find_Some in Hf as (Hi & Hh & _). destruct (Hclear (up_queueLen u - 1)) as (Hv & Hr & Hm).
    split; [split; cbn; rewrite ?Hv; try apply Hwf|].
    + rewrite length_delete by (by eexists). apply lookup_lt_Some in Hi. rewrite (uw_len _ Hwf). lia.
    + apply queue_wf_delete, Hwf.
    + split; [by split|]. split; [done|]. split; [eapply queue_wf_lookup; [apply Hwf|done]|].
      split; [done|]. cbn. rewrite delete_take_drop. rewrite <- (take_drop_middle _ _ _ Hi) at 1.
      by rewrite Permutation_middle.
  - destruct (Hclear (up_queueLen u)) as (Hv & Hr & Hm). split; [split; cbn; rewrite ?Hv; apply Hwf|].
    split; [by split|]. split; [done|]. split; [done|]. apply list_find_None in Hf.
    intros e He. by apply (proj1 (list.Forall_forall _ _) Hf).
Qed.

(** The answer a client gets when the payload of [start, ...) is in the buffer. *)
Definition client_answer (buf : list Z) (start : Z) (c : dnbd3_queue_client_t) : answer :=
  Answer c (Some (take (Z.to_nat (qc_to c - qc_from c)) (drop (Z.to_nat (qc_from c - start)) buf))).

Lemma answerClients_spec buf e cs :
  Forall (client_ok e) cs -> qe_to e - qe_from e <= Z.of_nat (length buf) -> qe_to e - qe_from e < 2 ^ 32 ->
  answerClients buf (qe_from e) (qe_to e) cs = Ok (map (client_answer buf (qe_from e)) cs).
Proof.
  intros Hcs Hlen Hsz. induction Hcs as [|c cs (H1 & H2 & H3) _ IH]; cbn [answerClients map]; [done|].
  rewrite (proj2 (Z.leb_le _ _) H1), (proj2 (Z.leb_le _ _) H3). cbn [andb assert_ mbind result_bind].
  rewrite u32_id by crange. unfold slice.
  rewrite (proj2 (Z.leb_le 0 (qc_from c - qe_from e))), (proj2 (Z.leb_le 0 (qc_to c - qc_from c))) by lia.
  rewrite (proj2 (Z.leb_le _ (Z.of_nat (length buf)))) by lia. cbn [andb mbind result_bind].
  rewrite IH. done.
Qed.

(** Handles identify entries. *)
Lemma handles_split vfs id q e q' :
  queue_wf vfs id q -> q ≡ₚ e :: q' ->
  (forall e', e' ∈ q -> qe_handle e' = qe_handle e -> e' = e)
  /\ (forall e', e' ∈ q' <-> e' ∈ q /\ qe_handle e' <> qe_handle e).
Proof.
  intros Hq Hp. pose proof (qw_handles _ _ _ Hq) as Hnd. rewrite Hp in Hnd.
  cbn in Hnd. apply list.NoDup_cons in Hnd as [Hnin _].
  assert (Hne : forall e', e' ∈ q' -> qe_handle e' <> qe_handle e).
  { intros e' Hin Heq. apply Hnin. rewrite <- Heq. by apply list_elem_of_fmap_2. }
  split; intros e'; rewrite Hp, elem_of_cons.
  - intros [->|Hin] Hh; [done|]. by destruct (Hne e' Hin).
  - split; [intros Hin; split; [by right|by apply Hne]|]. by intros [[->|?] ?].
Qed.

(** A reply whose payload is in the buffer is passed on to every client of its
    entry, and the entry is gone. *)
Lemma finishEntry_spec u handle :
  uplink_wf u ->
  (forall e, e ∈ up_queue u -> qe_handle e = handle -> qe_to e - qe_from e <= Z.of_nat (length (up_recvBuffer u))) ->
  exists u' answers, finishEntry u handle = Ok (u', answers)
    /\ uplink_wf u' /\ same_rest u u' /\ up_queueId u' = up_queueId u
    /\ pending (up_queue u) ≡ₚ pending (up_queue u') ++ answered answers
    /\ (forall e, e ∈ up_queue u -> qe_handle e = handle ->
          answers = map (client_answer (up_recvBuffer u) (qe_from e)) (qe_clients e))
    /\ (forall e, e ∈ up_queue u' <-> e ∈ up_queue u /\ qe_handle e <> handle).
Proof.
  intros Hwf Hbuf. unfold finishEntry. destruct (takeEntry u handle) as [u1 [e|]] eqn:Ht.
  - destruct (takeEntry_spec u handle u1 _ Hwf Ht) as (Hwf1 & Hs1 & Hid1 & Hok & Hh & Hp).
    assert (He : e ∈ up_queue u) by (rewrite Hp; by left).
    rewrite (sr_buffer _ _ Hs1).
    rewrite answerClients_spec; [|apply (eo_clients _ _ _ Hok)|by apply Hbuf|apply (eo_size _ _ _ Hok)].
    cbn [mbind result_bind]. set (answers := map _ _).
    assert (Hans : answered answers = qe_clients e).
    { unfold answers, answered. rewrite map_map. apply map_id. }
    destruct (handles_split _ _ _ _ _ (uw_queue _ Hwf) Hp) as [Huniq Hleft]. rewrite Hh in Huniq, Hleft.
    assert (Hcase : exists u', match qe_clients e with
        | [] => Ok (u1, answers)
        | _ => Ok (up_set_idle u1 0 (if up_nextReplicationIndex u1 =? -1
                 then i32 (qe_from e / FILE_BYTES_PER_MAP_BYTE) .& MAP_INDEX_HASH_START_MASK
                 else up_nextReplicationIndex u1), answers)
        end = Ok (u', answers) /\ uplink_wf u' /\ same_rest u1 u' /\ up_queueId u' = up_queueId u1
        /\ up_queue u' = up_queue u1).
    { destruct (qe_clients e); [by exists u1|]. eexists. split; [done|]. split; [split; apply Hwf1|done]. }
    destruct Hcase as (u' & -> & Hwf' & Hs' & Hid' & Hq'). exists u', answers.
    split; [done|]. split; [done|]. split; [by transitivity u1|]. split; [congruence|]. rewrite Hq'. split.
    { rewrite Hans, Hp, pending_cons. apply Permutation_app_comm. }
    split; [|done]. intros e' He' Hh'. by rewrite (Huniq e' He' Hh').
  - destruct (takeEntry_spec u handle u1 _ Hwf Ht) as (Hwf1 & Hs1 & Hid1 & Hq & Hno).
    exists u1, []. rewrite Hq, app_nil_r. split_and!; try done; try (intros e He Hh; by destruct (Hno e He)).
    intros e. split; [intros He; split; [done|by apply Hno]|by intros [? _]].
Qed.
