(* ===== verification/UplinkIO.v ===== *)
(** * UplinkIO: sending queued requests and receiving their replies

    The functions of [src/server/uplink.c] that run in the uplink thread:
    [sendQueuedRequests], the receive loop of [handleReceive] with the writes to
    the image file, [reopenCacheFd] and [connectionFailed].

    The outside world is given by arguments: what the socket delivers is a list of
    [recv] values, the results of [pwrite] are a list of [wres] values, and the
    image file is a function from offsets to bytes. *)

From S2P Require Import Prelude Timing Types CacheMap Uplink.

(** ** Sending *)

Definition MAX_RESEND_BATCH : Z := 125.

Definition entry_packet (u : dnbd3_uplink_t) (e : dnbd3_queue_entry_t) : packet :=
  Packet (qe_from e) (u32 (qe_to e - qe_from e)) (qe_handle e)
    (COND_HOPCOUNT (conn_version (up_current u)) (qe_hopCount e)).

(** The loop over the queue: [batch] is the filled part of [reqs].  The result has
    the queue, the batches handed to [sock_sendAll], the rest of the buffer and
    whether sending failed. *)
Fixpoint resendLoop (u : dnbd3_uplink_t) (newOnly : bool) (sendAll : list packet -> bool)
    (batch : list packet) (q : list dnbd3_queue_entry_t)
  : result (list dnbd3_queue_entry_t * list (list packet) * list packet * bool) :=
  match q with
  | [] => Ok ([], [], batch, false)
  | e :: rest =>
      if newOnly && qe_sent e then
        '(q', out, remain, failed) ← resendLoop u newOnly sendAll batch rest;
        Ok (e :: q', out, remain, failed)
      else if MAX_RESEND_BATCH <=? Z.of_nat (length batch) then Fault OutOfBounds
      else
        let e := qe_set_sent true e in
        let batch := batch ++ [entry_packet u e] in
        if Z.of_nat (length batch) =? MAX_RESEND_BATCH then
          let connected := negb (conn_fd (up_current u) =? -1) in
          if connected && sendAll batch then
            '(q', out, remain, failed) ← resendLoop u newOnly sendAll [] rest;
            Ok (e :: q', batch :: out, remain, failed)
          else Ok (e :: rest, if connected then [batch] else [], [], true)
        else
          '(q', out, remain, failed) ← resendLoop u newOnly sendAll batch rest;
          Ok (e :: q', out, remain, failed)
  end.

Definition sendQueuedRequests (u : dnbd3_uplink_t) (newOnly : bool) (sendAll : list packet -> bool)
  : result (dnbd3_uplink_t * list (list packet)) :=
  '(q, out, remain, failed) ← resendLoop u newOnly sendAll [] (up_queue u);
  let u := up_set_entries u q in
  let u := if (failed : bool) then up_set_image u (set_problem_uplink true (up_image u)) else u in
  match remain with
  | [] => Ok (u, out)
  | _ =>
      if conn_fd (up_current u) =? -1 then Ok (u, out)
      else Ok (up_set_image u (set_problem_uplink (negb (sendAll remain)) (up_image u)), out ++ [remain])
  end.

(** ** Writing to the image file *)

Inductive errno := EINTR | ENOSPC | EDQUOT | EBADF | EINVAL | EIO | EOther.
#[global] Instance errno_eq_dec : EqDecision errno.
Proof. solve_decision. Defined.

(** A result of [pwrite]. *)
Inductive wres := Wrote (n : Z) | WErr (e : errno).

Definition file := Z -> Z.
(** [pwrite] of the bytes [data] at [off]. *)
Definition pwrite (f : file) (off : Z) (data : list Z) : file :=
  fun p => if (off <=? p) && (p <? off + Z.of_nat (length data)) then data !!! Z.to_nat (p - off) else f p.

(** What the calls made while storing a payload return: [_shutdown], the result of
    [image_ensureDiskSpaceLocked] and of [open]. *)
Record world := World { w_shutdown : bool; w_ensureSpace : bool; w_open : Z }.

Definition reopenCacheFd (w : world) (u : dnbd3_uplink_t) (force : bool) : bool * dnbd3_uplink_t :=
  if negb (up_cacheFd u =? -1) && negb force then (true, u)
  else
    let u := up_set_recv u (up_recvBuffer u) (up_bytesReceived u) (w_open w) in
    (negb (w_open w =? -1), up_set_image u (set_problem_write (w_open w =? -1) (up_image u))).

(** The write loop; [None] when the given results of [pwrite] do not suffice. *)
Fixpoint writeLoop (w : world) (script : list wres) (u : dnbd3_uplink_t) (f : file) (start size done : Z)
    (tryAgain : bool) : option (dnbd3_uplink_t * file * Z) :=
  if size <=? done then Some (u, f, done)
  else match script with
  | [] => None
  | Wrote n :: rest =>
      if (n <=? 0) || (size - done <? n) then Some (u, f, done)
      else
        let data := take (Z.to_nat n) (drop (Z.to_nat done) (up_recvBuffer u)) in
        writeLoop w rest u (pwrite f (start + done) data) start size (done + n) tryAgain
  | WErr e :: rest =>
      if bool_decide (e = EINTR) && negb (w_shutdown w) then writeLoop w rest u f start size done tryAgain
      else match e with
      | ENOSPC | EDQUOT =>
          if tryAgain && w_ensureSpace w then writeLoop w rest u f start size done false else Some (u, f, done)
      | EBADF | EINVAL | EIO =>
          let u := up_set_image u (set_problem_write true (up_image u)) in
          if (tryAgain : bool) then
            let '(ok, u) := reopenCacheFd w u true in
            if (ok : bool) then writeLoop w rest u f start size done false else Some (u, f, done)
          else Some (u, f, done)
      | _ => Some (u, f, done)
      end
  end.

(** Store the payload of a reply for the range from [start] on; the last result
    lists the hash blocks queued for a check. *)
Definition storePayload (w : world) (script : list wres) (junk : bool * bool) (u : dnbd3_uplink_t) (f : file)
    (start size : Z) : result (option (dnbd3_uplink_t * file * list Z)) :=
  let u := if up_cacheFd u =? -1 then (reopenCacheFd w u false).2 else u in
  if up_cacheFd u =? -1 then Ok (Some (u, f, []))
  else match writeLoop w script u f start size 0 true with
  | None => Ok None
  | Some (u, f, done) =>
      if 0 <? done then
        '(image, checks) ← image_updateCachemap junk (up_image u) start (u64 (start + done)) true;
        Ok (Some (up_set_image u image, f, checks))
      else Ok (Some (u, f, []))
  end.

(** ** Receiving *)

Inductive recv :=
| ReplyIntr | ReplyAgain | ReplyClosed | ReplyWrongMagic | ReplyError
(** A reply header and the bytes [sock_recv] got for its payload. *)
| Reply (cmd size handle : Z) (payload : list Z).

(** Make room for the payload ([junk] is what [realloc] leaves in the new bytes)
    and store it at the start of the buffer. *)
Definition receivePayload (cfg : config) (junk : Z) (u : dnbd3_uplink_t) (size : Z) (payload : list Z)
  : dnbd3_uplink_t :=
  let buf := up_recvBuffer u in
  let buf := if Z.of_nat (length buf) <? size
             then buf ++ replicate (Z.to_nat (Z.min (_maxPayload cfg) (u32 (size + 65536))) - length buf) junk
             else buf in
  up_set_recv u (payload ++ drop (length payload) buf) (up_bytesReceived u) (up_cacheFd u).

(** What ends the loop of [handleReceive]. *)
Inductive outcome := RecvDone | RecvFailed | RecvMore.

(** One iteration. *)
Definition receiveOne (cfg : config) (w : world) (script : list wres) (junk : Z) (r : recv)
    (u : dnbd3_uplink_t) (f : file) : result (option (outcome * dnbd3_uplink_t * file * list answer)) :=
  match r with
  | ReplyIntr => Ok (Some (if negb (w_shutdown w) && negb (up_shutdown u) then RecvMore else RecvFailed, u, f, []))
  | ReplyAgain => Ok (Some (RecvDone, u, f, []))
  | ReplyClosed | ReplyWrongMagic | ReplyError => Ok (Some (RecvFailed, u, f, []))
  | Reply cmd size handle payload =>
      if _maxPayload cfg <? size then Ok (Some (RecvFailed, u, f, []))
      else
        let u := receivePayload cfg junk u size payload in
        if negb (Z.of_nat (length payload) =? size) then Ok (Some (RecvFailed, u, f, []))
        else if negb (cmd =? CMD_GET_BLOCK) then Ok (Some (RecvMore, u, f, []))
        else
          let u := up_set_recv u (up_recvBuffer u) (u64 (up_bytesReceived u + size)) (up_cacheFd u) in
          match findEntry u handle with
          | None => Ok (Some (RecvMore, u, f, []))
          | Some (_, e) =>
              stored ← storePayload w script (false, false) u f (qe_from e) size;
              match stored with
              | None => Ok None
              | Some (u, f, _) =>
                  '(u, answers) ← finishEntry u handle;
                  Ok (Some (RecvMore, u, f, answers))
              end
          end
  end.

(** The loop over what the socket delivers, each with the results of the writes it
    leads to; [None] when the input ends before the loop does. *)
Fixpoint receiveLoop (cfg : config) (w : world) (junk : Z) (input : list (recv * list wres))
    (u : dnbd3_uplink_t) (f : file) : result (option (bool * dnbd3_uplink_t * file * list answer)) :=
  match input with
  | [] => Ok None
  | (r, script) :: rest =>
      one ← receiveOne cfg w script junk r u f;
      match one with
      | None => Ok None
      | Some (RecvDone, u, f, answers) => Ok (Some (true, u, f, answers))
      | Some (RecvFailed, u, f, answers) => Ok (Some (false, u, f, answers))
      | Some (RecvMore, u, f, answers) =>
          more ← receiveLoop cfg w junk rest u f;
          match more with
          | None => Ok None
          | Some (ok, u, f, answers') => Ok (Some (ok, u, f, answers ++ answers'))
          end
      end
  end.

(** [connectionFailed]; the second result tells whether a search for another
    server is started. *)
Definition connectionFailed (cfg : config) (u : dnbd3_uplink_t) (findNew : bool) : dnbd3_uplink_t * bool :=
  let c := up_current u in
  if conn_fd c =? -1 then (u, false)
  else
    let next := if (_backgroundReplication cfg =? BGR_FULL) && (up_nextReplicationIndex u =? -1) then 0
                else up_nextReplicationIndex u in
    let u := up_set_current u (Conn (-1) (conn_version c) (conn_index c)) next
               (set_problem_uplink true (up_image u)) in
    (u, findNew && negb ((up_rttTestResult u =? RTT_INPROGRESS) || negb (conn_fd (up_better u) =? -1))).

Definition connectionShouldShutdown (cfg : config) (u : dnbd3_uplink_t) : bool :=
  (SERVER_UPLINK_IDLE_TIMEOUT <? up_idleTime u)
  && (negb (_backgroundReplication cfg =? BGR_FULL) || (img_users (up_image u) <? _bgrMinClients cfg)).

(** ** Resending *)

(** An entry only changes by being marked as sent. *)
Definition marked (e e' : dnbd3_queue_entry_t) : Prop := e' = e \/ e' = qe_set_sent true e.
(** The entries [sendQueuedRequests] picks. *)
Definition selected (newOnly : bool) (e : dnbd3_queue_entry_t) : bool := negb (newOnly && qe_sent e).

Lemma marked_refl q : Forall2 marked q q.
Proof. apply Forall2_same_length_lookup_2; [done|]. intros i x y Hx Hy. left. congruence. Qed.

Lemma resendLoop_spec u newOnly sendAll q : forall batch,
  Z.of_nat (length batch) < MAX_RESEND_BATCH ->
  exists q' out remain failed,
    resendLoop u newOnly sendAll batch q = Ok (q', out, remain, failed)
    /\ Forall2 marked q q'
    /\ Forall (fun b => Z.of_nat (length b) = MAX_RESEND_BATCH) out
    /\ Z.of_nat (length remain) < MAX_RESEND_BATCH
    /\ (failed = true -> remain = [] /\ (conn_fd (up_current u) = -1 \/ exists b, sendAll b = false))
    /\ (failed = false ->
          concat out ++ remain = batch ++ map (entry_packet u) (List.filter (selected newOnly) q)
          /\ Forall (fun e => qe_sent e = true) q').
Proof.
  assert (Hpos : MAX_RESEND_BATCH = 125) by done.
  induction q as [|e q IH]; intros batch Hb; cbn [resendLoop].
  { exists [], [], batch, false. split_and!; try done.
    intros _. split; [cbn; by rewrite app_nil_r|constructor]. }
  cbn [List.filter]. change (selected newOnly e) with (negb (newOnly && qe_sent e)). destruct (newOnly && qe_sent e) eqn:Hsel; cbn [negb].
  - destruct (IH batch Hb) as (q' & out & remain & failed & -> & Hm & Ho & Hl & Hf & Hok). cbn [mbind result_bind].
    exists (e :: q'), out, remain, failed. split; [done|]. split; [constructor; [by left|done]|].
    split; [done|]. split; [done|]. split; [done|]. intros Hff. destruct (Hok Hff) as [? ?].
    split; [done|]. constructor; [|done]. by apply andb_prop in Hsel as [_ ?].
  - destruct (Z.leb_spec MAX_RESEND_BATCH (Z.of_nat (length batch))); [lia|].
    set (e' := qe_set_sent true e). change (entry_packet u e') with (entry_packet u e).
    set (batch' := batch ++ [entry_packet u e]).
    assert (Hlen : length batch' = S (length batch)) by (unfold batch'; rewrite length_app; cbn; lia).
    destruct (Z.eqb_spec (Z.of_nat (length batch')) MAX_RESEND_BATCH) as [Hfull|Hnot].
    + destruct (negb (conn_fd (up_current u) =? -1)) eqn:Hconn; cbn [andb].
      1: destruct (sendAll batch') eqn:Hsend.
      * destruct (IH []) as (q' & out & remain & failed & -> & Hm & Ho & Hl & Hf & Hok); [cbn; lia|].
        cbn [mbind result_bind]. exists (e' :: q'), (batch' :: out), remain, failed.
        split; [done|]. split; [constructor; [by right|done]|]. split; [by constructor|]. split; [done|].
        split; [done|]. intros Hff. destruct (Hok Hff) as [Hc ?]. split; [|by constructor].
        cbn. rewrite <- app_assoc, Hc. unfold batch'. by rewrite <- app_assoc.
      * exists (e' :: q), [batch'], [], true. split; [done|]. split; [constructor; [by right|apply marked_refl]|].
        split; [by repeat constructor|]. split; [cbn; lia|]. split; [intros _; split; [done|right; by exists batch']|done].
      * exists (e' :: q), [], [], true. split; [done|]. split; [constructor; [by right|apply marked_refl]|].
        split; [constructor|]. split; [cbn; lia|].
        split; [intros _; split; [done|left; by apply negb_false_iff, Z.eqb_eq in Hconn]|done].
    + destruct (IH batch') as (q' & out & remain & failed & -> & Hm & Ho & Hl & Hf & Hok); [lia|].
      cbn [mbind result_bind]. exists (e' :: q'), out, remain, failed.
      split; [done|]. split; [constructor; [by right|done]|]. split; [done|]. split; [done|].
      split; [done|]. intros Hff. destruct (Hok Hff) as [Hc ?]. split; [|by constructor].
      rewrite Hc. unfold batch'. by rewrite <- app_assoc.
Qed.

Lemma marked_pending q q' : Forall2 marked q q' -> pending q' = pending q /\ map qe_handle q' = map qe_handle q.
Proof.
  induction 1 as [|e e' q q' Hm _ [IH1 IH2]]; [done|]. rewrite !pending_cons. cbn. rewrite IH1, IH2.
  by destruct Hm as [->| ->].
Qed.

Lemma marked_wf vfs id q q' : Forall2 marked q q' -> queue_wf vfs id q -> queue_wf vfs id q'.
Proof.
  intros Hm [Hnd Hf]. destruct (marked_pending q q' Hm) as [_ Hh]. split; [by rewrite Hh|].
  clear Hnd Hh. induction Hm as [|e e' q q' He _ IH]; [constructor|]. inversion_clear Hf as [|? ? Hok Hf'].
  constructor; [|by apply IH]. destruct He as [->| ->]; [done|]. by destruct Hok.
Qed.

Lemma sendQueuedRequests_spec u newOnly sendAll :
  uplink_wf u ->
  exists u' out, sendQueuedRequests u newOnly sendAll = Ok (u', out)
    /\ uplink_wf u' /\ same_rest u u' /\ up_queueId u' = up_queueId u
    /\ pending (up_queue u') = pending (up_queue u)
    /\ Forall (fun b => (0 < length b)%nat /\ Z.of_nat (length b) <= MAX_RESEND_BATCH) out
    /\ (conn_fd (up_current u) <> -1 -> (forall b, sendAll b = true) ->
          concat out = map (entry_packet u) (List.filter (selected newOnly) (up_queue u))
          /\ Forall (fun e => qe_sent e = true) (up_queue u')).
Proof.
  intros Hwf. unfold sendQueuedRequests.
  destruct (resendLoop_spec u newOnly sendAll (up_queue u) []) as (q' & out & remain & failed & -> & Hm & Ho & Hl & Hf & Hok);
    [done|]. cbn [mbind result_bind].
  destruct (marked_pending _ _ Hm) as [Hp _]. pose proof (marked_wf _ _ _ _ Hm (uw_queue _ Hwf)) as Hq.
  set (u1 := if failed then _ else _).
  assert (H1 : forall b, let u2 := up_set_image u1 (set_problem_uplink b (up_image u1)) in
    uplink_wf u2 /\ same_rest u u2 /\ up_queueId u2 = up_queueId u /\ up_queue u2 = q').
  { intros b. unfold u1. pose proof (Forall2_length Hm) as Hlen. pose proof (uw_len _ Hwf).
    destruct failed; (split; [split; cbn; try apply Hwf; try done; lia|done]). }
  assert (H1' : uplink_wf u1 /\ same_rest u u1 /\ up_queueId u1 = up_queueId u /\ up_queue u1 = q').
  { unfold u1. pose proof (Forall2_length Hm) as Hlen. pose proof (uw_len _ Hwf).
    destruct failed; (split; [split; cbn; try apply Hwf; try done; lia|done]). }
  assert (Hout : Forall (fun b => (0 < length b)%nat /\ Z.of_nat (length b) <= MAX_RESEND_BATCH) out).
  { eapply list.Forall_impl; [exact Ho|]. cbn. unfold MAX_RESEND_BATCH. lia. }
  assert (Hnofail : conn_fd (up_current u) <> -1 -> (forall b, sendAll b = true) -> failed = false).
  { intros Hc Hs. destruct failed; [|done]. destruct (Hf eq_refl) as [_ [?|[b Hb]]]; [done|]. by rewrite Hs in Hb. }
  assert (Hcur : up_current u1 = up_current u) by (unfold u1; by destruct failed).
  destruct remain as [|p remain].
  - destruct H1' as (? & ? & ? & Hq1). exists u1, out. rewrite Hq1. split_and!; try done.
    intros Hc Hs. destruct (Hok (Hnofail Hc Hs)) as [Hcc ?]. by rewrite app_nil_r in Hcc.
  - rewrite Hcur. destruct (Z.eqb_spec (conn_fd (up_current u)) (-1)).
    + destruct H1' as (? & ? & ? & Hq1). exists u1, out. rewrite Hq1. by split_and!.
    + destruct (H1 (negb (sendAll (p :: remain)))) as (? & ? & ? & Hq1). eexists _, _. split; [done|].
      rewrite Hq1. split_and!; try done.
      * apply Forall_app. split; [done|]. constructor; [cbn [length] in *; lia|constructor].
      * intros Hc Hs. destruct (Hok (Hnofail Hc Hs)) as [Hcc ?]. rewrite concat_app. cbn. by rewrite app_nil_r.
Qed.

(** ** Storing a payload *)

(** What storing a payload leaves alone. *)
Record same_queue (u u' : dnbd3_uplink_t) : Prop := {
  sq_queue : up_queue u' = up_queue u;
  sq_len : up_queueLen u' = up_queueLen u;
  sq_id : up_queueId u' = up_queueId u;
  sq_buffer : up_recvBuffer u' = up_recvBuffer u;
  sq_shutdown : up_shutdown u' = up_shutdown u;
  sq_vfs : img_virtualFilesize (up_image u') = img_virtualFilesize (up_image u);
  sq_real : img_realFilesize (up_image u') = img_realFilesize (up_image u);
}.
#[global] Instance same_queue_preorder : PreOrder same_queue.
Proof. split; [by intros ?|]. intros u1 u2 u3 [] []. split; congruence. Qed.

Lemma same_queue_wf u u' : same_queue u u' -> uplink_wf u -> uplink_wf u'.
Proof. intros [Hq Hl Hi Hb Hs Hv Hr] [? ? ? ? ?]. split; rewrite ?Hq, ?Hl, ?Hi, ?Hv; done. Qed.

Lemma reopenCacheFd_same w u force :
  same_queue u (reopenCacheFd w u force).2
  /\ img_cacheMap (up_image (reopenCacheFd w u force).2) = img_cacheMap (up_image u)
  /\ img_crc32 (up_image (reopenCacheFd w u force).2) = img_crc32 (up_image u).
Proof. unfold reopenCacheFd. by destruct (_ && _). Qed.

Lemma pwrite_step (f : file) (buf : list Z) start done n :
  0 <= done -> 0 < n -> done + n <= Z.of_nat (length buf) ->
  forall p, pwrite f (start + done) (take (Z.to_nat n) (drop (Z.to_nat done) buf)) p
    = if (start + done <=? p) && (p <? start + (done + n)) then buf !!! Z.to_nat (p - start) else f p.
Proof.
  intros Hd Hn Hl p. unfold pwrite. rewrite length_take, length_drop.
  replace (start + done + Z.of_nat (Z.to_nat n `min` (length buf - Z.to_nat done))) with (start + (done + n)) by lia.
  destruct (Z.leb_spec (start + done) p); cbn [andb]; [|done].
  destruct (Z.ltb_spec p (start + (done + n))); [|done].
  rewrite lookup_total_take_lt by lia. rewrite lookup_total_drop. f_equal. lia.
Qed.

Lemma writeLoop_spec w script : forall u f start size done tryAgain u' f' done',
  0 <= done <= size -> size <= Z.of_nat (length (up_recvBuffer u)) ->
  writeLoop w script u f start size done tryAgain = Some (u', f', done') ->
  done <= done' <= size /\ same_queue u u'
  /\ img_cacheMap (up_image u') = img_cacheMap (up_image u)
  /\ img_crc32 (up_image u') = img_crc32 (up_image u)
  /\ forall p, f' p = if (start + done <=? p) && (p <? start + done')
                      then up_recvBuffer u !!! Z.to_nat (p - start) else f p.
Proof.
  assert (Hstop : forall (u : dnbd3_uplink_t) (f : file) start (size done : Z),
    0 <= done <= size -> done <= done <= size /\ same_queue u u
    /\ img_cacheMap (up_image u) = img_cacheMap (up_image u) /\ img_crc32 (up_image u) = img_crc32 (up_image u)
    /\ forall p, f p = if (start + done <=? p) && (p <? start + done)
                      then up_recvBuffer u !!! Z.to_nat (p - start) else f p).
  { intros u f start size done Hd. split_and!; try done; [lia|]. intros p.
    destruct (Z.leb_spec (start + done) p), (Z.ltb_spec p (start + done)); done || lia. }
  induction script as [|r script IH]; intros u f start size done tryAgain u' f' done' Hd Hs; cbn [writeLoop].
  { destruct (Z.leb_spec size done); [|done]. intros [= <- <- <-]. by apply Hstop. }
  destruct (Z.leb_spec size done); [intros [= <- <- <-]; by apply Hstop|].
  destruct r as [n|e].
  - destruct (Z.leb_spec n 0); [intros [= <- <- <-]; by apply Hstop|].
    destruct (Z.ltb_spec (size - done) n); cbn [orb]; [intros [= <- <- <-]; by apply Hstop|].
    intros Hrun. destruct (IH u _ start size (done + n) tryAgain u' f' done' ltac:(lia) Hs Hrun) as (Hd' & Hq & Hm & Hc & Hp).
    split; [lia|]. split; [done|]. split; [done|]. split; [done|]. intros p. rewrite Hp, pwrite_step by lia.
    destruct (Z.leb_spec (start + (done + n)) p), (Z.ltb_spec p (start + done')), (Z.leb_spec (start + done) p),
      (Z.ltb_spec p (start + (done + n))); cbn [andb]; done || lia.
  - assert (Hgo : forall u1 ta, same_queue u u1 /\ img_cacheMap (up_image u1) = img_cacheMap (up_image u)
        /\ img_crc32 (up_image u1) = img_crc32 (up_image u) ->
      writeLoop w script u1 f start size done ta = Some (u', f', done') \/ Some (u1, f, done) = Some (u', f', done') ->
      done <= done' <= size /\ same_queue u u' /\ img_cacheMap (up_image u') = img_cacheMap (up_image u)
      /\ img_crc32 (up_image u') = img_crc32 (up_image u)
      /\ forall p, f' p = if (start + done <=? p) && (p <? start + done')
                      then up_recvBuffer u !!! Z.to_nat (p - start) else f p).
    { intros u1 ta (Hq1 & Hm1 & Hc1) [Hrun|[= <- <- <-]].
      - destruct (IH u1 f start size done ta u' f' done' Hd) as (? & ? & ? & ? & Hp); [by rewrite (sq_buffer _ _ Hq1)|done|].
        split; [done|]. split; [by transitivity u1|]. split; [congruence|]. split; [congruence|].
        by rewrite (sq_buffer _ _ Hq1) in Hp.
      - destruct (Hstop u f start size done Hd) as (? & _ & _ & _ & Hp). split; [done|]. by split_and!. }
    destruct (bool_decide (e = EINTR) && negb (w_shutdown w)).
    { intros Hrun. apply (Hgo u tryAgain); [done|by left]. }
    destruct e; try (intros Hrun; apply (Hgo u tryAgain); [done|by right]).
    1, 2: destruct (tryAgain && w_ensureSpace w); intros Hrun; (apply (Hgo u false); [done|auto]).
    all: set (u1 := up_set_image u _); destruct (reopenCacheFd_same w u1 true) as (Hq1 & Hm1 & Hc1).
    all: destruct tryAgain; [|intros Hrun; apply (Hgo u1 false); [done|by right]].
    all: destruct (reopenCacheFd w u1 true) as [ok u2]; cbn [snd] in *.
    all: assert (Hq2 : same_queue u u2) by (by transitivity u1).
    all: destruct ok; intros Hrun; (apply (Hgo u2 false); [done|auto]).
Qed.

(** The loop ends: of the results that are not an interruption it needs at most one
    per byte and one for the retry. *)
Lemma writeLoop_total w script : forall u f start size done (tryAgain : bool),
  0 <= done <= size ->
  size - done + (if tryAgain then 1 else 0)
    <= Z.of_nat (length (List.filter (fun r => match r with WErr EINTR => false | _ => true end) script)) ->
  is_Some (writeLoop w script u f start size done tryAgain).
Proof.
  induction script as [|r script IH]; intros u f start size done tryAgain Hd Hlen; cbn [writeLoop List.filter length] in *.
  { destruct (Z.leb_spec size done); [by eexists|]. cbn in Hlen. destruct tryAgain; lia. }
  destruct (Z.leb_spec size done); [by eexists|]. destruct r as [n|e].
  - destruct (Z.leb_spec n 0); [by eexists|]. destruct (Z.ltb_spec (size - done) n); cbn [orb]; [by eexists|].
    apply IH; [lia|]. cbn [length] in Hlen. lia.
  - destruct (bool_decide_reflect (e = EINTR)) as [->|Hne]; cbn [andb].
    + destruct (negb (w_shutdown w)); [by apply IH|by eexists].
    + destruct e; try done; cbn [length] in Hlen; try by eexists.
      1, 2: destruct tryAgain; cbn [andb]; [|by eexists]; destruct (w_ensureSpace w); [|by eexists]; apply IH; lia.
      all: destruct tryAgain; [|by eexists]; destruct (reopenCacheFd _ _ _) as [[] ?]; [|by eexists]; apply IH; lia.
Qed.

(** ** Consistency of the cache

    [truth] is the content of the image on the uplink server. *)

(** Every block recorded as cached is in the file. *)
Definition consistent (truth f : file) (image : dnbd3_image_t) : Prop :=
  forall b, 0 <= b < num_blocks image -> is_cached image b = true ->
  forall p, 4096 * b <= p < 4096 * (b + 1) -> f p = truth p.

Definition truth_bytes (truth : file) (from n : Z) : list Z := map truth (seqZ from n).

Lemma length_truth_bytes truth from n : 0 <= n -> Z.of_nat (length (truth_bytes truth from n)) = n.
Proof. intros. unfold truth_bytes. rewrite length_map, length_seqZ. lia. Qed.

Lemma lookup_truth_bytes truth from n i :
  0 <= i < n -> truth_bytes truth from n !! Z.to_nat i = Some (truth (from + i)).
Proof.
  intros Hi. unfold truth_bytes. rewrite list_lookup_fmap, lookup_seqZ_lt by lia. cbn. do 2 f_equal. lia.
Qed.

(** A slice of the payload is the content of that range. *)
Lemma truth_slice truth start size rest from n :
  start <= from -> 0 <= n -> from + n <= start + size ->
  take (Z.to_nat n) (drop (Z.to_nat (from - start)) (truth_bytes truth start size ++ rest)) = truth_bytes truth from n.
Proof.
  intros Hf Hn Hle. pose proof (length_truth_bytes truth start size ltac:(lia)).
  pose proof (length_truth_bytes truth from n Hn). apply list_eq. intros i.
  destruct (decide (i < Z.to_nat n)%nat) as [Hi|Hi].
  - rewrite lookup_take_lt, lookup_drop, lookup_app_l by lia.
    replace (Z.to_nat (from - start) + i)%nat with (Z.to_nat (from - start + Z.of_nat i)) by lia.
    rewrite lookup_truth_bytes by lia. rewrite <- (Nat2Z.id i), lookup_truth_bytes by lia. f_equal. f_equal. lia.
  - rewrite (lookup_ge_None_2 (truth_bytes truth from n)) by lia. apply lookup_ge_None_2.
    rewrite length_take. lia.
Qed.

Lemma image_wf_problem p image : image_wf image -> image_wf (img_set_problem p image).
Proof. by intros []; split. Qed.

(** The image of an uplink whose queue and sizes stayed. *)
Lemma same_queue_image u u' :
  same_queue u u' -> img_cacheMap (up_image u') = img_cacheMap (up_image u) ->
  image_wf (up_image u) -> image_wf (up_image u') /\ forall b, is_cached (up_image u') b = is_cached (up_image u) b.
Proof.
  intros Hq Hm []. split; [split; rewrite ?(sq_real _ _ Hq), ?(sq_vfs _ _ Hq), ?Hm; done|].
  intros b. unfold is_cached. by rewrite Hm.
Qed.

Section Store.
Context (w : world) (script : list wres) (truth f : file) (u : dnbd3_uplink_t) (start size : Z).
Hypothesis Himg : image_wf (up_image u).
Hypothesis Hstart : 0 <= start.
Hypothesis Hsize : 0 <= size <= Z.of_nat (length (up_recvBuffer u)).
Hypothesis Hend : start + size <= img_virtualFilesize (up_image u).
Hypothesis Hscript : size + 1
  <= Z.of_nat (length (List.filter (fun r => match r with WErr EINTR => false | _ => true end) script)).

Lemma storePayload_spec junk :
  exists u' f' checks, storePayload w script junk u f start size = Ok (Some (u', f', checks))
    /\ same_queue u u' /\ image_wf (up_image u')
    /\ ((forall p, start <= p < start + size -> up_recvBuffer u !!! Z.to_nat (p - start) = truth p) ->
        consistent truth f (up_image u) -> consistent truth f' (up_image u')).
Proof.
  unfold storePayload. set (u1 := if up_cacheFd u =? -1 then _ else u).
  assert (H1 : same_queue u u1 /\ img_cacheMap (up_image u1) = img_cacheMap (up_image u)).
  { unfold u1. destruct (_ =? -1); [|done]. by destruct (reopenCacheFd_same w u false) as (? & ? & _). }
  destruct H1 as [Hq1 Hm1]. destruct (same_queue_image u u1 Hq1 Hm1 Himg) as [Himg1 Hc1].
  assert (Hnb1 : num_blocks (up_image u1) = num_blocks (up_image u)).
  { unfold num_blocks. by rewrite (sq_vfs _ _ Hq1). }
  assert (Hcons1 : forall f', (forall p, f' p = f p) -> consistent truth f (up_image u) ->
    consistent truth f' (up_image u1)).
  { intros f' Hf Hcons b Hb Hcached p Hp. rewrite Hf. rewrite Hc1 in Hcached. rewrite Hnb1 in Hb. by eapply Hcons. }
  destruct (Z.eqb_spec (up_cacheFd u1) (-1)); [by exists u1, f, []; split_and!; auto|].
  destruct (writeLoop_total w script u1 f start size 0 true ltac:(lia) ltac:(lia)) as [[[u2 f2] done] Hrun].
  rewrite Hrun.
  destruct (writeLoop_spec w script u1 f start size 0 true u2 f2 done ltac:(lia)
    ltac:(rewrite (sq_buffer _ _ Hq1); lia) Hrun) as (Hd & Hq2 & Hm2 & _ & Hp).
  destruct (same_queue_image u1 u2 Hq2 Hm2 Himg1) as [Himg2 Hc2].
  assert (Hq : same_queue u u2) by (by transitivity u1). rewrite (sq_buffer _ _ Hq1) in Hp.
  destruct (Z.ltb_spec 0 done).
  2: { exists u2, f2, []. split_and!; try done. intros _ Hcons b Hb Hcached p Hpb. rewrite Hc2 in Hcached.
       unfold num_blocks in Hb. rewrite (sq_vfs _ _ Hq2) in Hb. apply (Hcons1 f2) in Hcons; [by eapply Hcons|].
       intros q. rewrite Hp. destruct (Z.leb_spec (start + 0) q), (Z.ltb_spec q (start + done)); done || lia. }
  pose proof (wf_limit _ Himg). rewrite u64_id by crange. pose proof (sq_vfs _ _ Hq) as Hv2.
  destruct (image_updateCachemap_spec junk (up_image u2) start (start + done) true Himg2)
    as (image' & checks & Hup & Himg' & Hb' & _); [lia|lia|].
  rewrite Hup. cbn [mbind result_bind]. destruct (updateCachemap_sizes _ _ _ _ _ _ _ Hup) as (Hv' & Hr' & _).
  eexists _, f2, checks. split; [done|]. split; [|split; [done|]].
  { transitivity u2; [done|]. by split. }
  intros Hpay Hcons b Hb Hcached p Hpb. cbn in Hb, Hcached. rewrite Hp.
  unfold num_blocks in Hb. rewrite Hv' in Hb. rewrite Hb' in Hcached by done. rewrite Hv2 in Hb.
  destruct (Z.leb_spec (start + 0) p), (Z.ltb_spec p (start + done)); cbn [andb]; [apply Hpay; lia|..].
  all: cbn [upd] in Hcached; apply orb_true_iff in Hcached as [Hold|Hcov%covered_iff];
    [apply (Hcons b Hb); [by rewrite <- Hc1, <- Hc2|done]|].
  all: unfold first_block, end_block in Hcov; pose proof (round_up_bounds start); pose proof (round_down_bounds (start + done)); lia.
Qed.
End Store.

(** *** What receiving leaves alone *)

Lemma map_bytes_512 : MAP_BYTES_PER_HASH_BLOCK = 512.
Proof. reflexivity. Qed.

Lemma hash_start i : i .& MAP_INDEX_HASH_START_MASK = 512 * (i / 512).
Proof.
  unfold MAP_INDEX_HASH_START_MASK. rewrite map_bytes_512. change (512 - 1) with (Z.ones 9).
  change (Z.land i (Z.lnot (Z.ones 9))) with (Z.ldiff i (Z.ones 9)).
  rewrite Z.ldiff_ones_r by lia. rewrite Z.shiftr_div_pow2, Z.shiftl_mul_pow2 by lia. change (2 ^ 9) with 512. lia.
Qed.

Lemma block_bounds x : 512 * (x / 512) <= x < 512 * (x / 512) + 512.
Proof. pose proof (Z.div_mod x 512 ltac:(lia)). pose proof (Z.mod_pos_bound x 512 ltac:(lia)). lia. Qed.

(** The connections and the flag that stops the uplink. *)
Definition conns (u : dnbd3_uplink_t) := (up_current u, up_better u, up_rttTestResult u, up_shutdown u).

Lemma conns_writeLoop w script : forall u f start size dn tryAgain u' f' dn',
  writeLoop w script u f start size dn tryAgain = Some (u', f', dn') -> conns u' = conns u /\ up_nextReplicationIndex u' = up_nextReplicationIndex u.
Proof.
  induction script as [|[n|e] script IH]; intros u f start size dn tryAgain u' f' dn'; cbn [writeLoop];
    (destruct (size <=? dn); [by intros [= <- <- <-]|]); [done|..].
  - destruct (_ || _); [by intros [= <- <- <-]|]. apply IH.
  - destruct (_ && _); [apply IH|].
    assert (forall x, conns x = conns u /\ up_nextReplicationIndex x = up_nextReplicationIndex u ->
      writeLoop w script x f start size dn false = Some (u', f', dn') -> conns u' = conns u /\ up_nextReplicationIndex u' = up_nextReplicationIndex u) as Hgo.
    { intros x [E1 E2] [E3 E4]%IH. split; congruence. }
    destruct e; try (by intros [= <- <- <-]); try (destruct (_ && _); [by apply Hgo|by intros [= <- <- <-]]).
    all: destruct tryAgain; [|by intros [= <- <- <-]]; unfold reopenCacheFd; cbn [negb andb]; rewrite andb_false_r;
      destruct (negb _); [by apply Hgo|by intros [= <- <- <-]].
Qed.
Lemma conns_storePayload w script junk u f start size u' f' checks :
  storePayload w script junk u f start size = Ok (Some (u', f', checks)) -> conns u' = conns u /\ up_nextReplicationIndex u' = up_nextReplicationIndex u.
Proof.
  unfold storePayload. set (u1 := if up_cacheFd u =? -1 then _ else u).
  assert (conns u1 = conns u /\ up_nextReplicationIndex u1 = up_nextReplicationIndex u) as [E1 N1].
  { unfold u1. destruct (up_cacheFd u =? -1); [|done]. unfold reopenCacheFd. by destruct (_ && _). }
  clearbody u1. destruct (_ =? -1); [by intros [= <- <- <-]|].
  destruct (writeLoop _ _ _ _ _ _ _ _) as [[[u2 f2] dn]|] eqn:Ew; [|done]. apply conns_writeLoop in Ew as [E2 N2].
  destruct (0 <? dn); [|intros [= <- <- <-]; split; congruence].
  destruct (image_updateCachemap _ _ _ _ _) as [[i c]|]; cbn [mbind result_bind]; [|done]. intros [= <- <- <-]. cbn. split; [|congruence].
  by rewrite <- E1, <- E2.
Qed.
(** The index for replication stays in the map, or -1. *)
Definition next_ok (u : dnbd3_uplink_t) : Prop :=
  -1 <= up_nextReplicationIndex u <= (img_virtualFilesize (up_image u) + 32767) / 32768.
Lemma conns_finishEntry u handle u' answers : finishEntry u handle = Ok (u', answers) -> conns u' = conns u.
Proof.
  unfold finishEntry. destruct (takeEntry u handle) as [u1 found] eqn:Ht.
  assert (conns u1 = conns u) as E1 by (unfold takeEntry in Ht; repeat case_match; by simplify_eq).
  destruct found as [e|]; [|by intros [= <- <-]]. destruct (answerClients _ _ _ _); cbn [mbind result_bind]; [|done].
  by destruct (qe_clients e); intros [= <- <-].
Qed.
Lemma next_finishEntry u handle u' answers :
  uplink_wf u -> finishEntry u handle = Ok (u', answers) -> next_ok u -> next_ok u'.
Proof.
  intros Hwf. unfold finishEntry. destruct (takeEntry u handle) as [u1 [e|]] eqn:Ht; pose proof Ht as Ht0;
    apply takeEntry_spec in Ht as (_ & Hs & Hrest); try done;
    (assert (up_nextReplicationIndex u1 = up_nextReplicationIndex u) as N1 by
      (unfold takeEntry in Ht0; repeat case_match; by simplify_eq)).
  - destruct Hrest as (_ & Hok & _ & Hp). destruct (answerClients _ _ _ _); cbn [mbind result_bind]; [|done]. intros Hr [Hn1 Hn2].
    assert (next_ok u1) as Hn by (unfold next_ok; by rewrite N1, (sr_vfs _ _ Hs)).
    destruct (qe_clients e); injection Hr as <- <-; [done|]. unfold next_ok. cbn.
    destruct (Z.eqb_spec (up_nextReplicationIndex u1) (-1)); [|exact Hn].
    assert (e ∈ up_queue u) as He by (rewrite Hp; by left). apply list_elem_of_lookup in He as [i Hi].
    pose proof (queue_wf_lookup _ _ _ _ _ (uw_queue _ Hwf) Hi) as Hok'. pose proof (eo_range _ _ _ Hok') as Hr. pose proof (uw_size _ Hwf).
    rewrite (sr_vfs _ _ Hs). unfold FILE_BYTES_PER_MAP_BYTE, DNBD3_BLOCK_SIZE. change (4096 * 8) with 32768.
    assert (0 <= qe_from e / 32768 <= img_virtualFilesize (up_image u) / 32768) as Hd by (split; [apply Z.div_pos; lia|apply Z.div_le_mono; lia]).
    assert (img_virtualFilesize (up_image u) / 32768 <= (img_virtualFilesize (up_image u) + 32767) / 32768) by (apply Z.div_le_mono; lia).
    assert (img_virtualFilesize (up_image u) / 32768 < 2 ^ 31) by (apply Z.div_lt_upper_bound; lia).
    rewrite i32_id by crange. rewrite hash_start. pose proof (block_bounds (qe_from e / 32768)). pose proof (Z.div_pos (qe_from e / 32768) 512). lia.
  - intros [= <- <-] [Hn1 Hn2]. unfold next_ok. by rewrite N1, (sr_vfs _ _ Hs).
Qed.

(** A reply to a queued request that carries the content of its range. *)
Definition honest (truth : file) (q : list dnbd3_queue_entry_t) (r : recv) : Prop :=
  match r with
  | Reply cmd size handle payload =>
      0 <= size /\ forall e, e ∈ q -> qe_handle e = handle ->
      size = qe_to e - qe_from e /\ (Z.of_nat (length payload) = size -> payload = truth_bytes truth (qe_from e) size)
  | _ => True
  end.

Definition good_answer (truth : file) (a : answer) : Prop :=
  ans_data a = Some (truth_bytes truth (qc_from (ans_client a)) (qc_to (ans_client a) - qc_from (ans_client a))).

(** Enough results of [pwrite] for one payload. *)
Definition enough (cfg : config) (script : list wres) : Prop :=
  _maxPayload cfg + 1
  <= Z.of_nat (length (List.filter (fun r => match r with WErr EINTR => false | _ => true end) script)).

(** What receiving keeps and what it does to the requests. *)
Record received (truth : file) (u : dnbd3_uplink_t) (f : file) (u' : dnbd3_uplink_t) (f' : file)
    (answers : list answer) : Prop := {
  rc_wf : uplink_wf u';
  rc_image : image_wf (up_image u');
  rc_queue : forall e, e ∈ up_queue u' -> e ∈ up_queue u;
  rc_pending : pending (up_queue u) ≡ₚ pending (up_queue u') ++ answered answers;
  rc_answers : Forall (good_answer truth) answers;
  rc_file : consistent truth f (up_image u) -> consistent truth f' (up_image u');
  rc_conns : conns u' = conns u;
  rc_next : next_ok u -> next_ok u';
  rc_id : up_queueId u' = up_queueId u;
}.

Lemma received_same truth u u' f :
  uplink_wf u -> image_wf (up_image u) -> up_queue u' = up_queue u -> up_queueLen u' = up_queueLen u ->
  up_queueId u' = up_queueId u -> up_image u' = up_image u -> conns u' = conns u ->
  up_nextReplicationIndex u' = up_nextReplicationIndex u -> received truth u f u' f [].
Proof.
  intros [] Hi Hq Hl Hid Himg Hc Hn. split; rewrite ?Hq, ?Himg, ?app_nil_r; try done.
  - by split; rewrite ?Hq, ?Hl, ?Hid, ?Himg.
  - unfold next_ok. by rewrite Hn, Himg.
Qed.

Section Receive.
Context (cfg : config) (w : world) (junk : Z) (truth : file).

Lemma receiveOne_spec script r u f :
  uplink_wf u -> image_wf (up_image u) -> honest truth (up_queue u) r -> enough cfg script ->
  exists o u' f' answers, receiveOne cfg w script junk r u f = Ok (Some (o, u', f', answers))
    /\ received truth u f u' f' answers.
Proof.
  intros Hwf Himg Hhon Hen.
  destruct r as [| | | | |cmd size handle payload]; cbn [receiveOne];
    try (eexists _, u, f, []; split; [done|by apply received_same]).
  destruct Hhon as [Hsz Hhon]. destruct (Z.ltb_spec (_maxPayload cfg) size);
    [eexists _, u, f, []; split; [done|by apply received_same]|].
  set (u1 := receivePayload cfg junk u size payload).
  assert (Hbuf : exists rest, up_recvBuffer u1 = payload ++ rest) by (by eexists).
  destruct (Z.eqb_spec (Z.of_nat (length payload)) size) as [Hlen|]; cbn [negb];
    [|eexists _, u1, f, []; split; [done|by apply received_same]].
  destruct (negb (cmd =? CMD_GET_BLOCK)); [eexists _, u1, f, []; split; [done|by apply received_same]|].
  set (u2 := up_set_recv u1 _ _ _).
  destruct (findEntry u2 handle) as [[i e]|] eqn:Hf;
    [|eexists _, u2, f, []; split; [done|by apply received_same]].
  apply list_find_Some in Hf as (Hi & Hh & _).
  assert (He : e ∈ up_queue u) by (by apply list_elem_of_lookup_2 in Hi).
  destruct (Hhon e He Hh) as [Hse Hpay]. specialize (Hpay Hlen).
  destruct Hbuf as [rest Hbuf]. change (up_recvBuffer u1) with (up_recvBuffer u2) in Hbuf.
  assert (Hwf2 : uplink_wf u2) by (by destruct Hwf; split).
  pose proof (queue_wf_lookup _ _ _ _ _ (uw_queue _ Hwf2) Hi) as Hok. destruct (eo_range _ _ _ Hok) as [Hr1 Hr2].
  assert (Hblen : size <= Z.of_nat (length (up_recvBuffer u2))) by (rewrite Hbuf, length_app; lia).
  unfold enough in Hen.
  destruct (storePayload_spec w script truth f u2 (qe_from e) size) with (junk := (false, false))
    as (u3 & f3 & checks & Hst & Hq3 & Himg3 & Hcons3); [done|lia|lia|lia|lia|].
  rewrite Hst. apply conns_storePayload in Hst as [Hc3 Hn3].
  cbn [mbind result_bind]. pose proof (same_queue_wf _ _ Hq3 Hwf2) as Hwf3.
  assert (Hb3 : up_recvBuffer u3 = truth_bytes truth (qe_from e) size ++ rest).
  { rewrite (sq_buffer _ _ Hq3), Hbuf. by rewrite <- Hpay. }
  destruct (finishEntry_spec u3 handle Hwf3) as (u4 & answers & Hfin & Hwf4 & Hs4 & Hid4 & Hp4 & Ha4 & Hq4).
  { intros e' He' Hh'. rewrite (sq_queue _ _ Hq3) in He'. destruct (Hhon e' He' Hh') as [<- _].
    by rewrite (sq_buffer _ _ Hq3). }
  rewrite Hfin. pose proof (next_finishEntry u3 handle u4 answers Hwf3 Hfin) as Hfn. apply conns_finishEntry in Hfin.
  cbn [mbind result_bind]. eexists _, u4, f3, answers. split; [done|]. split.
  - done.
  - assert (Hv : img_virtualFilesize (up_image u4) = img_virtualFilesize (up_image u3)) by apply Hs4.
    destruct Himg3. split; rewrite ?Hv, ?(sr_map _ _ Hs4), ?(sr_real _ _ Hs4); done.
  - intros e' He'. apply Hq4 in He' as [He' _]. by rewrite (sq_queue _ _ Hq3) in He'.
  - change (up_queue u) with (up_queue u2). by rewrite <- (sq_queue _ _ Hq3).
  - rewrite (Ha4 e); [|by rewrite (sq_queue _ _ Hq3)|done]. apply List.Forall_map.
    eapply list.Forall_impl; [apply (eo_clients _ _ _ Hok)|]. intros c (H1 & H2 & H3).
    unfold good_answer, client_answer. cbn. f_equal. rewrite Hb3. apply truth_slice; lia.
  - intros Hcons b Hb Hcached. unfold is_cached in Hcached. rewrite (sr_map _ _ Hs4) in Hcached.
    unfold num_blocks in Hb. rewrite (sr_vfs _ _ Hs4) in Hb.
    apply Hcons3; [|done|done|done]. intros p Hp. rewrite Hbuf, Hpay, lookup_total_app_l
      by (pose proof (length_truth_bytes truth (qe_from e) size); lia).
    rewrite (list_lookup_total_correct _ _ (truth p)); [done|]. rewrite lookup_truth_bytes by lia. f_equal. f_equal. lia.
  - by rewrite Hfin, Hc3.
  - intros Hn. apply Hfn. unfold next_ok in *. by rewrite Hn3, (sq_vfs _ _ Hq3).
  - by rewrite Hid4, (sq_id _ _ Hq3).
Qed.

Lemma received_trans u1 f1 u2 f2 u3 f3 a12 a23 :
  received truth u1 f1 u2 f2 a12 -> received truth u2 f2 u3 f3 a23 -> received truth u1 f1 u3 f3 (a12 ++ a23).
Proof.
  intros [? ? Hq1 Hp1 Ha1 Hf1 ? ? ?] [? ? Hq2 Hp2 Ha2 Hf2 ? ? ?]. split; auto.
  - rewrite Hp1, Hp2. unfold answered. rewrite map_app. solve_Permutation.
  - by apply Forall_app.
  - congruence.
  - congruence.
Qed.

Lemma honest_subset q q' r : (forall e, e ∈ q' -> e ∈ q) -> honest truth q r -> honest truth q' r.
Proof. intros Hsub. destruct r; cbn; try done. intros [? H]. split; [done|]. auto. Qed.

(** The loop ends when the socket has no more data, and keeps everything. *)
Lemma receiveLoop_spec input last u f :
  uplink_wf u -> image_wf (up_image u) ->
  Forall (fun x => honest truth (up_queue u) x.1 /\ enough cfg x.2) input -> enough cfg last ->
  exists ok u' f' answers,
    receiveLoop cfg w junk (input ++ [(ReplyAgain, last)]) u f = Ok (Some (ok, u', f', answers))
    /\ received truth u f u' f' answers.
Proof.
  intros Hwf Himg Hin Hlast. revert u f Hwf Himg Hin.
  induction input as [|[r script] input IH]; intros u f Hwf Himg Hin; cbn [app receiveLoop].
  { destruct (receiveOne_spec last ReplyAgain u f Hwf Himg I Hlast) as (o & u' & f' & answers & Hone & Hr).
    cbn in Hone. injection Hone as <- <- <- <-. cbn. by eexists _, _, _, _. }
  inversion_clear Hin as [|? ? [Hh Hs] Hin']. cbn in Hh, Hs.
  destruct (receiveOne_spec script r u f Hwf Himg Hh Hs) as (o & u1 & f1 & a1 & -> & Hr1).
  cbn [mbind result_bind]. destruct o; [by eexists _, _, _, _..|].
  destruct (IH u1 f1 (rc_wf _ _ _ _ _ _ Hr1) (rc_image _ _ _ _ _ _ Hr1)) as (ok & u2 & f2 & a2 & -> & Hr2).
  { eapply list.Forall_impl; [exact Hin'|]. intros y [Hy ?]. split; [|done].
    eapply honest_subset; [apply (rc_queue _ _ _ _ _ _ Hr1)|done]. }
  cbn [mbind result_bind]. eexists _, _, _, _. split; [done|]. by eapply received_trans.
Qed.
End Receive.
