(* ===== verification/UplinkTrace.v ===== *)
(** * UplinkTrace: every accepted request is answered exactly once

    Client threads, the uplink thread and threads that drop clients all work on the
    queue of an uplink; each holds the queue lock for one of the operations of
    [Uplink] and releases it in between.  [ustep] is one such operation, [utrace]
    any interleaving of them. *)

From S2P Require Import Prelude Timing Types CacheMap Uplink UplinkIO.

Section Trace.
Context (cfg : config).

(** [ustep u accepted answers u']: the client requests accepted and the callbacks
    called by the step. *)
Inductive ustep : dnbd3_uplink_t -> list dnbd3_queue_client_t -> list answer -> dnbd3_uplink_t -> Prop :=
| us_queue u data callback handle start length hops rstart rend u' p :
    0 <= start -> 0 <= length <= _maxPayload cfg -> start + length <= img_virtualFilesize (up_image u) ->
    up_queueId u < 2 ^ 64 - 2 ->
    requestRange cfg (up_image u) callback start length = (rstart, rend) ->
    queueRequest cfg u data callback handle start length (requestHops cfg callback hops) rstart rend = Some (u', p) ->
    ustep u (with_client data callback handle start length []) [] u'
| us_unsent u handle : ustep u [] [] (markRequestUnsent u handle)
| us_resend u newOnly sendAll u' out :
    sendQueuedRequests u newOnly sendAll = Ok (u', out) -> ustep u [] [] u'
| us_remove u data callback u' answers :
    uplink_removeEntry u data callback = (u', answers) -> ustep u [] answers u'
| us_shutdown u : ustep u [] [] (up_set_shutdown u true)
| us_cancel u u' answers : cancelAllRequests u = (u', answers) -> ustep u [] answers u'
| us_payload u junk size payload : ustep u [] [] (receivePayload cfg junk u size payload)
| us_finish u handle u' answers : finishEntry u handle = Ok (u', answers) -> ustep u [] answers u'.

Inductive utrace : dnbd3_uplink_t -> list dnbd3_queue_client_t -> list answer -> dnbd3_uplink_t -> Prop :=
| ut_nil u : utrace u [] [] u
| ut_cons u acc1 ans1 u1 acc2 ans2 u2 :
    ustep u acc1 ans1 u1 -> utrace u1 acc2 ans2 u2 -> utrace u (acc1 ++ acc2) (ans1 ++ ans2) u2.

Hypothesis Hcfg : config_ok cfg.

Lemma answerClients_clients buf start end_ cs answers :
  answerClients buf start end_ cs = Ok answers -> answered answers = cs.
Proof.
  revert answers. induction cs as [|c cs IH]; intros answers; cbn [answerClients]; [by intros [= <-]|].
  destruct (assert_ _); cbn [mbind result_bind]; [|done].
  destruct (slice _ _ _); cbn [mbind result_bind]; [|done].
  destruct (answerClients buf start end_ cs) as [more|]; cbn [mbind result_bind]; [|done].
  intros [= <-]. cbn. f_equal. by apply IH.
Qed.

Lemma finishEntry_account u handle u' answers :
  uplink_wf u -> finishEntry u handle = Ok (u', answers) ->
  uplink_wf u' /\ up_shutdown u' = up_shutdown u
  /\ pending (up_queue u) ≡ₚ pending (up_queue u') ++ answered answers.
Proof.
  intros Hwf. unfold finishEntry. destruct (takeEntry u handle) as [u1 [e|]] eqn:Ht.
  - destruct (takeEntry_spec u handle u1 _ Hwf Ht) as (Hwf1 & Hs1 & _ & _ & _ & Hp).
    destruct (answerClients _ _ _ _) as [ans|] eqn:Ha; cbn [mbind result_bind]; [|done].
    apply answerClients_clients in Ha.
    assert (Hp' : pending (up_queue u) ≡ₚ pending (up_queue u1) ++ answered ans).
    { rewrite Ha, Hp, pending_cons. apply Permutation_app_comm. }
    destruct (qe_clients e); intros [= <- <-].
    + split; [done|]. by split; [apply Hs1|].
    + split; [by destruct Hwf1; split|]. by split; [apply Hs1|].
  - destruct (takeEntry_spec u handle u1 _ Hwf Ht) as (Hwf1 & Hs1 & _ & Hq & _). intros [= <- <-].
    split; [done|]. split; [apply Hs1|]. by rewrite Hq, app_nil_r.
Qed.

Lemma with_client_nil data callback handle start length before :
  with_client data callback handle start length before
  = with_client data callback handle start length [] ++ before.
Proof. unfold with_client. by destruct (_ =? _). Qed.

(** One operation accounts for every request, and refuses requests once the
    shutdown flag is set. *)
Lemma ustep_account u acc ans u' :
  uplink_wf u -> ustep u acc ans u' ->
  uplink_wf u' /\ pending (up_queue u') ++ answered ans ≡ₚ acc ++ pending (up_queue u)
  /\ (up_shutdown u = true -> up_shutdown u' = true /\ acc = []).
Proof.
  intros Hwf. destruct 1 as [u data callback handle start length hops rstart rend u' p Hs Hl He Hid Hrange Hq
    |u handle|u newOnly sendAll u' out Hr|u data callback u' ans Hr|u|u u' ans Hc|u junk size payload|u handle u' ans Hf].
  - pose proof (co_payload _ Hcfg).
    pose proof (requestRange_covers cfg Hcfg u Hwf callback start length Hs ltac:(lia) He rstart rend ltac:(lia) Hrange) as Hcov.
    destruct (queueRequest_spec cfg Hcfg u Hwf data callback handle start length Hs ltac:(lia) He Hid
      _ rstart rend u' p Hcov Hq) as (Hwf' & _ & Hp & _).
    split; [done|]. split; [rewrite Hp, with_client_nil, app_nil_r; done|].
    intros Hsd. unfold queueRequest in Hq. by rewrite Hsd in Hq.
  - destruct (markRequestUnsent_spec u Hwf handle) as (Hwf' & Hsr & Hp & _).
    split; [done|]. split; [by rewrite Hp, app_nil_r|]. intros Hsd. by rewrite (sr_shutdown _ _ Hsr).
  - destruct (sendQueuedRequests_spec u newOnly sendAll Hwf) as (u1 & out1 & Hr1 & Hwf' & Hsr & _ & Hp & _).
    rewrite Hr in Hr1. injection Hr1 as <- <-.
    split; [done|]. split; [by rewrite Hp, app_nil_r|]. intros Hsd. by rewrite (sr_shutdown _ _ Hsr).
  - destruct (uplink_removeEntry_spec u data callback u' ans Hwf Hr) as (Hwf' & Hsr & _ & Hp & _).
    split; [done|]. split; [by rewrite Hp|]. intros Hsd. by rewrite (sr_shutdown _ _ Hsr).
  - split; [by destruct Hwf; split|]. split; [by rewrite app_nil_r|done].
  - destruct (cancelAllRequests_spec u u' ans Hwf Hc) as (Hwf' & Hsr & _ & Hq & Hp & _).
    split; [done|]. split; [by rewrite Hq, Hp|]. intros Hsd. by rewrite (sr_shutdown _ _ Hsr).
  - split; [by destruct Hwf; split|]. split; [by rewrite app_nil_r|done].
  - destruct (finishEntry_account u handle u' ans Hwf Hf) as (Hwf' & Hsd & Hp).
    split; [done|]. split; [by rewrite Hp|]. intros. by rewrite Hsd.
Qed.

Lemma utrace_account u acc ans u' :
  utrace u acc ans u' -> uplink_wf u ->
  uplink_wf u' /\ pending (up_queue u') ++ answered ans ≡ₚ acc ++ pending (up_queue u)
  /\ (up_shutdown u = true -> up_shutdown u' = true /\ acc = []).
Proof.
  induction 1 as [u|u acc1 ans1 u1 acc2 ans2 u2 Hstep _ IH]; intros Hwf; [by rewrite app_nil_r|].
  destruct (ustep_account u acc1 ans1 u1 Hwf Hstep) as (Hwf1 & Hp1 & Hs1).
  destruct (IH Hwf1) as (Hwf2 & Hp2 & Hs2). split; [done|]. split.
  - unfold answered in *. rewrite map_app, (Permutation_app_comm (map _ ans1)), app_assoc, Hp2.
    rewrite <- !app_assoc, Hp1. solve_Permutation.
  - intros Hsd. destruct (Hs1 Hsd) as [Hsd1 ->]. by destruct (Hs2 Hsd1) as [? ->].
Qed.
End Trace.

(** ** A concrete uplink *)

Definition demo_config : config := Config 8192 0 65536 BGR_FULL 0 1 false.

Lemma demo_config_ok : config_ok demo_config.
Proof. by split; cbn. Qed.

(** Connected, nothing queued yet. *)
Definition demo_uplink : dnbd3_uplink_t :=
  Uplink (Conn 5 3 0) (Conn (-1) 0 0) RTT_IDLE 4 [] false false false 0 0 0 0 [] 0 demo_image.

Lemma demo_uplink_wf : uplink_wf demo_uplink.
Proof. split; cbn; try lia; [split; constructor|done]. Qed.

(** Client 9 asks for the bytes 100 to 300. *)
Definition demo_request : result (bool * dnbd3_uplink_t * list packet) :=
  uplink_requestInternal demo_config (fun _ => true) demo_uplink 9 1 77 100 200 0.
Definition demo_queued : dnbd3_uplink_t :=
  match demo_request with Ok (_, u, _) => u | Fault _ => demo_uplink end.
Definition demo_entry : dnbd3_queue_entry_t := QueueEntry 1 0 4096 [QueueClient 9 77 100 300 1] 1 true.
Definition demo_client : dnbd3_queue_client_t := QueueClient 9 77 100 300 1.

Lemma demo_queued_wf : uplink_wf demo_queued.
Proof.
  destruct (uplink_requestInternal_spec demo_config demo_config_ok (fun _ => true) demo_uplink demo_uplink_wf
    9 1 77 100 200 0) as (ok & u' & sent & Hrun & Hwf & _); [lia|lia|cbn; lia|cbn; lia|right; discriminate|].
  unfold demo_queued, demo_request. by rewrite Hrun.
Qed.

(** ** Theorems *)

(** A request through [uplink_requestInternal] for a range of the image never
    fails an assertion and keeps the queue well-formed (unique handles, the
    length counter exact, requests made of whole blocks inside the image, every
    client inside its request, at most 32 clients each).  If it is accepted,
    exactly the caller is added to the waiting clients; if it is refused, nothing
    changes and nothing is sent. *)
Theorem uplink_request_correct cfg send u data callback handle start length hops :
  config_ok cfg -> uplink_wf u -> 0 <= start -> 0 <= length < 2 ^ 32 ->
  start + length <= img_virtualFilesize (up_image u) -> up_queueId u < 2 ^ 64 - 2 ->
  (data = NULL \/ callback <> NULL) ->
  exists ok u' sent,
    uplink_requestInternal cfg send u data callback handle start length hops = Ok (ok, u', sent)
    /\ uplink_wf u'
    /\ (ok = true -> pending (up_queue u') ≡ₚ with_client data callback handle start length (pending (up_queue u)))
    /\ (ok = false -> u' = u /\ sent = []).
Proof.
  intros Hcfg Hwf Hs Hl He Hid Hcb.
  destruct (uplink_requestInternal_spec cfg Hcfg send u Hwf data callback handle start length hops Hs Hl He Hid Hcb)
    as (ok & u' & sent & Hrun & Hwf' & _ & _ & Hok & Hno). by exists ok, u', sent.
Qed.

Lemma uplink_request_correct_witness :
  exists ok u' sent,
    uplink_requestInternal demo_config (fun _ => true) demo_uplink 9 1 77 100 200 0 = Ok (ok, u', sent)
    /\ (ok = true -> pending (up_queue u') ≡ₚ [demo_client]).
Proof.
  destruct (uplink_request_correct demo_config (fun _ => true) demo_uplink 9 1 77 100 200 0)
    as (ok & u' & sent & Hrun & _ & Hok & _);
    [apply demo_config_ok|apply demo_uplink_wf|lia|lia|cbn; lia|cbn; lia|right; discriminate|].
  exists ok, u', sent. split; [exact Hrun|exact Hok].
Defined.

(** C2. Whatever the threads do with the queue and in whichever order, no request is
    lost or answered twice: the accepted requests are, up to order, those
    answered plus those waiting.  When the uplink is shut down the rest is
    answered, and after that no request is accepted and none is left. *)
Theorem every_request_answered_once cfg u acc1 ans1 u1 u2 ans2 acc3 ans3 u3 :
  config_ok cfg -> uplink_wf u -> up_queue u = [] ->
  utrace cfg u acc1 ans1 u1 ->
  shutdownQueue u1 = (u2, ans2) ->
  utrace cfg u2 acc3 ans3 u3 ->
  acc1 ≡ₚ answered ans1 ++ pending (up_queue u1)
  /\ acc3 = [] /\ answered (ans1 ++ ans2 ++ ans3) ≡ₚ acc1 /\ pending (up_queue u3) = [].
Proof.
  intros Hcfg Hwf Hq Ht1 Hsd Ht3.
  destruct (utrace_account cfg Hcfg _ _ _ _ Ht1 Hwf) as (Hwf1 & Hp1 & _). rewrite Hq, app_nil_r in Hp1.
  assert (Hwf1' : uplink_wf (up_set_shutdown u1 true)) by (by destruct Hwf1; split).
  destruct (cancelAllRequests_spec _ _ _ Hwf1' Hsd) as (Hwf2 & Hs2 & _ & Hq2 & Hp2 & _).
  destruct (utrace_account cfg Hcfg _ _ _ _ Ht3 Hwf2) as (_ & Hp3 & Hsd3).
  destruct Hsd3 as [_ ->]; [by rewrite (sr_shutdown _ _ Hs2)|]. rewrite Hq2 in Hp3.
  apply Permutation_nil_r, app_eq_nil in Hp3 as [Hq3 Ha3].
  split; [by rewrite <- Hp1, Permutation_app_comm|]. split; [done|]. split; [|done].
  unfold answered in *. rewrite !map_app, Ha3, app_nil_r, Hp2. cbn. by rewrite Permutation_app_comm.
Qed.

Lemma every_request_answered_once_witness :
  exists u1 u2 ans2, utrace demo_config demo_uplink [demo_client] [] u1
    /\ shutdownQueue u1 = (u2, ans2) /\ answered ans2 ≡ₚ [demo_client].
Proof.
  assert (Ht : utrace demo_config demo_uplink ([demo_client] ++ []) ([] ++ []) demo_queued).
  { eapply (ut_cons _ _ [demo_client]); [|apply ut_nil].
    eapply (us_queue demo_config demo_uplink 9 1 77 100 200 0); [lia|cbn; lia|cbn; lia|cbn; lia|reflexivity|reflexivity]. }
  destruct (shutdownQueue demo_queued) as [u2 ans2] eqn:Hsd.
  destruct (every_request_answered_once demo_config demo_uplink _ _ demo_queued u2 ans2 [] [] u2
    demo_config_ok demo_uplink_wf eq_refl Ht Hsd (ut_nil _ _)) as (_ & _ & Ha & _).
  exists demo_queued, u2, ans2. split; [exact Ht|]. split; [exact Hsd|].
  cbn [app] in Ha. rewrite app_nil_r in Ha. exact Ha.
Defined.

(** C3. With a server that answers requests with the content of their range, the
    receive loop of the uplink ends when the socket is drained, whatever the
    individual writes to the image file do; every client served gets exactly the
    bytes it asked for, every waiting client is either served or still waiting,
    the queue and the image stay well-formed, and a block is only recorded as
    cached when the file holds its content. *)
Theorem receive_correct cfg w junk truth input last u f :
  uplink_wf u -> image_wf (up_image u) ->
  Forall (fun x => honest truth (up_queue u) x.1 /\ enough cfg x.2) input -> enough cfg last ->
  exists ok u' f' answers,
    receiveLoop cfg w junk (input ++ [(ReplyAgain, last)]) u f = Ok (Some (ok, u', f', answers))
    /\ uplink_wf u' /\ image_wf (up_image u')
    /\ pending (up_queue u) ≡ₚ pending (up_queue u') ++ answered answers
    /\ Forall (good_answer truth) answers
    /\ (consistent truth f (up_image u) -> consistent truth f' (up_image u')).
Proof.
  intros Hwf Himg Hin Hlast.
  destruct (receiveLoop_spec cfg w junk truth input last u f Hwf Himg Hin Hlast)
    as (ok & u' & f' & answers & Hrun & [? ? ? ? ? ? ? ? ?]). by exists ok, u', f', answers.
Qed.

Definition demo_truth : file := fun p => p mod 256.
Definition demo_script : list wres := replicate (Z.to_nat 8193) (Wrote 4096).

Lemma receive_correct_witness :
  exists ok u' f' answers,
    receiveLoop demo_config (World false true 4) 0
      ([(Reply CMD_GET_BLOCK 4096 1 (truth_bytes demo_truth 0 4096), demo_script)] ++ [(ReplyAgain, demo_script)])
      demo_queued (fun _ => 0) = Ok (Some (ok, u', f', answers))
    /\ Forall (good_answer demo_truth) answers.
Proof.
  assert (Hen : enough demo_config demo_script) by (vm_compute; congruence).
  destruct (receive_correct demo_config (World false true 4) 0 demo_truth
    [(Reply CMD_GET_BLOCK 4096 1 (truth_bytes demo_truth 0 4096), demo_script)] demo_script demo_queued (fun _ => 0))
    as (ok & u' & f' & answers & Hrun & _ & _ & _ & Hgood & _).
  - apply demo_queued_wf.
  - exact demo_image_wf.
  - constructor; [split; [|exact Hen]|constructor]. split; [lia|]. intros e He Hh.
    apply list_elem_of_singleton in He as ->. split; [reflexivity|reflexivity].
  - exact Hen.
  - exists ok, u', f', answers. split; [exact Hrun|exact Hgood].
Defined.

(** [sendQueuedRequests] never writes past its 125 request buffer, sends no empty
    batch, and leaves the waiting clients alone; while the connection works, the
    batches together are exactly the (unsent) entries of the queue in order, and
    every entry is marked as sent. *)
Theorem sendQueuedRequests_correct u newOnly sendAll :
  uplink_wf u ->
  exists u' out, sendQueuedRequests u newOnly sendAll = Ok (u', out)
    /\ uplink_wf u' /\ pending (up_queue u') = pending (up_queue u)
    /\ Forall (fun b => (0 < length b)%nat /\ Z.of_nat (length b) <= MAX_RESEND_BATCH) out
    /\ (conn_fd (up_current u) <> -1 -> (forall b, sendAll b = true) ->
          concat out = map (entry_packet u) (List.filter (selected newOnly) (up_queue u))
          /\ Forall (fun e => qe_sent e = true) (up_queue u')).
Proof.
  intros Hwf. destruct (sendQueuedRequests_spec u newOnly sendAll Hwf)
    as (u' & out & Hrun & Hwf' & _ & _ & Hp & Hb & Hs). by exists u', out.
Qed.

Lemma sendQueuedRequests_correct_witness :
  exists u' out, sendQueuedRequests demo_queued false (fun _ => true) = Ok (u', out)
    /\ concat out = [Packet 0 4096 1 1].
Proof.
  destruct (sendQueuedRequests_correct demo_queued false (fun _ => true) demo_queued_wf)
    as (u' & out & Hrun & _ & _ & _ & Hs).
  exists u', out. split; [exact Hrun|]. destruct (Hs ltac:(discriminate) (fun _ => eq_refl)) as [-> _]. reflexivity.
Defined.

(** ** A reply that is too short

    [handleReceive] only logs a payload whose length differs from the request. *)

(** C40. A block reply that is shorter than the request it answers, on any well-formed uplink whose receive buffer is already as
    long as that request (and with every outcome of the writes to the cache file): it is accepted, the request leaves the queue,
    and every client waiting for it is served from the received bytes followed by whatever earlier replies left in
    the receive buffer; a client whose range lies behind the received bytes gets nothing but these old bytes. *)
Theorem short_reply_delivers_stale_data cfg w script junk u f e payload :
  uplink_wf u -> image_wf (up_image u) -> e ∈ up_queue u -> enough cfg script ->
  Z.of_nat (length payload) <= _maxPayload cfg -> Z.of_nat (length payload) < qe_to e - qe_from e ->
  qe_to e - qe_from e <= Z.of_nat (length (up_recvBuffer u)) ->
  exists u' f' answers,
    receiveOne cfg w script junk (Reply CMD_GET_BLOCK (Z.of_nat (length payload)) (qe_handle e) payload) u f
      = Ok (Some (RecvMore, u', f', answers))
    /\ (e ∉ up_queue u')
    /\ answers = map (client_answer (payload ++ drop (length payload) (up_recvBuffer u)) (qe_from e)) (qe_clients e)
    /\ (forall c, c ∈ qe_clients e -> Z.of_nat (length payload) <= qc_from c - qe_from e ->
          client_answer (up_recvBuffer u) (qe_from e) c ∈ answers).
Proof.
  intros Hwf Himg He Hen Hmax Hshort Hbuf. unfold receiveOne. destruct (Z.ltb_spec (_maxPayload cfg) (Z.of_nat (length payload))); [lia|].
  set (u1 := receivePayload cfg junk u _ payload).
  assert (up_recvBuffer u1 = payload ++ drop (length payload) (up_recvBuffer u)) as Hb1.
  { unfold u1, receivePayload. destruct (Z.ltb_spec (Z.of_nat (length (up_recvBuffer u))) (Z.of_nat (length payload))); [lia|done]. }
  rewrite Z.eqb_refl. cbn [negb]. change (CMD_GET_BLOCK =? CMD_GET_BLOCK) with true. cbn [negb]. set (u2 := up_set_recv u1 _ _ _).
  assert (uplink_wf u2) as Hwf2 by (by destruct Hwf; split). change (up_recvBuffer u1) with (up_recvBuffer u2) in Hb1.
  assert (forall e', e' ∈ up_queue u -> qe_handle e' = qe_handle e -> e' = e) as Huniq.
  { apply elem_of_Permutation in He as [q' Hq']. by apply (handles_split _ _ _ _ _ (uw_queue _ Hwf) Hq'). }
  destruct (findEntry u2 (qe_handle e)) as [[i e']|] eqn:Hf.
  2: { unfold findEntry in Hf. apply list_find_None in Hf. rewrite list.Forall_forall in Hf. by destruct (Hf e He). }
  apply list_find_Some in Hf as (Hi & Hh & _). assert (e' = e) as -> by (apply Huniq; [by eapply list_elem_of_lookup_2|done]).
  destruct (eo_range _ _ _ (queue_wf_lookup _ _ _ _ _ (uw_queue _ Hwf2) Hi)) as [Hr1 Hr2]. unfold enough in Hen.
  assert (length (up_recvBuffer u2) = length (up_recvBuffer u)) as Hlen by (rewrite Hb1, length_app, length_drop; lia).
  destruct (storePayload_spec w script f f u2 (qe_from e) (Z.of_nat (length payload))) with (junk := (false, false))
    as (u3 & f3 & checks & -> & Hq3 & _ & _); [done|lia|lia|lia|lia|]. cbn [mbind result_bind].
  destruct (finishEntry_spec u3 (qe_handle e) (same_queue_wf _ _ Hq3 Hwf2)) as (u4 & answers & -> & _ & _ & _ & _ & Ha4 & Hq4).
  { intros e' He' Hh'. rewrite (sq_queue _ _ Hq3) in He'. rewrite (Huniq e' He' Hh'), (sq_buffer _ _ Hq3), Hlen. done. }
  cbn [mbind result_bind]. eexists u4, f3, answers. split; [done|].
  specialize (Ha4 e ltac:(by rewrite (sq_queue _ _ Hq3)) eq_refl). rewrite (sq_buffer _ _ Hq3), Hb1 in Ha4. split_and!; [|done|].
  - intros [_ ?]%Hq4. done.
  - intros c Hc Hpast. rewrite Ha4. apply list_elem_of_fmap. exists c. split; [|done]. unfold client_answer. do 3 f_equal.
    rewrite drop_app_ge, drop_drop by lia. f_equal. lia.
Qed.

(** Another client's data, still in the receive buffer. *)
Definition stale_uplink (stale : list Z) : dnbd3_uplink_t :=
  up_set_recv demo_queued stale 0 4.
Lemma short_reply_delivers_stale_data_witness :
  exists u' f' answers, receiveOne demo_config (World false true 4) demo_script 0 (Reply CMD_GET_BLOCK 2 1 [1; 2])
      (stale_uplink (replicate 4096 171)) (fun _ => 0) = Ok (Some (RecvMore, u', f', answers))
    /\ Answer demo_client (Some (replicate 200 171)) ∈ answers.
Proof.
  destruct (short_reply_delivers_stale_data demo_config (World false true 4) demo_script 0 (stale_uplink (replicate 4096 171)) (fun _ => 0)
    demo_entry [1; 2]) as (u' & f' & answers & Hrun & _ & _ & Hc).
  - destruct demo_queued_wf. by split.
  - exact demo_image_wf.
  - by left.
  - vm_compute. congruence.
  - vm_compute. congruence.
  - vm_compute. reflexivity.
  - vm_compute. congruence.
  - exists u', f', answers. split; [exact Hrun|]. specialize (Hc demo_client ltac:(by left) ltac:(vm_compute; congruence)).
    replace (Answer demo_client (Some (replicate 200 171))) with (client_answer (up_recvBuffer (stale_uplink (replicate 4096 171))) (qe_from demo_entry) demo_client)
      by (vm_compute; reflexivity). exact Hc.
Defined.
