(* ===== verification/Replication.v ===== *)
(** * Replication: fetching missing blocks in the background

    [numWantedReplicationRequests], [findNextIncompleteHashBlock],
    [sendReplicationRequest] and the frame of [handleReceive] in
    [src/server/uplink.c]. *)

From S2P Require Import Prelude Timing Types CacheMap Uplink UplinkIO.

(** ** Definitions *)

(** The loop over the queue; a request with clients ends it. *)
Fixpoint countReplication (q : list dnbd3_queue_entry_t) (ret : Z) : Z :=
  match q with
  | [] => ret
  | e :: rest => match qe_clients e with [] => countReplication rest (ret - 1) | _ => 0 end
  end.
Definition numWantedReplicationRequests (cfg : config) (u : dnbd3_uplink_t) : Z :=
  let ret := Z.min (_bgrWindowSize cfg) (up_idleTime u + 1) in
  if up_queueLen u =? 0 then ret else countReplication (up_queue u) ret.

(** One step of the scan over the map: [inl] goes on with the given [retval],
    [inr] is a [break]. *)
Definition hashScanStep (mapBytes : Z) (replicatedLast : bool) (b i retval : Z) : Z + Z :=
  let isFull := (b =? 255) || ((i + 1 =? mapBytes) && replicatedLast) in
  let isEmpty := b =? 0 in
  if negb isEmpty && negb isFull then inr (if retval =? -1 then i else retval)
  else if (i .& MAP_INDEX_HASH_START_MASK) =? i then inl (if isEmpty then i else -1)
  else if isFull then (if negb (retval =? -1) then inr retval else inl retval)
  else if isEmpty then (if retval =? -1 then inr i else inl retval)
  else inl retval.

(** The loop from position [j] on, [n] more steps. *)
Fixpoint hashScan (m : list Z) (mapBytes start : Z) (replicatedLast : bool) (n : nat) (j retval : Z) : result Z :=
  match n with
  | O => Ok (-1)                                      (* ran until the end *)
  | S n =>
      let i := Z.rem (start + j) mapBytes in
      b ← aget m i;
      match hashScanStep mapBytes replicatedLast b i retval with
      | inl retval => hashScan m mapBytes start replicatedLast n (j + 1) retval
      | inr retval => Ok retval
      end
  end.

(** Without a map, [ref_put] is called on the null pointer. *)
Definition findNextIncompleteHashBlock (u : dnbd3_uplink_t) (startMapIndex : Z) : result Z :=
  match img_cacheMap (up_image u) with
  | None => Fault NullDeref
  | Some cache =>
      let mapBytes := IMGSIZE_TO_MAPBYTES (img_virtualFilesize (up_image u)) in
      let start := startMapIndex .& MAP_INDEX_HASH_START_MASK in
      hashScan (cm_map cache) mapBytes start (up_replicatedLastBlock u) (Z.to_nat mapBytes) 0 (-1)
  end.

(** The first incomplete byte at [j ..], [n] positions; [-1] if there is none. *)
Fixpoint searchIncomplete (m : list Z) (mapBytes : Z) (replicatedLast : bool) (n : nat) (j : Z) : result Z :=
  match n with
  | O => Ok (-1)
  | S n =>
      let i := Z.rem j mapBytes in
      b ← aget m i;
      if negb (b =? 255) && (negb (i =? mapBytes - 1) || negb replicatedLast) then Ok i
      else searchIncomplete m mapBytes replicatedLast n (j + 1)
  end.

(** Extend a request by up to [n] more map bytes. *)
Fixpoint extendReplication (m : list Z) (vfs offset : Z) (n : nat) (index size : Z) : result (Z * Z) :=
  match n with
  | O => Ok (index, size)
  | S n =>
      if offset + size <? vfs then
        b ← aget m (index + 1);
        if b =? 255 then Ok (index, size)
        else extendReplication m vfs offset n (index + 1)
               (u32 (size + u32 (Z.min (u64 (vfs - offset - size)) FILE_BYTES_PER_MAP_BYTE)))
      else Ok (index, size)
  end.

(** Where one iteration looks first. *)
Definition searchEnd (cfg : config) (u : dnbd3_uplink_t) (mapBytes : Z) : Z :=
  if _backgroundReplication cfg =? BGR_FULL then up_nextReplicationIndex u + mapBytes
  else Z.min ((up_nextReplicationIndex u + MAP_BYTES_PER_HASH_BLOCK) .& MAP_INDEX_HASH_START_MASK) mapBytes.

Definition replicationIndex (cfg : config) (u : dnbd3_uplink_t) (m : list Z) (mapBytes : Z) : result Z :=
  let next := up_nextReplicationIndex u in
  let endByte := searchEnd cfg u mapBytes in
  i ← searchIncomplete m mapBytes (up_replicatedLastBlock u) (Z.to_nat (endByte - next)) next;
  if (i =? -1) && (_backgroundReplication cfg =? BGR_HASHBLOCK) then findNextIncompleteHashBlock u endByte else Ok i.

(** The loop of [sendReplicationRequest]: [n] more requests.  [false] when a request
    was refused. *)
Fixpoint replicationLoop (cfg : config) (send : packet -> bool) (m : list Z) (n : nat) (u : dnbd3_uplink_t)
  : result (bool * dnbd3_uplink_t * list packet) :=
  let vfs := img_virtualFilesize (up_image u) in
  let mapBytes := IMGSIZE_TO_MAPBYTES vfs in
  match n with
  | O => Ok (true, u, [])
  | S n =>
      if UPLINK_MAX_QUEUE - up_queueLen u <? 10 then Ok (true, u, [])
      else
        index ← replicationIndex cfg u m mapBytes;
        if index =? -1 then Ok (true, up_set_replication u (up_replicatedLastBlock u) (-1) (up_queueId u), [])
        else
          let handle := u64 (up_queueId u + 1) in
          let u := up_set_replication u (up_replicatedLastBlock u) (up_nextReplicationIndex u) handle in
          let offset := u64 (index * FILE_BYTES_PER_MAP_BYTE) in
          let size := u32 (Z.min (u64 (vfs - offset)) FILE_BYTES_PER_MAP_BYTE) in
          '(index, size) ←
            (if _backgroundReplication cfg =? BGR_FULL
             then extendReplication m vfs offset
                    (Z.to_nat (_minRequestSize cfg / FILE_BYTES_PER_MAP_BYTE - 1)) index size
             else Ok (index, size));
          '(ok, u, sent) ← uplink_requestInternal cfg send u NULL NULL handle offset size 0;
          if negb ok then Ok (false, u, sent)
          else
            let last := up_replicatedLastBlock u || (index =? mapBytes - 1) in
            let u := up_set_replication u last (index + 1) (up_queueId u) in
            if (_backgroundReplication cfg =? BGR_HASHBLOCK)
               && (Z.rem (index + 1) MAP_BYTES_PER_HASH_BLOCK =? 0) then
              next ← findNextIncompleteHashBlock u (index + 1);
              let u := up_set_replication u last next (up_queueId u) in
              if next =? -1 then Ok (true, u, sent)
              else '(ok, u, more) ← replicationLoop cfg send m n u; Ok (ok, u, sent ++ more)
            else '(ok, u, more) ← replicationLoop cfg send m n u; Ok (ok, u, sent ++ more)
  end.

Definition sendReplicationRequest (cfg : config) (send : packet -> bool) (u : dnbd3_uplink_t)
  : result (bool * dnbd3_uplink_t * list packet) :=
  if conn_fd (up_current u) =? -1 then Ok (false, u, [])
  else if (_backgroundReplication cfg =? BGR_DISABLED) || (up_cacheFd u =? -1) then Ok (true, u, [])
  else if up_nextReplicationIndex u =? -1 then Ok (true, u, [])
  else if img_users (up_image u) <? _bgrMinClients cfg then Ok (true, u, [])
  else
    let numNewRequests := numWantedReplicationRequests cfg u in
    if numNewRequests <=? 0 then Ok (true, u, [])
    else match img_cacheMap (up_image u) with
    | None => Ok (true, u, [])
    | Some cache => replicationLoop cfg send (cm_map cache) (Z.to_nat numNewRequests) u
    end.

(** The receive loop, then replication; any failure drops the connection.  The
    result has the packets sent, the callbacks called and whether a search for
    another server is started. *)
Definition handleReceive (cfg : config) (w : world) (junk : Z) (send : packet -> bool)
    (input : list (recv * list wres)) (u : dnbd3_uplink_t) (f : file)
  : result (option (dnbd3_uplink_t * file * list answer * list packet * bool)) :=
  _ ← assert_ (0 <=? up_queueLen u);
  received ← receiveLoop cfg w junk input u f;
  match received with
  | None => Ok None
  | Some (false, u, f, answers) =>
      let '(u, search) := connectionFailed cfg u true in Ok (Some (u, f, answers, [], search))
  | Some (true, u, f, answers) =>
      '(ok, u, sent) ← sendReplicationRequest cfg send u;
      if (ok : bool) then Ok (Some (u, f, answers, sent, false))
      else let '(u, search) := connectionFailed cfg u true in Ok (Some (u, f, answers, sent, search))
  end.

(** ** Hash blocks of the map *)

Section HashScan.
Context (m : list Z) (M : Z) (R : bool).
Hypothesis HM : 0 < M.
Hypothesis Hlen : Z.of_nat (length m) = M.

(** A map byte as the scan sees it: complete (the last one also when it was
    requested already), or empty. *)
Definition byte_full (i : Z) : bool := (m !!! Z.to_nat i =? 255) || ((i + 1 =? M) && R).
Definition byte_empty (i : Z) : bool := m !!! Z.to_nat i =? 0.

(** Two bytes of the same hash block do not tell it from a complete or empty one. *)
Definition uniform (i k : Z) : Prop :=
  i / 512 = k / 512 ->
  (byte_full i = true /\ byte_full k = true) \/ (byte_empty i = true /\ byte_empty k = true).

(** An index worth replicating from: an incomplete byte of a hash block that has
    some data already. *)
Definition partial_block (r : Z) : Prop :=
  0 <= r < M /\ byte_full r = false
  /\ exists k, 0 <= k < M /\ k / 512 = r / 512 /\ (byte_empty k = false \/ byte_full k = true).

(** The start of a hash block without any data. *)
Definition empty_block (r : Z) : Prop :=
  0 <= r < M /\ r mod 512 = 0 /\ forall x, r <= x < r + 512 -> x < M -> byte_empty x = true.

(** The bytes from [a] up to [i] were scanned. *)
Definition scanned (a i r : Z) : Prop :=
  (forall x y, a <= x < i -> a <= y < i -> uniform x y)
  /\ (i mod 512 = 0 -> r = -1 \/ empty_block r)
  /\ (i mod 512 <> 0 ->
      (r = -1 /\ forall x, 512 * (i / 512) <= x < i -> byte_full x = true)
      \/ (r = 512 * (i / 512) /\ forall x, 512 * (i / 512) <= x < i -> byte_empty x = true)).

Lemma uniform_sym x y : uniform x y -> uniform y x.
Proof. intros H He. symmetry in He. destruct (H He) as [[? ?]|[? ?]]; [by left|by right]. Qed.

(** Adding a byte that agrees with the scanned part of its block. *)
Lemma scanned_add a i r' :
  0 <= a <= i -> i < M -> a mod 512 = 0 ->
  (forall x y, a <= x < i -> a <= y < i -> uniform x y) ->
  ((r' = -1 /\ forall x, 512 * (i / 512) <= x <= i -> byte_full x = true)
   \/ (r' = 512 * (i / 512) /\ forall x, 512 * (i / 512) <= x <= i -> byte_empty x = true)) ->
  scanned a (i + 1) r'.
Proof.
  intros Ha Hi Hal Hun Hcur. pose proof (block_bounds i).
  pose proof (Z.div_mod (i + 1) 512 ltac:(lia)). pose proof (Z.mod_pos_bound (i + 1) 512 ltac:(lia)).
  split; [|split].
  - assert (Hnew : forall x, a <= x <= i -> uniform x i).
    { intros x Hx He. pose proof (block_bounds x). destruct Hcur as [[_ Hf]|[_ Hf]]; [left|right]; split; apply Hf; lia. }
    intros x y Hx Hy. destruct (Z.eq_dec x i) as [->|]; [apply uniform_sym, Hnew; lia|].
    destruct (Z.eq_dec y i) as [->|]; [apply Hnew; lia|apply Hun; lia].
  - intros Hmod. destruct Hcur as [[-> _]|[-> Hf]]; [by left|right]. split; [lia|].
    split; [rewrite Z.mul_comm; apply Z.mod_mul; lia|]. intros x Hx _. apply Hf. lia.
  - intros Hmod. assert ((i + 1) / 512 = i / 512) as -> by lia.
    destruct Hcur as [[-> Hf]|[-> Hf]]; [left|right]; (split; [done|]); intros x Hx; apply Hf; lia.
Qed.

Lemma hashScanStep_spec a i r :
  0 <= a <= i -> i < M -> a mod 512 = 0 -> scanned a i r ->
  match hashScanStep M R (m !!! Z.to_nat i) i r with
  | inl r' => scanned a (i + 1) r'
  | inr r' => partial_block r' \/ empty_block r'
  end.
Proof.
  intros Ha Hi Hal (Hun & Hstale & Hcur). unfold hashScanStep. rewrite hash_start. fold (byte_full i) (byte_empty i).
  pose proof (block_bounds i) as Hb. pose proof (Z.div_mod i 512 ltac:(lia)) as Hdm.
  assert (Hsame : (512 * (i / 512)) / 512 = i / 512) by (rewrite Z.mul_comm; apply Z.div_mul; lia).
  assert (Hnotlast : forall x, x < i -> byte_empty x = true -> byte_full x = false).
  { intros x Hx He. unfold byte_empty, byte_full in *. apply Z.eqb_eq in He. rewrite He. cbn.
    apply andb_false_iff. left. apply Z.eqb_neq. lia. }
  destruct (Z.eqb_spec (512 * (i / 512)) i) as [Hst|Hst].
  - destruct (byte_empty i) eqn:He; cbn [negb andb].
    + apply scanned_add; [done|done|done|done|]. right. split; [done|]. intros x Hx. by replace x with i by lia.
    + destruct (byte_full i) eqn:Hf; cbn [negb].
      * apply scanned_add; [done|done|done|done|]. left. split; [done|]. intros x Hx. by replace x with i by lia.
      * destruct (Z.eqb_spec r (-1)) as [Hr|Hr].
        -- left. split; [lia|]. split; [done|]. exists i. split; [lia|]. split; [done|by left].
        -- right. destruct Hstale as [?|?]; [|done..]. rewrite <- Hst, Z.mul_comm. apply Z.mod_mul. lia.
  - destruct Hcur as [[-> Hf]|[-> Hf]]; [lia|..].
    + change (-1 =? -1) with true. cbn [negb]. destruct (byte_empty i) eqn:He, (byte_full i) eqn:Hff; cbn [negb andb].
      * apply scanned_add; [done|done|done|done|]. left. split; [done|]. intros x Hx.
        destruct (Z.eq_dec x i) as [->|]; [done|apply Hf; lia].
      * left. split; [lia|]. split; [done|]. exists (512 * (i / 512)). split; [lia|]. split; [done|]. right. apply Hf. lia.
      * apply scanned_add; [done|done|done|done|]. left. split; [done|]. intros x Hx.
        destruct (Z.eq_dec x i) as [->|]; [done|apply Hf; lia].
      * left. split; [lia|]. split; [done|]. exists i. split; [lia|]. split; [done|by left].
    + destruct (Z.eqb_spec (512 * (i / 512)) (-1)); [lia|]. cbn [negb].
      assert (Hpart : (byte_empty i = false \/ byte_full i = true) -> partial_block (512 * (i / 512))).
      { intros Hor. split; [lia|]. split; [apply Hnotlast; [lia|apply Hf; lia]|]. exists i. by split_and!; try lia. }
      destruct (byte_empty i) eqn:He, (byte_full i) eqn:Hff; cbn [negb andb]; try (left; apply Hpart; auto).
      apply scanned_add; [done|done|done|done|]. right. split; [done|]. intros x Hx.
      destruct (Z.eq_dec x i) as [->|]; [done|apply Hf; lia].
Qed.

(** A run of the scan without wrap-around. *)
Lemma hashScan_segment start a n' n : forall j i r,
  (forall k, 0 <= k < Z.of_nat n -> Z.rem (start + (j + k)) M = i + k) ->
  0 <= a <= i -> i + Z.of_nat n <= M -> a mod 512 = 0 -> scanned a i r ->
  (exists v, hashScan m M start R (n + n') j r = Ok v /\ (partial_block v \/ empty_block v))
  \/ (exists r', hashScan m M start R (n + n') j r = hashScan m M start R n' (j + Z.of_nat n) r'
        /\ scanned a (i + Z.of_nat n) r').
Proof.
  induction n as [|n IH]; intros j i r Hpos Ha Hi Hal Hsc.
  { right. exists r. cbn. by rewrite !Z.add_0_r. }
  cbn [Nat.add hashScan]. pose proof (Hpos 0 ltac:(lia)) as H0. rewrite !Z.add_0_r in H0. rewrite H0.
  rewrite aget_in_range by lia. cbn [mbind result_bind].
  pose proof (hashScanStep_spec a i r Ha ltac:(lia) Hal Hsc) as Hstep.
  destruct (hashScanStep M R _ i r) as [r'|r']; [|left; by eexists].
  destruct (IH (j + 1) (i + 1) r') as [?|(r'' & Heq & Hsc'')]; [|lia|lia|done|done|by left|].
  - intros k Hk. replace (j + 1 + k) with (j + (k + 1)) by lia. rewrite Hpos by lia. lia.
  - right. exists r''. rewrite Heq. split; [f_equal; lia|]. by replace (i + Z.of_nat (S n)) with (i + 1 + Z.of_nat n) by lia.
Qed.

Lemma scanned_wrap a r : 0 <= a -> scanned a M r -> r = -1 \/ empty_block r.
Proof.
  intros Ha (_ & Hs & Hc). destruct (Z.eq_dec (M mod 512) 0) as [|Hne]; [by apply Hs|].
  pose proof (block_bounds M). pose proof (Z.div_mod M 512 ltac:(lia)).
  destruct (Hc Hne) as [[-> _]|[-> Hf]]; [by left|right]. split; [lia|].
  split; [rewrite Z.mul_comm; apply Z.mod_mul; lia|]. intros x Hx Hlt. apply Hf. lia.
Qed.

Lemma hashScan_spec start :
  0 <= start <= M -> start mod 512 = 0 ->
  exists v, hashScan m M start R (Z.to_nat M) 0 (-1) = Ok v
    /\ (v <> -1 -> partial_block v \/ empty_block v)
    /\ (v = -1 -> forall x y, 0 <= x < M -> 0 <= y < M -> uniform x y).
Proof.
  intros Hs Hal. set (s0 := if start =? M then 0 else start).
  assert (Hs0 : 0 <= s0 < M /\ s0 mod 512 = 0 /\ forall k, 0 <= k < M -> Z.rem (start + k) M = Z.rem (s0 + k) M).
  { unfold s0. destruct (Z.eqb_spec start M) as [->|]; [|split; [lia|split; [done|done]]].
    split; [lia|]. split; [done|]. intros k Hk. rewrite !Z.rem_mod_nonneg by lia.
    replace (M + k) with (0 + k + 1 * M) by lia. apply Z.mod_add. lia. }
  destruct Hs0 as (Hb & Hal0 & Hrem).
  replace (Z.to_nat M) with (Z.to_nat (M - s0) + (Z.to_nat s0 + 0))%nat by lia.
  assert (Hstart : forall a i, 0 <= i -> i mod 512 = 0 -> a = i -> scanned a i (-1)).
  { intros a i Hi Hm ->. split; [intros; lia|]. split; [by left|done]. }
  destruct (hashScan_segment start s0 (Z.to_nat s0 + 0) (Z.to_nat (M - s0)) 0 s0 (-1)) as [(v & -> & Hv)|(r & -> & Hsc)];
    [|lia|lia|done|apply Hstart; [lia|done|done]|..].
  { intros k Hk. rewrite Hrem by lia. rewrite Z.rem_small by lia. lia. }
  { exists v. split; [done|]. split; [by intros _|]. intros ->. destruct Hv as [[? _]|[? _]]; lia. }
  replace (s0 + Z.of_nat (Z.to_nat (M - s0))) with M in Hsc by lia.
  pose proof (scanned_wrap s0 r ltac:(lia) Hsc) as Hr. destruct Hsc as (Hun1 & _).
  destruct (hashScan_segment start 0 0 (Z.to_nat s0) (0 + Z.of_nat (Z.to_nat (M - s0))) 0 r) as [(v & -> & Hv)|(r' & -> & Hsc)];
    [|lia|lia|done| |..].
  { intros k Hk. rewrite Hrem by lia. rewrite Z.rem_mod_nonneg by lia. symmetry. apply Z.mod_unique with (q := 1); lia. }
  { split; [intros; lia|]. split; [by intros _|done]. }
  { exists v. split; [done|]. split; [by intros _|]. intros ->. destruct Hv as [[? _]|[? _]]; lia. }
  exists (-1). split; [done|]. split; [done|]. intros _ x y Hx Hy. destruct Hsc as (Hun2 & _).
  pose proof (block_bounds x). pose proof (block_bounds y). pose proof (Z.div_mod s0 512 ltac:(lia)).
  destruct (Z.lt_ge_cases x s0), (Z.lt_ge_cases y s0).
  - apply Hun2; lia.
  - intros He. exfalso. assert (x / 512 < s0 / 512) by lia. lia.
  - intros He. exfalso. assert (y / 512 < s0 / 512) by lia. lia.
  - apply Hun1; lia.
Qed.
End HashScan.

(** ** The window *)

Lemma countReplication_le q ret : countReplication q ret <= Z.max 0 ret.
Proof.
  revert ret. induction q as [|e q IH]; intros ret; cbn; [lia|]. destruct (qe_clients e); [|lia].
  specialize (IH (ret - 1)). lia.
Qed.

Lemma countReplication_spec q ret :
  countReplication q ret = if forallb (fun e => bool_decide (qe_clients e = [])) q
                           then ret - Z.of_nat (length q) else 0.
Proof.
  revert ret. induction q as [|e q IH]; intros ret; cbn [countReplication forallb length]; [lia|].
  destruct (qe_clients e); [|done]. rewrite bool_decide_eq_true_2, IH by done. cbn [andb].
  destruct (forallb _ _); lia.
Qed.

Lemma numWanted_le cfg u : 0 <= _bgrWindowSize cfg -> numWantedReplicationRequests cfg u <= _bgrWindowSize cfg.
Proof.
  intros Hw. unfold numWantedReplicationRequests. destruct (_ =? 0); [lia|].
  pose proof (countReplication_le (up_queue u) (Z.min (_bgrWindowSize cfg) (up_idleTime u + 1))). lia.
Qed.

(** ** One replication request *)

Lemma findNext_spec u c startIndex :
  image_wf (up_image u) -> img_cacheMap (up_image u) = Some c ->
  let M := (img_virtualFilesize (up_image u) + 32767) / 32768 in
  0 <= startIndex <= M ->
  exists v, findNextIncompleteHashBlock u startIndex = Ok v
    /\ (v <> -1 -> partial_block (cm_map c) M (up_replicatedLastBlock u) v \/ empty_block (cm_map c) M v)
    /\ (v = -1 -> forall x y, 0 <= x < M -> 0 <= y < M ->
          uniform (cm_map c) M (up_replicatedLastBlock u) x y).
Proof.
  intros Hwf Hc M Hs. pose proof (virtual_nonneg _ Hwf). pose proof (wf_real _ Hwf).
  destruct (wf_map _ Hwf _ Hc) as [Hlen _]. unfold findNextIncompleteHashBlock.
  rewrite Hc, mapbytes_val by (pose proof (wf_limit _ Hwf); lia). fold M. rewrite hash_start.
  assert (0 < M) by (apply Z.div_str_pos; lia). pose proof (block_bounds startIndex).
  apply hashScan_spec; [done|done| |].
  - split; [apply Z.mul_nonneg_nonneg; [lia|]; apply Z.div_pos; lia|lia].
  - rewrite Z.mul_comm. apply Z.mod_mul. lia.
Qed.

Lemma map_pos vfs : 0 < vfs <= 2 ^ 46 - 2 ^ 15 ->
  0 < (vfs + 32767) / 32768 <= 2 ^ 31 /\ vfs <= 32768 * ((vfs + 32767) / 32768) < vfs + 32768.
Proof.
  intros. pose proof (Z.div_mod (vfs + 32767) 32768 ltac:(lia)).
  pose proof (Z.mod_pos_bound (vfs + 32767) 32768 ltac:(lia)). lia.
Qed.

Section Request.
Context (m : list Z) (vfs : Z).
Let M := (vfs + 32767) / 32768.
Hypothesis Hvfs : 0 < vfs <= 2 ^ 46 - 2 ^ 15.
Hypothesis Hlen : Z.of_nat (length m) = M.

Lemma searchIncomplete_spec R n : forall j, 0 <= j ->
  exists v, searchIncomplete m M R n j = Ok v /\ (v = -1 \/ (0 <= v < M /\ m !!! Z.to_nat v <> 255)).
Proof.
  pose proof (map_pos vfs Hvfs) as HM. fold M in HM. induction n as [|n IH]; intros j Hj; cbn [searchIncomplete]; [by eexists; split; [|left]|].
  assert (Hi : 0 <= Z.rem j M < M) by (apply Z.rem_bound_pos; lia).
  rewrite aget_in_range by lia. cbn [mbind result_bind].
  destruct (Z.eqb_spec (m !!! Z.to_nat (Z.rem j M)) 255) as [|Hne]; cbn [negb andb]; [apply IH; lia|].
  destruct (_ || _); [|apply IH; lia]. eexists. split; [done|]. right. split; [lia|done].
Qed.

(** The size of a request for the map bytes from [first] to [index]. *)
Definition request_end (index : Z) : Z := Z.min vfs (32768 * (index + 1)).

Lemma extendReplication_spec first n : forall index size,
  0 <= first <= index -> index < M -> 32768 * first + size = request_end index ->
  0 <= size -> size + 32768 * Z.of_nat n < 2 ^ 32 ->
  exists index' size', extendReplication m vfs (32768 * first) n index size = Ok (index', size')
    /\ index <= index' < M /\ 32768 * first + size' = request_end index'
    /\ 0 <= size' <= size + 32768 * Z.of_nat n.
Proof.
  pose proof (map_pos vfs Hvfs) as HM. fold M in HM. unfold request_end. induction n as [|n IH]; intros index size Hf Hi Hsz Hs0 Hmax;
    cbn [extendReplication]; [exists index, size; by split_and!; try lia|].
  destruct (Z.ltb_spec (32768 * first + size) vfs); [|exists index, size; by split_and!; try lia].
  assert (index + 1 < M) by lia. rewrite aget_in_range by lia. cbn [mbind result_bind].
  destruct (_ =? 255); [exists index, size; by split_and!; try lia|].
  unfold FILE_BYTES_PER_MAP_BYTE, DNBD3_BLOCK_SIZE. change (4096 * 8) with 32768.
  rewrite (u64_id (vfs - 32768 * first - size)) by crange.
  rewrite (u32_id (Z.min _ 32768)) by crange. rewrite u32_id by crange.
  destruct (IH (index + 1) (size + Z.min (vfs - 32768 * first - size) 32768)) as (i' & s' & -> & ? & ? & ?); [lia..|].
  exists i', s'. by split_and!; try lia.
Qed.
End Request.

(** The state [sendReplicationRequest] works on: [c] is the cache map. *)
Record replicating (c : dnbd3_cache_map_t) (u : dnbd3_uplink_t) : Prop := {
  rp_wf : uplink_wf u;
  rp_image : image_wf (up_image u);
  rp_map : img_cacheMap (up_image u) = Some c;
  rp_next : -1 <= up_nextReplicationIndex u <= (img_virtualFilesize (up_image u) + 32767) / 32768;
}.

Lemma set_replication_wf u last next id : up_queueId u <= id -> uplink_wf u -> uplink_wf (up_set_replication u last next id).
Proof.
  intros Hid [? Hq ? ? ?]. split; try done; [|cbn; lia]. by apply (queue_wf_mono _ (up_queueId u)).
Qed.

Lemma replicating_set c u last next id :
  replicating c u -> up_queueId u <= id -> -1 <= next <= (img_virtualFilesize (up_image u) + 32767) / 32768 ->
  replicating c (up_set_replication u last next id).
Proof. intros [? ? ? ?] Hid Hn. split; try done. by apply set_replication_wf. Qed.

Section Loop.
Context (cfg : config) (Hcfg : config_ok cfg) (send : packet -> bool) (c : dnbd3_cache_map_t).

Lemma replicationIndex_spec u :
  replicating c u -> up_nextReplicationIndex u <> -1 ->
  let M := (img_virtualFilesize (up_image u) + 32767) / 32768 in
  exists i, replicationIndex cfg u (cm_map c) M = Ok i /\ (i = -1 \/ (0 <= i < M /\ cm_map c !!! Z.to_nat i <> 255)).
Proof.
  intros [Hwf Himg Hmap Hnext] Hne M. pose proof (uw_size _ Hwf) as Hv. destruct (wf_map _ Himg _ Hmap) as [Hlen _].
  pose proof (map_pos (img_virtualFilesize (up_image u)) Hv) as HM. fold M in HM, Hnext.
  unfold replicationIndex.
  destruct (searchIncomplete_spec (cm_map c) _ Hv Hlen (up_replicatedLastBlock u)
    (Z.to_nat (searchEnd cfg u M - up_nextReplicationIndex u)) (up_nextReplicationIndex u)) as (i & Hse & Hi); [lia|].
  fold M in Hse, Hi. rewrite Hse. cbn [mbind result_bind]. destruct (Z.eqb_spec i (-1)); cbn [andb]; [|by exists i].
  destruct (Z.eqb_spec (_backgroundReplication cfg) BGR_HASHBLOCK) as [Hh|]; [|by exists i].
  destruct (findNext_spec u c (searchEnd cfg u M) Himg Hmap) as (v & -> & Hv1 & _).
  { fold M. unfold searchEnd. rewrite Hh. change (BGR_HASHBLOCK =? BGR_FULL) with false. cbn iota.
    rewrite hash_start, map_bytes_512. pose proof (block_bounds (up_nextReplicationIndex u + 512)).
    pose proof (Z.div_pos (up_nextReplicationIndex u + 512) 512). lia. }
  exists v. split; [done|]. destruct (Z.eq_dec v (-1)) as [|Hvn]; [by left|right].
  fold M in Hv1. destruct (Hv1 Hvn) as [(Hr & Hf & _)|(Hr & _ & He)]; (split; [done|]).
  - intros H255. unfold byte_full in Hf. by rewrite H255 in Hf.
  - intros H255. specialize (He v ltac:(lia) ltac:(lia)). unfold byte_empty in He. by rewrite H255 in He.
Qed.

Lemma replication_request u index :
  replicating c u -> up_nextReplicationIndex u <> -1 -> up_queueId u < 2 ^ 64 - 3 ->
  let vfs := img_virtualFilesize (up_image u) in
  let M := (vfs + 32767) / 32768 in
  0 <= index < M ->
  let u1 := up_set_replication u (up_replicatedLastBlock u) (up_nextReplicationIndex u) (up_queueId u + 1) in
  forall extra, Z.of_nat extra <= 65535 ->
  exists index' size, extendReplication (cm_map c) vfs (32768 * index) extra index (Z.min (vfs - 32768 * index) 32768) = Ok (index', size)
  /\ index <= index' < M
  /\ forall s, s = size \/ s = Z.min (vfs - 32768 * index) 32768 ->
  exists ok u2 sent, uplink_requestInternal cfg send u1 NULL NULL (up_queueId u + 1) (32768 * index) s 0 = Ok (ok, u2, sent)
    /\ uplink_wf u2 /\ same_rest u u2 /\ up_queueId u2 <= up_queueId u + 3
    /\ pending (up_queue u2) ≡ₚ pending (up_queue u)
    /\ (ok = false -> u2 = u1).
Proof.
  intros Hr Hne Hid vfs M Hi u1 extra Hex. pose proof (uw_size _ (rp_wf _ _ Hr)) as Hv. fold vfs in Hv.
  destruct (wf_map _ (rp_image _ _ Hr) _ (rp_map _ _ Hr)) as [Hlen _].
  pose proof (map_pos vfs Hv) as HM. fold M in HM.
  destruct (extendReplication_spec (cm_map c) vfs Hv Hlen index extra index (Z.min (vfs - 32768 * index) 32768))
    as (index' & size & -> & Hi' & Hend & Hsz); [lia|fold M; lia|unfold request_end; lia|lia|lia|].
  exists index', size. split; [done|]. split; [done|]. intros s Hs. unfold request_end in Hend. fold M in Hi'.
  assert (Hwf1 : uplink_wf u1) by (apply set_replication_wf; [lia|apply Hr]).
  destruct (uplink_requestInternal_spec cfg Hcfg send u1 Hwf1 NULL NULL (up_queueId u + 1) (32768 * index) s 0)
    as (ok & u2 & sent & Hrun & Hwf2 & Hs2 & Hid2 & Hok & Hno); [lia|lia|cbn; fold vfs; lia|cbn; lia|by left|].
  exists ok, u2, sent. split; [done|]. split; [done|]. split; [by destruct Hs2; split|].
  split; [cbn in Hid2; lia|]. split; [|intros ?; by apply Hno].
  destruct ok; [rewrite Hok by done; done|]. by destruct (Hno eq_refl) as [-> _].
Qed.

(** What a round of replication keeps. *)
Definition replicated (n : Z) (u : dnbd3_uplink_t) (r : result (bool * dnbd3_uplink_t * list packet)) : Prop :=
  exists ok u' sent, r = Ok (ok, u', sent) /\ replicating c u' /\ same_rest u u'
    /\ pending (up_queue u') ≡ₚ pending (up_queue u) /\ up_queueId u' <= up_queueId u + 3 * n.

Lemma replicated_more n u1 u2 sent k :
  same_rest u1 u2 -> pending (up_queue u2) ≡ₚ pending (up_queue u1) -> up_queueId u2 <= up_queueId u1 + 3 -> replicated n u2 k ->
  replicated (n + 1) u1 ('(ok, u, more) ← k; Ok (ok, u, sent ++ more)).
Proof.
  intros Hs Hp Hid (ok & u' & more & -> & Hr & Hs' & Hp' & Hid'). cbn. eexists _, _, _. split; [done|].
  split; [done|]. split; [by transitivity u2|]. split; [by rewrite Hp'|lia].
Qed.

Lemma replicating_rest u u' next :
  replicating c u -> uplink_wf u' -> same_rest u u' ->
  -1 <= next <= (img_virtualFilesize (up_image u) + 32767) / 32768 ->
  forall last, replicating c (up_set_replication u' last next (up_queueId u')).
Proof.
  intros [? [] Hm ?] Hwf [Hv Hr Hm' ? ?] Hn last. split; [by apply set_replication_wf| | |]; cbn.
  - split; rewrite ?Hv, ?Hr, ?Hm'; done.
  - by rewrite Hm'.
  - by rewrite Hv.
Qed.

Lemma replicationLoop_spec n : forall u,
  replicating c u -> up_nextReplicationIndex u <> -1 -> up_queueId u + 3 * Z.of_nat n < 2 ^ 64 - 3 ->
  replicated (Z.of_nat n) u (replicationLoop cfg send (cm_map c) n u).
Proof.
  induction n as [|n IH]; intros u Hr Hne Hid; cbn [replicationLoop]; [eexists _, _, _; split; [done|]; by split_and!; [..|lia]|].
  destruct (_ <? 10); [eexists _, _, _; split; [done|]; by split_and!; [..|lia]|].
  pose proof (wf_limit _ (rp_image _ _ Hr)). pose proof (uw_size _ (rp_wf _ _ Hr)) as Hv. pose proof (uw_id _ (rp_wf _ _ Hr)).
  rewrite !mapbytes_val by lia.
  set (vfs := img_virtualFilesize (up_image u)) in *. set (M := (vfs + 32767) / 32768) in *.
  pose proof (map_pos vfs Hv) as HM. fold M in HM.
  destruct (replicationIndex_spec u Hr Hne) as (i & Hri & Hi). fold vfs M in Hri, Hi. rewrite Hri. cbn [mbind result_bind].
  destruct (Z.eqb_spec i (-1)).
  { eexists _, _, _. split; [done|]. split; [|cbn; split_and!; [done..|lia]]. apply replicating_set; [done|lia|fold vfs M; lia]. }
  destruct Hi as [?|[Hi _]]; [done|].
  unfold FILE_BYTES_PER_MAP_BYTE, DNBD3_BLOCK_SIZE. change (4096 * 8) with 32768.
  rewrite !(u64_id (up_queueId u + 1)), (u64_id (i * 32768)), (Z.mul_comm i), (u64_id (vfs - _)), (u32_id (Z.min _ _)) by crange.
  pose proof (co_minreq _ Hcfg). assert (Z.of_nat (Z.to_nat (_minRequestSize cfg / 32768 - 1)) <= 65535).
  { assert (_minRequestSize cfg / 32768 <= 65536); [|lia]. apply Z.lt_succ_r, Z.div_lt_upper_bound; lia. }
  destruct (replication_request u i Hr Hne ltac:(lia) Hi (Z.to_nat (_minRequestSize cfg / 32768 - 1)) ltac:(done))
    as (i' & size & Hext & Hi' & Hreq). fold vfs M in Hext, Hi', Hreq.
  assert (Hboth : exists i2 s2, (if _backgroundReplication cfg =? BGR_FULL
      then extendReplication (cm_map c) vfs (32768 * i) (Z.to_nat (_minRequestSize cfg / 32768 - 1)) i (Z.min (vfs - 32768 * i) 32768)
      else Ok (i, Z.min (vfs - 32768 * i) 32768)) = Ok (i2, s2) /\ i <= i2 < M
      /\ (s2 = size \/ s2 = Z.min (vfs - 32768 * i) 32768)).
  { destruct (_ =? BGR_FULL); [exists i', size; by auto|]. eexists _, _. split; [done|]. split; [lia|by right]. }
  destruct Hboth as (i2 & s2 & -> & Hi2 & Hs2). cbn [mbind result_bind].
  destruct (Hreq s2 Hs2) as (ok & u2 & sent & -> & Hwf2 & Hsr2 & Hid2 & Hp2 & Hno). cbn [mbind result_bind].
  destruct ok; cbn [negb].
  2: { eexists _, _, _. split; [done|]. rewrite (Hno eq_refl). split; [|cbn; split_and!; [done..|lia]].
       apply replicating_set; [done|lia|]. apply Hr. }
  set (last := up_replicatedLastBlock u2 || (i2 =? M - 1)).
  assert (Hset : forall next, -1 <= next <= M -> replicating c (up_set_replication u2 last next (up_queueId u2))).
  { intros next Hn. by apply (replicating_rest u u2). }
  assert (Hnext : forall next, -1 <= next <= M -> next <> -1 ->
    replicated (Z.of_nat (S n)) u ('(ok, u', more) ← replicationLoop cfg send (cm_map c) n (up_set_replication u2 last next (up_queueId u2));
                  Ok (ok, u', sent ++ more))).
  { intros next Hn Hnn. rewrite Nat2Z.inj_succ. apply (replicated_more _ u (up_set_replication u2 last next (up_queueId u2)));
      [by destruct Hsr2|done|cbn; lia|apply IH; [by apply Hset|done|cbn; lia]]. }
  destruct (_ && _); [|apply Hnext; lia].
  set (u3 := up_set_replication u2 last (i2 + 1) (up_queueId u2)).
  assert (Hr3 : replicating c u3) by (apply Hset; lia).
  assert (Hv3 : img_virtualFilesize (up_image u3) = vfs) by apply Hsr2.
  destruct (findNext_spec u3 c (i2 + 1) (rp_image _ _ Hr3) (rp_map _ _ Hr3)) as (v & -> & Hv1 & _); [rewrite Hv3; fold M; lia|].
  cbn [mbind result_bind]. rewrite Hv3 in Hv1. fold M in Hv1.
  assert (Hvr : -1 <= v <= M).
  { destruct (Z.eq_dec v (-1)) as [|Hvn]; [lia|]. destruct (Hv1 Hvn) as [[? _]|[? _]]; lia. }
  destruct (Z.eqb_spec v (-1)) as [->|]; [|by apply Hnext].
  eexists _, _, _. split; [done|]. split; [by apply Hset|]. cbn. split_and!; [by destruct Hsr2|done|lia].
Qed.

Lemma sendReplicationRequest_spec u :
  replicating c u -> 0 <= _bgrWindowSize cfg -> up_queueId u + 3 * _bgrWindowSize cfg < 2 ^ 64 - 3 ->
  replicated (_bgrWindowSize cfg) u (sendReplicationRequest cfg send u).
Proof.
  intros Hr Hw Hid. unfold sendReplicationRequest.
  assert (Hskip : forall b, replicated (_bgrWindowSize cfg) u (Ok (b, u, []))) by (intros; eexists _, _, _; split; [done|]; by split_and!; [..|lia]).
  destruct (_ =? -1); [apply Hskip|]. destruct (_ || _); [apply Hskip|].
  destruct (Z.eqb_spec (up_nextReplicationIndex u) (-1)); [apply Hskip|].
  destruct (_ <? _); [apply Hskip|]. destruct (Z.leb_spec (numWantedReplicationRequests cfg u) 0); [apply Hskip|].
  rewrite (rp_map _ _ Hr). assert (numWantedReplicationRequests cfg u <= _bgrWindowSize cfg) as Hle by by apply numWanted_le.
  destruct (replicationLoop_spec (Z.to_nat (numWantedReplicationRequests cfg u)) u Hr) as (ok & u' & sent & -> & Hrep & Hs & Hp & Hid'); [done|lia|].
  exists ok, u', sent. split_and!; [done..|lia].
Qed.
End Loop.

(** ** A concrete map *)

(** Two hash blocks: the first has no data, the second starts with one block. *)
Definition demo_bytes : list Z := replicate 512 0 ++ 1 :: replicate 511 0.
Definition demo_cache : dnbd3_cache_map_t := CacheMapT false true demo_bytes.
Definition demo_big_image : dnbd3_image_t :=
  Image "/x/big.r1" "big" (Some demo_cache) 33554432 33554432 (Ticks 0 0) (Ticks 0 0)
    None 0 3 0 0 1 (Problems false false false false false) 1 false.
Definition demo_replicating : dnbd3_uplink_t :=
  Uplink (Conn 5 3 0) (Conn (-1) 0 0) RTT_IDLE 4 [] false false false 0 0 0 20 [] 0 demo_big_image.
Definition demo_bgr : config := Config 1048576 0 65536 BGR_HASHBLOCK 0 4 false.

Lemma demo_bgr_ok : config_ok demo_bgr.
Proof. split; cbn; lia. Qed.

Lemma demo_replicating_ok : replicating demo_cache demo_replicating.
Proof.
  assert (Hwf : image_wf demo_big_image).
  { split; cbn; try lia.
    - reflexivity.
    - intros c [= <-]. split; [reflexivity|]. unfold demo_cache, demo_bytes. cbn [cm_map].
      apply Forall_app. split; [apply Forall_replicate; crange|]. constructor; [crange|].
      apply Forall_replicate. crange. }
  split; [split|done|done|]; cbn; try lia; try done.
  - split; constructor.
Qed.

(** ** Theorems *)

(** [findNextIncompleteHashBlock] reads inside the map and always returns.  It
    returns -1 only if every hash block of the map is complete or without data;
    an index it returns lies in the map and is either an incomplete byte of a
    hash block that has some data, or the start of a hash block without data. *)
Theorem findNextIncompleteHashBlock_correct u c startIndex :
  image_wf (up_image u) -> img_cacheMap (up_image u) = Some c ->
  let M := (img_virtualFilesize (up_image u) + 32767) / 32768 in
  0 <= startIndex <= M ->
  exists v, findNextIncompleteHashBlock u startIndex = Ok v
    /\ (v <> -1 -> partial_block (cm_map c) M (up_replicatedLastBlock u) v \/ empty_block (cm_map c) M v)
    /\ (v = -1 -> forall x y, 0 <= x < M -> 0 <= y < M ->
          uniform (cm_map c) M (up_replicatedLastBlock u) x y).
Proof. apply findNext_spec. Qed.

Lemma findNextIncompleteHashBlock_correct_witness :
  exists v, findNextIncompleteHashBlock demo_replicating 512 = Ok v
    /\ (v <> -1 -> partial_block demo_bytes 1024 false v \/ empty_block demo_bytes 1024 v).
Proof.
  destruct (findNextIncompleteHashBlock_correct demo_replicating demo_cache 512) as (v & Hrun & Hv & _).
  - apply (rp_image _ _ demo_replicating_ok).
  - reflexivity.
  - vm_compute. split; discriminate.
  - exists v. split; [exact Hrun|exact Hv].
Defined.

(** The second case of [findNextIncompleteHashBlock_correct] does occur: when a
    hash block without data is followed by one whose first byte is partly
    complete, the index of the block without data is returned, which hash block
    replication is meant to skip. *)
Theorem findNext_returns_empty_block :
  findNextIncompleteHashBlock demo_replicating 0 = Ok 0 /\ empty_block demo_bytes 1024 0
  /\ partial_block demo_bytes 1024 false 512.
Proof.
  split; [by vm_compute|]. split.
  - split; [lia|]. split; [done|]. intros x Hx _. unfold byte_empty, demo_bytes.
    rewrite lookup_total_app_l by (rewrite length_replicate; lia). by rewrite lookup_total_replicate_2 by lia.
  - split; [lia|]. split; [by vm_compute|]. exists 512. split; [lia|]. split; [done|]. left. by vm_compute.
Qed.

(** [sendReplicationRequest] never fails, whatever the connection does: it reads
    inside the cache map, every request it makes is for whole blocks inside the
    image, the queue stays well-formed, the next index stays in range (or -1),
    and no client's request is touched. *)
Theorem sendReplicationRequest_correct cfg send c u :
  config_ok cfg -> replicating c u -> 0 <= _bgrWindowSize cfg ->
  up_queueId u + 3 * _bgrWindowSize cfg < 2 ^ 64 - 3 ->
  exists ok u' sent, sendReplicationRequest cfg send u = Ok (ok, u', sent)
    /\ replicating c u' /\ same_rest u u' /\ pending (up_queue u') ≡ₚ pending (up_queue u)
    /\ up_queueId u' <= up_queueId u + 3 * _bgrWindowSize cfg.
Proof. intros Hcfg. by apply sendReplicationRequest_spec. Qed.

Lemma sendReplicationRequest_correct_witness :
  exists ok u' sent, sendReplicationRequest demo_bgr (fun _ => true) demo_replicating = Ok (ok, u', sent)
    /\ replicating demo_cache u'.
Proof.
  destruct (sendReplicationRequest_correct demo_bgr (fun _ => true) demo_cache demo_replicating)
    as (ok & u' & sent & Hrun & Hr & _); [apply demo_bgr_ok|apply demo_replicating_ok|cbn; lia|reflexivity|].
  exists ok, u', sent. split; [exact Hrun|exact Hr].
Defined.

(** No replication request is made while a client waits, and otherwise never more
    than the configured window (and the seconds of idle time) minus the requests
    under way. *)
Theorem numWantedReplicationRequests_correct cfg u :
  uplink_wf u ->
  numWantedReplicationRequests cfg u
  = if forallb (fun e => bool_decide (qe_clients e = [])) (up_queue u)
    then Z.min (_bgrWindowSize cfg) (up_idleTime u + 1) - Z.of_nat (length (up_queue u)) else 0.
Proof.
  intros Hwf. unfold numWantedReplicationRequests. rewrite (uw_len _ Hwf), <- countReplication_spec.
  destruct (up_queue u) as [|e q]; [done|]. done.
Qed.

Lemma numWantedReplicationRequests_correct_witness :
  numWantedReplicationRequests demo_bgr demo_replicating = 4.
Proof.
  rewrite (numWantedReplicationRequests_correct demo_bgr demo_replicating (rp_wf _ _ demo_replicating_ok)).
  reflexivity.
Defined.
