(* ===== verification/Integrity.v ===== *)
(** * Integrity: the queue of hash block checks

    [src/server/integrity.c].  [integrity_check] is called by any thread;
    [integrity_main] is the one thread that works on the queue.  It holds the queue
    lock except while it reads and hashes blocks, so one turn on an entry is
    [pickEntry] (locked), [checkBlocks] (unlocked) and [finishCheck] (locked).

    The array [checkQueue] is the list of its first [queueLen] entries; a slot whose
    image is [NULL] is free.  The clock, the file and the checksums are arguments:
    [crcOk b] is the verdict of [image_checkBlocksCrc32] on hash block [b]. *)

From S2P Require Import Prelude Timing Types CacheMap.

Definition CHECK_QUEUE_SIZE : Z := 200.
Definition CHECK_ALL : Z := 2147483647.

Record queue_entry := CheckEntry { ce_image : ptr; ce_block : Z; ce_count : Z }.
#[global] Instance queue_entry_eq_dec : EqDecision queue_entry.
Proof. solve_decision. Defined.

(** ** Definitions *)

(** What the scan of [integrity_check] finds: an entry that covers the block
    already, one that ends right before it, or the first free slot, if any. *)
Inductive slot := Dominated | Attach (i : nat) | FreeSlot (i : option nat).

Fixpoint scanQueue (q : list queue_entry) (image : ptr) (block : Z) (i : nat) (free : option nat) : slot :=
  match q with
  | [] => FreeSlot free
  | e :: rest =>
      if bool_decide (free = None) && (ce_image e =? NULL) then scanQueue rest image block (S i) (Some i)
      else if (ce_image e =? image) && (ce_block e <=? block) then
        if ce_count e =? CHECK_ALL then Dominated
        else if ce_block e + ce_count e =? block then Attach i
        else if block <? ce_block e + ce_count e then Dominated
        else scanQueue rest image block (S i) free
      else scanQueue rest image block (S i) free
  end.

(** The new entry of a request; block -1 asks for the whole image. *)
Definition new_entry (image : ptr) (block : Z) : queue_entry :=
  if block =? -1 then CheckEntry image 0 CHECK_ALL else CheckEntry image block 1.

(** [None]: the queue is full; a blocking caller starts over later, another one
    gives up. *)
Definition integrity_check (q : list queue_entry) (image : ptr) (block : Z) : option (list queue_entry) :=
  match scanQueue q image block 0 None with
  | Dominated => Some q
  | Attach i =>
      match q !! i with
      | Some e => Some (<[i := CheckEntry (ce_image e) (ce_block e) (ce_count e + 1)]> q)
      | None => Some q
      end
  | FreeSlot (Some i) => Some (<[i := new_entry image block]> q)
  | FreeSlot None =>
      if CHECK_QUEUE_SIZE <=? Z.of_nat (length q) then None else Some (q ++ [new_entry image block])
  end.

(** Free slot [i], and shorten the queue if it is the last one. *)
Definition releaseSlot (q : list queue_entry) (i : nat) : list queue_entry :=
  if bool_decide (S i = length q) then take i q
  else match q !! i with
       | Some e => <[i := CheckEntry NULL (ce_block e) (ce_count e)]> q
       | None => q
       end.

(** [found] tells whether [image_lock] got the image.  [inl]: nothing to check, the
    queue without the entry; [inr]: the entry to work on. *)
Definition pickEntry (q : list queue_entry) (i : nat) (found : bool) : list queue_entry + option queue_entry :=
  match q !! i with
  | None => inr None
  | Some e => if (ce_count e =? 0) || negb found then inl (releaseSlot q i) else inr (Some e)
  end.

(** The verdict on one hash block, as far as the unlocked part reads it. *)
Record check_env := CheckEnv {
  ev_shutdown : bool;
  ev_haveFd : bool;         (* a file descriptor to read from *)
  ev_crcOk : Z -> bool;
}.

(** One iteration: the image, whether the block was complete, and whether it was
    found corrupted. *)
Definition checkBlock (env : check_env) (all : bool) (image : dnbd3_image_t) (block : Z)
  : result (dnbd3_image_t * bool * bool) :=
  let start := u64 (block * HASH_BLOCK_SIZE) in
  let end_ := Z.min (u64 (u64 (block + 1) * HASH_BLOCK_SIZE)) (img_virtualFilesize image) in
  complete ← (if all then image_isHashBlockComplete (img_cacheMap image) block (img_realFilesize image)
              else Ok true);
  if negb (ev_haveFd env) then Ok (image, complete, false)
  else if complete && negb (ev_crcOk env block) then
    '(image, _) ← image_updateCachemap (false, false) image start end_ false;
    Ok (image, complete, true)
  else Ok (image, complete, false).

(** The loop over the blocks of an entry of image [ptr]; [fuel] bounds the blocks of
    the image.  A corrupted block found by a partial check queues a full one.  The
    result has the queue, the image, the next block, the checks left and whether
    corruption was found. *)
Fixpoint checkBlocks (env : check_env) (ptr : Z) (all : bool) (numHashBlocks : Z) (fuel : nat)
    (q : list queue_entry) (image : dnbd3_image_t) (block checkCount : Z) (bad : bool)
  : result (list queue_entry * dnbd3_image_t * Z * Z * bool) :=
  match fuel with
  | O => Ok (q, image, block, checkCount, bad)
  | S fuel =>
      if (block <? numHashBlocks) && negb (ev_shutdown env) then
        '(image, complete, corrupted) ← checkBlock env all image block;
        let q := if corrupted && negb all then default q (integrity_check q ptr (-1)) else q in
        let checkCount := if (complete : bool) then checkCount - 1 else checkCount in
        if complete && (checkCount =? 0) then Ok (q, image, block + 1, checkCount, bad || corrupted)
        else checkBlocks env ptr all numHashBlocks fuel q image (block + 1) checkCount (bad || corrupted)
      else Ok (q, image, block, checkCount, bad)
  end.

(** The unlocked part of a turn on entry [e]. *)
Definition checkEntry (env : check_env) (q : list queue_entry) (image : dnbd3_image_t) (e : queue_entry)
  : result (list queue_entry * dnbd3_image_t * Z * Z * bool) :=
  let numHashBlocks := IMGSIZE_TO_HASHBLOCKS (img_realFilesize image) in
  checkBlocks env (ce_image e) (ce_count e =? CHECK_ALL) numHashBlocks (Z.to_nat (numHashBlocks - ce_block e)) q image
    (ce_block e) (Z.min (ce_count e) 5) false.

(** Write the result back; [qCount] is the count the turn started with. *)
Definition finishCheck (q : list queue_entry) (i : nat) (image : ptr) (qCount next checkCount : Z)
  : result (list queue_entry) :=
  match q !! i with
  | None => Fault OutOfBounds
  | Some e =>
      _ ← assert_ (ce_image e =? image);
      let count := if negb (qCount =? CHECK_ALL) then ce_count e - (next - ce_block e) else ce_count e in
      if (0 <? checkCount) || (count <=? 0)
      then Ok (releaseSlot (<[i := CheckEntry (ce_image e) (ce_block e) count]> q) i)
      else Ok (<[i := CheckEntry (ce_image e) next count]> q)
  end.

(** One turn of [integrity_main] on slot [i], no other thread interfering: the queue,
    the image and whether corruption was found. *)
Definition integrity_turn (env : check_env) (q : list queue_entry) (i : nat) (found : option dnbd3_image_t)
  : result (list queue_entry * option dnbd3_image_t * bool) :=
  match pickEntry q i (match found with Some _ => true | None => false end), found with
  | inl q, _ => Ok (q, found, false)
  | inr (Some e), Some image =>
      match img_crc32 image with
      | Some _ =>
          if img_realFilesize image =? 0 then Ok (q, found, false)
          else
            '(q, image, next, checkCount, bad) ← checkEntry env q image e;
            q ← finishCheck q i (ce_image e) (ce_count e) next checkCount;
            Ok (q, Some image, bad)
      | None => Ok (q, found, false)
      end
  | inr _, _ => Ok (q, found, false)
  end.

(** ** What the queue asks for *)

(** Hash block [b] of the image is to be checked. *)
Definition wanted (q : list queue_entry) (image : ptr) (b : Z) : Prop :=
  exists i e, q !! i = Some e /\ ce_image e = image /\ ce_block e <= b < ce_block e + ce_count e.

(** Block numbers are those of files below 2^55 bytes; counts are small or the mark
    for the whole image. *)
Definition entry_wf (e : queue_entry) : Prop :=
  0 <= ce_block e < 2 ^ 30 /\ (ce_count e = CHECK_ALL \/ 0 <= ce_count e <= 2 ^ 30).
Definition checks_wf (q : list queue_entry) : Prop :=
  Z.of_nat (length q) <= CHECK_QUEUE_SIZE /\ Forall entry_wf q.

(** Other threads only add to the queue: an entry in use keeps its image and block,
    and its count does not shrink. *)
Definition grows (q q' : list queue_entry) : Prop :=
  forall i e, q !! i = Some e -> ce_image e <> NULL ->
  exists e', q' !! i = Some e' /\ ce_image e' = ce_image e /\ ce_block e' = ce_block e
    /\ ce_count e <= ce_count e' /\ (ce_count e = CHECK_ALL <-> ce_count e' = CHECK_ALL).
#[global] Instance grows_preorder : PreOrder grows.
Proof.
  split; [intros q i e Hi _; by exists e|]. intros q1 q2 q3 H12 H23 i e Hi Hn.
  destruct (H12 i e Hi Hn) as (e2 & H2 & Himg & Hb & Hc & Hall).
  destruct (H23 i e2 H2) as (e3 & H3 & Himg3 & Hb3 & Hc3 & Hall3); [congruence|].
  exists e3. split_and!; [done|congruence..|lia|]. by rewrite Hall.
Qed.

Lemma grows_wanted q q' image b : image <> NULL -> grows q q' -> wanted q image b -> wanted q' image b.
Proof.
  intros Hn Hg (i & e & Hi & <- & Hb). destruct (Hg i e Hi Hn) as (e' & Hi' & Himg & Hblk & Hc & _).
  exists i, e'. split; [done|]. split; [done|lia].
Qed.

(** ** Queueing a check *)

(** What the scan from position [i] on found in [q]. *)
Definition slot_ok (q : list queue_entry) (image : ptr) (block : Z) (i : nat) (free : option nat) (s : slot) : Prop :=
  match s with
  | Dominated => exists k e, q !! k = Some e /\ ce_image e = image /\ ce_block e <= block
      /\ (ce_count e = CHECK_ALL \/ block < ce_block e + ce_count e)
  | Attach k => exists j e, k = (i + j)%nat /\ q !! j = Some e /\ ce_image e = image
      /\ ce_count e <> CHECK_ALL /\ ce_block e <= block /\ ce_block e + ce_count e = block
  | FreeSlot (Some k) => Some k = free \/ exists j e, k = (i + j)%nat /\ q !! j = Some e /\ ce_image e = NULL
  | FreeSlot None => free = None /\ forall j e, q !! j = Some e -> ce_image e <> NULL
  end.

Lemma slot_ok_cons e q image block i free free' s :
  (free' = free /\ (free = None -> ce_image e <> NULL)) \/ (free = None /\ free' = Some i /\ ce_image e = NULL) ->
  slot_ok q image block (S i) free' s -> slot_ok (e :: q) image block i free s.
Proof.
  intros Hfree. destruct s as [|k|[k|]]; cbn [slot_ok].
  - intros (k & e0 & H). by exists (S k), e0.
  - intros (j & e0 & -> & H). exists (S j), e0. split; [lia|done].
  - intros [Hk|(j & e0 & -> & H)].
    + destruct Hfree as [[-> _]|(-> & -> & Hnull)]; [by left|]. right. injection Hk as ->. exists 0%nat, e. split; [lia|done].
    + right. exists (S j), e0. split; [lia|done].
  - intros [-> Hall]. destruct Hfree as [[<- Hn]|(_ & [=] & _)]. split; [done|].
    intros [|j] e0 Hj; [injection Hj as <-; by apply Hn|by eapply Hall].
Qed.

Lemma scanQueue_spec q image block : forall i free,
  slot_ok q image block i free (scanQueue q image block i free).
Proof.
  induction q as [|e q IH]; intros i free; cbn [scanQueue].
  { destruct free; [by left|]. split; [done|]. intros j e Hj. by rewrite lookup_nil in Hj. }
  destruct (bool_decide_reflect (free = None)) as [Hnone|Hsome]; cbn [andb].
  1: destruct (Z.eqb_spec (ce_image e) NULL) as [Hnull|Hnn]; [eapply slot_ok_cons; [by right|apply IH]|].
  all: destruct (Z.eqb_spec (ce_image e) image) as [Himg|]; cbn [andb]; [|apply (slot_ok_cons _ _ _ _ _ free free); [left; by split|apply IH]].
  all: destruct (Z.leb_spec (ce_block e) block); [|apply (slot_ok_cons _ _ _ _ _ free free); [left; by split|apply IH]].
  all: destruct (Z.eqb_spec (ce_count e) CHECK_ALL); [exists 0%nat, e; by auto|].
  all: destruct (Z.eqb_spec (ce_block e + ce_count e) block); [exists 0%nat, e; split; [lia|by auto]|].
  all: destruct (Z.ltb_spec block (ce_block e + ce_count e)); [exists 0%nat, e; by auto|].
  all: apply (slot_ok_cons _ _ _ _ _ free free); [left; by split|apply IH].
Qed.

(** The blocks a request asks for. *)
Definition requested (block b : Z) : Prop := if block =? -1 then 0 <= b < CHECK_ALL else b = block.

Lemma new_entry_wf image block : -1 <= block < 2 ^ 30 -> entry_wf (new_entry image block).
Proof.
  intros Hb. unfold new_entry, entry_wf. destruct (Z.eqb_spec block (-1)); cbn; [split; [lia|by left]|].
  split; [lia|right; lia].
Qed.

Lemma new_entry_wanted image block b q i :
  q !! i = Some (new_entry image block) -> requested block b -> wanted q image b.
Proof.
  intros Hi. unfold requested. exists i, (new_entry image block). split; [done|]. unfold new_entry.
  destruct (Z.eqb_spec block (-1)); cbn; (split; [done|lia]).
Qed.

Lemma integrity_check_spec q image block q' :
  checks_wf q -> image <> NULL -> -1 <= block < 2 ^ 30 -> integrity_check q image block = Some q' ->
  checks_wf q' /\ grows q q' /\ (forall b, requested block b -> wanted q' image b).
Proof.
  intros [Hlen Hwf] Hn Hb. unfold integrity_check. pose proof (scanQueue_spec q image block 0 None) as Hs.
  destruct (scanQueue q image block 0 None) as [|k|[k|]]; cbn [slot_ok] in Hs.
  - intros [= <-]. split; [done|]. split; [done|]. destruct Hs as (k & e & Hk & Himg & Hle & Hor).
    destruct (proj1 (Forall_lookup _ _) Hwf k e Hk) as [He1 He2].
    intros b Hreq. unfold requested in Hreq. destruct (Z.eqb_spec block (-1)); [lia|]. subst b.
    exists k, e. split; [done|]. split; [done|]. unfold CHECK_ALL in *. lia.
  - destruct Hs as (j & e & -> & Hj & Himg & Hall & Hle & Heq). cbn [Nat.add]. rewrite Hj. intros [= <-].
    pose proof (lookup_lt_Some _ _ _ Hj) as Hlt.
    destruct (proj1 (Forall_lookup _ _) Hwf j e Hj) as [He1 He2].
    split; [split; [by rewrite length_insert|apply Forall_insert; [done|]; split; cbn; [lia|right; unfold CHECK_ALL in *; lia]]|].
    split.
    + intros i0 e0 Hi0 Hn0. destruct (decide (i0 = j)) as [->|Hne].
      * rewrite Hj in Hi0. injection Hi0 as <-. eexists. rewrite list_lookup_insert_eq by done. split; [done|].
        cbn. split_and!; try done; [lia|]. unfold CHECK_ALL in *. lia.
      * exists e0. rewrite list_lookup_insert_ne by done. by split_and!.
    + intros b Hreq. unfold requested in Hreq. destruct (Z.eqb_spec block (-1)); [lia|]. subst b.
      exists j. eexists. rewrite list_lookup_insert_eq by done. split; [done|]. cbn. split; [done|lia].
  - destruct Hs as [[=]|(j & e & -> & Hj & Hnull)]. cbn [Nat.add]. intros [= <-].
    pose proof (lookup_lt_Some _ _ _ Hj) as Hlt.
    split; [split; [by rewrite length_insert|apply Forall_insert; [done|by apply new_entry_wf]]|]. split.
    + intros i0 e0 Hi0 Hn0. destruct (decide (i0 = j)) as [->|Hne]; [congruence|].
      exists e0. rewrite list_lookup_insert_ne by done. by split_and!.
    + intros b Hreq. eapply new_entry_wanted; [by apply list_lookup_insert_eq|done].
  - destruct (Z.leb_spec CHECK_QUEUE_SIZE (Z.of_nat (length q))); [done|]. intros [= <-].
    split; [split; [rewrite length_app; cbn; lia|apply Forall_app; split; [done|]; constructor; [by apply new_entry_wf|constructor]]|].
    split.
    + intros i0 e0 Hi0 Hn0. exists e0. rewrite lookup_app_l by (by eapply lookup_lt_Some). by split_and!.
    + intros b Hreq. eapply (new_entry_wanted _ _ _ _ (length q)); [|done]. by rewrite lookup_app_r, Nat.sub_diag by lia.
Qed.

(** ** Checking blocks *)

Lemma hash_blocks_val real : 0 <= real <= 2 ^ 46 -> IMGSIZE_TO_HASHBLOCKS real = (real + 16777215) / 16777216.
Proof.
  intros Hr. unfold IMGSIZE_TO_HASHBLOCKS. rewrite HASH_BLOCK_SIZE_val, u64_id by crange.
  replace (real + 16777216 - 1) with (real + 16777215) by lia. apply i32_id.
  assert (0 <= (real + 16777215) / 16777216) by (apply Z.div_pos; lia).
  assert ((real + 16777215) / 16777216 < 2 ^ 31) by (apply Z.div_lt_upper_bound; lia). crange.
Qed.

(** All of the hash block that lies in the file is cached. *)
Definition hash_complete (image : dnbd3_image_t) (h : Z) : Prop :=
  forall b, in_hash_block h (img_realFilesize image) b -> is_cached image b = true.

Lemma hash_complete_spec image h :
  image_wf image -> 0 <= h < 2 ^ 31 ->
  exists r, image_isHashBlockComplete (img_cacheMap image) h (img_realFilesize image) = Ok r
    /\ (r = true <-> hash_complete image h).
Proof.
  intros Hwf Hh. unfold hash_complete, is_cached. destruct (img_cacheMap image) as [c|] eqn:Hc.
  - apply (image_isHashBlockComplete_spec c (img_virtualFilesize image)); [by apply Hwf|by apply virtual_nonneg|apply Hwf|done].
  - exists true. split; [done|]. by split.
Qed.

(** The range the checker clears is the hash block. *)
Lemma covered_hash image h b :
  image_wf image -> 0 <= h -> 16777216 * h < img_realFilesize image -> 0 <= b < num_blocks image ->
  covered false (16777216 * h) (Z.min (16777216 * (h + 1)) (img_virtualFilesize image)) b = (b / 4096 =? h).
Proof.
  intros Hwf Hh Hr Hb. pose proof (virtual_nonneg _ Hwf). unfold num_blocks, DNBD3_BLOCK_SIZE in Hb.
  pose proof (Z.div_mod b 4096 ltac:(lia)). pose proof (Z.mod_pos_bound b 4096 ltac:(lia)).
  pose proof (Z.div_mod (img_virtualFilesize image) 4096 ltac:(lia)).
  pose proof (Z.mod_pos_bound (img_virtualFilesize image) 4096 ltac:(lia)).
  apply eq_true_iff_eq. cbn [covered]. rewrite andb_true_iff, !Z.ltb_lt, Z.eqb_eq. lia.
Qed.

(** The checker drops hash block [h]: it is readable, it fails its checksum and, in
    a check of the whole image, it is complete. *)
Definition fails (env : check_env) (all : bool) (image : dnbd3_image_t) (h : Z) : Prop :=
  ev_haveFd env = true /\ ev_crcOk env h = false /\ (all = true -> hash_complete image h).

(** The sizes of the image stay. *)
Definition same_size (i i' : dnbd3_image_t) : Prop :=
  img_virtualFilesize i' = img_virtualFilesize i /\ img_realFilesize i' = img_realFilesize i
  /\ img_crc32 i' = img_crc32 i.

Section Check.
Context (env : check_env) (all : bool).

Lemma checkBlock_spec image h :
  image_wf image -> 0 <= h -> 16777216 * h < img_realFilesize image ->
  exists image' complete corrupted, checkBlock env all image h = Ok (image', complete, corrupted)
    /\ image_wf image' /\ same_size image image'
    /\ (all = false -> complete = true)
    /\ (corrupted = true <-> fails env all image h)
    /\ (forall b, 0 <= b < num_blocks image ->
          is_cached image' b = is_cached image b && negb (corrupted && (b / 4096 =? h))).
Proof.
  intros Hwf Hh Hr. pose proof (virtual_nonneg _ Hwf). pose proof (wf_limit _ Hwf).
  unfold checkBlock, fails. rewrite HASH_BLOCK_SIZE_val.
  rewrite (u64_id (h * _)), (u64_id (h + 1)), (u64_id ((h + 1) * _)) by crange.
  replace (h * 16777216) with (16777216 * h) by lia. replace ((h + 1) * 16777216) with (16777216 * (h + 1)) by lia.
  assert (Hc : exists r, (if all then image_isHashBlockComplete (img_cacheMap image) h (img_realFilesize image) else Ok true) = Ok r
    /\ (all = false -> r = true) /\ (r = true <-> (all = true -> hash_complete image h))).
  { destruct all.
    - destruct (hash_complete_spec image h Hwf) as (r & -> & Hr'); [lia|]. exists r. split; [done|]. split; [done|].
      rewrite Hr'. split; [by intros|intros HH; by apply HH].
    - exists true. split; [done|]. split; [done|]. by split. }
  destruct Hc as (complete & -> & Hall & Hcomp). cbn [mbind result_bind].
  assert (Hkeep : forall (P : Prop), ~ P -> (all = false -> complete = true) ->
    exists image' c corrupted, Ok (image, complete, false) = Ok (image', c, corrupted)
    /\ image_wf image' /\ same_size image image' /\ (all = false -> c = true) /\ (corrupted = true <-> P)
    /\ (forall b, 0 <= b < num_blocks image ->
          is_cached image' b = is_cached image b && negb (corrupted && (b / 4096 =? h)))).
  { intros P HP Hal. exists image, complete, false. split; [done|]. split; [done|]. split; [done|]. split; [done|].
    split; [by split|]. intros. by rewrite andb_true_r. }
  destruct (ev_haveFd env); cbn [negb]; [|apply Hkeep; [by intros [? _]|done]].
  destruct complete; cbn [andb]; [|apply Hkeep; [by intros (_ & _ & ?%Hcomp)|done]].
  destruct (ev_crcOk env h); cbn [negb]; [apply Hkeep; [by intros (_ & ? & _)|done]|].
  destruct (image_updateCachemap_spec (false, false) image (16777216 * h)
    (Z.min (16777216 * (h + 1)) (img_virtualFilesize image)) false Hwf) as (image' & checks & Hup & Hwf' & Hb & _); [lia|lia|].
  rewrite Hup. cbn [mbind result_bind]. exists image', true, true.
  destruct (updateCachemap_sizes _ _ _ _ _ _ _ Hup) as (? & ? & ?).
  split; [done|]. split; [done|]. split; [done|]. split; [done|]. split.
  - split; [|done]. intros _. split; [done|]. split; [done|]. by apply Hcomp.
  - intros b Hbr. rewrite Hb by done. cbn [upd andb]. by rewrite covered_hash.
Qed.

(** The result of the loop from [block] on. *)
Record checked (N : Z) (q : list queue_entry) (image : dnbd3_image_t) (block count : Z)
    (q' : list queue_entry) (image' : dnbd3_image_t) (next count' : Z) : Prop := {
  ck_wf : image_wf image';
  ck_size : same_size image image';
  ck_range : block <= next <= Z.max block N;
  ck_count : 0 <= count' <= count /\ (all = false -> count' = count - (next - block));
  ck_end : 0 < count' -> N <= next \/ ev_shutdown env = true;
  ck_queue : checks_wf q' /\ grows q q';
  ck_cached : forall b, 0 <= b < num_blocks image ->
    (is_cached image' b = true <->
     is_cached image b = true /\ ~ (block <= b / 4096 < next /\ fails env all image (b / 4096)));
}.

Lemma checked_none N q image block count :
  image_wf image -> checks_wf q -> 0 <= count -> (0 < count -> N <= block \/ ev_shutdown env = true) ->
  checked N q image block count q image block count.
Proof.
  intros Hwf Hq Hc Hend. split; try done; [lia|lia|]. intros b Hb. split; [|by intros [? _]].
  intros Hcached. split; [done|]. lia.
Qed.

(** Blocks of other hash blocks look the same after one was dropped. *)
Lemma fails_other image image1 h h' (corrupted : bool) :
  image_wf image -> same_size image image1 -> h <> h' ->
  (forall b, 0 <= b < num_blocks image ->
     is_cached image1 b = is_cached image b && negb (corrupted && (b / 4096 =? h))) ->
  0 <= h' -> fails env all image1 h' <-> fails env all image h'.
Proof.
  intros Hwf (Hv & Hr & _) Hne Hb Hh'. pose proof (virtual_nonneg _ Hwf). pose proof (wf_virtual _ Hwf) as Hvv.
  assert (Hsame : hash_complete image1 h' <-> hash_complete image h').
  { unfold hash_complete. rewrite Hr. split; intros H0 b Hin; specialize (H0 b Hin); unfold in_hash_block in Hin.
    all: assert (Hb4 : b / 4096 = h') by (symmetry; apply Z.div_unique with (r := b - 4096 * h'); lia).
    all: rewrite Hb in *; [|unfold num_blocks, DNBD3_BLOCK_SIZE; split; [lia|]].
    all: try (destruct (Z.eqb_spec (b / 4096) h); [lia|]; rewrite andb_false_r, andb_true_r in *; done).
    all: apply Z.lt_le_trans with (b + 1); [lia|]; apply Z.div_le_lower_bound; [lia|].
    all: rewrite Hvv; assert (b + 1 <= (img_realFilesize image + 4095) / 4096); [|lia]; apply Z.div_le_lower_bound; lia. }
  unfold fails. by rewrite Hsame.
Qed.

(** One block checked, then the rest. *)
Lemma cached_extend image image1 block (corrupted : bool) :
  image_wf image -> same_size image image1 -> (corrupted = true <-> fails env all image block) ->
  (forall b, 0 <= b < num_blocks image ->
     is_cached image1 b = is_cached image b && negb (corrupted && (b / 4096 =? block))) ->
  forall next (im' : dnbd3_image_t), block + 1 <= next ->
  (forall b, 0 <= b < num_blocks image -> is_cached im' b = true <->
     is_cached image1 b = true /\ ~ (block + 1 <= b / 4096 < next /\ fails env all image1 (b / 4096))) ->
  forall b, 0 <= b < num_blocks image -> is_cached im' b = true <->
     is_cached image b = true /\ ~ (block <= b / 4096 < next /\ fails env all image (b / 4096)).
Proof.
  intros Hwf Hs1 Hcor Hb1 next im' Hnext Him b Hbr.
  rewrite (Him b Hbr), Hb1, andb_true_iff, negb_true_iff, andb_false_iff, Z.eqb_neq by done.
  destruct (Z.eq_dec (b / 4096) block) as [->|Hne].
  - rewrite <- Hcor. destruct corrupted; split; try (intros [[? [?|?]] ?]; done || (split; [done|]; by intros [_ ?])).
    + intros [? Hno]. destruct Hno. split; [lia|done].
    + intros [? _]. split; [split; [done|by left]|]. intros [? _]. lia.
  - rewrite (fails_other image image1 block (b / 4096) corrupted Hwf Hs1 ltac:(done) Hb1) by (apply Z.div_pos; lia).
    split; [intros [[? _] Hno]|intros [? Hno]]; (split; [try split; try done; by right|]);
      intros [? ?]; apply Hno; (split; [lia|done]).
Qed.

Lemma checkBlocks_spec ptr N : ptr <> NULL -> forall fuel q image block count bad,
  image_wf image -> (forall h, 0 <= h < N -> 16777216 * h < img_realFilesize image) ->
  checks_wf q -> 0 <= block -> 0 < count -> N - block <= Z.of_nat fuel ->
  exists q' image' next count' bad',
    checkBlocks env ptr all N fuel q image block count bad = Ok (q', image', next, count', bad')
    /\ checked N q image block count q' image' next count'.
Proof.
  intros Hptr. induction fuel as [|fuel IH]; intros q image block count bad Hwf HN Hq Hb Hc Hfuel; cbn [checkBlocks].
  { exists q, image, block, count, bad. split; [done|]. apply checked_none; [done|done|lia|lia]. }
  destruct (Z.ltb_spec block N); cbn [andb].
  2: { exists q, image, block, count, bad. split; [done|]. apply checked_none; [done|done|lia|by left]. }
  destruct (ev_shutdown env) eqn:Hsd; cbn [negb].
  { exists q, image, block, count, bad. split; [done|]. apply checked_none; [done|done|lia|by right]. }
  destruct (checkBlock_spec image block Hwf Hb (HN block ltac:(lia))) as (image1 & complete & corrupted & -> & Hwf1 & Hs1 & Hcomp & Hcor & Hb1).
  cbn [mbind result_bind]. set (q1 := if corrupted && negb all then _ else q).
  assert (Hq1 : checks_wf q1 /\ grows q q1).
  { unfold q1. destruct (corrupted && negb all); [|done]. destruct (integrity_check q ptr (-1)) as [q2|] eqn:Hic; [|done].
    by destruct (integrity_check_spec q ptr (-1) q2 Hq Hptr ltac:(lia) Hic) as (? & ? & _). }
  destruct Hq1 as [Hq1 Hg1].
  assert (Hnb : num_blocks image1 = num_blocks image) by (unfold num_blocks; by rewrite (proj1 Hs1)).
  pose proof (cached_extend image image1 block corrupted Hwf Hs1 Hcor Hb1) as Hsplit.
  set (count1 := if complete then count - 1 else count).
  assert (Hcount1 : 0 <= count1 <= count /\ (all = false -> count1 = count - 1)).
  { unfold count1. split; [destruct complete; lia|]. intros Ha. by rewrite (Hcomp Ha). }
  destruct (complete && (count1 =? 0)) eqn:Hstop.
  - exists q1, image1, (block + 1), count1, (bad || corrupted). split; [done|].
    apply andb_prop in Hstop as [_ Hz%Z.eqb_eq]. split; try done; [lia| |lia|].
    { split; [lia|]. intros Ha. rewrite (proj2 Hcount1 Ha). lia. }
    apply Hsplit; [lia|]. intros b Hbr. split; [intros ?; split; [done|lia]|by intros [? _]].
  - destruct (IH q1 image1 (block + 1) count1 (bad || corrupted)) as (q' & image' & next & count' & bad' & -> & [? Hsz Hrg [Hc1 Hc2] Hen [? ?] Hca]);
      [done|by rewrite (proj1 (proj2 Hs1))|done|lia| |lia|].
    { unfold count1 in *. destruct complete; [|lia]. cbn in Hstop. apply Z.eqb_neq in Hstop. lia. }
    exists q', image', next, count', bad'. split; [done|]. split; try done.
    + destruct Hs1 as (? & ? & ?), Hsz as (? & ? & ?). split; [congruence|split; congruence].
    + lia.
    + split; [lia|]. intros Ha. rewrite (Hc2 Ha). destruct Hcount1 as [_ Hc3]. rewrite (Hc3 Ha). lia.
    + split; [done|]. by transitivity q1.
    + apply Hsplit; [lia|]. by rewrite <- Hnb.
Qed.
End Check.

(** ** Finishing a turn *)

Lemma releaseSlot_lookup q i k e : q !! k = Some e -> k <> i -> releaseSlot q i !! k = Some e.
Proof.
  intros Hk Hne. unfold releaseSlot. pose proof (lookup_lt_Some _ _ _ Hk). case_bool_decide.
  - rewrite lookup_take_lt by lia. done.
  - destruct (q !! i); [|done]. by rewrite list_lookup_insert_ne.
Qed.

Lemma releaseSlot_wf q i : checks_wf q -> checks_wf (releaseSlot q i).
Proof.
  intros [Hl Hf]. unfold releaseSlot. case_bool_decide; [split; [rewrite length_take; lia|by apply Forall_take]|].
  destruct (q !! i) as [e|] eqn:Hi; [|done]. split; [by rewrite length_insert|]. apply Forall_insert; [done|].
  by destruct (proj1 (Forall_lookup _ _) Hf i e Hi).
Qed.

Section Finish.
Context (q : list queue_entry) (i : nat) (e0 e : queue_entry) (next checkCount : Z).
Hypothesis Hq : checks_wf q.
Hypothesis Hi : q !! i = Some e.
Hypothesis Himg : ce_image e = ce_image e0.
Hypothesis Hblk : ce_block e = ce_block e0.
Hypothesis Hcnt : ce_count e0 <= ce_count e.
Hypothesis Hall : ce_count e0 = CHECK_ALL <-> ce_count e = CHECK_ALL.
Hypothesis Hnext : ce_block e0 <= next < 2 ^ 30.
Hypothesis Hpart : ce_count e0 <> CHECK_ALL -> next - ce_block e0 <= ce_count e0.

(** The entry's own check is the assertion of [integrity_main], and its counter does
    not run negative; what is dropped is what was checked. *)
Lemma finishCheck_spec :
  exists q', finishCheck q i (ce_image e0) (ce_count e0) next checkCount = Ok q' /\ checks_wf q'
    /\ forall image b, wanted q image b ->
         wanted q' image b
         \/ (image = ce_image e0 /\ ce_block e0 <= b /\ (b < next \/ 0 < checkCount)).
Proof.
  unfold finishCheck. rewrite Hi, (proj2 (Z.eqb_eq _ _) Himg). cbn [assert_ mbind result_bind].
  pose proof (lookup_lt_Some _ _ _ Hi) as Hlt. destruct Hq as [Hlen Hf].
  destruct (proj1 (Forall_lookup _ _) Hf i e Hi) as [He1 He2].
  set (count := if negb (ce_count e0 =? CHECK_ALL) then _ else _).
  assert (Hcount : (ce_count e0 = CHECK_ALL -> count = CHECK_ALL)
    /\ (ce_count e0 <> CHECK_ALL -> 0 <= count <= 2 ^ 30 /\ count = ce_count e - (next - ce_block e0))).
  { unfold count. destruct (Z.eqb_spec (ce_count e0) CHECK_ALL); cbn [negb]; (split; [|]); try done; [by intros; apply Hall|].
    intros _. specialize (Hpart ltac:(done)). rewrite Hblk. destruct He2 as [Hx|?]; [by apply Hall in Hx|lia]. }
  assert (Hother : forall q' image b, (forall k e', q !! k = Some e' -> k <> i -> q' !! k = Some e') ->
    wanted q image b -> wanted q' image b \/ (image = ce_image e0 /\ ce_block e <= b < ce_block e + ce_count e)).
  { intros q' image b Hk (k & e' & Hke & <- & Hb). destruct (decide (k = i)) as [->|Hne].
    - rewrite Hi in Hke. injection Hke as <-. right. by split.
    - left. exists k, e'. split; [by apply Hk|done]. }
  destruct (Z.ltb_spec 0 checkCount) as [Hpos|Hzero]; cbn [orb]; [|destruct (Z.leb_spec count 0)].
  - eexists. split; [done|]. split.
    + apply releaseSlot_wf. split; [by rewrite length_insert|]. apply Forall_insert; [done|].
      split; cbn; [lia|]. destruct (Z.eq_dec (ce_count e0) CHECK_ALL); [left; by apply Hcount|right; by apply Hcount].
    + intros image b Hw. destruct (Hother (releaseSlot (<[i := CheckEntry (ce_image e) (ce_block e) count]> q) i) image b)
        as [?|[-> ?]]; [|done|by left|right; split; [done|split; [lia|by right]]].
      intros k e' Hk Hne. apply releaseSlot_lookup; [by rewrite list_lookup_insert_ne|done].
  - assert (Hn : ce_count e0 <> CHECK_ALL) by (intros Hc; rewrite (proj1 Hcount Hc) in *; unfold CHECK_ALL in *; lia).
    destruct (proj2 Hcount Hn) as [? Hce].
    eexists. split; [done|]. split.
    + apply releaseSlot_wf. split; [by rewrite length_insert|]. apply Forall_insert; [done|]. split; cbn; [lia|by right].
    + intros image b Hw. destruct (Hother (releaseSlot (<[i := CheckEntry (ce_image e) (ce_block e) count]> q) i) image b)
        as [?|[-> ?]]; [|done|by left|right; split; [done|split; [lia|left; lia]]].
      intros k e' Hk Hne. apply releaseSlot_lookup; [by rewrite list_lookup_insert_ne|done].
  - eexists. split; [done|]. split.
    + split; [by rewrite length_insert|]. apply Forall_insert; [done|].
      split; cbn; [lia|]. destruct (Z.eq_dec (ce_count e0) CHECK_ALL); [left; by apply Hcount|right; by apply Hcount].
    + intros image b Hw. destruct (Hother (<[i := CheckEntry (ce_image e) next count]> q) image b) as [?|[-> Hb]];
        [|done|by left|].
      { intros k e' Hk Hne. by rewrite list_lookup_insert_ne. }
      destruct (Z.lt_ge_cases b next); [right; split; [done|split; [lia|left; lia]]|]. left. exists i. eexists.
      rewrite list_lookup_insert_eq by done. split; [done|]. cbn. split; [done|].
      destruct (Z.eq_dec (ce_count e0) CHECK_ALL) as [Hc|Hc].
      * rewrite (proj1 Hcount Hc). rewrite <- (proj1 Hall Hc). lia.
      * destruct (proj2 Hcount Hc) as [_ ->]. lia.
Qed.
End Finish.

(** ** Theorems *)

(** A request that [integrity_check] does not turn away for want of space is in
    the queue afterwards, however it was merged with other requests: the block
    (or every block, for a request for the whole image) is to be checked, and so
    is everything that was before; the queue keeps its bounds and no entry in use
    moves. *)
Theorem integrity_check_covers q image block q' :
  checks_wf q -> image <> NULL -> -1 <= block < 2 ^ 30 -> integrity_check q image block = Some q' ->
  checks_wf q' /\ grows q q'
  /\ (forall b, requested block b -> wanted q' image b)
  /\ (forall image' b, image' <> NULL -> wanted q image' b -> wanted q' image' b).
Proof.
  intros Hq Hn Hb Hc. destruct (integrity_check_spec q image block q' Hq Hn Hb Hc) as (Hq' & Hg & Hw).
  split; [done|]. split; [done|]. split; [done|]. intros image' b Hn' Hw'. by eapply grows_wanted.
Qed.

Definition demo_checks : list queue_entry := [CheckEntry 7 2 3; CheckEntry NULL 0 0].

Lemma demo_checks_wf : checks_wf demo_checks.
Proof. split; [done|]. repeat constructor; cbn; lia. Qed.

Lemma integrity_check_covers_witness :
  integrity_check demo_checks 7 5 = Some [CheckEntry 7 2 4; CheckEntry NULL 0 0]
  /\ wanted [CheckEntry 7 2 4; CheckEntry NULL 0 0] 7 5.
Proof.
  assert (Hc : integrity_check demo_checks 7 5 = Some [CheckEntry 7 2 4; CheckEntry NULL 0 0]) by reflexivity.
  destruct (integrity_check_covers demo_checks 7 5 _ demo_checks_wf ltac:(discriminate) ltac:(lia) Hc) as (_ & _ & Hw & _).
  split; [exact Hc|]. apply Hw. reflexivity.
Defined.

(** C20. A turn of the checker on an entry ends, and other threads may add requests
    while it reads the file: the assertion on the entry holds and the counter does
    not run negative; a block of the image stays cached exactly if it was and its
    hash block was not found corrupted; and a hash block that was to be checked when the turn is over still
    is, except those of this image that lie in the range the turn has worked through or behind the end of the image, or any
    of this image when the server shuts down.  The first exception loses requests: one that is made during the turn for a block the turn has
    already passed is dropped without another check ([check_request_lost]). *)
Theorem integrity_turn_correct env q i e image :
  checks_wf q -> q !! i = Some e -> ce_image e <> NULL -> 0 < ce_count e -> image_wf image ->
  let N := IMGSIZE_TO_HASHBLOCKS (img_realFilesize image) in
  exists q1 image' next count bad,
    checkEntry env q image e = Ok (q1, image', next, count, bad)
    /\ image_wf image' /\ ce_block e <= next
    /\ (forall b, 0 <= b < num_blocks image ->
         (is_cached image' b = true <->
          is_cached image b = true
          /\ ~ (ce_block e <= b / 4096 < next /\ fails env (ce_count e =? CHECK_ALL) image (b / 4096))))
    /\ forall q2, checks_wf q2 -> grows q1 q2 ->
       exists q3, finishCheck q2 i (ce_image e) (ce_count e) next count = Ok q3 /\ checks_wf q3
         /\ forall im b, wanted q2 im b -> wanted q3 im b
              \/ (im = ce_image e /\ (ce_block e <= b < next \/ N <= b \/ ev_shutdown env = true)).
Proof.
  intros Hq Hi Hn Hc Hwf N. pose proof (virtual_nonneg _ Hwf). pose proof (wf_limit _ Hwf).
  destruct (proj1 (Forall_lookup _ _) (proj2 Hq) i e Hi) as [He1 He2].
  assert (HN : N = (img_realFilesize image + 16777215) / 16777216) by (apply hash_blocks_val; lia).
  pose proof (Z.div_mod (img_realFilesize image + 16777215) 16777216 ltac:(lia)).
  pose proof (Z.mod_pos_bound (img_realFilesize image + 16777215) 16777216 ltac:(lia)).
  unfold checkEntry. fold N.
  destruct (checkBlocks_spec env (ce_count e =? CHECK_ALL) (ce_image e) N Hn (Z.to_nat (N - ce_block e)) q image
    (ce_block e) (Z.min (ce_count e) 5) false) as (q1 & image' & next & count & bad & Hrun & [Hwf' _ Hrg Hct Hend [Hq1 Hg1] Hca]);
    [done|intros; lia|done|lia|lia|lia|].
  exists q1, image', next, count, bad. split; [done|]. split; [done|]. split; [lia|]. split; [done|].
  intros q2 Hq2 Hg2. assert (Hg : grows q q2) by (by transitivity q1).
  destruct (Hg i e Hi Hn) as (e2 & Hi2 & Himg & Hblk & Hcnt & Hall).
  destruct (finishCheck_spec q2 i e e2 next count Hq2 Hi2 Himg Hblk Hcnt Hall) as (q3 & Hfin & Hq3 & Hw); [lia| |].
  { intros Hne. destruct Hct as [Hct Hpart]. rewrite (Hpart (proj2 (Z.eqb_neq _ _) Hne)) in Hct. lia. }
  exists q3. split; [done|]. split; [done|]. intros im b Hwant.
  destruct (Hw im b Hwant) as [?|(-> & Hb & [Hlt|Hpos])]; [by left|right; split; [done|left; lia]|].
  right. split; [done|]. destruct (Hend Hpos); [|by right; right].
  destruct (Z.lt_ge_cases b next); [left; lia|right; left; lia].
Qed.

Lemma integrity_turn_correct_witness :
  exists q1 image' next count bad,
    checkEntry (CheckEnv false true (fun _ => false)) [CheckEntry 7 0 1] demo_image (CheckEntry 7 0 1)
      = Ok (q1, image', next, count, bad)
    /\ image_wf image'.
Proof.
  destruct (integrity_turn_correct (CheckEnv false true (fun _ => false)) [CheckEntry 7 0 1] 0 (CheckEntry 7 0 1) demo_image)
    as (q1 & image' & next & count & bad & Hrun & Hwf & _).
  - split; [done|]. repeat constructor; cbn; lia.
  - reflexivity.
  - discriminate.
  - cbn. lia.
  - apply demo_image_wf.
  - exists q1, image', next, count, bad. split; [exact Hrun|exact Hwf].
Defined.

(** ** A request that gets lost *)

(** A request for a block that the turn under way has passed already is taken as
    covered by the entry being worked on, and is gone with it: the block, complete
    again after it was dropped, is not checked any more. *)
Theorem check_request_lost :
  let q := [CheckEntry 7 0 3] in
  integrity_check q 7 0 = Some q
  /\ finishCheck q 0 7 3 3 0 = Ok []
  /\ ~ wanted [] 7 0.
Proof.
  split; [reflexivity|]. split; [|by intros (i & e & Hi & _)].
  reflexivity.
Qed.
