(* ===== verification/AltServers.v ===== *)
(** * AltServers: the table of alternative servers of [src/server/altservers.c]

    The array [altServers] up to [numAltServers] is a list (no entry is ever
    removed); the per-uplink array [altData] is a list of [SERVER_MAX_ALTS]
    entries.  [rand] draws from a stream of numbers.  Every operation runs with
    [altServersLock] held and is one step. *)

From Stdlib Require Import Ascii.
From S2P Require Import Prelude Timing Types Helper.

Definition COMMENT_LENGTH : Z := 120.

(** ** Random numbers *)

Record rng := Rng { rng_stream : nat -> Z; rng_pos : nat }.
Definition rand (r : rng) : Z * rng :=
  (rng_stream r (rng_pos r), Rng (rng_stream r) (S (rng_pos r))).
(** [rand] returns values between 0 and [RAND_MAX]. *)
Definition rng_ok (r : rng) : Prop := forall n, 0 <= rng_stream r n < 2 ^ 31.

(** ** Field updates *)

Definition as_set_fail (fails : Z) (blocked : bool) (last : ticks) (a : dnbd3_alt_server_t) : dnbd3_alt_server_t :=
  AltServer fails (as_rttIndex a) (as_rtt a) (as_isPrivate a) (as_isClientOnly a) blocked last
    (as_host a) (as_comment a) (as_nameSpaces a).
Definition as_set_rtt (index : Z) (rtt : list Z) (a : dnbd3_alt_server_t) : dnbd3_alt_server_t :=
  AltServer (as_fails a) index rtt (as_isPrivate a) (as_isClientOnly a) (as_blocked a) (as_lastFail a)
    (as_host a) (as_comment a) (as_nameSpaces a).
Definition as_set_mode (isPrivate isClientOnly : bool) (comment : string) (ns : list string)
    (a : dnbd3_alt_server_t) : dnbd3_alt_server_t :=
  AltServer (as_fails a) (as_rttIndex a) (as_rtt a) isPrivate isClientOnly (as_blocked a) (as_lastFail a)
    (as_host a) comment ns.
Definition as_set_host (h : dnbd3_host_t) (a : dnbd3_alt_server_t) : dnbd3_alt_server_t :=
  AltServer (as_fails a) (as_rttIndex a) (as_rtt a) (as_isPrivate a) (as_isClientOnly a) (as_blocked a)
    (as_lastFail a) h (as_comment a) (as_nameSpaces a).
Definition al_set_fail (fails : Z) (blocked : bool) (l : dnbd3_alt_local_t) : dnbd3_alt_local_t :=
  AltLocal fails (al_rttIndex l) (al_rtt l) blocked (al_initDone l).
(** The zeroed slots of the static array. *)
Definition emptySlot : dnbd3_alt_server_t :=
  AltServer 0 0 (replicate 5 0) false false false (Ticks 0 0) (Host (replicate 16 0) 0 HOST_NONE) "" [].

(** ** Adding servers *)

(** [snprintf(comment, COMMENT_LENGTH, "%s", ...)] *)
Definition putComment (s : string) : string := String.substring 0 (Z.to_nat (COMMENT_LENGTH - 1)) s.

(** The scan for the host ([inl] its index) and for an empty slot. *)
Fixpoint addScan (l : list dnbd3_alt_server_t) (i freeSlot : Z) (host : dnbd3_host_t) : Z + Z :=
  match l with
  | [] => inr freeSlot
  | a :: l' =>
      if isSameAddressPort (as_host a) host then inl i
      else addScan l' (i + 1)
             (if (freeSlot =? -1) && (host_type (as_host a) =? 0) then i else freeSlot) host
  end.
Definition fillSlot (a : dnbd3_alt_server_t) (host : dnbd3_host_t) (comment : option string)
    (isPrivate isClientOnly : bool) : dnbd3_alt_server_t :=
  as_set_mode isPrivate isClientOnly
    (match comment with Some c => putComment c | None => as_comment a end) [] (as_set_host host a).
(** The table, [*index] and the result. *)
Definition altservers_add (alts : list dnbd3_alt_server_t) (host : dnbd3_host_t) (comment : option string)
    (isPrivate isClientOnly : bool) : list dnbd3_alt_server_t * Z * bool :=
  match addScan alts 0 (-1) host with
  | inl i => (alts, i, false)
  | inr freeSlot =>
      if freeSlot =? -1 then
        if SERVER_MAX_ALTS <=? Z.of_nat (length alts) then (alts, -1, false)
        else (alts ++ [fillSlot emptySlot host comment isPrivate isClientOnly], Z.of_nat (length alts), true)
      else (alter (fun a => fillSlot a host comment isPrivate isClientOnly) (Z.to_nat freeSlot) alts, freeSlot, true)
  end.

(** A [key = value] line of a section of the [alt-servers] file; the section is the
    host. *)
Definition applyAltKey (key value : string) (a : dnbd3_alt_server_t) : dnbd3_alt_server_t :=
  if decide (key = "for") then
    if String.prefix "client" value then as_set_mode false true (as_comment a) (as_nameSpaces a) a
    else if decide (value = "replication") then as_set_mode true false (as_comment a) (as_nameSpaces a) a
    else a
  else if decide (key = "comment") then
    as_set_mode (as_isPrivate a) (as_isClientOnly a) (putComment value) (as_nameSpaces a) a
  else if decide (key = "namespace") then
    as_set_mode (as_isPrivate a) (as_isClientOnly a) (as_comment a) (value :: as_nameSpaces a) a
  else a.
Definition addAltFromIni (parse : string -> option dnbd3_host_t) (alts : list dnbd3_alt_server_t) (count : Z)
    (section key value : string) : list dnbd3_alt_server_t * Z :=
  match parse section with
  | None => (alts, count)
  | Some host =>
      let '(alts, index, added) := altservers_add alts host (Some "") false false in
      let count := if (added : bool) then count + 1 else count in
      if index =? -1 then (alts, count)
      else (alter (applyAltKey key value) (Z.to_nat index) alts, count)
  end.

(** The prefix characters of a line of the legacy format. *)
Fixpoint legacyPrefix (s : list Ascii.ascii) (isPrivate isClientOnly : bool) : list Ascii.ascii * bool * bool :=
  match s with
  | [] => (s, isPrivate, isClientOnly)
  | c :: r =>
      if Ascii.eqb c "-" then legacyPrefix r true isClientOnly
      else if Ascii.eqb c "+" then legacyPrefix r isPrivate true
      else if Ascii.eqb c " " || Ascii.eqb c "009" then legacyPrefix r isPrivate isClientOnly
      else (s, isPrivate, isClientOnly)
  end.
Definition addAltFromLegacy (parse : string -> option dnbd3_host_t) (alts : list dnbd3_alt_server_t) (count : Z)
    (arg0 : string) (arg1 : option string) : list dnbd3_alt_server_t * Z :=
  if String.prefix "#" arg0 then (alts, count)
  else
    let '(shost, isPrivate, isClientOnly) := legacyPrefix (chars arg0) false false in
    match parse (unchars shost) with
    | None => (alts, count)
    | Some host =>
        let '(alts, _, added) :=
          altservers_add alts host (Some (default "" arg1)) isPrivate isClientOnly in
        (alts, if (added : bool) then count + 1 else count)
    end.

(** ** Lookups *)

Fixpoint hostIndex (l : list dnbd3_alt_server_t) (i : Z) (host : dnbd3_host_t) : Z :=
  match l with
  | [] => -1
  | a :: l' => if isSameAddressPort host (as_host a) then i else hostIndex l' (i + 1) host
  end.
Definition altservers_hostToIndex (alts : list dnbd3_alt_server_t) (host : dnbd3_host_t) : Z :=
  hostIndex alts 0 host.
Definition altservers_indexToHost (alts : list dnbd3_alt_server_t) (server : nat) : option dnbd3_host_t :=
  as_host <$> alts !! server.

Definition isImageAllowed (alt : dnbd3_alt_server_t) (image : string) : bool :=
  match as_nameSpaces alt with
  | [] => true
  | ns => existsb (fun name => String.prefix name image) ns
  end.

Definition altservers_imageHasAltServers (proxyPrivateOnly : bool) (alts : list dnbd3_alt_server_t)
    (image : string) : bool :=
  existsb (fun a => negb (as_isClientOnly a || (negb (as_isPrivate a) && proxyPrivateOnly))
                    && isImageAllowed a image) alts.

(** ** Closeness *)

Fixpoint matchingNibbles (n : nat) (a b : list Z) (retval : Z) : Z :=
  match n, a, b with
  | S n', x :: a', y :: b' =>
      if negb ((x .& 240) =? (y .& 240)) then retval
      else if negb ((x .& 15) =? (y .& 15)) then retval + 1
      else matchingNibbles n' a' b' (retval + 2)
  | _, _, _ => retval
  end.
Definition altservers_netCloseness (host1 host2 : dnbd3_host_t) : Z :=
  if negb (host_type host1 =? host_type host2) then -1
  else matchingNibbles (addrLen (host_type host1)) (host_addr host1) (host_addr host2) 0.

(** ** The list for a client *)

Definition clientScore (host : dnbd3_host_t) (image : string) (a : dnbd3_alt_server_t) : Z :=
  if (host_type (as_host a) =? 0) || as_isPrivate a then 0
  else if negb (isImageAllowed a image) then 0
  else u16 (10 + altservers_netCloseness host (as_host a)).
(** The first index with the highest score, scores of 0 being skipped. *)
Fixpoint bestScore (scores : list Z) (j : nat) (best : option (nat * Z)) : option nat :=
  match scores with
  | [] => fst <$> best
  | s :: r =>
      bestScore r (S j)
        (if s =? 0 then best
         else match best with
              | None => Some (j, s)
              | Some (_, b) => if b <? s then Some (j, s) else best
              end)
  end.
Fixpoint pickServers (n : nat) (scores : list Z) : list nat :=
  match n with
  | O => []
  | S n' => match bestScore scores 0 None with
            | None => []
            | Some i => i :: pickServers n' (<[i := 0]> scores)
            end
  end.
(** The indices of the servers put into the output, in order. *)
Definition clientServers (host : dnbd3_host_t) (image : string) (alts : list dnbd3_alt_server_t) (size : Z) : list nat :=
  if (host_type host =? 0) || (Z.of_nat (length alts) =? 0) || (size <=? 0) then []
  else
    let size := Z.min size (Z.of_nat (length alts)) in
    pickServers (Z.to_nat size) (map (clientScore host image) alts).
(** [dnbd3_server_entry_t]: a host and a failure count of 0. *)
Definition altservers_getListForClient (host : dnbd3_host_t) (image : string) (alts : list dnbd3_alt_server_t)
    (size : Z) : list (dnbd3_host_t * Z) :=
  omap (fun i => (fun h => (h, 0)) <$> altservers_indexToHost alts i) (clientServers host image alts size).

(** ** Failure accounting *)

(** [altservers_serverFailed] *)
Definition countServerFail (now : ticks) (a : dnbd3_alt_server_t) : dnbd3_alt_server_t :=
  if SERVER_GLOBAL_DUP_TIME <? timing_diff (as_lastFail a) now
  then as_set_fail (as_fails a + 1) (if SERVER_BAD_UPLINK_MAX <=? as_fails a then true else as_blocked a) now a
  else a.
Definition altservers_serverFailed (now : ticks) (alts : list dnbd3_alt_server_t) (server : nat) : list dnbd3_alt_server_t :=
  alter (countServerFail now) server alts.

(** [altservers_imageFailed] *)
Definition countImageFail (l : dnbd3_alt_local_t) : dnbd3_alt_local_t :=
  al_set_fail (al_fails l + 1) (if SERVER_BAD_UPLINK_MAX <=? al_fails l then true else al_blocked l) l.
Definition altservers_imageFailed (altData : list dnbd3_alt_local_t) (server : nat) : list dnbd3_alt_local_t :=
  alter countImageFail server altData.

(** The first half of [isUsableForUplink]: a blocked local entry counts down. *)
Definition localUsable (l : dnbd3_alt_local_t) : dnbd3_alt_local_t * bool :=
  if al_blocked l then
    let fails := al_fails l - 1 in
    if 0 <? fails then (al_set_fail fails true l, false) else (al_set_fail fails false l, true)
  else (l, true).
Definition globalUsable (now : ticks) (a : dnbd3_alt_server_t) : dnbd3_alt_server_t * bool :=
  if as_blocked a then
    if timing_diff (as_lastFail a) now <? SERVER_GLOBAL_DUP_TIME then (a, false)
    else
      let fails := as_fails a - 1 in
      if 0 <? fails then (as_set_fail fails true now a, false)
      else (as_set_fail fails false now a, true)
  else (a, true).

(** The global table, the uplink's data ([None] without an uplink), the random
    numbers. *)
Record alt_state := AltState {
  alt_servers : list dnbd3_alt_server_t;
  alt_data : option (list dnbd3_alt_local_t);
  alt_rng : rng;
}.

Definition isUsableForUplink (proxyPrivateOnly : bool) (now : ticks) (s : alt_state) (server : nat)
  : result (alt_state * bool) :=
  match alt_servers s !! server with
  | None => Fault OutOfBounds
  | Some global =>
      if as_isClientOnly global || (negb (as_isPrivate global) && proxyPrivateOnly) then Ok (s, false)
      else
        '(data, localOk, localFails) ←
          match alt_data s with
          | None => Ok (None, true, 0)
          | Some d => match d !! server with
                      | None => Fault OutOfBounds
                      | Some l => let '(l', ok) := localUsable l in
                                  Ok (Some (<[server := l']> d), ok, al_fails l')
                      end
          end;
        let s := AltState (alt_servers s) data (alt_rng s) in
        if negb localOk then Ok (s, false)
        else
          let '(g, globalOk) := globalUsable now global in
          let s := AltState (<[server := g]> (alt_servers s)) data (alt_rng s) in
          if negb globalOk then Ok (s, false)
          else
            let fails := localFails + as_fails g in
            if fails <? SERVER_BAD_UPLINK_MIN then Ok (s, true)
            else
              let '(x, r) := rand (alt_rng s) in
              Ok (AltState (alt_servers s) data r, Z.rem x fails <? SERVER_BAD_UPLINK_MIN)
  end.

(** ** The list for an uplink *)

Section ListForUplink.
Context (proxyPrivateOnly : bool) (now : ticks) (image : string).

(** Few servers: take every one that is usable; [current] is [None] in panic mode. *)
Fixpoint listAll (n : nat) (i : nat) (current : option nat) (s : alt_state) : result (alt_state * list nat) :=
  match n with
  | O => Ok (s, [])
  | S n' =>
      '(s, ok) ← match current with
                 | None => Ok (s, true)
                 | Some c => if (i =? c)%nat then Ok (s, true) else isUsableForUplink proxyPrivateOnly now s i
                 end;
      match alt_servers s !! i with
      | None => Fault OutOfBounds
      | Some a =>
          '(s, l) ← listAll n' (S i) current s;
          Ok (s, if (ok : bool) && isImageAllowed a image then i :: l else l)
      end
  end.

(** The array [state]: 0 not looked at, 1 potential, 2 used or not allowed. *)
Inductive mark := Fresh | Potential | Used.
#[global] Instance mark_eq_dec : EqDecision mark.
Proof. solve_decision. Defined.

Definition randServer (s : alt_state) : nat * alt_state :=
  let '(x, r) := rand (alt_rng s) in
  (Z.to_nat (Z.rem x (Z.of_nat (length (alt_servers s)))), AltState (alt_servers s) (alt_data s) r).

(** First loop: random servers that are allowed and usable. *)
Fixpoint pickRandom (tr : nat) (size : Z) (state : list mark) (servers : list nat) (s : alt_state)
  : result (alt_state * list mark * list nat) :=
  match tr with
  | O => Ok (s, state, servers)
  | S tr' =>
      if negb (Z.of_nat (length servers) <? size) then Ok (s, state, servers)
      else
        let '(idx, s) := randServer s in
        match state !! idx, alt_servers s !! idx with
        | Some m, Some a =>
            if negb (bool_decide (m = Fresh)) then pickRandom tr' size state servers s
            else if negb (isImageAllowed a image) then pickRandom tr' size (<[idx := Used]> state) servers s
            else
              '(s, usable) ← isUsableForUplink proxyPrivateOnly now s idx;
              if (usable : bool) then pickRandom tr' size (<[idx := Used]> state) (servers ++ [idx]) s
              else pickRandom tr' size (<[idx := Potential]> state) servers s
        | _, _ => Fault OutOfBounds
        end
  end.
(** Second loop, in panic mode only. *)
Fixpoint pickPanic (tr : nat) (size : Z) (state : list mark) (servers : list nat) (s : alt_state)
  : result (alt_state * list nat) :=
  match tr with
  | O => Ok (s, servers)
  | S tr' =>
      if negb (Z.of_nat (length servers) <? size) then Ok (s, servers)
      else
        let '(idx, s) := randServer s in
        match state !! idx with
        | Some m =>
            if bool_decide (m = Used) then pickPanic tr' size state servers s
            else pickPanic tr' size (<[idx := Used]> state) (servers ++ [idx]) s
        | None => Fault OutOfBounds
        end
  end.

Definition altservers_getListForUplink (s : alt_state) (size : Z) (current : option nat)
  : result (alt_state * list nat) :=
  if size <=? 0 then Ok (s, [])
  else if Z.of_nat (length (alt_servers s)) <=? size then listAll (length (alt_servers s)) 0 current s
  else
    let state := replicate (Z.to_nat SERVER_MAX_ALTS) Fresh in
    let '(state, servers) :=
      match current with None => (state, []) | Some c => (<[c := Used]> state, [c]) end in
    '(s, state, servers) ← pickRandom (Z.to_nat (size * 10)) size state servers s;
    match current with
    | None => pickPanic (Z.to_nat (size * 10)) size state servers s
    | Some _ => Ok (s, servers)
    end.
End ListForUplink.

Definition hostsOf (alts : list dnbd3_alt_server_t) (idx : list nat) : list dnbd3_host_t :=
  omap (altservers_indexToHost alts) idx.
Definition altservers_getHostListForReplication (proxyPrivateOnly : bool) (now : ticks)
    (alts : list dnbd3_alt_server_t) (r : rng) (image : string) (size : Z) : result (list dnbd3_host_t) :=
  '(s, idx) ← altservers_getListForUplink proxyPrivateOnly now image (AltState alts None r) size None;
  Ok (hostsOf (alt_servers s) idx).

(** ** Round-trip times *)

(** Enter a measurement into an uplink's history of a server; the new average. *)
Definition recordRtt (l : dnbd3_alt_local_t) (rtt : Z) : dnbd3_alt_local_t * Z :=
  if al_initDone l then
    let k := al_rttIndex l + 1 in
    let h := <[Z.to_nat (Z.rem k SERVER_RTT_PROBES) := rtt]> (al_rtt l) in
    (AltLocal (al_fails l) k h (al_blocked l) true,
     u32 (foldl (fun s x => u32 (s + x)) 0 h) / SERVER_RTT_PROBES)
  else (AltLocal (al_fails l) (al_rttIndex l) (replicate 5 rtt) (al_blocked l) true, rtt).
Definition altservers_updateRtt (alts : list dnbd3_alt_server_t) (altData : list dnbd3_alt_local_t)
    (index : nat) (rtt : Z) : result (list dnbd3_alt_server_t * list dnbd3_alt_local_t * Z) :=
  match alts !! index, altData !! index with
  | Some a, Some l =>
      let '(l, avg) := recordRtt l rtt in
      let k := as_rttIndex a + 1 in
      let a := as_set_rtt k (<[Z.to_nat (Z.rem k SERVER_RTT_PROBES) := avg]> (as_rtt a)) a in
      Ok (<[index := a]> alts, <[index := l]> altData, avg)
  | _, _ => Fault OutOfBounds
  end.

(** * Adding: the hosts of the table are distinct *)

Definition alts_wf (alts : list dnbd3_alt_server_t) : Prop :=
  Z.of_nat (length alts) <= SERVER_MAX_ALTS
  /\ forall i j a b, alts !! i = Some a -> alts !! j = Some b ->
       isSameAddressPort (as_host a) (as_host b) = true -> i = j.

Lemma isSameAddressPort_sym a b : isSameAddressPort a b = isSameAddressPort b a.
Proof. apply eq_true_iff_eq. split; apply (symmetry (R := fun a b => isSameAddressPort a b = true)). Qed.

Lemma isSameAddressPort_trans a b c :
  isSameAddressPort a b = true -> isSameAddressPort b c = true -> isSameAddressPort a c = true.
Proof. apply (transitivity (R := fun a b => isSameAddressPort a b = true)). Qed.
Lemma isSameAddressPort_refl a : isSameAddressPort a a = true.
Proof. apply (reflexivity (R := fun a b => isSameAddressPort a b = true)). Qed.

Lemma hostIndex_shift l i host :
  hostIndex l i host = -1 /\ (forall n a, l !! n = Some a -> isSameAddressPort host (as_host a) = false)
  \/ exists n a, hostIndex l i host = i + Z.of_nat n /\ l !! n = Some a /\ isSameAddressPort host (as_host a) = true.
Proof.
  revert i. induction l as [|a l IH]; intros i; cbn [hostIndex]; [by left|].
  destruct (isSameAddressPort host (as_host a)) eqn:E.
  - right. exists 0%nat, a. split_and!; [lia|done|done].
  - destruct (IH (i + 1)) as [[-> Hl]|(n & b & -> & Hb & He)].
    + left. split; [done|]. intros [|n] b Hb; [by injection Hb as <-|]. by apply (Hl n).
    + right. exists (S n), b. split_and!; [lia|done|done].
Qed.
(** In a table of distinct hosts the index of a host is where it is. *)
Lemma hostToIndex_at alts i a host :
  alts_wf alts -> alts !! i = Some a -> isSameAddressPort (as_host a) host = true ->
  altservers_hostToIndex alts host = Z.of_nat i.
Proof.
  intros [_ Hd] Hi He. unfold altservers_hostToIndex.
  destruct (hostIndex_shift alts 0 host) as [[_ Hn]|(n & b & -> & Hb & Hs)].
  - specialize (Hn i a Hi). rewrite isSameAddressPort_sym in Hn. congruence.
  - rewrite (Hd i n a b Hi Hb); [lia|]. by eapply isSameAddressPort_trans.
Qed.
Lemma hostToIndex_absent alts host :
  altservers_hostToIndex alts host = -1 <->
  (forall n a, alts !! n = Some a -> isSameAddressPort (as_host a) host = false).
Proof.
  unfold altservers_hostToIndex. split.
  - intros H n a Ha. rewrite isSameAddressPort_sym.
    destruct (hostIndex_shift alts 0 host) as [[_ Hn]|(m & b & E & _)]; [by eapply Hn|lia].
  - intros H. destruct (hostIndex_shift alts 0 host) as [[? _]|(n & b & _ & Hb & Hs)]; [done|].
    specialize (H n b Hb). rewrite isSameAddressPort_sym in H. congruence.
Qed.

Lemma addScan_spec l i f host :
  match addScan l i f host with
  | inl k => exists n a, k = i + Z.of_nat n /\ l !! n = Some a /\ isSameAddressPort (as_host a) host = true
  | inr f' => (forall n a, l !! n = Some a -> isSameAddressPort (as_host a) host = false)
              /\ (f' = f \/ f = -1 /\ exists n a, f' = i + Z.of_nat n /\ l !! n = Some a)
  end.
Proof.
  revert i f. induction l as [|a l IH]; intros i f; cbn [addScan]; [split; [done|by left]|].
  destruct (isSameAddressPort (as_host a) host) eqn:E; [exists 0%nat, a; split_and!; [lia|done|done]|].
  set (f1 := if (_ && _)%bool then i else f). specialize (IH (i + 1) f1).
  destruct (addScan l (i + 1) f1 host) as [k|f'].
  - destruct IH as (n & b & -> & Hb & Hs). exists (S n), b. split_and!; [lia|done|done].
  - destruct IH as [Hn Hf]. split.
    + intros [|n] b Hb; [by injection Hb as <-|]. by apply (Hn n).
    + unfold f1 in Hf. clear f1. destruct (Z.eqb_spec f (-1)) as [->|]; cbn in Hf; [|by left; destruct Hf as [|[? _]]].
      destruct (host_type (as_host a) =? 0);
        destruct Hf as [->|(? & n & b & -> & Hb)]; [| |by left|].
      * right. split; [done|]. exists 0%nat, a. split; [lia|done].
      * right. split; [done|]. exists (S n), b. split; [lia|done].
      * right. split; [done|]. exists (S n), b. split; [lia|done].
Qed.

(** Putting a new host into slot [k] keeps the table well-formed. *)
Lemma alts_wf_put alts alts' k x host :
  alts_wf alts -> Z.of_nat (length alts') <= SERVER_MAX_ALTS ->
  (forall n a, alts !! n = Some a -> isSameAddressPort (as_host a) host = false) ->
  as_host x = host -> alts' !! k = Some x -> (forall j, j <> k -> alts' !! j = alts !! j) ->
  alts_wf alts'.
Proof.
  intros [_ Hd] Hlen Hn Hx Hk Ho. split; [done|]. intros i j a b Hi Hj Hs.
  destruct (decide (i = k)) as [->|Hik], (decide (j = k)) as [->|Hjk]; [done| | |].
  - rewrite Ho in Hj by done. specialize (Hn j b Hj). rewrite isSameAddressPort_sym in Hn. congruence.
  - rewrite Ho in Hi by done. specialize (Hn i a Hi). congruence.
  - rewrite Ho in Hi, Hj by done. eauto.
Qed.

Lemma altservers_add_spec alts host comment isPrivate isClientOnly alts' idx added :
  alts_wf alts ->
  altservers_add alts host comment isPrivate isClientOnly = (alts', idx, added) ->
  alts_wf alts' /\ idx = altservers_hostToIndex alts' host
  /\ (if added then altservers_hostToIndex alts host = -1
        /\ exists a, alts' !! Z.to_nat idx = Some a /\ as_host a = host /\ as_isPrivate a = isPrivate
             /\ as_isClientOnly a = isClientOnly /\ as_nameSpaces a = [] /\ 0 <= idx
             /\ (forall j, j <> Z.to_nat idx -> alts' !! j = alts !! j)
      else alts' = alts /\ (idx = -1 -> Z.of_nat (length alts) = SERVER_MAX_ALTS)).
Proof.
  intros Hw. unfold altservers_add. pose proof (addScan_spec alts 0 (-1) host) as Hs.
  destruct (addScan alts 0 (-1) host) as [k|f].
  { intros [= <- <- <-]. destruct Hs as (n & a & -> & Ha & He). split; [done|].
    rewrite (hostToIndex_at alts n a host) by done. split; [lia|]. split; [done|lia]. }
  destruct Hs as [Hn Hf]. pose proof (proj2 (hostToIndex_absent alts host) Hn) as Habs.
  assert (forall k x alts1, Z.of_nat (length alts1) <= SERVER_MAX_ALTS -> as_host x = host ->
            alts1 !! k = Some x -> (forall j, j <> k -> alts1 !! j = alts !! j) ->
            alts_wf alts1 /\ Z.of_nat k = altservers_hostToIndex alts1 host) as Hput.
  { intros k x alts1 Hl Hx Hk Ho. assert (alts_wf alts1) as Hw1 by by eapply alts_wf_put.
    split; [done|]. symmetry. apply (hostToIndex_at _ _ x); [done|done|]. rewrite Hx. apply isSameAddressPort_refl. }
  destruct (Z.eqb_spec f (-1)) as [->|Hf1].
  - destruct (Z.leb_spec SERVER_MAX_ALTS (Z.of_nat (length alts))); intros [= <- <- <-].
    + split; [done|]. split; [done|]. split; [done|]. destruct Hw as [? _]. lia.
    + set (x := fillSlot _ _ _ _ _).
      assert ((alts ++ [x]) !! length alts = Some x) as Hx by by rewrite lookup_app_r, Nat.sub_diag by lia.
      assert (forall j, j <> length alts -> (alts ++ [x]) !! j = alts !! j) as Ho.
      { intros j Hj. destruct (decide (j < length alts)%nat); [by rewrite lookup_app_l by lia|].
        rewrite !lookup_ge_None_2; [done|lia|]. rewrite length_app. cbn. lia. }
      destruct (Hput (length alts) x (alts ++ [x])) as [? Hi]; [rewrite length_app; cbn; lia|done|done|done|].
      split; [done|]. split; [done|]. split; [done|]. exists x. rewrite Nat2Z.id. split_and!; done || lia.
  - destruct Hf as [?|(_ & n & a & -> & Ha)]; [done|]. rewrite Z.add_0_l, Nat2Z.id.
    intros [= <- <- <-]. rewrite Nat2Z.id. set (g := fun a : dnbd3_alt_server_t => _).
    assert (alter g n alts !! n = Some (g a)) as Hx by by rewrite list_lookup_alter_eq, Ha.
    assert (forall j, j <> n -> alter g n alts !! j = alts !! j) as Ho by (intros; by apply list_lookup_alter_ne).
    destruct (Hput n (g a) (alter g n alts)) as [? Hi]; [rewrite length_alter; apply Hw|done|done|done|].
    split; [done|]. split; [done|]. split; [done|]. exists (g a). split_and!; done || lia.
Qed.

(** Adding a server keeps the hosts of the table distinct and its size within
    [SERVER_MAX_ALTS]; the index reported is the one under which the host is found
    afterwards; a new host gets a slot with the given flags and no name spaces, other
    slots keep their servers; a known host, or any host when the table is full, changes
    nothing. *)
Theorem altservers_add_correct alts host comment isPrivate isClientOnly alts' idx added :
  alts_wf alts ->
  altservers_add alts host comment isPrivate isClientOnly = (alts', idx, added) ->
  alts_wf alts' /\ idx = altservers_hostToIndex alts' host
  /\ (if added then altservers_hostToIndex alts host = -1
        /\ exists a, alts' !! Z.to_nat idx = Some a /\ as_host a = host /\ as_isPrivate a = isPrivate
             /\ as_isClientOnly a = isClientOnly /\ as_nameSpaces a = [] /\ 0 <= idx
             /\ (forall j, j <> Z.to_nat idx -> alts' !! j = alts !! j)
      else alts' = alts /\ (idx = -1 -> Z.of_nat (length alts) = SERVER_MAX_ALTS)).
Proof. apply altservers_add_spec. Qed.

Lemma alts_wf_nil : alts_wf [].
Proof. split; [by vm_compute|done]. Qed.
Definition demo_host (x : Z) : dnbd3_host_t := Host (padAddr [10; 0; 0; x]) (htons 5003) HOST_IP4.
Definition demo_alts : list dnbd3_alt_server_t :=
  Eval vm_compute in (altservers_add [] (demo_host 1) (Some "") true false).1.1.
Lemma altservers_add_correct_witness :
  altservers_add [] (demo_host 1) (Some "") true false = (demo_alts, 0, true) /\ alts_wf demo_alts
  /\ 0 = altservers_hostToIndex demo_alts (demo_host 1).
Proof.
  assert (altservers_add [] (demo_host 1) (Some "") true false = (demo_alts, 0, true)) as E by by vm_compute.
  split; [exact E|].
  destruct (altservers_add_correct [] (demo_host 1) (Some "") true false demo_alts 0 true
              alts_wf_nil E) as (Hw & Hi & _).
  split; [exact Hw|exact Hi].
Defined.

(** * The list for a client *)

Lemma matchingNibbles_bounds n a b r :
  r <= matchingNibbles n a b r <= r + 2 * Z.of_nat n.
Proof.
  revert a b r. induction n as [|n IH]; intros [|x a] [|y b] r; cbn [matchingNibbles]; try lia.
  destruct (negb _); [lia|]. destruct (negb _); [lia|]. specialize (IH a b (r + 2)). lia.
Qed.
Lemma matchingNibbles_sym n a b r : matchingNibbles n a b r = matchingNibbles n b a r.
Proof.
  revert a b r. induction n as [|n IH]; intros [|x a] [|y b] r; cbn [matchingNibbles]; try done.
  rewrite (Z.eqb_sym (y .& 240)), (Z.eqb_sym (y .& 15)), IH. done.
Qed.
Lemma netCloseness_bounds h1 h2 : -1 <= altservers_netCloseness h1 h2 <= 32.
Proof.
  unfold altservers_netCloseness. destruct (negb _); [lia|].
  pose proof (matchingNibbles_bounds (addrLen (host_type h1)) (host_addr h1) (host_addr h2) 0) as H.
  assert (Z.of_nat (addrLen (host_type h1)) <= 16) by (unfold addrLen; destruct (_ =? _); lia). lia.
Qed.

(** What [getListForClient] may tell a client about. *)
Definition eligible (image : string) (a : dnbd3_alt_server_t) : bool :=
  negb ((host_type (as_host a) =? 0) || as_isPrivate a) && isImageAllowed a image.
Lemma clientScore_spec host image a :
  clientScore host image a = if eligible image a then 10 + altservers_netCloseness host (as_host a) else 0.
Proof.
  unfold clientScore, eligible. destruct (_ || _); cbn; [done|]. destruct (isImageAllowed a image); cbn; [|done].
  pose proof (netCloseness_bounds host (as_host a)). by cdrop.
Qed.

Section Picking.
Implicit Types scores : list Z.

Lemma bestScore_aux scores j best :
  (forall i s, scores !! i = Some s -> 0 <= s) -> (forall b, best = Some b -> 0 < b.2) ->
  match bestScore scores j best with
  | None => best = None /\ forall i s, scores !! i = Some s -> s = 0
  | Some k =>
      exists m, 0 < m /\ (best = Some (k, m) \/ (exists i, k = (j + i)%nat /\ scores !! i = Some m))
        /\ (forall i s, scores !! i = Some s -> s <= m) /\ (forall b, best = Some b -> b.2 <= m)
  end.
Proof.
  revert j best. induction scores as [|s r IH]; intros j best Hp Hbp; cbn [bestScore].
  { destruct best as [[k m]|]; cbn; [|done]. exists m. split_and!; [by apply (Hbp (k, m))|by left|done|].
    by intros b [= <-]. }
  set (best' := if s =? 0 then _ else _). pose proof (Hp 0%nat s eq_refl) as Hs.
  assert (best' = best /\ (s = 0 \/ exists b, best = Some b /\ s <= b.2)
          \/ best' = Some (j, s) /\ s <> 0 /\ forall b, best = Some b -> b.2 < s) as Hb.
  { unfold best'. destruct (Z.eqb_spec s 0); [by auto|]. destruct best as [[k m]|].
    - destruct (Z.ltb_spec m s); [right|left; eauto]. split_and!; [done|done|]. by intros b [= <-].
    - by right. }
  assert (forall b, best' = Some b -> 0 < b.2) as Hbp'.
  { destruct Hb as [[-> _]|(-> & ? & _)]; [done|]. intros b [= <-]. cbn. lia. }
  specialize (IH (S j) best' (fun i => Hp (S i)) Hbp').
  destruct (bestScore r (S j) best') as [k|].
  - destruct IH as (m & Hm0 & Hk & Hm & Hle). exists m.
    assert (s <= m /\ forall b, best = Some b -> b.2 <= m) as [Hsm Hbm].
    { destruct Hb as [[-> [->|(b & -> & ?)]]|(-> & _ & Hb)].
      - split; [lia|done].
      - split; [specialize (Hle b eq_refl); lia|done].
      - specialize (Hle (j, s) eq_refl). cbn in Hle. split; [done|]. intros b Hb'. specialize (Hb b Hb'). lia. }
    split_and!; [done| |intros [|i] t Hi; [by injection Hi as <-|eauto]|done].
    destruct Hk as [Hk|(i & -> & Hi)]; [|right; exists (S i); split; [lia|done]].
    destruct Hb as [[-> _]|(-> & _)]; [by left|]. injection Hk as <- <-. right. exists 0%nat. split; [lia|done].
  - destruct IH as [-> Hz]. destruct Hb as [[<- [->|(b & ? & _)]]|[? _]]; [|done|done].
    split; [done|]. intros [|i] t Hi; [by injection Hi|eauto].
Qed.
Lemma bestScore_spec scores :
  (forall i s, scores !! i = Some s -> 0 <= s) ->
  match bestScore scores 0 None with
  | None => forall i s, scores !! i = Some s -> s = 0
  | Some k => exists m, 0 < m /\ scores !! k = Some m /\ forall i s, scores !! i = Some s -> s <= m
  end.
Proof.
  intros Hp. pose proof (bestScore_aux scores 0 None Hp ltac:(done)) as H.
  destruct (bestScore scores 0 None); [|by destruct H].
  destruct H as (m & Hm & [?|(i & -> & Hi)] & Hle & _); [done|]. by exists m.
Qed.

(** The number of scores that are not 0. *)
Definition candidates (scores : list Z) : Z := zsum (fun s => if s =? 0 then 0 else 1) scores.

Lemma pickServers_spec n scores :
  (forall i s, scores !! i = Some s -> 0 <= s) ->
  let l := pickServers n scores in
  NoDup l /\ (forall i, i ∈ l -> exists s, scores !! i = Some s /\ 0 < s)
  /\ (forall p q i j, (p < q)%nat -> l !! p = Some i -> l !! q = Some j -> scores !!! j <= scores !!! i)
  /\ (forall i j s, i ∈ l -> scores !! j = Some s -> j ∉ l -> s <= scores !!! i)
  /\ Z.of_nat (length l) = Z.min (Z.of_nat n) (candidates scores).
Proof.
  revert scores. induction n as [|n IH]; intros scores Hp; cbn [pickServers].
  { split_and!; [constructor|by intros ? ?%not_elem_of_nil|done|by intros ? ? ? ?%not_elem_of_nil|].
    assert (0 <= candidates scores); [|cbn; lia].
    apply zsum_nonneg. intros i s _. destruct (s =? 0); lia. }
  pose proof (bestScore_spec scores Hp) as Hb. destruct (bestScore scores 0 None) as [k|].
  2: { split_and!; [constructor|by intros ? ?%not_elem_of_nil|done|by intros ? ? ? ?%not_elem_of_nil|].
       unfold candidates. rewrite zsum_zero; [cbn; lia|]. intros i s Hi. by rewrite (Hb i s Hi). }
  destruct Hb as (m & Hm & Hk & Hmax). set (scores' := <[k := 0]> scores).
  assert (k < length scores)%nat as Hlt by by apply lookup_lt_Some in Hk.
  assert (scores' !! k = Some 0) as Hk' by by apply list_lookup_insert_eq.
  assert (forall i, i <> k -> scores' !! i = scores !! i) as Ho by (intros; by apply list_lookup_insert_ne).
  destruct (IH scores') as (Hnd & Hin & Hso & Hout & Hlen).
  { intros i s Hi. destruct (decide (i = k)) as [->|]; [by simplify_eq|]. rewrite Ho in Hi by done. eauto. }
  set (l := pickServers n scores') in *. cbn zeta.
  assert (k ∉ l) as Hkl by (intros (s & ? & ?)%Hin; simplify_eq; lia).
  assert (forall i, i ∈ l -> scores !!! i = scores' !!! i) as Heq.
  { intros i Hi. rewrite !list_lookup_total_alt, Ho; [done|]. by intros ->. }
  assert (scores !!! k = m) as Hkm by by apply list_lookup_total_correct.
  assert (forall i, i ∈ l -> exists s, scores !! i = Some s /\ 0 < s) as Hin'.
  { intros i Hi. destruct (Hin i Hi) as (s & Hs & ?). exists s. rewrite Ho in Hs; [done|]. by intros ->. }
  split_and!.
  - by constructor.
  - intros i [->|Hi]%elem_of_cons; eauto.
  - intros [|p] [|q] i j Hpq Hi Hj; [lia| |lia|]; cbn in Hi, Hj.
    + injection Hi as <-. rewrite Hkm. destruct (Hin' j) as (s & Hs & _); [by eapply list_elem_of_lookup_2|].
      rewrite (list_lookup_total_correct _ _ _ Hs). eauto.
    + rewrite !Heq by (by eapply list_elem_of_lookup_2). apply (Hso p q); [lia|done|done].
  - intros i j s [->|Hi]%elem_of_cons Hj Hjl; [rewrite Hkm; eauto|].
    rewrite Heq by done. apply not_elem_of_cons in Hjl as [? ?]. apply (Hout i j s); [done| |done].
    by rewrite Ho.
  - cbn [length]. rewrite Nat2Z.inj_succ, Hlen. unfold candidates, scores'.
    rewrite (zsum_insert _ _ _ m) by done. cbn [Z.eqb]. destruct (Z.eqb_spec m 0); lia.
Qed.
End Picking.

(** The number of servers a client may be told about. *)
Definition numEligible (image : string) (alts : list dnbd3_alt_server_t) : Z :=
  zsum (fun a => if eligible image a then 1 else 0) alts.

Lemma candidates_eligible host image alts :
  candidates (map (clientScore host image) alts) = numEligible image alts.
Proof.
  unfold candidates, numEligible. induction alts as [|a l IH]; cbn; [done|]. rewrite IH, clientScore_spec.
  pose proof (netCloseness_bounds host (as_host a)).
  destruct (eligible image a); [|done]. destruct (Z.eqb_spec (10 + altservers_netCloseness host (as_host a)) 0); lia.
Qed.
Lemma clientScore_lookup host image alts i s :
  map (clientScore host image) alts !! i = Some s <->
  exists a, alts !! i = Some a /\ s = clientScore host image a.
Proof.
  change (map (clientScore host image) alts) with (clientScore host image <$> alts).
  rewrite list_lookup_fmap, fmap_Some. naive_solver.
Qed.

(** The list a client gets names distinct servers, each one in use, not private
    and allowed for the image; they are ordered by closeness to the client, no server
    left out is closer than one listed, and the list is as long as the requested size
    or all eligible servers allow. *)
Theorem altservers_getListForClient_correct host image alts size :
  let l := clientServers host image alts size in
  let closeness i := altservers_netCloseness host (as_host (default emptySlot (alts !! i))) in
  host_type host <> 0 -> 0 < size ->
  NoDup l
  /\ (forall i, i ∈ l -> exists a, alts !! i = Some a /\ eligible image a = true)
  /\ (forall p q i j, (p < q)%nat -> l !! p = Some i -> l !! q = Some j -> closeness j <= closeness i)
  /\ (forall i j a, i ∈ l -> alts !! j = Some a -> eligible image a = true -> j ∉ l -> closeness j <= closeness i)
  /\ Z.of_nat (length l) = Z.min size (numEligible image alts)
  /\ altservers_getListForClient host image alts size
     = map (fun i => (as_host (default emptySlot (alts !! i)), 0)) l.
Proof.
  intros l closeness Ht Hsz. subst l. unfold altservers_getListForClient. set (l := clientServers host image alts size).
  assert (l = pickServers (Z.to_nat (Z.min size (Z.of_nat (length alts)))) (map (clientScore host image) alts)) as El.
  { unfold l, clientServers. destruct (Z.eqb_spec (host_type host) 0); [done|].
    destruct (Z.leb_spec size 0); [lia|]. destruct alts; [|done]. by destruct (Z.to_nat _). }
  assert (forall i s, map (clientScore host image) alts !! i = Some s -> 0 <= s) as Hp.
  { intros i s (a & _ & ->)%clientScore_lookup. rewrite clientScore_spec.
    pose proof (netCloseness_bounds host (as_host a)). destruct (eligible image a); lia. }
  destruct (pickServers_spec (Z.to_nat (Z.min size (Z.of_nat (length alts)))) _ Hp) as (Hnd & Hin & Hso & Hout & Hlen).
  rewrite <- El in *.
  assert (forall i, i ∈ l -> exists a, alts !! i = Some a /\ eligible image a = true
            /\ map (clientScore host image) alts !!! i = 10 + closeness i) as Hel.
  { intros i (s & Hs & H0)%Hin. pose proof Hs as (a & Ha & E)%clientScore_lookup. exists a.
    rewrite (list_lookup_total_correct _ _ _ Hs). unfold closeness. rewrite Ha. cbn [default].
    rewrite E, clientScore_spec in *. destruct (eligible image a); [done|lia]. }
  assert (numEligible image alts <= Z.of_nat (length alts)) as Hle
    by (apply zsum_le_length; intros a; destruct (eligible image a); lia).
  split_and!; [done| | | | |].
  - intros i Hi. destruct (Hel i Hi) as (a & ? & ? & _). by exists a.
  - intros p q i j Hpq Hi Hj. specialize (Hso p q i j Hpq Hi Hj).
    apply list_elem_of_lookup_2, Hel in Hi as (? & _ & _ & Hi).
    apply list_elem_of_lookup_2, Hel in Hj as (? & _ & _ & Hj). lia.
  - intros i j a Hi Ha He Hj. destruct (Hel i Hi) as (_ & _ & _ & Es).
    specialize (Hout i j (clientScore host image a) Hi ltac:(by apply clientScore_lookup; eauto) Hj).
    rewrite clientScore_spec, He in Hout. 
    assert (closeness j = altservers_netCloseness host (as_host a)) by (unfold closeness; by rewrite Ha). lia.
  - rewrite Hlen, candidates_eligible. lia.
  - clear - Hel. induction l as [|i l IH]; [done|]. destruct (Hel i) as (a & Ha & _); [by left|]. cbn.
    unfold altservers_indexToHost. rewrite Ha. cbn. f_equal. apply IH. intros j Hj. apply Hel. by right.
Qed.
Definition demo_table : list dnbd3_alt_server_t :=
  [fillSlot emptySlot (demo_host 1) (Some "") true false; fillSlot emptySlot (demo_host 200) (Some "") false true;
   fillSlot emptySlot (demo_host 3) (Some "") false false].
Lemma altservers_getListForClient_correct_witness :
  clientServers (demo_host 2) "img" demo_table 3 = [2; 1]%nat
  /\ Z.of_nat (length (clientServers (demo_host 2) "img" demo_table 3)) = Z.min 3 (numEligible "img" demo_table).
Proof.
  split; [by vm_compute|].
  destruct (altservers_getListForClient_correct (demo_host 2) "img" demo_table 3) as (_ & _ & _ & _ & H & _);
    [by vm_compute|lia|]. exact H.
Defined.

(** * The list for an uplink *)

(** What no operation but loading the configuration changes of a server. *)
Definition static (a : dnbd3_alt_server_t) : dnbd3_host_t * bool * bool * list string :=
  (as_host a, as_isPrivate a, as_isClientOnly a, as_nameSpaces a).
(** The measurements of a server, which only a new one changes. *)
Definition history (l : dnbd3_alt_local_t) : Z * list Z * bool := (al_rttIndex l, al_rtt l, al_initDone l).
Definition alt_ok (s : alt_state) : Prop :=
  Z.of_nat (length (alt_servers s)) <= SERVER_MAX_ALTS
  /\ (forall d, alt_data s = Some d -> Z.of_nat (length d) = SERVER_MAX_ALTS) /\ rng_ok (alt_rng s).
(** The configuration allows to use the server as an uplink. *)
Definition uplinkServer (proxyPrivateOnly : bool) (a : dnbd3_alt_server_t) : bool :=
  negb (as_isClientOnly a || (negb (as_isPrivate a) && proxyPrivateOnly)).
(** [s'] is a state reached from [s] by counting failures and drawing numbers. *)
Definition alt_next (s s' : alt_state) : Prop :=
  alt_ok s' /\ map static (alt_servers s') = map static (alt_servers s)
  /\ map history <$> alt_data s' = map history <$> alt_data s.

Lemma alt_next_refl s : alt_ok s -> alt_next s s.
Proof. done. Qed.
Lemma alt_next_trans s1 s2 s3 : alt_next s1 s2 -> alt_next s2 s3 -> alt_next s1 s3.
Proof. intros (? & E1 & E2) (? & F1 & F2). split; [done|]. by rewrite F1, F2. Qed.
Lemma alt_next_static s s' : alt_next s s' -> map static (alt_servers s') = map static (alt_servers s).
Proof. by intros (_ & ? & _). Qed.
Lemma alt_next_length s s' : alt_next s s' -> length (alt_servers s') = length (alt_servers s).
Proof. intros (_ & E%(f_equal length) & _). by rewrite !length_map in E. Qed.

(** A server of the later state is the same server. *)
Lemma static_lookup l l' i a :
  map static l' = map static l -> l' !! i = Some a ->
  exists b, l !! i = Some b /\ static a = static b.
Proof.
  intros E Hi. assert ((static <$> l') !! i = Some (static a)) as H by by rewrite list_lookup_fmap, Hi.
  change (static <$> l') with (map static l') in H. rewrite E in H. change (map static l) with (static <$> l) in H.
  rewrite list_lookup_fmap in H. destruct (l !! i) as [b|]; [|done]. exists b.
  split; [done|]. change (Some (static b) = Some (static a)) in H. congruence.
Qed.
Lemma static_both l l' i a b :
  map static l' = map static l -> l' !! i = Some a -> l !! i = Some b -> static a = static b.
Proof. intros E Ha Hb. destruct (static_lookup _ _ _ _ E Ha) as (b' & Hb' & Es). congruence. Qed.
Lemma static_insert l i a b : l !! i = Some a -> static b = static a -> map static (<[i := b]> l) = map static l.
Proof.
  intros Hi E. change (map static) with (fmap (M := list) static). rewrite list_fmap_insert, E.
  apply list_insert_id. by rewrite list_lookup_fmap, Hi.
Qed.
Lemma isImageAllowed_static a b image : static a = static b -> isImageAllowed a image = isImageAllowed b image.
Proof. unfold static, isImageAllowed. by intros [= _ _ _ ->]. Qed.
Lemma uplinkServer_static p a b : static a = static b -> uplinkServer p a = uplinkServer p b.
Proof. unfold static, uplinkServer. by intros [= _ -> -> _]. Qed.

Lemma rand_ok r x r' : rng_ok r -> rand r = (x, r') -> 0 <= x < 2 ^ 31 /\ rng_ok r'.
Proof. intros H [= <- <-]. split; [apply H|exact H]. Qed.

Section UplinkLists.
Context (proxyPrivateOnly : bool) (now : ticks) (image : string).

Lemma isUsableForUplink_spec s server a :
  alt_ok s -> alt_servers s !! server = Some a ->
  exists s' b, isUsableForUplink proxyPrivateOnly now s server = Ok (s', b) /\ alt_next s s'
    /\ (b = true -> uplinkServer proxyPrivateOnly a = true).
Proof.
  intros (Hlen & Hd & Hr) Ha. unfold isUsableForUplink. rewrite Ha.
  assert (server < length (alt_servers s))%nat as Hlt by by apply lookup_lt_Some in Ha.
  destruct (as_isClientOnly a || (negb (as_isPrivate a) && proxyPrivateOnly)) eqn:Eu; [by exists s, false|].
  set (m := match alt_data s with Some _ => _ | None => _ end).
  assert (exists data ok f, m = Ok (data, ok, f)
            /\ (forall d, data = Some d -> Z.of_nat (length d) = SERVER_MAX_ALTS)
            /\ map history <$> data = map history <$> alt_data s) as (data & ok & f & -> & Hdata & Hhist).
  { unfold m. destruct (alt_data s) as [d|] eqn:Ed; [|by do 3 eexists]. specialize (Hd d eq_refl).
    destruct (lookup_lt_is_Some_2 d server) as [l Hl]; [lia|]. rewrite Hl. destruct (localUsable l) as [l' ok] eqn:El.
    do 3 eexists. split; [done|]. split; [intros d' [= <-]; by rewrite length_insert|].
    change (Some (map history (<[server := l']> d)) = Some (map history d)). f_equal.
    change (map history) with (fmap (M := list) history). rewrite list_fmap_insert.
    apply list_insert_id. rewrite list_lookup_fmap, Hl. cbn. f_equal.
    unfold localUsable in El. destruct (al_blocked l); [|by injection El as <- <-].
    by destruct (_ <? _); injection El as <- <-. }
  cbn [mbind result_bind alt_servers alt_rng].
  assert (forall alts r b, length alts = length (alt_servers s) -> map static alts = map static (alt_servers s) -> rng_ok r ->
            exists s' b', Ok (AltState alts data r, b) = Ok (s', b') /\ alt_next s s'
              /\ (b' = true -> uplinkServer proxyPrivateOnly a = true)) as Hfin.
  { intros alts r b Hl Hs Hr'. do 2 eexists. split; [done|]. split.
    - split; [|done]. split_and!; [cbn; lia|done|done].
    - intros _. unfold uplinkServer. by rewrite Eu. }
  destruct (negb ok); [by apply Hfin|]. destruct (globalUsable now a) as [g gok] eqn:Eg.
  assert (static g = static a) as Hg.
  { unfold globalUsable in Eg. destruct (as_blocked a); [|by injection Eg as <- <-].
    destruct (_ <? _); [by injection Eg as <- <-|]. by destruct (_ <? _); injection Eg as <- <-. }
  assert (forall r b, rng_ok r -> exists s' b', Ok (AltState (<[server := g]> (alt_servers s)) data r, b) = Ok (s', b')
            /\ alt_next s s' /\ (b' = true -> uplinkServer proxyPrivateOnly a = true)) as Hfin'.
  { intros. apply Hfin; [by rewrite length_insert|by eapply static_insert|done]. }
  destruct (negb gok); [by apply Hfin'|]. destruct (_ <? _); [by apply Hfin'|].
  destruct (rand (alt_rng s)) as [x r] eqn:Ex. apply Hfin'. by eapply rand_ok.
Qed.

(** Every server listed may serve the image as an uplink, or is the current one. *)
Definition listed_ok (s : alt_state) (current : option nat) (i : nat) : Prop :=
  exists a, alt_servers s !! i = Some a
    /\ (current = None \/ current = Some i
        \/ uplinkServer proxyPrivateOnly a = true /\ isImageAllowed a image = true).

Lemma listed_ok_next s s' c i : alt_next s s' -> listed_ok s' c i -> listed_ok s c i.
Proof.
  intros (_ & E & _) (a & Ha & H). destruct (static_lookup _ _ _ _ E Ha) as (b & Hb & Es).
  exists b. split; [done|]. by rewrite <- (uplinkServer_static _ _ _ Es), <- (isImageAllowed_static _ _ _ Es).
Qed.

Lemma listAll_spec n i current s :
  alt_ok s -> (i + n = length (alt_servers s))%nat ->
  exists s' l, listAll proxyPrivateOnly now image n i current s = Ok (s', l) /\ alt_next s s'
    /\ NoDup l /\ (length l <= n)%nat /\ (forall j, j ∈ l -> (i <= j)%nat /\ listed_ok s current j)
    /\ (forall j a, (i <= j)%nat -> alt_servers s !! j = Some a -> isImageAllowed a image = true ->
          current = None \/ current = Some j -> j ∈ l)
    /\ (forall j a, j ∈ l -> alt_servers s !! j = Some a -> isImageAllowed a image = true).
Proof.
  revert i s. induction n as [|n IH]; intros i s Hs Hi; cbn [listAll].
  { exists s, []. split; [done|]. split; [by apply alt_next_refl|].
    split_and!; [constructor|done|by intros ? ?%not_elem_of_nil| |by intros ? ? ?%not_elem_of_nil].
    intros j a Hj Ha%lookup_lt_Some. lia. }
  destruct (lookup_lt_is_Some_2 (alt_servers s) i) as [a Ha]; [lia|].
  set (m := match current with Some _ => _ | None => _ end).
  assert (exists s1 ok, m = Ok (s1, ok) /\ alt_next s s1
            /\ (ok = true -> current = None \/ current = Some i \/ uplinkServer proxyPrivateOnly a = true)
            /\ (current = None \/ current = Some i -> ok = true)) as (s1 & ok & -> & Hn & Hok & Hcur).
  { unfold m. destruct current as [c|]; [|exists s, true; naive_solver eauto using alt_next_refl].
    destruct (Nat.eqb_spec i c) as [->|]; [exists s, true; naive_solver eauto using alt_next_refl|].
    destruct (isUsableForUplink_spec s i a Hs Ha) as (s1 & b & -> & Hn & Hb). exists s1, b.
    split; [done|]. split; [done|]. split; [by auto|]. intros [|E]; [done|congruence]. }
  cbn [mbind result_bind]. pose proof (alt_next_length _ _ Hn) as Hl.
  destruct (lookup_lt_is_Some_2 (alt_servers s1) i) as [a1 Ha1]; [lia|]. rewrite Ha1.
  pose proof (static_both _ _ _ _ _ (alt_next_static _ _ Hn) Ha1 Ha) as Es.
  destruct (IH (S i) s1 (proj1 Hn) ltac:(lia)) as (s2 & l & -> & Hn2 & Hnd & Hlen & Hin & Hall & Himg).
  cbn [mbind result_bind]. rewrite (isImageAllowed_static _ _ image Es).
  exists s2, (if ok && isImageAllowed a image then i :: l else l). split; [done|].
  split; [by eapply alt_next_trans|].
  assert (i ∉ l) as Hil by (intros [? _]%Hin; lia).
  assert (forall j, j ∈ l -> (i <= j)%nat /\ listed_ok s current j) as Hin'.
  { intros j [? ?]%Hin. split; [lia|by eapply listed_ok_next]. }
  assert (forall j a, (S i <= j)%nat -> alt_servers s !! j = Some a -> isImageAllowed a image = true ->
            current = None \/ current = Some j -> j ∈ l) as Hall'.
  { intros j b Hj Hb Hbi Hc. destruct (lookup_lt_is_Some_2 (alt_servers s1) j) as [b1 Hb1];
      [apply lookup_lt_Some in Hb; lia|]. apply (Hall j b1); [done|done| |done].
    pose proof (static_both _ _ _ _ _ (alt_next_static _ _ Hn) Hb1 Hb) as Eb. by rewrite (isImageAllowed_static _ _ _ Eb). }
  assert (forall j a, j ∈ l -> alt_servers s !! j = Some a -> isImageAllowed a image = true) as Himg'.
  { intros j b Hj Hb. destruct (lookup_lt_is_Some_2 (alt_servers s1) j) as [b1 Hb1];
      [apply lookup_lt_Some in Hb; lia|]. specialize (Himg j b1 Hj Hb1).
    pose proof (static_both _ _ _ _ _ (alt_next_static _ _ Hn) Hb1 Hb) as Eb. by rewrite <- (isImageAllowed_static _ _ _ Eb). }
  destruct (ok && isImageAllowed a image) eqn:E.
  - apply andb_true_iff in E as [-> Hai]. split_and!; [by constructor|cbn; lia|..].
    + intros j [->|Hj]%elem_of_cons; [|by auto]. split; [lia|]. exists a. split; [done|].
      destruct (Hok eq_refl) as [?|[?|?]]; auto.
    + intros j b Hj Hb Hbi Hc. destruct (decide (j = i)) as [->|]; [by left|]. right. apply (Hall' j b); done || lia.
    + intros j b [->|Hj]%elem_of_cons Hb; [by simplify_eq|by eapply Himg'].
  - split_and!; [done|lia|done| |done].
    intros j b Hj Hb Hbi Hc. destruct (decide (j = i)) as [->|]; [|apply (Hall' j b); done || lia].
    simplify_eq. rewrite Hbi, andb_true_r in E. by rewrite Hcur in E.
Qed.

Lemma randServer_spec s :
  alt_ok s -> alt_servers s <> [] ->
  ((randServer s).1 < length (alt_servers s))%nat /\ alt_next s (randServer s).2.
Proof.
  intros Hs Hne. destruct Hs as (Hl & Hd & Hr). unfold randServer.
  destruct (rand (alt_rng s)) as [x r] eqn:Ex. destruct (rand_ok _ _ _ Hr Ex) as [Hx Hr']. cbn.
  assert (0 < Z.of_nat (length (alt_servers s))) by (destruct (alt_servers s); [done|cbn; lia]).
  split; [|done]. rewrite Z.rem_mod_nonneg by lia.
  pose proof (Z.mod_pos_bound x (Z.of_nat (length (alt_servers s)))). lia.
Qed.

(** The loops' invariant: the servers picked so far are marked as used. *)
Record picking (s0 : alt_state) (size : Z) (current : option nat) (state : list mark) (servers : list nat) (s : alt_state) : Prop := {
  pk_next : alt_next s0 s;
  pk_some : alt_servers s0 <> [];
  pk_marks : Z.of_nat (length state) = SERVER_MAX_ALTS;
  pk_nodup : NoDup servers;
  pk_size : Z.of_nat (length servers) <= size;
  pk_used : forall i, i ∈ servers -> state !! i = Some Used;
  pk_ok : forall i, i ∈ servers -> listed_ok s0 current i;
}.

Lemma picking_mark s0 size c state servers s s' idx m :
  picking s0 size c state servers s -> alt_next s s' -> state !! idx = Some m ->
  picking s0 size c (<[idx := Used]> state) servers s'.
Proof.
  intros [] Hn Hm. split; try done.
  - by eapply alt_next_trans.
  - by rewrite length_insert.
  - intros i Hi. destruct (decide (i = idx)) as [->|]; [|by rewrite list_lookup_insert_ne by done; auto].
    apply list_lookup_insert_eq. by apply lookup_lt_Some in Hm.
Qed.
Lemma picking_add s0 size c state servers s idx m :
  picking s0 size c state servers s -> state !! idx = Some m -> m <> Used ->
  Z.of_nat (length servers) < size -> listed_ok s0 c idx ->
  picking s0 size c (<[idx := Used]> state) (servers ++ [idx]) s.
Proof.
  intros P Hm Hu Hlt Hok.
  assert (idx ∉ servers) by (intros Hi%(pk_used _ _ _ _ _ _ P); congruence).
  destruct P. split; try done.
  - by rewrite length_insert.
  - apply list.NoDup_app. split_and!; [done| |apply NoDup_singleton].
    intros i Hi ->%list_elem_of_singleton. done.
  - rewrite length_app. cbn. lia.
  - assert (idx < length state)%nat by by apply lookup_lt_Some in Hm.
    intros i Hi. destruct (decide (i = idx)) as [->|]; [by apply list_lookup_insert_eq|].
    rewrite list_lookup_insert_ne by done. apply elem_of_app in Hi as [?|Hi%list_elem_of_singleton]; [by auto|done].
  - intros i [?| ->%list_elem_of_singleton]%elem_of_app; by auto.
Qed.
Lemma picking_next s0 size c state servers s s' :
  picking s0 size c state servers s -> alt_next s s' -> picking s0 size c state servers s'.
Proof. intros [] Hn. split; try done. by eapply alt_next_trans. Qed.

Lemma picking_rand s0 size c state servers s idx s1 :
  picking s0 size c state servers s -> randServer s = (idx, s1) ->
  exists m a, state !! idx = Some m /\ alt_servers s1 !! idx = Some a /\ picking s0 size c state servers s1.
Proof.
  intros P E. pose proof (pk_next _ _ _ _ _ _ P) as Hn.
  assert (alt_servers s <> []) as Hne.
  { intros E0. apply alt_next_length in Hn. rewrite E0 in Hn. destruct P. by destruct (alt_servers s0). }
  destruct (randServer_spec s (proj1 Hn) Hne) as [Hlt Hn1]. rewrite E in Hlt, Hn1. cbn in Hlt, Hn1.
  pose proof (picking_next _ _ _ _ _ _ _ P Hn1) as P1.
  pose proof (alt_next_length _ _ Hn1) as Hl1. destruct Hn1 as [[Hle _] _].
  pose proof (pk_marks _ _ _ _ _ _ P).
  destruct (lookup_lt_is_Some_2 state idx) as [m Hm]; [lia|].
  destruct (lookup_lt_is_Some_2 (alt_servers s1) idx) as [a Ha]; [lia|]. by exists m, a.
Qed.

Lemma pickRandom_spec tr size state servers s s0 current :
  picking s0 size current state servers s ->
  exists s' state' l, pickRandom proxyPrivateOnly now image tr size state servers s = Ok (s', state', l)
    /\ picking s0 size current state' l s' /\ (forall i, i ∈ servers -> i ∈ l).
Proof.
  revert state servers s. induction tr as [|tr IH]; intros state servers s P; cbn [pickRandom]; [eauto 10|].
  destruct (Z.ltb_spec (Z.of_nat (length servers)) size); cbn [negb]; [|eauto 10].
  destruct (randServer s) as [idx s1] eqn:Er.
  destruct (picking_rand _ _ _ _ _ _ _ _ P Er) as (m & a & Hm & Ha & P1). rewrite Hm, Ha.
  destruct (bool_decide_reflect (m = Fresh)) as [->|]; cbn [negb]; [|by apply IH].
  assert (alt_next s1 s1) as Hrefl by (apply alt_next_refl, (pk_next _ _ _ _ _ _ P1)).
  destruct (isImageAllowed a image) eqn:Ei; cbn [negb].
  2: { apply IH. by eapply picking_mark. }
  destruct (isUsableForUplink_spec s1 idx a) as (s2 & b & -> & Hn2 & Hb); [apply (pk_next _ _ _ _ _ _ P1)|done|].
  cbn [mbind result_bind]. pose proof (picking_next _ _ _ _ _ _ _ P1 Hn2) as P2. destruct b.
  - destruct (IH (<[idx := Used]> state) (servers ++ [idx]) s2) as (s' & st' & l & -> & P' & Hl).
    + eapply picking_add; [done|done|done|done|].
      eapply (listed_ok_next _ s1); [apply (pk_next _ _ _ _ _ _ P1)|]. exists a. split; [done|]. right. right. by auto.
    + do 3 eexists. split_and!; [done|done|]. intros i Hi. apply Hl, elem_of_app. by left.
  - apply IH. destruct P2. split; try done; [by rewrite length_insert|].
    intros i Hi. destruct (decide (i = idx)) as [->|].
    + specialize (pk_used0 idx Hi). congruence.
    + rewrite list_lookup_insert_ne by done. by auto.
Qed.
Lemma pickPanic_spec tr size state servers s s0 :
  picking s0 size None state servers s ->
  exists s' l, pickPanic tr size state servers s = Ok (s', l)
    /\ (exists state', picking s0 size None state' l s') /\ (forall i, i ∈ servers -> i ∈ l).
Proof.
  revert state servers s. induction tr as [|tr IH]; intros state servers s P; cbn [pickPanic]; [eauto 10|].
  destruct (Z.ltb_spec (Z.of_nat (length servers)) size); cbn [negb]; [|eauto 10].
  destruct (randServer s) as [idx s1] eqn:Er.
  destruct (picking_rand _ _ _ _ _ _ _ _ P Er) as (m & a & Hm & Ha & P1). rewrite Hm.
  destruct (bool_decide_reflect (m = Used)); [by apply IH|].
  destruct (IH (<[idx := Used]> state) (servers ++ [idx]) s1) as (s' & l & -> & P' & Hl).
  - eapply picking_add; [done|done|done|done|].
    eapply (listed_ok_next _ s1); [apply (pk_next _ _ _ _ _ _ P1)|]. exists a. auto.
  - do 2 eexists. split_and!; [done|done|]. intros i Hi. apply Hl, elem_of_app. by left.
Qed.
End UplinkLists.

Lemma getListForUplink_spec proxyPrivateOnly now image s size current :
  alt_ok s -> (forall c, current = Some c -> (c < length (alt_servers s))%nat) ->
  exists s' l, altservers_getListForUplink proxyPrivateOnly now image s size current = Ok (s', l)
    /\ alt_next s s' /\ NoDup l /\ Z.of_nat (length l) <= Z.max 0 size
    /\ (forall i, i ∈ l -> exists a, alt_servers s !! i = Some a
          /\ (current = None \/ current = Some i
              \/ uplinkServer proxyPrivateOnly a = true /\ isImageAllowed a image = true))
    /\ (Z.of_nat (length (alt_servers s)) <= size ->
        forall i a, alt_servers s !! i = Some a ->
          (i ∈ l -> isImageAllowed a image = true)
          /\ (isImageAllowed a image = true -> current = None \/ current = Some i -> i ∈ l)).
Proof.
  intros Hs Hc. unfold altservers_getListForUplink. destruct (Z.leb_spec size 0) as [Hsz|Hsz].
  { exists s, []. split; [done|]. split; [by apply alt_next_refl|].
    split_and!; [constructor|cbn; lia|by intros ? ?%not_elem_of_nil|].
    intros Hle i a Ha%lookup_lt_Some. lia. }
  destruct (Z.leb_spec (Z.of_nat (length (alt_servers s))) size) as [Hfew|Hmany].
  { destruct (listAll_spec proxyPrivateOnly now image (length (alt_servers s)) 0 current s Hs ltac:(lia))
      as (s' & l & -> & Hn & Hnd & Hlen & Hin & Hall & Himg).
    exists s', l. split; [done|]. split; [done|]. split_and!; [done|lia|by intros i [_ ?]%Hin|].
    intros _ i a Ha. split; [intros Hi; by eapply Himg|intros; eapply Hall; eauto; lia]. }
  set (st := match current with None => _ | Some _ => _ end).
  assert (picking proxyPrivateOnly image s size current st.1 st.2 s) as P0.
  { unfold st. split; [by apply alt_next_refl|by intros E; rewrite E in Hmany; cbn in Hmany; lia|..];
      destruct current as [c|]; cbn [fst snd];
      rewrite ?length_insert, ?length_replicate; try (vm_compute; done); try constructor;
      try apply not_elem_of_nil; try (cbn; lia); try constructor; try by intros ? ?%not_elem_of_nil.
    - intros i ->%list_elem_of_singleton. apply list_lookup_insert_eq. rewrite length_replicate.
      specialize (Hc c eq_refl). destruct Hs as [Hs _]. lia.
    - intros i ->%list_elem_of_singleton. destruct (lookup_lt_is_Some_2 _ _ (Hc c eq_refl)) as [a Ha]. exists a. auto. }
  destruct st as [state servers]. cbn [fst snd] in P0.
  destruct (pickRandom_spec proxyPrivateOnly now image (Z.to_nat (size * 10)) size state servers s s current P0)
    as (s1 & st1 & l1 & -> & P1 & _). cbn [mbind result_bind].
  assert (forall s' l, (exists st, picking proxyPrivateOnly image s size current st l s') ->
    alt_next s s' /\ NoDup l /\ Z.of_nat (length l) <= Z.max 0 size
    /\ (forall i, i ∈ l -> listed_ok proxyPrivateOnly image s current i)) as Hfin.
  { intros s' l [st []]. split; [done|]. split_and!; [done|lia|done]. }
  assert (exists s' l, match current with
            | None => pickPanic (Z.to_nat (size * 10)) size st1 l1 s1 | Some _ => Ok (s1, l1) end = Ok (s', l)
            /\ exists st, picking proxyPrivateOnly image s size current st l s') as (s' & l & -> & Hp).
  { destruct current as [c|]; [by eauto|].
    destruct (pickPanic_spec proxyPrivateOnly image (Z.to_nat (size * 10)) size st1 l1 s1 s P1) as (s' & l & ? & ? & _).
    by exists s', l. }
  exists s', l. split; [done|]. destruct (Hfin s' l Hp) as (? & ? & ? & ?). split; [done|]. split_and!; [done|done|done|lia].
Qed.

(** Choosing servers for an uplink stays inside the tables, changes no server's
    configuration, and yields at most the requested number of distinct servers.
    While connected each of them is the current server or one that may be used as an
    uplink and carries the image.  With few servers every server listed carries the
    image, and in panic mode all those that do are listed. *)
Theorem altservers_getListForUplink_correct proxyPrivateOnly now image s size current :
  alt_ok s -> (forall c, current = Some c -> (c < length (alt_servers s))%nat) ->
  exists s' l, altservers_getListForUplink proxyPrivateOnly now image s size current = Ok (s', l)
    /\ alt_next s s' /\ NoDup l /\ Z.of_nat (length l) <= Z.max 0 size
    /\ (forall i, i ∈ l -> exists a, alt_servers s !! i = Some a
          /\ (current = None \/ current = Some i
              \/ uplinkServer proxyPrivateOnly a = true /\ isImageAllowed a image = true))
    /\ (Z.of_nat (length (alt_servers s)) <= size ->
        forall i a, alt_servers s !! i = Some a ->
          (i ∈ l -> isImageAllowed a image = true)
          /\ (isImageAllowed a image = true -> current = None \/ current = Some i -> i ∈ l)).
Proof. apply getListForUplink_spec. Qed.
Lemma altservers_getListForUplink_correct_witness :
  exists s' l, altservers_getListForUplink false (Ticks 100 0) "img"
      (AltState demo_table None (Rng (fun _ => 0) 0)) 2 (Some 1%nat) = Ok (s', l)
    /\ NoDup l /\ l = [1; 0]%nat.
Proof.
  destruct (altservers_getListForUplink_correct false (Ticks 100 0) "img"
      (AltState demo_table None (Rng (fun _ => 0) 0)) 2 (Some 1%nat)) as (s' & l & E & _ & Hn & _).
  - split_and!; [by vm_compute|done|]. intros n. cbn. lia.
  - intros c [= <-]. cbn. lia.
  - exists s', l. split; [exact E|]. split; [exact Hn|]. vm_compute in E. by injection E as _ <-.
Defined.

(** A client-only server and one whose name space excludes the image, both of which
    panic mode and the replication of new images can pick. *)
Definition panic_table : list dnbd3_alt_server_t :=
  map (fun x => fillSlot emptySlot (demo_host x) None false true) [1; 2; 3; 4]
  ++ [as_set_mode false false "" ["other/"] (fillSlot emptySlot (demo_host 5) None false false)].
Definition panic_rng : rng := Rng (fun n => if (n <? 40)%nat then 0 else Z.of_nat n - 39) 0.

(** The list of hosts to replicate a new image from can name servers that are
    meant for clients only and, when there are more servers than requested, servers
    whose name spaces exclude the image. *)
Theorem replication_list_unrestricted :
  altservers_getHostListForReplication false (Ticks 100 0) panic_table panic_rng "img" 4
    = Ok (map demo_host [2; 3; 4; 5])
  /\ as_isClientOnly <$> panic_table !! 1%nat = Some true
  /\ (fun a => isImageAllowed a "img") <$> panic_table !! 4%nat = Some false.
Proof. by vm_compute. Qed.

(** * Round-trip times *)

(** Measurements whose sum fits [uint32_t] (about 14 minutes each). *)
Definition rtt_small (x : Z) : Prop := 0 <= x < 2 ^ 32 / SERVER_RTT_PROBES.

Lemma length_5 {A} (l : list A) : length l = 5%nat -> exists a b c d e, l = [a; b; c; d; e].
Proof. destruct l as [|a [|b [|c [|d [|e [|]]]]]]; try done. by exists a, b, c, d, e. Qed.
Lemma rtt_sum (h : list Z) :
  length h = 5%nat -> Forall rtt_small h ->
  u32 (foldl (fun s x => u32 (s + x)) 0 h) = zsum id h
  /\ forall lo hi, Forall (fun x => lo <= x <= hi) h -> lo <= zsum id h / SERVER_RTT_PROBES <= hi.
Proof.
  intros (a & b & c & d & e & ->)%length_5 Hs.
  assert (SERVER_RTT_PROBES = 5) as E5 by done. assert (2 ^ 32 / 5 = 858993459) as E by done.
  rewrite !list.Forall_cons in Hs. unfold rtt_small in Hs. rewrite E5, E in Hs. destruct Hs as (? & ? & ? & ? & ? & _).
  split.
  - cbn -[u32 Z.add]. rewrite (u32_id (0 + a)), (u32_id (0 + a + b)), (u32_id (0 + a + b + c)) by crange.
    rewrite (u32_id (0 + a + b + c + d)), !(u32_id (0 + a + b + c + d + e)) by crange. lia.
  - intros lo hi Hb. rewrite !list.Forall_cons in Hb. rewrite E5. cbn [zsum id].
    split; [apply Z.div_le_lower_bound|apply Z.div_le_upper_bound]; lia.
Qed.

(** Recording a measurement keeps a history of five values with the new one in it;
    the result is the average of the history, between its smallest and largest value,
    it is entered in the history of the server, and no other entry changes. *)
Theorem altservers_updateRtt_correct alts altData i a l rtt :
  alts !! i = Some a -> altData !! i = Some l ->
  length (al_rtt l) = 5%nat -> length (as_rtt a) = 5%nat -> 0 <= al_rttIndex l -> 0 <= as_rttIndex a ->
  rtt_small rtt -> (al_initDone l = true -> Forall rtt_small (al_rtt l)) ->
  exists a' l' avg, altservers_updateRtt alts altData i rtt = Ok (<[i := a']> alts, <[i := l']> altData, avg)
    /\ al_initDone l' = true /\ length (al_rtt l') = 5%nat /\ rtt ∈ al_rtt l' /\ Forall rtt_small (al_rtt l')
    /\ avg = zsum id (al_rtt l') / SERVER_RTT_PROBES
    /\ (forall lo hi, Forall (fun x => lo <= x <= hi) (al_rtt l') -> lo <= avg <= hi)
    /\ static a' = static a /\ length (as_rtt a') = 5%nat /\ avg ∈ as_rtt a'.
Proof.
  intros Ha Hl Hll Hal Hli Hai Hr Hh. unfold altservers_updateRtt, recordRtt. rewrite Ha, Hl.
  assert (forall k v (h : list Z), 0 <= k -> length h = 5%nat -> v ∈ <[Z.to_nat (Z.rem k SERVER_RTT_PROBES) := v]> h) as Hput.
  { intros k v h Hk Hlen. assert (Z.to_nat (Z.rem k SERVER_RTT_PROBES) < length h)%nat as Hlt.
    { rewrite Z.rem_mod_nonneg by done. pose proof (Z.mod_pos_bound k SERVER_RTT_PROBES ltac:(done)).
      assert (SERVER_RTT_PROBES = 5) by done. lia. }
    apply (list_elem_of_lookup_2 _ (Z.to_nat (Z.rem k SERVER_RTT_PROBES))). by apply list_lookup_insert_eq. }
  destruct (al_initDone l).
  - set (h := <[_ := rtt]> (al_rtt l)).
    assert (length h = 5%nat) as Hlh by by unfold h; rewrite length_insert.
    assert (Forall rtt_small h) as Hsh by (apply Forall_insert; auto).
    destruct (rtt_sum h Hlh Hsh) as [Es Hb]. rewrite Es.
    do 3 eexists. split; [done|]. cbn [al_initDone al_rtt as_rtt as_set_rtt]. rewrite length_insert.
    split_and!; try done; apply Hput; done || lia.
  - do 3 eexists. split; [done|]. cbn [al_initDone al_rtt as_rtt as_set_rtt]. rewrite length_insert.
    destruct (rtt_sum (replicate 5 rtt) eq_refl) as [_ Hb]; [by apply Forall_replicate|].
    assert (rtt = zsum id (replicate 5 rtt) / SERVER_RTT_PROBES) as Er.
    { specialize (Hb rtt rtt ltac:(apply Forall_replicate; lia)). lia. }
    split_and!; try done; [by left|by apply Forall_replicate| |apply Hput; done || lia].
    intros lo hi Hlh. rewrite Er. by apply Hb.
Qed.
Definition demo_local : dnbd3_alt_local_t := AltLocal 0 0 [10; 20; 30; 40; 50] false true.
Lemma altservers_updateRtt_correct_witness :
  exists a' l' avg, altservers_updateRtt demo_table (replicate 3 demo_local) 2 70
      = Ok (<[2%nat := a']> demo_table, <[2%nat := l']> (replicate 3 demo_local), avg)
    /\ avg = zsum id (al_rtt l') / SERVER_RTT_PROBES.
Proof.
  destruct (altservers_updateRtt_correct demo_table (replicate 3 demo_local) 2
              (fillSlot emptySlot (demo_host 3) (Some "") false false) demo_local 70)
    as (a' & l' & avg & E & _ & _ & _ & _ & Ha & _);
    [reflexivity|reflexivity|reflexivity|reflexivity|done|done|by split; vm_compute| |].
  - intros _. by repeat constructor.
  - exists a', l', avg. split; [exact E|exact Ha].
Defined.

(** * A blocked server comes back *)

(** Repeated calls of [isUsableForUplink] for one server. *)
Fixpoint usableRuns (proxyPrivateOnly : bool) (times : list ticks) (s : alt_state) (server : nat)
  : result (alt_state * list bool) :=
  match times with
  | [] => Ok (s, [])
  | t :: r =>
      '(s, b) ← isUsableForUplink proxyPrivateOnly t s server;
      '(s, l) ← usableRuns proxyPrivateOnly r s server;
      Ok (s, b :: l)
  end.
(** Calls at least [SERVER_GLOBAL_DUP_TIME] seconds apart. *)
Fixpoint spaced (last : ticks) (times : list ticks) : Prop :=
  match times with
  | [] => True
  | t :: r => SERVER_GLOBAL_DUP_TIME <= timing_diff last t /\ spaced t r
  end.

(** A server that was blocked after too many failures is skipped once for each
    failure counted, the calls being far enough apart, and is then usable again with
    its counter reset. *)
Theorem blocked_server_recovers proxyPrivateOnly n times s server a :
  alt_data s = None -> alt_servers s !! server = Some a -> uplinkServer proxyPrivateOnly a = true ->
  as_blocked a = true -> as_fails a = Z.of_nat (S n) -> length times = S n -> spaced (as_lastFail a) times ->
  exists s' a', usableRuns proxyPrivateOnly times s server = Ok (s', replicate n false ++ [true])
    /\ alt_servers s' !! server = Some a' /\ as_blocked a' = false /\ as_fails a' = 0 /\ static a' = static a.
Proof.
  unfold uplinkServer. revert times s a. induction n as [|n IH]; intros [|t times] s a Hd Ha Hu Hb Hf Hlen Hs;
    try done; destruct Hs as [Hs Hr]; cbn [usableRuns]; unfold isUsableForUplink at 1; rewrite Ha;
    apply negb_true_iff in Hu as Hu'; rewrite Hu', Hd; cbn [mbind result_bind negb alt_servers alt_rng];
    unfold globalUsable; rewrite Hb, Hf; (destruct (Z.ltb_spec (timing_diff (as_lastFail a) t) SERVER_GLOBAL_DUP_TIME); [lia|]);
    (assert (server < length (alt_servers s))%nat by by apply lookup_lt_Some in Ha).
  - destruct times; [|done]. cbn. do 2 eexists. split; [done|]. cbn. split; [by apply list_lookup_insert_eq|done].
  - destruct (Z.ltb_spec 0 (Z.of_nat (S (S n)) - 1)); [|lia]. cbn [negb mbind result_bind].
    set (a1 := as_set_fail _ _ _ a).
    destruct (IH times (AltState (<[server := a1]> (alt_servers s)) None (alt_rng s)) a1)
      as (s' & a' & E & Ha' & ? & ? & ?); try done.
    + cbn. by apply list_lookup_insert_eq.
    + unfold a1. cbn [as_set_fail as_fails]. lia.
    + by injection Hlen.
    + exists s', a'. rewrite E. cbn [mbind result_bind]. by split_and!.
Qed.
Lemma blocked_server_recovers_witness :
  exists s' a', usableRuns false [Ticks 10 0; Ticks 20 0]
      (AltState [as_set_fail 2 true (Ticks 1 0) (fillSlot emptySlot (demo_host 3) None false false)] None (Rng (fun _ => 0) 0)) 0
    = Ok (s', [false; true])
    /\ alt_servers s' !! 0%nat = Some a' /\ as_blocked a' = false.
Proof.
  destruct (blocked_server_recovers false 1 [Ticks 10 0; Ticks 20 0]
      (AltState [as_set_fail 2 true (Ticks 1 0) (fillSlot emptySlot (demo_host 3) None false false)] None (Rng (fun _ => 0) 0)) 0
      (as_set_fail 2 true (Ticks 1 0) (fillSlot emptySlot (demo_host 3) None false false)))
    as (s' & a' & E & Ha & Hb & _); try done.
  exists s', a'. split; [exact E|]. split; [exact Ha|exact Hb].
Defined.
