(* ===== verification/AltCheck.v ===== *)
(** * AltCheck: the round-trip measurement of [src/server/altservers.c]

    [altservers_findUplinkInternal] connects to a few servers, asks each for the
    image and one block, and decides whether the uplink should switch.  What a
    server does is a [probe]: the socket, the replies and the clock readings.  The
    other fields of the uplink the check reads while the uplink's thread runs are
    given per server by the environment. *)

From S2P Require Import Prelude Timing Types Helper CacheMap Uplink UplinkIO UplinkTrace AltServers.

Definition RTT_THRESHOLD_FACTOR (us : Z) : Z := us * 2 / 3.

Record select_reply := SelectReply {
  sr_version : Z;
  sr_name : option string;
  sr_rid : Z;
  sr_imageSize : Z;
}.
Record block_reply := BlockReply {
  br_cmd : Z;
  br_size : Z;
  br_recv : list Z;       (* what the calls of [recv] for the payload return *)
}.
(** [pr_sock] is what [sock_connect] returns, -1 for a failure; a missing reply is a
    failure to send the request or to read the reply. *)
Record probe := Probe {
  pr_sock : Z;
  pr_select : option select_reply;
  pr_block : option block_reply;
  pr_start : ticks;
  pr_end : ticks;
}.
Record rtt_env := RttEnv {
  env_probe : nat -> probe;
  env_currentIndex : nat -> Z;    (* [uplink->current.index] when the server is measured *)
  env_cycleDetected : nat -> bool;
  env_now : nat -> ticks;
}.

Inductive outcome := ImageFailed | ServerFailed | Measured (version rtt : Z).

(** Read the payload; the number of bytes that did not come. *)
Fixpoint flushPayload (todo : Z) (rets : list Z) : Z :=
  match rets with
  | [] => todo
  | ret :: r =>
      if todo =? 0 then 0
      else if ret <=? 0 then todo
      else flushPayload (todo - Z.min ret (Z.min DNBD3_BLOCK_SIZE todo)) r
  end.

(** The conversation with a server that accepted the connection. *)
Definition converse (image : dnbd3_image_t) (len : Z) (p : probe) : outcome :=
  match pr_select p with
  | None => ImageFailed
  | Some r =>
      if sr_version r <? MIN_SUPPORTED_SERVER then ServerFailed
      else if negb (bool_decide (sr_name r = Some (img_name image))) then ImageFailed
      else if negb (sr_rid r =? img_rid image) then ImageFailed
      else if negb (sr_imageSize r =? img_virtualFilesize image) then ImageFailed
      else match pr_block p with
      | None => ImageFailed
      | Some b =>
          if negb (br_cmd b =? CMD_GET_BLOCK) || negb (br_size b =? len) then ServerFailed
          else if negb (flushPayload len (br_recv b) =? 0) then ImageFailed
          else Measured (sr_version r)
                 (u32 ((tv_sec (pr_end p) - tv_sec (pr_start p)) * 1000000
                       + Z.quot (tv_nsec (pr_end p) - tv_nsec (pr_start p)) 1000))
      end
  end.

(** The loop's variables and the sockets closed so far. *)
Record check_acc := CheckAcc {
  ca_alts : list dnbd3_alt_server_t;
  ca_data : list dnbd3_alt_local_t;
  ca_best : dnbd3_server_connection_t;
  ca_bestRtt : Z;
  ca_currentRtt : Z;
  ca_closed : list Z;
}.

Section Check.
Context (env : rtt_env) (image : dnbd3_image_t) (panic : bool) (len : Z).

(** The penalty for a cycle or a lost connection. *)
Definition penalty (server : nat) (avg : Z) : Z :=
  if (env_cycleDetected env server || panic) && (env_currentIndex env server =? Z.of_nat server)
  then u32 (u32 (avg * 2) + 50000) else avg.

Definition considerBest (acc : check_acc) (server : nat) (sock version avg : Z) : check_acc :=
  if negb panic && (env_currentIndex env server =? Z.of_nat server) then
    CheckAcc (ca_alts acc) (ca_data acc) (ca_best acc) (ca_bestRtt acc) avg (sock :: ca_closed acc)
  else if avg <? ca_bestRtt acc then
    CheckAcc (ca_alts acc) (ca_data acc) (Conn sock version (Z.of_nat server)) avg (ca_currentRtt acc)
      (if conn_fd (ca_best acc) =? -1 then ca_closed acc else conn_fd (ca_best acc) :: ca_closed acc)
  else CheckAcc (ca_alts acc) (ca_data acc) (ca_best acc) (ca_bestRtt acc) (ca_currentRtt acc) (sock :: ca_closed acc).

Definition probeServer (acc : check_acc) (server : nat) : result check_acc :=
  let p := env_probe env server in
  let fail alts data closed :=
    CheckAcc alts data (ca_best acc) (ca_bestRtt acc) (ca_currentRtt acc) closed in
  let serverFailed := altservers_serverFailed (env_now env server) (ca_alts acc) server in
  if pr_sock p =? -1 then Ok (fail serverFailed (ca_data acc) (ca_closed acc))
  else match converse image len p with
  | ImageFailed =>
      Ok (fail (ca_alts acc) (altservers_imageFailed (ca_data acc) server) (pr_sock p :: ca_closed acc))
  | ServerFailed => Ok (fail serverFailed (ca_data acc) (pr_sock p :: ca_closed acc))
  | Measured version rtt =>
      '(alts, data, avg) ← altservers_updateRtt (ca_alts acc) (ca_data acc) server rtt;
      Ok (considerBest (fail alts data (ca_closed acc)) server (pr_sock p) version (penalty server avg))
  end.
Fixpoint probeServers (acc : check_acc) (servers : list nat) : result check_acc :=
  match servers with
  | [] => Ok acc
  | x :: r => acc ← probeServer acc x; probeServers acc r
  end.
End Check.

Definition up_set_rtt (better : dnbd3_server_connection_t) (res : Z) (cycle : bool) (u : dnbd3_uplink_t) : dnbd3_uplink_t :=
  Uplink (up_current u) better res (up_cacheFd u) (up_recvBuffer u) (up_shutdown u) (up_replicatedLastBlock u)
    cycle (up_nextReplicationIndex u) (up_bytesReceived u) (up_queueLen u) (up_idleTime u) (up_queue u)
    (up_queueId u) (up_image u).
Definition set_rttResult (res : Z) (u : dnbd3_uplink_t) : dnbd3_uplink_t :=
  up_set_rtt (up_better u) res (up_cycleDetected u) u.

(** Whether to switch to the best server found. *)
Definition shouldSwitch (panic : bool) (acc : check_acc) : bool :=
  negb (conn_fd (ca_best acc) =? -1)
  && (panic || ((ca_bestRtt acc <? 10000000) && (ca_bestRtt acc <? RTT_THRESHOLD_FACTOR (ca_currentRtt acc)))).
(** The decision after all servers were measured: the uplink and the sockets closed. *)
Definition decideSwitch (panic : bool) (acc : check_acc) (u : dnbd3_uplink_t) : dnbd3_uplink_t * list Z :=
  if shouldSwitch panic acc then (up_set_rtt (ca_best acc) RTT_DOCHANGE (up_cycleDetected u) u, ca_closed acc)
  else if (conn_fd (ca_best acc) =? -1) && (ca_currentRtt acc =? RTT_UNREACHABLE)
  then (set_rttResult RTT_NOT_REACHABLE u, ca_closed acc)
  else (up_set_rtt (up_better u) RTT_DONTCHANGE false u,
        if conn_fd (ca_best acc) =? -1 then ca_closed acc else conn_fd (ca_best acc) :: ca_closed acc).

(** The range to ask for: the first request of the queue, or the first block. *)
Definition probeLength (u : dnbd3_uplink_t) : Z :=
  match up_queue u with [] => DNBD3_BLOCK_SIZE | e :: _ => u32 (qe_to e - qe_from e) end.

(** [locked] says whether [image_lock] found the image.  The result is the servers'
    state, the uplink and the sockets that were closed. *)
Definition altservers_findUplinkInternal (shutdown proxyPrivateOnly : bool) (now : ticks) (env : rtt_env) (locked : bool)
    (alts : list dnbd3_alt_server_t) (data : list dnbd3_alt_local_t) (r : rng) (u : dnbd3_uplink_t)
  : result (list dnbd3_alt_server_t * list dnbd3_alt_local_t * dnbd3_uplink_t * list nat * list Z) :=
  if shutdown then Ok (alts, data, u, [], [])
  else if negb (conn_fd (up_better u) =? -1) || (up_rttTestResult u =? RTT_INPROGRESS) then Ok (alts, data, u, [], [])
  else
    _ ← assert_ (negb (up_rttTestResult u =? RTT_DOCHANGE));
    let u := set_rttResult RTT_INPROGRESS u in
    let panic := conn_fd (up_current u) =? -1 in
    let current := if panic then None else Some (Z.to_nat (conn_index (up_current u))) in
    '(s, servers) ← altservers_getListForUplink proxyPrivateOnly now (img_name (up_image u))
                      (AltState alts (Some data) r) 4 current;
    let data := default [] (alt_data s) in
    if (length servers =? 0)%nat || ((length servers =? 1)%nat && negb panic)
    then Ok (alt_servers s, data, set_rttResult RTT_DONTCHANGE u, [], [])
    else if negb locked then Ok (alt_servers s, data, set_rttResult RTT_NOT_REACHABLE u, [], [])
    else
      acc ← probeServers env (up_image u) panic (probeLength u)
              (CheckAcc (alt_servers s) data (Conn (-1) 0 0) RTT_UNREACHABLE RTT_UNREACHABLE []) servers;
      let '(u, closed) := decideSwitch panic acc u in
      Ok (ca_alts acc, ca_data acc, u, servers, closed).

(** [altservers_findUplinkAsync]: whether a check is started; [isCurrent] says that the
    image's uplink is still this one. *)
Definition altservers_findUplinkAsync (alts : list dnbd3_alt_server_t) (u : dnbd3_uplink_t) (isCurrent : bool) : result bool :=
  if up_shutdown u then Ok false
  else if negb (conn_fd (up_current u) =? -1) && (Z.of_nat (length alts) <=? 1) then Ok false
  else
    _ ← assert_ (conn_fd (up_better u) =? -1);
    Ok (negb (up_rttTestResult u =? RTT_INPROGRESS) && isCurrent).

(** * What a check does *)

Section CheckSpec.
Context (env : rtt_env) (image : dnbd3_image_t) (panic : bool) (len : Z).
Context (alts0 : list dnbd3_alt_server_t) (data0 : list dnbd3_alt_local_t).

(** The sockets opened for a list of servers. *)
Definition opened (servers : list nat) : list Z :=
  List.filter (fun fd => negb (fd =? -1)) (map (fun i => pr_sock (env_probe env i)) servers).
(** While connected the current server is only measured. *)
Definition isCandidate (i : nat) : bool := panic || negb (env_currentIndex env i =? Z.of_nat i).
(** The round-trip time a server is judged by, if it could be measured. *)
Definition score (i : nat) : option Z :=
  let p := env_probe env i in
  if pr_sock p =? -1 then None
  else match converse image len p, data0 !! i with
       | Measured _ rtt, Some l => Some (penalty env panic i (recordRtt l rtt).2)
       | _, _ => None
       end.

Record checked (done : list nat) (acc : check_acc) : Prop := {
  ck_static : map static (ca_alts acc) = map static alts0;
  ck_data : length (ca_data acc) = length data0;
  ck_fresh : forall i, i ∉ done -> ca_data acc !! i = data0 !! i;
  ck_socks : Permutation (opened done)
               ((if conn_fd (ca_best acc) =? -1 then [] else [conn_fd (ca_best acc)]) ++ ca_closed acc);
  ck_min : forall i r, i ∈ done -> isCandidate i = true -> score i = Some r -> ca_bestRtt acc <= r \/ RTT_UNREACHABLE <= r;
  ck_best : if conn_fd (ca_best acc) =? -1 then ca_bestRtt acc = RTT_UNREACHABLE
            else exists i, i ∈ done /\ isCandidate i = true /\ conn_index (ca_best acc) = Z.of_nat i
                   /\ conn_fd (ca_best acc) = pr_sock (env_probe env i)
                   /\ score i = Some (ca_bestRtt acc) /\ ca_bestRtt acc < RTT_UNREACHABLE;
  ck_current : (ca_currentRtt acc = RTT_UNREACHABLE \/
                exists i, i ∈ done /\ isCandidate i = false /\ score i = Some (ca_currentRtt acc));
}.

Lemma opened_snoc done i :
  opened (done ++ [i]) =
  opened done ++ (if pr_sock (env_probe env i) =? -1 then [] else [pr_sock (env_probe env i)]).
Proof.
  unfold opened. rewrite map_app, List.filter_app. f_equal. cbn. by destruct (_ =? -1).
Qed.
Lemma static_alter (f : dnbd3_alt_server_t -> dnbd3_alt_server_t) l i :
  (forall a, static (f a) = static a) -> map static (alter f i l) = map static l.
Proof.
  intros Hf. revert i. induction l as [|a l IH]; intros [|i]; [done|done| |].
  - change (static (f a) :: map static l = static a :: map static l). by rewrite Hf.
  - change (static a :: map static (alter f i l) = static a :: map static l). by rewrite IH.
Qed.
Lemma static_serverFailed now l i : map static (altservers_serverFailed now l i) = map static l.
Proof. apply static_alter. intros a. unfold countServerFail. by destruct (_ <? _). Qed.

(** A server that is not measured leaves the decision as it is. *)
Lemma checked_skip done acc i alts data closed :
  checked done acc -> score i = None ->
  map static alts = map static alts0 -> length data = length data0 ->
  (forall j, j <> i -> data !! j = ca_data acc !! j) ->
  closed = (if pr_sock (env_probe env i) =? -1 then [] else [pr_sock (env_probe env i)]) ++ ca_closed acc ->
  checked (done ++ [i]) (CheckAcc alts data (ca_best acc) (ca_bestRtt acc) (ca_currentRtt acc) closed).
Proof.
  intros [Hs Hd Hf Hk Hm Hb Hc] Hn Hst Hlen Hda ->. split; cbn [ca_alts ca_data ca_best ca_bestRtt ca_currentRtt ca_closed].
  - done.
  - done.
  - intros j Hj. rewrite elem_of_app, list_elem_of_singleton in Hj. rewrite Hda by tauto. apply Hf. tauto.
  - rewrite opened_snoc, Hk. solve_Permutation.
  - intros j r [Hj| ->%list_elem_of_singleton]%elem_of_app; [by apply Hm|congruence].
  - destruct (_ =? -1); [done|]. destruct Hb as (j & ? & ?). exists j. rewrite elem_of_app. auto.
  - destruct Hc as [|(j & ? & ?)]; [by left|]. right. exists j. rewrite elem_of_app. auto.
Qed.

Lemma checked_measured done acc i alts data version r :
  checked done acc -> pr_sock (env_probe env i) <> -1 -> score i = Some r ->
  map static alts = map static alts0 -> length data = length data0 ->
  (forall j, j <> i -> data !! j = ca_data acc !! j) ->
  checked (done ++ [i])
    (considerBest env panic (CheckAcc alts data (ca_best acc) (ca_bestRtt acc) (ca_currentRtt acc) (ca_closed acc))
       i (pr_sock (env_probe env i)) version r).
Proof.
  intros [Hs Hd Hf Hk Hm Hb Hc] Hsock Hsc Hst Hlen Hda. apply Z.eqb_neq in Hsock.
  assert (forall j, j ∉ done ++ [i] -> data !! j = data0 !! j) as Hfresh.
  { intros j Hj. rewrite elem_of_app, list_elem_of_singleton in Hj. rewrite Hda by tauto. apply Hf. tauto. }
  assert (forall b, b <= ca_bestRtt acc -> (isCandidate i = true -> b <= r \/ RTT_UNREACHABLE <= r) ->
    forall j x, j ∈ done ++ [i] -> isCandidate j = true -> score j = Some x -> b <= x \/ RTT_UNREACHABLE <= x) as Hmin.
  { intros b Hle Hi j x [Hj| ->%list_elem_of_singleton]%elem_of_app Hcj Hx; [|naive_solver].
    destruct (Hm j x Hj Hcj Hx); lia. }
  assert (forall P : nat -> Prop, (exists j, j ∈ done /\ P j) -> exists j, j ∈ done ++ [i] /\ P j) as Hext.
  { intros P (j & Hj & HP). exists j. rewrite elem_of_app. auto. }
  assert (i ∈ done ++ [i]) as Hi by (rewrite elem_of_app, list_elem_of_singleton; auto).
  assert ((exists j, j ∈ done /\ isCandidate j = false /\ score j = Some (ca_currentRtt acc)) ->
          exists j, j ∈ done ++ [i] /\ isCandidate j = false /\ score j = Some (ca_currentRtt acc)) as Hcur by apply Hext.
  assert (ca_bestRtt acc <= RTT_UNREACHABLE) as Hle.
  { destruct (_ =? -1); [lia|]. destruct Hb as (j & ? & ? & ? & ? & ? & ?). lia. }
  unfold considerBest. replace (negb panic && (env_currentIndex env i =? Z.of_nat i)) with (negb (isCandidate i))
    by (unfold isCandidate; by rewrite negb_orb, negb_involutive).
  destruct (isCandidate i) eqn:Ec; cbn [negb ca_bestRtt].
  2: { split; cbn [ca_alts ca_data ca_best ca_bestRtt ca_currentRtt ca_closed]; [done|done|done| |by apply Hmin|
         by destruct (_ =? -1); [|apply Hext]|by right; exists i].
       rewrite opened_snoc, Hsock, Hk. solve_Permutation. }
  destruct (Z.ltb_spec r (ca_bestRtt acc)).
  - split; cbn [ca_alts ca_data ca_best ca_bestRtt ca_currentRtt ca_closed conn_fd conn_index];
      [done|done|done| |apply Hmin; [lia|by left]| |by destruct Hc; [left|right; apply Hcur]].
    + rewrite opened_snoc, Hsock, Hk. destruct (_ =? -1); cbn; solve_Permutation.
    + rewrite Hsock. exists i. split_and!; done || lia.
  - split; cbn [ca_alts ca_data ca_best ca_bestRtt ca_currentRtt ca_closed];
      [done|done|done| |apply Hmin; [lia|by left]|by destruct (_ =? -1); [|apply Hext]|by destruct Hc; [left|right; apply Hcur]].
    rewrite opened_snoc, Hsock, Hk. solve_Permutation.
Qed.

Lemma probeServer_spec done acc i :
  checked done acc -> i ∉ done -> (i < length alts0)%nat -> (i < length data0)%nat ->
  exists acc', probeServer env image panic len acc i = Ok acc' /\ checked (done ++ [i]) acc'.
Proof.
  intros C Hi Ha Hd. unfold probeServer. pose proof C as [Hs Hdl Hf _ _ _ _].
  assert (pr_sock (env_probe env i) = -1 \/ (forall v r, converse image len (env_probe env i) <> Measured v r) ->
          score i = None) as Hnone.
  { unfold score. intros [->|Hn]; [done|]. destruct (_ =? -1); [done|]. destruct (converse _ _ _); naive_solver. }
  assert (map static (altservers_serverFailed (env_now env i) (ca_alts acc) i) = map static alts0) as Hsf
    by (by rewrite static_serverFailed).
  destruct (Z.eqb_spec (pr_sock (env_probe env i)) (-1)) as [Hso|Hso].
  { eexists. split; [done|]. apply checked_skip; [done|by auto|done|done|done|]. by rewrite Hso. }
  destruct (converse image len (env_probe env i)) as [| |version rtt] eqn:Ec.
  - eexists. split; [done|]. apply checked_skip; [done|by apply Hnone; right; intros|done| | |].
    + unfold altservers_imageFailed. by rewrite length_alter.
    + intros j Hj. by apply list_lookup_alter_ne.
    + by apply Z.eqb_neq in Hso as ->.
  - eexists. split; [done|]. apply checked_skip; [done|by apply Hnone; right; intros|done|done|done|].
    by apply Z.eqb_neq in Hso as ->.
  - destruct (lookup_lt_is_Some_2 data0 i Hd) as [l Hl]. unfold altservers_updateRtt. rewrite Hf, Hl by done.
    assert (length (ca_alts acc) = length alts0) as Hal by (rewrite <- (length_map static), Hs; apply length_map).
    destruct (lookup_lt_is_Some_2 (ca_alts acc) i) as [a Haa]; [lia|]. rewrite Haa.
    destruct (recordRtt l rtt) as [l' avg] eqn:Er. cbn [mbind result_bind]. eexists. split; [done|].
    apply checked_measured; [done|done| | | |].
    + unfold score. apply Z.eqb_neq in Hso as ->. by rewrite Ec, Hl, Er.
    + rewrite <- Hs. by eapply static_insert.
    + by rewrite length_insert.
    + intros j Hj. by apply list_lookup_insert_ne.
Qed.
Lemma probeServers_spec done servers acc :
  checked done acc -> NoDup (done ++ servers) ->
  (forall i, i ∈ servers -> (i < length alts0)%nat /\ (i < length data0)%nat) ->
  exists acc', probeServers env image panic len acc servers = Ok acc' /\ checked (done ++ servers) acc'.
Proof.
  revert done acc. induction servers as [|i servers IH]; intros done acc C Hn Hr; cbn [probeServers].
  { exists acc. by rewrite app_nil_r. }
  assert (i ∉ done) as Hi. { apply list.NoDup_app in Hn as (_ & Hn & _). intros Hi. apply (Hn i Hi). by left. }
  destruct (Hr i) as [H1 H2]; [by left|].
  destruct (probeServer_spec done acc i C Hi H1 H2) as (acc1 & -> & C1). cbn [mbind result_bind].
  rewrite cons_middle, app_assoc in Hn |- *. apply IH; [done|done|]. intros j Hj. apply Hr. by right.
Qed.
End CheckSpec.

Lemma recordRtt_history l l' rtt : history l = history l' -> (recordRtt l rtt).2 = (recordRtt l' rtt).2.
Proof.
  unfold history. intros [= E1 E2 E3]. unfold recordRtt. rewrite E1, E2, E3. by destruct (al_initDone l').
Qed.
Lemma score_history env image panic len d d' i :
  map history d = map history d' -> score env image panic len d i = score env image panic len d' i.
Proof.
  intros E. unfold score. destruct (_ =? -1); [done|]. destruct (converse _ _ _) as [| |v rtt]; [done|done|].
  assert ((history <$> d) !! i = (history <$> d') !! i) as H by (change (history <$> d) with (map history d); by rewrite E).
  rewrite !list_lookup_fmap in H. destruct (d !! i) as [l|], (d' !! i) as [l'|]; try done.
  change (Some (history l) = Some (history l')) in H. by rewrite (recordRtt_history l l') by congruence.
Qed.

(** The outcome of a check that measured [servers]: no switch and all sockets closed,
    or a switch to the best candidate, whose socket is the only one left open. *)
Definition check_outcome (env : rtt_env) (panic : bool) (data : list dnbd3_alt_local_t) (u u' : dnbd3_uplink_t)
    (servers : list nat) (closed : list Z) : Prop :=
  let score := score env (up_image u) panic (probeLength u) data in
  let candidate i := i ∈ servers /\ isCandidate env panic i = true in
  (up_rttTestResult u' = RTT_DONTCHANGE \/ up_rttTestResult u' = RTT_NOT_REACHABLE)
  /\ up_better u' = up_better u /\ Permutation (opened env servers) closed
  \/ up_rttTestResult u' = RTT_DOCHANGE
     /\ exists b r, candidate b /\ score b = Some r /\ r < RTT_UNREACHABLE
        /\ conn_index (up_better u') = Z.of_nat b
        /\ conn_fd (up_better u') = pr_sock (env_probe env b) /\ conn_fd (up_better u') <> -1
        /\ Permutation (opened env servers) (conn_fd (up_better u') :: closed)
        /\ (forall i x, candidate i -> score i = Some x -> r <= x)
        /\ (panic = true \/ r < 10000000 /\ exists x, r < RTT_THRESHOLD_FACTOR x
              /\ (x = RTT_UNREACHABLE
                  \/ exists c, c ∈ servers /\ isCandidate env panic c = false /\ score c = Some x)).

Lemma check_outcome_history env panic d d' u u' servers closed :
  map history d = map history d' ->
  check_outcome env panic d u u' servers closed -> check_outcome env panic d' u u' servers closed.
Proof.
  intros E. unfold check_outcome. cbn zeta.
  assert (forall i, score env (up_image u) panic (probeLength u) d i = score env (up_image u) panic (probeLength u) d' i) as Hs
    by (intros; by apply score_history).
  intros [H|(H & b & r & H1 & H2 & H3 & H4 & H5 & H6 & H7 & H8 & H9)]; [by left|]. right. split; [done|].
  exists b, r. rewrite <- Hs. split_and!; try done; [apply H1|apply H1|intros i x Hi Hx; apply (H8 i); [done|by rewrite Hs]|].
  destruct H9 as [|(? & x & ? & [?|(c & ? & ? & ?)])]; [by left| |]; right; split; try done; exists x; split; try done; [by left|].
  right. exists c. by rewrite <- Hs.
Qed.

Lemma decideSwitch_spec env panic alts data u u0 servers acc u' closed :
  up_image u = up_image u0 -> up_queue u = up_queue u0 -> up_better u = up_better u0 ->
  checked env (up_image u) panic (probeLength u) alts data servers acc ->
  decideSwitch panic acc u = (u', closed) ->
  check_outcome env panic data u0 u' servers closed.
Proof.
  intros Ei Eq Eb [_ _ _ Hk Hm Hb Hc]. unfold check_outcome. cbn zeta.
  assert (probeLength u0 = probeLength u) as -> by (unfold probeLength; by rewrite Eq). rewrite <- Ei, <- Eb.
  unfold decideSwitch, shouldSwitch.
  destruct (Z.eqb_spec (conn_fd (ca_best acc)) (-1)) as [E1|E1]; cbn [negb andb].
  { intros H. left. destruct (_ =? _); injection H as <- <-; cbn; auto. }
  destruct (panic || _) eqn:Es; cbn [negb andb]; intros [= <- <-].
  2: { left. cbn. split; [by left|]. split; [done|]. exact Hk. }
  right. split; [done|]. destruct Hb as (b & Hin & Hcand & Hidx & Hfd & Hs & Hlt). cbn [up_better up_set_rtt].
  exists b, (ca_bestRtt acc). split_and!; try done.
  - intros i x [Hi Hci] Hx. destruct (Hm i x Hi Hci Hx); lia.
  - apply orb_true_iff in Es as [->|Es]; [by left|]. right. b2p. split; [done|].
    exists (ca_currentRtt acc). split; [done|]. done.
Qed.

(** C12. A check of the alternative servers never faults and never leaves the
    measurement marked as in progress.  Every socket it opens is closed again, except
    that of the server to switch to.  That server was measured successfully, is not the
    current one unless the connection was lost, and no other candidate was faster; while
    connected a switch needs a time under 10 s that beats two thirds of the current
    server's. *)
Theorem altservers_findUplink_correct shutdown proxyPrivateOnly now env locked alts data r u :
  alt_ok (AltState alts (Some data) r) ->
  (conn_fd (up_current u) <> -1 -> 0 <= conn_index (up_current u) < Z.of_nat (length alts)) ->
  (up_rttTestResult u = RTT_DOCHANGE -> conn_fd (up_better u) <> -1) ->
  exists alts' data' u' servers closed,
    altservers_findUplinkInternal shutdown proxyPrivateOnly now env locked alts data r u
      = Ok (alts', data', u', servers, closed)
    /\ map static alts' = map static alts /\ NoDup servers /\ (length servers <= 4)%nat
    /\ (shutdown || negb (conn_fd (up_better u) =? -1) || (up_rttTestResult u =? RTT_INPROGRESS) = true ->
        u' = u /\ servers = [] /\ closed = [])
    /\ (shutdown || negb (conn_fd (up_better u) =? -1) || (up_rttTestResult u =? RTT_INPROGRESS) = false ->
        check_outcome env (conn_fd (up_current u) =? -1) data u u' servers closed).
Proof.
  intros Hs Hcur Hres. unfold altservers_findUplinkInternal. destruct shutdown; cbn [orb].
  { do 5 eexists. split; [done|]. split_and!; try done; [constructor|cbn; lia]. }
  destruct (negb (conn_fd (up_better u) =? -1) || (up_rttTestResult u =? RTT_INPROGRESS)) eqn:E0.
  { do 5 eexists. split; [done|]. split_and!; try done; [constructor|cbn; lia]. }
  apply orb_false_iff in E0 as [E1%negb_false_iff%Z.eqb_eq _].
  destruct (Z.eqb_spec (up_rttTestResult u) RTT_DOCHANGE) as [E2|_]; [by specialize (Hres E2)|].
  cbn [negb assert_ mbind result_bind]. set (u1 := set_rttResult RTT_INPROGRESS u).
  change (up_current u1) with (up_current u). set (panic := conn_fd (up_current u) =? -1).
  set (current := if panic then None else _).
  destruct (getListForUplink_spec proxyPrivateOnly now (img_name (up_image u1))
              (AltState alts (Some data) r) 4 current Hs) as (s & servers & -> & Hn & Hnd & Hlen & Hin & _).
  { intros c Hc. unfold current, panic in Hc. destruct (Z.eqb_spec (conn_fd (up_current u)) (-1)); [done|].
    injection Hc as <-. cbn. specialize (Hcur ltac:(done)). lia. }
  cbn [mbind result_bind]. destruct Hn as ((Hal & Hdl & _) & Hst & Hhi). cbn in Hst, Hhi.
  destruct (alt_data s) as [d|] eqn:Ed; [|done]. specialize (Hdl d eq_refl). cbn [from_option id].
  assert (map history d = map history data) as Hh by (by injection Hhi). cbn in Hlen.
  assert (forall res, res = RTT_DONTCHANGE \/ res = RTT_NOT_REACHABLE ->
    check_outcome env panic data u (set_rttResult res u1) [] []) as Hno by (intros res Hr; by left).
  destruct (_ || _); [do 5 eexists; split; [done|]; split_and!; try done; [constructor|cbn; lia|intros _; apply Hno; auto]|].
  destruct locked; cbn [negb];
    [|do 5 eexists; split; [done|]; split_and!; try done; [constructor|cbn; lia|intros _; apply Hno; auto]].
  assert (length (alt_servers s) = length alts) as Hla by (rewrite <- (length_map static), Hst; apply length_map).
  destruct (probeServers_spec env (up_image u1) panic (probeLength u1) (alt_servers s) d [] servers
              (CheckAcc (alt_servers s) d (Conn (-1) 0 0) RTT_UNREACHABLE RTT_UNREACHABLE [])) as (acc & -> & C).
  - split; try done; [by intros ? ? ?%not_elem_of_nil|by left].
  - done.
  - intros i (a & Ha%lookup_lt_Some & _)%Hin. cbn in Ha. destruct Hs as (Hs & _). cbn in Hs. lia.
  - cbn [mbind result_bind]. cbn [app] in C. destruct (decideSwitch panic acc u1) as [u' closed] eqn:Edec.
    do 5 eexists. split; [done|]. split_and!; try done; [|lia|].
    + rewrite <- Hst. apply (ck_static _ _ _ _ _ _ _ _ C).
    + intros _. apply (check_outcome_history _ _ d); [done|].
      by eapply (decideSwitch_spec env panic (alt_servers s) d u1 u).
Qed.

(** Three servers that answer, the last one quickest; the uplink is connected to the
    first and its clock says 5 s for it. *)
Definition demo_rtt_env : rtt_env :=
  RttEnv (fun i => Probe (10 + Z.of_nat i) (Some (SelectReply 3 (Some "demo") 1 12288))
                     (Some (BlockReply CMD_GET_BLOCK 4096 [1000; 3096])) (Ticks 7 0)
                     (if (i =? 0)%nat then Ticks 12 0 else Ticks 7 (5000000 - 1000000 * Z.of_nat i)))
    (fun _ => 0) (fun _ => false) (fun _ => Ticks 100 0).
Definition demo_alt_data : list dnbd3_alt_local_t := replicate 50 (AltLocal 0 0 [0; 0; 0; 0; 0] false false).
Lemma altservers_findUplink_correct_witness :
  exists alts' data' u' servers closed,
    altservers_findUplinkInternal false false (Ticks 100 0) demo_rtt_env true demo_table demo_alt_data
      (Rng (fun _ => 0) 0) demo_uplink = Ok (alts', data', u', servers, closed)
    /\ check_outcome demo_rtt_env false demo_alt_data demo_uplink u' servers closed
    /\ up_rttTestResult u' = RTT_DOCHANGE /\ up_better u' = Conn 12 3 2 /\ closed = [10].
Proof.
  destruct (altservers_findUplink_correct false false (Ticks 100 0) demo_rtt_env true demo_table demo_alt_data
      (Rng (fun _ => 0) 0) demo_uplink) as (alts' & data' & u' & servers & closed & E & _ & _ & _ & _ & H).
  - split_and!; [by vm_compute|by intros d [= <-]|]. intros n. cbn. lia.
  - intros _. cbn. lia.
  - by vm_compute.
  - exists alts', data', u', servers, closed. split; [exact E|]. split; [exact (H eq_refl)|].
    vm_compute in E. injection E as _ _ <- _ <-. done.
Defined.
