(* ===== verification/Wire.v ===== *)
(** * Wire: the packets of [inc/dnbd3/types.h] and [protocol.h] and the buffer of
    [src/shared/serialize.c]

    The protocol's byte order is that of a little endian machine, so the packed
    structs are sent as they are in memory. *)

From Stdlib Require Import Ascii.
From S2P Require Import Prelude Timing Types Helper.

(** ** Integers as bytes *)

Fixpoint le_bytes (n : nat) (x : Z) : list Z :=
  match n with O => [] | S n' => x mod 256 :: le_bytes n' (x / 256) end.
Fixpoint le_val (l : list Z) : Z :=
  match l with [] => 0 | b :: r => b + 256 * le_val r end.

Lemma length_le_bytes n x : length (le_bytes n x) = n.
Proof. revert x. induction n as [|n IH]; intros x; cbn; [done|]. by rewrite IH. Qed.
Lemma le_val_bytes n x : 0 <= x < 256 ^ Z.of_nat n -> le_val (le_bytes n x) = x.
Proof.
  revert x. induction n as [|n IH]; intros x Hx; cbn [le_bytes le_val]; [cbn in Hx; lia|].
  rewrite IH; [pose proof (Z.div_mod x 256); lia|]. rewrite Nat2Z.inj_succ, Z.pow_succ_r in Hx by lia.
  split; [apply Z.div_pos; lia|]. apply Z.div_lt_upper_bound; lia.
Qed.

(** ** Packet headers *)

Definition dnbd3_packet_magic : Z := 115 .| (114 << 8).
Definition DNBD3_REQUEST_SIZE : nat := 24.
Definition DNBD3_REPLY_SIZE : nat := 16.
Definition FLAGS8_SERVER : Z := 1.
Definition FLAGS8_BG_REP : Z := 2.

(** [rq_offset] is the union; [offset_small] and [hops] are its other view. *)
Record dnbd3_request_t := Request {
  rq_magic : Z; rq_cmd : Z; rq_size : Z; rq_offset : Z; rq_handle : Z;
}.
Definition offset_small (r : dnbd3_request_t) : Z := rq_offset r mod 2 ^ 56.
Definition hops (r : dnbd3_request_t) : Z := rq_offset r / 2 ^ 56.
(** [request.offset = offset; request.hops = hopCount;] *)
Definition set_offset_hops (offset hopCount : Z) : Z := offset mod 2 ^ 56 + hopCount * 2 ^ 56.

Definition encode_request (r : dnbd3_request_t) : list Z :=
  le_bytes 2 (rq_magic r) ++ le_bytes 2 (rq_cmd r) ++ le_bytes 4 (rq_size r)
  ++ le_bytes 8 (rq_offset r) ++ le_bytes 8 (rq_handle r).
Definition decode_request (b : list Z) : dnbd3_request_t :=
  Request (le_val (take 2 b)) (le_val (take 2 (drop 2 b))) (le_val (take 4 (drop 4 b)))
    (le_val (take 8 (drop 8 b))) (le_val (take 8 (drop 16 b))).

Record dnbd3_reply_t := ReplyHdr { rp_magic : Z; rp_cmd : Z; rp_size : Z; rp_handle : Z }.
Definition encode_reply (r : dnbd3_reply_t) : list Z :=
  le_bytes 2 (rp_magic r) ++ le_bytes 2 (rp_cmd r) ++ le_bytes 4 (rp_size r) ++ le_bytes 8 (rp_handle r).
Definition decode_reply (b : list Z) : dnbd3_reply_t :=
  ReplyHdr (le_val (take 2 b)) (le_val (take 2 (drop 2 b))) (le_val (take 4 (drop 4 b))) (le_val (take 8 (drop 8 b))).

(** ** The serialized buffer *)

(** The [MAX_PAYLOAD] bytes of [buffer]; the two pointers are offsets into it. *)
Record serialized_buffer_t := SBuf { sb_buffer : list Z; sb_end : Z; sb_pointer : Z }.

Definition serializer_reset_read (b : list Z) (data_len : Z) : serialized_buffer_t :=
  SBuf b (Z.min MAX_PAYLOAD data_len) 0.
Definition serializer_reset_write (b : list Z) : serialized_buffer_t := SBuf b MAX_PAYLOAD 0.

Definition serializer_get (n : nat) (s : serialized_buffer_t) : Z * serialized_buffer_t :=
  if sb_end s <? sb_pointer s + Z.of_nat n then (0, s)
  else (le_val (take n (drop (Z.to_nat (sb_pointer s)) (sb_buffer s))),
        SBuf (sb_buffer s) (sb_end s) (sb_pointer s + Z.of_nat n)).
Definition serializer_get_uint8 := serializer_get 1.
Definition serializer_get_uint16 := serializer_get 2.
Definition serializer_get_uint64 := serializer_get 8.

(** The scan of [serializer_get_string]: the bytes before the position where it stops. *)
Fixpoint scanString (l : list Z) : list Z :=
  match l with [] => [] | c :: r => if c =? 0 then [] else c :: scanString r end.
Definition serializer_get_string (s : serialized_buffer_t) : result (option (list Z) * serialized_buffer_t) :=
  if sb_end s <=? sb_pointer s then Ok (None, s)
  else
    let str := scanString (take (Z.to_nat (sb_end s - sb_pointer s)) (drop (Z.to_nat (sb_pointer s)) (sb_buffer s))) in
    let ptr := sb_pointer s + Z.of_nat (length str) in
    c ← aget (sb_buffer s) ptr;
    if negb (c =? 0) then Ok (None, s)
    else Ok (Some str, SBuf (sb_buffer s) (sb_end s) (ptr + 1)).

Definition serializer_put (v : list Z) (s : serialized_buffer_t) : serialized_buffer_t :=
  if sb_end s <? sb_pointer s + Z.of_nat (length v) then s
  else SBuf (take (Z.to_nat (sb_pointer s)) (sb_buffer s) ++ v
             ++ drop (Z.to_nat (sb_pointer s) + length v) (sb_buffer s))
         (sb_end s) (sb_pointer s + Z.of_nat (length v)).
Definition serializer_put_uint8 (v : Z) := serializer_put (le_bytes 1 v).
Definition serializer_put_uint16 (v : Z) := serializer_put (le_bytes 2 v).
Definition serializer_put_uint64 (v : Z) := serializer_put (le_bytes 8 v).
(** A string with its terminator. *)
Definition serializer_put_string (v : list Z) := serializer_put (v ++ [0]).
Definition serializer_get_written_length (s : serialized_buffer_t) : Z := sb_pointer s.

(** ** Messages *)

(** [dnbd3_select_image]: the header and the payload written. *)
Definition dnbd3_select_image (buf name : list Z) (rid flags8 : Z) : list Z * list Z :=
  let s := serializer_reset_write buf in
  let s := serializer_put_uint16 PROTOCOL_VERSION s in
  let s := serializer_put_string name s in
  let s := serializer_put_uint16 rid s in
  let s := serializer_put_uint8 flags8 s in
  let len := serializer_get_written_length s in
  (encode_request (Request dnbd3_packet_magic CMD_SELECT_IMAGE (u32 len) 0 0),
   take (Z.to_nat len) (sb_buffer s)).
(** [dnbd3_get_block] *)
Definition dnbd3_get_block (offset size handle hopCount : Z) : list Z :=
  encode_request (Request dnbd3_packet_magic CMD_GET_BLOCK size (set_offset_hops offset hopCount) handle).

(** What the server reads from the payload of the first packet. *)
Definition parse_select (buf : list Z) (size : Z) : result (Z * option (list Z) * Z * Z) :=
  let s := serializer_reset_read buf size in
  let '(client_version, s) := serializer_get_uint16 s in
  '(image_name, s) ← serializer_get_string s;
  let '(rid, s) := serializer_get_uint16 s in
  let '(flags, s) := serializer_get_uint8 s in
  Ok (client_version, image_name, rid, flags).
(** The server's answer and what [dnbd3_select_image_reply] makes of it. *)
Definition select_reply_payload (buf : list Z) (version : Z) (name : list Z) (rid size : Z) : list Z * list Z :=
  let s := serializer_reset_write buf in
  let s := serializer_put_uint16 version s in
  let s := serializer_put_string name s in
  let s := serializer_put_uint16 (u16 rid) s in
  let s := serializer_put_uint64 size s in
  let len := serializer_get_written_length s in
  (encode_reply (ReplyHdr dnbd3_packet_magic CMD_SELECT_IMAGE (u32 len) 0), take (Z.to_nat len) (sb_buffer s)).
(** The fields of the answer, read one after the other. *)
Definition read_image_reply (s : serialized_buffer_t) : result (Z * option (list Z) * Z * Z) :=
  let '(protocol_version, s) := serializer_get_uint16 s in
  '(name, s) ← serializer_get_string s;
  let '(rid, s) := serializer_get_uint16 s in
  let '(imageSize, s) := serializer_get_uint64 s in
  Ok (protocol_version, name, rid, imageSize).
(** [received] is the payload [sock_recv] got, [buf] the buffer it is written to. *)
Definition dnbd3_select_image_reply (buf : list Z) (header received : list Z)
  : result (option (Z * option (list Z) * Z * Z)) :=
  let reply := decode_reply header in
  if negb (rp_magic reply =? dnbd3_packet_magic) then Ok None
  else if negb (rp_cmd reply =? CMD_SELECT_IMAGE) || (rp_size reply <? 3) || (MAX_PAYLOAD <? rp_size reply) then Ok None
  else if negb (Z.of_nat (length received) =? rp_size reply) then Ok None
  else
    reply ← read_image_reply (serializer_reset_read (received ++ drop (length received) buf) (rp_size reply));
    Ok (Some reply).

(** * Reading back what was written *)

(** Take the pieces of a concatenation of known lengths apart. *)
Lemma take_app_exact {A} (l k : list A) n : length l = n -> take n (l ++ k) = l.
Proof. intros <-. apply take_app_length. Qed.
Lemma drop_app_exact {A} (l k : list A) n m : length l = m -> (m <= n)%nat -> drop n (l ++ k) = drop (n - m) k.
Proof. intros <- H. by apply drop_app_ge. Qed.

Record request_ok (r : dnbd3_request_t) : Prop := {
  rq_magic_ok : in_u16 (rq_magic r); rq_cmd_ok : in_u16 (rq_cmd r); rq_size_ok : in_u32 (rq_size r);
  rq_offset_ok : in_u64 (rq_offset r); rq_handle_ok : in_u64 (rq_handle r);
}.
Record reply_ok (r : dnbd3_reply_t) : Prop := {
  rp_magic_ok : in_u16 (rp_magic r); rp_cmd_ok : in_u16 (rp_cmd r); rp_size_ok : in_u32 (rp_size r);
  rp_handle_ok : in_u64 (rp_handle r);
}.
Lemma decode_encode_request r : request_ok r -> decode_request (encode_request r) = r.
Proof.
  intros []. unfold decode_request, encode_request.
  repeat (first [rewrite take_app_exact by apply length_le_bytes
                |erewrite drop_app_exact by (apply length_le_bytes || lia)]; cbn [Nat.sub]; rewrite ?drop_0).
  rewrite (take_ge (le_bytes 8 (rq_handle r))) by (rewrite length_le_bytes; lia).
  rewrite !le_val_bytes by assumption. by destruct r.
Qed.
Lemma decode_encode_reply r : reply_ok r -> decode_reply (encode_reply r) = r.
Proof.
  intros []. unfold decode_reply, encode_reply.
  repeat (first [rewrite take_app_exact by apply length_le_bytes
                |erewrite drop_app_exact by (apply length_le_bytes || lia)]; cbn [Nat.sub]; rewrite ?drop_0).
  rewrite (take_ge (le_bytes 8 (rp_handle r))) by (rewrite length_le_bytes; lia).
  rewrite !le_val_bytes by assumption. by destruct r.
Qed.

Lemma length_encode_reply r : length (encode_reply r) = 16%nat.
Proof. unfold encode_reply. by rewrite !length_app, !length_le_bytes. Qed.

(** A buffer in which exactly [p] was written. *)
Definition wrote (buf p : list Z) : serialized_buffer_t :=
  SBuf (p ++ drop (length p) buf) MAX_PAYLOAD (Z.of_nat (length p)).
Lemma serializer_put_wrote buf p v :
  Z.of_nat (length p + length v) <= MAX_PAYLOAD -> serializer_put v (wrote buf p) = wrote buf (p ++ v).
Proof.
  intros H. unfold serializer_put, wrote. cbn [sb_end sb_pointer sb_buffer].
  destruct (Z.ltb_spec MAX_PAYLOAD (Z.of_nat (length p) + Z.of_nat (length v))); [lia|].
  rewrite Nat2Z.id, take_app_length. f_equal; [|rewrite length_app; lia].
  rewrite <- app_assoc. f_equal. f_equal. rewrite drop_app_ge by lia. rewrite drop_drop, length_app. f_equal. lia.
Qed.

(** The buffer read at the end of [p]. *)
Definition reading (p rest : list Z) (end_ : Z) : serialized_buffer_t :=
  SBuf (p ++ rest) end_ (Z.of_nat (length p)).
Lemma serializer_get_reading n p v rest end_ :
  length v = n -> Z.of_nat (length p + n) <= end_ ->
  serializer_get n (reading p (v ++ rest) end_) = (le_val v, reading (p ++ v) rest end_).
Proof.
  intros Hv He. unfold serializer_get, reading. cbn [sb_end sb_pointer sb_buffer].
  destruct (Z.ltb_spec end_ (Z.of_nat (length p) + Z.of_nat n)); [lia|].
  rewrite Nat2Z.id, drop_app_length, take_app_exact by done. f_equal. rewrite <- app_assoc, length_app. f_equal. lia.
Qed.
Lemma scanString_app str r : 0 ∉ str -> scanString (str ++ 0 :: r) = str.
Proof.
  induction str as [|c str IH]; intros H; [done|]. cbn. apply not_elem_of_cons in H as [H1 H2].
  destruct (Z.eqb_spec c 0); [congruence|]. by rewrite IH.
Qed.
Lemma serializer_get_string_reading p str rest end_ :
  0 ∉ str -> Z.of_nat (length p + length str) < end_ ->
  serializer_get_string (reading p ((str ++ [0]) ++ rest) end_) = Ok (Some str, reading (p ++ str ++ [0]) rest end_).
Proof.
  intros H0 He. unfold serializer_get_string, reading. cbn [sb_end sb_pointer sb_buffer].
  destruct (Z.leb_spec end_ (Z.of_nat (length p))); [lia|]. rewrite Nat2Z.id, drop_app_length.
  assert (scanString (take (Z.to_nat (end_ - Z.of_nat (length p))) ((str ++ [0]) ++ rest)) = str) as ->.
  { rewrite <- app_assoc. cbn [app]. rewrite take_app_ge by lia.
    destruct (Z.to_nat (end_ - Z.of_nat (length p)) - length str)%nat eqn:E; [lia|]. cbn. by apply scanString_app. }
  rewrite (aget_ok _ _ 0); [|lia|].
  - cbn [mbind result_bind]. cbn. do 2 f_equal. f_equal; [by rewrite <- !app_assoc|]. rewrite !length_app. cbn. lia.
  - rewrite lookup_app_r by lia. rewrite <- app_assoc, lookup_app_r by lia.
    replace (Z.to_nat (Z.of_nat (length p) + Z.of_nat (length str)) - length p - length str)%nat with 0%nat by lia. done.
Qed.

Section Handshake.
Context (buf buf' name : list Z) (rid : Z).
Hypotheses (Hb : Z.of_nat (length buf) = MAX_PAYLOAD) (Hn : 0 ∉ name) (Hr : in_u16 rid).

Lemma wrote_start : serializer_reset_write buf = wrote buf [].
Proof. unfold serializer_reset_write, wrote. cbn. by rewrite drop_0. Qed.
Lemma wrote_taken p : take (length p) (sb_buffer (wrote buf p)) = p.
Proof. apply take_app_length. Qed.

Definition select_payload (flags : Z) : list Z :=
  le_bytes 2 PROTOCOL_VERSION ++ (name ++ [0]) ++ le_bytes 2 rid ++ le_bytes 1 flags.
Lemma select_image_written flags :
  Z.of_nat (length name) <= 994 ->
  dnbd3_select_image buf name rid flags =
  (encode_request (Request dnbd3_packet_magic CMD_SELECT_IMAGE (Z.of_nat (length name) + 6) 0 0), select_payload flags).
Proof.
  intros Hl. assert (MAX_PAYLOAD = 1000) as Em by done. unfold dnbd3_select_image. rewrite wrote_start.
  unfold serializer_put_uint16, serializer_put_string, serializer_put_uint8.
  rewrite !serializer_put_wrote by (rewrite ?length_app, ?length_le_bytes; cbn [length]; lia).
  unfold serializer_get_written_length. rewrite <- !app_assoc. cbn [app]. fold (select_payload flags).
  assert (Z.of_nat (length (select_payload flags)) = Z.of_nat (length name) + 6) as El.
  { unfold select_payload. rewrite !length_app, !length_le_bytes. cbn [length]. lia. }
  change (le_bytes 2 PROTOCOL_VERSION ++ name ++ 0 :: le_bytes 2 rid ++ le_bytes 1 flags)
    with (le_bytes 2 PROTOCOL_VERSION ++ name ++ [0] ++ le_bytes 2 rid ++ le_bytes 1 flags).
  replace (le_bytes 2 PROTOCOL_VERSION ++ name ++ [0] ++ le_bytes 2 rid ++ le_bytes 1 flags) with (select_payload flags)
    by (unfold select_payload; by rewrite <- !app_assoc).
  cbn [sb_pointer wrote]. rewrite Nat2Z.id, El. rewrite u32_id by crange. by rewrite wrote_taken.
Qed.
Lemma parse_select_payload flags :
  in_u8 flags -> Z.of_nat (length name) <= 994 ->
  parse_select (select_payload flags ++ buf') (Z.of_nat (length name) + 6) = Ok (PROTOCOL_VERSION, Some name, rid, flags).
Proof.
  intros Hf Hl. assert (MAX_PAYLOAD = 1000) as Em by done. unfold parse_select, serializer_reset_read. rewrite Z.min_r by lia.
  unfold select_payload. rewrite <- !app_assoc.
  change (SBuf _ _ 0) with (reading [] (le_bytes 2 PROTOCOL_VERSION ++ name ++ [0] ++ le_bytes 2 rid ++ le_bytes 1 flags ++ buf')
                             (Z.of_nat (length name) + 6)).
  unfold serializer_get_uint16, serializer_get_uint8.
  rewrite serializer_get_reading by (rewrite ?length_le_bytes; cbn [length]; lia || done).
  rewrite (app_assoc name).
  rewrite serializer_get_string_reading by (rewrite ?length_app, ?length_le_bytes; cbn [length]; lia || done).
  cbn [mbind result_bind].
  do 2 rewrite serializer_get_reading by (rewrite ?length_app, ?length_le_bytes; cbn [length]; lia || done).
  by rewrite !le_val_bytes by (crange || done).
Qed.

Definition reply_payload (version size : Z) : list Z :=
  le_bytes 2 version ++ (name ++ [0]) ++ le_bytes 2 rid ++ le_bytes 8 size.
Lemma select_reply_written version size :
  Z.of_nat (length name) <= 987 ->
  select_reply_payload buf version name rid size =
  (encode_reply (ReplyHdr dnbd3_packet_magic CMD_SELECT_IMAGE (Z.of_nat (length name) + 13) 0), reply_payload version size).
Proof.
  intros Hl. assert (MAX_PAYLOAD = 1000) as Em by done. unfold select_reply_payload. rewrite wrote_start, u16_id by done.
  unfold serializer_put_uint16, serializer_put_string, serializer_put_uint64.
  rewrite !serializer_put_wrote by (rewrite ?length_app, ?length_le_bytes; cbn [length]; lia).
  unfold serializer_get_written_length. rewrite <- !app_assoc. cbn [app].
  replace (le_bytes 2 version ++ name ++ 0 :: le_bytes 2 rid ++ le_bytes 8 size) with (reply_payload version size)
    by (unfold reply_payload; by rewrite <- !app_assoc).
  assert (Z.of_nat (length (reply_payload version size)) = Z.of_nat (length name) + 13) as El.
  { unfold reply_payload. rewrite !length_app, !length_le_bytes. cbn [length]. lia. }
  cbn [sb_pointer wrote]. rewrite Nat2Z.id, El. rewrite u32_id by crange. by rewrite wrote_taken.
Qed.
Lemma length_reply_payload version size : Z.of_nat (length (reply_payload version size)) = Z.of_nat (length name) + 13.
Proof. clear Hb. unfold reply_payload. rewrite !length_app, !length_le_bytes. cbn [length]. lia. Qed.
Lemma reply_payload_read version size rest :
  in_u16 version -> in_u64 size -> Z.of_nat (length name) <= 987 ->
  read_image_reply (serializer_reset_read (reply_payload version size ++ rest) (Z.of_nat (length name) + 13)) = Ok (version, Some name, rid, size).
Proof.
  clear Hb.
  intros Hv Hs Hl. assert (MAX_PAYLOAD = 1000) as Em by done. unfold read_image_reply, serializer_reset_read. rewrite Z.min_r by lia.
  unfold reply_payload. rewrite <- !app_assoc.
  change (SBuf _ _ 0) with (reading [] (le_bytes 2 version ++ name ++ [0] ++ le_bytes 2 rid ++ le_bytes 8 size ++ rest)
                             (Z.of_nat (length name) + 13)).
  unfold serializer_get_uint16, serializer_get_uint64.
  rewrite serializer_get_reading by (rewrite ?length_le_bytes; cbn [length]; lia || done).
  rewrite (app_assoc name).
  rewrite serializer_get_string_reading by (rewrite ?length_app, ?length_le_bytes; cbn [length]; lia || done).
  cbn [mbind result_bind].
  do 2 rewrite serializer_get_reading by (rewrite ?length_app, ?length_le_bytes; cbn [length]; lia || done).
  by rewrite !le_val_bytes by (crange || done).
Qed.
Lemma select_image_reply_read version size :
  in_u16 version -> in_u64 size -> Z.of_nat (length name) <= 987 ->
  dnbd3_select_image_reply buf' (encode_reply (ReplyHdr dnbd3_packet_magic CMD_SELECT_IMAGE (Z.of_nat (length name) + 13) 0))
    (reply_payload version size) = Ok (Some (version, Some name, rid, size)).
Proof.
  intros Hv Hs Hl. assert (MAX_PAYLOAD = 1000) as Em by done. unfold dnbd3_select_image_reply.
  rewrite decode_encode_reply
    by (split; cbn [rp_magic rp_cmd rp_size rp_handle]; [by vm_compute|by vm_compute|crange|crange]).
  cbn [rp_magic rp_cmd rp_size]. rewrite !Z.eqb_refl. cbn [negb orb]. rewrite length_reply_payload, Z.eqb_refl.
  destruct (Z.ltb_spec (Z.of_nat (length name) + 13) 3); [lia|].
  destruct (Z.ltb_spec MAX_PAYLOAD (Z.of_nat (length name) + 13)); [lia|]. cbn [negb orb].
  by rewrite reply_payload_read.
Qed.
End Handshake.

(** The handshake survives the wire: the server reads from the packet of
    [dnbd3_select_image] the protocol version, name, revision and flags that were put in,
    the client reads from the reply what the server put in, for every name of up to 987
    characters and whatever the buffers held before. *)
Theorem handshake_roundtrip buf buf' name rid flags version size :
  Z.of_nat (length buf) = MAX_PAYLOAD -> 0 ∉ name -> Z.of_nat (length name) <= 987 ->
  in_u16 rid -> in_u8 flags -> in_u16 version -> in_u64 size ->
  (let '(header, payload) := dnbd3_select_image buf name rid flags in
   let request := decode_request header in
   rq_magic request = dnbd3_packet_magic /\ rq_cmd request = CMD_SELECT_IMAGE
   /\ rq_size request = Z.of_nat (length payload) /\ rq_size request <= MAX_PAYLOAD
   /\ parse_select (payload ++ buf') (rq_size request) = Ok (PROTOCOL_VERSION, Some name, rid, flags))
  /\ (let '(header, payload) := select_reply_payload buf version name rid size in
      dnbd3_select_image_reply buf' header payload = Ok (Some (version, Some name, rid, size))).
Proof.
  intros Hb Hn Hl Hr Hf Hv Hs. split.
  - rewrite select_image_written by (done || lia).
    rewrite decode_encode_request
      by (split; cbn [rq_magic rq_cmd rq_size rq_offset rq_handle]; [by vm_compute|by vm_compute|crange|crange|crange]).
    cbn [rq_magic rq_cmd rq_size]. assert (MAX_PAYLOAD = 1000) as Em by done. split_and!; [done|done| |lia|].
    + unfold select_payload. rewrite !length_app, !length_le_bytes. cbn [length]. lia.
    + by apply parse_select_payload; [..|lia].
  - rewrite select_reply_written by (done || lia). by apply select_image_reply_read.
Qed.
Lemma handshake_roundtrip_witness :
  parse_select ((dnbd3_select_image (replicate 1000 7) [105; 109; 103] 2 1).2 ++ [])
    (rq_size (decode_request (dnbd3_select_image (replicate 1000 7) [105; 109; 103] 2 1).1))
  = Ok (PROTOCOL_VERSION, Some [105; 109; 103], 2, 1).
Proof.
  destruct (handshake_roundtrip (replicate 1000 7) [] [105; 109; 103] 2 1 3 4096) as [H _];
    [by vm_compute|by apply (bool_decide_eq_true_1 _)|cbn; lia|crange|crange|crange|crange|].
  destruct (dnbd3_select_image (replicate 1000 7) [105; 109; 103] 2 1) as [header payload]. apply H.
Defined.

(** A block request carries its offset, size, handle and hop count unchanged as
    long as the offset fits the 56 bits it has in the packet. *)
Theorem get_block_roundtrip offset size handle hopCount :
  0 <= offset < 2 ^ 56 -> in_u32 size -> in_u64 handle -> in_u8 hopCount ->
  let r := decode_request (dnbd3_get_block offset size handle hopCount) in
  length (dnbd3_get_block offset size handle hopCount) = DNBD3_REQUEST_SIZE
  /\ rq_magic r = dnbd3_packet_magic /\ rq_cmd r = CMD_GET_BLOCK /\ rq_size r = size /\ rq_handle r = handle
  /\ offset_small r = offset /\ hops r = hopCount.
Proof.
  intros Ho Hs Hh Hc. unfold dnbd3_get_block. rewrite decode_encode_request.
  - cbn zeta. unfold offset_small, hops, set_offset_hops. cbn [rq_magic rq_cmd rq_size rq_handle rq_offset].
    rewrite (Z.mod_small offset) by done. split_and!; try done.
    + rewrite Z.mod_add by lia. by apply Z.mod_small.
    + rewrite Z.div_add, Z.div_small by lia. lia.
  - split; cbn [rq_magic rq_cmd rq_size rq_offset rq_handle]; [by vm_compute|by vm_compute|done| |done].
    unfold set_offset_hops. rewrite Z.mod_small by done. crange.
Qed.
Lemma get_block_roundtrip_witness :
  offset_small (decode_request (dnbd3_get_block 8192 4096 17 2)) = 8192
  /\ hops (decode_request (dnbd3_get_block 8192 4096 17 2)) = 2.
Proof.
  destruct (get_block_roundtrip 8192 4096 17 2) as (_ & _ & _ & _ & _ & H); [lia|crange|crange|crange|]. exact H.
Defined.

(** A name that is not terminated inside the received payload is accepted when the
    byte behind the payload is 0 (as in a fresh buffer), and with a payload of the full
    buffer size the read goes past the buffer. *)
Theorem unterminated_name_accepted :
  parse_select ([3; 0; 65; 66] ++ replicate 996 0) 4 = Ok (3, Some [65; 66], 0, 0)
  /\ parse_select (replicate 1000 65) 1000 = Fault OutOfBounds.
Proof. by vm_compute. Qed.
