(* ===== verification/Crc32.v ===== *)
(** * Crc32: the checksum of [src/shared/crc32.c]

    [crc32] as it runs on a little endian machine, with the table driven loops and the
    carry-less multiplication path [crc32pclmul].  A 128 bit register is a [Z] below
    2^128.  The reference is the bit by bit definition of CRC-32. *)

From S2P Require Import Prelude Timing Types Helper Wire CrcTables.

(** ** The table driven loops *)

Definition lnot32 (x : Z) : Z := u32 (Z.lnot x).

Definition crcByte (c b : Z) : Z := Z.lxor (crc_table 0 (Z.lxor c b .& 255)) (c >> 8).
Definition DOLIT4 (c word : Z) : Z :=
  let c := Z.lxor c word in
  Z.lxor (Z.lxor (Z.lxor (crc_table 3 (c .& 255)) (crc_table 2 ((c >> 8) .& 255)))
            (crc_table 1 ((c >> 16) .& 255))) (crc_table 0 (c >> 24)).
(** The 32 bit word at an offset of the buffer. *)
Definition word (buf : list Z) (i : nat) : Z := le_val (take 4 (drop (4 * i) buf)).
Definition DOLIT32 (c : Z) (buf : list Z) : Z := foldl (fun c i => DOLIT4 c (word buf i)) c (seq 0 8).

(** [while (len && (buf & PCLMUL_ALIGN_MASK))] *)
Fixpoint alignLoop (addr c : Z) (buf : list Z) : Z * list Z :=
  match buf with
  | [] => (c, [])
  | b :: r => if (addr .& 15) =? 0 then (c, buf) else alignLoop (addr + 1) (crcByte c b) r
  end.
Fixpoint loop32 (fuel : nat) (c : Z) (buf : list Z) : Z * list Z :=
  match fuel with
  | O => (c, buf)
  | S f => if (32 <=? length buf)%nat then loop32 f (DOLIT32 c buf) (drop 32 buf) else (c, buf)
  end.
Fixpoint loop4 (fuel : nat) (c : Z) (buf : list Z) : Z * list Z :=
  match fuel with
  | O => (c, buf)
  | S f => if (4 <=? length buf)%nat then loop4 f (DOLIT4 c (word buf 0)) (drop 4 buf) else (c, buf)
  end.

(** ** The carry-less multiplication path *)

(** [_mm_clmulepi64_si128] on two 64 bit halves. *)
Fixpoint clmul (n : nat) (a b : Z) : Z :=
  match n with
  | O => 0
  | S n' => Z.lxor (if Z.odd b then a else 0) (Z.shiftl (clmul n' a (b >> 1)) 1)
  end.
Definition lo64 (x : Z) : Z := x .& Z.ones 64.
Definition hi64 (x : Z) : Z := x >> 64.
Definition clmul00 (x y : Z) : Z := clmul 64 (lo64 x) (lo64 y).
Definition clmul11 (x y : Z) : Z := clmul 64 (hi64 x) (hi64 y).
Definition clmul10 (x y : Z) : Z := clmul 64 (lo64 x) (hi64 y).   (* immediate 0x10 *)

Definition m128 (lo hi : Z) : Z := lo + (hi << 64).
Definition k1k2 : Z := m128 0x0154442bd4 0x01c6e41596.
Definition k3k4 : Z := m128 0x01751997d0 0x00ccaa009e.
Definition k5k0 : Z := m128 0x0163cd6124 0x0000000000.
Definition polyK : Z := m128 0x01db710641 0x01f7011641.
(** [_mm_setr_epi32(~0, 0, ~0, 0)] *)
Definition maskEven : Z := Z.ones 32 + (Z.ones 32 << 64).
(** [_mm_loadu_si128(buf + 16 * i)] *)
Definition load (buf : list Z) (i : nat) : Z := le_val (take 16 (drop (16 * i) buf)).

(** Fold a register forward by the distance the constants stand for. *)
Definition fold (k x : Z) : Z := Z.lxor (clmul11 x k) (clmul00 x k).

Record lanes := Lanes { x1 : Z; x2 : Z; x3 : Z; x4 : Z }.
Definition foldLanes (v : lanes) (buf : list Z) : lanes :=
  Lanes (Z.lxor (fold k1k2 (x1 v)) (load buf 0)) (Z.lxor (fold k1k2 (x2 v)) (load buf 1))
    (Z.lxor (fold k1k2 (x3 v)) (load buf 2)) (Z.lxor (fold k1k2 (x4 v)) (load buf 3)).
Fixpoint pclLoop64 (fuel : nat) (v : lanes) (buf : list Z) : lanes * list Z :=
  match fuel with
  | O => (v, buf)
  | S f => if (64 <=? length buf)%nat then pclLoop64 f (foldLanes v buf) (drop 64 buf) else (v, buf)
  end.
Fixpoint pclLoop16 (fuel : nat) (x : Z) (buf : list Z) : Z :=
  match fuel with
  | O => x
  | S f => if (16 <=? length buf)%nat then pclLoop16 f (Z.lxor (fold k3k4 x) (load buf 0)) (drop 16 buf) else x
  end.
Definition joinLanes (v : lanes) : Z :=
  let x := Z.lxor (fold k3k4 (x1 v)) (x2 v) in
  let x := Z.lxor (fold k3k4 x) (x3 v) in
  Z.lxor (fold k3k4 x) (x4 v).
(** 128 bits to 64 bits, then the Barrett reduction to 32 bits. *)
Definition reduce128 (x : Z) : Z :=
  let x := Z.lxor (x >> 64) (clmul10 x k3k4) in
  let x := Z.lxor (clmul00 (x .& maskEven) k5k0) (x >> 32) in
  let y := clmul10 (x .& maskEven) polyK in
  let y := clmul00 (y .& maskEven) polyK in
  (Z.lxor x y >> 32) .& Z.ones 32.
Definition crc32pclmul (crc : Z) (buf : list Z) : Z :=
  let v := Lanes (Z.lxor (load buf 0) crc) (load buf 1) (load buf 2) (load buf 3) in
  let '(v, rest) := pclLoop64 (length buf) v (drop 64 buf) in
  reduce128 (pclLoop16 (length buf) (joinLanes v) rest).

(** ** The function *)

(** [pclmul] says what the processor supports, [addr] where the buffer lies. *)
Definition crcBody (pclmul : bool) (c : Z) (buf : list Z) : Z * list Z :=
  if pclmul && (64 <=? length buf)%nat then
    let n := (length buf - length buf mod 16)%nat in   (* [len & ~PCLMUL_ALIGN_MASK] *)
    (crc32pclmul c (take n buf), drop n buf)
  else
    let '(c, buf) := loop32 (length buf) c buf in
    loop4 (length buf) c buf.
Definition crc32Buf (pclmul : bool) (addr crc : Z) (buf : list Z) : Z :=
  let c := lnot32 crc in
  let '(c, buf) := alignLoop addr c buf in
  let '(c, buf) := crcBody pclmul c buf in
  lnot32 (foldl crcByte c buf).
(** [None] is the [NULL] buffer. *)
Definition crc32 (pclmul : bool) (addr crc : Z) (buf : option (list Z)) : Z :=
  match buf with None => 0 | Some buf => crc32Buf pclmul addr crc buf end.

(** * The reference: bit by bit *)

Definition crc_bit (c : Z) : Z := Z.lxor (c >> 1) (if Z.odd c then 0xedb88320 else 0).
Fixpoint steps (n : nat) (c : Z) : Z := match n with O => c | S n' => crc_bit (steps n' c) end.
Definition crc32_ref (crc : Z) (bytes : list Z) : Z :=
  lnot32 (foldl (fun c b => steps 8 (Z.lxor c b)) (lnot32 crc) bytes).

(** ** Linearity *)

(** Linear over exclusive or. *)
Class Linear (f : Z -> Z) : Prop := { linear_xor : forall x y, f (Z.lxor x y) = Z.lxor (f x) (f y) }.
Lemma linear_0 f `{!Linear f} : f 0 = 0.
Proof. rewrite <- (Z.lxor_nilpotent (f 0)) at 2. rewrite <- linear_xor. by rewrite Z.lxor_0_l. Qed.

#[export] Instance linear_shiftr n : Linear (fun x => x >> n).
Proof. split. intros. apply Z.shiftr_lxor. Qed.
#[export] Instance linear_land m : Linear (fun x => x .& m).
Proof.
  split. intros x y. apply Z.bits_inj'. intros n Hn. rewrite !Z.land_spec, !Z.lxor_spec, !Z.land_spec.
  by destruct (Z.testbit x n), (Z.testbit y n), (Z.testbit m n).
Qed.
#[export] Instance linear_id : Linear (fun x => x).
Proof. by split. Qed.
Lemma lxor_swap a b c d : Z.lxor (Z.lxor a b) (Z.lxor c d) = Z.lxor (Z.lxor a c) (Z.lxor b d).
Proof. rewrite !Z.lxor_assoc. f_equal. rewrite <- !Z.lxor_assoc. f_equal. apply Z.lxor_comm. Qed.
Lemma linear_lxor f g : Linear f -> Linear g -> Linear (fun x => Z.lxor (f x) (g x)).
Proof. intros Hf Hg. split. intros x y. rewrite !linear_xor. apply lxor_swap. Qed.
Lemma linear_compose f g : Linear f -> Linear g -> Linear (fun x => f (g x)).
Proof. intros Hf Hg. split. intros x y. by rewrite !linear_xor. Qed.
#[export] Instance linear_crc_bit : Linear crc_bit.
Proof.
  split. intros x y. unfold crc_bit. rewrite Z.shiftr_lxor.
  assert (Z.odd (Z.lxor x y) = xorb (Z.odd x) (Z.odd y)) as -> by (rewrite <- !Z.bit0_odd; apply Z.lxor_spec).
  rewrite lxor_swap. f_equal. by destruct (Z.odd x), (Z.odd y).
Qed.
#[export] Instance linear_steps n : Linear (steps n).
Proof.
  split. intros x y. induction n as [|n IH]; [done|]. cbn [steps]. rewrite IH. apply linear_xor.
Qed.
Lemma clmul_linear n k : Linear (fun x => clmul n x k).
Proof.
  revert k. induction n as [|n IH]; intros k; cbn [clmul]; [by split|]. split. intros x y.
  rewrite (linear_xor (f := fun x => clmul n x (k >> 1))), Z.shiftl_lxor. rewrite lxor_swap. f_equal.
  by destruct (Z.odd k).
Qed.
#[export] Instance linear_clmul00 k : Linear (fun x => clmul00 x k).
Proof.
  unfold clmul00. pose proof (linear_compose _ _ (clmul_linear 64 (lo64 k)) (linear_land (Z.ones 64))) as H. exact H.
Qed.
#[export] Instance linear_clmul11 k : Linear (fun x => clmul11 x k).
Proof.
  unfold clmul11. pose proof (linear_compose _ _ (clmul_linear 64 (hi64 k)) (linear_shiftr 64)) as H. exact H.
Qed.
#[export] Instance linear_clmul10 k : Linear (fun x => clmul10 x k).
Proof.
  unfold clmul10. pose proof (linear_compose _ _ (clmul_linear 64 (hi64 k)) (linear_land (Z.ones 64))) as H. exact H.
Qed.
#[export] Instance linear_fold k : Linear (fold k).
Proof. apply (linear_lxor _ _ (linear_clmul11 k) (linear_clmul00 k)). Qed.

(** Two linear functions that agree on the powers of two below [2^n] agree below [2^n]. *)
Lemma linear_ext f g n :
  Linear f -> Linear g -> forallb (fun i => f (2 ^ Z.of_nat i) =? g (2 ^ Z.of_nat i)) (seq 0 n) = true ->
  forall x, 0 <= x < 2 ^ Z.of_nat n -> f x = g x.
Proof.
  intros Hf Hg. induction n as [|n IH]; intros Hb x Hx.
  - assert (x = 0) as -> by (cbn in Hx; lia). by rewrite (linear_0 f), (linear_0 g).
  - rewrite seq_S, forallb_app in Hb. apply andb_true_iff in Hb as [Hb Hn]. cbn in Hn. rewrite andb_true_r in Hn.
    apply Z.eqb_eq in Hn. specialize (IH Hb).
    assert (0 < 2 ^ Z.of_nat n) by lia.
    destruct (Z.lt_ge_cases x (2 ^ Z.of_nat n)) as [Hlt|Hge]; [apply IH; lia|].
    rewrite Nat2Z.inj_succ, Z.pow_succ_r in Hx by lia.
    assert (x = Z.lxor (x - 2 ^ Z.of_nat n) (2 ^ Z.of_nat n)) as Ex.
    { rewrite <- Z.add_nocarry_lxor; [lia|]. apply Z.bits_inj'. intros m Hm. rewrite Z.land_spec, Z.bits_0.
      rewrite Z.pow2_bits_eqb by lia. destruct (Z.eqb_spec (Z.of_nat n) m) as [<-|]; [|by apply andb_false_r].
      rewrite andb_true_r. rewrite <- (Z.mod_small (x - 2 ^ Z.of_nat n) (2 ^ Z.of_nat n)) by lia.
      apply Z.mod_pow2_bits_high. lia. }
    rewrite Ex, (linear_xor (f := f)), (linear_xor (f := g)). rewrite IH by lia. by rewrite Hn.
Qed.

(** ** The reference on whole words *)

Lemma steps_add n m c : steps (n + m) c = steps n (steps m c).
Proof. induction n as [|n IH]; [done|]. cbn [Nat.add steps]. by rewrite IH. Qed.
(** Bits behind the ones processed are shifted down. *)
Lemma steps_shiftl n v : steps n (v << Z.of_nat n) = v.
Proof.
  revert v. induction n as [|n IH]; intros v; [apply Z.shiftl_0_r|].
  cbn [steps]. rewrite Nat2Z.inj_succ, <- Z.add_1_l, <- Z.shiftl_shiftl by lia. rewrite IH.
  assert (Z.odd (v << 1) = false) as Ho by (rewrite Z.shiftl_mul_pow2, Z.odd_mul by lia; apply andb_false_r).
  unfold crc_bit. rewrite Ho, Z.shiftr_shiftl_l by lia. rewrite Z.lxor_0_r. apply Z.shiftl_0_r.
Qed.
Lemma steps_split n a v : steps n (Z.lxor a (v << Z.of_nat n)) = Z.lxor (steps n a) v.
Proof. by rewrite linear_xor, steps_shiftl. Qed.

(** A value is its low [n] bits and the rest. *)
Lemma split_bits n x : 0 <= n -> x = Z.lxor (x .& Z.ones n) ((x >> n) << n).
Proof.
  intros Hn. apply Z.bits_inj'. intros m Hm. rewrite Z.lxor_spec, Z.land_spec, Z.shiftl_spec by lia.
  rewrite Z.testbit_ones_nonneg by lia. destruct (Z.ltb_spec m n).
  - rewrite (Z.testbit_neg_r _ (m - n)) by lia. by rewrite andb_true_r, xorb_false_r.
  - rewrite andb_false_r, xorb_false_l, Z.shiftr_spec by lia. f_equal. lia.
Qed.
Lemma byte_cons b v : in_u8 b -> b + 256 * v = Z.lxor b (v << 8).
Proof.
  intros Hb. rewrite Z.shiftl_mul_pow2 by lia. change (2 ^ 8) with 256. rewrite (Z.mul_comm v).
  apply Z.add_nocarry_lxor. apply Z.bits_inj'. intros m Hm. rewrite Z.land_spec, Z.bits_0.
  change 256 with (2 ^ 8). rewrite (Z.mul_comm _ v), <- Z.shiftl_mul_pow2 by lia. rewrite Z.shiftl_spec by lia.
  destruct (Z.lt_ge_cases m 8); [rewrite (Z.testbit_neg_r v) by lia; apply andb_false_r|].
  rewrite <- (u8_id b Hb). unfold u8. by rewrite Z.mod_pow2_bits_high by lia.
Qed.

(** The bytes of a buffer, processed one after the other, are the bits of one number. *)
Lemma bytes_steps c bytes :
  Forall in_u8 bytes ->
  foldl (fun c b => steps 8 (Z.lxor c b)) c bytes = steps (8 * length bytes) (Z.lxor c (le_val bytes)).
Proof.
  intros Hb. revert c. induction Hb as [|b r Hb _ IH]; intros c; cbn [foldl le_val length].
  - by rewrite Nat.mul_0_r, Z.lxor_0_r.
  - rewrite IH. replace (8 * S (length r))%nat with (8 * length r + 8)%nat by lia. rewrite steps_add. f_equal.
    rewrite byte_cons by done. rewrite <- Z.lxor_assoc. change 8 with (Z.of_nat 8). by rewrite steps_split.
Qed.

Lemma le_val_app l k : Forall in_u8 l -> le_val (l ++ k) = Z.lxor (le_val l) (le_val k << (8 * Z.of_nat (length l))).
Proof.
  intros Hl. induction Hl as [|b r Hb _ IH]; cbn [app le_val length].
  - by rewrite Z.mul_0_r, Z.shiftl_0_r, Z.lxor_0_l.
  - rewrite !byte_cons by done. rewrite IH, Z.shiftl_lxor, Z.lxor_assoc. do 2 f_equal.
    rewrite Z.shiftl_shiftl by lia. f_equal. lia.
Qed.
Lemma le_val_range l : Forall in_u8 l -> 0 <= le_val l < 2 ^ (8 * Z.of_nat (length l)).
Proof.
  intros Hl. induction Hl as [|b r Hb _ IH]; cbn [le_val length]; [by cbn|].
  rewrite Nat2Z.inj_succ. replace (8 * Z.succ (Z.of_nat (length r))) with (8 + 8 * Z.of_nat (length r)) by lia.
  rewrite Z.pow_add_r by lia. unfold in_u8 in Hb. nia.
Qed.

(** ** The table driven loops compute the reference *)

Lemma lxor_range n x y : 0 <= n -> 0 <= x < 2 ^ n -> 0 <= y < 2 ^ n -> 0 <= Z.lxor x y < 2 ^ n.
Proof.
  intros Hn Hx Hy. assert (Z.lxor x y = Z.lxor x y mod 2 ^ n) as ->; [|apply Z.mod_pos_bound; lia].
  apply Z.bits_inj'. intros m Hm. destruct (Z.lt_ge_cases m n); [by rewrite Z.mod_pow2_bits_low by lia|].
  assert (forall z, 0 <= z < 2 ^ n -> Z.testbit z m = false) as Hhi.
  { intros z Hz. rewrite <- (Z.mod_small z (2 ^ n)) by lia. apply Z.mod_pow2_bits_high. lia. }
  rewrite Z.mod_pow2_bits_high, Z.lxor_spec by lia. by rewrite !Hhi.
Qed.
Lemma shiftr_range n k x : 0 <= k <= n -> 0 <= x < 2 ^ n -> 0 <= x >> k < 2 ^ (n - k).
Proof.
  intros Hk Hx. rewrite Z.shiftr_div_pow2 by lia. split; [apply Z.div_pos; lia|].
  apply Z.div_lt_upper_bound; [lia|]. rewrite <- Z.pow_add_r by lia. replace (k + (n - k)) with n by lia. lia.
Qed.
Lemma steps_range n c : in_u32 c -> in_u32 (steps n c).
Proof.
  intros Hc. induction n as [|n IH]; [done|]. cbn [steps]. unfold crc_bit. apply (lxor_range 32); [lia| |].
  - pose proof (shiftr_range 32 1 _ ltac:(lia) IH). cbn in *. lia.
  - destruct (Z.odd _); by vm_compute.
Qed.
Lemma crc_table_steps k i : (k < 4)%nat -> 0 <= i < 256 -> crc_table k i = steps (8 * S k) i.
Proof.
  intros Hk Hi.
  assert (forallb (fun k => forallb (fun i => crc_table k (Z.of_nat i) =? steps (8 * S k) (Z.of_nat i)) (seq 0 256))
            (seq 0 4) = true) as H by (vm_compute; reflexivity).
  rewrite forallb_seq_iff in H. specialize (H k Hk). rewrite forallb_seq_iff in H.
  specialize (H (Z.to_nat i) ltac:(lia)). rewrite Z2Nat.id in H by lia. by apply Z.eqb_eq.
Qed.
(** Process the low byte of a word on its own. *)
Lemma steps_peel n x : steps (n + 8) x = Z.lxor (steps (n + 8) (x .& 255)) (steps n (x >> 8)).
Proof.
  rewrite (split_bits 8 x) at 1 by lia. change (Z.ones 8) with 255.
  rewrite linear_xor. f_equal. rewrite steps_add. change 8 with (Z.of_nat 8). by rewrite steps_shiftl.
Qed.
Lemma land_255_range x : 0 <= x .& 255 < 256.
Proof. change 255 with (Z.ones 8). rewrite Z.land_ones by lia. by apply Z.mod_pos_bound. Qed.

Definition crcBytes (c : Z) (bytes : list Z) : Z := foldl (fun c b => steps 8 (Z.lxor c b)) c bytes.
Lemma crcByte_steps c b : in_u8 b -> crcByte c b = steps 8 (Z.lxor c b).
Proof.
  intros Hb. unfold crcByte. rewrite crc_table_steps by (lia || apply land_255_range).
  symmetry. etrans; [apply (steps_peel 0)|]. change (steps 0 ?z) with z. f_equal. rewrite Z.shiftr_lxor.
  pose proof (shiftr_range 8 8 b ltac:(lia) Hb). assert (b >> 8 = 0) as -> by (cbn in *; lia). by rewrite Z.lxor_0_r.
Qed.
Lemma DOLIT4_steps c w : in_u32 c -> in_u32 w -> DOLIT4 c w = steps 32 (Z.lxor c w).
Proof.
  intros Hc Hw. unfold DOLIT4. pose proof (lxor_range 32 c w ltac:(lia) Hc Hw) as Hx. set (x := Z.lxor c w) in *.
  rewrite !crc_table_steps; [|lia|pose proof (shiftr_range 32 24 x ltac:(lia) Hx); cbn in *; lia|lia|apply land_255_range|lia
    |apply land_255_range|lia|apply land_255_range].
  assert (forall n y, steps (8 + n) y = Z.lxor (steps (8 + n) (y .& 255)) (steps n (y >> 8))) as Hp
    by (intros n y; rewrite (Nat.add_comm 8); apply steps_peel).
  pose proof (Hp 24%nat x) as E1. pose proof (Hp 16%nat (x >> 8)) as E2. pose proof (Hp 8%nat (x >> 8 >> 8)) as E3.
  cbn [Nat.add] in E1, E2, E3. rewrite E1, E2, E3. rewrite !Z.shiftr_shiftr by lia.
  cbn [Nat.mul Nat.add Z.add]. by rewrite !Z.lxor_assoc.
Qed.

Lemma crcBytes_app c l k : crcBytes c (l ++ k) = crcBytes (crcBytes c l) k.
Proof. apply foldl_app. Qed.
Lemma crcBytes_range c l : in_u32 c -> Forall in_u8 l -> in_u32 (crcBytes c l).
Proof.
  intros Hc Hl. revert c Hc. induction Hl as [|b l Hb _ IH]; intros c Hc; [done|].
  change (in_u32 (crcBytes (steps 8 (Z.lxor c b)) l)). apply IH.
  apply steps_range, (lxor_range 32); [lia|done|]. crange.
Qed.
Lemma foldl_crcByte c l : Forall in_u8 l -> foldl crcByte c l = crcBytes c l.
Proof.
  intros Hl. revert c. induction Hl as [|b l Hb _ IH]; intros c; [done|]. cbn [foldl]. rewrite crcByte_steps by done. apply IH.
Qed.
Lemma word_bytes c l : in_u32 c -> Forall in_u8 l -> length l = 4%nat -> DOLIT4 c (le_val l) = crcBytes c l.
Proof.
  intros Hc Hl Hlen. unfold crcBytes. rewrite bytes_steps, Hlen by done. apply DOLIT4_steps; [done|].
  pose proof (le_val_range l Hl) as H. rewrite Hlen in H. exact H.
Qed.

(** A loop that consumed a prefix of the buffer as the reference does. *)
Definition consumed (c : Z) (buf : list Z) (r : Z * list Z) : Prop :=
  exists pre, buf = pre ++ r.2 /\ r.1 = crcBytes c pre.

Lemma consumed_trans c buf r r' : consumed c buf r -> consumed r.1 r.2 r' -> consumed c buf r'.
Proof.
  intros (p & -> & E) (q & Eq & E'). exists (p ++ q). rewrite <- app_assoc, <- Eq. split; [done|].
  by rewrite crcBytes_app, <- E.
Qed.
Lemma alignLoop_consumed addr c buf : Forall in_u8 buf -> consumed c buf (alignLoop addr c buf).
Proof.
  intros Hb. revert addr c. induction Hb as [|b r Hb _ IH]; intros addr c; cbn [alignLoop]; [by exists []|].
  destruct (_ =? 0); [by exists []|]. rewrite crcByte_steps by done.
  destruct (IH (addr + 1) (steps 8 (Z.lxor c b))) as (p & E1 & E2). exists (b :: p). cbn [app]. by rewrite <- E1.
Qed.
Lemma take_bytes n (buf : list Z) : Forall in_u8 buf -> Forall in_u8 (take n buf).
Proof. apply Forall_take. Qed.
Lemma loop4_consumed fuel c buf : in_u32 c -> Forall in_u8 buf -> consumed c buf (loop4 fuel c buf).
Proof.
  revert c buf. induction fuel as [|fuel IH]; intros c buf Hc Hb; cbn [loop4]; [by exists []|].
  destruct (Nat.leb_spec 4 (length buf)); [|by exists []].
  assert (DOLIT4 c (word buf 0) = crcBytes c (take 4 buf)) as E
    by (unfold word; cbn [Nat.mul]; rewrite drop_0; apply word_bytes; [done|by apply Forall_take|rewrite length_take; lia]).
  rewrite E. eapply (consumed_trans _ _ (crcBytes c (take 4 buf), drop 4 buf)).
  - exists (take 4 buf). cbn [fst snd]. by rewrite take_drop.
  - apply IH; [by apply crcBytes_range; [|apply Forall_take]|by apply Forall_drop].
Qed.
Lemma DOLIT32_bytes c buf : in_u32 c -> Forall in_u8 buf -> (32 <= length buf)%nat -> DOLIT32 c buf = crcBytes c (take 32 buf).
Proof.
  intros Hc Hb Hl. unfold DOLIT32.
  assert (forall n, (n <= 8)%nat -> foldl (fun c i => DOLIT4 c (word buf i)) c (seq 0 n) = crcBytes c (take (4 * n) buf)) as H;
    [|by apply (H 8%nat)].
  induction n as [|n IH]; intros Hn; [done|]. rewrite seq_S, foldl_app, IH by lia. cbn [foldl].
  replace (4 * S n)%nat with (4 * n + 4)%nat by lia. rewrite <- take_take_drop, crcBytes_app. cbn [Nat.add].
  apply word_bytes; [apply crcBytes_range; [done|by apply Forall_take]|by apply Forall_take, Forall_drop|].
  rewrite length_take, length_drop. lia.
Qed.
Lemma loop32_consumed fuel c buf : in_u32 c -> Forall in_u8 buf -> consumed c buf (loop32 fuel c buf).
Proof.
  revert c buf. induction fuel as [|fuel IH]; intros c buf Hc Hb; cbn [loop32]; [by exists []|].
  destruct (Nat.leb_spec 32 (length buf)); [|by exists []]. rewrite DOLIT32_bytes by done.
  eapply (consumed_trans _ _ (crcBytes c (take 32 buf), drop 32 buf)).
  - exists (take 32 buf). cbn [fst snd]. by rewrite take_drop.
  - apply IH; [by apply crcBytes_range; [|apply Forall_take]|by apply Forall_drop].
Qed.

(** ** The carry-less multiplication path computes the reference *)

Definition in_u128 (x : Z) : Prop := 0 <= x < 2 ^ 128.

Lemma clmul_range n m a b : 0 <= m -> 0 <= a < 2 ^ m -> 0 <= clmul n a b < 2 ^ (m + Z.of_nat n).
Proof.
  intros Hm Ha. revert b. induction n as [|n IH]; intros b; cbn [clmul].
  { split; [done|]. apply Z.pow_pos_nonneg; lia. }
  specialize (IH (b >> 1)). assert (2 ^ (m + Z.of_nat (S n)) = 2 * 2 ^ (m + Z.of_nat n)) as E.
  { rewrite <- Z.pow_succ_r by lia. f_equal. lia. }
  apply lxor_range; [lia| |].
  - assert (2 ^ m <= 2 ^ (m + Z.of_nat (S n))) by (apply Z.pow_le_mono_r; lia). destruct (Z.odd b); lia.
  - rewrite Z.shiftl_mul_pow2 by lia. change (2 ^ 1) with 2. lia.
Qed.
Lemma fold_range k x : in_u128 x -> in_u128 (fold k x).
Proof.
  intros Hx. apply (lxor_range 128); [lia| |].
  - apply (clmul_range 64 64); [lia|]. apply (shiftr_range 128 64 x); [lia|done].
  - apply (clmul_range 64 64); [lia|]. unfold lo64. rewrite Z.land_ones by lia. by apply Z.mod_pos_bound.
Qed.
(** Folding moves a register over 512 or 128 bits. *)
Lemma fold_k1k2 x : in_u128 x -> steps 128 (fold k1k2 x) = steps 640 x.
Proof.
  intros Hx. refine (linear_ext (fun x => steps 128 (fold k1k2 x)) (steps 640) 128 _ _ _ x Hx).
  - apply (linear_compose (steps 128) (fold k1k2)); apply _.
  - vm_compute. reflexivity.
Qed.
Lemma fold_k3k4 x : in_u128 x -> steps 128 (fold k3k4 x) = steps 256 x.
Proof.
  intros Hx. refine (linear_ext (fun x => steps 128 (fold k3k4 x)) (steps 256) 128 _ _ _ x Hx).
  - apply (linear_compose (steps 128) (fold k3k4)); apply _.
  - vm_compute. reflexivity.
Qed.
#[export] Instance linear_reduce128 : Linear reduce128.
Proof.
  set (A := fun x => Z.lxor (x >> 64) (clmul10 x k3k4)).
  set (B := fun x => Z.lxor (clmul00 (x .& maskEven) k5k0) (x >> 32)).
  set (C := fun x => Z.lxor x (clmul00 (clmul10 (x .& maskEven) polyK .& maskEven) polyK)).
  set (D := fun x => (x >> 32) .& Z.ones 32).
  assert (Linear A) by exact (linear_lxor _ _ (linear_shiftr 64) (linear_clmul10 k3k4)).
  assert (Linear B) by exact (linear_lxor _ _ (linear_compose _ _ (linear_clmul00 k5k0) (linear_land maskEven)) (linear_shiftr 32)).
  assert (Linear C) by exact (linear_lxor _ _ linear_id (linear_compose _ _ (linear_clmul00 polyK) (linear_compose _ _
    (linear_land maskEven) (linear_compose _ _ (linear_clmul10 polyK) (linear_land maskEven))))).
  assert (Linear D) by exact (linear_compose _ _ (linear_land (Z.ones 32)) (linear_shiftr 32)).
  split. intros x y. change (D (C (B (A (Z.lxor x y)))) = Z.lxor (D (C (B (A x)))) (D (C (B (A y))))).
  rewrite (linear_xor (f := A)), (linear_xor (f := B)), (linear_xor (f := C)). apply (linear_xor (f := D)).
Qed.
Lemma reduce128_steps x : in_u128 x -> reduce128 x = steps 128 x.
Proof. intros Hx. refine (linear_ext reduce128 (steps 128) 128 _ _ _ x Hx). vm_compute. reflexivity. Qed.

#[local] Opaque steps.

(** The state the four registers stand for. *)
Definition lanesVal (v : lanes) : Z :=
  Z.lxor (steps 512 (x1 v)) (Z.lxor (steps 384 (x2 v)) (Z.lxor (steps 256 (x3 v)) (steps 128 (x4 v)))).
Definition lanes_ok (v : lanes) : Prop := in_u128 (x1 v) /\ in_u128 (x2 v) /\ in_u128 (x3 v) /\ in_u128 (x4 v).

Lemma steps_steps n m k c : k = (n + m)%nat -> steps n (steps m c) = steps k c.
Proof. intros ->. by rewrite steps_add. Qed.

Lemma load_ok buf i : Forall in_u8 buf -> in_u128 (load buf i).
Proof.
  intros Hb. unfold load, in_u128. pose proof (le_val_range (take 16 (drop (16 * i) buf)) ltac:(by apply Forall_take, Forall_drop)).
  assert (2 ^ (8 * Z.of_nat (length (take 16 (drop (16 * i) buf)))) <= 2 ^ 128); [|lia].
  apply Z.pow_le_mono_r; [lia|]. rewrite length_take. lia.
Qed.
(** Sixteen bytes at a time, a buffer is the registers side by side. *)
Lemma crcBytes_16 c buf :
  Forall in_u8 buf -> (16 <= length buf)%nat -> crcBytes c (take 16 buf) = steps 128 (Z.lxor c (load buf 0)).
Proof.
  intros Hb Hl. unfold crcBytes, load. cbn [Nat.mul]. rewrite drop_0, bytes_steps by by apply Forall_take.
  rewrite length_take. by replace (8 * (16 `min` length buf))%nat with 128%nat by lia.
Qed.
Lemma crcBytes_64 c buf :
  Forall in_u8 buf -> (64 <= length buf)%nat ->
  crcBytes c (take 64 buf) =
  Z.lxor (steps 512 c) (lanesVal (Lanes (load buf 0) (load buf 1) (load buf 2) (load buf 3))).
Proof.
  intros Hb Hl.
  assert (forall n m c, (n <= 4)%nat -> (m = 128 * n)%nat ->
    crcBytes c (take (16 * n) buf) =
    Z.lxor (steps m c) (foldl (fun a i => Z.lxor a (steps (m - 128 * i) (load buf i))) 0 (seq 0 n))) as H.
  { induction n as [|n IH]; intros m c' Hn ->; [by cbn; rewrite Z.lxor_0_r|].
    replace (16 * S n)%nat with (16 * n + 16)%nat by lia. rewrite <- take_take_drop, crcBytes_app.
    rewrite (IH (128 * n)%nat) by lia. rewrite crcBytes_16 by (rewrite ?length_drop; try lia; by apply Forall_drop).
    assert (load (drop (16 * n) buf) 0 = load buf n) as -> by (unfold load; cbn [Nat.mul]; by rewrite drop_0).
    rewrite seq_S, foldl_app. cbn [foldl Nat.add]. rewrite (linear_xor (f := steps 128)), (linear_xor (f := steps 128)).
    rewrite (steps_steps 128 (128 * n) (128 * S n)) by lia. rewrite Z.lxor_assoc.
    replace (128 * S n - 128 * n)%nat with 128%nat by lia.
    assert (forall l a, (forall i, i ∈ l -> (i < n)%nat) ->
      steps 128 (foldl (fun a i => Z.lxor a (steps (128 * n - 128 * i) (load buf i))) a l)
      = foldl (fun a i => Z.lxor a (steps (128 * S n - 128 * i) (load buf i))) (steps 128 a) l) as Hf.
    { induction l as [|i l IHl]; intros a Hin; [done|]. cbn [foldl]. rewrite IHl by (intros; apply Hin; by right).
      specialize (Hin i ltac:(by left)). rewrite (linear_xor (f := steps 128)).
      by rewrite (steps_steps 128 (128 * n - 128 * i) (128 * S n - 128 * i)) by lia. }
    rewrite Hf; [|intros i Hi%elem_of_seq; lia]. by rewrite (linear_0 (steps 128)). }
  rewrite (H 4%nat 512%nat) by lia. unfold lanesVal. cbn [seq foldl x1 x2 x3 x4 Nat.mul Nat.add Nat.sub].
  by rewrite Z.lxor_0_l, !Z.lxor_assoc.
Qed.

Lemma foldLanes_val v buf :
  lanes_ok v -> Forall in_u8 buf -> (64 <= length buf)%nat ->
  lanes_ok (foldLanes v buf) /\ lanesVal (foldLanes v buf) = crcBytes (lanesVal v) (take 64 buf).
Proof.
  intros (H1 & H2 & H3 & H4) Hb Hl. split.
  { unfold foldLanes, lanes_ok. cbn [x1 x2 x3 x4].
    split_and!; apply (lxor_range 128); (lia || by apply fold_range || by apply load_ok). }
  rewrite crcBytes_64 by done. unfold lanesVal, foldLanes. cbn [x1 x2 x3 x4].
  assert (forall k x, in_u128 x -> steps (128 + k) (fold k1k2 x) = steps 512 (steps (128 + k) x)) as Hf.
  { intros k x Hx. rewrite (Nat.add_comm 128 k), (steps_add k 128 (fold k1k2 x)), fold_k1k2 by done.
    rewrite (steps_steps k 640 (k + 640)), (steps_steps 512 (k + 128) (k + 640)) by lia. done. }
  rewrite !(linear_xor (f := steps 512)), !(linear_xor (f := steps 384)), !(linear_xor (f := steps 256)), !(linear_xor (f := steps 128)).
  rewrite (Hf 384%nat), (Hf 256%nat), (Hf 128%nat), (Hf 0%nat) by done. cbn [Nat.add].
  set (a1 := steps 512 (steps 512 (x1 v))). set (a2 := steps 512 (steps 384 (x2 v))).
  set (a3 := steps 512 (steps 256 (x3 v))). set (a4 := steps 512 (steps 128 (x4 v))).
  rewrite (lxor_swap a3 _ a4), (lxor_swap a2), (lxor_swap a1). done.
Qed.
Lemma joinLanes_val v : lanes_ok v -> in_u128 (joinLanes v) /\ steps 128 (joinLanes v) = lanesVal v.
Proof.
  intros (H1 & H2 & H3 & H4). unfold joinLanes.
  set (y1 := Z.lxor (fold k3k4 (x1 v)) (x2 v)). set (y2 := Z.lxor (fold k3k4 y1) (x3 v)).
  assert (in_u128 y1) as Hy1 by (apply (lxor_range 128); [lia|by apply fold_range|done]).
  assert (in_u128 y2) as Hy2 by (apply (lxor_range 128); [lia|by apply fold_range|done]).
  split; [apply (lxor_range 128); [lia|by apply fold_range|done]|].
  rewrite (linear_xor (f := steps 128)), fold_k3k4 by done. unfold y2.
  assert (forall n x, in_u128 x -> steps (n + 128) (fold k3k4 x) = steps (n + 256) x) as Hf.
  { intros n x Hx. by rewrite steps_add, fold_k3k4, <- steps_add. }
  rewrite (linear_xor (f := steps 256)). rewrite (Hf 128%nat y1 Hy1 : steps 256 _ = steps 384 y1). unfold y1.
  rewrite (linear_xor (f := steps 384)). rewrite (Hf 256%nat (x1 v) H1 : steps 384 _ = steps 512 (x1 v)).
  unfold lanesVal. by rewrite !Z.lxor_assoc.
Qed.

Lemma pclLoop64_val fuel v buf :
  lanes_ok v -> Forall in_u8 buf -> (length buf <= fuel)%nat ->
  let '(v', rest) := pclLoop64 fuel v buf in
  lanes_ok v' /\ (length rest < 64)%nat
  /\ exists pre, buf = pre ++ rest /\ lanesVal v' = crcBytes (lanesVal v) pre /\ (length pre mod 64 = 0)%nat.
Proof.
  revert v buf. induction fuel as [|fuel IH]; intros v buf Hv Hb Hf; cbn [pclLoop64].
  { split; [done|]. split; [lia|]. by exists []. }
  destruct (Nat.leb_spec 64 (length buf)); [|split; [done|]; split; [lia|]; by exists []].
  destruct (foldLanes_val v buf Hv Hb ltac:(lia)) as [Hv' E].
  specialize (IH (foldLanes v buf) (drop 64 buf) Hv' ltac:(by apply Forall_drop) ltac:(rewrite length_drop; lia)).
  destruct (pclLoop64 fuel (foldLanes v buf) (drop 64 buf)) as [v' rest]. destruct IH as (Hok & Hr & pre & Ep & Ev & Em).
  split; [done|]. split; [done|]. exists (take 64 buf ++ pre). rewrite <- app_assoc, <- Ep, take_drop. split; [done|].
  rewrite Ev, E, crcBytes_app. split; [done|]. rewrite length_app, length_take.
  rewrite Nat.min_l by lia. rewrite <- Nat.Div0.add_mod_idemp_l. by cbn.
Qed.
Lemma pclLoop16_val fuel x buf :
  in_u128 x -> Forall in_u8 buf -> (length buf <= fuel)%nat -> (length buf mod 16 = 0)%nat ->
  in_u128 (pclLoop16 fuel x buf) /\ steps 128 (pclLoop16 fuel x buf) = crcBytes (steps 128 x) buf.
Proof.
  revert x buf. induction fuel as [|fuel IH]; intros x buf Hx Hb Hf Hm; cbn [pclLoop16].
  { by destruct buf; [|cbn in Hf; lia]. }
  destruct (Nat.leb_spec 16 (length buf)).
  - destruct (IH (Z.lxor (fold k3k4 x) (load buf 0)) (drop 16 buf)) as [Hr E].
    + apply (lxor_range 128); [lia|by apply fold_range|by apply load_ok].
    + by apply Forall_drop.
    + rewrite length_drop. lia.
    + rewrite length_drop. pose proof (Nat.div_mod_eq (length buf) 16).
      replace (length buf - 16)%nat with ((length buf / 16 - 1) * 16)%nat by lia. apply Nat.Div0.mod_mul.
    + split; [done|]. rewrite E. trans (crcBytes (steps 128 x) (take 16 buf ++ drop 16 buf)); [|by rewrite take_drop].
      rewrite crcBytes_app. f_equal.
      rewrite crcBytes_16 by (done || lia). rewrite !(linear_xor (f := steps 128)), fold_k3k4 by done.
      by rewrite (steps_steps 128 128 256).
  - split; [done|]. assert (length buf = 0%nat) by (rewrite Nat.mod_small in Hm; lia). by destruct buf.
Qed.

Lemma crc32pclmul_bytes c buf :
  in_u32 c -> Forall in_u8 buf -> (64 <= length buf)%nat -> (length buf mod 16 = 0)%nat ->
  crc32pclmul c buf = crcBytes c buf.
Proof.
  intros Hc Hb Hl Hm. unfold crc32pclmul. set (v0 := Lanes _ _ _ _).
  assert (lanes_ok v0) as Hv0.
  { unfold v0. split_and!; cbn [x1 x2 x3 x4]; [|by apply load_ok..].
    apply (lxor_range 128); [lia|by apply load_ok|]. unfold in_u32 in Hc. lia. }
  assert (lanesVal v0 = crcBytes c (take 64 buf)) as E0.
  { rewrite crcBytes_64 by done. unfold lanesVal, v0. cbn [x1 x2 x3 x4]. rewrite (linear_xor (f := steps 512)).
    rewrite (Z.lxor_comm (steps 512 (load buf 0))). by rewrite !Z.lxor_assoc. }
  pose proof (pclLoop64_val (length buf) v0 (drop 64 buf) Hv0 ltac:(by apply Forall_drop) ltac:(rewrite length_drop; lia)) as H.
  destruct (pclLoop64 (length buf) v0 (drop 64 buf)) as [v rest]. destruct H as (Hv & Hr & pre & Ep & Ev & Em).
  destruct (joinLanes_val v Hv) as [Hj Ej].
  assert (Forall in_u8 rest) as Hbr.
  { apply (Forall_drop _ 64) in Hb. rewrite Ep in Hb. by apply list.Forall_app in Hb as [_ ?]. }
  assert (length rest mod 16 = 0)%nat as Hrm.
  { assert (length buf = 64 + length pre + length rest)%nat as El.
    { rewrite <- (take_drop 64 buf) at 1. rewrite Ep, !length_app, length_take. lia. }
    pose proof (Nat.div_mod_eq (length pre) 64). pose proof (Nat.div_mod_eq (length buf) 16).
    replace (length rest) with ((length buf / 16 - 4 - 4 * (length pre / 64)) * 16)%nat by lia. apply Nat.Div0.mod_mul. }
  destruct (pclLoop16_val (length buf) (joinLanes v) rest Hj Hbr) as [Hx Ex]; [|done|].
  { rewrite <- (take_drop 64 buf), Ep, !length_app. lia. }
  rewrite reduce128_steps, Ex, Ej, Ev, E0, <- !crcBytes_app by done. f_equal.
  by rewrite <- Ep, take_drop.
Qed.

Lemma loops_consumed c buf :
  in_u32 c -> Forall in_u8 buf ->
  consumed c buf (let '(c, buf) := loop32 (length buf) c buf in loop4 (length buf) c buf).
Proof.
  intros Hc Hb. destruct (loop32 (length buf) c buf) as [c1 b1] eqn:E1. pose proof (loop32_consumed (length buf) c buf Hc Hb) as C1.
  rewrite E1 in C1. eapply consumed_trans; [exact C1|]. destruct C1 as (p & Ep & Ec). cbn [fst snd] in *. subst buf c1.
  apply list.Forall_app in Hb as [Hp Hb1]. by apply loop4_consumed; [apply crcBytes_range|].
Qed.
(** Whatever the processor supports, the main part of [crc32] consumes the buffer as the
    reference does. *)
Lemma crcBody_consumed pclmul c buf : in_u32 c -> Forall in_u8 buf -> consumed c buf (crcBody pclmul c buf).
Proof.
  intros Hc Hb. unfold crcBody. destruct pclmul; cbn [andb]; [destruct (Nat.leb_spec 64 (length buf))|by apply loops_consumed];
    [|by apply loops_consumed].
  set (n := (length buf - length buf mod 16)%nat).
  pose proof (Nat.div_mod_eq (length buf) 16). pose proof (Nat.mod_upper_bound (length buf) 16 ltac:(lia)).
  assert (n = length buf / 16 * 16)%nat as En by (unfold n; lia).
  assert (length (take n buf) = n) as Eln by (rewrite length_take; lia).
  assert (4 <= length buf / 16)%nat by (apply (Nat.Div0.div_le_mono 64 (length buf) 16); lia).
  exists (take n buf). cbn [fst snd]. rewrite take_drop. split; [done|].
  apply crc32pclmul_bytes; [done|by apply Forall_take|lia|]. rewrite Eln, En. apply Nat.Div0.mod_mul.
Qed.
Lemma lnot32_range x : in_u32 (lnot32 x).
Proof. apply u32_range. Qed.
Lemma lnot32_involutive x : in_u32 x -> lnot32 (lnot32 x) = x.
Proof.
  intros Hx. rewrite <- (u32_id x Hx) at 2. unfold lnot32, u32. apply Z.bits_inj'. intros n Hn.
  destruct (Z.lt_ge_cases n 32); [|by rewrite !Z.mod_pow2_bits_high by lia].
  rewrite !Z.mod_pow2_bits_low, Z.lnot_spec, Z.mod_pow2_bits_low, Z.lnot_spec by lia. by rewrite negb_involutive.
Qed.
Lemma crc32Buf_ref pclmul addr crc buf : Forall in_u8 buf -> crc32Buf pclmul addr crc buf = crc32_ref crc buf.
Proof.
  intros Hb. unfold crc32Buf, crc32_ref. fold (crcBytes (lnot32 crc) buf).
  destruct (alignLoop addr (lnot32 crc) buf) as [c1 b1] eqn:E1.
  pose proof (alignLoop_consumed addr (lnot32 crc) buf Hb) as (p & Ep & Ec). rewrite E1 in Ep, Ec. cbn [fst snd] in Ep, Ec.
  subst buf c1. apply list.Forall_app in Hb as [Hp Hb1].
  pose proof (crcBytes_range (lnot32 crc) p (lnot32_range crc) Hp) as Hc1.
  destruct (crcBody pclmul (crcBytes (lnot32 crc) p) b1) as [c2 b2] eqn:E2.
  pose proof (crcBody_consumed pclmul (crcBytes (lnot32 crc) p) b1 Hc1 Hb1) as (q & Eq & Ec2).
  rewrite E2 in Eq, Ec2. cbn [fst snd] in Eq, Ec2. subst b1 c2. apply list.Forall_app in Hb1 as [Hq Hb2].
  rewrite foldl_crcByte by done. by rewrite <- !crcBytes_app.
Qed.

Lemma crc32_ref_app crc a b : Forall in_u8 a -> crc32_ref (crc32_ref crc a) b = crc32_ref crc (a ++ b).
Proof.
  intros Ha. unfold crc32_ref at 1 3. unfold crc32_ref. fold (crcBytes (lnot32 crc) a).
  rewrite lnot32_involutive by (apply crcBytes_range; [apply lnot32_range|done]). by rewrite foldl_app.
Qed.
Lemma crc32_ref_nil crc : in_u32 crc -> crc32_ref crc [] = crc.
Proof. apply lnot32_involutive. Qed.
Lemma crc32_ref_range crc a : in_u32 (crc32_ref crc a).
Proof. apply lnot32_range. Qed.

(** C21. [crc32] is CRC-32: on every little-endian processor (with or without carry-less
    multiplication), for every buffer and wherever it lies in memory, the optimised code
    computes the bit by bit checksum; and the checksum of two buffers in a row is that of
    their concatenation. *)
Theorem crc32_correct pclmul addr addr' crc buf buf' :
  Forall in_u8 buf -> Forall in_u8 buf' ->
  crc32 pclmul addr crc (Some buf) = crc32_ref crc buf
  /\ crc32 pclmul addr' (crc32 pclmul addr crc (Some buf)) (Some buf') = crc32 pclmul addr crc (Some (buf ++ buf')).
Proof.
  intros Hb Hb'. unfold crc32. rewrite !crc32Buf_ref by (done || by apply list.Forall_app). split; [done|]. by apply crc32_ref_app.
Qed.
Lemma crc32_correct_witness :
  crc32 true 3 0 (Some (map Z.of_nat (seq 0 100))) = crc32_ref 0 (map Z.of_nat (seq 0 100))
  /\ crc32_ref 0 [49; 50; 51; 52; 53; 54; 55; 56; 57] = 0xcbf43926.
Proof.
  split; [|by vm_compute]. apply (crc32_correct true 3 0 0 (map Z.of_nat (seq 0 100)) []); [|constructor].
  apply (bool_decide_eq_true_1 (Forall (fun x => 0 <= x < 2 ^ 8) (map Z.of_nat (seq 0 100)))). by vm_compute.
Defined.
