(* ===== verification/Images.v ===== *)
(** * Images: the image list and the life time of its entries ([src/server/image.c])

    [_images[0 .. _num_images-1]] is a list of pointers ([NULL] is an empty slot), the
    image structs live in a heap from which [image_free] removes them.  Every function
    that works under [imageListLock] (or [image->lock] for the uplink) is one definition on
    this state; an access through a pointer that is not in the heap is [UseAfterFree].

    The second half lets any number of threads call these functions in any order: a
    [world] counts the references that were handed out and not returned, the uplinks that
    are shutting down, the images under construction, and the threads that have decided
    to free an image and have not yet done so. *)

From Stdlib Require Import Ascii.
From stdpp Require Export gmap gmultiset.
From S2P Require Import Prelude Timing Types Helper.

Open Scope Z_scope.

(** ** State *)

Record image_list := ImageList {
  il_images : list ptr;
  il_heap : gmap Z dnbd3_image_t;
  il_counter : Z;            (* [imgIdCounter] *)
  il_uplink : gset Z;        (* images whose [uplinkref] is not [NULL] *)
}.
Definition il_set_images (l : list ptr) (s : image_list) : image_list :=
  ImageList l (il_heap s) (il_counter s) (il_uplink s).
Definition il_set_heap (h : gmap Z dnbd3_image_t) (s : image_list) : image_list :=
  ImageList (il_images s) h (il_counter s) (il_uplink s).
Definition il_set_uplink (u : gset Z) (s : image_list) : image_list :=
  ImageList (il_images s) (il_heap s) (il_counter s) u.

Definition img_set_users (n : Z) (i : dnbd3_image_t) : dnbd3_image_t :=
  Image (img_path i) (img_name i) (img_cacheMap i) (img_virtualFilesize i) (img_realFilesize i)
    (img_atime i) (img_nextCompletenessEstimate i) (img_crc32 i) (img_masterCrc32 i) (img_readFd i)
    (img_completenessEstimate i) n (img_id i) (img_problem i) (img_rid i) (img_accessed i).
Definition img_set_id (n : Z) (i : dnbd3_image_t) : dnbd3_image_t :=
  Image (img_path i) (img_name i) (img_cacheMap i) (img_virtualFilesize i) (img_realFilesize i)
    (img_atime i) (img_nextCompletenessEstimate i) (img_crc32 i) (img_masterCrc32 i) (img_readFd i)
    (img_completenessEstimate i) (img_users i) n (img_problem i) (img_rid i) (img_accessed i).
Definition img_set_readFd (fd : Z) (i : dnbd3_image_t) : dnbd3_image_t :=
  Image (img_path i) (img_name i) (img_cacheMap i) (img_virtualFilesize i) (img_realFilesize i)
    (img_atime i) (img_nextCompletenessEstimate i) (img_crc32 i) (img_masterCrc32 i) fd
    (img_completenessEstimate i) (img_users i) (img_id i) (img_problem i) (img_rid i) (img_accessed i).

(** Follow a pointer to an image. *)
Definition deref (s : image_list) (p : ptr) : result dnbd3_image_t :=
  if p =? NULL then Fault NullDeref
  else match il_heap s !! p with Some i => Ok i | None => Fault UseAfterFree end.
Definition store (p : ptr) (i : dnbd3_image_t) (s : image_list) : image_list :=
  il_set_heap (<[p := i]> (il_heap s)) s.
(** [image->users += n] *)
Definition addUsers (s : image_list) (p : ptr) (n : Z) : result image_list :=
  i ← deref s p; Ok (store p (img_set_users (img_users i + n) i) s).

(** ** Looking up an image *)

(** The first entry that satisfies a test. *)
Fixpoint findImage (test : dnbd3_image_t -> bool) (s : image_list) (l : list ptr) : result (option ptr) :=
  match l with
  | [] => Ok None
  | p :: r =>
      if p =? NULL then findImage test s r
      else i ← deref s p; if test i then Ok (Some p) else findImage test s r
  end.
(** Count the caller as a user of the image found. *)
Definition acquire (s : image_list) (found : option ptr) : result (image_list * option ptr) :=
  match found with
  | None => Ok (s, None)
  | Some p => s ← addUsers s p 1; Ok (s, Some p)
  end.
Definition image_byId (s : image_list) (imgId : Z) : result (image_list * option ptr) :=
  found ← findImage (fun i => img_id i =? imgId) s (il_images s);
  acquire s found.

(** The loop of [image_get]: the entry of exactly this revision, or for revision 0 the
    highest one. *)
Fixpoint findRevision (s : image_list) (name : string) (revision : Z) (candidate : option (ptr * Z)) (l : list ptr)
  : result (option (ptr * Z)) :=
  match l with
  | [] => Ok candidate
  | p :: r =>
      if p =? NULL then findRevision s name revision candidate r
      else
        i ← deref s p;
        if negb (String.eqb (img_name i) name) then findRevision s name revision candidate r
        else if revision =? img_rid i then Ok (Some (p, img_rid i))
        else if (revision =? 0) && (match candidate with None => true | Some (_, rid) => rid <? img_rid i end)
        then findRevision s name revision (Some (p, img_rid i)) r
        else findRevision s name revision candidate r
  end.
Definition firstChar (s : string) : option ascii := chars s !! 0%nat.
Definition lastChar (s : string) : option ascii := list.last (chars s).
Definition validName (name : string) : bool :=
  negb (String.eqb name EmptyString || bool_decide (lastChar name = Some "/"%char)
        || bool_decide (firstChar name = Some "/"%char)).
(** [image_get] up to the point where the list is unlocked. *)
Definition image_get (s : image_list) (name : string) (revision : Z) : result (image_list * option ptr) :=
  if negb (validName name) then Ok (s, None)
  else
    c ← findRevision s name revision None (il_images s);
    acquire s (fst <$> c).
Definition image_lock (s : image_list) (image : ptr) : result (image_list * option ptr) :=
  if image =? NULL then Ok (s, None)
  else acquire s (if bool_decide (image ∈ il_images s) then Some image else None).

(** ** Giving an image back *)

(** [image_release] under the lock; the result says whether the image must be freed. *)
Definition image_release (s : image_list) (image : ptr) : result (image_list * bool) :=
  if image =? NULL then Ok (s, false)
  else
    i ← deref s image;
    _ ← assert_ (0 <? img_users i);
    let s := store image (img_set_users (img_users i - 1) i) s in
    if negb (img_users i - 1 =? 0) then Ok (s, false)
    else Ok (s, negb (bool_decide (image ∈ il_images s))).

(** [if (_images[i] == NULL && i + 1 == _num_images) _num_images--;] *)
Definition trimAt (i : nat) (l : list ptr) : list ptr :=
  if bool_decide (l !! i = Some NULL) && (S i =? length l)%nat then take i l else l.
(** The loop of [image_remove], from the last entry down. *)
Fixpoint removeLoop (image : ptr) (n : nat) (l : list ptr) : list ptr :=
  match n with
  | O => l
  | S i =>
      let l := if bool_decide (l !! i = Some image) then <[i := NULL]> l else l in
      removeLoop image i (trimAt i l)
  end.
(** [image_remove] under the lock; the result says whether the image must be freed. *)
Definition image_remove (s : image_list) (image : ptr) : result (image_list * bool) :=
  mustFree ← (if bool_decide (image ∈ il_images s) then i ← deref s image; Ok (img_users i =? 0) else Ok false);
  Ok (il_set_images (removeLoop image (length (il_images s)) (il_images s)) s, mustFree).

(** [uplink_shutdown]: with an uplink, the image gets another user until the uplink has
    ended; the result says whether there was none. *)
Definition uplink_shutdown (s : image_list) (image : ptr) : result (image_list * bool) :=
  _ ← deref s image;
  if bool_decide (image ∈ il_uplink s) then
    s ← addUsers s image 1;
    Ok (il_set_uplink (il_uplink s ∖ {[image]}) s, false)
  else Ok (s, true).
(** The result says whether the image is gone; otherwise its uplink will call again. *)
Definition image_free (s : image_list) (image : ptr) : result (image_list * bool) :=
  i ← deref s image;
  _ ← assert_ (img_users i =? 0);
  '(s, gone) ← uplink_shutdown s image;
  if (gone : bool) then Ok (il_set_heap (delete image (il_heap s)) s, true) else Ok (s, false).

(** ** Adding an image *)

Fixpoint firstFree (n : nat) (l : list ptr) : option nat :=
  match l with [] => None | p :: r => if p =? NULL then Some n else firstFree (S n) r end.
Definition image_addToList (maxImages : Z) (s : image_list) (image : ptr) : result (image_list * bool) :=
  i ← deref s image;
  if 2 ^ 31 - 1 <=? il_counter s then Fault SignedOverflow else
  let id := il_counter s + 1 in
  let s := ImageList (il_images s) (<[image := img_set_id id i]> (il_heap s)) id (il_uplink s) in
  match firstFree 0 (il_images s) with
  | Some k => Ok (il_set_images (<[k := image]> (il_images s)) s, true)
  | None =>
      if maxImages <=? Z.of_nat (length (il_images s)) then Ok (s, false)
      else Ok (il_set_images (il_images s ++ [image]) s, true)
  end.
(** The struct [image_load] fills in. *)
Definition freshImage (path name : string) (cache : option dnbd3_cache_map_t) (crc32 : option (list Z))
    (masterCrc32 realFilesize virtualFilesize rid fd : Z) (now atime : ticks) : dnbd3_image_t :=
  Image path name cache virtualFilesize realFilesize atime now crc32 masterCrc32 fd (-1) 0 0
    (Problems false false false (if cache is Some _ then true else false) false) (u16 rid) false.
(** The copy [image_get] makes of an image that cannot be read any more. *)
Definition reloadedImage (now : ticks) (candidate : dnbd3_image_t) : dnbd3_image_t :=
  Image (img_path candidate) (img_name candidate) (img_cacheMap candidate) (img_virtualFilesize candidate)
    (img_realFilesize candidate) now (Ticks 0 0) (img_crc32 candidate) (img_masterCrc32 candidate) (-1) 0 1 0
    (Problems true false (pr_changed (img_problem candidate)) false false) (img_rid candidate) false.

(** ** The periodic jobs *)

(** [image_loadAll] with a file that is not readable, after locking the list again. *)
Definition dropVanished (s : image_list) (i : nat) (imgId : Z) : result (image_list * option ptr) :=
  match il_images s !! i with
  | None => Ok (s, None)
  | Some p =>
      if p =? NULL then Ok (s, None)
      else
        img ← deref s p;
        if negb (img_id img =? imgId) then Ok (s, None)
        else
          let s := il_set_images (trimAt i (<[i := NULL]> (il_images s))) s in
          Ok (s, if img_users img =? 0 then Some p else None)
  end.
(** [image_tryFreeAll]; also tells which images wait for their uplink. *)
Fixpoint tryFreeLoop (n : nat) (s : image_list) : result (image_list * list ptr) :=
  match n with
  | O => Ok (s, [])
  | S i =>
      '(s, waiting) ←
        match il_images s !! i with
        | None => Ok (s, [])
        | Some p =>
            if p =? NULL then Ok (s, [])
            else
              img ← deref s p;
              if img_users img =? 0 then
                '(s, gone) ← image_free (il_set_images (<[i := NULL]> (il_images s)) s) p;
                Ok (s, if (gone : bool) then [] else [p])
              else Ok (s, [])
        end;
      '(s, more) ← tryFreeLoop i (il_set_images (trimAt i (il_images s)) s);
      Ok (s, waiting ++ more)
  end.
Definition image_tryFreeAll (s : image_list) : result (image_list * list ptr * bool) :=
  '(s, waiting) ← tryFreeLoop (length (il_images s)) s;
  Ok (s, waiting, (length (il_images s) =? 0)%nat).
(** [image_killUplinks]; also tells which images wait for their uplink. *)
Fixpoint killLoop (l : list ptr) (s : image_list) : result (image_list * list ptr) :=
  match l with
  | [] => Ok (s, [])
  | p :: r =>
      if p =? NULL then killLoop r s
      else
        '(s, gone) ← uplink_shutdown s p;
        '(s, more) ← killLoop r s;
        Ok (s, (if (gone : bool) then [] else [p]) ++ more)
  end.
Definition image_killUplinks (s : image_list) : result (image_list * list ptr) := killLoop (il_images s) s.
(** [saveLoadAllCacheMaps] takes the image of a slot. *)
Definition takeSlot (s : image_list) (i : nat) : result (image_list * option ptr) :=
  match il_images s !! i with
  | None => Ok (s, None)
  | Some p => acquire s (if p =? NULL then None else Some p)
  end.
(** The search of [image_ensureDiskSpace] for the image that was not used for longest. *)
Fixpoint findOldest (fromUpstream : string -> bool) (s : image_list) (oldest : option (ptr * ticks)) (l : list ptr)
  : result (option (ptr * ticks)) :=
  match l with
  | [] => Ok oldest
  | p :: r =>
      if p =? NULL then findOldest fromUpstream s oldest r
      else
        i ← deref s p;
        if negb (img_users i =? 0) then findOldest fromUpstream s oldest r
        else if (match oldest with None => false | Some (_, t) => timing_1le2 t (img_atime i) end)
        then findOldest fromUpstream s oldest r
        else if negb (fromUpstream (img_name i)) then findOldest fromUpstream s oldest r
        else findOldest fromUpstream s (Some (p, img_atime i)) r
  end.
Definition takeOldest (fromUpstream : string -> bool) (s : image_list) : result (image_list * option ptr) :=
  c ← findOldest fromUpstream s None (il_images s);
  acquire s (fst <$> c).
Definition FDCOUNT : nat := 400.
(** [closeUnusedFds]: the descriptors to close, at most [FDCOUNT]. *)
Fixpoint closeLoop (deadline : ticks) (room : nat) (l : list ptr) (s : image_list) : result (image_list * list Z) :=
  match l with
  | [] => Ok (s, [])
  | p :: r =>
      if p =? NULL then closeLoop deadline room r s
      else
        i ← deref s p;
        if img_readFd i =? -1 then closeLoop deadline room r s
        else if (img_users i =? 0) && negb (bool_decide (p ∈ il_uplink s)) && timing_reached (img_atime i) deadline then
          let s := store p (img_set_readFd (-1) i) s in
          match room with
          | O | 1%nat => Ok (s, [img_readFd i])
          | S room => '(s, fds) ← closeLoop deadline room r s; Ok (s, img_readFd i :: fds)
          end
        else closeLoop deadline room r s
  end.
Definition closeUnusedFds (deadline : ticks) (s : image_list) : result (image_list * list Z) :=
  closeLoop deadline FDCOUNT (il_images s) s.

(** ** The uplink of an image *)

(** [uplink_init] behind its checks; [started] tells whether the thread came up.  The
    result says whether a struct without a thread is left to be freed. *)
Definition uplink_attach (s : image_list) (image : ptr) (started : bool) : result (image_list * bool) :=
  i ← deref s image;
  if bool_decide (image ∈ il_uplink s) then Ok (s, false)
  else if img_cacheMap i is Some _ then
    if started then Ok (il_set_uplink (il_uplink s ∪ {[image]}) s, false)
    else s ← addUsers s image 1; Ok (s, true)
  else Ok (s, false).
(** The end of [uplink_mainloop] when nobody asked the uplink to stop. *)
Definition uplink_leave (s : image_list) (image : ptr) : result image_list :=
  s ← addUsers s image 1;
  Ok (il_set_uplink (il_uplink s ∖ {[image]}) s).

(** * Which image a lookup returns *)

Section Lookup.
Context (s : image_list).

(** [i] is the struct behind an entry [p] of [l]. *)
Definition entry (l : list ptr) (p : ptr) (i : dnbd3_image_t) : Prop := p <> NULL /\ p ∈ l /\ deref s p = Ok i.
Definition list_alive : Prop := forall p, p <> NULL -> p ∈ il_images s -> exists i, deref s p = Ok i.

Lemma entry_cons l p q i : entry (q :: l) p i <-> (p = q /\ q <> NULL /\ deref s q = Ok i) \/ entry l p i.
Proof. unfold entry. rewrite elem_of_cons. naive_solver. Qed.

Context (name : string) (revision : Z).
Definition wanted (i : dnbd3_image_t) : Prop := img_name i = name /\ (revision = 0 \/ img_rid i = revision).
(** What the search leaves: nothing if nothing fits, else a fitting image, for revision 0
    the highest one seen. *)
Definition found (l : list ptr) (candidate o : option (ptr * Z)) : Prop :=
  match o with
  | None => candidate = None /\ forall p i, entry l p i -> ~ wanted i
  | Some (p, r) =>
      (candidate = Some (p, r) \/ exists i, entry l p i /\ wanted i /\ img_rid i = r)
      /\ (revision = 0 -> (forall q j, entry l q j -> img_name j = name -> img_rid j <= r)
                         /\ (forall c, candidate = Some c -> c.2 <= r))
  end.
Lemma found_skip q l candidate o :
  (forall i, q <> NULL -> deref s q = Ok i ->
     ~ wanted i \/ exists c, candidate = Some c /\ img_rid i <= c.2) ->
  found l candidate o -> found (q :: l) candidate o.
Proof.
  intros Hq. unfold found. destruct o as [[p r]|].
  - intros [H1 H2]. split; [destruct H1 as [|(i & ? & ?)]; [by left|right; exists i; rewrite entry_cons; naive_solver]|].
    intros Hr. destruct (H2 Hr) as [H3 H4]. split; [|done]. intros p' j [(-> & Hn & Hd)|]%entry_cons Hj; [|eauto].
    destruct (Hq j Hn Hd) as [[]|(c & Hc & Hle)]; [by split; [|left]|]. specialize (H4 c Hc). lia.
  - intros [-> H2]. split; [done|]. intros p i [(-> & Hn & Hd)|]%entry_cons; [|eauto].
    destruct (Hq i Hn Hd) as [|(c & ? & _)]; done.
Qed.
Lemma found_better q i l candidate o :
  q <> NULL -> deref s q = Ok i -> wanted i -> revision = 0 -> (forall c, candidate = Some c -> c.2 <= img_rid i) ->
  found l (Some (q, img_rid i)) o -> found (q :: l) candidate o.
Proof.
  intros Hn Hd Hw Hr Hc. unfold found. destruct o as [[p r]|]; [|by intros [? _]]. intros [H1 H2]. destruct (H2 Hr) as [H3 H4].
  specialize (H4 _ eq_refl). cbn in H4. split.
  - right. destruct H1 as [[= <- <-]|(j & Hj & ?)]; [exists i|exists j]; rewrite entry_cons; naive_solver.
  - intros _. split; [|intros c Hcc; specialize (Hc c Hcc); lia].
    intros p' j [(-> & _ & Hd')|]%entry_cons ?; [|eauto]. assert (i = j) as <- by congruence. done.
Qed.

Lemma findRevision_found l :
  (forall p, p <> NULL -> p ∈ l -> exists i, deref s p = Ok i) -> (forall p i, entry l p i -> 0 < img_rid i) ->
  forall candidate, (candidate <> None -> revision = 0) ->
  exists o, findRevision s name revision candidate l = Ok o /\ found l candidate o.
Proof.
  induction l as [|q l IH]; intros Hl Hrid candidate Hcand; cbn [findRevision].
  { exists candidate. split; [done|]. assert (forall p i, ~ entry [] p i) as He by (intros p i (_ & Hp & _); by apply not_elem_of_nil in Hp).
    unfold found. destruct candidate as [[p r]|]; [|split; [done|naive_solver]]. split; [by left|]. intros _. split; [naive_solver|by intros ? [= <-]]. }
  specialize (IH ltac:(set_solver) ltac:(intros p i Hi; apply (Hrid p); rewrite entry_cons; auto)).
  destruct (Z.eqb_spec q NULL) as [|Hn]; [destruct (IH candidate Hcand) as (o & -> & Ho); exists o; split; [done|]; by apply found_skip|].
  destruct (Hl q Hn ltac:(set_solver)) as [i Hd]. rewrite Hd. cbn [mbind result_bind].
  specialize (Hrid q i ltac:(rewrite entry_cons; auto)).
  assert (~ wanted i \/ (exists c, candidate = Some c /\ img_rid i <= c.2) ->
    exists o, findRevision s name revision candidate l = Ok o /\ found (q :: l) candidate o) as Hskip.
  { intros Hw. destruct (IH candidate Hcand) as (o & -> & Ho). exists o. split; [done|]. apply found_skip; [|done].
    intros j _ Hd'. assert (i = j) as <- by congruence. done. }
  destruct (String.eqb_spec (img_name i) name) as [En|]; cbn [negb]; [|apply Hskip; left; by intros [? _]].
  destruct (Z.eqb_spec revision (img_rid i)) as [Er|Er].
  { exists (Some (q, img_rid i)). split; [done|]. split; [right; exists i; rewrite entry_cons; unfold wanted; naive_solver|lia]. }
  destruct (Z.eqb_spec revision 0) as [Hz|Hz]; cbn [andb]; [|apply Hskip; left; intros [_ [|]]; congruence].
  set (better := match candidate with Some _ => _ | None => _ end). destruct better eqn:Eb; unfold better in Eb.
  - destruct (IH (Some (q, img_rid i)) ltac:(done)) as (o & -> & Ho). exists o. split; [done|].
    apply (found_better q i); [done..|by split; [|left]|done| |done]. intros [p r] ->. b2p. cbn. lia.
  - apply Hskip. right. destruct candidate as [[p r]|]; [|done]. b2p. by exists (p, r).
Qed.

(** [image_get]: a valid name gets the image of exactly the requested revision, or
    for revision 0 the listed image of that name with the highest revision, and the caller
    is counted as a user of it and of nothing else; there is no result only if no listed
    image fits. *)
Theorem image_get_correct :
  list_alive -> (forall p i, entry (il_images s) p i -> 0 < img_rid i) -> validName name = true ->
  exists o, image_get s name revision = acquire s o
    /\ match o with
       | None => forall p i, entry (il_images s) p i -> img_name i = name -> revision <> 0 /\ img_rid i <> revision
       | Some p => exists i, entry (il_images s) p i /\ img_name i = name
           /\ acquire s o = Ok (store p (img_set_users (img_users i + 1) i) s, Some p)
           /\ (revision <> 0 -> img_rid i = revision)
           /\ (revision = 0 -> forall q j, entry (il_images s) q j -> img_name j = name -> img_rid j <= img_rid i)
       end.
Proof.
  intros Ha Hr Hv. unfold image_get. rewrite Hv. cbn [negb].
  destruct (findRevision_found (il_images s) Ha Hr None ltac:(done)) as (o & -> & Ho). cbn [mbind result_bind].
  exists (fst <$> o). split; [done|]. destruct o as [[p r]|]; cbn in *.
  - destruct Ho as [[|(i & Hi & [Hn Hw] & <-)] H2]; [done|]. exists i. split_and!; [done..| |intros; by destruct Hw|].
    + destruct Hi as (_ & _ & Hd). unfold addUsers. by rewrite Hd.
    + intros Hz. by apply (H2 Hz).
  - destruct Ho as [_ H2]. intros p i Hi Hn. specialize (H2 p i Hi). unfold wanted in H2. naive_solver.
Qed.
End Lookup.

Definition demo_image (name : string) (rid : Z) : dnbd3_image_t :=
  freshImage "/srv/x"%string name None None 0 4096 4096 rid 5 (Ticks 0 0) (Ticks 0 0).
Definition demo_list : image_list :=
  ImageList [100; NULL; 200; 300]
    (<[100 := demo_image "a"%string 1]> (<[200 := demo_image "a"%string 7]> (<[300 := demo_image "b"%string 9]> ∅))) 3 ∅.
Lemma image_get_correct_witness :
  exists o, image_get demo_list "a"%string 0 = acquire demo_list o /\ o = Some 200.
Proof.
  assert (forall p, p ∈ il_images demo_list -> p = 100 \/ p = NULL \/ p = 200 \/ p = 300) as Hl.
  { intros p. unfold demo_list. cbn [il_images]. rewrite !elem_of_cons. intros [|[|[|[|[]%not_elem_of_nil]]]]; auto. }
  destruct (image_get_correct demo_list "a"%string 0) as (o & E & Ho).
  - intros p Hp [->|[->|[->| ->]]]%Hl; [|done|..]; (eexists; vm_compute; reflexivity).
  - intros p i (Hp & [->|[->|[->| ->]]]%Hl & Hd); [|done|..]; vm_compute in Hd; injection Hd as <-; done.
  - by vm_compute.
  - exists o. split; [exact E|]. destruct o as [p|].
    + destruct Ho as (i & (Hp & Hin & Hd) & Hn & _ & _ & H3). specialize (H3 eq_refl 200 (demo_image "a"%string 7)).
      apply Hl in Hin as [->|[->|[->| ->]]]; [|done|done|].
      * vm_compute in Hd. injection Hd as <-. exfalso.
        assert (img_rid (demo_image "a"%string 7) <= 1) as H; [apply H3|by vm_compute in H].
        -- split; [done|]. split; [by apply (bool_decide_eq_true_1 _)|by vm_compute].
        -- done.
      * vm_compute in Hd. injection Hd as <-. done.
    + exfalso. destruct (Ho 200 (demo_image "a"%string 7)) as [H _]; [|done|done].
      split; [done|]. split; [by apply (bool_decide_eq_true_1 _)|by vm_compute].
Defined.
