(* ===== verification/ImageLife.v ===== *)
(** * ImageLife: every interleaving of the operations on the image list

    A [world] is the state of [Images] together with what the threads of the server are
    up to.  [w_held] counts the references handed out by [image_get], [image_byId],
    [image_lock] and the periodic jobs and not yet given to [image_release]; [w_dying] the
    uplinks that are ending, each of which will release its image in [freeUplinkStruct];
    [w_loading] and [w_copying] the images [image_load] and [image_get] build before they
    are in the list; [w_freeing] the threads that have unlocked the list after deciding to
    free an image and are about to call [image_free].  [sv_checking] are the images
    [image_load] has added to the list and still works with, without counting as a user. *)

From S2P Require Import Prelude Timing Types Helper Images.

Open Scope Z_scope.

Record world := World {
  w_list : image_list;
  w_held : gmultiset Z;
  w_dying : gmultiset Z;
  w_loading : gmultiset Z;
  w_copying : gmultiset Z;
  w_freeing : gmultiset Z;
}.
Definition world0 : world := World (ImageList [] ∅ 0 ∅) ∅ ∅ ∅ ∅ ∅.

(** ** What a thread can do next *)

Inductive event :=
| EById (imgId : Z) | EGet (name : string) (revision : Z) | ELock (image : ptr) | ESlot (i : nat)
| EOldest (fromUpstream : string -> bool)
| EUse (image : ptr) | ERelease (image : ptr) | EFree (image : ptr) | ERemove (image : ptr)
| EVanished (i : nat) (imgId : Z) | ETryFreeAll | EKillUplinks | ECloseFds (deadline : ticks)
| ELoad (image : ptr) (path name : string) (cache : option dnbd3_cache_map_t) (crc32 : option (list Z))
    (masterCrc32 realFilesize virtualFilesize rid fd : Z) (now atime : ticks)
| EReload (image copy : ptr) (now : ticks) | EAdd (image : ptr)
| EUplinkInit (image : ptr) (started : bool) | EUplinkExit (image : ptr) | EUplinkFreed (image : ptr).

(** An event happens only if there is somebody to cause it.  With [calm] an uplink does
    not end by itself while a thread is about to free its image. *)
Definition enabled (calm : bool) (w : world) (e : event) : bool :=
  let fresh p := negb (p =? NULL) && bool_decide (il_heap (w_list w) !! p = None) in
  match e with
  | EUse p | ERelease p | ERemove p | EUplinkInit p _ => bool_decide (p ∈ w_held w)
  | EFree p => bool_decide (p ∈ w_freeing w)
  | ELoad p _ _ _ _ _ _ _ _ _ _ _ => fresh p
  | EReload p q _ => bool_decide (p ∈ w_held w) && fresh q
  | EAdd p => bool_decide (p ∈ w_loading w ⊎ w_copying w)
  | EUplinkExit p => bool_decide (p ∈ il_uplink (w_list w)) && negb (calm && bool_decide (p ∈ w_freeing w))
  | EUplinkFreed p => bool_decide (p ∈ w_dying w)
  | _ => true
  end.

Definition one (p : option ptr) : gmultiset Z := match p with Some p => {[+ p +]} | None => ∅ end.
Definition when (b : bool) (p : ptr) : gmultiset Z := if b then {[+ p +]} else ∅.
(** A reference was handed out. *)
Definition hold (w : world) (r : result (image_list * option ptr)) : result world :=
  '(s, p) ← r; Ok (World s (w_held w ⊎ one p) (w_dying w) (w_loading w) (w_copying w) (w_freeing w)).

Definition step (maxImages : Z) (w : world) (e : event) : result world :=
  let '(World s held dying loading copying freeing) := w in
  match e with
  | EById imgId => hold w (image_byId s imgId)
  | EGet name revision => hold w (image_get s name revision)
  | ELock p => hold w (image_lock s p)
  | ESlot i => hold w (takeSlot s i)
  | EOldest fromUpstream => hold w (takeOldest fromUpstream s)
  | EUse p => _ ← deref s p; Ok w
  | ERelease p =>
      '(s, free) ← image_release s p;
      Ok (World s (held ∖ {[+ p +]}) dying loading copying (freeing ⊎ when free p))
  | EUplinkFreed p =>
      '(s, free) ← image_release s p;
      Ok (World s held (dying ∖ {[+ p +]}) loading copying (freeing ⊎ when free p))
  | EFree p =>
      '(s, gone) ← image_free s p;
      Ok (World s held (dying ⊎ when (negb gone) p) loading copying (freeing ∖ {[+ p +]}))
  | ERemove p =>
      '(s, free) ← image_remove s p;
      Ok (World s held dying loading copying (freeing ⊎ when free p))
  | EVanished i imgId =>
      '(s, free) ← dropVanished s i imgId;
      Ok (World s held dying loading copying (freeing ⊎ one free))
  | ETryFreeAll =>
      '(s, waiting, _) ← image_tryFreeAll s;
      Ok (World s held (dying ⊎ list_to_set_disj waiting) loading copying freeing)
  | EKillUplinks =>
      '(s, waiting) ← image_killUplinks s;
      Ok (World s held (dying ⊎ list_to_set_disj waiting) loading copying freeing)
  | ECloseFds deadline => '(s, _) ← closeUnusedFds deadline s; Ok (World s held dying loading copying freeing)
  | ELoad p path name cache crc32 master real virtual rid fd now atime =>
      let i := freshImage path name cache crc32 master real virtual rid fd now atime in
      Ok (World (store p i s) held dying (loading ⊎ {[+ p +]}) copying freeing)
  | EReload p q now =>
      i ← deref s p;
      Ok (World (store q (reloadedImage now i) s) held dying loading (copying ⊎ {[+ q +]}) freeing)
  | EAdd p =>
      '(s, added) ← image_addToList maxImages s p;
      let copied := bool_decide (p ∈ copying) in
      let w := World s held dying (loading ∖ {[+ p +]}) (copying ∖ {[+ p +]}) freeing in
      if (added : bool) then Ok (World s (held ⊎ when copied p) dying (w_loading w) (w_copying w) freeing)
      else
        i ← deref s p;
        '(s, _) ← image_free (store p (img_set_users 0 i) s) p;
        Ok (World s held dying (w_loading w) (w_copying w) freeing)
  | EUplinkInit p started =>
      '(s, failed) ← uplink_attach s p started;
      Ok (World s held (dying ⊎ when failed p) loading copying freeing)
  | EUplinkExit p => s ← uplink_leave s p; Ok (World s held (dying ⊎ {[+ p +]}) loading copying freeing)
  end.

(** ** The server *)

Record server := Server { sv_world : world; sv_checking : gmultiset Z }.
Definition server0 : server := Server world0 ∅.
Inductive action :=
| AList (e : event)                 (* an operation on the list *)
| ACheckLoaded (image : ptr).       (* [image_load], after [image_addToList]: [image_checkRandomBlocks] and the message *)
Definition senabled (calm : bool) (v : server) (a : action) : bool :=
  match a with
  | AList e => enabled calm (sv_world v) e
  | ACheckLoaded p => bool_decide (p ∈ sv_checking v)
  end.
(** What [image_load] has just added. *)
Definition justLoaded (w w' : world) (e : event) : gmultiset Z :=
  if e is EAdd p then when (bool_decide (p ∈ w_loading w) && bool_decide (p ∈ il_images (w_list w'))) p else ∅.
Definition sstep (maxImages : Z) (v : server) (a : action) : result server :=
  match a with
  | AList e =>
      w ← step maxImages (sv_world v) e;
      Ok (Server w (sv_checking v ⊎ justLoaded (sv_world v) w e))
  | ACheckLoaded p =>
      _ ← deref (w_list (sv_world v)) p;
      Ok (Server (sv_world v) (sv_checking v ∖ {[+ p +]}))
  end.
(** A history of actions; one that cannot happen is skipped. *)
Fixpoint run (maxImages : Z) (calm : bool) (v : server) (acts : list action) : result server :=
  match acts with
  | [] => Ok v
  | a :: acts =>
      if senabled calm v a then v ← sstep maxImages v a; run maxImages calm v acts
      else run maxImages calm v acts
  end.
(** How many images are added. *)
Definition isAdd (a : action) : Z := if a is AList (EAdd _) then 1 else 0.
Definition adds (acts : list action) : Z := zsum isAdd acts.

(** ** The invariant *)

(** How often a pointer is in the list; empty slots do not count. *)
Definition occ (p : ptr) (l : list ptr) : Z := zsum (fun q => if negb (q =? NULL) && (q =? p) then 1 else 0) l.
Definition tok (p : ptr) (m : gmultiset Z) : Z := Z.of_nat (multiplicity p m).

Definition has (p : ptr) (u : gset Z) : Z := if decide (p ∈ u) then 1 else 0.

(** What the counts of one pointer say: a freed struct is not known to anybody; the
    counter of an allocated one is exact, the states of its life exclude each other, and
    somebody is responsible for it. *)
Definition ptr_ok (i : option dnbd3_image_t) (listed held dying loading copying freeing uplink : Z) : Prop :=
  match i with
  | None => listed = 0 /\ held = 0 /\ dying = 0 /\ loading = 0 /\ copying = 0 /\ freeing = 0 /\ uplink = 0
  | Some i =>
      img_users i = held + dying + copying
      /\ listed + loading + copying + freeing <= 1
      /\ (0 < loading + copying -> held = 0 /\ dying = 0 /\ uplink = 0)
      /\ (0 < freeing -> held = 0 /\ dying = 0)
      /\ 0 < listed + held + dying + loading + copying + freeing
  end.
Definition counts_ok (w : world) : Prop :=
  forall p,
    ptr_ok (il_heap (w_list w) !! p) (occ p (il_images (w_list w))) (tok p (w_held w)) (tok p (w_dying w))
      (tok p (w_loading w)) (tok p (w_copying w)) (tok p (w_freeing w)) (has p (il_uplink (w_list w))).
(** Listed images have different numbers, none of which was given to another image before. *)
Definition ids_ok (s : image_list) : Prop :=
  (forall p i, 0 < occ p (il_images s) -> il_heap s !! p = Some i -> 1 <= img_id i <= il_counter s)
  /\ (forall p q i j, 0 < occ p (il_images s) -> 0 < occ q (il_images s) ->
        il_heap s !! p = Some i -> il_heap s !! q = Some j -> img_id i = img_id j -> p = q).
Record world_ok (maxImages n : Z) (w : world) : Prop := WorldOk {
  wo_counts : counts_ok w;
  wo_null : il_heap (w_list w) !! NULL = None;
  wo_ids : ids_ok (w_list w);
  wo_counter : 0 <= il_counter (w_list w) <= n;   (* [n] images were added *)
  wo_length : Z.of_nat (length (il_images (w_list w))) <= Z.max 0 maxImages;
}.

(** ** Lists of pointers *)

Lemma occ_nonneg p l : 0 <= occ p l.
Proof. apply zsum_nonneg. intros. by destruct (_ && _). Qed.
Lemma occ_null l : occ NULL l = 0.
Proof. apply zsum_zero. intros i x _. destruct (Z.eqb_spec x NULL) as [->|]; [done|]. by rewrite andb_false_r. Qed.
Lemma occ_app p l k : occ p (l ++ k) = occ p l + occ p k.
Proof. apply zsum_app. Qed.
Lemma occ_pos p l : 0 < occ p l <-> p <> NULL /\ p ∈ l.
Proof.
  destruct (decide (p = NULL)) as [->|Hp]; [rewrite occ_null; split; [lia|by intros [? _]]|].
  induction l as [|q l IH]; [split; [by cbn|intros [_ ?%not_elem_of_nil]; done]|].
  change (occ p (q :: l)) with ((if negb (q =? NULL) && (q =? p) then 1 else 0) + occ p l). rewrite elem_of_cons.
  pose proof (occ_nonneg p l). destruct (Z.eqb_spec q p) as [->|Hq].
  - rewrite (proj2 (Z.eqb_neq _ _) Hp). cbn. split; [auto|lia].
  - rewrite andb_false_r, Z.add_0_l, IH. naive_solver.
Qed.
Lemma occ_insert p l i x y :
  l !! i = Some x -> occ p (<[i := y]> l) = occ p l - occ p [x] + occ p [y].
Proof. intros Hi. unfold occ at 1. rewrite (zsum_insert _ _ _ _ _ Hi). unfold occ. cbn. lia. Qed.
Lemma occ_one p q : occ p [q] = if decide (q = p /\ p <> NULL) then 1 else 0.
Proof.
  unfold occ. cbn. destruct (Z.eqb_spec q p) as [->|]; [|rewrite andb_false_r; by rewrite decide_False by naive_solver].
  rewrite andb_true_r. destruct (Z.eqb_spec p NULL); cbn; [by rewrite decide_False by naive_solver|by rewrite decide_True].
Qed.
Lemma trimAt_occ p i l : occ p (trimAt i l) = occ p l.
Proof.
  unfold trimAt. destruct (_ && _) eqn:E; [|done]. apply andb_true_iff in E as [E L].
  apply bool_decide_eq_true in E. apply Nat.eqb_eq in L.
  rewrite <- (take_drop i l) at 2. rewrite (drop_S _ _ _ E), drop_ge by lia. rewrite occ_app, occ_one.
  rewrite decide_False by naive_solver. lia.
Qed.
Lemma trimAt_length i l : (length (trimAt i l) <= length l)%nat.
Proof. unfold trimAt. destruct (_ && _); [rewrite length_take; lia|done]. Qed.
Lemma removeLoop_other p q n l : q <> p -> occ q (removeLoop p n l) = occ q l.
Proof.
  intros Hq. revert l. induction n as [|n IH]; intros l; [done|]. cbn [removeLoop]. rewrite IH, trimAt_occ.
  case_bool_decide as E; [|done]. rewrite (occ_insert _ _ _ _ _ E), !occ_one, !decide_False by naive_solver. lia.
Qed.
Lemma trimAt_lookup i l j x : trimAt i l !! j = Some x -> l !! j = Some x.
Proof.
  unfold trimAt. destruct (_ && _); [|done]. rewrite lookup_take_Some. by intros [? _].
Qed.
Lemma removeLoop_gone p n l :
  p <> NULL -> (forall j, (n <= j)%nat -> l !! j <> Some p) -> occ p (removeLoop p n l) = 0.
Proof.
  intros Hp. revert l. induction n as [|n IH]; intros l Hl; cbn [removeLoop].
  - pose proof (occ_nonneg p l). assert (~ 0 < occ p l); [|lia]. intros [_ Hin]%occ_pos.
    apply list_elem_of_lookup in Hin as [j Hj]. by apply (Hl j); [lia|].
  - apply IH. intros j Hj Hc%trimAt_lookup. case_bool_decide as E.
    + destruct (decide (j = n)) as [->|].
      * rewrite list_lookup_insert_eq in Hc by (by eapply lookup_lt_Some). naive_solver.
      * rewrite list_lookup_insert_ne in Hc by done. by apply (Hl j); [lia|].
    + destruct (decide (j = n)) as [->|]; [done|]. by apply (Hl j); [lia|].
Qed.
Lemma removeLoop_occ p q l :
  p <> NULL -> occ q (removeLoop p (length l) l) = if decide (q = p) then 0 else occ q l.
Proof.
  intros Hp. destruct (decide (q = p)) as [->|]; [|by apply removeLoop_other].
  apply removeLoop_gone; [done|]. intros j Hj. by rewrite lookup_ge_None_2.
Qed.
Lemma removeLoop_length p n l : (length (removeLoop p n l) <= length l)%nat.
Proof.
  revert l. induction n as [|n IH]; intros l; [done|]. cbn [removeLoop]. etrans; [apply IH|]. etrans; [apply trimAt_length|].
  case_bool_decide; [by rewrite length_insert|done].
Qed.
Lemma firstFree_spec n l k : firstFree n l = Some k -> (n <= k)%nat /\ l !! (k - n)%nat = Some NULL.
Proof.
  revert n. induction l as [|p l IH]; intros n; cbn [firstFree]; [done|]. destruct (Z.eqb_spec p NULL) as [->|].
  - intros [= ->]. by rewrite Nat.sub_diag.
  - intros [H1 H2]%IH. split; [lia|]. by replace (k - n)%nat with (S (k - S n)) by lia.
Qed.

(** ** Tokens *)

Lemma tok_union p m n : tok p (m ⊎ n) = tok p m + tok p n.
Proof. unfold tok. rewrite multiplicity_disj_union. lia. Qed.
Lemma tok_one p q : tok p {[+ q +]} = if decide (p = q) then 1 else 0.
Proof. unfold tok. rewrite multiplicity_singleton. by case_decide. Qed.
Lemma tok_minus p q m : q ∈ m -> tok p (m ∖ {[+ q +]}) = tok p m - (if decide (p = q) then 1 else 0).
Proof.
  unfold tok. rewrite elem_of_multiplicity, multiplicity_difference, multiplicity_singleton. intros Hm. case_decide; [subst|]; lia.
Qed.
Lemma tok_minus_absent p q m : ~ q ∈ m -> tok p (m ∖ {[+ q +]}) = tok p m.
Proof.
  unfold tok. rewrite elem_of_multiplicity, multiplicity_difference, multiplicity_singleton. intros Hm. case_decide; [subst|]; lia.
Qed.
Lemma tok_empty p : tok p ∅ = 0.
Proof. unfold tok. by rewrite multiplicity_empty. Qed.
Lemma tok_nonneg p m : 0 <= tok p m.
Proof. unfold tok. lia. Qed.
Lemma tok_elem p m : p ∈ m <-> 0 < tok p m.
Proof. unfold tok. rewrite elem_of_multiplicity. lia. Qed.
Lemma tok_when p b q : tok p (when b q) = if decide (p = q) then (if b then 1 else 0) else 0.
Proof. destruct b; cbn; [apply tok_one|rewrite tok_empty; by case_decide]. Qed.
Lemma tok_opt p q : tok p (one (Some q)) = if decide (p = q) then 1 else 0.
Proof. apply tok_one. Qed.
Lemma tok_none p : tok p (one None) = 0.
Proof. apply tok_empty. Qed.
Lemma has_drop p q (u : gset Z) : has q (u ∖ {[p]}) = if decide (q = p) then 0 else has q u.
Proof. unfold has. repeat case_decide; set_solver. Qed.
Lemma has_add p q (u : gset Z) : has q (u ∪ {[p]}) = if decide (q = p) then 1 else has q u.
Proof. unfold has. repeat case_decide; set_solver. Qed.
Lemma has_nonneg q u : 0 <= has q u.
Proof. unfold has. by case_decide. Qed.
Create Rewrite HintDb counts.
#[global] Arguments occ : simpl never.
#[global] Arguments tok : simpl never.
#[global] Arguments has : simpl never.
#[local] Hint Rewrite tok_union tok_one tok_when tok_opt tok_none tok_empty has_drop has_add trimAt_occ : counts.

(** Compute the counts of a pointer [q] after a change at [p]. *)
Ltac count_at q p :=
  destruct (decide (q = p)) as [->|?];
  [rewrite ?lookup_insert_eq, ?lookup_delete_eq|rewrite ?lookup_insert_ne, ?lookup_delete_ne by congruence];
  autorewrite with counts; rewrite ?decide_True by done; rewrite ?decide_False by done.
(** Bring in that counts are not negative. *)
Ltac nonneg :=
  repeat match goal with
  | |- context [tok ?p ?m] => lazymatch goal with _ : 0 <= tok p m |- _ => fail | _ => pose proof (tok_nonneg p m) end
  | |- context [occ ?p ?m] => lazymatch goal with _ : 0 <= occ p m |- _ => fail | _ => pose proof (occ_nonneg p m) end
  | _ : context [tok ?p ?m] |- _ => lazymatch goal with _ : 0 <= tok p m |- _ => fail | _ => pose proof (tok_nonneg p m) end
  | _ : context [occ ?p ?m] |- _ => lazymatch goal with _ : 0 <= occ p m |- _ => fail | _ => pose proof (occ_nonneg p m) end
  | _ : context [has ?p ?m] |- _ => lazymatch goal with _ : 0 <= has p m |- _ => fail | _ => pose proof (has_nonneg p m) end
  end.

(** Decide a claim about the counts of one pointer. *)
Ltac ptr_lia := cbn in *; nonneg; lia.

(** The same for a claim that also speaks of the struct behind the pointer. *)
Ltac users_lia := nonneg; split_and!; [lia..|]; intros; simplify_eq; lia.

Section Steps.
Context (maxImages cnt : Z).
Abbreviation wok := (world_ok maxImages cnt).

Lemma listed_alive w p : wok w -> 0 < occ p (il_images (w_list w)) -> exists i, il_heap (w_list w) !! p = Some i.
Proof.
  intros [Hc _ _ _ _] Hl. specialize (Hc p). destruct (il_heap (w_list w) !! p) as [i|]; [by exists i|].
  cbn in Hc. lia.
Qed.
Lemma alive_deref w p i : wok w -> il_heap (w_list w) !! p = Some i -> deref (w_list w) p = Ok i.
Proof.
  intros Hw Hp. unfold deref. destruct (Z.eqb_spec p NULL) as [->|]; [by rewrite (wo_null _ _ _ Hw) in Hp|]. by rewrite Hp.
Qed.
Lemma slot_listed s k p : il_images s !! k = Some p -> p <> NULL -> 0 < occ p (il_images s).
Proof. intros Hk Hp. apply occ_pos. split; [done|]. by eapply list_elem_of_lookup_2. Qed.
Lemma held_alive w p : wok w -> p ∈ w_held w -> exists i, il_heap (w_list w) !! p = Some i /\ deref (w_list w) p = Ok i.
Proof.
  intros Hw Hp%tok_elem. pose proof (wo_counts _ _ _ Hw p) as Hc. destruct (il_heap (w_list w) !! p) as [i|] eqn:E.
  - exists i. split; [done|]. by apply alive_deref.
  - cbn in Hc. lia.
Qed.

(** *** Handing out a reference *)

(** A lookup that counts its caller as a user of a listed image, or finds nothing. *)
Definition acquires (s : image_list) (r : result (image_list * option ptr)) : Prop :=
  r = Ok (s, None)
  \/ exists p i, 0 < occ p (il_images s) /\ il_heap s !! p = Some i
       /\ r = Ok (store p (img_set_users (img_users i + 1) i) s, Some p).

(** Changing fields other than the number keeps the numbers in order. *)
Lemma ids_store s p i j : ids_ok s -> il_heap s !! p = Some i -> img_id j = img_id i -> ids_ok (store p j s).
Proof.
  intros [H1 H2] Hp Hj. split; cbn.
  - intros q k Hq Hk. destruct (decide (q = p)) as [->|]; [|rewrite lookup_insert_ne in Hk by done; eauto].
    rewrite lookup_insert_eq in Hk. injection Hk as <-. rewrite Hj. eauto.
  - assert (forall q k, <[p := j]> (il_heap s) !! q = Some k -> exists k', il_heap s !! q = Some k' /\ img_id k' = img_id k) as HH.
    { intros q k Hk. destruct (decide (q = p)) as [->|]; [|rewrite lookup_insert_ne in Hk by done; eauto].
      rewrite lookup_insert_eq in Hk. injection Hk as <-. eauto. }
    intros q r k k' Hq Hr (a & Ha & Ea)%HH (b & Hb & Eb)%HH He. apply (H2 q r a b); try done. congruence.
Qed.
(** Fewer entries keep the numbers in order. *)
Lemma ids_fewer s l u :
  ids_ok s -> (forall q, 0 < occ q l -> 0 < occ q (il_images s)) -> ids_ok (ImageList l (il_heap s) (il_counter s) u).
Proof. intros [H1 H2] Hl. split; cbn; eauto. Qed.

Lemma acquire_world w r :
  wok w -> acquires (w_list w) r -> exists w', hold w r = Ok w' /\ wok w'.
Proof.
  intros Hw [->|(p & i & Hl & Hp & ->)]; cbn.
  - eexists. split; [done|]. destruct Hw as [Hc ?? ??]. split; try done. intros q. specialize (Hc q). cbn.
    autorewrite with counts. by rewrite Z.add_0_r.
  - eexists. split; [done|]. destruct Hw as [Hc Hn Hi ??]. split; cbn; try done.
    + intros q. specialize (Hc q). cbn. count_at q p; rewrite ?Z.add_0_r; [|done]. rewrite Hp in Hc. ptr_lia.
    + rewrite lookup_insert_ne; [done|]. intros ->. by rewrite Hn in Hp.
    + by eapply ids_store.
Qed.

(** *** Giving references back and freeing *)

Lemma release_world w p held dying :
  wok w -> 0 < tok p (w_held w) + tok p (w_dying w) ->
  (forall q, tok q held + tok q dying = tok q (w_held w) + tok q (w_dying w) - if decide (q = p) then 1 else 0) ->
  exists s free, image_release (w_list w) p = Ok (s, free)
    /\ wok (World s held dying (w_loading w) (w_copying w) (w_freeing w ⊎ when free p)).
Proof.
  intros Hw Hp Hq. pose proof (wo_counts _ _ _ Hw p) as Hcp. destruct (il_heap (w_list w) !! p) as [i|] eqn:Ei; [|ptr_lia].
  assert (p <> NULL) as Hn by (intros ->; by rewrite (wo_null _ _ _ Hw) in Ei).
  unfold image_release. rewrite (proj2 (Z.eqb_neq _ _) Hn), (alive_deref _ _ _ Hw Ei). cbn [mbind result_bind].
  assert (0 < img_users i) as Hu by ptr_lia. unfold assert_. rewrite (proj2 (Z.ltb_lt _ _) Hu). cbn [mbind result_bind].
  set (s' := store p _ _). set (free := negb (bool_decide (p ∈ il_images s'))).
  exists s', (if img_users i - 1 =? 0 then free else false). split; [by destruct (_ =? 0)|].
  assert (free = true <-> occ p (il_images (w_list w)) = 0) as Hfree.
  { unfold free. rewrite negb_true_iff, bool_decide_eq_false. pose proof (occ_pos p (il_images (w_list w))). nonneg.
    change (il_images s') with (il_images (w_list w)). split; [intros|intros ? ?]; [|naive_solver lia].
    assert (~ 0 < occ p (il_images (w_list w))) by naive_solver. lia. }
  destruct Hw as [Hc Hnull Hi Hct Hl]. split; cbn; try done; [|by rewrite lookup_insert_ne|by eapply ids_store].
  intros q. specialize (Hc q). specialize (Hq q). cbn. count_at q p.
  - destruct (Z.eqb_spec (img_users i - 1) 0) as [Hz|Hz]; [destruct free|]; cbn in *; nonneg.
    + destruct Hfree as [Hfree _]. specialize (Hfree eq_refl). lia.
    + assert (occ p (il_images (w_list w)) <> 0) by (intros Hzero; apply Hfree in Hzero; done). lia.
    + lia.
  - destruct (il_heap (w_list w) !! q) as [j|]; ptr_lia.
Qed.

(** [image_free] on an image nobody uses any more. *)
Lemma image_free_ok w p i :
  wok w -> il_heap (w_list w) !! p = Some i -> img_users i = 0 -> forall l,
  image_free (il_set_images l (w_list w)) p
  = if decide (p ∈ il_uplink (w_list w))
    then Ok (ImageList l (<[p := img_set_users 1 i]> (il_heap (w_list w))) (il_counter (w_list w)) (il_uplink (w_list w) ∖ {[p]}), false)
    else Ok (ImageList l (delete p (il_heap (w_list w))) (il_counter (w_list w)) (il_uplink (w_list w)), true).
Proof.
  intros Hw Ei Hu l. assert (p <> NULL) as Hn by (intros ->; by rewrite (wo_null _ _ _ Hw) in Ei).
  assert (deref (il_set_images l (w_list w)) p = Ok i) as Hd.
  { unfold deref. rewrite (proj2 (Z.eqb_neq _ _) Hn). cbn. by rewrite Ei. }
  unfold image_free, uplink_shutdown, addUsers. rewrite !Hd. cbn [mbind result_bind]. rewrite Hu. cbn.
  case_bool_decide; [by rewrite decide_True by done|by rewrite decide_False by done].
Qed.
Lemma free_world w p :
  wok w -> p ∈ w_freeing w -> exists s gone, image_free (w_list w) p = Ok (s, gone)
    /\ wok (World s (w_held w) (w_dying w ⊎ when (negb gone) p) (w_loading w) (w_copying w) (w_freeing w ∖ {[+ p +]})).
Proof.
  intros Hw Hp. pose proof Hp as Ht%tok_elem. pose proof (wo_counts _ _ _ Hw p) as Hcp.
  destruct (il_heap (w_list w) !! p) as [i|] eqn:Ei; [|ptr_lia].
  assert (p <> NULL) as Hn by (intros ->; by rewrite (wo_null _ _ _ Hw) in Ei).
  assert (img_users i = 0) as Hu by ptr_lia.
  pose proof (image_free_ok w p i Hw Ei Hu (il_images (w_list w))) as HF.
  replace (il_set_images (il_images (w_list w)) (w_list w)) with (w_list w) in HF by by destruct (w_list w). rewrite HF. clear HF.
  destruct Hw as [Hc Hnull Hi Hct Hl]. destruct (decide (p ∈ il_uplink (w_list w))) as [Hin|Hin]; eexists _, _; (split; [done|]).
  - split; cbn; try done; [|by rewrite lookup_insert_ne|].
    + intros q. specialize (Hc q). cbn. count_at q p; rewrite (tok_minus _ _ _ Hp).
      * rewrite decide_True by done. ptr_lia.
      * rewrite decide_False by done. by rewrite Z.add_0_r, Z.sub_0_r.
    + apply (ids_fewer (store p (img_set_users 1 i) (w_list w))); [by eapply ids_store|done].
  - assert (has p (il_uplink (w_list w)) = 0) by (unfold has; by rewrite decide_False).
    split; cbn; try done; [|by rewrite lookup_delete_ne|].
    + intros q. specialize (Hc q). cbn. count_at q p; rewrite (tok_minus _ _ _ Hp).
      * rewrite decide_True by done. ptr_lia.
      * rewrite decide_False by done. by rewrite Z.add_0_r, Z.sub_0_r.
    + destruct Hi as [H1 H2]. split; cbn; intros *; rewrite ?lookup_delete_Some; naive_solver.
Qed.

(** *** Taking entries out of the list *)

(** A world in which only the list got shorter. *)
Lemma fewer_world w l freeing :
  wok w -> (length l <= length (il_images (w_list w)))%nat ->
  (forall q, occ q l <= occ q (il_images (w_list w))
     /\ tok q freeing - tok q (w_freeing w) <= occ q (il_images (w_list w)) - occ q l
     /\ tok q (w_freeing w) <= tok q freeing
     /\ (forall i, il_heap (w_list w) !! q = Some i -> occ q l < occ q (il_images (w_list w)) ->
          (img_users i = 0 <-> tok q (w_freeing w) < tok q freeing))) ->
  wok (World (il_set_images l (w_list w)) (w_held w) (w_dying w) (w_loading w) (w_copying w) freeing).
Proof.
  intros [Hc Hn Hi Hct Hl] Hlen Hq. split; cbn; try done; [| |lia].
  - intros q. specialize (Hc q). destruct (Hq q) as (H1 & H2 & H3 & H4). cbn.
    destruct (il_heap (w_list w) !! q) as [i|]; cbn in *; [|nonneg; lia]. specialize (H4 i eq_refl). nonneg.
    destruct (decide (occ q l = occ q (il_images (w_list w)))); [lia|]. destruct H4; lia.
  - apply (ids_fewer (w_list w)); [done|]. intros q Hocc. destruct (Hq q). lia.
Qed.
Lemma remove_world w p :
  wok w -> p ∈ w_held w -> exists s free, image_remove (w_list w) p = Ok (s, free)
    /\ wok (World s (w_held w) (w_dying w) (w_loading w) (w_copying w) (w_freeing w ⊎ when free p)).
Proof.
  intros Hw Hp. destruct (held_alive w p Hw Hp) as (i & Ei & Ed). pose proof (wo_counts _ _ _ Hw p) as Hcp. rewrite Ei in Hcp.
  apply tok_elem in Hp. assert (p <> NULL) as Hn by (intros ->; by rewrite (wo_null _ _ _ Hw) in Ei).
  assert (0 < img_users i) as Hu by ptr_lia. unfold image_remove. rewrite Ed. cbn [mbind result_bind].
  rewrite (proj2 (Z.eqb_neq (img_users i) 0)) by lia.
  eexists _, false. split; [by case_bool_decide|]. apply fewer_world; [done|apply removeLoop_length|].
  intros q. rewrite removeLoop_occ by done. count_at q p; users_lia.
Qed.
Lemma vanished_world w k imgId :
  wok w -> exists s free, dropVanished (w_list w) k imgId = Ok (s, free)
    /\ wok (World s (w_held w) (w_dying w) (w_loading w) (w_copying w) (w_freeing w ⊎ one free)).
Proof.
  intros Hw. assert (wok (World (w_list w) (w_held w) (w_dying w) (w_loading w) (w_copying w) (w_freeing w ⊎ one None))) as Hsame.
  { replace (w_freeing w ⊎ one None) with (w_freeing w) by multiset_solver. by destruct w. }
  unfold dropVanished. destruct (il_images (w_list w) !! k) as [p|] eqn:Ek; [|eauto].
  destruct (Z.eqb_spec p NULL) as [|Hn]; [eauto|].
  pose proof (slot_listed _ _ _ Ek Hn) as Hocc.
  destruct (listed_alive w p Hw Hocc) as [i Ei]. rewrite (alive_deref _ _ _ Hw Ei). cbn [mbind result_bind].
  destruct (negb _); [eauto|]. eexists _, _. split; [done|]. pose proof (wo_counts _ _ _ Hw p) as Hcp. rewrite Ei in Hcp.
  apply fewer_world; [done|etrans; [apply trimAt_length|by rewrite length_insert]|].
  intros q. rewrite trimAt_occ, (occ_insert _ _ _ _ _ Ek), !occ_one. rewrite (decide_False (P := NULL = q /\ _)) by naive_solver.
  destruct (decide (q = p)) as [->|].
  - rewrite decide_True by done. destruct (Z.eqb_spec (img_users i) 0); autorewrite with counts; rewrite ?decide_True by done;
      cbn in Hcp; users_lia.
  - rewrite decide_False by naive_solver. destruct (_ =? 0); autorewrite with counts; rewrite ?decide_False by done; users_lia.
Qed.

(** *** The loops that shut everything down *)

(** A step of [image_tryFreeAll] on an image without users. *)
Lemma free_listed_world w k p i :
  wok w -> il_images (w_list w) !! k = Some p -> p <> NULL -> il_heap (w_list w) !! p = Some i -> img_users i = 0 ->
  exists s gone, image_free (il_set_images (<[k := NULL]> (il_images (w_list w))) (w_list w)) p = Ok (s, gone)
    /\ wok (World s (w_held w) (w_dying w ⊎ when (negb gone) p) (w_loading w) (w_copying w) (w_freeing w)).
Proof.
  intros Hw Ek Hn Ei Hu.
  pose proof (slot_listed _ _ _ Ek Hn) as Hocc.
  set (l := <[k := NULL]> _).
  assert (wok (World (il_set_images l (w_list w)) (w_held w) (w_dying w) (w_loading w) (w_copying w) (w_freeing w ⊎ {[+ p +]}))) as Hw'.
  { pose proof (wo_counts _ _ _ Hw p) as Hcp. rewrite Ei in Hcp. apply fewer_world; [done|unfold l; by rewrite length_insert|].
    intros q. unfold l. rewrite (occ_insert _ _ _ _ _ Ek), !occ_one, (decide_False (P := NULL = q /\ _)) by naive_solver.
    count_at q p; cbn in Hcp; rewrite ?decide_False by naive_solver; users_lia. }
  destruct (free_world _ p Hw' ltac:(cbn; multiset_solver)) as (s & gone & E & Hs). exists s, gone. split; [exact E|].
  cbn in Hs. by replace ((w_freeing w ⊎ {[+ p +]}) ∖ {[+ p +]}) with (w_freeing w) in Hs by multiset_solver.
Qed.
Lemma trim_world w k : wok w -> wok (World (il_set_images (trimAt k (il_images (w_list w))) (w_list w)) (w_held w) (w_dying w) (w_loading w) (w_copying w) (w_freeing w)).
Proof. intros Hw. apply fewer_world; [done|apply trimAt_length|]. intros q. rewrite trimAt_occ. users_lia. Qed.
Lemma tryFree_world n w :
  wok w -> exists s waiting, tryFreeLoop n (w_list w) = Ok (s, waiting)
    /\ wok (World s (w_held w) (w_dying w ⊎ list_to_set_disj waiting) (w_loading w) (w_copying w) (w_freeing w)).
Proof.
  revert w. induction n as [|k IH]; intros w Hw; cbn [tryFreeLoop].
  { exists (w_list w), []. split; [done|]. cbn. replace (w_dying w ⊎ ∅) with (w_dying w) by multiset_solver. by destruct w. }
  set (first := match il_images (w_list w) !! k with Some _ => _ | None => _ end).
  assert (exists s waiting, first = Ok (s, waiting)
    /\ wok (World s (w_held w) (w_dying w ⊎ list_to_set_disj waiting) (w_loading w) (w_copying w) (w_freeing w))) as (s & waiting & -> & Hs).
  { assert (wok (World (w_list w) (w_held w) (w_dying w ⊎ list_to_set_disj []) (w_loading w) (w_copying w) (w_freeing w))) as Hsame.
    { cbn. replace (w_dying w ⊎ ∅) with (w_dying w) by multiset_solver. by destruct w. }
    unfold first. clear first. destruct (il_images (w_list w) !! k) as [p|] eqn:Ek; [|eauto].
    destruct (Z.eqb_spec p NULL) as [|Hn]; [eauto|].
    destruct (listed_alive w p Hw (slot_listed _ _ _ Ek Hn)) as [i Ei].
    rewrite (alive_deref _ _ _ Hw Ei). cbn [mbind result_bind]. destruct (Z.eqb_spec (img_users i) 0) as [Hu|]; [|eauto].
    destruct (free_listed_world w k p i Hw Ek Hn Ei Hu) as (s & gone & -> & Hs). cbn [mbind result_bind]. eexists _, _. split; [done|].
    destruct gone; [exact Hs|]. by rewrite list_to_set_disj_cons, list_to_set_disj_nil, (right_id_L ∅ (⊎)). }
  cbn [mbind result_bind]. apply (trim_world _ k) in Hs. cbn in Hs. destruct (IH _ Hs) as (s' & more & E & Hs'). cbn in E, Hs'.
  rewrite E. cbn [mbind result_bind]. eexists _, _. split; [done|]. rewrite list_to_set_disj_app.
  by replace (w_dying w ⊎ (list_to_set_disj waiting ⊎ list_to_set_disj more))
    with (w_dying w ⊎ list_to_set_disj waiting ⊎ list_to_set_disj more) by multiset_solver.
Qed.
(** *** Uplinks *)

(** An image gets a user more for an uplink that ends. *)
Lemma dying_world w p i u :
  wok w -> il_heap (w_list w) !! p = Some i -> tok p (w_freeing w) = 0 -> tok p (w_loading w) + tok p (w_copying w) = 0 ->
  (forall q, has q u <= has q (il_uplink (w_list w))) ->
  wok (World (il_set_uplink u (store p (img_set_users (img_users i + 1) i) (w_list w))) (w_held w) (w_dying w ⊎ {[+ p +]})
         (w_loading w) (w_copying w) (w_freeing w)).
Proof.
  intros [Hc Hn Hi Hct Hl] Ei Hf Hlc Hu. split; cbn; try done.
  - intros q. specialize (Hc q). specialize (Hu q). cbn. count_at q p; [rewrite Ei in Hc; ptr_lia|].
    destruct (il_heap (w_list w) !! q) as [j|]; ptr_lia.
  - rewrite lookup_insert_ne; [done|]. intros ->. by rewrite Hn in Ei.
  - apply (ids_fewer (store p (img_set_users (img_users i + 1) i) (w_list w))); [by eapply ids_store|done].
Qed.
Lemma has_drop_le p u q : has q (u ∖ {[p]}) <= has q u.
Proof. rewrite has_drop. pose proof (has_nonneg q u). case_decide; lia. Qed.
Lemma shutdown_world w p :
  wok w -> 0 < occ p (il_images (w_list w)) -> exists s gone, uplink_shutdown (w_list w) p = Ok (s, gone)
    /\ il_images s = il_images (w_list w)
    /\ wok (World s (w_held w) (w_dying w ⊎ when (negb gone) p) (w_loading w) (w_copying w) (w_freeing w)).
Proof.
  intros Hw Hocc. destruct (listed_alive w p Hw Hocc) as [i Ei]. pose proof (alive_deref _ _ _ Hw Ei) as Ed.
  unfold uplink_shutdown, addUsers. rewrite !Ed. cbn [mbind result_bind]. case_bool_decide.
  - eexists _, _. split_and!; [done..|]. pose proof (wo_counts _ _ _ Hw p) as Hcp. rewrite Ei in Hcp.
    apply (dying_world w p i); [done..|ptr_lia|ptr_lia|apply has_drop_le].
  - eexists _, _. split_and!; [done..|]. cbn. replace (w_dying w ⊎ ∅) with (w_dying w) by multiset_solver. by destruct w.
Qed.
Lemma kill_world l w :
  wok w -> (forall p, p ∈ l -> p ∈ il_images (w_list w)) ->
  exists s waiting, killLoop l (w_list w) = Ok (s, waiting)
    /\ wok (World s (w_held w) (w_dying w ⊎ list_to_set_disj waiting) (w_loading w) (w_copying w) (w_freeing w)).
Proof.
  revert w. induction l as [|p l IH]; intros w Hw Hl; cbn [killLoop].
  { exists (w_list w), []. split; [done|]. cbn. replace (w_dying w ⊎ ∅) with (w_dying w) by multiset_solver. by destruct w. }
  destruct (Z.eqb_spec p NULL) as [|Hn]; [apply IH; [done|set_solver]|].
  destruct (shutdown_world w p Hw) as (s & gone & -> & Es & Hs); [apply occ_pos; set_solver|]. cbn [mbind result_bind].
  destruct (IH _ Hs) as (s' & more & E & Hs'); [cbn; rewrite Es; set_solver|]. cbn in E, Hs'. rewrite E. cbn [mbind result_bind].
  eexists _, _. split; [done|]. rewrite list_to_set_disj_app, (assoc_L (⊎)).
  destruct gone; [exact Hs'|]. by rewrite list_to_set_disj_cons, list_to_set_disj_nil, (right_id_L ∅ (⊎)).
Qed.
Lemma attach_world w p started :
  wok w -> p ∈ w_held w -> exists s failed, uplink_attach (w_list w) p started = Ok (s, failed)
    /\ wok (World s (w_held w) (w_dying w ⊎ when failed p) (w_loading w) (w_copying w) (w_freeing w)).
Proof.
  intros Hw Hp. destruct (held_alive w p Hw Hp) as (i & Ei & Ed). apply tok_elem in Hp.
  pose proof (wo_counts _ _ _ Hw p) as Hcp. rewrite Ei in Hcp.
  assert (wok (World (w_list w) (w_held w) (w_dying w ⊎ when false p) (w_loading w) (w_copying w) (w_freeing w))) as Hsame.
  { cbn. replace (w_dying w ⊎ ∅) with (w_dying w) by multiset_solver. by destruct w. }
  unfold uplink_attach, addUsers. rewrite !Ed. cbn [mbind result_bind]. case_bool_decide; [eauto|].
  destruct (img_cacheMap i); [|eauto]. destruct started; (eexists _, _; split; [done|]).
  - destruct Hsame as [Hc Hn Hi Hct Hl]. split; cbn in *; try done.
    intros q. specialize (Hc q). cbn in *. autorewrite with counts in *. count_at q p; [rewrite Ei in *; ptr_lia|done].
  - pose proof (dying_world w p i (il_uplink (w_list w)) Hw Ei) as H'. apply H'; [ptr_lia|ptr_lia|done].
Qed.
Lemma leave_world w p :
  wok w -> p ∈ il_uplink (w_list w) -> ~ p ∈ w_freeing w -> exists s, uplink_leave (w_list w) p = Ok s
    /\ wok (World s (w_held w) (w_dying w ⊎ {[+ p +]}) (w_loading w) (w_copying w) (w_freeing w)).
Proof.
  intros Hw Hin Hf. pose proof (wo_counts _ _ _ Hw p) as Hcp. assert (has p (il_uplink (w_list w)) = 1) as Hh by (unfold has; by rewrite decide_True).
  rewrite tok_elem in Hf. destruct (il_heap (w_list w) !! p) as [i|] eqn:Ei; [|ptr_lia].
  unfold uplink_leave, addUsers. rewrite (alive_deref _ _ _ Hw Ei). cbn [mbind result_bind]. eexists. split; [done|].
  apply (dying_world w p i); [done..|ptr_lia|ptr_lia|apply has_drop_le].
Qed.

(** *** Closing descriptors *)

Lemma close_world deadline l : forall room w,
  wok w -> (forall p, p ∈ l -> p ∈ il_images (w_list w)) ->
  exists s fds, closeLoop deadline room l (w_list w) = Ok (s, fds)
    /\ wok (World s (w_held w) (w_dying w) (w_loading w) (w_copying w) (w_freeing w)).
Proof.
  induction l as [|p l IH]; intros room w Hw Hl; cbn [closeLoop].
  { exists (w_list w), []. split; [done|]. by destruct w. }
  assert (forall p, p ∈ l -> p ∈ il_images (w_list w)) as Hl' by set_solver.
  destruct (Z.eqb_spec p NULL) as [|Hn]; [by apply IH|].
  destruct (listed_alive w p Hw) as [i Ei]; [apply occ_pos; set_solver|]. rewrite (alive_deref _ _ _ Hw Ei). cbn [mbind result_bind].
  destruct (_ =? -1); [by apply IH|]. destruct (_ && _ && _); [|by apply IH].
  set (s := store p _ _).
  assert (wok (World s (w_held w) (w_dying w) (w_loading w) (w_copying w) (w_freeing w))) as Hs.
  { destruct Hw as [Hc Hnull Hi Hct Hlen]. split; cbn; try done; [|by rewrite lookup_insert_ne|by eapply ids_store].
    intros q. specialize (Hc q). cbn. count_at q p; [|done]. by rewrite Ei in Hc. }
  destruct room as [|[|room]]; [eauto..|]. destruct (IH (S room) _ Hs Hl') as (s' & fds & E & Hs').
  cbn [w_list] in E. rewrite E. cbn [mbind result_bind]. eauto.
Qed.
(** *** Building an image and adding it *)

Lemma ids_unlisted s p j : ids_ok s -> occ p (il_images s) = 0 -> ids_ok (store p j s).
Proof.
  intros [H1 H2] Hp. assert (forall q, 0 < occ q (il_images s) -> q <> p) as Hne by (intros q Hq ->; lia).
  split; cbn; [intros q k Hq|intros q r k k' Hq Hr]; rewrite !lookup_insert_ne by (symmetry; auto); eauto.
Qed.
Lemma built_world w p j loading copying :
  wok w -> p <> NULL -> il_heap (w_list w) !! p = None ->
  (forall q, tok q loading = tok q (w_loading w) + (if decide (q = p) then 1 - img_users j else 0)) ->
  (forall q, tok q copying = tok q (w_copying w) + (if decide (q = p) then img_users j else 0)) ->
  wok (World (store p j (w_list w)) (w_held w) (w_dying w) loading copying (w_freeing w)).
Proof.
  intros Hw Hn Ei Hlo Hco. pose proof (wo_counts _ _ _ Hw p) as Hcp. rewrite Ei in Hcp. cbn in Hcp.
  destruct Hw as [Hc Hnull Hi Hct Hl]. split; cbn; try done; [|by rewrite lookup_insert_ne|apply ids_unlisted; [done|lia]].
  intros q. specialize (Hc q). specialize (Hlo q). specialize (Hco q). cbn. count_at q p.
  - pose proof (tok_nonneg p loading). pose proof (tok_nonneg p copying). ptr_lia.
  - by rewrite Hlo, Hco, !Z.add_0_r.
Qed.

(** The image list after [image_addToList] took the image. *)
Definition added (s s' : image_list) (p : ptr) (i : dnbd3_image_t) : Prop :=
  il_heap s' = <[p := img_set_id (il_counter s + 1) i]> (il_heap s) /\ il_counter s' = il_counter s + 1
  /\ il_uplink s' = il_uplink s /\ (forall q, occ q (il_images s') = occ q (il_images s) + if decide (q = p) then 1 else 0)
  /\ Z.of_nat (length (il_images s')) <= Z.max (Z.of_nat (length (il_images s))) maxImages.
Lemma addToList_ok s p i :
  deref s p = Ok i -> p <> NULL -> il_counter s < 2 ^ 31 - 1 ->
  (exists s', image_addToList maxImages s p = Ok (s', true) /\ added s s' p i)
  \/ image_addToList maxImages s p
     = Ok (ImageList (il_images s) (<[p := img_set_id (il_counter s + 1) i]> (il_heap s)) (il_counter s + 1) (il_uplink s), false).
Proof.
  intros Hd Hn Hct. unfold image_addToList. rewrite Hd. cbn [mbind result_bind]. rewrite (proj2 (Z.leb_gt _ _) Hct). cbn. destruct (firstFree 0 (il_images s)) as [k|] eqn:Ek.
  - left. eexists. split; [done|]. apply firstFree_spec in Ek as [_ Ek]. rewrite Nat.sub_0_r in Ek. split_and!; cbn; [done..| |].
    + intros q. rewrite (occ_insert _ _ _ _ _ Ek), !occ_one, (decide_False (P := NULL = q /\ _)) by naive_solver.
      destruct (decide (q = p)) as [->|]; [rewrite decide_True by done|rewrite decide_False by naive_solver]; lia.
    + rewrite length_insert. lia.
  - destruct (Z.leb_spec maxImages (Z.of_nat (length (il_images s)))); [by right|]. left. eexists. split; [done|]. split_and!; cbn; [done..| |].
    + intros q. rewrite occ_app, occ_one. destruct (decide (q = p)) as [->|]; [rewrite decide_True by done|rewrite decide_False by naive_solver]; lia.
    + rewrite length_app. cbn. lia.
Qed.
Lemma added_world w s' p i held loading copying :
  wok w -> p <> NULL -> il_heap (w_list w) !! p = Some i -> il_counter (w_list w) < 2 ^ 31 - 1 -> added (w_list w) s' p i ->
  tok p (w_loading w) + tok p (w_copying w) = 1 ->
  (forall q, tok q held = tok q (w_held w) + if decide (q = p) then tok p (w_copying w) else 0) ->
  (forall q, tok q loading = if decide (q = p) then 0 else tok q (w_loading w)) ->
  (forall q, tok q copying = if decide (q = p) then 0 else tok q (w_copying w)) ->
  world_ok maxImages (cnt + 1) (World s' held (w_dying w) loading copying (w_freeing w)).
Proof.
  intros Hw Hn Ei Hct' (Eh & Ec & Eu & Eo & El) Hlc Hhe Hlo Hco. pose proof (wo_counts _ _ _ Hw p) as Hcp. rewrite Ei in Hcp.
  destruct Hw as [Hc Hnull [H1 H2] Hct Hl]. split; cbn.
  - intros q. specialize (Hc q). cbn. rewrite Eh, Eu, Eo, Hhe, Hlo, Hco. count_at q p; [ptr_lia|by rewrite !Z.add_0_r].
  - by rewrite Eh, lookup_insert_ne.
  - assert (forall q k, 0 < occ q (il_images s') -> il_heap s' !! q = Some k ->
      if decide (q = p) then img_id k = il_counter (w_list w) + 1
      else 0 < occ q (il_images (w_list w)) /\ il_heap (w_list w) !! q = Some k /\ 1 <= img_id k <= il_counter (w_list w)) as HH.
    { intros q k. rewrite Eo, Eh. destruct (decide (q = p)) as [->|]; [rewrite lookup_insert_eq; by intros _ [= <-]|].
      rewrite lookup_insert_ne, Z.add_0_r by done. eauto. }
    split; [intros q k Hq Hk; specialize (HH q k Hq Hk); rewrite Ec; case_decide; lia|].
    intros q r k k' Hq Hr Hk Hk' He. pose proof (HH q k Hq Hk) as A. pose proof (HH r k' Hr Hk') as B.
    destruct (decide (q = p)), (decide (r = p)); [congruence|lia|lia|]. destruct A as (?&?&?), B as (?&?&?). eauto.
  - lia.
  - lia.
Qed.
Lemma elem_token p (m : gmultiset Z) : tok p m = 0 -> ~ p ∈ m.
Proof. rewrite tok_elem. lia. Qed.
(** Taking the only token of a pointer. *)
Lemma tok_clear p q m : tok p m <= 1 -> tok q (m ∖ {[+ p +]}) = if decide (q = p) then 0 else tok q m.
Proof.
  intros Hm. unfold tok in *. rewrite multiplicity_difference, multiplicity_singleton. case_decide; [subst|]; lia.
Qed.

Lemma add_world w p :
  wok w -> p ∈ w_loading w ⊎ w_copying w -> il_counter (w_list w) < 2 ^ 31 - 1 ->
  exists w', step maxImages w (EAdd p) = Ok w' /\ world_ok maxImages (cnt + 1) w'.
Proof.
  intros Hw Hp Hct. apply tok_elem in Hp. rewrite tok_union in Hp.
  pose proof (wo_counts _ _ _ Hw p) as Hcp. destruct (il_heap (w_list w) !! p) as [i|] eqn:Ei; [|ptr_lia].
  assert (p <> NULL) as Hn by (intros ->; by rewrite (wo_null _ _ _ Hw) in Ei).
  assert (tok p (w_loading w) + tok p (w_copying w) = 1 /\ tok p (w_loading w) <= 1 /\ tok p (w_copying w) <= 1) as (Hlc & Hlo & Hco) by ptr_lia.
  destruct w as [s held dying loading copying freeing]. cbn in *.
  destruct (addToList_ok s p i (alive_deref _ _ _ Hw Ei) Hn Hct) as [(s' & E & Ha)|E]; rewrite E; cbn [mbind result_bind].
  - eexists. split; [done|]. apply (added_world _ s' p i _ _ _ Hw Hn Ei Hct Ha Hlc); cbn; intros q; [|by apply tok_clear..].
    autorewrite with counts. destruct (decide (q = p)) as [->|]; [|done]. f_equal.
    case_bool_decide as Hb; apply tok_elem in Hb || rewrite tok_elem in Hb; nonneg; lia.
  - unfold deref. rewrite (proj2 (Z.eqb_neq _ _) Hn). cbn [il_heap]. rewrite lookup_insert_eq. cbn [mbind result_bind].
    set (i0 := img_set_users 0 _). set (s0 := ImageList _ _ _ _).
    assert (~ p ∈ il_uplink s) as Hup by (intros ?; assert (has p (il_uplink s) = 1) by (unfold has; by rewrite decide_True); ptr_lia).
    assert (deref (store p i0 s0) p = Ok i0) as Hd.
    { unfold deref. rewrite (proj2 (Z.eqb_neq _ _) Hn). cbn. by rewrite lookup_insert_eq. }
    unfold image_free, uplink_shutdown. rewrite Hd. cbn [mbind result_bind]. change (img_users i0) with 0. cbn [assert_ Z.eqb mbind result_bind].
    rewrite (bool_decide_eq_false_2 (p ∈ _)) by done. cbn [mbind result_bind]. eexists. split; [done|].
    destruct Hw as [Hc Hnull Hi Hcnt Hl]. split; cbn in *; [| | |lia|done].
    + intros q. specialize (Hc q). cbn in *. rewrite !tok_clear by done. rewrite !insert_insert_eq, delete_insert_eq.
      count_at q p; [|done]. assert (has p (il_uplink s) = 0) by (unfold has; by rewrite decide_False). ptr_lia.
    + rewrite !insert_insert_eq, delete_insert_eq. by rewrite lookup_delete_ne.
    + rewrite !insert_insert_eq, delete_insert_eq. destruct Hi as [H1 H2].
      split; cbn; intros *; rewrite ?lookup_delete_Some; [intros Hq [_ Hk]; specialize (H1 _ _ Hq Hk); lia|naive_solver].
Qed.
(** *** Every lookup hands out a listed image *)

Section Lookups.
Context (s : image_list) (Halive : forall q, 0 < occ q (il_images s) -> exists i, il_heap s !! q = Some i /\ deref s q = Ok i).

Lemma acquire_listed o : (forall p, o = Some p -> 0 < occ p (il_images s)) -> acquires s (acquire s o).
Proof.
  intros Ho. destruct o as [p|]; [|by left]. right. specialize (Ho p eq_refl). destruct (Halive p Ho) as (i & Ei & Ed).
  exists p, i. split_and!; [done..|]. cbn. unfold addUsers. by rewrite Ed.
Qed.
Lemma findImage_listed test l :
  (forall q, q ∈ l -> q ∈ il_images s) ->
  exists o, findImage test s l = Ok o /\ forall p, o = Some p -> 0 < occ p (il_images s).
Proof.
  induction l as [|q l IH]; intros Hl; cbn [findImage]; [by exists None|].
  destruct (IH ltac:(set_solver)) as (o & Eo & Ho). destruct (Z.eqb_spec q NULL) as [|Hq]; [eauto|].
  assert (0 < occ q (il_images s)) as Hocc by (apply occ_pos; set_solver).
  destruct (Halive q Hocc) as (i & _ & ->). cbn [mbind result_bind]. destruct (test i); [|eauto]. eexists. split; [done|]. by intros ? [= <-].
Qed.
Lemma findRevision_listed name revision l : forall candidate,
  (forall q, q ∈ l -> q ∈ il_images s) -> (forall c, candidate = Some c -> 0 < occ c.1 (il_images s)) ->
  exists o, findRevision s name revision candidate l = Ok o /\ forall c, o = Some c -> 0 < occ c.1 (il_images s).
Proof.
  induction l as [|q l IH]; intros candidate Hl Hc; cbn [findRevision]; [by exists candidate|].
  assert (forall q, q ∈ l -> q ∈ il_images s) as Hl' by set_solver. destruct (Z.eqb_spec q NULL) as [|Hq]; [eauto|].
  assert (0 < occ q (il_images s)) as Hocc by (apply occ_pos; set_solver).
  destruct (Halive q Hocc) as (i & _ & ->). cbn [mbind result_bind]. destruct (negb _); [eauto|].
  assert (forall c, Some (q, img_rid i) = Some c -> 0 < occ c.1 (il_images s)) by (by intros ? [= <-]).
  destruct (_ =? img_rid i); [eauto|]. destruct (_ && _); eauto.
Qed.
Lemma findOldest_listed fromUpstream l : forall oldest,
  (forall q, q ∈ l -> q ∈ il_images s) -> (forall c, oldest = Some c -> 0 < occ c.1 (il_images s)) ->
  exists o, findOldest fromUpstream s oldest l = Ok o /\ forall c, o = Some c -> 0 < occ c.1 (il_images s).
Proof.
  induction l as [|q l IH]; intros oldest Hl Hc; cbn [findOldest]; [by exists oldest|].
  assert (forall q, q ∈ l -> q ∈ il_images s) as Hl' by set_solver. destruct (Z.eqb_spec q NULL) as [|Hq]; [eauto|].
  assert (0 < occ q (il_images s)) as Hocc by (apply occ_pos; set_solver).
  destruct (Halive q Hocc) as (i & _ & ->). cbn [mbind result_bind]. destruct (negb (_ =? 0)); [eauto|].
  assert (forall c, Some (q, img_atime i) = Some c -> 0 < occ c.1 (il_images s)) by (by intros ? [= <-]).
  set (older := match oldest with Some _ => _ | None => _ end). destruct older; [eauto|]. destruct (negb _); eauto.
Qed.
Lemma fst_listed (A : Type) (o : option (ptr * A)) :
  (forall c, o = Some c -> 0 < occ c.1 (il_images s)) -> forall p, fst <$> o = Some p -> 0 < occ p (il_images s).
Proof. intros Ho p. destruct o as [c|]; [|done]. intros [= <-]. by apply Ho. Qed.

Lemma image_byId_acquires imgId : acquires s (image_byId s imgId).
Proof.
  unfold image_byId. destruct (findImage_listed (fun i => img_id i =? imgId) (il_images s) ltac:(done)) as (o & -> & Ho).
  by apply acquire_listed.
Qed.
Lemma image_get_acquires name revision : acquires s (image_get s name revision).
Proof.
  unfold image_get. destruct (negb _); [by left|].
  destruct (findRevision_listed name revision (il_images s) None ltac:(done) ltac:(done)) as (o & -> & Ho).
  apply acquire_listed. by eapply fst_listed.
Qed.
Lemma takeOldest_acquires fromUpstream : acquires s (takeOldest fromUpstream s).
Proof.
  unfold takeOldest. destruct (findOldest_listed fromUpstream (il_images s) None ltac:(done) ltac:(done)) as (o & -> & Ho).
  apply acquire_listed. by eapply fst_listed.
Qed.
Lemma image_lock_acquires p : acquires s (image_lock s p).
Proof.
  unfold image_lock. destruct (Z.eqb_spec p NULL) as [|Hn]; [by left|]. apply acquire_listed. intros q.
  case_bool_decide; [|done]. intros [= <-]. by apply occ_pos.
Qed.
Lemma takeSlot_acquires k : acquires s (takeSlot s k).
Proof.
  unfold takeSlot. destruct (il_images s !! k) as [p|] eqn:Ek; [|by left]. apply acquire_listed. intros q.
  destruct (Z.eqb_spec p NULL); [done|]. intros [= <-]. by eapply slot_listed.
Qed.
End Lookups.

(** ** Every event keeps the invariant *)

Lemma wok_more k w : wok w -> cnt <= k -> world_ok maxImages k w.
Proof. intros [? ? ? ? ?] Hk. split; [done..|lia|done]. Qed.
Lemma step_ok w e :
  wok w -> enabled true w e = true -> cnt + isAdd (AList e) < 2 ^ 31 ->
  exists w', step maxImages w e = Ok w' /\ world_ok maxImages (cnt + isAdd (AList e)) w'.
Proof.
  intros Hw He Hn. destruct (decide (isAdd (AList e) = 1)) as [Hadd|Hadd].
  { destruct e; try done. cbn [enabled] in He. apply bool_decide_eq_true in He. apply add_world; [done..|].
    pose proof (wo_counter _ _ _ Hw). cbn in Hn. lia. }
  assert (isAdd (AList e) = 0) as -> by (by destruct e). rewrite Z.add_0_r. clear Hn.
  assert (forall r, acquires (w_list w) r -> exists w', hold w r = Ok w' /\ wok w') as Hhold by (intros; by apply acquire_world).
  assert (forall q, 0 < occ q (il_images (w_list w)) -> exists i, il_heap (w_list w) !! q = Some i /\ deref (w_list w) q = Ok i) as Ha.
  { intros q Hq. destruct (listed_alive w q Hw Hq) as [i Ei]. exists i. split; [done|]. by apply alive_deref. }
  destruct w as [s held dying loading copying freeing].
  destruct e; cbn [enabled w_held w_freeing w_dying w_list] in He; b2p;
    repeat match goal with H : bool_decide _ = true |- _ => apply bool_decide_eq_true in H end; cbn [step].
  - by apply Hhold, image_byId_acquires.
  - by apply Hhold, image_get_acquires.
  - by apply Hhold, image_lock_acquires.
  - by apply Hhold, takeSlot_acquires.
  - by apply Hhold, takeOldest_acquires.
  - destruct (held_alive _ _ Hw He) as (i & _ & E). cbn [w_list] in E. rewrite E. cbn. eauto.
  - destruct (release_world _ image (held ∖ {[+ image +]}) dying Hw) as (s' & free & E & Hs); [| |cbn [w_list] in E; rewrite E; cbn; eauto].
    + apply tok_elem in He. ptr_lia.
    + intros q. cbn. rewrite tok_minus by done. lia.
  - destruct (free_world _ image Hw He) as (s' & gone & E & Hs). cbn [w_list] in E. rewrite E. cbn; eauto.
  - destruct (remove_world _ image Hw He) as (s' & gone & E & Hs). cbn [w_list] in E. rewrite E. cbn; eauto.
  - destruct (vanished_world _ i imgId Hw) as (s' & free & E & Hs). cbn [w_list] in E. rewrite E. cbn; eauto.
  - unfold image_tryFreeAll. destruct (tryFree_world (length (il_images s)) _ Hw) as (s' & waiting & E & Hs). cbn [w_list] in E.
    rewrite E. cbn; eauto.
  - destruct (kill_world (il_images s) _ Hw ltac:(done)) as (s' & waiting & E & Hs). unfold image_killUplinks. cbn [w_list] in E.
    rewrite E. cbn; eauto.
  - destruct (close_world deadline (il_images s) FDCOUNT _ Hw ltac:(done)) as (s' & fds & E & Hs). unfold closeUnusedFds. cbn [w_list] in E.
    rewrite E. cbn; eauto.
  - eexists. split; [done|]. apply (built_world _ _ _ _ _ Hw); cbn; [done..| |]; intros q; autorewrite with counts; case_decide; lia.
  - destruct (held_alive _ _ Hw ltac:(eassumption)) as (i & _ & E). cbn [w_list] in E. rewrite E. cbn.
    eexists. split; [done|]. apply (built_world _ _ _ _ _ Hw); cbn; [done..| |]; intros q; autorewrite with counts; case_decide; lia.
  - done.
  - destruct (attach_world _ image started Hw He) as (s' & failed & E & Hs). cbn [w_list] in E. rewrite E. cbn; eauto.
  - destruct (leave_world _ image Hw ltac:(done)) as (s' & E & Hs).
    + cbn in *. intros Hf. by rewrite bool_decide_eq_true_2 in * by done.
    + cbn [w_list] in E. rewrite E. cbn; eauto.
  - destruct (release_world _ image held (dying ∖ {[+ image +]}) Hw) as (s' & free & E & Hs); [| |cbn [w_list] in E; rewrite E; cbn; eauto].
    + apply tok_elem in He. ptr_lia.
    + intros q. cbn. rewrite tok_minus by done. lia.
Qed.
Lemma world0_ok : 0 <= cnt -> wok world0.
Proof.
  intros Hn. split; cbn; [|done|split; cbn; intros; by rewrite lookup_empty in *|lia|lia].
  intros p. cbn. rewrite lookup_empty. cbn. unfold has. rewrite decide_False by set_solver. by rewrite tok_empty.
Qed.
End Steps.

(** [image_load] is about to check an image that was freed meanwhile. *)
Definition checks_freed (v : server) (p : ptr) : Prop := p ∈ sv_checking v /\ deref (w_list (sv_world v)) p = Fault UseAfterFree.
Definition server_ok (maxImages n : Z) (v : server) : Prop :=
  world_ok maxImages n (sv_world v) /\ forall p, p ∈ sv_checking v -> p <> NULL.
Lemma sstep_ok maxImages n v a :
  server_ok maxImages n v -> senabled true v a = true -> n + isAdd a < 2 ^ 31 ->
  (exists v', sstep maxImages v a = Ok v' /\ server_ok maxImages (n + isAdd a) v')
  \/ (sstep maxImages v a = Fault UseAfterFree /\ exists p, a = ACheckLoaded p /\ checks_freed v p).
Proof.
  intros [Hw Hc] He Hn. destruct a as [e|p]; cbn [senabled sstep] in *.
  - left. destruct (step_ok _ _ _ _ Hw He Hn) as (w' & -> & Hw'). cbn [mbind result_bind]. eexists. split; [done|]. split; [exact Hw'|].
    cbn [sv_checking]. intros p [|Hp]%gmultiset_elem_of_disj_union; [by apply Hc|]. unfold justLoaded, when in Hp.
    destruct e; try (by apply gmultiset_not_elem_of_empty in Hp). destruct (_ && _) eqn:E; [|by apply gmultiset_not_elem_of_empty in Hp].
    apply gmultiset_elem_of_singleton in Hp as ->. b2p. intros ->.
    match goal with H : bool_decide (NULL ∈ w_loading _) = true |- _ => apply bool_decide_eq_true, tok_elem in H end.
    pose proof (wo_counts _ _ _ Hw NULL) as Hnl. rewrite (wo_null _ _ _ Hw) in Hnl. cbn in Hnl. lia.
  - apply bool_decide_eq_true in He. destruct (il_heap (w_list (sv_world v)) !! p) as [i|] eqn:Ei.
    + left. rewrite (alive_deref _ _ _ _ _ Hw Ei). eexists. split; [done|]. split; [eapply wok_more; [exact Hw|cbn; lia]|].
      cbn [sv_checking]. intros q Hq. apply Hc. multiset_solver.
    + right. assert (deref (w_list (sv_world v)) p = Fault UseAfterFree) as Hd by (unfold deref; by rewrite (proj2 (Z.eqb_neq _ _) (Hc p He)), Ei).
      split; [by rewrite Hd|]. by exists p.
Qed.
Lemma run_ok maxImages acts : forall n v, server_ok maxImages n v -> n + adds acts < 2 ^ 31 ->
  (exists v', run maxImages true v acts = Ok v' /\ server_ok maxImages (n + adds acts) v')
  \/ (run maxImages true v acts = Fault UseAfterFree
      /\ exists before p after v1, acts = before ++ ACheckLoaded p :: after /\ run maxImages true v before = Ok v1
           /\ server_ok maxImages (n + adds before) v1 /\ checks_freed v1 p).
Proof.
  induction acts as [|a acts IH]; intros n v Hv Hn; cbn [run].
  { left. exists v. split; [done|]. unfold adds. cbn. by rewrite Z.add_0_r. }
  assert (adds (a :: acts) = isAdd a + adds acts) as Ea by done.
  assert (0 <= isAdd a) by (by destruct a as [[]|]). assert (0 <= adds acts) by (apply zsum_nonneg; intros k x _; by destruct x as [[]|]).
  assert (forall m v1, server_ok maxImages m v1 -> m <= n + isAdd a -> (forall l, run maxImages true v (a :: l) = run maxImages true v1 l) ->
    (exists v', run maxImages true v1 acts = Ok v' /\ server_ok maxImages (n + adds (a :: acts)) v')
    \/ (run maxImages true v1 acts = Fault UseAfterFree
        /\ exists before p after v2, a :: acts = before ++ ACheckLoaded p :: after /\ run maxImages true v before = Ok v2
             /\ server_ok maxImages (n + adds before) v2 /\ checks_freed v2 p)) as Hgo.
  { intros m v1 [Hw1 Hc1] Hm E. assert (server_ok maxImages (n + isAdd a) v1) as Hv1 by (split; [by eapply wok_more|done]).
    destruct (IH _ _ Hv1 ltac:(lia)) as [(v' & Er & Hv')|(Er & before & p & after & v2 & -> & Hr & Hv2 & Hf)].
    - left. exists v'. split; [done|]. by rewrite Ea, Z.add_assoc.
    - right. split; [done|]. exists (a :: before), p, after, v2. rewrite E. split_and!; try done.
      change (adds (a :: before)) with (isAdd a + adds before). by rewrite Z.add_assoc. }
  destruct (senabled true v a) eqn:He; [|apply (Hgo n); [done|lia|]; intros l; cbn [run]; by rewrite He].
  destruct (sstep_ok _ _ _ _ Hv He ltac:(lia)) as [(v1 & E & Hv1)|(E & p & -> & Hf)]; rewrite E; cbn [mbind result_bind].
  - apply (Hgo (n + isAdd a)); [done|lia|]. intros l. cbn [run]. by rewrite He, E.
  - right. split; [done|]. exists [], p, acts, v. split_and!; try done. unfold adds. cbn. by rewrite Z.add_0_r.
Qed.
Lemma server0_ok maxImages : server_ok maxImages 0 server0.
Proof. split; [by apply world0_ok|]. cbn. intros p Hp. by apply gmultiset_not_elem_of_empty in Hp. Qed.

(** ** The theorems *)

(** Nobody works with the list. *)
Definition idle (w : world) : Prop :=
  w_held w = ∅ /\ w_dying w = ∅ /\ w_loading w = ∅ /\ w_copying w = ∅ /\ w_freeing w = ∅.

(** Listed images and images in use exist, [users] is the number of references that were handed out and not returned, an image
    is listed once, its number is unique, the list is not longer than its limit, and when nobody works with the list no image is
    left over outside of it. *)
Definition images_ok (maxImages : Z) (w : world) : Prop :=
  (forall p, p <> NULL -> p ∈ il_images (w_list w) -> exists i, deref (w_list w) p = Ok i)
  /\ (forall p, p ∈ w_held w ⊎ w_dying w -> exists i, deref (w_list w) p = Ok i)
  /\ (forall p i, deref (w_list w) p = Ok i -> img_users i = tok p (w_held w) + tok p (w_dying w) + tok p (w_copying w))
  /\ (forall p, occ p (il_images (w_list w)) <= 1)
  /\ (forall p q i j, p <> NULL -> q <> NULL -> p ∈ il_images (w_list w) -> q ∈ il_images (w_list w) ->
        deref (w_list w) p = Ok i -> deref (w_list w) q = Ok j -> img_id i = img_id j -> p = q)
  /\ Z.of_nat (length (il_images (w_list w))) <= Z.max 0 maxImages
  /\ (idle w -> forall p i, deref (w_list w) p = Ok i -> p ∈ il_images (w_list w)).
Lemma world_images_ok maxImages n w : world_ok maxImages n w -> images_ok maxImages w.
Proof.
  intros Hw.
  assert (forall p i, deref (w_list w) p = Ok i -> il_heap (w_list w) !! p = Some i) as Hd.
  { intros p i. unfold deref. destruct (_ =? NULL); [done|]. destruct (_ !! p); naive_solver. }
  pose proof (wo_counts _ _ _ Hw) as Hc. unfold images_ok. split_and!.
  - intros p Hn Hp. destruct (listed_alive _ _ w p Hw) as [i Ei]; [by apply occ_pos|]. exists i. by eapply alive_deref.
  - intros p Hp%tok_elem. rewrite tok_union in Hp. specialize (Hc p).
    destruct (il_heap (w_list w) !! p) as [i|] eqn:Ei; [|ptr_lia]. exists i. by eapply alive_deref.
  - intros p i Hp%Hd. specialize (Hc p). rewrite Hp in Hc. ptr_lia.
  - intros p. specialize (Hc p). destruct (il_heap (w_list w) !! p); ptr_lia.
  - intros p q i j Hp Hq Hpl Hql Hi%Hd Hj%Hd Hid. destruct (wo_ids _ _ _ Hw) as [_ H2].
    apply (H2 p q i j); [by apply occ_pos..|done|done|done].
  - apply Hw.
  - intros (E1 & E2 & E3 & E4 & E5) p i Hp%Hd. specialize (Hc p). rewrite Hp, E1, E2, E3, E4, E5, !tok_empty in Hc.
    apply (occ_pos p). ptr_lia.
Qed.

(** C9. The life of an image, for every order in which the threads work on the image list with fewer than 2^31 additions to it
    (the numbers of the images are a signed counter), as long as no uplink ends by itself in the moment its image is being
    freed: no function of the list touches an image that was freed, fails an assertion or frees an image twice, with one
    exception, [image_load] going on to check an image it has added without counting as a user, and that was removed and freed
    meanwhile.  In every state before that, an image that is listed or in use exists, its [users] is the number of references
    handed out and not returned (plus the uplinks that still have to let go), it is listed once, its number is
    unique, the list never grows beyond its limit, and when nobody works with the list no image is left over outside of it. *)
Theorem image_lifetime_safe maxImages acts :
  adds acts < 2 ^ 31 ->
  (exists v, run maxImages true server0 acts = Ok v /\ images_ok maxImages (sv_world v))
  \/ (run maxImages true server0 acts = Fault UseAfterFree
      /\ exists before p after v, acts = before ++ ACheckLoaded p :: after /\ run maxImages true server0 before = Ok v
           /\ images_ok maxImages (sv_world v) /\ checks_freed v p).
Proof.
  intros Hn. destruct (run_ok maxImages acts 0 server0 (server0_ok _) Hn) as [(v & E & [Hw _])|(E & before & p & after & v & Ea & Er & [Hw _] & Hf)].
  - left. exists v. split; [done|]. by eapply world_images_ok.
  - right. split; [done|]. exists before, p, after, v. split_and!; try done. by eapply world_images_ok.
Qed.

(** The image of the example: one client, one uplink. *)
Definition demo_load (p : ptr) (rid : Z) : event :=
  ELoad p "/srv/a.r1"%string "a"%string (Some (CacheMapT false false [0])) None 0 4096 4096 rid 7 (Ticks 0 0) (Ticks 0 0).
Definition race_events : list action :=
  AList <$> [demo_load 100 1; EAdd 100; EGet "a"%string 0; EUplinkInit 100 true; EVanished 0 1;
   ERelease 100; EUplinkExit 100; EUplinkFreed 100; EFree 100; EFree 100].
(** The restriction is needed: if the last client of an image that is no longer
    listed lets go, and the uplink thread of the image ends by itself (it was idle for
    too long) before that client's thread has called [image_free], both of them free the
    image. *)
Theorem uplink_exit_race : run SERVER_MAX_IMAGES false server0 race_events = Fault UseAfterFree.
Proof. vm_compute. reflexivity. Qed.

(** The exception exists: the file of an image vanishes while [image_load] is checking the image it has just added. *)
Definition loaded_race : list action := [AList (demo_load 100 1); AList (EAdd 100); AList (EVanished 0 1); AList (EFree 100); ACheckLoaded 100].
Theorem loaded_image_freed_while_checked : run SERVER_MAX_IMAGES true server0 loaded_race = Fault UseAfterFree.
Proof. vm_compute. reflexivity. Qed.
Lemma image_lifetime_safe_witness :
  exists v, run SERVER_MAX_IMAGES true server0 (take 8 race_events ++ [ACheckLoaded 100]) = Ok v /\ images_ok SERVER_MAX_IMAGES (sv_world v)
    /\ il_images (w_list (sv_world v)) = [] /\ w_held (sv_world v) = ∅.
Proof.
  destruct (image_lifetime_safe SERVER_MAX_IMAGES (take 8 race_events ++ [ACheckLoaded 100])) as [(v & E & Hv)|[E _]].
  - vm_compute. reflexivity.
  - exists v. split; [exact E|]. split; [exact Hv|]. vm_compute in E. injection E as <-. split; reflexivity.
  - exfalso. vm_compute in E. discriminate E.
Defined.

(** *** Shutting down *)

Lemma idle_users w maxImages n p i :
  world_ok maxImages n w -> idle w -> il_heap (w_list w) !! p = Some i -> img_users i = 0.
Proof.
  intros Hw (E1 & E2 & _ & E4 & _) Ei. pose proof (wo_counts _ _ _ Hw p) as Hc. rewrite Ei, E1, E2, E4, !tok_empty in Hc. ptr_lia.
Qed.
Lemma tryFree_idle maxImages m n : forall s,
  world_ok maxImages m (World s ∅ ∅ ∅ ∅ ∅) -> il_uplink s = ∅ -> (length (il_images s) <= n)%nat ->
  exists s', tryFreeLoop n s = Ok (s', []) /\ il_images s' = [] /\ world_ok maxImages m (World s' ∅ ∅ ∅ ∅ ∅).
Proof.
  induction n as [|k IH]; intros s Hw Hu Hn; cbn [tryFreeLoop].
  { exists s. split; [done|]. split; [by apply nil_length_inv; lia|done]. }
  assert (forall s1, world_ok maxImages m (World s1 ∅ ∅ ∅ ∅ ∅) -> il_uplink s1 = ∅ -> (length (il_images s1) <= S k)%nat ->
    (forall p, il_images s1 !! k = Some p -> p = NULL) ->
    exists s', ('(s, more) ← tryFreeLoop k (il_set_images (trimAt k (il_images s1)) s1); Ok (s, [] ++ more)) = Ok (s', [])
      /\ il_images s' = [] /\ world_ok maxImages m (World s' ∅ ∅ ∅ ∅ ∅)) as Hrest.
  { intros s1 Hw1 Hu1 Hn1 Hk. destruct (IH (il_set_images (trimAt k (il_images s1)) s1)) as (s' & -> & H1 & H2);
      [by apply (trim_world _ _ _ k) in Hw1|done| |by exists s'].
    cbn. unfold trimAt. destruct (decide (length (il_images s1) = S k)) as [El|]; [|destruct (_ && _); rewrite ?length_take; lia].
    destruct (lookup_lt_is_Some_2 (il_images s1) k ltac:(lia)) as [p Ep]. pose proof (Hk p Ep) as ->.
    rewrite bool_decide_eq_true_2 by done. rewrite El, Nat.eqb_refl. cbn. rewrite length_take. lia. }
  destruct (il_images s !! k) as [p|] eqn:Ek; [|apply (Hrest s); [done..|by rewrite Ek]].
  destruct (Z.eqb_spec p NULL) as [->|Hp]; [apply (Hrest s); [done..|rewrite Ek; congruence]|].
  destruct (listed_alive _ _ _ p Hw (slot_listed _ _ _ Ek Hp)) as [i Ei].
  pose proof (alive_deref _ _ _ _ _ Hw Ei) as Ed. cbn [w_list] in Ei, Ed. rewrite Ed. cbn [mbind result_bind].
  pose proof (idle_users _ _ _ _ _ Hw ltac:(done) Ei) as Hz. rewrite Hz. cbn [Z.eqb].
  destruct (free_listed_world _ _ _ k p i Hw Ek Hp Ei Hz) as (s' & gone & E & Hs').
  pose proof (image_free_ok _ _ _ _ _ Hw Ei Hz (<[k := NULL]> (il_images s))) as E2. cbn [w_list] in E, E2.
  rewrite decide_False in E2 by (rewrite Hu; set_solver). rewrite E2 in *. cbn [mbind result_bind]. injection E as <- <-.
  cbn [negb when] in Hs'. replace (w_dying (World s ∅ ∅ ∅ ∅ ∅) ⊎ ∅) with (∅ : gmultiset Z) in Hs' by multiset_solver.
  apply Hrest; [exact Hs'|done|cbn; by rewrite length_insert|]. cbn. intros q.
  rewrite list_lookup_insert_eq by (by eapply lookup_lt_Some). congruence.
Qed.

(** Shutting down: once nobody uses an image and all uplinks have ended,
    [image_tryFreeAll] empties the list, reports success and leaves no image behind. *)
Theorem image_tryFreeAll_complete maxImages acts v :
  adds acts < 2 ^ 31 -> run maxImages true server0 acts = Ok v -> let w := sv_world v in idle w -> il_uplink (w_list w) = ∅ ->
  exists s, image_tryFreeAll (w_list w) = Ok (s, [], true) /\ il_images s = [] /\ il_heap s = ∅.
Proof.
  intros Hn Er w Hi Hu. destruct (run_ok maxImages acts 0 server0 (server0_ok _) Hn) as [(v' & Ew & Hw & _)|[E _]]; [|by rewrite Er in E].
  rewrite Er in Ew. injection Ew as <-. unfold w in *. clear w. destruct v as [w checking]. cbn [sv_world] in *. destruct w as [s held dying loading copying freeing]. destruct Hi as (E1 & E2 & E3 & E4 & E5). cbn in *. subst.
  destruct (tryFree_idle maxImages _ (length (il_images s)) s Hw Hu ltac:(done)) as (s' & E & Hl & Hw'). exists s'.
  unfold image_tryFreeAll. cbn [w_list]. rewrite E. cbn [mbind result_bind]. rewrite Hl. split_and!; [done..|].
  apply map_empty. intros p. destruct (il_heap s' !! p) as [i|] eqn:Ei; [|done].
  pose proof (wo_counts _ _ _ Hw' p) as Hc. cbn in Hc. rewrite Ei, Hl, !tok_empty in Hc. change (occ p []) with 0 in Hc. ptr_lia.
Qed.
Lemma image_tryFreeAll_complete_witness :
  exists w s, run SERVER_MAX_IMAGES true server0
      (race_events ++ (AList <$> [EUplinkFreed 100; EFree 100; demo_load 200 2; EAdd 200; demo_load 300 3; EAdd 300])) = Ok w
    /\ il_images (w_list (sv_world w)) = [200; 300]
    /\ image_tryFreeAll (w_list (sv_world w)) = Ok (s, [], true) /\ il_images s = [] /\ il_heap s = ∅.
Proof.
  assert (exists w, run SERVER_MAX_IMAGES true server0
      (race_events ++ (AList <$> [EUplinkFreed 100; EFree 100; demo_load 200 2; EAdd 200; demo_load 300 3; EAdd 300])) = Ok w
    /\ idle (sv_world w) /\ il_uplink (w_list (sv_world w)) = ∅ /\ il_images (w_list (sv_world w)) = [200; 300]) as (w & Er & Hi & Hu & Hl).
  { eexists. split; [vm_compute; reflexivity|]. unfold idle. split_and!; vm_compute; reflexivity. }
  assert (adds (race_events ++ (AList <$> [EUplinkFreed 100; EFree 100; demo_load 200 2; EAdd 200; demo_load 300 3; EAdd 300])) < 2 ^ 31) as Hn
    by (vm_compute; reflexivity).
  destruct (image_tryFreeAll_complete SERVER_MAX_IMAGES _ w Hn Er Hi Hu) as (s & Hs). exists w, s. split; [exact Er|]. split; [exact Hl|exact Hs].
Defined.
