(* ===== verification/Net.v ===== *)
(** * Net: serving clients, [src/server/net.c]

    The requests of one client are handled one after the other by its thread; the
    uplink's thread answers relayed requests through [uplinkCallback].  What is sent to
    the client is the list of bytes written to its socket. *)

From S2P Require Import Prelude Timing Types Helper CacheMap Uplink UplinkIO UplinkTrace AltServers Wire.

(** ** The list of clients *)

(** The array [_clients] up to [_num_clients]; an entry is a client or [NULL]. *)
Fixpoint addScanClients (l : list ptr) (client : ptr) : option (list ptr) :=
  match l with
  | [] => None
  | c :: r => if c =? NULL then Some (client :: r)
              else match addScanClients r client with Some r' => Some (c :: r') | None => None end
  end.
Definition addToList (maxClients : Z) (clients : list ptr) (client : ptr) : list ptr * bool :=
  match addScanClients clients client with
  | Some l => (l, true)
  | None => if maxClients <=? Z.of_nat (length clients) then (clients, false) else (clients ++ [client], true)
  end.

(** [for (i = n - 1; i >= 0; --i) if (_clients[i] == client) break;] *)
Fixpoint findClient (n : nat) (clients : list ptr) (client : ptr) : option nat :=
  match n with
  | O => None
  | S i => if bool_decide (clients !! i = Some client) then Some i else findClient i clients client
  end.
(** [do i--; while (_clients[i] == NULL && i > 0);] *)
Fixpoint lastUsed (i : nat) (clients : list ptr) : nat :=
  match i with
  | O => O
  | S i' => if bool_decide (clients !! i' = Some NULL) && (0 <? i')%nat then lastUsed i' clients else i'
  end.
Definition removeFromList (clients : list ptr) (client : ptr) : list ptr :=
  match findClient (length clients) clients client with
  | None => clients
  | Some i =>
      let clients := <[i := NULL]> clients in
      if negb (i =? 0)%nat && (i + 1 =? length clients)%nat then take (S (lastUsed i clients)) clients
      else clients
  end.

(** [net_getStats] over the clients that have an image. *)
Record client_stats := ClientStats { cs_isServer : bool; cs_bytesSent : Z }.
Definition net_getStats (info : ptr -> option client_stats) (totalBytesSent : Z) (clients : list ptr) : Z * Z * Z :=
  foldl (fun '(cc, sc, bs) c =>
           if c =? NULL then (cc, sc, bs)
           else match info c with
                | None => (cc, sc, bs)
                | Some s => (if cs_isServer s then cc else cc + 1, if cs_isServer s then sc + 1 else sc,
                             u64 (bs + cs_bytesSent s))
                end) (0, 0, totalBytesSent) clients.

(** ** Receiving a request *)

Definition SOCKET_TIMEOUT_CLIENT_RETRIES : Z := 3.

(** What [recv] returns: the header, or a short or failed read and [errno]. *)
Inductive rerr := EINTR | EAGAIN | EOTHER.
Inductive hdr_recv := HdrFull (bytes : list Z) | HdrShort (errno : rerr) | HdrFail (errno : rerr).
Fixpoint recvHeader (script : list hdr_recv) (fails : Z) : option (list Z) :=
  match script with
  | [] => None
  | HdrFull b :: _ => Some b
  | HdrShort e :: r =>
      let '(fails, again) := match e with EINTR => (fails + 1, fails + 1 <? 10) | _ => (fails, false) end in
      if (again : bool) then recvHeader r fails else None
  | HdrFail e :: r =>
      let '(fails, again) := match e with EINTR => (fails + 1, fails + 1 <? 10) | _ => (fails, false) end in
      if (again : bool) then recvHeader r fails
      else if SOCKET_TIMEOUT_CLIENT_RETRIES <? fails + 1 then None
      else match e with EAGAIN => recvHeader r (fails + 1) | _ => None end
  end.
Definition recv_request_header (script : list hdr_recv) : option dnbd3_request_t :=
  match recvHeader script 0 with
  | None => None
  | Some b =>
      let request := decode_request b in
      if negb (rq_magic request =? dnbd3_packet_magic) then None
      else if negb (rq_cmd request =? CMD_GET_BLOCK) && (MAX_PAYLOAD <? rq_size request) then None
      else Some request
  end.
(** [received] is what [sock_recv] read into the buffer. *)
Definition recv_request_payload (size : Z) (received : list Z) (buf : list Z) : option (list Z) :=
  if (size =? 0) || (MAX_PAYLOAD <? size) then None
  else if negb (Z.of_nat (length received) =? size) then None
  else Some (received ++ drop (length received) buf).

(** ** The handshake *)

(** How the image is looked up: load it if needed, only if it is known and (for a proxy
    that replicates while this one does not) complete, or only if it is known. *)
Inductive lookup_kind := GetOrLoad | GetComplete | GetKnown.
Definition chooseLookup (cfg : config) (isProxy lookupMissingForProxy isServer : bool) (flags : Z) : lookup_kind :=
  if negb isServer || negb isProxy then GetOrLoad
  else if negb (_backgroundReplication cfg =? BGR_FULL) && negb ((flags .& FLAGS8_BG_REP) =? 0) then GetComplete
  else if lookupMissingForProxy then GetOrLoad
  else GetKnown.
Definition lookupImage (kind : lookup_kind) (getOrLoad get : option dnbd3_image_t) : option dnbd3_image_t :=
  match kind with
  | GetOrLoad => getOrLoad
  | GetKnown => get
  | GetComplete => match get with
                   | Some i => match img_cacheMap i with Some _ => None | None => Some i end
                   | None => None
                   end
  end.
(** [rnd] is the number [rand] returns. *)
Definition acceptImage (image : dnbd3_image_t) (rnd : Z) : bool :=
  if pr_read (img_problem image) || pr_changed (img_problem image) then false
  else match img_cacheMap image with
       | Some _ => if pr_queue (img_problem image) || pr_write (img_problem image) then Z.rem rnd 4 =? 1 else true
       | None => true
       end.
(** A string as bytes. *)
Definition bytesOf (s : string) : list Z := map (fun c => Z.of_N (Ascii.N_of_ascii c)) (chars s).

(** The first packet of a connection. *)
Inductive first_packet := NoPacket | HttpRequest | SelectImage (size : Z).
Definition firstPacket (received : list Z) : first_packet :=
  if negb (length received =? DNBD3_REQUEST_SIZE)%nat then NoPacket
  else
    let request := decode_request received in
    if negb (rq_magic request =? dnbd3_packet_magic) then
      match received with
      | b :: _ => if (b =? 71) || (b =? 80) then HttpRequest else NoPacket   (* 'G', 'P' *)
      | [] => NoPacket
      end
    else if negb (rq_cmd request =? CMD_SELECT_IMAGE) then NoPacket
    else SelectImage (rq_size request).

(** Clients count as an access when they connect, servers when they leave. *)
Definition touchImage (now : ticks) (i : dnbd3_image_t) : dnbd3_image_t :=
  Image (img_path i) (img_name i) (img_cacheMap i) (img_virtualFilesize i) (img_realFilesize i) now
    (img_nextCompletenessEstimate i) (img_crc32 i) (img_masterCrc32 i) (img_readFd i)
    (img_completenessEstimate i) (img_users i) (img_id i) (img_problem i) (img_rid i) true.

(** The payload of the first packet handled: whether the peer is a server, the image
    and the bytes sent; [None] rejects the client.  [lookup] gives the images the two
    lookups find for a name and revision. *)
Definition handshake (cfg : config) (isProxy lookupMissing : bool) (lookup : list Z -> Z -> option dnbd3_image_t * option dnbd3_image_t)
    (now : ticks) (rnd : Z) (buf : list Z) (size : Z) : result (option (bool * dnbd3_image_t * list Z)) :=
  '(client_version, image_name, rid, flags) ← parse_select buf size;
  let isServer := negb ((flags .& FLAGS8_SERVER) =? 0) in
  match image_name with
  | None => Ok None
  | Some name =>
      if (size <? 3) || (client_version <? MIN_SUPPORTED_CLIENT) then Ok None
      else
        let '(gol, g) := lookup name rid in
        match lookupImage (chooseLookup cfg isProxy lookupMissing isServer flags) gol g with
        | None => Ok None
        | Some image =>
            if negb (acceptImage image rnd) then Ok None
            else
              let '(header, payload) :=
                select_reply_payload buf (if client_version <? 3 then client_version else PROTOCOL_VERSION)
                  (bytesOf (img_name image)) (img_rid image) (img_virtualFilesize image) in
              Ok (Some (isServer, if isServer then image else touchImage now image, header ++ payload))
        end
  end.

(** ** Requests *)

Record connection := Connection {
  cn_client : ptr;
  cn_host : dnbd3_host_t;
  cn_image : dnbd3_image_t;
  cn_uplink : option dnbd3_uplink_t;
  cn_cache : option dnbd3_cache_map_t;   (* the cache map held by the thread *)
  cn_relayedCount : Z;
  cn_isServer : bool;
  cn_bytesSent : Z;
}.
Definition cn_set (uplink : option dnbd3_uplink_t) (cache : option dnbd3_cache_map_t) (image : dnbd3_image_t)
    (relayed sent : Z) (c : connection) : connection :=
  Connection (cn_client c) (cn_host c) image uplink cache relayed (cn_isServer c) sent.

(** Whether the client stays connected. *)
Inductive fate := Keep | DropClient.

Inductive sf_errno := SfBad | SfOther.  (* [EBADF], [EFAULT], [EINVAL] or [EIO]; or another one *)
Inductive sfres := SfSent (n : Z) | SfErr (e : sf_errno).
(** The rest of the world for one request: [ne_sendfile] is what [sendfile] does after
    a number of bytes, [ne_waited] the relayed count after waiting for it to drop. *)
Record net_env := NetEnv {
  ne_file : list Z;
  ne_sendfile : Z -> sfres;
  ne_sendOk : bool;
  ne_padOk : bool;
  ne_waited : Z;
  ne_sameHost : bool;
  ne_send : packet -> bool;
}.

Definition error_reply (handle : Z) : list Z := encode_reply (ReplyHdr dnbd3_packet_magic CMD_ERROR 0 handle).

(** The [sendfile] loop: the bytes sent, or with an error whether the image is disabled. *)
Fixpoint sendLoop (fuel : nat) (env : net_env) (foffset realBytes done : Z) : option (list Z + list Z * bool) :=
  if realBytes <=? done then Some (inl [])
  else match fuel with
  | O => None
  | S f =>
      match ne_sendfile env done with
      | SfErr e => Some (inr ([], match e with SfBad => true | SfOther => false end))
      | SfSent n =>
          let avail := Z.of_nat (length (ne_file env)) - foffset in
          let sent := Z.min n (Z.min (realBytes - done) avail) in
          if sent <=? 0 then Some (inr ([], false))
          else
            let bytes := take (Z.to_nat sent) (drop (Z.to_nat foffset) (ne_file env)) in
            match sendLoop f env (foffset + sent) realBytes (done + sent) with
            | None => None
            | Some (inl l) => Some (inl (bytes ++ l))
            | Some (inr (l, b)) => Some (inr (bytes ++ l, b))
            end
      end
  end.

(** [sendPadding]: whole buffers of 500 null bytes, then the rest. *)
Fixpoint padLoop (k : nat) : list Z :=
  match k with O => [] | S k' => replicate 500 0 ++ padLoop k' end.
Definition sendPadding (bytes : Z) : list Z :=
  padLoop (Z.to_nat (bytes / 500)) ++ replicate (Z.to_nat (bytes mod 500)) 0.

(** Answer a request from the file. *)
Definition realBytesOf (image : dnbd3_image_t) (offset size : Z) : Z :=
  if u64 (offset + size) <=? img_realFilesize image then size else u64 (img_realFilesize image - offset).
Definition sendLocal (env : net_env) (c : connection) (offset size handle : Z) : option (connection * list Z * fate) :=
  let header := encode_reply (ReplyHdr dnbd3_packet_magic CMD_GET_BLOCK size handle) in
  let counted := cn_set (cn_uplink c) (cn_cache c) (cn_image c) (cn_relayedCount c) (u64 (cn_bytesSent c + size)) c in
  if negb (ne_sendOk env) then Some (c, [], DropClient)
  else if size =? 0 then Some (counted, header, Keep)
  else
    let realBytes := realBytesOf (cn_image c) offset size in
    match sendLoop (S (length (ne_file env))) env offset realBytes 0 with
    | None => None
    | Some (inr (l, disable)) =>
        let image := if (disable : bool) then img_set_problem (Problems true (pr_write (img_problem (cn_image c)))
                       (pr_changed (img_problem (cn_image c))) (pr_uplink (img_problem (cn_image c)))
                       (pr_queue (img_problem (cn_image c)))) (cn_image c) else cn_image c in
        Some (cn_set (cn_uplink c) (cn_cache c) image (cn_relayedCount c) (cn_bytesSent c) c, header ++ l, DropClient)
    | Some (inl l) =>
        if u32 realBytes <? size then
          if ne_padOk env then Some (counted, header ++ l ++ sendPadding (u32 (size - u32 realBytes)), Keep)
          else Some (c, header ++ l, DropClient)
        else Some (counted, header ++ l, Keep)
    end.

(** Relay a request through the uplink; [CALLBACK] stands for [uplinkCallback]. *)
Definition CALLBACK : ptr := 1.
Definition relayRequest (cfg : config) (env : net_env) (c : connection) (handle offset size hops : Z)
  : result (connection * list packet * fate) :=
  if (250 <? cn_relayedCount c) && (250 <? ne_waited env) then
    Ok (cn_set (cn_uplink c) (cn_cache c) (cn_image c) (ne_waited env) (cn_bytesSent c) c, [], DropClient)
  else
    let count := if 250 <? cn_relayedCount c then ne_waited env else cn_relayedCount c in
    '(ok, up, sent) ← uplink_requestClient cfg (ne_send env) (cn_uplink c) (ne_sameHost env) (cn_client c) CALLBACK
                        handle offset size hops;
    if (ok : bool) then Ok (cn_set up (cn_cache c) (cn_image c) (u8 (count + 1)) (cn_bytesSent c) c, sent, Keep)
    else Ok (cn_set up (cn_cache c) (cn_image c) (u8 (u8 (count + 1) - 1)) (cn_bytesSent c) c, sent, DropClient).

(** A [CMD_GET_BLOCK]: the connection, the bytes sent to the client, the packets sent
    to the uplink, and whether to go on. *)
Definition handleGetBlock (cfg : config) (env : net_env) (c : connection) (request : dnbd3_request_t)
  : result (option (connection * list Z * list packet * fate)) :=
  let offset := offset_small request in
  let size := rq_size request in
  if img_virtualFilesize (cn_image c) <=? offset then Ok (Some (c, error_reply (rq_handle request), [], Keep))
  else if img_virtualFilesize (cn_image c) <? u64 (offset + size) then Ok (Some (c, error_reply (rq_handle request), [], Keep))
  else
    let cache := match cn_cache c with Some m => Some m | None => img_cacheMap (cn_image c) end in
    let c := cn_set (cn_uplink c) cache (cn_image c) (cn_relayedCount c) (cn_bytesSent c) c in
    cached ← match cache with
             | Some m =>
                 if size =? 0 then Ok true
                 else image_isRangeCachedUnsafe m (offset .& not64 (DNBD3_BLOCK_SIZE - 1))
                        (u64 (offset + size + DNBD3_BLOCK_SIZE - 1) .& not64 (DNBD3_BLOCK_SIZE - 1))
             | None => Ok true
             end;
    if (cached : bool) then
      Ok ((fun x => (x.1.1, x.1.2, [], x.2)) <$> sendLocal env c offset size (rq_handle request))
    else
      '(c, packets, f) ← relayRequest cfg env c (rq_handle request) offset size (hops request);
      Ok (Some (c, [], packets, f)).

(** [dnbd3_server_entry_t] as sent: address, port, type, failures. *)
Definition encode_server (e : dnbd3_host_t * Z) : list Z :=
  host_addr e.1 ++ le_bytes 2 (host_port e.1) ++ [host_type e.1; e.2].

(** The answer to [CMD_GET_CRC32]. *)
Definition crcReply (image : dnbd3_image_t) (handle : Z) : list Z :=
  match img_crc32 image with
  | None => encode_reply (ReplyHdr dnbd3_packet_magic CMD_GET_CRC32 0 handle)
  | Some crc =>
      let size := u32 ((IMGSIZE_TO_HASHBLOCKS (img_realFilesize image) + 1) * 4) in
      encode_reply (ReplyHdr dnbd3_packet_magic CMD_GET_CRC32 size handle)
      ++ le_bytes 4 (img_masterCrc32 image)
      ++ take (Z.to_nat (size - 4)) (concat (map (le_bytes 4) crc))
  end.

(** One turn of the client's loop; [handle] is what the last block request left in the
    reply header.  Commands other than [CMD_GET_BLOCK] give the cache map back. *)
Definition handleRequest (cfg : config) (env : net_env) (alts : list dnbd3_alt_server_t) (handle : Z) (c : connection)
    (request : dnbd3_request_t) : result (option (connection * list Z * list packet * fate)) :=
  if rq_cmd request =? CMD_GET_BLOCK then handleGetBlock cfg env c request
  else
    let c := cn_set (cn_uplink c) None (cn_image c) (cn_relayedCount c) (cn_bytesSent c) c in
    if rq_cmd request =? CMD_GET_SERVERS then
      let list := altservers_getListForClient (cn_host c) (img_name (cn_image c)) alts NUMBER_SERVERS in
      let payload := concat (map encode_server list) in
      Ok (Some (c, encode_reply (ReplyHdr dnbd3_packet_magic CMD_GET_SERVERS (u32 (Z.of_nat (length list) * 20)) handle)
                   ++ payload, [], Keep))
    else if rq_cmd request =? CMD_KEEPALIVE then
      Ok (Some (c, encode_reply (ReplyHdr dnbd3_packet_magic CMD_KEEPALIVE 0 handle), [], Keep))
    else if rq_cmd request =? CMD_SET_CLIENT_MODE then
      Ok (Some (Connection (cn_client c) (cn_host c) (cn_image c) (cn_uplink c) (cn_cache c) (cn_relayedCount c)
                  false (cn_bytesSent c), [], [], Keep))
    else if rq_cmd request =? CMD_GET_CRC32 then Ok (Some (c, crcReply (cn_image c) handle, [], Keep))
    else Ok (Some (c, [], [], Keep)).

(** [uplinkCallback]: the bytes sent and whether the socket is shut down; without data
    the header still announces the length. *)
Definition uplinkCallback (c : connection) (a : answer) : connection * list Z * bool :=
  let len := u32 (qc_to (ans_client a) - qc_from (ans_client a)) in
  let c' := cn_set (cn_uplink c) (cn_cache c) (cn_image c) (u8 (cn_relayedCount c - 1)) (cn_bytesSent c) c in
  match ans_data a with
  | Some data => (c', encode_reply (ReplyHdr dnbd3_packet_magic CMD_GET_BLOCK len (qc_handle (ans_client a))) ++ data, false)
  | None => (c', encode_reply (ReplyHdr dnbd3_packet_magic CMD_ERROR len (qc_handle (ans_client a))), true)
  end.

(** What the thread does to the image when the client leaves. *)
Definition touchOnDisconnect (now : ticks) (c : connection) : dnbd3_image_t :=
  if DNBD3_BLOCK_SIZE * 10 <? cn_bytesSent c then touchImage now (cn_image c) else cn_image c.

(** * The client list *)

Section ClientList.
Context (maxClients : Z).

(** Clients are in the list once. *)
Definition clients_wf (clients : list ptr) : Prop :=
  forall i j c, clients !! i = Some c -> clients !! j = Some c -> c <> NULL -> i = j.

Lemma addScanClients_spec l c :
  match addScanClients l c with
  | Some l' => exists i, l !! i = Some NULL /\ l' = <[i := c]> l
  | None => NULL ∉ l
  end.
Proof.
  induction l as [|x l IH]; cbn [addScanClients]; [apply not_elem_of_nil|].
  destruct (Z.eqb_spec x NULL) as [->|]; [by exists 0%nat|].
  destruct (addScanClients l c) as [l'|].
  - destruct IH as (i & Hi & ->). by exists (S i).
  - by apply not_elem_of_cons.
Qed.
Lemma clients_wf_put l i c :
  clients_wf l -> c ∉ l -> (i < length l)%nat -> clients_wf (<[i := c]> l).
Proof.
  intros Hw Hc Hi j k x Hj Hk Hx.
  assert (forall n y, <[i := c]> l !! n = Some y -> n = i /\ y = c \/ n <> i /\ l !! n = Some y) as Hcase.
  { intros n y. destruct (decide (n = i)) as [->|]; [rewrite list_lookup_insert_eq by done; intros [= <-]; auto|].
    rewrite list_lookup_insert_ne by done. auto. }
  apply Hcase in Hj as [[-> ->]|[? Hj]], Hk as [[-> Hkc]|[? Hk]]; try done.
  - by apply list_elem_of_lookup_2 in Hk.
  - subst x. by apply list_elem_of_lookup_2 in Hj.
  - by eapply Hw.
Qed.
Lemma findClient_spec n l c :
  match findClient n l c with
  | Some i => (i < n)%nat /\ l !! i = Some c
  | None => forall i, (i < n)%nat -> l !! i <> Some c
  end.
Proof.
  induction n as [|n IH]; cbn [findClient]; [lia|].
  destruct (bool_decide_reflect (l !! n = Some c)); [split; [lia|done]|].
  destruct (findClient n l c); [destruct IH; split; [lia|done]|].
  intros i Hi. destruct (decide (i = n)) as [->|]; [done|]. apply IH. lia.
Qed.
Lemma lastUsed_spec i l :
  (lastUsed i l <= pred i)%nat /\ forall j, (lastUsed i l < j < i)%nat -> l !! j = Some NULL.
Proof.
  induction i as [|i IH]; cbn [lastUsed]; [split; [done|lia]|].
  destruct (bool_decide (l !! i = Some NULL) && (0 <? i)%nat) eqn:E; [|split; [done|lia]].
  apply andb_true_iff in E as [E1%bool_decide_eq_true _]. destruct IH as [H1 H2]. split; [lia|].
  intros j Hj. destruct (decide (j = i)) as [->|]; [done|]. apply H2. lia.
Qed.

Lemma removeFromList_spec l client :
  clients_wf l -> client <> NULL -> let l' := removeFromList l client in
  (client ∉ l') /\ clients_wf l' /\ (length l' <= length l)%nat
  /\ forall i c, c <> NULL -> l' !! i = Some c <-> l !! i = Some c /\ c <> client.
Proof.
  intros Hw Hn. unfold removeFromList. cbn zeta. pose proof (findClient_spec (length l) l client) as Hf.
  destruct (findClient (length l) l client) as [i|].
  2: { assert (client ∉ l) as Hcl.
       { intros [i Hi]%list_elem_of_lookup. eapply Hf; [|done]. by eapply lookup_lt_Some. }
       split_and!; [done|done|done|]. intros i c Hc. split; [|by intros [? _]]. intros Hi. split; [done|].
       intros ->. by apply list_elem_of_lookup_2 in Hi. }
  destruct Hf as [Hi Hli]. set (l1 := <[i := NULL]> l).
  assert (forall j c, c <> NULL -> l1 !! j = Some c <-> l !! j = Some c /\ c <> client) as H1.
  { intros j c Hc. unfold l1. destruct (decide (j = i)) as [->|Hji].
    - rewrite list_lookup_insert_eq by done. split; [intros [= E]; congruence|]. intros [Hj Hne]. congruence.
    - rewrite list_lookup_insert_ne by done. split; [|by intros [? _]]. intros Hj. split; [done|].
      intros ->. apply Hji. by eapply Hw. }
  set (l2 := if (_ && _)%bool then take _ l1 else l1).
  assert ((length l2 <= length l)%nat /\ forall j c, c <> NULL -> l2 !! j = Some c <-> l1 !! j = Some c) as [Hlen H2].
  { unfold l2. destruct (_ && _) eqn:E; [|split; [unfold l1; by rewrite length_insert|done]].
    apply andb_true_iff in E as [_ E%Nat.eqb_eq]. destruct (lastUsed_spec i l1) as [Hle Hnull].
    split; [rewrite length_take; unfold l1; rewrite length_insert; lia|]. intros j c Hc'.
    destruct (decide (j < S (lastUsed i l1))%nat) as [Hj|Hj]; [by rewrite lookup_take_lt by done|].
    rewrite lookup_take_ge by lia. split; [done|]. intros Hjc. exfalso.
    destruct (decide (j < i)%nat) as [Hji|Hji]; [rewrite Hnull in Hjc by lia; congruence|].
    assert (j = i) as -> by (apply lookup_lt_Some in Hjc; lia).
    unfold l1 in Hjc. rewrite list_lookup_insert_eq in Hjc by done. congruence. }
  split_and!; [| |done|].
  - intros [j Hj]%list_elem_of_lookup. apply H2, H1 in Hj; [|done|done]. by destruct Hj.
  - intros j k c Hj Hk Hc'. apply H2, H1 in Hj as [Hj _]; [|done|done]. apply H2, H1 in Hk as [Hk _]; [|done|done].
    by eapply Hw.
  - intros j c Hc'. rewrite H2 by done. by apply H1.
Qed.
Lemma addToList_spec clients client :
  clients_wf clients -> client ∉ clients -> Z.of_nat (length clients) <= maxClients ->
  let '(clients', ok) := addToList maxClients clients client in
  clients_wf clients' /\ Z.of_nat (length clients') <= maxClients /\ (ok = true -> client ∈ clients')
  /\ (ok = false -> clients' = clients /\ (NULL ∉ clients) /\ Z.of_nat (length clients) = maxClients)
  /\ (forall i c, clients !! i = Some c -> c <> NULL -> clients' !! i = Some c).
Proof.
  intros Hw Hc Hl. unfold addToList. pose proof (addScanClients_spec clients client) as Hs.
  destruct (addScanClients clients client) as [l'|].
  - destruct Hs as (i & Hi & ->). pose proof (lookup_lt_Some _ _ _ Hi).
    rewrite length_insert. split_and!; [by apply clients_wf_put|done| |done|].
    + intros _. apply (list_elem_of_lookup_2 _ i). by apply list_lookup_insert_eq.
    + intros j c Hj Hcn. rewrite list_lookup_insert_ne; [done|]. intros ->. congruence.
  - destruct (Z.leb_spec maxClients (Z.of_nat (length clients))).
    + split_and!; [done|done|done|intros _; split_and!; [done|done|lia]|done].
    + split_and!; [|rewrite length_app; cbn; lia|intros _; apply elem_of_app; right; by left|done|].
      * intros i j c Hi Hj Hcn.
        assert (forall n, (clients ++ [client]) !! n = Some c -> clients !! n = Some c \/ n = length clients /\ c = client) as Hcase.
        { intros n [?|[? Hx]]%lookup_app_Some; [by left|]. right. apply list_lookup_singleton_Some in Hx as [? <-]. split; [lia|done]. }
        apply Hcase in Hi as [Hi|[-> Hic]], Hj as [Hj|[-> Hjc]]; [by eapply Hw| | |done]; subst c;
          by (apply list_elem_of_lookup_2 in Hi || apply list_elem_of_lookup_2 in Hj).
      * intros i c Hi _. by apply lookup_app_l_Some.
Qed.

(** A client is put into the list exactly if it has a free slot or may grow, and
    removing it takes out that client and no other; each client stays in its slot, no
    client is in the list twice and the list never grows past the limit. *)
Theorem client_list_correct clients client :
  clients_wf clients -> client ∉ clients -> client <> NULL -> Z.of_nat (length clients) <= maxClients ->
  let '(clients', ok) := addToList maxClients clients client in
  let clients'' := removeFromList clients' client in
  (clients_wf clients' /\ Z.of_nat (length clients') <= maxClients /\ (ok = true -> client ∈ clients')
   /\ (ok = false -> clients' = clients /\ (NULL ∉ clients) /\ Z.of_nat (length clients) = maxClients)
   /\ (forall i c, clients !! i = Some c -> c <> NULL -> clients' !! i = Some c))
  /\ (client ∉ clients'') /\ clients_wf clients'' /\ (length clients'' <= length clients')%nat
  /\ (forall i c, c <> NULL -> clients'' !! i = Some c <-> clients' !! i = Some c /\ c <> client).
Proof.
  intros Hw Hc Hn Hl. pose proof (addToList_spec clients client Hw Hc Hl) as Hadd.
  destruct (addToList maxClients clients client) as [clients' ok]. split; [exact Hadd|].
  by apply removeFromList_spec; [apply Hadd|].
Qed.
End ClientList.
Lemma client_list_correct_witness :
  addToList 3 [7; NULL; 9] 8 = ([7; 8; 9], true) /\ (8 ∉ removeFromList [7; 8; 9] 8).
Proof.
  assert (addToList 3 [7; NULL; 9] 8 = ([7; 8; 9], true)) as E by done. split; [exact E|].
  pose proof (client_list_correct 3 [7; NULL; 9] 8) as H. rewrite E in H. apply H.
  - intros [|[|[|i]]] [|[|[|j]]] c; cbn; intros; simplify_eq; done.
  - by apply (bool_decide_eq_true_1 _).
  - done.
  - by cbn.
Defined.

(** * Block requests *)

(** What the image holds at a range: the file, then zeros. *)
Definition imageBytes (file : list Z) (offset size : Z) : list Z :=
  map (fun k => default 0 (file !! (Z.to_nat offset + k)%nat)) (seq 0 (Z.to_nat size)).

Lemma imageBytes_split file offset size real :
  0 <= real <= size -> (Z.to_nat offset + Z.to_nat real <= length file)%nat ->
  (real < size -> (Z.to_nat offset + Z.to_nat real = length file)%nat) ->
  imageBytes file offset size =
  take (Z.to_nat real) (drop (Z.to_nat offset) file) ++ replicate (Z.to_nat (size - real)) 0.
Proof.
  intros Hr Hl Hend. unfold imageBytes. apply list_eq. intros k.
  change (map ?f ?l) with (f <$> l). rewrite list_lookup_fmap.
  destruct (decide (k < Z.to_nat size)%nat) as [Hk|Hk].
  - rewrite lookup_seq_lt by done. cbn [fmap option_fmap option_map]. cbn [Nat.add].
    destruct (decide (k < Z.to_nat real)%nat) as [Hkr|Hkr].
    + rewrite lookup_app_l by (rewrite length_take, length_drop; lia).
      rewrite lookup_take_lt, lookup_drop by done.
      destruct (lookup_lt_is_Some_2 file (Z.to_nat offset + k)) as [x ->]; [lia|done].
    + rewrite (lookup_ge_None_2 file) by lia. cbn [default from_option].
      rewrite lookup_app_r; rewrite length_take, length_drop, Nat.min_l by lia; [|lia].
      symmetry. apply lookup_replicate_2. lia.
  - rewrite (lookup_ge_None_2 (seq _ _)) by (rewrite length_seq; lia).
    rewrite (lookup_ge_None_2 (_ ++ _)); [done|]. rewrite length_app, length_take, length_drop, length_replicate. lia.
Qed.

Lemma padLoop_replicate k : padLoop k = replicate (500 * k) 0.
Proof.
  induction k as [|k IH]; [done|]. cbn [padLoop]. rewrite IH, <- replicate_add. f_equal. lia.
Qed.
Lemma sendPadding_replicate n : 0 <= n -> sendPadding n = replicate (Z.to_nat n) 0.
Proof.
  intros Hn. unfold sendPadding. rewrite padLoop_replicate, <- replicate_add. f_equal.
  pose proof (Z.div_mod n 500 ltac:(lia)). pose proof (Z.mod_pos_bound n 500 ltac:(lia)).
  assert (0 <= n / 500) by (apply Z.div_pos; lia). lia.
Qed.

(** The socket takes what it is given and [sendfile] always makes progress. *)
Definition net_works (env : net_env) : Prop :=
  ne_sendOk env = true /\ ne_padOk env = true /\ forall d, exists n, ne_sendfile env d = SfSent n /\ 0 < n.

Lemma sendLoop_spec env fuel foffset realBytes done :
  net_works env -> 0 <= foffset -> 0 <= done <= realBytes ->
  foffset + (realBytes - done) <= Z.of_nat (length (ne_file env)) ->
  realBytes - done < Z.of_nat fuel ->
  sendLoop fuel env foffset realBytes done =
  Some (inl (take (Z.to_nat (realBytes - done)) (drop (Z.to_nat foffset) (ne_file env)))).
Proof.
  intros (_ & _ & Hsf). revert foffset done. induction fuel as [|fuel IH]; intros foffset done Hf Hd Hl Hfu; [lia|].
  cbn [sendLoop]. destruct (Z.leb_spec realBytes done).
  { by replace (Z.to_nat (realBytes - done)) with 0%nat by lia. }
  destruct (Hsf done) as (n & -> & Hn). set (sent := Z.min n _).
  assert (0 < sent <= realBytes - done) as Hsent by (unfold sent; lia).
  destruct (Z.leb_spec sent 0); [lia|]. rewrite IH by lia. do 2 f_equal.
  replace (Z.to_nat (foffset + sent)) with (Z.to_nat foffset + Z.to_nat sent)%nat by lia.
  rewrite <- drop_drop, take_take_drop. f_equal. lia.
Qed.

(** The image as the server has opened it. *)
Record served (c : connection) (env : net_env) : Prop := {
  sv_real : 0 <= img_realFilesize (cn_image c) <= img_virtualFilesize (cn_image c);
  sv_virtual : img_virtualFilesize (cn_image c) < 2 ^ 56;
  sv_file : Z.of_nat (length (ne_file env)) = img_realFilesize (cn_image c);
}.
(** The cache map a block request is checked against. *)
Definition heldCache (c : connection) : option dnbd3_cache_map_t :=
  match cn_cache c with Some m => Some m | None => img_cacheMap (cn_image c) end.
Definition blockStart (request : dnbd3_request_t) : Z := offset_small request .& not64 (DNBD3_BLOCK_SIZE - 1).
Definition blockEnd (request : dnbd3_request_t) : Z :=
  u64 (offset_small request + rq_size request + DNBD3_BLOCK_SIZE - 1) .& not64 (DNBD3_BLOCK_SIZE - 1).
(** The range is in the local file: the image is complete or its blocks are marked. *)
Definition locally (c : connection) (request : dnbd3_request_t) : Prop :=
  match heldCache c with
  | None => True
  | Some m => rq_size request = 0 \/ image_isRangeCachedUnsafe m (blockStart request) (blockEnd request) = Ok true
  end.

Lemma handleGetBlock_local cfg env c request :
  served c env -> request_ok request -> locally c request ->
  offset_small request < img_virtualFilesize (cn_image c) ->
  offset_small request + rq_size request <= img_virtualFilesize (cn_image c) ->
  handleGetBlock cfg env c request =
  Ok ((fun x => (x.1.1, x.1.2, [], x.2)) <$>
        sendLocal env (cn_set (cn_uplink c) (heldCache c) (cn_image c) (cn_relayedCount c) (cn_bytesSent c) c)
          (offset_small request) (rq_size request) (rq_handle request)).
Proof.
  intros [] [] Hloc Ho He. unfold handleGetBlock. fold (heldCache c) (blockStart request) (blockEnd request).
  assert (0 <= offset_small request < 2 ^ 56) as Hos by (apply Z.mod_pos_bound; lia).
  destruct (Z.leb_spec (img_virtualFilesize (cn_image c)) (offset_small request)); [lia|].
  rewrite u64_id by crange.
  destruct (Z.ltb_spec (img_virtualFilesize (cn_image c)) (offset_small request + rq_size request)); [lia|].
  unfold locally in Hloc. destruct (heldCache c) as [m|]; [|done].
  destruct (Z.eqb_spec (rq_size request) 0); [done|]. destruct Hloc as [|Hloc]; [done|]. by rewrite Hloc.
Qed.

Lemma heldCache_same c c' : cn_cache c' = heldCache c -> cn_image c' = cn_image c -> heldCache c' = heldCache c.
Proof. unfold heldCache. intros -> ->. destruct (cn_cache c); [done|]. by destruct (img_cacheMap (cn_image c)). Qed.
Lemma get_block_local cfg env c request :
  served c env -> request_ok request -> net_works env -> locally c request ->
  offset_small request < img_virtualFilesize (cn_image c) ->
  offset_small request + rq_size request <= img_virtualFilesize (cn_image c) ->
  offset_small request <= img_realFilesize (cn_image c) ->
  exists c', handleGetBlock cfg env c request =
    Ok (Some (c', encode_reply (ReplyHdr dnbd3_packet_magic CMD_GET_BLOCK (rq_size request) (rq_handle request))
                  ++ imageBytes (ne_file env) (offset_small request) (rq_size request), [], Keep))
    /\ cn_bytesSent c' = u64 (cn_bytesSent c + rq_size request) /\ cn_relayedCount c' = cn_relayedCount c
    /\ cn_image c' = cn_image c /\ cn_uplink c' = cn_uplink c /\ heldCache c' = heldCache c.
Proof.
  intros Hsv Hreq. pose proof Hsv as [Hr Hv Hfile]. pose proof Hreq as [_ _ Hsz _ _].
  assert (0 <= offset_small request < 2 ^ 56) as Hos by (apply Z.mod_pos_bound; lia).
  intros Hw Hloc Ho He Hor. rewrite handleGetBlock_local by done. pose proof Hw as (Hso & Hpo & _).
  unfold sendLocal. rewrite Hso. cbn [negb]. destruct (Z.eqb_spec (rq_size request) 0) as [Hz|Hz].
  { eexists. split; [cbn [fmap option_fmap option_map fst snd]; unfold imageBytes; rewrite Hz;
      cbn [Z.to_nat seq map]; by rewrite app_nil_r|rewrite Hz; split_and!; [done..|by apply heldCache_same]]. }
  set (real := realBytesOf _ _ _). cbn [cn_image cn_set] in real.
  assert (real = Z.min (rq_size request) (img_realFilesize (cn_image c) - offset_small request)) as Ereal.
  { unfold real, realBytesOf. rewrite u64_id by crange.
    destruct (Z.leb_spec (offset_small request + rq_size request) (img_realFilesize (cn_image c))); [lia|].
    rewrite u64_id by crange. lia. }
  unfold in_u32 in Hsz. rewrite sendLoop_spec by (done || lia). rewrite Z.sub_0_r. rewrite (u32_id real) by crange.
  rewrite (imageBytes_split _ _ _ real) by lia. destruct (Z.ltb_spec real (rq_size request)).
  - rewrite Hpo. eexists. split; [cbn [fmap option_fmap option_map fst snd]; rewrite u32_id by crange; by rewrite sendPadding_replicate by lia|split_and!; [done..|by apply heldCache_same]].
  - eexists. split; [replace (Z.to_nat (rq_size request - real)) with 0%nat by lia;
      cbn [fmap option_fmap option_map fst snd replicate]; by rewrite app_nil_r|split_and!; [done..|by apply heldCache_same]].
Qed.


(** A request for data behind the end of the file but inside the image (the image
    is rounded up to whole blocks) announces its size and is then dropped instead of
    being answered with zeros, because the number of bytes to send wraps around. *)
Theorem tail_request_drops_client cfg env c request n :
  served c env -> request_ok request -> locally c request -> ne_sendOk env = true -> ne_sendfile env 0 = SfSent n ->
  img_realFilesize (cn_image c) < offset_small request < img_virtualFilesize (cn_image c) ->
  0 < rq_size request -> offset_small request + rq_size request <= img_virtualFilesize (cn_image c) ->
  exists c', handleGetBlock cfg env c request =
    Ok (Some (c', encode_reply (ReplyHdr dnbd3_packet_magic CMD_GET_BLOCK (rq_size request) (rq_handle request)), [], DropClient)).
Proof.
  intros Hsv Hreq Hloc Hso Hsf Ho Hsz He. rewrite handleGetBlock_local by (done || lia).
  pose proof Hsv as [Hr Hv Hfile]. pose proof Hreq as [_ _ Hu _ _]. unfold sendLocal. rewrite Hso. cbn [negb].
  destruct (Z.eqb_spec (rq_size request) 0); [lia|]. unfold realBytesOf. cbn [cn_image cn_set].
  rewrite u64_id by crange. destruct (Z.leb_spec (offset_small request + rq_size request) (img_realFilesize (cn_image c))); [lia|].
  set (real := u64 _). assert (0 < real).
  { unfold real, u64. rewrite <- (Z_mod_plus_full _ 1). rewrite Z.mod_small; lia. }
  cbn [sendLoop]. destruct (Z.leb_spec real 0); [lia|]. rewrite Hsf.
  destruct (Z.leb_spec (Z.min n (Z.min (real - 0) (Z.of_nat (length (ne_file env)) - offset_small request))) 0); [|lia].
  eexists. cbn [fmap option_fmap option_map fst snd]. by rewrite app_nil_r.
Qed.

(** C8. What the server does with a block request, when the image is open.  One outside the image is refused with an error reply and changes
    nothing.  On a connection that works ([net_works]: the sends succeed, [sendfile] makes progress) one inside the image whose blocks are
    all in the local file, and which does not start behind the end of that file, is answered with a header that announces the
    size and exactly that many bytes of the image, zeros behind the end of the file, however
    [sendfile] splits the work; the client stays connected and its byte counter grows
    by the size.  One inside the image, of at least a byte, that starts behind the end of the file (which is
    rounded up to whole blocks) gets such a header and no data: the client is dropped. *)
Theorem get_block_served cfg env c request :
  served c env -> request_ok request ->
  (img_virtualFilesize (cn_image c) <= offset_small request
   \/ img_virtualFilesize (cn_image c) < offset_small request + rq_size request ->
   handleGetBlock cfg env c request = Ok (Some (c, error_reply (rq_handle request), [], Keep)))
  /\ (net_works env -> locally c request ->
      offset_small request < img_virtualFilesize (cn_image c) ->
      offset_small request + rq_size request <= img_virtualFilesize (cn_image c) ->
      offset_small request <= img_realFilesize (cn_image c) ->
      exists c', handleGetBlock cfg env c request =
        Ok (Some (c', encode_reply (ReplyHdr dnbd3_packet_magic CMD_GET_BLOCK (rq_size request) (rq_handle request))
                      ++ imageBytes (ne_file env) (offset_small request) (rq_size request), [], Keep))
        /\ cn_bytesSent c' = u64 (cn_bytesSent c + rq_size request) /\ cn_relayedCount c' = cn_relayedCount c
        /\ cn_image c' = cn_image c /\ cn_uplink c' = cn_uplink c)
  /\ (net_works env -> locally c request -> 0 < rq_size request ->
      img_realFilesize (cn_image c) < offset_small request < img_virtualFilesize (cn_image c) ->
      offset_small request + rq_size request <= img_virtualFilesize (cn_image c) ->
      exists c', handleGetBlock cfg env c request =
        Ok (Some (c', encode_reply (ReplyHdr dnbd3_packet_magic CMD_GET_BLOCK (rq_size request) (rq_handle request)), [], DropClient))).
Proof.
  intros Hsv Hreq. pose proof Hsv as [Hr Hv Hfile]. pose proof Hreq as [_ _ Hsz _ _]. split_and!.
  - intros Hout. assert (0 <= offset_small request < 2 ^ 56) as Hos by (apply Z.mod_pos_bound; lia).
    unfold handleGetBlock. rewrite u64_id by crange.
    destruct (Z.leb_spec (img_virtualFilesize (cn_image c)) (offset_small request)); [done|].
    destruct (Z.ltb_spec (img_virtualFilesize (cn_image c)) (offset_small request + rq_size request)); [done|lia].
  - intros Hw Hloc Ho He Hor. destruct (get_block_local cfg env c request Hsv Hreq Hw Hloc Ho He Hor) as (c' & ? & ? & ? & ? & ? & _). by exists c'.
  - intros (Hs & _ & Hf) Hloc Hn Ho He. destruct (Hf 0) as (n & Hn0 & _). by eapply tail_request_drops_client.
Qed.

(** An image of 9000 bytes (12288 with the padding), blocks 0 and 2 of which are
    cached. *)
Definition demo_file : list Z := map (fun k => Z.of_nat k mod 256) (seq 0 (Z.to_nat 9000)).
Definition demo_connection : connection :=
  Connection 9 (demo_host 2) demo_image (Some demo_uplink) None 0 false 0.
Definition demo_net_env : net_env := NetEnv demo_file (fun _ => SfSent 100) true true 0 false (fun _ => true).
Lemma demo_served : served demo_connection demo_net_env.
Proof. split; by vm_compute. Qed.
Lemma demo_net_works : net_works demo_net_env.
Proof. split_and!; [done|done|]. intros d. by exists 100. Qed.

Lemma get_block_served_witness :
  exists c', handleGetBlock demo_config demo_net_env demo_connection (Request dnbd3_packet_magic CMD_GET_BLOCK 1000 8900 5)
    = Ok (Some (c', encode_reply (ReplyHdr dnbd3_packet_magic CMD_GET_BLOCK 1000 5) ++ imageBytes demo_file 8900 1000, [], Keep)).
Proof.
  destruct (get_block_served demo_config demo_net_env demo_connection (Request dnbd3_packet_magic CMD_GET_BLOCK 1000 8900 5)
              demo_served) as (_ & H & _).
  - split; by vm_compute.
  - destruct H as (c' & E & _); [exact demo_net_works|right; by vm_compute|by vm_compute|by vm_compute|by vm_compute|].
    exists c'. exact E.
Defined.
Lemma tail_request_drops_client_witness :
  exists c', handleGetBlock demo_config demo_net_env demo_connection (Request dnbd3_packet_magic CMD_GET_BLOCK 1000 9500 5)
    = Ok (Some (c', encode_reply (ReplyHdr dnbd3_packet_magic CMD_GET_BLOCK 1000 5), [], DropClient)).
Proof.
  apply (tail_request_drops_client demo_config demo_net_env demo_connection
           (Request dnbd3_packet_magic CMD_GET_BLOCK 1000 9500 5) 100 demo_served).
  - split; by vm_compute.
  - right. by vm_compute.
  - done.
  - done.
  - by vm_compute.
  - by vm_compute.
  - by vm_compute.
Defined.

(** * Relaying *)

(** A block request whose data is not in the local file is relayed: either the
    client is added to the uplink's queue, with its handle and range, its counter of
    relayed requests grows by one and stays within 251, or the client is dropped, the
    queue unchanged and nothing sent.  The queue stays well-formed and no assertion
    fails. *)
Theorem get_block_relayed cfg env c request u m :
  served c env -> request_ok request -> config_ok cfg -> uplink_wf u ->
  cn_uplink c = Some u -> img_virtualFilesize (up_image u) = img_virtualFilesize (cn_image c) ->
  up_queueId u < 2 ^ 64 - 2 -> cn_client c <> NULL -> 0 <= cn_relayedCount c <= 251 -> 0 <= ne_waited env <= 255 ->
  heldCache c = Some m -> 0 < rq_size request ->
  image_isRangeCachedUnsafe m (blockStart request) (blockEnd request) = Ok false ->
  offset_small request < img_virtualFilesize (cn_image c) ->
  offset_small request + rq_size request <= img_virtualFilesize (cn_image c) ->
  exists c' packets f u', handleGetBlock cfg env c request = Ok (Some (c', [], packets, f))
    /\ cn_uplink c' = Some u' /\ uplink_wf u'
    /\ (f = Keep ->
        pending (up_queue u') ≡ₚ with_client (cn_client c) CALLBACK (rq_handle request) (offset_small request) (rq_size request)
                                   (pending (up_queue u))
        /\ 1 <= cn_relayedCount c' <= 251
        /\ (cn_relayedCount c <= 250 -> cn_relayedCount c' = cn_relayedCount c + 1))
    /\ (f = DropClient -> pending (up_queue u') = pending (up_queue u) /\ packets = []).
Proof.
  intros [] [] Hcfg Hwf Hu Hvf Hid Hcl Hrc Hwt Hm Hsz Hnc Ho He.
  assert (0 <= offset_small request < 2 ^ 56) as Hos by (apply Z.mod_pos_bound; lia).
  unfold handleGetBlock. fold (heldCache c) (blockStart request) (blockEnd request). rewrite Hm.
  destruct (Z.leb_spec (img_virtualFilesize (cn_image c)) (offset_small request)); [lia|].
  rewrite u64_id by crange.
  destruct (Z.ltb_spec (img_virtualFilesize (cn_image c)) (offset_small request + rq_size request)); [lia|].
  destruct (Z.eqb_spec (rq_size request) 0); [lia|]. rewrite Hnc. cbn [mbind result_bind].
  unfold relayRequest. cbn [cn_uplink cn_relayedCount cn_client cn_cache cn_image cn_bytesSent cn_set]. rewrite Hu.
  destruct ((250 <? cn_relayedCount c) && (250 <? ne_waited env)) eqn:Edrop.
  { do 4 eexists. split; [done|]. split; [done|]. by split_and!. }
  set (count := if 250 <? cn_relayedCount c then _ else _).
  assert (0 <= count <= 250 /\ (cn_relayedCount c <= 250 -> count = cn_relayedCount c)) as [Hcount Hceq].
  { unfold count. destruct (Z.ltb_spec 250 (cn_relayedCount c)); cbn in Edrop; b2p; lia. }
  assert (u8 (u8 (count + 1) - 1) = count) as Eback
    by (rewrite (u8_id (count + 1)) by crange; rewrite u8_id by crange; lia).
  clearbody count. unfold uplink_requestClient. apply Z.eqb_neq in Hcl as Hcl'. rewrite Hcl'.
  cbn [negb andb assert_ mbind result_bind CALLBACK Z.eqb NULL]. destruct (60 <? _).
  { cbn [mbind result_bind]. do 4 eexists. split; [done|]. split; [done|]. by split_and!. }
  destruct ((1 <? hops request) && _).
  { cbn [mbind result_bind]. do 4 eexists. split; [done|]. split; [done|]. split; [by destruct Hwf|by split_and!]. }
  destruct (uplink_requestInternal_spec cfg Hcfg (ne_send env) u Hwf (cn_client c) CALLBACK (rq_handle request)
              (offset_small request) (rq_size request) (hops request)) as (ok & u' & sent & -> & Hwf' & _ & _ & Hok & Hno);
    [lia|crange|lia|lia|by right|].
  cbn [mbind result_bind]. destruct ok; do 4 eexists; (split; [done|]); (split; [done|]); (split; [done|]); (split; [|done || idtac]).
  - intros _. cbn [cn_relayedCount cn_set]. rewrite u8_id by crange. split; [by apply Hok|]. split; lia.
  - done.
  - intros _. destruct (Hno eq_refl) as [-> ->]. done.
Qed.
Lemma get_block_relayed_witness :
  exists c' packets f u', handleGetBlock demo_config demo_net_env demo_connection
      (Request dnbd3_packet_magic CMD_GET_BLOCK 1000 4100 5) = Ok (Some (c', [], packets, f))
    /\ cn_uplink c' = Some u' /\ uplink_wf u' /\ f = Keep.
Proof.
  destruct (get_block_relayed demo_config demo_net_env demo_connection (Request dnbd3_packet_magic CMD_GET_BLOCK 1000 4100 5)
              demo_uplink (CacheMapT false true [5])) as (c' & packets & f & u' & E & Hu & Hw & _);
    [apply demo_served|split; by vm_compute|apply demo_config_ok|apply demo_uplink_wf|done|done|by vm_compute|done
    |by vm_compute|by vm_compute|done|by vm_compute|by vm_compute|by vm_compute|by vm_compute|].
  exists c', packets, f, u'. split; [exact E|]. split; [exact Hu|]. split; [exact Hw|].
  vm_compute in E. by injection E as _ _ <-.
Defined.

(** * The handshake *)

Lemma scanString_length l : (length (scanString l) <= length l)%nat.
Proof. induction l as [|c l IH]; cbn; [done|]. destruct (_ =? 0); cbn; lia. Qed.
Lemma serializer_get_string_total s :
  Z.of_nat (length (sb_buffer s)) = MAX_PAYLOAD -> 0 <= sb_pointer s -> sb_end s < MAX_PAYLOAD ->
  exists r s', serializer_get_string s = Ok (r, s').
Proof.
  intros Hl Hp He. unfold serializer_get_string. destruct (Z.leb_spec (sb_end s) (sb_pointer s)); [by do 2 eexists|].
  set (str := scanString _).
  assert (Z.of_nat (length str) <= sb_end s - sb_pointer s) as Hs.
  { pose proof (scanString_length (take (Z.to_nat (sb_end s - sb_pointer s)) (drop (Z.to_nat (sb_pointer s)) (sb_buffer s)))) as H1.
    fold str in H1. rewrite length_take in H1. lia. }
  rewrite aget_in_range by lia. cbn [mbind result_bind]. destruct (negb _); by do 2 eexists.
Qed.
Lemma parse_select_total buf size :
  Z.of_nat (length buf) = MAX_PAYLOAD -> 0 <= size < MAX_PAYLOAD -> exists v, parse_select buf size = Ok v.
Proof.
  intros Hb Hs. unfold parse_select. destruct (serializer_get_uint16 _) as [v s] eqn:E.
  destruct (serializer_get_string_total s) as (r & s' & ->).
  - unfold serializer_get_uint16, serializer_get in E. destruct (_ <? _); injection E as <- <-; done.
  - unfold serializer_get_uint16, serializer_get in E. destruct (_ <? _); injection E as <- <-; cbn; lia.
  - unfold serializer_get_uint16, serializer_get in E. assert (Z.min MAX_PAYLOAD size < MAX_PAYLOAD) by lia.
    destruct (_ <? _); injection E as <- <-; cbn [sb_end serializer_reset_read]; lia.
  - cbn [mbind result_bind]. destruct (serializer_get_uint16 s'). destruct (serializer_get_uint8 _). by eexists.
Qed.

(** What the server answers is what the client reads. *)
Definition image_named (image : dnbd3_image_t) : Prop :=
  (0 ∉ bytesOf (img_name image)) /\ Z.of_nat (length (bytesOf (img_name image))) <= 987
  /\ in_u16 (img_rid image) /\ in_u64 (img_virtualFilesize image).

(** The handshake never reads outside its buffer (for payloads shorter than it).
    A client is accepted only for an image one of the lookups found, without read or
    change problem, and never by a proxy without full replication for an incomplete
    image if the peer replicates in full; it then reads from the reply the image's name,
    revision and size. *)
Theorem handshake_correct cfg isProxy lookupMissing lookup now rnd buf size buf' :
  Z.of_nat (length buf) = MAX_PAYLOAD -> 0 <= size < MAX_PAYLOAD ->
  exists r, handshake cfg isProxy lookupMissing lookup now rnd buf size = Ok r
    /\ forall isServer image' sent, r = Some (isServer, image', sent) ->
       exists image, image' = (if isServer then image else touchImage now image)
       /\ pr_read (img_problem image) = false /\ pr_changed (img_problem image) = false
       /\ exists version name rid flags, parse_select buf size = Ok (version, Some name, rid, flags)
          /\ MIN_SUPPORTED_CLIENT <= version /\ isServer = negb ((flags .& FLAGS8_SERVER) =? 0)
          /\ ((lookup name rid).1 = Some image \/ (lookup name rid).2 = Some image)
          /\ (isServer = true -> isProxy = true -> _backgroundReplication cfg <> BGR_FULL ->
              (flags .& FLAGS8_BG_REP) <> 0 -> img_cacheMap image = None)
          /\ (image_named image -> in_u16 version ->
              dnbd3_select_image_reply buf' (take DNBD3_REPLY_SIZE sent) (drop DNBD3_REPLY_SIZE sent)
              = Ok (Some (if version <? 3 then version else PROTOCOL_VERSION, Some (bytesOf (img_name image)),
                          img_rid image, img_virtualFilesize image))).
Proof.
  intros Hb Hs. destruct (parse_select_total buf size Hb Hs) as [[[[version name] rid] flags] Ep].
  unfold handshake. rewrite Ep. cbn [mbind result_bind]. destruct name as [name|]; [|by eexists].
  destruct (_ || _) eqn:Erej; [by eexists|]. apply orb_false_iff in Erej as [_ Hver%Z.ltb_ge].
  destruct (lookup name rid) as [gol g] eqn:El. set (isServer := negb _).
  set (kind := chooseLookup _ _ _ _ _). destruct (lookupImage kind gol g) as [image|] eqn:Ei; [|by eexists].
  destruct (acceptImage image rnd) eqn:Ea; cbn [negb]; [|by eexists].
  destruct (select_reply_payload _ _ _ _ _) as [header payload] eqn:Ew.
  eexists. split; [done|]. intros ? ? ? [= <- <- <-]. exists image. split; [done|].
  unfold acceptImage in Ea. destruct (_ || _) eqn:Epr in Ea; [done|]. apply orb_false_iff in Epr as [-> ->].
  split; [done|]. split; [done|]. exists version, name, rid, flags. rewrite El. cbn [fst snd].
  split_and!; [done|done|done| | |].
  - unfold lookupImage in Ei. destruct kind; [by left| |by right]. destruct g as [i|]; [|done].
    destruct (img_cacheMap i); [done|]. injection Ei as ->. by right.
  - intros E1 E2 E3 E4. unfold lookupImage, kind, chooseLookup in Ei. rewrite E1, E2 in Ei. cbn [negb orb] in Ei.
    apply Z.eqb_neq in E3. apply Z.eqb_neq in E4. rewrite E3, E4 in Ei. cbn [negb andb] in Ei.
    destruct g as [i|]; [|done]. destruct (img_cacheMap i) eqn:Ec; [done|]. by injection Ei as <-.
  - intros (Hn0 & Hnl & Hr & Hv) Hvu. rewrite select_reply_written in Ew by done. injection Ew as <- <-.
    assert (length (encode_reply (ReplyHdr dnbd3_packet_magic CMD_SELECT_IMAGE
              (Z.of_nat (length (bytesOf (img_name image))) + 13) 0)) = DNBD3_REPLY_SIZE) as El16
      by (unfold encode_reply; by rewrite !length_app, !length_le_bytes).
    rewrite take_app_exact by done. erewrite drop_app_exact by done. rewrite Nat.sub_diag, drop_0.
    apply select_image_reply_read; try done. destruct (_ <? 3); [done|by vm_compute].
Qed.
Lemma handshake_correct_witness :
  exists r, handshake demo_config false false (fun _ _ => (Some demo_image, None)) (Ticks 5 0) 1
      ([3; 0; 100; 101; 109; 111; 0; 1; 0; 0] ++ replicate 990 0) 10 = Ok r /\ r <> None.
Proof.
  destruct (handshake_correct demo_config false false (fun _ _ => (Some demo_image, None)) (Ticks 5 0) 1
      ([3; 0; 100; 101; 109; 111; 0; 1; 0; 0] ++ replicate 990 0) 10 []) as (r & E & _); [by vm_compute|by vm_compute|].
  exists r. split; [exact E|]. vm_compute in E. injection E as <-. done.
Defined.
