(* ===== verification/ImageCrc.v ===== *)
(** * ImageCrc: the checksum list of an image ([src/server/image.c])

    Computing the checksum of a hash block from the file, writing and reading the list
    of checksums ([*.crc]), checking blocks against it and choosing the blocks to check
    when an image is loaded.  A file is its bytes together with what [pread] returns at
    each position; [net_order_32] is the identity on a little endian host. *)

From S2P Require Import Prelude Timing Types Helper CacheMap Uplink Integrity Wire CrcTables Crc32 Net.

(** ** Files *)

Record file := File {
  f_bytes : list Z;
  f_chunk : Z -> Z;   (* how many bytes a read at a position returns at most; 0 or less: an error *)
}.
(** [pread(fd, _, n, pos)]; [[]] is a return value of 0 or -1. *)
Definition pread (f : file) (n pos : Z) : list Z :=
  take (Z.to_nat (Z.min n (f_chunk f pos))) (drop (Z.to_nat pos) (f_bytes f)).
(** [lseek(fd, 0, SEEK_END)] *)
Definition fileLength (f : file) : Z := Z.of_nat (length (f_bytes f)).

Section Crc.
Context (pclmul : bool) (addr : Z).   (* of the buffer, see [crc32] *)

(** ** The checksum of a hash block *)

Definition BSIZE : Z := 512 * 1024.
(** The loop over the bytes in the file. *)
Fixpoint readLoop (fuel : nat) (f : file) (readPos bytesFromFile bytes crc : Z) : option Z :=
  match fuel with
  | O => None
  | S fuel =>
      if bytesFromFile <=? bytes then Some crc
      else
        let n := Z.min BSIZE (bytesFromFile - bytes) in
        let data := pread f n (readPos + bytes) in
        if (length data =? 0)%nat then None
        else readLoop fuel f readPos bytesFromFile (bytes + Z.of_nat (length data)) (crc32 pclmul addr crc (Some data))
  end.
(** The loop over the zeros behind the file. *)
Fixpoint zeroLoop (fuel : nat) (bytes crc : Z) : option Z :=
  match fuel with
  | O => None
  | S fuel =>
      if bytes =? 0 then Some crc
      else
        let len := Z.min BSIZE bytes in
        zeroLoop fuel (bytes - len) (crc32 pclmul addr crc (Some (replicate (Z.to_nat len) 0)))
  end.
(** [None] is the result [false]. *)
Definition image_calcBlockCrc32 (f : file) (block realFilesize : Z) : result (option Z) :=
  let bytesFromFile := Z.min HASH_BLOCK_SIZE (u64 (realFilesize - block * HASH_BLOCK_SIZE)) in
  let vbs := u64 ((u64 (realFilesize + (DNBD3_BLOCK_SIZE - 1)) .& not64 (DNBD3_BLOCK_SIZE - 1)) - block * HASH_BLOCK_SIZE) in
  let virtualBytesFromFile := Z.min HASH_BLOCK_SIZE vbs in
  let readPos := block * HASH_BLOCK_SIZE in
  _ ← assert_ (bytesFromFile <=? vbs);
  let crc := crc32 pclmul addr 0 None in
  match readLoop (S (Z.to_nat bytesFromFile)) f readPos bytesFromFile 0 crc with
  | None => Ok None
  | Some crc =>
      if bytesFromFile <? virtualBytesFromFile then
        let bytes := virtualBytesFromFile - bytesFromFile in
        Ok (zeroLoop (S (Z.to_nat bytes)) bytes crc)
      else Ok (Some crc)
  end.

(** [blocks] up to the terminating [-1]. *)
Fixpoint image_checkBlocksCrc32 (f : file) (crc32list : list Z) (blocks : list Z) (realFilesize : Z) : result bool :=
  match blocks with
  | [] => Fault OutOfBounds
  | block :: rest =>
      if block =? -1 then Ok true
      else
        crc ← image_calcBlockCrc32 f block realFilesize;
        match crc with
        | None => Ok false
        | Some crc =>
            expected ← aget crc32list block;
            if negb (crc =? expected) then Ok false
            else image_checkBlocksCrc32 f crc32list rest realFilesize
        end
  end.

(** ** The file with the list *)

(** The checksums of the blocks, each written with [write]; [wr k] tells whether the
    [k]-th write to the new file succeeds. *)
Fixpoint crcBlocks (n : nat) (f : file) (wr : Z -> bool) (fileLen i : Z) : result (option (list Z)) :=
  match n with
  | O => Ok (Some [])
  | S n =>
      crc ← image_calcBlockCrc32 f i fileLen;
      match crc with
      | None => Ok None
      | Some crc =>
          if negb (wr (i + 1)) then Ok None
          else
            rest ← crcBlocks n f wr fileLen (i + 1);
            Ok (match rest with None => None | Some rest => Some (le_bytes 4 crc ++ rest) end)
      end
  end.
(** Read the list again, at most 400 bytes at a time, for the checksum of the list. *)
Fixpoint masterLoop (fuel : nat) (list : list Z) (blocksToGo crc : Z) : option Z :=
  match fuel with
  | O => None
  | S fuel =>
      if blocksToGo <=? 0 then Some crc
      else
        let numBlocks := Z.min (400 / 4) blocksToGo in
        let data := take (Z.to_nat (numBlocks * 4)) list in
        if negb (Z.of_nat (length data) =? numBlocks * 4) then None
        else masterLoop fuel (drop (Z.to_nat (numBlocks * 4)) list) (blocksToGo - numBlocks) (crc32 pclmul addr crc (Some data))
  end.
(** The contents of the new file; [None] is the result [false].  [exists_] tells whether
    there is such a file already. *)
Definition image_generateCrcFile (f : file) (exists_ : bool) (wr : Z -> bool) : result (option (list Z)) :=
  let fileLen := fileLength f in
  if fileLen <=? 0 then Ok None
  else if exists_ then Ok None
  else if negb (wr 0) then Ok None
  else
    let blockCount := IMGSIZE_TO_HASHBLOCKS fileLen in
    blocks ← crcBlocks (Z.to_nat blockCount) f wr fileLen 0;
    match blocks with
    | None => Ok None
    | Some blocks =>
        match masterLoop (S (Z.to_nat blockCount)) blocks blockCount (crc32 pclmul addr 0 None) with
        | None => Ok None
        | Some crc => if wr (blockCount + 1) then Ok (Some (le_bytes 4 crc ++ blocks)) else Ok None
        end
    end.

(** ** Reading it *)

Inductive read_result := RdData (n : Z) | RdRetry | RdFail.
(** Store bytes at an offset of a buffer. *)
Definition bufferWrite (buf : list Z) (at_ : Z) (data : list Z) : result (list Z) :=
  if (at_ <? 0) || (Z.of_nat (length buf) <? at_ + Z.of_nat (length data)) then Fault OutOfBounds
  else Ok (take (Z.to_nat at_) buf ++ data ++ drop (Z.to_nat at_ + length data) buf).
(** The read loop of [image_loadCrcList]; [retval + pos] advances in units of four bytes. *)
Fixpoint crcReadLoop (script : list read_result) (bytes buf : list Z) (crcFileLen pos : Z) : result (list Z * Z) :=
  if crcFileLen <=? pos then Ok (buf, pos)
  else
    match script with
    | [] | RdFail :: _ => Ok (buf, pos)
    | RdRetry :: script => crcReadLoop script bytes buf crcFileLen pos
    | RdData n :: script =>
        let data := take (Z.to_nat (Z.min n (crcFileLen - pos))) (drop (Z.to_nat (pos + 4)) bytes) in
        if (length data =? 0)%nat then Ok (buf, pos)
        else buf ← bufferWrite buf (4 * pos) data; crcReadLoop script bytes buf crcFileLen (pos + Z.of_nat (length data))
    end.
(** The words of a buffer of [uint32_t]. *)
Fixpoint words (n : nat) (b : list Z) : list Z :=
  match n with O => [] | S n => le_val (take 4 b) :: words n (drop 4 b) end.
(** [None] for [crcFile] is a file that cannot be opened; the result has the list and
    what [*masterCrc] holds afterwards. *)
Definition image_loadCrcList (crcFile : option (list Z)) (masterOk : bool) (script : list read_result) (fileSize masterCrc : Z)
  : result (option (list Z) * Z) :=
  let hashBlocks := IMGSIZE_TO_HASHBLOCKS fileSize in
  match crcFile with
  | None => Ok (None, masterCrc)
  | Some bytes =>
      if Z.of_nat (length bytes) <? (hashBlocks + 1) * 4 then Ok (None, masterCrc)
      else if negb masterOk then Ok (None, masterCrc)
      else
        let masterCrc := le_val (take 4 bytes) in
        let crcFileLen := hashBlocks * 4 in
        '(buf, pos) ← crcReadLoop script bytes (replicate (Z.to_nat crcFileLen) 0) crcFileLen 0;
        if negb (pos =? crcFileLen) then Ok (None, masterCrc)
        else
          let lists_crc := crc32 pclmul addr (crc32 pclmul addr 0 None) (Some buf) in
          if negb (lists_crc =? masterCrc) then Ok (None, masterCrc)
          else Ok (Some (words (Z.to_nat hashBlocks) buf), masterCrc)
  end.

(** ** Choosing blocks to check when an image is loaded *)

(** Store an entry of the array [blocks[count+1]]. *)
Definition storeBlock (count : Z) (blocks : list Z) (b : Z) : result (list Z) :=
  if count + 1 <=? Z.of_nat (length blocks) then Fault OutOfBounds else Ok (blocks ++ [b]).
(** The random picks; [rnd] are the values of the calls of [rand()]. *)
Fixpoint randomBlocks (tries : nat) (complete : Z -> result bool) (hashBlocks count : Z) (rnd : nat -> Z) (blocks : list Z)
  : result (list Z) :=
  match tries with
  | O => Ok blocks
  | S tries =>
      if count <=? Z.of_nat (length blocks) + 1 then Ok blocks
      else
        let block := Z.rem (rnd tries) hashBlocks in
        if bool_decide (block ∈ blocks) then randomBlocks tries complete hashBlocks count rnd blocks
        else
          c ← complete block;
          blocks ← (if (c : bool) then storeBlock count blocks block else Ok blocks);
          randomBlocks tries complete hashBlocks count rnd blocks
  end.
Definition chooseBlocks (count hashBlocks : Z) (complete : Z -> result bool) (rnd : nat -> Z) : result (list Z) :=
  c ← complete 0;
  blocks ← (if (c : bool) then storeBlock count [] 0 else Ok []);
  c ← (if 1 <? hashBlocks then complete (hashBlocks - 1) else Ok false);
  blocks ← (if (c : bool) then storeBlock count blocks (hashBlocks - 1) else Ok blocks);
  randomBlocks (Z.to_nat (count * 5 - 1)) complete hashBlocks count rnd blocks.
(** [Some f]: check synchronously in file [f]; otherwise the blocks go to
    [integrity_check].  The result: the answer and the blocks for the checker. *)
Definition image_checkRandomBlocks (image : dnbd3_image_t) (count : Z) (fromFd : option file) (rnd : nat -> Z)
  : result (bool * list Z) :=
  match img_crc32 image with
  | None => Ok (true, [])
  | Some list =>
      _ ← assert_ (0 <? count);
      let hashBlocks := IMGSIZE_TO_HASHBLOCKS (img_virtualFilesize image) in
      let complete b := image_isHashBlockComplete (img_cacheMap image) (u64 b) (img_virtualFilesize image) in
      blocks ← chooseBlocks count hashBlocks complete rnd;
      match fromFd with
      | None => Ok (true, blocks)
      | Some f =>
          blocks ← storeBlock count blocks (-1);
          ok ← image_checkBlocksCrc32 f list blocks (img_realFilesize image);
          Ok (ok, [])
      end
  end.

(** * The checksum of a block *)

(** The size of a file rounded up to whole blocks, and how much of a hash block it covers. *)
Definition roundUp (real : Z) : Z := 4096 * ((real + 4095) / 4096).
Definition blockLen (real b : Z) : Z := Z.min 16777216 (roundUp real - b * 16777216).
(** The checksum of a hash block: that of its bytes, with zeros up to the next 4 KiB. *)
Definition blockCrc (bytes : list Z) (b : Z) : Z :=
  crc32_ref 0 (imageBytes bytes (b * 16777216) (blockLen (Z.of_nat (length bytes)) b)).
Definition file_ok (f : file) : Prop :=
  Forall in_u8 (f_bytes f) /\ (forall pos, 0 < f_chunk f pos) /\ 0 < fileLength f <= 2 ^ 46 - 2 ^ 15.

Lemma roundUp_range real : real <= roundUp real < real + 4096.
Proof. unfold roundUp. pose proof (Z.div_mod (real + 4095) 4096). pose proof (Z.mod_pos_bound (real + 4095) 4096). lia. Qed.
Lemma crc32_is_ref crc data : Forall in_u8 data -> crc32 pclmul addr crc (Some data) = crc32_ref crc data.
Proof. apply crc32Buf_ref. Qed.

Lemma readLoop_ok f readPos len fuel : forall bytes crc,
  file_ok f -> in_u32 crc -> 0 <= readPos -> 0 <= bytes <= len -> readPos + len <= fileLength f -> len - bytes < Z.of_nat fuel ->
  readLoop fuel f readPos len bytes crc
  = Some (crc32_ref crc (take (Z.to_nat (len - bytes)) (drop (Z.to_nat (readPos + bytes)) (f_bytes f)))).
Proof.
  induction fuel as [|fuel IH]; intros bytes crc Hf Hc Hr Hb Hl Hfuel; [lia|]. cbn [readLoop].
  destruct (Z.leb_spec len bytes).
  { replace (Z.to_nat (len - bytes)) with 0%nat by lia. rewrite take_0. by rewrite crc32_ref_nil. }
  pose proof Hf as (Hu & Hch & Hlen). specialize (Hch (readPos + bytes)). unfold fileLength, BSIZE in *.
  set (data := pread f _ _).
  assert (exists k, 0 < k <= len - bytes /\ data = take (Z.to_nat k) (drop (Z.to_nat (readPos + bytes)) (f_bytes f))
    /\ Z.of_nat (length data) = k) as (k & Hk & Ed & Elen).
  { eexists (Z.min (Z.min (512 * 1024) (len - bytes)) (f_chunk f (readPos + bytes))). split; [lia|]. split; [done|].
    unfold data, pread. rewrite length_take, length_drop. lia. }
  assert (Forall in_u8 data) as Hud by (rewrite Ed; by apply Forall_take, Forall_drop).
  destruct (Nat.eqb_spec (length data) 0); [lia|]. rewrite Elen, crc32_is_ref by done.
  rewrite IH; [|done|apply crc32_ref_range|done|lia|lia|lia]. rewrite crc32_ref_app by done. do 2 f_equal.
  rewrite Ed. replace (Z.to_nat (readPos + (bytes + k))) with (Z.to_nat (readPos + bytes) + Z.to_nat k)%nat by lia.
  rewrite <- drop_drop, take_take_drop. f_equal. lia.
Qed.
Lemma zeroLoop_ok fuel : forall bytes crc,
  in_u32 crc -> 0 <= bytes < Z.of_nat fuel -> zeroLoop fuel bytes crc = Some (crc32_ref crc (replicate (Z.to_nat bytes) 0)).
Proof.
  induction fuel as [|fuel IH]; intros bytes crc Hc Hb; [lia|]. cbn [zeroLoop]. unfold BSIZE.
  destruct (Z.eqb_spec bytes 0) as [->|]; [by rewrite crc32_ref_nil|].
  assert (forall n, Forall in_u8 (replicate n 0)) as Hz by (intros k; apply Forall_replicate; crange).
  rewrite crc32_is_ref by done. rewrite IH; [|apply crc32_ref_range|lia]. rewrite crc32_ref_app by done.
  rewrite <- replicate_add. do 3 f_equal. lia.
Qed.
Lemma blockLen_range real b : 0 <= b -> b * 16777216 < real ->
  0 < Z.min 16777216 (real - b * 16777216) <= blockLen real b.
Proof. intros. pose proof (roundUp_range real). unfold blockLen. lia. Qed.
Lemma image_calcBlockCrc32_ok f b :
  file_ok f -> 0 <= b -> b * 16777216 < fileLength f ->
  image_calcBlockCrc32 f b (fileLength f) = Ok (Some (blockCrc (f_bytes f) b)).
Proof.
  intros Hf Hb Hlt. pose proof (blockLen_range _ _ Hb Hlt) as Hbl. pose proof Hf as (Hu & _ & Hlen). set (real := fileLength f) in *.
  pose proof (roundUp_range real) as Hru. unfold image_calcBlockCrc32, DNBD3_BLOCK_SIZE. rewrite HASH_BLOCK_SIZE_val.
  change (4096 - 1) with (2 ^ 12 - 1). rewrite land_not64_pow2 by (apply u64_range || lia).
  rewrite (u64_id (real + _)) by crange. change (2 ^ 12 * ((real + (2 ^ 12 - 1)) / 2 ^ 12)) with (roundUp real).
  rewrite !u64_id by crange. fold (blockLen real b). set (bff := Z.min 16777216 (real - b * 16777216)) in *.
  assert ((bff <=? roundUp real - b * 16777216) = true) as -> by (apply Z.leb_le; lia). cbn [assert_ mbind result_bind].
  change (crc32 pclmul addr 0 None) with 0.
  rewrite (readLoop_ok f (b * 16777216) bff) by (done || crange || lia). rewrite Z.add_0_r, Z.sub_0_r.
  set (data := take _ _). assert (Forall in_u8 data) by (unfold data; by apply Forall_take, Forall_drop).
  unfold blockCrc. fold real. change (Z.of_nat (length (f_bytes f))) with real.
  rewrite (imageBytes_split (f_bytes f) (b * 16777216) (blockLen real b) bff); unfold real, fileLength, blockLen in *; [|lia..].
  fold data. destruct (Z.ltb_spec bff (Z.min 16777216 (roundUp (Z.of_nat (length (f_bytes f))) - b * 16777216))).
  - rewrite zeroLoop_ok by (apply crc32_ref_range || lia). by rewrite crc32_ref_app.
  - replace (Z.to_nat (_ - bff)) with 0%nat by lia. by rewrite app_nil_r.
Qed.

(** * The list of checksums *)

Definition numBlocks (real : Z) : Z := (real + 16777215) / 16777216.
Definition crcList (bytes : list Z) : list Z :=
  map (fun k => blockCrc bytes (Z.of_nat k)) (seq 0 (Z.to_nat (numBlocks (Z.of_nat (length bytes))))).
Definition encodeList (l : list Z) : list Z := concat (map (le_bytes 4) l).

Lemma numBlocks_spec real b : 0 <= b -> (b < numBlocks real <-> b * 16777216 < real).
Proof.
  intros Hb. unfold numBlocks. pose proof (Z.div_mod (real + 16777215) 16777216). pose proof (Z.mod_pos_bound (real + 16777215) 16777216). lia.
Qed.
(** Rounding the size up to whole blocks does not add a hash block. *)
Lemma numBlocks_roundUp real : numBlocks (roundUp real) = numBlocks real.
Proof.
  unfold numBlocks, roundUp. replace (real + 16777215) with ((real + 4095) + 4095 * 4096) by lia.
  replace (4096 * ((real + 4095) / 4096) + 16777215) with (4095 + (4096 * ((real + 4095) / 4096) + 4095 * 4096)) by lia.
  change 16777216 with (4096 * 4096). rewrite <- !Z.div_div by lia. rewrite Z.div_add by lia.
  replace (4096 * ((real + 4095) / 4096) + 4095 * 4096) with (((real + 4095) / 4096 + 4095) * 4096) by lia.
  rewrite Z.div_add by lia. by rewrite (Z.div_small 4095 4096).
Qed.
Lemma hash_count f : file_ok f ->
  IMGSIZE_TO_HASHBLOCKS (fileLength f) = numBlocks (fileLength f)
  /\ IMGSIZE_TO_HASHBLOCKS (roundUp (fileLength f)) = numBlocks (fileLength f) /\ 0 < numBlocks (fileLength f) < 2 ^ 24.
Proof.
  intros (_ & _ & Hl). pose proof (roundUp_range (fileLength f)). split_and!.
  - apply hash_blocks_val. lia.
  - rewrite hash_blocks_val by lia. apply numBlocks_roundUp.
  - apply numBlocks_spec; lia.
  - unfold numBlocks. apply Z.div_lt_upper_bound; lia.
Qed.
Lemma le_bytes_u8 n x : Forall in_u8 (le_bytes n x).
Proof.
  revert x. induction n as [|n IH]; intros x; cbn [le_bytes]; constructor; [|apply IH].
  pose proof (Z.mod_pos_bound x 256). crange.
Qed.
Lemma encodeList_u8 l : Forall in_u8 (encodeList l).
Proof. induction l as [|x l IH]; [constructor|]. apply list.Forall_app. split; [apply le_bytes_u8|apply IH]. Qed.
Lemma length_encodeList l : length (encodeList l) = (4 * length l)%nat.
Proof.
  induction l as [|x l IH]; [done|]. unfold encodeList in *. cbn [map concat length]. rewrite length_app, length_le_bytes, IH. lia.
Qed.
Lemma words_encodeList l : Forall in_u32 l -> words (length l) (encodeList l) = l.
Proof.
  intros Hl. induction Hl as [|x l Hx _ IH]; [done|]. unfold encodeList in *. cbn [map concat length words].
  rewrite take_app_length', drop_app_length' by (by rewrite length_le_bytes). rewrite IH, le_val_bytes by crange. done.
Qed.
Lemma crcList_u32 bytes : Forall in_u32 (crcList bytes).
Proof. apply List.Forall_map, list.Forall_forall. intros k _. apply crc32_ref_range. Qed.
Lemma length_crcList bytes : length (crcList bytes) = Z.to_nat (numBlocks (Z.of_nat (length bytes))).
Proof. unfold crcList. by rewrite length_map, length_seq. Qed.

Lemma crcBlocks_ok f wr : file_ok f -> (forall k, wr k = true) -> forall n i,
  Z.of_nat (i + n) <= numBlocks (fileLength f) ->
  crcBlocks n f wr (fileLength f) (Z.of_nat i)
  = Ok (Some (encodeList (map (fun k => blockCrc (f_bytes f) (Z.of_nat k)) (seq i n)))).
Proof.
  intros Hf Hwr. induction n as [|n IH]; intros i Hi; cbn [crcBlocks seq map]; [done|].
  rewrite image_calcBlockCrc32_ok; [|done|lia|apply numBlocks_spec; lia]. cbn [mbind result_bind]. rewrite Hwr. cbn [negb].
  replace (Z.of_nat i + 1) with (Z.of_nat (S i)) by lia. rewrite IH by lia. done.
Qed.
Lemma masterLoop_ok fuel : forall list blocksToGo crc,
  in_u32 crc -> Forall in_u8 list -> Z.of_nat (length list) = 4 * blocksToGo -> blocksToGo < Z.of_nat fuel ->
  masterLoop fuel list blocksToGo crc = Some (crc32_ref crc list).
Proof.
  induction fuel as [|fuel IH]; intros list blocksToGo crc Hc Hu Hl Hf; [lia|]. cbn [masterLoop]. change (400 / 4) with 100.
  destruct (Z.leb_spec blocksToGo 0).
  { assert (list = []) as -> by (apply nil_length_inv; lia). by rewrite crc32_ref_nil. }
  set (n := Z.min 100 blocksToGo). set (data := take _ list).
  assert (Z.of_nat (length data) = n * 4) as Ed by (unfold data; rewrite length_take; lia). rewrite Ed, Z.eqb_refl. cbn [negb].
  assert (Forall in_u8 data) by (by apply Forall_take). rewrite crc32_is_ref by done.
  rewrite IH; [|apply crc32_ref_range|by apply Forall_drop|rewrite length_drop; lia|lia].
  rewrite crc32_ref_app by done. unfold data. by rewrite take_drop.
Qed.
Lemma generate_ok f wr :
  file_ok f -> (forall k, wr k = true) ->
  image_generateCrcFile f false wr
  = Ok (Some (le_bytes 4 (crc32_ref 0 (encodeList (crcList (f_bytes f)))) ++ encodeList (crcList (f_bytes f)))).
Proof.
  intros Hf Hwr. destruct (hash_count f Hf) as (E1 & _ & Hn). pose proof Hf as (_ & _ & Hl). unfold image_generateCrcFile.
  destruct (Z.leb_spec (fileLength f) 0); [lia|]. rewrite !Hwr, E1. cbn [negb].
  pose proof (crcBlocks_ok f wr Hf Hwr (Z.to_nat (numBlocks (fileLength f))) 0 ltac:(lia)) as Ec. change (Z.of_nat 0) with 0 in Ec. rewrite Ec. clear Ec.
  cbn [mbind result_bind]. change (map _ (seq 0 (Z.to_nat (numBlocks (fileLength f))))) with (crcList (f_bytes f)).
  change (crc32 pclmul addr 0 None) with 0.
  rewrite masterLoop_ok; [done|crange|apply encodeList_u8| |lia].
  rewrite length_encodeList, length_crcList. unfold fileLength in *. lia.
Qed.
Lemma crcReadLoop_done script bytes buf len pos : len <= pos -> crcReadLoop script bytes buf len pos = Ok (buf, pos).
Proof. intros Hl. destruct script; cbn [crcReadLoop]; by rewrite (proj2 (Z.leb_le _ _) Hl). Qed.
(** Loading what was written for any list of checksums. *)
Lemma loadCrcList_any l fileSize script n master :
  Forall in_u32 l -> IMGSIZE_TO_HASHBLOCKS fileSize = Z.of_nat (length l) -> (0 < length l)%nat -> 4 * Z.of_nat (length l) <= n ->
  image_loadCrcList (Some (le_bytes 4 (crc32_ref 0 (encodeList l)) ++ encodeList l)) true (RdData n :: script) fileSize master
  = Ok (Some l, crc32_ref 0 (encodeList l)).
Proof.
  intros Hu E2 HN Hn. unfold image_loadCrcList. rewrite E2. pose proof (length_encodeList l) as Hlen. set (list := encodeList l) in *.
  rewrite length_app, length_le_bytes, Hlen. destruct (Z.ltb_spec (Z.of_nat (4 + 4 * length l)) ((Z.of_nat (length l) + 1) * 4)); [lia|].
  cbn [negb crcReadLoop]. destruct (Z.leb_spec (Z.of_nat (length l) * 4) 0); [lia|].
  rewrite Z.sub_0_r, Z.min_r by lia. change (Z.to_nat (0 + 4)) with 4%nat. rewrite drop_app_length' by (by rewrite length_le_bytes).
  rewrite (take_ge list) by lia. destruct (Nat.eqb_spec (length list) 0); [lia|]. unfold bufferWrite. rewrite length_replicate, Hlen.
  change (4 * 0) with 0. destruct (Z.ltb_spec 0 0); [lia|]. rewrite Z.add_0_l. cbn [orb].
  destruct (Z.ltb_spec (Z.of_nat (Z.to_nat (Z.of_nat (length l) * 4))) (Z.of_nat (4 * length l))); [lia|].
  cbn [mbind result_bind Z.to_nat]. rewrite take_0. cbn [app]. rewrite Nat.add_0_l, drop_ge by (rewrite length_replicate; lia). rewrite app_nil_r.
  rewrite crcReadLoop_done by lia. cbn [mbind result_bind]. rewrite (proj2 (Z.eqb_eq _ (Z.of_nat (length l) * 4))) by lia.
  cbn [negb]. rewrite take_app_length' by (by rewrite length_le_bytes).
  change (crc32 pclmul addr 0 None) with 0. rewrite crc32_is_ref by apply encodeList_u8.
  rewrite le_val_bytes by apply crc32_ref_range. rewrite Z.eqb_refl. cbn [negb].
  do 3 f_equal. rewrite Nat2Z.id. by apply words_encodeList.
Qed.
Lemma loadCrcList_ok f script n master :
  file_ok f -> 4 * numBlocks (fileLength f) <= n ->
  let list := encodeList (crcList (f_bytes f)) in
  image_loadCrcList (Some (le_bytes 4 (crc32_ref 0 list) ++ list)) true (RdData n :: script) (roundUp (fileLength f)) master
  = Ok (Some (crcList (f_bytes f)), crc32_ref 0 list).
Proof.
  intros Hf Hn list. destruct (hash_count f Hf) as (_ & E2 & HN).
  assert (Z.of_nat (length (crcList (f_bytes f))) = numBlocks (fileLength f)) as El by (rewrite length_crcList; unfold fileLength in *; lia).
  apply loadCrcList_any; [apply crcList_u32|lia..].
Qed.
Lemma check_ok f g blocks :
  file_ok f -> file_ok g -> fileLength g = fileLength f -> Forall (fun b => 0 <= b < numBlocks (fileLength f)) blocks ->
  image_checkBlocksCrc32 g (crcList (f_bytes f)) (blocks ++ [-1]) (fileLength g)
  = Ok (forallb (fun b => blockCrc (f_bytes g) b =? blockCrc (f_bytes f) b) blocks).
Proof.
  intros Hf Hg El Hb. induction Hb as [|b blocks Hb _ IH]; [done|]. cbn [app image_checkBlocksCrc32 forallb].
  destruct (Z.eqb_spec b (-1)); [lia|]. rewrite image_calcBlockCrc32_ok; [|done|lia|rewrite El; apply numBlocks_spec; lia].
  cbn [mbind result_bind].
  assert (aget (crcList (f_bytes f)) b = Ok (blockCrc (f_bytes f) b)) as ->.
  { apply aget_ok; [lia|]. unfold crcList. change (map ?h ?l) with (h <$> l). rewrite list_lookup_fmap, lookup_seq_lt by (unfold fileLength in Hb; lia).
    cbn. by rewrite Z2Nat.id by lia. }
  cbn [mbind result_bind]. destruct (_ =? _); [by rewrite IH|done].
Qed.

(** The checksum list: generating it for a file and loading it back (with one read)
    gives the checksum of every hash block, and checking blocks of a file of that size
    against it succeeds exactly if their checksums are those of the original file; in
    particular the file itself passes. *)
Theorem crc_file_roundtrip f g wr script n master blocks :
  file_ok f -> file_ok g -> fileLength g = fileLength f -> (forall k, wr k = true) -> 4 * numBlocks (fileLength f) <= n ->
  Forall (fun b => 0 <= b < numBlocks (fileLength f)) blocks ->
  exists crcFile m, image_generateCrcFile f false wr = Ok (Some crcFile)
    /\ image_loadCrcList (Some crcFile) true (RdData n :: script) (roundUp (fileLength f)) master = Ok (Some (crcList (f_bytes f)), m)
    /\ image_checkBlocksCrc32 g (crcList (f_bytes f)) (blocks ++ [-1]) (fileLength g)
       = Ok (forallb (fun b => blockCrc (f_bytes g) b =? blockCrc (f_bytes f) b) blocks)
    /\ image_checkBlocksCrc32 f (crcList (f_bytes f)) (blocks ++ [-1]) (fileLength f) = Ok true.
Proof.
  intros Hf Hg El Hwr Hn Hb. eexists _, _. split; [by apply generate_ok|]. split; [by apply loadCrcList_ok|]. split; [by apply check_ok|].
  rewrite check_ok by done. f_equal. apply forallb_forall. intros b _. apply Z.eqb_refl.
Qed.
End Crc.

Definition demo_crc_file (x : Z) : file := File (x :: map (fun k => Z.of_nat k mod 256) (seq 1 299)) (fun _ => 100).
Lemma demo_file_ok x : in_u8 x -> file_ok (demo_crc_file x).
Proof.
  intros Hx. split_and!; [|by cbn|by vm_compute|by vm_compute]. constructor; [done|]. cbn [f_bytes demo_crc_file].
  apply (bool_decide_eq_true_1 (Forall (fun x => 0 <= x < 2 ^ 8) (map (fun k => Z.of_nat k mod 256) (seq 1 299)))). by vm_compute.
Qed.
Lemma crc_file_roundtrip_witness :
  exists crcFile m,
    image_generateCrcFile true 0 (demo_crc_file 0) false (fun _ => true) = Ok (Some crcFile)
    /\ image_loadCrcList true 0 (Some crcFile) true [RdData 1000] (roundUp 300) 0 = Ok (Some (crcList (f_bytes (demo_crc_file 0))), m)
    /\ image_checkBlocksCrc32 true 0 (demo_crc_file 5) (crcList (f_bytes (demo_crc_file 0))) ([0] ++ [-1]) 300 = Ok false.
Proof.
  destruct (crc_file_roundtrip true 0 (demo_crc_file 0) (demo_crc_file 5) (fun _ => true) [] 1000 0 [0]) as (c & m & H1 & H2 & H3 & _).
  - apply demo_file_ok. by vm_compute.
  - apply demo_file_ok. by vm_compute.
  - done.
  - done.
  - by vm_compute.
  - by repeat constructor.
  - exists c, m. split; [exact H1|]. split; [exact H2|]. etransitivity; [exact H3|]. vm_compute. reflexivity.
Defined.

(** A short read of the checksum list overflows its buffer: the list is read in more
    than one piece, and the second piece is stored at four times its offset. *)
Theorem crc_short_read_overflows :
  image_loadCrcList true 0 (Some (le_bytes 4 7 ++ le_bytes 4 9)) true [RdData 2; RdData 2] 4096 0 = Fault OutOfBounds.
Proof. vm_compute. reflexivity. Qed.

(** * The blocks checked when an image is loaded *)

Section Choose.
Context (count hashBlocks : Z) (complete : Z -> result bool) (ok : Z -> bool).
Context (Hcount : 2 <= count) (Hblocks : 0 < hashBlocks).
Context (Hcomplete : forall b, 0 <= b < hashBlocks -> complete b = Ok (ok b)).

(** What is known of the chosen blocks at any time. *)
Definition chosen (blocks : list Z) : Prop :=
  base.NoDup blocks /\ Forall (fun b => 0 <= b < hashBlocks /\ ok b = true) blocks /\ Z.of_nat (length blocks) <= count.
Lemma chosen_add blocks b :
  chosen blocks -> Z.of_nat (length blocks) < count -> (b ∉ blocks) -> 0 <= b < hashBlocks -> ok b = true ->
  storeBlock count blocks b = Ok (blocks ++ [b]) /\ chosen (blocks ++ [b]).
Proof.
  intros (H1 & H2 & H3) Hl Hb Hr Ho. unfold storeBlock. destruct (Z.leb_spec (count + 1) (Z.of_nat (length blocks))); [lia|].
  split; [done|]. split_and!.
  - apply list.NoDup_app. split_and!; [done| |apply NoDup_singleton]. intros x Hx ->%list_elem_of_singleton. done.
  - apply list.Forall_app. split; [done|]. apply Forall_singleton. done.
  - rewrite length_app. cbn. lia.
Qed.
Lemma randomBlocks_chosen rnd tries : (forall k, 0 <= rnd k) -> forall blocks, chosen blocks ->
  exists blocks', randomBlocks tries complete hashBlocks count rnd blocks = Ok blocks' /\ chosen blocks'.
Proof.
  intros Hr. induction tries as [|k IH]; intros blocks Hb; cbn [randomBlocks]; [eauto|].
  destruct (Z.leb_spec count (Z.of_nat (length blocks) + 1)); [eauto|].
  pose proof (Z.rem_bound_pos (rnd k) hashBlocks (Hr k) Hblocks) as Hrem. case_bool_decide as Hin; [by apply IH|].
  rewrite Hcomplete by done. cbn [mbind result_bind]. destruct (ok _) eqn:Eo; [|by apply IH].
  destruct (chosen_add blocks _ Hb ltac:(lia) Hin Hrem Eo) as [-> Hb']. by apply IH.
Qed.
Lemma chooseBlocks_chosen rnd : (forall k, 0 <= rnd k) ->
  exists blocks, chooseBlocks count hashBlocks complete rnd = Ok blocks /\ chosen blocks.
Proof.
  intros Hr. assert (chosen []) as H0 by (split_and!; [constructor|constructor|cbn; lia]).
  unfold chooseBlocks. rewrite (Hcomplete 0) by lia. cbn [mbind result_bind].
  assert (exists b0, (if ok 0 then storeBlock count [] 0 else Ok []) = Ok b0 /\ chosen b0 /\ (length b0 <= 1)%nat
    /\ Forall (eq 0) b0) as (b0 & -> & H1 & Hl & Hz).
  { destruct (ok 0) eqn:E; [|exists []; split; [done|]; split; [exact H0|]; split; [cbn; lia|apply Forall_nil; done]].
    destruct (chosen_add [] 0 H0 ltac:(cbn; lia) ltac:(apply not_elem_of_nil) ltac:(lia) E) as [-> ?]. exists [0]. split; [done|]. split; [done|]. split; [done|by apply Forall_singleton]. }
  cbn [mbind result_bind]. destruct (Z.ltb_spec 1 hashBlocks); cbn [mbind result_bind].
  - rewrite (Hcomplete (hashBlocks - 1)) by lia. cbn [mbind result_bind]. destruct (ok (hashBlocks - 1)) eqn:E; [|by apply randomBlocks_chosen].
    destruct (chosen_add b0 (hashBlocks - 1) H1 ltac:(lia)) as [-> ?]; [|lia|done|by apply randomBlocks_chosen].
    intros Hin. rewrite list.Forall_forall in Hz. specialize (Hz _ Hin). lia.
  - by apply randomBlocks_chosen.
Qed.
End Choose.

(** Checking an image when it is loaded: with a cache map that fits the image and a
    bound of at least two blocks, [image_checkRandomBlocks] stays inside its array and
    hands distinct, complete blocks of the image to the checker, at most as many as asked. *)
Theorem image_checkRandomBlocks_correct pclmul addr image list count rnd :
  img_crc32 image = Some list -> 2 <= count -> (forall k, 0 <= rnd k) ->
  0 < IMGSIZE_TO_HASHBLOCKS (img_virtualFilesize image) ->
  (forall b, 0 <= b < IMGSIZE_TO_HASHBLOCKS (img_virtualFilesize image) ->
     exists c, image_isHashBlockComplete (img_cacheMap image) (u64 b) (img_virtualFilesize image) = Ok c) ->
  exists blocks, image_checkRandomBlocks pclmul addr image count None rnd = Ok (true, blocks)
    /\ base.NoDup blocks /\ Z.of_nat (length blocks) <= count
    /\ (forall b, b ∈ blocks -> 0 <= b < IMGSIZE_TO_HASHBLOCKS (img_virtualFilesize image)
          /\ image_isHashBlockComplete (img_cacheMap image) (u64 b) (img_virtualFilesize image) = Ok true).
Proof.
  intros Hcrc Hc Hr Hn Hcomp. unfold image_checkRandomBlocks. rewrite Hcrc, (proj2 (Z.ltb_lt 0 count)) by lia. cbn [assert_ mbind result_bind].
  set (H := IMGSIZE_TO_HASHBLOCKS _) in *. set (complete := fun b => image_isHashBlockComplete _ _ _).
  set (ok := fun b => match complete b with Ok c => c | Fault _ => false end).
  assert (forall b, 0 <= b < H -> complete b = Ok (ok b)) as Hok.
  { intros b Hb. destruct (Hcomp b Hb) as [c E]. unfold ok, complete. by rewrite E. }
  destruct (chooseBlocks_chosen count H complete ok Hc Hn Hok rnd Hr) as (blocks & -> & H1 & H2 & H3). cbn [mbind result_bind].
  exists blocks. split_and!; [done..|]. intros b Hb. rewrite list.Forall_forall in H2. destruct (H2 b Hb) as [Hb1 Hb2].
  split; [done|]. change (complete b = Ok true). by rewrite Hok, Hb2.
Qed.
Definition demo_random_image : dnbd3_image_t :=
  Image "/srv/a"%string "a"%string None (3 * 16777216) (3 * 16777216) (Ticks 0 0) (Ticks 0 0) (Some [1; 2; 3]) 0 5 (-1) 0 1
    (Problems false false false false false) 1 false.
Lemma image_checkRandomBlocks_correct_witness :
  exists blocks, image_checkRandomBlocks true 0 demo_random_image 4 None (fun k => Z.of_nat k) = Ok (true, blocks)
    /\ Z.of_nat (length blocks) <= 4.
Proof.
  destruct (image_checkRandomBlocks_correct true 0 demo_random_image [1; 2; 3] 4 (fun k => Z.of_nat k)) as (blocks & H1 & _ & H2 & _).
  - done.
  - done.
  - intros k. lia.
  - by vm_compute.
  - intros b _. by exists true.
  - exists blocks. split; [exact H1|exact H2].
Defined.

(** With a bound of one block, which is how [image_ensureOpen] checks an image whose
    size changed back, the function writes behind the end of its array as soon as the
    first and the last hash block of the image are complete. *)
Theorem single_block_check_overflows :
  image_checkRandomBlocks true 0 demo_random_image 1 (Some (demo_crc_file 0)) (fun k => Z.of_nat k) = Fault OutOfBounds.
Proof. vm_compute. reflexivity. Qed.
