(* ===== verification/FuseQueue.v ===== *)
(** * FuseQueue: the pending requests of the FUSE client ([src/fuse/connection.c])

    The client keeps the read requests of the file system in a linked list until a server
    has answered them.  The first part models the list as the code has it, structs with
    [next] pointers in a heap, and shows that it implements a queue.  The second part lets
    the threads of the client (the file system, the receiver of every connection and the
    background thread that probes servers and switches between them) work on it in any
    order. *)

From stdpp Require Export gmap.
From S2P Require Import Prelude Timing Types Helper.

Open Scope Z_scope.

(** ** The list *)

Record dnbd3_async_t := Async {
  a_next : ptr;
  a_time : ticks;
  a_offset : Z;
  a_length : Z;
  a_fuse_req : Z;
}.
Record requests := Requests {
  q_heap : gmap Z dnbd3_async_t;
  q_head : ptr;
  q_tail : ptr;
}.
Definition deref (h : gmap Z dnbd3_async_t) (p : ptr) : result dnbd3_async_t :=
  if p =? NULL then Fault NullDeref
  else match h !! p with Some a => Ok a | None => Fault UseAfterFree end.
Definition set_next (n : ptr) (a : dnbd3_async_t) : dnbd3_async_t :=
  Async n (a_time a) (a_offset a) (a_length a) (a_fuse_req a).
Definition set_time (t : ticks) (a : dnbd3_async_t) : dnbd3_async_t :=
  Async (a_next a) t (a_offset a) (a_length a) (a_fuse_req a).

Definition enqueueRequest (now : ticks) (q : requests) (request : ptr) : result requests :=
  a ← deref (q_heap q) request;
  let h := <[request := set_time now (set_next NULL a)]> (q_heap q) in
  if q_head q =? NULL then Ok (Requests h request request)
  else
    t ← deref h (q_tail q);
    Ok (Requests (<[q_tail q := set_next request t]> h) (q_head q) request).

(** The search of [removeRequest]; the list has fewer entries than the heap, so the fuel
    does not run out. *)
Fixpoint removeFrom (fuel : nat) (q : requests) (request iterator prev : ptr) : result (requests * ptr) :=
  match fuel with
  | O => Fault OutOfBounds
  | S fuel =>
      if iterator =? NULL then Ok (q, NULL)
      else
        a ← deref (q_heap q) iterator;
        if iterator =? request then
          q ← (if negb (prev =? NULL) then
                 b ← deref (q_heap q) prev;
                 Ok (Requests (<[prev := set_next (a_next a) b]> (q_heap q)) (q_head q) (q_tail q))
               else Ok (Requests (q_heap q) (a_next a) (q_tail q)));
          Ok (Requests (q_heap q) (q_head q) (if q_tail q =? iterator then prev else q_tail q), iterator)
        else removeFrom fuel q request (a_next a) iterator
  end.
Definition removeRequest (q : requests) (request : ptr) : result (requests * ptr) :=
  removeFrom (S (size (q_heap q))) q request (q_head q) NULL.
(** [switchConnection] takes all entries out of the list. *)
Definition detachQueue (q : requests) : requests * ptr := (Requests (q_heap q) NULL NULL, q_head q).

(** ** The client *)

Record fuse_client := FuseClient {
  fc_requests : requests;
  fc_sock : Z;                            (* [connection.sockFd]; [-1]: not connected *)
  fc_wire : list (Z * ptr * Z * Z);       (* sent and not answered: socket, handle, offset, length *)
  fc_hands : list (ptr * Z * Z);          (* taken out of the list, its data is being received: request, range of the data *)
  fc_resend : ptr;                        (* the entries [switchConnection] still has to queue again *)
  fc_probe : option (ptr * Z * Z);        (* what [probeAltServers] asks a server for in panic mode *)
  fc_answers : list (Z * Z * Z);          (* [fuse_reply_buf]: request of the file system, range of the data *)
  fc_issued : list (Z * Z * Z);           (* what the file system asked for: request, offset, length *)
  fc_used : gset Z;                       (* addresses a request ever had *)
  fc_sending : ptr;                       (* queued, and about to be sent by the thread that has [connection.sendMutex] *)
}.
Definition fc_set (q : requests) (sock : Z) (wire : list (Z * ptr * Z * Z)) (c : fuse_client) : fuse_client :=
  FuseClient q sock wire (fc_hands c) (fc_resend c) (fc_probe c) (fc_answers c) (fc_issued c) (fc_used c) (fc_sending c).
Definition fc_set_hands (h : list (ptr * Z * Z)) (c : fuse_client) : fuse_client :=
  FuseClient (fc_requests c) (fc_sock c) (fc_wire c) h (fc_resend c) (fc_probe c) (fc_answers c) (fc_issued c) (fc_used c) (fc_sending c).
Definition fc_set_resend (p : ptr) (c : fuse_client) : fuse_client :=
  FuseClient (fc_requests c) (fc_sock c) (fc_wire c) (fc_hands c) p (fc_probe c) (fc_answers c) (fc_issued c) (fc_used c) (fc_sending c).
Definition fc_set_probe (p : option (ptr * Z * Z)) (c : fuse_client) : fuse_client :=
  FuseClient (fc_requests c) (fc_sock c) (fc_wire c) (fc_hands c) (fc_resend c) p (fc_answers c) (fc_issued c) (fc_used c) (fc_sending c).
Definition fc_set_sending (p : ptr) (c : fuse_client) : fuse_client :=
  FuseClient (fc_requests c) (fc_sock c) (fc_wire c) (fc_hands c) (fc_resend c) (fc_probe c) (fc_answers c) (fc_issued c) (fc_used c) p.

(** [dnbd3_get_block] on the connection, if there is one; a connection that cannot be
    written to is given up. *)
Definition sendRequest (sendOk : bool) (c : fuse_client) (request : ptr) : result fuse_client :=
  if fc_sock c =? -1 then Ok c
  else
    a ← deref (q_heap (fc_requests c)) request;
    if sendOk then Ok (fc_set (fc_requests c) (fc_sock c) (fc_wire c ++ [(fc_sock c, request, a_offset a, a_length a)]) c)
    else Ok (fc_set (fc_requests c) (-1) (fc_wire c) c).
(** [connection_read] has two parts, both with [connection.sendMutex] held: the request is queued, and then it is
    sent.  [requests.lock] is only held inside [enqueueRequest], so that the receivers and the background thread, which
    take requests out of the list without [connection.sendMutex], can run between the two. *)
Definition connection_read_enqueue (now : ticks) (c : fuse_client) (request : ptr) : result fuse_client :=
  q ← enqueueRequest now (fc_requests c) request;
  Ok (fc_set_sending request (fc_set q (fc_sock c) (fc_wire c) c)).
Definition connection_read_send (sendOk : bool) (c : fuse_client) : result fuse_client :=
  c' ← sendRequest sendOk c (fc_sending c);
  Ok (fc_set_sending NULL c').
(** Nobody else runs between the parts. *)
Definition connection_read (now : ticks) (sendOk : bool) (c : fuse_client) (request : ptr) : result fuse_client :=
  c ← connection_read_enqueue now c request;
  connection_read_send sendOk c.
(** The receiver has read the header of a block reply; [request] is [reply.handle], the
    data that follows is that of the range. *)
Definition matchReply (c : fuse_client) (request offset length : Z) : result fuse_client :=
  '(q, found) ← removeRequest (fc_requests c) request;
  let c := fc_set q (fc_sock c) (fc_wire c) c in
  if found =? NULL then Ok c   (* thrown away *)
  else Ok (fc_set_hands (fc_hands c ++ [(found, offset, length)]) c).
(** The data is there: answer and free the request. *)
Definition answerRequest (c : fuse_client) (request offset length : Z) : result fuse_client :=
  a ← deref (q_heap (fc_requests c)) request;
  let q := fc_requests c in
  Ok (FuseClient (Requests (delete request (q_heap q)) (q_head q) (q_tail q)) (fc_sock c) (fc_wire c) (fc_hands c)
        (fc_resend c) (fc_probe c) (fc_answers c ++ [(a_fuse_req a, offset, length)]) (fc_issued c) (fc_used c) (fc_sending c)).
(** One turn of the loop of [switchConnection] that queues the requests again: it queues the next one, and then sends
    it as [connection_read_send] does. *)
Definition resendEnqueue (now : ticks) (c : fuse_client) : result fuse_client :=
  a ← deref (q_heap (fc_requests c)) (fc_resend c);
  let it := fc_resend c in
  connection_read_enqueue now (fc_set_resend (a_next a) c) it.

(** What the threads can do. *)
Inductive fuse_event :=
| FRead (request : ptr) (offset length : Z) (now : ticks)   (* a read of the file system is queued *)
| FSend (sendOk : bool)                                 (* the request that was just queued is sent *)
| FReply (k : nat)                                      (* a server answers the [k]-th request under way *)
| FData (k : nat) (ok : bool) (now : ticks)             (* the data of a matched reply arrives; if not, it is queued again *)
| FLost (sock : Z)                                      (* a receiver ends, or a keepalive cannot be sent *)
| FSwitch (sock : Z) (ok : bool)                        (* [switchConnection]; [ok]: the new connection is alive *)
| FResend (now : ticks)                                 (* its loop queues the next request again *)
| FProbe                                                (* panic mode: ask for what the first request wants *)
| FProbeReply                                           (* a probed server answers *)
| FProbeEnd.

(** With [fresh] no request gets the address of an earlier one.  While a request is being sent, nobody else can have
    [connection.sendMutex]; taking requests out of the list and answering them does not need it. *)
Definition fenabled (fresh : bool) (c : fuse_client) (e : fuse_event) : bool :=
  let mutex := fc_sending c =? NULL in
  match e with
  | FRead p _ _ _ =>
      mutex && negb (p =? NULL) && bool_decide (q_heap (fc_requests c) !! p = None) && negb (fresh && bool_decide (p ∈ fc_used c))
  | FSend _ => negb mutex
  | FReply k => bool_decide (is_Some (fc_wire c !! k))
  | FData k ok _ => (ok || mutex) && bool_decide (is_Some (fc_hands c !! k))
  | FLost sock => mutex && (fc_sock c =? sock)
  | FSwitch sock _ => mutex && negb (sock =? -1) && (fc_resend c =? NULL)
  | FResend _ => mutex && negb (fc_resend c =? NULL)
  | FProbe => negb (q_head (fc_requests c) =? NULL)
  | _ => true
  end.
Definition fstep (c : fuse_client) (e : fuse_event) : result fuse_client :=
  match e with
  | FRead p offset length now =>
      let id := Z.of_nat (Datatypes.length (fc_issued c)) in
      let q := fc_requests c in
      let q := Requests (<[p := Async NULL (Ticks 0 0) offset length id]> (q_heap q)) (q_head q) (q_tail q) in
      connection_read_enqueue now
        (FuseClient q (fc_sock c) (fc_wire c) (fc_hands c) (fc_resend c) (fc_probe c) (fc_answers c)
           (fc_issued c ++ [(id, offset, length)]) ({[p]} ∪ fc_used c) (fc_sending c)) p
  | FSend sendOk => connection_read_send sendOk c
  | FReply k =>
      match fc_wire c !! k with
      | None => Ok c
      | Some (_, p, offset, length) =>
          matchReply (fc_set (fc_requests c) (fc_sock c) (delete k (fc_wire c)) c) p offset length
      end
  | FData k ok now =>
      match fc_hands c !! k with
      | None => Ok c
      | Some (p, offset, length) =>
          let c := fc_set_hands (delete k (fc_hands c)) c in
          if ok then answerRequest c p offset length else connection_read_enqueue now c p
      end
  | FLost _ => Ok (fc_set (fc_requests c) (-1) (fc_wire c) c)
  | FSwitch sock ok =>
      if ok then
        let '(q, queue) := detachQueue (fc_requests c) in
        Ok (fc_set_resend queue (fc_set q sock (fc_wire c) c))
      else Ok (fc_set (fc_requests c) (-1) (fc_wire c) c)
  | FResend now => resendEnqueue now c
  | FProbe =>
      a ← deref (q_heap (fc_requests c)) (q_head (fc_requests c));
      Ok (fc_set_probe (Some (q_head (fc_requests c), a_offset a, a_length a)) c)
  | FProbeReply =>
      match fc_probe c with
      | None => Ok c
      | Some (p, offset, length) => matchReply c p offset length
      end
  | FProbeEnd => Ok (fc_set_probe None c)
  end.
Fixpoint frun (fresh : bool) (c : fuse_client) (es : list fuse_event) : result fuse_client :=
  match es with
  | [] => Ok c
  | e :: es => if fenabled fresh c e then c ← fstep c e; frun fresh c es else frun fresh c es
  end.
Definition fuse0 (sock : Z) : fuse_client := FuseClient (Requests ∅ NULL NULL) sock [] [] NULL None [] [] ∅ NULL.

(** * The list implements a queue *)

(** The structs from [p] on along [next] are those of [l]. *)
Fixpoint chain (h : gmap Z dnbd3_async_t) (p : ptr) (l : list ptr) : Prop :=
  match l with
  | [] => p = NULL
  | x :: r => p = x /\ x <> NULL /\ exists a, h !! x = Some a /\ chain h (a_next a) r
  end.
Definition queue_repr (q : requests) (l : list ptr) : Prop :=
  chain (q_heap q) (q_head q) l /\ base.NoDup l /\ (l <> [] -> list.last l = Some (q_tail q)).
(** What a request asks for and for whom; the list leaves it alone. *)
Definition asks (a : dnbd3_async_t) : Z * Z * Z := (a_fuse_req a, a_offset a, a_length a).
Definition same_requests (h h' : gmap Z dnbd3_async_t) : Prop := forall x, asks <$> h' !! x = asks <$> h !! x.

Lemma same_refl h : same_requests h h.
Proof. by intros x. Qed.
Lemma same_trans h1 h2 h3 : same_requests h1 h2 -> same_requests h2 h3 -> same_requests h1 h3.
Proof. intros H1 H2 x. by rewrite H2, H1. Qed.
Lemma same_insert h p a b : h !! p = Some a -> asks b = asks a -> same_requests h (<[p := b]> h).
Proof.
  intros Hp Hb x. destruct (decide (x = p)) as [->|]; [rewrite lookup_insert_eq, Hp; cbn; by rewrite Hb|by rewrite lookup_insert_ne].
Qed.
Lemma same_alive h h' x : same_requests h h' -> is_Some (h !! x) -> is_Some (h' !! x).
Proof. intros Hs [a Ha]. specialize (Hs x). rewrite Ha in Hs. destruct (h' !! x); [by eexists|done]. Qed.
#[local] Hint Resolve same_refl same_trans : core.

Lemma chain_frame h p l x a : chain h p l -> (x ∉ l) -> chain (<[x := a]> h) p l.
Proof.
  revert p. induction l as [|y l IH]; intros p; cbn [chain]; [done|]. rewrite not_elem_of_cons. intros (-> & Hn & b & Hb & Hc) [Hxy Hx].
  split; [done|]. split; [done|]. exists b. rewrite lookup_insert_ne by done. split; [done|]. by apply IH.
Qed.
Lemma chain_alive h p l x : chain h p l -> x ∈ l -> x <> NULL /\ is_Some (h !! x).
Proof.
  revert p. induction l as [|y l IH]; intros p; cbn [chain]; [intros _ []%not_elem_of_nil|].
  intros (-> & Hn & b & Hb & Hc) [->|Hx]%elem_of_cons; [by split; [|eexists]|by eapply IH].
Qed.
Lemma chain_delete h p l x : chain h p l -> (x ∉ l) -> chain (delete x h) p l.
Proof.
  revert p. induction l as [|y l IH]; intros p; cbn [chain]; [done|]. rewrite not_elem_of_cons. intros (-> & Hn & b & Hb & Hc) [Hxy Hx].
  split; [done|]. split; [done|]. exists b. rewrite lookup_delete_ne by done. split; [done|]. by apply IH.
Qed.
Lemma chain_snoc h p l t x a b :
  chain h p (l ++ [t]) -> base.NoDup (l ++ [t]) -> (x ∉ l ++ [t]) -> x <> NULL -> h !! t = Some a -> h !! x = Some b -> a_next b = NULL ->
  chain (<[t := set_next x a]> h) p (l ++ [t; x]).
Proof.
  intros Hc Hnd Hx Hn Ht Hb Hbn. revert p Hc. induction l as [|y l IH]; intros p; cbn [app chain].
  - intros (-> & Htn & _). split; [done|]. split; [done|]. eexists. rewrite lookup_insert_eq. split; [done|]. cbn. split; [done|]. split; [done|].
    exists b. rewrite lookup_insert_ne by (intros ->; apply Hx; set_solver). done.
  - cbn [app] in Hnd, Hx. apply list.NoDup_cons in Hnd as [Hy Hnd]. apply not_elem_of_cons in Hx as [Hxy Hx].
    intros (-> & Hyn & c & Hc & Hrest). split; [done|]. split; [done|]. exists c.
    rewrite lookup_insert_ne by (intros ->; apply Hy; set_solver). split; [done|]. by apply IH.
Qed.
Lemma chain_unlink h p l t x r a b :
  chain h p (l ++ t :: x :: r) -> base.NoDup (l ++ t :: x :: r) -> h !! t = Some a -> h !! x = Some b ->
  chain (<[t := set_next (a_next b) a]> h) p (l ++ t :: r).
Proof.
  intros Hc Hnd Ht Hx. revert p Hc. induction l as [|y l IH]; intros p; cbn [app chain].
  - intros (-> & Htn & a' & Ha' & _ & Hxn & b' & Hb' & Hr). split; [done|]. split; [done|]. eexists. rewrite lookup_insert_eq. split; [done|].
    cbn [a_next set_next]. simplify_eq. apply chain_frame; [done|]. cbn [app] in Hnd. apply list.NoDup_cons in Hnd as [Hnt _]. set_solver.
  - cbn [app] in Hnd. apply list.NoDup_cons in Hnd as [Hy Hnd]. intros (-> & Hyn & c & Hc & Hrest). split; [done|]. split; [done|]. exists c.
    rewrite lookup_insert_ne by (intros ->; apply Hy; set_solver). split; [done|]. by apply IH.
Qed.
Lemma deref_ok h p a : p <> NULL -> h !! p = Some a -> deref h p = Ok a.
Proof. intros Hp Ha. unfold deref. by rewrite (proj2 (Z.eqb_neq _ _) Hp), Ha. Qed.

Lemma enqueue_repr now q l p a :
  queue_repr q l -> (p ∉ l) -> p <> NULL -> q_heap q !! p = Some a ->
  exists q', enqueueRequest now q p = Ok q' /\ queue_repr q' (l ++ [p]) /\ same_requests (q_heap q) (q_heap q')
    /\ (forall k r, chain (q_heap q) k r -> (forall x, x ∈ r -> x <> p /\ (x ∉ l)) -> chain (q_heap q') k r).
Proof.
  intros (Hc & Hnd & Hl) Hp Hn Ha. unfold enqueueRequest. rewrite (deref_ok _ _ _ Hn Ha). cbn [mbind result_bind].
  set (h := <[p := _]> (q_heap q)). assert (chain h (q_head q) l) as Hc' by (by apply chain_frame).
  assert (same_requests (q_heap q) h) as Hs by (by eapply same_insert).
  assert (base.NoDup (l ++ [p])) as Hnd' by (apply list.NoDup_app; split_and!; [done|set_solver|apply NoDup_singleton]).
  assert (forall k r, chain (q_heap q) k r -> (forall x, x ∈ r -> x <> p /\ (x ∉ l)) -> chain h k r) as Hfr.
  { intros k r Hk Hr. apply chain_frame; [done|]. intros Hin. by destruct (Hr p Hin). }
  destruct l as [|y l]; cbn [chain] in Hc.
  - rewrite Hc, Z.eqb_refl. eexists. split; [done|]. split; [|done]. split_and!; [|done|done]. cbn [chain q_heap q_head]. split; [done|]. split; [done|].
    eexists. split; [apply lookup_insert_eq|done].
  - destruct Hc as (Hhead & Hyn & _). rewrite Hhead, (proj2 (Z.eqb_neq _ _) Hyn).
    specialize (Hl ltac:(done)). destruct (list.last_Some (y :: l) (q_tail q)) as [[l' El] _]; [done|]. rewrite El in *.
    assert (q_tail q ∈ l' ++ [q_tail q]) as Htin by set_solver.
    destruct (chain_alive _ _ _ _ Hc' Htin) as (Htn & t & Ht). rewrite (deref_ok _ _ _ Htn Ht). cbn [mbind result_bind].
    eexists. split; [done|]. split; [split; [|split]|split]; cbn [q_heap q_head q_tail].
    + replace ((l' ++ [q_tail q]) ++ [p]) with (l' ++ [q_tail q; p]) by (by rewrite <- app_assoc). rewrite <- ?Hhead.
      eapply chain_snoc; [done|done|done|done|done|unfold h; by rewrite lookup_insert_eq|done].
    + done.
    + intros _. by rewrite list.last_snoc.
    + eapply same_trans; [done|]. by eapply same_insert.
    + intros k r Hk Hr. apply chain_frame; [by apply Hfr|]. intros Hin. destruct (Hr _ Hin) as [_ H]. apply H. set_solver.
Qed.

(** Taking an entry out. *)
Definition without (p : ptr) (l : list ptr) : list ptr := filter (fun x => x <> p) l.
Lemma without_absent p l : (p ∉ l) -> without p l = l.
Proof.
  induction l as [|x l IH]; [done|]. rewrite not_elem_of_cons. intros [Hx Hl]. unfold without in *.
  rewrite filter_cons_True by congruence. by rewrite IH.
Qed.
Lemma without_middle p l r : (p ∉ l) -> (p ∉ r) -> without p (l ++ p :: r) = l ++ r.
Proof.
  intros Hl Hr. unfold without. rewrite list.filter_app, filter_cons_False by (intros []; done).
  pose proof (without_absent p l Hl) as E1. pose proof (without_absent p r Hr) as E2. unfold without in E1, E2. by rewrite E1, E2.
Qed.
Lemma elem_of_without p x l : x ∈ without p l <-> x ∈ l /\ x <> p.
Proof. unfold without. rewrite list_elem_of_filter. naive_solver. Qed.

Lemma removeFrom_repr q p rest : forall pre fuel iterator,
  chain (q_heap q) (q_head q) (pre ++ rest) -> base.NoDup (pre ++ rest) -> list.last (pre ++ rest) = Some (q_tail q) \/ pre ++ rest = [] ->
  chain (q_heap q) iterator rest -> (p ∉ pre) -> (length rest < fuel)%nat ->
  exists q', removeFrom fuel q p iterator (default NULL (list.last pre)) = Ok (q', if decide (p ∈ rest) then p else NULL)
    /\ queue_repr q' (without p (pre ++ rest)) /\ same_requests (q_heap q) (q_heap q')
    /\ (forall k r, chain (q_heap q) k r -> (forall x, x ∈ r -> x ∉ pre ++ rest) -> chain (q_heap q') k r).
Proof.
  induction rest as [|y rest IH]; intros pre fuel iterator Hc Hnd Hl Hi Hp Hf; (destruct fuel as [|fuel]; [cbn in Hf; lia|]).
  - cbn [chain] in Hi. subst iterator. exists q. rewrite app_nil_r in *. cbn [removeFrom]. rewrite Z.eqb_refl.
    rewrite decide_False by apply not_elem_of_nil. split; [done|]. rewrite without_absent by done. split; [|done]. split_and!; [done..|naive_solver].
  - destruct Hi as (-> & Hyn & a & Ha & Hrest). cbn [removeFrom]. rewrite (proj2 (Z.eqb_neq _ _) Hyn), (deref_ok _ _ _ Hyn Ha). cbn [mbind result_bind].
    destruct Hl as [Hl|]; [|by destruct pre].
    destruct (Z.eqb_spec y p) as [->|Hyp].
    + rewrite decide_True by set_solver.
      assert (p ∉ rest) as Hpr by (apply list.NoDup_app in Hnd as (_ & _ & Hnd); by apply list.NoDup_cons in Hnd as [? _]).
      rewrite without_middle by done.
      destruct (list.last pre) as [t|] eqn:Et.
      * apply list.last_Some in Et as [pre' ->]. change (default NULL (Some t)) with t.
        replace ((pre' ++ [t]) ++ p :: rest) with (pre' ++ t :: p :: rest) in * by (by rewrite <- app_assoc).
        destruct (chain_alive _ _ _ t Hc ltac:(set_solver)) as (Htn & b & Hb).
        rewrite (proj2 (Z.eqb_neq _ _) Htn), (deref_ok _ _ _ Htn Hb). cbn [negb mbind result_bind q_heap q_head q_tail].
        eexists. split; [done|]. cbn [q_heap q_head q_tail].
        replace ((pre' ++ [t]) ++ rest) with (pre' ++ t :: rest) by (by rewrite <- app_assoc).
        assert (base.NoDup (pre' ++ t :: rest)) as Hnd'.
        { eapply (sublist_NoDup _ (pre' ++ t :: p :: rest)); [done|]. apply sublist_app; [done|]. by apply sublist_skip, sublist_cons. }
        split; [split; [|split]|split]; cbn [q_heap q_head q_tail].
        -- by eapply chain_unlink.
        -- done.
        -- intros _. rewrite list.last_app_cons in *. destruct rest as [|z rest]; cbn in Hl |- *.
           ++ injection Hl as ->. by rewrite Z.eqb_refl.
           ++ destruct (Z.eqb_spec (q_tail q) p) as [Ep|]; [|done]. exfalso. apply Hpr.
              assert (list.last (z :: rest) = Some p) as Hz by (rewrite <- Ep; done). apply list.last_Some in Hz as [l' ->]. set_solver.
        -- by eapply same_insert.
        -- intros k r Hk Hr. apply chain_frame; [done|]. intros Hin. apply (Hr t Hin). set_solver.
      * apply list.last_None in Et as ->. change (default NULL None) with NULL. cbn [app] in *. rewrite Z.eqb_refl. cbn [negb mbind result_bind q_heap q_head q_tail].
        eexists. split; [done|]. split; [split; [|split]|split]; cbn [q_heap q_head q_tail].
        -- done.
        -- by apply list.NoDup_cons in Hnd as [_ ?].
        -- intros Hr. destruct (Z.eqb_spec (q_tail q) p) as [Ep|].
           ++ exfalso. destruct rest as [|z rest]; [done|]. cbn in Hl. apply Hpr.
              assert (list.last (z :: rest) = Some p) as Hz by (rewrite <- Ep; done). apply list.last_Some in Hz as [l' ->]. set_solver.
           ++ by destruct rest.
        -- done.
        -- done.
    + destruct (IH (pre ++ [y]) fuel (a_next a)) as (q' & E & H1 & H2 & H3).
      * by rewrite <- app_assoc.
      * by rewrite <- app_assoc.
      * left. by rewrite <- app_assoc.
      * done.
      * set_solver.
      * cbn in Hf. lia.
      * rewrite list.last_snoc in E. change (default NULL (Some y)) with y in E. exists q'. rewrite <- app_assoc in *. cbn [app] in *.
        split; [|done]. rewrite E. do 2 f_equal. destruct (decide (p ∈ rest)), (decide (p ∈ y :: rest)); set_solver.
Qed.
Lemma chain_length h p l : chain h p l -> base.NoDup l -> (length l <= size h)%nat.
Proof.
  intros Hc Hnd. rewrite <- size_dom. rewrite <- (size_list_to_set (C := gset Z)) by done. apply subseteq_size.
  intros x Hx. rewrite elem_of_list_to_set in Hx. apply elem_of_dom. by eapply chain_alive.
Qed.
Lemma remove_repr q l p :
  queue_repr q l ->
  exists q', removeRequest q p = Ok (q', if decide (p ∈ l) then p else NULL)
    /\ queue_repr q' (without p l) /\ same_requests (q_heap q) (q_heap q')
    /\ (forall k r, chain (q_heap q) k r -> (forall x, x ∈ r -> x ∉ l) -> chain (q_heap q') k r).
Proof.
  intros (Hc & Hnd & Hl). pose proof (chain_length _ _ _ Hc Hnd). unfold removeRequest.
  apply (removeFrom_repr q p l [] (S (size (q_heap q))) (q_head q)); cbn [app]; [done|done| |done|apply not_elem_of_nil|lia].
  destruct l; [by right|left; by apply Hl].
Qed.

(** The linked list of pending requests is a queue: adding a request appends it,
    removing one takes out exactly that one (and reports whether it was there), taking
    the list apart leaves it empty; the structs are reached through valid pointers only
    and what the requests ask for does not change. *)
Theorem request_list_refines q l :
  queue_repr q l ->
  (forall now p a, (p ∉ l) -> p <> NULL -> q_heap q !! p = Some a ->
     exists q', enqueueRequest now q p = Ok q' /\ queue_repr q' (l ++ [p]) /\ same_requests (q_heap q) (q_heap q'))
  /\ (forall p, exists q', removeRequest q p = Ok (q', if decide (p ∈ l) then p else NULL)
        /\ queue_repr q' (without p l) /\ same_requests (q_heap q) (q_heap q'))
  /\ (exists q', detachQueue q = (q', q_head q) /\ queue_repr q' [] /\ chain (q_heap q') (q_head q) l).
Proof.
  intros Hq. split_and!.
  - intros now p a Hp Hn Ha. destruct (enqueue_repr now q l p a Hq Hp Hn Ha) as (q' & ? & ? & ? & _). eauto.
  - intros p. destruct (remove_repr q l p Hq) as (q' & ? & ? & ? & _). eauto.
  - eexists. split; [done|]. split; [|apply Hq]. split_and!; [done|constructor|done].
Qed.
Definition demo_requests : requests :=
  Requests (<[100 := Async 200 (Ticks 0 0) 0 4096 1]> (<[200 := Async NULL (Ticks 0 0) 4096 4096 2]>
    (<[300 := Async 55 (Ticks 0 0) 8192 4096 3]> ∅))) 100 200.
Lemma request_list_refines_witness :
  exists q', removeRequest demo_requests 200 = Ok (q', 200) /\ queue_repr q' [100].
Proof.
  destruct (request_list_refines demo_requests [100; 200]) as (_ & H2 & _).
  - split; [|split].
    + cbn. split; [done|]. split; [done|]. eexists. split; [done|]. split; [done|]. split; [done|]. eexists. done.
    + by apply (bool_decide_eq_true_1 _).
    + done.
  - destruct (H2 200) as (q' & E & Hq & _). exists q'. split; [exact E|exact Hq].
Defined.

(** * Every read is answered once, with its own data *)

(** What the requests behind some pointers ask for. *)
Definition asksOf (h : gmap Z dnbd3_async_t) (l : list ptr) : list (Z * Z * Z) := omap (fun x => asks <$> h !! x) l.
Definition handPtrs (c : fuse_client) : list ptr := map (fun x => x.1.1) (fc_hands c).
(** The requests a reply may still come for, each with the range that was asked for. *)
Definition refs (c : fuse_client) : list (ptr * Z * Z) :=
  map (fun w => match w with (_, p, o, n) => (p, o, n) end) (fc_wire c) ++ fc_hands c ++ option_list (fc_probe c).

(** [l] is the queue, [r] what is left to queue again, [extra] what the current step
    holds. *)
Record client_ok (extra l r : list ptr) (c : fuse_client) : Prop := ClientOk {
  co_queue : queue_repr (fc_requests c) l;
  co_resend : chain (q_heap (fc_requests c)) (fc_resend c) r;
  co_nodup : base.NoDup (l ++ r ++ handPtrs c ++ extra);
  co_alive : forall x, is_Some (q_heap (fc_requests c) !! x) <-> x ∈ l ++ r ++ handPtrs c ++ extra;
  co_null : q_heap (fc_requests c) !! NULL = None;
  co_account : fc_answers c ++ asksOf (q_heap (fc_requests c)) (l ++ r ++ handPtrs c ++ extra) ≡ₚ fc_issued c;
  co_refs : forall p o n, (p, o, n) ∈ refs c -> p ∈ fc_used c /\
              forall a, q_heap (fc_requests c) !! p = Some a -> a_offset a = o /\ a_length a = n;
  co_used : forall x, is_Some (q_heap (fc_requests c) !! x) -> x ∈ fc_used c;
  co_ids : map (fun i => i.1.1) (fc_issued c) = map Z.of_nat (seq 0 (length (fc_issued c)));
}.
Definition client_inv (c : fuse_client) : Prop := exists l r, client_ok [] l r c.

Lemma asksOf_app h l k : asksOf h (l ++ k) = asksOf h l ++ asksOf h k.
Proof. apply omap_app. Qed.
Lemma asksOf_perm h l k : l ≡ₚ k -> asksOf h l ≡ₚ asksOf h k.
Proof. unfold asksOf. by intros ->. Qed.
Lemma asksOf_same h h' l : same_requests h h' -> asksOf h' l = asksOf h l.
Proof. intros Hs. unfold asksOf. induction l as [|x l IH]; [done|]. cbn. rewrite IH. by rewrite (Hs x). Qed.
Lemma asksOf_one h x a : h !! x = Some a -> asksOf h [x] = [asks a].
Proof. intros Ha. unfold asksOf. cbn. by rewrite Ha. Qed.
Lemma asksOf_delete h x l : (x ∉ l) -> asksOf (delete x h) l = asksOf h l.
Proof.
  unfold asksOf. induction l as [|y l IH]; [done|]. rewrite not_elem_of_cons. intros [Hy Hl]. cbn. rewrite IH by done.
  by rewrite lookup_delete_ne.
Qed.
Lemma asksOf_insert h x a l : (x ∉ l) -> asksOf (<[x := a]> h) l = asksOf h l.
Proof.
  unfold asksOf. induction l as [|y l IH]; [done|]. rewrite not_elem_of_cons. intros [Hy Hl]. cbn. rewrite IH by done.
  by rewrite lookup_insert_ne.
Qed.
Lemma same_lookup h h' x a : same_requests h h' -> h' !! x = Some a -> exists b, h !! x = Some b /\ asks b = asks a.
Proof.
  intros Hs Ha. specialize (Hs x). rewrite Ha in Hs. cbn in Hs. destruct (h !! x) as [b|]; [|done]. exists b. split; [done|]. cbn in Hs. congruence.
Qed.
Lemma same_none h h' x : same_requests h h' -> h !! x = None -> h' !! x = None.
Proof. intros Hs Hx. specialize (Hs x). rewrite Hx in Hs. by destruct (h' !! x). Qed.

(** The same requests at other places. *)
Lemma client_move c c' extra l r extra' l' r' :
  client_ok extra l r c ->
  same_requests (q_heap (fc_requests c)) (q_heap (fc_requests c')) ->
  l ++ r ++ handPtrs c ++ extra ≡ₚ l' ++ r' ++ handPtrs c' ++ extra' ->
  queue_repr (fc_requests c') l' -> chain (q_heap (fc_requests c')) (fc_resend c') r' ->
  fc_answers c' = fc_answers c -> fc_issued c' = fc_issued c -> fc_used c' = fc_used c ->
  (forall p o n, (p, o, n) ∈ refs c' -> (p, o, n) ∈ refs c
     \/ exists a, q_heap (fc_requests c) !! p = Some a /\ a_offset a = o /\ a_length a = n) ->
  client_ok extra' l' r' c'.
Proof.
  intros [Hq Hr Hnd Ha Hn Hacc Href Hu Hid] Hs Hp Hq' Hr' Ea Ei Eu Href'. split; try done.
  - by rewrite <- Hp.
  - intros x. rewrite <- Hp, <- Ha. split; intros H; [|by eapply same_alive]. destruct H as [a H].
    destruct (same_lookup _ _ _ _ Hs H) as (b & ? & _). by eexists.
  - by eapply same_none.
  - rewrite Ea, Ei, (asksOf_same _ _ _ Hs). etrans; [|exact Hacc]. apply Permutation_app_head, asksOf_perm. by symmetry.
  - intros p o n Hin. rewrite Eu.
    assert (p ∈ fc_used c /\ forall a, q_heap (fc_requests c) !! p = Some a -> a_offset a = o /\ a_length a = n) as [H1 H2].
    { destruct (Href' p o n Hin) as [|(a & Hpa & H1 & H2)]; [by apply Href|]. split; [apply Hu; by eexists|].
      intros b Hb. by simplify_eq. }
    split; [done|]. intros a Hpa. destruct (same_lookup _ _ _ _ Hs Hpa) as (b & Hb & E). destruct (H2 b Hb). unfold asks in E. by simplify_eq.
  - intros x [a Hx]. rewrite Eu. destruct (same_lookup _ _ _ _ Hs Hx) as (b & Hb & _). apply Hu. by eexists.
  - by rewrite Ei.
Qed.
Lemma extra_alive c p l r :
  client_ok [p] l r c -> exists a, p <> NULL /\ q_heap (fc_requests c) !! p = Some a /\ (p ∉ l) /\ (p ∉ r) /\ (p ∉ handPtrs c).
Proof.
  intros [Hq Hr Hnd Ha Hn _ _ _ _]. destruct (proj2 (Ha p)) as [a Hp]; [set_solver|]. exists a. split; [congruence|]. split; [done|].
  rewrite !app_assoc in Hnd. apply list.NoDup_app in Hnd as (_ & Hd & _).
  assert (p ∉ (l ++ r) ++ handPtrs c) as H by (intros H; by apply (Hd p H), list_elem_of_singleton). set_solver.
Qed.

(** [connection_read] puts the request into the queue. *)
Lemma read_inv now c p l r :
  client_ok [p] l r c ->
  exists q', connection_read_enqueue now c p = Ok (fc_set_sending p (fc_set q' (fc_sock c) (fc_wire c) c))
    /\ same_requests (q_heap (fc_requests c)) (q_heap q')
    /\ client_ok [] (l ++ [p]) r (fc_set_sending p (fc_set q' (fc_sock c) (fc_wire c) c)).
Proof.
  intros Hc. destruct (extra_alive c p l r Hc) as (a & Hn & Hp & Hpl & Hpr & Hph).
  destruct (enqueue_repr now (fc_requests c) l p a (co_queue _ _ _ _ Hc) Hpl Hn Hp) as (q' & Eq & Hq' & Hs & Hfr).
  unfold connection_read_enqueue. rewrite Eq. cbn [mbind result_bind]. exists q'. split; [done|]. split; [done|].
  assert (chain (q_heap q') (fc_resend c) r) as Hr.
  { apply Hfr; [apply Hc|]. intros x Hx. split; [congruence|]. intros Hxl.
    pose proof (co_nodup _ _ _ _ Hc) as Hnd. apply list.NoDup_app in Hnd as (_ & Hd & _). apply (Hd x Hxl). set_solver. }
  eapply (client_move c _ [p] l r); [done|done| |done|done|done|done|done|by left].
  change (handPtrs _) with (handPtrs c) at 2. rewrite app_nil_r, <- app_assoc. apply Permutation_app_head.
  rewrite (Permutation_app_comm [p]), <- app_assoc. done.
Qed.
(** One turn of the loop of [switchConnection]. *)
Lemma resend_inv now c p l r :
  client_ok [] l (p :: r) c ->
  exists a q', q_heap (fc_requests c) !! p = Some a /\ fc_resend c = p /\ p <> NULL
    /\ let c' := fc_set_sending p (fc_set q' (fc_sock c) (fc_wire c) (fc_set_resend (a_next a) c)) in
       resendEnqueue now c = Ok c' /\ same_requests (q_heap (fc_requests c)) (q_heap q') /\ client_ok [] (l ++ [p]) r c'.
Proof.
  intros Hc. destruct (co_resend _ _ _ _ Hc) as (Ep & Hn & a & Ha & Hr). unfold resendEnqueue. rewrite Ep, (deref_ok _ _ _ Hn Ha). cbn [mbind result_bind].
  set (c1 := fc_set_resend _ c). assert (client_ok [p] l r c1) as Hc1.
  { eapply (client_move c c1 [] l (p :: r)); [done|apply same_refl| |apply Hc|done|done|done|done|by left].
    unfold c1, handPtrs. cbn. rewrite app_nil_r. apply Permutation_app_head. rewrite app_assoc. apply Permutation_cons_append. }
  destruct (read_inv now c1 p l r Hc1) as (q' & E & Hs & Hc'). by exists a, q'.
Qed.
(** A reply finds its request or is dropped. *)
Lemma match_inv c p o n :
  client_inv c -> (forall a, q_heap (fc_requests c) !! p = Some a -> a_offset a = o /\ a_length a = n) ->
  exists c', matchReply c p o n = Ok c' /\ client_inv c'.
Proof.
  intros (l & r & Hc) Hrange. destruct (remove_repr (fc_requests c) l p (co_queue _ _ _ _ Hc)) as (q' & Eq & Hq' & Hs & Hfr).
  unfold matchReply. rewrite Eq. cbn [mbind result_bind].
  pose proof (co_nodup _ _ _ _ Hc) as Hnd. rewrite app_nil_r in Hnd.
  assert (chain (q_heap q') (fc_resend c) r) as Hr.
  { apply Hfr; [apply Hc|]. intros x Hx Hxl. apply list.NoDup_app in Hnd as (_ & Hd & _). apply (Hd x Hxl). set_solver. }
  destruct (decide (p ∈ l)) as [Hpl|Hpl].
  - destruct (chain_alive _ _ _ _ (proj1 (co_queue _ _ _ _ Hc)) Hpl) as [Hpn [a Hpa]].
    rewrite (proj2 (Z.eqb_neq _ _) Hpn). eexists. split; [done|]. exists (without p l), r.
    eapply (client_move c _ [] l r); [done|done| |done|done|done|done|done|].
    + unfold handPtrs. cbn. rewrite map_app, !app_nil_r. cbn. apply list_elem_of_split in Hpl as (l1 & l2 & ->).
      assert ((p ∉ l1) /\ (p ∉ l2)) as [H1 H2].
      { apply list.NoDup_app in Hnd as (Hnd & _ & _). apply list.NoDup_app in Hnd as (_ & Hd & Hnd2). apply list.NoDup_cons in Hnd2 as [? _].
        split; [intros Hp1; by apply (Hd p Hp1); left|done]. }
      rewrite without_middle by done. rewrite <- !app_assoc. apply Permutation_app_head. cbn.
      rewrite !app_assoc. apply Permutation_cons_append.
    + intros p' o' n'. unfold refs. cbn. rewrite !elem_of_app, list_elem_of_singleton.
      intros [|[[|H]|]]; [tauto|tauto| |tauto]. simplify_eq. right. exists a. split; [done|]. by apply Hrange.
  - rewrite Z.eqb_refl. eexists. split; [done|]. exists l, r. rewrite without_absent in Hq' by done.
    eapply (client_move c _ [] l r); try done. by left.
Qed.
(** Answering a request. *)
Lemma answer_inv c p o n l r :
  client_ok [p] l r c -> p ∈ fc_used c -> (forall a, q_heap (fc_requests c) !! p = Some a -> a_offset a = o /\ a_length a = n) ->
  exists c', answerRequest c p o n = Ok c' /\ client_ok [] l r c'.
Proof.
  intros Hc Hused Hrange. destruct (extra_alive c p l r Hc) as (a & Hn & Hp & Hpl & Hpr & Hph).
  unfold answerRequest. rewrite (deref_ok _ _ _ Hn Hp). cbn [mbind result_bind]. eexists. split; [done|].
  destruct Hc as [Hq Hr Hnd Ha Hnull Hacc Href Hu Hid]. destruct (Hrange a Hp) as [<- <-]. unfold handPtrs in *.
  assert (forall x, x ∈ l ++ r ++ map (fun x => x.1.1) (fc_hands c) -> x <> p) as Hne by (intros x Hx ->; set_solver).
  split; cbn; unfold handPtrs; cbn; rewrite ?app_nil_r.
  - destruct Hq as (H1 & H2 & H3). split_and!; [by apply chain_delete|done|done].
  - by apply chain_delete.
  - rewrite !app_assoc in *. by apply list.NoDup_app in Hnd as (? & _ & _).
  - intros x. destruct (decide (x = p)) as [->|Hx].
    + rewrite lookup_delete_eq. split; [by intros [? ?]|]. intros Hin. exfalso. by apply (Hne p Hin).
    + rewrite lookup_delete_ne, Ha by done. set_solver.
  - rewrite lookup_delete_ne by done. done.
  - rewrite asksOf_delete by (intros Hin; by apply (Hne p Hin)). rewrite <- Hacc. rewrite !asksOf_app, (asksOf_one _ _ _ Hp).
    rewrite <- app_assoc. apply Permutation_app_head. rewrite !app_assoc. apply Permutation_cons_append.
  - intros p' o' n' Hin. destruct (Href p' o' n' Hin) as [H1 H2]. split; [done|]. intros b [_ Hb]%lookup_delete_Some. eauto.
  - intros x [b [_ Hb]%lookup_delete_Some]. apply Hu. by eexists.
  - done.
Qed.

Lemma read_step c p o n now :
  client_inv c -> p <> NULL -> q_heap (fc_requests c) !! p = None -> (p ∉ fc_used c) ->
  exists c', fstep c (FRead p o n now) = Ok c' /\ client_inv c'.
Proof.
  intros (l & r & Hc) Hn Hp Hused. cbn [fstep]. set (id := Z.of_nat _). set (c1 := FuseClient _ _ _ _ _ _ _ _ _ _).
  assert (client_ok [p] l r c1) as Hc1.
  { destruct Hc as [Hq Hr Hnd Ha Hnull Hacc Href Hu Hid]. unfold handPtrs in *. rewrite app_nil_r in *.
    assert (p ∉ l ++ r ++ map (fun x => x.1.1) (fc_hands c)) as Hnew by (intros Hin; apply Ha in Hin as [? ?]; congruence).
    unfold c1. split; cbn; unfold handPtrs; cbn.
    - destruct Hq as (H1 & H2 & H3). split_and!; [apply chain_frame; [done|set_solver]|done|done].
    - apply chain_frame; [done|set_solver].
    - rewrite !app_assoc in *. apply list.NoDup_app. split_and!; [done|set_solver|apply NoDup_singleton].
    - intros x. destruct (decide (x = p)) as [->|Hx]; [rewrite lookup_insert_eq; split; [set_solver|by eexists]|].
      rewrite lookup_insert_ne, Ha by done. set_solver.
    - by rewrite lookup_insert_ne.
    - rewrite !app_assoc, asksOf_app, (asksOf_one _ _ _ (lookup_insert_eq _ _ _)). rewrite <- (app_assoc l), asksOf_insert by done.
      rewrite app_assoc. by apply Permutation_app_tail.
    - intros p' o' n' Hin. destruct (Href p' o' n' Hin) as [H1 H2]. split; [set_solver|].
      intros b. rewrite lookup_insert_ne by (intros ->; done). apply H2.
    - intros x. destruct (decide (x = p)) as [->|]; [set_solver|]. rewrite lookup_insert_ne by done. intros Hx. apply elem_of_union_r, Hu, Hx.
    - rewrite map_app, Hid, length_app. cbn. rewrite Nat.add_1_r, seq_S, map_app. done. }
  destruct (read_inv now c1 p l r Hc1) as (q' & E & _ & Hc'). eexists. split; [exact E|]. by exists (l ++ [p]), r.
Qed.

Lemma handPtrs_delete (hs : list (ptr * Z * Z)) k p o n :
  hs !! k = Some (p, o, n) -> map (fun x : ptr * Z * Z => x.1.1) hs ≡ₚ map (fun x : ptr * Z * Z => x.1.1) (delete k hs) ++ [p].
Proof.
  intros Hk. rewrite <- Permutation_cons_append. rewrite (delete_Permutation hs k _ Hk) at 1. done.
Qed.
Lemma data_step c k ok now :
  client_inv c -> is_Some (fc_hands c !! k) -> exists c', fstep c (FData k ok now) = Ok c' /\ client_inv c'.
Proof.
  intros (l & r & Hc) [[[p o] n] Hk]. cbn [fstep]. rewrite Hk. set (c1 := fc_set_hands _ c).
  assert (client_ok [p] l r c1) as Hc1.
  { eapply (client_move c c1 [] l r); [done|apply same_refl| |apply Hc|apply Hc|done|done|done|].
    - unfold c1, handPtrs. cbn. rewrite app_nil_r. do 2 apply Permutation_app_head. by eapply handPtrs_delete.
    - intros p' o' n'. unfold refs, c1. cbn. rewrite !elem_of_app. intros [|[H|]]; [tauto| |tauto]. left. right. left.
      apply list_elem_of_lookup in H as [j Hj]. rewrite list_lookup_delete in Hj. by eapply list_elem_of_lookup_2. }
  assert ((p, o, n) ∈ refs c) as Href.
  { unfold refs. rewrite !elem_of_app. right. left. by eapply list_elem_of_lookup_2. }
  destruct ok.
  - destruct (co_refs _ _ _ _ Hc p o n Href) as [Hu Hr]. destruct (answer_inv c1 p o n l r Hc1 Hu Hr) as (c' & E & Hc'). exists c'. split; [exact E|]. by exists l, r.
  - destruct (read_inv now c1 p l r Hc1) as (q' & E & _ & Hc'). eexists. split; [exact E|]. by exists (l ++ [p]), r.
Qed.
Lemma refs_wire c k s p o n : fc_wire c !! k = Some (s, p, o, n) -> (p, o, n) ∈ refs c.
Proof.
  intros Hk. unfold refs. apply elem_of_app. left. apply list_elem_of_fmap. exists (s, p, o, n). split; [done|]. by eapply list_elem_of_lookup_2.
Qed.
(** Forgetting what is under way, or losing the connection, changes nothing else. *)
Lemma fewer_refs c c' :
  client_inv c -> fc_requests c' = fc_requests c -> fc_resend c' = fc_resend c -> fc_hands c' = fc_hands c ->
  fc_answers c' = fc_answers c -> fc_issued c' = fc_issued c -> fc_used c' = fc_used c ->
  (forall x, x ∈ refs c' -> x ∈ refs c \/ exists a, q_heap (fc_requests c) !! x.1.1 = Some a /\ a_offset a = x.1.2 /\ a_length a = x.2) ->
  client_inv c'.
Proof.
  intros (l & r & Hc) E1 E2 E3 E4 E5 E6 Hr. exists l, r. eapply (client_move c c' [] l r); try done; rewrite ?E1, ?E2; try apply Hc.
  - apply same_refl.
  - unfold handPtrs. by rewrite E3.
  - intros p o n Hin. destruct (Hr _ Hin) as [|(a & ?)]; [by left|]. right. by exists a.
Qed.

(** The request that is about to be sent has been answered and freed meanwhile. *)
Definition answered_before_sent (c : fuse_client) : Prop :=
  fc_sending c <> NULL /\ q_heap (fc_requests c) !! fc_sending c = None /\ fc_sock c <> -1.
Lemma send_step c sendOk :
  client_inv c -> fc_sending c <> NULL ->
  (exists c', connection_read_send sendOk c = Ok c' /\ client_inv c')
  \/ (connection_read_send sendOk c = Fault UseAfterFree /\ answered_before_sent c).
Proof.
  intros Hc Hn. unfold connection_read_send, sendRequest. destruct (Z.eqb_spec (fc_sock c) (-1)) as [|Hs].
  { left. eexists. split; [done|]. eapply (fewer_refs c); try done. auto. }
  destruct (q_heap (fc_requests c) !! fc_sending c) as [a|] eqn:Ha.
  - rewrite (deref_ok _ _ _ Hn Ha). cbn [mbind result_bind]. left. destruct sendOk; (eexists; split; [done|]); (eapply (fewer_refs c); try done); [|auto].
    intros x. unfold refs. cbn. rewrite map_app, !elem_of_app. intros [[|Hx%list_elem_of_singleton]|]; [tauto| |tauto]. right. subst x. by exists a.
  - right. unfold deref. by rewrite (proj2 (Z.eqb_neq _ _) Hn), Ha.
Qed.
Lemma fstep_other c e :
  (forall sendOk, e <> FSend sendOk) -> client_inv c -> fenabled true c e = true -> exists c', fstep c e = Ok c' /\ client_inv c'.
Proof.
  intros Hne Hc He. destruct e; cbn [fenabled] in He; b2p;
    repeat match goal with H : bool_decide _ = true |- _ => apply bool_decide_eq_true in H end.
  - apply read_step; [done..|]. intros Hin. by rewrite bool_decide_eq_true_2 in * by done.
  - by destruct (Hne sendOk).
  - cbn [fstep]. destruct He as [[[[s p] o] n] Hk]. rewrite Hk.
    assert (forall x, x ∈ delete k (fc_wire c) -> x ∈ fc_wire c) as Hsub.
    { intros x [j Hj]%list_elem_of_lookup. rewrite list_lookup_delete in Hj. by eapply list_elem_of_lookup_2. }
    apply match_inv.
    + eapply (fewer_refs c); try done. intros x. unfold refs. cbn. rewrite !elem_of_app. intros [Hx|]; [|tauto].
      left. left. apply list_elem_of_fmap in Hx as (y & -> & Hy). apply list_elem_of_fmap. eauto.
    + destruct Hc as (l & r & Hc). apply (co_refs _ _ _ _ Hc p o n). by eapply refs_wire.
  - by apply data_step.
  - eexists. split; [done|]. eapply fewer_refs; try done. auto.
  - cbn [fstep]. destruct ok; (eexists; split; [done|]); [|by eapply fewer_refs; try done; auto].
    destruct Hc as (l & r & Hc).
    assert (r = []) as ->. { pose proof (co_resend _ _ _ _ Hc) as Hr. destruct r as [|x r]; [done|]. destruct Hr as (Hx & Hn & _). congruence. }
    exists [], l. eapply (client_move c _ [] l []); [done|apply same_refl| | | |done|done|done|]; cbn.
    + unfold handPtrs. cbn. by rewrite !app_nil_r.
    + split_and!; [done|constructor|done].
    + apply Hc.
    + auto.
  - cbn [fstep]. destruct Hc as (l & r & Hc). destruct r as [|p r]; [by pose proof (co_resend _ _ _ _ Hc)|].
    destruct (resend_inv now c p l r Hc) as (a & q' & _ & _ & _ & E & _ & Hc'). eexists. split; [exact E|]. by exists (l ++ [p]), r.
  - cbn [fstep]. pose proof Hc as (l & r & Hok). pose proof (co_queue _ _ _ _ Hok) as (Hch & _).
    destruct l as [|x l]; [by rewrite Hch in *|]. destruct Hch as (Ex & Hn & a & Ha & _). rewrite Ex, (deref_ok _ _ _ Hn Ha). cbn [mbind result_bind].
    eexists. split; [done|]. eapply (fewer_refs c); try done. intros y. unfold refs. cbn. rewrite !elem_of_app.
    intros [|[|Hy%list_elem_of_singleton]]; [tauto..|]. right. subst y. by exists a.
  - cbn [fstep]. destruct (fc_probe c) as [[[p o] n]|] eqn:Ep; [|eauto]. apply match_inv; [done|].
    destruct Hc as (l & r & Hc). apply (co_refs _ _ _ _ Hc p o n). unfold refs. rewrite Ep, !elem_of_app. cbn. set_solver.
  - eexists. split; [done|]. eapply (fewer_refs c); try done. intros x. unfold refs. cbn. rewrite !elem_of_app. intros [|[|[]%not_elem_of_nil]]; left; tauto.
Qed.
Lemma fstep_ok c e :
  client_inv c -> fenabled true c e = true ->
  (exists c', fstep c e = Ok c' /\ client_inv c')
  \/ (fstep c e = Fault UseAfterFree /\ answered_before_sent c /\ exists sendOk, e = FSend sendOk).
Proof.
  intros Hc He. destruct e; try (left; by apply fstep_other).
  cbn [fenabled] in He. b2p. destruct (send_step c sendOk Hc) as [|[]]; [done|by left|]. right. eauto.
Qed.
Lemma frun_ok es : forall c, client_inv c ->
  (exists c', frun true c es = Ok c' /\ client_inv c')
  \/ (frun true c es = Fault UseAfterFree
      /\ exists es1 sendOk es2 c1, es = es1 ++ FSend sendOk :: es2 /\ frun true c es1 = Ok c1 /\ client_inv c1 /\ answered_before_sent c1).
Proof.
  induction es as [|e es IH]; intros c Hc; cbn [frun]; [eauto|].
  assert (forall c1, client_inv c1 -> (forall es', frun true c (e :: es') = frun true c1 es') ->
    (exists c', frun true c1 es = Ok c' /\ client_inv c')
    \/ (frun true c1 es = Fault UseAfterFree
        /\ exists es1 sendOk es2 c2, e :: es = es1 ++ FSend sendOk :: es2 /\ frun true c es1 = Ok c2 /\ client_inv c2 /\ answered_before_sent c2)) as Hgo.
  { intros c1 Hc1 E. destruct (IH c1 Hc1) as [|(Hf & es1 & sendOk & es2 & c2 & -> & Hr & H2)]; [by left|]. right. split; [done|].
    exists (e :: es1), sendOk, es2, c2. rewrite E. done. }
  destruct (fenabled true c e) eqn:He; [|apply Hgo; [done|]; intros es'; cbn [frun]; by rewrite He].
  destruct (fstep_ok c e Hc He) as [(c' & E & Hc')|(E & Hr & sendOk & ->)]; rewrite E; cbn [mbind result_bind].
  - apply Hgo; [done|]. intros es'. cbn [frun]. by rewrite He, E.
  - right. split; [done|]. by exists [], sendOk, es, c.
Qed.
Lemma fuse0_inv sock : client_inv (fuse0 sock).
Proof.
  exists [], []. split; cbn; try done.
  - split_and!; [done|constructor|done].
  - constructor.
  - intros x. rewrite lookup_empty. split; [by intros [? ?]|intros []%not_elem_of_nil].
  - intros p o n []%not_elem_of_nil.
  - intros x [? Hx]. by rewrite lookup_empty in Hx.
Qed.
Lemma ids_nodup {A} (f : A -> Z) (l k : list A) :
  map f l = map Z.of_nat (seq 0 (length l)) -> k ≡ₚ l -> base.NoDup (map f k).
Proof.
  intros Hl Hk. change (map f k) with (f <$> k). rewrite Hk. change (f <$> l) with (map f l). rewrite Hl.
  apply NoDup_fmap_2; [intros x y H; lia|apply NoDup_seq].
Qed.

(** Every read is answered at most once, with the data of the range it asked for, and a read that has not been
    answered is in the list, waits to be queued again or is being received. *)
Definition reads_ok (c : fuse_client) : Prop :=
  base.NoDup (map (fun a => a.1.1) (fc_answers c))
  /\ (forall id offset length, (id, offset, length) ∈ fc_answers c -> (id, offset, length) ∈ fc_issued c)
  /\ exists l r, queue_repr (fc_requests c) l /\ chain (q_heap (fc_requests c)) (fc_resend c) r
       /\ fc_answers c ++ asksOf (q_heap (fc_requests c)) (l ++ r ++ handPtrs c) ≡ₚ fc_issued c.
Lemma inv_reads_ok c : client_inv c -> reads_ok c.
Proof.
  intros (l & r & Hc). pose proof (co_account _ _ _ _ Hc) as Hacc. rewrite app_nil_r in Hacc. split_and!.
  - pose proof (ids_nodup _ _ _ (co_ids _ _ _ _ Hc) Hacc) as Hnd. rewrite map_app in Hnd. by apply list.NoDup_app in Hnd as (? & _ & _).
  - intros id o n Hin. rewrite <- Hacc. set_solver.
  - exists l, r. split_and!; [apply Hc|apply Hc|done].
Qed.

(** C10. Requests of the FUSE client, in every interleaving of its threads in which no request gets the address of an
    earlier one (reads, replies on any connection, failing transfers, lost connections, probes and switches between
    servers; queueing a request and sending it are two steps): no read is answered twice, each answer carries the data
    of the range that read asked for (a reply carries what its request asked for), and every read that has not been
    answered is still pending, in the list, waiting to be queued again or being received, so that none gets lost.
    A freed request is touched in one case only, and then by the thread that was about to send it: it was queued, and
    before it was sent a reply to it from another connection was received and it was answered and freed. *)
Theorem fuse_reads_answered_once sock es :
  (exists c, frun true (fuse0 sock) es = Ok c /\ reads_ok c)
  \/ (frun true (fuse0 sock) es = Fault UseAfterFree
      /\ exists es1 sendOk es2 c, es = es1 ++ FSend sendOk :: es2 /\ frun true (fuse0 sock) es1 = Ok c
           /\ reads_ok c /\ answered_before_sent c).
Proof.
  destruct (frun_ok es _ (fuse0_inv sock)) as [(c & E & Hc)|(E & es1 & sendOk & es2 & c & Ees & Hr & Hc & Hb)].
  - left. exists c. split; [done|]. by apply inv_reads_ok.
  - right. split; [done|]. exists es1, sendOk, es2, c. split_and!; [done|done|by apply inv_reads_ok|done].
Qed.

(** That case exists: the request is sent again on the new connection, and the answer of the old server, which is
    still being read, arrives between the two parts of that. *)
Definition resend_race : list fuse_event :=
  [FRead 100 0 4096 (Ticks 0 0); FSend true; FSwitch 7 true; FResend (Ticks 0 0); FReply 0; FData 0 true (Ticks 0 0); FSend true].
Theorem resent_request_freed_before_sent :
  frun true (fuse0 3) resend_race = Fault UseAfterFree
  /\ exists c, frun true (fuse0 3) (take 6 resend_race) = Ok c /\ fc_answers c = [(0, 0, 4096)].
Proof. split; [by vm_compute|]. eexists. split; [vm_compute; reflexivity|done]. Qed.
(** With nothing in between it does not happen: a thread that queues and sends at once finds its request. *)
Lemma connection_read_ok now sendOk c p l r :
  client_ok [p] l r c -> exists c', connection_read now sendOk c p = Ok c' /\ client_inv c'.
Proof.
  intros Hc. destruct (extra_alive c p l r Hc) as (a & Hn & Hp & Hpl & _). unfold connection_read.
  destruct (read_inv now c p l r Hc) as (q' & E1 & _ & Hc1). rewrite E1. cbn [mbind result_bind].
  destruct (send_step _ sendOk ltac:(by exists (l ++ [p]), r)) as [|(_ & _ & Hnone & _)]; [done|done|].
  destruct (proj2 (co_alive _ _ _ _ Hc1 p)) as [b Hb]; [set_solver|]. cbn in Hnone, Hb. congruence.
Qed.

Definition reuse_events : list fuse_event :=
  [FRead 100 0 4096 (Ticks 0 0); FSend true; FProbe; FReply 0; FData 0 true (Ticks 0 0);
   FRead 100 8192 4096 (Ticks 0 0); FSend true; FProbeReply; FData 0 true (Ticks 0 0)].
(** The addresses matter: requests are told apart by their address only.  If a request
    that [probeAltServers] has picked is answered and freed meanwhile and the next read
    gets the same memory, the data of the old range is handed to the new read. *)
Theorem reused_request_gets_wrong_data :
  exists c, frun false (fuse0 3) reuse_events = Ok c
    /\ fc_issued c = [(0, 0, 4096); (1, 8192, 4096)] /\ fc_answers c = [(0, 0, 4096); (1, 0, 4096)].
Proof. eexists. split; [vm_compute; reflexivity|]. split; reflexivity. Qed.
