(* ===== verification/FuseAlts.v ===== *)
(** * FuseAlts: the servers the FUSE client knows ([src/fuse/connection.c])

    The table of alternative servers, learning new ones, moving working servers to the
    front, and probing them to decide whether to switch.  What a probed server does is an
    input: [probe i] is the result of connecting to entry [i] and asking it for a block.
    The requests of the file system that a probe may answer are the subject of
    [FuseQueue]. *)

From S2P Require Import Prelude Timing Types Helper AltServers.

Open Scope Z_scope.

Definition MAX_ALTS : nat := 16.
Definition MAX_ALTS_ACTIVE : nat := 5.
Definition FAIL_BACKOFF_START_COUNT : Z := 8.
Definition RTT_COUNT : Z := 4.
Definition RTT_ABSOLUTE_THRESHOLD : Z := 80000.
Definition RTT_THRESHOLD_FACTOR_CLIENT (us : Z) : Z := us * 3 / 4.

Record alt_server_t := FuseAlt {
  fa_host : dnbd3_host_t;
  fa_consecutiveFails : Z;
  fa_rtt : Z;
  fa_rtts : list Z;
  fa_rttIndex : Z;
  fa_bestCount : Z;
  fa_liveRtt : Z;
}.
Definition noServer : alt_server_t := FuseAlt (Host (replicate 16 0) 0 0) 0 0 [0; 0; 0; 0] 0 0 0.

(** ** Learning servers *)

Definition hasAltServer (alts : list alt_server_t) (host : dnbd3_host_t) : bool :=
  existsb (fun a => isSameAddress host (fa_host a)) alts.
(** The slot for a new server: the loop over [altservers] with its current choice. *)
Fixpoint findSlot (alts l : list alt_server_t) (eIdx : nat) (slot : option nat) : option nat :=
  match l with
  | [] => slot
  | a :: l =>
      if host_type (fa_host a) =? 0 then Some eIdx
      else
        let better :=
          (FAIL_BACKOFF_START_COUNT <? fa_consecutiveFails a)
          && match slot with
             | None => false
             | Some s => match alts !! s with Some b => fa_consecutiveFails b <? fa_consecutiveFails a | None => false end
             end in
        findSlot alts l (S eIdx) (if better then Some eIdx else slot)
  end.
(** A slot gets another host; its statistics start over. *)
Definition takeOver (host : dnbd3_host_t) (fails : Z) (a : alt_server_t) : alt_server_t :=
  FuseAlt host fails (fa_rtt a) (<[0%nat := RTT_UNREACHABLE]> (fa_rtts a)) 1 0 0.
Definition addAltServer (alts : list alt_server_t) (host : dnbd3_host_t) : list alt_server_t :=
  if host_type host =? 0 then alts
  else if hasAltServer alts host then alts
  else
    match findSlot alts alts 0 None with
    | None => alts
    | Some slot => alter (takeOver host 0) slot alts
    end.
Definition addAltServers (alts : list alt_server_t) (newservers : list dnbd3_host_t) : list alt_server_t :=
  foldl addAltServer alts newservers.

(** ** Sorting *)

(** [while (ac < MAX_ALTS_ACTIVE)]: the next active entry that is free or failed often. *)
Fixpoint nextActive (fuel : nat) (alts : list alt_server_t) (ac : nat) : nat :=
  match fuel with
  | O => ac
  | S fuel =>
      if (ac <? MAX_ALTS_ACTIVE)%nat then
        match alts !! ac with
        | Some a => if (host_type (fa_host a) =? 0) || (FAIL_BACKOFF_START_COUNT <? fa_consecutiveFails a) then ac else nextActive fuel alts (S ac)
        | None => ac
        end
      else ac
  end.
Definition swapServers (alts : list alt_server_t) (ia ac : nat) : list alt_server_t :=
  match alts !! ia, alts !! ac with
  | Some inactive, Some active =>
      <[ac := takeOver (fa_host inactive) 0 active]> (<[ia := takeOver (fa_host active) (FAIL_BACKOFF_START_COUNT * 4) inactive]> alts)
  | _, _ => alts
  end.
Fixpoint sortLoop (n : nat) (alts : list alt_server_t) (ia ac : nat) : list alt_server_t :=
  match n with
  | O => alts
  | S n =>
      match alts !! ia with
      | None => alts
      | Some inactive =>
          if (host_type (fa_host inactive) =? 0) || (0 <? fa_consecutiveFails inactive) then sortLoop n alts (S ia) ac
          else
            let ac := nextActive MAX_ALTS_ACTIVE alts ac in
            if (ac =? MAX_ALTS_ACTIVE)%nat then alts else sortLoop n (swapServers alts ia ac) (S ia) ac
      end
  end.
Definition sortAltServers (alts : list alt_server_t) : list alt_server_t :=
  sortLoop (MAX_ALTS - MAX_ALTS_ACTIVE) alts MAX_ALTS_ACTIVE 0.

(** ** Probing *)

(** [connection_receiveThreadMain] measures the answers of the current server. *)
Definition updateLiveRtt (current : dnbd3_host_t) (diff : Z) (alts : list alt_server_t) : list alt_server_t :=
  if diff <? 30 * 1000 * 1000 then
    match list_find (fun a => negb (host_type (fa_host a) =? 0) && isSameAddressPort current (fa_host a) = true) alts with
    | None => alts
    | Some (i, a) =>
        <[i := FuseAlt (fa_host a) (fa_consecutiveFails a) (fa_rtt a) (fa_rtts a) (fa_rttIndex a) (fa_bestCount a)
                 ((fa_liveRtt a * 3 + i32 diff) / 4)]> alts
    end
  else alts.
Definition currentServer (alts : list alt_server_t) (server : dnbd3_host_t) : option nat :=
  fst <$> list_find (fun a => negb (host_type (fa_host a) =? 0) && isSameAddressPort (fa_host a) server = true) alts.

Inductive probe_result :=
| ProbeFail (sock : option Z) (penalty : Z)   (* 10 for a server with the wrong version or image *)
| ProbeOk (sock time : Z).

Definition nextRttIndex (a : alt_server_t) : alt_server_t :=
  FuseAlt (fa_host a) (fa_consecutiveFails a) (fa_rtt a) (fa_rtts a)
    (if RTT_COUNT <=? fa_rttIndex a + 1 then 0 else fa_rttIndex a + 1) (fa_bestCount a) (fa_liveRtt a).
Definition probeFailed (penalty : Z) (a : alt_server_t) : alt_server_t :=
  FuseAlt (fa_host a) (fa_consecutiveFails a + penalty + 1) (fa_rtt a) (<[Z.to_nat (fa_rttIndex a) := RTT_UNREACHABLE]> (fa_rtts a))
    (fa_rttIndex a) (fa_bestCount a) (fa_liveRtt a).
Definition probeWorked (time : Z) (a : alt_server_t) : alt_server_t :=
  let rtts := <[Z.to_nat (fa_rttIndex a) := i32 time]> (fa_rtts a) in
  let newRtt := zsum (fun x => x) rtts in
  let rtt := if negb (fa_liveRtt a =? 0) then (newRtt + fa_liveRtt a) / (RTT_COUNT + 1) else newRtt / RTT_COUNT in
  FuseAlt (fa_host a) 0 rtt rtts (fa_rttIndex a) (fa_bestCount a) (fa_liveRtt a).

(** [ps_opened] and [ps_measured] only keep the books for the proofs. *)
Record probe_state := ProbeState {
  ps_alts : list alt_server_t;
  ps_best : option (nat * Z);     (* entry and its open socket *)
  ps_closed : list Z;
  ps_rng : rng;
  ps_opened : list Z;             (* sockets the probes opened *)
  ps_measured : list nat;         (* entries that answered *)
}.
(** Whether a server is left out this time; servers that fail often are probed less. *)
Definition skipProbe (panic : bool) (a : alt_server_t) (r : rng) : bool * rng :=
  if negb panic && (FAIL_BACKOFF_START_COUNT <? fa_consecutiveFails a) then
    let '(v, r) := rand r in (FAIL_BACKOFF_START_COUNT <=? Z.rem v (fa_consecutiveFails a), r)
  else (false, r).
Definition rttOf (alts : list alt_server_t) (i : nat) : Z := default 0 (fa_rtt <$> alts !! i).
(** One server; [inr]: panic mode and the server works, so switch to it. *)
Definition probeOne (panic : bool) (probe : nat -> probe_result) (i : nat) (s : probe_state) : probe_state + probe_state * (nat * Z) :=
  match ps_alts s !! i with
  | None => inl s
  | Some a =>
      if host_type (fa_host a) =? 0 then inl s
      else
        let '(skip, r) := skipProbe panic a (ps_rng s) in
        if skip then inl (ProbeState (ps_alts s) (ps_best s) (ps_closed s) r (ps_opened s) (ps_measured s))
        else
          let a := nextRttIndex a in
          match probe i with
          | ProbeFail sock penalty =>
              inl (ProbeState (<[i := probeFailed penalty a]> (ps_alts s)) (ps_best s) (ps_closed s ++ option_list sock) r
                     (ps_opened s ++ option_list sock) (ps_measured s))
          | ProbeOk sock time =>
              let opened := ps_opened s ++ [sock] in
              let measured := ps_measured s ++ [i] in
              if panic then inr (ProbeState (<[i := a]> (ps_alts s)) (ps_best s) (ps_closed s) r opened measured, (i, sock))
              else
                let alts := <[i := probeWorked time a]> (ps_alts s) in
                match ps_best s with
                | None => inl (ProbeState alts (Some (i, sock)) (ps_closed s) r opened measured)
                | Some (best, bestSock) =>
                    if rttOf alts i <? rttOf alts best
                    then inl (ProbeState alts (Some (i, sock)) (ps_closed s ++ [bestSock]) r opened measured)
                    else inl (ProbeState alts (Some (best, bestSock)) (ps_closed s ++ [sock]) r opened measured)
                end
          end
  end.
Fixpoint probeLoop (panic : bool) (probe : nat -> probe_result) (idx : list nat) (s : probe_state) : probe_state + probe_state * (nat * Z) :=
  match idx with
  | [] => inl s
  | i :: idx => match probeOne panic probe i s with inl s => probeLoop panic probe idx s | inr t => inr t end
  end.

(** ** The decision *)

Definition set_counts (best live : Z) (a : alt_server_t) : alt_server_t :=
  FuseAlt (fa_host a) (fa_consecutiveFails a) (fa_rtt a) (fa_rtts a) (fa_rttIndex a) best live.
Definition set_fails (n : Z) (a : alt_server_t) : alt_server_t :=
  FuseAlt (fa_host a) n (fa_rtt a) (fa_rtts a) (fa_rttIndex a) (fa_bestCount a) (fa_liveRtt a).
(** [current->...], where [current] may be [NULL]. *)
Definition currentAlt (alts : list alt_server_t) (current : option nat) : result alt_server_t :=
  match current with
  | None => Fault NullDeref
  | Some c => match alts !! c with Some a => Ok a | None => Fault OutOfBounds end
  end.
(** One turn of the loop over the active servers. *)
Definition countBest (current : option nat) (best i : nat) (s : list alt_server_t * rng * bool) : result (list alt_server_t * rng * bool) :=
  let '(alts, r, doSwitch) := s in
  match alts !! i with
  | None => Fault OutOfBounds
  | Some a =>
      cur ← currentAlt alts current;
      let live :=
        if (fa_liveRtt cur <? fa_liveRtt a) && (fa_rtt a <? fa_liveRtt a) then fa_liveRtt a - (fa_liveRtt a / 100 + 1) else fa_liveRtt a in
      if (i =? best)%nat then
        let count := if fa_bestCount a <? 50 then fa_bestCount a + 2 else fa_bestCount a in
        let alts := <[i := set_counts count live a]> alts in
        if (12 <? count) && (match current with None => true | Some c => fa_rtt a <? rttOf alts c end) then
          let '(v, r) := rand r in
          Ok (alts, r, doSwitch || (Z.rem v 50 <? count))
        else Ok (alts, r, doSwitch)
      else
        let count := if 0 <? fa_bestCount a then fa_bestCount a - 1 else fa_bestCount a in
        Ok (<[i := set_counts count live a]> alts, r, doSwitch)
  end.
Fixpoint countLoop (current : option nat) (best : nat) (idx : list nat) (s : list alt_server_t * rng * bool)
  : result (list alt_server_t * rng * bool) :=
  match idx with
  | [] => Ok s
  | i :: idx => s ← countBest current best i s; countLoop current best idx s
  end.
(** Servers that are not considered recover. *)
Definition decayFails (alts : list alt_server_t) : list alt_server_t :=
  imap (fun i a => if (MAX_ALTS_ACTIVE <=? i)%nat && (0 <? fa_consecutiveFails a) then set_fails (fa_consecutiveFails a - 1) a else a) alts.
Definition bestCountOf (alts : list alt_server_t) (i : nat) : Z := default 0 (fa_bestCount <$> alts !! i).
Definition decide_switch (alts : list alt_server_t) (current : option nat) (best : nat) (doSwitch : bool) : bool :=
  match current with
  | None => doSwitch
  | Some c =>
      let doSwitch := doSwitch && negb (bestCountOf alts best - bestCountOf alts c <? 8) in
      doSwitch
      || (rttOf alts best + RTT_ABSOLUTE_THRESHOLD <? rttOf alts c)
      || (rttOf alts best + 1000 <? RTT_THRESHOLD_FACTOR_CLIENT (rttOf alts c))
  end.

(** What [switchConnection] and the caller see of a run. *)
Record probe_outcome := ProbeOutcome {
  po_alts : list alt_server_t;
  po_closed : list Z;
  po_switch : option (nat * Z);   (* the server to switch to, with its socket *)
  po_opened : list Z;
  po_measured : list nat;
}.
Definition probeAltServers (panic : bool) (current : option nat) (probe : nat -> probe_result) (alts : list alt_server_t) (r : rng)
  : result probe_outcome :=
  let idx := seq 0 (if panic then MAX_ALTS else MAX_ALTS_ACTIVE) in
  match probeLoop panic probe idx (ProbeState alts None [] r [] []) with
  | inr (s, target) => Ok (ProbeOutcome (ps_alts s) (ps_closed s) (Some target) (ps_opened s) (ps_measured s))
  | inl s =>
      match ps_best s with
      | None => Ok (ProbeOutcome (ps_alts s) (ps_closed s) None (ps_opened s) (ps_measured s))
      | Some (best, bestSock) =>
          '(alts, r, doSwitch) ← countLoop current best (seq 0 MAX_ALTS_ACTIVE) (ps_alts s, ps_rng s, false);
          let alts := decayFails alts in
          if decide_switch alts current best doSwitch then
            let alts := imap (fun i a => if (i =? best)%nat then a else set_counts 0 (fa_liveRtt a) a) alts in
            Ok (ProbeOutcome alts (ps_closed s) (Some (best, bestSock)) (ps_opened s) (ps_measured s))
          else Ok (ProbeOutcome alts (ps_closed s ++ [bestSock]) None (ps_opened s) (ps_measured s))
      end
  end.

(** * The table stays in order *)

(** An address as [isSameAddress] compares it. *)
Definition addrKey (h : dnbd3_host_t) : Z * list Z := (host_type h, take (addrLen (host_type h)) (host_addr h)).
Definition used (h : dnbd3_host_t) : Prop := host_type h <> 0.
Definition hosts (alts : list alt_server_t) : list dnbd3_host_t := map fa_host alts.
Definition distinct (hs : list dnbd3_host_t) : Prop := base.NoDup (map addrKey (filter used hs)).
Record alt_ok (a : alt_server_t) : Prop := AltOk {
  ao_rtts : length (fa_rtts a) = 4%nat;
  ao_values : Forall (fun x => 0 <= x <= RTT_UNREACHABLE) (fa_rtts a);
  ao_index : 0 <= fa_rttIndex a < RTT_COUNT;
  ao_rtt : 0 <= fa_rtt a <= RTT_UNREACHABLE;
  ao_live : 0 <= fa_liveRtt a < 30000000;
  ao_fails : 0 <= fa_consecutiveFails a;
  ao_best : 0 <= fa_bestCount a <= 51;
}.
Record table_ok (alts : list alt_server_t) : Prop := TableOk {
  to_length : length alts = MAX_ALTS;
  to_entries : Forall alt_ok alts;
  to_distinct : distinct (hosts alts);
}.

Lemma isSameAddress_key a b : isSameAddress a b = true <-> addrKey a = addrKey b.
Proof.
  unfold isSameAddress, addrKey. rewrite andb_true_iff, Z.eqb_eq, bool_decide_eq_true. split.
  - intros [E ->]. by rewrite E.
  - intros [= E1 E2]. split; [done|]. by rewrite <- E1 in E2.
Qed.
Lemma findSlot_free alts l : forall n slot, slot = None ->
  match findSlot alts l n slot with
  | Some k => (n <= k)%nat /\ exists a, l !! (k - n)%nat = Some a /\ ~ used (fa_host a)
  | None => Forall (fun a => used (fa_host a)) l
  end.
Proof.
  induction l as [|a l IH]; intros n slot ->; cbn [findSlot]; [constructor|].
  destruct (Z.eqb_spec (host_type (fa_host a)) 0) as [E|E].
  - split; [done|]. exists a. rewrite Nat.sub_diag. split; [done|]. unfold used. by intros [].
  - rewrite andb_false_r. specialize (IH (S n) None eq_refl). destruct (findSlot alts l (S n) None) as [k|]; [|by constructor].
    destruct IH as (Hk & b & Hb & Hu). split; [lia|]. exists b. split; [|done]. by replace (k - n)%nat with (S (k - S n)) by lia.
Qed.
Lemma takeOver_ok host fails a : 0 <= fails -> alt_ok a -> alt_ok (takeOver host fails a).
Proof.
  intros Hf [H1 H2 H3 H4 H5 H6 H7]. split; cbn; try done; [by rewrite length_insert|].
  apply list.Forall_insert; [done|by unfold RTT_UNREACHABLE].
Qed.
Lemma hosts_insert alts i a : hosts (<[i := a]> alts) = <[i := fa_host a]> (hosts alts).
Proof. apply list_fmap_insert. Qed.
Lemma hosts_lookup alts i a : alts !! i = Some a -> hosts alts !! i = Some (fa_host a).
Proof. intros Ha. unfold hosts. change (map ?f ?l) with (f <$> l). by rewrite list_lookup_fmap, Ha. Qed.
Lemma hasAltServer_false alts host :
  hasAltServer alts host = false -> (addrKey host ∉ map addrKey (filter used (hosts alts))).
Proof.
  intros Hh Hin. apply list_elem_of_fmap in Hin as (h & E & [_ Hin]%list_elem_of_filter). unfold hosts in Hin.
  apply list_elem_of_fmap in Hin as (a & -> & Ha). assert (hasAltServer alts host = true); [|congruence].
  unfold hasAltServer. apply existsb_exists. exists a. split; [by apply list_elem_of_In|]. by apply isSameAddress_key.
Qed.
(** Putting a new address into an empty slot. *)
Lemma distinct_insert hs k h h0 :
  distinct hs -> hs !! k = Some h0 -> ~ used h0 -> (addrKey h ∉ map addrKey (filter used hs)) -> distinct (<[k := h]> hs).
Proof.
  intros Hd Hk Hu Hn. unfold distinct in *. apply list_elem_of_split_length in Hk as (l1 & l2 & -> & ->).
  rewrite insert_app_r_alt, Nat.sub_diag by lia. cbn [insert list_insert]. rewrite list.filter_app, map_app in *. rewrite filter_cons_False in Hd, Hn by done.
  destruct (decide (used h)); [rewrite filter_cons_True by done|rewrite filter_cons_False by done; exact Hd].
  cbn [map]. rewrite <- Permutation_middle. apply list.NoDup_cons. split; [|done]. exact Hn.
Qed.

(** What is known of the table after servers were added to it. *)
Definition extends (alts alts' : list alt_server_t) : Prop :=
  forall i a, alts !! i = Some a -> used (fa_host a) -> alts' !! i = Some a.
Lemma addAltServer_ok alts host :
  table_ok alts ->
  table_ok (addAltServer alts host) /\ extends alts (addAltServer alts host)
  /\ (used host -> hasAltServer (addAltServer alts host) host = true \/ Forall (fun a => used (fa_host a)) alts).
Proof.
  intros [Hl He Hd]. unfold addAltServer. destruct (Z.eqb_spec (host_type host) 0) as [E|E]; [split_and!; [done|by intros ??|by intros []]|].
  destruct (hasAltServer alts host) eqn:Eh; [split_and!; [done|by intros ??|by left]|].
  pose proof (findSlot_free alts alts 0 None eq_refl) as Hs. destruct (findSlot alts alts 0 None) as [k|]; [|split_and!; [done|by intros ??|by right]].
  destruct Hs as (_ & a & Ha & Hu). rewrite Nat.sub_0_r in Ha. pose proof (lookup_lt_Some _ _ _ Ha).
  rewrite (alter_insert _ _ _ _ Ha).
  split_and!.
  - split; [by rewrite length_insert| |].
    + apply list.Forall_insert; [done|]. apply takeOver_ok; [done|]. by apply (list.Forall_lookup_1 _ _ _ _ He Ha).
    + rewrite hosts_insert. eapply distinct_insert; [done|by apply hosts_lookup|done|]. by apply hasAltServer_false.
  - intros i b Hb Hub. destruct (decide (i = k)) as [->|]; [by simplify_eq|by rewrite list_lookup_insert_ne].
  - left. unfold hasAltServer. apply existsb_exists. exists (takeOver host 0 a). split; [|by apply isSameAddress_key].
    apply list_elem_of_In. eapply list_elem_of_lookup_2. by apply list_lookup_insert_eq.
Qed.
Lemma extends_refl alts : extends alts alts.
Proof. by intros i a. Qed.
Lemma extends_has alts alts' h : extends alts alts' -> used h -> hasAltServer alts h = true -> hasAltServer alts' h = true.
Proof.
  intros He Hh. unfold hasAltServer. rewrite !existsb_exists. intros (a & Hin & Hs). exists a. split; [|done].
  apply list_elem_of_In in Hin. apply list_elem_of_lookup in Hin as [i Hi]. apply list_elem_of_In, (list_elem_of_lookup_2 _ i), He; [done|].
  apply isSameAddress_key in Hs. unfold used, addrKey in *. congruence.
Qed.
Lemma extends_full alts alts' : extends alts alts' -> length alts' = length alts -> Forall (fun a => used (fa_host a)) alts -> alts' = alts.
Proof.
  intros He Hl Hf. apply list_eq. intros i. destruct (alts !! i) as [a|] eqn:Ha.
  - apply He; [done|]. by apply (list.Forall_lookup_1 _ _ _ _ Hf Ha).
  - apply lookup_ge_None_2. apply lookup_ge_None in Ha. lia.
Qed.
Lemma addAltServers_ok new : forall alts,
  table_ok alts ->
  table_ok (addAltServers alts new) /\ extends alts (addAltServers alts new)
  /\ forall h, h ∈ new -> used h -> hasAltServer (addAltServers alts new) h = true \/ Forall (fun a => used (fa_host a)) (addAltServers alts new).
Proof.
  induction new as [|h new IH]; intros alts Hok; cbn [addAltServers foldl].
  { split_and!; [done|apply extends_refl|intros h []%not_elem_of_nil]. }
  destruct (addAltServer_ok alts h Hok) as (H1 & H2 & H3). destruct (IH _ H1) as (H4 & H5 & H6).
  split_and!; [done|by intros i a Hi Hu; apply H5; [apply H2|]|]. intros x [->|Hx]%elem_of_cons Hu; [|by apply H6].
  destruct (H3 Hu) as [Hhas|Hfull]; [left; by eapply extends_has|]. right.
  assert (addAltServer alts h = alts) as E by (apply extends_full; [done|rewrite (to_length _ H1), (to_length _ Hok); done|done]).
  change (foldl addAltServer (addAltServer alts h) new) with (addAltServers (addAltServer alts h) new) in *.
  rewrite E in *. rewrite (extends_full _ _ H5); [done|rewrite (to_length _ H4), (to_length _ Hok); done|done].
Qed.

Lemma swap_ok alts ia ac :
  table_ok alts -> ia <> ac -> table_ok (swapServers alts ia ac) /\ hosts (swapServers alts ia ac) ≡ₚ hosts alts.
Proof.
  intros [Hl He Hd] Hne. unfold swapServers. destruct (alts !! ia) as [x|] eqn:Ex; [|by split].
  destruct (alts !! ac) as [y|] eqn:Ey; [|by split].
  assert (hosts (<[ac := takeOver (fa_host x) 0 y]> (<[ia := takeOver (fa_host y) (FAIL_BACKOFF_START_COUNT * 4) x]> alts)) ≡ₚ hosts alts) as Hp.
  { rewrite !hosts_insert. cbn. apply Permutation_insert_swap; by apply hosts_lookup. }
  split; [|done]. split; [by rewrite !length_insert| |].
  - apply list.Forall_insert; [apply list.Forall_insert; [done|]|]; apply takeOver_ok; try done.
    + by apply (list.Forall_lookup_1 _ _ _ _ He Ex).
    + by apply (list.Forall_lookup_1 _ _ _ _ He Ey).
  - unfold distinct in *. change (map addrKey ?l) with (addrKey <$> l) in *. by rewrite Hp.
Qed.
Lemma nextActive_range fuel alts ac : (ac <= MAX_ALTS_ACTIVE)%nat -> (nextActive fuel alts ac <= MAX_ALTS_ACTIVE)%nat.
Proof.
  revert ac. induction fuel as [|fuel IH]; intros ac Hac; cbn [nextActive]; [done|].
  destruct (Nat.ltb_spec ac MAX_ALTS_ACTIVE); [|done]. destruct (alts !! ac) as [a|]; [|done]. destruct (_ || _); [done|]. apply IH. lia.
Qed.
Lemma sortLoop_ok n : forall alts ia ac,
  table_ok alts -> (ac <= MAX_ALTS_ACTIVE <= ia)%nat ->
  table_ok (sortLoop n alts ia ac) /\ hosts (sortLoop n alts ia ac) ≡ₚ hosts alts.
Proof.
  induction n as [|n IH]; intros alts ia ac Hok Hr; cbn [sortLoop]; [done|]. destruct (alts !! ia) as [x|]; [|done].
  destruct (_ || _); [apply IH; [done|lia]|]. pose proof (nextActive_range MAX_ALTS_ACTIVE alts ac ltac:(lia)).
  destruct (Nat.eqb_spec (nextActive MAX_ALTS_ACTIVE alts ac) MAX_ALTS_ACTIVE); [done|].
  destruct (swap_ok alts ia (nextActive MAX_ALTS_ACTIVE alts ac) Hok ltac:(lia)) as [H1 H2].
  destruct (IH _ (S ia) (nextActive MAX_ALTS_ACTIVE alts ac) H1 ltac:(lia)) as [H3 H4]. split; [done|]. by rewrite H4.
Qed.
(** The current server is found as long as it is listed. *)
Lemma currentServer_found alts server h :
  h ∈ hosts alts -> used h -> isSameAddressPort h server = true ->
  exists c, currentServer alts server = Some c /\ (c < length alts)%nat.
Proof.
  intros Hin Hu Hs. unfold currentServer. apply list_elem_of_fmap in Hin as (a & -> & Ha).
  destruct (list_find _ alts) as [[c b]|] eqn:E.
  - exists c. split; [done|]. apply list_find_Some in E as (Hc & _). by eapply lookup_lt_Some.
  - exfalso. apply list_find_None in E. rewrite list.Forall_forall in E. apply (E a Ha). unfold used in Hu.
    by rewrite (proj2 (Z.eqb_neq _ _) Hu), Hs.
Qed.

(** The table of servers: learning servers and sorting keep it in order (16 entries
    with different addresses, every statistic in its range), learning forgets no known
    server and leaves out a new one only if the table is full, and sorting only moves
    servers around, so the one in use is still found afterwards. *)
Theorem fuse_alt_table_correct alts new server h :
  table_ok alts ->
  let learned := addAltServers alts new in
  table_ok learned /\ table_ok (sortAltServers learned)
  /\ extends alts learned
  /\ (forall h, h ∈ new -> used h -> hasAltServer learned h = true \/ Forall (fun a => used (fa_host a)) learned)
  /\ hosts (sortAltServers learned) ≡ₚ hosts learned
  /\ (h ∈ hosts alts -> used h -> isSameAddressPort h server = true ->
        exists c, currentServer (sortAltServers learned) server = Some c /\ (c < MAX_ALTS)%nat).
Proof.
  intros Hok learned. destruct (addAltServers_ok new alts Hok) as (H1 & H2 & H3). fold learned in H1, H2, H3.
  destruct (sortLoop_ok (MAX_ALTS - MAX_ALTS_ACTIVE) learned MAX_ALTS_ACTIVE 0 H1 ltac:(lia)) as [H4 H5].
  fold (sortAltServers learned) in H4, H5. split_and!; try done. intros Hin Hu Hs. rewrite <- (to_length _ H4).
  apply (currentServer_found _ _ h); [|done|done]. rewrite H5. apply list_elem_of_fmap in Hin as (a & -> & Ha).
  apply list_elem_of_lookup in Ha as [i Hi]. apply (list_elem_of_lookup_2 _ i), hosts_lookup. by apply H2.
Qed.
Definition demo_fuse_alt (x : Z) : alt_server_t := FuseAlt (Host (padAddr [10; 0; 0; x]) (htons 5003) HOST_IP4) 0 1000 [1000; 1000; 1000; 1000] 0 0 0.
Definition demo_fuse_table : list alt_server_t := demo_fuse_alt 1 :: demo_fuse_alt 2 :: replicate 14 noServer.
Lemma demo_table_ok : table_ok demo_fuse_table.
Proof.
  assert (alt_ok noServer) as Hn by (split; cbn; try done; unfold RTT_UNREACHABLE; by repeat constructor).
  assert (forall x, alt_ok (demo_fuse_alt x)) as Hd by (intros x; split; cbn; try done; unfold RTT_UNREACHABLE; by repeat constructor).
  split; [done| |].
  - constructor; [apply Hd|]. constructor; [apply Hd|]. by apply Forall_replicate.
  - unfold distinct. replace (map addrKey (filter used (hosts demo_fuse_table))) with [(2, [10; 0; 0; 1]); (2, [10; 0; 0; 2])] by (vm_compute; reflexivity).
    by apply (bool_decide_eq_true_1 _).
Qed.
Lemma fuse_alt_table_correct_witness :
  exists c, currentServer (sortAltServers (addAltServers demo_fuse_table [fa_host (demo_fuse_alt 3)])) (fa_host (demo_fuse_alt 2)) = Some c.
Proof.
  destruct (fuse_alt_table_correct demo_fuse_table [fa_host (demo_fuse_alt 3)] (fa_host (demo_fuse_alt 2)) (fa_host (demo_fuse_alt 2)) demo_table_ok)
    as (_ & _ & _ & _ & _ & H). destruct H as (c & Hc & _).
  - apply (list_elem_of_lookup_2 _ 1). reflexivity.
  - done.
  - by vm_compute.
  - exists c. exact Hc.
Defined.

(** * Probing *)

(** Measured times fit (connecting and reading time out long before); the extra penalty of
    a failed probe is 0 or 10. *)
Definition probe_ok (p : probe_result) : Prop :=
  match p with ProbeFail _ penalty => 0 <= penalty | ProbeOk _ time => 0 <= time <= RTT_UNREACHABLE end.
Definition answers (p : probe_result) : Prop := match p with ProbeOk _ _ => True | ProbeFail _ _ => False end.
Definition openSocket (b : option (nat * Z)) : list Z := match b with Some (_, sock) => [sock] | None => [] end.

Lemma zsum_bounds hi l : Forall (fun x => 0 <= x <= hi) l -> 0 <= zsum (fun x => x) l <= hi * Z.of_nat (length l).
Proof. induction 1 as [|x l Hx _ IH]; cbn [zsum length]; lia. Qed.
Lemma nextRttIndex_ok a : alt_ok a -> alt_ok (nextRttIndex a).
Proof. intros [H1 H2 H3 H4 H5 H6 H7]. split; cbn; try done. unfold RTT_COUNT in *. destruct (Z.leb_spec 4 (fa_rttIndex a + 1)); lia. Qed.
Lemma probeFailed_ok penalty a : 0 <= penalty -> alt_ok a -> alt_ok (probeFailed penalty a).
Proof.
  intros Hp [H1 H2 H3 H4 H5 H6 H7]. split; cbn; try done; [by rewrite length_insert| |lia].
  apply list.Forall_insert; [done|by unfold RTT_UNREACHABLE].
Qed.
Lemma probeWorked_ok time a : 0 <= time <= RTT_UNREACHABLE -> alt_ok a -> alt_ok (probeWorked time a).
Proof.
  intros Ht [H1 H2 H3 H4 H5 H6 H7]. assert (i32 time = time) as Et by (apply i32_id; unfold RTT_UNREACHABLE in Ht; crange).
  assert (Forall (fun x => 0 <= x <= RTT_UNREACHABLE) (<[Z.to_nat (fa_rttIndex a) := i32 time]> (fa_rtts a))) as Hf
    by (apply list.Forall_insert; [done|by rewrite Et]).
  split; cbn; try done; [by rewrite length_insert|].
  pose proof (zsum_bounds _ _ Hf) as Hs. rewrite length_insert, H1 in Hs. unfold RTT_COUNT. unfold RTT_UNREACHABLE in *.
  destruct (fa_liveRtt a =? 0); cbn [negb]; split; first [apply Z.div_pos; lia | apply Z.div_le_upper_bound; lia].
Qed.
Lemma table_insert alts i a b :
  table_ok alts -> alts !! i = Some a -> fa_host b = fa_host a -> alt_ok b ->
  table_ok (<[i := b]> alts) /\ hosts (<[i := b]> alts) = hosts alts.
Proof.
  intros [Hl He Hd] Ha Hh Hb.
  assert (hosts (<[i := b]> alts) = hosts alts) as E by (rewrite hosts_insert, Hh; by apply list_insert_id, hosts_lookup).
  split; [|done]. split; [by rewrite length_insert|by apply list.Forall_insert|by rewrite E].
Qed.
Lemma rttOf_insert_ne alts i j b : i <> j -> rttOf (<[i := b]> alts) j = rttOf alts j.
Proof. intros Hne. unfold rttOf. by rewrite list_lookup_insert_ne. Qed.

Section probing.
  Context (panic : bool) (probe : nat -> probe_result) (alts0 : list alt_server_t).
  Context (Hprobe : forall i, probe_ok (probe i)).

  (** The loop after the entries [done]. *)
Record probe_inv (done : list nat) (s : probe_state) : Prop := ProbeInv {
    pi_table : table_ok (ps_alts s);
    pi_hosts : hosts (ps_alts s) = hosts alts0;
    pi_sockets : ps_opened s ≡ₚ ps_closed s ++ openSocket (ps_best s);
    pi_measured : forall j, j ∈ ps_measured s -> j ∈ done;
    pi_best : forall b sock, ps_best s = Some (b, sock) ->
      b ∈ ps_measured s /\ (exists time, probe b = ProbeOk sock time) /\ (exists h, hosts alts0 !! b = Some h /\ used h)
      /\ forall j, j ∈ ps_measured s -> rttOf (ps_alts s) b <= rttOf (ps_alts s) j;
    pi_none : ps_best s = None -> ps_measured s = [];
    pi_panic : panic = true -> ps_best s = None /\ forall j h, j ∈ done -> hosts alts0 !! j = Some h -> used h -> ~ answers (probe j);
  }.
  (** What the caller gets. *)
Definition probe_post (idx : list nat) (res : probe_state + probe_state * (nat * Z)) : Prop :=
    match res with
    | inl s => probe_inv idx s
    | inr (s, (i, sock)) =>
        panic = true /\ table_ok (ps_alts s) /\ hosts (ps_alts s) = hosts alts0 /\ ps_opened s ≡ₚ ps_closed s ++ [sock]
        /\ (exists time, probe i = ProbeOk sock time) /\ exists h, hosts alts0 !! i = Some h /\ used h
    end.

Lemma probeOne_skip done s i r :
    probe_inv done s -> (panic = true -> forall h, hosts alts0 !! i = Some h -> ~ used h) ->
    probe_inv (done ++ [i]) (ProbeState (ps_alts s) (ps_best s) (ps_closed s) r (ps_opened s) (ps_measured s)).
  Proof.
    intros [H1 H2 H3 H4 H5 H6 H7] Hp. split; cbn [ps_alts ps_best ps_closed ps_rng ps_opened ps_measured]; try done.
    - intros j Hj. apply elem_of_app. left. by apply H4.
    - intros Ep. destruct (H7 Ep) as [Hb Hd]. split; [done|]. intros j h [Hj|Hj%list_elem_of_singleton]%elem_of_app Hh Hu; [by eapply Hd|].
      subst j. exfalso. by eapply Hp.
  Qed.
Lemma probeOne_failed done s i a b sock r :
    probe_inv done s -> i ∉ done -> ps_alts s !! i = Some a -> fa_host b = fa_host a -> alt_ok b -> ~ answers (probe i) ->
    probe_inv (done ++ [i]) (ProbeState (<[i := b]> (ps_alts s)) (ps_best s) (ps_closed s ++ option_list sock) r
                               (ps_opened s ++ option_list sock) (ps_measured s)).
  Proof.
    intros [H1 H2 H3 H4 H5 H6 H7] Hi Ha Hh Hb Hn. destruct (table_insert _ i a b H1 Ha Hh Hb) as [Ht Eh].
    assert (forall j, j ∈ ps_measured s -> i <> j) as Hne by (intros j Hj ->; by apply Hi, H4).
    split; cbn [ps_alts ps_best ps_closed ps_rng ps_opened ps_measured]; try done.
    - by rewrite Eh.
    - rewrite H3. solve_Permutation.
    - intros j Hj. apply elem_of_app. left. by apply H4.
    - intros c k Hc. destruct (H5 c k Hc) as (Hm & Hp & Hu & Hle). split_and!; try done.
      intros j Hj. rewrite !rttOf_insert_ne by (by apply Hne). by apply Hle.
    - intros Ep. destruct (H7 Ep) as [Hb' Hd]. split; [done|]. intros j h [Hj|Hj%list_elem_of_singleton]%elem_of_app Hlk Hu; [by eapply Hd|by subst j].
  Qed.
Lemma probeOne_measured done s i a b sock time r :
    probe_inv done s -> panic = false -> i ∉ done -> ps_alts s !! i = Some a -> used (fa_host a) ->
    fa_host b = fa_host a -> alt_ok b -> probe i = ProbeOk sock time ->
    let alts := <[i := b]> (ps_alts s) in
    let opened := ps_opened s ++ [sock] in
    let measured := ps_measured s ++ [i] in
    probe_inv (done ++ [i])
      match ps_best s with
      | None => ProbeState alts (Some (i, sock)) (ps_closed s) r opened measured
      | Some (best, bestSock) =>
          if rttOf alts i <? rttOf alts best
          then ProbeState alts (Some (i, sock)) (ps_closed s ++ [bestSock]) r opened measured
          else ProbeState alts (Some (best, bestSock)) (ps_closed s ++ [sock]) r opened measured
      end.
  Proof.
    intros [H1 H2 H3 H4 H5 H6 H7] Ep Hi Ha Hu Hh Hb Hp alts opened measured. destruct (table_insert _ i a b H1 Ha Hh Hb) as [Ht Eh].
    fold alts in Ht, Eh. rewrite H2 in Eh.
    assert (forall j, j ∈ ps_measured s -> rttOf alts j = rttOf (ps_alts s) j) as Hsame
      by (intros j Hj; apply rttOf_insert_ne; intros ->; by apply Hi, H4).
    assert (forall j, j ∈ measured -> j ∈ done ++ [i]) as Hm.
    { intros j [Hj|Hj]%elem_of_app; apply elem_of_app; [left; by apply H4|by right]. }
    assert (exists h, hosts alts0 !! i = Some h /\ used h) as Hhi.
    { exists (fa_host a). split; [|done]. rewrite <- H2. by apply hosts_lookup. }
    assert (i ∈ measured) as Him by (apply elem_of_app; right; by apply list_elem_of_singleton).
    assert (forall x, (forall j, j ∈ ps_measured s -> rttOf alts x <= rttOf (ps_alts s) j) -> rttOf alts x <= rttOf alts i ->
      forall j, j ∈ measured -> rttOf alts x <= rttOf alts j) as Hmin.
    { intros x Hx Hxi j [Hj|Hj%list_elem_of_singleton]%elem_of_app; [rewrite (Hsame j Hj); by apply Hx|by subst j]. }
    destruct (ps_best s) as [[c k]|] eqn:Eb.
    - destruct (H5 c k eq_refl) as (Hcm & Hck & Hcu & Hcle). pose proof (Hsame c Hcm) as Hc.
      destruct (Z.ltb_spec (rttOf alts i) (rttOf alts c)) as [Hlt|Hge]; split; cbn [ps_alts ps_best ps_closed ps_rng ps_opened ps_measured]; try done; try congruence.
      + unfold opened. rewrite H3. cbn [openSocket]. solve_Permutation.
      + intros x y [= <- <-]. split_and!; [done|by exists time|done|]. apply Hmin; [|done]. intros j Hj. specialize (Hcle j Hj). lia.
      + unfold opened. rewrite H3. cbn [openSocket]. solve_Permutation.
      + intros x y [= <- <-]. split_and!; [apply elem_of_app; by left|done|done|]. apply Hmin; [|done]. intros j Hj. rewrite Hc. by apply Hcle.
    - rewrite (H6 eq_refl) in *. split; cbn [ps_alts ps_best ps_closed ps_rng ps_opened ps_measured]; try done; try congruence.
      + unfold opened. rewrite H3. cbn [openSocket]. by rewrite app_nil_r.
      + intros x y [= <- <-]. split_and!; [done|by exists time|done|]. apply Hmin; [|done]. by intros j ?%not_elem_of_nil.
  Qed.
Lemma probeOne_post done s i : probe_inv done s -> i ∉ done -> probe_post (done ++ [i]) (probeOne panic probe i s).
  Proof.
    intros Hs Hi. unfold probeOne. destruct (ps_alts s !! i) as [a|] eqn:Ea.
    2:{ destruct s. apply (probeOne_skip _ _ i _ Hs). intros _ h Hh. rewrite <- (pi_hosts _ _ Hs) in Hh. cbn in *.
        unfold hosts in Hh. change (map ?f ?l) with (f <$> l) in Hh. by rewrite list_lookup_fmap, Ea in Hh. }
    pose proof (hosts_lookup _ _ _ Ea) as Hhost. rewrite (pi_hosts _ _ Hs) in Hhost.
    destruct (Z.eqb_spec (host_type (fa_host a)) 0) as [E|E].
    { destruct s. apply (probeOne_skip _ _ i _ Hs). intros _ h Hh Hu. rewrite Hhost in Hh. by simplify_eq. }
    destruct (skipProbe panic a (ps_rng s)) as [skip r] eqn:Es. destruct skip.
    { apply (probeOne_skip _ _ i _ Hs). intros Ep. unfold skipProbe in Es. by rewrite Ep in Es. }
    pose proof (list.Forall_lookup_1 _ _ _ _ (to_entries _ (pi_table _ _ Hs)) Ea) as Hok. pose proof (nextRttIndex_ok a Hok) as Hok1.
    pose proof (Hprobe i) as Hp. destruct (probe i) as [sock penalty|sock time] eqn:Epr; cbn in Hp.
    { eapply probeOne_failed; [done|done|done|done|by apply probeFailed_ok|by rewrite Epr; intros []]. }
    destruct panic eqn:Ep.
    - destruct (pi_panic _ _ Hs Ep) as [Hb _]. pose proof (pi_sockets _ _ Hs) as Hsock. rewrite Hb in Hsock. cbn in Hsock.
      destruct (table_insert _ i a (nextRttIndex a) (pi_table _ _ Hs) Ea eq_refl Hok1) as [Ht Eh].
      cbn [probe_post ps_alts ps_best ps_closed ps_rng ps_opened ps_measured]. split_and!; [done|done|by rewrite Eh, (pi_hosts _ _ Hs)|by rewrite Hsock, app_nil_r|by exists time|by eexists].
    - pose proof (probeOne_measured done s i a (probeWorked time (nextRttIndex a)) sock time r Hs Ep Hi Ea E eq_refl
        (probeWorked_ok _ _ Hp Hok1) Epr) as H.
      cbv zeta in H. destruct (ps_best s) as [[c k]|]; [|done]. by destruct (_ <? _).
  Qed.
Lemma probeLoop_post idx : forall done s,
    probe_inv done s -> base.NoDup (done ++ idx) -> probe_post (done ++ idx) (probeLoop panic probe idx s).
  Proof.
    induction idx as [|i idx IH]; intros done s Hs Hn; cbn [probeLoop]; [by rewrite app_nil_r|].
    assert (i ∉ done) as Hi.
    { apply list.NoDup_app in Hn as (_ & Hd & _). intros Hin. apply (Hd i Hin). by apply list_elem_of_here. }
    pose proof (probeOne_post done s i Hs Hi) as H. replace (done ++ i :: idx) with ((done ++ [i]) ++ idx) in * by (by rewrite <- app_assoc).
    destruct (probeOne panic probe i s) as [s'|[s' [j k]]]; [by apply IH|exact H].
  Qed.
End probing.

(** Two tables that differ in the counters only. *)
Definition same_servers (alts alts' : list alt_server_t) : Prop := hosts alts' = hosts alts /\ map fa_rtt alts' = map fa_rtt alts.
Lemma rttOf_same alts alts' i : same_servers alts alts' -> rttOf alts' i = rttOf alts i.
Proof.
  intros [_ E]. unfold rttOf. change (map ?f ?l) with (f <$> l) in E. by rewrite <- !list_lookup_fmap, E.
Qed.
#[export] Instance same_servers_pre : PreOrder same_servers.
Proof. split; [by intros|]. intros a b c [H1 H2] [H3 H4]. split; congruence. Qed.
Lemma table_same alts alts' : table_ok alts -> same_servers alts alts' -> Forall alt_ok alts' -> table_ok alts'.
Proof.
  intros [Hl _ Hd] [E _] Hf. split; [|done|by rewrite E]. rewrite <- Hl. rewrite <- (length_map fa_host alts), <- (length_map fa_host alts').
  by f_equal.
Qed.
Lemma set_counts_ok best live a : 0 <= best <= 51 -> 0 <= live < 30000000 -> alt_ok a -> alt_ok (set_counts best live a).
Proof. intros ?? [H1 H2 H3 H4 H5 H6 H7]. by split. Qed.
Lemma insert_counts alts i a best live :
  table_ok alts -> alts !! i = Some a -> 0 <= best <= 51 -> 0 <= live < 30000000 ->
  table_ok (<[i := set_counts best live a]> alts) /\ same_servers alts (<[i := set_counts best live a]> alts).
Proof.
  intros Ht Ha Hb Hl. pose proof (list.Forall_lookup_1 _ _ _ _ (to_entries _ Ht) Ha) as Hok.
  destruct (table_insert alts i a (set_counts best live a) Ht Ha eq_refl (set_counts_ok _ _ _ Hb Hl Hok)) as [H1 H2].
  split; [done|]. split; [done|]. change (map ?f ?l) with (f <$> l). rewrite list_fmap_insert. apply list_insert_id.
  by rewrite list_lookup_fmap, Ha.
Qed.
Lemma imap_same (f : nat -> alt_server_t -> alt_server_t) alts :
  (forall i a, fa_host (f i a) = fa_host a /\ fa_rtt (f i a) = fa_rtt a) -> same_servers alts (imap f alts).
Proof.
  intros Hf. split; [unfold hosts|]; change (map ?g ?l) with (g <$> l); apply list_eq; intros i;
    rewrite !list_lookup_fmap, list_lookup_imap; destruct (alts !! i) as [a|]; cbn; try done; f_equal; apply Hf.
Qed.
Lemma imap_ok (f : nat -> alt_server_t -> alt_server_t) alts :
  (forall i a, alt_ok a -> alt_ok (f i a)) -> Forall alt_ok alts -> Forall alt_ok (imap f alts).
Proof.
  intros Hf Ha. apply list.Forall_lookup_2. intros i b Hb. rewrite list_lookup_imap in Hb. destruct (alts !! i) as [a|] eqn:E; [|done].
  cbn in Hb. simplify_eq. apply Hf. by apply (list.Forall_lookup_1 _ _ _ _ Ha E).
Qed.

(** The counting loop runs through, and wants to switch only to a faster server. *)
Definition count_inv (best c : nat) (alts0 : list alt_server_t) (s : list alt_server_t * rng * bool) : Prop :=
  table_ok s.1.1 /\ same_servers alts0 s.1.1 /\ (s.2 = true -> rttOf alts0 best < rttOf alts0 c).
Lemma countBest_ok best c alts0 s i :
  count_inv best c alts0 s -> (i < MAX_ALTS)%nat -> (c < MAX_ALTS)%nat ->
  exists s', countBest (Some c) best i s = Ok s' /\ count_inv best c alts0 s'.
Proof.
  destruct s as [[alts r] sw]. intros (Ht & Hs & Hsw) Hi Hc. cbn in Ht, Hs, Hsw. unfold countBest, currentAlt.
  rewrite <- (to_length _ Ht) in Hi, Hc. destruct (lookup_lt_is_Some_2 _ _ Hi) as [a Ea], (lookup_lt_is_Some_2 _ _ Hc) as [cur Ec].
  rewrite Ea, Ec. cbn [mbind result_bind].
  pose proof (list.Forall_lookup_1 _ _ _ _ (to_entries _ Ht) Ea) as [_ _ _ Hrtt Hlive _ Hbest].
  set (live := if (_ <? _) && _ then _ else fa_liveRtt a).
  assert (0 <= live < 30000000) as Hl.
  { unfold live. destruct ((_ <? _) && _) eqn:E; [|done]. apply andb_true_iff in E as [_ E%Z.ltb_lt].
    pose proof (Z.div_le_upper_bound (fa_liveRtt a) 100 (fa_liveRtt a - 1) ltac:(lia)) as Hd. split; [|pose proof (Z.div_pos (fa_liveRtt a) 100); lia].
    enough (fa_liveRtt a / 100 < fa_liveRtt a) by lia. apply Z.div_lt; lia. }
  destruct (Nat.eqb_spec i best) as [->|Hne].
  - set (count := if fa_bestCount a <? 50 then _ else _).
    assert (0 <= count <= 51) as Hcnt by (unfold count; destruct (Z.ltb_spec (fa_bestCount a) 50); lia).
    destruct (insert_counts alts best a count live Ht Ea Hcnt Hl) as [H1 H2].
    assert (same_servers alts0 (<[best := set_counts count live a]> alts)) as H3 by (by transitivity alts).
    destruct ((12 <? count) && _) eqn:E; [|eexists; split; [done|by split_and!]].
    eexists. split; [done|]. split_and!; cbn; [done|done|]. intros _. apply andb_true_iff in E as [_ E%Z.ltb_lt].
    rewrite (rttOf_same _ _ c H3) in E. rewrite <- (rttOf_same alts0 alts best Hs). unfold rttOf at 1. by rewrite Ea.
  - set (count := if 0 <? fa_bestCount a then _ else _).
    assert (0 <= count <= 51) as Hcnt by (unfold count; destruct (Z.ltb_spec 0 (fa_bestCount a)); lia).
    destruct (insert_counts alts i a count live Ht Ea Hcnt Hl) as [H1 H2].
    eexists. split; [done|]. split_and!; cbn; [done|by transitivity alts|done].
Qed.
Lemma countLoop_ok best c alts0 idx : forall s,
  count_inv best c alts0 s -> Forall (fun i => (i < MAX_ALTS)%nat) idx -> (c < MAX_ALTS)%nat ->
  exists s', countLoop (Some c) best idx s = Ok s' /\ count_inv best c alts0 s'.
Proof.
  induction idx as [|i idx IH]; intros s Hs Hi Hc; cbn [countLoop]; [by exists s|]. apply list.Forall_cons in Hi as [Hi Hr].
  destruct (countBest_ok best c alts0 s i Hs Hi Hc) as (s' & -> & Hs'). cbn [mbind result_bind]. by apply IH.
Qed.
Lemma decayFails_ok alts : table_ok alts -> table_ok (decayFails alts) /\ same_servers alts (decayFails alts).
Proof.
  intros Ht. assert (same_servers alts (decayFails alts)) as Hs by (apply imap_same; intros i a; by destruct (_ && _)).
  split; [|done]. apply (table_same alts); [done|done|]. apply imap_ok; [|apply Ht].
  intros i a [H1 H2 H3 H4 H5 H6 H7]. destruct ((MAX_ALTS_ACTIVE <=? i)%nat && _) eqn:E; [|done].
  apply andb_true_iff in E as [_ E%Z.ltb_lt]. split; cbn; try done. lia.
Qed.
Lemma clearCounts_ok best alts :
  table_ok alts ->
  let alts' := imap (fun i a => if (i =? best)%nat then a else set_counts 0 (fa_liveRtt a) a) alts in
  table_ok alts' /\ same_servers alts alts'.
Proof.
  intros Ht alts'. assert (same_servers alts alts') as Hs by (apply imap_same; intros i a; by destruct (_ =? _)%nat).
  split; [|done]. apply (table_same alts); [done|done|]. apply imap_ok; [|apply Ht]. intros i a Ha. destruct (_ =? _)%nat; [done|].
  apply set_counts_ok; [done| |done]. apply Ha.
Qed.
Lemma decide_switch_faster alts c best sw :
  table_ok alts -> (sw = true -> rttOf alts best < rttOf alts c) -> decide_switch alts (Some c) best sw = true -> rttOf alts best < rttOf alts c.
Proof.
  intros Ht Hsw. unfold decide_switch, RTT_ABSOLUTE_THRESHOLD, RTT_THRESHOLD_FACTOR_CLIENT.
  assert (0 <= rttOf alts c) as Hc.
  { unfold rttOf. destruct (alts !! c) as [a|] eqn:Ea; cbn; [|lia].
    pose proof (ao_rtt _ (list.Forall_lookup_1 _ _ _ _ (to_entries _ Ht) Ea)). lia. }
  rewrite !orb_true_iff, andb_true_iff, !Z.ltb_lt. intros [[[Hs _]|H]|H]; [by apply Hsw|lia|].
  pose proof (Z.div_le_upper_bound (rttOf alts c * 3) 4 (rttOf alts c) ltac:(lia) ltac:(lia)). lia.
Qed.

(** What a run promises: the table stays in order, sockets are accounted for, and the
    chosen server answered and is worth switching to. *)
Definition switch_target (panic : bool) (current : option nat) (probe : nat -> probe_result) (alts : list alt_server_t)
    (o : probe_outcome) (i : nat) (sock : Z) : Prop :=
  (exists time, probe i = ProbeOk sock time) /\ (exists h, hosts alts !! i = Some h /\ used h)
  /\ (panic = false -> forall c, current = Some c -> rttOf (po_alts o) i < rttOf (po_alts o) c)
  /\ (panic = false -> forall j, j ∈ po_measured o -> rttOf (po_alts o) i <= rttOf (po_alts o) j).
Definition outcome_ok (panic : bool) (current : option nat) (probe : nat -> probe_result) (alts : list alt_server_t) (o : probe_outcome) : Prop :=
  table_ok (po_alts o) /\ hosts (po_alts o) = hosts alts
  /\ po_opened o ≡ₚ po_closed o ++ openSocket (po_switch o)
  /\ (forall i sock, po_switch o = Some (i, sock) -> switch_target panic current probe alts o i sock).
Lemma decision_ok panic c probe alts0 s best bestSock idx :
  probe_inv panic probe alts0 idx s -> ps_best s = Some (best, bestSock) -> (c < MAX_ALTS)%nat ->
  exists o,
    ('(alts, r, doSwitch) ← countLoop (Some c) best (seq 0 MAX_ALTS_ACTIVE) (ps_alts s, ps_rng s, false);
     let alts := decayFails alts in
     if decide_switch alts (Some c) best doSwitch then
       let alts := imap (fun i a => if (i =? best)%nat then a else set_counts 0 (fa_liveRtt a) a) alts in
       Ok (ProbeOutcome alts (ps_closed s) (Some (best, bestSock)) (ps_opened s) (ps_measured s))
     else Ok (ProbeOutcome alts (ps_closed s ++ [bestSock]) None (ps_opened s) (ps_measured s))) = Ok o
    /\ outcome_ok panic (Some c) probe alts0 o.
Proof.
  intros Hs Eb Hc. destruct (pi_best _ _ _ _ _ Hs best bestSock Eb) as (_ & Hans & Hu & Hmin).
  pose proof (pi_sockets _ _ _ _ _ Hs) as Hsock. rewrite Eb in Hsock. cbn [openSocket] in Hsock.
  destruct (countLoop_ok best c (ps_alts s) (seq 0 MAX_ALTS_ACTIVE) (ps_alts s, ps_rng s, false)) as ([[alts r] sw] & E & H1 & H2 & Hsw).
  { split_and!; [by eapply pi_table|done|done]. }
  { apply list.Forall_forall. intros i Hi%elem_of_seq. unfold MAX_ALTS_ACTIVE, MAX_ALTS in *. lia. }
  { done. }
  cbn in H1, H2, Hsw. rewrite E. cbn [mbind result_bind]. cbv zeta. destruct (decayFails_ok alts H1) as [H3 H4].
  assert (same_servers (ps_alts s) (decayFails alts)) as H5 by (by transitivity alts).
  assert (hosts (decayFails alts) = hosts alts0) as Eh by (rewrite (proj1 H5); by eapply pi_hosts).
  destruct (decide_switch (decayFails alts) (Some c) best sw) eqn:Ed.
  - destruct (clearCounts_ok best _ H3) as [H6 H7]. eexists. split; [done|].
    assert (same_servers (ps_alts s) (imap (fun i a => if (i =? best)%nat then a else set_counts 0 (fa_liveRtt a) a) (decayFails alts))) as H8
      by (by transitivity (decayFails alts)).
    unfold outcome_ok, switch_target. cbn [po_alts po_closed po_switch po_opened po_measured openSocket]. split_and!; [done|by rewrite (proj1 H7)|done|].
    intros i sock [= <- <-]. split_and!; [done|done| |].
    + intros _ c' [= <-]. rewrite !(rttOf_same _ _ _ H7). apply (decide_switch_faster _ _ _ sw H3); [|done].
      intros Es. rewrite !(rttOf_same _ _ _ H5). by apply Hsw.
    + intros _ j Hj. rewrite !(rttOf_same _ _ _ H8). by apply Hmin.
  - eexists. split; [done|]. unfold outcome_ok. cbn [po_alts po_closed po_switch po_opened po_measured openSocket].
    split_and!; [done|done|by rewrite app_nil_r|done].
Qed.

(** Probing the servers always comes to a decision: the table stays in order with the
    same servers, every socket the probes opened is closed except the one handed to the
    switch, and the client switches only to a server that answered this time.  While the
    current server works that is the fastest of the servers measured and faster than the
    current one; when it does not, the client switches whenever any listed server answers. *)
Theorem probeAltServers_correct panic current probe alts r :
  table_ok alts ->
  (forall i, probe_ok (probe i)) ->
  (panic = false -> exists c, current = Some c /\ (c < MAX_ALTS)%nat) ->
  exists o, probeAltServers panic current probe alts r = Ok o /\ outcome_ok panic current probe alts o
    /\ (panic = true -> (exists i h, hosts alts !! i = Some h /\ used h /\ answers (probe i)) -> po_switch o <> None).
Proof.
  intros Hok Hp Hcur. unfold probeAltServers. set (idx := seq 0 (if panic then MAX_ALTS else MAX_ALTS_ACTIVE)).
  assert (probe_inv panic probe alts [] (ProbeState alts None [] r [] [])) as H0.
  { split; cbn [ps_alts ps_best ps_closed ps_rng ps_opened ps_measured]; try done. intros _. split; [done|]. by intros ?? ?%not_elem_of_nil. }
  pose proof (probeLoop_post panic probe alts Hp idx [] _ H0 ltac:(apply NoDup_seq)) as Hpost. cbn [app] in Hpost.
  destruct (probeLoop panic probe idx _) as [s|[s [i sock]]].
  - cbn in Hpost. destruct (ps_best s) as [[best bestSock]|] eqn:Eb.
    + assert (panic = false) as Ep by (destruct panic; [|done]; destruct (pi_panic _ _ _ _ _ Hpost eq_refl); congruence).
      destruct (Hcur Ep) as (c & -> & Hc). destruct (decision_ok panic c probe alts s best bestSock idx Hpost Eb Hc) as (o & Eo & Ho).
      exists o. split_and!; [exact Eo|done|congruence].
    + eexists. split; [done|]. pose proof (pi_sockets _ _ _ _ _ Hpost) as Hs. rewrite Eb in Hs. split.
      * split_and!; [by eapply pi_table|by eapply pi_hosts|done|done].
      * intros Ep (i & h & Hi & Hu & Ha). exfalso. destruct (pi_panic _ _ _ _ _ Hpost Ep) as [_ Hd]. eapply Hd; [|done..].
        unfold idx. rewrite Ep. apply elem_of_seq. rewrite <- (to_length _ Hok), <- (length_map fa_host). apply lookup_lt_Some in Hi. unfold hosts in Hi. lia.
  - destruct Hpost as (Ep & Ht & Eh & Hs & Ha & Hu). eexists. split; [done|]. split; [|done]. split_and!; [done|done|done|].
    intros j k [= <- <-]. split_and!; [done|done| |]; congruence.
Qed.
Lemma probeAltServers_correct_witness :
  (exists o, probeAltServers false (Some 0%nat) (fun i => match i with 0%nat => ProbeOk 7 200000 | _ => ProbeOk 8 500 end) demo_fuse_table (Rng (fun _ => 0) 0) = Ok o
     /\ po_switch o = Some (1%nat, 8) /\ po_closed o = [7]
     /\ outcome_ok false (Some 0%nat) (fun i => match i with 0%nat => ProbeOk 7 200000 | _ => ProbeOk 8 500 end) demo_fuse_table o).
Proof.
  destruct (probeAltServers_correct false (Some 0%nat) (fun i => match i with 0%nat => ProbeOk 7 200000 | _ => ProbeOk 8 500 end) demo_fuse_table (Rng (fun _ => 0) 0))
    as (o & E & Ho & _).
  - apply demo_table_ok.
  - intros [|i]; cbn; unfold RTT_UNREACHABLE; lia.
  - intros _. exists 0%nat. split; [done|]. unfold MAX_ALTS. lia.
  - exists o. split; [done|]. vm_compute in E. injection E as E. split; [|split; [|done]]; rewrite <- E; reflexivity.
Defined.
