(* ===== verification/KernelServers.v ===== *)
(** * KernelServers: the servers of a kernel block device
      ([src/kernel/dnbd3_main.c], [src/kernel/net.c])

    The table of alternative servers of a device, the probing of servers by
    [dnbd3_internal_discover] and the decision to switch, and the scheduling of the probes.
    What a server answers is an input ([probe]); what other threads do to the device while
    a server is being probed is a function of the device ([interfere]). *)

From S2P Require Import Prelude Timing Types Helper AltServers.

Open Scope Z_scope.

(** ** Addresses *)

Definition AF_INET : Z := 2.
Definition AF_INET6 : Z := 10.
Record sockaddr := SockAddr { ss_family : Z; ss_port : Z; ss_addr : list Z }.
#[global] Instance sockaddr_eq_dec : EqDecision sockaddr.
Proof. solve_decision. Defined.

Definition dnbd3_host_to_sockaddr (host : dnbd3_host_t) : option sockaddr :=
  if host_type host =? HOST_IP4 then Some (SockAddr AF_INET (host_port host) (take 4 (host_addr host)))
  else if host_type host =? HOST_IP6 then Some (SockAddr AF_INET6 (host_port host) (take 16 (host_addr host)))
  else None.
Definition is_same_server (x y : sockaddr) : bool :=
  (ss_family x =? ss_family y)
  && ((ss_family x =? AF_INET) || (ss_family x =? AF_INET6))
  && (ss_port x =? ss_port y) && bool_decide (ss_addr x = ss_addr y).

(** ** The table *)

Record kernel_alt := KAlt {
  ka_rtts : list Z;
  ka_version : Z;
  ka_failures : Z;
  ka_best_count : Z;
  ka_host : sockaddr;
}.
Definition EINVAL : Z := 22.
Definition EEXIST : Z := 17.
Definition ENOSPC : Z := 28.
Definition ENOENT : Z := 2.

Definition firstSlot (p : kernel_alt -> bool) (alts : list kernel_alt) : option nat :=
  fst <$> list_find (fun a => p a = true) alts.
Definition get_free_alt_server (alts : list kernel_alt) : option nat :=
  match firstSlot (fun a => ss_family (ka_host a) =? 0) alts with
  | Some i => Some i
  | None => firstSlot (fun a => 10 <? ka_failures a) alts
  end.
Definition get_existing_alt_from_addr (addr : sockaddr) (alts : list kernel_alt) : option nat :=
  firstSlot (fun a => is_same_server addr (ka_host a)) alts.
Definition get_existing_alt_from_host (host : dnbd3_host_t) (alts : list kernel_alt) : option nat :=
  match dnbd3_host_to_sockaddr host with
  | None => None
  | Some addr => get_existing_alt_from_addr addr alts
  end.
Definition dnbd3_add_server (alts : list kernel_alt) (host : dnbd3_host_t) : Z * list kernel_alt :=
  if negb (host_type host =? HOST_IP4) && negb (host_type host =? HOST_IP6) then (- EINVAL, alts)
  else
    match get_existing_alt_from_host host alts with
    | Some _ => (- EEXIST, alts)
    | None =>
        match get_free_alt_server alts with
        | None => (- ENOSPC, alts)
        | Some i =>
            let addr := default (SockAddr 0 0 []) (dnbd3_host_to_sockaddr host) in
            (0, <[i := KAlt (replicate 4 RTT_UNREACHABLE) 0 0 0 addr]> alts)
        end
    end.
Definition clearFamily (a : kernel_alt) : kernel_alt :=
  KAlt (ka_rtts a) (ka_version a) (ka_failures a) (ka_best_count a) (SockAddr 0 (ss_port (ka_host a)) (ss_addr (ka_host a))).
Definition dnbd3_rem_server (alts : list kernel_alt) (host : dnbd3_host_t) : Z * list kernel_alt :=
  match get_existing_alt_from_host host alts with
  | None => (- ENOENT, alts)
  | Some i => (0, alter clearFamily i alts)
  end.

(** * The table stays in order *)

Definition kused (a : sockaddr) : Prop := ss_family a = AF_INET \/ ss_family a = AF_INET6.
#[global] Instance kused_dec a : Decision (kused a).
Proof. unfold kused. apply _. Defined.
Definition khosts (alts : list kernel_alt) : list sockaddr := ka_host <$> alts.
(** Measured times stay below [2^40] microseconds, 12 days. *)
Definition MAX_TIME : Z := 2 ^ 40.
Record kalt_ok (a : kernel_alt) : Prop := KAltOk {
  ko_rtts : length (ka_rtts a) = 4%nat;
  ko_values : Forall (fun x => 0 <= x <= MAX_TIME) (ka_rtts a);
  ko_failures : in_u8 (ka_failures a);
  ko_best : 0 <= ka_best_count a <= 180;
  ko_family : ss_family (ka_host a) = 0 \/ kused (ka_host a);
}.
Record ktable_ok (alts : list kernel_alt) : Prop := KTableOk {
  kt_length : length alts = 8%nat;
  kt_entries : Forall kalt_ok alts;
  kt_distinct : base.NoDup (filter kused (khosts alts));
}.

Lemma is_same_server_eq x y : is_same_server x y = true <-> x = y /\ kused x.
Proof.
  unfold is_same_server, kused. destruct x as [f1 p1 a1], y as [f2 p2 a2]; cbn.
  rewrite !andb_true_iff, orb_true_iff, !Z.eqb_eq, bool_decide_eq_true. split.
  - intros [[[-> ?] ->] ->]. done.
  - intros [[= -> -> ->] ?]. done.
Qed.
Lemma firstSlot_Some p alts i :
  firstSlot p alts = Some i -> exists a, alts !! i = Some a /\ p a = true.
Proof.
  unfold firstSlot. destruct (list_find _ alts) as [[k a]|] eqn:E; [|done]. intros [= <-]. apply list_find_Some in E as (H1 & H2 & _). by exists a.
Qed.
Lemma firstSlot_None p alts a : firstSlot p alts = None -> a ∈ alts -> p a = false.
Proof.
  unfold firstSlot. destruct (list_find _ alts) as [[k b]|] eqn:E; [done|]. intros _ Hin. apply list_find_None in E.
  rewrite list.Forall_forall in E. specialize (E a Hin). by destruct (p a).
Qed.
Lemma khosts_insert alts i a : khosts (<[i := a]> alts) = <[i := ka_host a]> (khosts alts).
Proof. apply list_fmap_insert. Qed.
Lemma khosts_lookup alts i a : alts !! i = Some a -> khosts alts !! i = Some (ka_host a).
Proof. intros Ha. unfold khosts. by rewrite list_lookup_fmap, Ha. Qed.
Lemma existing_found addr alts : kused addr -> get_existing_alt_from_addr addr alts <> None <-> addr ∈ khosts alts.
Proof.
  intros Hu. unfold get_existing_alt_from_addr. split.
  - destruct (firstSlot _ alts) as [i|] eqn:E; [|done]. intros _. apply firstSlot_Some in E as (a & Ha & [-> _]%is_same_server_eq).
    by eapply list_elem_of_lookup_2, khosts_lookup.
  - intros (a & -> & Ha)%list_elem_of_fmap E. apply (firstSlot_None _ _ a) in E; [|done].
    assert (is_same_server (ka_host a) (ka_host a) = true) by (by apply is_same_server_eq). congruence.
Qed.
(** Replacing an address by one that is not listed, or by none. *)
Lemma distinct_replace hs i (h : sockaddr) :
  base.NoDup (filter kused hs) -> (h ∉ hs \/ ~ kused h) -> base.NoDup (filter kused (<[i := h]> hs)).
Proof.
  intros Hd Hn. destruct (decide (i < length hs)%nat) as [Hi|]; [|by rewrite list_insert_ge by lia].
  destruct (lookup_lt_is_Some_2 _ _ Hi) as [h0 Hh0]. apply list_elem_of_split_length in Hh0 as (l1 & l2 & -> & ->).
  rewrite insert_app_r_alt, Nat.sub_diag by lia. cbn [insert list_insert]. rewrite list.filter_app in *.
  assert (base.NoDup (filter kused l1 ++ filter kused l2)) as Hr.
  { destruct (decide (kused h0)); [rewrite filter_cons_True in Hd by done|rewrite filter_cons_False in Hd by done; done].
    rewrite <- Permutation_middle in Hd. by apply list.NoDup_cons in Hd as [_ Hd]. }
  destruct (decide (kused h)) as [Hu|]; [rewrite filter_cons_True by done|by rewrite filter_cons_False by done].
  destruct Hn as [Hn|]; [|done]. rewrite <- Permutation_middle. apply list.NoDup_cons. split; [|done].
  rewrite elem_of_app, !list_elem_of_filter. intros [[_ H]|[_ H]]; apply Hn; apply elem_of_app; [by left|right; by constructor].
Qed.
(** Two places of a listed address are the same. *)
Lemma filter_NoDup_index (P : sockaddr -> Prop) `{!forall x, Decision (P x)} l i j x :
  base.NoDup (filter P l) -> P x -> l !! i = Some x -> l !! j = Some x -> i = j.
Proof.
  revert i j. induction l as [|y l IH]; intros i j Hd Hx Hi Hj; [done|].
  assert (forall k, l !! k = Some x -> y <> x) as Hne.
  { intros k Hk ->. rewrite filter_cons_True in Hd by done. apply list.NoDup_cons in Hd as [Hd _]. apply Hd, list_elem_of_filter.
    split; [done|]. by eapply list_elem_of_lookup_2. }
  assert (base.NoDup (filter P l)) as Hd'.
  { destruct (decide (P y)); [rewrite filter_cons_True in Hd by done; by apply list.NoDup_cons in Hd as [_ ?]|by rewrite filter_cons_False in Hd]. }
  destruct i as [|i], j as [|j]; cbn in Hi, Hj; simplify_eq; [done|by destruct (Hne _ Hj)|by destruct (Hne _ Hi)|].
  f_equal. by apply IH.
Qed.
Lemma ktable_insert alts i a :
  ktable_ok alts -> kalt_ok a -> (ka_host a ∉ khosts alts \/ ~ kused (ka_host a) \/ khosts alts !! i = Some (ka_host a)) ->
  ktable_ok (<[i := a]> alts).
Proof.
  intros [Hl He Hd] Ha Hn. split; [by rewrite length_insert|by apply list.Forall_insert|]. rewrite khosts_insert.
  destruct Hn as [Hn|[Hn|Hn]]; [apply distinct_replace; auto|apply distinct_replace; auto|by rewrite list_insert_id].
Qed.
Lemma host_to_sockaddr_used host addr : dnbd3_host_to_sockaddr host = Some addr -> kused addr.
Proof.
  unfold dnbd3_host_to_sockaddr, kused, AF_INET, AF_INET6. destruct (_ =? HOST_IP4); [intros [= <-]; by left|].
  destruct (_ =? HOST_IP6); [intros [= <-]; by right|done].
Qed.
Lemma new_kalt_ok addr : kused addr -> kalt_ok (KAlt (replicate 4 RTT_UNREACHABLE) 0 0 0 addr).
Proof.
  intros Hu. split; cbn; [done| | |done|by right].
  - unfold RTT_UNREACHABLE, MAX_TIME. repeat (constructor; [lia|]). constructor.
  - crange.
Qed.
Lemma clearFamily_ok a : kalt_ok a -> kalt_ok (clearFamily a).
Proof. intros [H1 H2 H3 H4 H5]. split; cbn; try done. by left. Qed.

Lemma add_server_spec alts host addr :
  ktable_ok alts -> dnbd3_host_to_sockaddr host = Some addr ->
  let '(r, alts') := dnbd3_add_server alts host in
   ktable_ok alts' /\ (r = 0 \/ r = - EEXIST \/ r = - ENOSPC)
   /\ (r = 0 -> (addr ∉ khosts alts) /\ exists i a, alts !! i = Some a /\ (~ kused (ka_host a) \/ 10 < ka_failures a)
         /\ khosts alts' = <[i := addr]> (khosts alts))
   /\ (r <> 0 -> alts' = alts)
   /\ (r = - EEXIST <-> addr ∈ khosts alts)
   /\ (r = - ENOSPC -> forall a, a ∈ alts -> kused (ka_host a) /\ ka_failures a <= 10).
Proof.
  intros Hok Ha. pose proof (host_to_sockaddr_used _ _ Ha) as Hu.
  unfold dnbd3_add_server, get_existing_alt_from_host. rewrite Ha.
  assert (negb (host_type host =? HOST_IP4) && negb (host_type host =? HOST_IP6) = false) as ->.
  { unfold dnbd3_host_to_sockaddr in Ha. destruct (host_type host =? HOST_IP4); [done|]. by destruct (host_type host =? HOST_IP6). }
  pose proof (existing_found addr alts Hu) as Hex. destruct (get_existing_alt_from_addr addr alts) as [k|].
  + split_and!; try done; [by right; left|]. split; [|done]. intros _. by apply Hex.
  + assert (addr ∉ khosts alts) as Hn by (intros Hin; by apply Hex in Hin).
    destruct (get_free_alt_server alts) as [i|] eqn:Ef.
    * cbn [default]. unfold default, id. split_and!; [|by left|intros _|done|by split|done].
      -- apply ktable_insert; [done|by apply new_kalt_ok|by left].
      -- split; [done|]. unfold get_free_alt_server in Ef. destruct (firstSlot _ alts) as [k|] eqn:E1; simplify_eq.
         ++ apply firstSlot_Some in E1 as (a & Hk & E%Z.eqb_eq). exists i, a. split; [done|]. split; [left|by rewrite khosts_insert].
            unfold kused, AF_INET, AF_INET6. lia.
         ++ apply firstSlot_Some in Ef as (a & Hk & E%Z.ltb_lt). exists i, a. split; [done|]. split; [by right|by rewrite khosts_insert].
    * split_and!; try done; [by right; right|]. intros _ a Hin. unfold get_free_alt_server in Ef. destruct (firstSlot _ alts) eqn:E1; [done|].
      pose proof (firstSlot_None _ _ _ E1 Hin) as H1. pose proof (firstSlot_None _ _ _ Ef Hin) as H2. cbv beta in H1, H2. b2p. split; [|lia].
      pose proof (kt_entries _ Hok) as He. rewrite list.Forall_forall in He. by destruct (ko_family _ (He a Hin)).
Qed.
Lemma rem_server_spec alts host addr :
  ktable_ok alts -> dnbd3_host_to_sockaddr host = Some addr ->
  let '(r, alts') := dnbd3_rem_server alts host in
      ktable_ok alts' /\ (addr ∉ khosts alts') /\ (r = 0 <-> addr ∈ khosts alts) /\ (r <> 0 -> alts' = alts)
      /\ forall h, kused h -> h <> addr -> h ∈ khosts alts -> h ∈ khosts alts'.
Proof.
  intros Hok Ha. pose proof (host_to_sockaddr_used _ _ Ha) as Hu.
  unfold dnbd3_rem_server, get_existing_alt_from_host. rewrite Ha. pose proof (existing_found addr alts Hu) as Hex.
  destruct (get_existing_alt_from_addr addr alts) as [k|] eqn:Ek.
  + apply firstSlot_Some in Ek as (a & Hk & [-> _]%is_same_server_eq). rewrite (alter_insert _ _ _ _ Hk).
    assert (~ kused (ka_host (clearFamily a))) as Hnu by (unfold kused, AF_INET, AF_INET6; cbn; lia).
    split_and!.
    * apply ktable_insert; [done| |by right; left]. apply clearFamily_ok. by apply (list.Forall_lookup_1 _ _ _ _ (kt_entries _ Hok) Hk).
    * rewrite khosts_insert. intros Hin. apply list_elem_of_lookup in Hin as [j Hj].
      destruct (decide (j = k)) as [->|Hne].
      { rewrite list_lookup_insert_eq in Hj; [|unfold khosts; rewrite length_fmap; by eapply lookup_lt_Some].
        apply Hnu. injection Hj as Hj. cbn. by rewrite Hj. }
      rewrite list_lookup_insert_ne in Hj by done. apply Hne. apply (khosts_lookup) in Hk.
      by apply (filter_NoDup_index kused (khosts alts) _ _ (ka_host a) (kt_distinct _ Hok)).
    * split; [intros _; by eapply list_elem_of_lookup_2, khosts_lookup|done].
    * done.
    * intros h Hh Hne (j & Hj)%list_elem_of_lookup. rewrite khosts_insert. apply (list_elem_of_lookup_2 _ j).
      rewrite list_lookup_insert_ne; [done|]. intros ->. apply khosts_lookup in Hk. congruence.
  + assert (addr ∉ khosts alts) as Hn by (intros Hin; by apply Hex in Hin). split_and!; try done.
Qed.

(** The server table of a device: adding and removing servers keep it in order (8
    slots, no address twice, counters in range).  Adding succeeds exactly for a new
    address with a slot that is empty or failed more than ten times; the address is then
    listed and no other server but the one in that slot is forgotten.  A removed server is
    gone and the others stay; errors change nothing. *)
Theorem kernel_server_table_correct alts host addr :
  ktable_ok alts -> dnbd3_host_to_sockaddr host = Some addr ->
  (let '(r, alts') := dnbd3_add_server alts host in
   ktable_ok alts' /\ (r = 0 \/ r = - EEXIST \/ r = - ENOSPC)
   /\ (r = 0 -> (addr ∉ khosts alts) /\ exists i a, alts !! i = Some a /\ (~ kused (ka_host a) \/ 10 < ka_failures a)
         /\ khosts alts' = <[i := addr]> (khosts alts))
   /\ (r <> 0 -> alts' = alts)
   /\ (r = - EEXIST <-> addr ∈ khosts alts)
   /\ (r = - ENOSPC -> forall a, a ∈ alts -> kused (ka_host a) /\ ka_failures a <= 10))
  /\ (let '(r, alts') := dnbd3_rem_server alts host in
      ktable_ok alts' /\ (addr ∉ khosts alts') /\ (r = 0 <-> addr ∈ khosts alts) /\ (r <> 0 -> alts' = alts)
      /\ forall h, kused h -> h <> addr -> h ∈ khosts alts -> h ∈ khosts alts').
Proof. intros Hok Ha. split; [by apply add_server_spec|by apply rem_server_spec]. Qed.
Definition demo_kalts : list kernel_alt :=
  KAlt [1000; 1000; 1000; 1000] 3 0 0 (SockAddr AF_INET 5003 [10; 0; 0; 1])
  :: replicate 7 (KAlt [0; 0; 0; 0] 0 0 0 (SockAddr 0 0 [])).
Lemma demo_kalts_ok : ktable_ok demo_kalts.
Proof.
  split; [done| |].
  - constructor; [|apply Forall_replicate]; (split; cbn; unfold MAX_TIME, kused, AF_INET; [done| |crange|lia|auto]);
      repeat (constructor; [lia|]); constructor.
  - by apply (bool_decide_eq_true_1 _).
Qed.
Lemma kernel_server_table_correct_witness :
  let h := Host (padAddr [10; 0; 0; 2]) 5003 HOST_IP4 in
  (dnbd3_add_server demo_kalts h).1 = 0 /\ ktable_ok (dnbd3_add_server demo_kalts h).2
  /\ (dnbd3_rem_server demo_kalts h).1 = - ENOENT.
Proof.
  pose proof (kernel_server_table_correct demo_kalts (Host (padAddr [10; 0; 0; 2]) 5003 HOST_IP4) (SockAddr AF_INET 5003 [10; 0; 0; 2]) demo_kalts_ok eq_refl) as H.
  split; [vm_compute; reflexivity|]. split; [|vm_compute; reflexivity].
  destruct H as [H _]. destruct (dnbd3_add_server demo_kalts _) as [r alts]. exact (proj1 H).
Defined.
