(* ===== verification/KernelDiscover.v ===== *)
(** * KernelDiscover: choosing a server for a kernel block device ([src/kernel/net.c])

    The device as the workers see it, replacing the main connection, and
    [dnbd3_internal_discover]: shuffle the servers, probe them, keep the fastest and switch
    to it, or to the first that answers in panic mode.  [probe] is what connecting to a
    server, the handshake and the test block give; [interfere] is what the other threads
    do to the device while a server is being probed.  The handling of the pending requests
    at a switch is part of [KernelQueue]. *)

From stdpp Require Import sets.
From S2P Require Import Prelude Timing Types Helper AltServers KernelServers.

Open Scope Z_scope.

Definition TIMER_INTERVAL_PROBE_STARTUP : Z := 2.
Definition TIMER_INTERVAL_PROBE_SWITCH : Z := 10.
Definition TIMER_INTERVAL_PROBE_PANIC : Z := 2.
Definition TIMER_INTERVAL_PROBE_MAX : Z := 45.
Definition DISCOVER_STARTUP_PHASE_COUNT : Z := 6.
Definition DISCOVER_HISTORY_SIZE : Z := 4.
Definition RTT_THRESHOLD_FACTOR_KERNEL (us : Z) : Z := u64 (us * 3) / 4.

(** ** The device *)

Record kernel_dev := KDev {
  kd_image : bool;          (* [imgname != NULL] *)
  kd_size : Z;              (* [reported_size] *)
  kd_sock : option Z;
  kd_cur : sockaddr;
  kd_cur_rtt : Z;
  kd_cur_version : Z;
  kd_alts : list kernel_alt;
  kd_panic : bool;
  kd_panic_count : Z;
  kd_lock : bool;           (* [connection_lock] *)
  kd_running : bool;        (* [discover_running] *)
  kd_interval : Z;
  kd_count : Z;             (* [discover_count] *)
}.
Definition device_active (d : kernel_dev) : bool := negb (kd_size d =? 0).
Definition set_alts (alts : list kernel_alt) (d : kernel_dev) : kernel_dev :=
  KDev (kd_image d) (kd_size d) (kd_sock d) (kd_cur d) (kd_cur_rtt d) (kd_cur_version d) alts (kd_panic d) (kd_panic_count d)
    (kd_lock d) (kd_running d) (kd_interval d) (kd_count d).
Definition set_cur_rtt (rtt : Z) (d : kernel_dev) : kernel_dev :=
  KDev (kd_image d) (kd_size d) (kd_sock d) (kd_cur d) rtt (kd_cur_version d) (kd_alts d) (kd_panic d) (kd_panic_count d)
    (kd_lock d) (kd_running d) (kd_interval d) (kd_count d).
Definition set_panic (panic : bool) (count interval : Z) (d : kernel_dev) : kernel_dev :=
  KDev (kd_image d) (kd_size d) (kd_sock d) (kd_cur d) (kd_cur_rtt d) (kd_cur_version d) (kd_alts d) panic count
    (kd_lock d) (kd_running d) interval (kd_count d).
Definition set_flags (lock running : bool) (d : kernel_dev) : kernel_dev :=
  KDev (kd_image d) (kd_size d) (kd_sock d) (kd_cur d) (kd_cur_rtt d) (kd_cur_version d) (kd_alts d) (kd_panic d) (kd_panic_count d)
    lock running (kd_interval d) (kd_count d).
Definition set_sched (interval count : Z) (d : kernel_dev) : kernel_dev :=
  KDev (kd_image d) (kd_size d) (kd_sock d) (kd_cur d) (kd_cur_rtt d) (kd_cur_version d) (kd_alts d) (kd_panic d) (kd_panic_count d)
    (kd_lock d) (kd_running d) interval count.

(** The new main connection; the old socket is released (second result). *)
Definition replace_main_socket (d : kernel_dev) (sock : option Z) (addr : option sockaddr) (version : Z) : kernel_dev * list Z :=
  let '(host, rtt, version) := match addr with None => (SockAddr 0 0 [], 0, 0) | Some a => (a, 0, version) end in
  (KDev (kd_image d) (kd_size d) sock host rtt version (kd_alts d) (kd_panic d) (kd_panic_count d)
     (kd_lock d) (kd_running d) (kd_interval d) (kd_count d), option_list (kd_sock d)).
(** [None]: the result is [-EINVAL]. *)
Definition dnbd3_set_primary_connection (d : kernel_dev) (sock : Z) (addr : sockaddr) (version : Z) : option (kernel_dev * list Z) :=
  if (ss_family addr =? 0) || negb (kd_image d) then None
  else
    let '(d, old) := replace_main_socket d (Some sock) (Some addr) version in
    Some (set_panic false 0 TIMER_INTERVAL_PROBE_SWITCH d, old).

(** ** Probing *)

Inductive kernel_probe :=
| KNoConnect
| KNoHandshake (sock version : Z)   (* the version the handshake got, 0 if none *)
| KNoBlock (sock version : Z)
| KAnswer (sock version time : Z).

Record kernel_switch := KSwitch {
  sw_addr : sockaddr;
  sw_sock : Z;
  sw_panic : bool;
  sw_best_rtt : Z;
  sw_cur_rtt : Z;
}.
Record discover_state := DState {
  ds_dev : kernel_dev;
  ds_isize : Z;
  ds_best : option (sockaddr * Z);   (* [best_server] and [best_sock] *)
  ds_best_rtt : Z;
  ds_rtt : Z;
  ds_version : Z;                    (* [remote_version] *)
  ds_rng : rng;
  ds_released : list Z;              (* sockets closed, opened, and servers probed so far *)
  ds_opened : list Z;
  ds_probed : list nat;
  ds_times : list Z;                 (* averages of the servers that answered *)
}.
Record discover_outcome := DOutcome {
  do_dev : kernel_dev;
  do_released : list Z;
  do_opened : list Z;
  do_probed : list nat;
  do_times : list Z;
  do_switch : option kernel_switch;
  do_old : list Z;                   (* the old main socket, released at a switch *)
}.

Definition swapAt (i j : nat) (order : list nat) : list nat :=
  match order !! i, order !! j with
  | Some a, Some b => <[j := a]> (<[i := b]> order)
  | _, _ => order
  end.
Fixpoint shuffle (n i : nat) (order : list nat) (r : rng) : list nat * rng :=
  match n with
  | O => (order, r)
  | S n =>
      let '(v, r) := rand r in
      let j := Z.to_nat (u32 v mod NUMBER_SERVERS) in
      shuffle n (S i) (if (j =? i)%nat then order else swapAt i j order) r
  end.

(** A server answered the test block. *)
Definition measured (turn version time : Z) (a : kernel_alt) : kernel_alt :=
  KAlt (<[Z.to_nat turn := time]> (ka_rtts a)) version 0
    (if 1 <? ka_best_count a then ka_best_count a - 2 else ka_best_count a) (ka_host a).
Definition averageRtt (rtts : list Z) : Z := u64 (zsum (fun x => x) rtts) / DISCOVER_HISTORY_SIZE.
(** A server failed. *)
Definition failed (turn version : Z) (a : kernel_alt) : kernel_alt :=
  KAlt (<[Z.to_nat turn := RTT_UNREACHABLE]> (ka_rtts a)) (if version =? 0 then ka_version a else version)
    (u8 (ka_failures a + 1)) (if 2 <? ka_best_count a then ka_best_count a - 3 else ka_best_count a) (ka_host a).
(** Change entry [i] if it still is the server that was probed. *)
Definition updateAlt (f : kernel_alt -> kernel_alt) (i : nat) (host : sockaddr) (alts : list kernel_alt) : list kernel_alt :=
  match alts !! i with
  | Some a => if is_same_server (ka_host a) host then <[i := f a]> alts else alts
  | None => alts
  end.
Definition updateCur (rtt : Z) (host : sockaddr) (d : kernel_dev) : kernel_dev :=
  if is_same_server (kd_cur d) host then set_cur_rtt rtt d else d.

Definition probeFail (turn : Z) (i : nat) (host : sockaddr) (sock : option Z) (s : discover_state) : discover_state :=
  let d := set_alts (updateAlt (failed turn (ds_version s)) i host (kd_alts (ds_dev s))) (ds_dev s) in
  DState (updateCur RTT_UNREACHABLE host d) (ds_isize s) (ds_best s) (ds_best_rtt s) (ds_rtt s) (ds_version s) (ds_rng s)
    (ds_released s ++ option_list sock) (ds_opened s) (ds_probed s) (ds_times s).
Definition probeAnswer (turn : Z) (i : nat) (host : sockaddr) (sock time : Z) (s : discover_state) : discover_state :=
  let alts := updateAlt (measured turn (ds_version s) time) i host (kd_alts (ds_dev s)) in
  let rtt :=
    match kd_alts (ds_dev s) !! i with
    | Some a => if is_same_server (ka_host a) host then averageRtt (ka_rtts (measured turn (ds_version s) time a)) else ds_rtt s
    | None => ds_rtt s
    end in
  let d := updateCur rtt host (set_alts alts (ds_dev s)) in
  if rtt <? ds_best_rtt s then
    DState d (ds_isize s) (Some (host, sock)) rtt rtt (ds_version s) (ds_rng s)
      (ds_released s ++ option_list (snd <$> ds_best s)) (ds_opened s) (ds_probed s) (ds_times s ++ [rtt])
  else
    DState d (ds_isize s) (ds_best s) (ds_best_rtt s) rtt (ds_version s) (ds_rng s)
      (ds_released s ++ [sock]) (ds_opened s) (ds_probed s) (ds_times s ++ [rtt]).

Inductive turn_result :=
| TNext (s : discover_state)
| TBreak (s : discover_state)
| TReturn (o : discover_outcome).

(** Panic mode and the connection lock is free: switch to this server. *)
Definition panicSwitch (host : sockaddr) (sock : Z) (s : discover_state) : discover_outcome :=
  let d := set_flags true (kd_running (ds_dev s)) (ds_dev s) in
  let released := ds_released s ++ option_list (snd <$> ds_best s) in
  match dnbd3_set_primary_connection d sock host (ds_version s) with
  | None => DOutcome (set_flags false (kd_running d) d) (released ++ [sock]) (ds_opened s) (ds_probed s) (ds_times s) None []
  | Some (d, old) =>
      DOutcome (set_flags false (kd_running d) d) released (ds_opened s) (ds_probed s) (ds_times s)
        (Some (KSwitch host sock true (ds_best_rtt s) (kd_cur_rtt (ds_dev s)))) old
  end.
(** Skip a server that failed often, three times out of four. *)
Definition skipFailed (panic : bool) (fails : Z) (r : rng) : bool * rng :=
  if negb panic && (50 <? fails) then let '(v, r) := rand r in (negb (u32 v mod 4 =? 0), r) else (false, r).

Section Discover.
Context (probe : nat -> kernel_probe) (interfere : nat -> kernel_dev -> kernel_dev).

(** The server is probed: connect, shake hands, ask for a block. *)
Definition probeSlot (turn : Z) (i : nat) (host : sockaddr) (s : discover_state) : turn_result :=
  let withSock sock version :=
    DState (ds_dev s) (ds_isize s) (ds_best s) (ds_best_rtt s) (ds_rtt s) version (ds_rng s) (ds_released s)
      (ds_opened s ++ [sock]) (ds_probed s) (ds_times s) in
  match probe i with
  | KNoConnect => TNext (probeFail turn i host None s)
  | KNoHandshake sock version => TNext (probeFail turn i host (Some sock) (withSock sock version))
  | KNoBlock sock version =>
      if kd_panic (ds_dev s) && negb (kd_lock (ds_dev s)) then TReturn (panicSwitch host sock (withSock sock version))
      else TNext (probeFail turn i host (Some sock) (withSock sock version))
  | KAnswer sock version time =>
      if kd_panic (ds_dev s) && negb (kd_lock (ds_dev s)) then TReturn (panicSwitch host sock (withSock sock version))
      else TNext (probeAnswer turn i host sock time (withSock sock version))
  end.
Definition discoverTurn (turn : Z) (j i : nat) (s : discover_state) : turn_result :=
  let d := ds_dev s in
  if negb (device_active d) then TBreak s
  else
    match kd_alts d !! i with
    | None => TNext s
    | Some a =>
        let host := ka_host a in
        if ss_family host =? 0 then TNext s
        else
          let '(skip, r) := skipFailed (kd_panic d) (ka_failures a) (ds_rng s) in
          let go isize probed dev :=
            DState dev isize (ds_best s) (ds_best_rtt s) (ds_rtt s) (ds_version s) r (ds_released s) (ds_opened s) probed (ds_times s) in
          if skip then TNext (go (ds_isize s) (ds_probed s) d)
          else if (ds_isize s <=? 0) && negb (is_same_server (kd_cur d) host) then TNext (go (ds_isize s - 1) (ds_probed s) d)
          else probeSlot turn i host (go (ds_isize s - 1) (ds_probed s ++ [i]) (interfere j d))
    end.
Fixpoint discoverLoop (turn : Z) (j : nat) (order : list nat) (s : discover_state) : turn_result :=
  match order with
  | [] => TBreak s
  | i :: order =>
      match discoverTurn turn j i s with
      | TNext s => discoverLoop turn (S j) order s
      | r => r
      end
  end.

(** The decision after the loop. *)
Definition raiseBest (a : kernel_alt) : kernel_alt :=
  KAlt (ka_rtts a) (ka_version a) (ka_failures a) (if ka_best_count a <? 178 then ka_best_count a + 3 else ka_best_count a) (ka_host a).
Definition chooseServer (ready : bool) (s : discover_state) : discover_outcome :=
  let d := ds_dev s in
  let finish d released switch old := DOutcome d released (ds_opened s) (ds_probed s) (ds_times s) switch old in
  match ds_best s with
  | None =>
      let count := if kd_panic d && (kd_panic_count d <? 255) then kd_panic_count d + 1 else kd_panic_count d in
      finish (set_panic (kd_panic d) count (kd_interval d) d) (ds_released s) None []
  | Some (best, sock) =>
      let '(alts, rtt_threshold, version) :=
        match get_existing_alt_from_addr best (kd_alts d) with
        | Some k =>
            let alts := alter raiseBest k (kd_alts d) in
            match alts !! k with Some a => (alts, 1800 - ka_best_count a * 10, ka_version a) | None => (alts, 1800, 0) end
        | None => (kd_alts d, 1800, 0)
        end in
      let d := set_alts alts d in
      let do_change :=
        ready && negb (is_same_server best (kd_cur d))
        && (u64 (ds_best_rtt s + rtt_threshold) <? RTT_THRESHOLD_FACTOR_KERNEL (kd_cur_rtt d)) in
      if do_change && device_active d && negb (kd_lock d) then
        let locked := set_flags true (kd_running d) d in
        match dnbd3_set_primary_connection locked sock best version with
        | None => finish (set_flags false (kd_running d) locked) (ds_released s ++ [sock]) None []
        | Some (d', old) =>
            finish (set_flags false (kd_running d') d') (ds_released s)
              (Some (KSwitch best sock false (ds_best_rtt s) (kd_cur_rtt d))) old
        end
      else finish d (ds_released s ++ [sock]) None []
  end.
(** [garbage] is the value of the uninitialised [remote_version]. *)
Definition dnbd3_internal_discover (garbage : Z) (r : rng) (d : kernel_dev) : discover_outcome :=
  let ready := DISCOVER_STARTUP_PHASE_COUNT <? kd_count d in
  let turn := kd_count d mod DISCOVER_HISTORY_SIZE in
  let '(order, r) := shuffle 8 0 (seq 0 8) r in
  let isize := if negb ready || kd_panic d then NUMBER_SERVERS else 3 in
  match discoverLoop turn 0 order (DState d isize None RTT_UNREACHABLE 0 garbage r [] [] [] []) with
  | TReturn o => o
  | TNext s | TBreak s => chooseServer ready s
  end.
End Discover.

(** ** Scheduling *)

(** Results tell whether the discovery is queued to run at once. *)
Definition dnbd3_start_discover (panic : bool) (d : kernel_dev) : kernel_dev * bool :=
  if negb (device_active d) then (d, false)
  else
    let d :=
      if panic && negb (kd_lock d) then
        if negb (kd_panic d) then set_panic true (kd_panic_count d) TIMER_INTERVAL_PROBE_PANIC d else d
      else d in
    (d, true).
(** The delay until the next run, if there is one; [run] is [dnbd3_internal_discover]. *)
Definition dnbd3_discover (run : kernel_dev -> kernel_dev) (d : kernel_dev) : kernel_dev * option Z :=
  if negb (device_active d) || kd_lock d then (d, None)
  else if kd_running d then (d, None)
  else
    let d := run (set_flags (kd_lock d) true d) in
    let d := set_sched (kd_interval d) (u32 (kd_count d + 1)) d in
    let '(d, delay) :=
      if device_active d then
        (set_sched
           (if (kd_interval d <? TIMER_INTERVAL_PROBE_MAX) && (DISCOVER_STARTUP_PHASE_COUNT <? kd_count d)
            then kd_interval d + 2 else kd_interval d) (kd_count d) d, Some (kd_interval d))
      else (d, None) in
    (set_flags (kd_lock d) false d, delay).

(** * Properties *)

Record kdev_ok (d : kernel_dev) : Prop := KDevOk {
  kv_alts : ktable_ok (kd_alts d);
  kv_rtt : 0 <= kd_cur_rtt d <= MAX_TIME;
  kv_panic : in_u8 (kd_panic_count d);
  kv_interval : TIMER_INTERVAL_PROBE_PANIC <= kd_interval d <= TIMER_INTERVAL_PROBE_MAX + 1;
}.
Definition kprobe_ok (p : kernel_probe) : Prop := match p with KAnswer _ _ time => 0 <= time <= MAX_TIME | _ => True end.
(** The handshake on this socket succeeded. *)
Definition shook (p : kernel_probe) (sock : Z) : Prop :=
  match p with KNoBlock k _ | KAnswer k _ _ => k = sock | _ => False end.

(** ** Shuffling *)

Lemma swapAt_perm i j order : swapAt i j order ≡ₚ order.
Proof.
  unfold swapAt. destruct (order !! i) as [a|] eqn:Ea; [|done]. destruct (order !! j) as [b|] eqn:Eb; [|done].
  by apply Permutation_insert_swap.
Qed.
Lemma shuffle_perm n : forall i order r, (shuffle n i order r).1 ≡ₚ order.
Proof.
  induction n as [|n IH]; intros i order r; cbn [shuffle]; [done|]. destruct (rand r) as [v r']. rewrite IH.
  destruct (_ =? _)%nat; [done|]. apply swapAt_perm.
Qed.

(** ** Entries *)

Lemma times_bounds l : Forall (fun x => 0 <= x <= MAX_TIME) l -> length l = 4%nat -> 0 <= averageRtt l <= MAX_TIME.
Proof.
  intros Hf Hl. unfold averageRtt, DISCOVER_HISTORY_SIZE. destruct l as [|a [|b [|c [|e [|]]]]]; try done. cbn [zsum].
  rewrite !list.Forall_cons in Hf. destruct Hf as (? & ? & ? & ? & _). unfold MAX_TIME in *. rewrite u64_id by crange.
  split; [apply Z.div_pos; lia|apply Z.div_le_upper_bound; lia].
Qed.
Lemma measured_ok turn version time a : 0 <= time <= MAX_TIME -> kalt_ok a -> kalt_ok (measured turn version time a).
Proof.
  intros Ht [H1 H2 H3 H4 H5]. split; cbn; [by rewrite length_insert|by apply list.Forall_insert|crange| |done].
  destruct (Z.ltb_spec 1 (ka_best_count a)); lia.
Qed.
Lemma failed_ok turn version a : kalt_ok a -> kalt_ok (failed turn version a).
Proof.
  intros [H1 H2 H3 H4 H5]. split; cbn; [by rewrite length_insert| |apply u8_range| |done].
  - apply list.Forall_insert; [done|]. unfold RTT_UNREACHABLE, MAX_TIME. lia.
  - destruct (Z.ltb_spec 2 (ka_best_count a)); lia.
Qed.
Lemma raiseBest_ok a : kalt_ok a -> kalt_ok (raiseBest a).
Proof. intros [H1 H2 H3 H4 H5]. split; cbn; try done. destruct (Z.ltb_spec (ka_best_count a) 178); lia. Qed.
Lemma ktable_update alts i a b :
  ktable_ok alts -> alts !! i = Some a -> kalt_ok b -> ka_host b = ka_host a -> ktable_ok (<[i := b]> alts).
Proof. intros Hok Ha Hb Hh. apply ktable_insert; [done|done|]. right; right. rewrite Hh. by apply khosts_lookup. Qed.
Lemma updateAlt_ok f i host alts :
  ktable_ok alts -> (forall a, kalt_ok a -> kalt_ok (f a) /\ ka_host (f a) = ka_host a) -> ktable_ok (updateAlt f i host alts).
Proof.
  intros Hok Hf. unfold updateAlt. destruct (alts !! i) as [a|] eqn:Ea; [|done]. destruct (is_same_server _ _); [|done].
  destruct (Hf a (list.Forall_lookup_1 _ _ _ _ (kt_entries _ Hok) Ea)) as [H1 H2]. by eapply ktable_update.
Qed.
Lemma set_alts_ok alts d : kdev_ok d -> ktable_ok alts -> kdev_ok (set_alts alts d).
Proof. intros [H1 H2 H3 H4] Ha. by split. Qed.
Lemma updateCur_ok rtt host d : kdev_ok d -> 0 <= rtt <= MAX_TIME -> kdev_ok (updateCur rtt host d).
Proof. intros [H1 H2 H3 H4] Hr. unfold updateCur. destruct (is_same_server _ _); by split. Qed.
Lemma set_flags_ok lock running d : kdev_ok d -> kdev_ok (set_flags lock running d).
Proof. intros [H1 H2 H3 H4]. by split. Qed.
#[local] Hint Resolve set_alts_ok updateCur_ok set_flags_ok measured_ok failed_ok : core.
Lemma set_primary_ok d sock addr version d' old :
  kdev_ok d -> dnbd3_set_primary_connection d sock addr version = Some (d', old) ->
  kdev_ok d' /\ kd_sock d' = Some sock /\ kd_cur d' = addr /\ kd_panic d' = false /\ kd_size d' = kd_size d.
Proof.
  intros [H1 H2 H3 H4]. unfold dnbd3_set_primary_connection. destruct (_ || _); [done|]. cbn. intros [= <- <-].
  split; [|done]. split; cbn; [done|unfold MAX_TIME; lia|crange|unfold TIMER_INTERVAL_PROBE_PANIC, TIMER_INTERVAL_PROBE_SWITCH, TIMER_INTERVAL_PROBE_MAX; lia].
Qed.

(** ** The loop *)

Section Loop.
Context (probe : nat -> kernel_probe) (interfere : nat -> kernel_dev -> kernel_dev).
Context (Hinter : forall j d, kdev_ok d -> kdev_ok (interfere j d)) (Hprobe : forall i, kprobe_ok (probe i)).

(** The loop after the slots [done]. *)
Record discover_inv (done : list nat) (s : discover_state) : Prop := DInv {
  di_dev : kdev_ok (ds_dev s);
  di_sockets : ds_opened s ≡ₚ ds_released s ++ option_list (snd <$> ds_best s);
  di_rtt : 0 <= ds_rtt s <= MAX_TIME;
  di_best_rtt : 0 <= ds_best_rtt s <= RTT_UNREACHABLE;
  di_best : forall h sock, ds_best s = Some (h, sock) -> exists i, i ∈ ds_probed s /\ shook (probe i) sock;
  di_times : Forall (fun t => ds_best_rtt s <= t) (ds_times s);
  di_probed : ds_probed s ⊆ done;
  di_once : base.NoDup (ds_probed s);
}.
(** What is promised of a switch. *)
Definition switch_ok (o : discover_outcome) (sw : kernel_switch) : Prop :=
  kd_sock (do_dev o) = Some (sw_sock sw) /\ kd_cur (do_dev o) = sw_addr sw /\ kd_panic (do_dev o) = false
  /\ (exists i, i ∈ do_probed o /\ shook (probe i) (sw_sock sw))
  /\ (sw_panic sw = false -> sw_best_rtt sw < sw_cur_rtt sw /\ Forall (fun t => sw_best_rtt sw <= t) (do_times o)).
Record outcome_ok (order : list nat) (o : discover_outcome) : Prop := OutOk {
  oo_dev : kdev_ok (do_dev o);
  oo_sockets : do_opened o ≡ₚ do_released o ++ option_list (sw_sock <$> do_switch o);
  oo_probed : do_probed o ⊆ order;
  oo_once : base.NoDup (do_probed o);
  oo_switch : forall sw, do_switch o = Some sw -> switch_ok o sw;
}.
Definition turn_ok (done : list nat) (r : turn_result) : Prop :=
  match r with
  | TNext s | TBreak s => discover_inv done s
  | TReturn o => outcome_ok done o /\ forall sw, do_switch o = Some sw -> sw_panic sw = true
  end.

(** What is known while entry [i] is probed: it is counted as probed, and its socket, if
    any, is open and nobody's. *)
Record probing_inv (done : list nat) (i : nat) (sock : option Z) (s : discover_state) : Prop := PInv {
  pv_dev : kdev_ok (ds_dev s);
  pv_sockets : ds_opened s ≡ₚ ds_released s ++ option_list (snd <$> ds_best s) ++ option_list sock;
  pv_rtt : 0 <= ds_rtt s <= MAX_TIME;
  pv_best_rtt : 0 <= ds_best_rtt s <= RTT_UNREACHABLE;
  pv_best : forall h k, ds_best s = Some (h, k) -> exists i, i ∈ ds_probed s /\ shook (probe i) k;
  pv_times : Forall (fun t => ds_best_rtt s <= t) (ds_times s);
  pv_probed : ds_probed s ⊆ done;
  pv_once : base.NoDup (ds_probed s);
  pv_here : i ∈ ds_probed s;
}.
#[local] Ltac dsimpl := cbn [ds_dev ds_isize ds_best ds_best_rtt ds_rtt ds_version ds_rng ds_released ds_opened ds_probed ds_times].

Lemma probeFail_inv done turn i host sock s : probing_inv done i sock s -> discover_inv done (probeFail turn i host sock s).
Proof.
  intros [H1 H2 H3 H4 H5 H6 H7 H8 H9]. unfold probeFail. split; dsimpl; try done.
  - apply updateCur_ok; [|unfold RTT_UNREACHABLE, MAX_TIME; lia]. apply set_alts_ok; [done|]. apply updateAlt_ok; [apply H1|]. auto.
  - rewrite H2. solve_Permutation.
Qed.
Lemma probeAnswer_inv done turn i host sock time s :
  probing_inv done i (Some sock) s -> shook (probe i) sock -> 0 <= time <= MAX_TIME -> discover_inv done (probeAnswer turn i host sock time s).
Proof.
  intros [H1 H2 H3 H4 H5 H6 H7 H8 H9] Hs Ht. unfold probeAnswer. set (rtt := match kd_alts (ds_dev s) !! i with Some _ => _ | None => _ end).
  assert (0 <= rtt <= MAX_TIME) as Hr.
  { unfold rtt. destruct (kd_alts (ds_dev s) !! i) as [a|] eqn:Ea; [|done]. destruct (is_same_server _ _); [|done].
    pose proof (measured_ok turn (ds_version s) time a Ht (list.Forall_lookup_1 _ _ _ _ (kt_entries _ (kv_alts _ H1)) Ea)) as [M1 M2 _ _ _].
    by apply times_bounds. }
  assert (kdev_ok (updateCur rtt host (set_alts (updateAlt (measured turn (ds_version s) time) i host (kd_alts (ds_dev s))) (ds_dev s)))) as Hd.
  { apply updateCur_ok; [|done]. apply set_alts_ok; [done|]. apply updateAlt_ok; [apply H1|]. auto. }
  destruct (Z.ltb_spec rtt (ds_best_rtt s)) as [Hlt|Hge]; split; dsimpl; try done.
  - rewrite H2. cbn. solve_Permutation.
  - lia.
  - intros h k [= <- <-]. by exists i.
  - apply list.Forall_app. split; [|by apply Forall_singleton]. eapply list.Forall_impl; [exact H6|]. intros x Hx. cbv beta in Hx |- *. lia.
  - rewrite H2. cbn. solve_Permutation.
  - apply list.Forall_app. split; [done|by apply Forall_singleton].
Qed.
Lemma panicSwitch_ok done i host sock s :
  probing_inv done i (Some sock) s -> shook (probe i) sock ->
  outcome_ok done (panicSwitch host sock s) /\ forall sw, do_switch (panicSwitch host sock s) = Some sw -> sw_panic sw = true.
Proof.
  intros [H1 H2 H3 H4 H5 H6 H7 H8 H9] Hs. unfold panicSwitch. destruct (dnbd3_set_primary_connection _ _ _ _) as [[d old]|] eqn:E.
  - apply set_primary_ok in E as (Hd & Hk & Hc & Hp & _); [|auto]. split; [|by intros sw [= <-]].
    split; cbn [do_dev do_opened do_released do_switch do_probed]; try done; [auto|rewrite H2; cbn; solve_Permutation|].
    intros sw [= <-]. repeat split; try done. by exists i.
  - split; [|done]. split; cbn [do_dev do_opened do_released do_switch do_probed]; try done; [auto|]. rewrite H2. cbn. solve_Permutation.
Qed.
Lemma probing_withSock done i s sock version :
  probing_inv done i None s ->
  probing_inv done i (Some sock)
    (DState (ds_dev s) (ds_isize s) (ds_best s) (ds_best_rtt s) (ds_rtt s) version (ds_rng s) (ds_released s)
      (ds_opened s ++ [sock]) (ds_probed s) (ds_times s)).
Proof. intros [H1 H2 H3 H4 H5 H6 H7 H8 H9]. split; dsimpl; try done. rewrite H2. cbn. by rewrite app_nil_r, app_assoc. Qed.
Lemma probeSlot_ok done turn i host s : probing_inv done i None s -> turn_ok done (probeSlot probe turn i host s).
Proof.
  intros Hs. unfold probeSlot. pose proof (Hprobe i) as Hp. destruct (probe i) as [|sock v|sock v|sock v time] eqn:E.
  - by apply probeFail_inv.
  - by apply probeFail_inv, probing_withSock.
  - destruct (_ && _); [|by apply probeFail_inv, probing_withSock]. apply (panicSwitch_ok done i); [by apply probing_withSock|by rewrite E].
  - destruct (_ && _); [apply (panicSwitch_ok done i); [by apply probing_withSock|by rewrite E]|].
    apply probeAnswer_inv; [by apply probing_withSock|by rewrite E|done].
Qed.
Lemma discoverTurn_ok done turn j i s :
  discover_inv done s -> i ∉ done -> turn_ok (done ++ [i]) (discoverTurn probe interfere turn j i s).
Proof.
  intros Hs Hi. assert (forall r isize,
    discover_inv (done ++ [i]) (DState (ds_dev s) isize (ds_best s) (ds_best_rtt s) (ds_rtt s) (ds_version s) r (ds_released s) (ds_opened s) (ds_probed s) (ds_times s))) as Hk.
  { destruct Hs as [H1 H2 H3 H4 H5 H6 H7 H8]. intros r isize. split; dsimpl; try done. set_solver. }
  unfold discoverTurn. destruct (negb _); [destruct s; apply Hk|]. destruct (kd_alts (ds_dev s) !! i) as [a|]; [|destruct s; apply Hk].
  destruct (_ =? 0); [destruct s; apply Hk|]. destruct (skipFailed _ _ _) as [[] r]; [apply Hk|]. destruct (_ && _); [apply Hk|].
  apply probeSlot_ok. destruct Hs as [H1 H2 H3 H4 H5 H6 H7 H8]. split; dsimpl; try done.
  - by apply Hinter.
  - by rewrite app_nil_r.
  - intros h k Hb. destruct (H5 h k Hb) as (x & Hx & Hsh). exists x. split; [|done]. apply elem_of_app. by left.
  - set_solver.
  - apply list.NoDup_app. split; [done|]. split; [|apply NoDup_singleton]. intros x Hx [->|[]%not_elem_of_nil]%elem_of_cons. by apply Hi, H7.
  - apply elem_of_app. right. by apply list_elem_of_singleton.
Qed.
Lemma outcome_mono done done' o : done ⊆ done' -> outcome_ok done o -> outcome_ok done' o.
Proof. intros Hd [H1 H2 H3 H4 H5]. split; try done. set_solver. Qed.
Lemma discover_inv_mono done done' s : done ⊆ done' -> discover_inv done s -> discover_inv done' s.
Proof. intros Hd [H1 H2 H3 H4 H5 H6 H7 H8]. split; try done. set_solver. Qed.
Lemma discoverLoop_ok turn order : forall done j s,
  discover_inv done s -> base.NoDup (done ++ order) -> turn_ok (done ++ order) (discoverLoop probe interfere turn j order s).
Proof.
  induction order as [|i order IH]; intros done j s Hs Hn; cbn [discoverLoop]; [by rewrite app_nil_r|].
  assert (i ∉ done) as Hi.
  { apply list.NoDup_app in Hn as (_ & Hd & _). intros Hin. apply (Hd i Hin). by apply list_elem_of_here. }
  pose proof (discoverTurn_ok done turn j i s Hs Hi) as H. replace (done ++ i :: order) with ((done ++ [i]) ++ order) in * by (by rewrite <- app_assoc).
  assert (done ++ [i] ⊆ (done ++ [i]) ++ order) as Hsub by set_solver.
  destruct (discoverTurn probe interfere turn j i s) as [s'|s'|o]; [by apply IH|by eapply discover_inv_mono|].
  destruct H as [H1 H2]. split; [by eapply outcome_mono|done].
Qed.
End Loop.

(** ** The decision *)

(** The entry of the best server is raised and the threshold is between 0 and 1800. *)
Lemma threshold_ok d best :
  kdev_ok d ->
  let '(alts, rtt_threshold, version) :=
    match get_existing_alt_from_addr best (kd_alts d) with
    | Some k =>
        let alts := alter raiseBest k (kd_alts d) in
        match alts !! k with Some a => (alts, 1800 - ka_best_count a * 10, ka_version a) | None => (alts, 1800, 0) end
    | None => (kd_alts d, 1800, 0)
    end in
  ktable_ok alts /\ 0 <= rtt_threshold <= 1800.
Proof.
  intros Hd. unfold get_existing_alt_from_addr. destruct (firstSlot _ (kd_alts d)) as [k|] eqn:Ek; [|split; [apply Hd|lia]].
  apply firstSlot_Some in Ek as (a & Ha & _). pose proof (list.Forall_lookup_1 _ _ _ _ (kt_entries _ (kv_alts _ Hd)) Ha) as Hok.
  apply raiseBest_ok in Hok as Hr. cbv zeta. rewrite (alter_insert _ _ _ _ Ha), list_lookup_insert_eq by (by eapply lookup_lt_Some).
  split; [eapply ktable_update; [apply Hd|done|done|done]|]. pose proof (ko_best _ Hr). lia.
Qed.
Lemma faster best_rtt threshold cur :
  0 <= best_rtt <= RTT_UNREACHABLE -> 0 <= threshold <= 1800 -> 0 <= cur <= MAX_TIME ->
  u64 (best_rtt + threshold) < RTT_THRESHOLD_FACTOR_KERNEL cur -> best_rtt < cur.
Proof.
  unfold RTT_THRESHOLD_FACTOR_KERNEL, MAX_TIME, RTT_UNREACHABLE. intros Hb Ht Hc. rewrite !u64_id by crange. intros H.
  pose proof (Z.div_le_upper_bound (cur * 3) 4 cur ltac:(lia) ltac:(lia)). lia.
Qed.
Lemma chooseServer_ok probe done ready s :
  discover_inv probe done s ->
  outcome_ok probe done (chooseServer ready s) /\ (do_switch (chooseServer ready s) <> None -> ready = true).
Proof.
  intros [H1 H2 H3 H4 H5 H6 H7 H8]. unfold chooseServer. destruct (ds_best s) as [[best sock]|] eqn:Eb.
  2:{ split; [|done]. split; cbn [do_dev do_opened do_released do_switch do_probed]; try done.
      destruct H1 as [D1 D2 D3 D4]. split; cbn; try done. destruct (kd_panic (ds_dev s)); [|done]. cbn [andb].
      destruct (Z.ltb_spec (kd_panic_count (ds_dev s)) 255); [crange|done]. }
  pose proof (threshold_ok (ds_dev s) best H1) as Ht. destruct (match get_existing_alt_from_addr best _ with Some _ => _ | None => _ end) as [[alts threshold] version].
  destruct Ht as [Ha Ht]. cbn [option_list fmap option_fmap option_map snd] in H2.
  assert (kdev_ok (set_alts alts (ds_dev s))) as Hd by auto.
  assert (forall d, kdev_ok d -> outcome_ok probe done (DOutcome d (ds_released s ++ [sock]) (ds_opened s) (ds_probed s) (ds_times s) None [])) as Hno.
  { intros d Hdd. split; cbn [do_dev do_opened do_released do_switch do_probed]; try done. by rewrite app_nil_r. }
  destruct (_ && negb (kd_lock _)) eqn:E; [|split; [by apply Hno|done]]. b2p.
  destruct (dnbd3_set_primary_connection _ _ _ _) as [[d' old]|] eqn:Ep; [|split; [apply Hno; auto|done]].
  apply set_primary_ok in Ep as (Hk1 & Hk2 & Hk3 & Hk4 & _); [|auto]. split; [|done].
  split; cbn [do_dev do_opened do_released do_switch do_probed]; try done; [auto|].
  intros sw [= <-]. split_and!; try done; [by eapply H5|]. intros _. split; [|done]. cbn. by apply (faster _ threshold); [|done|apply H1|].
Qed.

Definition demo_kdev : kernel_dev :=
  KDev true 4096 (Some 1) (SockAddr AF_INET 5003 [10; 0; 0; 1]) 200000 3
    (<[1%nat := KAlt [500; 500; 500; 500] 3 0 0 (SockAddr AF_INET 5003 [10; 0; 0; 2])]>
       (<[0%nat := KAlt [200000; 200000; 200000; 200000] 3 0 0 (SockAddr AF_INET 5003 [10; 0; 0; 1])]> demo_kalts))
    false 0 false true 2 7.
Lemma demo_kdev_ok : kdev_ok demo_kdev.
Proof.
  split; [|cbn; unfold MAX_TIME; lia|cbn; crange|cbn; unfold TIMER_INTERVAL_PROBE_PANIC, TIMER_INTERVAL_PROBE_MAX; lia].
  split; [done| |by apply (bool_decide_eq_true_1 _)].
  apply list.Forall_insert; [apply list.Forall_insert; [apply demo_kalts_ok|]|];
    (split; cbn; unfold MAX_TIME, kused, AF_INET; [done| |crange|lia|auto]); repeat (constructor; [lia|]); constructor.
Qed.

(** A failed connection writes to the entry of the server whatever [remote_version]
    holds: the version of the server probed before, or what was on the stack. *)
Theorem failed_connect_records_wrong_version :
  exists probe d,
    kdev_ok d
    /\ probe 0%nat = KNoConnect /\ ka_version <$> kd_alts d !! 0%nat = Some 3
    /\ ka_version <$> kd_alts (do_dev (dnbd3_internal_discover probe (fun _ d => d) 77 (Rng (fun n => Z.of_nat n) 0) d)) !! 0%nat = Some 77.
Proof.
  exists (fun _ => KNoConnect), demo_kdev. split; [apply demo_kdev_ok|]. split; [done|]. split; vm_compute; reflexivity.
Qed.

(** A server that is removed from the table while it is probed is compared with the
    measurement of the server before it, or with 0 if it is the first: then it counts as
    the fastest of all. *)
Theorem removed_server_is_fastest :
  exists probe interfere d,
    kdev_ok d /\ (forall j d, kdev_ok d -> kdev_ok (interfere j d))
    /\ probe 1%nat = KAnswer 8 3 150000
    /\ sw_best_rtt <$> do_switch (dnbd3_internal_discover probe interfere 0 (Rng (fun n => if (n =? 0)%nat then 1 else Z.of_nat n) 0) d) = Some 0.
Proof.
  exists (fun i => match i with 0%nat => KAnswer 7 3 200000 | _ => KAnswer 8 3 150000 end).
  exists (fun _ d => set_alts (dnbd3_rem_server (kd_alts d) (Host (padAddr [10; 0; 0; 2]) 5003 HOST_IP4)).2 d), demo_kdev.
  split; [apply demo_kdev_ok|]. split; [|split; [reflexivity|vm_compute; reflexivity]].
  intros _ d Hd. apply set_alts_ok; [done|].
  pose proof (rem_server_spec (kd_alts d) (Host (padAddr [10; 0; 0; 2]) 5003 HOST_IP4) _ (kv_alts _ Hd) eq_refl) as H.
  destruct (dnbd3_rem_server _ _) as [r alts]. apply H.
Qed.

(** The discovery worker: a run keeps the device in order, releases the flag that keeps
    a second run out, and is followed by another one in 2 to 46 seconds while the device is
    in use.  It does nothing at all, and is not scheduled again either, if it comes while
    the connection lock is held or another run is under way. *)
Theorem dnbd3_discover_schedule run d :
  kdev_ok d -> (forall d, kdev_ok d -> kdev_ok (run d)) ->
  let '(d', delay) := dnbd3_discover run d in
  kdev_ok d'
  /\ (if negb (device_active d) || kd_lock d || kd_running d then d' = d /\ delay = None
      else kd_running d' = false /\ (delay = None <-> device_active d' = false)
           /\ forall n, delay = Some n -> TIMER_INTERVAL_PROBE_PANIC <= n <= TIMER_INTERVAL_PROBE_MAX + 1).
Proof.
  intros Hd Hr. unfold dnbd3_discover. destruct (negb (device_active d) || kd_lock d); [done|]. destruct (kd_running d) eqn:Er; [done|].
  cbn [orb]. specialize (Hr (set_flags (kd_lock d) true d) (set_flags_ok _ _ _ Hd)). set (e := run _) in *.
  assert (kdev_ok (set_sched (kd_interval e) (u32 (kd_count e + 1)) e)) as He by (destruct Hr; by split).
  set (e' := set_sched _ _ e) in *. destruct (device_active e') eqn:Ea.
  - split; [|split; [done|split]].
    + destruct He as [H1 H2 H3 H4]. split; cbn; try done. destruct ((_ <? _) && _) eqn:E; [|done]. b2p.
      cbn in H4, H. unfold TIMER_INTERVAL_PROBE_MAX in *. lia.
    + split; [done|]. unfold device_active in *. cbn in Ea |- *. by rewrite Ea.
    + intros n [= <-]. apply He.
  - split; [by apply set_flags_ok|]. split; [done|]. split; [|done]. split; [|done]. intros _. exact Ea.
Qed.
Lemma dnbd3_discover_schedule_witness :
  exists d', dnbd3_discover (fun d => d) (set_flags false false demo_kdev) = (d', Some 2) /\ kdev_ok d' /\ kd_interval d' = 4.
Proof.
  pose proof (dnbd3_discover_schedule (fun d => d) (set_flags false false demo_kdev) (set_flags_ok _ _ _ demo_kdev_ok) (fun _ H => H)) as H.
  destruct (dnbd3_discover (fun d => d) (set_flags false false demo_kdev)) as [d' delay] eqn:E. exists d'. vm_compute in E. injection E as <- <-.
  split; [reflexivity|]. split; [exact (proj1 H)|reflexivity].
Defined.
