(* ===== verification/KernelQueue.v ===== *)
(** * KernelQueue: the read requests of a kernel block device
      ([src/kernel/blk.c], [src/kernel/net.c])

    The block layer hands requests to the driver; they wait in the send queue, are sent to
    the server by the send worker, wait in the receive queue and are completed by the
    receive worker.  Timeouts, server switches and closing the device move them around.
    Every piece of code between taking and releasing a lock is one step; the steps of the
    threads come in any order the locks allow.

    A request struct is named by its tag: the block layer keeps the structs in a table and
    uses a struct again once its request has ended.  The kernel's lists hold pointers to
    the structs, so the model's lists hold tags. *)

From stdpp Require Export gmap.
From stdpp Require Import sets.
From S2P Require Import Prelude Timing Types Helper.

Open Scope Z_scope.

Record krequest := KRequest {
  kr_id : nat;        (* number of the request, counted from the start *)
  kr_handle : Z;      (* [cmd->handle] *)
  kr_pos : Z;         (* [blk_rq_pos], in sectors *)
  kr_bytes : Z;       (* [blk_rq_bytes] *)
}.
Record kernel_queues := KQueues {
  kq_active : bool;               (* the image is set and the size is not 0 *)
  kq_structs : gmap Z krequest;   (* the request structs *)
  kq_adding : list Z;             (* on the way into [dnbd3_add_queue] *)
  kq_send : list Z;
  kq_moving : list Z;             (* the send worker has taken it out of [send_queue] *)
  kq_sending : list Z;            (* ... put it into [recv_queue] and is about to send it *)
  kq_recv : list Z;
  kq_hand : list (Z * (Z * Z));   (* its reply has come, the payload is being received: range of the data *)
  kq_local : list Z;              (* [local_copy] of [dnbd3_blk_requeue_all_requests] *)
  kq_failing : list Z;            (* [local_copy] of [dnbd3_blk_fail_all_requests] *)
  kq_receiving : bool;            (* the receive worker runs *)
  kq_wire : list (Z * (Z * Z));   (* sent on this connection, no answer yet: handle, range *)
  kq_done : list (nat * option (Z * Z));   (* [blk_mq_end_request]: data of this range, or an error *)
  kq_issued : list krequest;      (* everything accepted so far *)
}.

(** ** Field updates *)

Definition set_lists (adding send moving recv : list Z) (q : kernel_queues) : kernel_queues :=
  KQueues (kq_active q) (kq_structs q) adding send moving (kq_sending q) recv (kq_hand q) (kq_local q) (kq_failing q)
    (kq_receiving q) (kq_wire q) (kq_done q) (kq_issued q).
Definition set_copies (local failing : list Z) (q : kernel_queues) : kernel_queues :=
  KQueues (kq_active q) (kq_structs q) (kq_adding q) (kq_send q) (kq_moving q) (kq_sending q) (kq_recv q) (kq_hand q) local failing
    (kq_receiving q) (kq_wire q) (kq_done q) (kq_issued q).
Definition set_sending (sending : list Z) (wire : list (Z * (Z * Z))) (q : kernel_queues) : kernel_queues :=
  KQueues (kq_active q) (kq_structs q) (kq_adding q) (kq_send q) (kq_moving q) sending (kq_recv q) (kq_hand q) (kq_local q) (kq_failing q)
    (kq_receiving q) wire (kq_done q) (kq_issued q).
Definition set_conn (active receiving : bool) (wire : list (Z * (Z * Z))) (hand : list (Z * (Z * Z))) (q : kernel_queues) : kernel_queues :=
  KQueues active (kq_structs q) (kq_adding q) (kq_send q) (kq_moving q) (kq_sending q) (kq_recv q) hand (kq_local q) (kq_failing q)
    receiving wire (kq_done q) (kq_issued q).
(** [blk_mq_end_request]: the block layer gets its struct back. *)
Definition blk_mq_end_request (tag : Z) (data : option (Z * Z)) (q : kernel_queues) : result kernel_queues :=
  match kq_structs q !! tag with
  | None => Fault UseAfterFree
  | Some r =>
      Ok (KQueues (kq_active q) (kq_structs q) (kq_adding q) (kq_send q) (kq_moving q) (kq_sending q) (kq_recv q) (kq_hand q)
            (kq_local q) (kq_failing q) (kq_receiving q) (kq_wire q) (kq_done q ++ [(kr_id r, data)]) (kq_issued q))
  end.
(** The tags the driver holds. *)
Definition held (q : kernel_queues) : list Z :=
  kq_adding q ++ kq_send q ++ kq_moving q ++ kq_recv q ++ map fst (kq_hand q) ++ kq_local q ++ kq_failing q.

(** ** The operations *)

Definition handleOf (tag jiffies : Z) : Z := Z.lor tag (u64 (jiffies << 32)).
(** [dnbd3_queue_rq] up to the call of [dnbd3_add_queue]; an inactive device answers with
    an error at once. *)
Definition dnbd3_queue_rq (tag jiffies pos bytes : Z) (q : kernel_queues) : kernel_queues :=
  if negb (kq_active q) then q
  else
    let r := KRequest (length (kq_issued q)) (handleOf tag jiffies) pos bytes in
    KQueues (kq_active q) (<[tag := r]> (kq_structs q)) (kq_adding q ++ [tag]) (kq_send q) (kq_moving q) (kq_sending q) (kq_recv q)
      (kq_hand q) (kq_local q) (kq_failing q) (kq_receiving q) (kq_wire q) (kq_done q) (kq_issued q ++ [r]).
Definition remove_tag (tag : Z) (l : list Z) : list Z := filter (fun x => x <> tag) l.
Definition dnbd3_add_queue (tag : Z) (q : kernel_queues) : kernel_queues :=
  set_lists (remove_tag tag (kq_adding q)) (kq_send q ++ [tag]) (kq_moving q) (kq_recv q) q.
(** [dnbd3_rq_timeout]: a request that waits for its answer is to be sent again. *)
Definition dnbd3_rq_timeout (tag : Z) (q : kernel_queues) : kernel_queues :=
  if bool_decide (tag ∈ kq_send q) then q
  else if bool_decide (tag ∈ kq_recv q) then
    set_lists (kq_adding q ++ [tag]) (kq_send q) (kq_moving q) (remove_tag tag (kq_recv q)) q
  else q.
(** The send worker: take a request, put it into the receive queue, send it. *)
Definition sendTake (q : kernel_queues) : kernel_queues :=
  match kq_send q with
  | [] => q
  | tag :: rest => set_lists (kq_adding q) rest (kq_moving q ++ [tag]) (kq_recv q) q
  end.
Definition sendMove (q : kernel_queues) : kernel_queues :=
  match kq_moving q with
  | [] => q
  | tag :: rest => set_sending (kq_sending q ++ [tag]) (kq_wire q) (set_lists (kq_adding q) (kq_send q) rest (kq_recv q ++ [tag]) q)
  end.
(** The header is built from the struct as it is now. *)
Definition sendHeader (ok : bool) (q : kernel_queues) : result kernel_queues :=
  match kq_sending q with
  | [] => Ok q
  | tag :: rest =>
      match kq_structs q !! tag with
      | None => Fault UseAfterFree
      | Some r =>
          Ok (set_sending rest (if ok then kq_wire q ++ [(kr_handle r, (u64 (kr_pos r << 9), kr_bytes r))] else kq_wire q) q)
      end
  end.
(** The receive worker has read the header of a reply to a block request. *)
Definition findHandle (structs : gmap Z krequest) (handle : Z) (l : list Z) : option Z :=
  snd <$> list_find (fun tag => kr_handle <$> structs !! tag = Some handle) l.
Definition matchHandle (handle : Z) (data : Z * Z) (q : kernel_queues) : kernel_queues :=
  match findHandle (kq_structs q) handle (kq_recv q) with
  | None => set_conn (kq_active q) false (kq_wire q) (kq_hand q) q   (* gives the connection up *)
  | Some tag =>
      set_conn (kq_active q) (kq_receiving q) (kq_wire q) (kq_hand q ++ [(tag, data)])
        (set_lists (kq_adding q) (kq_send q) (kq_moving q) (remove_tag tag (kq_recv q)) q)
  end.
(** The payload arrives and the request ends, or the connection breaks and the request is
    queued again, in front of the others. *)
Definition recvData (ok : bool) (q : kernel_queues) : result kernel_queues :=
  match kq_hand q with
  | [] => Ok q
  | (tag, data) :: rest =>
      if ok then blk_mq_end_request tag (Some data) (set_conn (kq_active q) (kq_receiving q) (kq_wire q) rest q)
      else Ok (set_conn (kq_active q) false (kq_wire q) rest (set_lists (kq_adding q) (tag :: kq_send q) (kq_moving q) (kq_recv q) q))
  end.
(** [dnbd3_blk_requeue_all_requests]: both of its loops. *)
Definition requeueTake (q : kernel_queues) : kernel_queues :=
  set_copies (rev (kq_recv q) ++ kq_local q) (kq_failing q) (set_lists (kq_adding q) (kq_send q) (kq_moving q) [] q).
Definition requeueOne (q : kernel_queues) : kernel_queues :=
  match kq_local q with
  | [] => q
  | tag :: rest => set_copies rest (kq_failing q) (set_lists (kq_adding q) (kq_send q ++ [tag]) (kq_moving q) (kq_recv q) q)
  end.
(** [dnbd3_blk_fail_all_requests]: its three loops. *)
Definition failRecv (q : kernel_queues) : kernel_queues :=
  set_copies (kq_local q) (rev (kq_recv q) ++ kq_failing q) (set_lists (kq_adding q) (kq_send q) (kq_moving q) [] q).
Definition failSend (q : kernel_queues) : kernel_queues :=
  set_copies (kq_local q) (rev (kq_send q) ++ kq_failing q) (set_lists (kq_adding q) [] (kq_moving q) (kq_recv q) q).
Definition failOne (q : kernel_queues) : result kernel_queues :=
  match kq_failing q with
  | [] => Ok q
  | tag :: rest => blk_mq_end_request tag None (set_copies (kq_local q) rest q)
  end.

(** ** Steps *)

Inductive kernel_event :=
| KEQueue (tag jiffies pos bytes : Z)
| KEAdd (tag : Z)
| KETimeout (tag : Z)
| KETake | KEMove | KESend (ok : bool)
| KEReply (k : nat)                 (* the server answers the [k]-th request on the wire, with what it asked for *)
| KEStray (handle : Z) (data : Z * Z)   (* the server sends any other reply; neither the size nor the data is checked *)
| KEData (ok : bool)
| KELost                            (* the receive worker ends *)
| KESwitch                          (* [replace_main_socket] with a new connection *)
| KERequeue | KERequeueOne
| KEClose                           (* [dnbd3_net_disconnect]: the size becomes 0 *)
| KEDrop                            (* ... [replace_main_socket] without a connection *)
| KEFailRecv | KEFailSend | KEFailOne.
(** [send_mutex] and [recv_mutex]: the main socket is replaced between two requests of the
    workers; there is one send and one receive worker.  The block layer gives a request a
    struct the driver does not hold.  With [fresh] no handle is used twice and the server only answers
    requests, with the range they asked for. *)
Definition kenabled (fresh : bool) (q : kernel_queues) (e : kernel_event) : bool :=
  match e with
  | KEQueue tag jiffies _ _ =>
      (0 <=? tag) && (tag <? 2 ^ 32) && bool_decide (tag ∉ held q)
      && negb (fresh && bool_decide (handleOf tag jiffies ∈ map kr_handle (kq_issued q)))
  | KEAdd tag => bool_decide (tag ∈ kq_adding q)
  | KETake => bool_decide (kq_moving q = []) && bool_decide (kq_sending q = [])
  | KEMove => bool_decide (kq_sending q = [])
  | KEReply k => kq_receiving q && bool_decide (kq_hand q = []) && bool_decide (is_Some (kq_wire q !! k))
  | KEStray _ _ => negb fresh && kq_receiving q && bool_decide (kq_hand q = [])
  | KESwitch | KEDrop => bool_decide (kq_moving q = []) && bool_decide (kq_sending q = []) && bool_decide (kq_hand q = [])
  | _ => true
  end.
Definition kstep (q : kernel_queues) (e : kernel_event) : result kernel_queues :=
  match e with
  | KEQueue tag jiffies pos bytes => Ok (dnbd3_queue_rq tag jiffies pos bytes q)
  | KEAdd tag => Ok (dnbd3_add_queue tag q)
  | KETimeout tag => Ok (dnbd3_rq_timeout tag q)
  | KETake => Ok (sendTake q)
  | KEMove => Ok (sendMove q)
  | KESend ok => sendHeader ok q
  | KEReply k =>
      match kq_wire q !! k with
      | None => Ok q
      | Some (handle, data) => Ok (matchHandle handle data (set_conn (kq_active q) (kq_receiving q) (delete k (kq_wire q)) (kq_hand q) q))
      end
  | KEStray handle data => Ok (matchHandle handle data q)
  | KEData ok => recvData ok q
  | KELost => Ok (set_conn (kq_active q) false (kq_wire q) (kq_hand q) q)
  | KESwitch => Ok (set_conn (kq_active q) true [] (kq_hand q) q)
  | KERequeue => Ok (requeueTake q)
  | KERequeueOne => Ok (requeueOne q)
  | KEClose => Ok (set_conn false (kq_receiving q) (kq_wire q) (kq_hand q) q)
  | KEDrop => Ok (set_conn (kq_active q) false [] (kq_hand q) q)
  | KEFailRecv => Ok (failRecv q)
  | KEFailSend => Ok (failSend q)
  | KEFailOne => failOne q
  end.
Fixpoint krun (fresh : bool) (q : kernel_queues) (es : list kernel_event) : result kernel_queues :=
  match es with
  | [] => Ok q
  | e :: es => if kenabled fresh q e then q ← kstep q e; krun fresh q es else krun fresh q es
  end.
Definition kqueues0 : kernel_queues := KQueues true ∅ [] [] [] [] [] [] [] [] true [] [] [].

(** * No request is lost, answered twice or answered with other data *)

Definition range (r : krequest) : Z * Z := (u64 (kr_pos r << 9), kr_bytes r).
(** The numbers of the requests in a list of tags. *)
Definition ids (structs : gmap Z krequest) (l : list Z) : list nat := omap (fun tag => kr_id <$> structs !! tag) l.
#[global] Instance ids_proper structs : Proper ((≡ₚ) ==> (≡ₚ)) (ids structs).
Proof. intros l1 l2 H. unfold ids. by rewrite H. Qed.

Record kinv (fresh : bool) (q : kernel_queues) : Prop := KInv {
  ki_nodup : base.NoDup (held q);
  ki_held : forall tag, tag ∈ held q \/ tag ∈ kq_sending q -> is_Some (kq_structs q !! tag);
  ki_struct : forall tag r, kq_structs q !! tag = Some r -> r ∈ kq_issued q /\ 0 <= tag < 2 ^ 32 /\ exists jiffies, kr_handle r = handleOf tag jiffies;
  ki_ids : map kr_id (kq_issued q) = seq 0 (length (kq_issued q));
  ki_count : map kr_id (kq_issued q) ≡ₚ map fst (kq_done q) ++ ids (kq_structs q) (held q);
  ki_wire : forall h d, (h, d) ∈ kq_wire q -> exists r, r ∈ kq_issued q /\ kr_handle r = h /\ range r = d;
  ki_hand : fresh = true -> forall tag d, (tag, d) ∈ kq_hand q -> exists r, kq_structs q !! tag = Some r /\ range r = d;
  ki_done : fresh = true -> forall id d, (id, Some d) ∈ kq_done q -> exists r, r ∈ kq_issued q /\ kr_id r = id /\ range r = d;
  ki_fresh : fresh = true -> base.NoDup (map kr_handle (kq_issued q));
}.

Lemma handleOf_tag tag jiffies : 0 <= tag < 2 ^ 32 -> handleOf tag jiffies mod 2 ^ 32 = tag.
Proof.
  intros Ht. unfold handleOf, u64. rewrite <- Z.land_ones, Z.land_lor_distr_l by lia. rewrite (Z.land_ones tag), (Z.mod_small tag) by lia.
  replace (Z.land ((jiffies << 32) mod 2 ^ 64) (Z.ones 32)) with 0; [apply Z.lor_0_r|]. symmetry. apply Z.bits_inj'. intros n Hn.
  rewrite Z.land_spec, Z.testbit_0_l, Z.testbit_ones_nonneg by lia. destruct (Z.ltb_spec n 32); [|apply andb_false_r].
  rewrite Z.mod_pow2_bits_low, Z.shiftl_spec_low by lia. done.
Qed.
Lemma remove_tag_none tag l : tag ∉ l -> remove_tag tag l = l.
Proof.
  unfold remove_tag. induction l as [|x l IH]; [done|]. intros [Hx Hl]%not_elem_of_cons. rewrite filter_cons_True by done. by rewrite IH.
Qed.
Lemma remove_tag_perm tag l : base.NoDup l -> tag ∈ l -> tag :: remove_tag tag l ≡ₚ l.
Proof.
  induction l as [|x l IH]; [intros _ []%not_elem_of_nil|]. intros [Hx Hn]%list.NoDup_cons Hin.
  destruct (decide (x = tag)) as [->|Hne].
  - unfold remove_tag. rewrite filter_cons_False by tauto. fold (remove_tag tag l). by rewrite remove_tag_none.
  - unfold remove_tag. rewrite filter_cons_True by done. fold (remove_tag tag l). rewrite Permutation_swap, IH; [done|done|]. by apply elem_of_cons in Hin as [->|].
Qed.
Lemma in_issued_id fresh q r r' : kinv fresh q -> r ∈ kq_issued q -> r' ∈ kq_issued q -> kr_id r = kr_id r' -> r = r'.
Proof.
  intros Hk (i & Hi)%list_elem_of_lookup (j & Hj)%list_elem_of_lookup E.
  assert (forall k x, kq_issued q !! k = Some x -> kr_id x = k) as Hid.
  { intros k x Hx. pose proof (ki_ids _ _ Hk) as Hs. change (map ?f ?l) with (f <$> l) in Hs.
    assert ((kr_id <$> kq_issued q) !! k = Some (kr_id x)) as H by (by rewrite list_lookup_fmap, Hx).
    rewrite Hs in H. apply lookup_seq in H as [H _]. lia. }
  assert (i = j) as -> by (rewrite <- (Hid i r Hi), <- (Hid j r' Hj); done). congruence.
Qed.
Lemma in_issued_handle q r r' : kinv true q -> r ∈ kq_issued q -> r' ∈ kq_issued q -> kr_handle r = kr_handle r' -> r = r'.
Proof.
  intros Hk (i & Hi)%list_elem_of_lookup (j & Hj)%list_elem_of_lookup E. pose proof (ki_fresh _ _ Hk eq_refl) as Hn.
  change (map ?f ?l) with (f <$> l) in Hn. assert (i = j) as ->; [|congruence].
  eapply (proj1 (NoDup_alt _) Hn); rewrite list_lookup_fmap; [by rewrite Hi|rewrite Hj; cbn; by rewrite E].
Qed.

(** Steps that only move requests between the lists. *)
Lemma kinv_move fresh q q' :
  kinv fresh q -> held q' ≡ₚ held q -> kq_structs q' = kq_structs q -> kq_issued q' = kq_issued q -> kq_done q' = kq_done q ->
  (forall x, x ∈ kq_sending q' -> x ∈ kq_sending q \/ x ∈ held q) -> kq_wire q' ⊆ kq_wire q ->
  (fresh = true -> forall tag d, (tag, d) ∈ kq_hand q' -> (tag, d) ∈ kq_hand q \/ exists r, kq_structs q !! tag = Some r /\ range r = d) ->
  kinv fresh q'.
Proof.
  intros [H1 H2 H3 H4 H5 H6 H7 H8 H9] Hp Es Ei Ed Hsend Hw Hh. split; rewrite ?Es, ?Ei, ?Ed, ?Hp; try done.
  - intros tag [Hin|Hin]; apply H2; [left; by rewrite <- Hp|]. destruct (Hsend _ Hin); auto.
  - intros h d Hin. by apply H6, Hw.
  - intros Hf tag d Hin. destruct (Hh Hf tag d Hin); [by apply H7|done].
Qed.
(** A request ends. *)
Lemma kinv_end fresh q q1 q' tag data :
  kinv fresh q ->
  held q ≡ₚ tag :: held q1 -> kq_structs q1 = kq_structs q -> kq_issued q1 = kq_issued q -> kq_done q1 = kq_done q ->
  kq_sending q1 = kq_sending q -> kq_wire q1 = kq_wire q -> kq_hand q1 ⊆ kq_hand q ->
  (fresh = true -> forall d, data = Some d -> exists r, kq_structs q !! tag = Some r /\ range r = d) ->
  blk_mq_end_request tag data q1 = Ok q' -> kinv fresh q'.
Proof.
  intros [H1 H2 H3 H4 H5 H6 H7 H8 H9] Hp Es Ei Ed Esd Ew Hh Hd. unfold blk_mq_end_request. rewrite Es.
  destruct (kq_structs q !! tag) as [r|] eqn:Er; [|done]. intros [= <-]. rewrite Hp in H1. apply list.NoDup_cons in H1 as [Hn H1].
  split; cbn; rewrite ?Ei, ?Ed, ?Esd, ?Ew; change (held (KQueues _ _ _ _ _ _ _ _ _ _ _ _ _ _)) with (held q1); try done.
  - intros x [Hx|Hx]; apply H2; [left; rewrite Hp; by apply elem_of_cons; right|by right].
  - rewrite map_app, H5, Hp. unfold ids. cbn. rewrite Er. cbn. solve_Permutation.
  - intros Hf x d Hin. by apply H7, Hh.
  - intros Hf id d [Hin|Hin]%elem_of_app; [by apply H8|].
    apply list_elem_of_singleton in Hin. injection Hin as -> <-. destruct (Hd Hf d eq_refl) as (r' & Hr' & Hrange). assert (r' = r) as -> by congruence. exists r. split; [|done]. by eapply H3.
Qed.

(** Requests are accepted. *)
Lemma ids_insert structs tag r l : (tag ∉ l) -> ids (<[tag := r]> structs) l = ids structs l.
Proof.
  induction l as [|x l IH]; [done|]. intros [Hx Hl]%not_elem_of_cons. unfold ids in *. cbn. rewrite lookup_insert_ne by done. by rewrite IH.
Qed.
Lemma kinv_queue fresh q tag jiffies pos bytes :
  kinv fresh q -> kenabled fresh q (KEQueue tag jiffies pos bytes) = true -> kinv fresh (dnbd3_queue_rq tag jiffies pos bytes q).
Proof.
  intros Hk He. cbn in He. rewrite !andb_true_iff, Z.leb_le, Z.ltb_lt, bool_decide_eq_true, negb_true_iff in He.
  destruct He as [[[Ht1 Ht2] Hn] Hfresh]. unfold dnbd3_queue_rq. destruct (negb (kq_active q)); [done|].
  destruct Hk as [H1 H2 H3 H4 H5 H6 H7 H8 H9]. set (r := KRequest (length (kq_issued q)) (handleOf tag jiffies) pos bytes).
  set (q' := KQueues _ _ _ _ _ _ _ _ _ _ _ _ _ _). assert (held q' ≡ₚ tag :: held q) as Hp by (unfold held, q'; cbn; solve_Permutation).
  split; rewrite ?Hp; cbn [q' kq_structs kq_issued kq_done kq_wire kq_hand kq_sending].
  - by apply list.NoDup_cons.
  - intros x Hx. destruct (decide (x = tag)) as [->|Hne]; [rewrite lookup_insert_eq; by eexists|]. rewrite lookup_insert_ne by done.
    apply H2. destruct Hx as [Hx|Hx]; [left|by right]. rewrite Hp in Hx. by apply elem_of_cons in Hx as [?|].
  - intros x r' Hx. destruct (decide (x = tag)) as [->|Hne].
    + rewrite lookup_insert_eq in Hx. injection Hx as <-. split; [apply elem_of_app; right; by apply list_elem_of_singleton|]. split; [done|by exists jiffies].
    + rewrite lookup_insert_ne in Hx by done. destruct (H3 x r' Hx) as (Hin & Hr). split; [apply elem_of_app; by left|done].
  - rewrite map_app, H4, length_app. cbn. by rewrite Nat.add_1_r, seq_S.
  - rewrite map_app, H5. unfold ids. cbn. rewrite lookup_insert_eq. cbn. fold (ids (<[tag:=r]> (kq_structs q)) (held q)).
    fold (ids (kq_structs q) (held q)). rewrite ids_insert by done. solve_Permutation.
  - intros h d Hin. destruct (H6 h d Hin) as (r' & Hr' & Hx). exists r'. split; [apply elem_of_app; by left|done].
  - intros Hf x d Hin. destruct (H7 Hf x d Hin) as (r' & Hr' & Hx). exists r'. split; [|done]. rewrite lookup_insert_ne; [done|]. intros <-.
    apply Hn. unfold held. rewrite !elem_of_app. do 4 right. left. apply list_elem_of_fmap. by exists (tag, d).
  - intros Hf id d Hin. destruct (H8 Hf id d Hin) as (r' & Hr' & Hx). exists r'. split; [apply elem_of_app; by left|done].
  - intros Hf. rewrite map_app. apply list.NoDup_app. split; [by apply H9|]. split; [|apply NoDup_singleton].
    intros h Hh [->|[]%not_elem_of_nil]%elem_of_cons. rewrite Hf in Hfresh. cbn [andb] in Hfresh. by apply bool_decide_eq_false in Hfresh.
Qed.

#[local] Ltac perm := unfold held; cbn; rewrite ?map_app; cbn; solve_Permutation.
#[local] Hint Extern 1 (_ ⊆ _) => intros ?; done : core.
Lemma held_parts fresh q : kinv fresh q -> base.NoDup (kq_adding q) /\ base.NoDup (kq_recv q).
Proof.
  intros Hk. pose proof (ki_nodup _ _ Hk) as Hn. unfold held in Hn. apply list.NoDup_app in Hn as (H1 & _ & Hn). split; [done|].
  apply list.NoDup_app in Hn as (_ & _ & Hn). apply list.NoDup_app in Hn as (_ & _ & Hn). by apply list.NoDup_app in Hn as (? & _ & _).
Qed.
Lemma kinv_add fresh q tag : kinv fresh q -> tag ∈ kq_adding q -> kinv fresh (dnbd3_add_queue tag q).
Proof.
  intros Hk Hin. destruct (held_parts _ _ Hk) as [Hn _]. eapply (kinv_move _ q); eauto. unfold dnbd3_add_queue, held; cbn.
  rewrite <- (remove_tag_perm tag (kq_adding q) Hn Hin) at 2. solve_Permutation.
Qed.
Lemma kinv_timeout fresh q tag : kinv fresh q -> kinv fresh (dnbd3_rq_timeout tag q).
Proof.
  intros Hk. unfold dnbd3_rq_timeout. case_bool_decide; [done|]. case_bool_decide as Hr; [|done]. destruct (held_parts _ _ Hk) as [_ Hn].
  eapply (kinv_move _ q); eauto. unfold held; cbn. rewrite <- (remove_tag_perm tag (kq_recv q) Hn Hr) at 2. solve_Permutation.
Qed.
Lemma kinv_take fresh q : kinv fresh q -> kinv fresh (sendTake q).
Proof.
  intros Hk. unfold sendTake. destruct (kq_send q) as [|tag rest] eqn:E; [done|]. eapply (kinv_move _ q); eauto.
  unfold held; cbn. rewrite E. solve_Permutation.
Qed.
Lemma kinv_sendMove fresh q : kinv fresh q -> kinv fresh (sendMove q).
Proof.
  intros Hk. unfold sendMove. destruct (kq_moving q) as [|tag rest] eqn:E; [done|]. eapply (kinv_move _ q); eauto.
  - unfold held; cbn. rewrite E. solve_Permutation.
  - cbn. intros x [Hx|Hx%list_elem_of_singleton]%elem_of_app; [by left|]. subst. right. unfold held. rewrite E, !elem_of_app. right; right; left. by constructor.
Qed.
Lemma kinv_send fresh q ok : kinv fresh q -> exists q', sendHeader ok q = Ok q' /\ kinv fresh q'.
Proof.
  intros Hk. unfold sendHeader. destruct (kq_sending q) as [|tag rest] eqn:E; [by exists q|].
  destruct (ki_held _ _ Hk tag) as [r Er]; [right; rewrite E; by constructor|]. rewrite Er. eexists. split; [done|].
  pose proof (ki_struct _ _ Hk tag r Er) as (Hr & _). destruct Hk as [H1 H2 H3 H4 H5 H6 H7 H8 H9]. split; try done; cbn.
  - intros x Hx. apply H2. destruct Hx as [Hx|Hx]; [by left|right]. rewrite E. by constructor.
  - intros h d Hin. destruct ok; [|by apply H6]. apply elem_of_app in Hin as [Hin|Hin]; [by apply H6|].
    apply list_elem_of_singleton in Hin. injection Hin as -> ->. by exists r.
Qed.
Lemma findHandle_Some structs h l tag : findHandle structs h l = Some tag -> tag ∈ l /\ kr_handle <$> structs !! tag = Some h.
Proof.
  unfold findHandle. destruct (list_find _ l) as [[i x]|] eqn:E; [|done]. intros [= <-]. apply list_find_Some in E as (H1 & H2 & _).
  split; [by eapply list_elem_of_lookup_2|done].
Qed.
Lemma kinv_reply fresh q h d :
  kinv fresh q -> (fresh = true -> exists r, r ∈ kq_issued q /\ kr_handle r = h /\ range r = d) -> kinv fresh (matchHandle h d q).
Proof.
  intros Hk Hgood. unfold matchHandle. destruct (findHandle _ h _) as [tag|] eqn:E; [|eapply (kinv_move _ q); eauto].
  apply findHandle_Some in E as [Hin E]. destruct (held_parts _ _ Hk) as [_ Hn]. eapply (kinv_move _ q); eauto.
  - unfold held; cbn. rewrite map_app. cbn. rewrite <- (remove_tag_perm tag (kq_recv q) Hn Hin) at 2. solve_Permutation.
  - cbn. intros -> x y [Hx|Hx%list_elem_of_singleton]%elem_of_app; [by left|]. right. injection Hx as -> ->. destruct (Hgood eq_refl) as (r & Hr & Hh & Hd).
    destruct (kq_structs q !! tag) as [r'|] eqn:Er; [|done]. exists r'. split; [done|]. injection E as E.
    destruct (ki_struct _ _ Hk tag r' Er) as (Hr' & _). rewrite (in_issued_handle q r' r Hk Hr' Hr); [done|congruence].
Qed.
Lemma kinv_data fresh q ok : kinv fresh q -> exists q', recvData ok q = Ok q' /\ kinv fresh q'.
Proof.
  intros Hk. unfold recvData. destruct (kq_hand q) as [|[tag d] rest] eqn:E; [by exists q|]. destruct ok.
  - set (q1 := set_conn _ _ _ _ _). assert (held q ≡ₚ tag :: held q1) as Hp by (unfold held, q1; cbn; rewrite E; perm).
    destruct (ki_held _ _ Hk tag) as [r Er]; [left; rewrite Hp; by constructor|].
    unfold blk_mq_end_request. cbn [q1 set_conn kq_structs]. rewrite Er. eexists. split; [done|].
    eapply (kinv_end fresh q q1 _ tag (Some d)); eauto.
    + cbn. rewrite E. intros x Hx. by constructor.
    + intros Hf d' [= <-]. apply (ki_hand _ _ Hk Hf). rewrite E. by constructor.
    + unfold blk_mq_end_request. cbn [q1 set_conn kq_structs]. by rewrite Er.
  - eexists. split; [done|]. eapply (kinv_move _ q); eauto.
    + unfold held; cbn. rewrite E. perm.
    + cbn. intros _ x y Hx. left. rewrite E. by constructor.
Qed.
Lemma kinv_failOne fresh q : kinv fresh q -> exists q', failOne q = Ok q' /\ kinv fresh q'.
Proof.
  intros Hk. unfold failOne. destruct (kq_failing q) as [|tag rest] eqn:E; [by exists q|].
  set (q1 := set_copies _ _ _). assert (held q ≡ₚ tag :: held q1) as Hp by (unfold held, q1; cbn; rewrite E; perm).
  destruct (ki_held _ _ Hk tag) as [r Er]; [left; rewrite Hp; by constructor|].
  unfold blk_mq_end_request. cbn [q1 set_copies kq_structs]. rewrite Er. eexists. split; [done|].
  eapply (kinv_end fresh q q1 _ tag None); eauto; [done|]. unfold blk_mq_end_request. cbn [q1 set_copies kq_structs]. by rewrite Er.
Qed.
Lemma kinv_copies fresh q :
  kinv fresh q -> kinv fresh (requeueTake q) /\ kinv fresh (requeueOne q) /\ kinv fresh (failRecv q) /\ kinv fresh (failSend q).
Proof.
  intros Hk. assert (forall l : list Z, rev l ≡ₚ l) as Hrev by (intros l; by rewrite <- Permutation_rev).
  split_and!; [| unfold requeueOne; destruct (kq_local q) as [|tag rest] eqn:E; [done|] | |]; eapply (kinv_move _ q); eauto; unfold held; cbn.
  - rewrite Hrev. solve_Permutation.
  - rewrite E. solve_Permutation.
  - rewrite Hrev. solve_Permutation.
  - rewrite Hrev. solve_Permutation.
Qed.
Lemma kstep_inv fresh q e : kinv fresh q -> kenabled fresh q e = true -> exists q', kstep q e = Ok q' /\ kinv fresh q'.
Proof.
  intros Hk He. destruct e; cbn [kstep]; try (eexists; split; [done|]).
  - by apply kinv_queue.
  - apply kinv_add; [done|]. by apply bool_decide_eq_true in He.
  - by apply kinv_timeout.
  - by apply kinv_take.
  - by apply kinv_sendMove.
  - by apply kinv_send.
  - destruct (kq_wire q !! k) as [[h d]|] eqn:E; [|by exists q]. eexists. split; [done|]. apply kinv_reply.
    + eapply (kinv_move _ q); eauto. apply list_subseteq_delete.
    + intros _. apply (ki_wire _ _ Hk). by eapply list_elem_of_lookup_2.
  - apply kinv_reply; [done|]. intros ->. done.
  - by apply kinv_data.
  - eapply (kinv_move _ q); eauto.
  - eapply (kinv_move _ q); eauto. cbn. intros x []%not_elem_of_nil.
  - by apply kinv_copies.
  - by apply kinv_copies.
  - eapply (kinv_move _ q); eauto.
  - eapply (kinv_move _ q); eauto. cbn. intros x []%not_elem_of_nil.
  - by apply kinv_copies.
  - by apply kinv_copies.
  - by apply kinv_failOne.
Qed.
Lemma krun_inv fresh es : forall q, kinv fresh q -> exists q', krun fresh q es = Ok q' /\ kinv fresh q'.
Proof.
  induction es as [|e es IH]; intros q Hk; cbn [krun]; [by exists q|]. destruct (kenabled fresh q e) eqn:E; [|by apply IH].
  destruct (kstep_inv fresh q e Hk E) as (q' & -> & Hk'). cbn [mbind result_bind]. by apply IH.
Qed.
Lemma kinv0 fresh : kinv fresh kqueues0.
Proof.
  split; cbn; try done; try (by intros; exfalso; eapply not_elem_of_nil).
  - apply NoDup_nil_2.
  - intros tag [H|H]; by apply not_elem_of_nil in H.
  - intros _. apply NoDup_nil_2.
Qed.


(** [dnbd3_blk_fail_all_requests] as a whole. *)
Definition failAll (q : kernel_queues) : list kernel_event :=
  KEFailRecv :: KEFailSend :: replicate (length (held q)) KEFailOne.
Lemma failOnes fresh n : forall q, kinv fresh q -> length (kq_failing q) = n ->
  exists q', krun fresh q (replicate n KEFailOne) = Ok q' /\ kinv fresh q' /\ kq_failing q' = []
    /\ kq_adding q' = kq_adding q /\ kq_send q' = kq_send q /\ kq_moving q' = kq_moving q /\ kq_recv q' = kq_recv q
    /\ kq_hand q' = kq_hand q /\ kq_local q' = kq_local q /\ kq_issued q' = kq_issued q.
Proof.
  induction n as [|n IH]; intros q Hk Hl; cbn [replicate krun].
  - exists q. split_and!; try done. by destruct (kq_failing q).
  - cbn [kenabled kstep]. destruct (kinv_failOne fresh q Hk) as (q1 & E & Hk1). rewrite E. cbn [mbind result_bind].
    unfold failOne, blk_mq_end_request in E. destruct (kq_failing q) as [|tag rest] eqn:Ef; [done|]. cbn in E.
    destruct (kq_structs q !! tag); [|done]. injection E as E. destruct (IH q1 Hk1) as (q' & Er & Hk' & Hrest); [subst q1; cbn; cbn in Hl; lia|].
    exists q'. subst q1. by cbn in Hrest.
Qed.

(** Closing the device: once the workers have stopped and no request is on its way into
    the queues, failing all requests ends every request that was ever accepted. *)
Theorem kernel_close_ends_all fresh es q :
  krun fresh kqueues0 es = Ok q ->
  kq_adding q = [] -> kq_moving q = [] -> kq_hand q = [] -> kq_local q = [] -> kq_failing q = [] ->
  exists q', krun fresh q (failAll q) = Ok q' /\ held q' = [] /\ map kr_id (kq_issued q) ≡ₚ map fst (kq_done q').
Proof.
  intros Er Ha Hm Hh Hl Hf. destruct (krun_inv fresh es kqueues0 (kinv0 fresh)) as (q0 & E0 & Hk). rewrite Er in E0. injection E0 as <-.
  unfold failAll. cbn [krun kenabled kstep]. cbn [mbind result_bind].
  destruct (kinv_copies _ _ Hk) as (_ & _ & Hk1 & _). destruct (kinv_copies _ _ Hk1) as (_ & _ & _ & Hk2).
  destruct (failOnes fresh (length (held q)) (failSend (failRecv q)) Hk2) as (q' & E & Hk' & H1 & H2 & H3 & H4 & H5 & H6 & H7 & H8).
  { unfold failSend, failRecv, held. cbn. rewrite Ha, Hm, Hh, Hl, Hf. cbn. rewrite !app_nil_r, !length_app, !length_rev. lia. }
  exists q'. split; [exact E|]. assert (held q' = []) as Hheld.
  { unfold held. rewrite H1, H2, H3, H4, H5, H6, H7. cbn. by rewrite Ha, Hm, Hh, Hl. }
  split; [done|]. cbn in H8. rewrite <- H8, (ki_count _ _ Hk'), Hheld. by rewrite app_nil_r.
Qed.
Definition demo_kevents : list kernel_event :=
  [KEQueue 1 100 0 4096; KEAdd 1; KETake; KEMove; KESend true; KEQueue 2 100 8 8192; KEAdd 2; KEReply 0; KEData true; KETake; KEMove; KESend true; KEClose].
Lemma kernel_close_ends_all_witness :
  exists q q', krun true kqueues0 demo_kevents = Ok q /\ krun true q (failAll q) = Ok q' /\ kq_done q' = [(0%nat, Some (0, 4096)); (1%nat, None)]
    /\ held q' = [].
Proof.
  destruct (krun true kqueues0 demo_kevents) as [q|f] eqn:E; [|vm_compute in E; discriminate E].
  assert (kq_adding q = [] /\ kq_moving q = [] /\ kq_hand q = [] /\ kq_local q = [] /\ kq_failing q = []) as (H1 & H2 & H3 & H4 & H5)
    by (vm_compute in E; injection E as <-; repeat split; reflexivity).
  destruct (kernel_close_ends_all true demo_kevents q E H1 H2 H3 H4 H5) as (q' & E' & Hh & _). exists q, q'. split; [reflexivity|].
  split; [exact E'|]. split; [|exact Hh]. vm_compute in E. injection E as <-. vm_compute in E'. injection E' as <-. reflexivity.
Defined.

(** The condition is needed: a reply with the right handle and other data ends the request well. *)
Theorem stray_reply_ends_request :
  exists q, krun false kqueues0 [KEQueue 1 100 0 4096; KEAdd 1; KETake; KEMove; KESend true; KEStray (handleOf 1 100) (8192, 512); KEData true] = Ok q
    /\ kq_done q = [(0%nat, Some (8192, 512))].
Proof. eexists. split; [vm_compute; reflexivity|]. reflexivity. Qed.

(** A request that passed the checks of [dnbd3_queue_rq] before the device was closed,
    but is queued after the last [dnbd3_blk_fail_all_requests], stays in the send queue for
    good: its timeout finds it there and does nothing. *)
Theorem request_left_behind :
  exists es q, krun true kqueues0 es = Ok q /\ kq_active q = false /\ kq_send q = [1] /\ kq_done q = []
    /\ kstep q (KETimeout 1) = Ok q.
Proof.
  exists [KEQueue 1 100 0 4096; KEClose; KEFailRecv; KEFailSend; KEDrop; KEFailRecv; KEFailSend; KEAdd 1].
  eexists. split; [vm_compute; reflexivity|]. repeat split; vm_compute; reflexivity.
Qed.

(** A request that timed out is sent again with the same handle, so the server answers
    it twice; the second answer matches nothing and the receive worker gives up the
    connection, which works. *)
Theorem resent_request_drops_connection :
  exists es q, krun true kqueues0 es = Ok q /\ kq_done q = [(0%nat, Some (0, 4096))] /\ held q = [] /\ kq_receiving q = false
    /\ ~ exists e, e ∈ es /\ (e = KELost \/ e = KEDrop \/ e = KEData false \/ e = KESend false).
Proof.
  exists [KEQueue 1 100 0 4096; KEAdd 1; KETake; KEMove; KESend true; KETimeout 1; KEAdd 1; KETake; KEMove; KESend true; KEReply 0; KEData true; KEReply 0].
  eexists. split; [vm_compute; reflexivity|]. do 3 (split; [vm_compute; reflexivity|]).
  intros (e & Hin & Hbad). repeat (apply elem_of_cons in Hin as [->|Hin]; [destruct Hbad as [?|[?|[?|?]]]; discriminate|]). by apply not_elem_of_nil in Hin.
Qed.
