(* ===== verification/KernelNet.v ===== *)
(** * KernelNet: the connection of a kernel block device ([src/kernel/net.c])

    The handshake with a server and the receive worker's handling of replies, on the bytes
    of the connection.  The bytes the other side sends before it closes the connection are
    a list; a read that wants more than there are left is short.  [kernel_recvmsg] with
    [MSG_WAITALL] returns everything asked for; without it, as in [dnbd3_drain_socket], it
    may return less ([chunk]). *)

From Stdlib Require Import Ascii.
From S2P Require Import Prelude Timing Types Helper AltServers Wire KernelServers.

Open Scope Z_scope.

(** ** Reading *)

(** [dnbd3_recv_bytes]: what was read and what is left. *)
Definition dnbd3_recv_bytes (count : Z) (s : list Z) : list Z * list Z :=
  (take (Z.to_nat count) s, drop (Z.to_nat count) s).
Definition PAGE_SIZE : Z := 4096.
Section Recv.
Context (chunk : Z -> Z).

(** [dnbd3_drain_socket]; a read returns at least one byte as long as there are any, so as
    much fuel as there are bytes to drain is enough. *)
Fixpoint drainLoop (fuel : nat) (bytes : Z) (s : list Z) : bool * list Z :=
  match fuel with
  | O => (bytes <=? 0, s)
  | S fuel =>
      if bytes <=? 0 then (true, s)
      else
        let got := take (Z.to_nat (Z.min (Z.min bytes PAGE_SIZE) (Z.max 1 (chunk bytes)))) s in
        if (length got =? 0)%nat then (false, s)
        else drainLoop fuel (bytes - Z.of_nat (length got)) (drop (length got) s)
  end.
Definition dnbd3_drain_socket (bytes : Z) (s : list Z) : bool * list Z := drainLoop (Z.to_nat bytes) bytes s.

(** ** The receive worker *)

Definition SERVER_ENTRY_SIZE : Z := 20.
(** A [dnbd3_server_entry_t]: the host and its number of failures. *)
Definition decode_entry (b : list Z) : dnbd3_host_t * Z :=
  (Host (take 16 b) (le_val (take 2 (drop 16 b))) (le_val (take 1 (drop 18 b))), le_val (take 1 (drop 19 b))).

Record recv_state := RecvState {
  rv_queue : list (Z * list Z);            (* [recv_queue]: handle and the lengths of the segments *)
  rv_ended : list (Z * list (list Z));     (* ended: handle and what the segments got *)
  rv_requeued : list (Z * list Z);         (* put back into the send queue *)
  rv_alts : list kernel_alt;
  rv_use_alts : bool;                      (* [use_server_provided_alts] *)
  rv_rid : Z;
  rv_update : bool;                        (* [update_available] *)
}.
Definition rv_set_alts (alts : list kernel_alt) (st : recv_state) : recv_state :=
  RecvState (rv_queue st) (rv_ended st) (rv_requeued st) alts (rv_use_alts st) (rv_rid st) (rv_update st).
Definition rv_set_update (u : bool) (st : recv_state) : recv_state :=
  RecvState (rv_queue st) (rv_ended st) (rv_requeued st) (rv_alts st) (rv_use_alts st) (rv_rid st) u.

(** [rq_for_each_segment]: fill the segments; [None] is a short read. *)
Fixpoint recvSegments (segs : list Z) (s : list Z) : option (list (list Z)) * list Z :=
  match segs with
  | [] => (Some [], s)
  | n :: segs =>
      let '(got, s) := dnbd3_recv_bytes n s in
      if negb (Z.of_nat (length got) =? n) then (None, s)
      else
        let '(rest, s) := recvSegments segs s in
        (match rest with Some rest => Some (got :: rest) | None => None end, s)
  end.
Definition getBlock (hdr : dnbd3_reply_t) (st : recv_state) (s : list Z) : bool * recv_state * list Z :=
  match list_find (fun r : Z * list Z => r.1 = rp_handle hdr) (rv_queue st) with
  | None => (false, st, s)
  | Some (i, (handle, segs)) =>
      let queue := delete i (rv_queue st) in
      match recvSegments segs s with
      | (Some data, s) =>
          (true, RecvState queue (rv_ended st ++ [(handle, data)]) (rv_requeued st) (rv_alts st) (rv_use_alts st) (rv_rid st) (rv_update st), s)
      | (None, s) =>
          (false, RecvState queue (rv_ended st) (rv_requeued st ++ [(handle, segs)]) (rv_alts st) (rv_use_alts st) (rv_rid st) (rv_update st), s)
      end
  end.
Definition applyEntry (alts : list kernel_alt) (e : dnbd3_host_t * Z) : list kernel_alt :=
  if e.2 =? 0 then (dnbd3_add_server alts e.1).2 else (dnbd3_rem_server alts e.1).2.
(** The loop over the entries of a list of servers; the [int] is compared with an unsigned
    size.  [None]: the connection broke. *)
Fixpoint recvServers (fuel : nat) (remaining : Z) (alts : list kernel_alt) (s : list Z) : list kernel_alt * option Z * list Z :=
  match fuel with
  | O => (alts, None, s)
  | S fuel =>
      if SERVER_ENTRY_SIZE <=? u64 remaining then
        let '(got, s) := dnbd3_recv_bytes SERVER_ENTRY_SIZE s in
        if negb (Z.of_nat (length got) =? SERVER_ENTRY_SIZE) then (alts, None, s)
        else recvServers fuel (i32 (remaining - SERVER_ENTRY_SIZE)) (applyEntry alts (decode_entry got)) s
      else (alts, Some remaining, s)
  end.
Definition getServers (hdr : dnbd3_reply_t) (st : recv_state) (s : list Z) : bool * recv_state * list Z :=
  let remaining := i32 (rp_size hdr) in
  let '(alts, remaining, s) :=
    if rv_use_alts st then recvServers (S (length s)) remaining (rv_alts st) s else (rv_alts st, Some remaining, s) in
  match remaining with
  | None => (false, rv_set_alts alts st, s)
  | Some remaining => let '(ok, s) := dnbd3_drain_socket remaining s in (ok, rv_set_alts alts st, s)
  end.
Definition latestRid (hdr : dnbd3_reply_t) (st : recv_state) (s : list Z) : bool * recv_state * list Z :=
  if rp_size hdr <? 2 then (true, st, s)
  else
    let '(got, s) := dnbd3_recv_bytes 2 s in
    let st := if negb (Z.of_nat (length got) =? 2) then st else rv_set_update (rv_rid st <? le_val got) st in
    (true, st, if 2 <? rp_size hdr then (dnbd3_drain_socket (i32 (rp_size hdr - 2)) s).2 else s).
(** One turn of the loop; [false]: the worker leaves it. *)
Definition recvReply (st : recv_state) (s : list Z) : bool * recv_state * list Z :=
  let '(got, s) := dnbd3_recv_bytes 16 s in
  if negb (length got =? DNBD3_REPLY_SIZE)%nat then (false, st, s)
  else
    let hdr := decode_reply got in
    if negb (rp_magic hdr =? dnbd3_packet_magic) then (false, st, s)
    else if rp_cmd hdr =? CMD_GET_BLOCK then getBlock hdr st s
    else if rp_cmd hdr =? CMD_GET_SERVERS then getServers hdr st s
    else if rp_cmd hdr =? CMD_LATEST_RID then latestRid hdr st s
    else if rp_cmd hdr =? CMD_KEEPALIVE then
      (true, st, if negb (rp_size hdr =? 0) then (dnbd3_drain_socket (i32 (rp_size hdr)) s).2 else s)
    else (false, st, s).
(** [dnbd3_recv_workfn]; every turn reads a header, so the length of the input is enough fuel. *)
Fixpoint recvLoop (fuel : nat) (st : recv_state) (s : list Z) : recv_state * list Z :=
  match fuel with
  | O => (st, s)
  | S fuel =>
      match recvReply st s with
      | (true, st, s) => recvLoop fuel st s
      | (false, st, s) => (st, s)
      end
  end.
Definition dnbd3_recv_workfn (st : recv_state) (s : list Z) : recv_state * list Z := recvLoop (S (length s)) st s.
End Recv.

(** ** The handshake *)

Record image_info := ImageInfo {
  ii_name : option (list Z);   (* [imgname] *)
  ii_rid : Z;
  ii_size : Z;                 (* [reported_size] *)
  ii_update : bool;
}.
Definition PAYLOAD_SIZE : Z := 1016.   (* sizeof(serialized_buffer_t) *)
(** The request sent, and the buffer it was put together in. *)
Definition handshakeRequest (buf : list Z) (dev : image_info) : result (list Z * list Z) :=
  match ii_name dev with
  | None => Fault NullDeref
  | Some name => let '(header, payload) := dnbd3_select_image buf name (ii_rid dev) 0 in Ok (header ++ payload, payload ++ drop (length payload) buf)
  end.
(** The checks and the data taken over; [realloc] tells whether there is memory for a
    longer name. *)
Definition takeImage (copy_data realloc : bool) (dev : image_info) (version : Z) (name : option (list Z)) (rid filesize : Z)
  : result (bool * image_info) :=
  if version <? MIN_SUPPORTED_SERVER then Ok (false, dev)
  else
    match name, ii_name dev with
    | None, _ => Ok (false, dev)
    | Some _, None => Fault NullDeref
    | Some name, Some imgname =>
        if rid =? 0 then Ok (false, dev)
        else if copy_data then
          if filesize <? DNBD3_BLOCK_SIZE then Ok (false, dev)
          else if (length imgname <? length name)%nat && negb realloc then Ok (false, ImageInfo None (ii_rid dev) (ii_size dev) (ii_update dev))
          else Ok (true, ImageInfo (Some name) rid filesize false)
        else if negb (rid =? ii_rid dev) then Ok (false, dev)
        else if negb (bool_decide (name = imgname)) then Ok (false, dev)
        else if negb (filesize =? ii_size dev) then Ok (false, dev)
        else Ok (true, dev)
    end.
(** [remote_version] is left alone unless a reply is read; [old] is what it held, and
    [input] what the server sends. *)
Definition dnbd3_execute_handshake (buf : list Z) (dev : image_info) (sendOk copy_data realloc : bool) (old : Z) (input : list Z)
  : result (bool * Z * image_info) :=
  '(request, buf) ← handshakeRequest buf dev;
  if negb sendOk then Ok (false, old, dev)
  else
    let '(header, s) := dnbd3_recv_bytes 16 input in
    if negb (length header =? DNBD3_REPLY_SIZE)%nat then Ok (false, old, dev)
    else
      let hdr := decode_reply header in
      if negb (rp_magic hdr =? dnbd3_packet_magic) || negb (rp_cmd hdr =? CMD_SELECT_IMAGE) || (rp_size hdr <? 4)
         || (PAYLOAD_SIZE <? rp_size hdr)
      then Ok (false, old, dev)
      else
        let '(received, s) := dnbd3_recv_bytes (rp_size hdr) s in
        if negb (Z.of_nat (length received) =? rp_size hdr) then Ok (false, old, dev)
        else
          '(version, name, rid, filesize) ←
            read_image_reply (serializer_reset_read (take 1000 (received ++ drop (length received) buf)) (rp_size hdr));
          '(ok, dev) ← takeImage copy_data realloc dev version name rid filesize;
          Ok (ok, version, dev).

(** * The receive worker stays in step with the server

    The specification is on whole packets: what a reply with its payload means. *)

Definition packet : Type := dnbd3_reply_t * list Z.
Definition bytesOf (p : packet) : list Z := encode_reply p.1 ++ p.2.
Fixpoint entries (n : nat) (b : list Z) : list (dnbd3_host_t * Z) :=
  match n with O => [] | S n => decode_entry (take 20 b) :: entries n (drop 20 b) end.
Record packet_ok (p : packet) : Prop := PacketOk {
  pk_reply : reply_ok p.1;
  pk_magic : rp_magic p.1 = dnbd3_packet_magic;
  pk_size : rp_size p.1 = Z.of_nat (length p.2);
  pk_small : rp_size p.1 < 2 ^ 31;
}.
Inductive handled (st : recv_state) : packet -> recv_state -> Prop :=
| HBlock hdr payload i segs data :   (* the segments of the request get the payload *)
    packet_ok (hdr, payload) -> rp_cmd hdr = CMD_GET_BLOCK ->
    list_find (fun r : Z * list Z => r.1 = rp_handle hdr) (rv_queue st) = Some (i, (rp_handle hdr, segs)) ->
    map (fun d => Z.of_nat (length d)) data = segs -> concat data = payload ->
    handled st (hdr, payload)
      (RecvState (delete i (rv_queue st)) (rv_ended st ++ [(rp_handle hdr, data)]) (rv_requeued st) (rv_alts st) (rv_use_alts st) (rv_rid st) (rv_update st))
| HServers hdr payload :
    packet_ok (hdr, payload) -> rp_cmd hdr = CMD_GET_SERVERS ->
    handled st (hdr, payload)
      (rv_set_alts (if rv_use_alts st then foldl applyEntry (rv_alts st) (entries (length payload / 20) payload) else rv_alts st) st)
| HRid hdr payload :
    packet_ok (hdr, payload) -> rp_cmd hdr = CMD_LATEST_RID -> 2 <= rp_size hdr ->
    handled st (hdr, payload) (rv_set_update (rv_rid st <? le_val (take 2 payload)) st)
| HKeepalive hdr payload :
    packet_ok (hdr, payload) -> rp_cmd hdr = CMD_KEEPALIVE -> handled st (hdr, payload) st.
Inductive handled_all : recv_state -> list packet -> recv_state -> Prop :=
| HANil st : handled_all st [] st
| HACons st p st' ps st'' : handled st p st' -> handled_all st' ps st'' -> handled_all st (p :: ps) st''.

Lemma recv_bytes_app n a b : length a = Z.to_nat n -> dnbd3_recv_bytes n (a ++ b) = (a, b).
Proof. intros H. unfold dnbd3_recv_bytes. by rewrite <- H, take_app_length, drop_app_length. Qed.
Lemma recv_bytes_all n a : length a = Z.to_nat n -> dnbd3_recv_bytes n a = (a, []).
Proof. intros H. rewrite <- (recv_bytes_app n a []) by done. by rewrite app_nil_r. Qed.
Lemma drainLoop_ok chunk fuel : forall bytes s, Z.of_nat fuel >= bytes -> 0 <= bytes <= Z.of_nat (length s) -> drainLoop chunk fuel bytes s = (true, drop (Z.to_nat bytes) s).
Proof.
  induction fuel as [|fuel IH]; intros bytes s Hf Hb; cbn [drainLoop].
  - assert (bytes = 0) as -> by lia. done.
  - destruct (Z.leb_spec bytes 0); [replace bytes with 0 by lia; done|].
    set (n := Z.min (Z.min bytes PAGE_SIZE) (Z.max 1 (chunk bytes))).
    assert (1 <= n <= bytes) as Hn by (unfold n, PAGE_SIZE; lia).
    assert (length (take (Z.to_nat n) s) = Z.to_nat n) as Hl by (rewrite length_take; lia). rewrite Hl.
    destruct (Nat.eqb_spec (Z.to_nat n) 0); [lia|]. rewrite IH; [|lia|rewrite length_drop; lia]. rewrite drop_drop. do 2 f_equal. lia.
Qed.
Lemma drain_app chunk n a b : Z.of_nat (length a) = n -> dnbd3_drain_socket chunk n (a ++ b) = (true, b).
Proof.
  intros H. unfold dnbd3_drain_socket. rewrite drainLoop_ok by (rewrite ?length_app; lia). by rewrite drop_app_length' by lia.
Qed.
Lemma recvSegments_app data rest : recvSegments (map (fun d => Z.of_nat (length d)) data) (concat data ++ rest) = (Some data, rest).
Proof.
  induction data as [|d data IH]; [done|]. cbn [map concat recvSegments]. rewrite <- app_assoc, recv_bytes_app by lia.
  rewrite Z.eqb_refl. cbn [negb]. by rewrite IH.
Qed.
Lemma recvServers_app payload : forall fuel alts rest,
  Z.of_nat (length payload) < 2 ^ 31 -> (length payload < fuel)%nat ->
  recvServers fuel (Z.of_nat (length payload)) alts (payload ++ rest) =
  (foldl applyEntry alts (entries (length payload / 20) payload), Some (Z.of_nat (length payload mod 20)),
   drop (20 * (length payload / 20)) payload ++ rest).
Proof.
  induction payload as [payload IH] using (induction_ltof1 _ (@length Z)). unfold ltof in IH. intros fuel alts rest Hs Hf.
  destruct fuel as [|fuel]; [lia|]. cbn [recvServers]. rewrite u64_id by crange. unfold SERVER_ENTRY_SIZE.
  destruct (Z.leb_spec 20 (Z.of_nat (length payload))) as [Hge|Hlt].
  - replace (payload ++ rest) with (take 20 payload ++ (drop 20 payload ++ rest)) by (by rewrite app_assoc, take_drop).
    assert (length (take 20 payload) = 20%nat) as H20 by (rewrite length_take; lia).
    assert (length (drop 20 payload) = length payload - 20)%nat as Hd by (rewrite length_drop; lia).
    rewrite recv_bytes_app by (rewrite H20; done). rewrite H20. cbn [negb Z.of_nat Z.eqb]. change (Z.of_nat 20 =? 20) with true. cbn [negb].
    rewrite i32_id by crange. replace (Z.of_nat (length payload) - 20) with (Z.of_nat (length (drop 20 payload))) by (rewrite Hd; lia).
    rewrite IH by lia. rewrite Hd.
    assert (length payload = length payload - 20 + 1 * 20)%nat as E by lia.
    assert (length payload / 20 = S ((length payload - 20) / 20))%nat as Hdiv by (rewrite E at 1; rewrite Nat.div_add by lia; lia).
    assert (length payload mod 20 = (length payload - 20) mod 20)%nat as Hmod by (rewrite E at 1; by rewrite Nat.Div0.mod_add).
    rewrite Hdiv, Hmod. cbn [entries foldl]. rewrite drop_drop. do 3 f_equal. lia.
  - rewrite Nat.div_small, Nat.mod_small by lia. done.
Qed.

Lemma recvReply_header chunk st hdr payload rest :
  packet_ok (hdr, payload) ->
  recvReply chunk st (bytesOf (hdr, payload) ++ rest) =
    if rp_cmd hdr =? CMD_GET_BLOCK then getBlock hdr st (payload ++ rest)
    else if rp_cmd hdr =? CMD_GET_SERVERS then getServers chunk hdr st (payload ++ rest)
    else if rp_cmd hdr =? CMD_LATEST_RID then latestRid chunk hdr st (payload ++ rest)
    else if rp_cmd hdr =? CMD_KEEPALIVE then
      (true, st, if negb (rp_size hdr =? 0) then (dnbd3_drain_socket chunk (i32 (rp_size hdr)) (payload ++ rest)).2 else payload ++ rest)
    else (false, st, payload ++ rest).
Proof.
  intros [H1 H2 H3 H4]. cbn [fst snd] in H1, H2, H3, H4. unfold recvReply, bytesOf. cbn [fst snd]. rewrite <- app_assoc, recv_bytes_app by apply length_encode_reply.
  rewrite length_encode_reply. cbn [negb Nat.eqb DNBD3_REPLY_SIZE]. rewrite decode_encode_reply by done. by rewrite H2, Z.eqb_refl.
Qed.
Lemma packet_size p : packet_ok p -> i32 (rp_size p.1) = Z.of_nat (length p.2).
Proof. intros [H1 H2 H3 H4]. rewrite i32_id by crange. done. Qed.
(** One packet. *)
Lemma recvReply_handled chunk st p st' rest : handled st p st' -> recvReply chunk st (bytesOf p ++ rest) = (true, st', rest).
Proof.
  intros H. destruct H as [hdr payload i segs data Hp Hc Hf Hl Hd|hdr payload Hp Hc|hdr payload Hp Hc Hs|hdr payload Hp Hc];
    rewrite recvReply_header, Hc by done; cbn [Z.eqb Pos.eqb CMD_GET_BLOCK CMD_GET_SERVERS CMD_LATEST_RID CMD_KEEPALIVE];
    pose proof (packet_size _ Hp) as Hsz; cbn [fst snd] in Hsz.
  - unfold getBlock. rewrite Hf. subst segs payload. by rewrite recvSegments_app.
  - unfold getServers. rewrite Hsz. destruct (rv_use_alts st).
    + rewrite recvServers_app; [|destruct Hp as [P1 P2 P3 P4]; cbn [fst snd] in *; lia|rewrite length_app; lia].
      pose proof (Nat.div_mod (length payload) 20 ltac:(lia)). rewrite drain_app; [done|]. rewrite length_drop. lia.
    + by rewrite drain_app by done.
  - unfold latestRid. destruct Hp as [P1 P2 P3 P4]; cbn [fst snd] in *. destruct (Z.ltb_spec (rp_size hdr) 2); [lia|].
    replace (payload ++ rest) with (take 2 payload ++ (drop 2 payload ++ rest)) by (by rewrite app_assoc, take_drop).
    assert (length (take 2 payload) = 2%nat) as H2 by (rewrite length_take; lia). rewrite recv_bytes_app by done. rewrite H2.
    change (Z.of_nat 2 =? 2) with true. cbn [negb]. destruct (Z.ltb_spec 2 (rp_size hdr)).
    + rewrite i32_id by crange. by rewrite drain_app by (rewrite length_drop; lia).
    + assert (drop 2 payload = []) as -> by (apply length_zero_iff_nil; rewrite length_drop; lia). done.
  - destruct (Z.eqb_spec (rp_size hdr) 0) as [E|E]; cbn [negb].
    + destruct Hp as [P1 P2 P3 P4]; cbn [fst snd] in *. assert (payload = []) as -> by (apply length_zero_iff_nil; lia). done.
    + rewrite Hsz. by rewrite drain_app.
Qed.
Lemma recvLoop_handled chunk ps : forall fuel st st' , handled_all st ps st' -> (length (concat (map bytesOf ps)) < fuel)%nat ->
  recvLoop chunk fuel st (concat (map bytesOf ps)) = (st', []).
Proof.
  induction ps as [|p ps IH]; intros fuel st st' H Hf; inversion H; subst; (destruct fuel as [|fuel]; [lia|]); cbn [recvLoop map concat].
  - done.
  - rewrite (recvReply_handled chunk st p st'0) by done. apply IH; [done|]. cbn [map concat] in Hf. rewrite length_app in Hf.
    assert (16 <= length (bytesOf p))%nat by (unfold bytesOf; rewrite length_app, length_encode_reply; lia). lia.
Qed.

Definition demo_recv : recv_state := RecvState [(17, [2; 1])] [] [] demo_kalts true 1 false.
Definition demo_entry : list Z := padAddr [10; 0; 0; 2] ++ [139; 19; 2; 0].
Definition demo_packets : list packet :=
  [(ReplyHdr dnbd3_packet_magic CMD_GET_SERVERS 23 0, demo_entry ++ [1; 2; 3]);
   (ReplyHdr dnbd3_packet_magic CMD_GET_BLOCK 3 17, [65; 66; 67]);
   (ReplyHdr dnbd3_packet_magic CMD_LATEST_RID 2 0, [2; 0])].

(** The size of a block reply is not compared with the request: after a reply that
    announces no data, the header of the next packet ends up in the request's buffer as
    the data read, and the request ends without an error. *)
Theorem empty_block_reply_corrupts_data :
  let st := RecvState [(17, [16]); (18, [2])] [] [] [] false 1 false in
  let empty := encode_reply (ReplyHdr dnbd3_packet_magic CMD_GET_BLOCK 0 17) in
  let next := encode_reply (ReplyHdr dnbd3_packet_magic CMD_GET_BLOCK 2 18) in
  rv_ended (dnbd3_recv_workfn (fun _ => 1) st (empty ++ next ++ [65; 66])).1 = [(17, [next])].
Proof. vm_compute. reflexivity. Qed.

(** * The handshake accepts the right image only *)

Lemma takeImage_spec copy_data realloc dev imgname version name rid size :
  ii_name dev = Some imgname ->
  exists ok dev', ('(ok, dev) ← takeImage copy_data realloc dev version (Some name) rid size; Ok (ok, version, dev)) = Ok (ok, version, dev')
    /\ (copy_data = false -> dev' = dev /\
          (ok = true <-> MIN_SUPPORTED_SERVER <= version /\ rid <> 0 /\ rid = ii_rid dev /\ name = imgname /\ size = ii_size dev))
    /\ (copy_data = true -> realloc = true ->
          (ok = true <-> MIN_SUPPORTED_SERVER <= version /\ rid <> 0 /\ DNBD3_BLOCK_SIZE <= size)
          /\ dev' = if ok then ImageInfo (Some name) rid size false else dev).
Proof.
  intros Hi. unfold takeImage. rewrite Hi.
  destruct (Z.ltb_spec version MIN_SUPPORTED_SERVER); [exists false, dev; split; [done|]; split; intros; (split; [|lia || done]); split; intros; (done || lia)|].
  destruct (Z.eqb_spec rid 0); [exists false, dev; split; [done|]; split; intros; (split; [|naive_solver]); naive_solver|].
  destruct copy_data.
  - destruct (Z.ltb_spec size DNBD3_BLOCK_SIZE); [exists false, dev; split; [done|]; split; [done|]; intros; split; [split; [done|lia]|done]|].
    destruct (_ && negb realloc) eqn:E; [exists false; eexists; split; [done|]; split; [done|]; intros _ ->; by rewrite andb_false_r in E|].
    exists true. eexists. split; [done|]. split; [done|]. intros _ ->. done.
  - destruct (Z.eqb_spec rid (ii_rid dev)); cbn [negb]; [|exists false, dev; split; [done|]; split; [|done]; intros; split; [done|]; split; [done|tauto]].
    case_bool_decide; cbn [negb]; [|exists false, dev; split; [done|]; split; [|done]; intros; split; [done|]; split; [done|tauto]].
    destruct (Z.eqb_spec size (ii_size dev)); cbn [negb]; [|exists false, dev; split; [done|]; split; [|done]; intros; split; [done|]; split; [done|tauto]].
    exists true, dev. split; [done|]. split; [|done]. intros _. split; [done|]. tauto.
Qed.

(** The handshake of the kernel driver with a server that answers as [net.c] of the
    server does: it succeeds exactly if the server is recent enough and (when switching)
    offers the same image, revision and size, or (when opening the device) an image of at
    least one block; then the device has the server's name, revision and size.  Without
    [copy_data] the device is never changed. *)
Theorem kernel_handshake_correct buf sbuf dev imgname name rid size version old realloc copy_data :
  Z.of_nat (length buf) = MAX_PAYLOAD -> Z.of_nat (length sbuf) = MAX_PAYLOAD -> ii_name dev = Some imgname -> 0 ∉ imgname ->
  Z.of_nat (length imgname) <= 987 -> 0 ∉ name -> Z.of_nat (length name) <= 987 ->
  in_u16 (ii_rid dev) -> in_u16 rid -> in_u16 version -> in_u64 size ->
  let '(header, payload) := select_reply_payload sbuf version name rid size in
  exists ok dev', dnbd3_execute_handshake buf dev true copy_data realloc old (header ++ payload) = Ok (ok, version, dev')
    /\ (copy_data = false -> dev' = dev /\
          (ok = true <-> MIN_SUPPORTED_SERVER <= version /\ rid <> 0 /\ rid = ii_rid dev /\ name = imgname /\ size = ii_size dev))
    /\ (copy_data = true -> realloc = true ->
          (ok = true <-> MIN_SUPPORTED_SERVER <= version /\ rid <> 0 /\ DNBD3_BLOCK_SIZE <= size)
          /\ dev' = if ok then ImageInfo (Some name) rid size false else dev).
Proof.
  intros Hb Hsb Hi Hi0 Hil Hn0 Hnl Hdr Hr Hv Hs. rewrite select_reply_written by done. unfold dnbd3_execute_handshake, handshakeRequest. rewrite Hi.
  rewrite select_image_written by (done || lia). cbn [mbind result_bind negb].
  set (sent := select_payload imgname (ii_rid dev) 0 ++ _).
  assert (MAX_PAYLOAD = 1000) as Em by done.
  rewrite recv_bytes_app by apply length_encode_reply. rewrite length_encode_reply. cbn [negb Nat.eqb DNBD3_REPLY_SIZE].
  rewrite decode_encode_reply by (split; cbn [rp_magic rp_cmd rp_size rp_handle]; [by vm_compute|by vm_compute|crange|crange]).
  cbn [rp_magic rp_cmd rp_size]. rewrite !Z.eqb_refl. cbn [negb orb].
  pose proof (length_reply_payload name rid version size) as El.
  destruct (Z.ltb_spec (Z.of_nat (length name) + 13) 4); [lia|]. destruct (Z.ltb_spec PAYLOAD_SIZE (Z.of_nat (length name) + 13)); [unfold PAYLOAD_SIZE in *; lia|].
  cbn [orb]. rewrite recv_bytes_all by lia. rewrite El, Z.eqb_refl. cbn [negb]. rewrite (take_app_ge (reply_payload name rid version size)) by lia.
  rewrite reply_payload_read by done. by apply takeImage_spec.
Qed.
Lemma kernel_handshake_correct_witness :
  exists ok dev', dnbd3_execute_handshake (replicate 1000 7) (ImageInfo (Some [105; 109; 103]) 2 8192 true) true false true 0
      (let '(h, p) := select_reply_payload (replicate 1000 9) 3 [105; 109; 103] 2 8192 in h ++ p) = Ok (ok, 3, dev')
    /\ ok = true /\ dev' = ImageInfo (Some [105; 109; 103]) 2 8192 true.
Proof.
  pose proof (kernel_handshake_correct (replicate 1000 7) (replicate 1000 9) (ImageInfo (Some [105; 109; 103]) 2 8192 true) [105; 109; 103] [105; 109; 103]
    2 8192 3 0 true false) as H.
  do 11 (specialize (H ltac:(first [by vm_compute | by apply (bool_decide_eq_true_1 _) | cbn; lia | cbn; crange]))).
  destruct (select_reply_payload (replicate 1000 9) 3 [105; 109; 103] 2 8192) as [h p].
  destruct H as (ok & dev' & E & H & _). exists ok, dev'. split; [exact E|]. destruct (H eq_refl) as [H1 H2]. split; [|exact H1].
  apply H2. repeat split; (done || (cbn; lia) || (unfold MIN_SUPPORTED_SERVER; lia)).
Defined.
