(* ===== verification/KernelIoctl.v ===== *)
(** * KernelIoctl: opening, closing and switching a kernel block device
      ([src/kernel/blk.c], [src/kernel/net.c])

    [dnbd3_blk_ioctl] with everything it calls that changes the device: establishing a
    connection, disconnecting, and the server table.  The image name is a pointer to memory
    of the kernel heap, so that reallocating, freeing and losing it is visible.  What
    connecting to a server gives is an input for every attempt, counted from 0; so are the
    failures of the allocator. *)

From stdpp Require Export gmap.
From S2P Require Import Prelude Timing Types Helper AltServers Wire KernelServers KernelDiscover KernelNet.

Open Scope Z_scope.

Definition EBUSY : Z := 16.
Definition ENOTCONN : Z := 107.
Definition EAGAIN : Z := 11.
Definition EIO : Z := 5.
Definition ENOMEM : Z := 12.
Definition EPROTONOSUPPORT : Z := 93.

Record kdevice := KDevice {
  kx_heap : gmap Z (list Z);     (* names in memory *)
  kx_imgname : ptr;
  kx_rid : Z;
  kx_size : Z;
  kx_update : bool;
  kx_use_alts : bool;
  kx_sock : option Z;
  kx_cur : sockaddr;
  kx_version : Z;
  kx_alts : list kernel_alt;
  kx_panic : bool;
  kx_panic_count : Z;
  kx_lock : bool;
  kx_interval : Z;
  kx_count : Z;
  kx_wq : bool;                  (* the work queues exist *)
  kx_opened : list Z;            (* sockets opened and released so far *)
  kx_released : list Z;
}.
(** An attempt to connect. *)
Inductive conn_result :=
| CNoConnect (err : Z)
| CConnected (sock : Z) (reply : option (Z * option (list Z) * Z * Z))   (* version, name, revision, size *)
    (realloc : ptr)              (* where the name goes if it does not fit; [NULL]: no memory *)
    (wq : bool).                 (* whether the work queues can be allocated *)

(** ** Field updates *)

Definition x_image (heap : gmap Z (list Z)) (imgname : ptr) (rid size : Z) (update : bool) (d : kdevice) : kdevice :=
  KDevice heap imgname rid size update (kx_use_alts d) (kx_sock d) (kx_cur d) (kx_version d) (kx_alts d) (kx_panic d) (kx_panic_count d)
    (kx_lock d) (kx_interval d) (kx_count d) (kx_wq d) (kx_opened d) (kx_released d).
Definition x_size (size : Z) (d : kdevice) : kdevice := x_image (kx_heap d) (kx_imgname d) (kx_rid d) size (kx_update d) d.
Definition x_sock (sock : option Z) (cur : sockaddr) (version : Z) (released : list Z) (d : kdevice) : kdevice :=
  KDevice (kx_heap d) (kx_imgname d) (kx_rid d) (kx_size d) (kx_update d) (kx_use_alts d) sock cur version (kx_alts d) (kx_panic d) (kx_panic_count d)
    (kx_lock d) (kx_interval d) (kx_count d) (kx_wq d) (kx_opened d) released.
Definition x_ledger (opened released : list Z) (d : kdevice) : kdevice :=
  KDevice (kx_heap d) (kx_imgname d) (kx_rid d) (kx_size d) (kx_update d) (kx_use_alts d) (kx_sock d) (kx_cur d) (kx_version d) (kx_alts d) (kx_panic d)
    (kx_panic_count d) (kx_lock d) (kx_interval d) (kx_count d) (kx_wq d) opened released.
Definition x_sched (panic : bool) (panic_count interval count : Z) (d : kdevice) : kdevice :=
  KDevice (kx_heap d) (kx_imgname d) (kx_rid d) (kx_size d) (kx_update d) (kx_use_alts d) (kx_sock d) (kx_cur d) (kx_version d) (kx_alts d) panic panic_count
    (kx_lock d) interval count (kx_wq d) (kx_opened d) (kx_released d).
Definition x_flags (lock wq use_alts : bool) (alts : list kernel_alt) (d : kdevice) : kdevice :=
  KDevice (kx_heap d) (kx_imgname d) (kx_rid d) (kx_size d) (kx_update d) use_alts (kx_sock d) (kx_cur d) (kx_version d) alts (kx_panic d)
    (kx_panic_count d) lock (kx_interval d) (kx_count d) wq (kx_opened d) (kx_released d).
Definition x_alts (alts : list kernel_alt) (d : kdevice) : kdevice := x_flags (kx_lock d) (kx_wq d) (kx_use_alts d) alts d.
Definition x_active (d : kdevice) : bool := negb (kx_size d =? 0).

(** ** Connecting *)

(** [dnbd3_execute_handshake] on the device; the name is copied to the buffer, which is
    reallocated when it is too short. *)
Definition handshakeDevice (reply : option (Z * option (list Z) * Z * Z)) (realloc : ptr) (copy_data : bool) (d : kdevice) : result (bool * Z * kdevice) :=
  if kx_imgname d =? NULL then Fault NullDeref
  else
    match kx_heap d !! kx_imgname d with
    | None => Fault UseAfterFree
    | Some imgname =>
        match reply with
        | None => Ok (false, 0, d)
        | Some (version, name, rid, filesize) =>
            '(ok, info) ← takeImage copy_data (negb (realloc =? NULL)) (ImageInfo (Some imgname) (kx_rid d) (kx_size d) (kx_update d)) version name rid filesize;
            match ii_name info with
            | None => Ok ((ok : bool), version, x_image (kx_heap d) NULL (kx_rid d) (kx_size d) (kx_update d) d)   (* [krealloc] failed *)
            | Some new =>
                let '(heap, p) :=
                  if (length imgname <? length new)%nat then (<[realloc := new]> (delete (kx_imgname d) (kx_heap d)), realloc)
                  else (<[kx_imgname d := new]> (kx_heap d), kx_imgname d) in
                Ok (ok, version, x_image heap p (ii_rid info) (ii_size info) (ii_update info) d)
            end
        end
    end.
(** [replace_main_socket] and [dnbd3_set_primary_connection]. *)
Definition replaceSocket (sock : option Z) (cur : sockaddr) (version : Z) (d : kdevice) : kdevice :=
  x_sock sock cur version (kx_released d ++ option_list (kx_sock d)) d.
Definition setPrimary (sock : Z) (addr : sockaddr) (version : Z) (d : kdevice) : kdevice :=
  if (ss_family addr =? 0) || (kx_imgname d =? NULL) then d   (* the result is ignored and the socket forgotten *)
  else
    let d := replaceSocket (Some sock) addr version d in
    x_sched false 0 TIMER_INTERVAL_PROBE_SWITCH (kx_count d) d.
Definition dnbd3_new_connection (c : conn_result) (addr : sockaddr) (init : bool) (d : kdevice) : result (Z * kdevice) :=
  if init && x_active d then Ok (- EBUSY, d)
  else if negb init && negb (x_active d) then Ok (- ENOTCONN, d)
  else
    let fail ret d := Ok (if ret <? 0 then ret else - EIO, if init then x_size 0 d else d) in
    match c with
    | CNoConnect err => fail err d
    | CConnected sock reply realloc wq =>
        let d := x_ledger (kx_opened d ++ [sock]) (kx_released d) d in
        let release d := x_ledger (kx_opened d) (kx_released d ++ [sock]) d in
        '(ok, version, d) ← handshakeDevice reply realloc init d;
        if negb ok then fail (- EINVAL) (release d)
        else if init && negb wq then fail (- ENOMEM) (release d)
        else
          let d := if init then x_flags (kx_lock d) true (kx_use_alts d) (kx_alts d) d else d in
          let d := setPrimary sock addr version d in
          Ok (0, if init then x_sched (kx_panic d) (kx_panic_count d) TIMER_INTERVAL_PROBE_STARTUP 0 d else d)
    end.
(** [dnbd3_net_disconnect]; the requests are the subject of [KernelQueue]. *)
Definition dnbd3_net_disconnect (d : kdevice) : Z * kdevice :=
  if negb (x_active d) then (- ENOTCONN, d)
  else
    let d := x_size 0 d in
    let d := replaceSocket None (SockAddr 0 0 []) 0 d in
    (0, x_flags (kx_lock d) false (kx_use_alts d) (kx_alts d) d).
(** [kfree]; freeing [NULL] is allowed. *)
Definition kfree (p : ptr) (d : kdevice) : result kdevice :=
  if p =? NULL then Ok d
  else
    match kx_heap d !! p with
    | None => Fault UseAfterFree
    | Some _ => Ok (x_image (delete p (kx_heap d)) (kx_imgname d) (kx_rid d) (kx_size d) (kx_update d) d)
    end.
Definition dnbd3_close_device (d : kdevice) : result (Z * kdevice) :=
  let d := x_sched false (kx_panic_count d) (kx_interval d) (kx_count d) d in
  let '(res, d) := dnbd3_net_disconnect d in
  d ← kfree (kx_imgname d) d;
  Ok (res, x_image (kx_heap d) NULL (kx_rid d) (kx_size d) (kx_update d) d).

(** ** The ioctl *)

Record ioctl_msg := IoctlMsg {
  im_hosts : list dnbd3_host_t;
  im_hosts_num : Z;
  im_name : option (list Z);     (* the name, if there is one *)
  im_rid : Z;
  im_use_alts : bool;
}.
Inductive ioctl_arg :=
| ArgNone                        (* [arg == 0] *)
| ArgBad (err : Z)               (* it could not be copied; what was allocated is freed again *)
| ArgMsg (m : ioctl_msg) (p : ptr).   (* [p]: where the name is put *)
Inductive ioctl_cmd := IOCTL_OPEN | IOCTL_CLOSE | IOCTL_SWITCH | IOCTL_ADD_SRV | IOCTL_REM_SRV | BLKFLSBUF | IOCTL_OTHER.

Section Ioctl.
Context (conn : nat -> conn_result).

(** Connect to the servers in order; the result is the index of the first that works. *)
Fixpoint openLoop (slots : list nat) (res : Z) (d : kdevice) : result (Z * kdevice) :=
  match slots with
  | [] => Ok (res, d)
  | i :: slots =>
      match kx_alts d !! i with
      | None => openLoop slots res d
      | Some a =>
          if ss_family (ka_host a) =? 0 then openLoop slots res d
          else
            '(r, d) ← dnbd3_new_connection (conn i) (ka_host a) true d;
            if r =? 0 then Ok (Z.of_nat i, d) else openLoop slots r d
      end
  end.
Definition clearAlts (alts : list kernel_alt) : list kernel_alt := map clearFamily alts.
(** [IOCTL_OPEN] with the lock held; the second result is what [imgname] is at the end. *)
Definition ioctlOpen (msg : option ioctl_msg) (imgname : ptr) (d : kdevice) : result (Z * ptr * kdevice) :=
  if negb (kx_imgname d =? NULL) then Ok (- EBUSY, imgname, d)
  else if imgname =? NULL then Ok (- EINVAL, imgname, d)
  else
    match msg with
    | None => Ok (- EINVAL, imgname, d)
    | Some m =>
        if (im_hosts_num m <? 1) || (NUMBER_SERVERS <? im_hosts_num m) then Ok (- EINVAL, imgname, d)
        else
          let d := x_image (kx_heap d) imgname (u16 (im_rid m)) (kx_size d) (kx_update d) d in
          let d := x_flags (kx_lock d) (kx_wq d) (im_use_alts m) (clearAlts (kx_alts d)) d in
          let alts := foldl (fun alts h => (dnbd3_add_server alts h).2) (kx_alts d) (take (Z.to_nat (im_hosts_num m)) (im_hosts m)) in
          '(res, d) ← openLoop (seq 0 8) (- EPROTONOSUPPORT) (x_alts alts d);
          if 0 <=? res then Ok (res, NULL, d)
          else Ok (res, imgname, x_image (kx_heap d) NULL (kx_rid d) (kx_size d) (kx_update d) d)
    end.
(** Make the server look fast and the others slow, "so we don't switch away again soon". *)
Definition fakeRtt (addr : sockaddr) (a : kernel_alt) : kernel_alt :=
  if is_same_server (ka_host a) addr then KAlt [1; 1; 1; 1] (ka_version a) (ka_failures a) 100 (ka_host a)
  else KAlt (map (fun t => if t <? 500000 then 500000 else t) (ka_rtts a)) (ka_version a) (ka_failures a) 0 (ka_host a).
Definition ioctlSwitch (msg : option ioctl_msg) (d : kdevice) : result (Z * kdevice) :=
  if kx_imgname d =? NULL then Ok (- ENOTCONN, d)
  else
    match msg with
    | None => Ok (- EINVAL, d)
    | Some m =>
        host ← aget (im_hosts m) 0;
        match get_existing_alt_from_host host (kx_alts d) with
        | None => Ok (- ENOENT, d)
        | Some i =>
            match kx_alts d !! i with
            | None => Fault OutOfBounds
            | Some a =>
                let addr := ka_host a in
                '(r, d) ← (if is_same_server (kx_cur d) addr then Ok (0, d)
                           else '(r, d) ← dnbd3_new_connection (conn i) addr false d;
                                Ok (if negb (r =? 0) then - EAGAIN else 0, d));
                Ok (r, if r =? 0 then x_alts (map (fakeRtt addr) (kx_alts d)) d else d)
            end
        end
    end.
Definition ioctlServers (add : bool) (msg : option ioctl_msg) (d : kdevice) : result (Z * kdevice) :=
  if kx_imgname d =? NULL then Ok (- ENOTCONN, d)
  else
    match msg with
    | None => Ok (- EINVAL, d)
    | Some m =>
        host ← aget (im_hosts m) 0;
        match dnbd3_host_to_sockaddr host with
        | None => Ok (- EINVAL, d)
        | Some _ =>
            let '(r, alts) := if add then dnbd3_add_server (kx_alts d) host else dnbd3_rem_server (kx_alts d) host in
            Ok (r, x_alts alts d)
        end
    end.
Definition x_lock (lock : bool) (d : kdevice) : kdevice := x_flags lock (kx_wq d) (kx_use_alts d) (kx_alts d) d.
(** Run [body] with the connection lock, or say that the device is busy. *)
Definition withLock (body : kdevice -> result (Z * ptr * kdevice)) (imgname : ptr) (d : kdevice) : result (Z * ptr * kdevice) :=
  if kx_lock d then Ok (- EBUSY, imgname, d)
  else '(r, imgname, d) ← body (x_lock true d); Ok (r, imgname, x_lock false d).
Definition dnbd3_blk_ioctl (cmd : ioctl_cmd) (arg : ioctl_arg) (d : kdevice) : result (Z * kdevice) :=
  match arg with
  | ArgBad err => Ok (err, d)
  | _ =>
      let '(msg, imgname, d) :=
        match arg with
        | ArgMsg m p =>
            match im_name m with
            | Some name => (Some m, p, x_image (<[p := name]> (kx_heap d)) (kx_imgname d) (kx_rid d) (kx_size d) (kx_update d) d)
            | None => (Some m, NULL, d)
            end
        | _ => (None, NULL, d)
        end in
      '(r, imgname, d) ←
        (match cmd with
         | IOCTL_OPEN => withLock (ioctlOpen msg imgname) imgname d
         | IOCTL_CLOSE => withLock (fun d => '(r, d) ← dnbd3_close_device d; Ok (r, imgname, d)) imgname d
         | IOCTL_SWITCH => withLock (fun d => '(r, d) ← ioctlSwitch msg d; Ok (r, imgname, d)) imgname d
         | IOCTL_ADD_SRV => '(r, d) ← ioctlServers true msg d; Ok (r, imgname, d)
         | IOCTL_REM_SRV => '(r, d) ← ioctlServers false msg d; Ok (r, imgname, d)
         | BLKFLSBUF => Ok (0, imgname, d)
         | IOCTL_OTHER => Ok (- EIO, imgname, d)
         end);
      d ← kfree imgname d;
      Ok (r, d)
  end.
End Ioctl.

(** * The device stays consistent *)

(** The names in memory are the device's and, inside the ioctl, the one from the caller. *)
Definition heap_ok (extra : ptr) (d : kdevice) : Prop :=
  forall p, is_Some (kx_heap d !! p) <-> p <> NULL /\ (p = kx_imgname d \/ p = extra).
(** In use: image name, size, connection and work queues are there; or nothing is. *)
Record in_use (d : kdevice) : Prop := InUse {
  iu_name : kx_imgname d <> NULL; iu_size : 0 < kx_size d; iu_sock : is_Some (kx_sock d); iu_wq : kx_wq d = true;
}.
Record not_in_use (d : kdevice) : Prop := NotInUse {
  nu_name : kx_imgname d = NULL; nu_size : kx_size d = 0; nu_sock : kx_sock d = None; nu_wq : kx_wq d = false;
}.
Record kx_inv (d : kdevice) : Prop := KxInv {
  xi_state : in_use d \/ not_in_use d;
  xi_heap : heap_ok NULL d;
  xi_table : ktable_ok (kx_alts d);
  xi_sockets : kx_opened d ≡ₚ kx_released d ++ option_list (kx_sock d);
}.
(** There is memory, and sizes are unsigned. *)
Definition conn_ok (c : conn_result) : Prop :=
  match c with
  | CNoConnect _ => True
  | CConnected _ reply realloc wq => realloc <> NULL /\ wq = true /\ match reply with Some (_, _, _, size) => 0 <= size | None => True end
  end.
Definition arg_ok (arg : ioctl_arg) (d : kdevice) : Prop :=
  match arg with
  | ArgMsg m p => p <> NULL /\ kx_heap d !! p = None /\ length (im_hosts m) = 8%nat
  | ArgBad err => err < 0
  | ArgNone => True
  end.

(** Only sockets that were opened and released again tell the devices apart. *)
Definition same_but_sockets (d d' : kdevice) : Prop := exists l, d' = x_ledger (kx_opened d ++ l) (kx_released d ++ l) d.
Lemma sockets_refl d : same_but_sockets d d.
Proof. exists []. rewrite !app_nil_r. by destruct d. Qed.
Lemma sockets_trans d1 d2 d3 : same_but_sockets d1 d2 -> same_but_sockets d2 d3 -> same_but_sockets d1 d3.
Proof. intros [l1 ->] [l2 ->]. exists (l1 ++ l2). cbn. by rewrite !app_assoc. Qed.

(** Connecting when the device is opened. *)
Record opened_ok (addr : sockaddr) (d d' : kdevice) : Prop := OpenedOk {
  oo_use : in_use d';
  oo_heap : (forall p, is_Some (kx_heap d !! p) -> p = kx_imgname d) -> heap_ok NULL d';
  oo_alts : kx_alts d' = kx_alts d;
  oo_cur : kx_cur d' = addr;
  oo_lock : kx_lock d' = kx_lock d;
  oo_sockets : kx_opened d ≡ₚ kx_released d ++ option_list (kx_sock d) -> kx_opened d' ≡ₚ kx_released d' ++ option_list (kx_sock d');
}.
Record opening (d : kdevice) : Prop := Opening {
  op_name : kx_imgname d <> NULL; op_heap : is_Some (kx_heap d !! kx_imgname d); op_size : kx_size d = 0; op_sock : kx_sock d = None;
}.
Lemma takeImage_copy realloc info imgname version name rid size :
  realloc = true -> ii_name info = Some imgname ->
  exists ok info', takeImage true realloc info version name rid size = Ok (ok, info')
    /\ ((ok = false /\ info' = info) \/ (ok = true /\ exists new, info' = ImageInfo (Some new) rid size false /\ DNBD3_BLOCK_SIZE <= size)).
Proof.
  intros -> Hi. unfold takeImage. rewrite Hi.
  destruct (version <? MIN_SUPPORTED_SERVER); [exists false, info; auto|]. destruct name as [new|]; [|exists false, info; auto].
  destruct (rid =? 0); [exists false, info; auto|]. destruct (Z.ltb_spec size DNBD3_BLOCK_SIZE); [exists false, info; auto|].
  rewrite andb_false_r. eexists true, _. split; [done|]. right. split; [done|]. by exists new.
Qed.
Lemma handshakeDevice_copy reply realloc d :
  opening d -> realloc <> NULL ->
  exists ok version d', handshakeDevice reply realloc true d = Ok (ok, version, d')
    /\ ((ok = false /\ d' = d)
        \/ (ok = true /\ exists heap p rid size, d' = x_image heap p rid size false d /\ p <> NULL /\ 0 < size
              /\ ((forall q, is_Some (kx_heap d !! q) -> q = kx_imgname d) -> forall q, is_Some (heap !! q) <-> q = p))).
Proof.
  intros [Hn [imgname Hh] _ _] Hr. unfold handshakeDevice. rewrite (proj2 (Z.eqb_neq _ _) Hn), Hh.
  destruct reply as [[[[version name] rid] size]|]; [|exists false, 0, d; auto].
  destruct (takeImage_copy (negb (realloc =? NULL)) (ImageInfo (Some imgname) (kx_rid d) (kx_size d) (kx_update d)) imgname version name rid size)
    as (ok & info & -> & Hcase); [by rewrite (proj2 (Z.eqb_neq _ _) Hr)|done|]. cbn [mbind result_bind].
  destruct Hcase as [[-> ->]|(-> & new & -> & Hs)]; cbn [ii_name ii_rid ii_size ii_update].
  - rewrite (proj2 (Nat.ltb_ge _ _) (Nat.le_refl _)). exists false, version, d. split; [|auto]. rewrite insert_id by done. by destruct d.
  - destruct (length imgname <? length new)%nat; eexists true, version, _; (split; [reflexivity|]); right; (split; [done|]); do 4 eexists;
      (split; [reflexivity|]); unfold DNBD3_BLOCK_SIZE in Hs; (split; [done|]); (split; [lia|]); intros Hq q.
    + destruct (decide (q = realloc)) as [->|Hne]; [rewrite lookup_insert_eq; split; [done|by eexists]|]. rewrite lookup_insert_ne by done. split; [|done].
      intros Hx. exfalso. destruct (decide (q = kx_imgname d)) as [->|Hne2]; [rewrite lookup_delete_eq in Hx; by destruct Hx|].
      rewrite lookup_delete_ne in Hx by done. by apply Hne2, Hq.
    + destruct (decide (q = kx_imgname d)) as [->|Hne]; [rewrite lookup_insert_eq; split; [done|by eexists]|]. rewrite lookup_insert_ne by done.
      split; [apply Hq|done].
Qed.
Lemma new_connection_init c addr d :
  opening d -> conn_ok c -> ss_family addr <> 0 ->
  exists r d', dnbd3_new_connection c addr true d = Ok (r, d')
    /\ ((r = 0 /\ opened_ok addr d d') \/ (r < 0 /\ same_but_sockets d d')).
Proof.
  intros Hop Hc Ha. pose proof Hop as [Hn Hh Hs Hk]. unfold dnbd3_new_connection, x_active. rewrite Hs. cbn [negb andb Z.eqb].
  assert (forall l, x_size 0 (x_ledger (kx_opened d ++ l) (kx_released d ++ l) d) = x_ledger (kx_opened d ++ l) (kx_released d ++ l) d) as Hsz
    by (intros l; destruct d; cbn in Hs |- *; by subst).
  destruct c as [err|sock reply realloc wq].
  - eexists _, _. split; [done|]. right. split; [destruct (Z.ltb_spec err 0); unfold EIO; lia|].
    exists []. rewrite <- Hsz. rewrite !app_nil_r. by destruct d.
  - destruct Hc as (Hr & -> & _). set (d1 := x_ledger _ _ d).
    destruct (handshakeDevice_copy reply realloc d1) as (ok & version & d2 & E & Hcase); [by split|done|]. rewrite E. cbn [mbind result_bind].
    destruct Hcase as [[-> ->]|(-> & heap & p & rid & size & -> & Hp & Hsize & Hheap)]; cbn [negb andb].
    + eexists _, _. split; [done|]. right. split; [done|]. exists [sock]. apply Hsz.
    + eexists _, _. split; [done|]. left. split; [done|]. unfold setPrimary. cbn [x_flags x_image d1 x_ledger kx_imgname].
      rewrite (proj2 (Z.eqb_neq _ _) Ha), (proj2 (Z.eqb_neq _ _) Hp). cbn [orb]. split; cbn; try done.
      * intros Hq q. cbn. rewrite (Hheap Hq). split; [intros ->; split; [done|by left]|]. intros [Hne [->| ->]]; done.
      * rewrite Hk. cbn. rewrite !app_nil_r. by intros ->.
Qed.
Lemma openLoop_ok conn slots : forall res d,
  opening d -> (forall i, conn_ok (conn i)) -> res < 0 ->
  exists r d', openLoop conn slots res d = Ok (r, d')
    /\ ((exists i a, r = Z.of_nat i /\ i ∈ slots /\ kx_alts d !! i = Some a /\ ss_family (ka_host a) <> 0
           /\ exists d1, same_but_sockets d d1 /\ opened_ok (ka_host a) d1 d')
        \/ (r < 0 /\ same_but_sockets d d')).
Proof.
  induction slots as [|i slots IH]; intros res d Hop Hc Hr; cbn [openLoop].
  { exists res, d. split; [done|]. right. split; [done|apply sockets_refl]. }
  assert (forall res d1, res < 0 -> same_but_sockets d d1 ->
    exists r d', openLoop conn slots res d1 = Ok (r, d')
      /\ ((exists k a, r = Z.of_nat k /\ k ∈ i :: slots /\ kx_alts d !! k = Some a /\ ss_family (ka_host a) <> 0
           /\ exists d1, same_but_sockets d d1 /\ opened_ok (ka_host a) d1 d')
        \/ (r < 0 /\ same_but_sockets d d'))) as Hgo.
  { intros res' d1 Hr' Hs. assert (kx_alts d1 = kx_alts d) as Ealts by (by destruct Hs as [l ->]).
    destruct (IH res' d1) as (r & d' & E & Hcase); [destruct Hs as [l ->]; destruct Hop; by split|done|done|].
    exists r, d'. split; [done|]. destruct Hcase as [(k & a & -> & Hk & Ha & Hf & d2 & Hd2 & Ho)|[Hneg Hs2]].
    - left. exists k, a. rewrite <- Ealts. split_and!; try done; [by apply elem_of_cons; right|]. exists d2. split; [by eapply sockets_trans|done].
    - right. split; [done|by eapply sockets_trans]. }
  destruct (kx_alts d !! i) as [a|] eqn:Ea; [|apply Hgo; [done|apply sockets_refl]].
  destruct (Z.eqb_spec (ss_family (ka_host a)) 0) as [E|E]; [apply Hgo; [done|apply sockets_refl]|].
  destruct (new_connection_init (conn i) (ka_host a) d Hop (Hc i) E) as (r & d' & -> & Hcase). cbn [mbind result_bind].
  destruct Hcase as [[-> Ho]|[Hneg Hs]].
  - cbn [Z.eqb]. exists (Z.of_nat i), d'. split; [done|]. left. exists i, a. split_and!; try done; [by constructor|]. exists d. split; [apply sockets_refl|done].
  - rewrite (proj2 (Z.eqb_neq r 0)) by lia. by apply Hgo.
Qed.

(** ** The single commands, with the lock held and the caller's name [p] in memory *)

Record mid_inv (p : ptr) (d : kdevice) : Prop := MidInv {
  mi_state : in_use d \/ not_in_use d;
  mi_heap : heap_ok p d;
  mi_table : ktable_ok (kx_alts d);
  mi_sockets : kx_opened d ≡ₚ kx_released d ++ option_list (kx_sock d);
}.
Lemma foldl_add_ok hosts : forall alts, ktable_ok alts -> ktable_ok (foldl (fun alts h => (dnbd3_add_server alts h).2) alts hosts).
Proof.
  induction hosts as [|h hosts IH]; intros alts Hok; cbn [foldl]; [done|]. apply IH.
  destruct (dnbd3_host_to_sockaddr h) as [addr|] eqn:E.
  - pose proof (add_server_spec alts h addr Hok E) as H. destruct (dnbd3_add_server alts h). apply H.
  - unfold dnbd3_add_server. unfold dnbd3_host_to_sockaddr in E. destruct (_ =? HOST_IP4); [done|]. by destruct (_ =? HOST_IP6).
Qed.
Lemma clearAlts_ok alts : ktable_ok alts -> ktable_ok (clearAlts alts).
Proof.
  intros [Hl He Hd]. split; [unfold clearAlts; by rewrite length_map| |].
  - unfold clearAlts. apply List.Forall_map. eapply list.Forall_impl; [done|]. intros a Ha. by apply clearFamily_ok.
  - assert (filter kused (khosts (clearAlts alts)) = []) as ->; [|apply NoDup_nil_2]. clear. unfold clearAlts, khosts.
    induction alts as [|a alts IH]; [done|]. cbn [map fmap list_fmap]. rewrite filter_cons_False; [done|]. unfold kused, AF_INET, AF_INET6. cbn. lia.
Qed.
Lemma ioctlOpen_ok conn msg p d :
  mid_inv p d -> (forall i, conn_ok (conn i)) ->
  exists r p' d', ioctlOpen conn msg p d = Ok (r, p', d') /\ mid_inv p' d' /\ kx_lock d' = kx_lock d
    /\ (kx_imgname d <> p \/ p = NULL -> p' <> kx_imgname d' \/ p' = NULL)
    /\ (0 <= r -> not_in_use d /\ in_use d' /\ exists i a, r = Z.of_nat i /\ kx_alts d' !! i = Some a /\ kx_cur d' = ka_host a).
Proof.
  intros Hm Hc. pose proof Hm as [Hst Hh Ht Hs]. unfold ioctlOpen.
  destruct (Z.eqb_spec (kx_imgname d) NULL) as [E|E]; cbn [negb].
  2:{ exists (- EBUSY), p, d. split_and!; auto; [naive_solver|]. unfold EBUSY. lia. }
  assert (exists r p' d', Ok (- EINVAL, p, d) = Ok (r, p', d') /\ mid_inv p' d' /\ kx_lock d' = kx_lock d
    /\ (kx_imgname d <> p \/ p = NULL -> p' <> kx_imgname d' \/ p' = NULL)
    /\ (0 <= r -> not_in_use d /\ in_use d' /\ exists i a, r = Z.of_nat i /\ kx_alts d' !! i = Some a /\ kx_cur d' = ka_host a)) as Hinval.
  { exists (- EINVAL), p, d. split_and!; auto; [naive_solver|]. unfold EINVAL. lia. }
  destruct (Z.eqb_spec p NULL) as [Ep|Ep]; [done|]. destruct msg as [m|]; [|done]. destruct (_ || _); [done|].
  destruct Hst as [[Hx _ _ _]|Hnu]; [done|]. pose proof Hnu as [N1 N2 N3 N4]. cbv zeta.
  set (d0 := x_alts _ _). assert (opening d0) as Hop.
  { split; cbn; [done| |done|done]. apply Hh. split; [done|by right]. }
  assert (ktable_ok (kx_alts d0)) as Ht0 by (cbn; apply foldl_add_ok, clearAlts_ok, Ht).
  assert (forall q, is_Some (kx_heap d !! q) <-> q = p) as Hheap0.
  { intros q. rewrite (Hh q), N1. split; [by intros [? [?|?]]|]. intros ->. split; [done|by right]. }
  destruct (openLoop_ok conn (seq 0 8) (- EPROTONOSUPPORT) d0 Hop Hc ltac:(unfold EPROTONOSUPPORT; lia)) as (r & d' & -> & Hcase). cbn [mbind result_bind].
  destruct Hcase as [(i & a & -> & _ & Ha & _ & d1 & [l ->] & Ho)|[Hneg [l ->]]].
  - rewrite (proj2 (Z.leb_le 0 _)) by lia. exists (Z.of_nat i), NULL, d'. destruct Ho as [O1 O2 O3 O4 O5 O6]. split_and!; [done| |by rewrite O5|by right|].
    + split; [by left| | |]; [|by rewrite O3|].
      * intros q. apply O2. intros x Hx. by apply Hheap0.
      * apply O6. cbn. rewrite Hs. solve_Permutation.
    + intros _. split; [done|]. split; [done|]. exists i, a. by rewrite O3.
  - rewrite (proj2 (Z.leb_gt 0 _)) by lia. eexists r, p, _. split_and!; [done| |done|by left|lia].
    split; cbn; [right; by split| |done|].
    + intros q. cbn. rewrite (Hheap0 q). split; [intros ->; split; [done|by right]|]. by intros [? [->| ->]].
    + rewrite Hs. solve_Permutation.
Qed.
(** Freeing a name that is there and is not the device's. *)
Lemma kfree_ok p d : mid_inv p d -> p <> kx_imgname d \/ p = NULL -> exists d', kfree p d = Ok d' /\ kx_inv d' /\ kx_lock d' = kx_lock d
  /\ d' = x_image (delete p (kx_heap d)) (kx_imgname d) (kx_rid d) (kx_size d) (kx_update d) d.
Proof.
  intros [H1 H2 H3 H4] Hp. unfold kfree. destruct (Z.eqb_spec p NULL) as [->|Hne].
  - assert (kx_heap d !! NULL = None) as Hnone by (destruct (kx_heap d !! NULL) eqn:E; [|done]; destruct (proj1 (H2 NULL)); [by rewrite E|done]).
    exists d. rewrite delete_id by done. split; [done|]. split; [by split|]. split; [done|by destruct d].
  - destruct Hp as [Hp|]; [|done]. destruct (proj2 (H2 p)) as [x ->]; [split; [done|by right]|]. eexists. split; [done|]. split; [|done].
    split; cbn; [destruct H1 as [[A B C D]|[A B C D]]; [left|right]; by split| |done|done].
    intros q. cbn. destruct (decide (q = p)) as [->|Hq].
    + rewrite lookup_delete_eq. split; [by intros [? ?]|]. by intros [_ [?|?]].
    + rewrite lookup_delete_ne by done. rewrite (H2 q). split; intros [? [?|?]]; (split; [done|]); auto; done.
Qed.
Lemma close_ok p d :
  mid_inv p d -> kx_imgname d <> p \/ p = NULL ->
  exists r d', dnbd3_close_device d = Ok (r, d') /\ mid_inv p d' /\ not_in_use d' /\ kx_lock d' = kx_lock d /\ (r = 0 <-> in_use d) /\ r <= 0.
Proof.
  intros [H1 H2 H3 H4] Hp. unfold dnbd3_close_device, dnbd3_net_disconnect. cbv zeta.
  destruct H1 as [Hu|Hu]; pose proof Hu as [U1 U2 U3 U4].
  - unfold x_active at 1. cbn [x_sched kx_size]. rewrite (proj2 (Z.eqb_neq (kx_size d) 0)) by lia. cbn [negb].
    unfold kfree. cbn. rewrite (proj2 (Z.eqb_neq _ _) U1). destruct (proj2 (H2 (kx_imgname d))) as [x ->]; [split; [done|by left]|]. cbn [mbind result_bind].
    eexists 0, _. split; [done|]. split_and!; [|by split|done|by split|done]. split; cbn; [right; by split| |done|].
    + intros q. cbn. destruct (decide (q = kx_imgname d)) as [->|Hq].
      * rewrite lookup_delete_eq. split; [by intros [? ?]|]. intros [_ [?|?]]; [done|]. destruct Hp; [done|congruence].
      * rewrite lookup_delete_ne by done. rewrite (H2 q). split; intros [? [?|?]]; (split; [done|]); auto; done.
    + rewrite H4, app_nil_r. done.
  - unfold x_active at 1. cbn [x_sched kx_size]. rewrite U2. cbn [negb Z.eqb]. unfold kfree. cbn. rewrite U1. cbn [Z.eqb NULL mbind result_bind].
    eexists (- ENOTCONN), _. split; [done|]. split_and!; [|by split|done| |done].
    + split; cbn; [right; by split| |done|by rewrite U3 in H4 |- *]. intros q. cbn. by rewrite (H2 q), U1.
    + split; [done|]. intros [? ? ? ?]. congruence.
Qed.
Lemma handshakeDevice_check reply realloc d :
  kx_imgname d <> NULL -> is_Some (kx_heap d !! kx_imgname d) ->
  exists ok version, handshakeDevice reply realloc false d = Ok (ok, version, d).
Proof.
  intros Hn [imgname Hh]. unfold handshakeDevice. rewrite (proj2 (Z.eqb_neq _ _) Hn), Hh. destruct reply as [[[[version name] rid] size]|]; [|by exists false, 0].
  assert (exists ok, takeImage false (negb (realloc =? NULL)) (ImageInfo (Some imgname) (kx_rid d) (kx_size d) (kx_update d)) version name rid size
    = Ok (ok, ImageInfo (Some imgname) (kx_rid d) (kx_size d) (kx_update d))) as [ok ->].
  { unfold takeImage. cbn [ii_name ii_rid ii_size ii_update]. repeat (case_match; [by eexists|]); (destruct name; [|by eexists]); repeat case_match; by eexists. }
  cbn [mbind result_bind ii_name]. rewrite (proj2 (Nat.ltb_ge _ _) (Nat.le_refl _)). exists ok, version. rewrite insert_id by done. by destruct d.
Qed.
Lemma fakeRtt_ok addr a : kalt_ok a -> kalt_ok (fakeRtt addr a) /\ ka_host (fakeRtt addr a) = ka_host a.
Proof.
  intros [H1 H2 H3 H4 H5]. unfold fakeRtt. destruct (is_same_server _ _); (split; [|done]); split; cbn; try done; try lia.
  - unfold MAX_TIME. repeat (constructor; [lia|]). constructor.
  - by rewrite length_map.
  - apply List.Forall_map. eapply list.Forall_impl; [exact H2|]. intros t Ht. cbv beta in *. unfold MAX_TIME in *. destruct (Z.ltb_spec t 500000); lia.
Qed.
Lemma map_table_ok f alts : ktable_ok alts -> (forall a, kalt_ok a -> kalt_ok (f a) /\ ka_host (f a) = ka_host a) -> ktable_ok (map f alts).
Proof.
  intros [H1 H2 H3] Hf. split; [by rewrite length_map| |].
  - apply List.Forall_map. eapply list.Forall_impl; [exact H2|]. intros a Ha. by apply Hf.
  - assert (khosts (map f alts) = khosts alts) as ->; [|done]. clear H1 H3. induction H2 as [|a l Ha _ IH]; [done|]. cbn. rewrite (proj2 (Hf a Ha)). f_equal. exact IH.
Qed.
Lemma same_mid p d d' : same_but_sockets d d' -> mid_inv p d -> mid_inv p d'.
Proof.
  intros [l ->] [H1 H2 H3 H4]. split; cbn; [destruct H1 as [[A B C D]|[A B C D]]; [left|right]; by split|done|done|]. rewrite H4. solve_Permutation.
Qed.
Lemma new_connection_switch c addr p d :
  mid_inv p d -> in_use d -> conn_ok c -> ss_family addr <> 0 ->
  exists r d', dnbd3_new_connection c addr false d = Ok (r, d') /\ mid_inv p d' /\ kx_lock d' = kx_lock d
    /\ kx_alts d' = kx_alts d /\ kx_imgname d' = kx_imgname d /\ r <= 0 /\ (r = 0 -> kx_cur d' = addr) /\ (r <> 0 -> same_but_sockets d d').
Proof.
  intros Hm Hu Hc Ha. pose proof Hu as [U1 U2 U3 U4]. unfold dnbd3_new_connection, x_active. rewrite (proj2 (Z.eqb_neq (kx_size d) 0)) by lia. cbn [negb andb].
  assert (forall r l, r < 0 -> exists r' d', Ok (if r <? 0 then r else - EIO, x_ledger (kx_opened d ++ l) (kx_released d ++ l) d) = Ok (r', d')
    /\ mid_inv p d' /\ kx_lock d' = kx_lock d /\ kx_alts d' = kx_alts d /\ kx_imgname d' = kx_imgname d /\ r' <= 0 /\ (r' = 0 -> kx_cur d' = addr)
    /\ (r' <> 0 -> same_but_sockets d d')) as Hfail.
  { intros r l Hr. rewrite (proj2 (Z.ltb_lt r 0) Hr). eexists r, _. split; [done|]. split_and!; try done; [|lia|lia|intros _; by exists l].
    apply (same_mid p d); [by exists l|done]. }
  destruct c as [err|sock reply realloc wq].
  - destruct (Hfail (if err <? 0 then err else - EIO) []) as (r & d' & E & H); [destruct (Z.ltb_spec err 0); unfold EIO; lia|].
    exists r, d'. split; [|done]. rewrite <- E, !app_nil_r. destruct (Z.ltb_spec err 0) as [Hx|Hx]; [rewrite (proj2 (Z.ltb_lt _ _) Hx)|]; by destruct d.
  - pose proof Hm as [_ Hh _ _]. destruct (handshakeDevice_check reply realloc (x_ledger (kx_opened d ++ [sock]) (kx_released d) d) U1) as (ok & version & ->).
    { apply Hh. split; [done|by left]. }
    cbn [mbind result_bind]. destruct ok; cbn [negb andb]; [|apply (Hfail (- EINVAL) [sock]); done].
    eexists _, _. split; [done|]. unfold setPrimary. cbn [x_ledger kx_imgname].
    rewrite (proj2 (Z.eqb_neq _ _) Ha), (proj2 (Z.eqb_neq _ _) U1). cbn [orb]. split_and!; try done. destruct Hm as [M1 M2 M3 M4].
    split; cbn; [left; split; cbn; try done; by eexists|done|done|]. rewrite M4. solve_Permutation.
Qed.
Lemma ioctlSwitch_ok conn msg p d :
  mid_inv p d -> (forall i, conn_ok (conn i)) -> (forall m, msg = Some m -> length (im_hosts m) = 8%nat) ->
  exists r d', ioctlSwitch conn msg d = Ok (r, d') /\ mid_inv p d' /\ kx_lock d' = kx_lock d /\ kx_imgname d' = kx_imgname d /\ r <= 0.
Proof.
  intros Hm Hc Hh. unfold ioctlSwitch. destruct (Z.eqb_spec (kx_imgname d) NULL) as [E|E]; [exists (- ENOTCONN), d; by split_and!|].
  destruct msg as [m|]; [|exists (- EINVAL), d; by split_and!]. specialize (Hh m eq_refl).
  destruct (lookup_lt_is_Some_2 (im_hosts m) 0 ltac:(lia)) as [host Eh]. rewrite (aget_ok _ 0 host) by done. cbn [mbind result_bind].
  destruct (get_existing_alt_from_host host (kx_alts d)) as [i|] eqn:Ei; [|exists (- ENOENT), d; by split_and!].
  assert (exists a, kx_alts d !! i = Some a /\ kused (ka_host a)) as (a & Ea & Hu).
  { unfold get_existing_alt_from_host in Ei. destruct (dnbd3_host_to_sockaddr host) as [addr|] eqn:E2; [|done].
    apply firstSlot_Some in Ei as (a & Ha & [Heq Hk]%is_same_server_eq). exists a. split; [done|]. by rewrite <- Heq. }
  rewrite Ea. cbv zeta. assert (in_use d) as Huse by (destruct (mi_state _ _ Hm) as [|[? ? ? ?]]; [done|congruence]).
  assert (exists r d', (if is_same_server (kx_cur d) (ka_host a) then Ok (0, d)
      else '(r, d) ← dnbd3_new_connection (conn i) (ka_host a) false d; Ok (if negb (r =? 0) then - EAGAIN else 0, d)) = Ok (r, d')
    /\ mid_inv p d' /\ kx_lock d' = kx_lock d /\ kx_imgname d' = kx_imgname d /\ r <= 0) as (r & d' & -> & Hm' & Hl & Hi & Hr).
  { destruct (is_same_server _ _); [exists 0, d; by split_and!|].
    destruct (new_connection_switch (conn i) (ka_host a) p d Hm Huse (Hc i)) as (r & d' & -> & Hm' & Hl & _ & Hi & Hr & _).
    { unfold kused, AF_INET, AF_INET6 in Hu. lia. }
    cbn [mbind result_bind]. eexists _, d'. split; [done|]. split_and!; try done. destruct (r =? 0); cbn; [lia|unfold EAGAIN; lia]. }
  cbn [mbind result_bind]. eexists r, _. split; [done|]. destruct (r =? 0); [|done]. cbn. split_and!; try done.
  destruct Hm' as [M1 M2 M3 M4]. split; cbn; [destruct M1 as [[A B C D]|[A B C D]]; [left|right]; by split|done| |done].
  apply map_table_ok; [done|]. intros b Hb. by apply fakeRtt_ok.
Qed.
Lemma ioctlServers_ok add msg p d :
  mid_inv p d -> (forall m, msg = Some m -> length (im_hosts m) = 8%nat) ->
  exists r d', ioctlServers add msg d = Ok (r, d') /\ mid_inv p d' /\ kx_lock d' = kx_lock d /\ kx_imgname d' = kx_imgname d.
Proof.
  intros Hm Hh. unfold ioctlServers. destruct (kx_imgname d =? NULL); [eexists _, d; by split_and!|].
  destruct msg as [m|]; [|eexists _, d; by split_and!]. specialize (Hh m eq_refl).
  destruct (lookup_lt_is_Some_2 (im_hosts m) 0 ltac:(lia)) as [host Eh]. rewrite (aget_ok _ 0 host) by done. cbn [mbind result_bind].
  destruct (dnbd3_host_to_sockaddr host) as [addr|] eqn:Ea; [|eexists _, d; by split_and!].
  destruct Hm as [M1 M2 M3 M4]. pose proof (add_server_spec _ _ _ M3 Ea) as H1. pose proof (rem_server_spec _ _ _ M3 Ea) as H2.
  assert (forall alts, ktable_ok alts -> mid_inv p (x_alts alts d) /\ kx_lock (x_alts alts d) = kx_lock d /\ kx_imgname (x_alts alts d) = kx_imgname d) as Hk.
  { intros alts Ht. split_and!; try done. split; cbn; [destruct M1 as [[A B C D]|[A B C D]]; [left|right]; by split|done|done|done]. }
  destruct add; [destruct (dnbd3_add_server (kx_alts d) host) as [r alts]; destruct H1 as [Ht _]
                |destruct (dnbd3_rem_server (kx_alts d) host) as [r alts]; destruct H2 as [Ht _]];
    eexists r, _; (split; [done|]); by apply Hk.
Qed.

(** ** The ioctl as a whole *)

Lemma x_lock_mid lock p d : mid_inv p d -> mid_inv p (x_lock lock d).
Proof. intros [H1 H2 H3 H4]. split; cbn; [destruct H1 as [[A B C D]|[A B C D]]; [left|right]; by split|done|done|done]. Qed.
(** What a command promises about the device. *)
Definition ioctl_post (cmd : ioctl_cmd) (r : Z) (d : kdevice) : Prop :=
  match cmd with
  | IOCTL_OPEN => 0 <= r -> in_use d /\ exists i a, r = Z.of_nat i /\ kx_alts d !! i = Some a /\ kx_cur d = ka_host a
  | IOCTL_CLOSE => not_in_use d
  | _ => True
  end.
Lemma ioctl_post_lock cmd r lock d : ioctl_post cmd r d -> ioctl_post cmd r (x_lock lock d).
Proof.
  destruct cmd; cbn; try done.
  - intros H Hr. destruct (H Hr) as [[A B C D] Hx]. split; [by split|done].
  - intros [A B C D]. by split.
Qed.
(** The caller's name is not the device's. *)
Definition apart (p : ptr) (d : kdevice) : Prop := kx_imgname d <> p \/ p = NULL.
Lemma withLock_ok cmd body imgname d :
  mid_inv imgname d -> apart imgname d ->
  (forall e, mid_inv imgname e -> apart imgname e -> exists r p d', body e = Ok (r, p, d') /\ mid_inv p d' /\ apart p d' /\ ioctl_post cmd r d') ->
  exists r p d', withLock body imgname d = Ok (r, p, d') /\ mid_inv p d' /\ apart p d' /\ kx_lock d' = kx_lock d
    /\ (if kx_lock d then r = - EBUSY /\ p = imgname /\ d' = d else ioctl_post cmd r d').
Proof.
  intros Hm Hn Hb. unfold withLock. destruct (kx_lock d) eqn:El; [by exists (- EBUSY), imgname, d|].
  destruct (Hb (x_lock true d)) as (r & p & d' & -> & Hm' & Hp & Hpost); [by apply x_lock_mid|done|]. cbn [mbind result_bind].
  eexists r, p, _. split; [done|]. split_and!; [by apply x_lock_mid|done|done|by apply ioctl_post_lock].
Qed.
Definition needs_lock (cmd : ioctl_cmd) : bool := match cmd with IOCTL_OPEN | IOCTL_CLOSE | IOCTL_SWITCH => true | _ => false end.
Lemma ioctl_command conn cmd msg imgname d :
  mid_inv imgname d -> apart imgname d -> (forall i, conn_ok (conn i)) ->
  (forall m, msg = Some m -> length (im_hosts m) = 8%nat) ->
  exists r p d',
    (match cmd with
     | IOCTL_OPEN => withLock (ioctlOpen conn msg imgname) imgname d
     | IOCTL_CLOSE => withLock (fun d => '(r, d) ← dnbd3_close_device d; Ok (r, imgname, d)) imgname d
     | IOCTL_SWITCH => withLock (fun d => '(r, d) ← ioctlSwitch conn msg d; Ok (r, imgname, d)) imgname d
     | IOCTL_ADD_SRV => '(r, d) ← ioctlServers true msg d; Ok (r, imgname, d)
     | IOCTL_REM_SRV => '(r, d) ← ioctlServers false msg d; Ok (r, imgname, d)
     | BLKFLSBUF => Ok (0, imgname, d)
     | IOCTL_OTHER => Ok (- EIO, imgname, d)
     end) = Ok (r, p, d')
    /\ mid_inv p d' /\ apart p d' /\ kx_lock d' = kx_lock d
    /\ (if needs_lock cmd && kx_lock d then r = - EBUSY /\ p = imgname /\ d' = d else ioctl_post cmd r d').
Proof.
  intros Hm Hn Hc Hh. destruct cmd; cbn [needs_lock andb]; try (eexists _, imgname, d; by split_and!).
  - apply (withLock_ok IOCTL_OPEN); [done|done|]. intros e He Hne.
    destruct (ioctlOpen_ok conn msg imgname e He Hc) as (r & p & d' & E & Hm' & _ & Hp & Hr). exists r, p, d'. split_and!; [done|done| |].
    + unfold apart in *. destruct (Hp Hne); [left; congruence|by right].
    + intros Hge. by destruct (Hr Hge) as (_ & ? & ?).
  - apply (withLock_ok IOCTL_CLOSE); [done|done|]. intros e He Hne.
    destruct (close_ok imgname e He Hne) as (r & d' & -> & H1 & H2 & _). exists r, imgname, d'. split_and!; [done|done| |done].
    unfold apart. rewrite (nu_name _ H2). destruct (decide (imgname = NULL)); [by right|left; congruence].
  - apply (withLock_ok IOCTL_SWITCH); [done|done|]. intros e He Hne.
    destruct (ioctlSwitch_ok conn msg imgname e He Hc Hh) as (r & d' & -> & H1 & H2 & H3 & _). exists r, imgname, d'. unfold apart. by rewrite H3.
  - destruct (ioctlServers_ok true msg imgname d Hm Hh) as (r & d' & -> & H1 & H2 & H3). exists r, imgname, d'. unfold apart. by rewrite H3.
  - destruct (ioctlServers_ok false msg imgname d Hm Hh) as (r & d' & -> & H1 & H2 & H3). exists r, imgname, d'. unfold apart. by rewrite H3.
Qed.
Lemma ioctl_post_image cmd r heap d :
  ioctl_post cmd r d -> ioctl_post cmd r (x_image heap (kx_imgname d) (kx_rid d) (kx_size d) (kx_update d) d).
Proof.
  destruct cmd; cbn; try done.
  - intros H Hr. destruct (H Hr) as [[A B C D] Hx]. split; [by split|done].
  - intros [A B C D]. by split.
Qed.

Lemma blk_ioctl_spec conn cmd arg d :
  kx_inv d -> arg_ok arg d -> (forall i, conn_ok (conn i)) ->
  exists r d', dnbd3_blk_ioctl conn cmd arg d = Ok (r, d') /\ kx_inv d' /\ kx_lock d' = kx_lock d
    /\ match arg with
       | ArgBad _ => d' = d
       | _ => if needs_lock cmd && kx_lock d then r = - EBUSY /\ d' = d else ioctl_post cmd r d'
       end.
Proof.
  intros [H1 H2 H3 H4] Ha Hc. unfold dnbd3_blk_ioctl. destruct arg as [|err|m p].
  - destruct (ioctl_command conn cmd None NULL d) as (r & q & d1 & -> & Hm & Hq & Hl & Hp); [by split|by right|done|done|]. cbn [mbind result_bind].
    destruct (kfree_ok q d1 Hm) as (d2 & -> & Hi & Hl2 & Ed); [destruct Hq; auto|]. cbn [mbind result_bind]. exists r, d2. rewrite Hl2, Hl.
    split_and!; try done. destruct (needs_lock cmd && kx_lock d); [|rewrite Ed; by apply ioctl_post_image].
    destruct Hp as (-> & -> & ->). split; [done|]. rewrite Ed, delete_id; [by destruct d|].
    destruct (kx_heap d !! NULL) eqn:E; [|done]. destruct (proj1 (H2 NULL)); [by rewrite E|done].
  - exists err, d. by split_and!.
  - destruct Ha as (Hp0 & Hnone & Hlen).
    assert (exists msg q d0, match im_name m with
        | Some name => (Some m, p, x_image (<[p := name]> (kx_heap d)) (kx_imgname d) (kx_rid d) (kx_size d) (kx_update d) d)
        | None => (Some m, NULL, d) end = (msg, q, d0) /\ msg = Some m /\ mid_inv q d0 /\ apart q d0 /\ kx_lock d0 = kx_lock d
        /\ x_image (delete q (kx_heap d0)) (kx_imgname d0) (kx_rid d0) (kx_size d0) (kx_update d0) d0 = d)
      as (msg & q & d0 & -> & -> & Hm0 & Hap & Hl0 & Hback).
    { assert (p <> kx_imgname d) as Hpi.
      { intros ->. destruct (kx_heap d !! kx_imgname d) eqn:E; [done|]. destruct (proj2 (H2 (kx_imgname d))); [split; [done|by left]|congruence]. }
      destruct (im_name m) as [name|]; eexists _, _, _; (split; [done|]); (split; [done|]); split_and!; try done.
      - split; cbn; [destruct H1 as [[A B C D]|[A B C D]]; [left|right]; by split| |done|done].
        intros q. cbn. destruct (decide (q = p)) as [->|Hne]; [rewrite lookup_insert_eq; split; [by split; [|right]|by eexists]|].
        rewrite lookup_insert_ne by done. rewrite (H2 q). split; intros [? [?|?]]; (split; [done|]); auto; done.
      - left. cbn. congruence.
      - cbn. rewrite delete_insert_id by done. by destruct d.
      - by right.
      - rewrite delete_id; [by destruct d|]. destruct (kx_heap d !! NULL) eqn:E; [|done]. destruct (proj1 (H2 NULL)); [by rewrite E|done]. }
    destruct (ioctl_command conn cmd (Some m) q d0) as (r & q1 & d1 & -> & Hm & Hq & Hl & Hp); [done|done|done|by intros ? [= <-]|]. cbn [mbind result_bind].
    destruct (kfree_ok q1 d1 Hm) as (d2 & -> & Hi & Hl2 & Ed); [destruct Hq; auto|]. cbn [mbind result_bind]. exists r, d2. rewrite Hl2, Hl, Hl0.
    split_and!; try done. rewrite Hl0 in Hp. destruct (needs_lock cmd && kx_lock d); [|rewrite Ed; by apply ioctl_post_image].
    destruct Hp as (-> & -> & ->). split; [done|]. by rewrite Ed.
Qed.
(** C14. An ioctl with any command and argument, on a device that is in order and with servers that behave in any way, under the condition that memory can be
    allocated (the copy of the message, the reallocation of the image name and the work queues): it neither loses nor frees the
    image name twice, the device is afterwards either completely in use (name, size,
    connection and work queues) or not at all, the server table is in order, every socket
    is released but the connection's, and the connection lock is as before.  While somebody
    else holds the lock, opening, closing and switching change nothing.  A device that was
    opened is connected to the server whose number is returned, a closed one is not in use.  What happens without memory
    is shown in [open_without_memory]. *)
Theorem dnbd3_blk_ioctl_correct conn cmd arg d :
  kx_inv d -> arg_ok arg d -> (forall i, conn_ok (conn i)) ->
  exists r d', dnbd3_blk_ioctl conn cmd arg d = Ok (r, d') /\ kx_inv d' /\ kx_lock d' = kx_lock d
    /\ match arg with
       | ArgBad _ => d' = d
       | _ => if needs_lock cmd && kx_lock d then r = - EBUSY /\ d' = d else ioctl_post cmd r d'
       end.
Proof. apply blk_ioctl_spec. Qed.
(** A device that was just added. *)
Definition freshDevice : kdevice :=
  KDevice ∅ NULL 0 0 false false None (SockAddr 0 0 []) 0 (replicate 8 (KAlt [0; 0; 0; 0] 0 0 0 (SockAddr 0 0 []))) false 0 false 0 0 false [] [].
Lemma freshDevice_inv : kx_inv freshDevice.
Proof.
  split; [by right|intros q; cbn; rewrite lookup_empty; split; [by intros [? ?]|by intros [? [?|?]]]| |done].
  split; [done| |by apply (bool_decide_eq_true_1 _)]. apply Forall_replicate. split; cbn; unfold MAX_TIME; [done| |crange|lia|auto].
  repeat (constructor; [lia|]). constructor.
Qed.
Definition demo_host (x : Z) : dnbd3_host_t := Host (padAddr [10; 0; 0; x]) 5003 HOST_IP4.
Definition demo_open : ioctl_arg :=
  ArgMsg (IoctlMsg (demo_host 1 :: demo_host 2 :: replicate 6 (Host (replicate 16 0) 0 0)) 2 (Some [105]) 0 true) 4096.
Lemma dnbd3_blk_ioctl_correct_witness :
  let conn i := match i with 0%nat => CNoConnect (-111) | _ => CConnected 7 (Some (3, Some [105; 109; 103], 2, 8192)) 8192 true end in
  exists d', dnbd3_blk_ioctl conn IOCTL_OPEN demo_open freshDevice = Ok (1, d') /\ in_use d' /\ kx_heap d' = {[8192 := [105; 109; 103]]}.
Proof.
  intros conn. destruct (dnbd3_blk_ioctl_correct conn IOCTL_OPEN demo_open freshDevice freshDevice_inv) as (r & d' & E & _ & _ & Hpost).
  - cbn. split; [done|]. split; [apply lookup_empty|done].
  - intros [|i]; cbn; [done|]. split; [done|]. split; [done|lia].
  - exists d'. assert (r = 1) as -> by (vm_compute in E; congruence). split; [exact E|]. split; [by apply Hpost|].
    vm_compute in E. injection E as <-. vm_compute. reflexivity.
Defined.

(** Without memory the ioctl goes wrong: if the work queues cannot be allocated after
    the name was moved to a longer buffer, the old buffer is freed a second time; if the
    name cannot be moved, connecting to the next server dereferences a null pointer. *)
Theorem open_without_memory :
  (let conn i := match i with 0%nat => CConnected 7 (Some (3, Some [105; 109; 103], 2, 8192)) 8192 false | _ => CNoConnect (-111) end in
   dnbd3_blk_ioctl conn IOCTL_OPEN demo_open freshDevice = Fault UseAfterFree)
  /\ (let conn i := match i with 0%nat => CConnected 7 (Some (3, Some [105; 109; 103], 2, 8192)) NULL true
                    | _ => CConnected 8 (Some (3, Some [105], 2, 8192)) 8192 true end in
      dnbd3_blk_ioctl conn IOCTL_OPEN demo_open freshDevice = Fault NullDeref).
Proof. split; vm_compute; reflexivity. Qed.
