(* ===== verification/ImageStore.v ===== *)
(** * ImageStore: what the server keeps on disk beside an image ([server/image.c])

    - [saveCacheMap]: the bitmap of the cached blocks in [<image>.map], written in
      place while other threads go on marking blocks;
    - the decision of [saveLoadAllCacheMaps] for one image: save, reload or leave;
    - [saveMetaData] and [loadImageMeta]: the time of the last access in
      [<image>.meta].

    The disk is the content of the map file together with two sets of blocks: those
    the image file holds (they may still be in the page cache only) and those that
    survive a crash.  System calls are inputs: whether [open] and [fsync] work, what
    each [write] returns, and which atomic updates of the map other threads perform
    before each [write]. *)

From Stdlib Require Import Ascii.
From stdpp Require Import gmap sets.
From S2P Require Import Prelude Timing Types Helper CacheMap AltServers.
Open Scope Z_scope.

(** ** The map file *)

Record disk := Disk {
  d_map : option (list Z);     (* [None]: there is no map file *)
  d_written : gset Z;
  d_stable : gset Z;
}.

(** An atomic [fetch_or] ([true]) or [fetch_and] of another thread on a byte of the map. *)
Definition map_op : Type := bool * nat * Z.
Definition applyOp (m : list Z) (op : map_op) : list Z :=
  let '(set, i, k) := op in alter (fun v => mask_op set v k) i m.

Inductive write_res := WriteIntr | WriteFailed | Wrote (ret : Z).

(** [write] at offset [done]: the bytes replace what is there, the file grows at its end. *)
Definition overwrite (file : list Z) (done : Z) (bytes : list Z) : list Z :=
  take (Z.to_nat done) file ++ bytes ++ drop (Z.to_nat done + length bytes) file.

(** The boolean says that the loop has ended; it is [false] when the calls given are
    used up, which is the state a crash in between leaves. *)
Fixpoint writeMapLoop (size : Z) (calls : list (list map_op * write_res)) (done : Z) (m file : list Z)
  : bool * list Z * list Z :=
  if negb (done <? size) then (true, m, file)
  else match calls with
  | [] => (false, m, file)
  | (ops, r) :: calls' =>
      let m := foldl applyOp m ops in
      match r with
      | WriteIntr => writeMapLoop size calls' done m file
      | WriteFailed => (true, m, file)
      | Wrote ret =>
          if ret <=? 0 then (true, m, file)
          else writeMapLoop size calls' (done + ret) m
                 (overwrite file done (take (Z.to_nat ret) (drop (Z.to_nat done) m)))
      end
  end.

(** After a failed [fsync] of the image: only what the old map file lists is kept. *)
Definition resetMap (old : option dnbd3_cache_map_t) (mapSize : Z) (m : list Z) : result (list Z) :=
  match old with
  | None => Ok (replicate (Z.to_nat mapSize) 0 ++ drop (Z.to_nat mapSize) m)
  | Some o =>
      for_each (fun i m =>
        c ← aget m i; v ← aget (cm_map o) i; aset m i (c .& v)) 0 1 (Z.to_nat mapSize) m
  end.

Record save_env := SaveEnv {
  sv_openMap : bool;      (* [open] of the map file for writing works *)
  sv_openImg : bool;      (* [open] of the image for [fsync] works *)
  sv_fsync : bool;        (* [fsync] of the image works *)
  sv_openOld : bool;      (* [image_loadCacheMap] can open the map file *)
  sv_writes : list (list map_op * write_res);
}.

Definition fsyncImage (d : disk) : disk := Disk (d_map d) (d_written d) (d_written d).
Definition setMapFile (file : list Z) (d : disk) : disk := Disk (Some file) (d_written d) (d_stable d).

(** [cache] is what [ref_get_cachemap] returns; the result holds what the shared map
    contains afterwards. *)
Definition saveCacheMap (e : save_env) (virtualFilesize : Z) (cache : option dnbd3_cache_map_t) (d : disk)
  : result (bool * option dnbd3_cache_map_t * disk) :=
  match cache with
  | None => Ok (true, cache, d)
  | Some c =>
      let size := IMGSIZE_TO_MAPBYTES virtualFilesize in
      if negb (sv_openMap e) then Ok (true, cache, d)
      else
        let file := default [] (d_map d) in
        let d := setMapFile file d in
        '(m, d) ← (if negb (sv_openImg e) then Ok (cm_map c, d)
                   else if sv_fsync e then Ok (cm_map c, fsyncImage d)
                   else
                     let old := image_loadCacheMap (if sv_openOld e then d_map d else None) virtualFilesize in
                     m ← resetMap old (IMGSIZE_TO_MAPBYTES virtualFilesize) (cm_map c);
                     Ok (m, d));
        let '(ended, m, file) := writeMapLoop size (sv_writes e) 0 m file in
        Ok (ended, Some (cm_set_map m c), setMapFile file d)
  end.

(** ** What a map file claims *)

(** An image without a map file counts as complete. *)
Definition claims (file : option (list Z)) (vfs b : Z) : bool :=
  match image_loadCacheMap file vfs with
  | None => true
  | Some c => block_cached (cm_map c) b
  end.
Definition safe_file (vfs : Z) (good : Z -> Prop) (file : option (list Z)) : Prop :=
  forall b, 0 <= b < vfs / 4096 -> claims file vfs b = true -> good b.

(** Block [b] is marked by another thread after the [fsync]. *)
Definition op_marks (b : Z) (op : map_op) : bool :=
  let '(set, i, k) := op in set && (i =? Z.to_nat (b / 8))%nat && Z.testbit k (b mod 8).
Definition marked_late (calls : list (list map_op * write_res)) (b : Z) : bool :=
  existsb (op_marks b) (concat (map fst calls)).

(** What a crash can leave of a file that was changed from [old] to [new] but not
    flushed: each byte is the old one, the new one or, where the file has grown, zero. *)
Definition crashed (old new after : option (list Z)) : Prop :=
  match after with
  | None => old = None
  | Some f =>
      forall (i : nat) v, f !! i = Some v ->
      v = 0 \/ default [] old !! i = Some v \/ default [] new !! i = Some v
  end.

(** ** Bits of a map *)

Definition has_bit (m : list Z) (b : Z) : Prop :=
  exists v, m !! Z.to_nat (b / 8) = Some v /\ Z.testbit v (b mod 8) = true.

Lemma block_in_map vfs b : 0 <= b < vfs / 4096 -> 0 <= b / 8 < (vfs + 32767) / 32768.
Proof.
  intros Hb. pose proof (Z.mul_div_le vfs 4096). split; [apply Z.div_pos; lia|].
  apply Z.div_lt_upper_bound; [lia|].
  pose proof (Z.div_mod (vfs + 32767) 32768 ltac:(lia)).
  pose proof (Z.mod_pos_bound (vfs + 32767) 32768 ltac:(lia)). lia.
Qed.

Lemma block_has_bit vfs m b :
  map_wf vfs m -> 0 <= b < vfs / 4096 -> block_cached m b = true <-> has_bit m b.
Proof.
  intros [Hlen _] Hb%block_in_map. unfold block_cached, has_bit.
  pose proof (list_lookup_lookup_total_lt m (Z.to_nat (b / 8)) ltac:(lia)) as ->.
  split; [eauto|]. by intros (v & [= <-] & ?).
Qed.

Lemma loaded_bits n f b :
  let rd := take n f in
  has_bit (rd ++ replicate (n - length rd) 0) b <-> has_bit f b /\ (Z.to_nat (b / 8) < n)%nat.
Proof.
  cbn zeta. unfold has_bit. set (i := Z.to_nat (b / 8)).
  destruct (decide (i < length (take n f))%nat) as [Hi|Hi].
  - rewrite lookup_app_l by done. rewrite length_take in Hi. rewrite lookup_take_lt by lia. naive_solver lia.
  - split.
    + intros (v & Hv & Hbit). rewrite lookup_app_r in Hv by lia.
      apply lookup_replicate in Hv as [-> _]. by rewrite Z.testbit_0_l in Hbit.
    + intros [(v & Hv%lookup_lt_Some & _) ?]. rewrite length_take in Hi. lia.
Qed.

Lemma claims_bit f vfs b :
  0 <= vfs <= 2 ^ 46 - 2 ^ 15 -> Forall in_u8 f -> 0 <= b < vfs / 4096 ->
  claims (Some f) vfs b = true <-> has_bit f b.
Proof.
  intros Hv Hf Hb. unfold claims. cbn [image_loadCacheMap cm_map]. rewrite mapbytes_val by done.
  assert (0 <= (vfs + 32767) / 32768) by (apply Z.div_pos; lia).
  set (n := Z.to_nat ((vfs + 32767) / 32768)).
  assert (map_wf vfs (take n f ++ replicate (n - length (take n f)) 0)) as Hwf.
  { split; [rewrite length_app, length_replicate, length_take; lia|].
    apply list.Forall_app. split; [by apply Forall_take|]. apply Forall_replicate. crange. }
  rewrite (block_has_bit vfs) by done. rewrite loaded_bits. split; [tauto|]. intros Hbit. split; [done|].
  apply block_in_map in Hb. lia.
Qed.

Lemma applyOp_length m op : length (applyOp m op) = length m.
Proof. destruct op as [[??]?]. apply length_alter. Qed.
Lemma applyOps_length ops m : length (foldl applyOp m ops) = length m.
Proof. revert m. induction ops as [|op ops IH]; intros m; [done|]. cbn. by rewrite IH, applyOp_length. Qed.

Lemma applyOp_bit m op b : has_bit (applyOp m op) b -> has_bit m b \/ op_marks b op = true.
Proof.
  destruct op as [[set i] k]. intros (v & Hv & Hbit). cbn [applyOp op_marks] in *.
  destruct (decide (i = Z.to_nat (b / 8))) as [->|Hne].
  - rewrite list_lookup_alter_eq in Hv. destruct (m !! Z.to_nat (b / 8)) as [o|] eqn:E; [|done].
    injection Hv as <-. rewrite Nat.eqb_refl. rewrite testbit_mask_op in Hbit by (apply Z.mod_pos_bound; lia).
    destruct set; cbn [andb].
    + apply orb_true_iff in Hbit as [?|?]; [left; by exists o|by right].
    + apply andb_true_iff in Hbit as [? _]. left. by exists o.
  - rewrite list_lookup_alter_ne in Hv by done. left. by exists v.
Qed.
Lemma applyOps_bit ops b : forall m,
  has_bit (foldl applyOp m ops) b -> has_bit m b \/ existsb (op_marks b) ops = true.
Proof.
  induction ops as [|op ops IH]; intros m H; [by left|]. cbn in *. rewrite orb_true_iff.
  apply IH in H as [[H|H]%applyOp_bit|H]; tauto.
Qed.

Lemma overwrite_lookup file done bytes i v :
  (Z.to_nat done <= length file)%nat -> overwrite file done bytes !! i = Some v ->
  file !! i = Some v \/ ((Z.to_nat done <= i)%nat /\ bytes !! (i - Z.to_nat done)%nat = Some v).
Proof.
  intros Hd. unfold overwrite. rewrite !lookup_app_Some, length_take, Nat.min_l by done.
  intros [H|(Hi & [H|(Hi2 & H)])].
  - left. rewrite lookup_take_Some in H. tauto.
  - by right.
  - left. rewrite lookup_drop in H. rewrite <- H. f_equal. lia.
Qed.
Lemma overwrite_length file done bytes :
  (Z.to_nat done <= length file)%nat -> (Z.to_nat done + length bytes <= length (overwrite file done bytes))%nat.
Proof. intros. unfold overwrite. rewrite !length_app, length_take. lia. Qed.

(** ** The write loop *)

(** Whatever property the marked blocks share, the file and the map keep it at every
    moment of the loop. *)
Lemma writeMapLoop_bits (P : Z -> Prop) size b : forall calls done m file ended m' file',
  writeMapLoop size calls done m file = (ended, m', file') ->
  0 <= done -> Z.of_nat (length m) = size -> (done < size -> (Z.to_nat done <= length file)%nat) ->
  (marked_late calls b = true -> P b) -> (has_bit m b -> P b) -> (has_bit file b -> P b) ->
  (has_bit m' b -> P b) /\ (has_bit file' b -> P b).
Proof.
  induction calls as [|[ops r] calls IH]; intros done m file ended m' file' Heq Hd Hlen Hdone Hlate Hm Hf;
    cbn [writeMapLoop] in Heq; destruct (Z.ltb_spec done size) as [Hlt|_]; cbn [negb] in Heq.
  1, 2, 4: injection Heq as <- <- <-; tauto.
  assert (has_bit (foldl applyOp m ops) b -> P b) as Hm2.
  { intros [H|H]%applyOps_bit; [auto|]. apply Hlate. unfold marked_late. cbn.
    rewrite existsb_app. by rewrite H. }
  assert (marked_late calls b = true -> P b) as Hlate2.
  { intros H. apply Hlate. unfold marked_late in *. cbn. rewrite existsb_app, H. apply orb_true_r. }
  specialize (Hdone Hlt). pose proof (applyOps_length ops m) as Hl2.
  destruct r as [| |ret]; [eapply IH; eauto; lia|injection Heq as <- <- <-; tauto|].
  destruct (Z.leb_spec ret 0); [injection Heq as <- <- <-; tauto|].
  eapply IH; [exact Heq|lia|lia| |done|done|].
  - intros Hlt2. pose proof (overwrite_length file done
      (take (Z.to_nat ret) (drop (Z.to_nat done) (foldl applyOp m ops))) Hdone) as Hol.
    rewrite length_take, length_drop in Hol. lia.
  - intros (v & Hv & Hbit). apply overwrite_lookup in Hv as [Hv|[Hi Hv]]; [|apply Hm2|done].
    + apply Hf. by exists v.
    + rewrite lookup_take_Some, lookup_drop in Hv. destruct Hv as [Hv _]. exists v. split; [|done].
      rewrite <- Hv. f_equal. lia.
Qed.

(** Undisturbed and without errors, the loop copies the whole map. *)
Lemma writeMapLoop_copies m : forall calls done file ended m' file',
  Forall (fun c => c.1 = [] /\ c.2 <> WriteFailed /\ forall ret, c.2 = Wrote ret -> 0 < ret) calls ->
  writeMapLoop (Z.of_nat (length m)) calls done m file = (ended, m', file') -> ended = true ->
  0 <= done -> take (Nat.min (length m) (Z.to_nat done)) file = take (Z.to_nat done) m ->
  m' = m /\ take (length m) file' = m.
Proof.
  induction calls as [|[ops r] calls IH]; intros done file ended m' file' Hc Heq He Hd Hpre; cbn [writeMapLoop] in Heq;
    destruct (Z.ltb_spec done (Z.of_nat (length m))) as [Hlt|Hge]; cbn [negb] in Heq; simplify_eq.
  1, 3: rewrite Nat.min_l in Hpre by lia; split; [done|]; rewrite Hpre; apply take_ge; lia.
  apply list.Forall_cons in Hc as [(Hops & Hr & Hret) Hc]. cbn in Hops, Hr, Hret. subst ops. cbn [foldl] in Heq.
  destruct r as [| |ret]; [by eapply IH|done|]. specialize (Hret ret eq_refl).
  destruct (Z.leb_spec ret 0); [lia|]. eapply IH; [exact Hc|exact Heq|done|lia|].
  rewrite Nat.min_r in Hpre by lia.
  unfold overwrite. rewrite Hpre, Z2Nat.inj_add, app_assoc, take_take_drop by lia.
  set (n := (Z.to_nat done + Z.to_nat ret)%nat).
  rewrite take_app_le by (rewrite length_take; lia). rewrite take_take. 
  destruct (decide (n <= length m)%nat); [f_equal; lia|]. rewrite !take_ge by lia. done.
Qed.

(** ** A failed [fsync] *)

Lemma andLoop_spec (o : list Z) n : forall a m,
  0 <= a -> a + Z.of_nat n <= Z.of_nat (length m) -> a + Z.of_nat n <= Z.of_nat (length o) ->
  exists m', for_each (fun i m => c ← aget m i; v ← aget o i; aset m i (c .& v)) a 1 n m = Ok m'
    /\ length m' = length m
    /\ forall (i : nat) v, m' !! i = Some v ->
       (Z.of_nat i < a \/ a + Z.of_nat n <= Z.of_nat i) /\ m !! i = Some v
       \/ exists x y, m !! i = Some x /\ o !! i = Some y /\ v = x .& y.
Proof.
  induction n as [|n IH]; intros a m Ha Hm Ho; cbn [for_each].
  { exists m. split_and!; [done..|]. intros i v Hi. left. split; [lia|done]. }
  rewrite !aget_in_range by lia. cbn [mbind result_bind]. rewrite aset_ok by lia. cbn [mbind result_bind].
  set (x := m !!! Z.to_nat a) in *. set (y := o !!! Z.to_nat a) in *.
  pose proof (list_lookup_lookup_total_lt m (Z.to_nat a) ltac:(lia)) as Hx.
  pose proof (list_lookup_lookup_total_lt o (Z.to_nat a) ltac:(lia)) as Hy.
  destruct (IH (a + 1) (<[Z.to_nat a := x .& y]> m)) as (m' & -> & Hl & Hb); rewrite ?length_insert; [lia..|].
  exists m'. rewrite length_insert in Hl. split_and!; [done..|]. intros i v Hi.
  destruct (Hb i v Hi) as [[Hr Hv]|(p & q & Hp & Hq & ->)].
  - destruct (decide (i = Z.to_nat a)) as [->|Hne].
    + rewrite list_lookup_insert_eq in Hv by lia. injection Hv as <-. right. by exists x, y.
    + rewrite list_lookup_insert_ne in Hv by done. left. split; [lia|done].
  - destruct (decide (i = Z.to_nat a)) as [->|Hne].
    + rewrite list_lookup_insert_eq in Hp by lia. injection Hp as <-. right. exists x, y.
      split_and!; [done..|]. rewrite Hy in Hq. injection Hq as <-. by rewrite <- Z.land_assoc, Z.land_diag.
    + rewrite list_lookup_insert_ne in Hp by done. right. by exists p, q.
Qed.

Lemma resetMap_spec vfs old m :
  0 <= vfs <= 2 ^ 46 - 2 ^ 15 -> map_wf vfs m -> (forall o, old = Some o -> length (cm_map o) = length m) ->
  exists m', resetMap old (IMGSIZE_TO_MAPBYTES vfs) m = Ok m' /\ length m' = length m
    /\ forall b, has_bit m' b -> exists o, old = Some o /\ has_bit (cm_map o) b /\ has_bit m b.
Proof.
  intros Hv [Hlen Hu] Ho. rewrite mapbytes_val by done. rewrite <- Hlen.
  destruct old as [o|]; cbn [resetMap]; rewrite Nat2Z.id.
  - specialize (Ho o eq_refl). destruct (andLoop_spec (cm_map o) (length m) 0 m) as (m' & -> & Hl & Hb); [lia..|].
    exists m'. split_and!; [done..|]. intros b (v & Hb1 & Hb2). exists o. split; [done|].
    destruct (Hb _ _ Hb1) as [[Hr Hx]|(x & y & Hx & Hy & ->)]; [apply lookup_lt_Some in Hx; lia|].
    rewrite Z.land_spec in Hb2. apply andb_true_iff in Hb2 as [? ?]. by split; eexists.
  - eexists. split; [done|]. rewrite drop_ge, app_nil_r by lia. split; [by rewrite length_replicate|].
    intros b (v & [-> _]%lookup_replicate & Hb). by rewrite Z.testbit_0_l in Hb.
Qed.

(** ** Saving *)

Lemma loaded_length f vfs o :
  0 <= vfs <= 2 ^ 46 - 2 ^ 15 -> image_loadCacheMap f vfs = Some o ->
  Z.of_nat (length (cm_map o)) = (vfs + 32767) / 32768.
Proof.
  intros Hv. destruct f as [f|]; [|done]. unfold image_loadCacheMap. intros <-%(inj Some). cbn [cm_map].
  rewrite mapbytes_val, length_app, length_replicate, length_take by done.
  assert (0 <= (vfs + 32767) / 32768) by (apply Z.div_pos; lia). lia.
Qed.

Lemma crash_safe vfs (P : Z -> Prop) old new after :
  0 <= vfs <= 2 ^ 46 - 2 ^ 15 -> Forall in_u8 (default [] old) -> Forall in_u8 (default [] after) ->
  safe_file vfs P old -> (forall b, 0 <= b < vfs / 4096 -> has_bit (default [] new) b -> P b) ->
  crashed old new after -> safe_file vfs P after.
Proof.
  intros Hv Ho8 Ha8 Hold Hnew Hcr b Hb Hcl. destruct after as [f|]; cbn in Hcr; [|subst old; by apply Hold].
  apply claims_bit in Hcl as (v & Hv1 & Hv2); [|done..].
  destruct (Hcr _ _ Hv1) as [->|[H|H]]; [by rewrite Z.testbit_0_l in Hv2| |].
  - apply Hold; [done|]. destruct old; [|done]. apply claims_bit; [done..|]. by exists v.
  - apply Hnew; [done|]. by exists v.
Qed.

Section Saving.
Context (e : save_env) (vfs : Z) (c : dnbd3_cache_map_t) (d : disk).
Context (Hv : 0 <= vfs <= 2 ^ 46 - 2 ^ 15) (Hwf : map_wf vfs (cm_map c)).

(** What the map may list when the loop starts: after a successful [fsync] all of it,
    after a failed one only blocks the old file lists. *)
Lemma saveCacheMap_run :
  sv_openMap e = true -> sv_openImg e = true ->
  let file := default [] (d_map d) in
  let d' := if sv_fsync e then fsyncImage d else d in
  exists m, length m = length (cm_map c)
    /\ saveCacheMap e vfs (Some c) d
       = (let '(ended, m', file') := writeMapLoop (Z.of_nat (length m)) (sv_writes e) 0 m file in
          Ok (ended, Some (cm_set_map m' c), setMapFile file' d'))
    /\ (if sv_fsync e then m = cm_map c
        else forall b, has_bit m b -> has_bit (cm_map c) b /\ has_bit file b).
Proof.
  intros Hom Hoi. cbn zeta. unfold saveCacheMap. rewrite Hom, Hoi. cbn [negb].
  destruct (sv_fsync e); cbn [mbind result_bind].
  - exists (cm_map c). rewrite mapbytes_val by done. destruct Hwf as [<- _]. split_and!; [done| |done].
    destruct (writeMapLoop _ _ _ _ _) as [[??]?]. done.
  - cbn [d_map setMapFile]. set (file := default [] (d_map d)).
    destruct (resetMap_spec vfs (image_loadCacheMap (if sv_openOld e then Some file else None) vfs) (cm_map c))
      as (m & Hm & Hl & Hb); [done..| |].
    { intros o Ho%loaded_length; [|done]. destruct Hwf. lia. }
    exists m. rewrite Hm. cbn [mbind result_bind]. rewrite mapbytes_val by done. destruct Hwf as [<- _].
    rewrite Hl. split; [done|]. split.
    + destruct (writeMapLoop _ _ _ _ _) as [[??]?]. done.
    + intros b (o & Ho & Hbo & Hbm)%Hb. split; [done|]. destruct (sv_openOld e); [|done].
      unfold image_loadCacheMap in Ho. apply (inj Some) in Ho as <-. cbn [cm_map] in Hbo. apply loaded_bits in Hbo as [? _]. done.
Qed.
End Saving.

(** C22. The map file does not run ahead of the data, if the image file can be opened for the [fsync].  Suppose that before a save the map lists only
    blocks the image file holds and the map file only blocks that survive a crash.  Then
    at every moment of [saveCacheMap] (also with interrupted, partial or failing writes,
    a failing [fsync] of the image, a map file that cannot be opened, or no old map to fall back to), whatever mixture of
    old and new bytes a crash leaves of the map file, the server will after a restart
    consider a block cached only if it survives the crash, or another thread marked it
    after the [fsync].  After a failed [fsync] the map in memory, too, lists no other
    blocks.  When nothing fails or interferes, loading the file gives the map back.  If the image file cannot be opened the whole map is
    written without an [fsync] and does run ahead ([map_ahead_of_data]). *)
Theorem saveCacheMap_safe e vfs c d :
  0 <= vfs <= 2 ^ 46 - 2 ^ 15 -> map_wf vfs (cm_map c) ->
  sv_openImg e = true ->
  (forall b, 0 <= b < vfs / 4096 -> block_cached (cm_map c) b = true -> b ∈ d_written d) ->
  d_stable d ⊆ d_written d -> safe_file vfs (fun b => b ∈ d_stable d) (d_map d) ->
  Forall in_u8 (default [] (d_map d)) ->
  exists ended c' d', saveCacheMap e vfs (Some c) d = Ok (ended, Some c', d')
    /\ d_stable d ⊆ d_stable d'
    /\ (forall after, crashed (d_map d) (d_map d') after -> Forall in_u8 (default [] after) ->
        safe_file vfs (fun b => b ∈ d_stable d' \/ marked_late (sv_writes e) b = true) after)
    /\ (sv_openMap e = true -> sv_fsync e = false -> forall b, 0 <= b < vfs / 4096 ->
        has_bit (cm_map c') b -> b ∈ d_stable d' \/ marked_late (sv_writes e) b = true)
    /\ (ended = true -> sv_openMap e = true -> sv_fsync e = true ->
        Forall (fun w => w.1 = [] /\ w.2 <> WriteFailed /\ forall ret, w.2 = Wrote ret -> 0 < ret) (sv_writes e) ->
        image_loadCacheMap (d_map d') vfs = Some (CacheMapT false false (cm_map c))).
Proof.
  intros Hv Hwf Hoi Hmem Hsub Hsafe Hu8.
  assert (forall b, 0 <= b < vfs / 4096 -> has_bit (default [] (d_map d)) b -> b ∈ d_stable d) as Hold.
  { intros b Hb Hbit. apply Hsafe; [done|]. destruct (d_map d); [by apply claims_bit|done]. }
  destruct (sv_openMap e) eqn:Hom.
  2: { unfold saveCacheMap. rewrite Hom. cbn [negb]. eexists _, c, d. split_and!; try done.
       intros after Hcr Ha8. eapply (crash_safe vfs _ (d_map d) (d_map d)); [done..| | |done].
       - intros b Hb Hcl. left. by apply Hsafe.
       - intros b Hb Hbit. left. by apply Hold. }
  destruct (saveCacheMap_run e vfs c d Hv Hwf Hom Hoi) as (m & Hlm & Hrun & Hm).
  destruct (writeMapLoop _ _ _ _ _) as [[ended m'] file'] eqn:Hloop.
  eexists _, _, _. split; [exact Hrun|]. cbn [d_map d_stable setMapFile cm_map cm_set_map].
  set (d' := if sv_fsync e then fsyncImage d else d).
  assert (d_stable d ⊆ d_stable d') as Hgrow by (unfold d'; destruct (sv_fsync e); done).
  assert (forall b, 0 <= b < vfs / 4096 ->
    (has_bit m' b -> b ∈ d_stable d' \/ marked_late (sv_writes e) b = true)
    /\ (has_bit file' b -> b ∈ d_stable d' \/ marked_late (sv_writes e) b = true)) as Hbits.
  { intros b Hb. eapply (writeMapLoop_bits (fun b => b ∈ d_stable d' \/ marked_late (sv_writes e) b = true));
      [exact Hloop|lia|done|lia|by right| |].
    - intros Hbit. left. unfold d'. destruct (sv_fsync e).
      + subst m. apply Hmem; [done|]. by apply (block_has_bit vfs).
      + apply Hm in Hbit as [_ ?]. by apply Hold.
    - intros Hbit%Hold; [|done]. left. by apply Hgrow. }
  split_and!; [done| | |].
  - intros after Hcr Ha8. eapply (crash_safe vfs _ (d_map d) (Some file')); [done..| | |exact Hcr].
    + intros b Hb Hcl. left. by apply Hgrow, Hsafe.
    + intros b Hb. by apply Hbits.
  - intros _ _ b Hb. by apply Hbits.
  - intros -> _ Hfs Hgood. rewrite Hfs in Hm. subst m.
    destruct (writeMapLoop_copies (cm_map c) _ _ _ _ _ _ Hgood Hloop) as [_ Hcopy];
      [done|lia|by rewrite Nat.min_0_r|].
    cbn [image_loadCacheMap]. rewrite mapbytes_val by done. destruct Hwf as [<- _].
    rewrite Nat2Z.id, Hcopy, Nat.sub_diag, app_nil_r. done.
Qed.

Definition demo_save : save_env :=
  SaveEnv true true true true [([], WriteIntr); ([], Wrote 1); ([], Wrote 1)].
Definition demo_disk : disk := Disk (Some [1]) {[0; 1; 9]} {[0]}.
Definition demo_cache : dnbd3_cache_map_t := CacheMapT false false [3; 2].

Lemma saveCacheMap_safe_witness :
  exists ended c' d', saveCacheMap demo_save 65536 (Some demo_cache) demo_disk = Ok (ended, Some c', d')
    /\ safe_file 65536 (fun b => b ∈ d_stable d' \/ marked_late (sv_writes demo_save) b = true) (Some [1; 2]).
Proof.
  destruct (saveCacheMap_safe demo_save 65536 demo_cache demo_disk) as (en & c' & d' & H1 & _ & H3 & _).
  - lia.
  - split; [reflexivity|repeat constructor; crange].
  - reflexivity.
  - intros b Hb. change (65536 / 4096) with 16 in Hb.
    assert (b = 0 \/ b = 1 \/ b = 9 \/ block_cached [3; 2] b = false) as H.
    { assert (Forall (fun b => b = 0 \/ b = 1 \/ b = 9 \/ block_cached [3; 2] b = false) (seqZ 0 16)) as Hall.
      { repeat (constructor; [vm_compute; tauto|]). constructor. }
      rewrite list.Forall_forall in Hall. apply Hall, elem_of_seqZ. lia. }
    cbn [cm_map demo_cache d_written demo_disk]. destruct H as [->|[->|[->|H]]]; [set_solver..|congruence].
  - set_solver.
  - intros b Hb. change (65536 / 4096) with 16 in Hb.
    assert (Forall (fun b => b = 0 \/ claims (d_map demo_disk) 65536 b = false) (seqZ 0 16)) as Hall.
    { repeat (constructor; [vm_compute; tauto|]). constructor. }
    rewrite list.Forall_forall in Hall. destruct (Hall b) as [->|H]; [apply elem_of_seqZ; lia|set_solver|congruence].
  - repeat constructor; crange.
  - exists en, c', d'. split; [exact H1|]. apply H3; [|repeat constructor; crange].
    vm_compute in H1. injection H1 as <- <- <-.
    intros [|[|i]] v Hi; cbn in Hi; simplify_eq; cbn; tauto.
Defined.

(** Two ways the map file does run ahead of the data: a block that is written and marked
    by another thread between the [fsync] and the [write] is listed although it is not
    flushed, and if the image cannot be opened for writing the [fsync] is left out and
    the whole map is written all the same. *)
Theorem map_ahead_of_data :
  (exists d', saveCacheMap (SaveEnv true true true true [([(true, 0%nat, 4)], Wrote 2)]) 65536 (Some demo_cache) demo_disk
     = Ok (true, Some (CacheMapT false false [7; 2]), d')
     /\ claims (d_map d') 65536 2 = true /\ 2 ∉ d_stable d')
  /\ (exists d', saveCacheMap (SaveEnv true false true true [([], Wrote 2)]) 65536 (Some demo_cache) demo_disk
     = Ok (true, Some demo_cache, d') /\ claims (d_map d') 65536 1 = true /\ 1 ∉ d_stable d').
Proof.
  split.
  - exists (Disk (Some [7; 2]) {[0; 1; 9]} {[0; 1; 9]}).
    split; [vm_compute; reflexivity|]. split; [vm_compute; reflexivity|]. set_solver.
  - exists (Disk (Some [3; 2]) {[0; 1; 9]} {[0]}).
    split; [vm_compute; reflexivity|]. split; [vm_compute; reflexivity|]. set_solver.
Qed.

(** ** When the map is saved or reloaded *)

Definition isImageFromUpstream (isProxy proxyPrivateOnly : bool) (alts : list dnbd3_alt_server_t)
    (image : dnbd3_image_t) : bool :=
  if negb isProxy then false
  else if negb (altservers_imageHasAltServers proxyPrivateOnly alts (img_name image)) then false
  else true.

(** The two counters of the uplink that matter here. *)
Record uplink_bytes := UplinkBytes { ub_received : Z; ub_lastSave : Z }.

Definition cm_set_unchanged (b : bool) (c : dnbd3_cache_map_t) : dnbd3_cache_map_t :=
  CacheMapT (cm_dirty c) b (cm_map c).

(** Whether the map of an image that is replicated from upstream has to be saved. *)
Definition mustSave (full : bool) (cache : dnbd3_cache_map_t) (uplink : option uplink_bytes) : result bool :=
  if cm_dirty cache then Ok true
  else match uplink with
  | None => Ok false
  | Some u =>
      _ ← assert_ (ub_lastSave u <=? ub_received u);
      let diff := u64 (ub_received u - ub_lastSave u) in
      Ok ((CACHE_MAP_MAX_UNSAVED_BYTES <? diff) || (full && negb (diff =? 0)))
  end.

(** The turn of [saveLoadAllCacheMaps] on an image.  [onDisk] is what the map file
    holds, [save] the call of [saveCacheMap], which is given the shared map and
    returns it as it is afterwards. *)
Definition saveOrLoad (save : dnbd3_cache_map_t -> dnbd3_cache_map_t) (full fromUpstream : bool)
    (onDisk : option (list Z)) (image : dnbd3_image_t) (uplink : option uplink_bytes)
  : result (bool * dnbd3_image_t * option uplink_bytes) :=
  match img_cacheMap image with
  | None => Ok (false, image, uplink)
  | Some cache =>
      if fromUpstream then
        must ← mustSave full cache uplink;
        if (must : bool) then
          Ok (true, img_set_cacheMap (Some (save (cm_set_dirty false cache))) image,
              (fun u => UplinkBytes (ub_received u) (ub_received u)) <$> uplink)
        else Ok (false, image, uplink)
      else if full || (negb (cm_unchanged cache) && negb (pr_read (img_problem image))) then
        match image_loadCacheMap onDisk (img_virtualFilesize image) with
        | None => Ok (false, img_set_cacheMap None image, uplink)
        | Some new =>
            let mapSize := Z.to_nat (IMGSIZE_TO_MAPBYTES (img_virtualFilesize image)) in
            if decide (take mapSize (cm_map cache) = take mapSize (cm_map new))
            then Ok (false, img_set_cacheMap (Some (cm_set_unchanged true cache)) image, uplink)
            else Ok (false, img_set_cacheMap (Some new) image, uplink)
        end
      else Ok (false, image, uplink)
  end.

(** A turn on an image that is replicated leaves at most 500 MB of received data
    unlisted on disk, a full turn (every 300 s) none, and clears the dirty flag; a
    turn that does not save changes nothing.  A turn on an image another server
    replicates takes the blocks the file lists (all of them, if there is no file any
    more) whenever it reloads, and never saves. *)
Theorem saveOrLoad_correct save full fromUpstream onDisk image uplink cache :
  image_wf image -> img_cacheMap image = Some cache ->
  (forall u, uplink = Some u -> 0 <= ub_lastSave u <= ub_received u /\ ub_received u < 2 ^ 64) ->
  exists saved image' uplink',
    saveOrLoad save full fromUpstream onDisk image uplink = Ok (saved, image', uplink')
    /\ (if fromUpstream
        then (forall u, uplink' = Some u ->
               ub_received u - ub_lastSave u <= (if full then 0 else CACHE_MAP_MAX_UNSAVED_BYTES))
          /\ (if saved then img_cacheMap image' = Some (save (cm_set_dirty false cache))
              else image' = image /\ uplink' = uplink /\ cm_dirty cache = false)
        else saved = false /\ uplink' = uplink
          /\ (full = true -> forall b, 0 <= b < num_blocks image ->
                is_cached image' b = claims onDisk (img_virtualFilesize image) b)).
Proof.
  intros Hwf Hc Hu. unfold saveOrLoad. rewrite Hc. destruct fromUpstream.
  - unfold mustSave. destruct (cm_dirty cache) eqn:Hd.
    { cbn. eexists _, _, _. split; [done|]. split; [|done].
      intros u (u0 & _ & ->)%fmap_Some. cbn. destruct full; unfold CACHE_MAP_MAX_UNSAVED_BYTES; lia. }
    destruct uplink as [u|]; [|by eexists _, _, _].
    destruct (Hu u eq_refl) as [[H0 H1] H2].
    destruct (Z.leb_spec (ub_lastSave u) (ub_received u)); [|lia]. cbn [assert_ mbind result_bind].
    rewrite u64_id by crange. set (diff := ub_received u - ub_lastSave u) in *.
    destruct (_ || _) eqn:Hs; eexists _, _, _; (split; [done|]); cbn.
    + split; [|done]. intros u' [= <-]. cbn. destruct full; unfold CACHE_MAP_MAX_UNSAVED_BYTES; lia.
    + split; [|done]. intros u' [= <-]. fold diff. apply orb_false_iff in Hs as [Hs1 Hs2].
      apply Z.ltb_ge in Hs1. destruct full; cbn in Hs2; [|lia]. apply negb_false_iff, Z.eqb_eq in Hs2. lia.
  - assert (0 <= img_virtualFilesize image <= 2 ^ 46 - 2 ^ 15) as Hv.
    { pose proof (virtual_nonneg _ Hwf). pose proof (wf_limit _ Hwf). lia. }
    destruct (full || _) eqn:Hr.
    2: { eexists _, _, _. split; [done|]. split_and!; try done. intros ->. done. }
    unfold claims. destruct (image_loadCacheMap onDisk _) as [new|] eqn:Hl.
    2: { eexists _, _, _. split; [done|]. done. }
    pose proof (loaded_length _ _ _ Hv Hl) as Hlen.
    destruct (wf_map _ Hwf _ Hc) as [Hlen2 _].
    pose proof (mapbytes_val (img_virtualFilesize image) Hv) as ->.
    rewrite <- Hlen, Nat2Z.id. rewrite (take_ge (cm_map new)), (take_ge (cm_map cache)) by lia.
    destruct (decide _) as [Heq|Hne]; eexists _, _, _; (split; [done|]); split_and!; try done.
    intros _ b Hb. cbn. by rewrite Heq.
Qed.

(** ** The time of the last access *)

Definition img_set_access (atime : ticks) (accessed : bool) (i : dnbd3_image_t) : dnbd3_image_t :=
  Image (img_path i) (img_name i) (img_cacheMap i) (img_virtualFilesize i) (img_realFilesize i)
    atime (img_nextCompletenessEstimate i) (img_crc32 i) (img_masterCrc32 i) (img_readFd i)
    (img_completenessEstimate i) (img_users i) (img_id i) (img_problem i) (img_rid i) accessed.

Definition newline : ascii := ascii_of_N 10.
Definition meta_head : list ascii := chars "[main]" ++ [newline].

(** [now] and [walltime] are the two clocks; the result is the image and, when the
    file can be opened, its new content.  Twenty digits hold every [uint64_t]. *)
Definition saveMetaData (canOpen : bool) (now : ticks) (walltime : Z) (image : dnbd3_image_t)
  : dnbd3_image_t * option (list ascii) :=
  if negb (img_accessed image) then (image, None)
  else
    let diff := timing_diff (img_atime image) now in
    (img_set_access (img_atime image) false image,
     if canOpen
     then Some (meta_head ++ chars "atime=" ++ print_digits 19 (u64 (walltime - diff)) ++ [newline])%list
     else None).

(** The text up to the terminating zero byte. *)
Fixpoint c_str (s : list ascii) : list ascii :=
  match s with
  | [] => []
  | c :: r => if Ascii.eqb c "000" then [] else c :: c_str r
  end.
Fixpoint strstr (needle s : list ascii) : option (list ascii) :=
  if decide (take (length needle) s = needle) then Some s
  else match s with
  | [] => None
  | _ :: r => strstr needle r
  end.

(** [file]: the content of the [.meta] file if it can be opened and read. *)
Definition metaOffset (file : option (list ascii)) (walltime : Z) : Z :=
  match file with
  | Some (c :: r) =>
      match strstr (chars "atime=") (c_str (take 199 (c :: r))) with
      | Some pos => i32 (atoi (unchars (drop 6 pos)) - walltime)
      | None => 1
      end
  | _ => 1
  end.

(** [mtime]: what [stat] of the image gives; [clock] and [basetime]: the monotonic clock. *)
Definition loadImageMeta (file : option (list ascii)) (mtime : option Z) (walltime : Z)
    (clock basetime : ticks) (image : dnbd3_image_t) : dnbd3_image_t :=
  let offset := metaOffset file walltime in
  let '(offset, accessed) :=
    if offset =? 1 then
      (match mtime with Some t => i32 (t - walltime) | None => 0 end, true)
    else (offset, img_accessed image) in
  let offset := if 0 <? offset then 0 else offset in
  img_set_access (timing_gets clock basetime offset) accessed image.

Lemma meta_found n : c_str (take 199 (meta_head ++ chars "atime=" ++ print_digits 19 n ++ [newline])%list)
  = (meta_head ++ chars "atime=" ++ c_str (take 186 (print_digits 19 n ++ [newline])))%list.
Proof. reflexivity. Qed.
Lemma meta_pos t : strstr (chars "atime=") (meta_head ++ chars "atime=" ++ t)%list = Some (chars "atime=" ++ t)%list.
Proof. reflexivity. Qed.

Lemma print_digits_length f n : (length (print_digits f n) <= S f)%nat.
Proof.
  revert n. induction f as [|f IH]; intros n; cbn [print_digits]; [done|].
  destruct (n <? 10); [cbn; lia|]. rewrite length_app. specialize (IH (n / 10)). cbn. lia.
Qed.
Lemma c_str_id s : (forall x, x ∈ s -> x <> "000"%char) -> c_str s = s.
Proof.
  induction s as [|c r IH]; intros Hs; [done|]. cbn. destruct (Ascii.eqb_spec c "000") as [->|_].
  - by destruct (Hs "000"%char (list_elem_of_here _ _)).
  - rewrite IH; [done|]. intros x Hx. apply Hs. by right.
Qed.
Lemma digit_not_zero c : is_Some (digit c) -> c <> "000"%char.
Proof. intros [d Hd] ->. done. Qed.

(** Text after the number does not disturb [atoi]. *)
Lemma digits_stop l c acc : (forall x, x ∈ l -> is_Some (digit x)) -> digit c = None ->
  digits (l ++ [c]) acc = digits l acc.
Proof.
  revert acc. induction l as [|x l IH]; intros acc Hl Hc; cbn; [by rewrite Hc|].
  destruct (Hl x) as [d ->]; [by left|]. apply IH; [|done]. intros y Hy. apply Hl. by right.
Qed.
Lemma atoi_digits l c : l <> [] -> (forall x, x ∈ l -> is_Some (digit x)) -> digit c = None ->
  atoi (unchars (l ++ [c])%list) = digits l 0.
Proof.
  intros Hne Hl Hc. unfold atoi. rewrite chars_unchars. destruct l as [|x l]; [done|].
  destruct (digit_not_space x) as (H1 & H2 & H3 & _); [by apply Hl; left|].
  cbn [app dropWhile]. rewrite H1, H2, H3. by apply (digits_stop (x :: l)).
Qed.
Lemma print_digits_nonempty f n : print_digits f n <> [].
Proof. destruct f; cbn; [done|]. destruct (n <? 10); [done|]. by destruct (print_digits f (n / 10)). Qed.

Lemma metaOffset_saved n walltime :
  0 <= n < 10 ^ 20 -> in_i32 (n - walltime) ->
  metaOffset (Some (meta_head ++ chars "atime=" ++ print_digits 19 n ++ [newline])%list) walltime = n - walltime.
Proof.
  intros Hn Hi. unfold metaOffset.
  change (meta_head ++ ?x)%list with ("["%char :: (chars "main]" ++ [newline]) ++ x)%list at 1.
  cbn match. change ("["%char :: (chars "main]" ++ [newline]) ++ ?x)%list with (meta_head ++ x)%list.
  rewrite meta_found.
  rewrite (take_ge (print_digits 19 n ++ [newline])) by
    (rewrite length_app; pose proof (print_digits_length 19 n); cbn [length]; lia).
  rewrite c_str_id.
  2: { intros x [Hx|Hx%list_elem_of_singleton]%elem_of_app; [|by subst x].
       apply digit_not_zero. by apply (print_digits_digit 19 n); [lia|]. }
  rewrite meta_pos. change (drop 6 (chars "atime=" ++ ?t)%list) with t.
  rewrite atoi_digits; [|apply print_digits_nonempty|apply print_digits_digit; lia|done].
  rewrite digits_print by lia. by apply i32_id.
Qed.

(** The time of the last access survives a restart: if the image was last used
    [age] seconds before it is saved at wall-clock time [walltime], then when it is
    loaded at [walltime'] from what was written, its access time lies [age] plus the
    time between the two in the past, and it does not count as accessed since. *)
Theorem meta_roundtrip now walltime image file mtime walltime' clock basetime image' :
  img_accessed image = true -> img_accessed image' = false ->
  let age := timing_diff (img_atime image) now in
  age <= walltime < 2 ^ 63 -> 0 <= walltime' - walltime + age < 2 ^ 31 ->
  (saveMetaData true now walltime image).2 = Some file ->
  let loaded := loadImageMeta (Some file) mtime walltime' clock basetime image' in
  tv_sec (timing_get clock basetime) - tv_sec (img_atime loaded) = walltime' - walltime + age
  /\ img_accessed loaded = false
  /\ img_accessed (saveMetaData true now walltime image).1 = false.
Proof.
  intros Ha Ha' age Hage Hw. unfold saveMetaData. rewrite Ha. cbn [negb fst snd]. fold age.
  assert (0 <= age) by (unfold age, timing_diff; destruct (_ <=? _); [lia|apply u32_range]).
  rewrite u64_id by crange. intros <-%(inj Some). cbn zeta.
  set (n := walltime - age). unfold loadImageMeta.
  rewrite metaOffset_saved by (unfold in_i32, n; lia).
  destruct (Z.eqb_spec (n - walltime') 1); [unfold n in *; lia|].
  destruct (Z.ltb_spec 0 (n - walltime')); [unfold n in *; lia|].
  split_and!; [|exact Ha'|done]. unfold timing_gets, img_set_access, n. cbn [img_atime tv_sec]. lia.
Qed.

Definition demo_accessed : dnbd3_image_t :=
  img_set_access (Ticks 100 0) true demo_image.
Lemma meta_roundtrip_witness :
  tv_sec (img_atime (loadImageMeta (Some (meta_head ++ chars "atime=999950" ++ [newline])%list) None 1000060
            (Ticks 5007 0) (Ticks 5000 0) (img_set_access (Ticks 0 0) false demo_image))) = 7 - 110.
Proof.
  pose proof (meta_roundtrip (Ticks 150 0) 1000000 demo_accessed (meta_head ++ chars "atime=999950" ++ [newline])%list
    None 1000060 (Ticks 5007 0) (Ticks 5000 0) (img_set_access (Ticks 0 0) false demo_image)) as H.
  destruct H as [H _]; [reflexivity|reflexivity| | |vm_compute; reflexivity|].
  - change (timing_diff (img_atime demo_accessed) (Ticks 150 0)) with 50. lia.
  - change (timing_diff (img_atime demo_accessed) (Ticks 150 0)) with 50. lia.
  - change (timing_diff (img_atime demo_accessed) (Ticks 150 0)) with 50 in H.
    change (tv_sec (timing_get (Ticks 5007 0) (Ticks 5000 0))) with 7 in H. lia.
Defined.
