(* ===== verification/ImageName.v ===== *)
(** * ImageName: image names, revisions and file names ([server/image.c])

    An image [name:rid] lives in the file [<basePath>/<name>.r<rid>].  This file holds
    the two directions, [image_create]'s and [loadImageServer]'s path and [image_load]'s
    parser, with the search for the highest revision on disk.  Characters are
    [ascii]s, a C string the list of its characters. *)

From Stdlib Require Import Ascii.
From stdpp Require Import sets.
From S2P Require Import Prelude Timing Types Helper.
Open Scope Z_scope.


(** ** Taking a path apart *)

(** [strrchr]: the text before and after the last [c]. *)
Fixpoint lastSplit (c : ascii) (s : list ascii) : option (list ascii * list ascii) :=
  match s with
  | [] => None
  | x :: r =>
      match lastSplit c r with
      | Some (a, b) => Some (x :: a, b)
      | None => if Ascii.eqb x c then Some ([], r) else None
      end
  end.

Definition is_digit (c : ascii) : bool := match digit c with Some _ => true | None => false end.

(** [for (i = fileNameLen - 1; i > 1; --i) if (!isdigit(fileName[i])) break;] *)
Fixpoint digitScan (f : list ascii) (i : nat) : nat :=
  match i with
  | O | S O => i
  | S i' => match f !! i with Some c => if is_digit c then digitScan f i' else i | None => i end
  end.

(** [atoi] as the C library has it: [strtol], then the low 32 bits. *)
Definition atoi32 (s : list ascii) : Z :=
  i32 (Z.max (- 2 ^ 63) (Z.min (2 ^ 63 - 1) (atoi (unchars s)))).

(** What the file name says: the part before [.r<digits>] and the revision.  An empty
    file name makes [fileNameLen - 1] wrap around. *)
Definition parseRevision (fileName : list ascii) : result (option (list ascii * Z)) :=
  let fileNameLen := length fileName in
  match fileNameLen with
  | O => Fault OutOfBounds
  | S last =>
      let i := digitScan fileName last in
      if (i =? last)%nat then Ok None
      else
        c ← aget fileName (Z.of_nat i);
        if negb (Ascii.eqb c "r") then Ok None
        else
          p ← aget fileName (Z.of_nat i - 1);
          if negb (Ascii.eqb p ".") then Ok None
          else Ok (Some (take (i - 1) fileName, atoi32 (drop (i + 1) fileName)))
  end.

(** The buffer [imgName] has [strlen(path)] bytes. *)
Definition storeName (path name : list ascii) : result (list ascii) :=
  if (length name <? length path)%nat then Ok name else Fault OutOfBounds.

(** The checks and the parsing at the start of [image_load].  [readable] says whether
    the legacy fall-back can open the file.  [None] is [goto load_error]. *)
Definition parsePath (legacy readable : bool) (base path : list ascii) : result (option (list ascii * Z)) :=
  _ ← assert_ (match path with c :: _ => Ascii.eqb c "/" | [] => false end);
  _ ← assert_ (bool_decide (take (length base) path = base));
  _ ← assert_ (match list.last base with Some c => negb (Ascii.eqb c "/") | None => false end);
  _ ← assert_ (length base <? length path)%nat;
  match lastSplit "/" path with
  | None => Fault NullDeref
  | Some (dir, fileName) =>
      let virtBase := drop (length base + 1) path in
      _ ← assert_ (match virtBase with c :: _ => negb (Ascii.eqb c "/") | [] => true end);
      let prefix := drop (length base + 1) (dir ++ ["/"%char]) in
      r ← parseRevision fileName;
      let '(stem, revision) := default ([], -1) r in
      imgName ← storeName path (prefix ++ stem)%list;
      if legacy && (revision =? -1) then
        if negb readable then Ok None
        else imgName ← storeName path (imgName ++ fileName)%list; Ok (Some (imgName, 1))
      else if (revision <=? 0) || (65536 <=? revision) then Ok None
      else Ok (Some (imgName, revision))
  end.

(** ** Building a path *)

(** ["%s/%s.r%d"]; five digits are enough for a revision. *)
Definition imagePath (base name : list ascii) (rid : Z) : list ascii :=
  (base ++ ["/"%char] ++ name ++ [".";"r"]%char ++ print_digits 5 rid)%list.

Definition PATHLEN : Z := 2000.

(** The files [image_create] leaves: sizes of the image and of the map.  [alloc] and
    [setSize] are the outcomes of [file_alloc] and [file_setSize] of the image,
    [allocMap] whether one of the two worked for the map. *)
Record create_env := CreateEnv {
  ce_openImage : bool;
  ce_openCache : bool;
  ce_allocMap : bool;
  ce_sparseFiles : bool;
  ce_ignoreAllocErrors : bool;
  ce_alloc : bool;
  ce_setSize : bool;
}.

Definition roundSize (size : Z) : Z :=
  u64 (size + DNBD3_BLOCK_SIZE - 1) .& not64 (DNBD3_BLOCK_SIZE - 1).

(** [mapbytes] is [IMGSIZE_TO_MAPBYTES].  The result holds the path and the lengths of
    the image file and of the map file, both filled with zeroes. *)
Definition image_create (e : create_env) (mapbytes : Z -> Z) (base image : list ascii) (revision size : Z)
  : result (option (list ascii * Z * Z)) :=
  _ ← assert_ (DNBD3_BLOCK_SIZE <=? size);
  if revision <=? 0 then Ok None
  else
    let path := take (Z.to_nat (PATHLEN - 1)) (imagePath base image revision) in
    let size := roundSize size in
    let mapsize := mapbytes size in
    if negb (ce_openImage e) then Ok None
    else if negb (ce_openCache e) then Ok None
    else
      let mapLen := if ce_allocMap e then mapsize else 0 in
      let allocated := negb (ce_sparseFiles e) && ce_alloc e in
      if negb (ce_sparseFiles e) && negb (ce_alloc e) && negb (ce_ignoreAllocErrors e) then Ok None
      else if negb allocated && negb (ce_setSize e) then Ok None
      else Ok (Some (path, size, mapLen)).

(** ** Finding a revision on disk *)

(** The revision in a path [glob] found: digits to the end after [.r]. *)
Definition globRid (path : list ascii) : option Z :=
  match lastSplit "r" path with
  | None => None
  | Some (before, rev) =>
      match list.last before, rev with
      | Some c, d :: _ =>
          if Ascii.eqb c "." && forallb is_digit rev then Some (Z.min (2 ^ 63 - 1) (digits rev 0)) else None
      | _, _ => None
      end
  end.

Definition better (acc : list ascii * Z) (path : list ascii) : list ascii * Z :=
  match globRid path with
  | Some val => if acc.2 <? val then (take (Z.to_nat (PATHLEN - 1)) path, val) else acc
  | None => acc
  end.

Definition isForbiddenExtension (name : list ascii) : bool :=
  let len := length name in
  if (len <? 4)%nat then false
  else if decide (drop (len - 4) name = chars ".crc") then true
  else if decide (drop (len - 4) name = chars ".map") then true
  else if (len <? 5)%nat then false
  else if decide (drop (len - 5) name = chars ".meta") then true
  else false.

Inductive load_plan :=
| PlanGet (rid : Z)                               (* [image_get(name, rid)] *)
| PlanLoad (imageFile : list ascii) (rid : Z).    (* [image_load] of the file *)

Section Server.
(** [listing]: what [glob] matched, [None] if it failed; [readable]:
    [file_isReadable]; [loaded]: whether [image_get] of that revision finds an image. *)
Context (legacyMode : bool) (base name : list ascii) (listing : option (list (list ascii))).
Context (readable : list ascii -> bool) (loaded : Z -> bool).

Definition detectRid (requestedRid : Z) : list ascii * Z :=
  if negb (requestedRid =? 0) then (take (Z.to_nat (PATHLEN - 1)) (imagePath base name requestedRid), requestedRid)
  else match listing with
  | None => ([], 0)
  | Some paths =>
      let '(imageFile, best) := foldl better ([], 0) paths in
      (imageFile, if (0 <? best) && (best <? 65536) then u16 best else 0)
  end.

(** The loop that lowers the revision: [inl] when [image_get] finds the image. *)
Fixpoint lowerRid (detectedRid : nat) (imageFile : list ascii) (requestedRid : Z) : Z + list ascii * Z :=
  match detectedRid with
  | O => inr (imageFile, 0)
  | S rest =>
      if loaded (Z.of_nat detectedRid) then inl (Z.of_nat detectedRid)
      else if readable imageFile then inr (imageFile, Z.of_nat detectedRid)
      else lowerRid rest (take (Z.to_nat (PATHLEN - 1)) (imagePath base name requestedRid)) requestedRid
  end.

Definition loadImageServer (requestedRid : Z) : load_plan :=
  let '(imageFile, detectedRid) := detectRid requestedRid in
  let isLegacyFile := legacyMode && (requestedRid <=? 1) && negb (isForbiddenExtension name)
                      && ((detectedRid =? 0) || negb (readable imageFile)) in
  let '(imageFile, detectedRid) :=
    if isLegacyFile then (take (Z.to_nat (PATHLEN - 1)) (base ++ ["/"%char] ++ name)%list, 1)
    else (imageFile, detectedRid) in
  if detectedRid =? 0 then PlanGet requestedRid
  else
    match (if negb isLegacyFile && (requestedRid =? 0)
           then lowerRid (Z.to_nat detectedRid) imageFile requestedRid
           else inr (imageFile, detectedRid)) with
    | inl rid => PlanGet rid
    | inr (imageFile, detectedRid) =>
        if loaded detectedRid then PlanGet detectedRid else PlanLoad imageFile detectedRid
    end.
End Server.

(** ** The round trip *)

Lemma lastSplit_None c s : c ∉ s -> lastSplit c s = None.
Proof.
  induction s as [|x s IH]; [done|]. rewrite not_elem_of_cons. intros [Hx Hs]. cbn. rewrite IH by done.
  destruct (Ascii.eqb_spec x c); [congruence|done].
Qed.
Lemma lastSplit_app c a b : c ∉ b -> lastSplit c (a ++ c :: b) = Some (a, b).
Proof.
  intros Hb. induction a as [|x a IH]; cbn; [rewrite lastSplit_None by done; by rewrite Ascii.eqb_refl|].
  by rewrite IH.
Qed.
Lemma lastSplit_inv c s :
  match lastSplit c s with Some (a, b) => s = (a ++ c :: b)%list /\ c ∉ b | None => c ∉ s end.
Proof.
  induction s as [|x s IH]; cbn; [apply not_elem_of_nil|]. destruct (lastSplit c s) as [[a b]|].
  - destruct IH as [-> ?]. done.
  - destruct (Ascii.eqb_spec x c) as [->|?]; [done|]. rewrite not_elem_of_cons. auto.
Qed.

Lemma digitScan_stop stem c ds :
  (0 < length stem)%nat -> is_digit c = false -> Forall (fun x => is_Some (digit x)) ds ->
  forall k, (k <= length ds)%nat ->
  digitScan (stem ++ c :: ds) (length stem + k) = (if (length stem =? 1)%nat then 1 else length stem)%nat.
Proof.
  intros Hs Hc Hds. induction k as [|k IH]; intros Hk.
  - rewrite Nat.add_0_r. destruct (length stem) as [|[|n]] eqn:E; [lia|done|]. cbn [Nat.eqb digitScan].
    rewrite <- E, list_lookup_middle by done. by rewrite Hc.
  - rewrite <- IH by lia. replace (length stem + S k)%nat with (S (length stem + k)) by lia.
    destruct (length stem + k)%nat as [|n] eqn:E; [lia|]. cbn [digitScan]. rewrite <- E.
    destruct (lookup_lt_is_Some_2 ds k) as [d Hd]; [lia|].
    rewrite lookup_app_r by lia. replace (S (length stem + k) - length stem)%nat with (S k) by lia.
    change ((c :: ds) !! S k) with (ds !! k). rewrite Hd.
    unfold is_digit. apply (Forall_lookup_1 _ _ _ _ Hds) in Hd as [? ->]. done.
Qed.

Lemma atoi32_print rid : 1 <= rid <= 65535 -> atoi32 (print_digits 5 rid) = rid.
Proof.
  intros Hr. unfold atoi32. change (unchars (print_digits 5 rid)) with (print_port rid).
  rewrite atoi_print by lia. rewrite Z.min_r, Z.max_r by lia. apply i32_id. unfold in_i32. lia.
Qed.

Lemma print_digits_cons f n : exists c r, print_digits f n = c :: r.
Proof.
  destruct f; cbn [print_digits]; [eauto|]. destruct (n <? 10); [eauto|].
  destruct (print_digits f (n / 10)); cbn; eauto.
Qed.

Lemma parseRevision_name stem rid :
  stem <> [] -> 1 <= rid <= 65535 ->
  parseRevision (stem ++ [".";"r"]%char ++ print_digits 5 rid) = Ok (Some (stem, rid)).
Proof.
  intros Hs Hr. set (ds := print_digits 5 rid).
  assert (stem ++ [".";"r"]%char ++ ds = (stem ++ ["."]%char) ++ "r"%char :: ds)%list as Hf
    by (by rewrite <- app_assoc).
  set (st := (stem ++ ["."]%char)%list) in *.
  assert (length st = S (length stem)) as Hst by (unfold st; rewrite length_app; cbn; lia).
  assert (0 < length stem)%nat by (destruct stem; [done|cbn; lia]).
  assert (0 < length ds)%nat by (unfold ds; destruct (print_digits_cons 5 rid) as (?&?&->); cbn; lia).
  unfold parseRevision. rewrite Hf.
  replace (length (st ++ "r"%char :: ds)) with (S (length st + length ds)) by (rewrite length_app; cbn; lia).
  rewrite digitScan_stop; [|lia|done| |lia].
  2: { apply list.Forall_forall. intros x. apply print_digits_digit. lia. }
  rewrite Hst. cbn [Nat.eqb]. destruct (Nat.eqb_spec (length stem) 0); [lia|].
  destruct (Nat.eqb_spec (S (length stem)) (S (length stem) + length ds)); [lia|].
  rewrite (aget_ok _ (Z.of_nat (S (length stem))) "r"%char); [|lia|].
  2: { replace (Z.to_nat _) with (length st) by lia. by apply list_lookup_middle. }
  cbn [mbind result_bind]. change (Ascii.eqb "r" "r") with true. cbn [negb].
  rewrite (aget_ok _ _ "."%char); [|lia|].
  2: { replace (Z.to_nat (Z.of_nat (S (length stem)) - 1)) with (length stem) by lia.
       unfold st. rewrite <- app_assoc. by apply list_lookup_middle. }
  cbn [mbind result_bind]. change (Ascii.eqb "." ".") with true. cbn [negb]. do 3 f_equal.
  - unfold st. rewrite <- app_assoc. replace (S (length stem) - 1)%nat with (length stem) by lia.
    by rewrite take_app_length.
  - rewrite <- Hst, Nat.add_1_r. change (S (length st)) with (length [true] + length st)%nat.
    rewrite Nat.add_comm, <- drop_drop, drop_app_length. cbn. by apply atoi32_print.
Qed.

Definition name_ok (name : list ascii) : Prop :=
  (exists c r, name = c :: r /\ c <> "/"%char) /\ list.last name <> Some "/"%char.
Definition base_ok (base : list ascii) : Prop :=
  head base = Some "/"%char /\ exists c, list.last base = Some c /\ c <> "/"%char.

Lemma slash_free_suffix rid : 0 <= rid -> "/"%char ∉ ([".";"r"]%char ++ print_digits 5 rid)%list.
Proof.
  intros Hr [H|[d Hd]%print_digits_digit]%elem_of_app; [set_solver|done|lia].
Qed.

(** A path below [base], taken apart at its last slash. *)
Lemma parsePath_split legacy readable base pre file :
  base_ok base -> pre = [] \/ (exists a, pre = a ++ ["/"%char])%list -> head (pre ++ file) <> Some "/"%char -> "/"%char ∉ file ->
  let path := (base ++ "/"%char :: pre ++ file)%list in
  parsePath legacy readable base path =
  (r ← parseRevision file;
   let '(stem, revision) := default ([], -1) r in
   imgName ← storeName path (pre ++ stem)%list;
   if legacy && (revision =? -1) then
     if negb readable then Ok None
     else imgName ← storeName path (imgName ++ file)%list; Ok (Some (imgName, 1))
   else if (revision <=? 0) || (65536 <=? revision) then Ok None
   else Ok (Some (imgName, revision))).
Proof.
  intros [Hb1 (bc & Hb2 & Hb3)] Hpre Hhead Hfile path. unfold parsePath, path.
  destruct base as [|b0 base0] eqn:Hbase; [done|]. injection Hb1 as ->. rewrite <- Hbase in *.
  replace (match (base ++ "/"%char :: pre ++ file)%list with c :: _ => Ascii.eqb c "/" | [] => false end)
    with true by (by rewrite Hbase).
  cbn [assert_ mbind result_bind]. rewrite take_app_length, bool_decide_true by done.
  cbn [assert_ mbind result_bind]. rewrite Hb2. destruct (Ascii.eqb_spec bc "/"); [done|].
  cbn [negb assert_ mbind result_bind].
  rewrite (proj2 (Nat.ltb_lt _ _)) by (rewrite length_app; cbn; lia). cbn [assert_ mbind result_bind].
  assert (exists dir, (base ++ "/"%char :: pre = dir ++ ["/"%char])%list) as [dir Hdir].
  { destruct Hpre as [->|[a ->]]; [by exists base|]. exists (base ++ "/"%char :: a)%list. by rewrite <- app_assoc. }
  assert (base ++ "/"%char :: pre ++ file = dir ++ "/"%char :: file)%list as Hpath.
  { rewrite app_comm_cons, app_assoc, Hdir, <- app_assoc. done. }
  rewrite Hpath at 1. rewrite lastSplit_app by done.
  assert (forall t : list ascii, drop (length base + 1) (base ++ "/"%char :: t) = t) as Hdrop.
  { intros t. rewrite <- drop_drop, drop_app_length. done. }
  rewrite Hdrop. rewrite <- Hdir, Hdrop.
  replace (match (pre ++ file)%list with c :: _ => negb (Ascii.eqb c "/") | [] => true end) with true.
  2: { destruct (pre ++ file)%list as [|c r]; [done|]. destruct (Ascii.eqb_spec c "/"); [by subst|done]. }
  cbn [assert_ mbind result_bind]. done.
Qed.
Lemma parsePath_file legacy readable base pre file stem rid :
  base_ok base -> pre = [] \/ (exists a, pre = a ++ ["/"%char])%list -> head (pre ++ file) <> Some "/"%char ->
  "/"%char ∉ file -> parseRevision file = Ok (Some (stem, rid)) -> 1 <= rid <= 65535 ->
  (length stem <= length file)%nat ->
  parsePath legacy readable base (base ++ "/"%char :: pre ++ file) = Ok (Some (pre ++ stem, rid))%list.
Proof.
  intros Hb Hpre Hhead Hfile Hrev Hr Hlen. rewrite parsePath_split by done. rewrite Hrev. cbn [mbind result_bind default id]. unfold storeName.
  rewrite (proj2 (Nat.ltb_lt (length (pre ++ stem)) _)) by (rewrite !length_app; cbn; rewrite length_app; lia).
  cbn [mbind result_bind]. destruct (Z.eqb_spec rid (-1)); [lia|]. rewrite andb_false_r.
  destruct (Z.leb_spec rid 0); [lia|]. destruct (Z.leb_spec 65536 rid); [lia|]. done.
Qed.
Lemma digitScan_bounds f i : (digitScan f i <= i)%nat /\ ((1 <= i)%nat -> (1 <= digitScan f i)%nat).
Proof.
  induction i as [|i IH]; [done|]. cbn [digitScan]. destruct i as [|i]; [lia|]. destruct (f !! S (S i)) as [c|]; [|lia]. destruct (is_digit c); lia.
Qed.
(** Any file name but an empty one is parsed; the stem is shorter than the name. *)
Lemma parseRevision_total file : file <> [] -> exists r, parseRevision file = Ok r /\ forall stem rid, r = Some (stem, rid) -> (length stem <= length file)%nat.
Proof.
  intros Hf. unfold parseRevision. destruct (length file) as [|last] eqn:El; [by apply nil_length_inv in El|]. pose proof (digitScan_bounds file last) as [H1 H2].
  destruct (Nat.eqb_spec (digitScan file last) last) as [|Hne]; [by exists None|].
  destruct (lookup_lt_is_Some_2 file (digitScan file last)) as [c Hc]; [lia|]. rewrite (aget_ok _ (Z.of_nat (digitScan file last)) c); [|lia|by rewrite Nat2Z.id]. cbn [mbind result_bind].
  destruct (negb _); [by exists None|]. destruct (lookup_lt_is_Some_2 file (digitScan file last - 1)) as [d Hd]; [lia|].
  rewrite (aget_ok _ (Z.of_nat (digitScan file last) - 1) d); [|lia|by replace (Z.to_nat _) with (digitScan file last - 1)%nat by lia]. cbn [mbind result_bind].
  destruct (negb _); [by exists None|]. eexists. split; [done|]. intros stem rid [= <- _]. rewrite length_take. lia.
Qed.
(** Without the legacy mode no path below [base] goes wrong. *)
Lemma parsePath_total readable base pre file :
  base_ok base -> pre = [] \/ (exists a, pre = a ++ ["/"%char])%list -> head (pre ++ file) <> Some "/"%char -> "/"%char ∉ file -> file <> [] ->
  exists r, parsePath false readable base (base ++ "/"%char :: pre ++ file)%list = Ok r.
Proof.
  intros Hb Hpre Hhead Hfile Hne. rewrite parsePath_split by done. destruct (parseRevision_total file Hne) as (r & -> & Hr). cbn [mbind result_bind andb].
  destruct r as [[stem rid]|]; cbn [default id]; unfold storeName; rewrite (proj2 (Nat.ltb_lt (length _) _)); cbn [mbind result_bind]; try (destruct (_ || _); by eexists);
    [specialize (Hr stem rid eq_refl)|]; rewrite !length_app; cbn [length]; rewrite length_app; lia.
Qed.

Lemma parse_path_of legacy readable base name rid :
  base_ok base -> name_ok name -> 1 <= rid <= 65535 ->
  parsePath legacy readable base (imagePath base name rid) = Ok (Some (name, rid)).
Proof.
  intros Hb [(c & r & Hn & Hc) Hlast] Hr. unfold imagePath.
  set (ext := ([".";"r"]%char ++ print_digits 5 rid)%list).
  assert ("/"%char ∉ ext) by (apply slash_free_suffix; lia).
  pose proof (lastSplit_inv "/" name) as Hsplit.
  destruct (lastSplit "/" name) as [[a b]|].
  - destruct Hsplit as [Hname Hslash].
    assert (b <> []) by (intros ->; apply Hlast; rewrite Hname; apply last_snoc).
    replace (base ++ ["/"%char] ++ name ++ ext)%list
      with (base ++ "/"%char :: (a ++ ["/"%char]) ++ (b ++ ext))%list
      by (rewrite Hname, <- !app_assoc; done).
    rewrite (parsePath_file _ _ base (a ++ ["/"%char]) (b ++ ext) b rid); [|done|eauto| | |by apply parseRevision_name|done|].
    + by rewrite Hname, <- app_assoc.
    + rewrite <- app_assoc. cbn [app]. rewrite app_comm_cons, app_assoc, <- Hname, Hn. cbn. congruence.
    + rewrite elem_of_app. tauto.
    + rewrite length_app. lia.
  - change (base ++ ["/"%char] ++ name ++ ext)%list with (base ++ "/"%char :: [] ++ (name ++ ext))%list.
    rewrite (parsePath_file _ _ base [] (name ++ ext) name rid); [done|done|auto| | |apply parseRevision_name; [by subst|done]|done|].
    + rewrite Hn. cbn. congruence.
    + rewrite elem_of_app. tauto.
    + rewrite length_app. lia.
Qed.

(** An image keeps its name: the path that [image_create] and [loadImageServer] build
    for a name and a revision is parsed by [image_load] into exactly that name and
    revision, also when the name has directories or contains [.r<digits>] itself, with
    none of its assertions failing and without leaving its name buffer; it does not
    matter whether the legacy mode is on. *)
Theorem image_file_name_roundtrip legacy readable base name rid :
  base_ok base -> name_ok name -> 1 <= rid <= 65535 ->
  parsePath legacy readable base (imagePath base name rid) = Ok (Some (name, rid)).
Proof. apply parse_path_of. Qed.

Lemma image_file_name_roundtrip_witness :
  parsePath true false (chars "/mnt/img") (imagePath (chars "/mnt/img") (chars "win/lab.r7.vmdk") 12)
  = Ok (Some (chars "win/lab.r7.vmdk", 12)).
Proof.
  apply image_file_name_roundtrip.
  - split; [reflexivity|]. eexists. split; [reflexivity|discriminate].
  - split; [eexists _, _; split; [reflexivity|discriminate]|discriminate].
  - lia.
Defined.

(** ** The revision that is loaded *)

Lemma better_spec paths : forall f0 b0 f b,
  foldl better (f0, b0) paths = (f, b) ->
  b0 <= b /\ (forall p v, p ∈ paths -> globRid p = Some v -> v <= b)
  /\ ((f, b) = (f0, b0) \/ exists p, p ∈ paths /\ globRid p = Some b /\ f = take (Z.to_nat (PATHLEN - 1)) p).
Proof.
  induction paths as [|p paths IH]; intros f0 b0 f b H; cbn [foldl] in H.
  { injection H as <- <-. split_and!; [lia|by intros ? ? ?%not_elem_of_nil|by left]. }
  destruct (better (f0, b0) p) as [f1 b1] eqn:Hp. apply IH in H as (H1 & H2 & H3). unfold better in Hp. cbn [snd] in Hp.
  destruct (globRid p) as [v|] eqn:Hv; [destruct (Z.ltb_spec b0 v)|]; injection Hp as <- <-;
    (split_and!; [lia| |]).
  1, 3, 5: intros q w [->|Hq]%elem_of_cons Hw; [simplify_eq; lia|by eapply H2].
  - right. destruct H3 as [[= -> ->]|(q & ? & ? & ?)]; [exists p|exists q]; split_and!; try done; by constructor.
  - destruct H3 as [[= -> ->]|(q & ? & ? & ?)]; [by left|]. right. exists q. split_and!; try done; by constructor.
  - destruct H3 as [[= -> ->]|(q & ? & ? & ?)]; [by left|]. right. exists q. split_and!; try done; by constructor.
Qed.

Lemma globRid_path base name rid : 1 <= rid <= 65535 -> globRid (imagePath base name rid) = Some rid.
Proof.
  intros Hr. unfold globRid, imagePath.
  replace (base ++ ["/"%char] ++ name ++ [".";"r"]%char ++ print_digits 5 rid)%list
    with ((base ++ ["/"%char] ++ name ++ ["."%char]) ++ "r"%char :: print_digits 5 rid)%list
    by (rewrite <- !app_assoc; done).
  pose proof (print_digits_digit 5 rid ltac:(lia)) as Hd. rewrite lastSplit_app by (intros [? H]%Hd; done).
  rewrite !app_assoc, last_snoc. destruct (print_digits_cons 5 rid) as (d & ds & Hp). rewrite Hp, <- Hp.
  cbn [Ascii.eqb]. change (Ascii.eqb "." ".") with true. cbn [andb].
  replace (forallb is_digit (print_digits 5 rid)) with true.
  - rewrite digits_print by lia. f_equal. lia.
  - symmetry. apply forallb_forall. intros x Hx%list_elem_of_In%Hd. unfold is_digit. by destruct Hx as [? ->].
Qed.

(** A server that is asked for a certain revision loads the file of that revision,
    unless it is loaded already; asked for revision 0 it takes the highest revision
    [glob] finds, if that file can be read and the revision is a valid one. *)
Theorem loadImageServer_correct base name paths readable loaded rid :
  0 <= rid <= 65535 ->
  let plan := loadImageServer false base name (Some paths) readable loaded rid in
  (rid <> 0 -> plan = if loaded rid then PlanGet rid
                      else PlanLoad (take (Z.to_nat (PATHLEN - 1)) (imagePath base name rid)) rid)
  /\ (rid = 0 -> (exists p v, p ∈ paths /\ globRid p = Some v /\ 0 < v) ->
      (forall p v, p ∈ paths -> globRid p = Some v -> v < 65536 /\ readable (take (Z.to_nat (PATHLEN - 1)) p) = true) ->
      exists p best, p ∈ paths /\ globRid p = Some best
        /\ (forall q v, q ∈ paths -> globRid q = Some v -> v <= best)
        /\ plan = if loaded best then PlanGet best else PlanLoad (take (Z.to_nat (PATHLEN - 1)) p) best).
Proof.
  intros Hr. cbn zeta. unfold loadImageServer, detectRid. split.
  - intros Hne. destruct (Z.eqb_spec rid 0); [done|]. cbn [negb andb].
    destruct (Z.eqb_spec rid 0); [done|]. done.
  - intros -> (p0 & v0 & Hp0 & Hv0 & Hpos) Hall. cbn [negb Z.eqb].
    destruct (foldl better ([], 0) paths) as [f best] eqn:Hf.
    apply better_spec in Hf as (H1 & H2 & H3). pose proof (H2 _ _ Hp0 Hv0).
    destruct H3 as [[= -> ->]|(p & Hp & Hb & ->)]; [lia|]. destruct (Hall p best Hp Hb) as [Hlt Hread].
    exists p, best. split_and!; [done..|]. destruct (Z.ltb_spec 0 best); [|lia]. destruct (Z.ltb_spec best 65536); [|lia].
    cbn [andb negb]. unfold u16. rewrite Z.mod_small by lia.
    destruct (Z.eqb_spec best 0); [lia|].
    destruct (Z.to_nat best) as [|k] eqn:En; [lia|]. cbn [lowerRid]. rewrite Hread.
    replace (Z.of_nat (S k)) with best by lia. by destruct (loaded best) eqn:E; rewrite ?E.
Qed.

(** If the highest revision on disk cannot be read, the lower ones are not found: the
    loop that lowers the revision rebuilds the path from the requested revision, which
    is 0.  A file with a revision above 65535 hides the valid ones, too. *)
Theorem lower_revision_not_found :
  let base := chars "/img" in let name := chars "lab" in
  let file := imagePath base name in
  loadImageServer false base name (Some [file 3; file 2]) (fun f => bool_decide (f = file 2)) (fun _ => false) 0
    = PlanLoad (file 0) 0
  /\ parsePath false true base (file 0) = Ok None
  /\ loadImageServer false base name (Some [file 2; file 70000]) (fun _ => true) (fun _ => false) 0 = PlanGet 0.
Proof. vm_compute. done. Qed.
