(* ===== verification/ImageLoad.v ===== *)
(** * ImageLoad: loading images from disk and keeping them open ([server/image.c])

    [image_load] from the parsed path to the struct that goes into the image list,
    [image_ensureOpen], the table that limits how often an upstream server is asked for
    the same image ([remoteCloneCache] in [loadImageProxy]) and the test an upstream
    server's answer has to pass.  File contents and the results of system calls are
    arguments. *)

From Stdlib Require Import Ascii.
From stdpp Require Import gmap sets.
From S2P Require Import Prelude Timing Types Helper Images CacheMap ImageCrc ImageStore ImageName.
Open Scope Z_scope.

(** ** [image_load] *)

Record load_env := LoadEnv {
  le_fd : Z;                           (* what [open] returned, -1 if it failed *)
  le_size : option Z;                  (* [lseek] to the end; [None] is an error *)
  le_map : option (list Z);            (* the [.map] file *)
  le_crc : option (list Z);            (* the [.crc] file, and how reading it goes *)
  le_masterOk : bool;
  le_script : list read_result;
  le_meta : option (list ascii);       (* the [.meta] file *)
  le_mtime : option Z;
  le_walltime : Z;
  le_clock : ticks;
  le_basetime : ticks;
}.

Inductive load_outcome :=
| LoadFailed
| LoadKept (existing : dnbd3_image_t)
| LoadNew (replaced : bool) (image : dnbd3_image_t).

Definition img_set_crc (crc : option (list Z)) (master : Z) (i : dnbd3_image_t) : dnbd3_image_t :=
  Image (img_path i) (img_name i) (img_cacheMap i) (img_virtualFilesize i) (img_realFilesize i)
    (img_atime i) (img_nextCompletenessEstimate i) crc master (img_readFd i)
    (img_completenessEstimate i) (img_users i) (img_id i) (img_problem i) (img_rid i) (img_accessed i).

(** What becomes of an image that is loaded already: [None] means it is replaced. *)
Definition compareExisting (existing : dnbd3_image_t) (realFilesize hashBlockCount : Z)
    (crc32list : option (list Z)) (masterCrc : Z) : option dnbd3_image_t :=
  if negb (img_realFilesize existing =? realFilesize) then None
  else match img_crc32 existing, crc32list with
  | Some old, Some new =>
      if decide (take (Z.to_nat hashBlockCount) old = take (Z.to_nat hashBlockCount) new) then Some existing else None
  | None, Some new => Some (img_set_crc crc32list masterCrc existing)
  | _, None => Some existing
  end.

Section Load.
Context (pclmul : bool) (addr : Z).
(** [lookup]: the image that [image_get] returns for a name and a revision. *)
Context (legacy : bool) (lookup : list ascii -> Z -> option dnbd3_image_t).

(** The image as it is added to the list, for a file of [realFilesize] bytes. *)
Definition buildImage (e : load_env) (path imgName : list ascii) (revision realFilesize virtualFilesize : Z)
    (crc32list : option (list Z)) (masterCrc : Z) : result dnbd3_image_t :=
  let now := timing_get (le_clock e) (le_basetime e) in
  let fresh cache := freshImage (unchars path) (unchars imgName) cache crc32list masterCrc realFilesize
                       virtualFilesize revision (le_fd e) now (Ticks 0 0) in
  let cache := image_loadCacheMap (le_map e) virtualFilesize in
  '(_, _, image) ← image_isComplete (fresh cache);
  Ok (loadImageMeta (le_meta e) (le_mtime e) (le_walltime e) (le_clock e) (le_basetime e)
        (fresh (img_cacheMap image))).

Definition image_load (e : load_env) (base path : list ascii) : result load_outcome :=
  r ← parsePath legacy (negb (le_fd e =? -1)) base path;
  match r with
  | None => Ok LoadFailed
  | Some (imgName, revision) =>
      if le_fd e =? -1 then Ok LoadFailed
      else match le_size e with
      | None => Ok LoadFailed
      | Some size =>
          if size =? 0 then Ok LoadFailed
          else
            let realFilesize := u64 size in
            let virtualFilesize := roundSize realFilesize in
            '(crc32list, masterCrc) ←
              image_loadCrcList pclmul addr (le_crc e) (le_masterOk e) (le_script e) virtualFilesize 0;
            let kept := match lookup imgName revision with
                        | Some existing => compareExisting existing realFilesize (IMGSIZE_TO_HASHBLOCKS virtualFilesize)
                                             crc32list masterCrc
                        | None => None
                        end in
            match kept with
            | Some existing => Ok (LoadKept existing)
            | None =>
                image ← buildImage e path imgName revision realFilesize virtualFilesize crc32list masterCrc;
                Ok (LoadNew (match lookup imgName revision with Some _ => true | None => false end) image)
            end
      end
  end.
End Load.

(** ** Keeping an image open *)

(** What the system calls of [image_ensureOpen] give: [eo_open] the descriptor of [open]
    or [dup], [eo_seek] the size, [eo_read] whether the first bytes can be read,
    [eo_crc] the outcome of checking the first block, [eo_other] what another thread
    has put into [readFd] meanwhile. *)
Record open_env := OpenEnv {
  eo_open : Z;
  eo_seek : option Z;
  eo_read : bool;
  eo_crc : bool;
  eo_other : Z;
}.
Definition pr_set_read (b : bool) (p : image_problems) : image_problems :=
  Problems b (pr_write p) (pr_changed p) (pr_uplink p) (pr_queue p).
Definition pr_set_changed (b : bool) (p : image_problems) : image_problems :=
  Problems (pr_read p) (pr_write p) b (pr_uplink p) (pr_queue p).

(** The checks of a new descriptor: [None] when it was closed again, else whether the
    size differs. *)
Definition checkFd (e : open_env) (realFilesize : Z) : option bool :=
  match eo_seek e with
  | None => None
  | Some flen => if negb (u64 flen =? realFilesize) then Some true
                 else if eo_read e then Some false else None
  end.
(** The second component lists the descriptors that are closed. *)
Definition image_ensureOpen (e : open_env) (image : dnbd3_image_t) : bool * list Z * dnbd3_image_t :=
  if negb (img_readFd image =? -1) && negb (pr_changed (img_problem image)) then (true, [], image)
  else if eo_open e =? -1 then
    (false, [], img_set_problem (pr_set_read true (img_problem image)) image)
  else match checkFd e (img_realFilesize image) with
  | None => (false, [eo_open e], img_set_problem (pr_set_read true (img_problem image)) image)
  | Some sizeChanged =>
      let changed :=
        if pr_changed (img_problem image) && negb sizeChanged then
          match img_crc32 image with
          | None => false
          | Some _ => negb (eo_crc e)
          end
        else sizeChanged in
      let image := img_set_problem (pr_set_changed changed (img_problem image)) image in
      let readFd := if img_readFd image =? -1 then eo_other e else img_readFd image in
      if readFd =? -1 then
        (true, [], img_set_readFd (eo_open e) (img_set_problem (pr_set_read false (img_problem image)) image))
      else (true, [eo_open e], img_set_readFd readFd image)
  end.

(** ** Asking upstream *)

Definition NAMELEN : nat := 500.
Definition CACHELEN : nat := 20.
Definition SERVER_REMOTE_IMAGE_CHECK_CACHETIME : Z := 120.

Record imagecache := ImageCache { ic_deadline : ticks; ic_name : list ascii; ic_rid : Z }.

(** The name that is compared: its last [NAMELEN - 1] characters. *)
Definition cmpname (name : list ascii) : list ascii :=
  if (NAMELEN <=? length name)%nat then drop (1 + length name - NAMELEN) name else name.

(** The loop over the table: [inl tt] when the image was checked recently, else the
    index of the entry for it, if any, and the entry with the oldest deadline. *)
Fixpoint scanCache (now : ticks) (name : list ascii) (revision : Z) (i : nat) (cache : list imagecache)
    (fallback : nat * ticks) : unit + option nat * nat :=
  match cache with
  | [] => inr (None, fallback.1)
  | c :: rest =>
      if (ic_rid c =? revision) && bool_decide (name = ic_name c) then
        if timing_reached (ic_deadline c) now then inr (Some i, fallback.1) else inl tt
      else scanCache now name revision (S i) rest
             (if timing_1le2 (ic_deadline c) fallback.2 then (i, ic_deadline c) else fallback)
  end.

(** [None]: asked recently; otherwise the table with the image marked. *)
Definition checkRecently (now : ticks) (name : list ascii) (revision : Z) (cache : list imagecache)
  : option (list imagecache) :=
  match cache with
  | [] => None
  | first :: _ =>
      match scanCache now (cmpname name) revision 0 cache (0%nat, ic_deadline first) with
      | inl _ => None
      | inr (use, fallback) =>
          Some (<[default fallback use := ImageCache (timing_set now SERVER_REMOTE_IMAGE_CHECK_CACHETIME)
                                            (take (NAMELEN - 1) (cmpname name)) revision]> cache)
      end
  end.

(** The test of an upstream server's answer; [localRid] is the revision of the image that
    is loaded already. *)
Definition acceptReply (name : list ascii) (revision : Z) (localRid : option Z) (maxReplicationSize : Z)
    (remoteProtocolVersion remoteRid : Z) (remoteName : option (list ascii)) (remoteImageSize : Z) : bool :=
  negb ((remoteProtocolVersion <? MIN_SUPPORTED_SERVER) || (remoteRid =? 0))
  && negb (negb (revision =? 0) && negb (remoteRid =? revision))
  && negb ((revision =? 0) && match localRid with Some r => remoteRid <=? r | None => false end)
  && negb ((remoteImageSize <? DNBD3_BLOCK_SIZE) || match remoteName with Some n => negb (bool_decide (name = n)) | None => true end)
  && negb (maxReplicationSize <? remoteImageSize).

(** ** A loaded image *)

Lemma roundSize_up size : 0 <= size <= 2 ^ 46 - 2 ^ 15 -> roundSize size = 4096 * ((size + 4095) / 4096).
Proof.
  intros Hs. unfold roundSize, DNBD3_BLOCK_SIZE. replace (size + 4096 - 1) with (size + 4095) by lia.
  rewrite u64_id by crange. change (4096 - 1) with (2 ^ 12 - 1). rewrite land_not64_pow2; [done|crange|lia].
Qed.

Section Loaded.
Context (pclmul : bool) (addr : Z) (e : load_env) (path imgName : list ascii) (rid real : Z).
Context (crc : option (list Z)) (master : Z).
Context (Hreal : 0 < real <= 2 ^ 46 - 2 ^ 16) (Hrid : 1 <= rid <= 65535).
Context (Hmap : Forall in_u8 (default [] (le_map e))).
Let vfs := roundSize real.

Lemma vfs_val : vfs = 4096 * ((real + 4095) / 4096) /\ real <= vfs <= 2 ^ 46 - 2 ^ 15.
Proof.
  unfold vfs. rewrite roundSize_up by lia. pose proof (Z.div_mod (real + 4095) 4096 ltac:(lia)).
  pose proof (Z.mod_pos_bound (real + 4095) 4096 ltac:(lia)). lia.
Qed.

Lemma loaded_map_wf c : image_loadCacheMap (le_map e) vfs = Some c -> map_wf vfs (cm_map c).
Proof.
  destruct vfs_val as [_ Hv]. destruct (le_map e) as [bytes|]; [|done]. cbn in Hmap.
  unfold image_loadCacheMap. intros <-%(inj Some). cbn [cm_map]. rewrite mapbytes_val by lia.
  assert (0 <= (vfs + 32767) / 32768) by (apply Z.div_pos; lia). split.
  - rewrite length_app, length_replicate, length_take. lia.
  - apply list.Forall_app. split; [by apply Forall_take|]. apply Forall_replicate. crange.
Qed.

Let fresh (c : option dnbd3_cache_map_t) : dnbd3_image_t :=
  freshImage (unchars path) (unchars imgName) c crc master real vfs rid (le_fd e)
    (timing_get (le_clock e) (le_basetime e)) (Ticks 0 0).
Let meta : dnbd3_image_t -> dnbd3_image_t :=
  loadImageMeta (le_meta e) (le_mtime e) (le_walltime e) (le_clock e) (le_basetime e).
Let map_ok (c : option dnbd3_cache_map_t) : Prop := forall x, c = Some x -> map_wf vfs (cm_map x).

Lemma fresh_wf c : map_ok c -> image_wf (fresh c).
Proof. intros Hc. destruct vfs_val. constructor; cbn; first [lia|done]. Qed.

(** The map that is left after [image_isComplete]. *)
Lemma complete_dropped :
  exists im, (x ← image_isComplete (fresh (image_loadCacheMap (le_map e) vfs)); Ok x.2) = Ok im
    /\ map_ok (img_cacheMap im)
    /\ (img_cacheMap im = None <-> forall b, 0 <= b < vfs / 4096 -> claims (le_map e) vfs b = true)
    /\ (forall x, img_cacheMap im = Some x -> image_loadCacheMap (le_map e) vfs = Some x).
Proof.
  destruct vfs_val as [_ Hv]. unfold claims. pose proof loaded_map_wf as Hlw.
  destruct (image_loadCacheMap (le_map e) vfs) as [c|] eqn:Hl.
  - assert (map_ok (Some c)) as Hok by (intros x [= <-]; by apply Hlw).
    destruct (image_isComplete_map (fresh (Some c)) c) as (r & -> & Hr); [by apply fresh_wf|done|].
    cbn [mbind result_bind snd]. change (num_blocks (fresh (Some c))) with (vfs / 4096) in Hr.
    destruct r; eexists; (split; [done|]); cbn [img_cacheMap img_set_cacheMap fresh freshImage].
    + split_and!; [done| |done]. split; [|done]. intros _. by apply Hr.
    + split_and!; [done| |done]. split; [done|]. by intros H%Hr.
  - exists (fresh None). unfold image_isComplete. cbn [img_virtualFilesize fresh freshImage img_cacheMap].
    destruct (Z.eqb_spec vfs 0); [lia|]. done.
Qed.

(** The struct is well-formed and regards as cached what the map file lists; a map that
    lists every block is dropped. *)
Definition loaded_ok (image : dnbd3_image_t) : Prop :=
  image_wf image /\ img_name image = unchars imgName /\ img_path image = unchars path
  /\ img_rid image = rid /\ img_realFilesize image = real /\ img_crc32 image = crc
  /\ (forall b, 0 <= b < num_blocks image -> is_cached image b = claims (le_map e) vfs b)
  /\ (img_cacheMap image = None <-> forall b, 0 <= b < num_blocks image -> is_cached image b = true)
  /\ pr_uplink (img_problem image) = (if img_cacheMap image is Some _ then true else false).

Lemma buildImage_spec :
  exists image, buildImage e path imgName rid real vfs crc master = Ok image /\ loaded_ok image.
Proof.
  unfold buildImage.
  destruct complete_dropped as (im & Hrun & Hc1 & Hc2 & Hc3).
  destruct (image_isComplete _) as [[[done1 done2] im0]|]; [|done]. cbn [mbind result_bind snd] in *.
  injection Hrun as ->. eexists. split; [reflexivity|]. set (c := img_cacheMap im) in *.
  change (loaded_ok (meta (fresh c))).
  assert (exists t a, meta (fresh c) = img_set_access t a (fresh c)) as (t & a & ->).
  { unfold meta, loadImageMeta. destruct (_ =? 1); eauto. }
  pose proof (fresh_wf c Hc1) as [W1 W2 W3 W4].
  assert (forall b, 0 <= b < vfs / 4096 -> is_cached (fresh c) b = claims (le_map e) vfs b) as Hcl.
  { intros b Hb. unfold is_cached. cbn [img_cacheMap fresh freshImage]. destruct c as [x|].
    - unfold claims. by rewrite (Hc3 x eq_refl).
    - symmetry. by apply Hc2. }
  split; [by constructor|]. change (num_blocks (img_set_access t a (fresh c))) with (vfs / 4096).
  split_and!; try done; [apply u16_id; crange|].
  change (is_cached (img_set_access t a (fresh c))) with (is_cached (fresh c)).
  change (img_cacheMap (img_set_access t a (fresh c))) with c.
  rewrite Hc2. split; intros H b Hb; [rewrite Hcl by done|rewrite <- Hcl by done]; by apply H.
Qed.
End Loaded.

(** Whether the image that is loaded already is replaced. *)
Definition differs (old : dnbd3_image_t) (real hashBlocks : Z) (crc : option (list Z)) : Prop :=
  img_realFilesize old <> real
  \/ exists a b, img_crc32 old = Some a /\ crc = Some b
       /\ take (Z.to_nat hashBlocks) a <> take (Z.to_nat hashBlocks) b.

Lemma compareExisting_spec old real hashBlocks crc master :
  match compareExisting old real hashBlocks crc master with
  | None => differs old real hashBlocks crc
  | Some old' => ~ differs old real hashBlocks crc /\ img_realFilesize old' = real
      /\ img_cacheMap old' = img_cacheMap old /\ img_users old' = img_users old
      /\ img_crc32 old' = (if img_crc32 old is Some a then Some a else crc)
  end.
Proof.
  unfold compareExisting, differs. destruct (Z.eqb_spec (img_realFilesize old) real); cbn [negb]; [|by left].
  destruct (img_crc32 old) as [a|] eqn:Ha, crc as [b|]; [destruct (decide _)|..]; try (split_and!; done || naive_solver).
  right. eauto.
Qed.

Lemma image_load_spec pclmul addr legacy lookup e base name rid real crc master :
  base_ok base -> name_ok name -> 1 <= rid <= 65535 -> 0 < real <= 2 ^ 46 - 2 ^ 16 ->
  le_fd e <> -1 -> le_size e = Some real -> Forall in_u8 (default [] (le_map e)) ->
  image_loadCrcList pclmul addr (le_crc e) (le_masterOk e) (le_script e) (roundSize real) 0 = Ok (crc, master) ->
  let path := imagePath base name rid in
  let hashBlocks := IMGSIZE_TO_HASHBLOCKS (roundSize real) in
  exists outcome, image_load pclmul addr legacy lookup e base path = Ok outcome
    /\ match lookup name rid, outcome with
       | None, LoadNew replaced image => replaced = false /\ loaded_ok e path name rid real crc image
       | Some old, LoadNew replaced image =>
           differs old real hashBlocks crc /\ replaced = true /\ loaded_ok e path name rid real crc image
       | Some old, LoadKept old' =>
           ~ differs old real hashBlocks crc /\ img_cacheMap old' = img_cacheMap old
           /\ img_users old' = img_users old /\ img_crc32 old' = (if img_crc32 old is Some a then Some a else crc)
       | _, _ => False
       end.
Proof.
  intros Hb Hn Hr Hreal Hfd Hsize Hmap Hcrc. cbn zeta. unfold image_load.
  destruct (Z.eqb_spec (le_fd e) (-1)); [done|]. cbn [negb].
  rewrite parse_path_of by done. cbn [mbind result_bind]. rewrite Hsize.
  destruct (Z.eqb_spec real 0); [lia|]. rewrite u64_id by crange. rewrite Hcrc. cbn [mbind result_bind].
  destruct (buildImage_spec e (imagePath base name rid) name rid real crc master Hreal Hr Hmap) as (image & -> & Hok).
  destruct (lookup name rid) as [old|]; [|by eexists].
  pose proof (compareExisting_spec old real (IMGSIZE_TO_HASHBLOCKS (roundSize real)) crc master) as Hcmp.
  destruct (compareExisting _ _ _ _ _) as [old'|]; eexists; (split; [done|]); tauto.
Qed.

(** Loading an image file that exists and is not empty never fails, whatever the
    map file holds: unless the same image is in memory already with the same size and
    no contradicting checksum list (it is kept then, and given the list if it had
    none), the struct is new, has the name and revision the file stands for, its size
    rounded up to blocks, regards exactly the blocks as cached that the map file
    lists, has no map and no need for an uplink if these are all blocks, and satisfies
    the well-formedness the other components rely on. *)
Theorem image_load_correct pclmul addr legacy lookup e base name rid real crc master :
  base_ok base -> name_ok name -> 1 <= rid <= 65535 -> 0 < real <= 2 ^ 46 - 2 ^ 16 ->
  le_fd e <> -1 -> le_size e = Some real -> Forall in_u8 (default [] (le_map e)) ->
  image_loadCrcList pclmul addr (le_crc e) (le_masterOk e) (le_script e) (roundSize real) 0 = Ok (crc, master) ->
  let path := imagePath base name rid in
  let hashBlocks := IMGSIZE_TO_HASHBLOCKS (roundSize real) in
  exists outcome, image_load pclmul addr legacy lookup e base path = Ok outcome
    /\ match lookup name rid, outcome with
       | None, LoadNew replaced image => replaced = false /\ loaded_ok e path name rid real crc image
       | Some old, LoadNew replaced image =>
           differs old real hashBlocks crc /\ replaced = true /\ loaded_ok e path name rid real crc image
       | Some old, LoadKept old' =>
           ~ differs old real hashBlocks crc /\ img_cacheMap old' = img_cacheMap old
           /\ img_users old' = img_users old /\ img_crc32 old' = (if img_crc32 old is Some a then Some a else crc)
       | _, _ => False
       end.
Proof. apply image_load_spec. Qed.

Definition demo_env (size : Z) (map : option (list Z)) : load_env :=
  LoadEnv 5 (Some size) map None true [] None (Some 900) 1000 (Ticks 50 0) (Ticks 10 0).

Lemma demo_base_ok : base_ok (chars "/img").
Proof. split; [reflexivity|]. eexists. split; [reflexivity|discriminate]. Qed.
Lemma demo_name_ok : name_ok (chars "lab/win").
Proof. split; [eexists _, _; split; [reflexivity|discriminate]|discriminate]. Qed.

Lemma image_load_correct_witness :
  exists image, image_load false 0 false (fun _ _ => None) (demo_env 10000 (Some [5])) (chars "/img")
      (chars "/img/lab/win.r3") = Ok (LoadNew false image)
    /\ is_cached image 1 = false /\ is_cached image 2 = true.
Proof.
  destruct (image_load_correct false 0 false (fun _ _ => None) (demo_env 10000 (Some [5])) (chars "/img")
    (chars "lab/win") 3 10000 None 0) as (out & Hrun & Hout).
  - exact demo_base_ok.
  - exact demo_name_ok.
  - lia.
  - lia.
  - discriminate.
  - reflexivity.
  - repeat constructor; crange.
  - reflexivity.
  - destruct out as [|k|rep image]; [destruct Hout|destruct Hout|]. destruct Hout as [-> Hok].
    exists image. split; [exact Hrun|]. destruct Hok as (_ & _ & _ & _ & _ & _ & Hc & _).
    assert (num_blocks image = 3) as Hnb.
    { vm_compute in Hrun. injection Hrun as <-. reflexivity. }
    rewrite Hnb in Hc. rewrite !Hc by lia. split; reflexivity.
Defined.

(** What [image_create] leaves on disk is loaded as an empty image of that name,
    revision and size: no block counts as cached. *)
Theorem created_image_loads pclmul addr legacy base name rid size ce path len mapLen e :
  base_ok base -> name_ok name -> 1 <= rid <= 65535 -> 4096 <= size <= 2 ^ 46 - 2 ^ 17 ->
  Z.of_nat (length (imagePath base name rid)) < PATHLEN ->
  image_create ce IMGSIZE_TO_MAPBYTES base name rid size = Ok (Some (path, len, mapLen)) ->
  le_fd e <> -1 -> le_size e = Some len -> le_map e = Some (replicate (Z.to_nat mapLen) 0) -> le_crc e = None ->
  exists image, image_load pclmul addr legacy (fun _ _ => None) e base path = Ok (LoadNew false image)
    /\ img_name image = unchars name /\ img_rid image = rid /\ img_realFilesize image = len
    /\ size <= len < size + 4096 /\ image_wf image
    /\ forall b, 0 <= b < num_blocks image -> is_cached image b = false.
Proof.
  intros Hb Hn Hr Hs Hlen Hc Hfd Hsz Hmap Hcrc. unfold image_create in Hc.
  destruct (Z.leb_spec DNBD3_BLOCK_SIZE size); [|done]. cbn [assert_ mbind result_bind] in Hc.
  destruct (Z.leb_spec rid 0); [lia|].
  rewrite take_ge in Hc by (unfold PATHLEN in *; lia).
  do 2 (destruct (negb _); [done|]). destruct (_ && _); [done|]. destruct (_ && _); [done|].
  injection Hc as <- <- HmapLen. pose proof (roundSize_up size ltac:(lia)) as Hrs.
  pose proof (Z.div_mod (size + 4095) 4096 ltac:(lia)). pose proof (Z.mod_pos_bound (size + 4095) 4096 ltac:(lia)).
  destruct (image_load_spec pclmul addr legacy (fun _ _ => None) e base name rid (roundSize size) None 0)
    as ([|?|rep image] & Hrun & Hok); [done..|lia|done|done| |by rewrite Hcrc|done|done|].
  { rewrite Hmap. cbn. apply Forall_replicate. crange. }
  destruct Hok as [-> Hok]. exists image. split; [exact Hrun|].
  destruct Hok as (Hwf & K1 & _ & K3 & K4 & _ & K6 & _).
  split_and!; [done..|lia|lia|done|].
  intros b Hbb. rewrite K6 by done. rewrite Hmap.
  assert (roundSize (roundSize size) = roundSize size) as Hrr.
  { rewrite (roundSize_up (roundSize size)), Hrs by lia.
    f_equal. symmetry. apply Z.div_unique with (r := 4095); lia. }
  apply not_true_is_false. rewrite claims_bit; [|lia|apply Forall_replicate; crange|].
  - intros (v & [-> _]%lookup_replicate & Hbit). by rewrite Z.testbit_0_l in Hbit.
  - unfold num_blocks in Hbb. rewrite (wf_virtual _ Hwf), K4, <- roundSize_up in Hbb by lia. exact Hbb.
Qed.

(** ** Descriptors *)

(** [image_ensureOpen] loses no descriptor: what it opened is closed or is the image's
    new [readFd], and a descriptor the image had stays.  It returns true exactly when
    the image has a descriptor afterwards; then, if the image is not marked as changed,
    either nothing had to be done or the file has the expected size (and, if it was
    marked before and has checksums, its first block is intact).  On failure the image
    is marked as unreadable. *)
Theorem image_ensureOpen_correct e image :
  let '(ok, closed, image') := image_ensureOpen e image in
  let skipped := negb (img_readFd image =? -1) && negb (pr_changed (img_problem image)) in
  (skipped = true -> ok = true /\ closed = [] /\ image' = image)
  /\ (skipped = false -> eo_open e <> -1 ->
      closed = [eo_open e] \/ (closed = [] /\ img_readFd image' = eo_open e))
  /\ (img_readFd image <> -1 -> img_readFd image' = img_readFd image)
  /\ (ok = true -> img_readFd image' <> -1)
  /\ (ok = true -> skipped = false -> pr_changed (img_problem image') = false ->
      (exists flen, eo_seek e = Some flen /\ u64 flen = img_realFilesize image)
      /\ (pr_changed (img_problem image) = true -> img_crc32 image <> None -> eo_crc e = true))
  /\ (ok = false -> pr_read (img_problem image') = true).
Proof.
  unfold image_ensureOpen, checkFd. destruct (negb _ && negb _) eqn:Hsk; [|destruct (Z.eqb_spec (eo_open e) (-1))].
  - apply andb_true_iff in Hsk as [Hfd _]. destruct (Z.eqb_spec (img_readFd image) (-1)); [done|]. split_and!; done.
  - split_and!; done.
  - destruct (eo_seek e) as [flen|] eqn:Hseek; [|split_and!; try done; by left].
    destruct (Z.eqb_spec (u64 flen) (img_realFilesize image)) as [Hlen|Hlen]; cbn [negb];
      [destruct (eo_read e); [|split_and!; try done; by left]|].
    + cbn [negb]. rewrite andb_true_r. set (img1 := img_set_problem _ image).
      assert (img_readFd img1 = img_readFd image) as Hfd1 by done.
      set (fd := if img_readFd img1 =? -1 then eo_other e else img_readFd img1).
      assert (img_readFd image <> -1 -> fd = img_readFd image /\ fd <> -1) as Hfd.
      { intros H. unfold fd. rewrite Hfd1. destruct (Z.eqb_spec (img_readFd image) (-1)); done. }
      assert (pr_changed (img_problem img1) = false -> pr_changed (img_problem image) = true ->
              img_crc32 image <> None -> eo_crc e = true) as Hcrc.
      { unfold img1. cbn. intros H1 H2 H3. rewrite H2 in H1. destruct (img_crc32 image); [|done]. by destruct (eo_crc e). }
      destruct (Z.eqb_spec fd (-1)); split_and!; try done; try naive_solver.
    + rewrite andb_false_r. set (img1 := img_set_problem _ image).
      assert (img_readFd img1 = img_readFd image) as Hfd1 by done.
      set (fd := if img_readFd img1 =? -1 then eo_other e else img_readFd img1).
      assert (img_readFd image <> -1 -> fd = img_readFd image /\ fd <> -1) as Hfd.
      { intros H. unfold fd. rewrite Hfd1. destruct (Z.eqb_spec (img_readFd image) (-1)); done. }
      destruct (Z.eqb_spec fd (-1)); split_and!; try done; try naive_solver.
Qed.

(** ** Asking upstream only once *)

Definition matches (name : list ascii) (revision : Z) (c : imagecache) : Prop :=
  ic_rid c = revision /\ name = ic_name c.

Lemma scanCache_spec now name revision cache : forall i fi ft,
  match scanCache now name revision i cache (fi, ft) with
  | inl _ => exists c, c ∈ cache /\ matches name revision c /\ timing_reached (ic_deadline c) now = false
  | inr (Some k, _) => exists pre c post, cache = pre ++ c :: post /\ k = (i + length pre)%nat
      /\ Forall (fun c => ~ matches name revision c) pre /\ matches name revision c
      /\ timing_reached (ic_deadline c) now = true
  | inr (None, k) => Forall (fun c => ~ matches name revision c) cache
      /\ exists t, (k = fi /\ t = ft \/ exists j c, cache !! j = Some c /\ k = (i + j)%nat /\ t = ic_deadline c)
      /\ tv_sec t <= tv_sec ft /\ Forall (fun c => tv_sec t <= tv_sec (ic_deadline c)) cache
  end.
Proof.
  induction cache as [|c cache IH]; intros i fi ft; cbn [scanCache].
  { split; [done|]. exists ft. split_and!; [by left|lia|done]. }
  destruct ((ic_rid c =? revision) && bool_decide (name = ic_name c)) eqn:Hm.
  - apply andb_true_iff in Hm as [Hm1%Z.eqb_eq Hm2%bool_decide_eq_true].
    destruct (timing_reached (ic_deadline c) now) eqn:Ht.
    + exists [], c, cache. split_and!; done || (cbn; lia).
    + exists c. split_and!; [by left|done..].
  - assert (~ matches name revision c) as Hn.
    { intros [H1 H2]. rewrite (proj2 (Z.eqb_eq _ _) H1), bool_decide_true in Hm by done. done. }
    cbn [fst snd]. set (f := if timing_1le2 _ _ then _ else _). destruct f as [fi' ft'] eqn:Hf.
    specialize (IH (S i) fi' ft'). destruct (scanCache _ _ _ _ _ _) as [u|[[k|] k']].
    + destruct IH as (c' & Hc' & ?). exists c'. split; [by right|done].
    + destruct IH as (pre & c' & post & -> & -> & H1 & H2). exists (c :: pre), c', post.
      split_and!; [done|cbn; lia|by constructor|apply H2..].
    + destruct IH as (H1 & t & H2 & H3 & H4). split; [by constructor|]. exists t.
      unfold timing_1le2, timing_reached in f. destruct (Z.leb_spec (tv_sec (ic_deadline c)) (tv_sec ft)) in f, Hf;
        unfold f in Hf; injection Hf as <- <-.
      * split_and!; [|lia|constructor; [lia|done]]. right. destruct H2 as [[-> ->]|(j & c' & ? & -> & ->)].
        -- exists 0%nat, c. split_and!; [done|lia|done].
        -- exists (S j), c'. split_and!; [done|lia|done].
      * split_and!; [|lia|constructor; [lia|done]]. destruct H2 as [[-> ->]|(j & c' & ? & -> & ->)]; [by left|].
        right. exists (S j), c'. split_and!; [done|lia|done].
Qed.

Lemma cmpname_short name : take (NAMELEN - 1) (cmpname name) = cmpname name.
Proof.
  apply take_ge. unfold cmpname, NAMELEN. destruct (Nat.leb_spec 500 (length name)); [rewrite length_drop|]; lia.
Qed.

(** The scan stops at the first entry for the image. *)
Lemma scanCache_first now name revision pre c post : forall i f,
  Forall (fun c => ~ matches name revision c) pre -> matches name revision c ->
  timing_reached (ic_deadline c) now = false ->
  scanCache now name revision i (pre ++ c :: post) f = inl tt.
Proof.
  induction pre as [|x pre IH]; intros i f Hpre [Hr Hn] Ht; cbn [app scanCache].
  - rewrite (proj2 (Z.eqb_eq _ _) Hr), bool_decide_true by done. cbn. by rewrite Ht.
  - apply list.Forall_cons in Hpre as [Hx Hpre]. destruct (_ && _) eqn:Hm; [|by apply IH].
    apply andb_true_iff in Hm as [Hm1%Z.eqb_eq Hm2%bool_decide_eq_true]. by destruct Hx.
Qed.

(** When a server is asked for an image, the table of 20 entries remembers it: for two
    minutes nobody else asks for the same name and revision.  One entry changes, the
    one of that image or else one with the earliest deadline. *)
Theorem checkRecently_correct now name revision cache cache' :
  checkRecently now name revision cache = Some cache' ->
  length cache' = length cache
  /\ (forall now', tv_sec now' < tv_sec now + SERVER_REMOTE_IMAGE_CHECK_CACHETIME ->
      checkRecently now' name revision cache' = None)
  /\ exists k c, cache !! k = Some c
     /\ (forall j, j <> k -> cache' !! j = cache !! j)
     /\ (matches (cmpname name) revision c
         \/ Forall (fun c' => ~ matches (cmpname name) revision c' /\ tv_sec (ic_deadline c) <= tv_sec (ic_deadline c')) cache).
Proof.
  unfold checkRecently. destruct cache as [|c0 rest] eqn:Hcache; [done|]. rewrite <- Hcache.
  pose proof (scanCache_spec now (cmpname name) revision cache 0 0 (ic_deadline c0)) as Hs.
  destruct (scanCache _ _ _ _ _ _) as [u|[use fb]]; [done|]. rewrite cmpname_short. intros [= <-].
  set (new := ImageCache _ _ _). rewrite length_insert.
  assert (exists pre c post, cache = pre ++ c :: post /\ default fb use = length pre
    /\ Forall (fun c => ~ matches (cmpname name) revision c) pre
    /\ (matches (cmpname name) revision c \/ Forall (fun c' => ~ matches (cmpname name) revision c'
          /\ tv_sec (ic_deadline c) <= tv_sec (ic_deadline c')) cache)) as (pre & c & post & Hsplit & Hk & Hpre & Hwhich).
  { destruct use as [k|].
    - destruct Hs as (pre & c & post & ? & -> & ? & ? & _). exists pre, c, post. split_and!; [done..|by left].
    - destruct Hs as (Hall & t & Ht & _ & Hmin).
      assert (exists c, cache !! fb = Some c /\ t = ic_deadline c) as (c & Hc & ->).
      { destruct Ht as [[-> ->]|(j & c & Hj & -> & ->)]; [exists c0; by rewrite Hcache|by exists c]. }
      pose proof (take_drop_middle _ _ _ Hc) as Hsp. apply lookup_lt_Some in Hc.
      exists (take fb cache), c, (drop (S fb) cache).
      split; [done|]. split; [cbn; rewrite length_take; lia|]. split.
      + by apply Forall_take.
      + right. apply list.Forall_forall. intros x Hx. rewrite !list.Forall_forall in Hall, Hmin.
        split; [by apply Hall|by apply Hmin]. }
  rewrite Hk, Hsplit, insert_app_r_alt, Nat.sub_diag by done. cbn [insert list_insert].
  assert (forall now', tv_sec now' < tv_sec now + SERVER_REMOTE_IMAGE_CHECK_CACHETIME ->
          forall f, scanCache now' (cmpname name) revision 0 (pre ++ new :: post) f = inl tt) as Hnext.
  { intros now' Hnow f. apply scanCache_first; [done..|]. apply Z.leb_gt. unfold new. cbn [ic_deadline tv_sec timing_set]. lia. }
  split_and!; [done| |].
  - intros now' Hnow. specialize (Hnext now' Hnow). destruct (pre ++ new :: post)%list; [done|]. by rewrite Hnext.
  - exists (length pre), c. rewrite <- Hsplit. split_and!; [by rewrite Hsplit; apply list_lookup_middle| |done].
    intros j Hj. rewrite Hsplit. destruct (decide (j < length pre)%nat).
    + by rewrite !lookup_app_l.
    + rewrite !lookup_app_r by lia. by destruct (j - length pre)%nat as [|m] eqn:E; [lia|].
Qed.
