(* ===== verification/ImageSpace.v ===== *)
(** * ImageSpace: making room for new images ([image_ensureDiskSpace] in [server/image.c])

    A proxy that runs out of space deletes replicated images, the one that was not used
    for longest first, until enough is free.  The search runs under [imageListLock]; the
    image is then removed from the list, given back and freed by the functions of
    [Images], and its files are unlinked.  Between these steps the lock is free and other threads
    work on the list: what they do is an argument of the model. *)

From Stdlib Require Import Ascii.
From stdpp Require Import gmap sets.
From S2P Require Import Prelude Timing Types Helper Images ImageLife.
Open Scope Z_scope.

Record space_env := SpaceEnv {
  se_free : nat -> option Z;         (* [file_freeDiskSpace] in each round *)
  se_now : nat -> ticks;
  se_isProxy : bool;
  se_delay : Z;                      (* [_autoFreeDiskSpaceDelay] *)
  se_uptime : Z;                     (* [dnbd3_serverUptime()] *)
  se_sparseFiles : bool;
  se_upstream : string -> bool;      (* [isImageFromUpstream], by name *)
}.

(** [image_release] with what it does after unlocking. *)
Definition giveBack (s : image_list) (image : ptr) : result image_list :=
  '(s, mustFree) ← image_release s image;
  if (mustFree : bool) then '(s, _) ← image_free s image; Ok s else Ok s.
(** Remove an image from the list and give the reference back: [image_remove] and then
    [image_release], each of which may free the image; [others] run in between. *)
Definition dropImage (others : image_list -> image_list) (s : image_list) (image : ptr) : result image_list :=
  '(s, mustFree) ← image_remove s image;
  if (mustFree : bool) then '(s, _) ← image_free s image; Ok s else giveBack (others s) image.

(** The files that are unlinked. *)
Definition unlinked (filename : string) : list string :=
  [filename; filename +:+ ".map"; filename +:+ ".crc"; filename +:+ ".meta"]%string.

(** [n] rounds are left, [round] were done.  [others round k own] is what other threads do at the [k]-th place of a round
    where the list is not locked, while this thread has a reference to [own].  The result: the answer, the images that were
    deleted, with the list when each was chosen and its struct when its access time was
    checked, and the list. *)
Fixpoint freeLoop (e : space_env) (others : nat -> nat -> option ptr -> image_list -> image_list) (size : Z) (force : bool)
    (n round : nat) (s : image_list) : result (bool * list (image_list * dnbd3_image_t) * image_list) :=
  match n with
  | O => Ok (false, [], s)
  | S n =>
      match se_free e round with
      | None => Ok (true, [], s)
      | Some available =>
          if size <? available then Ok (true, [], s)
          else if negb (se_isProxy e) || (se_delay e =? -1) then Ok (false, [], s)
          else if negb force && (se_uptime e <? u32 (se_delay e)) then Ok (false, [], s)
          else
            let s0 := others round 0%nat None s in
            '(s, oldest) ← takeOldest (se_upstream e) s0;
            match oldest with
            | None => Ok (false, [], s)
            | Some p =>
                let s := others round 1%nat (Some p) s in
                i ← deref s p;
                if negb (se_sparseFiles e) && (timing_diff (img_atime i) (se_now e round) <? 86400) then
                  s ← giveBack s p;
                  Ok (false, [], s)
                else
                  s ← dropImage (others round 2%nat (Some p)) s p;
                  '(ok, removed, s) ← freeLoop e others size force n (S round) s;
                  Ok (ok, (s0, i) :: removed, s)
            end
      end
  end.
Definition image_ensureDiskSpace (e : space_env) (others : nat -> nat -> option ptr -> image_list -> image_list) (size : Z) (force : bool)
    (s : image_list) : result (bool * list (image_list * dnbd3_image_t) * image_list) := freeLoop e others size force 50 0 s.

(** ** The image that is chosen *)

Definition evictable (e : space_env) (i : dnbd3_image_t) : Prop :=
  img_users i = 0 /\ se_upstream e (img_name i) = true.

Section Choice.
Context (e : space_env) (s : image_list) (Halive : list_alive s).

(** [o] is an evictable entry of [l] or the one passed in, with the earliest access
    time. *)
Definition oldest_of (l : list ptr) (old o : option (ptr * ticks)) : Prop :=
  match o with
  | None => old = None /\ forall p i, entry s l p i -> ~ evictable e i
  | Some (p, t) =>
      (old = o \/ exists i, entry s l p i /\ evictable e i /\ t = img_atime i)
      /\ (forall q t', old = Some (q, t') -> tv_sec t <= tv_sec t')
      /\ (forall q i, entry s l q i -> evictable e i -> tv_sec t <= tv_sec (img_atime i))
  end.

Lemma oldest_skip q l old o :
  (forall i, entry s (q :: l) q i -> ~ evictable e i
     \/ exists p t, old = Some (p, t) /\ tv_sec t <= tv_sec (img_atime i)) ->
  oldest_of l old o -> oldest_of (q :: l) old o.
Proof.
  intros Hq. destruct o as [[p t]|]; cbn.
  - intros (H1 & H2 & H3). split_and!; [|done|].
    + destruct H1 as [?|(i & ? & ?)]; [by left|]. right. exists i. rewrite entry_cons. auto.
    + intros r i Hr He. apply entry_cons in Hr as Hr'. destruct Hr' as [(-> & Hn & Hd)|Hr']; [|by eapply H3].
      destruct (Hq i) as [?|(p' & t' & -> & Ht)]; [done..|]. specialize (H2 p' t' eq_refl). lia.
  - intros [-> H]. split; [done|]. intros p i Hp. apply entry_cons in Hp as Hp'.
    destruct Hp' as [(-> & Hn & Hd)|Hp']; [|by eapply H]. destruct (Hq i) as [?|(?&?&?&?)]; done.
Qed.
Lemma oldest_take q i l old o :
  q <> NULL -> deref s q = Ok i -> evictable e i ->
  (forall p t, old = Some (p, t) -> tv_sec (img_atime i) <= tv_sec t) ->
  oldest_of l (Some (q, img_atime i)) o -> oldest_of (q :: l) old o.
Proof.
  intros Hq Hd He Hold. destruct o as [[p t]|]; cbn; [|by intros [? _]].
  intros (H1 & H2 & H3). specialize (H2 _ _ eq_refl). split_and!.
  - right. destruct H1 as [[= <- <-]|(j & ? & ?)]; [exists i|exists j]; rewrite entry_cons; auto.
  - intros r t' Hr. specialize (Hold r t' Hr). lia.
  - intros r j [(-> & _ & Hj)|Hr]%entry_cons Hev; [rewrite Hd in Hj; by injection Hj as <-|by eapply H3].
Qed.

Lemma findOldest_spec l : (forall q, q ∈ l -> q ∈ il_images s) -> forall old,
  exists o, findOldest (se_upstream e) s old l = Ok o /\ oldest_of l old o.
Proof.
  induction l as [|q l IH]; intros Hl old; cbn [findOldest].
  { exists old. split; [done|]. destruct old as [[p t]|]; cbn.
    - split_and!; [by left|by intros ? ? [= <- <-]|]. by intros q i (_ & ?%not_elem_of_nil & _).
    - split; [done|]. by intros q i (_ & ?%not_elem_of_nil & _). }
  specialize (IH ltac:(set_solver)). destruct (Z.eqb_spec q NULL) as [->|Hq].
  { destruct (IH old) as (o & -> & Ho). exists o. split; [done|]. apply oldest_skip; [|done]. by intros i (? & _). }
  destruct (Halive q Hq) as [i Hi]; [set_solver|]. rewrite Hi. cbn [mbind result_bind].
  assert (forall old, (~ evictable e i \/ exists p t, old = Some (p, t) /\ tv_sec t <= tv_sec (img_atime i)) ->
    exists o, findOldest (se_upstream e) s old l = Ok o /\ oldest_of (q :: l) old o) as Hskip.
  { intros old' H. destruct (IH old') as (o & -> & Ho). exists o. split; [done|]. apply oldest_skip; [|done].
    intros j (_ & _ & Hj). rewrite Hi in Hj. by injection Hj as <-. }
  destruct (Z.eqb_spec (img_users i) 0) as [Hu|Hu]; cbn [negb]; [|apply Hskip; left; by intros [? _]].
  set (older := match old with Some _ => _ | None => _ end). destruct older eqn:Hold.
  { apply Hskip. right. unfold older in Hold. destruct old as [[p t]|]; [|done]. exists p, t.
    split; [done|]. by apply Z.leb_le in Hold. }
  destruct (se_upstream e (img_name i)) eqn:Hup; cbn [negb].
  2: { apply Hskip. left. intros [_ ?]. congruence. }
  destruct (IH (Some (q, img_atime i))) as (o & -> & Ho). exists o. split; [done|].
  apply (oldest_take q i l old o); try done. intros p t ->. apply Z.leb_gt in Hold. lia.
Qed.

(** The image that is taken is one with no users that comes from upstream, and among
    these one whose last access is earliest; there is none only if there is no such
    image. *)
Theorem takeOldest_correct :
  exists s' o, takeOldest (se_upstream e) s = Ok (s', o)
    /\ match o with
       | None => s' = s /\ forall p i, entry s (il_images s) p i -> ~ evictable e i
       | Some p => exists i, entry s (il_images s) p i /\ evictable e i
           /\ s' = store p (img_set_users 1 i) s
           /\ forall q j, entry s (il_images s) q j -> evictable e j -> tv_sec (img_atime i) <= tv_sec (img_atime j)
       end.
Proof.
  unfold takeOldest. destruct (findOldest_spec (il_images s) ltac:(done) None) as (o & -> & Ho).
  cbn [mbind result_bind]. destruct o as [[p t]|]; cbn [fmap option_fmap option_map fst acquire].
  - destruct Ho as ([?|(i & Hi & He & ->)] & _ & Hmin); [done|]. unfold addUsers.
    assert (deref s p = Ok i) as Hd by apply Hi. rewrite Hd. cbn [mbind result_bind].
    eexists _, _. split; [done|]. exists i. split_and!; try done. by destruct He as [-> _].
  - eexists _, _. split; [done|]. split; [done|apply Ho].
Qed.
End Choice.

(** ** Deleting it *)

Lemma deref_heap s p i : deref s p = Ok i <-> p <> NULL /\ il_heap s !! p = Some i.
Proof.
  unfold deref. destruct (Z.eqb_spec p NULL); [naive_solver|]. destruct (il_heap s !! p); naive_solver.
Qed.

Lemma removeLoop_elem p q l : p <> NULL -> q <> NULL ->
  q ∈ removeLoop p (length l) l <-> q ∈ l /\ q <> p.
Proof.
  intros Hp Hq. pose proof (occ_pos q (removeLoop p (length l) l)) as H1. pose proof (occ_pos q l) as H2.
  rewrite removeLoop_occ in H1 by done. destruct (decide (q = p)); [|naive_solver].
  split; [|naive_solver]. intros H. assert (0 < 0) by (apply H1; done). lia.
Qed.

Lemma free_idle s p i : deref s p = Ok i -> img_users i = 0 ->
  exists s' gone, image_free s p = Ok (s', gone) /\ il_images s' = il_images s
    /\ forall q, q <> p -> il_heap s' !! q = il_heap s !! q.
Proof.
  intros Hd Hu. unfold image_free, uplink_shutdown. rewrite Hd. cbn [mbind result_bind]. rewrite Hu.
  cbn [Z.eqb assert_ mbind result_bind]. case_bool_decide; cbn [mbind result_bind].
  - unfold addUsers. rewrite Hd. cbn [mbind result_bind]. eexists _, _. split; [done|]. split; [done|].
    intros q Hq. cbn. by rewrite lookup_insert_ne.
  - eexists _, _. split; [done|]. split; [done|]. intros q Hq. cbn. by rewrite lookup_delete_ne.
Qed.

(** [q] is in the list and in use. *)
Definition inUse (s : image_list) (q : ptr) : Prop :=
  q <> NULL /\ q ∈ il_images s /\ exists i, deref s q = Ok i /\ 0 < img_users i.
(** Only [p] was touched, and it is in the list only if it was. *)
Record touches (p : ptr) (s s' : image_list) : Prop := Touches {
  tc_alive : list_alive s';
  tc_use : forall q, q <> p -> inUse s q -> inUse s' q;
}.
Lemma touches_trans p s1 s2 s3 : touches p s1 s2 -> touches p s2 s3 -> touches p s1 s3.
Proof. intros [? ?] [? ?]. split; auto. Qed.
Lemma deref_other s s' q : il_heap s' !! q = il_heap s !! q -> deref s' q = deref s q.
Proof. intros E. unfold deref. by rewrite E. Qed.
Lemma touches_heap p s s' : list_alive s -> il_images s' = il_images s -> (forall q, q <> p -> il_heap s' !! q = il_heap s !! q) ->
  (p ∈ il_images s -> p <> NULL -> exists i, deref s' p = Ok i) -> touches p s s'.
Proof.
  intros Ha Hl Hh Hp. split.
  - intros q Hq Hin. rewrite Hl in Hin. destruct (decide (q = p)) as [->|Hne]; [by apply Hp|]. rewrite (deref_other s) by auto. by apply Ha.
  - intros q Hne (Hq & Hin & i & Hi & Hu). split; [done|]. rewrite Hl. split; [done|]. exists i. by rewrite (deref_other s) by auto.
Qed.

Lemma giveBack_spec s p i : list_alive s -> p <> NULL -> deref s p = Ok i -> 0 < img_users i ->
  exists s', giveBack s p = Ok s' /\ touches p s s'.
Proof.
  intros Ha Hp Hd Hu. unfold giveBack, image_release. rewrite (proj2 (Z.eqb_neq p NULL) Hp), Hd. cbn [mbind result_bind].
  rewrite (proj2 (Z.ltb_lt 0 _) Hu). cbn [assert_ mbind result_bind]. set (i1 := img_set_users _ i). set (s1 := store p i1 s).
  assert (deref s1 p = Ok i1) as Hd1 by (apply deref_heap; split; [done|apply lookup_insert_eq]).
  assert (touches p s s1) as H1.
  { apply touches_heap; [done|done| |intros; by exists i1]. intros q Hq. cbn. by rewrite lookup_insert_ne. }
  destruct (Z.eqb_spec (img_users i - 1) 0) as [Hz|]; cbn [negb mbind result_bind]; [|by exists s1].
  case_bool_decide as Hin; cbn [negb mbind result_bind]; [by exists s1|].
  destruct (free_idle s1 p i1 Hd1 Hz) as (s2 & gone & -> & Hl & Hh). cbn [mbind result_bind]. exists s2. split; [done|].
  eapply touches_trans; [exact H1|]. apply touches_heap; [apply H1|done|done|done].
Qed.
Lemma remove_held s p i : list_alive s -> p <> NULL -> deref s p = Ok i -> 0 < img_users i ->
  exists s', image_remove s p = Ok (s', false) /\ touches p s s' /\ deref s' p = Ok i.
Proof.
  intros Ha Hp Hd Hu. unfold image_remove. set (l := removeLoop _ _ _).
  assert ((if bool_decide (p ∈ il_images s) then i ← deref s p; Ok (img_users i =? 0) else Ok false) = Ok false) as ->.
  { case_bool_decide; [|done]. rewrite Hd. cbn [mbind result_bind]. by rewrite (proj2 (Z.eqb_neq (img_users i) 0)) by lia. }
  cbn [mbind result_bind]. eexists. split; [done|]. split; [|done].
  assert (forall q, q <> NULL -> q ∈ l <-> q ∈ il_images s /\ q <> p) as Hl by (intros; by apply removeLoop_elem).
  split.
  - intros q Hq Hin. cbn in Hin. apply Hl in Hin as [Hin _]; [|done]. by apply Ha.
  - intros q Hne (Hq & Hin & Hi). split; [done|]. split; [by apply Hl|done].
Qed.

(** What other threads may do: they keep the list in order, and do not release the reference of this thread. *)
Definition others_ok (own : option ptr) (s s' : image_list) : Prop :=
  list_alive s'
  /\ match own with
     | None => True
     | Some p => forall i, deref s p = Ok i -> 0 < img_users i -> exists i', deref s' p = Ok i' /\ 0 < img_users i' /\ img_path i' = img_path i
     end.
Lemma dropImage_spec others s p i : (forall s, list_alive s -> others_ok (Some p) s (others s)) ->
  list_alive s -> p <> NULL -> deref s p = Ok i -> 0 < img_users i ->
  exists s', dropImage others s p = Ok s' /\ list_alive s'
    /\ forall q, q <> p -> (forall s, inUse s q -> inUse (others s) q) -> inUse s q -> inUse s' q.
Proof.
  intros Ho Ha Hp Hd Hu. unfold dropImage. destruct (remove_held s p i Ha Hp Hd Hu) as (s1 & -> & [Ha1 H1] & Hd1). cbn [mbind result_bind].
  destruct (Ho s1 Ha1) as [Ha2 Hown]. destruct (Hown i Hd1 Hu) as (i2 & Hd2 & Hu2 & _).
  destruct (giveBack_spec (others s1) p i2 Ha2 Hp Hd2 Hu2) as (s3 & -> & [Ha3 H3]). exists s3. split; [done|]. split; [done|]. auto.
Qed.

(** ** The whole loop *)

(** The image with the struct [x.2] was chosen from the list [x.1]. *)
Definition evicted (e : space_env) (x : image_list * dnbd3_image_t) : Prop :=
  (exists p i, entry x.1 (il_images x.1) p i /\ img_path i = img_path x.2 /\ evictable e i
    /\ forall q j, entry x.1 (il_images x.1) q j -> evictable e j -> tv_sec (img_atime i) <= tv_sec (img_atime j))
  /\ (se_sparseFiles e = true \/ exists round, 86400 <= timing_diff (img_atime x.2) (se_now e round)).

Section Freeing.
Context (e : space_env) (others : nat -> nat -> option ptr -> image_list -> image_list) (size : Z) (force : bool).
Hypothesis Hothers : forall round k own s, list_alive s -> others_ok own s (others round k own s).

(** An image that the other threads leave in use. *)
Definition stays (q : ptr) : Prop := forall round k own s, inUse s q -> inUse (others round k own s) q.
Definition freed (s : image_list) (n round : nat) (r : bool * list (image_list * dnbd3_image_t) * image_list) : Prop :=
  let '(ok, removed, s') := r in
  list_alive s' /\ (forall q, stays q -> inUse s q -> inUse s' q) /\ (length removed <= n)%nat /\ Forall (evicted e) removed
  /\ (ok = true -> exists k, (round <= k < round + n)%nat
        /\ match se_free e k with None => True | Some available => size < available end)
  /\ (se_isProxy e = false \/ se_delay e = -1 -> removed = []).

Lemma freed_stop s s' n round : list_alive s' -> (forall q, stays q -> inUse s q -> inUse s' q) -> freed s n round (false, [], s').
Proof. intros Ha Hs. split_and!; [done|done|cbn; lia|done..]. Qed.

Lemma freeLoop_spec n : forall round s, list_alive s ->
  exists r, freeLoop e others size force n round s = Ok r /\ freed s n round r.
Proof.
  induction n as [|n IH]; intros round s Ha; cbn [freeLoop]; [eexists; split; [done|by apply freed_stop]|].
  destruct (se_free e round) as [available|] eqn:Hf.
  2: { eexists. split; [done|]. split_and!; [done|done|cbn; lia|done|..]; [|done].
       intros _. exists round. rewrite Hf. split; [lia|done]. }
  destruct (Z.ltb_spec size available).
  { eexists. split; [done|]. split_and!; [done|done|cbn; lia|done|..]; [|done].
    intros _. exists round. rewrite Hf. split; [lia|done]. }
  destruct (negb (se_isProxy e) || (se_delay e =? -1)) eqn:Hproxy; [eexists; split; [done|by apply freed_stop]|].
  destruct (negb force && _); [eexists; split; [done|by apply freed_stop]|].
  cbv zeta. destruct (Hothers round 0%nat None s Ha) as [Ha0 _]. set (s0 := others round 0%nat None s) in *.
  assert (forall q, stays q -> inUse s q -> inUse s0 q) as Hs0 by (intros q Hq; apply Hq).
  destruct (takeOldest_correct e s0 Ha0) as (s1 & o & -> & Ho). cbn [mbind result_bind].
  destruct o as [p|]; [|destruct Ho as [-> _]; eexists; split; [done|by apply freed_stop]].
  destruct Ho as (i & Hent & Hev & -> & Hmin). pose proof Hent as (Hp & Hin & Hd). pose proof Hev as [Hu Hup]. set (s1 := store p (img_set_users 1 i) s0).
  assert (deref s1 p = Ok (img_set_users 1 i)) as Hd1 by (apply deref_heap; split; [done|apply lookup_insert_eq]).
  assert (touches p s0 s1) as [Ha1 H1].
  { apply touches_heap; [done|done| |intros; by eexists]. intros q Hq. cbn. by rewrite lookup_insert_ne. }
  assert (forall q, inUse s0 q -> q <> p) as Hnp.
  { intros q (_ & _ & j & Hj & Hju) ->. rewrite Hd in Hj. injection Hj as <-. lia. }
  destruct (Hothers round 1%nat (Some p) s1 Ha1) as [Ha2 Hown]. destruct (Hown _ Hd1 ltac:(cbn; lia)) as (i2 & Hd2 & Hu2 & Hpath).
  set (s2 := others round 1%nat (Some p) s1) in *. rewrite Hd2. cbn [mbind result_bind].
  assert (forall q, stays q -> inUse s q -> inUse s2 q) as Hs2.
  { intros q Hq Huse. apply Hq, H1; [apply Hnp|]; by apply Hs0. }
  destruct (_ && _) eqn:Hold.
  { destruct (giveBack_spec s2 p i2 Ha2 Hp Hd2 Hu2) as (s3 & -> & [Ha3 H3]). cbn [mbind result_bind]. eexists. split; [done|]. apply freed_stop; [done|].
    intros q Hq Huse. apply H3; [apply Hnp; by apply Hs0|by apply Hs2]. }
  destruct (dropImage_spec (others round 2%nat (Some p)) s2 p i2) as (s3 & -> & Ha3 & H3); [by apply Hothers|done..|]. cbn [mbind result_bind].
  destruct (IH (S round) s3 Ha3) as ([[ok removed] s4] & -> & Hr1 & Hs4 & Hr2 & Hr3 & Hr4 & Hr5).
  cbn [mbind result_bind]. eexists. split; [done|]. split_and!.
  - done.
  - intros q Hq Huse. apply Hs4; [done|]. apply H3; [apply Hnp; by apply Hs0|intros; by apply Hq|by apply Hs2].
  - cbn. lia.
  - constructor; [|done]. split; [by exists p, i|]. apply andb_false_iff in Hold as [Hs|Ht].
    + left. by destruct (se_sparseFiles e).
    + right. exists round. by apply Z.ltb_ge in Ht.
  - intros Hok. destruct (Hr4 Hok) as (k & Hk & ?). exists k. split; [lia|done].
  - apply orb_false_iff in Hproxy as [Hp1 Hp2]. intros [Hp3|Hp3]; [by rewrite Hp3 in Hp1|].
    by rewrite Hp3 in Hp2.
Qed.

(** C23. Making room is safe, whatever other threads do with the list of images while it is not locked (as long as they keep it in order and do
    not give back references they do not have): it ends after at most 50 deletions, never touches freed
    memory, and says yes only if enough space was free or the free space could not be
    determined.  Every image it deletes was, when it was chosen under the lock, in the list, replicated from upstream, in
    use by nobody and among such images the one with the earliest access; and unless files are sparse its access was a day ago when that was checked
    after the lock was released.  An image that others keep in use all the time stays in the list.  A server that is no proxy, or that has automatic
    deletion switched off, deletes nothing.  (An image that is grabbed again after it was chosen is deleted
    nevertheless: [grabbed_image_deleted].) *)
Theorem image_ensureDiskSpace_correct s :
  list_alive s ->
  exists ok removed s', image_ensureDiskSpace e others size force s = Ok (ok, removed, s')
    /\ (length removed <= 50)%nat /\ Forall (evicted e) removed
    /\ list_alive s' /\ (forall q, stays q -> inUse s q -> inUse s' q)
    /\ (ok = true -> exists k, (k < 50)%nat
          /\ match se_free e k with None => True | Some available => size < available end)
    /\ (se_isProxy e = false \/ se_delay e = -1 -> removed = []).
Proof.
  intros Ha. destruct (freeLoop_spec 50 0 s Ha) as ([[ok removed] s'] & Hrun & H1 & H2 & H3 & H4 & H5 & H6).
  exists ok, removed, s'. split_and!; try done. intros Hok. destruct (H5 Hok) as (k & Hk & ?). exists k. split; [lia|done].
Qed.
End Freeing.

Definition demo_full : image_list :=
  ImageList [7; NULL; 9]
    {[7 := img_set_users 2 (demo_image "in-use" 1); 9 := demo_image "idle" 1]} 0 ∅.
Definition demo_space : space_env :=
  SpaceEnv (fun round => Some (if (round =? 0)%nat then 10 else 1000)) (fun _ => Ticks 100000 0)
    true 3600 7200 false (fun _ => true).
(** Another thread gets a reference to the image [p]. *)
Definition grab (p : ptr) (s : image_list) : image_list := match addUsers s p 1 with Ok s => s | Fault _ => s end.
Lemma grab_alive p s : list_alive s -> list_alive (grab p s).
Proof.
  intros Ha. unfold grab, addUsers. destruct (deref s p) as [i|] eqn:Hd; cbn [mbind result_bind]; [|done]. intros q Hq Hin. cbn in Hin.
  destruct (decide (q = p)) as [->|Hne]; [eexists; apply deref_heap; split; [done|apply lookup_insert_eq]|].
  destruct (Ha q Hq Hin) as [j Hj]. exists j. apply deref_heap in Hj as [_ Hj]. apply deref_heap. split; [done|]. cbn. by rewrite lookup_insert_ne.
Qed.
Lemma grab_users p q s i : deref s q = Ok i -> 0 < img_users i ->
  exists i', deref (grab p s) q = Ok i' /\ 0 < img_users i' /\ img_path i' = img_path i.
Proof.
  intros Hd Hu. unfold grab, addUsers. destruct (deref s p) as [j|] eqn:Hj; cbn [mbind result_bind]; [|by exists i]. apply deref_heap in Hd as [Hq Hd].
  destruct (decide (q = p)) as [->|Hne].
  - apply deref_heap in Hj as [_ Hj]. rewrite Hd in Hj. injection Hj as <-. eexists. split; [apply deref_heap; split; [done|apply lookup_insert_eq]|]. cbn. split; [lia|done].
  - exists i. split; [apply deref_heap; split; [done|]; cbn; by rewrite lookup_insert_ne|done].
Qed.

(** While the idle image is chosen and removed, another client connects to the other one. *)
Lemma image_ensureDiskSpace_correct_witness :
  exists removed s', image_ensureDiskSpace demo_space (fun _ _ _ => grab 7) 500 false demo_full = Ok (true, removed, s')
    /\ map (fun x => img_path x.2) removed = [img_path (demo_image "idle" 1)] /\ inUse s' 7.
Proof.
  destruct (image_ensureDiskSpace_correct demo_space (fun _ _ _ => grab 7) 500 false) with (s := demo_full) as (ok & removed & s' & Hrun & _ & _ & _ & Hs & _).
  { intros round k own s Ha. split; [by apply grab_alive|]. destruct own; [|done]. intros i. apply grab_users. }
  { intros p Hp Hin. cbn in Hin. assert (p = 7 \/ p = 9) as [-> | ->] by set_solver.
    - exists (img_set_users 2 (demo_image "in-use" 1)). reflexivity.
    - exists (demo_image "idle" 1). reflexivity. }
  assert (ok = true /\ map (fun x => img_path x.2) removed = [img_path (demo_image "idle" 1)]) as [-> Hrem].
  { vm_compute in Hrun. injection Hrun as <- <- <-. split; reflexivity. }
  exists removed, s'. split; [exact Hrun|]. split; [exact Hrem|]. apply Hs.
  - intros round k own s (Hp & Hin & i & Hi & Hu). unfold grab, addUsers. rewrite Hi. cbn [mbind result_bind]. split; [done|]. split; [done|].
    eexists. split; [apply deref_heap; split; [done|apply lookup_insert_eq]|]. cbn. lia.
  - split; [done|]. split; [left|]. exists (img_set_users 2 (demo_image "in-use" 1)). split; reflexivity.
Defined.

(** A client that connects to the image after it was chosen keeps it, without its files: the image is still in use and not in the
    list any more. *)
Lemma grabbed_image_deleted :
  exists removed s', image_ensureDiskSpace demo_space (fun _ k _ s => if (k =? 1)%nat then grab 9 s else s) 500 false demo_full = Ok (true, removed, s')
    /\ map (fun x => img_path x.2) removed = [img_path (demo_image "idle" 1)] /\ (9 ∉ il_images s') /\ (img_users <$> il_heap s' !! 9) = Some 1.
Proof.
  eexists _, _. split; [vm_compute; reflexivity|]. split; [vm_compute; reflexivity|]. split; [|vm_compute; reflexivity].
  vm_compute. set_solver.
Qed.
