(* ===== verification/UrlDecode.v ===== *)
(** * UrlDecode: form fields of the status interface ([src/server/urldecode.c])

    [urldecode] splits a query string into fields and decodes the values in place: it
    reads at [src] and writes at [dst] in the same buffer.  Here the buffer is a list of
    bytes that both indices point into; the fields are offsets and lengths as in the
    code.  The specification works on lists and has no buffer. *)

From S2P Require Import Prelude.
Open Scope Z_scope.

(** ** The code *)

(** [char] is signed. *)
Definition schar (c : Z) : Z := if c <? 128 then c else c - 256.

(** [hex2int]; [None] is [goto normie]. *)
Definition hex2int (a : Z) : option Z :=
  if 97 <=? a then Some (a - (97 - 65 - 10))
  else if 70 <? a then None
  else if 65 <=? a then Some (a - (65 - 10))
  else if (a <? 48) || (57 <? a) then None
  else Some (a - 48).

(** The character behind a [%], if both digits are accepted. *)
Definition hexPair (a b : Z) : option Z :=
  let a := schar a in let b := schar b in
  if (102 <? a) || (102 <? b) then None
  else x ← hex2int a; y ← hex2int b; Some (u8 (16 * x + y)).

Fixpoint nameLoop (fuel : nat) (mem : list Z) (src dst end_ : Z) : result (list Z * Z * Z) :=
  match fuel with
  | O => Ok (mem, src, dst)
  | S fuel =>
      if src <? end_ then
        c ← aget mem src;
        if c =? 61 then Ok (mem, src, dst)
        else mem ← aset mem dst c; nameLoop fuel mem (src + 1) (dst + 1) end_
      else Ok (mem, src, dst)
  end.

Fixpoint valueLoop (fuel : nat) (mem : list Z) (src dst end_ : Z) : result (list Z * Z * Z) :=
  match fuel with
  | O => Ok (mem, src, dst)
  | S fuel =>
      if src <? end_ then
        c ← aget mem src;
        if c =? 38 then Ok (mem, src, dst)
        else
          hex ← (if (c =? 37) && (src + 2 <? end_)
                 then a ← aget mem (src + 1); b ← aget mem (src + 2); Ok (hexPair a b)
                 else Ok None);
          match hex with
          | Some x => mem ← aset mem dst x; valueLoop fuel mem (src + 3) (dst + 1) end_
          | None =>
              mem ← aset mem dst (if c =? 43 then 32 else c);
              valueLoop fuel mem (src + 1) (dst + 1) end_
          end
      else Ok (mem, src, dst)
  end.

(** A field: name and value, each by offset and length. *)
Record field := Field { f_name : Z * Z; f_value : Z * Z }.

(** [max] is the room that is left in [out]. *)
Fixpoint fieldLoop (max : nat) (mem : list Z) (src dst end_ : Z) : result (list field * list Z) :=
  match max with
  | O => Ok ([], mem)
  | S max =>
      let name := dst in
      '(mem, src, dst) ← nameLoop (Z.to_nat (end_ - src)) mem src dst end_;
      if src =? end_ then Ok ([], mem)
      else
        let nameLen := dst - name in
        let src := src + 1 in
        let value := dst + 1 in
        '(mem, src, dst) ← valueLoop (Z.to_nat (end_ - src)) mem src value end_;
        let f := Field (name, nameLen) (value, dst - value) in
        if end_ <=? src then Ok ([f], mem)
        else '(fs, mem) ← fieldLoop max mem (src + 1) (dst + 1) end_; Ok (f :: fs, mem)
  end.
Definition urldecode (max : nat) (str : list Z) : result (list field * list Z) :=
  fieldLoop max str 0 0 (Z.of_nat (length str)).

(** ** What it computes *)

Fixpoint splitName (l : list Z) : list Z * list Z :=
  match l with
  | [] => ([], [])
  | c :: r => if c =? 61 then ([], l) else let '(n, t) := splitName r in (c :: n, t)
  end.
Fixpoint decodeValue (l : list Z) : list Z * list Z :=
  match l with
  | [] => ([], [])
  | c :: r =>
      if c =? 38 then ([], l)
      else
        let normie := let '(v, t) := decodeValue r in ((if c =? 43 then 32 else c) :: v, t) in
        match r with
        | a :: b :: r' =>
            match (if c =? 37 then hexPair a b else None) with
            | Some x => let '(v, t) := decodeValue r' in (x :: v, t)
            | None => normie
            end
        | _ => normie
        end
  end.
Fixpoint parseFields (max : nat) (l : list Z) : list (list Z * list Z) :=
  match max with
  | O => []
  | S max =>
      match splitName l with
      | (_, []) => []
      | (n, _ :: r) =>
          let '(v, t) := decodeValue r in
          (n, v) :: match t with [] => [] | _ :: t => parseFields max t end
      end
  end.

Definition cut (mem : list Z) (at_ : Z * Z) : list Z := take (Z.to_nat at_.2) (drop (Z.to_nat at_.1) mem).
Definition content (mem : list Z) (f : field) : list Z * list Z := (cut mem (f_name f), cut mem (f_value f)).

(** ** The buffer *)

(** The buffer while the loops run: [out] is written, [junk] was read and will be
    overwritten, [rest] is still to be read. *)
Record at_ (mem out junk rest : list Z) (src dst : Z) : Prop := At {
  at_mem : mem = (out ++ junk ++ rest)%list;
  at_dst : dst = Z.of_nat (length out);
  at_src : src = Z.of_nat (length out + length junk);
}.

Lemma at_get mem out junk rest src dst i c :
  at_ mem out junk rest src dst -> rest !! i = Some c -> aget mem (src + Z.of_nat i) = Ok c.
Proof.
  intros [-> -> ->] Hc. apply aget_ok; [lia|].
  replace (Z.to_nat _) with (length (out ++ junk) + i)%nat by (rewrite length_app; lia).
  rewrite app_assoc, lookup_app_r by lia. rewrite <- Hc. f_equal. lia.
Qed.
Lemma at_end mem out junk rest src dst :
  at_ mem out junk rest src dst -> Z.of_nat (length mem) = src + Z.of_nat (length rest).
Proof. intros [-> -> ->]. rewrite !length_app. lia. Qed.

(** Consume [k] characters and write one. *)
Lemma at_put mem out junk used rest src dst x :
  used <> [] -> at_ mem out junk (used ++ rest) src dst ->
  exists mem' junk', aset mem dst x = Ok mem'
    /\ at_ mem' (out ++ [x]) junk' rest (src + Z.of_nat (length used)) (dst + 1).
Proof.
  intros Hu [-> -> ->].
  assert (exists y t, (junk ++ used = y :: t)%list) as (y & t & Ht).
  { destruct junk; [|cbn; eauto]. destruct used; [done|]. cbn. eauto. }
  rewrite (app_assoc junk used rest), Ht. eexists _, t. split.
  - apply aset_ok. rewrite length_app. cbn. lia.
  - apply (f_equal length) in Ht. rewrite length_app in Ht. cbn in Ht. constructor.
    + rewrite Nat2Z.id, insert_app_r_alt, Nat.sub_diag by done. cbn. by rewrite <- app_assoc.
    + rewrite length_app. cbn. lia.
    + rewrite length_app. cbn. lia.
Qed.

Lemma nameLoop_spec : forall rest fuel mem out junk src dst,
  at_ mem out junk rest src dst -> (length rest <= fuel)%nat ->
  exists mem' junk' src',
    nameLoop fuel mem src dst (src + Z.of_nat (length rest))
      = Ok (mem', src', dst + Z.of_nat (length (splitName rest).1))
    /\ at_ mem' (out ++ (splitName rest).1) junk' (splitName rest).2 src' (dst + Z.of_nat (length (splitName rest).1))
    /\ length mem' = length mem.
Proof.
  induction rest as [|c rest IH]; intros fuel mem out junk src dst Hat Hf.
  { exists mem, junk, src. cbn [splitName fst snd length]. rewrite !Z.add_0_r, app_nil_r.
    split_and!; [|done|done]. destruct fuel; cbn; [done|]. by rewrite Z.ltb_irrefl. }
  destruct fuel as [|fuel]; cbn [length] in Hf; [lia|]. cbn [nameLoop].
  destruct (Z.ltb_spec src (src + Z.of_nat (length (c :: rest)))); [|cbn in *; lia].
  pose proof (at_get _ _ _ _ _ _ 0 c Hat eq_refl) as Hget. rewrite Z.add_0_r in Hget. rewrite Hget.
  cbn [mbind result_bind splitName]. destruct (Z.eqb_spec c 61).
  { exists mem, junk, src. cbn [fst snd length]. rewrite !Z.add_0_r, app_nil_r. done. }
  destruct (at_put mem out junk [c] rest src dst c) as (mem1 & junk1 & Hset & Hat1); [done|done|].
  rewrite Hset. cbn [mbind result_bind]. pose proof (at_end _ _ _ _ _ _ Hat) as E1.
  pose proof (at_end _ _ _ _ _ _ Hat1) as E2. cbn [length] in E1, E2.
  change (Z.of_nat (length [c])) with 1 in Hat1.
  destruct (IH fuel mem1 _ _ _ _ Hat1) as (mem2 & junk2 & src2 & Hrun & Hat2 & Hlen); [lia|].
  exists mem2, junk2, src2. destruct (splitName rest) as [nm t]. cbn [fst snd length] in *.
  replace (src + Z.of_nat (S (length rest))) with (src + 1 + Z.of_nat (length rest)) by lia.
  replace (dst + Z.of_nat (S (length nm))) with (dst + 1 + Z.of_nat (length nm)) by lia.
  split_and!; [done| |lia]. by rewrite <- app_assoc in Hat2.
Qed.

(** One turn of the value loop: either it stops, or it consumes [used] and writes [x]. *)
Lemma valueLoop_step mem out junk c r src dst fuel :
  at_ mem out junk (c :: r) src dst -> (c =? 38) = false ->
  exists x used rest, (c :: r = used ++ rest)%list /\ used <> []
    /\ decodeValue (c :: r) = (let '(v, t) := decodeValue rest in (x :: v, t))
    /\ valueLoop (S fuel) mem src dst (src + Z.of_nat (length (c :: r)))
       = (mem ← aset mem dst x;
          valueLoop fuel mem (src + Z.of_nat (length used)) (dst + 1) (src + Z.of_nat (length (c :: r)))).
Proof.
  intros Hat Hc. cbn [valueLoop]. destruct (Z.ltb_spec src (src + Z.of_nat (length (c :: r)))); [|cbn in *; lia].
  pose proof (at_get _ _ _ _ _ _ 0 c Hat eq_refl) as Hget. rewrite Z.add_0_r in Hget. rewrite Hget.
  cbn [mbind result_bind]. rewrite Hc.
  assert (exists x, decodeValue (c :: r) = (let '(v, t) := decodeValue (match x with Some _ => drop 2 r | None => r end) in
              (match x with Some y => y | None => if c =? 43 then 32 else c end :: v, t))
    /\ (if (c =? 37) && (src + 2 <? src + Z.of_nat (length (c :: r)))
        then a ← aget mem (src + 1); b ← aget mem (src + 2); Ok (hexPair a b) else Ok None) = Ok x
    /\ (x <> None -> (2 <= length r)%nat)) as (x & Hd & -> & Hx).
  { cbn [decodeValue]. rewrite Hc. destruct r as [|a [|b r]].
    - exists None. destruct (Z.ltb_spec (src + 2) (src + Z.of_nat (length [c]))); [cbn in *; lia|].
      by rewrite andb_false_r.
    - exists None. destruct (Z.ltb_spec (src + 2) (src + Z.of_nat (length [c; a]))); [cbn in *; lia|].
      by rewrite andb_false_r.
    - destruct (Z.ltb_spec (src + 2) (src + Z.of_nat (length (c :: a :: b :: r)))); [|cbn in *; lia].
      rewrite andb_true_r. destruct (c =? 37).
      + rewrite (at_get _ _ _ _ _ _ 1 a Hat eq_refl : aget mem (src + 1) = _).
        rewrite (at_get _ _ _ _ _ _ 2 b Hat eq_refl : aget mem (src + 2) = _). cbn [mbind result_bind].
        exists (hexPair a b). split_and!; [by destruct (hexPair a b)|done|cbn; lia].
      + exists None. done. }
  cbn [mbind result_bind]. destruct x as [x|].
  - destruct r as [|a [|b r]]; [exfalso; cbn in Hx; specialize (Hx ltac:(done)); lia..|].
    exists x, [c; a; b], r. done.
  - exists (if c =? 43 then 32 else c), [c], r. done.
Qed.

Lemma valueLoop_spec n : forall rest fuel mem out junk src dst,
  (length rest <= n)%nat -> at_ mem out junk rest src dst -> (length rest <= fuel)%nat ->
  exists mem' junk' src',
    valueLoop fuel mem src dst (src + Z.of_nat (length rest))
      = Ok (mem', src', dst + Z.of_nat (length (decodeValue rest).1))
    /\ at_ mem' (out ++ (decodeValue rest).1) junk' (decodeValue rest).2 src' (dst + Z.of_nat (length (decodeValue rest).1))
    /\ length mem' = length mem.
Proof.
  induction n as [|n IH]; intros rest fuel mem out junk src dst Hn Hat Hf;
    (destruct rest as [|c r]; [exists mem, junk, src; cbn [decodeValue fst snd length];
       rewrite !Z.add_0_r, app_nil_r; split_and!; [|done|done]; destruct fuel; cbn; [done|]; by rewrite Z.ltb_irrefl|]).
  { cbn in Hn. lia. }
  destruct fuel as [|fuel]; [cbn in Hf; lia|]. destruct (c =? 38) eqn:Hc.
  { pose proof (at_get _ _ _ _ _ _ 0 c Hat eq_refl) as Hget. rewrite Z.add_0_r in Hget.
    exists mem, junk, src. cbn [decodeValue valueLoop]. rewrite Hc. cbn [fst snd].
    destruct (Z.ltb_spec src (src + Z.of_nat (length (c :: r)))); [|cbn in *; lia].
    rewrite Hget. cbn [mbind result_bind]. rewrite Hc. cbn [length]. by rewrite !Z.add_0_r, app_nil_r. }
  destruct (valueLoop_step mem out junk c r src dst fuel Hat Hc) as (x & used & rest & Heq & Hu & Hd & ->).
  rewrite Hd. rewrite Heq in Hat, Hn, Hf |- *. rewrite length_app in Hn, Hf |- *.
  assert (0 < length used)%nat by (destruct used; [done|cbn; lia]).
  destruct (at_put mem out junk used rest src dst x Hu Hat) as (mem1 & junk1 & -> & Hat1). cbn [mbind result_bind].
  pose proof (at_end _ _ _ _ _ _ Hat) as E1. pose proof (at_end _ _ _ _ _ _ Hat1) as E2. rewrite length_app in E1.
  destruct (IH rest fuel mem1 _ _ _ _ ltac:(lia) Hat1 ltac:(lia)) as (mem2 & junk2 & src2 & Hrun & Hat2 & Hlen).
  exists mem2, junk2, src2. destruct (decodeValue rest) as [v t]. cbn [fst snd length] in *.
  replace (src + Z.of_nat (length used + length rest)) with (src + Z.of_nat (length used) + Z.of_nat (length rest)) by lia.
  replace (dst + Z.of_nat (S (length v))) with (dst + 1 + Z.of_nat (length v)) by lia.
  split_and!; [done| |lia]. by rewrite <- app_assoc in Hat2.
Qed.

(** A character is passed over in the input and in the output. *)
Lemma at_skip mem out junk c rest src dst :
  at_ mem out junk (c :: rest) src dst ->
  exists y junk', at_ mem (out ++ [y]) junk' rest (src + 1) (dst + 1).
Proof.
  intros [-> -> ->]. assert (exists y t, (junk ++ [c] = y :: t)%list) as (y & t & Ht) by (destruct junk; cbn; eauto).
  exists y, t. apply (f_equal length) in Ht as Hl. rewrite length_app in Hl. cbn in Hl. constructor.
  - change (c :: rest) with ([c] ++ rest)%list. rewrite (app_assoc junk), Ht. cbn. by rewrite <- app_assoc.
  - rewrite length_app. cbn. lia.
  - rewrite length_app. cbn. lia.
Qed.

Lemma at_prefix mem out junk rest src dst : at_ mem out junk rest src dst -> take (length out) mem = out.
Proof. intros [-> _ _]. apply take_app_length. Qed.

Lemma cut_prefix mem a b c at0 len :
  take (length (a ++ b ++ c)) mem = (a ++ b ++ c)%list -> at0 = Z.of_nat (length a) -> len = Z.of_nat (length b) ->
  cut mem (at0, len) = b.
Proof.
  intros Hm -> ->. unfold cut. cbn [fst snd]. rewrite !Nat2Z.id.
  rewrite <- (take_drop (length (a ++ b ++ c)) mem), Hm, <- app_assoc, drop_app_length, <- app_assoc.
  apply take_app_length.
Qed.

Lemma prefix_shorter {A} (a b mem : list A) :
  take (length (a ++ b)) mem = (a ++ b)%list -> take (length a) mem = a.
Proof.
  intros H. apply (f_equal (take (length a))) in H. rewrite take_take, take_app_length in H.
  rewrite Nat.min_l in H by (rewrite length_app; lia). done.
Qed.

Lemma fieldLoop_spec max : forall mem out junk rest src dst,
  at_ mem out junk rest src dst ->
  exists fs mem', fieldLoop max mem src dst (Z.of_nat (length mem)) = Ok (fs, mem')
    /\ take (length out) mem' = out /\ length mem' = length mem
    /\ map (content mem') fs = parseFields max rest.
Proof.
  induction max as [|max IH]; intros mem out junk rest src dst Hat; cbn [fieldLoop parseFields].
  { exists [], mem. split_and!; [done|by eapply at_prefix|done..]. }
  pose proof (at_end _ _ _ _ _ _ Hat) as E0.
  destruct (nameLoop_spec rest (Z.to_nat (Z.of_nat (length mem) - src)) mem out junk src dst Hat ltac:(lia))
    as (mem1 & junk1 & src1 & Hn & Hat1 & L1).
  rewrite <- E0 in Hn. rewrite Hn. cbn [mbind result_bind]. pose proof (at_end _ _ _ _ _ _ Hat1) as E1.
  destruct (splitName rest) as [n [|c r]]; cbn [fst snd] in *.
  { cbn [length] in E1. destruct (Z.eqb_spec src1 (Z.of_nat (length mem))); [|lia]. exists [], mem1.
    split_and!; [done| |done..]. by eapply prefix_shorter, at_prefix. }
  cbn [length] in E1. destruct (Z.eqb_spec src1 (Z.of_nat (length mem))); [lia|].
  destruct (at_skip _ _ _ _ _ _ _ Hat1) as (y & junk2 & Hat2).
  pose proof (at_end _ _ _ _ _ _ Hat2) as E2.
  destruct (valueLoop_spec (length r) r (Z.to_nat (Z.of_nat (length mem) - (src1 + 1))) mem1 _ junk2 _ _ ltac:(lia) Hat2 ltac:(lia))
    as (mem3 & junk3 & src3 & Hv & Hat3 & L3).
  rewrite <- E2, L1 in Hv. rewrite Hv. cbn [mbind result_bind]. pose proof (at_end _ _ _ _ _ _ Hat3) as E3.
  pose proof (at_dst _ _ _ _ _ _ Hat) as Hdst.
  destruct (decodeValue r) as [v t]. cbn [fst snd] in *. set (f := Field _ _).
  assert (forall mem' z, take (length (((out ++ n) ++ [y]) ++ v ++ z)) mem' = (((out ++ n) ++ [y]) ++ v ++ z)%list ->
    take (length out) mem' = out /\ content mem' f = (n, v)) as Hcontent.
  { intros mem' z Hm. split; [do 3 apply prefix_shorter in Hm; done|]. unfold content, f. cbn [f_name f_value].
    f_equal.
    - eapply (cut_prefix mem' out n ([y] ++ v ++ z)); [|done|lia]. rewrite <- !app_assoc in Hm. exact Hm.
    - eapply cut_prefix; [exact Hm|rewrite !length_app; cbn; lia|lia]. }
  destruct t as [|c' t].
  - cbn [length] in E3. destruct (Z.leb_spec (Z.of_nat (length mem)) src3); [|lia].
    exists [f], mem3. destruct (Hcontent mem3 []) as [H1 H2].
    { rewrite app_nil_r. by eapply at_prefix. }
    split_and!; [done..|lia|cbn; by rewrite H2].
  - cbn [length] in E3. destruct (Z.leb_spec (Z.of_nat (length mem)) src3); [lia|].
    destruct (at_skip _ _ _ _ _ _ _ Hat3) as (z & junk4 & Hat4).
    destruct (IH mem3 _ _ _ _ _ Hat4) as (fs & mem4 & Hrun & Hpre & L4 & Hfs).
    rewrite L3, L1 in Hrun. rewrite Hrun. cbn [mbind result_bind]. exists (f :: fs), mem4.
    destruct (Hcontent mem4 [z]) as [H1 H2]; [by rewrite <- app_assoc in Hpre|].
    split_and!; [done..|lia|cbn; by rewrite H2, Hfs].
Qed.

(** ** Writing a query *)

Definition hexDigit (n : Z) : Z := if n <? 10 then 48 + n else 55 + n.
Definition encodeChar (c : Z) : list Z :=
  if c =? 32 then [43]
  else if (c =? 37) || (c =? 38) || (c =? 43) || (127 <? c) then [37; hexDigit (c / 16); hexDigit (c mod 16)]
  else [c].
Definition encodeFields (fs : list (list Z * list Z)) : list Z :=
  match fs with
  | [] => []
  | (n, v) :: fs => (n ++ [61] ++ concat (map encodeChar v)
                     ++ concat (map (fun f => [38] ++ f.1 ++ [61] ++ concat (map encodeChar f.2)) fs))%list
  end.

Lemma hexPair_digits c : in_u8 c -> hexPair (hexDigit (c / 16)) (hexDigit (c mod 16)) = Some c.
Proof.
  intros Hc. assert (c = 16 * (c / 16) + c mod 16) as Heq by (apply Z.div_mod; lia).
  assert (0 <= c / 16 < 16) by (unfold in_u8 in Hc; split; [apply Z.div_pos; lia|apply Z.div_lt_upper_bound; lia]).
  pose proof (Z.mod_pos_bound c 16 ltac:(lia)).
  assert (forall n, 0 <= n < 16 -> schar (hexDigit n) <= 102 /\ hex2int (schar (hexDigit n)) = Some n) as Hd.
  { assert (forallb (fun n => (schar (hexDigit n) <=? 102) && bool_decide (hex2int (schar (hexDigit n)) = Some n)) (seqZ 0 16)
      = true) as Hall by by vm_compute.
    intros n Hn. rewrite forallb_forall in Hall. specialize (Hall n).
    rewrite <- list_elem_of_In, elem_of_seqZ in Hall. specialize (Hall ltac:(lia)).
    apply andb_true_iff in Hall as [H1%Z.leb_le H2%bool_decide_eq_true]. done. }
  unfold hexPair. destruct (Hd (c / 16)) as [H1 H2]; [lia|]. destruct (Hd (c mod 16)) as [H3 H4]; [lia|].
  destruct (Z.ltb_spec 102 (schar (hexDigit (c / 16)))); [lia|].
  destruct (Z.ltb_spec 102 (schar (hexDigit (c mod 16)))); [lia|]. cbn [orb]. rewrite H2, H4. cbn.
  f_equal. rewrite <- Heq. by apply u8_id.
Qed.

Lemma decode_encoded v t : Forall in_u8 v -> t = [] \/ (exists r, t = 38 :: r) ->
  decodeValue (concat (map encodeChar v) ++ t) = (v, t).
Proof.
  intros Hv Ht. induction Hv as [|c v Hc Hv IH].
  { destruct Ht as [->|[r ->]]; done. }
  cbn [map concat]. rewrite <- app_assoc. set (more := (concat (map encodeChar v) ++ t)%list) in *.
  unfold encodeChar. destruct (Z.eqb_spec c 32) as [->|]; cbn [app].
  { cbn [decodeValue Z.eqb]. rewrite IH. by destruct more as [|? [|? ?]]. }
  destruct ((c =? 37) || (c =? 38) || (c =? 43) || (127 <? c)) eqn:Hsp; cbn [app].
  - cbn [decodeValue Z.eqb]. rewrite hexPair_digits by done. cbn. by rewrite IH.
  - repeat (apply orb_false_iff in Hsp as [Hsp ?]). cbn [decodeValue]. rewrite IH.
    rewrite Hsp. destruct (c =? 38) eqn:E38; [done|]. destruct (c =? 43) eqn:E43; [done|].
    by destruct more as [|? [|? ?]].
Qed.
Lemma splitName_name n t : (61 ∉ n) -> splitName (n ++ 61 :: t) = (n, 61 :: t).
Proof.
  induction n as [|c n IH]; [done|]. rewrite not_elem_of_cons. intros [Hc Hn]. cbn.
  destruct (Z.eqb_spec c 61); [lia|]. by rewrite IH.
Qed.

(** Decoding in place is safe and inverts encoding: [urldecode] never reads or
    writes outside the string, the fields it returns are, in the buffer as it is
    afterwards, the names and decoded values of the list specification (at most [max]
    of them), and for a query that was written with upper case hex digits these are
    the original fields. *)
Theorem urldecode_correct max str :
  exists fs mem, urldecode max str = Ok (fs, mem) /\ length mem = length str
    /\ map (content mem) fs = parseFields max str
    /\ (forall fields, Forall (fun f => (61 ∉ f.1) /\ Forall in_u8 f.2) fields ->
        str = encodeFields fields -> map (content mem) fs = take max fields).
Proof.
  unfold urldecode. destruct (fieldLoop_spec max str [] [] str 0 0) as (fs & mem & Hrun & _ & Hlen & Hfs); [done|].
  exists fs, mem. split_and!; [done..|]. intros fields Hf ->. rewrite Hfs. clear -Hf.
  revert fields Hf. induction max as [|max IH]; intros fields Hf; [done|]. cbn [parseFields take].
  destruct fields as [|[n v] fields]; [done|]. apply list.Forall_cons in Hf as [[Hn Hv] Hf]. cbn [fst snd] in *.
  change (take (S max) ((n, v) :: fields)) with ((n, v) :: take max fields).
  cbn [encodeFields app]. rewrite splitName_name by done.
  destruct fields as [|[n2 v2] fields]; cbn [map concat].
  - rewrite app_nil_r. pose proof (decode_encoded v [] Hv ltac:(by left)) as Hd. rewrite app_nil_r in Hd.
    rewrite Hd. by destruct max.
  - rewrite decode_encoded by (done || (right; eauto)). f_equal. etrans; [|exact (IH _ Hf)].
    cbn [encodeFields app fst snd]. by rewrite <- !app_assoc.
Qed.

(** Lower case hex digits are decoded to something else: [%2f], the slash, becomes
    a [p]. *)
Theorem lower_case_hex_wrong :
  decodeValue [37; 50; 102] = ([112], []) /\ decodeValue [37; 50; 70] = ([47], []).
Proof. vm_compute. done. Qed.

Lemma urldecode_correct_witness :
  exists fs mem, urldecode 4 (encodeFields [([97], [47; 32]); ([98], [200])]) = Ok (fs, mem)
    /\ map (content mem) fs = [([97], [47; 32]); ([98], [200])].
Proof.
  destruct (urldecode_correct 4 (encodeFields [([97], [47; 32]); ([98], [200])])) as (fs & mem & H1 & _ & _ & H4).
  exists fs, mem. split; [exact H1|]. apply (H4 [([97], [47; 32]); ([98], [200])]); [|reflexivity].
  repeat constructor; cbn; try crange; intros H%list_elem_of_singleton; discriminate H.
Defined.

(** The fields lie inside the text. *)
Definition inside (n : Z) (f : field) : Prop :=
  (0 <= (f_name f).1 /\ 0 <= (f_name f).2 /\ (f_name f).1 + (f_name f).2 <= n)
  /\ (0 <= (f_value f).1 /\ 0 <= (f_value f).2 /\ (f_value f).1 + (f_value f).2 <= n).
Lemma nameLoop_range fuel : forall mem src dst end_ mem' src' dst',
  nameLoop fuel mem src dst end_ = Ok (mem', src', dst') -> dst <= src <= end_ ->
  dst <= dst' <= src' /\ src' <= end_.
Proof.
  induction fuel as [|fuel IH]; intros mem src dst end_ mem' src' dst'; cbn [nameLoop]; [intros [= <- <- <-]; lia|].
  destruct (Z.ltb_spec src end_); [|intros [= <- <- <-]; lia].
  destruct (aget mem src) as [c|]; [|done]. cbn. destruct (c =? 61); [intros [= <- <- <-]; lia|].
  destruct (aset mem dst c) as [m|]; [|done]. cbn. intros E ?. apply IH in E; lia.
Qed.
Lemma valueLoop_range fuel : forall mem src dst end_ mem' src' dst',
  valueLoop fuel mem src dst end_ = Ok (mem', src', dst') -> dst <= src <= end_ ->
  dst <= dst' <= src' /\ src' <= end_.
Proof.
  induction fuel as [|fuel IH]; intros mem src dst end_ mem' src' dst'; cbn [valueLoop]; [intros [= <- <- <-]; lia|].
  destruct (Z.ltb_spec src end_); [|intros [= <- <- <-]; lia].
  destruct (aget mem src) as [c|]; [|done]. cbn. destruct (c =? 38); [intros [= <- <- <-]; lia|].
  destruct (c =? 37); cbn [andb].
  1: destruct (Z.ltb_spec (src + 2) end_).
  1: destruct (aget mem (src + 1)) as [a|]; [|done]; cbn; destruct (aget mem (src + 2)) as [b|]; [|done]; cbn; destruct (hexPair a b).
  all: cbn; match goal with |- context [aset ?m ?d ?x] => destruct (aset m d x); [|done] end; cbn; intros E ?; apply IH in E; lia.
Qed.
Lemma fieldLoop_inside max : forall mem src dst end_ fs mem',
  fieldLoop max mem src dst end_ = Ok (fs, mem') -> 0 <= dst <= src /\ src <= end_ -> Forall (inside end_) fs.
Proof.
  induction max as [|max IH]; intros mem src dst end_ fs mem'; cbn [fieldLoop]; [intros [= <- _] _; constructor|].
  destruct (nameLoop _ mem src dst end_) as [[[m1 s1] d1]|] eqn:E1; [|done]. cbn. intros E H.
  apply nameLoop_range in E1; [|lia]. destruct (Z.eqb_spec s1 end_); [injection E as <- _; constructor|].
  destruct (valueLoop _ m1 (s1 + 1) (d1 + 1) end_) as [[[m2 s2] d2]|] eqn:E2; [|done]. cbn in E.
  apply valueLoop_range in E2; [|lia].
  assert (inside end_ (Field (dst, d1 - dst) (d1 + 1, d2 - (d1 + 1)))) as Hin by (split; cbn; lia).
  destruct (Z.leb_spec end_ s2); [injection E as <- _; constructor; [exact Hin|constructor]|].
  destruct (fieldLoop max m2 (s2 + 1) (d2 + 1) end_) as [[fs2 m3]|] eqn:E3; [|done]. cbn in E. injection E as <- _.
  constructor; [done|]. eapply IH; [exact E3|lia].
Qed.
Lemma urldecode_spec max str :
  exists fs mem, urldecode max str = Ok (fs, mem) /\ length mem = length str
    /\ map (content mem) fs = parseFields max str /\ Forall (inside (Z.of_nat (length str))) fs.
Proof.
  unfold urldecode. destruct (fieldLoop_spec max str [] [] str 0 0) as (fs & mem & Hrun & _ & Hlen & Hfs); [done|].
  exists fs, mem. split_and!; [done..|]. eapply fieldLoop_inside; [exact Hrun|lia].
Qed.
