(* ===== verification/Jobs.v ===== *)
(** * Jobs: the timed jobs of the server ([src/server/server.c])

    Any thread adds a job with [server_addJob], by pushing it onto the list [newJob]; the
    timer thread runs [handlePendingJobs], which starts the jobs that are due, puts
    repeated ones back and moves the new ones into the sorted list [jobHead].  A job is
    known by what it calls; starting a job hands it to the thread pool. *)

From Stdlib Require Import Sorted.
From S2P Require Import Prelude Timing.
Open Scope Z_scope.

Definition DEFAULT_TIMER_TIMEOUT : Z := 60.

Record job_t := Job {
  job_call : Z;              (* [startRoutine] and [arg] *)
  job_dueDate : ticks;
  job_intervalSecs : Z;      (* 0: runs once *)
}.

(** [jobHead] is [jl_head]; [newJob] is [jl_new], the latest first. *)
Record job_list := JobList { jl_head : list job_t; jl_new : list job_t }.

Fixpoint queueJobInternal (job : job_t) (l : list job_t) : list job_t :=
  match l with
  | [] => [job]
  | it :: rest =>
      if timing_1le2 (job_dueDate job) (job_dueDate it) then job :: l
      else it :: queueJobInternal job rest
  end.

Definition server_addJob (now : ticks) (call delaySecs intervalSecs : Z) (s : job_list) : job_list :=
  JobList (jl_head s) (Job call (timing_set now delaySecs) intervalSecs :: jl_new s).

(** The jobs in front of the first one that is in the future. *)
Fixpoint splitDue (now : ticks) (l : list job_t) : list job_t * list job_t :=
  match l with
  | [] => ([], [])
  | job :: rest =>
      if 0 <? i32 (timing_diff now (job_dueDate job)) then ([], l)
      else let '(todo, later) := splitDue now rest in (job :: todo, later)
  end.

(** A job that was started: gone, or queued again. *)
Definition requeue (now : ticks) (head : list job_t) (old : job_t) : list job_t :=
  if job_intervalSecs old =? 0 then head
  else queueJobInternal (Job (job_call old) (timing_set now (job_intervalSecs old)) (job_intervalSecs old)) head.

(** The result: the jobs that were started, in order, the list and the timeout. *)
Definition handlePendingJobs (now : ticks) (s : job_list) : list job_t * job_list * Z :=
  let '(todo, later) := splitDue now (jl_head s) in
  let head := foldl (requeue now) later todo in
  let head := foldl (fun head job => queueJobInternal job head) head (jl_new s) in
  (todo, JobList head [],
   match head with [] => DEFAULT_TIMER_TIMEOUT | job :: _ => i32 (timing_diff now (job_dueDate job)) end).

(** [sleep( MIN( MAX( 1, to ), DEFAULT_TIMER_TIMEOUT ) )] in [timerMainloop]. *)
Definition timerSleep (to : Z) : Z := Z.min (Z.max 1 to) DEFAULT_TIMER_TIMEOUT.

Inductive job_event :=
| AddJob (now : ticks) (call delaySecs intervalSecs : Z)
| Tick (now : ticks).

(** The jobs added and the jobs started so far are recorded beside the list. *)
Record job_run := JobRun { jr_list : job_list; jr_added : list (Z * Z); jr_ended : list (Z * Z) }.
Definition jobKey (j : job_t) : Z * Z := (job_call j, job_intervalSecs j).
Definition jobStep (r : job_run) (e : job_event) : job_run :=
  match e with
  | AddJob now call delay interval =>
      JobRun (server_addJob now call delay interval (jr_list r)) (jr_added r ++ [(call, interval)]) (jr_ended r)
  | Tick now =>
      let '(ran, s, _) := handlePendingJobs now (jr_list r) in
      JobRun s (jr_added r) (jr_ended r ++ filter (fun k => k.2 = 0) (map jobKey ran))
  end.
Definition jobs0 : job_run := JobRun (JobList [] []) [] [].

(** ** The list stays sorted *)

Definition due_le (a b : job_t) : Prop := tv_sec (job_dueDate a) <= tv_sec (job_dueDate b).
Abbreviation sorted := (StronglySorted due_le).

Lemma queueJob_perm job l : queueJobInternal job l ≡ₚ job :: l.
Proof.
  induction l as [|it l IH]; [done|]. cbn. destruct (timing_1le2 _ _); [done|]. rewrite IH. apply Permutation_swap.
Qed.
Lemma queueJob_sorted job l : sorted l -> sorted (queueJobInternal job l).
Proof.
  induction 1 as [|it l Hl IH Hit]; cbn; [by repeat constructor|].
  unfold timing_1le2, timing_reached. destruct (Z.leb_spec (tv_sec (job_dueDate job)) (tv_sec (job_dueDate it))).
  - constructor; [by constructor|]. constructor; [done|]. eapply List.Forall_impl; [|exact Hit].
    unfold due_le. intros a Ha. lia.
  - constructor; [done|]. rewrite queueJob_perm. constructor; [unfold due_le; lia|done].
Qed.
Lemma queueJobs_perm new : forall head, foldl (fun head job => queueJobInternal job head) head new ≡ₚ new ++ head.
Proof.
  induction new as [|job new IH]; intros head; [done|]. cbn. rewrite IH, queueJob_perm.
  by rewrite Permutation_middle.
Qed.
Lemma queueJobs_sorted new : forall head, sorted head -> sorted (foldl (fun head job => queueJobInternal job head) head new).
Proof. induction new as [|job new IH]; intros head Hh; [done|]. by apply IH, queueJob_sorted. Qed.

Lemma requeue_sorted now head old : sorted head -> sorted (requeue now head old).
Proof. intros Hh. unfold requeue. destruct (_ =? 0); [done|by apply queueJob_sorted]. Qed.
Lemma requeues_sorted now todo : forall head, sorted head -> sorted (foldl (requeue now) head todo).
Proof. induction todo as [|old todo IH]; intros head Hh; [done|]. by apply IH, requeue_sorted. Qed.
Lemma requeues_keys now todo : forall head,
  map jobKey (foldl (requeue now) head todo) ++ filter (fun k => k.2 = 0) (map jobKey todo)
  ≡ₚ map jobKey head ++ map jobKey todo.
Proof.
  induction todo as [|old todo IH]; intros head; [done|]. cbn [foldl map]. unfold requeue at 2, jobKey at 3.
  destruct (Z.eqb_spec (job_intervalSecs old) 0) as [E|E].
  - rewrite filter_cons_True by done. rewrite <- Permutation_middle, IH. by rewrite Permutation_middle.
  - rewrite filter_cons_False by done. rewrite IH, queueJob_perm. cbn [map]. by rewrite <- Permutation_middle.
Qed.

Lemma splitDue_app now l : ((splitDue now l).1 ++ (splitDue now l).2 = l)%list.
Proof.
  induction l as [|job l IH]; [done|]. cbn. destruct (0 <? _); [done|].
  destruct (splitDue now l) as [todo later]. cbn in *. by rewrite IH.
Qed.
Lemma sorted_app_r l1 l2 : sorted (l1 ++ l2) -> sorted l2.
Proof. induction l1 as [|x l1 IH]; [done|]. inversion 1; subst. by apply IH. Qed.

(** A job whose second has come is not behind one of the future. *)
Lemma splitDue_due now l job :
  sorted l -> job ∈ l -> tv_sec (job_dueDate job) <= tv_sec now -> job ∈ (splitDue now l).1.
Proof.
  intros Hl Hj Hdue. induction Hl as [|x l Hl IH Hx]; [by apply not_elem_of_nil in Hj|]. cbn [splitDue].
  assert (tv_sec (job_dueDate x) <= tv_sec now) as Hxd.
  { apply elem_of_cons in Hj as [->|Hj]; [done|]. rewrite list.Forall_forall in Hx. specialize (Hx job Hj).
    unfold due_le in Hx. lia. }
  assert (timing_diff now (job_dueDate x) = 0) as ->.
  { unfold timing_diff. destruct (Z.leb_spec (tv_sec (job_dueDate x)) (tv_sec now)); [done|lia]. }
  change (0 <? i32 0) with false. cbn match. destruct (splitDue now l) as [todo later]. cbn [fst] in *.
  apply elem_of_cons in Hj as [->|Hj]; [by left|]. right. by apply IH.
Qed.
Lemma splitDue_early now l job : job ∈ (splitDue now l).1 -> i32 (timing_diff now (job_dueDate job)) <= 0.
Proof.
  induction l as [|x l IH]; cbn; [by intros ?%not_elem_of_nil|]. destruct (Z.ltb_spec 0 (i32 (timing_diff now (job_dueDate x)))).
  - by intros ?%not_elem_of_nil.
  - destruct (splitDue now l) as [todo later]. cbn in *. intros [->|?]%elem_of_cons; [done|by apply IH].
Qed.

Lemma regroup {A} (a b c d : list A) : (a ++ b) ++ c ++ d ≡ₚ (b ++ d) ++ a ++ c.
Proof.
  rewrite (Permutation_app_comm a b), (Permutation_app_comm c d), <- !app_assoc. f_equiv.
  apply Permutation_app_swap_app.
Qed.

Record jobs_inv (r : job_run) : Prop := {
  ji_sorted : sorted (jl_head (jr_list r));
  ji_keys : map jobKey (jl_head (jr_list r)) ++ map jobKey (jl_new (jr_list r)) ++ jr_ended r ≡ₚ jr_added r;
}.
Lemma jobs_inv_step r e : jobs_inv r -> jobs_inv (jobStep r e).
Proof.
  intros [Hs Hk]. destruct e as [now call delay interval|now]; cbn [jobStep].
  - constructor; cbn; [done|]. rewrite <- Hk. by rewrite <- Permutation_middle, Permutation_cons_append.
  - unfold handlePendingJobs. pose proof (splitDue_app now (jl_head (jr_list r))) as Happ.
    destruct (splitDue now (jl_head (jr_list r))) as [todo later]. cbn [fst snd] in *.
    rewrite <- Happ in Hs, Hk. constructor; cbn [jr_list jl_head jl_new jr_added jr_ended].
    + apply queueJobs_sorted, requeues_sorted. by eapply sorted_app_r.
    + rewrite <- Hk, queueJobs_perm, map_app. cbn [map app].
      rewrite regroup, requeues_keys, map_app. f_equiv. apply Permutation_app_comm.
Qed.

(** The timer loses no job: after any sequence of added jobs and turns of the timer
    thread, the jobs in the two lists together with the one-shot jobs that ran are
    exactly the jobs that were added, and the list is sorted by due second.  A turn
    starts every queued job whose second has come, starts none that is due a full
    second or more from now, and the timeout it returns does not reach beyond the
    next job. *)
Theorem jobs_run_when_due events now :
  let r := foldl jobStep jobs0 events in
  let '(ran, s, timeout) := handlePendingJobs now (jr_list r) in
  sorted (jl_head (jr_list r))
  /\ map jobKey (jl_head (jr_list r)) ++ map jobKey (jl_new (jr_list r)) ++ jr_ended r ≡ₚ jr_added r
  /\ (forall job, job ∈ jl_head (jr_list r) -> tv_sec (job_dueDate job) <= tv_sec now -> job ∈ ran)
  /\ (forall job, job ∈ ran -> job ∈ jl_head (jr_list r)
        /\ i32 (timing_diff now (job_dueDate job)) <= 0)
  /\ (forall job, job ∈ jl_head s -> tv_sec now < tv_sec (job_dueDate job) < tv_sec now + 2 ^ 31 ->
      (forall j, j ∈ jl_head s -> tv_sec (job_dueDate j) < tv_sec now + 2 ^ 31) ->
      tv_sec now + timeout <= tv_sec (job_dueDate job)).
Proof.
  cbn zeta. assert (jobs_inv (foldl jobStep jobs0 events)) as [Hs Hk].
  { assert (jobs_inv jobs0) as H0 by (constructor; [constructor|done]). revert H0. generalize jobs0.
    induction events as [|e events IH]; intros r Hr; [done|]. by apply IH, jobs_inv_step. }
  set (r := foldl jobStep jobs0 events) in *. destruct (handlePendingJobs now (jr_list r)) as [[ran s] timeout] eqn:Hrun.
  assert (sorted (jl_head s)) as Hs'.
  { pose proof (jobs_inv_step r (Tick now) (Build_jobs_inv r Hs Hk)) as [H _]. cbn [jobStep] in H. by rewrite Hrun in H. }
  unfold handlePendingJobs in Hrun. pose proof (splitDue_app now (jl_head (jr_list r))) as Happ.
  pose proof (splitDue_due now (jl_head (jr_list r))) as Hdue. pose proof (splitDue_early now (jl_head (jr_list r))) as Hearly.
  destruct (splitDue now (jl_head (jr_list r))) as [todo later]. cbn [fst snd] in *. injection Hrun as <- <- Hto.
  split_and!; [done|done|intros job Hj Hd; by apply Hdue| |].
  - intros job Hj. split; [|by apply Hearly]. rewrite <- Happ. apply elem_of_app. by left.
  - cbn [jl_head] in *. intros job Hj Hfut Hall. destruct (foldl _ _ (jl_new _)) as [|first rest]; [by apply not_elem_of_nil in Hj|].
    rewrite <- Hto. specialize (Hall first (list_elem_of_here _ _)).
    assert (tv_sec (job_dueDate first) <= tv_sec (job_dueDate job)) as Hle.
    { apply StronglySorted_inv in Hs' as [_ Hs']. apply elem_of_cons in Hj as [->|Hj]; [lia|].
      rewrite list.Forall_forall in Hs'. by apply Hs'. }
    unfold timing_diff. destruct (Z.leb_spec (tv_sec (job_dueDate first)) (tv_sec now)); [change (i32 0) with 0; lia|].
    set (d := tv_sec (job_dueDate first) - tv_sec now) in *. set (n := if _ <? _ then -1 else 0).
    assert (-1 <= n <= 0) by (unfold n; destruct (_ <? _); lia).
    unfold u32. rewrite Z.mod_small by lia. rewrite i32_id by (unfold in_i32; lia). lia.
Qed.
