(* ===== verification/ThreadPool.v ===== *)
(** * ThreadPool: handing jobs to idle threads ([src/server/threadpool.c])

    A worker thread that has nothing to do puts its entry into a slot of [pool] and waits
    for its signal; [threadpool_run] takes an entry out of a slot, or starts a thread,
    stores the job in the entry and raises the signal.  Everything between two atomic
    operations on shared memory is one event; the events of all threads come in any
    order.  The number of events of a thread's loop over the slots is not fixed: taking
    an entry from an empty slot has no effect. *)

From stdpp Require Import gmap sets.
From S2P Require Import Prelude.
Open Scope Z_scope.

(** Where a worker is: waiting for its signal, in a job, about to compare [i] with
    [maxIdleThreads], about to exchange slot [i]. *)
Inductive worker_pc := PWait | PRun (job : Z) | PPark (i : nat) | PTry (i : nat).

Record entry_t := Entry {
  en_job : option Z;        (* [startRoutine] and [arg] *)
  en_signal : nat;          (* what the signal counts *)
  en_pc : worker_pc;        (* of the thread the entry belongs to *)
}.

Record thread_pool := ThreadPool {
  tp_slots : list (option Z);       (* [pool]: addresses of entries *)
  tp_max : Z;                       (* [maxIdleThreads] *)
  tp_heap : gmap Z entry_t;
  tp_hand : list (Z * Z);           (* entry and job of each [threadpool_run] under way *)
  tp_active : Z;                    (* [activeThreads] *)
  tp_starting : Z;                  (* threads that were created and are not counted in it yet *)
  tp_shutdown : bool;
  tp_accepted : list Z;             (* jobs taken by [threadpool_run], jobs started *)
  tp_started : list Z;
}.
Definition tp_set (slots : list (option Z)) (heap : gmap Z entry_t) (hand : list (Z * Z)) (p : thread_pool) : thread_pool :=
  ThreadPool slots (tp_max p) heap hand (tp_active p) (tp_starting p) (tp_shutdown p) (tp_accepted p) (tp_started p).
Definition tp_log (accepted started : list Z) (p : thread_pool) : thread_pool :=
  ThreadPool (tp_slots p) (tp_max p) (tp_heap p) (tp_hand p) (tp_active p) (tp_starting p) (tp_shutdown p) accepted started.
Definition tp_threads (heap : gmap Z entry_t) (active starting : Z) (p : thread_pool) : thread_pool :=
  ThreadPool (tp_slots p) (tp_max p) heap (tp_hand p) active starting (tp_shutdown p) (tp_accepted p) (tp_started p).
Definition tp_flags (max : Z) (shutdown : bool) (p : thread_pool) : thread_pool :=
  ThreadPool (tp_slots p) max (tp_heap p) (tp_hand p) (tp_active p) (tp_starting p) shutdown (tp_accepted p) (tp_started p).

Definition threadpool_init (maxIdle : Z) : option thread_pool :=
  if maxIdle <? 0 then None
  else Some (ThreadPool (replicate (Z.to_nat maxIdle) None) maxIdle ∅ [] 0 0 false [] []).

Definition lookupEntry (p : thread_pool) (e : Z) : result entry_t :=
  match tp_heap p !! e with Some x => Ok x | None => Fault UseAfterFree end.

(** [atomic_exchange(&pool[i], NULL)] in [threadpool_run]; [i] was below
    [maxIdleThreads] when that was read, so it is a slot. *)
Definition runTake (i : nat) (job : Z) (p : thread_pool) : thread_pool :=
  match tp_slots p !! i with
  | Some (Some e) =>
      tp_log (tp_accepted p ++ [job]) (tp_started p)
        (tp_set (<[i := None]> (tp_slots p)) (tp_heap p) (tp_hand p ++ [(e, job)]) p)
  | _ => p
  end.
(** No idle thread: allocate an entry at the free address [e] and start a thread; [activeThreads] is increased after that. *)
Definition runNew (e job : Z) (p : thread_pool) : thread_pool :=
  tp_log (tp_accepted p ++ [job]) (tp_started p)
    (tp_threads (<[e := Entry None 0 PWait]> (tp_heap p)) (tp_active p) (tp_starting p + 1)
       (tp_set (tp_slots p) (tp_heap p) (tp_hand p ++ [(e, job)]) p)).
Definition runCount (p : thread_pool) : thread_pool :=
  if 0 <? tp_starting p then tp_threads (tp_heap p) (tp_active p + 1) (tp_starting p - 1) p else p.
(** Store the job and raise the signal. *)
Definition runAssign (k : nat) (p : thread_pool) : result thread_pool :=
  match tp_hand p !! k with
  | None => Ok p
  | Some (e, job) =>
      x ← lookupEntry p e;
      Ok (tp_set (tp_slots p) (<[e := Entry (Some job) (S (en_signal x)) (en_pc x)]> (tp_heap p)) (delete k (tp_hand p)) p)
  end.

(** The end of a worker. *)
Definition workerExit (e : Z) (p : thread_pool) : thread_pool :=
  tp_threads (delete e (tp_heap p)) (tp_active p - 1) (tp_starting p) p.
(** [signal_clear] returns what the signal counted; calling a null [startRoutine] is a fault. *)
Definition workerWake (e : Z) (p : thread_pool) : result thread_pool :=
  match tp_heap p !! e with
  | Some (Entry job (S _) PWait) =>
      if tp_shutdown p then Ok (workerExit e p)
      else match job with
      | None => Fault NullDeref
      | Some j => Ok (tp_log (tp_accepted p) (tp_started p ++ [j])
                        (tp_set (tp_slots p) (<[e := Entry job 0 (PRun j)]> (tp_heap p)) (tp_hand p) p))
      end
  | _ => Ok p
  end.
(** [signal_clear] fails, as it does when a signal handler has run: the worker waits again, or ends in a shutdown, and then
    frees its entry, wherever else that is known. *)
Definition workerIntr (e : Z) (p : thread_pool) : thread_pool :=
  match tp_heap p !! e with
  | Some (Entry _ _ PWait) => if tp_shutdown p then workerExit e p else p
  | _ => p
  end.
(** The job returns. *)
Definition workerDone (e : Z) (p : thread_pool) : thread_pool :=
  match tp_heap p !! e with
  | Some (Entry _ s (PRun _)) =>
      if tp_shutdown p then workerExit e p
      else tp_set (tp_slots p) (<[e := Entry None s (PPark 0)]> (tp_heap p)) (tp_hand p) p
  | _ => p
  end.
(** One turn of the loop that puts the thread back: the test of the index, and the
    exchange, which may fail spuriously ([ok] is false then). *)
Definition workerPark (e : Z) (p : thread_pool) : thread_pool :=
  match tp_heap p !! e with
  | Some (Entry job s (PPark i)) =>
      if Z.of_nat i <? tp_max p
      then tp_set (tp_slots p) (<[e := Entry job s (PTry i)]> (tp_heap p)) (tp_hand p) p
      else workerExit e p
  | _ => p
  end.
Definition workerTry (e : Z) (ok : bool) (p : thread_pool) : result thread_pool :=
  match tp_heap p !! e with
  | Some (Entry job s (PTry i)) =>
      slot ← aget (tp_slots p) (Z.of_nat i);
      match slot, ok with
      | None, true => Ok (tp_set (<[i := Some e]> (tp_slots p)) (<[e := Entry job s PWait]> (tp_heap p)) (tp_hand p) p)
      | _, _ => Ok (tp_set (tp_slots p) (<[e := Entry job s (PPark (S i))]> (tp_heap p)) (tp_hand p) p)
      end
  | _ => Ok p
  end.
(** [threadpool_close]: its exchange of [maxIdleThreads], and one turn of its loop. *)
Definition closeBegin (p : thread_pool) : thread_pool := tp_flags (-1) (tp_shutdown p) p.
Definition closeSlot (i : nat) (p : thread_pool) : result thread_pool :=
  match tp_slots p !! i with
  | Some (Some e) =>
      x ← lookupEntry p e;
      Ok (tp_set (<[i := None]> (tp_slots p)) (<[e := Entry (en_job x) (S (en_signal x)) (en_pc x)]> (tp_heap p)) (tp_hand p) p)
  | _ => Ok p
  end.

Inductive pool_event :=
| RunTake (i : nat) (job : Z)
| RunNew (e job : Z)
| RunCount
| RunAssign (k : nat)
| WorkerWake (e : Z)
| WorkerIntr (e : Z)
| WorkerDone (e : Z)
| WorkerPark (e : Z)
| WorkerTry (e : Z) (ok : bool)
| Shutdown                          (* [_shutdown = true] *)
| CloseBegin
| CloseSlot (i : nat).

(** The pool is closed after the shutdown has begun; an address in use is not allocated. *)
Definition pool_enabled (p : thread_pool) (ev : pool_event) : bool :=
  match ev with
  | RunNew e _ => bool_decide (tp_heap p !! e = None)
  | CloseBegin | CloseSlot _ => tp_shutdown p
  | _ => true
  end.
Definition pool_step (p : thread_pool) (ev : pool_event) : result thread_pool :=
  match ev with
  | RunTake i job => Ok (runTake i job p)
  | RunNew e job => Ok (runNew e job p)
  | RunCount => Ok (runCount p)
  | RunAssign k => runAssign k p
  | WorkerWake e => workerWake e p
  | WorkerIntr e => Ok (workerIntr e p)
  | WorkerDone e => Ok (workerDone e p)
  | WorkerPark e => Ok (workerPark e p)
  | WorkerTry e ok => workerTry e ok p
  | Shutdown => Ok (tp_flags (tp_max p) true p)
  | CloseBegin => Ok (closeBegin p)
  | CloseSlot i => closeSlot i p
  end.
Fixpoint pool_run (p : thread_pool) (evs : list pool_event) : result thread_pool :=
  match evs with
  | [] => Ok p
  | ev :: evs => if pool_enabled p ev then p ← pool_step p ev; pool_run p evs else pool_run p evs
  end.

(** ** The invariant *)

Definition idle : entry_t := Entry None 0 PWait.
Definition parked (slots : list (option Z)) : list Z := omap (fun x => x) slots.
(** Entries that belong to a slot or to a call of [threadpool_run]. *)
Definition owned (p : thread_pool) : list Z := parked (tp_slots p) ++ map fst (tp_hand p).
(** A job that was stored and has not been started. *)
Definition waitingJob (x : entry_t) : list Z :=
  match x with Entry (Some j) _ PWait => [j] | _ => [] end.
Definition waitingJobs (heap : gmap Z entry_t) : list Z := concat (map (fun kx => waitingJob kx.2) (map_to_list heap)).
Definition pending (p : thread_pool) : list Z := map snd (tp_hand p) ++ waitingJobs (tp_heap p).

Definition busy (p : thread_pool) (x : entry_t) : Prop :=
  (exists j, x = Entry (Some j) 1 PWait \/ x = Entry (Some j) 0 (PRun j))
  \/ (exists i, x = Entry None 0 (PPark i))
  \/ (exists i, x = Entry None 0 (PTry i) /\ (i < length (tp_slots p))%nat)
  \/ (tp_shutdown p = true /\ x = Entry None 1 PWait).

Record pool_ok (p : thread_pool) : Prop := PoolOk {
  po_nodup : base.NoDup (owned p);
  po_owned : forall e, e ∈ owned p -> tp_heap p !! e = Some idle;
  po_busy : forall e x, tp_heap p !! e = Some x -> (e ∉ owned p) -> busy p x;
  po_active : tp_active p + tp_starting p = Z.of_nat (size (tp_heap p));
  po_max : tp_max p <= Z.of_nat (length (tp_slots p));
  po_jobs : exists lost, tp_started p ++ pending p ++ lost ≡ₚ tp_accepted p
              /\ (tp_shutdown p = false -> lost = []);
}.

(** ** Bookkeeping *)

Lemma waiting_delete heap e x : heap !! e = Some x ->
  waitingJobs heap ≡ₚ waitingJob x ++ waitingJobs (delete e heap).
Proof.
  intros He. unfold waitingJobs. rewrite <- (insert_delete_id heap e x) at 1 by done.
  rewrite map_to_list_insert by apply lookup_delete_eq. done.
Qed.
Lemma waiting_insert heap e x y : heap !! e = Some x ->
  waitingJob x ++ waitingJobs (<[e := y]> heap) ≡ₚ waitingJob y ++ waitingJobs heap.
Proof.
  intros He. rewrite (waiting_delete heap e x) by done.
  rewrite (waiting_delete (<[e := y]> heap) e y) by apply lookup_insert_eq.
  rewrite delete_insert_eq. apply Permutation_app_swap_app.
Qed.
Lemma waiting_new heap e y : heap !! e = None -> waitingJob y = [] -> waitingJobs (<[e := y]> heap) ≡ₚ waitingJobs heap.
Proof.
  intros He Hy. unfold waitingJobs. rewrite map_to_list_insert by done. cbn [map concat snd]. by rewrite Hy.
Qed.

Lemma parked_take slots i e : slots !! i = Some (Some e) -> parked slots ≡ₚ e :: parked (<[i := None]> slots).
Proof.
  intros Hi. unfold parked. rewrite <- (take_drop_middle slots i (Some e)) at 1 by done.
  rewrite insert_take_drop by (by eapply lookup_lt_Some). rewrite !omap_app. cbn. by rewrite Permutation_middle.
Qed.
Lemma parked_put slots i e : slots !! i = Some None -> parked (<[i := Some e]> slots) ≡ₚ e :: parked slots.
Proof.
  intros Hi. unfold parked. rewrite <- (take_drop_middle slots i None) at 2 by done.
  rewrite insert_take_drop by (by eapply lookup_lt_Some). rewrite !omap_app. cbn. by rewrite Permutation_middle.
Qed.
Lemma delete_perm {A} (l : list A) k x : l !! k = Some x -> l ≡ₚ x :: delete k l.
Proof. intros Hk. by apply delete_Permutation. Qed.

Lemma busy_same p p' x :
  tp_shutdown p' = tp_shutdown p -> length (tp_slots p') = length (tp_slots p) -> busy p x -> busy p' x.
Proof. unfold busy. intros -> ->. done. Qed.

Section Changes.
Context (p : thread_pool) (Hok : pool_ok p).

Lemma owned_idle e x : tp_heap p !! e = Some x -> x <> idle -> e ∉ owned p.
Proof. intros He Hx Hin. apply (po_owned _ Hok) in Hin. congruence. Qed.

(** A worker moves on. *)
Lemma change_ok e x y started :
  tp_heap p !! e = Some x -> (e ∉ owned p) -> busy p y ->
  started ++ waitingJob y ≡ₚ tp_started p ++ waitingJob x ->
  pool_ok (tp_log (tp_accepted p) started (tp_set (tp_slots p) (<[e := y]> (tp_heap p)) (tp_hand p) p)).
Proof.
  intros He Hn Hy Hjobs. destruct Hok as [H1 H2 H3 H4 H5 (lost & H6 & H7)]. constructor; try done.
  - intros e' He'. cbn. rewrite lookup_insert_ne; [by apply H2|]. intros ->. done.
  - intros e' x' Hx' Hn'. cbn in Hx'. apply (busy_same p); [done..|]. destruct (decide (e' = e)) as [->|].
    + rewrite lookup_insert_eq in Hx'. by injection Hx' as <-.
    + rewrite lookup_insert_ne in Hx' by done. by eapply H3.
  - cbn. rewrite map_size_insert_Some by eauto. done.
  - exists lost. split; [|done]. cbn. rewrite <- H6. unfold pending. cbn.
    pose proof (waiting_insert (tp_heap p) e x y He) as Hw.
    apply (Permutation_app_inv_l (waitingJob x)).
    rewrite (Permutation_app_swap_app (waitingJob x)), <- !app_assoc.
    rewrite (Permutation_app_swap_app (waitingJob x) (map snd _)), (app_assoc (waitingJob x)), Hw.
    rewrite <- !app_assoc, (Permutation_app_swap_app (map snd (tp_hand p))), (app_assoc started), Hjobs.
    rewrite <- !app_assoc. apply Permutation_app_swap_app.
Qed.

(** A worker ends. *)
Lemma exit_ok e x :
  tp_heap p !! e = Some x -> (e ∉ owned p) -> tp_shutdown p = true \/ waitingJob x = [] -> pool_ok (workerExit e p).
Proof.
  intros He Hn Hw. destruct Hok as [H1 H2 H3 H4 H5 (lost & H6 & H7)]. constructor; try done.
  - intros e' He'. cbn. rewrite lookup_delete_ne; [by apply H2|]. intros ->. done.
  - intros e' x' Hx' Hn'. cbn in Hx'. apply lookup_delete_Some in Hx' as [_ Hx']. apply (busy_same p); [done..|]. by eapply H3.
  - cbn. rewrite map_size_delete_Some by eauto. assert (size (tp_heap p) <> 0)%nat; [|lia].
    intros E%map_size_empty_inv. by rewrite E in He.
  - exists (waitingJob x ++ lost). cbn. split.
    + rewrite <- H6. unfold pending. cbn. rewrite (waiting_delete (tp_heap p) e x) by done.
      rewrite <- !app_assoc. do 2 f_equiv. rewrite !app_assoc. f_equiv. apply Permutation_app_comm.
    + intros Hs. destruct Hw as [Hw|Hw]; [congruence|]. by rewrite Hw, H7.
Qed.
End Changes.

(** An entry leaves a slot or a caller's hand and gets the state [y]; [hand'] and
    [slots'] are what is left. *)
Lemma release_ok p e y slots' hand' :
  pool_ok p -> length slots' = length (tp_slots p) ->
  owned p ≡ₚ e :: parked slots' ++ map fst hand' -> busy p y ->
  map snd hand' ++ waitingJob y ≡ₚ map snd (tp_hand p) ->
  pool_ok (tp_set slots' (<[e := y]> (tp_heap p)) hand' p).
Proof.
  intros [H1 H2 H3 H4 H5 (lost & H6 & H7)] Hlen Hown Hy Hjobs.
  rewrite Hown in H1. apply list.NoDup_cons in H1 as [Hne H1].
  assert (tp_heap p !! e = Some idle) as He by (apply H2; rewrite Hown; by left).
  constructor; try done.
  - intros e' He'. cbn. rewrite lookup_insert_ne; [apply H2; rewrite Hown; by right|]. intros ->. done.
  - intros e' x' Hx' Hn'. cbn in Hx'. apply (busy_same p); [done..|]. destruct (decide (e' = e)) as [->|Hee].
    + rewrite lookup_insert_eq in Hx'. by injection Hx' as <-.
    + rewrite lookup_insert_ne in Hx' by done. eapply H3; [done|]. rewrite Hown. intros [?|?]%elem_of_cons; done.
  - cbn. rewrite map_size_insert_Some by eauto. done.
  - cbn. by rewrite Hlen.
  - exists lost. split; [|done]. cbn. rewrite <- H6. unfold pending. cbn.
    pose proof (waiting_insert (tp_heap p) e idle y He) as Hw. cbn [waitingJob idle app] in Hw.
    rewrite Hw, <- Hjobs, <- !app_assoc. done.
Qed.

(** An entry comes to a slot or into a caller's hand, in idle state. *)
Lemma acquire_ok p e x slots' :
  pool_ok p -> length slots' = length (tp_slots p) -> tp_heap p !! e = Some x -> (e ∉ owned p) -> waitingJob x = [] ->
  parked slots' ≡ₚ e :: parked (tp_slots p) ->
  pool_ok (tp_set slots' (<[e := idle]> (tp_heap p)) (tp_hand p) p).
Proof.
  intros [H1 H2 H3 H4 H5 (lost & H6 & H7)] Hlen He Hn Hx Hp.
  assert (owned (tp_set slots' (<[e := idle]> (tp_heap p)) (tp_hand p) p) ≡ₚ e :: owned p) as Hown.
  { unfold owned. cbn. by rewrite Hp. }
  constructor; try done.
  - rewrite Hown. by constructor.
  - intros e'. rewrite Hown. cbn. intros [->|He']%elem_of_cons; [apply lookup_insert_eq|].
    rewrite lookup_insert_ne; [by apply H2|]. intros ->. done.
  - intros e' x' Hx' Hn'. rewrite Hown, not_elem_of_cons in Hn'. destruct Hn' as [Hee Hn']. cbn in Hx'.
    rewrite lookup_insert_ne in Hx' by done. apply (busy_same p); [done..|]. by eapply H3.
  - cbn. rewrite map_size_insert_Some by eauto. done.
  - cbn. by rewrite Hlen.
  - exists lost. split; [|done]. cbn. rewrite <- H6. unfold pending. cbn.
    pose proof (waiting_insert (tp_heap p) e x idle He) as Hw. rewrite Hx in Hw. cbn in Hw. by rewrite Hw.
Qed.

Lemma add_pending (s h w l : list Z) j : s ++ ((h ++ [j]) ++ w) ++ l ≡ₚ (s ++ (h ++ w) ++ l) ++ [j].
Proof. rewrite <- !app_assoc. cbn. do 2 f_equiv. rewrite !(app_assoc w). apply Permutation_cons_append. Qed.

Lemma runTake_ok p i job : pool_ok p -> pool_ok (runTake i job p).
Proof.
  intros Hok. unfold runTake. destruct (tp_slots p !! i) as [[e|]|] eqn:Hi; [|done..].
  pose proof (parked_take _ _ _ Hi) as Hp. destruct Hok as [H1 H2 H3 H4 H5 (lost & H6 & H7)].
  set (p' := tp_log _ _ _).
  assert (owned p' ≡ₚ owned p) as Hown.
  { unfold owned, p'. cbn. rewrite Hp, map_app, app_assoc. cbn. by rewrite <- Permutation_cons_append. }
  constructor; try done.
  - by rewrite Hown.
  - intros e'. rewrite Hown. apply H2.
  - intros e' x' Hx'. rewrite Hown. intros Hn'. apply (busy_same p); [done|apply length_insert|]. by eapply H3.
  - cbn. by rewrite length_insert.
  - exists lost. split; [|done]. cbn. rewrite <- H6. unfold pending. cbn. rewrite map_app. cbn.
    apply add_pending.
Qed.

Lemma runNew_ok p e job : pool_ok p -> tp_heap p !! e = None -> pool_ok (runNew e job p).
Proof.
  intros [H1 H2 H3 H4 H5 (lost & H6 & H7)] He.
  assert (e ∉ owned p) as Hn by (intros Hin%H2; congruence).
  assert (owned (runNew e job p) ≡ₚ e :: owned p) as Hown.
  { unfold owned, runNew. cbn. rewrite map_app, app_assoc. cbn. by rewrite <- Permutation_cons_append. }
  constructor; try done.
  - rewrite Hown. by constructor.
  - intros e'. rewrite Hown. cbn. intros [->|He']%elem_of_cons; [apply lookup_insert_eq|].
    rewrite lookup_insert_ne; [by apply H2|]. intros ->. done.
  - intros e' x' Hx' Hn'. rewrite Hown, not_elem_of_cons in Hn'. destruct Hn' as [Hee Hn']. cbn in Hx'.
    rewrite lookup_insert_ne in Hx' by done. apply (busy_same p); [done..|]. by eapply H3.
  - cbn. rewrite map_size_insert_None by done. lia.
  - exists lost. split; [|done]. cbn. rewrite <- H6. unfold pending. cbn. rewrite map_app. cbn.
    rewrite (waiting_new _ _ (Entry None 0 PWait) He eq_refl).
    apply add_pending.
Qed.

Lemma runAssign_ok p k : pool_ok p -> exists p', runAssign k p = Ok p' /\ pool_ok p'.
Proof.
  intros Hok. unfold runAssign. destruct (tp_hand p !! k) as [[e job]|] eqn:Hk; [|eauto].
  pose proof (delete_perm _ _ _ Hk) as Hperm.
  assert (tp_heap p !! e = Some idle) as He.
  { apply (po_owned _ Hok). unfold owned. apply elem_of_app. right. rewrite (Permutation_map fst Hperm). by left. }
  unfold lookupEntry. rewrite He. cbn [mbind result_bind]. eexists. split; [done|].
  apply release_ok; [done..| |left; eauto|].
  - unfold owned. pose proof (Permutation_map fst Hperm) as Hf. cbn [map fst] in Hf. rewrite Hf.
    by rewrite <- Permutation_middle.
  - pose proof (Permutation_map snd Hperm) as Hsnd. cbn [map snd] in Hsnd. rewrite Hsnd.
    cbn. symmetry. apply Permutation_cons_append.
Qed.

(** A worker that is not idle is in one of the states of [busy]. *)
Ltac busy_worker p Hok e He Hn :=
  pose proof (owned_idle p Hok e _ He ltac:(done)) as Hn;
  let Hb := fresh in pose proof (po_busy _ Hok _ _ He Hn) as Hb;
  destruct Hb as [(? & [Hb|Hb])|[(? & Hb)|[(? & Hb & ?)|[? Hb]]]]; try done; injection Hb as; subst.

Lemma workerWake_ok p e : pool_ok p -> exists p', workerWake e p = Ok p' /\ pool_ok p'.
Proof.
  intros Hok. unfold workerWake. destruct (tp_heap p !! e) as [[job s pc]|] eqn:He; [|eauto].
  destruct s as [|s]; [eauto|]. destruct pc; [|eauto..].
  busy_worker p Hok e He Hn; (destruct (tp_shutdown p) eqn:Hs;
    [eexists; split; [done|apply (exit_ok p Hok e _ He Hn); by left]|]); [|congruence].
  eexists. split; [done|]. eapply (change_ok p Hok); [done|done|left; eauto|]. cbn. by rewrite app_nil_r.
Qed.
Lemma workerDone_ok p e : pool_ok p -> pool_ok (workerDone e p).
Proof.
  intros Hok. unfold workerDone. destruct (tp_heap p !! e) as [[job s pc]|] eqn:He; [|done].
  destruct pc as [|j|i|i]; [done| |done..]. busy_worker p Hok e He Hn.
  destruct (tp_shutdown p) eqn:Hs; [apply (exit_ok p Hok e _ He Hn); by left|].
  eapply (change_ok p Hok e _ _ (tp_started p)); [done|done|right; left; eauto|done].
Qed.
Lemma workerPark_ok p e : pool_ok p -> pool_ok (workerPark e p).
Proof.
  intros Hok. unfold workerPark. destruct (tp_heap p !! e) as [[job s pc]|] eqn:He; [|done].
  destruct pc as [|j|i0|i0]; [done|done| |done]. busy_worker p Hok e He Hn.
  match goal with |- context [Z.of_nat ?k] => rename k into i end.
  destruct (Z.ltb_spec (Z.of_nat i) (tp_max p)); [|apply (exit_ok p Hok e _ He Hn); by right].
  eapply (change_ok p Hok e _ _ (tp_started p)); [done|done| |done].
  right; right; left. exists i. split; [done|]. pose proof (po_max _ Hok). lia.
Qed.
Lemma workerTry_ok p e ok : pool_ok p -> exists p', workerTry e ok p = Ok p' /\ pool_ok p'.
Proof.
  intros Hok. unfold workerTry. destruct (tp_heap p !! e) as [[job s pc]|] eqn:He; [|eauto].
  destruct pc as [|j|i0|i0]; [eauto..|]. busy_worker p Hok e He Hn.
  match goal with |- context [Z.of_nat ?k] => rename k into i end.
  destruct (lookup_lt_is_Some_2 (tp_slots p) i) as [slot Hslot]; [done|].
  rewrite (aget_ok _ _ slot) by (lia || by rewrite Nat2Z.id). cbn [mbind result_bind].
  assert (pool_ok (tp_set (tp_slots p) (<[e := Entry None 0 (PPark (S i))]> (tp_heap p)) (tp_hand p) p)) as Hnext.
  { eapply (change_ok p Hok e _ _ (tp_started p)); [done|done|right; left; eauto|done]. }
  destruct slot as [e'|]; [eauto|]. destruct ok; [|eauto]. eexists. split; [done|].
  eapply acquire_ok; [done|apply length_insert|done|done|done|by apply parked_put].
Qed.
Lemma shutdown_ok p : pool_ok p -> pool_ok (tp_flags (tp_max p) true p).
Proof.
  intros [H1 H2 H3 H4 H5 (lost & H6 & H7)]. constructor; try done; [|by exists lost].
  intros e x Hx Hn. destruct (H3 e x Hx Hn) as [?|[?|[?|[_ ?]]]]; [by left|by right; left|by right; right; left|].
  right; right; right. done.
Qed.
Lemma closeSlot_ok p i : pool_ok p -> tp_shutdown p = true -> exists p', closeSlot i p = Ok p' /\ pool_ok p'.
Proof.
  intros Hok Hs. unfold closeSlot. destruct (tp_slots p !! i) as [[e|]|] eqn:Hi; [|eauto..].
  pose proof (parked_take _ _ _ Hi) as Hp.
  assert (tp_heap p !! e = Some idle) as He.
  { apply (po_owned _ Hok). unfold owned. apply elem_of_app. left. rewrite Hp. by left. }
  unfold lookupEntry. rewrite He. cbn [mbind result_bind]. eexists. split; [done|].
  apply release_ok; [done|apply length_insert| |by right; right; right|cbn; by rewrite app_nil_r].
  unfold owned. by rewrite Hp.
Qed.

Lemma runCount_ok p : pool_ok p -> pool_ok (runCount p).
Proof. intros Hok. unfold runCount. destruct (0 <? tp_starting p); [|done]. destruct Hok. constructor; try done. cbn. lia. Qed.
(** A worker whose entry nobody else knows may end. *)
Lemma workerIntr_ok p e : pool_ok p -> tp_shutdown p = false \/ (e ∉ owned p) -> pool_ok (workerIntr e p).
Proof.
  intros Hok Hsafe. unfold workerIntr. destruct (tp_heap p !! e) as [[job s pc]|] eqn:He; [|done]. destruct pc; [|done..].
  destruct (tp_shutdown p) eqn:Hs; [|done]. destruct Hsafe as [|Hn]; [done|]. apply (exit_ok p Hok e _ He Hn). by left.
Qed.

(** A worker is interrupted in a shutdown while a slot or a submitter still knows its entry. *)
Definition freed_while_known (p : thread_pool) (e : Z) : Prop := tp_shutdown p = true /\ e ∈ owned p.
#[local] Hint Resolve runTake_ok runNew_ok runAssign_ok workerWake_ok workerDone_ok workerPark_ok workerTry_ok
  shutdown_ok closeSlot_ok runCount_ok : core.
Lemma pool_step_ok p ev : pool_ok p -> pool_enabled p ev = true ->
  (exists p', pool_step p ev = Ok p' /\ pool_ok p') \/ (exists e, ev = WorkerIntr e /\ freed_while_known p e).
Proof.
  intros Hok Hen. destruct ev; cbn [pool_step]; cbn [pool_enabled] in Hen; eauto.
  - apply bool_decide_eq_true in Hen. eauto.
  - destruct (decide (tp_shutdown p = true /\ e ∈ owned p)) as [|Hn]; [right; by exists e|left]. eexists. split; [done|].
    apply workerIntr_ok; [done|]. destruct (tp_shutdown p); [right|by left]. naive_solver.
  - left. eexists. split; [done|]. destruct Hok. constructor; try done. cbn. lia.
Qed.

Lemma pool_run_ok evs : forall p, pool_ok p ->
  (exists p', pool_run p evs = Ok p' /\ pool_ok p')
  \/ (exists before e after p1, evs = before ++ WorkerIntr e :: after /\ pool_run p before = Ok p1 /\ pool_ok p1 /\ freed_while_known p1 e).
Proof.
  induction evs as [|ev evs IH]; intros p Hp; [left; by exists p|]. cbn [pool_run].
  assert (forall p1, pool_ok p1 -> (forall l, pool_run p (ev :: l) = pool_run p1 l) ->
    (exists p', pool_run p1 evs = Ok p' /\ pool_ok p')
    \/ (exists before e after p2, ev :: evs = before ++ WorkerIntr e :: after /\ pool_run p before = Ok p2 /\ pool_ok p2 /\ freed_while_known p2 e)) as Hgo.
  { intros p1 Hp1 E. destruct (IH p1 Hp1) as [|(before & e & after & p2 & -> & Hr & H2)]; [by left|]. right.
    exists (ev :: before), e, after, p2. by rewrite E. }
  destruct (pool_enabled p ev) eqn:He; [|apply Hgo; [done|]; intros l; cbn [pool_run]; by rewrite He].
  destruct (pool_step_ok p ev Hp He) as [(p1 & E & Hp1)|(e & -> & Hf)].
  - rewrite E. cbn [mbind result_bind]. apply Hgo; [done|]. intros l. cbn [pool_run]. by rewrite He, E.
  - right. by exists [], e, evs, p.
Qed.

Lemma pool0_ok maxIdle p : threadpool_init maxIdle = Some p -> pool_ok p.
Proof.
  unfold threadpool_init. destruct (Z.ltb_spec maxIdle 0); [done|]. intros [= <-].
  assert (parked (replicate (Z.to_nat maxIdle) None) = []) as Hp.
  { induction (Z.to_nat maxIdle) as [|n IH]; [done|]. done. }
  constructor; unfold owned; cbn [tp_slots tp_hand map]; rewrite ?Hp; cbn.
  - constructor.
  - by intros e ?%not_elem_of_nil.
  - intros e x Hx. by rewrite lookup_empty in Hx.
  - by rewrite map_size_empty.
  - rewrite length_replicate. lia.
  - exists []. split; [|done]. done.
Qed.

(** [activeThreads] is the number of threads but for those just created, no job is started twice, unless the server shuts down every
    accepted job has been started, is in the hands of its submitter or stored in an entry, and the signal of an entry with a job is
    raised. *)
Definition pool_good (p : thread_pool) : Prop :=
  tp_active p + tp_starting p = Z.of_nat (size (tp_heap p))
  /\ tp_started p ⊆+ tp_accepted p
  /\ (tp_shutdown p = false -> tp_started p ++ map snd (tp_hand p) ++ waitingJobs (tp_heap p) ≡ₚ tp_accepted p)
  /\ (forall e x, tp_heap p !! e = Some x -> waitingJob x <> [] -> en_signal x = 1%nat).
Lemma pool_ok_good p : pool_ok p -> pool_good p.
Proof.
  intros Hok. pose proof Hok as [H1 H2 H3 H4 H5 (lost & H6 & H7)]. unfold pool_good. split_and!; [done| | |].
  - rewrite <- H6. apply submseteq_inserts_r. done.
  - intros Hs. by rewrite (H7 Hs), app_nil_r in H6.
  - intros e x Hx Hw. assert (e ∉ owned p) as Hn.
    { eapply owned_idle; [done..|]. intros ->. done. }
    destruct (H3 e x Hx Hn) as [(j & [->| ->])|[(i & ->)|[(i & -> & _)|[_ ->]]]]; done.
Qed.

(** C28. The thread pool in every interleaving of submitters, workers, shutdown and closing, in which waiting for a signal may
    fail at any time, up to the first worker that is interrupted by a signal handler in a shutdown while its entry is still in a
    slot or in the hands of a submitter (it frees that entry): no freed entry is touched, no worker is woken without a job
    (before the shutdown), [activeThreads] is the number of threads (less those whose creator is about to count them), no
    job is started twice, and unless the server shuts down every accepted job has been started or is about to be: it is in
    the hands of its submitter or stored in the entry of a thread whose signal is raised.  Creating a thread succeeds. *)
Theorem threadpool_safe maxIdle p0 evs :
  threadpool_init maxIdle = Some p0 ->
  (exists p, pool_run p0 evs = Ok p /\ pool_good p)
  \/ (exists before e after p, evs = before ++ WorkerIntr e :: after /\ pool_run p0 before = Ok p /\ pool_good p /\ freed_while_known p e).
Proof.
  intros H0%pool0_ok. destruct (pool_run_ok evs p0 H0) as [(p & Hrun & Hok)|(before & e & after & p & E & Hr & Hok & Hf)].
  - left. exists p. split; [done|]. by apply pool_ok_good.
  - right. exists before, e, after, p. split_and!; try done. by apply pool_ok_good.
Qed.

Definition demo_pool_events : list pool_event :=
  [RunNew 10 7; RunCount; RunAssign 0; WorkerWake 10; WorkerDone 10; WorkerPark 10; WorkerTry 10 true; WorkerIntr 10;
   RunTake 0 8; RunAssign 0; WorkerWake 10].
Lemma threadpool_safe_witness :
  exists p0 p, threadpool_init 2 = Some p0 /\ pool_run p0 demo_pool_events = Ok p /\ pool_good p /\ tp_accepted p = [7; 8] /\ tp_active p = 1.
Proof.
  destruct (threadpool_init 2) as [p0|] eqn:E0; [|discriminate E0].
  destruct (threadpool_safe 2 p0 demo_pool_events E0) as [(p & Hrun & Hgood)|(before & e & after & p & E & Hr & _ & Hf)].
  - exists p0, p. vm_compute in E0. injection E0 as <-. split; [reflexivity|]. split; [exact Hrun|]. split; [exact Hgood|].
    vm_compute in Hrun. injection Hrun as <-. split; reflexivity.
  - exfalso. vm_compute in E0. injection E0 as <-. unfold demo_pool_events in E.
    do 7 (destruct before as [|? before]; [discriminate E|]; injection E as <- E).
    destruct before as [|? before].
    + vm_compute in Hr. injection Hr as <-. destruct Hf as [Hs _]. discriminate Hs.
    + injection E as <- E. do 3 (destruct before as [|? before]; [discriminate E|]; injection E as <- E). by destruct before.
Defined.
(** The exception is one: the entry of an idle worker that SIGTERM interrupts is freed, and [threadpool_close], which finds it in its
    slot, raises the signal in it. *)
Theorem interrupted_worker_freed_in_pool :
  exists p0, threadpool_init 2 = Some p0
    /\ pool_run p0 [RunNew 10 7; RunCount; RunAssign 0; WorkerWake 10; WorkerDone 10; WorkerPark 10; WorkerTry 10 true;
                    Shutdown; WorkerIntr 10; CloseBegin; CloseSlot 0] = Fault UseAfterFree.
Proof. eexists. split; [reflexivity|]. vm_compute. reflexivity. Qed.

(** A worker that compared its index with [maxIdleThreads] just before
    [threadpool_close] changed it parks in a slot the closing thread has passed: nobody
    raises its signal any more and [threadpool_waitEmpty] waits for ever. *)
Theorem parked_after_close :
  exists p0 p, threadpool_init 1 = Some p0
    /\ pool_run p0 [RunNew 10 7; RunCount; RunAssign 0; WorkerWake 10; WorkerDone 10; WorkerPark 10;
                    Shutdown; CloseBegin; CloseSlot 0; WorkerTry 10 true] = Ok p
    /\ tp_active p = 1 /\ tp_heap p !! 10 = Some idle /\ tp_max p = -1 /\ tp_hand p = [].
Proof. eexists _, _. split; [reflexivity|]. split; [vm_compute; reflexivity|]. vm_compute. done. Qed.
