(* ===== verification/FileUtil.v ===== *)
(** * FileUtil: text files and directories ([src/server/fileutil.c])

    [file_loadLineBased] reads a configuration file line by line, cuts every line into
    fields and passes them to a callback.  A file is its list of characters; the
    callback works on a state of the caller.  [mkdir_p] issues its [mkdir] calls against
    a file system given as a function. *)

From Stdlib Require Import Ascii.
From S2P Require Import Prelude Timing Types Helper.
Open Scope Z_scope.

(** ** The code *)

Definition LF : ascii := "010".
Definition NUL : ascii := "000".
Definition isBlank (c : ascii) : bool := Ascii.eqb c " " || Ascii.eqb c "009".
Definition isEol (c : ascii) : bool := Ascii.eqb c "013" || Ascii.eqb c LF.
(** Ends a field: blank, end of line. *)
Definition isSep (c : ascii) : bool := isBlank c || isEol c.

(** [fgets(buffer, room + 1, fp)] on the rest of the file: what it stores, what is left. *)
Fixpoint fgets (room : nat) (fp : list ascii) : list ascii * list ascii :=
  match room, fp with
  | S room, c :: fp =>
      if Ascii.eqb c LF then ([c], fp) else let '(l, fp) := fgets room fp in (c :: l, fp)
  | _, _ => ([], fp)
  end.

(** What a C string function sees of a buffer: up to the first terminator. *)
Fixpoint cstr (l : list ascii) : list ascii :=
  match l with [] => [] | c :: r => if Ascii.eqb c NUL then [] else c :: cstr r end.

(** The characters before the first that satisfies [p], and the rest. *)
Fixpoint span (p : ascii -> bool) (l : list ascii) : list ascii * list ascii :=
  match l with
  | [] => ([], [])
  | c :: r => if p c then ([], l) else let '(a, b) := span p r in (c :: a, b)
  end.

(** The loop over one line; [n] is [itemCount]. *)
Fixpoint splitItems (fuel : nat) (maxFields n : Z) (line : list ascii) : list string :=
  match fuel with
  | O => []
  | S fuel =>
      match line with
      | [] => []
      | _ =>
          if 20 <=? n then []
          else
            let line := dropWhile isBlank line in
            match line with
            | [] => []
            | c :: _ =>
                if isEol c then []
                else if maxFields <=? n + 1 then [trim_right (unchars line)]
                else
                  let '(item, rest) := span isSep line in
                  unchars item ::
                    match rest with [] => [] | _ :: rest => splitItems fuel maxFields (n + 1) rest end
            end
      end
  end.
Definition lineItems (maxFields : Z) (line : list ascii) : list string :=
  let line := cstr line in splitItems (S (length line)) maxFields 0 line.

Section LoadLineBased.
Context {St : Type} (minFields maxFields : Z) (cb : list string -> St -> result St).

Fixpoint lineLoop (fuel : nat) (fp : list ascii) (count : Z) (s : St) : result (Z * St) :=
  match fuel with
  | O => Ok (count, s)
  | S fuel =>
      match fp with
      | [] => Ok (count, s)
      | _ =>
          let '(line, fp) := fgets 999 fp in
          let items := lineItems maxFields line in
          if minFields <=? Z.of_nat (length items) then
            s ← cb items s; lineLoop fuel fp (count + 1) s
          else lineLoop fuel fp count s
      end
  end.
(** [None] is a file that cannot be opened. *)
Definition file_loadLineBased (file : option (list ascii)) (s : St) : result (Z * St) :=
  match file with
  | None => Ok (-1, s)
  | Some fp => lineLoop (length fp) fp 0 s
  end.
End LoadLineBased.

(** The arguments of the calls of [mkdir] if all succeed: every part of the path that
    ends before a slash (unless empty), and the path. *)
Fixpoint slashPrefixes (done rest : list ascii) : list (list ascii) :=
  match rest with
  | [] => []
  | c :: rest =>
      (if Ascii.eqb c "/" then [done] else []) ++ slashPrefixes (done ++ [c]) rest
  end.

Inductive errno := EOK | EEXIST | EOTHER.
#[global] Instance errno_eq_dec : EqDecision errno.
Proof. solve_decision. Defined.

Section MkDir.
Context {Fs : Type} (mkdir : list ascii -> Fs -> errno * Fs).

Fixpoint mkdirLoop (paths : list (list ascii)) (fs : Fs) : bool * Fs :=
  match paths with
  | [] => (true, fs)
  | p :: paths =>
      if bool_decide (p = []) then mkdirLoop paths fs
      else
        match mkdir p fs with
        | (EOTHER, fs) => (false, fs)
        | (_, fs) => mkdirLoop paths fs
        end
  end.
Definition mkdir_p (path : list ascii) (fs : Fs) : bool * Fs :=
  match path with
  | [] => (true, fs)
  | _ =>
      match mkdirLoop (slashPrefixes [] path) fs with
      | (false, fs) => (false, fs)
      | (true, fs) =>
          match mkdir path fs with
          | (EOTHER, fs) => (false, fs)
          | (_, fs) => (true, fs)
          end
      end
  end.
End MkDir.

(** ** Lines *)

(** A field as an administrator writes it, the white space before it, and a line. *)
Definition word (w : list ascii) : Prop :=
  w <> [] /\ Forall (fun c => isSep c = false /\ c <> NUL) w.
Definition layout := list (list ascii * list ascii).
Definition layoutText (fs : layout) (tl : list ascii) : list ascii :=
  concat (map (fun f => f.1 ++ f.2) fs) ++ tl.
(** Fields are words; white space separates them; the rest of the line is white space. *)
Definition layout_wf (fs : layout) (tl : list ascii) : Prop :=
  Forall (fun f => Forall (fun c => isBlank c = true) f.1 /\ word f.2) fs
  /\ Forall (fun f => f.1 <> []) (tail fs) /\ Forall (fun c => isSep c = true) tl.
Definition layoutItems (fs : layout) : list string := map (fun f => unchars f.2) fs.

Lemma dropWhile_app {A} (p : A -> bool) a b :
  Forall (fun c => p c = true) a -> dropWhile p (a ++ b) = dropWhile p b.
Proof. induction 1 as [|c a H _ IH]; [done|]. cbn. by rewrite H. Qed.
Lemma dropWhile_head {A} (p : A -> bool) c l : p c = false -> dropWhile p (c :: l) = c :: l.
Proof. cbn. by intros ->. Qed.
Lemma blank_sep c : isBlank c = true -> isSep c = true.
Proof. unfold isSep. by intros ->. Qed.
Lemma notsep c : isSep c = false -> isBlank c = false /\ isEol c = false.
Proof. apply orb_false_iff. Qed.

Lemma span_word w rest :
  Forall (fun c => isSep c = false) w -> (forall c r, rest = c :: r -> isSep c = true) ->
  span isSep (w ++ rest) = (w, rest).
Proof.
  intros Hw Hr. induction Hw as [|c w Hc _ IH]; cbn.
  - destruct rest as [|c r]; [done|]. cbn. by rewrite (Hr c r).
  - by rewrite Hc, IH.
Qed.
Lemma trim_right_seps w tl :
  word w -> Forall (fun c => isSep c = true) tl -> trim_right (unchars (w ++ tl)) = unchars w.
Proof.
  intros [Hne Hw] Ht. unfold trim_right, dropEnd. rewrite chars_unchars. f_equal.
  rewrite rev_app_distr. rewrite (dropWhile_app is_trimmed).
  - destruct (rev w) as [|c r] eqn:E.
    { apply (f_equal (@rev _)) in E. rewrite rev_involutive in E. done. }
    rewrite dropWhile_head.
    + rewrite <- E. apply rev_involutive.
    + assert (c ∈ w) as Hc.
      { apply list_elem_of_In, in_rev. rewrite E. by left. }
      rewrite list.Forall_forall in Hw. destruct (Hw c Hc) as [Hs _].
      revert Hs. clear. destruct c as [[] [] [] [] [] [] [] []]; done.
  - apply list.Forall_forall. intros c Hc. rewrite list.Forall_forall in Ht.
    assert (isSep c = true) as Hs.
    { apply Ht, list_elem_of_In, in_rev, list_elem_of_In, Hc. }
    revert Hs. clear. destruct c as [[] [] [] [] [] [] [] []]; done.
Qed.
Lemma splitItems_seps fuel m n tl :
  Forall (fun c => isSep c = true) tl -> splitItems fuel m n tl = [].
Proof.
  intros Ht. destruct fuel as [|fuel]; [done|]. cbn [splitItems]. destruct tl as [|c tl]; [done|].
  destruct (20 <=? n); [done|].
  assert (forall l, Forall (fun c => isSep c = true) l ->
    match dropWhile isBlank l with [] => True | d :: _ => isEol d = true end) as H.
  { induction 1 as [|d l Hd _ IH]; [done|]. cbn. destruct (isBlank d) eqn:E; [done|].
    unfold isSep in Hd. by rewrite E in Hd. }
  specialize (H _ Ht). destruct (dropWhile _ _); [done|]. by rewrite H.
Qed.

Lemma layoutText_cons f fs tl : layoutText (f :: fs) tl = f.1 ++ f.2 ++ layoutText fs tl.
Proof. unfold layoutText. cbn. by rewrite <- !app_assoc. Qed.
Lemma layoutText_head fs tl c r :
  Forall (fun f => f.1 <> []) fs ->
  Forall (fun f => Forall (fun c => isBlank c = true) f.1 /\ word f.2) fs ->
  Forall (fun c => isSep c = true) tl -> layoutText fs tl = c :: r -> isSep c = true.
Proof.
  intros Hg Hf Ht. destruct fs as [|[g w] fs].
  - cbn. intros ->. by apply list.Forall_cons in Ht as [? _].
  - apply list.Forall_cons in Hg as [Hg _]. apply list.Forall_cons in Hf as [[Hb _] _].
    rewrite layoutText_cons. cbn in *. destruct g as [|d g]; [done|]. intros [= -> _].
    apply list.Forall_cons in Hb as [? _]. by apply blank_sep.
Qed.

Lemma splitItems_layout k : forall fs tl fuel m n,
  length fs = k -> layout_wf fs tl -> Z.of_nat k <= m - n -> n + Z.of_nat k <= 20 -> (k < fuel)%nat ->
  splitItems fuel m n (layoutText fs tl) = layoutItems fs.
Proof.
  induction k as [|k IH]; intros fs tl fuel m n Hk (Hf & Hg & Ht) Hm Hn Hfuel.
  { destruct fs; [|done]. by apply splitItems_seps. }
  destruct fs as [|[g w] fs]; [done|]. injection Hk as Hk.
  destruct fuel as [|fuel]; [lia|]. rewrite layoutText_cons. cbn [fst snd].
  apply list.Forall_cons in Hf as [[Hb Hw] Hf]. cbn [fst snd tail] in *.
  pose proof Hw as [Hne Hc]. destruct w as [|c w]; [done|]. pose proof Hc as [[Hcs _] Hc']%list.Forall_cons.
  apply notsep in Hcs as [Hcb Hce]. cbn [splitItems].
  destruct (g ++ (c :: w) ++ layoutText fs tl) as [|d l] eqn:El.
  { by destruct g. }
  rewrite <- El. clear El d l. destruct (Z.leb_spec 20 n); [lia|].
  rewrite dropWhile_app by done. cbn [app]. rewrite dropWhile_head by done. rewrite Hce.
  change (c :: w ++ layoutText fs tl) with ((c :: w) ++ layoutText fs tl).
  cbn [layoutItems map snd]. destruct (Z.leb_spec m (n + 1)).
  { destruct fs; [|cbn in Hk; lia]. cbn [map]. f_equal.
    apply trim_right_seps; [done|]. done. }
  rewrite span_word; [|eapply list.Forall_impl; [exact Hc|by intros ? [? _]]|].
  2:{ intros d r E. by eapply (layoutText_head fs tl). }
  f_equal. destruct (layoutText fs tl) as [|d r] eqn:El.
  { destruct fs as [|[g2 w2] fs]; [done|]. rewrite layoutText_cons in El. cbn in El.
    apply list.Forall_cons in Hg as [Hg _]. by destruct g2. }
  destruct fs as [|[g2 w2] fs].
  { apply splitItems_seps. cbn in El. rewrite El in Ht. by apply list.Forall_cons in Ht as [_ ?]. }
  apply list.Forall_cons in Hg as [Hg2 Hg]. apply list.Forall_cons in Hf as [[Hb2 Hw2] Hf].
  destruct g2 as [|e g2]; [done|]. rewrite layoutText_cons in El. cbn in El. injection El as -> <-.
  change (g2 ++ w2 ++ layoutText fs tl) with (((g2, w2) : list ascii * list ascii).1 ++ ((g2, w2) : list ascii * list ascii).2 ++ layoutText fs tl).
  rewrite <- layoutText_cons. cbn [fst snd] in *.
  trans (layoutItems ((g2, w2) :: fs)); [|done].
  apply IH; [done| |lia|lia|lia]. split; [|by split].
  constructor; [|done]. cbn. split; [|done]. by apply list.Forall_cons in Hb2 as [_ ?].
Qed.

Lemma cstr_id l : Forall (fun c => c <> NUL) l -> cstr l = l.
Proof.
  induction 1 as [|c l Hc _ IH]; [done|]. cbn. destruct (Ascii.eqb_spec c NUL); [done|]. by rewrite IH.
Qed.
Lemma sep_not_nul c : isSep c = true -> c <> NUL.
Proof. by intros H ->. Qed.
Lemma layout_no_nul fs tl : layout_wf fs tl -> Forall (fun c => c <> NUL) (layoutText fs tl).
Proof.
  intros (Hf & _ & Ht). unfold layoutText. apply list.Forall_app. split.
  - induction Hf as [|f fs [Hb [_ Hw]] _ IH]; [constructor|]. cbn. rewrite !list.Forall_app.
    split; [split|done].
    + eapply list.Forall_impl; [exact Hb|]. intros c Hc. by apply sep_not_nul, blank_sep.
    + eapply list.Forall_impl; [exact Hw|]. by intros c [_ ?].
  - eapply list.Forall_impl; [exact Ht|]. apply sep_not_nul.
Qed.
Lemma layout_length fs tl : layout_wf fs tl -> (length fs <= length (layoutText fs tl))%nat.
Proof.
  intros (Hf & _ & _). unfold layoutText. rewrite length_app.
  induction Hf as [|f fs [_ [Hne _]] _ IH]; cbn in *; [lia|]. rewrite !length_app.
  destruct (f.2); [done|]. cbn. lia.
Qed.

(** A line's fields are found whatever white space separates them. *)
Lemma lineItems_layout fs tl m :
  layout_wf fs tl -> Z.of_nat (length fs) <= m -> Z.of_nat (length fs) <= 20 ->
  lineItems m (layoutText fs tl) = layoutItems fs.
Proof.
  intros Hwf Hm H20. unfold lineItems. rewrite cstr_id by by apply layout_no_nul.
  apply (splitItems_layout (length fs)); [done..|lia|lia|].
  pose proof (layout_length fs tl Hwf). lia.
Qed.

(** ** Files *)

Definition textLine (l : list ascii) : Prop :=
  exists b, l = b ++ [LF] /\ (LF ∉ b) /\ (length l <= 999)%nat.

Lemma fgets_line room b rest :
  LF ∉ b -> (length b < room)%nat -> fgets room (b ++ LF :: rest) = (b ++ [LF], rest).
Proof.
  revert b. induction room as [|room IH]; intros b Hb Hr; [lia|]. destruct b as [|c b]; cbn; [done|].
  apply not_elem_of_cons in Hb as [Hc Hb]. destruct (Ascii.eqb_spec c LF); [by subst|].
  rewrite IH; [done..|]. cbn in Hr. lia.
Qed.

Section Files.
Context {St : Type} (minFields maxFields : Z) (cb : list string -> St -> result St).

(** What the callback sees of a file: one call for every line with enough fields. *)
Fixpoint runLines (lines : list (list string)) (count : Z) (s : St) : result (Z * St) :=
  match lines with
  | [] => Ok (count, s)
  | items :: lines =>
      if minFields <=? Z.of_nat (length items)
      then s ← cb items s; runLines lines (count + 1) s
      else runLines lines count s
  end.

Lemma lineLoop_lines lines : forall fuel count s,
  Forall textLine lines -> (length lines <= fuel)%nat ->
  lineLoop minFields maxFields cb fuel (concat lines) count s
  = runLines (map (lineItems maxFields) lines) count s.
Proof.
  induction lines as [|l lines IH]; intros fuel count s Hl Hf.
  { by destruct fuel. }
  apply list.Forall_cons in Hl as [(b & -> & Hb & Hlen) Hl].
  destruct fuel as [|fuel]; [cbn in Hf; lia|]. cbn [concat map runLines lineLoop].
  destruct ((b ++ [LF]) ++ concat lines) eqn:E; [by destruct b|]. rewrite <- E. clear E.
  rewrite <- app_assoc. cbn [app]. rewrite length_app in Hlen. cbn in Hlen, Hf.
  rewrite fgets_line by (done || lia).
  destruct (minFields <=? _); [|apply IH; [done|lia]].
  destruct (cb _ s); [|done]. cbn. apply IH; [done|lia].
Qed.
Lemma concat_lines_length lines :
  Forall textLine lines -> (length lines <= length (concat lines))%nat.
Proof.
  induction 1 as [|l lines (b & -> & _) _ IH]; cbn; [lia|]. rewrite !length_app. cbn. lia.
Qed.

(** A text file is processed line by line, all of it, in order. *)
Lemma file_loadLineBased_spec lines s :
  Forall textLine lines ->
  file_loadLineBased minFields maxFields cb (Some (concat lines)) s
  = runLines (map (lineItems maxFields) lines) 0 s.
Proof. intros Hl. apply lineLoop_lines; [done|]. by apply concat_lines_length. Qed.

(** Whatever the file contains, the loop ends and the fields passed on are never more
    than [items] has room for. *)
Lemma splitItems_bound fuel m n line :
  0 <= n -> Z.of_nat (length (splitItems fuel m n line)) <= Z.max 0 (20 - n).
Proof.
  revert n line. induction fuel as [|fuel IH]; intros n line Hn; cbn [splitItems]; [cbn; lia|].
  destruct line as [|c line]; [cbn; lia|]. destruct (Z.leb_spec 20 n); [cbn; lia|].
  destruct (dropWhile _ _) as [|d l]; [cbn; lia|]. destruct (isEol d); [cbn; lia|].
  destruct (m <=? n + 1); [cbn; lia|]. destruct (span _ _) as [item rest].
  destruct rest as [|e rest]; cbn [length]; [cbn; lia|].
  specialize (IH (n + 1) rest ltac:(lia)). lia.
Qed.
End Files.
Lemma lineItems_bound m line : Z.of_nat (length (lineItems m line)) <= 20.
Proof. unfold lineItems. pose proof (splitItems_bound (S (length (cstr line))) m 0 (cstr line)). lia. Qed.

(** [lineItems] on text that was laid out, through [file_loadLineBased]: fields and white
    space as they were written. *)
Lemma load_layout {St} (cb : list string -> St -> result St) mn mx (ls : list (layout * list ascii)) s :
  mx <= 20 ->
  Forall (fun l => layout_wf l.1 l.2 /\ textLine (layoutText l.1 l.2) /\ Z.of_nat (length l.1) <= mx) ls ->
  file_loadLineBased mn mx cb (Some (concat (map (fun l => layoutText l.1 l.2) ls))) s
  = runLines mn cb (map (fun l => layoutItems l.1) ls) 0 s.
Proof.
  intros Hmx Hl. rewrite file_loadLineBased_spec.
  - f_equal. rewrite map_map. induction Hl as [|[fs tl] ls (Hwf & _ & Hn) _ IH]; [done|].
    cbn in *. rewrite IH. f_equal. apply lineItems_layout; [done..|lia].
  - induction Hl as [|l ls (_ & Ht & _) _ IH]; cbn; by constructor.
Qed.

(** ** Directories *)

Section MkDirSpec.
Context {Fs : Type} (mkdir : list ascii -> Fs -> errno * Fs) (isDir : Fs -> list ascii -> Prop).
(** After [mkdir] succeeds or reports [EEXIST] the path exists, and nothing disappears. *)
Record mkdir_laws : Prop := MkdirLaws {
  mkdir_makes p fs e fs' : mkdir p fs = (e, fs') -> e <> EOTHER -> isDir fs' p;
  mkdir_keeps p fs e fs' q : mkdir p fs = (e, fs') -> isDir fs q -> isDir fs' q;
}.

Lemma mkdirLoop_keeps paths fs b fs' q :
  mkdir_laws -> mkdirLoop mkdir paths fs = (b, fs') -> isDir fs q -> isDir fs' q.
Proof.
  intros L. revert fs. induction paths as [|p paths IH]; intros fs; cbn; [by intros [= _ <-]|].
  case_bool_decide; [apply IH|]. destruct (mkdir p fs) as [e fs1] eqn:E. intros H1 H2.
  pose proof (mkdir_keeps L _ _ _ _ q E H2). destruct e; [by eapply IH..|]. by simplify_eq.
Qed.
Lemma mkdirLoop_all paths fs fs' p :
  mkdir_laws -> mkdirLoop mkdir paths fs = (true, fs') -> p ∈ paths -> p <> [] -> isDir fs' p.
Proof.
  intros L. revert fs. induction paths as [|a paths IH]; intros fs H Hp Hne.
  { by apply elem_of_nil in Hp. }
  cbn in H. apply elem_of_cons in Hp as [<-|Hp].
  - rewrite bool_decide_eq_false_2 in H by done. destruct (mkdir p fs) as [e fs1] eqn:E.
    pose proof (mkdir_makes L _ _ _ _ E). destruct e; [..|done]; eapply mkdirLoop_keeps; eauto.
  - case_bool_decide; [by eapply IH|]. destruct (mkdir a fs) as [[] fs1]; [by eapply IH..|done].
Qed.
Lemma slashPrefixes_spec done rest p q :
  rest = p ++ "/"%char :: q -> done ++ p ∈ slashPrefixes done rest.
Proof.
  revert done rest. induction p as [|c p IH]; intros dn rest ->; cbn.
  - rewrite app_nil_r. by left.
  - apply elem_of_app. right. specialize (IH (dn ++ [c]) _ eq_refl). by rewrite <- app_assoc in IH.
Qed.

(** When [mkdir_p] reports success, the directory and every directory above it exist. *)
Lemma mkdir_p_spec path fs fs' :
  mkdir_laws -> mkdir_p mkdir path fs = (true, fs') -> path <> [] ->
  isDir fs' path /\ forall p q, path = p ++ "/"%char :: q -> p <> [] -> isDir fs' p.
Proof.
  intros L H Hne. unfold mkdir_p in H. destruct path as [|c path]; [done|].
  destruct (mkdirLoop mkdir _ fs) as [b fs1] eqn:E1. destruct b; [|done].
  destruct (mkdir (c :: path) fs1) as [e fs2] eqn:E2.
  assert (fs2 = fs' /\ e <> EOTHER) as [-> He] by (destruct e; simplify_eq; done).
  split; [by eapply (mkdir_makes L)|]. intros p q Hp Hpn.
  eapply (mkdir_keeps L); [exact E2|]. eapply mkdirLoop_all; [done|exact E1| |done].
  by apply (slashPrefixes_spec [] _ p q).
Qed.
End MkDirSpec.

(** ** Sizes *)

(** [file_setSize] on the bytes of a file; [truncOk] and [writeOk] say whether
    [ftruncate] and [pwrite] succeed. *)
Definition fileResize (size : nat) (f : list Z) : list Z := take size f ++ replicate (size - length f) 0.
Definition pwriteByte (at_ : nat) (b : Z) (f : list Z) : list Z :=
  if (at_ <? length f)%nat then <[at_ := b]> f else f ++ replicate (at_ - length f) 0 ++ [b].
Definition file_setSize (truncOk writeOk : bool) (size : Z) (f : list Z) : bool * list Z :=
  if truncOk then (true, fileResize (Z.to_nat size) f)
  else
    let at_ := Z.to_nat (size - 1) in
    let byte := default 0 (f !! at_) in
    if writeOk && (0 <? size) then (true, pwriteByte at_ byte f) else (false, f).

(** When it succeeds the file is at least that long, exactly that long if it was not
    longer before, and the bytes it had within that size are still there. *)
Lemma file_setSize_spec t w size f f' :
  0 <= size -> file_setSize t w size f = (true, f') ->
  Z.of_nat (length f') >= size
  /\ (Z.of_nat (length f) <= size -> Z.of_nat (length f') = size)
  /\ forall i, (i < length f)%nat -> Z.of_nat i < size -> f' !! i = f !! i.
Proof.
  intros Hs. unfold file_setSize. destruct t.
  { intros [= <-]. unfold fileResize. rewrite length_app, length_take, length_replicate.
    split_and!; [lia..|]. intros i Hi Hi'. rewrite lookup_app_l by (rewrite length_take; lia).
    apply lookup_take_lt. lia. }
  destruct w; cbn [andb]; [|done]. destruct (Z.ltb_spec 0 size); [|done].
  intros [= <-]. unfold pwriteByte. destruct (Nat.ltb_spec (Z.to_nat (size - 1)) (length f)).
  - destruct (f !! Z.to_nat (size - 1)) as [b|] eqn:E.
    2:{ apply lookup_ge_None in E. lia. }
    cbn. rewrite length_insert. rewrite list_insert_id by done. split_and!; [lia..|done].
  - rewrite !length_app, length_replicate. cbn [length]. split_and!; [lia..|].
    intros i Hi _. by rewrite lookup_app_l.
Qed.

#[global] Instance layout_wf_dec fs tl : Decision (layout_wf fs tl).
Proof. unfold layout_wf, word. apply _. Defined.
(** A decidable form of [textLine], for concrete files. *)
Definition isTextLine (l : list ascii) : bool :=
  match rev l with
  | c :: b => Ascii.eqb c LF && bool_decide (LF ∉ b) && (length l <=? 999)%nat
  | [] => false
  end.
Lemma isTextLine_ok l : isTextLine l = true -> textLine l.
Proof.
  unfold isTextLine. destruct (rev l) as [|c b] eqn:E; [done|].
  intros [[Hc Hb]%andb_true_iff Hl]%andb_true_iff. apply Ascii.eqb_eq in Hc as ->.
  apply bool_decide_eq_true in Hb. apply Nat.leb_le in Hl. exists (rev b). split; [|split].
  - apply (f_equal (@rev _)) in E. rewrite rev_involutive in E. by rewrite E.
  - intros Hi. apply Hb, list_elem_of_In, in_rev, list_elem_of_In, Hi.
  - done.
Qed.
