(* ===== verification/RpcAcl.v ===== *)
(** * RpcAcl: who may ask the status interface ([src/server/rpc.c])

    [addacl] turns a line of [rpc.acl] into a rule, [getacl] finds the permissions of a
    host.  A rule keeps the address masked to its prefix, the number of whole bytes to
    compare and a mask for the byte that the prefix ends in.  The specification says the
    same with the list of bits of an address. *)

From Stdlib Require Import Ascii.
From S2P Require Import Prelude Timing Types Helper FileUtil.
Open Scope Z_scope.

(** ** The code *)

Definition ACL_ALL : Z := 0x7fffffff.
Definition ACL_STATS : Z := 1.
Definition ACL_CLIENT_LIST : Z := 2.
Definition ACL_IMAGE_LIST : Z := 4.
Definition ACL_CONFIG : Z := 8.
Definition ACL_LOG : Z := 16.
Definition ACL_ALTSERVERS : Z := 32.
Definition MAX_ACLS : Z := 100.

Record dnbd3_access_rule_t := Rule {
  rule_host : list Z;
  rule_bytes : Z;
  rule_bitMask : Z;
  rule_permissions : Z;
}.

(** [strtol(s, &last, 10)]: the value, clamped to a [long], and whether [last != s]. *)
Definition hasDigit (s : list ascii) : bool :=
  match s with c :: _ => bool_decide (is_Some (digit c)) | [] => false end.
Definition clampLong (v : Z) : Z := Z.max (- 2 ^ 63) (Z.min v (2 ^ 63 - 1)).
Definition strtol (s : string) : Z * bool :=
  match dropWhile is_space (chars s) with
  | c :: r =>
      let '(neg, r) := if Ascii.eqb c "-" then (true, r)
                       else if Ascii.eqb c "+" then (false, r) else (false, c :: r) in
      if hasDigit r then (clampLong (if neg then - digits r 0 else digits r 0), true) else (0, false)
  | [] => (0, false)
  end.

(** The flags behind the address; an unknown flag is skipped with a warning. *)
Fixpoint aclMask (flags : list string) (mask : Z) : Z :=
  match flags with
  | [] => mask
  | f :: flags =>
      aclMask flags
        (if (f =? "ALL")%string then mask .| ACL_ALL
         else if (f =? "STATS")%string then mask .| ACL_STATS
         else if (f =? "CLIENT_LIST")%string then mask .| ACL_CLIENT_LIST
         else if (f =? "IMAGE_LIST")%string then mask .| ACL_IMAGE_LIST
         else mask)
  end.

(** Split at the first slash. *)
Definition splitSlash (s : string) : string * option string :=
  match span (Ascii.eqb "/") (chars s) with
  | (a, []) => (s, None)
  | (a, _ :: r) => (unchars a, Some (unchars r))
  end.

(** The number of bits of the prefix. *)
Definition prefixBits (type : Z) (slash : option string) : Z :=
  let full := if type =? HOST_IP4 then 32 else 128 in
  match slash with
  | None => full
  | Some s =>
      let '(bits, ok) := strtol s in
      if ok then
        let bits := if (type =? HOST_IP4) && (32 <? bits) then 32 else bits in
        if 128 <? bits then 128 else bits
      else full
  end.

(** The loop that shifts ones into the mask from the left. *)
Fixpoint maskLoop (n : nat) (m : Z) : Z :=
  match n with O => m | S n => maskLoop n ((m >> 1) .| 0x80) end.

Definition makeRule (addr : list Z) (bits mask : Z) : result dnbd3_access_rule_t :=
  let bytes := i32 (Z.quot bits 8) in
  let rest := Z.rem bits 8 in
  if rest =? 0 then Ok (Rule addr bytes 0 mask)
  else
    let m := maskLoop (Z.to_nat rest) 0 in
    b ← aget addr bytes;
    addr ← aset addr bytes (b .& u8 m);
    Ok (Rule addr bytes m mask).

Section Acl.
Context (inet_pton4 inet_pton6 : string -> option (list Z)).

(** [aclRules], up to [aclCount]. *)
Definition addacl (argv : list string) (rules : list dnbd3_access_rule_t) : result (list dnbd3_access_rule_t) :=
  match argv with
  | [] => Fault OutOfBounds
  | arg0 :: flags =>
      if bool_decide (head (chars arg0) = Some "#"%char) then Ok rules
      else if MAX_ACLS <=? Z.of_nat (length rules) then Ok rules
      else
        let mask := aclMask flags 0 in
        if mask =? 0 then Ok rules
        else
          let '(arg0, slash) := splitSlash arg0 in
          match parse_address inet_pton4 inet_pton6 arg0 with
          | None => Ok rules
          | Some host =>
              rule ← makeRule (host_addr host) (prefixBits (host_type host) slash) mask;
              Ok (rules ++ [rule])
          end
  end.
(** [None] is a missing file. *)
Definition loadAcl (file : option (list ascii)) : result (list dnbd3_access_rule_t) :=
  '(_, rules) ← file_loadLineBased 1 20 addacl file []; Ok rules.
End Acl.

(** [memcmp(rule->host, host->addr, rule->bytes) == 0]; the length is converted to an
    unsigned type, so that a negative one leaves both arrays. *)
Definition memcmp16 (a b : list Z) (n : Z) : result bool :=
  if (n <? 0) || (16 <? n) then Fault OutOfBounds
  else Ok (bool_decide (take (Z.to_nat n) a = take (Z.to_nat n) b)).

Fixpoint getaclLoop (rules : list dnbd3_access_rule_t) (addr : list Z) : result Z :=
  match rules with
  | [] => Ok 0
  | r :: rules =>
      if (rule_bytes r =? 0) && (rule_bitMask r =? 0) then Ok (rule_permissions r)
      else
        same ← memcmp16 (rule_host r) addr (rule_bytes r);
        if negb same then getaclLoop rules addr
        else if rule_bitMask r =? 0 then Ok (rule_permissions r)
        else
          x ← aget (rule_host r) (rule_bytes r);
          y ← aget addr (rule_bytes r);
          if x =? y .& rule_bitMask r then Ok (rule_permissions r) else getaclLoop rules addr
  end.
Definition getacl (rules : list dnbd3_access_rule_t) (addr : list Z) : result Z :=
  match rules with [] => Ok 0x7fffff | _ => getaclLoop rules addr end.

(** ** Prefixes as lists of bits *)

(** The bits of a byte and of an address, the most significant first. *)
Definition byteBits (b : Z) : list bool := map (fun i => Z.testbit b (7 - Z.of_nat i)) (seq 0 8).
Definition addrBits (a : list Z) : list bool := concat (map byteBits a).
(** A host is in the network of an address. *)
Definition inPrefix (bits : Z) (net addr : list Z) : bool :=
  bool_decide (take (Z.to_nat bits) (addrBits net) = take (Z.to_nat bits) (addrBits addr)).

Definition address (a : list Z) : Prop := length a = 16%nat /\ Forall in_u8 a.
#[global] Instance in_u8_dec x : Decision (in_u8 x).
Proof. unfold in_u8. apply _. Defined.
#[global] Instance address_dec a : Decision (address a).
Proof. unfold address. apply _. Defined.

Lemma u8_high x n : in_u8 x -> 8 <= n -> Z.testbit x n = false.
Proof.
  intros Hx Hn. rewrite <- (u8_id x Hx). apply Z.mod_pow2_bits_high. lia.
Qed.
Lemma byteBits_lookup b i : (i < 8)%nat -> byteBits b !! i = Some (Z.testbit b (7 - Z.of_nat i)).
Proof. intros Hi. unfold byteBits. rewrite list_lookup_fmap, lookup_seq_lt by done. done. Qed.
Lemma byteBits_take k x y :
  take k (byteBits x) = take k (byteBits y) <->
  (forall n, 8 - Z.of_nat k <= n < 8 -> 0 <= n -> Z.testbit x n = Z.testbit y n).
Proof.
  split; intros H.
  - intros n Hn H0. assert (take k (byteBits x) !! Z.to_nat (7 - n) = take k (byteBits y) !! Z.to_nat (7 - n)) as E
      by by rewrite H.
    rewrite !lookup_take_lt, !byteBits_lookup in E by lia.
    apply (inj Some) in E. rewrite !Z2Nat.id in E by lia.
    by replace (7 - (7 - n)) with n in E by lia.
  - apply list_eq. intros i. destruct (decide (i < k)%nat).
    2:{ rewrite !lookup_take_ge by lia. done. }
    rewrite !lookup_take_lt by lia. destruct (decide (i < 8)%nat).
    + rewrite !byteBits_lookup by done. f_equal. apply H; lia.
    + rewrite !lookup_ge_None_2; [done|by unfold byteBits; cbn; lia..].
Qed.
Lemma byteBits_inj x y : in_u8 x -> in_u8 y -> byteBits x = byteBits y -> x = y.
Proof.
  intros Hx Hy H. apply Z.bits_inj'. intros n Hn. destruct (Z.lt_ge_cases n 8).
  - apply (proj1 (byteBits_take 8 x y)); [by rewrite H|lia..].
  - by rewrite !u8_high.
Qed.
Lemma byteBits_length b : length (byteBits b) = 8%nat.
Proof. done. Qed.
Lemma addrBits_length a : length (addrBits a) = (8 * length a)%nat.
Proof. induction a as [|b a IH]; [done|]. cbn [addrBits map concat]. rewrite length_app, byteBits_length.
  unfold addrBits in IH. rewrite IH. cbn. lia. Qed.
Lemma addrBits_app a b : addrBits (a ++ b) = addrBits a ++ addrBits b.
Proof. unfold addrBits. by rewrite map_app, concat_app. Qed.
Lemma addrBits_inj a b :
  Forall in_u8 a -> Forall in_u8 b -> length a = length b -> addrBits a = addrBits b -> a = b.
Proof.
  intros Ha. revert b. induction Ha as [|x a Hx _ IH]; intros [|y b] Hb Hl H; try done.
  apply list.Forall_cons in Hb as [Hy Hb]. injection Hl as Hl.
  apply app_inj_1 in H as [H1 H2]; [|done]. f_equal; [by apply byteBits_inj|by apply IH].
Qed.
Lemma addrBits_take_bytes n a : take (8 * n) (addrBits a) = addrBits (take n a).
Proof.
  rewrite <- (take_drop n a) at 1. rewrite addrBits_app. destruct (decide (n <= length a)%nat).
  - rewrite take_app_le by (rewrite addrBits_length, length_take; lia).
    apply take_ge. rewrite addrBits_length, length_take. lia.
  - rewrite (drop_ge a) by lia. cbn [addrBits map concat]. rewrite app_nil_r.
    apply take_ge. rewrite addrBits_length, length_take. lia.
Qed.
(** A prefix is a number of bytes and, if it ends inside a byte, bits of the next. *)
Lemma addrBits_take q k a b :
  a !! q = Some b -> (k < 8)%nat -> take (8 * q + k) (addrBits a) = addrBits (take q a) ++ take k (byteBits b).
Proof.
  intros Hb Hk. pose proof (lookup_lt_Some _ _ _ Hb).
  rewrite <- (take_drop_middle a q b Hb) at 1. rewrite addrBits_app.
  assert (length (addrBits (take q a)) = (8 * q)%nat) as Hl by (rewrite addrBits_length, length_take; lia).
  rewrite take_app, Hl, take_ge by lia. f_equal.
  replace (8 * q + k - 8 * q)%nat with k by lia. cbn [addrBits map concat].
  rewrite take_app_le by (rewrite byteBits_length; lia). done.
Qed.

Lemma maskLoop_u8 k : (k < 8)%nat -> u8 (maskLoop k 0) = maskLoop k 0.
Proof. intros Hk. do 8 (destruct k; [done|]). lia. Qed.
(** The mask that the loop builds keeps the first [k] bits of a byte. *)
Lemma maskLoop_bits k n :
  (k < 8)%nat -> 0 <= n -> Z.testbit (maskLoop k 0) n = (8 - Z.of_nat k <=? n) && (n <? 8).
Proof.
  intros Hk Hn. pose proof (maskLoop_u8 k Hk) as E.
  destruct (Z.ltb_spec n 8).
  - rewrite andb_true_r.
    assert (forallb (fun k => forallb (fun n => Bool.eqb (Z.testbit (maskLoop k 0) (Z.of_nat n))
      (8 - Z.of_nat k <=? Z.of_nat n)) (seq 0 8)) (seq 0 8) = true) as Hall by reflexivity.
    pose proof (proj1 (forallb_seq_iff _ _) Hall k Hk) as Hrow. cbn beta in Hrow.
    pose proof (proj1 (forallb_seq_iff _ _) Hrow (Z.to_nat n) ltac:(lia)) as Hbit. cbn beta in Hbit.
    rewrite Z2Nat.id in Hbit by lia. by apply eqb_prop.
  - rewrite andb_false_r, <- E. apply Z.mod_pow2_bits_high. lia.
Qed.
Lemma mask_same k x y :
  (k < 8)%nat -> x .& maskLoop k 0 = y .& maskLoop k 0 <-> take k (byteBits x) = take k (byteBits y).
Proof.
  intros Hk. rewrite byteBits_take. split; intros H.
  - intros n Hn H0. apply (f_equal (fun z => Z.testbit z n)) in H. rewrite !Z.land_spec, maskLoop_bits in H by lia.
    destruct (Z.leb_spec (8 - Z.of_nat k) n); [|lia]. destruct (Z.ltb_spec n 8); [|lia].
    by rewrite !andb_true_r in H.
  - apply Z.bits_inj'. intros n Hn. rewrite !Z.land_spec, maskLoop_bits by lia.
    destruct (Z.leb_spec (8 - Z.of_nat k) n), (Z.ltb_spec n 8); cbn; rewrite ?andb_false_r; try done.
    rewrite !andb_true_r. apply H; lia.
Qed.

(** ** Rules *)

(** What the administrator wrote: a network, the length of its prefix, permissions. *)
Record acl_entry := Entry { e_net : list Z; e_bits : Z; e_perm : Z }.
Definition entry_wf (e : acl_entry) : Prop := address (e_net e) /\ 0 <= e_bits e <= 128.
Definition entryRule (e : acl_entry) : result dnbd3_access_rule_t :=
  makeRule (e_net e) (e_bits e) (e_perm e).
(** The first entry whose network the host is in decides; without entries everything
    is allowed. *)
Fixpoint firstMatch (es : list acl_entry) (addr : list Z) : Z :=
  match es with
  | [] => 0
  | e :: es => if inPrefix (e_bits e) (e_net e) addr then e_perm e else firstMatch es addr
  end.
Definition aclSpec (es : list acl_entry) (addr : list Z) : Z :=
  match es with [] => 0x7fffff | _ => firstMatch es addr end.

Lemma same_bytes q a b :
  address a -> address b -> take q a = take q b <-> addrBits (take q a) = addrBits (take q b).
Proof.
  intros [Ha Ha'] [Hb Hb']. split; [by intros ->|]. intros H. apply addrBits_inj.
  - by apply Forall_take.
  - by apply Forall_take.
  - rewrite !length_take. lia.
  - done.
Qed.
Lemma inPrefix_bytes bits net addr :
  address net -> address addr -> 0 <= bits -> Z.rem bits 8 = 0 ->
  inPrefix bits net addr = bool_decide (take (Z.to_nat (Z.quot bits 8)) net = take (Z.to_nat (Z.quot bits 8)) addr).
Proof.
  intros Hn Ha Hb Hr. apply bool_decide_ext. rewrite (same_bytes _ net addr) by done.
  rewrite <- !addrBits_take_bytes.
  replace (Z.to_nat bits) with (8 * Z.to_nat (Z.quot bits 8))%nat; [done|].
  pose proof (Z.quot_rem bits 8). lia.
Qed.
Lemma inPrefix_bits bits net addr x y :
  address net -> address addr -> 0 <= bits -> Z.rem bits 8 <> 0 ->
  net !! Z.to_nat (Z.quot bits 8) = Some x -> addr !! Z.to_nat (Z.quot bits 8) = Some y ->
  inPrefix bits net addr =
    bool_decide (take (Z.to_nat (Z.quot bits 8)) net = take (Z.to_nat (Z.quot bits 8)) addr)
    && (x .& maskLoop (Z.to_nat (Z.rem bits 8)) 0 =? y .& maskLoop (Z.to_nat (Z.rem bits 8)) 0).
Proof.
  intros Hn Ha Hb Hr Hx Hy. pose proof (Z.quot_rem bits 8 ltac:(lia)) as Hq.
  pose proof (Z.rem_bound_pos bits 8 ltac:(lia) ltac:(lia)) as Hm.
  unfold inPrefix. apply Bool.eq_iff_eq_true. rewrite andb_true_iff, !bool_decide_eq_true, Z.eqb_eq.
  rewrite mask_same by lia. rewrite (same_bytes _ net addr) by done.
  pose proof (Z.quot_pos bits 8 ltac:(lia) ltac:(lia)).
  replace (Z.to_nat bits) with (8 * Z.to_nat (Z.quot bits 8) + Z.to_nat (Z.rem bits 8))%nat by lia.
  rewrite (addrBits_take _ _ net x), (addrBits_take _ _ addr y) by (done || lia).
  split; [|by intros [-> ->]]. intros Heq. apply app_inj_1 in Heq; [done|].
  rewrite !addrBits_length, !length_take. destruct Hn as [-> _], Ha as [-> _]. done.
Qed.

(** A rule is made without fault, and it matches exactly the hosts of its network. *)
Lemma makeRule_ok e :
  entry_wf e -> exists r, entryRule e = Ok r /\ rule_permissions r = e_perm e
    /\ forall rs addr, address addr ->
       getaclLoop (r :: rs) addr =
       if inPrefix (e_bits e) (e_net e) addr then Ok (e_perm e) else getaclLoop rs addr.
Proof.
  destruct e as [net bits perm]. intros [Hn Hb]. cbn in Hn, Hb. unfold entryRule, makeRule. cbn.
  pose proof (Z.quot_rem bits 8 ltac:(lia)) as Hq. pose proof (Z.quot_pos bits 8 ltac:(lia) ltac:(lia)).
  pose proof (Z.rem_bound_pos bits 8 ltac:(lia) ltac:(lia)) as Hm.
  rewrite i32_id by (unfold in_i32; lia). destruct (Z.eqb_spec (Z.rem bits 8) 0) as [E|E].
  - eexists. split_and!; [done..|]. intros rs addr Ha. cbn. rewrite inPrefix_bytes by (done || lia).
    rewrite andb_true_r. destruct (Z.eqb_spec (Z.quot bits 8) 0) as [->|]; [done|].
    unfold memcmp16. destruct (Z.ltb_spec (Z.quot bits 8) 0); [lia|].
    destruct (Z.ltb_spec 16 (Z.quot bits 8)); [lia|]. cbn. by case_bool_decide.
  - destruct (lookup_lt_is_Some_2 net (Z.to_nat (Z.quot bits 8))) as [x Hx]; [destruct Hn; lia|].
    rewrite (aget_ok _ _ x) by done. cbn. rewrite aset_ok by (destruct Hn; lia). cbn.
    eexists. split_and!; [done..|]. intros rs addr Ha. cbn.
    destruct (lookup_lt_is_Some_2 addr (Z.to_nat (Z.quot bits 8))) as [y Hy]; [destruct Ha; lia|].
    rewrite (inPrefix_bits _ _ _ x y) by (done || lia).
    set (k := Z.to_nat (Z.rem bits 8)). assert (maskLoop k 0 <> 0) as Hne.
    { intros E0. pose proof (maskLoop_bits k 7 ltac:(lia) ltac:(lia)) as Hb7. rewrite E0 in Hb7.
      destruct (Z.leb_spec (8 - Z.of_nat k) 7); [done|lia]. }
    destruct (Z.eqb_spec (maskLoop k 0) 0); [done|]. rewrite andb_false_r.
    unfold memcmp16. destruct (Z.ltb_spec (Z.quot bits 8) 0); [lia|].
    destruct (Z.ltb_spec 16 (Z.quot bits 8)); [lia|]. cbn.
    rewrite take_insert_ge by lia. case_bool_decide; cbn; [|done].
    rewrite (aget_ok (<[_ := _]> net) _ (x .& u8 (maskLoop k 0))); [|lia|].
    2:{ apply list_lookup_insert_eq. destruct Hn; lia. }
    rewrite (aget_ok _ _ y) by done. cbn.
    rewrite maskLoop_u8 by lia. by destruct (_ =? _).
Qed.

Lemma getaclLoop_spec es rs addr :
  address addr -> Forall entry_wf es -> Forall2 (fun e r => entryRule e = Ok r) es rs ->
  getaclLoop rs addr = Ok (firstMatch es addr).
Proof.
  intros Ha Hw Hr. induction Hr as [|e r es rs He _ IH]; [done|].
  apply list.Forall_cons in Hw as [Hwe Hw]. destruct (makeRule_ok e Hwe) as (r' & He' & _ & Hm).
  rewrite He in He'. injection He' as <-. rewrite Hm by done. cbn [firstMatch].
  destruct (inPrefix _ _ _); [done|]. by apply IH.
Qed.
Lemma getacl_spec es rs addr :
  address addr -> Forall entry_wf es -> Forall2 (fun e r => entryRule e = Ok r) es rs ->
  getacl rs addr = Ok (aclSpec es addr).
Proof.
  intros Ha Hw Hr. unfold getacl, aclSpec. destruct es, rs; [done|by inversion Hr..|].
  by apply getaclLoop_spec.
Qed.

(** ** The file *)

Section AclFile.
Context (inet_pton4 inet_pton6 : string -> option (list Z)).
(** [inet_pton] writes 4 or 16 bytes. *)
Record pton_laws : Prop := PtonLaws {
  pton4_bytes s a : inet_pton4 s = Some a -> length a = 4%nat /\ Forall in_u8 a;
  pton6_bytes s a : inet_pton6 s = Some a -> length a = 16%nat /\ Forall in_u8 a;
}.

(** The entry that a line stands for; comments, lines without a known flag and lines
    that do not start with an address have none. *)
Definition lineEntry (argv : list string) : option acl_entry :=
  match argv with
  | [] => None
  | arg0 :: flags =>
      if bool_decide (head (chars arg0) = Some "#"%char) || (aclMask flags 0 =? 0) then None
      else
        let '(arg0, slash) := splitSlash arg0 in
        host ← parse_address inet_pton4 inet_pton6 arg0;
        Some (Entry (host_addr host) (prefixBits (host_type host) slash) (aclMask flags 0))
  end.

Lemma parseIp_address s p h :
  pton_laws -> parseIp inet_pton4 inet_pton6 s p = Some h -> address (host_addr h).
Proof.
  intros L. unfold parseIp. destruct (inet_pton4 s) as [a|] eqn:E4.
  - intros <-%(inj Some). destruct (pton4_bytes L _ _ E4) as [Hl Hu]. split; cbn; unfold padAddr.
    + rewrite length_app, length_replicate. lia.
    + apply list.Forall_app. split; [done|]. apply list.Forall_forall.
      intros x [-> _]%elem_of_replicate. done.
  - destruct (inet_pton6 s) as [a|] eqn:E6; [|done]. intros <-%(inj Some). by apply (pton6_bytes L s).
Qed.
Lemma parse_address_address s h :
  pton_laws -> parse_address inet_pton4 inet_pton6 s = Some h -> address (host_addr h).
Proof.
  intros L. unfold parse_address. destruct (parseIp _ _ s _) eqn:E.
  - intros <-%(inj Some). by eapply parseIp_address.
  - destruct (splitPort s) as [[ip port]|]; [|done]. destruct (_ || _); [done|]. by apply parseIp_address.
Qed.
Lemma prefixBits_le type slash : prefixBits type slash <= 128.
Proof.
  unfold prefixBits. destruct slash as [s|]; [|destruct (_ =? _); lia].
  destruct (strtol s) as [b []]; [|destruct (_ =? _); lia].
  destruct (_ && _); cases_if; b2p; lia.
Qed.
Lemma lineEntry_wf argv e : pton_laws -> lineEntry argv = Some e -> 0 <= e_bits e -> entry_wf e.
Proof.
  intros L. unfold lineEntry. destruct argv as [|a fl]; [done|]. destruct (_ || _); [done|].
  destruct (splitSlash a) as [a' sl]. destruct (parse_address _ _ a') as [h|] eqn:E; [|done].
  intros <-%(inj Some). cbn. intros Hb. split; cbn; [by eapply parse_address_address|].
  split; [done|]. apply prefixBits_le.
Qed.

(** What [addacl] does with a line. *)
Lemma addacl_spec argv rules :
  argv <> [] ->
  addacl inet_pton4 inet_pton6 argv rules =
    match lineEntry argv with
    | Some e => if MAX_ACLS <=? Z.of_nat (length rules) then Ok rules
                else r ← entryRule e; Ok (rules ++ [r])
    | None => Ok rules
    end.
Proof.
  intros Hne. unfold addacl, lineEntry. destruct argv as [|a fl]; [done|].
  destruct (bool_decide _); [done|]. cbn [orb]. destruct (aclMask fl 0 =? 0); [by destruct (_ <=? _)|].
  destruct (splitSlash a) as [a' sl]. destruct (parse_address _ _ a') as [h|]; [done|].
  cbn. by destruct (_ <=? _).
Qed.
Lemma runLines_acl lines count es rules :
  Forall2 (fun e r => entryRule e = Ok r) es rules -> (length es <= 100)%nat ->
  Forall entry_wf (take 100 (es ++ omap lineEntry lines)) ->
  exists rules' n, runLines 1 (addacl inet_pton4 inet_pton6) lines count rules = Ok (n, rules')
    /\ Forall2 (fun e r => entryRule e = Ok r) (take 100 (es ++ omap lineEntry lines)) rules'.
Proof.
  revert count es rules. induction lines as [|argv lines IH]; intros count es rules Hr Hl Hw.
  { cbn. exists rules, count. rewrite app_nil_r, take_ge in * by lia. done. }
  cbn [runLines]. destruct argv as [|a fl].
  { cbn. by apply IH. }
  destruct (Z.leb_spec 1 (Z.of_nat (length (a :: fl)))); [|cbn in *; lia].
  rewrite addacl_spec by done. cbn [omap list_omap] in Hw |- *. destruct (lineEntry (a :: fl)) as [e|].
  2:{ cbn. by apply IH. }
  pose proof (Forall2_length Hr). unfold MAX_ACLS. destruct (Z.leb_spec 100 (Z.of_nat (length rules))).
  - cbn. destruct (IH (count + 1) es rules Hr Hl) as (r' & n & Hrun & Hf).
    { rewrite take_app_le in * by lia. done. }
    exists r', n. split; [done|]. by rewrite take_app_le in * by lia.
  - assert (entry_wf e) as He.
    { rewrite list.Forall_forall in Hw. apply Hw.
      rewrite take_app, take_ge by lia. apply elem_of_app. right.
      destruct (100 - length es)%nat eqn:E; [lia|]. by left. }
    destruct (makeRule_ok e He) as (r & Her & _). rewrite Her. cbn.
    replace (es ++ e :: omap lineEntry lines) with ((es ++ [e]) ++ omap lineEntry lines) in Hw |- *
      by by rewrite <- app_assoc.
    apply IH; [|rewrite length_app; cbn; lia|done]. apply Forall2_app; [done|].
    by constructor.
Qed.
End AclFile.

(** The lines of a file with the white space in them. *)
Definition aclText (ls : list (layout * list ascii)) : list ascii :=
  concat (map (fun l => layoutText l.1 l.2) ls).
Definition aclLine (l : layout * list ascii) : Prop :=
  layout_wf l.1 l.2 /\ textLine (layoutText l.1 l.2) /\ Z.of_nat (length l.1) <= 20.

(** The access rules decide as written.  For every text file of rules whose lines have
    fewer than 1000 characters and whose prefix lengths are not negative, loading it
    and asking for a host succeeds, and the answer is the permissions of the first of
    the (at most 100) rules whose network the host is in, bit by bit; none if
    there is no such rule; everything if the file has no rule at all. *)
Theorem acl_decides inet_pton4 inet_pton6 ls addr :
  pton_laws inet_pton4 inet_pton6 -> Forall aclLine ls -> address addr ->
  let es := take 100 (omap (lineEntry inet_pton4 inet_pton6) (map (fun l => layoutItems l.1) ls)) in
  Forall (fun e => 0 <= e_bits e) es ->
  (rules ← loadAcl inet_pton4 inet_pton6 (Some (aclText ls)); getacl rules addr)
  = Ok (aclSpec es addr).
Proof.
  intros L Hl Ha es Hb. unfold loadAcl, aclText. rewrite load_layout by done.
  assert (Forall entry_wf es) as Hw.
  { rewrite list.Forall_forall in Hb |- *. intros e He. specialize (Hb e He).
    apply elem_of_take in He as (i & He & _). apply list_elem_of_lookup_2, list_elem_of_omap in He as (argv & _ & He).
    by eapply lineEntry_wf. }
  destruct (runLines_acl inet_pton4 inet_pton6 (map (fun l => layoutItems l.1) ls) 0 [] [])
    as (rules & n & -> & Hr); [constructor|cbn; lia|done|].
  cbn. by apply getacl_spec.
Qed.

Definition demoPton4 (s : string) : option (list Z) :=
  if (s =? "10.128.0.0")%string then Some [10; 128; 0; 0]
  else if (s =? "10.0.0.0")%string then Some [10; 0; 0; 0] else None.
Definition demoPton6 (s : string) : option (list Z) := None.
Lemma demo_pton : pton_laws demoPton4 demoPton6.
Proof.
  split; [|done]. intros s a. unfold demoPton4. destruct (s =? _)%string; [|destruct (s =? _)%string; [|done]];
    intros <-%(inj Some); (split; [done|by apply (bool_decide_unpack _)]).
Defined.
(** "# networks", "10.128.0.0/9 STATS", " 10.0.0.0/8 ALL" *)
Definition demoAcl : list (layout * list ascii) :=
  [([([], chars "#"); (chars " ", chars "networks")], [LF]);
   ([([], chars "10.128.0.0/9"); (chars " ", chars "STATS")], [LF]);
   ([(chars " ", chars "10.0.0.0/8"); (chars "  ", chars "ALL")], [LF])].
Lemma demoAcl_ok : Forall aclLine demoAcl.
Proof.
  repeat (constructor; [split; [by apply (bool_decide_unpack _)|split; [by apply isTextLine_ok|cbn; lia]]|]).
  constructor.
Defined.
Definition demoHost (l : list Z) : list Z := padAddr l.

(** Two overlapping networks: the first rule decides, the rest of the larger network
    gets the second, other hosts nothing. *)
Lemma acl_decides_witness :
  map (fun h => rules ← loadAcl demoPton4 demoPton6 (Some (aclText demoAcl)); getacl rules (demoHost h))
    [[10; 200; 1; 1]; [10; 20; 1; 1]; [11; 0; 0; 1]] = [Ok ACL_STATS; Ok ACL_ALL; Ok 0].
Proof.
  cbn [map]. rewrite !(acl_decides demoPton4 demoPton6 demoAcl);
    first [apply demo_pton | apply demoAcl_ok | by apply (bool_decide_unpack _) | reflexivity].
Defined.

(** ** Where the rules do not do what they say *)

(** A negative prefix length shorter than a byte makes a rule that every host matches. *)
Theorem negative_prefix_matches_all addr net perm rs :
  length net = 16%nat ->
  exists r, makeRule net (-5) perm = Ok r /\ getacl (r :: rs) addr = Ok perm.
Proof.
  intros Hn. destruct net as [|b net]; [done|]. exists (Rule (Z.land b 0 :: net) 0 0 perm). split; [|done].
  unfold makeRule. change (i32 (Z.quot (-5) 8)) with 0. change (Z.rem (-5) 8) with (-5).
  cbn [Z.eqb]. rewrite (aget_ok _ 0 b) by done. cbn [mbind result_bind]. by rewrite aset_ok by lia.
Qed.
Lemma negative_prefix_witness :
  length (demoHost [10; 0; 0; 0]) = 16%nat
  /\ (rules ← addacl demoPton4 demoPton6 ["10.0.0.0/-5"; "ALL"] []; getacl rules (demoHost [203; 0; 113; 7]))
     = Ok ACL_ALL
  /\ (exists r, makeRule (demoHost [10; 0; 0; 0]) (-5) ACL_ALL = Ok r
                /\ getacl [r] (demoHost [203; 0; 113; 7]) = Ok ACL_ALL).
Proof.
  split; [done|]. split; [reflexivity|]. apply (negative_prefix_matches_all _ _ ACL_ALL []). done.
Defined.
(** A smaller one writes before the array, or compares more than the arrays hold. *)
Theorem negative_prefix_faults :
  addacl demoPton4 demoPton6 ["10.0.0.0/-9"; "ALL"] [] = Fault OutOfBounds
  /\ (rules ← addacl demoPton4 demoPton6 ["10.0.0.0/-16"; "ALL"] []; getacl rules (demoHost [10; 0; 0; 1]))
     = Fault OutOfBounds.
Proof. split; reflexivity. Qed.
(** The address family is not compared: the IPv6 host 0a80::1 is taken for 10.128.0.0/9. *)
Theorem acl_ignores_family :
  (rules ← addacl demoPton4 demoPton6 ["10.128.0.0/9"; "STATS"] []; getacl rules ([10; 128] ++ replicate 13 0 ++ [1]))
  = Ok ACL_STATS.
Proof. reflexivity. Qed.
(** [LOG], [CONFIG] and [ALTSERVERS] cannot be granted by name. *)
Theorem acl_flags_unknown :
  addacl demoPton4 demoPton6 ["10.0.0.0/8"; "LOG"; "CONFIG"; "ALTSERVERS"] [] = Ok [].
Proof. reflexivity. Qed.
(** The part of a comment that does not fit the line buffer is read as a rule. *)
Definition longComment : list ascii := "#"%char :: replicate 998 "x"%char ++ chars "10.0.0.0/8 ALL" ++ [LF].
Theorem long_comment_is_a_rule :
  (rules ← loadAcl demoPton4 demoPton6 (Some longComment); getacl rules (demoHost [10; 1; 2; 3])) = Ok ACL_ALL
  /\ (rules ← loadAcl demoPton4 demoPton6 (Some longComment); getacl rules (demoHost [11; 1; 2; 3])) = Ok 0.
Proof. split; vm_compute; reflexivity. Qed.
