(* ===== verification/HttpParse.v ===== *)
(** * HttpParse: reading the header of an HTTP request ([src/server/picohttpparser])

    The parser walks over a buffer that was received in part or in full; the bytes behind
    [buf_end] are whatever an earlier request left there.  A position is an index into
    the whole buffer, so that reading at or behind [buf_end] is possible and visible.
    [pres] is the result of a parsing function: the new position, or [NULL] with the code
    that was stored in [ret].  The build without SSE is modelled, where [findchar_fast]
    returns its argument. *)

From Stdlib Require Import Ascii.
From S2P Require Import Prelude UrlDecode.
Open Scope Z_scope.

(** ** Parsing functions *)

Inductive pres (A : Type) :=
| PDone (a : A) (buf : Z)
| PErr (ret : Z).
Arguments PDone {A} a buf.
Arguments PErr {A} ret.

(** The buffer, [buf_end], [buf]. *)
Definition parser (A : Type) : Type := list Z -> Z -> Z -> result (pres A).
#[global] Instance parser_ret : MRet parser := fun A a mem end_ buf => Ok (PDone a buf).
#[global] Instance parser_bind : MBind parser := fun A B k p mem end_ buf =>
  r ← p mem end_ buf;
  match r with
  | PDone a buf => k a mem end_ buf
  | PErr ret => Ok (PErr ret)
  end.

Definition fail {A} (ret : Z) : parser A := fun mem end_ buf => Ok (PErr ret).
Definition pos : parser Z := fun mem end_ buf => Ok (PDone buf buf).
(** [*buf] *)
Definition peek : parser Z := fun mem end_ buf => c ← aget mem buf; Ok (PDone c buf).
(** [++buf] *)
Definition skip : parser unit := fun mem end_ buf => Ok (PDone tt (buf + 1)).
Definition CHECK_EOF : parser unit := fun mem end_ buf =>
  if buf =? end_ then Ok (PErr (-2)) else Ok (PDone tt buf).
(** [CHECK_EOF] and [*buf] *)
Definition look : parser Z := _ ← CHECK_EOF; peek.
Definition EXPECT_CHAR_NO_CHECK (ch : Z) : parser unit :=
  c ← peek; _ ← skip; if c =? ch then mret tt else fail (-1).
Definition EXPECT_CHAR (ch : Z) : parser unit := _ ← CHECK_EOF; EXPECT_CHAR_NO_CHECK ch.

(** ** The code *)

Definition CR : Z := 13.
Definition NL : Z := 10.
Definition SP : Z := 32.
Definition IS_PRINTABLE_ASCII (c : Z) : bool := (32 <=? c) && (c <? 127).
(** [struct string], as an offset and a length *)
Definition string_t : Type := Z * Z.
(** A pointer that is [NULL] for the continuation of a header. *)
Record phr_header := Header { h_name : option string_t; h_value : string_t }.

(** The loop of [ADVANCE_TOKEN]. *)
Fixpoint tokenLoop (fuel : nat) : parser unit :=
  match fuel with
  | O => fun _ _ _ => Fault OutOfBounds
  | S fuel =>
      c ← look;
      if c =? SP then mret tt
      else if negb (IS_PRINTABLE_ASCII c) && ((c <? 32) || (c =? 127)) then fail (-1)
      else _ ← skip; tokenLoop fuel
  end.
Definition ADVANCE_TOKEN (fuel : nat) : parser string_t :=
  tok_start ← pos; _ ← tokenLoop fuel; buf ← pos; mret (tok_start, buf - tok_start).

(** Step forward at least once and while there is a space. *)
Fixpoint skipSpaces (fuel : nat) : parser unit :=
  match fuel with
  | O => fun _ _ _ => Fault OutOfBounds
  | S fuel => _ ← skip; c ← peek; if c =? SP then skipSpaces fuel else mret tt
  end.

Definition isCtl (c : Z) : bool := ((c <? 32) && negb (c =? 9)) || (c =? 127).
(** The loop for the last bytes of the buffer; it stops at [FOUND_CTL]. *)
Fixpoint ctlLoop (fuel : nat) : parser unit :=
  match fuel with
  | O => fun _ _ _ => Fault OutOfBounds
  | S fuel =>
      c ← look;
      if negb (IS_PRINTABLE_ASCII c) && isCtl c then mret tt else _ ← skip; ctlLoop fuel
  end.
(** [DOIT] several times, then [continue]. *)
Fixpoint doits (n : nat) (continue : parser unit) : parser unit :=
  match n with
  | O => continue
  | S n =>
      c ← peek;
      if IS_PRINTABLE_ASCII c then _ ← skip; doits n continue
      else if isCtl c then mret tt
      else _ ← skip; continue
  end.
Fixpoint ctlFast (fuel : nat) : parser unit := fun mem end_ buf =>
  match fuel with
  | O => Fault OutOfBounds
  | S f =>
      if 8 <=? end_ - buf then doits 8 (ctlFast f) mem end_ buf
      else ctlLoop fuel mem end_ buf
  end.
Definition get_token_to_eol (fuel : nat) : parser string_t :=
  token_start ← pos;
  _ ← ctlFast fuel;
  c ← peek;
  if c =? CR then
    _ ← skip; _ ← EXPECT_CHAR NL; buf ← pos; mret (token_start, buf - 2 - token_start)
  else if c =? NL then
    buf ← pos; _ ← skip; mret (token_start, buf - token_start)
  else fail (-1).

Fixpoint completeLoop (fuel : nat) (ret_cnt : Z) : parser unit :=
  match fuel with
  | O => fun _ _ _ => Fault OutOfBounds
  | S fuel =>
      c ← look;
      _ ← skip;
      ret_cnt ← (if c =? CR then _ ← CHECK_EOF; _ ← EXPECT_CHAR NL; mret (ret_cnt + 1)
                 else if c =? NL then mret (ret_cnt + 1) else mret 0);
      if ret_cnt =? 2 then mret tt else completeLoop fuel ret_cnt
  end.
Definition is_complete (fuel : nat) (last_len : Z) : parser unit := fun mem end_ buf =>
  completeLoop fuel 0 mem end_ (if last_len <? 3 then buf else buf + last_len - 3).

Definition PARSE_INT (mul : Z) : parser Z :=
  c ← peek; _ ← skip; if (c <? 48) || (57 <? c) then fail (-1) else mret (mul * (c - 48)).
Definition versionChars : parser Z :=
  _ ← EXPECT_CHAR_NO_CHECK 72; _ ← EXPECT_CHAR_NO_CHECK 84; _ ← EXPECT_CHAR_NO_CHECK 84;
  _ ← EXPECT_CHAR_NO_CHECK 80; _ ← EXPECT_CHAR_NO_CHECK 47; _ ← EXPECT_CHAR_NO_CHECK 49;
  _ ← EXPECT_CHAR_NO_CHECK 46; PARSE_INT 1.
Definition parse_http_version : parser Z := fun mem end_ buf =>
  if end_ - buf <? 9 then Ok (PErr (-2)) else versionChars mem end_ buf.

Definition token_char_map : list Z :=
  replicate 32 0 ++ [0; 1; 0; 1; 1; 1; 1; 1; 0; 0; 1; 1; 0; 1; 1; 0] ++ replicate 10 1 ++ replicate 6 0
  ++ [0] ++ replicate 26 1 ++ [0; 0; 0; 1; 1] ++ [1] ++ replicate 26 1 ++ [0; 1; 0; 1; 0] ++ replicate 128 0.
Definition isTokenChar (c : Z) : bool := bool_decide (token_char_map !! Z.to_nat c = Some 1).

(** The name of a header up to the colon. *)
Fixpoint headerNameLoop (fuel : nat) : parser unit :=
  match fuel with
  | O => fun _ _ _ => Fault OutOfBounds
  | S fuel =>
      c ← look;
      if c =? 58 then mret tt
      else if negb (isTokenChar c) then fail (-1)
      else _ ← skip; headerNameLoop fuel
  end.
Definition isBlankByte (c : Z) : bool := (c =? 32) || (c =? 9).
Fixpoint blankLoop (fuel : nat) : parser unit :=
  match fuel with
  | O => fun _ _ _ => Fault OutOfBounds
  | S fuel => c ← look; if isBlankByte c then _ ← skip; blankLoop fuel else mret tt
  end.
(** Move [value_end] back over blanks; [n] is [value_end - value.s]. *)
Fixpoint trimLoop (n : nat) (start : Z) : parser Z :=
  match n with
  | O => mret 0
  | S n' => fun mem end_ buf =>
      c ← aget mem (start + Z.of_nat n');
      if isBlankByte c then trimLoop n' start mem end_ buf else Ok (PDone (Z.of_nat n) buf)
  end.
Definition headerName (fuel : nat) : parser string_t :=
  name ← pos; _ ← headerNameLoop fuel; buf ← pos;
  if buf - name =? 0 then fail (-1)
  else _ ← skip; _ ← blankLoop fuel; mret (name, buf - name).
Definition headerValue (fuel : nat) : parser string_t :=
  value ← get_token_to_eol fuel;
  len ← trimLoop (Z.to_nat value.2) value.1;
  mret (value.1, len).

Section WithFuel.
Context (fuel : nat).

(** [first] is [*num_headers == 0], [room] what is left of [headers]. *)
Fixpoint parse_headers (room : nat) (first : bool) : parser (list phr_header) :=
  c ← look;
  if c =? CR then _ ← skip; _ ← EXPECT_CHAR NL; mret []
  else if c =? NL then _ ← skip; mret []
  else
    match room with
    | O => fail (-1)
    | S room =>
        name ← (if negb (negb first && isBlankByte c) then n ← headerName fuel; mret (Some n) else mret None);
        value ← headerValue fuel;
        rest ← parse_headers room false;
        mret (Header name value :: rest)
    end.

Record request := Request {
  r_method : string_t;
  r_path : string_t;
  r_minor : Z;
  r_headers : list phr_header;
}.
Definition skipEmptyLine : parser unit :=
  c ← look;
  if c =? CR then _ ← skip; EXPECT_CHAR NL else if c =? NL then skip else mret tt.
Definition versionLine : parser Z :=
  minor ← parse_http_version;
  c ← peek;
  if c =? CR then _ ← skip; _ ← EXPECT_CHAR NL; mret minor
  else if c =? NL then _ ← skip; mret minor
  else fail (-1).
Definition parse_request (max_headers : nat) : parser request :=
  _ ← skipEmptyLine;
  method ← ADVANCE_TOKEN fuel;
  _ ← skipSpaces fuel;
  path ← ADVANCE_TOKEN fuel;
  _ ← skipSpaces fuel;
  if (method.2 =? 0) || (path.2 =? 0) then fail (-1)
  else
    minor ← versionLine;
    headers ← parse_headers max_headers true;
    mret (Request method path minor headers).
End WithFuel.

(** The return value is the position in the first case. *)
Definition phr_parse_request (mem : list Z) (len : Z) (max_headers : nat) (last_len : Z) : result (pres request) :=
  let fuel := S (length mem) in
  let go := parse_request fuel max_headers mem len 0 in
  if last_len =? 0 then go
  else
    c ← is_complete fuel last_len mem len 0;
    match c with
    | PErr r => Ok (PErr r)
    | PDone _ _ => go
    end.

(** Unfold the parsing functions that have no loop. *)
Ltac prun :=
  cbv [mbind parser_bind pos mret parser_ret EXPECT_CHAR EXPECT_CHAR_NO_CHECK look peek skip CHECK_EOF fail result_bind].

(** ** The unrolled loop *)

(** The loop that looks at eight bytes at a time finds what the plain loop finds. *)
Lemma doits_eq n k : forall fuel mem end_ buf,
  (forall buf' f, buf < buf' <= end_ -> end_ - buf' < Z.of_nat f -> k mem end_ buf' = ctlLoop f mem end_ buf') ->
  (0 < n)%nat -> buf + Z.of_nat n <= end_ -> end_ - buf < Z.of_nat fuel ->
  doits n k mem end_ buf = ctlLoop fuel mem end_ buf.
Proof.
  induction n as [|n IH]; intros fuel mem end_ buf Hk Hn Hb Hf; [lia|]. clear Hn.
  destruct fuel as [|fuel]; [lia|]. cbn [doits ctlLoop]. cbv [mbind parser_bind look peek skip CHECK_EOF mret parser_ret].
  destruct (Z.eqb_spec buf end_); [lia|]. cbn [mbind result_bind].
  destruct (aget mem buf) as [c|]; [|done]. cbn [mbind result_bind].
  destruct (IS_PRINTABLE_ASCII c); cbn [negb andb].
  - destruct n as [|n].
    + cbn [doits]. apply Hk; lia.
    + apply IH; [|lia..]. intros. apply Hk; lia.
  - destruct (isCtl c); [done|]. cbn. apply Hk; lia.
Qed.
Lemma ctlFast_eq f : forall fuel mem end_ buf,
  buf <= end_ -> end_ - buf < Z.of_nat f -> end_ - buf < Z.of_nat fuel ->
  ctlFast f mem end_ buf = ctlLoop fuel mem end_ buf.
Proof.
  induction f as [|f IH]; intros fuel mem end_ buf Hb Hf Hfuel; [lia|]. cbn [ctlFast].
  destruct (Z.leb_spec 8 (end_ - buf)).
  - apply doits_eq; [|lia..]. intros. apply IH; lia.
  - assert (forall f g buf, buf <= end_ -> end_ - buf < Z.of_nat f -> end_ - buf < Z.of_nat g ->
      ctlLoop f mem end_ buf = ctlLoop g mem end_ buf) as Hfg; [|by apply Hfg].
    clear. induction f as [|f IH]; intros g buf Hb Hf Hg; [lia|]. destruct g as [|g]; [lia|].
    cbn [ctlLoop]. cbv [mbind parser_bind look peek skip CHECK_EOF mret parser_ret].
    destruct (Z.eqb_spec buf end_); [done|]. cbn [mbind result_bind].
    destruct (aget mem buf) as [c|]; [|done]. cbn [mbind result_bind].
    destruct (_ && _); [done|]. cbn. apply IH; lia.
Qed.

(** ** Partial requests

    A parsing function that succeeds on the whole request either does the same when only
    the first [e] bytes have been received, or reports that the request is partial.  [k]
    is the number of bytes from the position on that are known to have been received,
    before and after. *)

Definition agree (e : Z) (m1 m2 : list Z) : Prop :=
  length m1 = length m2 /\ forall i, Z.of_nat i < e -> m1 !! i = m2 !! i.
Create HintDb incr discriminated.
Section Partial.
(** More than the size of the buffer. *)
Context (N : nat).
Definition incr {A} (k k' : Z) (p : parser A) : Prop :=
  forall m1 m2 e end1 buf a b,
    agree e m1 m2 -> 0 <= buf -> buf + k <= e -> e <= end1 <= Z.of_nat (length m1) /\ (length m1 < N)%nat ->
    p m1 end1 buf = Ok (PDone a b) ->
    (buf <= b /\ b + k' <= e /\ p m2 e buf = Ok (PDone a b)) \/ p m2 e buf = Ok (PErr (-2)).

Lemma agree_aget e m1 m2 i : agree e m1 m2 -> 0 <= i < e -> aget m2 i = aget m1 i.
Proof.
  intros [_ H] Hi. unfold aget. destruct (i <? 0); [done|]. by rewrite H by lia.
Qed.
Lemma incr_bind {A B} k k1 k2 (p : parser A) (f : A -> parser B) :
  incr k k1 p -> (forall a, incr k1 k2 (f a)) -> incr k k2 (p ≫= f).
Proof.
  intros Hp Hf m1 m2 e end1 buf a b Hm H0 Hk He. cbv [mbind parser_bind]. cbv [mbind result_bind].
  destruct (p m1 end1 buf) as [[x b1|r]|] eqn:E1; [|done..]. intros E2.
  destruct (Hp _ _ _ _ _ _ _ Hm H0 Hk He E1) as [(Hle & Hb & ->)| ->]; [|by right].
  destruct (Hf x m1 m2 e end1 b1 a b) as [(? & ? & ?)|?]; [done|lia|done..| |by right].
  left. split_and!; [lia|done..].
Qed.
Lemma incr_ret {A} k (a : A) : 0 <= k -> incr k k (mret a).
Proof. intros Hk m1 m2 e end1 buf a' b _ H0 Hb _ [= -> ->]. left. split_and!; [lia..|done]. Qed.
Lemma incr_pos k : 0 <= k -> incr k k pos.
Proof. intros Hk m1 m2 e end1 buf a' b _ H0 Hb _ [= <- <-]. left. split_and!; [lia..|done]. Qed.
Lemma incr_fail {A} k k' r : incr k k' (fail (A := A) r).
Proof. by intros m1 m2 e end1 buf a b _ _ _ _ [=]. Qed.
Lemma incr_fault {A} k k' f : incr (A := A) k k' (fun _ _ _ => Fault f).
Proof. by intros m1 m2 e end1 buf a b _ _ _ _ [=]. Qed.
Lemma incr_peek k : 0 < k -> incr k k peek.
Proof.
  intros Hk m1 m2 e end1 buf a b Hm H0 Hb He. unfold peek. rewrite (agree_aget e m1 m2) by (done || lia).
  destruct (aget m1 buf); [|done]. cbn. intros [= <- <-]. left. split_and!; [lia..|done].
Qed.
Lemma incr_skip k : 0 < k -> incr k (k - 1) skip.
Proof. intros Hk m1 m2 e end1 buf a b Hm H0 Hb He [= <- <-]. left. split_and!; [lia..|done]. Qed.
Lemma incr_check : incr 0 1 CHECK_EOF.
Proof.
  intros m1 m2 e end1 buf a b Hm H0 Hb He. unfold CHECK_EOF. destruct (Z.eqb_spec buf end1); [done|].
  intros [= <- <-]. destruct (Z.eqb_spec buf e); [by right|]. left. split_and!; [lia..|done].
Qed.
Lemma incr_weaken {A} k k' j j' (p : parser A) : incr k j p -> k <= k' -> j' <= j -> incr k' j' p.
Proof.
  intros Hp Hk Hj m1 m2 e end1 buf a b Hm H0 Hb He E.
  destruct (Hp m1 m2 e end1 buf a b) as [(? & ? & ?)|?]; [done..|lia|done|done| |by right].
  left. split_and!; [lia..|done].
Qed.
Lemma incr_look : incr 0 1 look.
Proof. eapply incr_bind; [apply incr_check|]. intros _. by apply incr_peek. Qed.
Lemma incr_expect_no_check k ch : 0 < k -> incr k (k - 1) (EXPECT_CHAR_NO_CHECK ch).
Proof.
  intros Hk. eapply incr_bind; [by apply incr_peek|]. intros c.
  eapply incr_bind; [by apply incr_skip|]. intros _.
  destruct (c =? ch); [apply incr_ret; lia|apply incr_fail].
Qed.
Lemma incr_expect ch : incr 0 0 (EXPECT_CHAR ch).
Proof. eapply incr_bind; [apply incr_check|]. intros _. by apply (incr_expect_no_check 1). Qed.

#[local] Hint Resolve incr_look incr_expect incr_check incr_fail incr_fault : incr.
(** One step of a parsing function; [k] is the count in between. *)
Ltac incr_step k := eapply (incr_bind _ k); [auto with incr|intros ?].
Ltac incr_skip := eapply incr_bind; [by apply incr_skip|intros _; cbn].

Lemma incr_tokenLoop fuel : incr 0 1 (tokenLoop fuel).
Proof.
  induction fuel as [|fuel IH]; cbn [tokenLoop]; [auto with incr|]. incr_step 1.
  destruct (_ =? SP); [by apply incr_ret|]. destruct (_ && _); [auto with incr|]. by incr_skip.
Qed.
Lemma incr_token fuel : incr 0 1 (ADVANCE_TOKEN fuel).
Proof.
  eapply incr_bind; [by apply incr_pos|]. intros s.
  eapply incr_bind; [apply incr_tokenLoop|]. intros _.
  eapply incr_bind; [by apply incr_pos|]. intros b. by apply incr_ret.
Qed.
Lemma incr_ctlLoop fuel : incr 0 1 (ctlLoop fuel).
Proof.
  induction fuel as [|fuel IH]; cbn [ctlLoop]; [auto with incr|]. incr_step 1.
  destruct (_ && _); [by apply incr_ret|]. by incr_skip.
Qed.
Lemma incr_ctlFast : incr 0 1 (ctlFast N).
Proof.
  intros m1 m2 e end1 buf a b Hm H0 Hb He.
  rewrite (ctlFast_eq N N m1), (ctlFast_eq N N m2) by lia. by apply (incr_ctlLoop N).
Qed.
Lemma incr_eol : incr 0 0 (get_token_to_eol N).
Proof.
  eapply incr_bind; [by apply incr_pos|]. intros s. eapply incr_bind; [apply incr_ctlFast|]. intros _.
  eapply incr_bind; [by apply incr_peek|]. intros c. destruct (c =? CR).
  - incr_skip. incr_step 0. eapply incr_bind; [by apply incr_pos|]. intros b. by apply incr_ret.
  - destruct (c =? NL); [|auto with incr]. eapply incr_bind; [by apply incr_pos|]. intros b.
    incr_skip. by apply incr_ret.
Qed.
Lemma incr_headerNameLoop fuel : incr 0 1 (headerNameLoop fuel).
Proof.
  induction fuel as [|fuel IH]; cbn [headerNameLoop]; [auto with incr|]. incr_step 1.
  destruct (_ =? 58); [by apply incr_ret|]. destruct (negb _); [auto with incr|]. by incr_skip.
Qed.
Lemma incr_blankLoop fuel : incr 0 1 (blankLoop fuel).
Proof.
  induction fuel as [|fuel IH]; cbn [blankLoop]; [auto with incr|]. incr_step 1.
  destruct (isBlankByte _); [by incr_skip|by apply incr_ret].
Qed.
Lemma incr_headerName fuel : incr 0 0 (headerName fuel).
Proof.
  eapply incr_bind; [by apply incr_pos|]. intros s. eapply incr_bind; [apply incr_headerNameLoop|]. intros _.
  eapply incr_bind; [by apply incr_pos|]. intros b. destruct (_ =? 0); [auto with incr|].
  incr_skip. eapply incr_bind; [apply incr_blankLoop|]. intros _.
  eapply incr_weaken; [by apply (incr_ret 1)|lia..].
Qed.
Lemma incr_completeLoop fuel cnt : incr 0 0 (completeLoop fuel cnt).
Proof.
  revert cnt. induction fuel as [|fuel IH]; intros cnt; cbn [completeLoop]; [auto with incr|].
  incr_step 1. incr_skip. eapply (incr_bind _ 0).
  - destruct (_ =? CR).
    + incr_step 1. eapply (incr_bind _ 0); [eapply incr_weaken; [apply incr_expect|lia..]|]. intros _. by apply incr_ret.
    + destruct (_ =? NL); by apply incr_ret.
  - intros cnt'. destruct (cnt' =? 2); [by apply incr_ret|apply IH].
Qed.
Lemma incr_versionChars : incr 9 1 versionChars.
Proof.
  do 7 (eapply incr_bind; [by apply incr_expect_no_check|intros _; cbn]).
  eapply incr_bind; [by apply incr_peek|]. intros c. incr_skip.
  destruct (_ || _); [auto with incr|]. by apply incr_ret.
Qed.
Lemma incr_version : incr 0 1 parse_http_version.
Proof.
  intros m1 m2 e end1 buf a b Hm H0 Hb He. unfold parse_http_version.
  destruct (Z.ltb_spec (end1 - buf) 9); [done|]. destruct (Z.ltb_spec (e - buf) 9); [by right|].
  apply incr_versionChars; [done..|lia|done].
Qed.
Lemma incr_versionLine : incr 0 0 versionLine.
Proof.
  eapply incr_bind; [apply incr_version|]. intros minor. eapply incr_bind; [by apply incr_peek|]. intros c.
  destruct (c =? CR).
  - incr_skip. incr_step 0. by apply incr_ret.
  - destruct (c =? NL); [|auto with incr]. incr_skip. by apply incr_ret.
Qed.

(** The value of a header lies before the position behind it. *)
Lemma trimLoop_agree e m1 m2 n start end1 end2 buf :
  agree e m1 m2 -> 0 <= start -> start + Z.of_nat n <= e -> trimLoop n start m1 end1 buf = trimLoop n start m2 end2 buf.
Proof.
  intros Hm H0. induction n as [|n IH]; intros Hn; cbn [trimLoop]; [done|].
  rewrite (agree_aget e m1 m2) by (done || lia). destruct (aget m1 _) as [c|]; [|done]. cbn.
  destruct (isBlankByte c); [apply IH; lia|done].
Qed.
Lemma trimLoop_pos n start mem end_ buf len b : trimLoop n start mem end_ buf = Ok (PDone len b) -> b = buf.
Proof.
  induction n as [|n IH]; cbn [trimLoop]; [by intros [= _ <-]|].
  destruct (aget mem _) as [c|]; [|done]. cbn. destruct (isBlankByte c); [done|]. by intros [= _ <-].
Qed.
Lemma eol_range fuel mem end_ buf v b :
  get_token_to_eol fuel mem end_ buf = Ok (PDone v b) -> v.1 = buf /\ v.1 + v.2 <= b.
Proof.
  unfold get_token_to_eol. prun. destruct (ctlFast fuel mem end_ buf) as [[[] b1|]|]; [|done..].
  destruct (aget mem b1) as [c|]; [|done]. destruct (c =? CR).
  - destruct (_ =? end_); [done|]. destruct (aget mem (b1 + 1)) as [d|]; [|done].
    destruct (d =? NL); [|done]. intros [= <- <-]. cbn. lia.
  - destruct (c =? NL); [|done]. intros [= <- <-]. cbn. lia.
Qed.
Lemma incr_headerValue : incr 0 0 (headerValue N).
Proof.
  intros m1 m2 e end1 buf a b Hm H0 Hb He. unfold headerValue. cbv [mbind parser_bind]. cbv [mbind result_bind].
  destruct (get_token_to_eol N m1 end1 buf) as [[v b1|]|] eqn:E1; [|done..].
  destruct (trimLoop _ _ m1 end1 b1) as [[len b2|]|] eqn:E2; [|done..].
  pose proof (eol_range _ _ _ _ _ _ E1) as [Hv Hr]. intros [= <- <-].
  destruct (incr_eol m1 m2 e end1 buf v b1) as [(? & ? & ->)| ->]; [done..| |by right].
  rewrite <- (trimLoop_agree e m1 m2 _ _ end1) by (done || lia). rewrite E2.
  apply trimLoop_pos in E2 as ->. left. split_and!; [lia..|done].
Qed.
Lemma incr_headers room first : incr 0 0 (parse_headers N room first).
Proof.
  revert first. induction room as [|room IH]; intros first; cbn [parse_headers]; incr_step 1.
  all: match goal with |- context [?c =? CR] => destruct (c =? CR); [incr_skip; incr_step 0; by apply incr_ret|] end.
  all: match goal with |- context [?c =? NL] => destruct (c =? NL); [incr_skip; by apply incr_ret|] end.
  - auto with incr.
  - eapply (incr_bind _ 0).
    { apply (incr_weaken 0 1 0 0); [|lia..]. destruct (negb _); [|by apply incr_ret].
      eapply incr_bind; [apply incr_headerName|]. intros n. by apply incr_ret. }
    intros name. eapply incr_bind; [apply incr_headerValue|]. intros v.
    eapply incr_bind; [apply IH|]. intros rest. by apply incr_ret.
Qed.
Lemma incr_skipEmptyLine : incr 0 0 skipEmptyLine.
Proof.
  incr_step 1. destruct (_ =? CR); [incr_skip; auto with incr|].
  destruct (_ =? NL); [by apply incr_skip|]. eapply incr_weaken; [by apply (incr_ret 1)|lia..].
Qed.
(** The loop over spaces does not check for the end of what was received; it is safe when it
    ends before that. *)
Lemma incr_skipSpaces fuel m1 m2 e end1 end2 buf b :
  agree e m1 m2 -> 0 <= buf -> b < e ->
  skipSpaces fuel m1 end1 buf = Ok (PDone tt b) -> buf < b /\ skipSpaces fuel m2 end2 buf = Ok (PDone tt b).
Proof.
  intros Hm. revert buf. induction fuel as [|fuel IH]; intros buf H0 Hb; [done|]. cbn [skipSpaces].
  cbv [mbind parser_bind skip peek mret parser_ret]. cbv [mbind result_bind].
  destruct (aget m1 (buf + 1)) as [c|] eqn:E; [|done].
  destruct (c =? SP) eqn:Ec.
  - intros H. assert (buf + 1 < b) as Hlt.
    { clear -H. revert buf H. induction fuel as [|fuel IH]; intros buf; [done|]. cbn [skipSpaces].
      cbv [mbind parser_bind skip peek mret parser_ret]. cbv [mbind result_bind].
      destruct (aget m1 (buf + 1 + 1)); [|done]. destruct (_ =? SP).
      - intros H%IH. lia.
      - intros [= <-]. lia. }
    destruct (IH (buf + 1)) as [? ?]; [lia|done..|].
    rewrite (agree_aget e m1 m2), E, Ec by (done || lia). split; [lia|done].
  - intros [= <-]. rewrite (agree_aget e m1 m2), E, Ec by (done || lia). split; [lia|done].
Qed.
End Partial.

(** ** Complete requests *)

(** A request as a client writes it. *)
Record http_text := HttpText {
  t_method : list Z;
  t_path : list Z;
  t_minor : Z;
  t_headers : list (list Z * list Z);
}.
Definition CRLF : list Z := [CR; NL].
Definition headerText (h : list Z * list Z) : list Z := h.1 ++ [58; SP] ++ h.2 ++ CRLF.
Definition headersText (hs : list (list Z * list Z)) : list Z := concat (map headerText hs) ++ CRLF.
Definition versionText (minor : Z) : list Z := [72; 84; 84; 80; 47; 49; 46; 48 + minor] ++ CRLF.
Definition requestText (t : http_text) : list Z :=
  t_method t ++ [SP] ++ t_path t ++ [SP] ++ versionText (t_minor t) ++ headersText (t_headers t).

(** Bytes of a method or path: no space, no control character. *)
Definition isTokenByte (c : Z) : bool := (32 <? c) && negb (c =? 127).
Definition header_wf (h : list Z * list Z) : Prop :=
  h.1 <> [] /\ Forall (fun c => isTokenChar c = true) h.1
  /\ Forall (fun c => isCtl c = false) h.2
  /\ (forall c, head h.2 = Some c -> isBlankByte c = false)
  /\ (forall c, head (rev h.2) = Some c -> isBlankByte c = false).
Definition text_wf (t : http_text) : Prop :=
  t_method t <> [] /\ Forall (fun c => isTokenByte c = true) (t_method t)
  /\ t_path t <> [] /\ Forall (fun c => isTokenByte c = true) (t_path t)
  /\ 0 <= t_minor t <= 9 /\ Forall header_wf (t_headers t).

(** The text at a position of the buffer. *)
Definition At (mem : list Z) (buf : Z) (s : list Z) : Prop :=
  exists pre post, mem = pre ++ s ++ post /\ buf = Z.of_nat (length pre).
Lemma At_app mem buf s t : At mem buf (s ++ t) -> At mem buf s /\ At mem (buf + Z.of_nat (length s)) t.
Proof.
  intros (pre & post & -> & ->). split.
  - exists pre, (t ++ post). by rewrite <- app_assoc.
  - exists (pre ++ s), post. rewrite <- !app_assoc. split; [done|]. rewrite length_app. lia.
Qed.
Lemma At_cons mem buf c s : At mem buf (c :: s) -> aget mem buf = Ok c /\ At mem (buf + 1) s.
Proof.
  intros H. split; [|by apply (At_app mem buf [c] s)]. destruct H as (pre & post & -> & ->).
  apply aget_ok; [lia|]. rewrite Nat2Z.id. by apply list_lookup_middle.
Qed.
Lemma At_pos mem buf s : At mem buf s -> 0 <= buf /\ buf + Z.of_nat (length s) <= Z.of_nat (length mem).
Proof. intros (pre & post & -> & ->). rewrite !length_app. lia. Qed.
Lemma At_cut mem buf s : At mem buf s -> cut mem (buf, Z.of_nat (length s)) = s.
Proof.
  intros (pre & post & -> & ->). unfold cut. cbn. rewrite !Nat2Z.id, drop_app_length. apply take_app_length.
Qed.

(** There is more to read. *)
Ltac not_eof :=
  match goal with |- context [if ?x =? ?e then Ok (PErr (-2)) else _] => destruct (Z.eqb_spec x e); [lia|] end.

Lemma tokenLoop_run w r fuel mem end_ buf :
  At mem buf (w ++ SP :: r) -> Forall (fun c => isTokenByte c = true) w ->
  buf + Z.of_nat (length w) < end_ -> (length w < fuel)%nat ->
  tokenLoop fuel mem end_ buf = Ok (PDone tt (buf + Z.of_nat (length w))).
Proof.
  intros Ha Hw. revert fuel buf Ha. induction Hw as [|c w Hc Hw IH]; intros fuel buf Ha He Hf.
  all: destruct fuel as [|fuel]; [cbn in Hf; lia|]; cbn [tokenLoop]; prun; cbn [length] in *.
  all: destruct (Z.eqb_spec buf end_); [lia|]; apply At_cons in Ha as [-> Ha]; cbn [app] in *.
  - cbn. do 2 f_equal. lia.
  - unfold isTokenByte in Hc. b2p. destruct (Z.eqb_spec c SP); [unfold SP in *; lia|].
    destruct (Z.ltb_spec c 32); [lia|]. destruct (Z.eqb_spec c 127); [lia|]. rewrite andb_false_r.
    rewrite IH; [do 2 f_equal; lia|done|lia..].
Qed.
Lemma token_run w r fuel mem end_ buf :
  At mem buf (w ++ SP :: r) -> Forall (fun c => isTokenByte c = true) w ->
  buf + Z.of_nat (length w) < end_ -> (length w < fuel)%nat ->
  ADVANCE_TOKEN fuel mem end_ buf = Ok (PDone (buf, Z.of_nat (length w)) (buf + Z.of_nat (length w))).
Proof.
  intros Ha Hw He Hf. unfold ADVANCE_TOKEN. prun. rewrite (tokenLoop_run w r) by done.
  do 3 f_equal. lia.
Qed.
Lemma skipSpaces_run c r fuel mem end_ buf :
  At mem buf (SP :: c :: r) -> c <> SP -> (0 < fuel)%nat ->
  skipSpaces fuel mem end_ buf = Ok (PDone tt (buf + 1)).
Proof.
  intros Ha Hc Hf. destruct fuel as [|fuel]; [lia|]. cbn [skipSpaces]. prun.
  apply At_cons in Ha as [_ Ha]. apply At_cons in Ha as [-> _]. by destruct (Z.eqb_spec c SP).
Qed.
Lemma headerNameLoop_run w r fuel mem end_ buf :
  At mem buf (w ++ 58 :: r) -> Forall (fun c => isTokenChar c = true) w ->
  buf + Z.of_nat (length w) < end_ -> (length w < fuel)%nat ->
  headerNameLoop fuel mem end_ buf = Ok (PDone tt (buf + Z.of_nat (length w))).
Proof.
  intros Ha Hw. revert fuel buf Ha. induction Hw as [|c w Hc Hw IH]; intros fuel buf Ha He Hf.
  all: destruct fuel as [|fuel]; [cbn in Hf; lia|]; cbn [headerNameLoop]; prun; cbn [length] in *.
  all: destruct (Z.eqb_spec buf end_); [lia|]; apply At_cons in Ha as [-> Ha]; cbn [app] in *.
  - cbn. do 2 f_equal. lia.
  - destruct (Z.eqb_spec c 58) as [->|]; [by vm_compute in Hc|]. rewrite Hc. cbn [negb].
    rewrite IH; [do 2 f_equal; lia|done|lia..].
Qed.
Lemma ctlLoop_run w c r fuel mem end_ buf :
  At mem buf (w ++ c :: r) -> Forall (fun c => isCtl c = false) w -> isCtl c = true ->
  buf + Z.of_nat (length w) < end_ -> (length w < fuel)%nat ->
  ctlLoop fuel mem end_ buf = Ok (PDone tt (buf + Z.of_nat (length w))).
Proof.
  intros Ha Hw Hc. revert fuel buf Ha. induction Hw as [|d w Hd Hw IH]; intros fuel buf Ha He Hf.
  all: destruct fuel as [|fuel]; [cbn in Hf; lia|]; cbn [ctlLoop]; prun; cbn [length] in *.
  all: destruct (Z.eqb_spec buf end_); [lia|]; apply At_cons in Ha as [-> Ha]; cbn [app] in *.
  - rewrite Hc. assert (IS_PRINTABLE_ASCII c = false) as ->; [|cbn; do 2 f_equal; lia].
    unfold IS_PRINTABLE_ASCII, isCtl in *. destruct (Z.leb_spec 32 c), (Z.ltb_spec c 127); try done.
    destruct (Z.ltb_spec c 32); [lia|]. destruct (Z.eqb_spec c 127); [lia|done].
  - rewrite Hd, andb_false_r. rewrite IH; [do 2 f_equal; lia|done|lia..].
Qed.
Lemma versionLine_run minor r mem end_ buf :
  At mem buf (versionText minor ++ r) -> 0 <= minor <= 9 -> buf + 10 <= end_ ->
  versionLine mem end_ buf = Ok (PDone minor (buf + 10)).
Proof.
  intros Ha Hm He. unfold versionLine, parse_http_version, versionChars, PARSE_INT. prun.
  destruct (Z.ltb_spec (end_ - buf) 9); [lia|]. unfold versionText, CRLF in Ha. cbn [app] in Ha.
  do 8 (apply At_cons in Ha as [-> Ha]; cbn beta match; rewrite ?Z.eqb_refl).
  destruct (Z.ltb_spec (48 + minor) 48); [lia|]. destruct (Z.ltb_spec 57 (48 + minor)); [lia|]. cbn [orb].
  apply At_cons in Ha as [-> Ha]. cbn beta match. rewrite Z.eqb_refl.
  not_eof. apply At_cons in Ha as [-> Ha]. cbn beta match. rewrite Z.eqb_refl.
  do 2 f_equal; lia.
Qed.
Lemma trimLoop_run v r mem end_ start buf :
  At mem start (v ++ r) -> (forall c, head (rev v) = Some c -> isBlankByte c = false) ->
  trimLoop (length v) start mem end_ buf = Ok (PDone (Z.of_nat (length v)) buf).
Proof.
  intros Ha Hl. destruct (rev v) as [|c t] eqn:E.
  { apply (f_equal (@rev _)) in E. rewrite rev_involutive in E. by subst. }
  apply (f_equal (@rev _)) in E. rewrite rev_involutive in E. cbn in E. subst v.
  rewrite length_app. cbn [length]. replace (length (rev t) + 1)%nat with (S (length (rev t))) by lia.
  cbn [trimLoop]. rewrite <- app_assoc in Ha. apply At_app in Ha as [_ Ha]. apply At_cons in Ha as [-> _].
  cbn. by rewrite (Hl c).
Qed.
Lemma headerValue_run v r fuel mem end_ buf :
  At mem buf (v ++ CRLF ++ r) -> Forall (fun c => isCtl c = false) v ->
  (forall c, head (rev v) = Some c -> isBlankByte c = false) ->
  buf + Z.of_nat (length v) + 2 <= end_ -> end_ - buf < Z.of_nat fuel ->
  headerValue fuel mem end_ buf = Ok (PDone (buf, Z.of_nat (length v)) (buf + Z.of_nat (length v) + 2)).
Proof.
  intros Ha Hv Hl He Hf. unfold headerValue, get_token_to_eol. prun.
  rewrite (ctlFast_eq fuel fuel), (ctlLoop_run v CR (NL :: r)) by (done || lia).
  pose proof Ha as [_ Hc]%At_app. cbn [CRLF app] in Hc. apply At_cons in Hc as [-> Hc].
  cbn beta match. rewrite Z.eqb_refl. not_eof. apply At_cons in Hc as [-> _]. cbn beta match.
  rewrite Z.eqb_refl. cbn [fst snd].
  replace (Z.to_nat _) with (length v) by lia. erewrite trimLoop_run by done.
  do 2 f_equal; lia.
Qed.
Lemma headerName_run w c r fuel mem end_ buf :
  At mem buf (w ++ 58 :: SP :: c :: r) -> w <> [] -> Forall (fun c => isTokenChar c = true) w ->
  isBlankByte c = false -> buf + Z.of_nat (length w) + 2 < end_ -> end_ - buf < Z.of_nat fuel ->
  headerName fuel mem end_ buf = Ok (PDone (buf, Z.of_nat (length w)) (buf + Z.of_nat (length w) + 2)).
Proof.
  intros Ha Hne Hw Hc He Hf. unfold headerName. prun. rewrite (headerNameLoop_run w (SP :: c :: r)) by (done || lia).
  destruct (Z.eqb_spec (buf + Z.of_nat (length w) - buf) 0); [destruct w; [done|cbn in *; lia]|].
  apply At_app in Ha as [_ Ha]. apply At_cons in Ha as [_ Ha].
  destruct fuel as [|[|fuel]]; [cbn in *; lia..|]. cbn [blankLoop]. prun.
  not_eof. apply At_cons in Ha as [-> Ha]. change (isBlankByte SP) with true. cbn beta match.
  not_eof. apply At_cons in Ha as [-> _].
  rewrite Hc. do 2 f_equal; [f_equal|]; lia.
Qed.

Definition headerContent (mem : list Z) (h : phr_header) : list Z * list Z :=
  (match h_name h with Some n => cut mem n | None => [] end, cut mem (h_value h)).
Definition requestContent (mem : list Z) (r : request) : http_text :=
  HttpText (cut mem (r_method r)) (cut mem (r_path r)) (r_minor r) (map (headerContent mem) (r_headers r)).

Lemma tokenChar_first c : isTokenChar c = true -> c <> CR /\ c <> NL /\ isBlankByte c = false.
Proof.
  intros H. split_and!; [intros ->; by vm_compute in H..|]. unfold isBlankByte.
  destruct (Z.eqb_spec c 32) as [->|]; [by vm_compute in H|]. destruct (Z.eqb_spec c 9) as [->|]; [by vm_compute in H|done].
Qed.
Lemma headers_run hs fuel mem end_ : forall room first buf r,
  At mem buf (headersText hs ++ r) -> Forall header_wf hs -> (length hs <= room)%nat ->
  buf + Z.of_nat (length (headersText hs)) <= end_ -> end_ - buf < Z.of_nat fuel ->
  exists l, parse_headers fuel room first mem end_ buf = Ok (PDone l (buf + Z.of_nat (length (headersText hs))))
    /\ map (headerContent mem) l = hs.
Proof.
  induction hs as [|[n v] hs IH]; intros room first buf r Ha Hw Hr He Hf.
  { exists []. split; [|done]. unfold headersText, CRLF in *. cbn in He, Ha |- *.
    apply At_cons in Ha as [E1 Ha]. apply At_cons in Ha as [E2 _].
    destruct room; cbn [parse_headers]; prun; not_eof; rewrite E1, Z.eqb_refl;
      not_eof; rewrite E2, Z.eqb_refl; do 2 f_equal; lia. }
  apply list.Forall_cons in Hw as [(Hne & Hn & Hv & Hvf & Hvl) Hw]. cbn [fst snd] in *.
  destruct room as [|room]; [cbn in Hr; lia|]. cbn in Hr.
  assert (headersText ((n, v) :: hs) = n ++ 58 :: SP :: v ++ CRLF ++ headersText hs) as Et.
  { unfold headersText, headerText. cbn [map concat fst snd]. by rewrite <- !app_assoc. }
  rewrite Et in *. clear Et. rewrite !length_app in *. cbn [length] in *. rewrite !length_app in *. cbn [length CRLF] in *.
  destruct n as [|c n]; [done|]. pose proof Hn as [Hc _]%list.Forall_cons.
  apply tokenChar_first in Hc as (Hc1 & Hc2 & Hc3). cbn [parse_headers]. prun.
  rewrite <- app_assoc in Ha. cbn [app] in Ha. rewrite <- !app_assoc in Ha.
  pose proof Ha as [E1 _]%At_cons. not_eof. rewrite E1.
  destruct (Z.eqb_spec c CR); [done|]. destruct (Z.eqb_spec c NL); [done|]. rewrite Hc3, andb_false_r. cbn [negb].
  assert (exists d r', v ++ CRLF ++ headersText hs ++ r = d :: r' /\ isBlankByte d = false) as (d & r' & Ed & Hd).
  { destruct v as [|d v]; [by exists CR; eexists|]. exists d. eexists. split; [done|]. by apply Hvf. }
  assert (At mem buf ((c :: n) ++ 58 :: SP :: d :: r')) as Ha' by by rewrite <- Ed.
  rewrite (headerName_run (c :: n) d r') by (done || (cbn [length] in *; lia)).
  change (c :: n ++ ?x) with ((c :: n) ++ x) in Ha. apply At_app in Ha as [Han Ha].
  apply At_cons in Ha as [_ Ha]. apply At_cons in Ha as [_ Ha].
  replace (buf + Z.of_nat (length (c :: n)) + 1 + 1) with (buf + Z.of_nat (length (c :: n)) + 2) in Ha by lia.
  cbn [length] in *. rewrite (headerValue_run v (headersText hs ++ r)) by (done || lia).
  pose proof Ha as [Hav [_ Hrest]%At_app]%At_app. cbn [length CRLF] in Hrest.
  destruct (IH room false _ r Hrest Hw) as (l & El & Hl); [lia..|].
  replace (buf + Z.of_nat (S (length n)) + 2 + Z.of_nat (length v) + 2) with
    (buf + Z.of_nat (S (length n)) + 2 + Z.of_nat (length v) + Z.of_nat 2) by lia.
  rewrite El. eexists. split; [do 2 f_equal; lia|]. cbn [map headerContent h_name h_value].
  unfold headerContent at 1. cbn [h_name h_value].
  rewrite Hl. f_equal. f_equal; [exact (At_cut mem buf (c :: n) Han)|exact (At_cut mem _ v Hav)].
Qed.
Lemma tokenByte_first c : isTokenByte c = true -> c <> CR /\ c <> NL /\ c <> SP.
Proof. unfold isTokenByte, CR, NL, SP. intros H. b2p. lia. Qed.
Lemma skipEmptyLine_run c r mem end_ buf :
  At mem buf (c :: r) -> c <> CR -> c <> NL -> buf < end_ -> skipEmptyLine mem end_ buf = Ok (PDone tt buf).
Proof.
  intros Ha H1 H2 He. unfold skipEmptyLine. prun. not_eof. apply At_cons in Ha as [-> _].
  destruct (Z.eqb_spec c CR); [done|]. by destruct (Z.eqb_spec c NL).
Qed.
Lemma requestText_length t :
  Z.of_nat (length (requestText t)) = Z.of_nat (length (t_method t)) + 1 + Z.of_nat (length (t_path t)) + 1
    + 10 + Z.of_nat (length (headersText (t_headers t))).
Proof. unfold requestText, versionText, CRLF. rewrite !length_app. cbn. lia. Qed.

(** The request line: where each part of it ends. *)
Lemma requestLine_run t r fuel mem end_ :
  At mem 0 (requestText t ++ r) -> text_wf t -> Z.of_nat (length (requestText t)) <= end_ ->
  end_ < Z.of_nat fuel ->
  let m := Z.of_nat (length (t_method t)) in let p := Z.of_nat (length (t_path t)) in
  skipEmptyLine mem end_ 0 = Ok (PDone tt 0)
  /\ ADVANCE_TOKEN fuel mem end_ 0 = Ok (PDone (0, m) m)
  /\ skipSpaces fuel mem end_ m = Ok (PDone tt (m + 1))
  /\ ADVANCE_TOKEN fuel mem end_ (m + 1) = Ok (PDone (m + 1, p) (m + 1 + p))
  /\ skipSpaces fuel mem end_ (m + 1 + p) = Ok (PDone tt (m + 1 + p + 1))
  /\ versionLine mem end_ (m + 1 + p + 1) = Ok (PDone (t_minor t) (m + 1 + p + 1 + 10))
  /\ At mem (m + 1 + p + 1 + 10) (headersText (t_headers t) ++ r)
  /\ cut mem (0, m) = t_method t /\ cut mem (m + 1, p) = t_path t.
Proof.
  intros Ha (Hm & Hmt & Hp & Hpt & Hv & _) He Hf m p. rewrite requestText_length in He.
  unfold requestText in Ha. rewrite <- !app_assoc in Ha. cbn [app] in Ha.
  pose proof Ha as [Hma Ha1]%At_app. pose proof Ha1 as [_ Ha2]%At_cons.
  pose proof Ha2 as [Hpa Ha3]%At_app. pose proof Ha3 as [_ Ha4]%At_cons.
  fold m in Ha1, Ha2, Hpa, Ha3, Ha4. fold p in Ha3, Ha4. cbn [Z.add] in *.
  destruct (t_method t) as [|c mt] eqn:Em; [done|]. destruct (t_path t) as [|d pt] eqn:Ep; [done|].
  pose proof Hmt as [Hc _]%list.Forall_cons. pose proof Hpt as [Hd _]%list.Forall_cons.
  apply tokenByte_first in Hc as (Hc1 & Hc2 & _). apply tokenByte_first in Hd as (_ & _ & Hd3).
  split_and!.
  - eapply skipEmptyLine_run; [exact Ha|done..|lia].
  - by eapply token_run; [exact Ha|done|lia..].
  - by eapply skipSpaces_run; [exact Ha1|done|lia].
  - by eapply token_run; [exact Ha2|done|lia..].
  - eapply skipSpaces_run; [exact Ha3|done|lia].
  - eapply versionLine_run; [exact Ha4|done|lia].
  - by pose proof Ha4 as [_ ?]%At_app.
  - by apply At_cut.
  - by apply At_cut.
Qed.
(** Where the path of a request is. *)
Definition pathAt (t : http_text) : string_t :=
  (Z.of_nat (length (t_method t)) + 1, Z.of_nat (length (t_path t))).
Lemma parse_request_run t r fuel max mem end_ :
  At mem 0 (requestText t ++ r) -> text_wf t -> Z.of_nat (length (requestText t)) <= end_ ->
  end_ < Z.of_nat fuel -> (length (t_headers t) <= max)%nat ->
  exists rq, parse_request fuel max mem end_ 0 = Ok (PDone rq (Z.of_nat (length (requestText t))))
    /\ requestContent mem rq = t /\ r_path rq = pathAt t.
Proof.
  intros Ha Hw He Hf Hmax.
  destruct (requestLine_run t r fuel mem end_ Ha Hw He Hf) as (E1 & E2 & E3 & E4 & E5 & E6 & Hh & C1 & C2).
  pose proof Hw as (Hm & _ & Hp & _ & _ & Hhw). pose proof (requestText_length t) as Hl.
  destruct (headers_run (t_headers t) fuel mem end_ max true _ r Hh Hhw Hmax) as (l & E7 & C3); [lia..|].
  unfold parse_request. prun. rewrite E1, E2, E3, E4, E5. cbn [snd].
  destruct (Z.eqb_spec (Z.of_nat (length (t_method t))) 0); [destruct (t_method t); [done|cbn in *; lia]|].
  destruct (Z.eqb_spec (Z.of_nat (length (t_path t))) 0); [destruct (t_path t); [done|cbn in *; lia]|].
  cbn [orb]. rewrite E6, E7. eexists. split; [do 2 f_equal; lia|].
  split; [|done]. unfold requestContent. cbn [r_method r_path r_minor r_headers]. rewrite C1, C2, C3. by destruct t.
Qed.

(** ** The end of a request *)

Definition plain (c : Z) : Prop := c <> CR /\ c <> NL.
(** The lines of a request, without their ends. *)
Definition requestLines (t : http_text) : list (list Z) :=
  (t_method t ++ [SP] ++ t_path t ++ [SP] ++ [72; 84; 84; 80; 47; 49; 46; 48 + t_minor t])
  :: map (fun h => h.1 ++ [58; SP] ++ h.2) (t_headers t).
Definition linesText (ls : list (list Z)) : list Z := concat (map (fun l => l ++ CRLF) ls) ++ CRLF.
Definition line_wf (l : list Z) : Prop := l <> [] /\ Forall plain l.

Lemma requestLines_text t : requestText t = linesText (requestLines t).
Proof.
  unfold requestText, linesText, requestLines, versionText, headersText. cbn [map concat].
  rewrite map_map. replace (map (fun h => (h.1 ++ [58; SP] ++ h.2) ++ CRLF) (t_headers t)) with (map headerText (t_headers t)).
  - by rewrite <- !app_assoc.
  - apply map_ext. intros h. unfold headerText. by rewrite <- !app_assoc.
Qed.
Lemma tokenBytes_plain l : Forall (fun c => isTokenByte c = true) l -> Forall plain l.
Proof. intros Hl. eapply list.Forall_impl; [exact Hl|]. intros c Hc. apply tokenByte_first in Hc as (? & ? & _). done. Qed.
Lemma requestLines_wf t : text_wf t -> Forall line_wf (requestLines t).
Proof.
  intros (Hm & Hmt & Hp & Hpt & Hv & Hh). constructor.
  - split; [by destruct (t_method t)|].
    rewrite !list.Forall_app. split_and!; [by apply tokenBytes_plain|by repeat constructor|by apply tokenBytes_plain|by repeat constructor|].
    unfold plain, CR, NL. repeat (constructor; [lia|]). constructor.
  - induction Hh as [|[n v] hs (Hne & Hn & Hc & _) _ IH]; [constructor|]. constructor; [|done].
    cbn [fst snd] in *. split; [by destruct n|]. rewrite !list.Forall_app. split_and!.
    + eapply list.Forall_impl; [exact Hn|]. intros c H%tokenChar_first. split; apply H.
    + unfold plain, CR, NL, SP. repeat (constructor; [lia|]). constructor.
    + eapply list.Forall_impl; [exact Hc|]. intros c H. split; intros ->; done.
Qed.

Lemma linesText_cons l ls : linesText (l :: ls) = l ++ CRLF ++ linesText ls.
Proof. unfold linesText. cbn. by rewrite <- !app_assoc. Qed.
Lemma linesText_length ls : (2 <= length (linesText ls))%nat.
Proof. unfold linesText. rewrite length_app. cbn. lia. Qed.

Lemma complete_plain c s f cnt mem end_ buf :
  At mem buf (c :: s) -> plain c -> buf < end_ ->
  completeLoop (S f) cnt mem end_ buf = completeLoop f 0 mem end_ (buf + 1).
Proof.
  intros Ha [Hc1 Hc2] He. cbn [completeLoop]. prun. not_eof. apply At_cons in Ha as [-> _].
  destruct (Z.eqb_spec c CR); [done|]. by destruct (Z.eqb_spec c NL).
Qed.
Lemma complete_crlf s f cnt mem end_ buf :
  At mem buf (CRLF ++ s) -> buf + 2 <= end_ ->
  completeLoop (S f) cnt mem end_ buf =
    if cnt + 1 =? 2 then Ok (PDone tt (buf + 2)) else completeLoop f (cnt + 1) mem end_ (buf + 2).
Proof.
  intros Ha He. cbn [completeLoop]. prun. apply At_cons in Ha as [E1 Ha]. apply At_cons in Ha as [E2 _].
  not_eof. rewrite E1, Z.eqb_refl. do 2 not_eof. rewrite E2, Z.eqb_refl.
  replace (buf + 1 + 1) with (buf + 2) by lia. by destruct (_ =? 2).
Qed.
Lemma complete_nl s f mem end_ buf :
  At mem buf (NL :: s) -> buf < end_ ->
  completeLoop (S f) 0 mem end_ buf = completeLoop f 1 mem end_ (buf + 1).
Proof. intros Ha He. cbn [completeLoop]. prun. not_eof. by apply At_cons in Ha as [-> _]. Qed.

(** From inside a line, the search stops behind the empty line. *)
Lemma complete_line ls mem end_ r : forall l fuel cnt buf,
  At mem buf (l ++ CRLF ++ linesText ls ++ r) -> Forall plain l -> Forall line_wf ls ->
  cnt = 0 \/ (cnt = 1 /\ l <> []) ->
  buf + Z.of_nat (length l) + 2 + Z.of_nat (length (linesText ls)) <= end_ -> end_ - buf < Z.of_nat fuel ->
  completeLoop fuel cnt mem end_ buf
  = Ok (PDone tt (buf + Z.of_nat (length l) + 2 + Z.of_nat (length (linesText ls)))).
Proof.
  induction ls as [|l1 ls IH]; induction l as [|c l IHl]; intros fuel cnt buf Ha Hl Hls Hcnt He Hf.
  all: destruct fuel as [|fuel]; [lia|]; cbn [length] in *.
  2,4: apply list.Forall_cons in Hl as [Hc Hl]; pose proof Ha as [_ Ha1]%At_cons;
       erewrite complete_plain; [|exact Ha|done|lia]; rewrite IHl; [do 2 f_equal; lia|done..|by left|lia|lia].
  all: destruct Hcnt as [->|[_ ?]]; [|done]; cbn [app] in Ha.
  all: erewrite complete_crlf by (exact Ha || lia); cbn [Z.add Z.eqb Pos.eqb];
    pose proof Ha as [_ Ha1]%At_app; cbn [length CRLF Z.of_nat] in Ha1.
  - unfold linesText in *. cbn [map concat app] in *. destruct fuel as [|fuel]; [cbn in *; lia|].
    erewrite complete_crlf by (exact Ha1 || (cbn in *; lia)). cbn. do 2 f_equal. lia.
  - rewrite linesText_cons in *. apply list.Forall_cons in Hls as [[Hne Hl1] Hls].
    rewrite !length_app in *. cbn [length CRLF] in *. rewrite <- !app_assoc in Ha1.
    rewrite (IH l1); [do 2 f_equal; lia|exact Ha1|done..|by right|lia|lia].
Qed.

(** Every place of a request is inside a line or between the two bytes that end one. *)
Lemma drop_lines ls i :
  Forall line_wf ls -> ls <> [] -> (i + 4 <= length (linesText ls))%nat ->
  (exists l ls', drop i (linesText ls) = l ++ CRLF ++ linesText ls' /\ Forall plain l /\ Forall line_wf ls')
  \/ (exists ls', drop i (linesText ls) = NL :: linesText ls' /\ Forall line_wf ls').
Proof.
  intros Hls. revert i. induction Hls as [|l ls [Hne Hl] Hls IH]; intros i Hn Hi; [done|].
  rewrite linesText_cons in *. rewrite !length_app in Hi. cbn [length CRLF] in Hi.
  destruct (decide (i <= length l)%nat) as [Hil|Hil].
  { left. exists (drop i l), ls. split_and!; [|by apply Forall_drop|done]. by rewrite drop_app_le. }
  rewrite drop_app_ge by lia. destruct (decide (i = S (length l))) as [->|].
  { right. exists ls. replace (S (length l) - length l)%nat with 1%nat by lia. done. }
  rewrite drop_app_ge by (cbn; lia). destruct ls as [|l2 ls].
  { unfold linesText in Hi. cbn in Hi. lia. }
  apply IH; [done|]. cbn [length CRLF]. lia.
Qed.
Lemma is_complete_run t r fuel mem end_ last_len :
  At mem 0 (requestText t ++ r) -> text_wf t -> Z.of_nat (length (requestText t)) <= end_ ->
  end_ < Z.of_nat fuel -> 0 <= last_len < Z.of_nat (length (requestText t)) ->
  is_complete fuel last_len mem end_ 0 = Ok (PDone tt (Z.of_nat (length (requestText t)))).
Proof.
  intros Ha Hw He Hf Hlast. unfold is_complete. pose proof (requestLines_wf t Hw) as Hls.
  assert (length (requestText t) = length (linesText (requestLines t))) as Hlen by by rewrite requestLines_text.
  set (start := if last_len <? 3 then 0 else 0 + last_len - 3).
  assert (4 <= length (linesText (requestLines t)))%nat as H4.
  { unfold requestLines. rewrite linesText_cons, !length_app. pose proof (linesText_length (map (fun h => h.1 ++ [58; SP] ++ h.2) (t_headers t))). cbn. lia. }
  assert (0 <= start /\ (Z.to_nat start + 4 <= length (linesText (requestLines t)))%nat) as [Hs0 Hs4].
  { unfold start. destruct (Z.ltb_spec last_len 3); lia. }
  clearbody start.
  assert (At mem start (drop (Z.to_nat start) (requestText t) ++ r)) as Hat.
  { rewrite <- (take_drop (Z.to_nat start) (requestText t)), <- app_assoc in Ha. apply At_app in Ha as [_ Ha].
    rewrite length_take in Ha. by replace (0 + _) with start in Ha by lia. }
  rewrite requestLines_text in Hat, He |- *.
  assert (length (drop (Z.to_nat start) (linesText (requestLines t))) = (length (linesText (requestLines t)) - Z.to_nat start)%nat) as Hd
    by apply length_drop.
  destruct (drop_lines _ (Z.to_nat start) Hls) as [(l & ls & E & Hl & Hls')|(ls & E & Hls')]; [done..| |].
  - rewrite E in *. rewrite <- !app_assoc in Hat. rewrite !length_app in Hd. cbn [length CRLF] in Hd.
    rewrite (complete_line ls mem end_ r l); [do 2 f_equal; lia|exact Hat|done..|by left|lia|lia].
  - rewrite E in *. cbn [length app] in *. destruct fuel as [|fuel]; [lia|]. erewrite complete_nl by (exact Hat || lia).
    apply At_cons in Hat as [_ Hat]. destruct ls as [|l1 ls].
    + change (length (linesText [])) with 2%nat in Hd. lia.
    + rewrite linesText_cons in *. rewrite <- !app_assoc in Hat. rewrite !length_app in Hd. cbn [length CRLF] in Hd.
      apply list.Forall_cons in Hls' as [[Hne Hl1] Hls'].
      rewrite (complete_line ls mem end_ r l1); [do 2 f_equal; lia|exact Hat|done..|by right|lia|lia].
Qed.

(** ** Requests that arrive in parts *)

(** The buffer when the first [e] bytes of a request have arrived. *)
Definition received (t : http_text) (e : Z) (mem : list Z) : Prop :=
  (0 <= e <= Z.of_nat (length (requestText t)) /\ (length (requestText t) <= length mem)%nat)
  /\ take (Z.to_nat e) mem = take (Z.to_nat e) (requestText t).
(** The buffer as it will be when all has arrived. *)
Definition completed (t : http_text) (mem : list Z) : list Z :=
  requestText t ++ drop (length (requestText t)) mem.

Lemma completed_agree t e mem : received t e mem -> agree e (completed t mem) mem.
Proof.
  intros [Hl Ht]. split.
  - unfold completed. rewrite length_app, length_drop. lia.
  - intros i Hi. unfold completed. rewrite lookup_app_l by lia.
    rewrite <- (lookup_take_lt (requestText t) (Z.to_nat e)) by lia.
    rewrite <- Ht. apply lookup_take_lt. lia.
Qed.
Lemma completed_at t mem : At (completed t mem) 0 (requestText t ++ drop (length (requestText t)) mem).
Proof. exists [], []. by rewrite app_nil_r. Qed.
Lemma completed_length t e mem : received t e mem -> length (completed t mem) = length mem.
Proof. intros H. by apply (completed_agree t e mem). Qed.

(** The places where the parser looks at a byte that has not arrived: behind the space that
    follows the method, and behind the one that follows the path. *)
Definition unsafeCut (t : http_text) (e : Z) : Prop :=
  e = Z.of_nat (length (t_method t)) + 1
  \/ e = Z.of_nat (length (t_method t)) + 1 + Z.of_nat (length (t_path t)) + 1.

Lemma partial_request t e mem max :
  text_wf t -> received t e mem -> e < Z.of_nat (length (requestText t)) -> ~ unsafeCut t e ->
  (length (t_headers t) <= max)%nat ->
  parse_request (S (length mem)) max mem e 0 = Ok (PErr (-2)).
Proof.
  intros Hw Hrec Hlt Hcut Hmax. set (N := S (length mem)). set (m1 := completed t mem).
  set (L := Z.of_nat (length (requestText t))) in *.
  pose proof (completed_agree t e mem Hrec) as Hag. pose proof (completed_length t e mem Hrec) as Hlen.
  fold m1 in Hag, Hlen. destruct Hrec as [[[H0 _] HL] _].
  destruct (requestLine_run t _ N m1 L (completed_at t mem) Hw) as (E1 & E2 & E3 & E4 & E5 & E6 & Hh & _); [lia..|].
  pose proof Hw as (Hm & _ & Hp & _ & _ & Hhw). pose proof (requestText_length t) as Hl. fold L in Hl.
  destruct (headers_run (t_headers t) N m1 L max true _ _ Hh Hhw Hmax) as (l & E7 & _); [lia..|].
  set (m := Z.of_nat (length (t_method t))) in *. set (p := Z.of_nat (length (t_path t))) in *.
  assert (Hb : e <= L <= Z.of_nat (length m1) /\ (length m1 < N)%nat) by lia.
  unfold parse_request. prun.
  destruct (incr_skipEmptyLine N m1 mem e L 0 tt 0) as [(_ & _ & ->)| ->]; [done..|lia|done|done| |done].
  destruct (incr_token N N m1 mem e L 0 (0, m) m) as [(_ & H1 & ->)| ->]; [done..|lia|done|done| |done].
  unfold unsafeCut in Hcut. fold m p in Hcut.
  destruct (incr_skipSpaces N m1 mem e L e m (m + 1)) as [_ ->]; [done|lia|lia|done|].
  destruct (incr_token N N m1 mem e L (m + 1) (m + 1, p) (m + 1 + p)) as [(_ & H2 & ->)| ->]; [done|lia|lia|done|done| |done].
  destruct (incr_skipSpaces N m1 mem e L e (m + 1 + p) (m + 1 + p + 1)) as [_ ->]; [done|lia|lia|done|].
  cbn [snd]. destruct (Z.eqb_spec m 0); [destruct (t_method t); [done|cbn in *; lia]|].
  destruct (Z.eqb_spec p 0); [destruct (t_path t); [done|cbn in *; lia]|]. cbn [orb].
  destruct (incr_versionLine N m1 mem e L (m + 1 + p + 1) (t_minor t) (m + 1 + p + 1 + 10) Hag) as [(_ & H3 & ->)| ->]; [lia|lia|done|exact E6| |done].
  destruct (incr_headers N max true m1 mem e L (m + 1 + p + 1 + 10) l L Hag) as [(_ & H4 & _)| ->];
    [lia|lia|done|by rewrite E7, Hl|lia|done].
Qed.
Lemma partial_complete t e mem last_len :
  text_wf t -> received t e mem -> e < Z.of_nat (length (requestText t)) -> 0 < last_len <= e ->
  is_complete (S (length mem)) last_len mem e 0 = Ok (PErr (-2)).
Proof.
  intros Hw Hrec Hlt Hlast. set (N := S (length mem)). set (m1 := completed t mem).
  set (L := Z.of_nat (length (requestText t))) in *.
  pose proof (completed_agree t e mem Hrec) as Hag. pose proof (completed_length t e mem Hrec) as Hlen.
  fold m1 in Hag, Hlen. destruct Hrec as [[[H0 _] HL] _].
  pose proof (is_complete_run t _ N m1 L last_len (completed_at t mem) Hw) as E.
  specialize (E ltac:(lia) ltac:(lia) ltac:(lia)). fold L in E. unfold is_complete in *.
  set (start := if last_len <? 3 then 0 else 0 + last_len - 3) in *.
  assert (0 <= start <= last_len) as Hs by (unfold start; destruct (Z.ltb_spec last_len 3); lia). clearbody start.
  destruct (incr_completeLoop N N 0 m1 mem e L start tt L Hag) as [(_ & ? & _)| ->]; [lia|lia|lia|done|lia|done].
Qed.

Lemma request_complete t r e max last_len :
  text_wf t -> (length (t_headers t) <= max)%nat -> 0 <= last_len < Z.of_nat (length (requestText t)) ->
  Z.of_nat (length (requestText t)) <= e <= Z.of_nat (length (requestText t ++ r)) ->
  exists rq, phr_parse_request (requestText t ++ r) e max last_len = Ok (PDone rq (Z.of_nat (length (requestText t))))
    /\ requestContent (requestText t ++ r) rq = t /\ r_path rq = pathAt t.
Proof.
  intros Hw Hmax Hl He. unfold phr_parse_request.
  assert (At (requestText t ++ r) 0 (requestText t ++ r)) as Ha by (exists [], []; by rewrite app_nil_r).
  destruct (parse_request_run t r (S (length (requestText t ++ r))) max _ e Ha Hw) as (rq & -> & Hc); [lia..|done|].
  exists rq. split; [|done]. destruct (last_len =? 0); [done|].
  by rewrite (is_complete_run t r) by (done || lia).
Qed.
Lemma request_incomplete t mem e max last_len :
  text_wf t -> (length (t_headers t) <= max)%nat -> 0 <= last_len <= e ->
  received t e mem -> e < Z.of_nat (length (requestText t)) -> last_len <> 0 \/ ~ unsafeCut t e ->
  phr_parse_request mem e max last_len = Ok (PErr (-2)).
Proof.
  intros Hw Hmax Hlast Hrec Hlt Hor. unfold phr_parse_request. destruct (Z.eqb_spec last_len 0) as [->|].
  - apply (partial_request t); try done. by destruct Hor.
  - by rewrite (partial_complete t) by (done || lia).
Qed.

(** C31. HTTP requests are recognised when they are complete.  For every well-formed
    request with at most as many headers as there is room for, and any bytes behind it, the parser returns its length, and the method,
    path, version and headers it reports are those of the request, also when an
    earlier call saw only a part of it.  While a part is missing it asks for more, on every later call and on a first call
    with a part that does not end with the space behind the method or the one behind the path; after such a part the first
    call reads a byte that has not arrived ([partial_request_overread]). *)
Theorem http_request_parsed t mem e max last_len :
  text_wf t -> (length (t_headers t) <= max)%nat -> 0 <= last_len <= e ->
  (forall r, mem = requestText t ++ r -> Z.of_nat (length (requestText t)) <= e <= Z.of_nat (length mem) ->
     last_len < Z.of_nat (length (requestText t)) ->
     exists rq, phr_parse_request mem e max last_len = Ok (PDone rq (Z.of_nat (length (requestText t))))
       /\ requestContent mem rq = t)
  /\ (received t e mem -> e < Z.of_nat (length (requestText t)) -> last_len <> 0 \/ ~ unsafeCut t e ->
      phr_parse_request mem e max last_len = Ok (PErr (-2))).
Proof.
  intros Hw Hmax Hlast. split.
  - intros r -> He Hl. destruct (request_complete t r e max last_len) as (rq & ? & ? & _); [done..|lia|done|].
    by exists rq.
  - by apply request_incomplete.
Qed.

Definition ascii_bytes (s : string) : list Z := map (fun c => Z.of_N (N_of_ascii c)) (String.list_ascii_of_string s).
Definition demoRequest : http_text :=
  HttpText (ascii_bytes "GET") (ascii_bytes "/query?q=stats") 1
    [(ascii_bytes "Host", ascii_bytes "localhost:5003"); (ascii_bytes "Connection", ascii_bytes "close")].
Definition header_wfb (h : list Z * list Z) : bool :=
  bool_decide (h.1 <> []) && forallb isTokenChar h.1 && forallb (fun c => negb (isCtl c)) h.2
  && negb (default false (isBlankByte <$> head h.2)) && negb (default false (isBlankByte <$> head (rev h.2))).
Lemma header_wfb_ok h : header_wfb h = true -> header_wf h.
Proof.
  unfold header_wfb. rewrite !andb_true_iff, !negb_true_iff, !forallb_forall, bool_decide_eq_true.
  intros [[[[Hn Ht] Hc] Hf] Hl]. split_and!; [done|..].
  - apply list.Forall_forall. intros c Hx%list_elem_of_In. by apply Ht.
  - apply list.Forall_forall. intros c Hx%list_elem_of_In. by apply negb_true_iff, Hc.
  - intros c Hx. by rewrite Hx in Hf.
  - intros c Hx. by rewrite Hx in Hl.
Qed.
Lemma demoRequest_wf : text_wf demoRequest.
Proof.
  split_and!; try done; try (by apply (bool_decide_unpack _)).
  repeat (constructor; [by apply header_wfb_ok|]). constructor.
Qed.

(** The request followed by the start of another, and a part of it. *)
Lemma http_request_parsed_witness :
  (exists rq, phr_parse_request (requestText demoRequest ++ ascii_bytes "GET ") 76 100 0 = Ok (PDone rq 72)
     /\ requestContent (requestText demoRequest ++ ascii_bytes "GET ") rq = demoRequest)
  /\ phr_parse_request (requestText demoRequest) 40 100 0 = Ok (PErr (-2))
  /\ phr_parse_request (requestText demoRequest) 60 100 40 = Ok (PErr (-2)).
Proof.
  split_and!.
  - destruct (http_request_parsed demoRequest (requestText demoRequest ++ ascii_bytes "GET ") 76 100 0) as [H _];
      [apply demoRequest_wf|cbn; lia|lia|].
    apply (H (ascii_bytes "GET ")); [done|vm_compute; split; congruence|vm_compute; congruence].
  - apply (http_request_parsed demoRequest); [apply demoRequest_wf|cbn; lia|lia|by split; [vm_compute; repeat split; try congruence; lia|]
      |vm_compute; congruence|right; vm_compute; by intros [|]].
  - apply (http_request_parsed demoRequest); [apply demoRequest_wf|cbn; lia|lia|by split; [vm_compute; repeat split; try congruence; lia|]
      |vm_compute; congruence|by left].
Defined.

(** A first part that ends behind the method makes the parser read bytes that have not
    been received: with the same four bytes received it asks for more, rejects the request or
    leaves the buffer, depending on what an earlier request left there. *)
Theorem partial_request_overread :
  let at_4 stale := phr_parse_request (ascii_bytes "GET " ++ stale) 4 100 0 in
  at_4 (ascii_bytes "/x") = Ok (PErr (-2))
  /\ at_4 (ascii_bytes " /" ++ [13; 10]) = Ok (PErr (-1))
  /\ at_4 (ascii_bytes " /x") = Fault OutOfBounds.
Proof. vm_compute. done. Qed.
