(* ===== verification/Sockets.v ===== *)
(** * Sockets: helper functions for sockets ([src/shared/sockhelper.c])

    What the kernel answers to a call is an argument: a list with one entry for every
    call that is made.  A list that is used up stands for a call that has not returned.
    File descriptors that are open are accounted for: what a function opens is
    returned, kept in the list or closed. *)

From Stdlib Require Import Ascii Permutation.
From S2P Require Import Prelude Timing Types Helper.
Open Scope Z_scope.

Inductive err := EINTR | EAGAIN | EINPROGRESS | EISCONN | EOTHER_SOCK.
#[global] Instance err_eq_dec : EqDecision err.
Proof. solve_decision. Defined.

(** ** Sending and receiving *)

(** What [send] and [recv] return: a number of bytes, or an error. *)
Inductive ioResult := Count (n : Z) | Error (e : err).

(** The function has returned, or it waits in a call. *)
Inductive outcome (A : Type) := Returned (a : A) | Waiting.
Arguments Returned {A} a.
Arguments Waiting {A}.

(** The loop of [sock_sendAll]; the result is [ret], [done] and what was written to the
    connection. *)
Fixpoint sockSendLoop (sends : list ioResult) (buffer : list Z) (done ret maxtries : Z) (wire : list Z)
    : outcome (Z * list Z) :=
  if negb (done <? Z.of_nat (length buffer)) then Returned (if done =? 0 then ret else done, wire)
  else if (0 <=? maxtries) && (maxtries - 1 =? -1) then Returned (if done =? 0 then ret else done, wire)
  else
    let maxtries := if 0 <=? maxtries then maxtries - 1 else maxtries in
    match sends with
    | [] => Waiting
    | Error EINTR :: sends | Error EAGAIN :: sends => sockSendLoop sends buffer done (-1) maxtries wire
    | Error _ :: _ => Returned (if done =? 0 then -1 else done, wire)
    | Count n :: sends =>
        if n =? 0 then Returned (if done =? 0 then 0 else done, wire)
        else sockSendLoop sends buffer (done + n) n maxtries
               (wire ++ take (Z.to_nat n) (drop (Z.to_nat done) buffer))
    end.
Definition sock_sendAll (sends : list ioResult) (buffer : list Z) (maxtries : Z) : outcome (Z * list Z) :=
  sockSendLoop sends buffer 0 0 maxtries [].

(** [recv] takes bytes off what the peer has sent. *)
Inductive recvResult := Data (bytes : list Z) | RecvError (e : err).
Fixpoint sockRecvLoop (recvs : list recvResult) (len : Z) (buffer : list Z) (ret intrs : Z)
    : outcome (Z * list Z) :=
  let done := Z.of_nat (length buffer) in
  let result ret := Returned (if done =? 0 then ret else done, buffer) in
  if negb (done <? len) then result ret
  else
    match recvs with
    | [] => Waiting
    | RecvError e :: recvs =>
        if bool_decide (e = EINTR) && (intrs + 1 <? 10) then sockRecvLoop recvs len buffer (-1) (intrs + 1)
        else result (-1)
    | Data bytes :: recvs =>
        if bool_decide (bytes = []) then result 0
        else sockRecvLoop recvs len (buffer ++ bytes) (Z.of_nat (length bytes)) intrs
    end.
Definition sock_recv (recvs : list recvResult) (len : Z) : outcome (Z * list Z) :=
  sockRecvLoop recvs len [] 0 0.

(** [struct timeval] of a time out *)
Definition sock_setTimeout (milliseconds : Z) : Z * Z :=
  (Z.quot milliseconds 1000, Z.rem (i32 (milliseconds * 1000)) 1000000).

(** ** Lists of sockets *)

Definition MAXLISTEN : Z := 20.
Record pollfd := PollFd { p_fd : Z; p_events : Z; p_revents : Z }.
#[global] Instance pollfd_inhabited : Inhabited pollfd := populate (PollFd 0 0 0).
(** [count] and the array; entries from [count] on have no meaning. *)
Record poll_list_t := PollList { pl_count : Z; pl_entry : list pollfd }.
Definition POLLIN : Z := 1.
Definition POLLOUT : Z := 4.
Definition POLLERR : Z := 8.
Definition POLLHUP : Z := 16.
Definition POLLNVAL : Z := 32.
Definition POLLRDHUP : Z := 0x2000.

(** The array is not initialised. *)
Definition sock_newPollList (garbage : list pollfd) : poll_list_t := PollList 0 garbage.
Definition sock_destroyPollList (l : poll_list_t) : list Z :=
  filter (fun fd => 0 <= fd) (map p_fd (take (Z.to_nat (pl_count l)) (pl_entry l))).

(** Store a socket behind the last entry. *)
Definition addSocket (l : poll_list_t) (fd events : Z) : result poll_list_t :=
  old ← aget (pl_entry l) (pl_count l);
  entry ← aset (pl_entry l) (pl_count l) (PollFd fd events (p_revents old));
  Ok (PollList (pl_count l + 1) entry).
(** Remove an entry: the last one takes its place. *)
Definition removeSocket (l : poll_list_t) (i : Z) : result poll_list_t :=
  let count := pl_count l - 1 in
  if i =? count then Ok (PollList count (pl_entry l))
  else
    e ← aget (pl_entry l) count;
    entry ← aset (pl_entry l) i e;
    Ok (PollList count entry).

(** [poll] sets [revents] of the first [count] entries. *)
Fixpoint setRevents (es : list pollfd) (rs : list Z) : list pollfd :=
  match es, rs with
  | e :: es, r :: rs => PollFd (p_fd e) (p_events e) r :: setRevents es rs
  | _, _ => es
  end.

(** [sock_append] as it is written: every access increments the count. *)
Definition sock_append (l : poll_list_t) (sock : Z) (wantRead wantWrite : bool) : result (bool * poll_list_t) :=
  if (sock =? -1) || (MAXLISTEN <=? pl_count l) then Ok (false, l)
  else
    a ← aget (pl_entry l) (pl_count l);
    es ← aset (pl_entry l) (pl_count l) (PollFd sock (p_events a) (p_revents a));
    b ← aget es (pl_count l + 1);
    let events := ((if wantRead then POLLIN else 0) .| (if wantWrite then POLLOUT else 0)) .| POLLRDHUP in
    es ← aset es (pl_count l + 1) (PollFd (p_fd b) events (p_revents b));
    Ok (true, PollList (pl_count l + 3) es).

(** ** Connecting *)

(** [sock_connect] with the socket that [socket()] returned; the result is the descriptor, or
    -1 after it was closed.  [nonblock] is [connect_ms == -1]. *)
Fixpoint connectLoop (tries : nat) (connects : list (option err)) (nonblock : bool) (fd : Z) : outcome Z :=
  match tries with
  | O => Returned fd
  | S tries =>
      match connects with
      | [] => Waiting
      | None :: _ => Returned fd
      | Some e :: connects =>
          if (nonblock && bool_decide (e = EINPROGRESS)) || bool_decide (e = EISCONN) then Returned fd
          else if bool_decide (e = EINTR) then connectLoop tries connects nonblock fd
          else Returned (-1)
      end
  end.
Definition sock_connect (type : Z) (socket : option Z) (connects : list (option err)) (connect_ms : Z) : outcome Z :=
  if negb ((type =? HOST_IP4) || (type =? HOST_IP6)) then Returned (-1)
  else
    match socket with
    | None => Returned (-1)
    | Some fd => connectLoop 5 connects (connect_ms =? -1) fd
    end.

(** The loop around [poll]: the time outs that are tried, [None] for giving up. *)
Inductive pollResult := Ready (revents : list Z) | TimedOut | PollError (e : err).
Fixpoint pollLoop (polls : list pollResult) (tries connect_ms : Z) : outcome (option (list Z)) :=
  match polls with
  | [] => Waiting
  | Ready rs :: _ => Returned (Some rs)
  | TimedOut :: _ => Returned None
  | PollError e :: polls =>
      if bool_decide (e = EINTR) || bool_decide (e = EAGAIN) then
        if tries - 1 =? 0 then Returned None
        else pollLoop polls (tries - 1) (if 1 <? connect_ms then Z.quot connect_ms 2 else connect_ms)
      else Returned None
  end.

(** The loop over the entries, from the last to the first; [n] is [i + 1].  The result
    is the connected socket or -1, the list, and the sockets that were closed. *)
Fixpoint checkLoop (n : nat) (l : poll_list_t) (peer : Z -> bool) (closed : list Z)
    : result (Z * poll_list_t * list Z) :=
  match n with
  | O => Ok (-1, l, closed)
  | S n =>
      let i := Z.of_nat n in
      e ← aget (pl_entry l) i;
      if negb (p_revents e .& (POLLIN .| POLLOUT) =? 0) then
        l ← removeSocket l i;
        if peer (p_fd e) then Ok (p_fd e, l, closed) else checkLoop n l peer (p_fd e :: closed)
      else if negb (p_revents e =? 0) then
        l ← removeSocket l i; checkLoop n l peer (p_fd e :: closed)
      else checkLoop n l peer closed
  end.

(** [newSock] is what [sock_connect] gave for the host, if there is a host and room for it. *)
Definition sock_multiConnect (l : poll_list_t) (newSock : option Z) (polls : list pollResult) (connect_ms : Z)
    (peer : Z -> bool) : result (outcome (Z * poll_list_t * list Z)) :=
  l ← match newSock with
      | Some fd => if pl_count l <? MAXLISTEN then
                     if fd =? -1 then Ok l else addSocket l fd ((POLLIN .| POLLOUT) .| POLLRDHUP)
                   else Ok l
      | None => Ok l
      end;
  if pl_count l =? 0 then Ok (Returned (-2, l, []))
  else
    match pollLoop polls 5 connect_ms with
    | Waiting => Ok Waiting
    | Returned None => Ok (Returned (-1, l, []))
    | Returned (Some rs) =>
        let l := PollList (pl_count l) (setRevents (pl_entry l) rs) in
        r ← checkLoop (Z.to_nat (pl_count l)) l peer []; Ok (Returned r)
    end.

(** ** Listening *)

(** One address of [getaddrinfo] and how [socket], [bind] and [listen] go. *)
Record bindTry := BindTry { bt_socket : option Z; bt_bind : bool; bt_listen : bool }.
Fixpoint listenLoop (tries : list bindTry) (l : poll_list_t) (openCount : Z) (closed : list Z)
    : result (Z * poll_list_t * list Z) :=
  match tries with
  | [] => Ok (openCount, l, closed)
  | t :: tries =>
      match bt_socket t with
      | None => listenLoop tries l openCount closed
      | Some sock =>
          if negb (bt_bind t) then listenLoop tries l openCount (sock :: closed)
          else if negb (bt_listen t) then listenLoop tries l openCount (sock :: closed)
          else
            l ← addSocket l sock (POLLIN .| POLLRDHUP);
            if MAXLISTEN <=? pl_count l then Ok (openCount + 1, l, closed)
            else listenLoop tries l (openCount + 1) closed
      end
  end.
Definition sock_listen (l : poll_list_t) (addrs : option (list bindTry)) : result (bool * poll_list_t * list Z) :=
  if MAXLISTEN <=? pl_count l then Ok (false, l, [])
  else
    match addrs with
    | None | Some [] => Ok (false, l, [])
    | Some tries => '(n, l, closed) ← listenLoop tries l 0 []; Ok (0 <? n, l, closed)
    end.

(** The entry that [accept] is called for, the list and the sockets that were closed. *)
Fixpoint acceptLoop (n : nat) (l : poll_list_t) (closed : list Z) : result (option Z * poll_list_t * list Z) :=
  match n with
  | O => Ok (None, l, closed)
  | S n =>
      let i := Z.of_nat n in
      e ← aget (pl_entry l) i;
      if p_revents e =? 0 then acceptLoop n l closed
      else if p_revents e =? POLLIN then Ok (Some (p_fd e), l, closed)
      else if negb (p_revents e .& (((POLLNVAL .| POLLHUP) .| POLLERR) .| POLLRDHUP) =? 0) then
        l ← removeSocket l i; acceptLoop n l (p_fd e :: closed)
      else acceptLoop n l closed
  end.
Definition sock_accept (l : poll_list_t) (poll : option (list Z)) : result (option Z * poll_list_t * list Z) :=
  match poll with
  | None => Ok (None, l, [])
  | Some rs =>
      let l := PollList (pl_count l) (setRevents (pl_entry l) rs) in
      acceptLoop (Z.to_nat (pl_count l)) l []
  end.

(** ** Sending and receiving: what is transferred *)

(** [send] takes at most what it is given. *)
Fixpoint sendsOk (sends : list ioResult) (room : Z) : Prop :=
  match sends with
  | [] => True
  | Count n :: sends => 0 <= n <= room /\ sendsOk sends (room - n)
  | Error _ :: sends => sendsOk sends room
  end.

Lemma sockSendLoop_spec buffer sends : forall done ret maxtries wire r wire',
  0 <= done <= Z.of_nat (length buffer) -> sendsOk sends (Z.of_nat (length buffer) - done) ->
  wire = take (Z.to_nat done) buffer -> (done = 0 -> ret <= 0) ->
  sockSendLoop sends buffer done ret maxtries wire = Returned (r, wire') ->
  r <= Z.of_nat (length buffer) /\ wire' = take (Z.to_nat r) buffer /\ done <= Z.max r 0.
Proof.
  induction sends as [|s sends IH]; intros done ret mt wire r wire' Hd Hs -> Hr; cbn [sockSendLoop].
  all: assert (Hend : forall x, (done = 0 -> x <= 0) ->
      Returned (if done =? 0 then x else done, take (Z.to_nat done) buffer) = Returned (r, wire') ->
      r <= Z.of_nat (length buffer) /\ wire' = take (Z.to_nat r) buffer /\ done <= Z.max r 0);
    [intros x Hx; destruct (Z.eqb_spec done 0); intros [= <- <-];
     [subst; rewrite (Z2Nat.nonpos x) by (apply Hx; done); split_and!; try done; lia|split_and!; [lia|done|lia]]|].
  all: destruct (negb _); [by apply Hend|]; destruct (_ && _) eqn:Em; [by apply Hend|].
  { done. }
  destruct s as [n|e]; cbn in Hs.
  - destruct Hs as [Hn Hs]. destruct (Z.eqb_spec n 0) as [->|Hn0]; [by apply Hend|].
    intros H. apply IH in H as (H1 & H2 & H3); [split_and!; [done..|lia]|lia| | |lia].
    + by replace (_ - (done + n)) with (Z.of_nat (length buffer) - done - n) by lia.
    + rewrite take_take_drop. f_equal. lia.
  - destruct e; try (by apply Hend); intros H; (apply IH in H; [done..|lia]).
Qed.

(** What [sock_sendAll] reports was sent, and nothing else. *)
Lemma sock_sendAll_spec sends buffer maxtries r wire :
  sendsOk sends (Z.of_nat (length buffer)) -> sock_sendAll sends buffer maxtries = Returned (r, wire) ->
  r <= Z.of_nat (length buffer) /\ wire = take (Z.to_nat r) buffer.
Proof.
  intros Hs H. unfold sock_sendAll in H.
  apply sockSendLoop_spec in H as (? & ? & _); [done|lia|by rewrite Z.sub_0_r|done..].
Qed.
(** With a limit it calls [send] at most that often. *)
Lemma sockSendLoop_returns sends buffer : forall done ret maxtries wire,
  0 <= maxtries <= Z.of_nat (length sends) -> sockSendLoop sends buffer done ret maxtries wire <> Waiting.
Proof.
  induction sends as [|s sends IH]; intros done ret mt wire Hm; cbn [sockSendLoop].
  all: destruct (negb _); [done|]; destruct (Z.leb_spec 0 mt); [|lia]; cbn [andb].
  all: destruct (Z.eqb_spec (mt - 1) (-1)); [done|]; cbn [length] in Hm.
  { lia. }
  destruct s as [k|e]; [destruct (k =? 0); [done|apply IH; lia]|].
  destruct e; first [done | apply IH; lia].
Qed.

Definition recvBytes (recvs : list recvResult) : list Z :=
  concat (map (fun r => match r with Data b => b | RecvError _ => [] end) recvs).
Fixpoint recvsOk (recvs : list recvResult) (room : Z) : Prop :=
  match recvs with
  | [] => True
  | Data b :: recvs => Z.of_nat (length b) <= room /\ recvsOk recvs (room - Z.of_nat (length b))
  | RecvError _ :: recvs => recvsOk recvs room
  end.
Lemma sockRecvLoop_spec recvs len : forall buffer ret intrs r data,
  Z.of_nat (length buffer) <= len -> recvsOk recvs (len - Z.of_nat (length buffer)) -> (buffer = [] -> ret <= 0) ->
  sockRecvLoop recvs len buffer ret intrs = Returned (r, data) ->
  exists got rest, data = buffer ++ got /\ recvBytes recvs = got ++ rest
    /\ Z.of_nat (length data) <= len /\ Z.of_nat (length data) = Z.max r 0.
Proof.
  induction recvs as [|x recvs IH]; intros buffer ret intrs r data Hl Hok Hr; cbn [sockRecvLoop].
  all: assert (Hend : forall rs y, (buffer = [] -> y <= 0) ->
      Returned (if Z.of_nat (length buffer) =? 0 then y else Z.of_nat (length buffer), buffer) = Returned (r, data) ->
      exists got rest, data = buffer ++ got /\ recvBytes rs = got ++ rest
        /\ Z.of_nat (length data) <= len /\ Z.of_nat (length data) = Z.max r 0);
    [intros rs y Hy; destruct (Z.eqb_spec (Z.of_nat (length buffer)) 0); intros [= <- <-];
     exists [], (recvBytes rs); rewrite app_nil_r; split_and!; try done; [|lia];
     destruct buffer; [specialize (Hy eq_refl); cbn; lia|cbn in *; lia]|].
  all: destruct (negb _); [by apply Hend|].
  { done. }
  destruct x as [bytes|e].
  - case_bool_decide as Hb; [by apply Hend|]. cbn in Hok. destruct Hok as [Hb1 Hok].
    intros H. apply IH in H as (got & rest & -> & E & H1 & H2).
    + exists (bytes ++ got), rest. split_and!; [by rewrite <- app_assoc| |done..].
      unfold recvBytes in *. cbn. by rewrite E, <- app_assoc.
    + rewrite length_app. lia.
    + rewrite length_app. by replace (len - Z.of_nat (length buffer + length bytes)) with
        (len - Z.of_nat (length buffer) - Z.of_nat (length bytes)) by lia.
    + intros E. by apply app_eq_nil in E as [_ ?].
  - destruct (_ && _); [|by apply Hend]. intros H. apply IH in H; [done..|lia].
Qed.
(** [sock_recv] returns the bytes that arrived next, no more than asked for; it reports
    their number. *)
Lemma sock_recv_spec recvs len r data :
  0 <= len -> recvsOk recvs len -> sock_recv recvs len = Returned (r, data) ->
  exists rest, recvBytes recvs = data ++ rest /\ Z.of_nat (length data) = Z.max r 0 /\ Z.max r 0 <= len.
Proof.
  intros Hl Hok H. apply sockRecvLoop_spec in H as (got & rest & -> & E & H1 & H2); [|cbn; lia|cbn; by rewrite Z.sub_0_r|done].
  exists rest. split; [done|]. cbn in *. lia.
Qed.

(** Both parts of a time out, without overflow up to 35 minutes. *)
Lemma sock_setTimeout_spec ms :
  0 <= ms <= 2147483 -> let '(sec, usec) := sock_setTimeout ms in
  sec * 1000000 + usec = ms * 1000 /\ 0 <= usec < 1000000.
Proof.
  intros Hm. cbn. rewrite i32_id by (unfold in_i32; lia).
  rewrite Z.quot_div_nonneg, Z.rem_mod_nonneg by lia.
  pose proof (Z.mod_pos_bound (ms * 1000) 1000000). split; [|lia].
  replace (ms * 1000) with (1000 * ms) by lia. change 1000000 with (1000 * 1000).
  rewrite Z.mul_mod_distr_l by lia. pose proof (Z.div_mod ms 1000). lia.
Qed.

(** ** Lists of sockets: nothing is lost *)

Record pl_wf (l : poll_list_t) : Prop := PlWf {
  pl_count_range : 0 <= pl_count l <= MAXLISTEN;
  pl_size : length (pl_entry l) = 20%nat;
}.
Definition used (l : poll_list_t) : list pollfd := take (Z.to_nat (pl_count l)) (pl_entry l).
Definition fds (l : poll_list_t) : list Z := map p_fd (used l).

Lemma used_lookup l i : pl_wf l -> 0 <= i < pl_count l ->
  exists e, aget (pl_entry l) i = Ok e /\ used l !! Z.to_nat i = Some e.
Proof.
  intros [Hc Hs] Hi. unfold MAXLISTEN in Hc.
  destruct (lookup_lt_is_Some_2 (pl_entry l) (Z.to_nat i)) as [e He]; [lia|].
  exists e. split; [apply aget_ok; [lia|done]|]. unfold used. by rewrite lookup_take_lt by lia.
Qed.
Lemma used_length l : pl_wf l -> Z.of_nat (length (used l)) = pl_count l.
Proof. intros [Hc Hs]. unfold MAXLISTEN in Hc. unfold used. rewrite length_take. lia. Qed.

Lemma addSocket_ok l fd ev :
  pl_wf l -> pl_count l < MAXLISTEN ->
  exists l', addSocket l fd ev = Ok l' /\ pl_wf l' /\ pl_count l' = pl_count l + 1 /\ fds l' = fds l ++ [fd].
Proof.
  intros [Hc Hs] Hlt. unfold MAXLISTEN in *. unfold addSocket.
  destruct (lookup_lt_is_Some_2 (pl_entry l) (Z.to_nat (pl_count l))) as [e He]; [lia|].
  rewrite (aget_ok _ _ e) by (done || lia). cbn. rewrite aset_ok by lia. cbn. eexists. split; [done|].
  split_and!; [split; cbn; [unfold MAXLISTEN; lia|by rewrite length_insert]|done|].
  unfold fds, used. cbn. replace (Z.to_nat (pl_count l + 1)) with (S (Z.to_nat (pl_count l))) by lia.
  rewrite (take_S_r _ _ (PollFd fd ev (p_revents e))) by (apply list_lookup_insert_eq; lia).
  rewrite take_insert_ge by lia. by rewrite map_app.
Qed.
(** Removing an entry moves only the last one. *)
Lemma removeSocket_ok l i e :
  pl_wf l -> 0 <= i < pl_count l -> used l !! Z.to_nat i = Some e ->
  exists l' tl, removeSocket l i = Ok l' /\ pl_wf l' /\ pl_count l' = pl_count l - 1
    /\ take (Z.to_nat i) (used l') = take (Z.to_nat i) (used l)
    /\ used l = take (Z.to_nat i) (used l) ++ e :: tl
    /\ drop (Z.to_nat i) (used l') ≡ₚ tl.
Proof.
  intros [Hc Hs] Hi He. unfold MAXLISTEN in Hc. unfold removeSocket.
  pose proof (take_drop_middle _ _ _ He) as Hmid. set (n := Z.to_nat i) in *.
  exists (if i =? pl_count l - 1 then PollList (pl_count l - 1) (pl_entry l)
          else PollList (pl_count l - 1) (<[n := pl_entry l !!! Z.to_nat (pl_count l - 1)]> (pl_entry l))).
  exists (drop (S n) (used l)). rewrite <- Hmid at 2.
  assert (length (used l) = Z.to_nat (pl_count l)) as Hlen by (unfold used; rewrite length_take; lia).
  destruct (Z.eqb_spec i (pl_count l - 1)) as [E|E].
  - split_and!; [done|split; cbn; [unfold MAXLISTEN; lia|done]|done| |done|].
    + unfold used. cbn. rewrite !take_take. f_equal. lia.
    + rewrite (drop_ge (used l)) by lia. unfold used. cbn. rewrite drop_ge by (rewrite length_take; lia). done.
  - rewrite (aget_in_range _ (pl_count l - 1)) by lia. cbn. rewrite aset_ok by lia. cbn.
    set (x := pl_entry l !!! Z.to_nat (pl_count l - 1)).
    assert (pl_entry l !! Z.to_nat (pl_count l - 1) = Some x) as Hx by (apply list_lookup_lookup_total_lt; lia).
    split_and!; [done|split; cbn; [unfold MAXLISTEN; lia|by rewrite length_insert]|done| |done|].
    + unfold used. cbn. rewrite !take_take, !Nat.min_l by lia. by rewrite take_insert_ge by lia.
    + unfold used. cbn. replace (Z.to_nat (pl_count l)) with (S (Z.to_nat (pl_count l - 1))) by lia.
      rewrite (take_S_r _ _ x Hx). rewrite drop_app_le by (rewrite length_take; lia).
      rewrite take_insert_lt by lia.
      rewrite drop_insert_ge by lia. rewrite Nat.sub_diag.
      destruct (lookup_lt_is_Some_2 (take (Z.to_nat (pl_count l - 1)) (pl_entry l)) n) as [y Hy];
        [rewrite length_take; lia|].
      rewrite (drop_S _ _ _ Hy). cbn.
      apply Permutation_cons_append.
Qed.

Definition idle (e : pollfd) : Prop := p_revents e = 0.
Definition returnedFd (fd : Z) : list Z := if fd =? -1 then [] else [fd].

(** What a removal means for the entries behind it and for the descriptors. *)
Lemma removeSocket_fds l i e :
  pl_wf l -> 0 <= i < pl_count l -> used l !! Z.to_nat i = Some e ->
  Forall idle (drop (S (Z.to_nat i)) (used l)) ->
  exists l', removeSocket l i = Ok l' /\ pl_wf l' /\ pl_count l' = pl_count l - 1
    /\ fds l ≡ₚ p_fd e :: fds l' /\ Forall idle (drop (Z.to_nat i) (used l')).
Proof.
  intros Hwf Hi He Hidle. destruct (removeSocket_ok l i e Hwf Hi He) as (l' & tl & E & Hwf' & Hc & Ht & Hu & Hp).
  exists l'. split_and!; [done..| |].
  - unfold fds. rewrite Hu, map_app. cbn. rewrite <- (take_drop (Z.to_nat i) (used l')), Ht, map_app.
    rewrite <- Permutation_middle. apply Permutation_cons; [done|]. apply Permutation_app_head.
    by rewrite Hp.
  - rewrite Hp. rewrite Hu in Hidle. rewrite drop_app_ge in Hidle.
    + rewrite length_take_le in Hidle by (pose proof (used_length l Hwf); lia).
      by replace (S (Z.to_nat i) - Z.to_nat i)%nat with 1%nat in Hidle by lia.
    + rewrite length_take. lia.
Qed.

Lemma checkLoop_spec n peer : forall l closed,
  pl_wf l -> Z.of_nat n <= pl_count l -> Forall (fun fd => 0 <= fd) (fds l) -> Forall idle (drop n (used l)) ->
  exists fd l' c, checkLoop n l peer closed = Ok (fd, l', c ++ closed) /\ pl_wf l'
    /\ fds l ≡ₚ c ++ returnedFd fd ++ fds l'
    /\ (fd = -1 -> Forall idle (used l')) /\ (fd <> -1 -> 0 <= fd /\ peer fd = true).
Proof.
  induction n as [|n IH]; intros l closed Hwf Hn Hfd Hidle; cbn [checkLoop].
  { exists (-1), l, []. by split_and!. }
  destruct (used_lookup l (Z.of_nat n) Hwf ltac:(lia)) as (e & -> & He). rewrite Nat2Z.id in He. cbn [mbind result_bind].
  assert (0 <= p_fd e) as Hpos.
  { rewrite list.Forall_forall in Hfd. apply Hfd, list_elem_of_In, in_map_iff. exists e.
    split; [done|]. by eapply list_elem_of_In, list_elem_of_lookup_2. }
  assert (Hrem : exists l', removeSocket l (Z.of_nat n) = Ok l' /\ pl_wf l' /\ pl_count l' = pl_count l - 1
    /\ fds l ≡ₚ p_fd e :: fds l' /\ Forall idle (drop n (used l'))).
  { destruct (removeSocket_fds l (Z.of_nat n) e) as (l' & H); [done|lia|by rewrite Nat2Z.id..|].
    rewrite Nat2Z.id in H. by exists l'. }
  assert (Hclose : forall l', removeSocket l (Z.of_nat n) = Ok l' -> exists fd l2 c,
      checkLoop n l' peer (p_fd e :: closed) = Ok (fd, l2, c ++ closed) /\ pl_wf l2
      /\ fds l ≡ₚ c ++ returnedFd fd ++ fds l2
      /\ (fd = -1 -> Forall idle (used l2)) /\ (fd <> -1 -> 0 <= fd /\ peer fd = true)).
  { intros l' E. destruct Hrem as (l1 & E1 & Hwf' & Hc & Hp & Hi). rewrite E in E1. injection E1 as <-.
    destruct (IH l' (p_fd e :: closed) Hwf') as (fd & l2 & c & -> & Hwf2 & Hp2 & H1 & H2); [lia| |done|].
    - rewrite Hp in Hfd. by apply list.Forall_cons in Hfd as [_ ?].
    - exists fd, l2, (c ++ [p_fd e]). split_and!; [by rewrite <- app_assoc|done| |done..].
      rewrite Hp, Hp2, <- app_assoc. cbn. by rewrite <- Permutation_middle. }
  destruct Hrem as (l1 & E1 & Hwf' & Hc & Hp & Hi).
  destruct (negb (p_revents e .& _ =? 0)).
  - rewrite E1. cbn [mbind result_bind]. destruct (peer (p_fd e)) eqn:Epeer; [|by apply Hclose].
    exists (p_fd e), l1, []. unfold returnedFd. destruct (Z.eqb_spec (p_fd e) (-1)); [lia|]. by split_and!.
  - destruct (Z.eqb_spec (p_revents e) 0) as [Er|Er]; cbn [negb].
    + apply IH; [done|lia|done|]. rewrite (drop_S _ _ _ He). by constructor.
    + rewrite E1. cbn [mbind result_bind]. by apply Hclose.
Qed.
Lemma setRevents_fds es rs : map p_fd (setRevents es rs) = map p_fd es.
Proof. revert rs. induction es as [|e es IH]; intros [|r rs]; cbn; [done..|]. by rewrite IH. Qed.
Lemma setRevents_wf l rs : pl_wf l ->
  pl_wf (PollList (pl_count l) (setRevents (pl_entry l) rs))
  /\ fds (PollList (pl_count l) (setRevents (pl_entry l) rs)) = fds l.
Proof.
  intros [Hc Hs]. assert (length (setRevents (pl_entry l) rs) = length (pl_entry l)) as Hl.
  { rewrite <- (length_map p_fd), setRevents_fds, length_map. done. }
  split; [by split; [|cbn; lia]|]. unfold fds, used. cbn.
  by rewrite <- !firstn_map, setRevents_fds.
Qed.

(** The sockets that a call adds: the one for the host, if there is room. *)
Definition newFds (l : poll_list_t) (newSock : option Z) : list Z :=
  match newSock with Some fd => if pl_count l <? MAXLISTEN then returnedFd fd else [] | None => [] end.
Lemma add_new l newSock :
  pl_wf l ->
  exists l1, match newSock with
      | Some fd => if pl_count l <? MAXLISTEN then
                     if fd =? -1 then Ok l else addSocket l fd ((POLLIN .| POLLOUT) .| POLLRDHUP)
                   else Ok l
      | None => Ok l
      end = Ok l1 /\ pl_wf l1 /\ fds l1 = fds l ++ newFds l newSock.
Proof.
  intros Hwf. unfold newFds, returnedFd. destruct newSock as [fd|]; [|exists l; by rewrite app_nil_r].
  destruct (Z.ltb_spec (pl_count l) MAXLISTEN); [|exists l; by rewrite app_nil_r].
  destruct (fd =? -1); [exists l; by rewrite app_nil_r|].
  destruct (addSocket_ok l fd ((POLLIN .| POLLOUT) .| POLLRDHUP)) as (l1 & ? & ? & _ & ?); [done..|]. by exists l1.
Qed.
Lemma fds_nil l : pl_wf l -> fds l = [] <-> pl_count l = 0.
Proof.
  intros Hwf. pose proof (used_length l Hwf) as Hu. unfold fds. split; intros H.
  - apply map_eq_nil in H. rewrite H in Hu. done.
  - destruct (used l); [done|]. cbn in Hu. lia.
Qed.

Lemma multiConnect_spec l newSock polls ms peer :
  pl_wf l -> Forall (fun fd => 0 <= fd) (fds l ++ newFds l newSock) ->
  exists o, sock_multiConnect l newSock polls ms peer = Ok o
    /\ forall fd l' closed, o = Returned (fd, l', closed) ->
       pl_wf l' /\ (fds l ++ newFds l newSock ≡ₚ closed ++ (if 0 <=? fd then [fd] else []) ++ fds l')
       /\ (0 <= fd -> peer fd = true) /\ (fd = -2 <-> fds l ++ newFds l newSock = [])
       /\ (fd < 0 -> fd = -1 \/ fd = -2).
Proof.
  intros Hwf Hfd. unfold sock_multiConnect. destruct (add_new l newSock Hwf) as (l1 & -> & Hwf1 & Hf1).
  rewrite <- Hf1 in *. cbn [mbind result_bind]. destruct (Z.eqb_spec (pl_count l1) 0) as [E|E].
  { eexists. split; [done|]. intros fd l' closed [= <- <- <-]. split_and!; [done..| |by right].
    by rewrite (fds_nil l1 Hwf1). }
  assert (fds l1 <> []) as Hne by by rewrite (fds_nil l1 Hwf1).
  destruct (pollLoop polls 5 ms) as [[rs|]|]; [|eexists; split; [done|]..].
  2:{ intros fd l' closed [= <- <- <-]. split_and!; try done. by left. }
  2:{ done. }
  destruct (setRevents_wf l1 rs Hwf1) as [Hwf2 Hf2]. set (l2 := PollList _ _) in *.
  assert (pl_count l2 = pl_count l1) as Hc by done.
  destruct (checkLoop_spec (Z.to_nat (pl_count l1)) peer l2 []) as (fd & l3 & c & E3 & Hwf3 & Hp & _ & Hpeer);
    [done|destruct Hwf1; lia|by rewrite Hf2| |].
  { rewrite drop_ge; [constructor|]. pose proof (used_length l2 Hwf2). lia. }
  cbv zeta. change (pl_count l2) with (pl_count l1). rewrite app_nil_r in E3. rewrite E3. cbn. eexists. split; [done|].
  intros fd' l' closed [= <- <- <-]. rewrite <- Hf2. unfold returnedFd in Hp.
  destruct (Z.eqb_spec fd (-1)) as [->|Hn].
  - split_and!; [done..| |by left]. rewrite Hf2. split; done.
  - destruct (Hpeer Hn) as [H0 ?]. destruct (Z.leb_spec 0 fd); [|lia].
    split_and!; [done..| |lia]. rewrite Hf2. split; [lia|done].
Qed.
(** Connecting to several servers at once loses no socket.  [sock_multiConnect] never
    leaves its array; the sockets of the list and the new one are afterwards, each of
    them once, in the list, closed or returned; a socket that is returned is
    connected; -2 is returned exactly when there is nothing to wait for; and when it
    gives up after looking at the sockets, only those without an event are left. *)
Theorem multiConnect_keeps_sockets l newSock polls ms peer :
  pl_wf l -> Forall (fun fd => 0 <= fd) (fds l ++ newFds l newSock) ->
  exists o, sock_multiConnect l newSock polls ms peer = Ok o
    /\ forall fd l' closed, o = Returned (fd, l', closed) ->
       pl_wf l' /\ (fds l ++ newFds l newSock ≡ₚ closed ++ (if 0 <=? fd then [fd] else []) ++ fds l')
       /\ (0 <= fd -> peer fd = true) /\ (fd = -2 <-> fds l ++ newFds l newSock = []).
Proof.
  intros Hwf Hfd. destruct (multiConnect_spec l newSock polls ms peer Hwf Hfd) as (o & Hrun & Ho). exists o. split; [done|].
  intros fd l' closed E. by destruct (Ho fd l' closed E) as (? & ? & ? & ? & _).
Qed.
Definition demoList : poll_list_t :=
  PollList 2 (PollFd 5 5 0 :: PollFd 6 5 0 :: replicate 18 (PollFd 0 0 0)).
Lemma demoList_wf : pl_wf demoList.
Proof. split; [unfold MAXLISTEN; cbn; lia|done]. Qed.
(** Sockets 5 and 6 are pending, 7 is added; 6 failed, 7 is connected. *)
Lemma multiConnect_witness :
  exists l', sock_multiConnect demoList (Some 7) [PollError EINTR; Ready [0; POLLERR; POLLOUT]] 100 (fun fd => fd =? 7)
      = Ok (Returned (7, l', []))
    /\ (fds demoList ++ newFds demoList (Some 7) ≡ₚ [] ++ [7] ++ fds l').
Proof.
  destruct (multiConnect_keeps_sockets demoList (Some 7) [PollError EINTR; Ready [0; POLLERR; POLLOUT]] 100 (fun fd => fd =? 7))
    as (o & E & H); [apply demoList_wf|repeat (constructor; [cbn; lia|]); constructor|].
  rewrite E. vm_compute in E. injection E as <-. eexists. split; [done|]. by destruct (H _ _ _ eq_refl) as (_ & ? & _).
Defined.

(** Listening: every socket that was opened is in the list or closed, and the list does
    not overflow whatever the number of addresses. *)
Definition opened (tries : list bindTry) : list Z := omap bt_socket tries.
Lemma listenLoop_spec tries : forall l n closed,
  pl_wf l -> pl_count l < MAXLISTEN ->
  exists n' l' c done, listenLoop tries l n closed = Ok (n', l', c ++ closed) /\ pl_wf l'
    /\ done `prefix_of` tries /\ (done = tries \/ pl_count l' = MAXLISTEN)
    /\ (opened done ++ fds l ≡ₚ c ++ fds l') /\ n' - n = pl_count l' - pl_count l /\ n <= n'.
Proof.
  induction tries as [|t tries IH]; intros l n closed Hwf Hlt; cbn [listenLoop].
  { exists n, l, [], []. split_and!; first [done | by left | lia]. }
  destruct (bt_socket t) as [sock|] eqn:Es.
  2:{ destruct (IH l n closed Hwf Hlt) as (n' & l' & c & dn & E & H1 & Hpre & H2 & H3 & H4 & H5).
      exists n', l', c, (t :: dn). split_and!; [done|done|by apply prefix_cons|destruct H2; [left; by subst|by right]| |done|done].
      unfold opened in *. cbn. by rewrite Es. }
  assert (Hclosed : exists n' l' c done, listenLoop tries l n (sock :: closed) = Ok (n', l', c ++ closed) /\ pl_wf l'
    /\ done `prefix_of` (t :: tries) /\ (done = t :: tries \/ pl_count l' = MAXLISTEN)
    /\ (opened done ++ fds l ≡ₚ c ++ fds l') /\ n' - n = pl_count l' - pl_count l /\ n <= n').
  { destruct (IH l n (sock :: closed) Hwf Hlt) as (n' & l' & c & dn & E & H1 & Hpre & H2 & H3 & H4 & H5).
    exists n', l', (c ++ [sock]), (t :: dn).
    split_and!; [by rewrite <- app_assoc|done|by apply prefix_cons|destruct H2; [left; by subst|by right]| |done|done].
    unfold opened in *. cbn. rewrite Es, <- app_assoc. cbn. rewrite <- Permutation_middle. by rewrite H3. }
  destruct (bt_bind t); [|done]. destruct (bt_listen t); [|done]. cbn [negb].
  destruct (addSocket_ok l sock (POLLIN .| POLLRDHUP) Hwf Hlt) as (l1 & -> & Hwf1 & Hc1 & Hf1). cbn [mbind result_bind].
  destruct (Z.leb_spec MAXLISTEN (pl_count l1)).
  - exists (n + 1), l1, [], [t]. unfold opened. cbn. rewrite Es, Hf1.
    split_and!; [done|done|by exists tries|right; destruct Hwf1; lia| |lia|lia]. cbn. apply Permutation_cons_append.
  - destruct (IH l1 (n + 1) closed Hwf1) as (n' & l' & c & dn & E & H1 & Hpre & H2 & H3 & H4 & H5); [lia|].
    exists n', l', c, (t :: dn). split_and!; [done|done|by apply prefix_cons|destruct H2; [left; by subst|by right]| |lia|lia].
    unfold opened in *. cbn. rewrite Es, <- H3, Hf1. cbn. rewrite Permutation_middle. apply Permutation_app_head.
    apply Permutation_cons_append.
Qed.

(** ** Addresses *)

(** [struct sockaddr], as far as it is used *)
Record sockaddr := SockAddr { sa_family : Z; sa_addr : list Z; sa_port : Z }.
Definition AF_INET : Z := 2.
Definition AF_INET6 : Z := 10.
(** Writes only the bytes that the family has. *)
Definition sock_sockaddrToDnbd3 (sa : sockaddr) (host : dnbd3_host_t) : option dnbd3_host_t :=
  if sa_family sa =? AF_INET then Some (Host (take 4 (sa_addr sa) ++ drop 4 (host_addr host)) (sa_port sa) HOST_IP4)
  else if sa_family sa =? AF_INET6 then Some (Host (take 16 (sa_addr sa)) (sa_port sa) HOST_IP6)
  else None.

(** Cut [host:port] and [[ip6]:port]; [None] is an address without port. *)
Definition isColon (c : ascii) : Prop := c = ":"%char.
Definition splitAddress (address : string) : string * option string :=
  let addr := take 99 (chars address) in
  match list.list_find isColon addr with
  | None => (unchars addr, None)
  | Some (c1, _) =>
      let behind := drop (S c1) addr in
      match list.list_find isColon behind with
      | None => (unchars (take c1 addr), Some (unchars behind))
      | Some _ =>
          if bool_decide (head addr = Some "["%char) then
            match splitPort (unchars addr) with
            | Some (ip, port) =>
                match rev (chars ip) with
                | c :: r => if Ascii.eqb c "]" then (unchars (tail (rev r)), Some port) else (unchars addr, None)
                | [] => (unchars addr, None)
                end
            | None => (unchars addr, None)
            end
          else (unchars addr, None)
      end
  end.

Fixpoint resolveLoop (sas : list sockaddr) (dest : list dnbd3_host_t) (addCount : Z)
    : result (Z * list dnbd3_host_t) :=
  match sas with
  | [] => Ok (addCount, dest)
  | sa :: sas =>
      if (sa_family sa =? AF_INET) || (sa_family sa =? AF_INET6) then
        old ← aget dest addCount;
        match sock_sockaddrToDnbd3 sa old with
        | Some h => dest ← aset dest addCount h; resolveLoop sas dest (addCount + 1)
        | None => resolveLoop sas dest addCount
        end
      else resolveLoop sas dest addCount
  end.
(** [getaddrinfo] of a name and a port; [None] when it fails. *)
Definition sock_resolveToDnbd3Host (getaddrinfo : string -> string -> option (list sockaddr)) (address : string)
    (dest : list dnbd3_host_t) (count : Z) : result (Z * list dnbd3_host_t) :=
  if count <=? 0 then Ok (0, dest)
  else
    let '(addr, port) := splitAddress address in
    match getaddrinfo addr (default (print_port PORT) port) with
    | None | Some [] => Ok (0, dest)
    | Some res => resolveLoop res dest 0
    end.

(** The text for a host, its length is what is returned; [None] is a buffer that is too small. *)
Section PrintHost.
Context (inet_ntop4 inet_ntop6 : list Z -> string) (print_int : Z -> string).
Definition sock_printHost (host : dnbd3_host_t) (len : Z) : result (option string) :=
  if len <? 10 then Ok None
  else
    let port := if host_port host =? 0 then "" else ":" +:+ print_port (ntohs (host_port host)) in
    if host_type host =? HOST_IP6 then
      ip ← ntop (inet_ntop6 (host_addr host)) (len - 10); Ok (Some ("[" +:+ ip +:+ "]" +:+ port))
    else if host_type host =? HOST_IP4 then
      ip ← ntop (inet_ntop4 (take 4 (host_addr host))) (len - 8); Ok (Some (ip +:+ port))
    else Ok (Some (String.substring 0 (Z.to_nat (len - 1)) ("<?addrtype=" +:+ print_int (host_type host) +:+ ">"))).

Lemma unchars_length l : String.length (unchars l) = length l.
Proof. induction l as [|c l IH]; [done|]. cbn. by rewrite IH. Qed.
Lemma string_app_length a b : String.length (a +:+ b) = (String.length a + String.length b)%nat.
Proof. induction a as [|c a IH]; [done|]. exact (f_equal S IH). Qed.
Lemma print_digits_bound f k n :
  0 <= n < 10 ^ Z.of_nat k -> (1 <= k)%nat -> (length (print_digits f n) <= k)%nat.
Proof.
  revert k n. induction f as [|f IH]; intros k n Hn Hk; cbn [print_digits]; [cbn; lia|].
  destruct (Z.ltb_spec n 10); [cbn; lia|]. rewrite length_app. cbn [length].
  destruct k as [|[|k]]; [lia|cbn in Hn; lia|].
  assert (length (print_digits f (n / 10)) <= S k)%nat; [|lia]. apply IH; [|lia].
  split; [apply Z.div_pos; lia|]. apply Z.div_lt_upper_bound; [lia|].
  rewrite <- Z.pow_succ_r by lia. replace (Z.succ (Z.of_nat (S k))) with (Z.of_nat (S (S k))) by lia. apply Hn.
Qed.
Lemma port_length p : (String.length (print_port (ntohs p)) <= 5)%nat.
Proof.
  pose proof (htons_u16 p) as Hr. fold (ntohs p) in Hr. unfold print_port. rewrite unchars_length.
  apply print_digits_bound; [|lia]. unfold in_u16 in Hr. lia.
Qed.
Lemma ntop_length ip size s : ntop ip size = Ok s -> Z.of_nat (String.length s) < size.
Proof. unfold ntop. destruct (Z.ltb_spec (Z.of_nat (String.length ip)) size); [by intros [= <-]|done]. Qed.
Lemma substring_length n m s : (String.length (String.substring n m s) <= m)%nat.
Proof.
  revert n m. induction s as [|c s IH]; intros n m; destruct n, m; cbn; try lia.
  - specialize (IH 0%nat m). lia.
  - specialize (IH n 0%nat). lia.
  - specialize (IH n (S m)). lia.
Qed.
(** An address leaves two bytes of the buffer free besides the terminator. *)
Lemma sock_printHost_spare host len s :
  host_type host = HOST_IP4 \/ host_type host = HOST_IP6 -> sock_printHost host len = Ok (Some s) -> Z.of_nat (String.length s) + 3 <= len.
Proof.
  unfold sock_printHost. intros Ht. destruct (Z.ltb_spec len 10); [done|].
  set (port := if host_port host =? 0 then _ else _).
  assert (String.length port <= 6)%nat as Hp.
  { subst port. destruct (host_port host =? 0); [cbn; lia|]. rewrite string_app_length.
    pose proof (port_length (host_port host)). change (String.length ":") with 1%nat. lia. }
  destruct (Z.eqb_spec (host_type host) HOST_IP6); [|destruct (Z.eqb_spec (host_type host) HOST_IP4); [|by destruct Ht]].
  - destruct (ntop _ _) as [ip|] eqn:E; [|done]. intros <-%(inj Ok)%(inj Some). apply ntop_length in E.
    rewrite !string_app_length. change (String.length "[") with 1%nat. change (String.length "]") with 1%nat. lia.
  - destruct (ntop _ _) as [ip|] eqn:E; [|done]. intros <-%(inj Ok)%(inj Some). apply ntop_length in E.
    rewrite string_app_length. lia.
Qed.
(** What is printed fits the buffer, with its terminator. *)
Lemma sock_printHost_fits host len s :
  sock_printHost host len = Ok (Some s) -> Z.of_nat (String.length s) < len.
Proof.
  intros H. destruct (decide (host_type host = HOST_IP4 \/ host_type host = HOST_IP6)) as [Ht|Ht]; [pose proof (sock_printHost_spare host len s Ht H); lia|].
  revert H. unfold sock_printHost. destruct (Z.ltb_spec len 10); [done|].
  destruct (Z.eqb_spec (host_type host) HOST_IP6); [by destruct Ht; right|]. destruct (Z.eqb_spec (host_type host) HOST_IP4); [by destruct Ht; left|].
  intros <-%(inj Ok)%(inj Some).
  pose proof (substring_length 0 (Z.to_nat (len - 1)) ("<?addrtype=" +:+ print_int (host_type host) +:+ ">")). lia.
Qed.
End PrintHost.

(** The hosts that a resolution yields. *)
Definition usable (sa : sockaddr) : bool := (sa_family sa =? AF_INET) || (sa_family sa =? AF_INET6).
Lemma usable_host sa h : usable sa = true -> is_Some (sock_sockaddrToDnbd3 sa h).
Proof.
  unfold usable, sock_sockaddrToDnbd3. destruct (sa_family sa =? AF_INET); [eauto|]. cbn. intros ->. eauto.
Qed.
Lemma resolveLoop_room sas : forall dest (k : nat), (k <= length dest)%nat ->
  ((k + length (filter (fun sa => usable sa = true) sas) <= length dest)%nat <->
   exists n dest', resolveLoop sas dest (Z.of_nat k) = Ok (n, dest')).
Proof.
  induction sas as [|sa sas IH]; intros dest k Hk; cbn [resolveLoop].
  { cbn. split; [eauto|lia]. }
  change (_ || _) with (usable sa). rewrite filter_cons. destruct (usable sa) eqn:Eu.
  2:{ rewrite decide_False by done. by apply IH. }
  rewrite decide_True by done. cbn [length]. destruct (decide (k < length dest)%nat).
  - destruct (lookup_lt_is_Some_2 dest k) as [h Hh]; [done|].
    rewrite (aget_ok _ _ h) by (rewrite ?Nat2Z.id; done || lia). cbn.
    destruct (usable_host sa h Eu) as [h' ->]. rewrite aset_ok by lia. cbn.
    replace (Z.of_nat k + 1) with (Z.of_nat (S k)) by lia.
    rewrite <- IH by (rewrite length_insert; lia). rewrite length_insert. lia.
  - split; [lia|]. intros (n' & d & E). assert (aget dest (Z.of_nat k) = Fault OutOfBounds) as Ef.
    { unfold aget. destruct (Z.ltb_spec (Z.of_nat k) 0); [done|]. rewrite Nat2Z.id.
      by rewrite lookup_ge_None_2 by lia. }
    by rewrite Ef in E.
Qed.
(** The number of results is not compared with the room in the array: the function works
    exactly when they happen to fit. *)
Theorem resolve_needs_room sas dest :
  (length (filter (fun sa => usable sa = true) sas) <= length dest)%nat <->
  exists n dest', resolveLoop sas dest 0 = Ok (n, dest').
Proof. by rewrite <- (resolveLoop_room sas dest 0%nat) by lia. Qed.

(** ** Where the helpers do not do what they mean to *)

(** A name with three addresses overflows an array for two, although the caller says that it
    has room for two. *)
Theorem resolve_overflows :
  let h := Host (replicate 16 0) 0 0 in
  let dns := fun _ _ => Some (replicate 3 (SockAddr AF_INET [10; 0; 0; 1] 5003)) in
  sock_resolveToDnbd3Host dns "mirror.example" [h; h] 2 = Fault OutOfBounds.
Proof. reflexivity. Qed.
(** [sock_append] counts one socket three times and stores its events in another entry; the
    array overflows after seven sockets. *)
Theorem sock_append_overflows l fd r w :
  pl_wf l -> pl_count l = 19 -> fd <> -1 -> sock_append l fd r w = Fault OutOfBounds.
Proof.
  intros [_ Hs] Hc Hfd. unfold sock_append. destruct (Z.eqb_spec fd (-1)); [done|]. rewrite Hc.
  change (MAXLISTEN <=? 19) with false. cbn [orb].
  destruct (lookup_lt_is_Some_2 (pl_entry l) 19) as [e He]; [lia|].
  rewrite (aget_ok _ 19 e) by (done || lia). cbn. rewrite aset_ok by lia. cbn.
  unfold aget. change (20 <? 0) with false. by rewrite lookup_ge_None_2 by (rewrite length_insert; lia).
Qed.
(** Five interrupted attempts to connect count as a connection. *)
Theorem interrupted_connect_succeeds fd :
  sock_connect HOST_IP4 (Some fd) (replicate 5 (Some EINTR)) 1000 = Returned fd.
Proof. reflexivity. Qed.
