(* ===== verification/Rpc.v ===== *)
(** * Rpc: the status interface ([src/server/rpc.c])

    A connection that sends HTTP is served here: requests are read into a buffer of 3000
    bytes, parsed, answered one after the other.  What [recv] returns is a list of
    events; the text of the JSON document, other components and the state of other
    connections are arguments. *)

From Stdlib Require Import Ascii.
From S2P Require Import Prelude Timing Types Helper CacheMap UrlDecode FileUtil RpcAcl HttpParse Sockets.
Open Scope Z_scope.

(** ** Strings *)

Definition HTTP_CLOSE : Z := 4.
Definition HTTP_KEEPALIVE : Z := 9.
Definition chartolower (c : Z) : Z := if (65 <=? c) && (c <=? 90) then c + (97 - 65) else c.
(** A [struct string]; [None] is [NULL]. *)
Definition equals (s1 s2 : option (list Z)) : bool :=
  match s1, s2 with
  | None, None => true
  | Some a, Some b => bool_decide (a = b)
  | _, _ => false
  end.
Definition iequals (cmpMixed cmpLower : option (list Z)) : bool :=
  match cmpMixed, cmpLower with
  | None, None => true
  | Some a, Some b => bool_decide (length a = length b) && bool_decide (map chartolower a = b)
  | _, _ => false
  end.
Definition STR_CONNECTION : list Z := ascii_bytes "connection".
Definition STR_CLOSE : list Z := ascii_bytes "close".
Definition STR_QUERY : list Z := ascii_bytes "/query".
Definition STR_CACHEMAP : list Z := ascii_bytes "/cachemap".
Definition STR_Q : list Z := ascii_bytes "q".
Definition STR_ID : list Z := ascii_bytes "id".

Fixpoint hasHeaderValue (mem : list Z) (headers : list phr_header) (name value : list Z) : bool :=
  match headers with
  | [] => false
  | h :: headers =>
      if negb (iequals (cut mem <$> h_name h) (Some name)) then hasHeaderValue mem headers name value
      else if iequals (Some (cut mem (h_value h))) (Some value) then true
      else hasHeaderValue mem headers name value
  end.

(** Replace the bytes from [at_] on. *)
Definition overwrite (mem : list Z) (at_ : Z) (bytes : list Z) : list Z :=
  take (Z.to_nat at_) mem ++ bytes ++ drop (Z.to_nat at_ + length bytes) mem.

Definition shiftField (base : Z) (f : field) : field :=
  Field (base + (f_name f).1, (f_name f).2) (base + (f_value f).1, (f_value f).2).
(** The file, the fields behind the question mark, and the buffer with the values decoded. *)
Definition parsePath (mem : list Z) (path : string_t) : result (string_t * list field * list Z) :=
  let s := cut mem path in
  match list.list_find (fun c => c = 63) s with
  | None => Ok (path, [], mem)
  | Some (i, _) =>
      let base := path.1 + Z.of_nat i + 1 in
      '(fs, decoded) ← urldecode 10 (drop (S i) s);
      Ok ((path.1, Z.of_nat i), map (shiftField base) fs, overwrite mem base decoded)
  end.

(** ** Replies *)

Record reply := Reply { rp_status : string; rp_ctype : string; rp_payload : list Z; rp_keep : Z }.
Definition print_u32 (n : Z) : string := unchars (print_digits 10 (u32 n)).
Definition eol : string := String "013" (String "010" "").
Definition replyHeader (r : reply) : string :=
  "HTTP/1.1 " +:+ rp_status r +:+ eol
  +:+ "Connection: " +:+ (if rp_keep r =? HTTP_KEEPALIVE then "Keep-Alive" else "Close") +:+ eol
  +:+ "Content-Type: " +:+ rp_ctype r +:+ "; charset=utf-8" +:+ eol
  +:+ "Content-Length: " +:+ print_u32 (Z.of_nat (length (rp_payload r))) +:+ eol +:+ eol.
(** [hsent] is what [send] returns for the header, [sends] what it returns afterwards; the
    result is the return value and the bytes on the connection. *)
Definition sendReply (hsent : Z) (sends : list ioResult) (r : reply) : outcome (bool * list Z) :=
  let header := ascii_bytes (replyHeader r) in
  let hlen := Z.of_nat (length header) in
  if 600 <=? hlen then Returned (false, [])
  else if negb (hsent =? hlen) then Returned (false, take (Z.to_nat hsent) header)
  else
    match sock_sendAll sends (rp_payload r) 10 with
    | Waiting => Waiting
    | Returned (ret, wire) =>
        if ret =? 0 then Returned (false, header ++ wire)
        else if rp_keep r =? HTTP_CLOSE then Returned (false, header ++ wire)
        else Returned (true, header ++ wire)
    end.
Definition textReply (status text : string) (keepAlive : Z) : reply :=
  Reply status "text/plain" (ascii_bytes text) keepAlive.

(** ** What can be asked for *)

Inductive section := SStats | SSpace | SImages | SClients | SLogfile | SConfig | SAltservers | SVersion.
#[global] Instance section_eq_dec : EqDecision section.
Proof. solve_decision. Defined.
Definition sectionName (s : section) : list Z :=
  ascii_bytes match s with
  | SStats => "stats" | SSpace => "space" | SImages => "images" | SClients => "clients"
  | SLogfile => "logfile" | SConfig => "config" | SAltservers => "altservers" | SVersion => "version"
  end.
Definition setvarChain : list section :=
  [SStats; SSpace; SImages; SClients; SLogfile; SConfig; SAltservers; SVersion].
Definition noFlags : section -> bool := fun _ => false.
(** The chain of [SETVAR]: the first variable that is not set and has this name. *)
Fixpoint SETVAR (chain : list section) (flags : section -> bool) (value : list Z) : section -> bool :=
  match chain with
  | [] => flags
  | s :: chain =>
      if negb (flags s) && bool_decide (value = sectionName s)
      then fun x => if bool_decide (x = s) then true else flags x
      else SETVAR chain flags value
  end.
Fixpoint readFlags (fields : list (list Z * list Z)) (flags : section -> bool) : section -> bool :=
  match fields with
  | [] => flags
  | (name, value) :: fields =>
      if negb (bool_decide (name = STR_Q)) then readFlags fields flags
      else readFlags fields (SETVAR setvarChain flags value)
  end.

Section Handlers.
(** The JSON document with the sections that are set. *)
Context (render : (section -> bool) -> list Z).

Definition handleStatus (permissions : Z) (fields : list (list Z * list Z)) (keepAlive : Z) : reply :=
  let flags := readFlags fields noFlags in
  let may bit := negb (permissions .& bit =? 0) in
  if (flags SStats || flags SSpace || flags SVersion) && negb (may ACL_STATS) then
    textReply "403 Forbidden" "No permission to access statistics" keepAlive
  else if flags SImages && negb (may ACL_IMAGE_LIST) then
    textReply "403 Forbidden" "No permission to access image list" keepAlive
  else if flags SClients && negb (may ACL_CLIENT_LIST) then
    textReply "403 Forbidden" "No permission to access client list" keepAlive
  else if flags SLogfile && negb (may ACL_LOG) then
    textReply "403 Forbidden" "No permission to access log" keepAlive
  else if flags SConfig && negb (may ACL_CONFIG) then
    textReply "403 Forbidden" "No permission to access config" keepAlive
  else if flags SAltservers && negb (may ACL_ALTSERVERS) then
    textReply "403 Forbidden" "No permission to access altservers" keepAlive
  else Reply "200 OK" "application/json" (render flags) keepAlive.

(** An image as [handleCacheMap] sees it; [im_freed] says that releasing it frees it. *)
Record imageInfo := ImageInfo { im_virtualFilesize : Z; im_cacheMap : option (list Z); im_freed : bool }.
Context (image_byId : Z -> option imageInfo).

(** [strtol] on the buffer: the value has no terminator. *)
Definition strtolAt (mem : list Z) (off : Z) : Z * bool :=
  strtol (unchars (map (fun c => ascii_of_N (Z.to_N c)) (drop (Z.to_nat off) mem))).
Fixpoint findId (mem : list Z) (fields : list field) : Z :=
  match fields with
  | [] => -1
  | f :: fields =>
      if bool_decide (cut mem (f_name f) = STR_ID) then
        let '(v, ok) := strtolAt mem (f_value f).1 in
        if ok then i32 v else findId mem fields
      else findId mem fields
  end.
Definition handleCacheMap (permissions : Z) (mem : list Z) (fields : list field) (keepAlive : Z) : result reply :=
  if permissions .& ACL_IMAGE_LIST =? 0 then
    Ok (textReply "403 Forbidden" "No permission to access image list" keepAlive)
  else
    let imgId := findId mem fields in
    if imgId =? -1 then Ok (textReply "400 Bad Request" "Missing parameter 'id'" keepAlive)
    else
      match image_byId imgId with
      | None => Ok (textReply "404 Not found" "Image not found" keepAlive)
      | Some image =>
          match im_cacheMap image with
          | None => Ok (Reply "200 OK" "application/octet-stream" [255] keepAlive)
          | Some map =>
              if im_freed image then Fault UseAfterFree
              else
                let len := IMGSIZE_TO_MAPBYTES (im_virtualFilesize image) in
                if Z.of_nat (length map) <? len then Fault OutOfBounds
                else Ok (Reply "200 OK" "application/octet-stream" (take (Z.to_nat len) map) keepAlive)
          end
      end.

Definition route (permissions : Z) (mem : list Z) (file : string_t) (fields : list field) (keepAlive : Z) : result reply :=
  if equals (Some (cut mem file)) (Some STR_QUERY) then
    Ok (handleStatus permissions (map (content mem) fields) keepAlive)
  else if equals (Some (cut mem file)) (Some STR_CACHEMAP) then
    handleCacheMap permissions mem fields keepAlive
  else Ok (textReply "404 Not found" "Nothing" keepAlive).

(** ** A connection *)

Inductive netEvent := EvData (bytes : list Z) | EvIntr | EvTimeout | EvFail.
Definition BUFSIZE : Z := 3000.
Definition reply500 : reply := textReply "500 Internal Server Error" "Server made a boo-boo" HTTP_CLOSE.
Definition reply400 : reply :=
  textReply "400 Bad Request" "Server cannot understand what you're trying to say" HTTP_CLOSE.

(** [_shutdown] and [status.overloaded] when they are read for the n-th time. *)
Context (shutdown overloaded : nat -> bool).

Inductive readResult :=
| Got (rq : request) (consumed : Z) (buf : list Z) (hoff : Z) (events : list netEvent) (clock : nat)
| Leave (last : option reply)
| Blocked.

(** The loop that completes one request. *)
Fixpoint readLoop (events : list netEvent) (buf : list Z) (hoff prevLen : Z) (clock : nat) : result readResult :=
  if shutdown clock then Ok (Leave None)
  else if BUFSIZE <=? hoff then Ok (Leave None)
  else
    pret ← (if hoff =? 0 then Ok (PErr (-2)) else phr_parse_request buf hoff 100 prevLen);
    match pret with
    | PDone rq consumed => Ok (Got rq consumed buf hoff events (S clock))
    | PErr r =>
        if r =? -2 then
          match events with
          | [] => Ok Blocked
          | EvData d :: events =>
              if bool_decide (d = []) then Ok (Leave None)
              else if BUFSIZE <? hoff + Z.of_nat (length d) then Fault OutOfBounds
              else readLoop events (overwrite buf hoff d) (hoff + Z.of_nat (length d)) hoff (S clock)
          | EvIntr :: events => readLoop events buf hoff hoff (S clock)
          | EvTimeout :: _ => Ok (Leave None)
          | EvFail :: _ => Ok (Leave (Some reply500))
          end
        else Ok (Leave (Some reply400))
    end.

Definition updateKeepAlive (keepAlive : Z) (mem : list Z) (rq : request) (clock : nat) : Z :=
  if keepAlive =? HTTP_KEEPALIVE then
    if (r_minor rq =? 0) || hasHeaderValue mem (r_headers rq) STR_CONNECTION STR_CLOSE then HTTP_CLOSE
    else if overloaded clock then HTTP_CLOSE else keepAlive
  else keepAlive.

(** [send clock r] is what [sendReply] returns. *)
Context (send : nat -> reply -> bool).

(** The loop over requests: the replies that are sent, and whether the connection is still open
    (waiting for data) when the events are used up. *)
Fixpoint serve (fuel : nat) (permissions : Z) (events : list netEvent) (buf : list Z) (hoff keepAlive : Z) (clock : nat)
    : result (list reply * bool) :=
  match fuel with
  | O => Ok ([], true)
  | S fuel =>
      r ← readLoop events buf hoff 0 clock;
      match r with
      | Blocked => Ok ([], true)
      | Leave None => Ok ([], false)
      | Leave (Some r) => Ok ([r], false)
      | Got rq consumed buf hoff events clock =>
          if shutdown clock then Ok ([], false)
          else
            let keepAlive := updateKeepAlive keepAlive buf rq clock in
            '(file, fields, mem) ← parsePath buf (r_path rq);
            rep ← route permissions mem file fields keepAlive;
            if send clock rep then
              let extra := hoff - consumed in
              let mem := if 0 <? extra then overwrite mem 0 (cut mem (consumed, extra)) else mem in
              '(rest, open) ← serve fuel permissions events mem extra keepAlive (S clock);
              Ok (rep :: rest, open)
            else Ok ([rep], false)
      end
  end.
End Handlers.

(** ** Counting connections *)

Definition MAX_CLIENTS : Z := 50.
Definition CUTOFF_START : Z := 40.
Record status_t := Status { st_count : Z; st_overloaded : bool }.
Definition UPDATE_LOADSTATE (cnt : Z) (s : status_t) : status_t :=
  if cnt <? Z.quot CUTOFF_START 2 then Status (st_count s) false
  else if CUTOFF_START <? cnt then Status (st_count s) true
  else s.

(** ** Permissions *)

Definition required (s : section) : Z :=
  match s with
  | SStats | SSpace | SVersion => ACL_STATS
  | SImages => ACL_IMAGE_LIST
  | SClients => ACL_CLIENT_LIST
  | SLogfile => ACL_LOG
  | SConfig => ACL_CONFIG
  | SAltservers => ACL_ALTSERVERS
  end.
(** A section is asked for by a field [q] with its name. *)
Definition asked (fields : list (list Z * list Z)) (s : section) : bool :=
  existsb (fun f => bool_decide (f.1 = STR_Q) && bool_decide (f.2 = sectionName s)) fields.

Lemma sectionName_inj s t : sectionName s = sectionName t -> s = t.
Proof. destruct s, t; done. Qed.
Lemma SETVAR_spec chain flags value s :
  s ∈ chain -> SETVAR chain flags value s = flags s || bool_decide (value = sectionName s).
Proof.
  induction chain as [|t chain IH]; intros Hs; [by apply elem_of_nil in Hs|]. cbn [SETVAR].
  destruct (flags t) eqn:Et; cbn [negb andb].
  - apply elem_of_cons in Hs as [->|Hs]; [|by apply IH]. rewrite Et. cbn.
    clear IH. revert Et. generalize t. clear t. intros t Et.
    induction chain as [|u chain IH]; cbn [SETVAR]; [done|].
    destruct (negb (flags u) && bool_decide (value = sectionName u)); [|done]. by case_bool_decide.
  - destruct (bool_decide_reflect (value = sectionName t)) as [Hv|Hv].
    + destruct (decide (s = t)) as [->|Hne].
      * rewrite !bool_decide_eq_true_2 by done. by rewrite orb_true_r.
      * rewrite bool_decide_eq_false_2 by done. rewrite bool_decide_eq_false_2; [by rewrite orb_false_r|].
        intros ->. by apply Hne, sectionName_inj.
    + apply elem_of_cons in Hs as [->|Hs]; [|by apply IH].
      rewrite Et, bool_decide_eq_false_2 by done. clear IH.
      induction chain as [|u chain IH]; cbn [SETVAR]; [done|].
      destruct (negb (flags u) && bool_decide (value = sectionName u)) eqn:E; [|done].
      apply andb_true_iff in E as [_ E%bool_decide_eq_true]. rewrite bool_decide_eq_false_2; [done|].
      by intros <-.
Qed.
Lemma chain_all s : s ∈ setvarChain.
Proof. destruct s; apply (bool_decide_unpack _); vm_compute; done. Qed.
Lemma readFlags_spec fields flags s : readFlags fields flags s = flags s || asked fields s.
Proof.
  revert flags. induction fields as [|[n v] fields IH]; intros flags; cbn [readFlags].
  { by rewrite orb_false_r. }
  unfold asked. cbn [existsb fst snd]. case_bool_decide; cbn [negb andb orb]; [|apply IH].
  rewrite IH, SETVAR_spec by apply chain_all. by rewrite orb_assoc.
Qed.

(** What a query may show.  The status document is sent exactly when the permissions cover
    every section that was asked for, and it contains exactly these sections; in every
    other case the answer is 403. *)
Lemma handleStatus_spec render permissions fields keepAlive :
  let r := handleStatus render permissions fields keepAlive in
  ((forall s, asked fields s = true -> permissions .& required s <> 0) ->
   exists flags, (forall s, flags s = asked fields s) /\ r = Reply "200 OK" "application/json" (render flags) keepAlive)
  /\ (forall s, asked fields s = true -> permissions .& required s = 0 ->
      exists text, r = textReply "403 Forbidden" text keepAlive).
Proof.
  cbn zeta. unfold handleStatus. set (flags := readFlags fields noFlags).
  assert (forall s, flags s = asked fields s) as Hf by (intros s; apply readFlags_spec).
  clearbody flags. split.
  - intros Hp. assert (forall s, flags s && negb (negb (permissions .& required s =? 0)) = false) as H.
    { intros s. specialize (Hp s). rewrite Hf. destruct (asked fields s); [|done]. cbn.
      destruct (Z.eqb_spec (permissions .& required s) 0); [by destruct Hp|done]. }
    exists flags. split; [done|]. rewrite !andb_orb_distrib_l.
    pose proof (H SStats) as E1. pose proof (H SSpace) as E2. pose proof (H SVersion) as E3.
    pose proof (H SImages) as E4. pose proof (H SClients) as E5. pose proof (H SLogfile) as E6.
    pose proof (H SConfig) as E7. pose proof (H SAltservers) as E8. cbn [required] in *.
    by rewrite E1, E2, E3, E4, E5, E6, E7, E8.
  - intros s Hs Hp. rewrite <- Hf in Hs. destruct s; cbn [required] in Hp; rewrite Hs, Hp; cbn;
      rewrite ?orb_true_r; cbn; repeat (destruct (_ && _); [by eexists|]); by eexists.
Qed.

(** ** Requests that arrive in parts *)

Lemma bufOverwrite_length mem at_ d :
  0 <= at_ -> at_ + Z.of_nat (length d) <= Z.of_nat (length mem) -> length (overwrite mem at_ d) = length mem.
Proof. intros H0 H. unfold overwrite. rewrite !length_app, length_take, length_drop. lia. Qed.
Lemma overwrite_take mem at_ d :
  0 <= at_ -> at_ + Z.of_nat (length d) <= Z.of_nat (length mem) ->
  take (Z.to_nat (at_ + Z.of_nat (length d))) (overwrite mem at_ d) = take (Z.to_nat at_) mem ++ d.
Proof.
  intros H0 H. unfold overwrite. rewrite app_assoc. rewrite take_app_le by (rewrite length_app, length_take; lia).
  apply take_ge. rewrite length_app, length_take. lia.
Qed.

Abbreviation textLen t := (Z.of_nat (length (requestText t))).
(** The events that complete a request of which [have] has arrived; the last part may contain
    the beginning of what follows, [extra]. *)
Fixpoint delivers (t : http_text) (have : list Z) (events : list netEvent) (extra : list Z) : Prop :=
  match events with
  | [] => have = requestText t ++ extra
  | EvData d :: events => Z.of_nat (length have) < textLen t /\ d <> [] /\ delivers t (have ++ d) events extra
  | EvIntr :: events => Z.of_nat (length have) < textLen t /\ delivers t have events extra
  | _ => False
  end.
(** The first part does not end behind the method or the path. *)
Fixpoint safeStart (t : http_text) (have : list Z) (events : list netEvent) : Prop :=
  match have with
  | _ :: _ => ~ unsafeCut t (Z.of_nat (length have))
  | [] =>
      match events with
      | EvData d :: _ => ~ unsafeCut t (Z.of_nat (length d))
      | EvIntr :: events => safeStart t [] events
      | _ => True
      end
  end.

Lemma delivers_prefix t have events extra :
  delivers t have events extra -> exists more, have ++ more = requestText t ++ extra.
Proof.
  revert have. induction events as [|[d| | |] events IH]; intros have; cbn [delivers]; try done.
  - intros ->. exists []. by rewrite app_nil_r.
  - intros (_ & _ & H). apply IH in H as [more H]. exists (d ++ more). by rewrite app_assoc.
  - intros (_ & H). by apply IH.
Qed.
Lemma delivers_length t have events extra :
  delivers t have events extra -> (length have <= length (requestText t) + length extra)%nat.
Proof.
  intros [more H]%delivers_prefix. apply (f_equal length) in H. rewrite !length_app in H. lia.
Qed.
Lemma safeStart_partial t have events : safeStart t have events -> have <> [] -> ~ unsafeCut t (Z.of_nat (length have)).
Proof. destruct events; cbn; by destruct have. Qed.

(** What is in the buffer, as far as the request is concerned. *)
Definition holds (buf have : list Z) : Prop :=
  length buf = 3000%nat /\ (length have < 3000)%nat /\ take (length have) buf = have.
Lemma holds_received t buf have events extra :
  holds buf have -> delivers t have events extra -> Z.of_nat (length have) < textLen t -> textLen t < BUFSIZE ->
  received t (Z.of_nat (length have)) buf.
Proof.
  unfold BUFSIZE. intros (Hl & _ & Ht) Hd Hp Hb. split; [lia|]. rewrite Nat2Z.id, Ht.
  apply delivers_prefix in Hd as [more E]. apply (f_equal (take (length have))) in E.
  rewrite take_app_length in E. rewrite E at 1. rewrite take_app_le by lia. done.
Qed.
Lemma holds_overwrite buf have d :
  holds buf have -> (length have + length d < 3000)%nat -> holds (overwrite buf (Z.of_nat (length have)) d) (have ++ d).
Proof.
  intros (Hl & Hh & Ht) Hd. split_and!.
  - rewrite bufOverwrite_length; lia.
  - rewrite length_app. lia.
  - rewrite length_app. pose proof (overwrite_take buf (Z.of_nat (length have)) d ltac:(lia) ltac:(lia)) as E.
    rewrite Nat2Z.id, Ht in E. by replace (Z.to_nat _) with (length have + length d)%nat in E by lia.
Qed.

Section ReadLoop.
Context (shutdown : nat -> bool) (Hup : forall n, shutdown n = false).

(** A complete request is recognised, a part of one is not. *)
Lemma parse_holds t buf have prevLen extra :
  text_wf t -> (length (t_headers t) <= 100)%nat -> holds buf have -> have = requestText t ++ extra ->
  0 <= prevLen < textLen t ->
  exists rq, phr_parse_request buf (Z.of_nat (length have)) 100 prevLen = Ok (PDone rq (textLen t))
    /\ requestContent buf rq = t /\ r_path rq = pathAt t.
Proof.
  intros Hw Hh (Hl & Hlt & Ht) -> Hp.
  assert (buf = requestText t ++ (extra ++ drop (length (requestText t ++ extra)) buf)) as E.
  { rewrite app_assoc. rewrite <- Ht at 1. by rewrite take_drop. }
  assert (length (requestText t ++ extra) = length (requestText t) + length extra)%nat as El by apply length_app.
  rewrite El in *. clear Ht El. remember (extra ++ drop _ buf) as r eqn:Er.
  assert (length r + length (requestText t) = 3000)%nat as Hr by (rewrite E, length_app in Hl; lia).
  clear Er. subst buf. apply request_complete; [done..|]. rewrite length_app. lia.
Qed.
(** The loop, whether or not there is another event. *)
Lemma readLoop_eq events buf hoff prevLen clock :
  hoff < BUFSIZE ->
  readLoop shutdown events buf hoff prevLen clock =
    (pret ← (if hoff =? 0 then Ok (PErr (-2)) else phr_parse_request buf hoff 100 prevLen);
     match pret with
     | PDone rq consumed => Ok (Got rq consumed buf hoff events (S clock))
     | PErr r =>
         if r =? -2 then
           match events with
           | [] => Ok Blocked
           | EvData d :: events =>
               if bool_decide (d = []) then Ok (Leave None)
               else if BUFSIZE <? hoff + Z.of_nat (length d) then Fault OutOfBounds
               else readLoop shutdown events (overwrite buf hoff d) (hoff + Z.of_nat (length d)) hoff (S clock)
           | EvIntr :: events => readLoop shutdown events buf hoff hoff (S clock)
           | EvTimeout :: _ => Ok (Leave None)
           | EvFail :: _ => Ok (Leave (Some reply500))
           end
         else Ok (Leave (Some reply400))
     end).
Proof.
  intros Hb. destruct events; cbn [readLoop]; rewrite Hup; (destruct (Z.leb_spec BUFSIZE hoff); [lia|done]).
Qed.
Lemma parse_partial t buf have events extra prevLen :
  text_wf t -> (length (t_headers t) <= 100)%nat -> textLen t < BUFSIZE ->
  holds buf have -> delivers t have events extra -> Z.of_nat (length have) < textLen t ->
  0 <= prevLen <= Z.of_nat (length have) -> (prevLen = 0 -> safeStart t have events) ->
  (if Z.of_nat (length have) =? 0 then Ok (PErr (-2))
   else phr_parse_request buf (Z.of_nat (length have)) 100 prevLen) = Ok (PErr (-2)).
Proof.
  intros Hw Hh Hb Hhold Hd Hlt Hp Hs. destruct (Z.eqb_spec (Z.of_nat (length have)) 0); [done|].
  apply (request_incomplete t); [done..|by eapply holds_received|done|].
  destruct (Z.eqb_spec prevLen 0); [right|by left]. eapply safeStart_partial; [by apply Hs|]. by intros ->.
Qed.

Lemma readLoop_request t extra rest : forall events buf have prevLen clock,
  text_wf t -> (length (t_headers t) <= 100)%nat -> textLen t + Z.of_nat (length extra) < BUFSIZE ->
  holds buf have -> delivers t have events extra ->
  0 <= prevLen <= Z.of_nat (length have) -> prevLen < textLen t -> (prevLen = 0 -> safeStart t have events) ->
  exists rq buf' clock', readLoop shutdown (events ++ rest) buf (Z.of_nat (length have)) prevLen clock
      = Ok (Got rq (textLen t) buf' (textLen t + Z.of_nat (length extra)) rest clock')
    /\ requestContent buf' rq = t /\ r_path rq = pathAt t /\ holds buf' (requestText t ++ extra).
Proof.
  induction events as [|ev events IH]; intros buf have prevLen clock Hw Hh Hb Hhold Hd Hp Hpl Hs; cbn [app].
  all: pose proof (delivers_length _ _ _ _ Hd) as Hlen.
  all: assert (textLen t > 0) as Hpos by (rewrite requestText_length; lia).
  all: rewrite readLoop_eq by (unfold BUFSIZE in *; lia).
  - cbn in Hd. destruct (Z.eqb_spec (Z.of_nat (length have)) 0); [subst; rewrite length_app in *; lia|].
    destruct (parse_holds t buf have prevLen extra) as (rq & E & Hc & Hpa); [done|done|done|done|lia|].
    rewrite E. cbn. exists rq, buf, (S clock). subst have. rewrite length_app, Nat2Z.inj_add. done.
  - destruct (decide (Z.of_nat (length have) < textLen t)) as [Hlt|Hge].
    2:{ destruct ev; cbn in Hd; try done; lia. }
    rewrite (parse_partial t buf have (ev :: events) extra) by (done || lia).
    destruct ev as [d| | |]; cbn in Hd; [|..|done|done]; cbn [mbind result_bind]; rewrite Z.eqb_refl.
    + destruct Hd as (_ & Hd0 & Hd). rewrite bool_decide_eq_false_2 by done.
      pose proof (delivers_length _ _ _ _ Hd) as Hlen'. rewrite length_app in Hlen'.
      destruct (Z.ltb_spec BUFSIZE (Z.of_nat (length have) + Z.of_nat (length d))); [unfold BUFSIZE in *; lia|].
      rewrite <- Nat2Z.inj_add, <- length_app.
      apply IH; [done..|apply holds_overwrite; [done|unfold BUFSIZE in *; lia]|done|rewrite length_app; lia|done|].
      intros E. destruct have; [|cbn in E; lia]. cbn [app]. cbn in Hs. 
      destruct events; cbn; destruct d; try done; apply Hs; cbn in *; lia.
    + destruct Hd as [_ Hd]. apply IH; [done..|lia|done|]. intros E. destruct have; [|cbn in E; lia].
      apply Hs. cbn in *. lia.
Qed.
End ReadLoop.

(** ** Answering *)

(** The file and the fields of a path. *)
Definition queryOf (path : list Z) : list Z * list (list Z * list Z) :=
  match list.list_find (fun c => c = 63) path with
  | None => (path, [])
  | Some (i, _) => (take i path, parseFields 10 (drop (S i) path))
  end.

Lemma cut_overwrite mem base d o n :
  0 <= base -> base + Z.of_nat (length d) <= Z.of_nat (length mem) -> 0 <= o -> 0 <= n -> o + n <= Z.of_nat (length d) ->
  cut (overwrite mem base d) (base + o, n) = cut d (o, n).
Proof.
  intros H0 Hl Ho Hn Hd. unfold cut, overwrite. cbn [fst snd].
  rewrite drop_app_ge by (rewrite length_take; lia). rewrite length_take.
  replace (Z.to_nat (base + o) - _)%nat with (Z.to_nat o) by lia.
  rewrite drop_app_le by lia. rewrite take_app_le by (rewrite length_drop; lia). done.
Qed.
Lemma cut_before mem base d n s :
  0 <= s -> 0 <= n -> s + n <= base -> base + Z.of_nat (length d) <= Z.of_nat (length mem) ->
  cut (overwrite mem base d) (s, n) = cut mem (s, n).
Proof.
  intros Hs Hn Hb Hl. unfold cut, overwrite. cbn [fst snd].
  rewrite drop_app_le by (rewrite length_take; lia).
  rewrite take_app_le by (rewrite length_drop, length_take; lia).
  rewrite <- (take_drop (Z.to_nat base) mem) at 2. rewrite drop_app_le by (rewrite length_take; lia).
  rewrite take_app_le by (rewrite length_drop, length_take; lia). done.
Qed.
Lemma cut_behind mem base d n s :
  0 <= base -> base + Z.of_nat (length d) <= s -> base + Z.of_nat (length d) <= Z.of_nat (length mem) ->
  cut (overwrite mem base d) (s, n) = cut mem (s, n).
Proof.
  intros Hb Hs Hl. unfold cut, overwrite. cbn [fst snd]. f_equal.
  rewrite drop_app_ge by (rewrite length_take; lia). rewrite drop_app_ge by (rewrite length_take; lia).
  rewrite drop_drop. f_equal. rewrite length_take. lia.
Qed.
Lemma cut_length mem s n : 0 <= s -> 0 <= n -> s + n <= Z.of_nat (length mem) -> Z.of_nat (length (cut mem (s, n))) = n.
Proof. intros Hs Hn Hl. unfold cut. cbn. rewrite length_take, length_drop. lia. Qed.
Lemma cut_take mem s n i : 0 <= s -> (Z.of_nat i <= n) -> take i (cut mem (s, n)) = cut mem (s, Z.of_nat i).
Proof. intros Hs Hi. unfold cut. cbn. rewrite take_take. f_equal. lia. Qed.

(** Splitting the path finds its parts and touches only what is behind the question mark. *)
Lemma parsePath_spec mem s n :
  0 <= s -> 0 <= n -> s + n <= Z.of_nat (length mem) ->
  exists file fields mem', parsePath mem (s, n) = Ok (file, fields, mem') /\ length mem' = length mem
    /\ (cut mem' file, map (content mem') fields) = queryOf (cut mem (s, n))
    /\ forall at_ k, s + n <= at_ -> cut mem' (at_, k) = cut mem (at_, k).
Proof.
  intros Hs Hn Hl. unfold parsePath, queryOf. pose proof (cut_length mem s n Hs Hn Hl) as Hcl. cbn [fst snd].
  destruct (list.list_find (fun c => c = 63) (cut mem (s, n))) as [[i c]|] eqn:Ef.
  2:{ by exists (s, n), [], mem. }
  apply list_find_Some in Ef as (Hi & -> & _). apply lookup_lt_Some in Hi.
  destruct (urldecode_spec 10 (drop (S i) (cut mem (s, n)))) as (fs & dec & -> & Hlen & Hfs & Hin).
  cbn [mbind result_bind]. rewrite length_drop in Hlen, Hin. set (base := s + Z.of_nat i + 1).
  assert (base + Z.of_nat (length dec) = s + n) as Hbase by lia.
  exists (s, Z.of_nat i), (map (shiftField base) fs), (overwrite mem base dec).
  split_and!; [done|apply bufOverwrite_length; lia| |].
  - f_equal.
    + rewrite cut_before by lia. symmetry. apply cut_take; lia.
    + rewrite <- Hfs, map_map. apply map_ext_in. intros f Hf. rewrite list.Forall_forall in Hin.
      destruct (Hin f) as [(? & ? & ?) (? & ? & ?)]; [by apply list_elem_of_In|].
      unfold content, shiftField. destruct (f_name f) as [a b], (f_value f) as [c d]. cbn in *.
      f_equal; apply cut_overwrite; lia.
  - intros at_ k Hat. apply cut_behind; lia.
Qed.

(** The connection is to be closed after the request. *)
Definition wantsClose (t : http_text) : bool :=
  (t_minor t =? 0)
  || existsb (fun h => bool_decide (map chartolower h.1 = STR_CONNECTION) && bool_decide (map chartolower h.2 = STR_CLOSE))
       (t_headers t).
Lemma iequals_lower a b : iequals (Some a) (Some b) = bool_decide (map chartolower a = b).
Proof.
  cbn. destruct (bool_decide_reflect (map chartolower a = b)) as [<-|]; [|apply andb_false_r].
  by rewrite length_map, bool_decide_eq_true_2.
Qed.
Lemma hasHeaderValue_spec mem hs name value :
  name <> [] ->
  hasHeaderValue mem hs name value =
  existsb (fun h => bool_decide (map chartolower h.1 = name) && bool_decide (map chartolower h.2 = value))
    (map (headerContent mem) hs).
Proof.
  intros Hn. induction hs as [|h hs IH]; cbn [hasHeaderValue map existsb]; [done|]. rewrite IH, iequals_lower.
  generalize (existsb (fun h => bool_decide (map chartolower h.1 = name) && bool_decide (map chartolower h.2 = value))
    (map (headerContent mem) hs)) as rest. intros rest.
  unfold headerContent. destruct (h_name h) as [nm|]; cbn [fmap option_fmap option_map fst snd].
  - rewrite iequals_lower. destruct (bool_decide _); cbn; [|done]. by destruct (bool_decide _).
  - cbn. rewrite bool_decide_eq_false_2; [done|]. cbn. congruence.
Qed.

Section Serve.
Context (render : (section -> bool) -> list Z) (image_byId : Z -> option imageInfo) (permissions : Z).

(** The answer to a request for anything but a cache map. *)
Definition replyTo (keepAlive : Z) (t : http_text) : reply :=
  let '(file, fields) := queryOf (t_path t) in
  if bool_decide (file = STR_QUERY) then handleStatus render permissions fields keepAlive
  else textReply "404 Not found" "Nothing" keepAlive.
Definition plainRequest (t : http_text) : Prop :=
  text_wf t /\ (length (t_headers t) <= 100)%nat /\ wantsClose t = false /\ (queryOf (t_path t)).1 <> STR_CACHEMAP.

(** Requests as a client sends them over one connection, [have] already being in the buffer:
    each in any number of parts, with interrupted calls in between, or several at once. *)
Inductive stream : list Z -> list http_text -> list netEvent -> Prop :=
| stream_nil : stream [] [] []
| stream_cons t ts have events extra more :
    plainRequest t -> delivers t have events extra -> safeStart t have events ->
    textLen t + Z.of_nat (length extra) < BUFSIZE -> stream extra ts more ->
    stream have (t :: ts) (events ++ more).

Context (shutdown overloaded : nat -> bool) (send : nat -> reply -> bool).
Context (Hup : forall n, shutdown n = false) (Hload : forall n, overloaded n = false).
Context (Hsend : forall n r, rp_keep r = HTTP_KEEPALIVE -> send n r = true).

Lemma route_spec mem file fields t :
  (queryOf (t_path t)).1 <> STR_CACHEMAP -> (cut mem file, map (content mem) fields) = queryOf (t_path t) ->
  route render image_byId permissions mem file fields HTTP_KEEPALIVE = Ok (replyTo HTTP_KEEPALIVE t).
Proof.
  intros Hc Hq. unfold route, replyTo. rewrite <- Hq in *. cbn [fst] in Hc. unfold equals.
  case_bool_decide; [done|]. by rewrite bool_decide_eq_false_2.
Qed.
Lemma replyTo_keep t : rp_keep (replyTo HTTP_KEEPALIVE t) = HTTP_KEEPALIVE.
Proof.
  unfold replyTo. destruct (queryOf _) as [file fields]. case_bool_decide; [|done].
  unfold handleStatus. cbv zeta. by repeat (destruct (_ && _); [done|]).
Qed.
Lemma updateKeepAlive_keep t mem rq clock :
  requestContent mem rq = t -> wantsClose t = false ->
  updateKeepAlive overloaded HTTP_KEEPALIVE mem rq clock = HTTP_KEEPALIVE.
Proof.
  intros <- Hw. unfold updateKeepAlive, wantsClose in *. cbn [t_minor t_headers requestContent] in Hw.
  rewrite hasHeaderValue_spec by done. rewrite Hw. by rewrite Hload.
Qed.
Lemma holds_shift buf mem t extra :
  holds buf (requestText t ++ extra) -> length mem = length buf ->
  (forall k, cut mem (textLen t, k) = cut buf (textLen t, k)) ->
  holds (if 0 <? Z.of_nat (length extra)
         then overwrite mem 0 (cut mem (textLen t, Z.of_nat (length extra))) else mem) extra.
Proof.
  intros (Hl & Hlt & Ht) Hm Hcut.
  rewrite length_app in Hlt. assert (cut mem (textLen t, Z.of_nat (length extra)) = extra) as Hx.
  { rewrite Hcut. unfold cut. cbn. rewrite !Nat2Z.id.
    rewrite length_app in Ht. rewrite <- (take_drop (length (requestText t) + length extra) buf), Ht, <- app_assoc.
    rewrite drop_app_length. apply take_app_length. }
  rewrite Hx. destruct (Z.ltb_spec 0 (Z.of_nat (length extra))).
  - split_and!; [rewrite bufOverwrite_length; lia|lia|]. unfold overwrite. change (Z.to_nat 0) with 0%nat. rewrite take_0, app_nil_l. apply take_app_length.
  - destruct extra; [|cbn in *; lia]. by split_and!; [lia|lia|].
Qed.

Lemma serve_stream have ts events : stream have ts events -> forall fuel buf clock,
  holds buf have -> (length ts < fuel)%nat ->
  serve render image_byId shutdown overloaded send fuel permissions events buf (Z.of_nat (length have)) HTTP_KEEPALIVE clock
  = Ok (map (replyTo HTTP_KEEPALIVE) ts, true).
Proof.
  induction 1 as [|t ts have events extra more (Hw & Hh & Hc & Hq) Hd Hs Hb Hst IH]; intros fuel buf clock Hhold Hf.
  all: destruct fuel as [|fuel]; [cbn in Hf; lia|]; cbn [serve].
  { cbn [readLoop length Z.of_nat]. by rewrite Hup. }
  assert (textLen t > 0) as Hpos by (rewrite requestText_length; lia).
  destruct (readLoop_request shutdown Hup t extra more events buf have 0 clock) as (rq & buf' & clock' & -> & Hrq & Hpath & Hhold');
    [done..|lia|lia|done|].
  cbn [mbind result_bind]. rewrite Hup, (updateKeepAlive_keep t) by done. rewrite Hpath. unfold pathAt.
  pose proof Hhold' as (Hl' & Hlt' & _). rewrite length_app in Hlt'. pose proof (requestText_length t) as HL.
  destruct (parsePath_spec buf' (Z.of_nat (length (t_method t)) + 1) (Z.of_nat (length (t_path t)))) as (file & fields & mem & -> & Hlm & Hqo & Hcut);
    [lia..|].
  cbn [mbind result_bind].
  assert (cut buf' (Z.of_nat (length (t_method t)) + 1, Z.of_nat (length (t_path t))) = t_path t) as Hpt.
  { fold (pathAt t). rewrite <- Hpath. by rewrite <- Hrq. }
  rewrite Hpt in Hqo. rewrite (route_spec mem file fields t) by done. cbn [mbind result_bind].
  rewrite Hsend by apply replyTo_keep. replace (textLen t + _ - _) with (Z.of_nat (length extra)) by lia.
  rewrite (IH fuel _ (S clock')) by (cbn in Hf; lia || (apply (holds_shift buf'); [done..|intros k; apply Hcut; lia])).
  done.
Qed.
End Serve.

Definition demoGet (path : string) : http_text :=
  HttpText (ascii_bytes "GET") (ascii_bytes path) 1 [(ascii_bytes "Host", ascii_bytes "x")].
Lemma demoGet_plain path :
  forallb isTokenByte (ascii_bytes path) = true -> ascii_bytes path <> [] ->
  (queryOf (ascii_bytes path)).1 <> STR_CACHEMAP -> plainRequest (demoGet path).
Proof.
  intros Hp Hn Hc. split_and!; [|cbn; lia|done|done]. split_and!; try done.
  - by apply (bool_decide_unpack _).
  - apply list.Forall_forall. intros c Hx%list_elem_of_In. rewrite forallb_forall in Hp. by apply Hp.
  - repeat (constructor; [by apply header_wfb_ok|]). constructor.
Qed.
Definition demoText (path : string) : list Z := requestText (demoGet path).
(** The first request in two parts with an interrupted call, then the rest of it together
    with the second request. *)
Definition demoEvents : list netEvent :=
  [EvData (take 10 (demoText "/query?q=stats")); EvIntr;
   EvData (drop 10 (demoText "/query?q=stats") ++ demoText "/x")].
Lemma demo_stream : stream [] [demoGet "/query?q=stats"; demoGet "/x"] demoEvents.
Proof.
  apply (stream_cons _ _ _ demoEvents (demoText "/x") []).
  - by apply demoGet_plain.
  - vm_compute. split_and!; done.
  - vm_compute. by intros [|].
  - done.
  - apply (stream_cons _ _ _ [] [] []); [by apply demoGet_plain|done|vm_compute; by intros [|]|done|constructor].
Qed.

(** Nobody sees more than permitted.  A query is answered with the status document
    exactly when the permissions of the host cover every section that it asks for, and
    the document contains exactly these sections; otherwise the answer is 403. *)
Theorem status_respects_permissions render permissions fields keepAlive :
  let r := handleStatus render permissions fields keepAlive in
  ((forall s, asked fields s = true -> permissions .& required s <> 0) ->
   exists flags, (forall s, flags s = asked fields s) /\ r = Reply "200 OK" "application/json" (render flags) keepAlive)
  /\ (forall s, asked fields s = true -> permissions .& required s = 0 ->
      exists text, r = textReply "403 Forbidden" text keepAlive).
Proof. apply handleStatus_spec. Qed.
Lemma status_respects_permissions_witness :
  let fields := [(STR_Q, sectionName SStats); (STR_Q, sectionName SClients)] in
  (exists flags, (forall s, flags s = asked fields s)
     /\ handleStatus (fun _ => []) (ACL_STATS .| ACL_CLIENT_LIST) fields HTTP_CLOSE
        = Reply "200 OK" "application/json" [] HTTP_CLOSE)
  /\ (exists text, handleStatus (fun _ => []) ACL_STATS fields HTTP_CLOSE = textReply "403 Forbidden" text HTTP_CLOSE).
Proof.
  split.
  - apply (status_respects_permissions (fun _ => []) (ACL_STATS .| ACL_CLIENT_LIST)).
    intros []; vm_compute; congruence.
  - by apply (status_respects_permissions (fun _ => []) ACL_STATS _ _) with (s := SClients).
Defined.

(** ** The header of a reply *)

Lemma print_u32_digits n : 0 <= n < 2 ^ 32 -> digits (chars (print_u32 n)) 0 = n.
Proof.
  intros Hn. unfold print_u32. rewrite chars_unchars, u32_id by crange. apply digits_print. lia.
Qed.
(** When everything is sent, the reply is its header and its payload, and the connection is
    used further exactly when this was announced. *)
Lemma sendReply_complete r hsent sends :
  Z.of_nat (length (ascii_bytes (replyHeader r))) < 600 -> hsent = Z.of_nat (length (ascii_bytes (replyHeader r))) ->
  rp_payload r <> [] -> sends = [Count (Z.of_nat (length (rp_payload r)))] ->
  sendReply hsent sends r
  = Returned (negb (rp_keep r =? HTTP_CLOSE), ascii_bytes (replyHeader r) ++ rp_payload r).
Proof.
  intros Hh -> Hp ->. unfold sendReply. destruct (Z.leb_spec 600 (Z.of_nat (length (ascii_bytes (replyHeader r))))); [lia|].
  rewrite Z.eqb_refl. cbn [negb]. unfold sock_sendAll. cbn [sockSendLoop].
  destruct (rp_payload r) as [|b p]; [done|]. set (n := Z.of_nat (length (b :: p))) in *.
  assert (0 < n) as Hn by (unfold n; cbn; lia). destruct (Z.ltb_spec 0 n); [|lia]. cbn [negb].
  change (_ && _) with false. cbn match. destruct (Z.eqb_spec n 0); [lia|]. cbn [sockSendLoop].
  rewrite Z.add_0_l, Z.ltb_irrefl. cbn [negb app]. destruct (Z.eqb_spec n 0); [lia|].
  assert (take (Z.to_nat n) (drop (Z.to_nat 0) (b :: p)) = b :: p) as ->.
  { rewrite drop_0. apply take_ge. unfold n. lia. }
  destruct (Z.eqb_spec n 0); [lia|]. by destruct (rp_keep r =? HTTP_CLOSE).
Qed.

(** ** Counting connections *)

(** What a connection has done: raised the counter, looked at the result, lowered it. *)
Inductive phase := Counted (cnt : Z) | Serving | Refused | Lowered (cnt : Z) | Gone.
Record rpcState := RpcState { rs_status : status_t; rs_sessions : list phase }.
Inductive rpcStep : rpcState -> rpcState -> Prop :=
| step_enter s ss :
    rpcStep (RpcState s ss)
            (RpcState (Status (st_count s + 1) (st_overloaded s)) (ss ++ [Counted (st_count s + 1)]))
| step_check s ss i cnt :
    ss !! i = Some (Counted cnt) ->
    rpcStep (RpcState s ss)
            (RpcState (UPDATE_LOADSTATE cnt s) (<[i := if MAX_CLIENTS <? cnt then Refused else Serving]> ss))
| step_leave s ss i p :
    ss !! i = Some p -> p = Serving \/ p = Refused ->
    rpcStep (RpcState s ss)
            (RpcState (Status (st_count s - 1) (st_overloaded s)) (<[i := Lowered (st_count s - 1)]> ss))
| step_gone s ss i cnt :
    ss !! i = Some (Lowered cnt) ->
    rpcStep (RpcState s ss) (RpcState (UPDATE_LOADSTATE cnt s) (<[i := Gone]> ss)).
Inductive rpcReach : rpcState -> Prop :=
| reach_init : rpcReach (RpcState (Status 0 false) [])
| reach_step a b : rpcReach a -> rpcStep a b -> rpcReach b.

Definition isIn (p : phase) : Z := match p with Counted _ | Serving | Refused => 1 | _ => 0 end.
(** Served, or about to be. *)
Definition isServed (p : phase) : Z :=
  match p with Counted cnt => if MAX_CLIENTS <? cnt then 0 else 1 | Serving => 1 | _ => 0 end.

Lemma UPDATE_count cnt s : st_count (UPDATE_LOADSTATE cnt s) = st_count s.
Proof. unfold UPDATE_LOADSTATE. by repeat destruct (_ <? _). Qed.
Lemma served_le_in ss : zsum isServed ss <= zsum isIn ss.
Proof.
  induction ss as [|p ss IH]; cbn; [done|]. assert (isServed p <= isIn p); [|lia].
  destruct p; cbn; [destruct (_ <? _)|..]; lia.
Qed.
Lemma rpc_count_inv s :
  rpcReach s -> st_count (rs_status s) = zsum isIn (rs_sessions s) /\ zsum isServed (rs_sessions s) <= MAX_CLIENTS.
Proof.
  induction 1 as [|a b _ [IH1 IH2] Hstep]; [done|].
  destruct Hstep as [s ss|s ss i cnt Hi|s ss i p Hi Hp|s ss i cnt Hi]; cbn [rs_status rs_sessions st_count] in *.
  - rewrite !zsum_app. cbn. pose proof (served_le_in ss). unfold MAX_CLIENTS in *.
    destruct (Z.ltb_spec 50 (st_count s + 1)); lia.
  - rewrite UPDATE_count, !(zsum_insert _ _ _ _ _ Hi). cbn [isIn isServed]. destruct (MAX_CLIENTS <? cnt); cbn; lia.
  - rewrite !(zsum_insert _ _ _ _ _ Hi). destruct Hp as [-> | ->]; cbn; lia.
  - rewrite UPDATE_count, !(zsum_insert _ _ _ _ _ Hi). cbn. lia.
Qed.
(** Whatever connections come and go, the counter is the number of those under way, and at
    most fifty are served at once. *)
Theorem rpc_limits_clients s :
  rpcReach s -> 0 <= st_count (rs_status s) /\ zsum isServed (rs_sessions s) <= MAX_CLIENTS.
Proof.
  intros H. destruct (rpc_count_inv s H) as [-> ?]. split; [|done]. apply zsum_nonneg.
  intros i [] _; cbn; lia.
Qed.

(** ** Where the interface does not do what it means to *)

(** A failed or short transfer of the payload counts as success: the connection is used
    further although the client waits for the rest. *)
Theorem short_reply_reported_ok :
  let r := textReply "200 OK" "0123456789" HTTP_KEEPALIVE in
  let hlen := Z.of_nat (length (ascii_bytes (replyHeader r))) in
  sendReply hlen [Count 3; Error EOTHER_SOCK] r = Returned (true, ascii_bytes (replyHeader r) ++ [48; 49; 50])
  /\ sendReply hlen [Error EOTHER_SOCK] r = Returned (true, ascii_bytes (replyHeader r)).
Proof. vm_compute. done. Qed.
(** Complete requests that fill the buffer are not answered: the connection is dropped. *)
Theorem full_buffer_dropped :
  let pipelined := take 3000 (concat (replicate 100 (demoText "/query?q=stats"))) in
  serve (fun _ => []) (fun _ => None) (fun _ => false) (fun _ => false) (fun _ _ => true) 200 ACL_ALL
    [EvData pipelined] (replicate 3000 0) 0 HTTP_KEEPALIVE 0 = Ok ([], false)
  /\ (exists rs, serve (fun _ => []) (fun _ => None) (fun _ => false) (fun _ => false) (fun _ _ => true) 200 ACL_ALL
    [EvData (take 2999 pipelined)] (replicate 3000 0) 0 HTTP_KEEPALIVE 0 = Ok (rs, true) /\ length rs = 74%nat).
Proof. split; [|eexists; split]; vm_compute; reflexivity. Qed.
(** The number of an image has no terminator: decoding [1%32] leaves two digits behind it,
    which are read as part of the number. *)
Theorem cachemap_id_overread :
  ('(_, fields, mem) ← parsePath (ascii_bytes "/cachemap?id=1%32 HTTP/1.1") (0, 17);
   Ok (map (content mem) fields, findId mem fields))
  = Ok ([(STR_ID, ascii_bytes "12")], 1232).
Proof. vm_compute. done. Qed.
