(* ===== verification/ServerFuse.v ===== *)
(** * ServerFuse: images as files ([src/server/fuse.c])

    The server can mount a file system: writing the name of an image to the file [control]
    makes the image appear below the directory [images], where it can be read.  Entries form
    a tree; the pointers [next] and [child] are lists here, and an entry is referred to by
    its inode number.  What libfuse and the image list do is an argument. *)

From Stdlib Require Import Ascii.
From Stdlib Require Import Permutation.
From stdpp Require Import sets.
From S2P Require Import Prelude Timing Types Helper CacheMap Uplink UplinkIO AltServers Wire Net FileUtil.
Open Scope Z_scope.

(** ** The tree *)

Definition INO_ROOT : Z := 1.
Definition INO_CTRL : Z := 2.
Definition INO_DIR : Z := 3.
Definition NAME_CTRL : list ascii := chars "control".
Definition NAME_DIR : list ascii := chars "images".
Definition FUSE_PATHLEN : Z := 2000.

Record lookup_t := Lookup { lu_rid : Z; lu_name : list ascii }.
(** [child] is the list that the pointer [child] starts; [img] is [None] for a directory. *)
Inductive dfuse_entry_t :=
  DEntry (name : list ascii) (size ino refcount : Z) (img : option lookup_t) (child : list dfuse_entry_t).
Definition de_name (e : dfuse_entry_t) := let 'DEntry n _ _ _ _ _ := e in n.
Definition de_size (e : dfuse_entry_t) := let 'DEntry _ s _ _ _ _ := e in s.
Definition de_ino (e : dfuse_entry_t) := let 'DEntry _ _ i _ _ _ := e in i.
Definition de_refcount (e : dfuse_entry_t) := let 'DEntry _ _ _ r _ _ := e in r.
Definition de_img (e : dfuse_entry_t) := let 'DEntry _ _ _ _ i _ := e in i.
Definition de_child (e : dfuse_entry_t) := let 'DEntry _ _ _ _ _ c := e in c.

Fixpoint dirLookup (dir : list dfuse_entry_t) (name : list ascii) : option dfuse_entry_t :=
  match dir with
  | [] => None
  | it :: dir => if bool_decide (de_name it = name) then Some it else dirLookup dir name
  end.

(** The search for an inode number in one entry and everything below it. *)
Fixpoint inoEntry (ino : Z) (it : dfuse_entry_t) : option dfuse_entry_t :=
  let 'DEntry _ _ i _ img child := it in
  if i =? ino then Some it
  else
    match img with
    | None =>
        (fix go (dir : list dfuse_entry_t) : option dfuse_entry_t :=
           match dir with
           | [] => None
           | x :: dir => match inoEntry ino x with Some r => Some r | None => go dir end
           end) child
    | Some _ => None
    end.
Fixpoint inoRecursive (dir : list dfuse_entry_t) (ino : Z) : option dfuse_entry_t :=
  match dir with
  | [] => None
  | x :: dir => match inoEntry ino x with Some r => Some r | None => inoRecursive dir ino end
  end.

(** [entry->size = ...] and [entry->refcount++] through a pointer to an entry: the entry
    with this number is changed, wherever it is. *)
Fixpoint updateEntry (ino : Z) (f : dfuse_entry_t -> dfuse_entry_t) (e : dfuse_entry_t) : dfuse_entry_t :=
  let 'DEntry n s i r img child := e in
  let e' := DEntry n s i r img (map (updateEntry ino f) child) in
  if i =? ino then f e' else e'.
Definition setSize (size : Z) (e : dfuse_entry_t) : dfuse_entry_t :=
  let 'DEntry n _ i r img child := e in DEntry n size i r img child.
Definition addRef (d : Z) (e : dfuse_entry_t) : dfuse_entry_t :=
  let 'DEntry n s i r img child := e in DEntry n s i (r + d) img child.

(** The parts of a name between slashes. *)
Fixpoint splitSlashes (name : list ascii) : list (list ascii) :=
  match name with
  | [] => [[]]
  | c :: name =>
      if Ascii.eqb c "/" then [] :: splitSlashes name
      else match splitSlashes name with
           | [] => [[c]]
           | p :: ps => (c :: p) :: ps
           end
  end.
(** The name of a file: [%s:%d]. *)
Definition fileName (last : list ascii) (rid : Z) : list ascii := last ++ ":"%char :: chars (print_port rid).

(** Replace the children of the first entry with this name. *)
Fixpoint setChild (dir : list dfuse_entry_t) (name : list ascii) (child : list dfuse_entry_t) : list dfuse_entry_t :=
  match dir with
  | [] => []
  | DEntry n s i r img c :: dir =>
      if bool_decide (n = name) then DEntry n s i r img child :: dir
      else DEntry n s i r img c :: setChild dir name child
  end.

(** [addImage] on the parts of the name: the directory, [inoCounter] and the entry ([None] is
    [NULL]).  [rid] is the revision in the file name, [img] what the entry will point to. *)
Fixpoint addImage (counter : Z) (dir : list dfuse_entry_t) (parts : list (list ascii)) (rid : Z) (img : lookup_t)
    : list dfuse_entry_t * Z * option Z :=
  match parts with
  | [] => (dir, counter, None)
  | [last] =>
      let path := fileName last rid in
      match dirLookup dir path with
      | None => (DEntry path 0 counter 0 (Some img) [] :: dir, counter + 1, Some counter)
      | Some e =>
          match de_img e with
          | None => (dir, counter, None)
          | Some _ => (dir, counter, Some (de_ino e))
          end
      end
  | part :: parts =>
      match dirLookup dir part with
      | None =>
          let '(child, counter', r) := addImage (counter + 1) [] parts rid img in
          (DEntry part 0 counter 0 None child :: dir, counter', r)
      | Some e =>
          let '(child, counter', r) := addImage counter (de_child e) parts rid img in
          (setChild dir part child, counter', r)
      end
  end.

(** ** The operations *)

Inductive fuseErr := F_EINVAL | F_EISDIR | F_ENOENT | F_EROFS | F_ESPIPE | F_ENOSPC | F_EIO | F_ENOTDIR | F_EACCES | F_OK.
#[global] Instance fuseErr_eq_dec : EqDecision fuseErr.
Proof. solve_decision. Defined.
Record stat_t := Stat { st_dir : bool; st_mode : Z; st_nlink : Z; st_size : Z; st_ino : Z }.

(** [root->child] and [inoCounter] *)
Record dfuse_t := Dfuse { df_child : list dfuse_entry_t; df_counter : Z }.
Definition dfuse_start : dfuse_t := Dfuse [] 10.
Definition df_root (d : dfuse_t) : list dfuse_entry_t := [DEntry NAME_DIR 0 INO_DIR 2 None (df_child d)].

Definition statInternal (ino : Z) : option stat_t :=
  if (ino =? INO_ROOT) || (ino =? INO_DIR) then Some (Stat true 365 2 0 ino)
  else if ino =? INO_CTRL then Some (Stat false 146 1 0 ino)
  else None.
Definition entryToStat (e : dfuse_entry_t) : stat_t :=
  match de_img e with
  | None => Stat true 365 2 0 (de_ino e)
  | Some _ => Stat false 292 1 (de_size e) (de_ino e)
  end.

Definition ll_lookup (d : dfuse_t) (parent : Z) (name : list ascii) : stat_t + fuseErr :=
  if parent =? INO_ROOT then
    let ino := if bool_decide (name = NAME_DIR) then INO_DIR
               else if bool_decide (name = NAME_CTRL) then INO_CTRL else 0 in
    match (if ino =? 0 then None else statInternal ino) with
    | Some st => inl st
    | None => inr F_ENOENT
    end
  else
    match inoRecursive (df_root d) parent with
    | None => inr F_ENOENT
    | Some dir =>
        match de_img dir with
        | Some _ => inr F_ENOTDIR
        | None =>
            match dirLookup (de_child dir) name with
            | Some e => inl (entryToStat e)
            | None => inr F_ENOENT
            end
        end
    end.
Definition ll_getattr (d : dfuse_t) (ino : Z) : stat_t + fuseErr :=
  match statInternal ino with
  | Some st => inl st
  | None =>
      match inoRecursive (df_root d) ino with
      | Some e => inl (entryToStat e)
      | None => inr F_ENOENT
      end
  end.
Definition ll_setattr := ll_getattr.

(** [fuse_add_direntry] is a function of libfuse: the bytes of an entry with the offset behind
    it. *)
Section ReadDir.
Context (direntry : list ascii -> Z -> Z -> list Z).
Definition dirbuf_add (p : list Z) (name : list ascii) (ino : Z) : list Z :=
  let size := Z.of_nat (length p + length (direntry name 0 0)) in p ++ direntry name ino size.
Definition reply_buf_limited (buf : list Z) (off maxsize : Z) : list Z :=
  if (0 <=? off) && (off <? Z.of_nat (length buf))
  then take (Z.to_nat (Z.min (Z.of_nat (length buf) - off) maxsize)) (drop (Z.to_nat off) buf)
  else [].
Definition rootListing : list Z :=
  dirbuf_add (dirbuf_add (dirbuf_add (dirbuf_add [] (chars ".") INO_ROOT) (chars "..") INO_ROOT) NAME_CTRL INO_CTRL)
    NAME_DIR INO_DIR.
Definition ll_readdir (ino size off : Z) : list Z + fuseErr :=
  if negb (ino =? INO_ROOT) then inr F_EACCES else inl (reply_buf_limited rootListing off size).
End ReadDir.

(** The loop of [ll_write] that finds the name and the revision; [None] is a malformed one. *)
Fixpoint scanControl (buf : list ascii) (i colon rid : Z) : option (Z * Z) :=
  match buf with
  | [] => Some (colon, rid)
  | c :: buf =>
      if Ascii.eqb c NUL || Ascii.eqb c LF then Some (if colon =? 0 then i else colon, rid)
      else if negb (colon =? 0) then
        match digit c with
        | None => None
        | Some d => scanControl buf (i + 1) colon (i32 (rid * 10 + d))
        end
      else if Ascii.eqb c ":" then scanControl buf (i + 1) i rid
      else scanControl buf (i + 1) colon rid
  end.

Section Operations.
(** What [image_getOrLoad] finds: the revision and the size; what [image_get] returns. *)
Context (image_getOrLoad : list ascii -> Z -> option (Z * Z)).
Context {Img : Type} (image_get : list ascii -> Z -> option Img).

Definition ll_write (d : dfuse_t) (ino : Z) (buf : list ascii) (off : Z) : dfuse_t * (Z + fuseErr) :=
  let size := Z.of_nat (length buf) in
  if negb (ino =? INO_CTRL) then (d, inr F_EROFS)
  else if negb (off =? 0) then (d, inr F_ESPIPE)
  else if FUSE_PATHLEN <=? size then (d, inr F_ENOSPC)
  else
    match scanControl buf 0 0 0 with
    | None => (d, inr F_EINVAL)
    | Some (colon, rid) =>
        if (rid <? 0) || (65535 <? rid) then (d, inr F_EINVAL)
        else
          let colon := if colon =? 0 then size else colon in
          let name := cstr (take (Z.to_nat colon) buf) in
          match image_getOrLoad name rid with
          | None => (d, inr F_ENOENT)
          | Some (realRid, virtualFilesize) =>
              match addImage (df_counter d) (df_child d) (splitSlashes name) rid (Lookup realRid name) with
              | (dir, counter, Some e) =>
                  (Dfuse (map (updateEntry e (setSize virtualFilesize)) dir) counter, inl size)
              | (dir, counter, None) => (Dfuse dir counter, inr F_EINVAL)
              end
          end
    end.

(** [fi->fh]: the entry and the image. *)
Record handle_t := Handle { h_entry : Z; h_image : Img }.
Definition O_ACCMODE (flags : Z) : Z := flags .& 3.
Definition ll_open (d : dfuse_t) (ino flags : Z) : dfuse_t * (option handle_t + fuseErr) :=
  if ino =? INO_CTRL then (d, if negb (O_ACCMODE flags =? 1) then inr F_EINVAL else inl None)
  else if ino =? INO_ROOT then (d, inr F_EISDIR)
  else if negb (O_ACCMODE flags =? 0) then (d, inr F_EINVAL)
  else
    match inoRecursive (df_root d) ino with
    | None => (d, inr F_ENOENT)
    | Some entry =>
        match de_img entry with
        | None => (d, inr F_EISDIR)
        | Some lu =>
            if lu_rid lu =? 0 then (d, inr F_ENOENT)
            else
              let d' := Dfuse (map (updateEntry ino (addRef 1)) (df_child d)) (df_counter d) in
              match image_get (lu_name lu) (lu_rid lu) with
              | None => (Dfuse (map (updateEntry ino (addRef (-1))) (df_child d')) (df_counter d'), inr F_ENOENT)
              | Some image => (d', inl (Some (Handle ino image)))
              end
        end
    end.
(** The image is released as well when there is a handle. *)
Definition ll_release (d : dfuse_t) (h : option handle_t) : dfuse_t * option Img :=
  match h with
  | None => (d, None)
  | Some h => (Dfuse (map (updateEntry (h_entry h) (addRef (-1))) (df_child d)) (df_counter d), Some (h_image h))
  end.
End Operations.

(** ** Reading *)

Inductive readReply :=
| ReadError (e : fuseErr)
| ReadData (data : list Z)
| ReadRelayed (off size : Z).
(** [file] is the local file; [relay] says whether [uplink_request] accepts the request. *)
Definition ll_read (image : option dnbd3_image_t) (maxPayload : Z) (relay : bool) (file : list Z) (size off : Z)
    : result readReply :=
  match image with
  | None => Ok (ReadError F_OK)
  | Some image =>
      let virt := img_virtualFilesize image in
      let real := img_realFilesize image in
      if (off <? 0) || (virt <=? off) then Ok (ReadError F_OK)
      else
        let size := if virt <? u64 (off + size) then virt - off else size in
        cached ← match img_cacheMap image with
                 | None => Ok true
                 | Some cache =>
                     let start := off .& not64 (DNBD3_BLOCK_SIZE - 1) in
                     let end_ := u64 (off + size + DNBD3_BLOCK_SIZE - 1) .& not64 (DNBD3_BLOCK_SIZE - 1) in
                     image_isRangeCachedUnsafe cache start end_
                 end;
        if (cached : bool) then
          let readSize := if real <? u64 (off + size) then if real <=? off then 0 else real - off else size in
          let data := if readSize =? 0 then [] else take (Z.to_nat readSize) (drop (Z.to_nat off) file) in
          if readSize =? size then Ok (ReadData data)
          else if DNBD3_BLOCK_SIZE <? size - readSize then Fault OutOfBounds
          else Ok (ReadData (data ++ replicate (Z.to_nat (size - readSize)) 0))
        else
          let size := if maxPayload <? size then maxPayload else size in
          if relay then Ok (ReadRelayed off size) else Ok (ReadError F_EIO)
  end.

(** The answer to a relayed request; [buffer] is [NULL] when the uplink is gone. *)
Definition uplinkCallback (length : Z) (buffer : option (list Z)) : readReply :=
  match buffer with
  | None => ReadError F_EIO
  | Some buffer => ReadData (take (Z.to_nat length) buffer)
  end.

(** ** Trees *)

(** Induction over an entry and everything below it. *)
Section EntryInd.
Context (P : dfuse_entry_t -> Prop).
Hypothesis step : forall n s i r img child, Forall P child -> P (DEntry n s i r img child).
Fixpoint entry_ind (e : dfuse_entry_t) : P e :=
  let 'DEntry n s i r img child := e in
  step n s i r img child
    ((fix all (l : list dfuse_entry_t) : Forall P l :=
        match l with [] => Forall_nil P | x :: l => Forall_cons P x l (entry_ind x) (all l) end) child).
End EntryInd.

(** The inode numbers of a tree. *)
Fixpoint inosOf (e : dfuse_entry_t) : list Z :=
  let 'DEntry _ _ i _ _ child := e in i :: concat (map inosOf child).
Definition inos (dir : list dfuse_entry_t) : list Z := concat (map inosOf dir).

(** The same with the reference counts. *)
Fixpoint refsOf (e : dfuse_entry_t) : list (Z * Z) :=
  let 'DEntry _ _ i r _ child := e in (i, r) :: concat (map refsOf child).
Definition refs (dir : list dfuse_entry_t) : list (Z * Z) := concat (map refsOf dir).

(** Only file names have a colon that is not the first character; a file has no
    children; names are unique in a directory. *)
Definition hasColon (name : list ascii) : Prop := ":"%char ∈ tail name.
#[global] Instance hasColon_dec name : Decision (hasColon name).
Proof. unfold hasColon. apply _. Defined.
Inductive entry_ok : dfuse_entry_t -> Prop :=
| EntryOk n s i r img child :
    base.NoDup (map de_name child) -> Forall entry_ok child ->
    match img with Some _ => hasColon n /\ child = [] | None => ~ hasColon n end ->
    entry_ok (DEntry n s i r img child).
Definition dir_ok (dir : list dfuse_entry_t) : Prop := base.NoDup (map de_name dir) /\ Forall entry_ok dir.
Record tree_wf (d : dfuse_t) : Prop := TreeWf {
  wf_dir : dir_ok (df_child d);
  wf_inos : base.NoDup (inos (df_child d));
  wf_range : Forall (fun i => 10 <= i < df_counter d) (inos (df_child d));
  wf_counter : 10 <= df_counter d;
}.

Lemma inoEntry_eq ino n s i r img child :
  inoEntry ino (DEntry n s i r img child) =
    if i =? ino then Some (DEntry n s i r img child)
    else match img with None => inoRecursive child ino | Some _ => None end.
Proof. cbn. destruct (i =? ino); [done|]. destruct img; [done|]. induction child as [|x child IH]; cbn; [done|]. by rewrite IH. Qed.

(** The entry that a path leads to. *)
Fixpoint walk (dir : list dfuse_entry_t) (parts : list (list ascii)) : option dfuse_entry_t :=
  match parts with
  | [] => None
  | p :: parts =>
      match dirLookup dir p with
      | None => None
      | Some e =>
          match parts with
          | [] => Some e
          | _ => match de_img e with None => walk (de_child e) parts | Some _ => None end
          end
      end
  end.

Lemma dirLookup_in dir name e : dirLookup dir name = Some e -> e ∈ dir /\ de_name e = name.
Proof.
  induction dir as [|x dir IH]; cbn; [done|]. case_bool_decide.
  - intros <-%(inj Some). split; [by left|done].
  - intros (? & ?)%IH. split; [by right|done].
Qed.
Lemma inos_app a b : inos (a ++ b) = inos a ++ inos b.
Proof. unfold inos. by rewrite map_app, concat_app. Qed.
Lemma inos_elem dir e i : e ∈ dir -> i ∈ inosOf e -> i ∈ inos dir.
Proof.
  intros He Hi. unfold inos. apply list_elem_of_In, in_concat. exists (inosOf e). split.
  - by apply in_map, list_elem_of_In.
  - by apply list_elem_of_In.
Qed.
Lemma de_ino_in e : de_ino e ∈ inosOf e.
Proof. destruct e. cbn. by left. Qed.
Lemma child_inos e x i : x ∈ de_child e -> i ∈ inosOf x -> i ∈ inosOf e.
Proof. destruct e as [n s j r img child]. intros Hx Hi. cbn. right. by eapply (inos_elem child). Qed.

(** Searching a number that is not there, or the number of an entry. *)
Lemma inoEntry_none e ino : ino ∉ inosOf e -> inoEntry ino e = None.
Proof.
  induction e as [n s i r img child IH] using entry_ind. rewrite inoEntry_eq. cbn [inosOf]. intros Hn.
  apply not_elem_of_cons in Hn as [Hi Hc]. destruct (Z.eqb_spec i ino); [congruence|]. destruct img; [done|].
  induction IH as [|x child Hx _ IHc]; [done|]. cbn [map concat] in Hc. apply not_elem_of_app in Hc as [H1 H2].
  cbn. by rewrite Hx, IHc.
Qed.
Lemma inoRecursive_found dir e :
  e ∈ dir -> base.NoDup (inos dir) -> forall ino r, inoEntry ino e = Some r -> ino ∈ inosOf e -> inoRecursive dir ino = Some r.
Proof.
  induction dir as [|x dir IH]; intros He Hnd ino r Hr Hin; [by apply elem_of_nil in He|].
  unfold inos in Hnd. cbn [map concat] in Hnd. apply list.NoDup_app in Hnd as (Hx & Hdis & Hnd). cbn.
  apply elem_of_cons in He as [<-|He]; [by rewrite Hr|].
  rewrite inoEntry_none; [by eapply IH|]. intros Hc. apply (Hdis ino Hc). by eapply (inos_elem dir e).
Qed.

(** Every entry that a path leads to is found by its number. *)
Lemma walk_found parts : forall dir e,
  walk dir parts = Some e -> base.NoDup (inos dir) -> inoRecursive dir (de_ino e) = Some e /\ de_ino e ∈ inos dir.
Proof.
  induction parts as [|p parts IH]; intros dir e Hw Hnd; [done|]. cbn [walk] in Hw.
  destruct (dirLookup dir p) as [x|] eqn:Ex; [|done]. apply dirLookup_in in Ex as [Hx _].
  destruct parts as [|q parts].
  - apply (inj Some) in Hw as ->. split; [|by eapply inos_elem, de_ino_in].
    eapply inoRecursive_found; [done..| |apply de_ino_in]. destruct e as [n s i r img child].
    rewrite inoEntry_eq. cbn. by rewrite Z.eqb_refl.
  - destruct x as [n s i r [lu|] child]; [done|]. cbn [de_img de_child] in Hw.
    assert (base.NoDup (inosOf (DEntry n s i r None child))) as Hxnd.
    { apply list_elem_of_split in Hx as (l1 & l2 & ->). rewrite inos_app in Hnd.
      apply list.NoDup_app in Hnd as (_ & _ & Hnd). unfold inos in Hnd. cbn [map concat] in Hnd.
      by apply list.NoDup_app in Hnd as (? & _). }
    cbn [inosOf] in Hxnd. apply list.NoDup_cons in Hxnd as [Hni Hcnd].
    destruct (IH child e Hw Hcnd) as [Hf Hin].
    assert (de_ino e ∈ inosOf (DEntry n s i r None child)) as Hin' by by (cbn; right).
    split; [|by eapply inos_elem]. eapply inoRecursive_found; [done..| |done]. rewrite inoEntry_eq.
    destruct (Z.eqb_spec i (de_ino e)) as [->|]; [|done]. by destruct Hni.
Qed.

(** Replacing the children of an entry. *)
Lemma setChild_split dir p e child :
  dirLookup dir p = Some e -> exists l1 l2, dir = l1 ++ e :: l2 /\ Forall (fun x => de_name x <> p) l1
    /\ setChild dir p child = l1 ++ DEntry (de_name e) (de_size e) (de_ino e) (de_refcount e) (de_img e) child :: l2.
Proof.
  induction dir as [|[n s i r img c] dir IH]; cbn; [done|]. case_bool_decide as Hn.
  - intros <-%(inj Some). by exists [], dir.
  - intros (l1 & l2 & -> & Hl & ->)%IH. exists (DEntry n s i r img c :: l1), l2. split_and!; [done|by constructor|done].
Qed.
Lemma dirLookup_split dir l1 e l2 :
  dir = l1 ++ e :: l2 -> Forall (fun x => de_name x <> de_name e) l1 -> dirLookup dir (de_name e) = Some e.
Proof.
  intros -> Hl. induction Hl as [|x l1 Hx _ IH]; cbn; [by rewrite bool_decide_eq_true_2|].
  by rewrite bool_decide_eq_false_2.
Qed.
Lemma refs_app a b : refs (a ++ b) = refs a ++ refs b.
Proof. unfold refs. by rewrite map_app, concat_app. Qed.
Lemma refs_middle l1 e l2 : refs (l1 ++ e :: l2) ≡ₚ refsOf e ++ refs (l1 ++ l2).
Proof.
  rewrite !refs_app. unfold refs at 2. cbn [map concat]. fold (refs l2). rewrite !app_assoc.
  apply Permutation_app_tail. apply Permutation_app_comm.
Qed.
Lemma inosOf_refs e : inosOf e = (refsOf e).*1.
Proof.
  induction e as [n s i r img child IH] using entry_ind. cbn. f_equal. induction IH as [|x child Hx _ IHc]; [done|].
  cbn. by rewrite fmap_app, Hx, IHc.
Qed.
Lemma inos_refs dir : inos dir = (refs dir).*1.
Proof. induction dir as [|x dir IH]; [done|]. unfold inos, refs in *. cbn. by rewrite fmap_app, inosOf_refs, IH. Qed.

Lemma fileName_colon last rid : last <> [] -> hasColon (fileName last rid).
Proof. intros Hl. destruct last as [|c last]; [done|]. unfold hasColon. cbn. apply elem_of_app. right. by left. Qed.

Definition parts_ok (parts : list (list ascii)) : Prop :=
  Forall (fun p => ~ hasColon p) parts /\ List.last parts [] <> [].
(** The path of the file that a name stands for. *)
Fixpoint filePath (parts : list (list ascii)) (rid : Z) : list (list ascii) :=
  match parts with
  | [] => []
  | [last] => [fileName last rid]
  | p :: parts => p :: filePath parts rid
  end.
Lemma filePath_cons p q parts rid : filePath (p :: q :: parts) rid = p :: filePath (q :: parts) rid.
Proof. done. Qed.
Lemma filePath_ne p parts rid : filePath (p :: parts) rid <> [].
Proof. by destruct parts. Qed.
Lemma walk_cons dir p parts e :
  parts <> [] -> dirLookup dir p = Some e -> de_img e = None -> walk dir (p :: parts) = walk (de_child e) parts.
Proof. intros Hne Hp Hi. cbn [walk]. rewrite Hp. destruct parts; [done|]. by rewrite Hi. Qed.

(** Adding an image: the tree stays well formed, gets exactly the fresh numbers, with count zero, and the path
    of the file leads to the entry that is returned; it points to the image, unless
    the file was there before.  Every path that led to a file still does. *)
Record added (dir dir' : list dfuse_entry_t) (counter counter' : Z) (path : list (list ascii)) (img : lookup_t) (r : option Z)
    : Prop := Added {
  ad_ok : dir_ok dir';
  ad_counter : counter <= counter';
  ad_refs : refs dir' ≡ₚ ((fun i => (i, 0)) <$> seqZ counter (counter' - counter)) ++ refs dir;
  ad_walk : exists e lu, walk dir' path = Some e /\ r = Some (de_ino e) /\ de_img e = Some lu
            /\ (walk dir path = None -> lu = img /\ counter <= de_ino e)
            /\ (forall e0, walk dir path = Some e0 -> e = e0);
  ad_frame : forall q e lu, walk dir q = Some e -> de_img e = Some lu -> walk dir' q = Some e;
}.

Lemma ad_inos dir dir' counter counter' path img r :
  added dir dir' counter counter' path img r -> inos dir' ≡ₚ seqZ counter (counter' - counter) ++ inos dir.
Proof. intros H. rewrite !inos_refs, (ad_refs _ _ _ _ _ _ _ H), fmap_app, <- list_fmap_compose. by rewrite list_fmap_id. Qed.
Lemma dir_ok_entry dir e : dir_ok dir -> e ∈ dir -> entry_ok e.
Proof. intros [_ H] He. rewrite list.Forall_forall in H. by apply H. Qed.
Lemma entry_ok_file e lu : entry_ok e -> de_img e = Some lu -> hasColon (de_name e) /\ de_child e = [].
Proof. intros [n s i r img child _ _ H] He. cbn in *. by subst. Qed.
Lemma entry_ok_dir e : entry_ok e -> de_img e = None -> ~ hasColon (de_name e) /\ dir_ok (de_child e).
Proof. intros [n s i r img child H1 H2 H] He. cbn in *. by subst. Qed.
Lemma dirLookup_none dir p : dirLookup dir p = None -> (p ∉ map de_name dir).
Proof.
  induction dir as [|x dir IH]; cbn; [by intros _ ?%elem_of_nil|]. case_bool_decide; [done|].
  intros Hn [->|Hi]%elem_of_cons; [done|]. by apply IH.
Qed.

Lemma walk_skip x dir q e : walk dir q = Some e -> dirLookup dir (de_name x) = None -> walk (x :: dir) q = Some e.
Proof.
  destruct q as [|p q]; [done|]. cbn [walk dirLookup]. intros Hw Hn. case_bool_decide as E; [|done].
  by rewrite <- E, Hn in Hw.
Qed.
Lemma dirLookup_other l1 x y l2 p : de_name x = de_name y -> p <> de_name x -> dirLookup (l1 ++ x :: l2) p = dirLookup (l1 ++ y :: l2) p.
Proof.
  intros Hn Hp. induction l1 as [|z l1 IH]; cbn; [|by rewrite IH]. rewrite !bool_decide_eq_false_2 by congruence. done.
Qed.
(** One part of the path: a directory that is new, or one that is there. *)
Lemma added_newdir dir child counter counter' p path img r :
  path <> [] -> ~ hasColon p -> dir_ok dir -> dirLookup dir p = None -> added [] child (counter + 1) counter' path img r ->
  added dir (DEntry p 0 counter 0 None child :: dir) counter counter' (p :: path) img r.
Proof.
  intros Hne Hp [Hnd Hok] Hl [[Hcn Hco] Hle Hin (e & lu & Hw & Hr & Hi & Hnew & _) _]. split.
  - split; constructor; [by apply dirLookup_none|done| |done]. by constructor.
  - lia.
  - unfold refs at 1. cbn [map concat refsOf app]. fold (refs child) (refs dir). rewrite Hin. cbn [refs map concat].
    rewrite app_nil_r, (seqZ_cons counter) by lia. rewrite fmap_cons, <- app_comm_cons.
    replace (Z.pred (counter' - counter)) with (counter' - (counter + 1)) by lia. by rewrite <- Z.add_1_r.
  - exists e, lu. split_and!; [|done..| |].
    + rewrite (walk_cons _ _ _ (DEntry p 0 counter 0 None child)); [done..| |done]. cbn. by rewrite bool_decide_eq_true_2.
    + intros _. destruct Hnew as [-> ?]; [by destruct path|]. split; [done|lia].
    + intros e0 H. cbn [walk] in H. by rewrite Hl in H.
  - intros q x lux Hx _. by apply walk_skip.
Qed.
Lemma added_olddir dir e child counter counter' p path img r :
  path <> [] -> ~ hasColon p -> dir_ok dir -> dirLookup dir p = Some e ->
  added (de_child e) child counter counter' path img r -> added dir (setChild dir p child) counter counter' (p :: path) img r.
Proof.
  intros Hne Hp Hdir Hl [Hc Hle Hin (x & lu & Hw & Hr & Hi & Hnew & Hold) Hfr].
  destruct (dirLookup_in _ _ _ Hl) as [He <-]. destruct (setChild_split _ _ _ child Hl) as (l1 & l2 & -> & Hl1 & ->).
  assert (de_img e = None) as Himg.
  { destruct (de_img e) eqn:E; [|done]. by destruct (entry_ok_file e _ (dir_ok_entry _ _ Hdir He) E). }
  destruct Hdir as [Hnd Hok]. destruct e as [n s i rc im ch]. cbn [de_name de_size de_ino de_refcount de_img de_child] in *.
  subst im. split.
  - split; [by rewrite map_app in *|]. apply list.Forall_app in Hok as [H1 [_ H2]%list.Forall_cons].
    apply list.Forall_app. split; [done|]. constructor; [|done]. destruct Hc. by constructor.
  - done.
  - rewrite !refs_middle. cbn [refsOf]. fold (refs child) (refs ch). rewrite Hin. cbn [app].
    rewrite <- app_assoc. by rewrite Permutation_middle.
  - exists x, lu. rewrite (walk_cons _ _ _ (DEntry n s i rc None child)); [|done| |done].
    2: { by eapply (dirLookup_split _ l1 (DEntry n s i rc None child)). }
    by rewrite (walk_cons _ _ _ (DEntry n s i rc None ch)).
  - intros q y luy Hq Hy. set (old := DEntry n s i rc None ch) in *. set (new := DEntry n s i rc None child) in *.
    destruct q as [|q0 q]; [done|]. destruct (decide (q0 = n)) as [->|Hq0].
    + assert (dirLookup (l1 ++ new :: l2) n = Some new) as Hn by by eapply (dirLookup_split _ l1 new).
      cbn [walk] in Hq |- *. rewrite Hn. rewrite Hl in Hq. destruct q as [|q1 q]; [|by apply (Hfr _ _ luy)].
      apply (inj Some) in Hq as <-. done.
    + cbn [walk] in Hq |- *. by rewrite (dirLookup_other l1 new old l2).
Qed.
Lemma addImage_ok rid img parts : forall counter dir dir' counter' r,
  parts_ok parts -> dir_ok dir -> addImage counter dir parts rid img = (dir', counter', r) ->
  added dir dir' counter counter' (filePath parts rid) img r.
Proof.
  induction parts as [|p parts IH]; intros counter dir dir' counter' r [Hcol Hlast] Hdir Hadd; [done|].
  apply list.Forall_cons in Hcol as [Hp Hcol]. destruct parts as [|q parts].
  - cbn [addImage filePath] in *. cbn in Hlast. pose proof (fileName_colon p rid Hlast) as Hfile.
    destruct (dirLookup dir (fileName p rid)) as [e|] eqn:El.
    + destruct (dirLookup_in _ _ _ El) as [He Hn]. destruct (de_img e) as [lu|] eqn:Ei.
      * injection Hadd as <- <- <-. split; [done|done|by rewrite Z.sub_diag| |done]. exists e, lu. cbn [walk]. rewrite El.
        split_and!; [done..|congruence].
      * destruct (entry_ok_dir e (dir_ok_entry _ _ Hdir He) Ei) as [Hno _]. by rewrite Hn in Hno.
    + injection Hadd as <- <- <-. destruct Hdir as [Hnd Hok]. split.
      * split; constructor; [by apply dirLookup_none|done| |done]. constructor; [constructor..|done].
      * lia.
      * replace (counter + 1 - counter) with 1 by lia. by rewrite seqZ_cons by lia.
      * eexists _, img. cbn [walk dirLookup de_name]. rewrite bool_decide_eq_true_2 by done. by rewrite El.
      * intros q x lux Hx _. by apply walk_skip.
  - change (addImage counter dir (p :: q :: parts) rid img) with
      (match dirLookup dir p with
       | None => let '(child, counter', r) := addImage (counter + 1) [] (q :: parts) rid img in
                 (DEntry p 0 counter 0 None child :: dir, counter', r)
       | Some e => let '(child, counter', r) := addImage counter (de_child e) (q :: parts) rid img in
                   (setChild dir p child, counter', r)
       end) in Hadd. rewrite filePath_cons.
    assert (parts_ok (q :: parts)) as Hq by done. destruct (dirLookup dir p) as [e|] eqn:El.
    + destruct (addImage counter (de_child e) (q :: parts) rid img) as [[child c'] r'] eqn:Ea. injection Hadd as <- <- <-.
      apply (added_olddir dir e); [apply filePath_ne|done..|]. apply IH; [done| |done].
      destruct (dirLookup_in _ _ _ El) as [He Hn]. pose proof (dir_ok_entry _ _ Hdir He) as Hent.
      destruct (de_img e) eqn:Ei; [|by apply entry_ok_dir].
      destruct (entry_ok_file e _ Hent Ei) as [Hc _]. by rewrite Hn in Hc.
    + destruct (addImage (counter + 1) [] (q :: parts) rid img) as [[child c'] r'] eqn:Ea. injection Hadd as <- <- <-.
      apply added_newdir; [apply filePath_ne|done..|]. apply IH; [done| |done]. split; constructor.
Qed.

(** ** Names written to [control] *)

Lemma splitSlashes_elem name : forall p c, p ∈ splitSlashes name -> c ∈ p -> c ∈ name.
Proof.
  induction name as [|x name IH]; intros p c Hp Hc; cbn in Hp.
  - by apply list_elem_of_singleton in Hp as ->.
  - destruct (Ascii.eqb x "/").
    + apply elem_of_cons in Hp as [->|Hp]; [by apply elem_of_nil in Hc|]. right. by eapply IH.
    + destruct (splitSlashes name) as [|q ps].
      * apply list_elem_of_singleton in Hp as ->. apply list_elem_of_singleton in Hc as ->. by left.
      * apply elem_of_cons in Hp as [->|Hp]; [|right; by eapply IH; [right|]].
        apply elem_of_cons in Hc as [->|Hc]; [by left|]. right. by eapply IH; [left|].
Qed.
Lemma splitSlashes_ne name : splitSlashes name <> [].
Proof. destruct name as [|c name]; cbn; [done|]. destruct (Ascii.eqb c "/"); [done|]. by destruct (splitSlashes name). Qed.
Lemma splitSlashes_colon name : ~ hasColon name -> Forall (fun p => ~ hasColon p) (splitSlashes name).
Proof.
  unfold hasColon. destruct name as [|x name]; cbn [tail]; intros Hn.
  - constructor; [|constructor]. by intros ?%elem_of_nil.
  - rewrite list.Forall_forall. intros p Hp Hc. apply Hn.
    assert (":"%char ∈ p) as Hcp by (destruct p; [done|by right]). cbn in Hp. destruct (Ascii.eqb x "/").
    + apply elem_of_cons in Hp as [->|Hp]; [by apply elem_of_nil in Hc|]. by eapply splitSlashes_elem.
    + destruct (splitSlashes name) as [|q ps] eqn:E; [by destruct (splitSlashes_ne name)|].
      apply elem_of_cons in Hp as [->|Hp]; eapply splitSlashes_elem; rewrite ?E; [by left|done|by right|done].
Qed.
Lemma List_last_cons {A} (x d : A) l : l <> [] -> List.last (x :: l) d = List.last l d.
Proof. by destruct l. Qed.
Lemma splitSlashes_last name : name <> [] -> List.last name NUL <> "/"%char -> List.last (splitSlashes name) [] <> [].
Proof.
  induction name as [|x name IH]; intros Hne Hl; [done|]. cbn [splitSlashes]. destruct name as [|y name].
  - cbn in *. destruct (Ascii.eqb_spec x "/"); [done|]. done.
  - rewrite List_last_cons in Hl by done. specialize (IH ltac:(done) Hl). pose proof (splitSlashes_ne (y :: name)) as Hs.
    destruct (Ascii.eqb x "/"); [by rewrite List_last_cons|]. destruct (splitSlashes (y :: name)) as [|q ps]; [done|].
    destruct ps; [done|]. by rewrite List_last_cons in * by done.
Qed.

Lemma scanControl_colon buf : forall i colon rid c r, colon <> 0 -> scanControl buf i colon rid = Some (c, r) -> c = colon.
Proof.
  induction buf as [|x buf IH]; intros i colon rid c r Hc Hs; cbn [scanControl] in Hs; [congruence|].
  destruct (Z.eqb_spec colon 0); [done|]. destruct (Ascii.eqb x NUL || Ascii.eqb x LF); [congruence|]. cbn [negb] in Hs.
  destruct (digit x); [|done]. by eapply IH.
Qed.
Lemma scanControl_name buf : forall i c r, 1 <= i -> scanControl buf i 0 0 = Some (c, r) ->
  if c =? 0 then ":"%char ∉ buf else i <= c /\ ":"%char ∉ take (Z.to_nat (c - i)) buf.
Proof.
  induction buf as [|x buf IH]; intros i c r Hi Hs; cbn [scanControl] in Hs.
  - injection Hs as <- <-. cbn. by intros ?%elem_of_nil.
  - cbn [Z.eqb negb] in Hs. destruct (Ascii.eqb x NUL || Ascii.eqb x LF).
    { injection Hs as <- <-. destruct (Z.eqb_spec i 0); [lia|]. rewrite Z.sub_diag. cbn. split; [lia|by intros ?%elem_of_nil]. }
    destruct (Ascii.eqb_spec x ":") as [->|Hx].
    { apply scanControl_colon in Hs as ->; [|lia]. destruct (Z.eqb_spec i 0); [lia|]. rewrite Z.sub_diag. cbn.
      split; [lia|by intros ?%elem_of_nil]. }
    specialize (IH (i + 1) c r ltac:(lia) Hs). destruct (c =? 0).
    + by apply not_elem_of_cons.
    + destruct IH as [Hle Hn]. split; [lia|]. replace (Z.to_nat (c - i)) with (S (Z.to_nat (c - (i + 1)))) by lia.
      by apply not_elem_of_cons.
Qed.
(** The name that a buffer holds. *)
Definition controlName (buf : list ascii) (colon : Z) : list ascii :=
  cstr (take (Z.to_nat (if colon =? 0 then Z.of_nat (length buf) else colon)) buf).
Lemma cstr_elem l : forall c, c ∈ cstr l -> c ∈ l.
Proof.
  induction l as [|x l IH]; intros c; cbn; [done|]. destruct (Ascii.eqb x NUL); [by intros ?%elem_of_nil|].
  intros [->|Hc]%elem_of_cons; [by left|]. right. by apply IH.
Qed.
Lemma controlName_colon buf colon rid :
  head buf <> Some LF -> scanControl buf 0 0 0 = Some (colon, rid) -> ~ hasColon (controlName buf colon).
Proof.
  unfold hasColon, controlName. destruct buf as [|x buf]; intros Hh Hs.
  - cbn in Hs. injection Hs as <- <-. by intros ?%elem_of_nil.
  - cbn [scanControl Z.eqb negb] in Hs. destruct (Ascii.eqb_spec x NUL) as [->|Hx].
    { injection Hs as <- <-. cbn [Z.eqb]. rewrite Nat2Z.id. cbn. by intros ?%elem_of_nil. }
    destruct (Ascii.eqb_spec x LF) as [->|_]; [done|]. cbn [orb] in Hs.
    assert (scanControl buf 1 0 0 = Some (colon, rid)) as Hs' by by destruct (Ascii.eqb x ":").
    apply scanControl_name in Hs'; [|lia]. intros Hc. destruct (Z.eqb_spec colon 0) as [->|Hcol].
    + rewrite Nat2Z.id, take_ge in Hc by done. cbn in Hc. rewrite (proj2 (Ascii.eqb_neq _ _) Hx) in Hc. cbn in Hc.
      by apply cstr_elem in Hc.
    + destruct Hs' as [Hle Hn]. replace (Z.to_nat colon) with (S (Z.to_nat (colon - 1))) in Hc by lia.
      cbn in Hc. rewrite (proj2 (Ascii.eqb_neq _ _) Hx) in Hc. cbn in Hc. by apply cstr_elem in Hc.
Qed.

(** ** Changing an entry in place *)

Definition keeps (f : dfuse_entry_t -> dfuse_entry_t) : Prop :=
  forall e, de_name (f e) = de_name e /\ de_ino (f e) = de_ino e /\ de_img (f e) = de_img e /\ de_child (f e) = de_child e.
Lemma setSize_keeps size : keeps (setSize size).
Proof. by intros []. Qed.
Lemma addRef_keeps n : keeps (addRef n).
Proof. by intros []. Qed.

Section Update.
Context (k : Z) (f : dfuse_entry_t -> dfuse_entry_t) (Hf : keeps f).
Local Abbreviation upd := (updateEntry k f).

Lemma updateEntry_fields e :
  de_name (upd e) = de_name e /\ de_ino (upd e) = de_ino e /\ de_img (upd e) = de_img e /\ de_child (upd e) = map upd (de_child e).
Proof.
  destruct e as [n s i r img child]. cbn. destruct (i =? k); [|done]. by destruct (Hf (DEntry n s i r img (map upd child))) as (-> & -> & -> & ->).
Qed.
Lemma updateEntry_names dir : map de_name (map upd dir) = map de_name dir.
Proof. rewrite map_map. apply map_ext. intros e. apply updateEntry_fields. Qed.
Lemma inosOf_eq e : inosOf e = de_ino e :: inos (de_child e).
Proof. by destruct e. Qed.
Lemma updateEntry_inosOf e : inosOf (upd e) = inosOf e.
Proof.
  induction e as [n s i r img child IH] using entry_ind. destruct (updateEntry_fields (DEntry n s i r img child)) as (_ & Hi & _ & Hc).
  rewrite !inosOf_eq, Hi, Hc. cbn [de_ino de_child]. f_equal. unfold inos. f_equal. rewrite map_map. clear Hi Hc.
  induction IH as [|x child Hx _ IHc]; [done|]. cbn. by rewrite Hx, IHc.
Qed.
Lemma updateEntry_inos dir : inos (map upd dir) = inos dir.
Proof. unfold inos. f_equal. rewrite map_map. apply map_ext. apply updateEntry_inosOf. Qed.
Lemma entry_ok_intro e :
  dir_ok (de_child e) -> match de_img e with Some _ => hasColon (de_name e) /\ de_child e = [] | None => ~ hasColon (de_name e) end -> entry_ok e.
Proof. destruct e. cbn. intros [? ?] ?. by constructor. Qed.
Lemma updateEntry_ok e : entry_ok e -> entry_ok (upd e).
Proof.
  induction e as [n s i r img child IH] using entry_ind. intros Hok. inversion Hok as [? ? ? ? ? ? Hnd Hall Hm]; subst.
  destruct (updateEntry_fields (DEntry n s i r img child)) as (Hn & _ & Hi & Hc). cbn [de_name de_img de_child] in *.
  apply entry_ok_intro; rewrite Hc, ?Hn, ?Hi.
  - split; [by rewrite updateEntry_names|]. apply list.Forall_forall. intros x Hx%list_elem_of_In.
    apply in_map_iff in Hx as (y & <- & Hy%list_elem_of_In). rewrite list.Forall_forall in IH, Hall. by apply IH, Hall.
  - destruct img; [|done]. destruct Hm as [? ->]. done.
Qed.
Lemma updateEntry_dir_ok dir : dir_ok dir -> dir_ok (map upd dir).
Proof.
  intros [Hnd Hok]. split; [by rewrite updateEntry_names|]. apply List.Forall_map.
  apply (list.Forall_impl entry_ok); [done|]. intros x. apply updateEntry_ok.
Qed.
Lemma updateEntry_wf dir counter : tree_wf (Dfuse dir counter) -> tree_wf (Dfuse (map upd dir) counter).
Proof. intros [H1 H2 H3 H4]. split; cbn [df_child df_counter] in *; rewrite ?updateEntry_inos; [by apply updateEntry_dir_ok|done..]. Qed.

Lemma updateEntry_lookup dir p : dirLookup (map upd dir) p = upd <$> dirLookup dir p.
Proof.
  induction dir as [|x dir IH]; [done|]. cbn [map dirLookup]. destruct (updateEntry_fields x) as (-> & _).
  case_bool_decide; [done|]. apply IH.
Qed.
Lemma updateEntry_walk parts : forall dir, walk (map upd dir) parts = upd <$> walk dir parts.
Proof.
  induction parts as [|p parts IH]; intros dir; [done|]. cbn [walk]. rewrite updateEntry_lookup.
  destruct (dirLookup dir p) as [e|]; [|done]. cbn [fmap option_fmap option_map]. destruct parts; [done|].
  destruct (updateEntry_fields e) as (_ & _ & -> & ->). destruct (de_img e); [done|]. apply IH.
Qed.
End Update.
(** An entry that is a file and has another number stays as it is. *)
Lemma updateEntry_file k f e lu : entry_ok e -> de_img e = Some lu -> updateEntry k f e = if de_ino e =? k then f e else e.
Proof.
  intros Hok Hi. destruct (entry_ok_file e lu Hok Hi) as [_ Hc]. destruct e as [n s i r img child]. cbn in *. subst child. done.
Qed.

(** ** Writing to [control] *)

Lemma tree_wf_start : tree_wf dfuse_start.
Proof. split; cbn; [split; constructor|constructor|constructor|lia]. Qed.
Lemma added_wf d dir counter path img r : tree_wf d -> added (df_child d) dir (df_counter d) counter path img r -> tree_wf (Dfuse dir counter).
Proof.
  intros [_ H2 H3 H4] Hadd. pose proof (ad_inos _ _ _ _ _ _ _ Hadd) as Hin. destruct Hadd as [Hok Hle _ _ _].
  split; cbn [df_child df_counter]; [done|..|lia]; rewrite Hin.
  - apply list.NoDup_app. split_and!; [apply NoDup_seqZ| |done]. intros i Hi Hi'. rewrite list.Forall_forall in H3.
    apply H3 in Hi'. apply elem_of_seqZ in Hi. lia.
  - apply list.Forall_app. split.
    + apply list.Forall_forall. intros i Hi. apply elem_of_seqZ in Hi. lia.
    + eapply list.Forall_impl; [done|]. cbn. lia.
Qed.
Lemma walk_entry_ok parts : forall dir e, dir_ok dir -> walk dir parts = Some e -> entry_ok e.
Proof.
  induction parts as [|p parts IH]; intros dir e Hok Hw; [done|]. cbn [walk] in Hw.
  destruct (dirLookup dir p) as [x|] eqn:El; [|done]. apply dirLookup_in in El as [Hx _].
  pose proof (dir_ok_entry _ _ Hok Hx) as Hxo. destruct parts as [|q parts]; [congruence|].
  destruct (de_img x) eqn:Ei; [done|]. eapply IH; [|done]. by apply entry_ok_dir.
Qed.

Section WriteSpec.
Context (image_getOrLoad : list ascii -> Z -> option (Z * Z)).
(** [image_getOrLoad] and [image_get] refuse the empty name and one that ends in a slash. *)
Hypothesis refuses : forall name rid, image_getOrLoad name rid <> None -> name <> [] /\ List.last name NUL <> "/"%char.

(** What a write that finds its image does to the tree. *)
Lemma ll_write_added d buf colon rid realRid size :
  tree_wf d -> head buf <> Some LF -> Z.of_nat (length buf) < FUSE_PATHLEN ->
  scanControl buf 0 0 0 = Some (colon, rid) -> 0 <= rid <= 65535 ->
  let name := controlName buf colon in
  image_getOrLoad name rid = Some (realRid, size) ->
  exists dir counter e lu, ll_write image_getOrLoad d INO_CTRL buf 0
      = (Dfuse (map (updateEntry (de_ino e) (setSize size)) dir) counter, inl (Z.of_nat (length buf)))
    /\ added (df_child d) dir (df_counter d) counter (filePath (splitSlashes name) rid) (Lookup realRid name) (Some (de_ino e))
    /\ walk dir (filePath (splitSlashes name) rid) = Some e /\ de_img e = Some lu.
Proof.
  intros Hwf Hh Hlen Hs Hrid name Hget. unfold ll_write. rewrite Z.eqb_refl. cbn [negb Z.eqb].
  destruct (Z.leb_spec FUSE_PATHLEN (Z.of_nat (length buf))); [lia|]. rewrite Hs.
  destruct (Z.ltb_spec rid 0); [lia|]. destruct (Z.ltb_spec 65535 rid); [lia|]. cbn [orb].
  fold (controlName buf colon). fold name. rewrite Hget.
  destruct (addImage (df_counter d) (df_child d) (splitSlashes name) rid (Lookup realRid name)) as [[dir counter] r] eqn:Ea.
  apply addImage_ok in Ea.
  - destruct (ad_walk _ _ _ _ _ _ _ Ea) as (e & lu & Hw & -> & Hi & _). by exists dir, counter, e, lu.
  - destruct (refuses name rid) as [Hne Hlast]; [congruence|]. split.
    + apply splitSlashes_colon. by eapply controlName_colon.
    + by apply splitSlashes_last.
  - apply Hwf.
Qed.
(** Every write leaves the tree alone or adds one image. *)
Lemma ll_write_cases d ino buf off :
  tree_wf d -> head buf <> Some LF ->
  (ll_write image_getOrLoad d ino buf off).1 = d
  \/ exists dir counter path img r k size, added (df_child d) dir (df_counter d) counter path img r
     /\ (ll_write image_getOrLoad d ino buf off).1 = Dfuse (map (updateEntry k (setSize size)) dir) counter.
Proof.
  intros Hwf Hh. destruct (Z.eqb_spec ino INO_CTRL) as [->|Hi].
  2: { left. unfold ll_write. by rewrite (proj2 (Z.eqb_neq _ _) Hi). }
  destruct (Z.eqb_spec off 0) as [->|Ho].
  2: { left. unfold ll_write. by rewrite (proj2 (Z.eqb_neq _ _) Ho). }
  destruct (Z.leb_spec FUSE_PATHLEN (Z.of_nat (length buf))) as [Hl|Hl].
  { left. unfold ll_write. by rewrite (proj2 (Z.leb_le _ _) Hl). }
  destruct (scanControl buf 0 0 0) as [[colon rid]|] eqn:Es.
  2: { left. unfold ll_write. rewrite (proj2 (Z.leb_gt _ _) Hl). by rewrite Es. }
  destruct ((rid <? 0) || (65535 <? rid)) eqn:Er.
  { left. unfold ll_write. by rewrite (proj2 (Z.leb_gt _ _) Hl), Es, Er. }
  destruct (image_getOrLoad (controlName buf colon) rid) as [[realRid size]|] eqn:Eg.
  2: { left. unfold ll_write. rewrite (proj2 (Z.leb_gt _ _) Hl), Es, Er. fold (controlName buf colon). by rewrite Eg. }
  right. destruct (ll_write_added d buf colon rid realRid size) as (dir & counter & e & lu & -> & Ha & _); [done|done|lia|done| |done|].
  - apply orb_false_iff in Er as [?%Z.ltb_ge ?%Z.ltb_ge]. lia.
  - by eexists dir, counter, _, _, _, (de_ino e), size.
Qed.
End WriteSpec.

(** ** Reference counts *)

Lemma updateEntry_refs k (f : dfuse_entry_t -> dfuse_entry_t) n dir :
  keeps f -> (forall e, de_refcount (f e) = de_refcount e + n) ->
  refs (map (updateEntry k f) dir) = (fun x => (x.1, if x.1 =? k then x.2 + n else x.2)) <$> refs dir.
Proof.
  intros Hf Hr. set (g := fun x : Z * Z => (x.1, if x.1 =? k then x.2 + n else x.2)).
  assert (forall e, refsOf (updateEntry k f e) = g <$> refsOf e) as He.
  { intros e. induction e as [nm s i r img child IH] using entry_ind.
    assert (concat (map refsOf (map (updateEntry k f) child)) = g <$> concat (map refsOf child)) as Hc.
    { induction IH as [|x child Hx _ IHc]; [done|]. cbn. by rewrite fmap_app, Hx, IHc. }
    cbn [updateEntry refsOf]. rewrite fmap_cons. rewrite <- Hc. unfold g at 1. cbn [fst snd].
    destruct (i =? k); [|done]. set (e' := DEntry nm s i r img (map (updateEntry k f) child)).
    destruct (Hf e') as (_ & H2 & _ & H4). specialize (Hr e').
    destruct (f e') as [n' s' i' r' img' c'] eqn:Ef. cbn in *. by subst. }
  induction dir as [|x dir IH]; [done|]. unfold refs in *. cbn. by rewrite fmap_app, He, IH.
Qed.
Lemma inoRecursive_ino dir : forall ino e, inoRecursive dir ino = Some e -> de_ino e = ino /\ ino ∈ inos dir.
Proof.
  assert (forall x ino e, inoEntry ino x = Some e -> de_ino e = ino /\ ino ∈ inosOf x) as Hx.
  { intros x. induction x as [n s i r img child IH] using entry_ind. intros ino e. rewrite inoEntry_eq.
    destruct (Z.eqb_spec i ino) as [->|Hi]; [intros <-%(inj Some); split; [done|by left]|]. destruct img; [done|].
    intros Hr. assert (de_ino e = ino /\ ino ∈ inos child) as [? ?]; [|split; [done|by right]].
    induction IH as [|x child Hx _ IHc]; [done|]. unfold inos. cbn [inoRecursive map concat] in *.
    destruct (inoEntry ino x) eqn:Ex.
    - apply (inj Some) in Hr as ->. destruct (Hx _ _ Ex). split; [done|]. apply elem_of_app. by left.
    - destruct (IHc Hr). split; [done|]. apply elem_of_app. by right. }
  induction dir as [|x dir IH]; intros ino e Hr; [done|]. unfold inos. cbn [inoRecursive map concat] in *.
  destruct (inoEntry ino x) eqn:Ex.
  - apply (inj Some) in Hr as ->. destruct (Hx _ _ _ Ex). split; [done|]. apply elem_of_app. by left.
  - destruct (IH _ _ Hr). split; [done|]. apply elem_of_app. by right.
Qed.

(** The requests that change the tree, with what the image list answers them. *)
Inductive fuse_op :=
| OpWrite (image_getOrLoad : list ascii -> Z -> option (Z * Z)) (ino : Z) (buf : list ascii) (off : Z)
| OpOpen (image_get : list ascii -> Z -> option unit) (ino flags : Z)
| OpRelease (n : nat).
(** The tree and the entries of the open handles. *)
Definition fuse_step (s : dfuse_t * list Z) (op : fuse_op) : dfuse_t * list Z :=
  let '(d, handles) := s in
  match op with
  | OpWrite get ino buf off => ((ll_write get d ino buf off).1, handles)
  | OpOpen get ino flags =>
      match ll_open get d ino flags with
      | (d', inl (Some h)) => (d', h_entry h :: handles)
      | (d', _) => (d', handles)
      end
  | OpRelease n =>
      match handles !! n with
      | Some i => ((ll_release d (Some (Handle i tt))).1, delete n handles)
      | None => s
      end
  end.
Definition op_ok (op : fuse_op) : Prop :=
  match op with
  | OpWrite get _ buf _ =>
      head buf <> Some LF
      /\ forall name rid, get name rid <> None -> name <> [] /\ List.last name NUL <> "/"%char
  | _ => True
  end.
Definition opens (i : Z) (handles : list Z) : Z := Z.of_nat (count_occ Z.eq_dec handles i).
Record handles_ok (s : dfuse_t * list Z) : Prop := HandlesOk {
  ho_wf : tree_wf s.1;
  ho_known : Forall (fun i => i ∈ inos (df_child s.1)) s.2;
  ho_count : Forall (fun x => x.2 = opens x.1 s.2) (refs (df_child s.1));
}.
Lemma handles_update d h h' k n :
  handles_ok (d, h) -> (forall i, opens i h' = opens i h + if i =? k then n else 0) ->
  Forall (fun i => i ∈ inos (df_child d)) h' ->
  handles_ok (Dfuse (map (updateEntry k (addRef n)) (df_child d)) (df_counter d), h').
Proof.
  intros [Hwf _ Hc] Hopen Hk. cbn [fst snd] in *. split; cbn [fst snd df_child df_counter].
  - apply updateEntry_wf; [apply addRef_keeps|]. by destruct d.
  - by rewrite updateEntry_inos by apply addRef_keeps.
  - rewrite (updateEntry_refs k (addRef n) n) by (apply addRef_keeps || by intros []).
    apply list.Forall_fmap. eapply list.Forall_impl; [done|]. intros [i r]. cbn. intros ->. rewrite Hopen.
    destruct (i =? k); lia.
Qed.
Lemma opens_cons i k h : opens i (k :: h) = opens i h + if i =? k then 1 else 0.
Proof. unfold opens. cbn. destruct (Z.eq_dec k i); destruct (Z.eqb_spec i k); try congruence; lia. Qed.
Lemma opens_unknown i h : i ∉ h -> opens i h = 0.
Proof. unfold opens. intros Hi. rewrite (proj1 (count_occ_not_In _ _ _)); [done|]. by rewrite <- list_elem_of_In. Qed.
Lemma opens_perm i h h' : h ≡ₚ h' -> opens i h = opens i h'.
Proof. intros H. unfold opens. by rewrite (Permutation_count_occ Z.eq_dec) in H; rewrite H. Qed.
Lemma inoRecursive_file d ino e lu : inoRecursive (df_root d) ino = Some e -> de_img e = Some lu -> ino ∈ inos (df_child d).
Proof.
  unfold df_root. cbn [inoRecursive]. rewrite inoEntry_eq. destruct (INO_DIR =? ino); [by intros <-%(inj Some)|].
  destruct (inoRecursive (df_child d) ino) eqn:E; [|done]. intros _ _. by eapply inoRecursive_ino.
Qed.

Lemma write_handles get d h ino buf off :
  handles_ok (d, h) -> op_ok (OpWrite get ino buf off) -> handles_ok ((ll_write get d ino buf off).1, h).
Proof.
  intros Hok [Hh Hget]. pose proof (ho_wf _ Hok) as Hwf. cbn in Hwf.
  destruct (ll_write_cases get Hget d ino buf off Hwf Hh) as [->|(dir & counter & path & img & r & k & size & Ha & ->)]; [done|].
  destruct Hok as [_ Hk Hc]. cbn [fst snd] in *. split; cbn [fst snd df_child df_counter].
  - apply updateEntry_wf; [apply setSize_keeps|]. by eapply added_wf.
  - rewrite updateEntry_inos by apply setSize_keeps. eapply list.Forall_impl; [done|]. cbn. intros i Hi.
    rewrite (ad_inos _ _ _ _ _ _ _ Ha). apply elem_of_app. by right.
  - rewrite (updateEntry_refs k (setSize size) 0) by (apply setSize_keeps || intros []; cbn; lia).
    apply list.Forall_fmap. rewrite (ad_refs _ _ _ _ _ _ _ Ha). apply list.Forall_app. split.
    + apply list.Forall_fmap, list.Forall_forall. intros i Hi%elem_of_seqZ. cbn. rewrite opens_unknown; [by destruct (i =? k)|].
      intros Hin. rewrite list.Forall_forall in Hk. apply Hk in Hin. destruct Hwf as [_ _ Hr _].
      rewrite list.Forall_forall in Hr. apply Hr in Hin. lia.
    + eapply list.Forall_impl; [done|]. intros [i c]. cbn. intros ->. destruct (i =? k); lia.
Qed.
Lemma open_handles (get : list ascii -> Z -> option unit) d h ino flags :
  handles_ok (d, h) -> handles_ok (fuse_step (d, h) (OpOpen get ino flags)).
Proof.
  intros Hok. cbn [fuse_step]. unfold ll_open. destruct (ino =? INO_CTRL); [by destruct (negb _)|].
  destruct (ino =? INO_ROOT); [done|]. destruct (negb _); [done|].
  destruct (inoRecursive (df_root d) ino) as [e|] eqn:Er; [|done]. destruct (de_img e) as [lu|] eqn:Ei; [|done].
  destruct (lu_rid lu =? 0); [done|]. pose proof (inoRecursive_file _ _ _ _ Er Ei) as Hin.
  assert (handles_ok (Dfuse (map (updateEntry ino (addRef 1)) (df_child d)) (df_counter d), ino :: h)) as Hok'.
  { apply (handles_update _ h); [done|intros; apply opens_cons|]. constructor; [done|]. apply (ho_known _ Hok). }
  destruct (get (lu_name lu) (lu_rid lu)); [done|]. apply (handles_update _ (ino :: h)); [done| |].
  - intros i. rewrite opens_cons. destruct (i =? ino); lia.
  - apply (ho_known _) in Hok'. cbn [fst snd] in Hok'. by apply list.Forall_cons in Hok' as [_ ?].
Qed.
Lemma release_handles d h n : handles_ok (d, h) -> handles_ok (fuse_step (d, h) (OpRelease n)).
Proof.
  intros Hok. cbn [fuse_step]. destruct (h !! n) as [k|] eqn:En; [|done]. cbn [ll_release fst h_entry].
  apply delete_Permutation in En as Hp. apply (handles_update _ h); [done| |].
  - intros i. rewrite (opens_perm i h _ Hp), opens_cons. destruct (i =? k); lia.
  - pose proof (ho_known _ Hok) as Hk. cbn [fst snd] in Hk. rewrite Hp in Hk. by apply list.Forall_cons in Hk as [_ ?].
Qed.
Lemma fuse_step_ok s op : handles_ok s -> op_ok op -> handles_ok (fuse_step s op).
Proof.
  destruct s as [d h]. destruct op; intros Hok Hop; [by apply write_handles|by apply open_handles|by apply release_handles].
Qed.

(** ** Finding a file *)

(** What the kernel does to reach a path: one lookup for each part. *)
Fixpoint lookupPath (d : dfuse_t) (parent : Z) (parts : list (list ascii)) : stat_t + fuseErr :=
  match parts with
  | [] => ll_getattr d parent
  | [p] => ll_lookup d parent p
  | p :: parts =>
      match ll_lookup d parent p with
      | inl st => lookupPath d (st_ino st) parts
      | inr e => inr e
      end
  end.
Lemma walk_last dir p : forall pre x, walk dir pre = Some x -> de_img x = None -> walk dir (pre ++ [p]) = dirLookup (de_child x) p.
Proof.
  intros pre. revert dir. induction pre as [|q pre IH]; intros dir x Hw Hi; [done|].
  cbn [walk app] in *. destruct (dirLookup dir q) as [y|]; [|done]. destruct pre as [|q' pre].
  - apply (inj Some) in Hw as ->. rewrite Hi. cbn. by destruct (dirLookup (de_child x) p).
  - destruct (de_img y); [done|]. by apply IH.
Qed.
Lemma root_inos d : tree_wf d -> base.NoDup (inos (df_root d)) /\ Forall (fun i => i <> INO_ROOT /\ i <> INO_CTRL) (inos (df_root d)).
Proof.
  intros [_ H2 H3 _]. unfold df_root, inos. cbn [map concat inosOf]. rewrite app_nil_r. fold (inos (df_child d)).
  rewrite list.Forall_forall in H3. split.
  - apply list.NoDup_cons. split; [|done]. intros H%H3. unfold INO_DIR in H. lia.
  - apply list.Forall_forall. intros i [->|Hi%H3]%elem_of_cons; [done|]. unfold INO_ROOT, INO_CTRL. lia.
Qed.
Lemma ll_lookup_walk d pre x p :
  tree_wf d -> walk (df_root d) pre = Some x -> de_img x = None ->
  ll_lookup d (de_ino x) p = match dirLookup (de_child x) p with Some e => inl (entryToStat e) | None => inr F_ENOENT end.
Proof.
  intros Hwf Hw Hi. destruct (root_inos d Hwf) as [Hnd Hr]. destruct (walk_found _ _ _ Hw Hnd) as [Hf Hin].
  rewrite list.Forall_forall in Hr. destruct (Hr _ Hin) as [Hne _]. unfold ll_lookup.
  by rewrite (proj2 (Z.eqb_neq _ _) Hne), Hf, Hi.
Qed.
Lemma entryToStat_ino e : st_ino (entryToStat e) = de_ino e.
Proof. unfold entryToStat. by destruct (de_img e). Qed.
Lemma lookupPath_walk d parts : forall pre x e,
  tree_wf d -> walk (df_root d) pre = Some x -> de_img x = None -> walk (de_child x) parts = Some e ->
  lookupPath d (de_ino x) parts = inl (entryToStat e).
Proof.
  induction parts as [|p parts IH]; intros pre x e Hwf Hw Hi He; [done|]. destruct parts as [|q parts].
  - cbn [lookupPath]. rewrite (ll_lookup_walk d pre) by done. cbn in He. by destruct (dirLookup (de_child x) p); simplify_eq.
  - change (match ll_lookup d (de_ino x) p with inl st => lookupPath d (st_ino st) (q :: parts) | inr e => inr e end = inl (entryToStat e)).
    rewrite (ll_lookup_walk d pre) by done. change (walk (de_child x) (p :: q :: parts)) with
      (match dirLookup (de_child x) p with
       | None => None
       | Some e => match de_img e with None => walk (de_child e) (q :: parts) | Some _ => None end end) in He.
    destruct (dirLookup (de_child x) p) as [c|] eqn:El; [|done]. destruct (de_img c) eqn:Ei; [done|].
    rewrite entryToStat_ino. apply (IH (pre ++ [p])); [done| |done..]. by rewrite (walk_last _ _ _ x).
Qed.
(** From the directory [images] on. *)
Lemma lookupPath_found d parts e : tree_wf d -> walk (df_child d) parts = Some e -> lookupPath d INO_DIR parts = inl (entryToStat e).
Proof.
  intros Hwf Hw. apply (lookupPath_walk d parts [NAME_DIR] (DEntry NAME_DIR 0 INO_DIR 2 None (df_child d))); [done| |done|done].
  unfold df_root. cbn [walk dirLookup de_name]. by rewrite bool_decide_eq_true_2.
Qed.

(** ** Well-formed requests *)

(** A name and a revision, as they are written to [control]. *)
Definition nameChar (c : ascii) : Prop := c <> NUL /\ c <> LF /\ c <> ":"%char.
#[global] Instance nameChar_dec c : Decision (nameChar c).
Proof. unfold nameChar. apply _. Defined.
Lemma scanControl_prefix name rest : forall i, Forall nameChar name ->
  scanControl (name ++ rest) i 0 0 = scanControl rest (i + Z.of_nat (length name)) 0 0.
Proof.
  induction name as [|c name IH]; intros i Hn; [cbn; by rewrite Z.add_0_r|].
  apply list.Forall_cons in Hn as [(H1 & H2 & H3) Hn]. cbn [scanControl app].
  rewrite (proj2 (Ascii.eqb_neq _ _) H1), (proj2 (Ascii.eqb_neq _ _) H2), (proj2 (Ascii.eqb_neq _ _) H3). cbn [orb negb Z.eqb].
  rewrite IH by done. cbn [length]. f_equal. lia.
Qed.
Lemma digit_range c d : digit c = Some d -> 0 <= d <= 9.
Proof. unfold digit. destruct ((0 <=? _) && _) eqn:E; [|done]. intros <-%(inj Some). apply andb_true_iff in E. lia. Qed.
Lemma digit_plain c d : digit c = Some d -> Ascii.eqb c NUL || Ascii.eqb c LF = false.
Proof. intros H. destruct (Ascii.eqb_spec c NUL) as [->|]; [done|]. by destruct (Ascii.eqb_spec c LF) as [->|]. Qed.
Lemma digits_grow l : forall acc, 0 <= acc -> acc <= digits l acc.
Proof.
  induction l as [|c l IH]; intros acc Ha; cbn; [lia|]. destruct (digit c) as [d|] eqn:Ed; [|lia].
  apply digit_range in Ed. specialize (IH (acc * 10 + d)). lia.
Qed.
Lemma scanControl_digits l : forall i colon acc, colon <> 0 -> 0 <= acc -> (forall x, x ∈ l -> is_Some (digit x)) ->
  digits l acc <= 65535 -> scanControl l i colon acc = Some (colon, digits l acc).
Proof.
  induction l as [|c l IH]; intros i colon acc Hc Ha Hd Hle; [done|]. destruct (Hd c) as [d Ed]; [by left|].
  cbn [scanControl digits] in *. rewrite Ed in *. rewrite (digit_plain c d Ed), (proj2 (Z.eqb_neq _ _) Hc). cbn [negb].
  pose proof (digit_range c d Ed). pose proof (digits_grow l (acc * 10 + d)).
  rewrite i32_id by (unfold in_i32; lia). apply IH; [done|lia| |done]. intros x Hx. apply Hd. by right.
Qed.
Definition request (name : list ascii) (rid : Z) : list ascii := fileName name rid.
Lemma scanControl_request name rid : name <> [] -> Forall nameChar name -> 0 <= rid <= 65535 ->
  scanControl (request name rid) 0 0 0 = Some (Z.of_nat (length name), rid)
  /\ controlName (request name rid) (Z.of_nat (length name)) = name /\ head (request name rid) <> Some LF.
Proof.
  intros Hne Hn Hr. unfold request, fileName, print_port. rewrite chars_unchars. split_and!.
  - rewrite scanControl_prefix by done. cbn [scanControl Z.eqb negb]. rewrite (proj2 (orb_false_iff _ _)) by done.
    replace (Ascii.eqb ":" ":") with true by done. rewrite scanControl_digits.
    + by rewrite digits_print by lia.
    + destruct name; [done|cbn; lia].
    + lia.
    + apply print_digits_digit. lia.
    + rewrite digits_print; lia.
  - unfold controlName. destruct (Z.eqb_spec (Z.of_nat (length name)) 0); [destruct name; [done|cbn in *; lia]|].
    rewrite Nat2Z.id, take_app_length. apply cstr_id. eapply list.Forall_impl; [done|]. by intros c (? & _).
  - destruct name as [|c name]; [done|]. apply list.Forall_cons in Hn as [(_ & H & _) _]. cbn. congruence.
Qed.
Lemma lookupPath_file d parts : forall pre x st,
  tree_wf d -> walk (df_root d) pre = Some x -> de_img x = None -> parts <> [] -> lookupPath d (de_ino x) parts = inl st ->
  exists e, walk (de_child x) parts = Some e /\ st = entryToStat e.
Proof.
  induction parts as [|p parts IH]; intros pre x st Hwf Hw Hi Hne Hl; [done|]. destruct parts as [|q parts].
  - cbn [lookupPath walk] in *. rewrite (ll_lookup_walk d pre) in Hl by done.
    destruct (dirLookup (de_child x) p) as [e|]; [|done]. exists e. split; [done|congruence].
  - change (match ll_lookup d (de_ino x) p with inl st => lookupPath d (st_ino st) (q :: parts) | inr e => inr e end = inl st) in Hl.
    rewrite (ll_lookup_walk d pre) in Hl by done. destruct (dirLookup (de_child x) p) as [c|] eqn:El; [|done].
    rewrite entryToStat_ino in Hl. assert (walk (df_root d) (pre ++ [p]) = Some c) as Hc by by rewrite (walk_last _ _ _ x).
    destruct (de_img c) eqn:Ei.
    + exfalso. destruct (root_inos d Hwf) as [Hnd Hr]. destruct (walk_found _ _ _ Hc Hnd) as [Hf Hin].
      rewrite list.Forall_forall in Hr. destruct (Hr _ Hin) as [Hn1 _].
      assert (ll_lookup d (de_ino c) q = inr F_ENOTDIR) as Hq.
      { unfold ll_lookup. by rewrite (proj2 (Z.eqb_neq _ _) Hn1), Hf, Ei. }
      destruct parts; cbn [lookupPath] in Hl; by rewrite Hq in Hl.
    + destruct (IH (pre ++ [p]) c st) as (e & He & ->); [done..|]. exists e. split; [|done].
      by rewrite (walk_cons _ _ _ c).
Qed.
Lemma lookupPath_dir_file d parts st : tree_wf d -> lookupPath d INO_DIR parts = inl st -> st_dir st = false ->
  exists e lu, walk (df_child d) parts = Some e /\ st = entryToStat e /\ de_img e = Some lu.
Proof.
  intros Hwf Hl Hd. destruct (decide (parts = [])) as [->|Hne]; [apply (inj inl) in Hl; by subst st|].
  destruct (lookupPath_file d parts [NAME_DIR] (DEntry NAME_DIR 0 INO_DIR 2 None (df_child d)) st) as (e & He & ->); [done| |done..|].
  - unfold df_root. cbn [walk dirLookup de_name]. by rewrite bool_decide_eq_true_2.
  - exists e. unfold entryToStat in *. destruct (de_img e) as [lu|]; [|done]. by exists lu.
Qed.
Lemma inoRecursive_root d parts e : tree_wf d -> walk (df_child d) parts = Some e -> inoRecursive (df_root d) (de_ino e) = Some e /\ 10 <= de_ino e < df_counter d.
Proof.
  intros [_ H2 H3 _] Hw. destruct (walk_found _ _ _ Hw H2) as [Hf Hin]. rewrite list.Forall_forall in H3. specialize (H3 _ Hin).
  unfold df_root. cbn [inoRecursive]. rewrite inoEntry_eq. cbn in H3. destruct (Z.eqb_spec INO_DIR (de_ino e)) as [E|]; [unfold INO_DIR in E; lia|].
  by rewrite Hf.
Qed.
Lemma statInternal_none ino : 10 <= ino -> statInternal ino = None.
Proof. intros Hi. unfold statInternal, INO_ROOT, INO_DIR, INO_CTRL. by rewrite !(proj2 (Z.eqb_neq _ _)) by lia. Qed.

Section Appears.
Context (image_getOrLoad : list ascii -> Z -> option (Z * Z)) {Img : Type} (image_get : list ascii -> Z -> option Img).
Hypothesis refuses : forall name rid, image_getOrLoad name rid <> None -> name <> [] /\ List.last name NUL <> "/"%char.

Lemma fuse_image_appears_spec d name rid realRid size :
  tree_wf d -> Forall nameChar name -> 0 <= rid <= 65535 -> Z.of_nat (length (request name rid)) < FUSE_PATHLEN ->
  image_getOrLoad name rid = Some (realRid, size) -> realRid <> 0 ->
  let path := filePath (splitSlashes name) rid in
  walk (df_child d) path = None ->
  exists d' ino, ll_write image_getOrLoad d INO_CTRL (request name rid) 0 = (d', inl (Z.of_nat (length (request name rid))))
    /\ tree_wf d' /\ lookupPath d' INO_DIR path = inl (Stat false 292 1 size ino)
    /\ ll_getattr d' ino = inl (Stat false 292 1 size ino)
    /\ (ll_open image_get d' ino 0).2
       = match image_get name realRid with Some image => inl (Some (Handle ino image)) | None => inr F_ENOENT end
    /\ forall q st, lookupPath d INO_DIR q = inl st -> st_dir st = false -> lookupPath d' INO_DIR q = inl st.
Proof.
  intros Hwf Hn Hr Hlen Hget Hreal path Hnew. destruct (refuses name rid) as [Hne _]; [congruence|].
  destruct (scanControl_request name rid Hne Hn Hr) as (Hs & Hname & Hh).
  destruct (ll_write_added image_getOrLoad refuses d (request name rid) (Z.of_nat (length name)) rid realRid size)
    as (dir & counter & e & lu & Hw & Ha & He & Hlu); [done..|by rewrite Hname|]. rewrite Hname in *. fold path in Ha, He.
  destruct (ad_walk _ _ _ _ _ _ _ Ha) as (e1 & lu1 & He1 & _ & Hlu1 & Hfresh & _).
  assert (e1 = e) as -> by congruence. destruct (Hfresh Hnew) as [-> Hino]. assert (lu = Lookup realRid name) as -> by congruence.
  pose proof (added_wf _ _ _ _ _ _ Hwf Ha) as Hwfa.
  set (d' := Dfuse (map (updateEntry (de_ino e) (setSize size)) dir) counter) in *.
  assert (tree_wf d') as Hwf' by (apply updateEntry_wf; [apply setSize_keeps|done]).
  pose proof (walk_entry_ok _ _ _ (ad_ok _ _ _ _ _ _ _ Ha) He) as Heok.
  assert (walk (df_child d') path = Some (setSize size e)) as Hw'.
  { unfold d'. cbn [df_child]. rewrite updateEntry_walk by apply setSize_keeps. rewrite He. cbn [fmap option_fmap option_map].
    by rewrite (updateEntry_file _ _ _ _ Heok Hlu), Z.eqb_refl. }
  assert (entryToStat (setSize size e) = Stat false 292 1 size (de_ino e) /\ de_ino (setSize size e) = de_ino e
          /\ de_img (setSize size e) = Some (Lookup realRid name)) as (Hst & Hino' & Himg).
  { destruct e; cbn in *. by subst. }
  destruct (inoRecursive_root _ _ _ Hwf' Hw') as [Hrec Hrange]. rewrite Hino' in *. exists d', (de_ino e). split_and!; [done|done|..].
  - by rewrite (lookupPath_found _ _ _ Hwf' Hw'), Hst.
  - unfold ll_getattr. rewrite statInternal_none by lia. by rewrite Hrec, Hst.
  - unfold ll_open, INO_CTRL, INO_ROOT. rewrite !(proj2 (Z.eqb_neq _ _)) by lia. cbn [O_ACCMODE Z.land negb Z.eqb].
    rewrite Hrec, Himg. cbn [lu_rid lu_name]. rewrite (proj2 (Z.eqb_neq _ _) Hreal). by destruct (image_get name realRid).
  - intros q st Hq Hd. destruct (lookupPath_dir_file _ _ _ Hwf Hq Hd) as (x & lux & Hx & -> & Hxi). apply lookupPath_found; [done|].
    unfold d'. cbn [df_child]. rewrite updateEntry_walk by apply setSize_keeps.
    rewrite (ad_frame _ _ _ _ _ _ _ Ha q x lux Hx Hxi). cbn [fmap option_fmap option_map].
    rewrite (updateEntry_file _ _ _ lux); [|by eapply walk_entry_ok; [apply Hwf|]|done].
    destruct (inoRecursive_root _ _ _ Hwf Hx) as [_ ?]. rewrite (proj2 (Z.eqb_neq _ _)) by lia. done.
Qed.
End Appears.

(** ** Reading a file *)

Lemma image_sizes image : image_wf image ->
  img_virtualFilesize image mod DNBD3_BLOCK_SIZE = 0 /\ 0 <= img_realFilesize image <= img_virtualFilesize image
  /\ img_virtualFilesize image - img_realFilesize image < DNBD3_BLOCK_SIZE.
Proof.
  intros [Hr -> _ _]. unfold DNBD3_BLOCK_SIZE. pose proof (Z.div_mod (img_realFilesize image + 4095) 4096 ltac:(lia)).
  pose proof (Z.mod_pos_bound (img_realFilesize image + 4095) 4096 ltac:(lia)). split; [|lia].
  rewrite Z.mul_comm. by apply Z.mod_mul.
Qed.
Definition available (image : dnbd3_image_t) (off size : Z) : Prop := forall b, touched off (off + size) b -> is_cached image b = true.

Lemma aligned_range image off size :
  image_wf image -> 0 <= off -> 0 < size ->
  off + size <= img_virtualFilesize image ->
  let start := off .& not64 (DNBD3_BLOCK_SIZE - 1) in
  let end_ := u64 (off + size + DNBD3_BLOCK_SIZE - 1) .& not64 (DNBD3_BLOCK_SIZE - 1) in
  (0 <= start < end_ /\ end_ <= img_virtualFilesize image) /\ forall b, touched start end_ b <-> touched off (off + size) b.
Proof.
  intros Hwf Ho Hs He. pose proof (wf_limit _ Hwf). destruct (image_sizes _ Hwf) as (Ha & _). unfold DNBD3_BLOCK_SIZE in *.
  change (4096 - 1) with (2 ^ 12 - 1). cbv zeta. rewrite u64_id by crange. rewrite !land_not64_pow2 by crange. change (2 ^ 12) with 4096.
  unfold touched. pose proof (Z.div_mod off 4096 ltac:(lia)). pose proof (Z.mod_pos_bound off 4096 ltac:(lia)).
  pose proof (Z.div_mod (off + size + 4096 - 1) 4096 ltac:(lia)). pose proof (Z.mod_pos_bound (off + size + 4096 - 1) 4096 ltac:(lia)).
  pose proof (Z.div_mod (img_virtualFilesize image) 4096 ltac:(lia)).
  rewrite (Z.mul_comm 4096 (off / 4096)), Z.div_mul by lia.
  replace (4096 * ((off + size + 4096 - 1) / 4096) - 1) with (4095 + ((off + size + 4096 - 1) / 4096 - 1) * 4096) by lia.
  rewrite Z.div_add by lia. change (4095 / 4096) with 0.
  replace (off + size + 4096 - 1) with (off + size - 1 + 1 * 4096) in * by lia. rewrite Z.div_add in * by lia.
  pose proof (Z.div_mod (off + size - 1) 4096 ltac:(lia)). pose proof (Z.mod_pos_bound (off + size - 1) 4096 ltac:(lia)).
  split; [|intros; lia]. nia.
Qed.

Lemma imageBytes_behind file off n : Z.of_nat (length file) <= off -> imageBytes file off n = replicate (Z.to_nat n) 0.
Proof.
  intros Ho. unfold imageBytes. apply list_eq. intros k. change (map ?f ?l) with (f <$> l). rewrite list_lookup_fmap.
  destruct (decide (k < Z.to_nat n)%nat).
  - rewrite lookup_seq_lt, lookup_replicate_2 by done. cbn. rewrite lookup_ge_None_2 by lia. done.
  - rewrite lookup_seq_ge by lia. symmetry. apply lookup_replicate_None. lia.
Qed.
Lemma ll_read_spec image maxPayload relay file size off :
  image_wf image -> Z.of_nat (length file) = img_realFilesize image -> 0 < size < 2 ^ 32 ->
  let n := Z.min size (img_virtualFilesize image - off) in
  ((off < 0 \/ img_virtualFilesize image <= off) -> ll_read (Some image) maxPayload relay file size off = Ok (ReadError F_OK))
  /\ (0 <= off < img_virtualFilesize image -> available image off n ->
      ll_read (Some image) maxPayload relay file size off = Ok (ReadData (imageBytes file off n)))
  /\ (0 <= off < img_virtualFilesize image -> ~ available image off n ->
      ll_read (Some image) maxPayload relay file size off
      = Ok (if relay then ReadRelayed off (Z.min n maxPayload) else ReadError F_EIO)).
Proof.
  intros Hwf Hfile Hsz n. pose proof (wf_limit _ Hwf) as Hlim. destruct (image_sizes _ Hwf) as (Ha & Hreal & Hpad). split.
  { intros Hout. unfold ll_read. destruct (Z.ltb_spec off 0); [done|]. destruct (Z.leb_spec (img_virtualFilesize image) off); [done|lia]. }
  assert (0 <= off < img_virtualFilesize image -> exists cached : bool, (cached = true <-> available image off n)
    /\ ll_read (Some image) maxPayload relay file size off
       = if cached then Ok (ReadData (imageBytes file off n))
         else Ok (if relay then ReadRelayed off (Z.min n maxPayload) else ReadError F_EIO)) as Hmain.
  2: { split; intros Ho Hav; destruct (Hmain Ho) as ([] & Hc & ->); [done| | |done].
       - by apply Hc in Hav.
       - by destruct Hav; apply Hc. }
  intros Ho. unfold ll_read. destruct (Z.ltb_spec off 0); [lia|]. destruct (Z.leb_spec (img_virtualFilesize image) off); [lia|]. cbn [orb].
  rewrite (u64_id (off + size)) by crange.
  replace (if img_virtualFilesize image <? off + size then img_virtualFilesize image - off else size) with n
    by (unfold n; destruct (Z.ltb_spec (img_virtualFilesize image) (off + size)); lia).
  assert (0 < n /\ off + n <= img_virtualFilesize image) as [Hn Hend] by lia. clearbody n.
  assert (exists cached : bool, (cached = true <-> available image off n) /\
    match img_cacheMap image with
    | None => Ok true
    | Some cache => image_isRangeCachedUnsafe cache (off .& not64 (DNBD3_BLOCK_SIZE - 1))
        (u64 (off + n + DNBD3_BLOCK_SIZE - 1) .& not64 (DNBD3_BLOCK_SIZE - 1))
    end = Ok cached) as (cached & Hiff & ->).
  { unfold available, is_cached. destruct (img_cacheMap image) as [m|] eqn:Em; [|by exists true].
    destruct (aligned_range image off n Hwf) as [[Hr1 Hr2] Ht]; [lia..|].
    destruct (range_cached image m _ _ Hwf Em Hr1 Hr2) as (r & Hr & Hrt). exists r. split; [|done].
    rewrite Hrt. unfold is_cached. rewrite Em. split; intros HH b Hb; apply HH, Ht; done. }
  exists cached. split; [done|]. cbn [mbind result_bind]. destruct cached.
  2: { replace (if maxPayload <? n then maxPayload else n) with (Z.min n maxPayload) by (destruct (Z.ltb_spec maxPayload n); lia).
       by destruct relay. }
  rewrite (u64_id (off + n)) by crange. unfold DNBD3_BLOCK_SIZE in *.
  set (readSize := if img_realFilesize image <? off + n then _ else _).
  assert (readSize = Z.max 0 (Z.min n (img_realFilesize image - off))) as Ers.
  { unfold readSize. destruct (Z.ltb_spec (img_realFilesize image) (off + n)); [|lia].
    destruct (Z.leb_spec (img_realFilesize image) off); lia. }
  clearbody readSize. assert (imageBytes file off n = take (Z.to_nat readSize) (drop (Z.to_nat off) file) ++ replicate (Z.to_nat (n - readSize)) 0) as Hb.
  { destruct (Z.leb_spec (img_realFilesize image) off).
    - assert (readSize = 0) as -> by lia. cbn [Z.to_nat take app]. rewrite Z.sub_0_r. by apply imageBytes_behind; lia.
    - apply imageBytes_split; lia. }
  rewrite Hb. replace (if readSize =? 0 then [] else take (Z.to_nat readSize) (drop (Z.to_nat off) file))
    with (take (Z.to_nat readSize) (drop (Z.to_nat off) file)) by (by destruct (Z.eqb_spec readSize 0) as [->|]).
  destruct (Z.eqb_spec readSize n) as [->|Hne].
  - rewrite Z.sub_diag. cbn [Z.to_nat replicate]. by rewrite app_nil_r.
  - destruct (Z.ltb_spec 4096 (n - readSize)); [lia|done].
Qed.

(** ** Theorems *)

(** C19. Writes to [control], opening and releasing of files, in any order and with any
    answers of an image list that knows no image with an empty name or a name that ends in a slash (which [image_get] refuses): if no
    write begins with a line feed, the tree stays well formed.  Names are unique in a directory,
    files have no children, inode numbers are unique and below the counter; the entry of every
    open file is in the tree, and the reference count of every entry is the number of handles
    that are open on it.  A write that begins with a line feed is taken as a name as a whole ([linefeed_name]) and is
    excluded. *)
Theorem fuse_tree_invariant ops : Forall op_ok ops -> handles_ok (foldl fuse_step (dfuse_start, []) ops).
Proof.
  intros Hops. assert (handles_ok (dfuse_start, [])) as H0 by (split; [apply tree_wf_start|constructor|constructor]).
  revert H0. generalize (dfuse_start, @nil Z). induction Hops as [|op ops Hop _ IH]; intros s Hs; [done|]. cbn.
  by apply IH, fuse_step_ok.
Qed.

(** Writing the name and revision of an image that can be loaded to [control] makes a file
    appear below [images], under the directories of the name: looking the path up part by part
    finds a regular file with the size of the image, and opening it opens this
    image in the revision that was found.  Every file that could be looked up before still
    gives the same attributes. *)
Theorem fuse_image_appears {Img} image_getOrLoad (image_get : list ascii -> Z -> option Img) d name rid realRid size :
  (forall n r, image_getOrLoad n r <> None -> n <> [] /\ List.last n NUL <> "/"%char) ->
  tree_wf d -> Forall nameChar name -> 0 <= rid <= 65535 -> Z.of_nat (length (request name rid)) < FUSE_PATHLEN ->
  image_getOrLoad name rid = Some (realRid, size) -> realRid <> 0 ->
  let path := filePath (splitSlashes name) rid in
  walk (df_child d) path = None ->
  exists d' ino, ll_write image_getOrLoad d INO_CTRL (request name rid) 0 = (d', inl (Z.of_nat (length (request name rid))))
    /\ tree_wf d' /\ lookupPath d' INO_DIR path = inl (Stat false 292 1 size ino)
    /\ ll_getattr d' ino = inl (Stat false 292 1 size ino)
    /\ (ll_open image_get d' ino 0).2
       = match image_get name realRid with Some image => inl (Some (Handle ino image)) | None => inr F_ENOENT end
    /\ forall q st, lookupPath d INO_DIR q = inl st -> st_dir st = false -> lookupPath d' INO_DIR q = inl st.
Proof. intros Href. by apply fuse_image_appears_spec. Qed.

(** Reading a file returns the bytes of the image, padded with zeros to whole blocks, cut
    off at its end, whenever all blocks are available locally, and never reads behind the
    buffer of zeros; if a block is missing the request is relayed for the same offset, and
    a position outside the image returns nothing. *)
Theorem fuse_read_correct image maxPayload relay file size off :
  image_wf image -> Z.of_nat (length file) = img_realFilesize image -> 0 < size < 2 ^ 32 ->
  let n := Z.min size (img_virtualFilesize image - off) in
  ((off < 0 \/ img_virtualFilesize image <= off) -> ll_read (Some image) maxPayload relay file size off = Ok (ReadError F_OK))
  /\ (0 <= off < img_virtualFilesize image -> available image off n ->
      ll_read (Some image) maxPayload relay file size off = Ok (ReadData (imageBytes file off n)))
  /\ (0 <= off < img_virtualFilesize image -> ~ available image off n ->
      ll_read (Some image) maxPayload relay file size off
      = Ok (if relay then ReadRelayed off (Z.min n maxPayload) else ReadError F_EIO)).
Proof. apply ll_read_spec. Qed.

(** ** Witnesses *)

(** One image, [lab/win], in revision 3. *)
Definition demo_getOrLoad (name : list ascii) (rid : Z) : option (Z * Z) :=
  if bool_decide (name = chars "lab/win") && ((rid =? 0) || (rid =? 3)) then Some (3, 8192) else None.
Lemma demo_refuses name rid : demo_getOrLoad name rid <> None -> name <> [] /\ List.last name NUL <> "/"%char.
Proof. unfold demo_getOrLoad. case_bool_decide as E; [subst; intros _|done]. by split; vm_compute. Qed.
Definition demo_get (name : list ascii) (rid : Z) : option unit := if rid =? 3 then Some tt else None.
Lemma fuse_tree_invariant_witness :
  handles_ok (foldl fuse_step (dfuse_start, [])
    [OpWrite demo_getOrLoad INO_CTRL (chars "lab/win:3") 0; OpOpen demo_get 11 0; OpOpen demo_get 11 0; OpRelease 0])
  /\ (foldl fuse_step (dfuse_start, [])
    [OpWrite demo_getOrLoad INO_CTRL (chars "lab/win:3") 0; OpOpen demo_get 11 0; OpOpen demo_get 11 0; OpRelease 0]).2 = [11].
Proof.
  split; [|by vm_compute]. apply fuse_tree_invariant. repeat constructor; [done| |]; by apply (demo_refuses name rid).
Defined.
Lemma fuse_image_appears_witness :
  exists d' ino, ll_write demo_getOrLoad dfuse_start INO_CTRL (request (chars "lab/win") 0) 0 = (d', inl 9)
    /\ lookupPath d' INO_DIR [chars "lab"; chars "win:0"] = inl (Stat false 292 1 8192 ino)
    /\ (ll_open demo_get d' ino 0).2 = inl (Some (Handle ino tt)).
Proof.
  destruct (fuse_image_appears demo_getOrLoad demo_get dfuse_start (chars "lab/win") 0 3 8192 demo_refuses tree_wf_start)
    as (d' & ino & Hw & _ & Hl & _ & Ho & _).
  - apply (bool_decide_unpack _). by vm_compute.
  - lia.
  - by vm_compute.
  - by vm_compute.
  - done.
  - by vm_compute.
  - exists d', ino. split_and!; [exact Hw|exact Hl|exact Ho].
Defined.
Lemma fuse_read_witness :
  ll_read (Some demo_image) 100000 true demo_file 5000 8500 = Ok (ReadData (imageBytes demo_file 8500 3788))
  /\ ll_read (Some demo_image) 100000 true demo_file 5000 4096 = Ok (ReadRelayed 4096 5000).
Proof.
  destruct (fuse_read_correct demo_image 100000 true demo_file 5000 8500 demo_image_wf) as (_ & H1 & _); [by vm_compute|lia|]. cbv zeta in H1.
  destruct (fuse_read_correct demo_image 100000 true demo_file 5000 4096 demo_image_wf) as (_ & _ & H2); [by vm_compute|lia|]. cbv zeta in H2.
  change (img_virtualFilesize demo_image) with 12288 in *. change (Z.min 5000 (12288 - 8500)) with 3788 in H1.
  change (Z.min (Z.min 5000 (12288 - 4096)) 100000) with 5000 in H2. split.
  - apply H1; [lia|]. intros b Hb. change (2 <= b <= 2) in Hb. by assert (b = 2) as -> by lia.
  - apply H2; [lia|]. intros Ha. clear H1 H2.
    assert (is_cached demo_image 1 = true) as H; [apply Ha; vm_compute; split; discriminate|]. vm_compute in H. discriminate H.
Defined.

(** Writing a name without a revision again when a newer one is there changes the size of the
    file, but opening it still gives the old revision; the control file reports success. *)
Definition newer_getOrLoad (name : list ascii) (rid : Z) : option (Z * Z) := if rid =? 0 then Some (4, 12288) else None.
Lemma stale_revision :
  let d1 := (ll_write demo_getOrLoad dfuse_start INO_CTRL (chars "lab/win") 0).1 in
  let d2 := (ll_write newer_getOrLoad d1 INO_CTRL (chars "lab/win") 0).1 in
  lookupPath d2 INO_DIR [chars "lab"; chars "win:0"] = inl (Stat false 292 1 12288 11)
  /\ forall Img (get : list ascii -> Z -> option Img) image,
     get (chars "lab/win") 3 = Some image -> (ll_open get d2 11 0).2 = inl (Some (Handle 11 image)).
Proof.
  split; [by vm_compute|]. intros Img get image Hget. cbv zeta. unfold ll_open.
  remember (inoRecursive _ 11) as e eqn:Ee. vm_compute in Ee. subst e. cbn [Z.eqb INO_CTRL INO_ROOT Pos.eqb O_ACCMODE Z.land negb de_img lu_rid lu_name].
  change (get _ 3) with (get (chars "lab/win") 3). by rewrite Hget.
Qed.
(** A request that starts with a line feed is not ended by it: everything behind it is taken as
    the name. *)
Lemma linefeed_name : scanControl (LF :: chars "a:1") 0 0 0 = Some (0, 0) /\ controlName (LF :: chars "a:1") 0 = LF :: chars "a:1".
Proof. by vm_compute. Qed.
