(* ===== verification/FuseLife.v ===== *)
(** * FuseLife: starting and stopping the file system ([src/server/fuse.c])

    [dfuse_init], the thread of the main loop and a call of [dfuse_shutdown] run at
    the same time.  Each step below is one access to what they share ([initState], the
    lock, the channel, the session, [haveThread]), so every interleaving is a path of the
    transition system.  It is finite; its reachable states are computed and shown to be
    closed under steps, and the properties are checked on each of them. *)

From S2P Require Import Prelude.

(** ** Shared state and program counters *)

Inductive init_state := INIT_NONE | INIT_DONE | INIT_SHUTDOWN | INIT_INPROGRESS.
(** The steps of [cleanupFuse]. *)
Inductive clean_pc := C_chan | C_destroy | C_null | C_unmount | C_clear.
(** [dfuse_init] *)
Inductive init_pc :=
| I_cas | I_mutex | I_lock | I_args | I_parse | I_mount | I_new | I_thread | I_have | I_unlock
| I_cleanup (c : clean_pc) | I_free | I_failstate | I_failunlock | I_end (ok : bool).
(** [fuseMainLoop] *)
Inductive main_pc := M_none | M_cas | M_loop | M_lock | M_cleanup (c : clean_pc) | M_unlock | M_end.
(** [dfuse_shutdown]; [S_none] is before the call. *)
Inductive shut_pc := S_none | S_check | S_cas | S_lock | S_read | S_exit | S_have | S_cleanup (c : clean_pc) | S_unlock | S_kill | S_join | S_end.
Inductive who := WInit | WMain | WShut.

#[global] Instance init_state_eq_dec : EqDecision init_state.
Proof. solve_decision. Defined.
#[global] Instance clean_pc_eq_dec : EqDecision clean_pc.
Proof. solve_decision. Defined.
#[global] Instance init_pc_eq_dec : EqDecision init_pc.
Proof. solve_decision. Defined.
#[global] Instance main_pc_eq_dec : EqDecision main_pc.
Proof. solve_decision. Defined.
#[global] Instance shut_pc_eq_dec : EqDecision shut_pc.
Proof. solve_decision. Defined.
#[global] Instance who_eq_dec : EqDecision who.
Proof. solve_decision. Defined.

(** [sessionAlive] and [mounted] say what libfuse holds; [args] that the list of arguments is allocated, [mountPoint] that the
    string [fuse_parse_cmdline] allocates is;
    [bad] becomes true when something that was freed is used. *)
Record life := Life {
  lf_initState : init_state;
  lf_lockReady : bool;
  lf_lock : option who;
  lf_mountPoint : bool;
  lf_chan : bool;
  lf_session : bool;
  lf_haveThread : bool;
  lf_sessionAlive : bool;
  lf_mounted : bool;
  lf_exitFlag : bool;
  lf_signalled : bool;
  lf_external : bool;
  lf_bad : bool;
  lf_args : bool;
  lf_init : init_pc;
  lf_main : main_pc;
  lf_shut : shut_pc;
}.
#[global] Instance life_eq_dec : EqDecision life.
Proof. solve_decision. Defined.

Definition set_initState v s := let 'Life _ b c d e f g h i j k l m n o p q := s in Life v b c d e f g h i j k l m n o p q.
Definition set_lockReady v s := let 'Life a _ c d e f g h i j k l m n o p q := s in Life a v c d e f g h i j k l m n o p q.
Definition set_lock v s := let 'Life a b _ d e f g h i j k l m n o p q := s in Life a b v d e f g h i j k l m n o p q.
Definition set_mountPoint v s := let 'Life a b c _ e f g h i j k l m n o p q := s in Life a b c v e f g h i j k l m n o p q.
Definition set_chan v s := let 'Life a b c d _ f g h i j k l m n o p q := s in Life a b c d v f g h i j k l m n o p q.
Definition set_session v s := let 'Life a b c d e _ g h i j k l m n o p q := s in Life a b c d e v g h i j k l m n o p q.
Definition set_haveThread v s := let 'Life a b c d e f _ h i j k l m n o p q := s in Life a b c d e f v h i j k l m n o p q.
Definition set_sessionAlive v s := let 'Life a b c d e f g _ i j k l m n o p q := s in Life a b c d e f g v i j k l m n o p q.
Definition set_mounted v s := let 'Life a b c d e f g h _ j k l m n o p q := s in Life a b c d e f g h v j k l m n o p q.
Definition set_exitFlag v s := let 'Life a b c d e f g h i _ k l m n o p q := s in Life a b c d e f g h i v k l m n o p q.
Definition set_signalled v s := let 'Life a b c d e f g h i j _ l m n o p q := s in Life a b c d e f g h i j v l m n o p q.
Definition set_bad (v : bool) s := let 'Life a b c d e f g h i j k l m n o p q := s in Life a b c d e f g h i j k l (m || v) n o p q.
Definition set_args v s := let 'Life a b c d e f g h i j k l m _ o p q := s in Life a b c d e f g h i j k l m v o p q.
Definition set_init v s := let 'Life a b c d e f g h i j k l m n _ p q := s in Life a b c d e f g h i j k l m n v p q.
Definition set_main v s := let 'Life a b c d e f g h i j k l m n o _ q := s in Life a b c d e f g h i j k l m n o v q.
Definition set_shut v s := let 'Life a b c d e f g h i j k l m n o p _ := s in Life a b c d e f g h i j k l m n o p v.

(** ** Steps *)

(** [mutex_lock] waits until the lock is free; using it before [mutex_init] is an error. *)
Definition lockInit (w : who) (s : life) : list life :=
  match lf_lock s with
  | None => [set_lock (Some w) (set_bad (negb (lf_lockReady s)) s)]
  | Some _ => []
  end.
(** One step of [cleanupFuse]: the state and the next step. *)
Definition cleanupFuse (c : clean_pc) (s : life) : life * option clean_pc :=
  match c with
  | C_chan => (if lf_chan s then set_bad (negb (lf_mounted s)) s else s, Some C_destroy)
  | C_destroy =>
      if lf_session s then (set_sessionAlive false (set_bad (negb (lf_sessionAlive s)) s), Some C_null)
      else (s, Some C_unmount)
  | C_null => (set_session false s, Some C_unmount)
  | C_unmount =>
      (if lf_mountPoint s && lf_chan s then set_mounted false (set_bad (negb (lf_mounted s)) s) else s, Some C_clear)
  | C_clear => (set_chan false s, None)
  end.

Definition dfuse_init (s : life) : list life :=
  match lf_init s with
  | I_cas =>
      if decide (lf_initState s = INIT_NONE) then [set_init I_mutex (set_initState INIT_INPROGRESS s)]
      else [set_init (I_end false) s]
  | I_mutex => [set_init I_lock (set_lockReady true s)]
  | I_lock => set_init I_args <$> lockInit WInit s
  | I_args => [set_init I_parse (set_args true s)]
  | I_parse => [set_init (I_cleanup C_chan) s; set_init I_mount (set_mountPoint true s)]
  | I_mount => [set_init (I_cleanup C_chan) s; set_init I_new (set_mounted true (set_chan true s))]
  | I_new => [set_init (I_cleanup C_chan) s; set_init I_thread (set_sessionAlive true (set_session true s))]
  | I_thread => [set_init (I_cleanup C_chan) s; set_init I_have (set_main M_cas s)]
  | I_have => [set_init I_unlock (set_haveThread true s)]
  | I_unlock => [set_init (I_end true) (set_lock None s)]
  | I_cleanup c =>
      let '(s, next) := cleanupFuse c s in
      [set_init (match next with Some c => I_cleanup c | None => I_free end) s]
  | I_free => [set_init I_failstate (set_args false s)]
  | I_failstate => [set_init I_failunlock (set_initState INIT_SHUTDOWN s)]
  | I_failunlock => [set_init (I_end false) (set_lock None s)]
  | I_end _ => []
  end.

(** [fuse_session_loop_mt] returns once the session was told to exit and the thread got its
    signal, or, if [external] is set, when the file system is unmounted by somebody else.
    [fuseSession] is read when it is entered. *)
Definition fuseMainLoop (s : life) : list life :=
  match lf_main s with
  | M_cas =>
      if decide (lf_initState s = INIT_INPROGRESS)
      then [set_main M_loop (set_initState INIT_DONE (set_bad (negb (lf_session s)) s))]
      else [set_main M_end s]
  | M_loop => if (lf_exitFlag s && lf_signalled s) || lf_external s then [set_main M_lock s] else []
  | M_lock => set_main (M_cleanup C_chan) <$> lockInit WMain s
  | M_cleanup c =>
      let '(s, next) := cleanupFuse c s in [set_main (match next with Some c => M_cleanup c | None => M_unlock end) s]
  | M_unlock => [set_main M_end (set_lock None s)]
  | M_none | M_end => []
  end.

Definition dfuse_shutdown (s : life) : list life :=
  let goto pc s := set_shut pc s in
  match lf_shut s with
  | S_none => [goto S_check s]
  | S_check => [goto (if decide (lf_initState s = INIT_NONE) then S_end else S_cas) s]
  | S_cas =>
      match lf_initState s with
      | INIT_DONE => [goto S_lock (set_initState INIT_SHUTDOWN s)]
      | INIT_INPROGRESS => [s]
      | _ => [goto S_end s]
      end
  | S_lock => goto S_read <$> lockInit WShut s
  | S_read => [goto (if lf_session s then S_exit else S_have) s]
  | S_exit => [goto S_have (set_exitFlag true (set_bad (negb (lf_sessionAlive s)) s))]
  | S_have => [goto (if lf_haveThread s then S_unlock else S_cleanup C_chan) s]
  | S_cleanup c =>
      let '(s, next) := cleanupFuse c s in [goto (match next with Some c => S_cleanup c | None => S_unlock end) s]
  | S_unlock => [goto (if lf_haveThread s then S_kill else S_end) (set_lock None s)]
  | S_kill => [goto S_join (set_signalled true s)]
  | S_join => if decide (lf_main s = M_end) then [goto S_end s] else []
  | S_end => []
  end.

Definition succs (s : life) : list life := dfuse_init s ++ fuseMainLoop s ++ dfuse_shutdown s.
Definition life_start (external : bool) : life :=
  Life INIT_NONE false None false false false false false false false false external false false I_cas M_none S_none.
(** The states that are reached from the start, in any order of steps. *)
Inductive reachable : life -> Prop :=
| reach_start external : reachable (life_start external)
| reach_step s s' : reachable s -> s' ∈ succs s -> reachable s'.

(** ** Exploring the states *)

(** Breadth first: [seen] is what was visited, [todo] the states whose successors are not. *)
Fixpoint explore (fuel : nat) (seen todo : list life) : list life :=
  match fuel with
  | O => seen
  | S f =>
      let new := remove_dups (filter (fun s => s ∉ seen) (todo ≫= succs)) in
      match new with [] => seen | _ => explore f (new ++ seen) new end
  end.
Definition starts : list life := [life_start true; life_start false].
Definition states : list life := Eval vm_compute in explore 200 starts starts.

(** ** What holds in every state *)

(** How many steps are left at most; starting the thread costs the steps of the thread. *)
Definition rank_clean (c : clean_pc) : nat :=
  match c with C_chan => 5 | C_destroy => 4 | C_null => 3 | C_unmount => 2 | C_clear => 1 end.
Definition rank_init (pc : init_pc) : nat :=
  match pc with
  | I_cas => 31 | I_mutex => 30 | I_lock => 29 | I_args => 28 | I_parse => 27 | I_mount => 26 | I_new => 25 | I_thread => 24
  | I_have => 2 | I_unlock => 1
  | I_cleanup c => 3 + rank_clean c | I_free => 3 | I_failstate => 2 | I_failunlock => 1 | I_end _ => 0
  end.
Definition rank_main (pc : main_pc) : nat :=
  match pc with M_none | M_end => 0 | M_unlock => 1 | M_cleanup c => 1 + rank_clean c | M_lock => 7 | M_loop => 8 | M_cas => 9 end.
Definition rank_shut (pc : shut_pc) : nat :=
  match pc with
  | S_none => 15 | S_check => 14 | S_cas => 13 | S_lock => 12 | S_read => 11 | S_exit => 10 | S_have => 9
  | S_cleanup c => 3 + rank_clean c | S_unlock => 3 | S_kill => 2 | S_join => 1 | S_end => 0
  end.
Definition rank (s : life) : nat := rank_init (lf_init s) + rank_main (lf_main s) + rank_shut (lf_shut s).
(** Everybody has returned. *)
Definition finished (s : life) : bool :=
  match lf_init s, lf_main s, lf_shut s with I_end _, (M_none | M_end), S_end => true | _, _, _ => false end.
(** The call to stop came before the start and did nothing: the file system is in use. *)
Definition inUse (s : life) : bool :=
  bool_decide (lf_main s = M_loop) && negb (lf_exitFlag s) && bool_decide (lf_shut s = S_end).
Definition stateOk (s : life) : bool :=
  negb (lf_bad s)
  && (negb (bool_decide (lf_main s = M_loop)) || lf_sessionAlive s)
  && forallb (fun s' => bool_decide (s' = s) || (rank s' <? rank s)%nat) (succs s)
  && (finished s || inUse s || existsb (fun s' => negb (bool_decide (s' = s))) (succs s))
  && (negb (finished s) || (negb (lf_sessionAlive s) && negb (lf_mounted s) && bool_decide (lf_lock s = None)
     && Bool.eqb (lf_args s) (bool_decide (lf_init s = I_end true)) && (negb (lf_args s) || lf_mountPoint s))).

Lemma states_closed : forallb (fun s => forallb (fun s' => bool_decide (s' ∈ states)) (succs s)) states = true.
Proof. vm_compute. reflexivity. Qed.
Lemma states_ok : forallb stateOk states = true.
Proof. vm_compute. reflexivity. Qed.
Lemma reachable_states s : reachable s -> s ∈ states.
Proof.
  induction 1 as [[]|s s' _ IH Hs]; [vm_compute; repeat (apply list_elem_of_here || apply list_elem_of_further)..|].
  pose proof states_closed as Hc. rewrite forallb_forall in Hc. apply list_elem_of_In in IH. specialize (Hc s IH).
  rewrite forallb_forall in Hc. apply list_elem_of_In in Hs. specialize (Hc s' Hs). by apply bool_decide_eq_true in Hc.
Qed.
Lemma reachable_ok s : reachable s -> stateOk s = true.
Proof. intros Hs%reachable_states%list_elem_of_In. pose proof states_ok as Hok. rewrite forallb_forall in Hok. by apply Hok. Qed.

(** C25. However the steps of starting the file system once, its main loop and one call to stop it are
    interleaved, and whichever step of the start fails: no session or channel that is gone is used, the
    lock is not used before it exists, and the session lives as long as the main loop runs.
    Every step that is not a turn of the waiting loop of [dfuse_shutdown] brings everybody closer to the
    end; and as long as somebody has not returned such a step is possible, except in the states ([inUse]) where the call to
    stop came before the start and has returned without effect: there the main loop runs on.  Once all have
    returned the session is destroyed, the file system unmounted and the lock free.  The list of
    arguments has been freed exactly if the start failed: after a start that succeeded neither it nor the string with the mount point is ever freed. *)
Theorem dfuse_lifecycle s : reachable s ->
  lf_bad s = false /\ (lf_main s = M_loop -> lf_sessionAlive s = true)
  /\ (forall s', s' ∈ succs s -> s' = s \/ (rank s' < rank s)%nat)
  /\ (finished s = false -> inUse s = false -> exists s', s' ∈ succs s /\ s' <> s)
  /\ (finished s = true -> lf_sessionAlive s = false /\ lf_mounted s = false /\ lf_lock s = None
      /\ (lf_args s = true <-> lf_init s = I_end true) /\ (lf_init s = I_end true -> lf_mountPoint s = true)).
Proof.
  intros Hok%reachable_ok. unfold stateOk in Hok. rewrite !andb_true_iff in Hok. destruct Hok as ((((H1 & H2) & H3) & H4) & H5).
  split_and!.
  - by apply negb_true_iff.
  - intros Hm. rewrite bool_decide_eq_true_2 in H2 by done. done.
  - intros s' Hs%list_elem_of_In. rewrite forallb_forall in H3. apply H3, orb_true_iff in Hs as [Hs|Hs]; [left|right].
    + by apply bool_decide_eq_true in Hs.
    + by apply Nat.ltb_lt in Hs.
  - intros Hf Hu. rewrite Hf, Hu in H4. apply existsb_exists in H4 as (s' & Hs & Hn). exists s'. split; [by apply list_elem_of_In|].
    by apply negb_true_iff, bool_decide_eq_false in Hn.
  - intros Hf. rewrite Hf in H5. cbn [negb orb] in H5. rewrite !andb_true_iff, !negb_true_iff, Bool.eqb_true_iff in H5.
    destruct H5 as ((((? & ?) & ?%bool_decide_eq_true) & Ha) & Hm). split_and!; try done.
    + rewrite Ha. apply bool_decide_eq_true.
    + intros Hi. rewrite bool_decide_eq_true_2 in Ha by done. rewrite Ha in Hm. done.
Qed.
(** The start until the main loop runs, then the call that stops it. *)
Fixpoint runFirst (n : nat) (pick : nat -> nat) (s : life) : life :=
  match n with O => s | S n => match succs s !! pick n with Some s' => runFirst n pick s' | None => s end end.
Lemma runFirst_reachable n pick : forall s, reachable s -> reachable (runFirst n pick s).
Proof.
  induction n as [|n IH]; intros s Hs; [done|]. cbn. destruct (succs s !! pick n) as [s'|] eqn:E; [|done].
  apply IH. eapply reach_step; [done|]. by eapply list_elem_of_lookup_2.
Qed.
Definition demo_life : life := runFirst 11 (fun n => if (2 <? n)%nat && (n <? 7)%nat then 1%nat else 0%nat) (life_start false).
Lemma dfuse_lifecycle_witness : lf_main demo_life = M_loop /\ lf_sessionAlive demo_life = true.
Proof.
  assert (lf_main demo_life = M_loop) as Hm by (vm_compute; reflexivity). split; [exact Hm|].
  destruct (dfuse_lifecycle demo_life) as (_ & H & _); [apply runFirst_reachable, reach_start|exact (H Hm)].
Defined.
