(* ===== verification/Ini.v ===== *)
(** * Ini: the parser of configuration files ([src/server/ini.c])

    Lines are read with [fgets]; what the code writes into the line to cut it is a split of
    the list of characters here.  The handler is an argument, as in the code; it may end the
    process, which is [None]. *)

From Stdlib Require Import Ascii.
From S2P Require Import Prelude Helper FileUtil.
Open Scope Z_scope.

(** ** Strings *)

Definition MAX_SECTION : nat := 50.
Definition MAX_NAME : nat := 50.
Definition INI_MAX_LINE : nat := 200.

Definition rstrip (s : list ascii) : list ascii := rev (dropWhile is_space (rev s)).
Definition lskip (s : list ascii) : list ascii := dropWhile is_space s.
(** The part before the character ([None] for the end of the string) or the comment, and
    the rest from there. *)
Fixpoint find_char_or_comment (was_whitespace : bool) (c : option ascii) (s : list ascii) : list ascii * list ascii :=
  match s with
  | [] => ([], [])
  | x :: r =>
      if bool_decide (Some x = c) || (was_whitespace && Ascii.eqb x ";") then ([], s)
      else let '(a, b) := find_char_or_comment (is_space x) c r in (x :: a, b)
  end.
Definition strncpy0 (size : nat) (src : list ascii) : list ascii := take (size - 1) src.

(** ** One line *)

(** The loop that looks for the bracket that closes the first; the name is what is before
    it. *)
Fixpoint closingBracket (cnt : Z) (s : list ascii) : option (list ascii) :=
  match s with
  | [] => None
  | x :: r =>
      let cnt := if Ascii.eqb x "[" then cnt + 1 else cnt in
      let cnt := if Ascii.eqb x "]" then cnt - 1 else cnt in
      if cnt <? 0 then Some [] else cons x <$> closingBracket cnt r
  end.
Definition startsWith (c : ascii) (s : list ascii) : bool := bool_decide (head s = Some c).
(** The name in a section line behind the bracket; [None] if it is not closed. *)
Definition iniSection (s : list ascii) : option (list ascii) :=
  match closingBracket 0 s with
  | Some name => Some name
  | None => let '(name, rest) := find_char_or_comment false (Some "]"%char) s in
            if startsWith "]" rest then Some name else None
  end.
(** The name and the value of a pair; [None] if there is neither [=] nor [:]. *)
Definition pairOf (start : list ascii) : option (list ascii * list ascii) :=
  let '(a, b) := find_char_or_comment false (Some "="%char) start in
  let '(a, b) := if startsWith "=" b then (a, b) else find_char_or_comment false (Some ":"%char) start in
  if startsWith "=" b || startsWith ":" b then
    let value := lskip (tail b) in
    let '(v, rest) := find_char_or_comment false None value in
    let value := if startsWith ";" rest then v else value in
    Some (rstrip a, rstrip value)
  else None.

Inductive line_kind :=
| LNothing
| LCall (name value : list ascii)
| LPair (name value : list ascii)
| LSection (name : list ascii)
| LError.
(** [moved] says that [start > line]. *)
Definition lineKind (moved : bool) (prev_name start : list ascii) : line_kind :=
  if startsWith ";" start || startsWith "#" start then LNothing
  else if negb (bool_decide (prev_name = [])) && negb (bool_decide (start = [])) && moved then LCall prev_name start
  else if startsWith "[" start then
    match iniSection (tail start) with Some name => LSection name | None => LError end
  else if negb (bool_decide (start = [])) then
    match pairOf start with Some (name, value) => LPair name value | None => LError end
  else LNothing.

Definition BOM : list ascii := map ascii_of_N [239; 187; 191]%N.
(** [start] after the mark and the blanks are skipped, and whether it moved. *)
Definition lineStart (lineno : Z) (line : list ascii) : bool * list ascii :=
  let bom := (lineno =? 1) && bool_decide (take 3 line = BOM) in
  let s := rstrip (if bom then drop 3 line else line) in
  let start := lskip s in
  (bom || negb (Nat.eqb (length start) (length s)), start).

(** ** The file *)

Section Parse.
Context {St : Type} (handler : list ascii -> list ascii -> list ascii -> St -> option (bool * St)).

Record ini_state := Ini { is_section : list ascii; is_prev : list ascii; is_error : Z; is_user : St }.
Definition fail (lineno : Z) (s : ini_state) : ini_state :=
  Ini (is_section s) (is_prev s) (if is_error s =? 0 then lineno else is_error s) (is_user s).
Definition callHandler (lineno : Z) (name value : list ascii) (s : ini_state) : option ini_state :=
  match handler (is_section s) name value (is_user s) with
  | None => None
  | Some (ok, user) =>
      let s := Ini (is_section s) (is_prev s) (is_error s) user in
      Some (if ok then s else fail lineno s)
  end.
Definition iniLine (lineno : Z) (line : list ascii) (s : ini_state) : option ini_state :=
  let '(moved, start) := lineStart lineno (cstr line) in
  match lineKind moved (is_prev s) start with
  | LNothing => Some s
  | LCall name value => callHandler lineno name value s
  | LSection name => Some (Ini (strncpy0 MAX_SECTION name) [] (is_error s) (is_user s))
  | LPair name value =>
      callHandler lineno name value (Ini (is_section s) (strncpy0 MAX_NAME name) (is_error s) (is_user s))
  | LError => Some (fail lineno s)
  end.
Fixpoint iniLoop (fuel : nat) (file : list ascii) (lineno : Z) (s : ini_state) : option ini_state :=
  match fuel with
  | O => Some s
  | S fuel =>
      match file with
      | [] => Some s
      | _ =>
          let '(line, file) := fgets (INI_MAX_LINE - 1) file in
          s ← iniLine (lineno + 1) line s;
          iniLoop fuel file (lineno + 1) s
      end
  end.
Definition ini_parse_file (file : list ascii) (user : St) : option (Z * St) :=
  s ← iniLoop (length file) file 0 (Ini [] [] 0 user);
  Some (is_error s, is_user s).
(** A file that cannot be opened is [None]. *)
Definition ini_parse (file : option (list ascii)) (user : St) : option (Z * St) :=
  match file with
  | None => Some (-1, user)
  | Some file => ini_parse_file file user
  end.
End Parse.
Arguments Ini {St}.

(** ** Files that say what they mean *)

Inductive ini_item :=
| ISection (name : list ascii)
| IPair (name value : list ascii).
Definition printItem (i : ini_item) : list ascii :=
  match i with
  | ISection name => "["%char :: name ++ ["]"%char]
  | IPair name value => name ++ "="%char :: value
  end.
Definition printItems (items : list ini_item) : list ascii := concat (map (fun i => printItem i ++ [LF]) items).

Definition plain (c : ascii) : Prop := c <> NUL /\ c <> LF.
Definition isBlankChar (c : option ascii) : bool := match c with Some c => is_space c | None => false end.
Record value_ok (v : list ascii) : Prop := ValueOk {
  vo_plain : Forall plain v;
  vo_head : isBlankChar (head v) = false;
  vo_last : isBlankChar (list.last v) = false;
  vo_comment : find_char_or_comment false None v = (v, []);
}.
Record key_ok (k : list ascii) : Prop := KeyOk {
  ko_ne : k <> [];
  ko_chars : Forall (fun c => c <> NUL /\ is_space c = false /\ c <> "="%char) k;
  ko_first : Forall (fun c => head k <> Some c) [";"%char; "#"%char; "["%char; ascii_of_N 239];
}.
Definition section_ok (name : list ascii) : Prop :=
  Forall (fun c => plain c /\ c <> "["%char /\ c <> "]"%char) name /\ (length name < MAX_SECTION)%nat.
Definition item_ok (i : ini_item) : Prop :=
  (length (printItem i) < INI_MAX_LINE - 1)%nat /\
  match i with ISection name => section_ok name | IPair name value => key_ok name /\ value_ok value end.

Section Items.
Context {St : Type} (handler : list ascii -> list ascii -> list ascii -> St -> option (bool * St)).
(** What the items mean. *)
Definition runItem (lineno : Z) (i : ini_item) (s : ini_state) : option ini_state :=
  match i with
  | ISection name => Some (Ini name [] (is_error s) (is_user s))
  | IPair name value =>
      callHandler handler lineno name value (Ini (is_section s) (strncpy0 MAX_NAME name) (is_error s) (is_user s))
  end.
Fixpoint runItems (items : list ini_item) (lineno : Z) (s : ini_state) : option ini_state :=
  match items with
  | [] => Some s
  | i :: items => s ← runItem (lineno + 1) i s; runItems items (lineno + 1) s
  end.

Lemma dropWhile_id {A} (p : A -> bool) l : match head l with Some c => p c = false | None => True end -> dropWhile p l = l.
Proof. destruct l as [|c l]; cbn; [done|]. by intros ->. Qed.
Lemma head_rev {A} (l : list A) : head (rev l) = list.last l.
Proof. induction l as [|c l _] using rev_ind; [done|]. by rewrite last_snoc, rev_app_distr. Qed.
Lemma rstrip_id l : isBlankChar (list.last l) = false -> rstrip l = l.
Proof.
  intros Hl. unfold rstrip. rewrite dropWhile_id; [apply rev_involutive|]. rewrite head_rev. by destruct (list.last l).
Qed.
Lemma rstrip_line l : isBlankChar (list.last l) = false -> rstrip (l ++ [LF]) = l.
Proof. intros Hl. unfold rstrip. rewrite rev_app_distr. cbn. by apply rstrip_id. Qed.
Lemma lskip_id l : isBlankChar (head l) = false -> lskip l = l.
Proof. intros Hl. apply dropWhile_id. by destruct l. Qed.
Lemma lineStart_plain lineno l :
  isBlankChar (head l) = false -> isBlankChar (list.last l) = false -> head l <> Some (ascii_of_N 239) -> l <> [] ->
  lineStart lineno (l ++ [LF]) = (false, l).
Proof.
  intros Hh Hl Hb Hne. unfold lineStart. rewrite (bool_decide_eq_false_2 (take 3 (l ++ [LF]) = BOM)).
  - rewrite andb_false_r, rstrip_line, lskip_id by done. by rewrite Nat.eqb_refl.
  - destruct l as [|c l]; [done|]. cbn in *. congruence.
Qed.
Lemma startsWith_false c s : head s <> Some c -> startsWith c s = false.
Proof. intros H. unfold startsWith. by rewrite bool_decide_eq_false_2. Qed.

Lemma closingBracket_name name rest :
  Forall (fun c => plain c /\ c <> "["%char /\ c <> "]"%char) name -> closingBracket 0 (name ++ "]"%char :: rest) = Some name.
Proof.
  induction 1 as [|c name (_ & H1 & H2) _ IH]; [done|]. cbn [app closingBracket].
  rewrite (proj2 (Ascii.eqb_neq _ _) H1), (proj2 (Ascii.eqb_neq _ _) H2). cbn. by rewrite IH.
Qed.
Lemma find_char_key k c rest : forall ws,
  (ws = true -> head k <> Some ";"%char) -> k <> [] ->
  Forall (fun x => x <> NUL /\ is_space x = false /\ x <> c) k -> find_char_or_comment ws (Some c) (k ++ c :: rest) = (k, c :: rest).
Proof.
  induction k as [|x k IH]; intros ws Hws Hne Hk; [done|]. apply list.Forall_cons in Hk as [(_ & Hs & Hx) Hk].
  cbn [app find_char_or_comment]. rewrite bool_decide_eq_false_2 by congruence. cbn [orb].
  destruct (ws && Ascii.eqb x ";") eqn:E.
  { apply andb_true_iff in E as [-> ->%Ascii.eqb_eq]. by destruct Hws. }
  rewrite Hs. destruct k as [|y k].
  - cbn [app find_char_or_comment]. by rewrite bool_decide_eq_true_2.
  - by rewrite IH.
Qed.
Lemma key_last k : key_ok k -> isBlankChar (list.last k) = false.
Proof.
  intros [_ Hk _]. destruct (list.last k) as [c|] eqn:E; [|done]. apply last_Some_elem_of in E.
  rewrite list.Forall_forall in Hk. by apply Hk.
Qed.
Lemma pairOf_pair k v : key_ok k -> value_ok v -> pairOf (k ++ "="%char :: v) = Some (k, v).
Proof.
  intros Hk [_ Hh Hl Hc]. pose proof (key_last k Hk) as Hkl. destruct Hk as [Hne Hch _]. unfold pairOf.
  rewrite find_char_key by done. replace (startsWith "=" ("="%char :: v)) with true by done. cbn [orb tail].
  rewrite lskip_id by done. rewrite Hc. replace (startsWith ";" []) with false by done. by rewrite !rstrip_id.
Qed.
Lemma last_app_ne {A} (a b : list A) : b <> [] -> list.last (a ++ b) = list.last b.
Proof. intros Hb. rewrite list.last_app. destruct (list.last b) eqn:E; [done|]. by apply last_None in E. Qed.

Lemma iniLine_item lineno i s : item_ok i -> iniLine handler lineno (printItem i ++ [LF]) s = runItem lineno i s.
Proof.
  intros [_ Hok]. destruct i as [name|name value]; cbn [printItem runItem].
  - destruct Hok as [Hn Hlen]. unfold iniLine. rewrite cstr_id.
    2: { rewrite <- app_comm_cons. constructor; [done|]. rewrite <- app_assoc. apply list.Forall_app. split; [|by repeat constructor].
         eapply list.Forall_impl; [done|]. by intros c ((? & _) & _). }
    rewrite lineStart_plain; [|done|by rewrite app_comm_cons, last_app_ne|by cbn; vm_compute|done].
    unfold lineKind. rewrite (startsWith_false ";"), (startsWith_false "#") by done. cbn [orb].
    rewrite andb_false_r. replace (startsWith "[" ("["%char :: name ++ ["]"%char])) with true by done.
    cbn [tail]. unfold iniSection. rewrite closingBracket_name by done.
    unfold strncpy0. by rewrite take_ge by lia.
  - destruct Hok as [Hk Hv]. pose proof Hk as [Hne Hch Hfirst]. unfold iniLine. rewrite cstr_id.
    2: { rewrite <- app_assoc, <- app_comm_cons. apply list.Forall_app. split; [by eapply list.Forall_impl; [done|intros c []]|].
         constructor; [done|]. apply list.Forall_app. split; [|by repeat constructor].
         eapply list.Forall_impl; [apply Hv|]. by intros c [? ?]. }
    repeat (apply list.Forall_cons in Hfirst as [? Hfirst]). assert (head (name ++ "="%char :: value) = head name) as Hhead by by destruct name.
    rewrite lineStart_plain; [| | |by rewrite Hhead|by destruct name].
    + unfold lineKind. rewrite !startsWith_false by (by rewrite Hhead). cbn [orb]. rewrite andb_false_r.
      rewrite bool_decide_eq_false_2 by by destruct name. cbn [negb]. by rewrite pairOf_pair.
    + rewrite Hhead. destruct name as [|c name]; [done|]. apply list.Forall_cons in Hch as [(_ & ? & _) _]. done.
    + rewrite last_app_ne by done. destruct value as [|c value]; [done|]. rewrite last_cons_cons. apply Hv.
Qed.
Lemma item_no_lf i : item_ok i -> LF ∉ printItem i.
Proof.
  intros [_ Hok] Hin. destruct i as [name|name value]; cbn in *.
  - destruct Hok as [Hn _]. apply elem_of_cons in Hin as [|Hin]; [done|]. apply elem_of_app in Hin as [Hin|Hin].
    + rewrite list.Forall_forall in Hn. by apply Hn in Hin as ((_ & ?) & _).
    + by apply list_elem_of_singleton in Hin.
  - destruct Hok as [[_ Hk _] [Hv _ _ _]]. rewrite list.Forall_forall in Hk, Hv. apply elem_of_app in Hin as [Hin|Hin].
    + by apply Hk in Hin as (_ & ? & _).
    + apply elem_of_cons in Hin as [|Hin]; [done|]. by apply Hv in Hin as [_ ?].
Qed.
Lemma iniLoop_items items : forall fuel lineno s, Forall item_ok items -> (length (printItems items) <= fuel)%nat ->
  iniLoop handler fuel (printItems items) lineno s = runItems items lineno s.
Proof.
  induction items as [|i items IH]; intros fuel lineno s Hok Hf.
  - by destruct fuel.
  - apply list.Forall_cons in Hok as [Hi Hok]. unfold printItems in *. cbn [map concat] in *.
    rewrite !length_app in Hf. cbn in Hf. destruct fuel as [|fuel]; [lia|]. cbn [iniLoop runItems].
    rewrite <- app_assoc in *. cbn [app]. rewrite fgets_line; [|by apply item_no_lf|apply Hi].
    destruct (printItem i ++ LF :: _) eqn:E; [by destruct (printItem i)|]. clear E. rewrite iniLine_item by done.
    destruct (runItem (lineno + 1) i s) as [s'|]; [|done]. cbn. apply IH; [done|]. lia.
Qed.
Lemma ini_parse_items items user : Forall item_ok items ->
  ini_parse handler (Some (printItems items)) user = (fun s => (is_error s, is_user s)) <$> runItems items 0 (Ini [] [] 0 user).
Proof. intros Hok. cbn. unfold ini_parse_file. rewrite iniLoop_items by done. by destruct (runItems _ _ _). Qed.
End Items.

(** ** Any file *)

Section Invariant.
Context {St : Type} (handler : list ascii -> list ascii -> list ascii -> St -> option (bool * St)).
Context (P : St -> Prop).
Hypothesis keepsP : forall section name value s ok s', handler section name value s = Some (ok, s') -> P s -> P s'.

Lemma callHandler_inv lineno name value s s' : callHandler handler lineno name value s = Some s' -> P (is_user s) -> P (is_user s').
Proof.
  unfold callHandler. destruct (handler _ _ _ _) as [[ok u]|] eqn:E; [|done]. intros <-%(inj Some) Hp. apply keepsP in E; [|done].
  by destruct ok.
Qed.
Lemma iniLine_inv lineno line s s' : iniLine handler lineno line s = Some s' -> P (is_user s) -> P (is_user s').
Proof.
  unfold iniLine. destruct (lineStart lineno (cstr line)) as [moved start]. destruct (lineKind moved (is_prev s) start).
  - by intros <-%(inj Some).
  - apply callHandler_inv.
  - intros H. by apply (callHandler_inv _ _ _ _ _ H).
  - by intros <-%(inj Some).
  - by intros <-%(inj Some).
Qed.
Lemma iniLoop_inv fuel : forall file lineno s s', iniLoop handler fuel file lineno s = Some s' -> P (is_user s) -> P (is_user s').
Proof.
  induction fuel as [|fuel IH]; intros file lineno s s' Hr Hp; cbn [iniLoop] in Hr; [by apply (inj Some) in Hr as <-|].
  destruct file as [|c file]; [by apply (inj Some) in Hr as <-|]. destruct (fgets (INI_MAX_LINE - 1) (c :: file)) as [line rest].
  destruct (iniLine handler (lineno + 1) line s) as [s1|] eqn:E; [|done]. cbn in Hr. eapply IH; [done|]. by eapply iniLine_inv.
Qed.
Lemma ini_parse_inv file user e user' : ini_parse handler file user = Some (e, user') -> P user -> P user'.
Proof.
  destruct file as [file|]; cbn; [|by intros [= <- <-]]. unfold ini_parse_file.
  destruct (iniLoop _ _ _ _ _) as [s|] eqn:E; [|done]. cbn. intros [= <- <-] Hp. by eapply iniLoop_inv.
Qed.
End Invariant.
