(* ===== verification/Config.v ===== *)
(** * Config: the settings of the server ([src/server/globals.c])

    Each numeric or boolean setting is a [var]; booleans are 0 and 1.  A row of [rows] is one
    of the macros [SAVE_TO_VAR_...], in the order of the code.  What the system says
    about limits and log files is an argument. *)

From Stdlib Require Import Ascii.
From S2P Require Import Prelude Types Helper FileUtil ImageName Uplink Sockets Ini.
Open Scope Z_scope.

(** ** Numbers *)

(** [strtoll(in, &end, 10)]: the value and what is behind it; [None] if [end == in]. *)
Fixpoint spanDigits (s : list ascii) : list ascii * list ascii :=
  match s with
  | c :: r => match digit c with Some _ => let '(a, b) := spanDigits r in (c :: a, b) | None => ([], s) end
  | [] => ([], [])
  end.
Definition strtoll (s : list ascii) : option (Z * list ascii) :=
  let r := dropWhile is_space s in
  let '(neg, r) := match r with
                   | c :: r' => if Ascii.eqb c "-" then (true, r') else if Ascii.eqb c "+" then (false, r') else (false, r)
                   | [] => (false, r)
                   end in
  match spanDigits r with
  | ([], _) => None
  | (ds, rest) =>
      let v := digits ds 0 in
      Some (Z.max (- 2 ^ 63) (Z.min (if neg : bool then - v else v) (2 ^ 63 - 1)), rest)
  end.

Definition units : list ascii := chars "KMGTPEZY".
Fixpoint strchrIndex (c : ascii) (s : list ascii) : option Z :=
  match s with
  | [] => None
  | x :: s => if Ascii.eqb x c then Some 0 else Z.succ <$> strchrIndex c s
  end.
(** The conversion to upper case, on a signed char. *)
Definition unitChar (c : ascii) : ascii :=
  let n := N_of_ascii c in if (90 <? n)%N && (n <? 128)%N then ascii_of_N (n - 32) else c.
Definition isBlankSpace (c : ascii) : bool := Ascii.eqb c " ".
(** The exponent and the base that the unit stands for. *)
Definition unitOf (end_ : list ascii) : option (Z * Z) :=
  match dropWhile isBlankSpace end_ with
  | [] => Some (0, 1024)
  | c :: r =>
      if Ascii.eqb c "m" then Some (1, 60)
      else if Ascii.eqb c "h" then Some (1, 3600)
      else if Ascii.eqb c "d" then Some (1, 24 * 3600)
      else
        match strchrIndex (unitChar c) units with
        | None => None
        | Some pos => Some (pos + 1, match r with
                                     | x :: _ => if Ascii.eqb x "B" || Ascii.eqb x "b" then 1000 else 1024
                                     | [] => 1024
                                     end)
        end
  end.
(** [while ( exp-- > 0 ) num *= base] *)
Fixpoint mulLoop (exp : nat) (base num : Z) : Z :=
  match exp with O => num | S e => mulLoop e base (i64 (num * base)) end.
Definition parse64 (s : list ascii) : option Z :=
  match s with
  | [] => None
  | _ =>
      match strtoll s with
      | None => None
      | Some (num, end_) =>
          match unitOf end_ with
          | None => None
          | Some (exp, base) => Some (mulLoop (Z.to_nat exp) base num)
          end
      end
  end.
Definition INT_MIN : Z := - 2 ^ 31.
Definition INT_MAX : Z := 2 ^ 31 - 1.
Definition parse64u (s : list ascii) : option Z :=
  match parse64 s with Some v => if v <? 0 then None else Some v | None => None end.
Definition parse32 (s : list ascii) : option Z :=
  match parse64 s with Some v => if (v <? INT_MIN) || (INT_MAX <? v) then None else Some v | None => None end.
Definition parse32u (s : list ascii) : option Z :=
  match parse64 s with Some v => if (v <? 0) || (INT_MAX <? v) then None else Some v | None => None end.
Definition IS_TRUE (value : list ascii) : bool :=
  negb (atoi32 value =? 0) || bool_decide (value = chars "true") || bool_decide (value = chars "True")
  || bool_decide (value = chars "TRUE").

(** ** Settings *)

Inductive var :=
| VlistenPort | VserverPenalty | VclientPenalty | VisProxy | VbackgroundReplication | VbgrMinClients | VbgrWindowSize
| VlookupMissingForProxy | VsparseFiles | VignoreAllocErrors | VremoveMissingImages | VuplinkTimeout | VclientTimeout
| VcloseUnusedFd | VvmdkLegacyMode | VproxyPrivateOnly | VpretendClient | VautoFreeDiskSpaceDelay
| VmaxClients | VmaxImages | VmaxPayload | VmaxReplicationSize | VmaxPrefetch | VminRequestSize.
#[global] Instance var_eq_dec : EqDecision var.
Proof. solve_decision. Defined.
Inductive var_kind := KBool | KInt | KUint | KUint64.

Record globals := Globals {
  g_var : var -> Z;
  g_basePath : option (list ascii);
  g_initialLoad : bool;
  g_fileMask : Z;
  g_consoleMask : Z;
  g_consoleTimestamps : bool;
}.
Definition set_var (v : var) (x : Z) (g : globals) : globals :=
  Globals (fun v' => if decide (v' = v) then x else g_var g v') (g_basePath g) (g_initialLoad g) (g_fileMask g)
    (g_consoleMask g) (g_consoleTimestamps g).
Definition set_basePath (p : option (list ascii)) (g : globals) : globals :=
  Globals (g_var g) p (g_initialLoad g) (g_fileMask g) (g_consoleMask g) (g_consoleTimestamps g).
Definition set_initialLoad (b : bool) (g : globals) : globals :=
  Globals (g_var g) (g_basePath g) b (g_fileMask g) (g_consoleMask g) (g_consoleTimestamps g).
Definition set_fileMask (m : Z) (g : globals) : globals :=
  Globals (g_var g) (g_basePath g) (g_initialLoad g) m (g_consoleMask g) (g_consoleTimestamps g).
Definition set_consoleMask (m : Z) (g : globals) : globals :=
  Globals (g_var g) (g_basePath g) (g_initialLoad g) (g_fileMask g) m (g_consoleTimestamps g).
Definition set_consoleTimestamps (b : bool) (g : globals) : globals :=
  Globals (g_var g) (g_basePath g) (g_initialLoad g) (g_fileMask g) (g_consoleMask g) b.
Definition bool2Z (b : bool) : Z := if b then 1 else 0.

(** The initial values. *)
Definition defaults (v : var) : Z :=
  match v with
  | VlistenPort => 5003 | VserverPenalty => 0 | VclientPenalty => 0 | VisProxy => 0
  | VbackgroundReplication => BGR_FULL | VbgrMinClients => 0 | VbgrWindowSize => 1
  | VlookupMissingForProxy => 1 | VsparseFiles => 0 | VignoreAllocErrors => 0 | VremoveMissingImages => 1
  | VuplinkTimeout => 5000 | VclientTimeout => 15000 | VcloseUnusedFd => 0 | VvmdkLegacyMode => 0
  | VproxyPrivateOnly => 0 | VpretendClient => 0 | VautoFreeDiskSpaceDelay => 3600 * 10
  | VmaxClients => SERVER_MAX_CLIENTS | VmaxImages => SERVER_MAX_IMAGES | VmaxPayload => 9000000
  | VmaxReplicationSize => 100000000000 | VmaxPrefetch => 262144 | VminRequestSize => 0
  end.

(** One of the macros: section, key, how the value is read, and whether it only counts when the
    configuration is loaded for the first time. *)
Record row := Row { r_var : var; r_section : string; r_key : string; r_kind : var_kind; r_fixed : bool }.
Definition rows : list row :=
  [ Row VvmdkLegacyMode "dnbd3" "vmdkLegacyMode" KBool true;
    Row VlistenPort "dnbd3" "listenPort" KInt true;
    Row VmaxClients "limits" "maxClients" KInt true;
    Row VmaxImages "limits" "maxImages" KInt true;
    Row VisProxy "dnbd3" "isProxy" KBool false;
    Row VproxyPrivateOnly "dnbd3" "proxyPrivateOnly" KBool false;
    Row VbgrMinClients "dnbd3" "bgrMinClients" KInt false;
    Row VbgrWindowSize "dnbd3" "bgrWindowSize" KInt false;
    Row VlookupMissingForProxy "dnbd3" "lookupMissingForProxy" KBool false;
    Row VsparseFiles "dnbd3" "sparseFiles" KBool false;
    Row VignoreAllocErrors "dnbd3" "ignoreAllocErrors" KBool false;
    Row VremoveMissingImages "dnbd3" "removeMissingImages" KBool false;
    Row VcloseUnusedFd "dnbd3" "closeUnusedFd" KBool false;
    Row VserverPenalty "dnbd3" "serverPenalty" KInt false;
    Row VclientPenalty "dnbd3" "clientPenalty" KInt false;
    Row VuplinkTimeout "dnbd3" "uplinkTimeout" KUint false;
    Row VclientTimeout "dnbd3" "clientTimeout" KUint false;
    Row VmaxPayload "limits" "maxPayload" KUint false;
    Row VmaxReplicationSize "limits" "maxReplicationSize" KUint64 false;
    Row VmaxPrefetch "limits" "maxPrefetch" KUint false;
    Row VminRequestSize "limits" "minRequestSize" KUint false;
    Row VpretendClient "dnbd3" "pretendClient" KBool false;
    Row VautoFreeDiskSpaceDelay "dnbd3" "autoFreeDiskSpaceDelay" KInt false ].
Definition readValue (k : var_kind) (value : list ascii) : option Z :=
  match k with
  | KBool => Some (bool2Z (IS_TRUE value))
  | KInt => parse32 value
  | KUint => parse32u value
  | KUint64 => parse64u value
  end.
Definition isKey (ss kk : string) (section key : list ascii) : bool :=
  bool_decide (section = chars ss) && bool_decide (key = chars kk).
Definition SAVE_TO_VAR (section key value : list ascii) (g : globals) (r : row) : globals :=
  if (negb (r_fixed r) || g_initialLoad g) && isKey (r_section r) (r_key r) section key then
    match readValue (r_kind r) value with Some x => set_var (r_var r) x g | None => g end
  else g.

(** [strstr] finds the name. *)
Fixpoint containsName (hay needle : list ascii) : bool :=
  bool_decide (take (length needle) hay = needle) || match hay with [] => false | _ :: hay => containsName hay needle end.
Definition handleMaskString (value : list ascii) : Z :=
  let bit n b := if containsName value (chars n) then b else 0 in
  bit "ERROR"%string 1 .| bit "WARNING"%string 2 .| bit "MINOR"%string 4 .| bit "INFO"%string 8 .| bit "DEBUG1"%string 16
  .| bit "DEBUG2"%string 32.

Section Load.
(** [log_openLogFile] *)
Context (openLog : list ascii -> bool).

(** [None] is the end of the process. *)
Definition ini_handler (section key value : list ascii) (g : globals) : option (bool * globals) :=
  let g := if g_initialLoad g && bool_decide (g_basePath g = None) && isKey "dnbd3" "basePath" section key
           then set_basePath (Some value) g else g in
  let g := foldl (SAVE_TO_VAR section key value) g rows in
  let g := if isKey "dnbd3" "backgroundReplication" section key then
             set_var VbackgroundReplication
               (if bool_decide (value = chars "hashblock") then BGR_HASHBLOCK
                else if IS_TRUE value then BGR_FULL else BGR_DISABLED) g
           else g in
  let g := if isKey "logging" "fileMask" section key then set_fileMask (handleMaskString value) g else g in
  let g := if isKey "logging" "consoleMask" section key then set_consoleMask (handleMaskString value) g else g in
  let g := if isKey "logging" "consoleTimestamps" section key then set_consoleTimestamps (IS_TRUE value) g else g in
  if isKey "logging" "file" section key && negb (openLog value) then None else Some (true, g).

(** ** Checks after loading *)

Fixpoint stripSlashes (s : list ascii) : list ascii :=
  match s with
  | [] => []
  | c :: s => match stripSlashes s with
              | [] => if Ascii.eqb c "/" then [] else [c]
              | s' => c :: s'
              end
  end.
Definition sanitizeBasePath (p : option (list ascii)) : option (list ascii) :=
  match p with
  | Some (c :: s) => if Ascii.eqb c "/" then Some (stripSlashes (c :: s)) else None
  | _ => None
  end.
Definition needed (isProxy clients images : Z) : Z :=
  u64 (i32 (clients + images * (if isProxy =? 0 then 1 else 2) + 50)).
(** The loop that lowers the numbers until they fit. *)
Fixpoint lowerLoop (fuel : nat) (isProxy current clients images : Z) : Z * Z :=
  match fuel with
  | O => (clients, images)
  | S fuel =>
      let again clients images :=
        if current <? needed isProxy clients images then lowerLoop fuel isProxy current clients images else (clients, images) in
      if (500 <? clients) && (150 <? images) then
        again (clients - (Z.quot clients 20 + 1)) (images - (Z.quot images 20 + 1))
      else if 100 <? images then
        again (if 200 <? clients then clients - (Z.quot clients 25 + 1) else clients) (images - (Z.quot images 20 + 1))
      else (clients, images)
  end.
Definition RLIM_INFINITY : Z := 2 ^ 64 - 1.
(** [limits] is what [getrlimit] returns, [raised] whether [setrlimit] succeeds. *)
Definition applyLimits (limits : option (Z * Z)) (raised : bool) (isProxy clients images : Z) : Z * Z :=
  match limits with
  | None => (clients, images)
  | Some (cur, max) =>
      let required := needed isProxy clients images in
      if negb (cur =? RLIM_INFINITY) && (cur <? required) then
        let want := if (required <=? max) || (max =? RLIM_INFINITY) then required else max in
        let current := if negb (cur =? want) && raised then want else cur in
        if current <? required then lowerLoop (Z.to_nat images) isProxy current clients images else (clients, images)
      else (clients, images)
  end.
Context (limits : option (Z * Z)) (raised : bool).
Definition sanitizeFixedConfig (g : globals) : option globals :=
  let g := set_basePath (sanitizeBasePath (g_basePath g)) g in
  let port := g_var g VlistenPort in
  if (port <? 1) || (65535 <? port) then None
  else
    let clients := Z.min (g_var g VmaxClients) SERVER_MAX_CLIENTS in
    let images := Z.min (g_var g VmaxImages) SERVER_MAX_IMAGES in
    let '(clients, images) := applyLimits limits raised (g_var g VisProxy) clients images in
    Some (set_var VmaxImages images (set_var VmaxClients clients g)).

Definition sanitizeProxy (g : globals) : globals :=
  if g_var g VisProxy =? 0 then g
  else
    let g := if (g_var g VbackgroundReplication =? BGR_FULL) && negb (g_var g VsparseFiles =? 0) && (g_var g VbgrMinClients <? 5)
             then set_var VsparseFiles 0 g else g in
    let g := if g_var g VbgrWindowSize <? 1 then set_var VbgrWindowSize 1 g
             else if UPLINK_MAX_QUEUE - 10 <? g_var g VbgrWindowSize then set_var VbgrWindowSize (UPLINK_MAX_QUEUE - 10) g
             else g in
    let g := if g_var g VmaxPayload <? 256 * 1024 then set_var VmaxPayload (256 * 1024) g else g in
    let g := if g_var g VmaxPayload <? g_var g VmaxPrefetch then set_var VmaxPrefetch (g_var g VmaxPayload) g else g in
    if g_var g VmaxPayload <? g_var g VminRequestSize then set_var VminRequestSize (g_var g VmaxPayload) g else g.

(** [locked] says that another load is running; [file] is the content of the file. *)
Definition globals_loadConfig (locked : bool) (file : option (list ascii)) (g : globals) : option globals :=
  if locked then Some g
  else
    '(_, g) ← ini_parse ini_handler file g;
    g ← (if g_initialLoad g then sanitizeFixedConfig g else Some g);
    Some (set_initialLoad false (sanitizeProxy g)).
End Load.

(** ** Dumping *)

(** [%d] and [%PRIu64] *)
Definition printInt (x : Z) : list ascii := if x <? 0 then "-"%char :: print_digits 19 (- x) else print_digits 19 x.
Definition printVar (g : globals) (k : var_kind) (v : var) : list ascii :=
  match k with
  | KBool => chars (if g_var g v =? 0 then "false" else "true")
  | KInt | KUint => printInt (i32 (g_var g v))
  | KUint64 => printInt (u64 (g_var g v))
  end.
Definition dumpVar (g : globals) (key : string) (k : var_kind) (v : var) : ini_item := IPair (chars key) (printVar g k v).
(** The lines of [globals_dumpConfig]. *)
Definition dumpItems (g : globals) : list ini_item :=
  [ ISection (chars "dnbd3");
    dumpVar g "listenPort" KInt VlistenPort;
    IPair (chars "basePath") (default (chars "(null)") (g_basePath g));
    dumpVar g "serverPenalty" KInt VserverPenalty;
    dumpVar g "clientPenalty" KInt VclientPenalty;
    dumpVar g "isProxy" KBool VisProxy;
    if g_var g VbackgroundReplication =? BGR_HASHBLOCK then IPair (chars "backgroundReplication") (chars "hashblock")
    else dumpVar g "backgroundReplication" KBool VbackgroundReplication;
    dumpVar g "bgrMinClients" KInt VbgrMinClients;
    dumpVar g "bgrWindowSize" KInt VbgrWindowSize;
    dumpVar g "lookupMissingForProxy" KBool VlookupMissingForProxy;
    dumpVar g "sparseFiles" KBool VsparseFiles;
    dumpVar g "ignoreAllocErrors" KBool VignoreAllocErrors;
    dumpVar g "removeMissingImages" KBool VremoveMissingImages;
    dumpVar g "uplinkTimeout" KInt VuplinkTimeout;
    dumpVar g "clientTimeout" KInt VclientTimeout;
    dumpVar g "closeUnusedFd" KBool VcloseUnusedFd;
    dumpVar g "vmdkLegacyMode" KBool VvmdkLegacyMode;
    dumpVar g "proxyPrivateOnly" KBool VproxyPrivateOnly;
    dumpVar g "pretendClient" KBool VpretendClient;
    dumpVar g "autoFreeDiskSpaceDelay" KInt VautoFreeDiskSpaceDelay;
    ISection (chars "limits");
    dumpVar g "maxClients" KInt VmaxClients;
    dumpVar g "maxImages" KInt VmaxImages;
    dumpVar g "maxPayload" KInt VmaxPayload;
    dumpVar g "maxReplicationSize" KUint64 VmaxReplicationSize;
    dumpVar g "maxPrefetch" KInt VmaxPrefetch;
    dumpVar g "minRequestSize" KInt VminRequestSize ].
(** [P_ARG] for each line: the text in the buffer and the value returned. *)
Fixpoint dumpLoop (items : list ini_item) (size rem : Z) : list ascii * Z :=
  match items with
  | [] => ([], size - rem)
  | i :: items =>
      let line := printItem i ++ [LF] in
      let r := Z.of_nat (length line) in
      if rem <=? r then (take (Z.to_nat (rem - 1)) line, u64 (size - 1))
      else let '(text, ret) := dumpLoop items size (rem - r) in (line ++ text, ret)
  end.
Definition globals_dumpConfig (g : globals) (size : Z) : list ascii * Z := dumpLoop (dumpItems g) size size.

(** ** Reading numbers that were printed *)

Lemma spanDigits_all l rest : (forall x, x ∈ l -> is_Some (digit x)) -> (match rest with c :: _ => digit c = None | [] => True end) ->
  spanDigits (l ++ rest) = (l, rest).
Proof.
  intros Hl Hr. induction l as [|c l IH]; cbn.
  - destruct rest as [|c rest]; [done|]. cbn. by rewrite Hr.
  - destruct (Hl c) as [d ->]; [by left|]. rewrite IH; [done|]. intros x Hx. apply Hl. by right.
Qed.
Lemma print_digits_ne f n : print_digits f n <> [].
Proof. destruct f; cbn; [done|]. destruct (n <? 10); [done|]. by destruct (print_digits f (n / 10)). Qed.
Lemma printInt_ne x : printInt x <> [].
Proof. unfold printInt. destruct (x <? 0); [done|]. apply print_digits_ne. Qed.
Lemma strtoll_print x : - 2 ^ 63 < x < 2 ^ 63 -> strtoll (printInt x) = Some (x, []).
Proof.
  intros Hx. unfold strtoll, printInt. destruct (Z.ltb_spec x 0).
  - cbn [dropWhile]. replace (is_space "-") with false by done. replace (Ascii.eqb "-" "-") with true by done.
    pose proof (spanDigits_all (print_digits 19 (- x)) [] (print_digits_digit 19 (- x) ltac:(lia)) I) as Hs.
    rewrite app_nil_r in Hs. rewrite Hs. pose proof (print_digits_ne 19 (- x)) as Hne.
    pose proof (digits_print 19 (- x) ltac:(lia)) as Hd. destruct (print_digits 19 (- x)); [done|]. rewrite Hd. repeat f_equal. lia.
  - pose proof (spanDigits_all (print_digits 19 x) [] (print_digits_digit 19 x ltac:(lia)) I) as Hs. rewrite app_nil_r in Hs.
    pose proof (digits_print 19 x ltac:(lia)) as Hd. pose proof (print_digits_digit 19 x ltac:(lia)) as Hdig.
    destruct (print_digits 19 x) as [|c r] eqn:E; [by apply print_digits_ne in E|].
    destruct (digit_not_space c) as (H1 & H2 & H3 & _); [apply Hdig; by left|].
    cbn [dropWhile]. rewrite H1, H2, H3, Hs, Hd. repeat f_equal. lia.
Qed.
Lemma parse64_print x : - 2 ^ 63 < x < 2 ^ 63 -> parse64 (printInt x) = Some x.
Proof.
  intros Hx. unfold parse64. pose proof (printInt_ne x) as Hne. pose proof (strtoll_print x Hx) as Hs.
  destruct (printInt x); [done|]. by rewrite Hs.
Qed.

(** ** Ranges *)

Definition varKind (v : var) : var_kind :=
  match v with
  | VisProxy | VlookupMissingForProxy | VsparseFiles | VignoreAllocErrors | VremoveMissingImages | VcloseUnusedFd
  | VvmdkLegacyMode | VproxyPrivateOnly | VpretendClient => KBool
  | VuplinkTimeout | VclientTimeout | VmaxPayload | VmaxPrefetch | VminRequestSize => KUint
  | VmaxReplicationSize => KUint64
  | _ => KInt
  end.
Definition valueRange (k : var_kind) (x : Z) : Prop :=
  match k with
  | KBool => 0 <= x <= 1
  | KInt => INT_MIN <= x <= INT_MAX
  | KUint => 0 <= x <= INT_MAX
  | KUint64 => 0 <= x < 2 ^ 63
  end.
Record ranges (g : globals) : Prop := Ranges {
  rg_var : forall v, valueRange (varKind v) (g_var g v);
  rg_bgr : 0 <= g_var g VbackgroundReplication <= 2;
}.

Lemma i64_range x : - 2 ^ 63 <= i64 x < 2 ^ 63.
Proof. unfold i64. pose proof (Z.mod_pos_bound (x + 2 ^ 63) (2 ^ 64) ltac:(lia)). lia. Qed.
Lemma mulLoop_range e base : forall num, - 2 ^ 63 <= num < 2 ^ 63 -> - 2 ^ 63 <= mulLoop e base num < 2 ^ 63.
Proof. induction e as [|e IH]; intros num Hn; cbn; [done|]. apply IH, i64_range. Qed.
Lemma parse64_range s x : parse64 s = Some x -> - 2 ^ 63 <= x < 2 ^ 63.
Proof.
  unfold parse64. destruct s as [|c s]; [done|]. destruct (strtoll (c :: s)) as [[num end_]|] eqn:E; [|done].
  destruct (unitOf end_) as [[e base]|]; [|done]. intros <-%(inj Some). apply mulLoop_range.
  unfold strtoll in E. destruct (match dropWhile is_space (c :: s) with [] => _ | _ => _ end) as [neg r].
  destruct (spanDigits r) as [[|d ds] rest]; [done|]. injection E as <- <-. lia.
Qed.
Lemma bool2Z_range b : 0 <= bool2Z b <= 1.
Proof. destruct b; cbn; lia. Qed.
Lemma readValue_range k value x : readValue k value = Some x -> valueRange k x.
Proof.
  destruct k; cbn [readValue valueRange].
  - intros <-%(inj Some). apply bool2Z_range.
  - unfold parse32. destruct (parse64 value); [|done]. destruct (_ || _) eqn:E; [done|]. intros <-%(inj Some).
    apply orb_false_iff in E as [?%Z.ltb_ge ?%Z.ltb_ge]. lia.
  - unfold parse32u. destruct (parse64 value); [|done]. destruct (_ || _) eqn:E; [done|]. intros <-%(inj Some).
    apply orb_false_iff in E as [?%Z.ltb_ge ?%Z.ltb_ge]. lia.
  - unfold parse64u. destruct (parse64 value) eqn:Ep; [|done]. apply parse64_range in Ep. destruct (Z.ltb_spec z 0); [done|].
    intros <-%(inj Some). lia.
Qed.
Lemma IS_TRUE_bool b : IS_TRUE (chars (if b : bool then "true" else "false")) = b.
Proof. by destruct b. Qed.
Lemma i32_id' x : INT_MIN <= x <= INT_MAX -> i32 x = x.
Proof. intros Hx. apply i32_id. unfold in_i32, INT_MIN, INT_MAX in *. lia. Qed.
Lemma readValue_print g k v :
  (k = varKind v \/ k = KInt /\ varKind v = KUint) -> valueRange (varKind v) (g_var g v) ->
  readValue (varKind v) (printVar g k v) = Some (g_var g v).
Proof.
  intros Hk Hr. assert (match varKind v with KBool => k = KBool | KUint64 => k = KUint64 | _ => k = KInt \/ k = KUint end) as Hk'
    by (destruct Hk as [->|[-> ->]]; [destruct (varKind v)|]; tauto).
  destruct (varKind v); cbn [readValue valueRange] in *; unfold INT_MIN, INT_MAX in *.
  - subst k. cbn [printVar]. f_equal. destruct (Z.eqb_spec (g_var g v) 0) as [->|]; [done|].
    rewrite (IS_TRUE_bool true). cbn. lia.
  - assert (printVar g k v = printInt (g_var g v)) as -> by (destruct Hk' as [-> | ->]; cbn; rewrite i32_id'; done || (unfold INT_MIN, INT_MAX; lia)).
    unfold parse32. rewrite parse64_print by lia. unfold INT_MIN, INT_MAX.
    destruct (Z.ltb_spec (g_var g v) (- 2 ^ 31)); [lia|]. destruct (Z.ltb_spec (2 ^ 31 - 1) (g_var g v)); [lia|done].
  - assert (printVar g k v = printInt (g_var g v)) as -> by (destruct Hk' as [-> | ->]; cbn; rewrite i32_id'; done || (unfold INT_MIN, INT_MAX; lia)).
    unfold parse32u. rewrite parse64_print by lia. unfold INT_MAX.
    destruct (Z.ltb_spec (g_var g v) 0); [lia|]. destruct (Z.ltb_spec (2 ^ 31 - 1) (g_var g v)); [lia|done].
  - subst k. cbn [printVar]. rewrite u64_id by crange. unfold parse64u. rewrite parse64_print by lia.
    destruct (Z.ltb_spec (g_var g v) 0); [lia|done].
Qed.

(** ** The handler *)

#[global] Instance chars_inj : Inj eq eq chars.
Proof. intros a b H. by rewrite <- (unchars_chars a), H, unchars_chars. Qed.
Lemma isKey_chars ss kk s k : isKey ss kk (chars s) (chars k) = bool_decide (s = ss /\ k = kk).
Proof.
  unfold isKey. case_bool_decide as H1; case_bool_decide as H2; cbn [andb]; symmetry.
  - apply bool_decide_eq_true_2. by apply (inj chars) in H1, H2.
  - apply bool_decide_eq_false_2. intros [-> ->]. done.
  - apply bool_decide_eq_false_2. intros [-> ->]. done.
  - apply bool_decide_eq_false_2. intros [-> ->]. done.
Qed.
Definition rowKey (r : row) : string * string := (r_section r, r_key r).
Lemma rows_keys : base.NoDup (map rowKey rows).
Proof. apply (bool_decide_unpack _). by vm_compute. Qed.
Lemma saveRows_none rs s k value g : (s, k) ∉ map rowKey rs -> foldl (SAVE_TO_VAR (chars s) (chars k) value) g rs = g.
Proof.
  induction rs as [|r rs IH]; intros Hn; [done|]. cbn [map] in Hn. apply not_elem_of_cons in Hn as [H1 H2]. cbn [foldl].
  rewrite <- (IH H2) at 2. f_equal. unfold SAVE_TO_VAR. rewrite isKey_chars, bool_decide_eq_false_2, andb_false_r; [done|].
  intros [-> ->]. by destruct H1.
Qed.
Lemma saveRows_one rs r value g x : base.NoDup (map rowKey rs) -> r ∈ rs -> g_initialLoad g = true -> readValue (r_kind r) value = Some x ->
  foldl (SAVE_TO_VAR (chars (r_section r)) (chars (r_key r)) value) g rs = set_var (r_var r) x g.
Proof.
  induction rs as [|r' rs IH]; intros Hnd Hr Hi Hx; [by apply elem_of_nil in Hr|]. cbn [map] in Hnd.
  apply list.NoDup_cons in Hnd as [Hni Hnd]. cbn [foldl]. apply elem_of_cons in Hr as [->|Hr].
  - rewrite saveRows_none by done. unfold SAVE_TO_VAR. rewrite isKey_chars, bool_decide_eq_true_2, Hi, orb_true_r, Hx by done. done.
  - assert (SAVE_TO_VAR (chars (r_section r)) (chars (r_key r)) value g r' = g) as ->; [|by apply IH].
    unfold SAVE_TO_VAR. rewrite isKey_chars, bool_decide_eq_false_2, andb_false_r; [done|].
    intros [H1 H2]. apply Hni. change (rowKey r') with (r_section r', r_key r'). rewrite <- H1, <- H2.
    apply list_elem_of_In, in_map_iff. exists r. split; [done|by apply list_elem_of_In].
Qed.

(** ** Loading what was dumped *)

Section RoundTrip.
Context (openLog : list ascii -> bool).

Lemma row_not_special r ss kk : r ∈ rows -> (ss, kk) ∉ map rowKey rows -> isKey ss kk (chars (r_section r)) (chars (r_key r)) = false.
Proof.
  intros Hr Hn. rewrite isKey_chars. apply bool_decide_eq_false_2. intros [<- <-]. apply Hn.
  apply list_elem_of_In, in_map_iff. exists r. split; [done|by apply list_elem_of_In].
Qed.
Lemma handler_row r value g x : r ∈ rows -> g_initialLoad g = true -> readValue (r_kind r) value = Some x ->
  ini_handler openLog (chars (r_section r)) (chars (r_key r)) value g = Some (true, set_var (r_var r) x g).
Proof.
  intros Hr Hi Hx. unfold ini_handler.
  rewrite !(row_not_special r _ _ Hr) by (apply (bool_decide_unpack _); by vm_compute). rewrite andb_false_r. cbn [andb].
  by rewrite (saveRows_one _ r _ _ x) by (apply rows_keys || done).
Qed.
Lemma handler_basePath value g : g_initialLoad g = true -> g_basePath g = None ->
  ini_handler openLog (chars "dnbd3") (chars "basePath") value g = Some (true, set_basePath (Some value) g).
Proof.
  intros Hi Hb. unfold ini_handler. rewrite !isKey_chars, Hi, (bool_decide_eq_true_2 (g_basePath g = None)) by done. cbn [andb].
  rewrite (bool_decide_eq_true_2 ("dnbd3"%string = "dnbd3"%string /\ "basePath"%string = "basePath"%string)) by done.
  rewrite !(bool_decide_eq_false_2 (_ /\ _)) by (by intros [? ?]). cbn [andb].
  by rewrite saveRows_none by (apply (bool_decide_unpack _); by vm_compute).
Qed.
Lemma handler_bgr value g :
  ini_handler openLog (chars "dnbd3") (chars "backgroundReplication") value g
  = Some (true, set_var VbackgroundReplication
      (if bool_decide (value = chars "hashblock") then BGR_HASHBLOCK else if IS_TRUE value then BGR_FULL else BGR_DISABLED) g).
Proof.
  unfold ini_handler. rewrite !isKey_chars. rewrite (bool_decide_eq_true_2 ("dnbd3"%string = "dnbd3"%string /\ "backgroundReplication"%string = "backgroundReplication"%string)) by done.
  rewrite !(bool_decide_eq_false_2 (_ /\ _)) by (by intros [? ?]). rewrite andb_false_r. cbn [andb].
  by rewrite saveRows_none by (apply (bool_decide_unpack _); by vm_compute).
Qed.

(** The item is a pair that sets the variable to its value in [g]. *)
Definition itemSets (g : globals) (sec : string) (i : ini_item) (v : var) : Prop :=
  exists key value, i = IPair key value /\ forall g0, g_initialLoad g0 = true ->
    ini_handler openLog (chars sec) key value g0 = Some (true, set_var v (g_var g v) g0).
Lemma dumpVar_sets g r k : ranges g -> r ∈ rows -> r_kind r = varKind (r_var r) ->
  (k = varKind (r_var r) \/ k = KInt /\ varKind (r_var r) = KUint) ->
  itemSets g (r_section r) (dumpVar g (r_key r) k (r_var r)) (r_var r).
Proof.
  intros Hg Hr Hkind Hk. exists (chars (r_key r)), (printVar g k (r_var r)). split; [done|]. intros g0 Hi.
  apply handler_row; [done..|]. rewrite Hkind. apply readValue_print; [done|apply Hg].
Qed.
Definition copyVars (g : globals) (vs : list var) (g0 : globals) : globals :=
  foldl (fun g0 v => set_var v (g_var g v) g0) g0 vs.
Lemma copyVars_rest g vs : forall g0, g_initialLoad (copyVars g vs g0) = g_initialLoad g0 /\ g_basePath (copyVars g vs g0) = g_basePath g0
  /\ forall v, g_var (copyVars g vs g0) v = if decide (v ∈ vs) then g_var g v else g_var g0 v.
Proof.
  induction vs as [|v vs IH]; intros g0; [split_and!; [done..|]; intros v; by rewrite decide_False by apply not_elem_of_nil|].
  destruct (IH (set_var v (g_var g v) g0)) as (H1 & H2 & H3). cbn [copyVars foldl]. fold (copyVars g vs (set_var v (g_var g v) g0)).
  split_and!; [done..|]. intros v'. rewrite H3. cbn [g_var set_var]. destruct (decide (v' ∈ vs)) as [Hi|Hi].
  - by rewrite decide_True by by right.
  - destruct (decide (v' = v)) as [->|Hv]; [by rewrite decide_True by by left|].
    rewrite decide_False; [done|]. by apply not_elem_of_cons.
Qed.
Lemma runItems_app {St} (h : list ascii -> list ascii -> list ascii -> St -> option (bool * St)) a b : forall lineno s,
  runItems h (a ++ b) lineno s = s' ← runItems h a lineno s; runItems h b (lineno + Z.of_nat (length a)) s'.
Proof.
  induction a as [|i a IH]; intros lineno s; [cbn; by rewrite Z.add_0_r|]. cbn [app runItems]. destruct (runItem h (lineno + 1) i s) as [s'|]; [|done].
  cbn [mbind option_bind]. rewrite IH. destruct (runItems h a (lineno + 1) s'); [|done]. cbn. f_equal. lia.
Qed.
Lemma runItems_section {St} (h : list ascii -> list ascii -> list ascii -> St -> option (bool * St)) name items lineno s :
  runItems h (ISection name :: items) lineno s = runItems h items (lineno + 1) (Ini name [] (is_error s) (is_user s)).
Proof. done. Qed.
Lemma runItems_pair {St} (h : list ascii -> list ascii -> list ascii -> St -> option (bool * St)) key value items lineno s u :
  h (is_section s) key value (is_user s) = Some (true, u) ->
  runItems h (IPair key value :: items) lineno s
  = runItems h items (lineno + 1) (Ini (is_section s) (strncpy0 MAX_NAME key) (is_error s) u).
Proof. intros Hh. cbn [runItems runItem]. unfold callHandler. cbn [is_section is_user is_prev is_error]. by rewrite Hh. Qed.
Lemma runItems_sets g sec items vs : Forall2 (itemSets g sec) items vs -> forall lineno s,
  is_section s = chars sec -> g_initialLoad (is_user s) = true ->
  exists prev, runItems (ini_handler openLog) items lineno s = Some (Ini (is_section s) prev (is_error s) (copyVars g vs (is_user s))).
Proof.
  induction 1 as [|i v items vs (key & value & -> & Hh) _ IH]; intros lineno s Hs Hi; [by exists (is_prev s); destruct s|].
  cbn [runItems runItem]. unfold callHandler. cbn [is_section is_user is_prev is_error]. rewrite Hs, (Hh _ Hi). cbn [mbind option_bind].
  destruct (IH (lineno + 1) (Ini (chars sec) (strncpy0 MAX_NAME key) (is_error s) (set_var v (g_var g v) (is_user s)))) as (prev & ->); [done..|].
  by exists prev.
Qed.
End RoundTrip.

(** ** Any file *)

Record settled (g : globals) : Prop := Settled {
  st_ranges : ranges g;
  st_port : 1 <= g_var g VlistenPort <= 65535;
  st_clients : g_var g VmaxClients <= SERVER_MAX_CLIENTS;
  st_images : g_var g VmaxImages <= SERVER_MAX_IMAGES;
  st_path : forall p, g_basePath g = Some p -> stripSlashes p = p /\ (p = [] \/ head p = Some "/"%char);
  st_window : g_var g VisProxy = 1 -> 1 <= g_var g VbgrWindowSize <= UPLINK_MAX_QUEUE - 10;
  st_payload : g_var g VisProxy = 1 -> 262144 <= g_var g VmaxPayload
    /\ g_var g VmaxPrefetch <= g_var g VmaxPayload /\ g_var g VminRequestSize <= g_var g VmaxPayload;
  st_sparse : g_var g VisProxy = 1 -> g_var g VbackgroundReplication = BGR_FULL -> g_var g VbgrMinClients < 5 ->
    g_var g VsparseFiles = 0;
}.

Lemma set_var_ranges v x g : ranges g -> valueRange (varKind v) x -> (v = VbackgroundReplication -> 0 <= x <= 2) -> ranges (set_var v x g).
Proof.
  intros [H1 H2] Hx Hb. split; cbn [g_var set_var].
  - intros v'. destruct (decide (v' = v)) as [->|]; [done|apply H1].
  - destruct (decide (VbackgroundReplication = v)) as [<-|]; [by apply Hb|done].
Qed.
Lemma rows_kinds : Forall (fun r => r_kind r = varKind (r_var r) /\ r_var r <> VbackgroundReplication) rows.
Proof. repeat constructor; done. Qed.
Lemma saveRows_inv (P : globals -> Prop) section key value :
  (forall r x g, r ∈ rows -> (r_fixed r = true -> g_initialLoad g = true) -> readValue (r_kind r) value = Some x -> P g -> P (set_var (r_var r) x g)) ->
  forall rs g, (forall r, r ∈ rs -> r ∈ rows) -> P g -> P (foldl (SAVE_TO_VAR section key value) g rs).
Proof.
  intros Hrow rs. induction rs as [|r rs IH]; intros g Hsub H0; [done|]. cbn [foldl].
  apply IH; [intros x Hx; apply Hsub; by right|]. unfold SAVE_TO_VAR. destruct (_ && _) eqn:E; [|done].
  destruct (readValue (r_kind r) value) eqn:Er; [|done]. apply Hrow; [apply Hsub; by left| |done..].
  apply andb_true_iff in E as [E _]. intros Hf. by rewrite Hf in E.
Qed.
(** What the handler keeps: everything that [set_var] with a value of the right range keeps, and the
    other setters. *)
Lemma handler_inv openLog (P : globals -> Prop) section key value g ok g' :
  (forall r x g, r ∈ rows -> (r_fixed r = true -> g_initialLoad g = true) -> readValue (r_kind r) value = Some x -> P g -> P (set_var (r_var r) x g)) ->
  (forall x g, 0 <= x <= 2 -> P g -> P (set_var VbackgroundReplication x g)) ->
  (forall p g, g_initialLoad g = true -> g_basePath g = None -> P g -> P (set_basePath p g)) ->
  (forall m g, P g -> P (set_fileMask m g)) -> (forall m g, P g -> P (set_consoleMask m g)) -> (forall b g, P g -> P (set_consoleTimestamps b g)) ->
  ini_handler openLog section key value g = Some (ok, g') -> P g -> P g'.
Proof.
  intros Hrow Hbgr Hpath Hfm Hcm Hct Hh Hp. unfold ini_handler in Hh.
  set (g1 := if _ && _ && _ then _ else g) in Hh. assert (P g1) as H1.
  { unfold g1. destruct (_ && _ && _) eqn:E; [|done]. rewrite !andb_true_iff in E. destruct E as ((E1 & E2%bool_decide_eq_true) & _). by apply Hpath. }
  clearbody g1. set (g2 := foldl _ g1 rows) in Hh. assert (P g2) as H2.
  { by apply saveRows_inv. }
  clearbody g2. set (g3 := if isKey "dnbd3" "backgroundReplication" section key then _ else _) in Hh. assert (P g3) as H3.
  { unfold g3. destruct (isKey _ _ _ _); [|done]. apply Hbgr; [|done]. unfold BGR_HASHBLOCK, BGR_FULL, BGR_DISABLED. repeat case_match; lia. }
  clearbody g3. set (g4 := if isKey "logging" "fileMask" section key then _ else _) in Hh. assert (P g4) as H4 by (unfold g4; destruct (isKey _ _ _ _); auto).
  clearbody g4. set (g5 := if isKey "logging" "consoleMask" section key then _ else _) in Hh. assert (P g5) as H5 by (unfold g5; destruct (isKey _ _ _ _); auto).
  clearbody g5. destruct (_ && _); [done|]. injection Hh as _ <-. destruct (isKey _ _ _ _); auto.
Qed.
Lemma handler_ranges openLog section key value g ok g' :
  ini_handler openLog section key value g = Some (ok, g') -> ranges g -> ranges g'.
Proof.
  apply (handler_inv openLog ranges).
  - intros r x g0 Hr _ Hx H0. pose proof rows_kinds as Hk. rewrite list.Forall_forall in Hk. destruct (Hk r Hr) as [Hk1 Hk2].
    apply set_var_ranges; [done| |done]. rewrite <- Hk1. by eapply readValue_range.
  - intros x g0 Hx H0. apply set_var_ranges; [done| |done]. cbn. unfold INT_MIN, INT_MAX. lia.
  - intros p g0 _ _ [? ?]. by split.
  - intros m g0 [? ?]. by split.
  - intros m g0 [? ?]. by split.
  - intros b g0 [? ?]. by split.
Qed.

Lemma set_var_eq v x g : g_var (set_var v x g) v = x.
Proof. cbn. by rewrite decide_True. Qed.
Lemma set_var_ne v v' x g : v' <> v -> g_var (set_var v x g) v' = g_var g v'.
Proof. intros. cbn. by rewrite decide_False. Qed.
Ltac vars := repeat (rewrite set_var_eq || rewrite set_var_ne by discriminate).

(** The effect of the checks for a proxy, variable by variable. *)
Lemma sanitizeProxy_spec g : g_var g VisProxy <> 0 ->
  let payload := Z.max (g_var g VmaxPayload) 262144 in
  forall v, g_var (sanitizeProxy g) v =
    match v with
    | VsparseFiles => if (g_var g VbackgroundReplication =? BGR_FULL) && (g_var g VbgrMinClients <? 5) then 0 else g_var g VsparseFiles
    | VbgrWindowSize => Z.max 1 (Z.min (g_var g VbgrWindowSize) (UPLINK_MAX_QUEUE - 10))
    | VmaxPayload => payload
    | VmaxPrefetch => Z.min (g_var g VmaxPrefetch) payload
    | VminRequestSize => Z.min (g_var g VminRequestSize) payload
    | v => g_var g v
    end.
Proof.
  intros Hp payload v. unfold sanitizeProxy. rewrite (proj2 (Z.eqb_neq _ _) Hp).
  set (g1 := if _ && _ && _ then _ else g).
  assert (forall v, g_var g1 v = match v with
    | VsparseFiles => if (g_var g VbackgroundReplication =? BGR_FULL) && (g_var g VbgrMinClients <? 5) then 0 else g_var g VsparseFiles
    | v => g_var g v end) as H1.
  { intros []; unfold g1; destruct (_ =? BGR_FULL), (_ <? 5); cbn [andb]; rewrite ?andb_true_r, ?andb_false_r; try done;
      (destruct (Z.eqb_spec (g_var g VsparseFiles) 0) as [E|E]; cbn [negb]; vars; done). }
  clearbody g1. set (g2 := if _ <? 1 then _ else _).
  assert (forall v, g_var g2 v = match v with
    | VbgrWindowSize => Z.max 1 (Z.min (g_var g1 VbgrWindowSize) (UPLINK_MAX_QUEUE - 10)) | v => g_var g1 v end) as H2.
  { unfold UPLINK_MAX_QUEUE in *. intros w. unfold g2. destruct (Z.ltb_spec (g_var g1 VbgrWindowSize) 1);
      [|destruct (Z.ltb_spec (500 - 10) (g_var g1 VbgrWindowSize))]; destruct w; vars; lia. }
  clearbody g2. set (g3 := if _ <? 256 * 1024 then _ else _).
  assert (forall v, g_var g3 v = match v with VmaxPayload => Z.max (g_var g2 VmaxPayload) 262144 | v => g_var g2 v end) as H3.
  { intros w. unfold g3. destruct (Z.ltb_spec (g_var g2 VmaxPayload) (256 * 1024)); destruct w; vars; lia. }
  clearbody g3. set (g4 := if _ <? g_var g3 VmaxPrefetch then _ else _).
  assert (forall v, g_var g4 v = match v with VmaxPrefetch => Z.min (g_var g3 VmaxPrefetch) (g_var g3 VmaxPayload) | v => g_var g3 v end) as H4.
  { intros w. unfold g4. destruct (Z.ltb_spec (g_var g3 VmaxPayload) (g_var g3 VmaxPrefetch)); destruct w; vars; lia. }
  clearbody g4.
  assert (forall v, g_var (if g_var g4 VmaxPayload <? g_var g4 VminRequestSize then set_var VminRequestSize (g_var g4 VmaxPayload) g4 else g4) v
    = match v with VminRequestSize => Z.min (g_var g4 VminRequestSize) (g_var g4 VmaxPayload) | v => g_var g4 v end) as ->.
  { intros w. destruct (Z.ltb_spec (g_var g4 VmaxPayload) (g_var g4 VminRequestSize)); destruct w; vars; lia. }
  unfold payload. destruct v; rewrite ?H4, ?H3, ?H2, ?H1; done.
Qed.
Lemma sanitizeProxy_rest g : g_basePath (sanitizeProxy g) = g_basePath g /\ g_initialLoad (sanitizeProxy g) = g_initialLoad g.
Proof.
  unfold sanitizeProxy. destruct (_ =? 0); [done|]. repeat (match goal with |- context [if ?b then _ else _] => destruct b end; cbn [g_basePath g_initialLoad set_var]); done.
Qed.

Lemma lowerLoop_bounds fuel isProxy current : forall clients images c i,
  lowerLoop fuel isProxy current clients images = (c, i) ->
  Z.min clients 0 <= c <= clients /\ Z.min images 0 <= i <= images.
Proof.
  assert (forall x y, 100 < x -> 20 <= y -> 0 <= x - (Z.quot x y + 1) <= x) as Hq.
  { intros x y Hx Hy. rewrite Z.quot_div_nonneg by lia. pose proof (Z.div_pos x y ltac:(lia) ltac:(lia)).
    pose proof (Z.div_le_compat_l x 20 y ltac:(lia) ltac:(lia)). pose proof (Z.div_le_upper_bound x 20 (x - 1) ltac:(lia) ltac:(lia)). lia. }
  induction fuel as [|fuel IH]; intros clients images c i Hl; cbn [lowerLoop] in Hl; [injection Hl as <- <-; lia|].
  assert (forall c0 i0, Z.min clients 0 <= c0 <= clients -> Z.min images 0 <= i0 <= images ->
    (if current <? needed isProxy c0 i0 then lowerLoop fuel isProxy current c0 i0 else (c0, i0)) = (c, i) ->
    Z.min clients 0 <= c <= clients /\ Z.min images 0 <= i <= images) as Hstep.
  { intros c0 i0 Hc0 Hi0. destruct (current <? needed isProxy c0 i0); [intros H%IH; lia|intros [= <- <-]; lia]. }
  destruct ((500 <? clients) && (150 <? images)) eqn:E1.
  - apply andb_true_iff in E1 as [?%Z.ltb_lt ?%Z.ltb_lt]. pose proof (Hq clients 20). pose proof (Hq images 20). eapply Hstep; [..|done]; lia.
  - destruct (Z.ltb_spec 100 images); [|injection Hl as <- <-; lia]. pose proof (Hq images 20). pose proof (Hq clients 25).
    eapply Hstep; [..|done]; [destruct (Z.ltb_spec 200 clients); lia|lia].
Qed.
Lemma applyLimits_bounds limits raised isProxy clients images c i :
  applyLimits limits raised isProxy clients images = (c, i) -> Z.min clients 0 <= c <= clients /\ Z.min images 0 <= i <= images.
Proof.
  unfold applyLimits. destruct limits as [[cur max]|]; [|intros [= <- <-]; lia].
  destruct (_ && _); [|intros [= <- <-]; lia]. destruct (_ <? needed _ _ _); [|intros [= <- <-]; lia]. apply lowerLoop_bounds.
Qed.
(** Lowering ends: with as much fuel as there are images it stops because the numbers fit or are
    small enough, not because the fuel is used up. *)
Lemma lowerLoop_end isProxy current : forall fuel clients images c i, images <= Z.of_nat fuel ->
  lowerLoop fuel isProxy current clients images = (c, i) -> needed isProxy c i <= current \/ i <= 100.
Proof.
  assert (forall x, 100 < x -> 0 <= Z.quot x 20) as Hq by (intros; apply Z.quot_pos; lia).
  induction fuel as [|fuel IH]; intros clients images c i Hf Hl; cbn [lowerLoop] in Hl; [injection Hl as <- <-; lia|].
  destruct ((500 <? clients) && (150 <? images)) eqn:E1.
  - apply andb_true_iff in E1 as [_ E1%Z.ltb_lt]. pose proof (Hq images ltac:(lia)).
    destruct (Z.ltb_spec current (needed isProxy (clients - (Z.quot clients 20 + 1)) (images - (Z.quot images 20 + 1)))) in Hl.
    + eapply IH; [|done]. lia.
    + injection Hl as <- <-. by left.
  - destruct (Z.ltb_spec 100 images); [|injection Hl as <- <-; lia]. pose proof (Hq images ltac:(lia)).
    set (c' := if 200 <? clients then _ else clients) in Hl. destruct (Z.ltb_spec current (needed isProxy c' (images - (Z.quot images 20 + 1)))) in Hl.
    + eapply IH; [|done]. lia.
    + injection Hl as <- <-. by left.
Qed.

Lemma stripSlashes_idem p : stripSlashes (stripSlashes p) = stripSlashes p.
Proof.
  induction p as [|c p IH]; [done|]. cbn. destruct (stripSlashes p) as [|d q] eqn:E.
  - destruct (Ascii.eqb c "/") eqn:Ec; [done|]. cbn. by rewrite Ec.
  - cbn [stripSlashes] in *. by rewrite IH.
Qed.
Lemma stripSlashes_head p : stripSlashes p = [] \/ head (stripSlashes p) = head p.
Proof. destruct p as [|c p]; [by left|]. cbn. destruct (stripSlashes p); [destruct (Ascii.eqb c "/"); [by left|by right]|by right]. Qed.

Section Settled.
Context (openLog : list ascii -> bool) (limits : option (Z * Z)) (raised : bool).

(** What [sanitizeFixedConfig] leaves; the checks for a proxy do not touch it. *)
Record fixedOk (g : globals) : Prop := FixedOk {
  fo_ranges : ranges g;
  fo_port : 1 <= g_var g VlistenPort <= 65535;
  fo_clients : g_var g VmaxClients <= SERVER_MAX_CLIENTS;
  fo_images : g_var g VmaxImages <= SERVER_MAX_IMAGES;
  fo_path : forall p, g_basePath g = Some p -> stripSlashes p = p /\ (p = [] \/ head p = Some "/"%char);
}.
Lemma sanitizeFixedConfig_ok g g' : ranges g -> sanitizeFixedConfig limits raised g = Some g' -> fixedOk g' /\ g_initialLoad g' = g_initialLoad g.
Proof.
  intros Hg. unfold sanitizeFixedConfig. destruct (_ || _) eqn:Ep; [done|]. cbn [g_var set_basePath] in Ep.
  apply orb_false_iff in Ep as [?%Z.ltb_ge ?%Z.ltb_ge].
  destruct (applyLimits _ _ _ _ _) as [c i] eqn:El. apply applyLimits_bounds in El. cbn [g_var set_basePath] in El.
  pose proof (rg_var _ Hg VmaxClients) as Hc. pose proof (rg_var _ Hg VmaxImages) as Hi. cbn in Hc, Hi. unfold INT_MIN, INT_MAX in Hc, Hi.
  unfold SERVER_MAX_CLIENTS, SERVER_MAX_IMAGES in *. intros <-%(inj Some). split; [|done]. split.
  - apply set_var_ranges; [|cbn; unfold INT_MIN, INT_MAX; lia|done]. apply set_var_ranges; [|cbn; unfold INT_MIN, INT_MAX; lia|done].
    destruct Hg. by split.
  - by vars.
  - vars. unfold SERVER_MAX_CLIENTS. lia.
  - vars. unfold SERVER_MAX_IMAGES. lia.
  - cbn [g_basePath set_var set_basePath]. unfold sanitizeBasePath. destruct (g_basePath g) as [[|x s]|]; [done| |done].
    destruct (Ascii.eqb_spec x "/") as [->|]; [|done]. intros p <-%(inj Some). split; [apply stripSlashes_idem|].
    destruct (stripSlashes_head ("/"%char :: s)) as [->| ->]; [by left|by right].
Qed.
Lemma sanitizeProxy_settled g : fixedOk g -> settled (sanitizeProxy g).
Proof.
  intros [Hr Hport Hc Hi Hp]. destruct (sanitizeProxy_rest g) as [Hbp _]. pose proof (rg_var _ Hr VisProxy) as Hpr. cbn in Hpr.
  destruct (Z.eq_dec (g_var g VisProxy) 1) as [H1|H1].
  - pose proof (sanitizeProxy_spec g ltac:(lia)) as Hs. cbv zeta in Hs. destruct Hr as [Hv Hb]. unfold BGR_FULL, UPLINK_MAX_QUEUE in *.
    pose proof (Hv VbgrWindowSize) as Hw. pose proof (Hv VmaxPayload) as Hpl. pose proof (Hv VmaxPrefetch) as Hpf. pose proof (Hv VminRequestSize) as Hmr.
    cbn in Hw, Hpl, Hpf, Hmr. split.
    + split; [|by rewrite Hs]. intros v. rewrite Hs. pose proof (Hv v). unfold INT_MIN, INT_MAX in *. destruct v; cbn in *; try done; try (unfold INT_MIN, INT_MAX; lia).
      destruct (_ && _); lia.
    + by rewrite Hs.
    + by rewrite Hs.
    + by rewrite Hs.
    + by rewrite Hbp.
    + rewrite !Hs. unfold UPLINK_MAX_QUEUE. lia.
    + rewrite !Hs. lia.
    + rewrite !Hs. intros _ -> Hm. unfold BGR_FULL. rewrite Z.eqb_refl, (proj2 (Z.ltb_lt _ _) Hm). done.
  - assert (sanitizeProxy g = g) as -> by (unfold sanitizeProxy; replace (g_var g VisProxy) with 0 by lia; done). by split.
Qed.

(** The settings that cannot change once the server runs. *)
Definition fixedVars : list var := [VvmdkLegacyMode; VlistenPort; VmaxClients; VmaxImages].
Definition sameFixed (g g' : globals) : Prop :=
  g_basePath g' = g_basePath g /\ Forall (fun v => g_var g' v = g_var g v) fixedVars.
Lemma rows_fixed : Forall (fun r => (r_var r ∈ fixedVars -> r_fixed r = true)) rows.
Proof. apply (bool_decide_unpack _). by vm_compute. Qed.
Lemma reload_fixed file g e g' : g_initialLoad g = false -> ini_parse (ini_handler openLog) file g = Some (e, g') ->
  g_initialLoad g' = false /\ sameFixed g g'.
Proof.
  intros Hi Hp. revert Hp.
  assert (forall v x g1, (v ∈ fixedVars -> False) -> g_initialLoad g1 = false /\ sameFixed g g1 ->
    g_initialLoad (set_var v x g1) = false /\ sameFixed g (set_var v x g1)) as Hset.
  { intros v x g1 Hv (H1 & H2 & H3). split; [done|]. split; [done|]. rewrite list.Forall_forall in *. intros w Hw. rewrite set_var_ne; [by apply H3|].
    intros ->. by apply Hv. }
  intros Hp. eapply (ini_parse_inv _ (fun g1 => g_initialLoad g1 = false /\ sameFixed g g1)); [|exact Hp|].
  2: { split; [done|]. split; [done|]. by repeat constructor. }
  intros section key value s ok s' Hh Hs. revert Hh Hs. apply (handler_inv openLog (fun g1 => g_initialLoad g1 = false /\ sameFixed g g1)).
  - intros r x g1 Hr Hf _ H1. apply Hset; [|done]. intros Hin. pose proof rows_fixed as Hrf. rewrite list.Forall_forall in Hrf.
    destruct H1 as [H1 _]. rewrite (Hf (Hrf r Hr Hin)) in H1. done.
  - intros x g1 _. apply Hset. intros Hin. apply (bool_decide_eq_true_2 _) in Hin. by vm_compute in Hin.
  - intros p g1 Hx _ [Hy _]. congruence.
  - done.
  - done.
  - done.
Qed.
Lemma parse_ranges file g e g' : ini_parse (ini_handler openLog) file g = Some (e, g') -> ranges g -> ranges g'.
Proof. apply (ini_parse_inv _ ranges). intros. by eapply handler_ranges. Qed.
Lemma parse_initial file g e g' : ini_parse (ini_handler openLog) file g = Some (e, g') -> g_initialLoad g' = g_initialLoad g.
Proof.
  intros Hp. eapply (ini_parse_inv _ (fun g1 => g_initialLoad g1 = g_initialLoad g)); [|exact Hp|done].
  intros section key value s ok s' Hh Hs. revert Hh Hs. by apply (handler_inv openLog (fun g1 => g_initialLoad g1 = g_initialLoad g)).
Qed.
Lemma sanitizeProxy_fixed g : sameFixed g (sanitizeProxy g).
Proof.
  destruct (sanitizeProxy_rest g) as [Hb _]. split; [done|]. destruct (Z.eq_dec (g_var g VisProxy) 0) as [H1|H1].
  - unfold sanitizeProxy. rewrite H1. by repeat constructor.
  - pose proof (sanitizeProxy_spec g H1) as Hs. by repeat constructor; rewrite Hs.
Qed.

(** What the uplinks see of the settings. *)
Definition toConfig (g : globals) : config :=
  Config (g_var g VmaxPayload) (g_var g VminRequestSize) (g_var g VmaxPrefetch) (g_var g VbackgroundReplication)
    (g_var g VbgrMinClients) (g_var g VbgrWindowSize) (negb (g_var g VpretendClient =? 0)).

Lemma load_settled file g g' :
  ranges g -> (g_initialLoad g = true \/ fixedOk g) -> globals_loadConfig openLog limits raised false file g = Some g' ->
  settled g' /\ g_initialLoad g' = false /\ (g_initialLoad g = false -> sameFixed g g').
Proof.
  intros Hr Hf. unfold globals_loadConfig. destruct (ini_parse _ file g) as [[e g1]|] eqn:Ep; [|done]. cbn [mbind option_bind].
  pose proof (parse_ranges _ _ _ _ Ep Hr) as Hr1. pose proof (parse_initial _ _ _ _ Ep) as Hi1. rewrite Hi1.
  assert (settled_core : forall g2, fixedOk g2 -> settled (set_initialLoad false (sanitizeProxy g2))).
  { intros g2 H2. destruct (sanitizeProxy_settled g2 H2) as [[? ?] ? ? ? ? ? ? ?]. split; [by split|done..]. }
  destruct (g_initialLoad g) eqn:Hi.
  - destruct (sanitizeFixedConfig limits raised g1) as [g2|] eqn:Es; [|done]. cbn [mbind option_bind]. intros <-%(inj Some).
    destruct (sanitizeFixedConfig_ok _ _ Hr1 Es) as [H2 _]. split_and!; [by apply settled_core|done|done].
  - cbn [mbind option_bind]. intros <-%(inj Some). destruct Hf as [|Hf]; [done|].
    destruct (reload_fixed _ _ _ _ Hi Ep) as (_ & Hb & Hv). pose proof Hv as Hv'.
    repeat (apply list.Forall_cons in Hv as [? Hv]).
    assert (fixedOk g1) as Hfix.
    { destruct Hf as [_ Hport Hc Him Hpath]. split; [done|congruence..|]. by rewrite Hb. }
    split_and!; [by apply settled_core|done|]. intros _. destruct (sanitizeProxy_fixed g1) as [Hb2 Hv2]. split; [cbn; congruence|].
    rewrite list.Forall_forall in *. intros v Hin. cbn [g_var set_initialLoad]. rewrite (Hv2 v Hin). by apply Hv'.
Qed.
End Settled.

(** ** The text of a dump *)

Definition wordChar (c : ascii) : Prop := plain c /\ is_space c = false.
Lemma find_comment_none v : forall ws, (ws = true -> head v <> Some ";"%char) -> Forall wordChar v -> find_char_or_comment ws None v = (v, []).
Proof.
  induction v as [|c v IH]; intros ws Hws Hv; [done|]. apply list.Forall_cons in Hv as [[_ Hs] Hv]. cbn [find_char_or_comment].
  rewrite bool_decide_eq_false_2 by done. cbn [orb]. destruct (ws && Ascii.eqb c ";") eqn:E.
  - apply andb_true_iff in E as [-> ->%Ascii.eqb_eq]. by destruct Hws.
  - by rewrite Hs, IH.
Qed.
Lemma word_value_ok v : Forall wordChar v -> value_ok v.
Proof.
  intros Hv. split.
  - eapply list.Forall_impl; [done|]. by intros c [? _].
  - destruct v as [|c v]; [done|]. by apply list.Forall_cons in Hv as [[_ ?] _].
  - destruct (list.last v) as [c|] eqn:E; [|done]. apply last_Some_elem_of in E. rewrite list.Forall_forall in Hv. by apply Hv.
  - by apply find_comment_none.
Qed.
Lemma digit_word c : is_Some (digit c) -> wordChar c.
Proof.
  intros Hd. destruct (digit_not_space c Hd) as (Hs & _). split; [|done]. destruct Hd as [d Hd].
  split; intros ->; by vm_compute in Hd.
Qed.
Lemma printDigits_length f : forall n, (length (print_digits f n) <= S f)%nat.
Proof. induction f as [|f IH]; intros n; cbn [print_digits]; [cbn; lia|]. destruct (n <? 10); [cbn; lia|]. rewrite length_app. specialize (IH (n / 10)). cbn [length]. lia. Qed.
Lemma printInt_word x : Forall wordChar (printInt x) /\ (length (printInt x) <= 21)%nat.
Proof.
  assert (forall y, 0 <= y -> Forall wordChar (print_digits 19 y)) as Hw.
  { intros y Hy. apply list.Forall_forall. intros c Hc. apply digit_word. by eapply print_digits_digit. }
  unfold printInt. destruct (Z.ltb_spec x 0).
  - split; [constructor; [by split|apply Hw; lia]|]. pose proof (printDigits_length 19 (- x)). cbn [length]. lia.
  - split; [by apply Hw|]. pose proof (printDigits_length 19 x). lia.
Qed.
Lemma printVar_word g k v : Forall wordChar (printVar g k v) /\ (length (printVar g k v) <= 21)%nat.
Proof.
  destruct k; cbn [printVar]; [|apply printInt_word..]. destruct (_ =? 0); split; [repeat constructor; done|cbn; lia|repeat constructor; done|cbn; lia].
Qed.
#[global] Instance plain_dec c : Decision (plain c).
Proof. unfold plain. apply _. Defined.
Lemma pair_ok key value : key_ok (chars key) -> (String.length key <= 30)%nat -> value_ok value -> (length value <= 150)%nat -> item_ok (IPair (chars key) value).
Proof.
  intros Hk Hl Hv Hlv. split; [|done]. cbn. rewrite length_app. cbn. unfold INI_MAX_LINE.
  assert (length (chars key) = String.length key) as -> by (rewrite <- (unchars_chars key) at 2; by rewrite unchars_length). lia.
Qed.
Lemma dumpVar_ok g key k v : key_ok (chars key) -> (String.length key <= 30)%nat -> item_ok (dumpVar g key k v).
Proof. intros Hk Hl. destruct (printVar_word g k v) as [Hw Hlen]. apply pair_ok; [done|done|by apply word_value_ok|lia]. Qed.

Lemma dumpLoop_all items size : forall rem, Z.of_nat (length (printItems items)) < rem ->
  dumpLoop items size rem = (printItems items, size - rem + Z.of_nat (length (printItems items))).
Proof.
  induction items as [|i items IH]; intros rem Hr; cbn [dumpLoop]; cbv zeta.
  - apply (f_equal2 pair); [done|]. cbn. lia.
  - unfold printItems in *. cbn [map concat] in *. set (line := printItem i ++ [LF]) in *. clearbody line. rewrite length_app in *.
    destruct (Z.leb_spec rem (Z.of_nat (length line))); [lia|]. rewrite IH by lia. apply (f_equal2 pair); [done|lia].
Qed.

Ltac in_rows := apply list_elem_of_In; cbn; solve [repeat (first [left; reflexivity | right])].
Ltac key_ok_tac := split; [done|apply (bool_decide_unpack _); by vm_compute|apply (bool_decide_unpack _); by vm_compute].

Definition dumpRest1 (g : globals) : list ini_item := take 17 (drop 3 (dumpItems g)).
Definition dumpRest2 (g : globals) : list ini_item := drop 21 (dumpItems g).
Definition vars1 : list var :=
  [VserverPenalty; VclientPenalty; VisProxy; VbackgroundReplication; VbgrMinClients; VbgrWindowSize; VlookupMissingForProxy; VsparseFiles;
   VignoreAllocErrors; VremoveMissingImages; VuplinkTimeout; VclientTimeout; VcloseUnusedFd; VvmdkLegacyMode; VproxyPrivateOnly;
   VpretendClient; VautoFreeDiskSpaceDelay].
Definition vars2 : list var := [VmaxClients; VmaxImages; VmaxPayload; VmaxReplicationSize; VmaxPrefetch; VminRequestSize].

Section DumpLoad.
Context (openLog : list ascii -> bool) (g : globals) (Hg : ranges g).
Local Abbreviation sets := (itemSets openLog g).

Lemma bgr_sets : sets "dnbd3" (if g_var g VbackgroundReplication =? BGR_HASHBLOCK then IPair (chars "backgroundReplication") (chars "hashblock")
    else dumpVar g "backgroundReplication" KBool VbackgroundReplication) VbackgroundReplication.
Proof.
  pose proof (rg_bgr _ Hg). unfold BGR_HASHBLOCK. destruct (Z.eqb_spec (g_var g VbackgroundReplication) 2) as [E|E].
  - exists (chars "backgroundReplication"), (chars "hashblock"). split; [done|]. intros g0 _. by rewrite handler_bgr, E.
  - eexists _, _. split; [done|]. intros g0 _. rewrite handler_bgr. do 3 f_equal. cbn [printVar]. destruct (Z.eqb_spec (g_var g VbackgroundReplication) 0) as [->|]; [done|].
    unfold BGR_FULL. assert (g_var g VbackgroundReplication = 1) as -> by lia. done.
Qed.
Lemma row_sets sec key v kind fixed k : Row v sec key kind fixed ∈ rows -> kind = varKind v -> (k = varKind v \/ k = KInt /\ varKind v = KUint) ->
  sets sec (dumpVar g key k v) v.
Proof. intros Hr Hkind Hk. by apply (dumpVar_sets openLog g (Row v sec key kind fixed) k). Qed.
Ltac row_tac :=
  lazymatch goal with
  | |- itemSets _ _ ?sec (dumpVar _ ?key ?k ?v) ?v =>
      first [ apply (row_sets sec key v (varKind v) false k); [in_rows|reflexivity|first [by left|by right]]
            | apply (row_sets sec key v (varKind v) true k); [in_rows|reflexivity|first [by left|by right]] ]
  | |- _ => apply bgr_sets
  end.
Lemma port_sets : Forall2 (sets "dnbd3") [dumpVar g "listenPort" KInt VlistenPort] [VlistenPort].
Proof. constructor; [row_tac|constructor]. Qed.
Lemma rest1_sets : Forall2 (sets "dnbd3") (dumpRest1 g) vars1.
Proof. unfold dumpRest1, vars1, dumpItems. cbn [take drop]. repeat (constructor; [row_tac|]). constructor. Qed.
Lemma rest2_sets : Forall2 (sets "limits") (dumpRest2 g) vars2.
Proof. unfold dumpRest2, vars2, dumpItems. cbn [drop]. repeat (constructor; [row_tac|]). constructor. Qed.
End DumpLoad.

Lemma dumpItems_split g : dumpItems g = ISection (chars "dnbd3") :: [dumpVar g "listenPort" KInt VlistenPort]
  ++ IPair (chars "basePath") (default (chars "(null)") (g_basePath g)) :: dumpRest1 g ++ ISection (chars "limits") :: dumpRest2 g.
Proof. done. Qed.
Lemma dumpItems_ok g p : g_basePath g = Some p -> value_ok p -> (length p <= 150)%nat -> Forall item_ok (dumpItems g).
Proof.
  intros Hp Hv Hl. unfold dumpItems. rewrite Hp. cbn [default from_option id].
  assert (forall k v key, key_ok (chars key) -> (String.length key <= 30)%nat -> item_ok (dumpVar g key k v)) as Hd by (intros; by apply dumpVar_ok).
  assert (forall n, bool_decide (Forall (fun c => plain c /\ c <> "["%char /\ c <> "]"%char) (chars n)) = true -> (String.length n < 50)%nat ->
    (length (printItem (ISection (chars n))) < INI_MAX_LINE - 1)%nat -> item_ok (ISection (chars n))) as Hs.
  { intros n H1%bool_decide_eq_true Hl1 Hl2. split; [done|]. split; [done|]. unfold MAX_SECTION. rewrite <- (unchars_chars n), unchars_length in Hl1. done. }
  repeat (apply list.Forall_cons; split); try exact (List.Forall_nil _).
  all: try (apply Hd; [key_ok_tac|by vm_compute; lia]).
  - apply Hs; [by vm_compute|cbn; lia|cbn; unfold INI_MAX_LINE; lia].
  - apply pair_ok; [key_ok_tac|cbn; lia|done|done].
  - destruct (_ =? _); [|apply Hd; [key_ok_tac|cbn; lia]]. apply pair_ok; [key_ok_tac|cbn; lia| |cbn; lia].
    apply word_value_ok. repeat constructor; done.
  - apply Hs; [by vm_compute|cbn; lia|cbn; unfold INI_MAX_LINE; lia].
Qed.
Lemma vars_all v : v ∈ [VlistenPort] \/ v ∈ vars1 \/ v ∈ vars2.
Proof. destruct v; (left; apply (bool_decide_unpack _); by vm_compute) || (right; left; apply (bool_decide_unpack _); by vm_compute) || (right; right; apply (bool_decide_unpack _); by vm_compute). Qed.

Section Reload.
Context (openLog : list ascii -> bool) (limits : option (Z * Z)) (raised : bool).

Lemma parse_dump g g0 p : ranges g -> g_basePath g = Some p -> value_ok p -> (length p <= 150)%nat ->
  g_initialLoad g0 = true -> g_basePath g0 = None ->
  exists g1, ini_parse (ini_handler openLog) (Some (printItems (dumpItems g))) g0 = Some (0, g1)
    /\ (forall v, g_var g1 v = g_var g v) /\ g_basePath g1 = Some p /\ g_initialLoad g1 = true.
Proof.
  intros Hg Hp Hv Hl Hi Hb. rewrite ini_parse_items by (by eapply dumpItems_ok). rewrite dumpItems_split, Hp, runItems_section, runItems_app.
  destruct (runItems_sets openLog g "dnbd3" _ _ (port_sets openLog g Hg) (0 + 1)
    (Ini (chars "dnbd3") [] (is_error (Ini [] [] 0 g0)) (is_user (Ini [] [] 0 g0)))) as (prev1 & ->); [done|done|].
  destruct (copyVars_rest g [VlistenPort] g0) as (Hi1 & Hb1 & Hv1). cbn [is_section is_error is_user mbind option_bind].
  set (g1 := copyVars g [VlistenPort] g0) in *. clearbody g1.
  rewrite (runItems_pair _ _ _ _ _ _ (set_basePath (Some p) g1)) by (apply handler_basePath; cbn [is_user]; congruence).
  set (g2 := set_basePath (Some p) g1).
  assert (g_initialLoad g2 = true /\ g_basePath g2 = Some p /\ forall v, g_var g2 v = g_var g1 v) as (Hi2 & Hb2 & Hv2) by (split_and!; [cbn; congruence|done|done]).
  clearbody g2. rewrite runItems_app. cbn [is_section is_error is_user].
  match goal with |- context [runItems _ (dumpRest1 g) ?n ?s] => destruct (runItems_sets openLog g "dnbd3" _ _ (rest1_sets openLog g Hg) n s) as (prev2 & ->); [done|done|] end.
  destruct (copyVars_rest g vars1 g2) as (Hi3 & Hb3 & Hv3). cbn [is_section is_error is_user mbind option_bind].
  set (g3 := copyVars g vars1 g2) in *. clearbody g3. rewrite runItems_section. cbn [is_section is_error is_user].
  match goal with |- context [runItems _ (dumpRest2 g) ?n ?s] => destruct (runItems_sets openLog g "limits" _ _ (rest2_sets openLog g Hg) n s) as (prev3 & ->); [done|cbn [is_user]; congruence|] end.
  destruct (copyVars_rest g vars2 g3) as (Hi4 & Hb4 & Hv4). cbn [fmap option_fmap option_map is_section is_error is_user].
  eexists. split; [done|]. split_and!; [|congruence|congruence].
  intros v. rewrite Hv4, Hv3, Hv2, Hv1. destruct (vars_all v) as [Hin|[Hin|Hin]]; repeat case_decide; done.
Qed.
Lemma sanitizeProxy_id g : settled g -> forall v, g_var (sanitizeProxy g) v = g_var g v.
Proof.
  intros [[Hr _] _ _ _ _ Hw Hp Hs] v. pose proof (Hr VisProxy) as Hpr. pose proof (Hr VsparseFiles). cbn in *. destruct (Z.eq_dec (g_var g VisProxy) 0) as [H0|H0].
  - unfold sanitizeProxy. by rewrite H0.
  - rewrite sanitizeProxy_spec by done. specialize (Hw ltac:(lia)). specialize (Hp ltac:(lia)). specialize (Hs ltac:(lia)). unfold UPLINK_MAX_QUEUE, BGR_FULL in *.
    destruct v; try lia. destruct (Z.eqb_spec (g_var g VbackgroundReplication) 1); [|done]. destruct (Z.ltb_spec (g_var g VbgrMinClients) 5); [|done]. cbn. by rewrite Hs.
Qed.
Lemma config_roundtrip_spec g g0 p size :
  settled g -> g_basePath g = Some p -> p <> [] -> value_ok p -> (length p <= 150)%nat ->
  applyLimits limits raised (g_var g VisProxy) (g_var g VmaxClients) (g_var g VmaxImages) = (g_var g VmaxClients, g_var g VmaxImages) ->
  g_initialLoad g0 = true -> g_basePath g0 = None -> Z.of_nat (length (printItems (dumpItems g))) < size ->
  exists g', globals_loadConfig openLog limits raised false (Some (globals_dumpConfig g size).1) g0 = Some g'
    /\ (globals_dumpConfig g size).2 = Z.of_nat (length (globals_dumpConfig g size).1)
    /\ (forall v, g_var g' v = g_var g v) /\ g_basePath g' = Some p.
Proof.
  intros Hset Hp Hne Hv Hl Hlim Hi Hb Hsize. unfold globals_dumpConfig. rewrite dumpLoop_all by done. cbn [fst snd].
  unfold globals_loadConfig. destruct (parse_dump g g0 p (st_ranges _ Hset) Hp Hv Hl Hi Hb) as (g1 & -> & Hv1 & Hb1 & Hi1).
  cbn [mbind option_bind]. rewrite Hi1. destruct (st_path _ Hset p Hp) as [Hstrip [|Hhead]]; [done|].
  assert (sanitizeBasePath (Some p) = Some p) as Hsb.
  { destruct p as [|c p]; [done|]. injection Hhead as ->. unfold sanitizeBasePath. by rewrite Hstrip. }
  unfold sanitizeFixedConfig. cbn [g_var set_basePath]. rewrite Hb1, Hsb, !Hv1. pose proof (st_port _ Hset).
  destruct (Z.ltb_spec (g_var g VlistenPort) 1); [lia|]. destruct (Z.ltb_spec 65535 (g_var g VlistenPort)); [lia|]. cbn [orb].
  pose proof (st_clients _ Hset). pose proof (st_images _ Hset). rewrite !Z.min_l by done. rewrite Hlim. cbn [mbind option_bind].
  set (g2 := set_var VmaxImages _ _). assert (forall v, g_var g2 v = g_var g v) as Hv2.
  { intros v. unfold g2. destruct (decide (v = VmaxImages)) as [->|]; [by vars|]. rewrite set_var_ne by done.
    destruct (decide (v = VmaxClients)) as [->|]; [by vars|]. rewrite set_var_ne by done. apply Hv1. }
  assert (g_basePath g2 = Some p) as Hb2 by done. clearbody g2.
  assert (settled g2) as Hset2.
  { destruct Hset as [[? ?] ? ? ? Hpath ? ? ?]. split; rewrite ?Hv2; try done; [split; [intros v; rewrite Hv2; done|by rewrite Hv2]|].
    rewrite Hb2, <- Hp. done. }
  eexists. split; [done|]. split; [lia|]. split.
  - intros v. cbn [g_var set_initialLoad]. by rewrite sanitizeProxy_id, Hv2.
  - destruct (sanitizeProxy_rest g2) as [Hr _]. cbn. by rewrite Hr.
Qed.
End Reload.

(** The buffer of 2000 bytes that [globals_loadConfig] uses is large enough. *)
Lemma length_printItems i items : length (printItems (i :: items)) = (length (printItem i) + 1 + length (printItems items))%nat.
Proof. unfold printItems. cbn [map concat]. rewrite !length_app. done. Qed.
Lemma dumpVar_length g key k v : (length (printItem (dumpVar g key k v)) <= String.length key + 22)%nat.
Proof.
  cbn [dumpVar printItem]. rewrite length_app. cbn [length]. destruct (printVar_word g k v) as [_ Hl].
  rewrite <- (unchars_chars key) at 2. rewrite unchars_length. lia.
Qed.
Lemma dump_fits g p : g_basePath g = Some p -> (length p <= 150)%nat -> Z.of_nat (length (printItems (dumpItems g))) < 2000.
Proof.
  intros Hp Hl. apply (Nat2Z.inj_lt _ 2000). rewrite dumpItems_split, Hp. cbn [default from_option id].
  assert (forall a b, length (printItems (a ++ b)) = (length (printItems a) + length (printItems b))%nat) as Happ.
  { intros a b. unfold printItems. by rewrite map_app, concat_app, length_app. }
  assert (length (printItems (dumpRest1 g)) <= 800)%nat as H1.
  { unfold dumpRest1, dumpItems. cbn [take drop].
    assert (length (printItem (if (g_var g VbackgroundReplication =? BGR_HASHBLOCK)%Z then IPair (chars "backgroundReplication") (chars "hashblock")
      else dumpVar g "backgroundReplication" KBool VbackgroundReplication)) <= 43)%nat.
    { destruct (_ =? _); [cbn; lia|]. apply dumpVar_length. }
    rewrite !length_printItems. repeat match goal with |- context [length (printItem (dumpVar g ?key ?k ?v))] =>
      let H := fresh in pose proof (dumpVar_length g key k v) as H; cbn [String.length] in H; revert H;
      generalize (length (printItem (dumpVar g key k v))); intros ? H end. cbn [printItems map concat length]. lia. }
  assert (length (printItems (dumpRest2 g)) <= 300)%nat as H2.
  { unfold dumpRest2, dumpItems. cbn [drop]. rewrite !length_printItems. repeat match goal with |- context [length (printItem (dumpVar g ?key ?k ?v))] =>
      let H := fresh in pose proof (dumpVar_length g key k v) as H; cbn [String.length] in H; revert H;
      generalize (length (printItem (dumpVar g key k v))); intros ? H end. cbn [printItems map concat length]. lia. }
  pose proof (dumpVar_length g "listenPort" KInt VlistenPort) as H3. cbn [String.length] in H3.
  cbn [app]. rewrite !length_printItems, Happ, length_printItems. cbn [printItem]. rewrite length_app. cbn [length] in *.
  change (length (chars "basePath")) with 8%nat. change (length (chars "dnbd3" ++ ["]"%char])) with 6%nat.
  change (length (chars "limits" ++ ["]"%char])) with 7%nat. lia.
Qed.

(** ** Theorems *)

(** C34. Whatever bytes the configuration file holds, however often it is loaded and whatever limits
    the system has, the settings are sane afterwards: every number is in the range of its type, the
    port and the limits on clients and images are respected, a base path is absolute and
    has no trailing slash, and on a proxy the window, the payload, the prefetch and the minimum
    request size fit together, which is what the uplinks assume.  A reload does not change
    what is fixed at the start. *)
Theorem config_always_valid openLog limits raised file g g' :
  ranges g -> (g_initialLoad g = true \/ settled g) -> globals_loadConfig openLog limits raised false file g = Some g' ->
  settled g' /\ config_ok (toConfig g') /\ g_initialLoad g' = false /\ (g_initialLoad g = false -> sameFixed g g').
Proof.
  intros Hr Hg Hload. destruct (load_settled openLog limits raised file g g' Hr) as (Hs & Hi & Hf); [|done|].
  - destruct Hg as [Hi|[]]; [by left|]. right. by split.
  - split_and!; [done| |done|done]. pose proof (rg_var _ (st_ranges _ Hs)) as Hv. pose proof (Hv VmaxPayload). pose proof (Hv VmaxPrefetch).
    pose proof (Hv VminRequestSize). cbn in *. unfold INT_MAX in *. split; cbn; lia.
Qed.
(** C35. The dump of the settings, written to a file and loaded by a server that starts, gives the
    same settings again: every variable and the base path.  The settings are in order (as C34 shows for all that were loaded), the base path is not empty, has
    at most 150 characters and none that the file format treats specially, the limits of the system allow the numbers of clients and images as they are, and it is the first load.  The settings of the log
    are not dumped and not covered. *)
Theorem config_roundtrip openLog limits raised g g0 p :
  settled g -> g_basePath g = Some p -> p <> [] -> value_ok p -> (length p <= 150)%nat ->
  applyLimits limits raised (g_var g VisProxy) (g_var g VmaxClients) (g_var g VmaxImages) = (g_var g VmaxClients, g_var g VmaxImages) ->
  g_initialLoad g0 = true -> g_basePath g0 = None ->
  exists g', globals_loadConfig openLog limits raised false (Some (globals_dumpConfig g 2000).1) g0 = Some g'
    /\ (globals_dumpConfig g 2000).2 = Z.of_nat (length (globals_dumpConfig g 2000).1)
    /\ (forall v, g_var g' v = g_var g v) /\ g_basePath g' = Some p.
Proof. intros Hs Hp Hne Hv Hl Hlim Hi Hb. apply config_roundtrip_spec; try done. by eapply dump_fits. Qed.

(** ** Witnesses *)

Definition demo_start : globals := Globals defaults None true 0 0 true.
Lemma demo_ranges : ranges demo_start.
Proof. split; [intros []; by vm_compute|by vm_compute]. Qed.
Definition demo_ini : list ascii :=
  chars "[dnbd3]" ++ LF :: chars "basePath = /srv/openslx/  ; where images are" ++ LF :: chars "isProxy=1" ++ LF ::
  chars "bgrWindowSize = 2k" ++ LF :: chars "clientTimeout: 1 m" ++ LF :: chars "[limits]" ++ LF :: chars "maxPayload = 1K" ++
  LF :: chars "maxReplicationSize=20GB" ++ LF :: chars "maxClients = 100000" ++ [LF].
Definition demo_load : option globals := globals_loadConfig (fun _ => true) None true false (Some demo_ini) demo_start.
Lemma demo_load_values :
  (fun g => (g_basePath g, g_var g VbgrWindowSize, g_var g VmaxPayload, g_var g VmaxReplicationSize, g_var g VmaxClients, g_var g VclientTimeout)) <$> demo_load
  = Some (Some (chars "/srv/openslx"), 490, 262144, 20000000000, 4000, 60).
Proof. by vm_compute. Qed.
Definition demo_settings : globals := default demo_start demo_load.
Lemma config_always_valid_witness : settled demo_settings /\ config_ok (toConfig demo_settings).
Proof.
  destruct (config_always_valid (fun _ => true) None true (Some demo_ini) demo_start demo_settings demo_ranges) as (H1 & H2 & _).
  - left. reflexivity.
  - unfold demo_settings, demo_load. destruct (globals_loadConfig _ _ _ _ _ _) eqn:E; [reflexivity|by vm_compute in E].
  - split; [exact H1|exact H2].
Defined.
Lemma config_roundtrip_witness :
  exists g', globals_loadConfig (fun _ => true) None true false (Some (globals_dumpConfig demo_settings 2000).1) demo_start = Some g'
    /\ g_var g' VbgrWindowSize = 490 /\ g_basePath g' = Some (chars "/srv/openslx").
Proof.
  assert (settled demo_settings) as Hs.
  { eapply (load_settled (fun _ => true) None true (Some demo_ini) demo_start); [exact demo_ranges|by left|].
    unfold demo_settings, demo_load. destruct (globals_loadConfig _ _ _ _ _ _) eqn:E; [reflexivity|by vm_compute in E]. }
  destruct (config_roundtrip (fun _ => true) None true demo_settings demo_start (chars "/srv/openslx") Hs) as (g' & Hl & _ & Hv & Hb).
  - by vm_compute.
  - discriminate.
  - apply word_value_ok. repeat constructor; done.
  - cbn. lia.
  - reflexivity.
  - reflexivity.
  - reflexivity.
  - exists g'. split_and!; [exact Hl|rewrite Hv; by vm_compute|exact Hb].
Defined.

(** A unit that makes the number too large wraps it around instead of being refused. *)
Lemma unit_overflow : parse64u (chars "16E") = Some 0 /\ parse64u (chars "17E") = Some (2 ^ 60) /\ parse64u (chars "1Z") = Some 0.
Proof. by vm_compute. Qed.
(** What is behind the unit is ignored. *)
Lemma unit_garbage : parse32 (chars "10 minutes of fame") = Some 600 /\ parse32 (chars "3 dogs") = Some 259200.
Proof. by vm_compute. Qed.
(** A line of more than 199 characters is cut, and the rest is taken as a line of its own. *)
Lemma long_line_cut : exists pad, length pad = 190%nat /\
  (fun g => g_var g VserverPenalty) <$> globals_loadConfig (fun _ => true) None true false
    (Some (chars "[dnbd3]" ++ LF :: "#"%char :: pad ++ chars "--------serverPenalty=7" ++ [LF])) demo_start = Some 7.
Proof. exists (replicate 190 "-"%char). by vm_compute. Qed.
