(* ===== verification/FuseNet.v ===== *)
(** * FuseNet: the FUSE client on its connection ([src/fuse/connection.c])

    The receiver reads replies from a stream of bytes: [stream] is what the server will
    still send before the connection ends.  Switching to another server and sending the
    pending requests again is here as well, on the state of [FuseQueue]. *)

From S2P Require Import Prelude Timing Types Helper Wire FuseQueue KernelDiscover Uplink Net.
Open Scope Z_scope.

(** ** Reading from the connection *)

Inductive read_reply :=
| REPLY_OK (r : dnbd3_reply_t) (stream : list Z)
| REPLY_CLOSED | REPLY_INCOMPLETE | REPLY_WRONGMAGIC.
(** [dnbd3_read_reply] with [wait] *)
Definition dnbd3_read_reply (stream : list Z) : read_reply :=
  let header := take DNBD3_REPLY_SIZE stream in
  if bool_decide (header = []) then REPLY_CLOSED
  else if negb (Nat.eqb (length header) DNBD3_REPLY_SIZE) then REPLY_INCOMPLETE
  else
    let reply := decode_reply header in
    if negb (rp_magic reply =? dnbd3_packet_magic) then REPLY_WRONGMAGIC
    else REPLY_OK reply (drop DNBD3_REPLY_SIZE stream).
(** [sock_recv] of [n] bytes: what it gets and what remains. *)
Definition streamRecv (stream : list Z) (n : Z) : list Z * list Z := (take (Z.to_nat n) stream, drop (Z.to_nat n) stream).

Definition SHORTBUF : Z := 100.
Fixpoint throwLoop (fuel : nat) (stream : list Z) (done amount : Z) : option (list Z) :=
  if amount <=? done then Some stream
  else
    match fuel with
    | O => None
    | S fuel =>
        let '(got, stream) := streamRecv stream (Z.min (amount - done) SHORTBUF) in
        if bool_decide (got = []) then None else throwLoop fuel stream (done + Z.of_nat (length got)) amount
    end.
Definition throwDataAway (stream : list Z) (amount : Z) : option (list Z) := throwLoop (Z.to_nat amount) stream 0 amount.

(** ** The receiver *)

Definition NEW_ALTS : Z := 16.
Definition FUSE_ENTRY_SIZE : Z := 20.
(** The pending requests, what [fuse_reply_buf] was called with, and the bytes of
    [newservers]. *)
Record receiver := Receiver { rv_requests : requests; rv_answers : list (Z * list Z); rv_newservers : list Z }.

(** One reply; without a stream the receiver ends.  [now] is the time at which a request whose
    data did not arrive is queued again. *)
Definition fuseReceiveOne (now : ticks) (s : receiver) (stream : list Z) : result (receiver * option (list Z)) :=
  match dnbd3_read_reply stream with
  | REPLY_OK reply stream =>
      if rp_cmd reply =? CMD_GET_BLOCK then
        '(q, request) ← removeRequest (rv_requests s) (rp_handle reply);
        let s := Receiver q (rv_answers s) (rv_newservers s) in
        if request =? NULL then
          Ok (s, if rp_size reply =? 0 then Some stream else throwDataAway stream (rp_size reply))
        else
          a ← deref (q_heap q) request;
          let '(data, stream) := streamRecv stream (a_length a) in
          if negb (Z.of_nat (length data) =? a_length a) then
            q ← enqueueRequest now q request;
            Ok (Receiver q (rv_answers s) (rv_newservers s), None)
          else
            Ok (Receiver (Requests (delete request (q_heap q)) (q_head q) (q_tail q)) (rv_answers s ++ [(a_fuse_req a, data)])
                  (rv_newservers s), Some stream)
      else if rp_cmd reply =? CMD_GET_SERVERS then
        let count := Z.min (rp_size reply / FUSE_ENTRY_SIZE) NEW_ALTS in
        let relevantSize := FUSE_ENTRY_SIZE * count in
        let '(entries, stream) := streamRecv stream relevantSize in
        if negb (Z.of_nat (length entries) =? relevantSize) then Ok (s, None)
        else
          match throwDataAway stream (rp_size reply - relevantSize) with
          | None => Ok (s, None)
          | Some stream =>
              Ok (Receiver (rv_requests s) (rv_answers s) (entries ++ drop (length entries) (rv_newservers s)), Some stream)
          end
      else Ok (s, if rp_size reply =? 0 then Some stream else throwDataAway stream (rp_size reply))
  | _ => Ok (s, None)
  end.
(** Every reply takes bytes from the stream, so its length is enough fuel. *)
Fixpoint fuseReceiveLoop (fuel : nat) (now : ticks) (s : receiver) (stream : list Z) : result receiver :=
  match fuel with
  | O => Ok s
  | S fuel =>
      '(s, rest) ← fuseReceiveOne now s stream;
      match rest with
      | None => Ok s
      | Some stream => fuseReceiveLoop fuel now s stream
      end
  end.
Definition connection_receiveThreadMain (now : ticks) (s : receiver) (stream : list Z) : result receiver :=
  fuseReceiveLoop (S (length stream)) now s stream.
(** What the receiver does when it ends: the socket of the connection and whether the
    background thread is woken up. *)
Definition receiverEnd (keepRunning : bool) (current sockFd : Z) : Z * bool :=
  if current =? sockFd then (-1, keepRunning) else (current, false).

(** ** Switching to another server *)

Definition sendAltServerRequest : list Z := encode_request (Request dnbd3_packet_magic CMD_GET_SERVERS 0 0 0).
Definition requestAltServers (learnNewServers sendOk : bool) (c : fuse_client) : fuse_client :=
  if (fc_sock c =? -1) || negb learnNewServers then c
  else if sendOk then c else fc_set (fc_requests c) (-1) (fc_wire c) c.
(** The loop that queues the requests again; [sends] says for each whether it can be sent.  There are at most as many
    as there are structs. *)
Fixpoint requeueLoop (fuel : nat) (sends : ptr -> bool) (now : ticks) (c : fuse_client) : result fuse_client :=
  if fc_resend c =? NULL then Ok c
  else
    match fuel with
    | O => Fault OutOfBounds
    | S fuel =>
        let it := fc_resend c in
        c ← resendEnqueue now c;
        c ← connection_read_send (sends it) c;
        requeueLoop fuel sends now c
    end.
(** [peer] says whether [getpeername] works; the second result whether the panic signal is given
    because of it. *)
Definition switchConnection (learnNewServers altOk peer : bool) (sends : ptr -> bool) (now : ticks) (sockFd : Z) (c : fuse_client)
    : result (fuse_client * bool) :=
  let c := if peer then let '(q, queue) := detachQueue (fc_requests c) in fc_set_resend queue (fc_set q sockFd (fc_wire c) c)
           else fc_set (fc_requests c) (-1) (fc_wire c) c in
  let c := requestAltServers learnNewServers altOk c in
  if peer then c ← requeueLoop (size (q_heap (fc_requests c))) sends now c; Ok (c, false) else Ok (c, true).

(** ** Starting and stopping the threads *)

Record conn_state := ConnState {
  cs_initDone : bool; cs_threadsDone : bool; cs_keepRunning : bool; cs_signalled : bool; cs_sock : Z;
}.
(** [locks], [receiver] and [background] say which calls succeed. *)
Definition connection_initThreads (locks receiver background : bool) (s : conn_state) : conn_state * bool :=
  if negb (cs_initDone s) || cs_threadsDone s || (cs_sock s =? -1) then (s, false)
  else
    let success := locks && receiver && background in
    (ConnState (cs_initDone s) true (cs_keepRunning s) (cs_signalled s) (if success then cs_sock s else -1), success).
(** The second result: which of killing the threads and shutting down the socket is done. *)
Definition connection_close (s : conn_state) : conn_state * (bool * bool) :=
  let kill := cs_threadsDone s && negb (cs_signalled s) in
  (ConnState (cs_initDone s) (cs_threadsDone s) false (cs_signalled s || kill) (cs_sock s),
   (kill, cs_initDone s && negb (cs_sock s =? -1))).

(** ** The background thread *)

Definition KEEPALIVE_INTERVAL : Z := 10.
Record bg_times := BgTimes { bg_nextKeepalive : ticks; bg_nextRttCheck : ticks }.
(** How long the thread waits for the panic signal; [None]: not at all. *)
Definition backgroundWait (now : ticks) (b : bg_times) : option Z :=
  let wt1 := u32 (timing_diffMs now (bg_nextKeepalive b)) in
  let wt2 := u32 (timing_diffMs now (bg_nextRttCheck b)) in
  if (0 <? wt1) && (0 <? wt2) then Some (i32 (Z.min wt1 wt2) + 1) else None.
(** One turn after waking up.  [probe] is what learning, sorting and probing the servers make of the
    connection, [sendOk] whether the keepalive can be sent; the last two results say whether the
    servers were checked and a keepalive was sent. *)
Definition backgroundTurn (probe : Z -> Z) (sendOk : bool) (startupTime now : ticks) (sock : Z) (b : bg_times)
    : Z * bg_times * bool * bool :=
  let panic := sock =? -1 in
  let check := panic || timing_reachedPrecise (bg_nextRttCheck b) now in
  let sock := if check then probe sock else sock in
  let nextRtt :=
    if check then
      if panic || (timing_diff startupTime now <=? DISCOVER_STARTUP_PHASE_COUNT * TIMER_INTERVAL_PROBE_STARTUP)
      then timing_addSeconds now TIMER_INTERVAL_PROBE_STARTUP
      else timing_addSeconds now TIMER_INTERVAL_PROBE_MAX
    else bg_nextRttCheck b in
  if timing_reachedPrecise (bg_nextKeepalive b) now then
    let sent := negb (sock =? -1) in
    let lost := sent && negb sendOk in
    (if lost then -1 else sock, BgTimes (timing_addSeconds now KEEPALIVE_INTERVAL) (if lost then now else nextRtt), check, sent)
  else (sock, BgTimes (bg_nextKeepalive b) nextRtt, check, false).

(** ** What the receiver makes of a stream *)

Lemma throwLoop_ok amount : forall fuel stream done, 0 <= done <= amount -> amount - done <= Z.of_nat fuel ->
  amount - done <= Z.of_nat (length stream) -> throwLoop fuel stream done amount = Some (drop (Z.to_nat (amount - done)) stream).
Proof.
  induction fuel as [|fuel IH]; intros stream done Hd Hf Hl; cbn [throwLoop].
  - destruct (Z.leb_spec amount done); [|lia]. by replace (Z.to_nat (amount - done)) with 0%nat by lia.
  - destruct (Z.leb_spec amount done); [by replace (Z.to_nat (amount - done)) with 0%nat by lia|].
    unfold streamRecv, SHORTBUF. set (n := Z.min (amount - done) 100). assert (0 < n <= amount - done) as Hn by (unfold n; lia). clearbody n.
    assert (length (take (Z.to_nat n) stream) = Z.to_nat n) as Ht by (rewrite length_take; lia).
    rewrite bool_decide_eq_false_2 by (intros E; rewrite E in Ht; cbn in Ht; lia). rewrite Ht, IH by (rewrite ?length_drop; lia).
    rewrite drop_drop. do 2 f_equal. lia.
Qed.
Lemma throwDataAway_ok stream amount : 0 <= amount <= Z.of_nat (length stream) -> throwDataAway stream amount = Some (drop (Z.to_nat amount) stream).
Proof. intros H. unfold throwDataAway. rewrite throwLoop_ok by lia. by rewrite Z.sub_0_r. Qed.
Lemma throwPayload payload rest :
  (if Z.of_nat (length payload) =? 0 then Some (payload ++ rest) else throwDataAway (payload ++ rest) (Z.of_nat (length payload))) = Some rest.
Proof.
  destruct (Z.eqb_spec (Z.of_nat (length payload)) 0); [by destruct payload|].
  rewrite throwDataAway_ok by (rewrite length_app; lia). by rewrite Nat2Z.id, drop_app_length.
Qed.
Lemma read_reply_ok r rest : reply_ok r -> rp_magic r = dnbd3_packet_magic -> dnbd3_read_reply (encode_reply r ++ rest) = REPLY_OK r rest.
Proof.
  intros Hr Hm. pose proof (length_encode_reply r) as Hl. change 16%nat with DNBD3_REPLY_SIZE in Hl. unfold dnbd3_read_reply. rewrite <- Hl, take_app_length, drop_app_length.
  rewrite bool_decide_eq_false_2 by (intros E; rewrite E in Hl; done). rewrite Nat.eqb_refl. cbn [negb].
  by rewrite decode_encode_reply, Hm, Z.eqb_refl.
Qed.

(** A message of a server: command, handle and payload. *)
Record server_msg := Msg { m_cmd : Z; m_handle : Z; m_payload : list Z }.
Definition msgBytes (m : server_msg) : list Z :=
  encode_reply (ReplyHdr dnbd3_packet_magic (m_cmd m) (Z.of_nat (length (m_payload m))) (m_handle m)) ++ m_payload m.
Definition msg_ok (m : server_msg) : Prop :=
  in_u16 (m_cmd m) /\ in_u64 (m_handle m) /\ in_u32 (Z.of_nat (length (m_payload m))).

(** What a list of messages means: the answers to the pending requests and the requests that are left.  [h]
    holds the requests. *)
Definition isAnswer (l : list ptr) (m : server_msg) : bool := (m_cmd m =? CMD_GET_BLOCK) && bool_decide (m_handle m ∈ l).
Fixpoint answersOf (h : gmap Z dnbd3_async_t) (l : list ptr) (msgs : list server_msg) : list (Z * list Z) :=
  match msgs with
  | [] => []
  | m :: msgs =>
      if isAnswer l m then
        match h !! m_handle m with Some a => [(a_fuse_req a, m_payload m)] | None => [] end ++ answersOf h (without (m_handle m) l) msgs
      else answersOf h l msgs
  end.
Fixpoint pendingAfter (l : list ptr) (msgs : list server_msg) : list ptr :=
  match msgs with [] => l | m :: msgs => pendingAfter (if isAnswer l m then without (m_handle m) l else l) msgs end.
(** Block replies to pending requests have the length that was asked for. *)
Fixpoint lengthsOk (h : gmap Z dnbd3_async_t) (l : list ptr) (msgs : list server_msg) : Prop :=
  match msgs with
  | [] => True
  | m :: msgs =>
      (isAnswer l m = true -> exists a, h !! m_handle m = Some a /\ a_length a = Z.of_nat (length (m_payload m)))
      /\ lengthsOk h (if isAnswer l m then without (m_handle m) l else l) msgs
  end.
(** The receiver's requests are the pending ones. *)
Definition pending_ok (h : gmap Z dnbd3_async_t) (l : list ptr) (s : receiver) : Prop :=
  queue_repr (rv_requests s) l /\ forall x, x ∈ l -> asks <$> q_heap (rv_requests s) !! x = asks <$> h !! x.

Lemma queue_repr_delete q l p : queue_repr q l -> (p ∉ l) -> queue_repr (Requests (delete p (q_heap q)) (q_head q) (q_tail q)) l.
Proof. intros (Hc & Hnd & Hl) Hp. split_and!; [by apply chain_delete|done|done]. Qed.

Lemma fuseReceiveOne_msg now h l s m rest :
  pending_ok h l s -> msg_ok m -> (isAnswer l m = true -> exists a, h !! m_handle m = Some a /\ a_length a = Z.of_nat (length (m_payload m))) ->
  exists s', fuseReceiveOne now s (msgBytes m ++ rest) = Ok (s', Some rest)
    /\ pending_ok h (if isAnswer l m then without (m_handle m) l else l) s'
    /\ rv_answers s' = rv_answers s ++ (if isAnswer l m then match h !! m_handle m with Some a => [(a_fuse_req a, m_payload m)] | None => [] end else []).
Proof.
  intros [Hq Hasks] (Hcmd & Hhandle & Hsize) Hlen. unfold fuseReceiveOne, msgBytes. rewrite <- app_assoc, read_reply_ok; [|by split|done].
  cbn [rp_cmd rp_handle rp_size]. unfold isAnswer in *. destruct (Z.eqb_spec (m_cmd m) CMD_GET_BLOCK) as [Ec|Ec]; cbn [andb] in *.
  - destruct (remove_repr _ _ (m_handle m) Hq) as (q & -> & Hq' & Hsame & _). cbn [mbind result_bind].
    assert (forall x, x ∈ without (m_handle m) l -> asks <$> q_heap q !! x = asks <$> h !! x) as Hasks'.
    { intros x [Hx _]%elem_of_without. by rewrite Hsame, Hasks. }
    destruct (decide (m_handle m ∈ l)) as [Hin|Hin].
    + rewrite (bool_decide_eq_true_2 (m_handle m ∈ l)) in * by done. destruct (chain_alive _ _ _ _ (proj1 Hq) Hin) as [Hnn _].
      rewrite (proj2 (Z.eqb_neq _ _) Hnn). destruct (Hlen ltac:(done)) as (a & Ha & Hal).
      specialize (Hsame (m_handle m)). rewrite (Hasks _ Hin), Ha in Hsame.
      destruct (q_heap q !! m_handle m) as [b|] eqn:Eb; [|done]. cbn in Hsame. unfold asks in Hsame. injection Hsame as Hf _ Hbl.
      rewrite (deref_ok _ _ b Hnn Eb). cbn [mbind result_bind]. unfold streamRecv. rewrite Hbl, Hal, Nat2Z.id, take_app_length, drop_app_length, Z.eqb_refl.
      cbn [negb]. eexists. split; [done|]. rewrite Ha. split; [|cbn; by rewrite Hf]. split.
      * apply queue_repr_delete; [done|]. rewrite elem_of_without. naive_solver.
      * cbn [rv_requests q_heap]. intros x Hx. rewrite lookup_delete_ne; [by apply Hasks'|]. apply elem_of_without in Hx as [_ ?]. done.
    + rewrite (bool_decide_eq_false_2 (m_handle m ∈ l)) by done. rewrite Z.eqb_refl, throwPayload. eexists. split; [done|].
      rewrite without_absent in Hq' by done. cbn [rv_answers]. rewrite app_nil_r. split; [|done]. split; [done|].
      intros x Hx. apply Hasks'. rewrite without_absent; done.
  - rewrite app_nil_r. destruct (Z.eqb_spec (m_cmd m) CMD_GET_SERVERS) as [Es|Es].
    + set (n := Z.of_nat (length (m_payload m))) in *. set (relevant := FUSE_ENTRY_SIZE * Z.min (n / FUSE_ENTRY_SIZE) NEW_ALTS).
      assert (0 <= relevant <= n) as Hrel.
      { unfold relevant, FUSE_ENTRY_SIZE, NEW_ALTS. pose proof (Z.div_mod n 20 ltac:(lia)). pose proof (Z.mod_pos_bound n 20 ltac:(lia)).
        assert (0 <= n / 20) by (apply Z.div_pos; lia). lia. }
      clearbody relevant. unfold streamRecv.
      assert (length (take (Z.to_nat relevant) (m_payload m ++ rest)) = Z.to_nat relevant) as Ht by (rewrite length_take, length_app; lia).
      rewrite Ht, Z2Nat.id, Z.eqb_refl by lia. cbn [negb]. rewrite throwDataAway_ok by (rewrite length_drop, length_app; lia).
      rewrite drop_drop. replace (Z.to_nat relevant + Z.to_nat (n - relevant))%nat with (length (m_payload m)) by lia.
      rewrite drop_app_length. eexists. split; [done|]. by split.
    + rewrite throwPayload. eexists. split; [done|]. by split.
Qed.
Lemma fuseReceiveLoop_msgs now h msgs : forall fuel l s, pending_ok h l s -> Forall msg_ok msgs -> lengthsOk h l msgs ->
  (length msgs < fuel)%nat ->
  exists s', fuseReceiveLoop fuel now s (concat (map msgBytes msgs)) = Ok s'
    /\ pending_ok h (pendingAfter l msgs) s' /\ rv_answers s' = rv_answers s ++ answersOf h l msgs.
Proof.
  induction msgs as [|m msgs IH]; intros fuel l s Hp Hok Hlen Hf; (destruct fuel as [|fuel]; [cbn in Hf; lia|]).
  - cbn. eexists. split; [done|]. by rewrite app_nil_r.
  - apply list.Forall_cons in Hok as [Hm Hok]. destruct Hlen as [Hl Hlen]. cbn [map concat fuseReceiveLoop].
    destruct (fuseReceiveOne_msg now h l s m (concat (map msgBytes msgs)) Hp Hm Hl) as (s1 & -> & Hp1 & Ha1). cbn [mbind result_bind].
    destruct (IH fuel _ s1 Hp1 Hok Hlen) as (s2 & -> & Hp2 & Ha2); [cbn in Hf; lia|]. eexists. split; [done|]. split; [done|].
    rewrite Ha2, Ha1, <- app_assoc. f_equal. cbn [answersOf]. by destruct (isAnswer l m).
Qed.

(** ** Switching sends every pending request again *)

(** What goes out on the new connection: the requests in their order up to the first that cannot be sent. *)
Fixpoint sentOf (h : gmap Z dnbd3_async_t) (sock : Z) (sends : ptr -> bool) (r : list ptr) : list (Z * ptr * Z * Z) :=
  match r with
  | [] => []
  | p :: r =>
      if (sock =? -1) || negb (sends p) then []
      else option_list ((fun a => (sock, p, a_offset a, a_length a)) <$> h !! p) ++ sentOf h sock sends r
  end.
Definition sockAfter (sock : Z) (sends : ptr -> bool) (r : list ptr) : Z := if forallb sends r then sock else -1.
Lemma sentOf_same h h' sock sends r : same_requests h h' -> sentOf h' sock sends r = sentOf h sock sends r.
Proof.
  intros Hs. induction r as [|p r IH]; [done|]. cbn [sentOf]. rewrite IH. pose proof (Hs p) as Hp. case_match; [done|]. f_equal.
  destruct (h !! p) as [a|], (h' !! p) as [b|]; cbn in Hp; try done. unfold asks in Hp. injection Hp as E1 E2 E3. cbn. by rewrite E2, E3.
Qed.
(** The events of the loop. *)
Definition requeueEvents (now : ticks) (sends : ptr -> bool) (r : list ptr) : list fuse_event :=
  concat (map (fun p => [FResend now; FSend (sends p)]) r).
Lemma chain_unique h l : forall p l', chain h p l -> chain h p l' -> l = l'.
Proof.
  induction l as [|x l IH]; intros p l'; destruct l' as [|y l']; cbn [chain]; [done|naive_solver..|].
  intros (-> & _ & a & Ha & Hl) (-> & _ & b & Hb & Hl'). simplify_eq. f_equal. by eapply IH.
Qed.
Lemma reached_ok sock es c l :
  frun true (fuse0 sock) es = Ok c -> fc_resend c = NULL -> queue_repr (fc_requests c) l -> FuseQueue.client_ok [] l [] c.
Proof.
  intros Hrun Hn Hq. destruct (frun_ok es _ (fuse0_inv sock)) as [(c' & E & l' & r & Hc)|[E _]]; rewrite Hrun in E; [|done]. injection E as <-.
  assert (l' = l) as <- by (eapply chain_unique; [apply Hc|apply Hq]).
  assert (r = []) as ->; [|done]. eapply chain_unique; [apply Hc|done].
Qed.
Lemma sentOf_off h sends r : sentOf h (-1) sends r = [].
Proof. by destruct r. Qed.
Lemma send_spec c c1 p a l r sendOk q' :
  q_heap (fc_requests c) !! p = Some a -> p <> NULL -> same_requests (q_heap (fc_requests c)) (q_heap q') ->
  fc_requests c1 = q' -> fc_sock c1 = fc_sock c -> fc_wire c1 = fc_wire c -> fc_sending c1 = p -> FuseQueue.client_ok [] l r c1 ->
  exists c2, connection_read_send sendOk c1 = Ok c2 /\ FuseQueue.client_ok [] l r c2 /\ fc_sending c2 = NULL
    /\ same_requests (q_heap (fc_requests c)) (q_heap (fc_requests c2))
    /\ fc_sock c2 = (if sendOk then fc_sock c else -1)
    /\ fc_wire c2 = fc_wire c ++ (if (fc_sock c =? -1) || negb sendOk then [] else [(fc_sock c, p, a_offset a, a_length a)])
    /\ fc_hands c2 = fc_hands c1 /\ fc_answers c2 = fc_answers c1.
Proof.
  intros Ha Hn Hs Eq Esock Ewire Esend Hc. unfold connection_read_send, sendRequest. rewrite Esock, Esend.
  destruct (same_alive _ _ p Hs ltac:(by eexists)) as [b Hb]. destruct (same_lookup _ _ _ _ Hs Hb) as (a' & Ha' & Easks).
  rewrite Ha in Ha'. injection Ha' as <-. subst q' p. unfold asks in Easks. injection Easks as _ Eo En.
  assert (forall sock wire, (forall x, x ∈ wire -> x ∈ fc_wire c1 \/ x = (fc_sock c, fc_sending c1, a_offset a, a_length a)) ->
    FuseQueue.client_ok [] l r (fc_set_sending NULL (fc_set (fc_requests c1) sock wire c1))) as Hgo.
  { intros sock wire Hw. eapply (client_move c1 _ [] l r); [done|apply same_refl|done|apply Hc|apply Hc|done|done|done|].
    intros p' o n. unfold refs. cbn. rewrite !elem_of_app. intros [Hin|]; [|tauto].
    apply list_elem_of_fmap in Hin as ([[[s p''] o'] n'] & [= -> -> ->] & Hin). destruct (Hw _ Hin) as [Hold|[= -> -> -> ->]].
    - left. left. apply list_elem_of_fmap. by exists (s, p'', o', n').
    - right. by exists b. }
  destruct (Z.eqb_spec (fc_sock c) (-1)) as [E|]; cbn [orb].
  - eexists. split; [done|]. split; [|rewrite app_nil_r; split_and!; try done; destruct sendOk; cbn; congruence].
    specialize (Hgo (fc_sock c1) (fc_wire c1) ltac:(by left)). eapply (client_move _ _ [] l r); [exact Hgo|apply same_refl|done|apply Hgo|apply Hgo|done|done|done|by left].
  - rewrite (deref_ok _ _ _ Hn Hb). cbn [mbind result_bind]. destruct sendOk; cbn [negb].
    + eexists. split; [done|]. split; [apply Hgo|].
      * intros x [Hx|Hx%list_elem_of_singleton]%elem_of_app; [by left|right]. subst x. by rewrite Eo, En.
      * split_and!; try done. cbn. by rewrite Ewire, Eo, En.
    + eexists. split; [done|]. split; [apply Hgo; by left|]. rewrite app_nil_r. by split_and!.
Qed.
Lemma requeue_spec now sends r : forall fuel l c,
  FuseQueue.client_ok [] l r c -> fc_sending c = NULL -> (length r <= fuel)%nat ->
  exists c', requeueLoop fuel sends now c = Ok c' /\ frun true c (requeueEvents now sends r) = Ok c'
    /\ FuseQueue.client_ok [] (l ++ r) [] c' /\ same_requests (q_heap (fc_requests c)) (q_heap (fc_requests c'))
    /\ fc_sending c' = NULL /\ fc_sock c' = sockAfter (fc_sock c) sends r
    /\ fc_wire c' = fc_wire c ++ sentOf (q_heap (fc_requests c)) (fc_sock c) sends r
    /\ fc_hands c' = fc_hands c /\ fc_answers c' = fc_answers c.
Proof.
  induction r as [|p r IH]; intros fuel l c Hc Hs Hf.
  - assert (fc_resend c = NULL) as Hn by apply (co_resend _ _ _ _ Hc). exists c. rewrite !app_nil_r.
    split_and!; try done. by destruct fuel; cbn; rewrite Hn, ?Z.eqb_refl.
  - destruct fuel as [|fuel]; [cbn in Hf; lia|]. destruct (resend_inv now c p l r Hc) as (a & q' & Ha & Ep & Hpn & E & Hsame & Hc1).
    set (c1 := fc_set_sending p _) in *.
    destruct (send_spec c c1 p a (l ++ [p]) r (sends p) q') as (c2 & E2 & Hc2 & Hs2 & Hsame2 & Hsock & Hwire & Hh2 & Ha2); [done..|].
    destruct (IH fuel (l ++ [p]) c2 Hc2 Hs2 ltac:(cbn in Hf; lia)) as (c' & E3 & Er & Hc' & Hsame' & Hs' & Hsock' & Hwire' & Hh' & Ha').
    exists c'. split_and!.
    + cbn [requeueLoop]. rewrite Ep, (proj2 (Z.eqb_neq _ _) Hpn), E. cbn [mbind result_bind]. by rewrite E2.
    + cbn [requeueEvents map concat app frun fenabled]. rewrite Hs, Ep, (proj2 (Z.eqb_neq _ _) Hpn). cbn [negb andb Z.eqb fstep]. rewrite E.
      cbn [mbind result_bind]. replace (fc_sending c1) with p by done. rewrite (proj2 (Z.eqb_neq _ _) Hpn). cbn [negb]. by rewrite E2.
    + by rewrite <- app_assoc in Hc'.
    + by eapply same_trans.
    + done.
    + rewrite Hsock', Hsock. unfold sockAfter. cbn [forallb]. destruct (sends p); [done|]. by destruct (forallb sends r).
    + rewrite Hwire', Hwire, Hsock, <- app_assoc. f_equal. cbn [sentOf]. rewrite (sentOf_same _ _ _ _ _ Hsame2), Ha. cbn [fmap option_fmap option_map option_list].
      destruct (sends p); cbn [negb]; [|by rewrite orb_true_r, sentOf_off]. rewrite orb_false_r.
      destruct (Z.eqb_spec (fc_sock c) (-1)) as [->|]; [by rewrite sentOf_off|done].
    + by rewrite Hh', Hh2.
    + by rewrite Ha', Ha2.
Qed.
(** After a turn no deadline has passed, and both are at most as far away as the intervals say or as they were; a lost connection is
    noticed in the next turn. *)
Lemma reachedPrecise_add now n : 0 < n -> timing_reachedPrecise (timing_addSeconds now n) now = false.
Proof. intros Hn. unfold timing_reachedPrecise, timing_addSeconds. cbn. destruct (Z.ltb_spec (tv_sec now + n) (tv_sec now)); [lia|]. destruct (Z.eqb_spec (tv_sec now) (tv_sec now + n)); [lia|done]. Qed.
Lemma reachedPrecise_irrefl now : timing_reachedPrecise now now = false.
Proof. unfold timing_reachedPrecise. by rewrite Z.ltb_irrefl, Z.ltb_irrefl, andb_false_r. Qed.
Lemma backgroundTurn_deadlines probe sendOk startup now sock b sock' b' check sent :
  backgroundTurn probe sendOk startup now sock b = (sock', b', check, sent) ->
  timing_reachedPrecise (bg_nextKeepalive b') now = false /\ timing_reachedPrecise (bg_nextRttCheck b') now = false
  /\ (sock = -1 -> check = true) /\ (sent = true -> sendOk = false -> sock' = -1).
Proof.
  intros Ht. unfold backgroundTurn in Ht. destruct (timing_reachedPrecise (bg_nextKeepalive b) now) eqn:Ek; injection Ht as <- <- <- <-; cbn [bg_nextKeepalive bg_nextRttCheck].
  - split_and!.
    + by apply reachedPrecise_add.
    + match goal with |- context [?b && negb sendOk] => destruct (b && negb sendOk) end; [apply reachedPrecise_irrefl|]. destruct ((sock =? -1) || timing_reachedPrecise (bg_nextRttCheck b) now) eqn:Ec.
      * case_match; by apply reachedPrecise_add.
      * by apply orb_false_iff in Ec as [_ ?].
    + by intros ->.
    + by intros -> ->.
  - split_and!; [done| |by intros ->|done]. destruct ((sock =? -1) || timing_reachedPrecise (bg_nextRttCheck b) now) eqn:Ec.
    + case_match; by apply reachedPrecise_add.
    + by apply orb_false_iff in Ec as [_ ?].
Qed.

(** ** Theorems *)

(** C11. The receiver, on the bytes of any sequence of well-formed messages (block replies in any order, also
    to requests that are no longer pending, lists of servers of any length, other replies): every block reply to a
    pending request is handed to the file system for exactly that request with exactly the data that was
    sent, in the order of the replies; nothing else is; the other requests stay pending, and no request is
    touched after it was freed. *)
Theorem fuse_receiver_correct now s l msgs :
  queue_repr (rv_requests s) l -> Forall msg_ok msgs -> lengthsOk (q_heap (rv_requests s)) l msgs ->
  exists s', connection_receiveThreadMain now s (concat (map msgBytes msgs)) = Ok s'
    /\ rv_answers s' = rv_answers s ++ answersOf (q_heap (rv_requests s)) l msgs
    /\ queue_repr (rv_requests s') (pendingAfter l msgs).
Proof.
  intros Hq Hok Hlen. unfold connection_receiveThreadMain.
  destruct (fuseReceiveLoop_msgs now (q_heap (rv_requests s)) msgs (S (length (concat (map msgBytes msgs)))) l s) as (s' & Hr & [Hp _] & Ha); [by split|done|done| |by exists s'].
  clear. induction msgs as [|m msgs IH]; cbn [map concat length]; [lia|]. rewrite length_app. unfold msgBytes at 1.
  rewrite length_app, length_encode_reply. lia.
Qed.
(** C24. Switching to another server, from every state the threads can reach, with nobody else running meanwhile.
    When the new connection is alive, all pending requests are afterwards still pending, in the same order and asking for the
    same, and they have been sent on the new connection, in that order, up to the first that cannot be sent (none if already
    the request for the list of servers cannot be); if one cannot be sent the connection counts as lost.  Exactly
    these steps of the queue are taken: detach all, queue and send each again.  When the new connection is dead already, nothing
    is changed but that there is no connection, and the background thread is woken. *)
Theorem switch_resends_pending learn altOk peer sends now sockFd sock0 es l c :
  frun true (fuse0 sock0) es = Ok c -> fc_sending c = NULL -> fc_resend c = NULL -> queue_repr (fc_requests c) l -> sockFd <> -1 ->
  let sock := if learn && negb altOk then -1 else sockFd in
  exists c', switchConnection learn altOk peer sends now sockFd c = Ok (c', negb peer)
    /\ queue_repr (fc_requests c') l /\ same_requests (q_heap (fc_requests c)) (q_heap (fc_requests c'))
    /\ fc_wire c' = fc_wire c ++ (if peer then sentOf (q_heap (fc_requests c)) sock sends l else [])
    /\ fc_sock c' = (if peer then sockAfter sock sends l else -1)
    /\ fc_hands c' = fc_hands c /\ fc_answers c' = fc_answers c
    /\ frun true c (FSwitch sockFd peer :: if peer then (if learn && negb altOk then [FLost sockFd] else []) ++ requeueEvents now sends l else [])
       = Ok c'.
Proof.
  intros Hrun Hsend Hn Hq Hsock sock. pose proof (reached_ok _ _ _ _ Hrun Hn Hq) as Hc. unfold switchConnection.
  assert (fenabled true c (FSwitch sockFd peer) = true) as He by (cbn; by rewrite Hsend, Hn, (proj2 (Z.eqb_neq _ _) Hsock)).
  destruct peer; cbn [negb].
  2: { eexists. split; [done|]. cbn [frun]. rewrite He. cbn. rewrite app_nil_r. by split_and!. }
  unfold detachQueue. set (c1 := fc_set_resend _ _). set (c2 := requestAltServers learn altOk c1).
  assert (FuseQueue.client_ok [] [] l c1) as Hc1.
  { eapply (client_move c c1 [] l []); [done|apply same_refl|done| |apply Hc|done|done|done|by left]. split_and!; [done|constructor|done]. }
  assert (c2 = fc_set (fc_requests c1) sock (fc_wire c1) c1) as Ec2.
  { unfold c2, requestAltServers, sock. cbn [fc_sock c1 fc_set fc_set_resend]. rewrite (proj2 (Z.eqb_neq _ _) Hsock). by destruct learn, altOk. }
  assert (FuseQueue.client_ok [] [] l c2) as Hc2.
  { rewrite Ec2. eapply (client_move c1 _ [] [] l); [done|apply same_refl|done|apply Hc1|apply Hc1|done|done|done|by left]. }
  destruct (requeue_spec now sends l (size (q_heap (fc_requests c2))) [] c2 Hc2) as (c' & E & Er & Hc' & Hs' & _ & Ek & Ew & Eh & Ea); [by rewrite Ec2|..].
  { rewrite Ec2. eapply chain_length; apply Hc. }
  exists c'. rewrite E. cbn [mbind result_bind]. rewrite Ec2 in Er, Hs', Ek, Ew, Eh, Ea. split_and!; try done.
  - apply Hc'.
  - cbn [frun]. rewrite He. cbn [fstep mbind result_bind detachQueue]. fold c1. rewrite <- Er. unfold sock. destruct (learn && negb altOk); cbn [app].
    + cbn [frun]. replace (fenabled true c1 (FLost sockFd)) with true by (cbn; by rewrite Hsend, !Z.eqb_refl). done.
    + f_equal.
Qed.

Definition demo_receiver : receiver := Receiver demo_requests [] [].
Definition demo_msgs : list server_msg :=
  [Msg CMD_KEEPALIVE 0 []; Msg CMD_GET_BLOCK 200 (replicate 4096 7); Msg CMD_GET_SERVERS 0 (replicate 450 1); Msg CMD_GET_BLOCK 200 [1; 2; 3]].
Lemma fuse_receiver_witness :
  exists s', connection_receiveThreadMain (Ticks 0 0) demo_receiver (concat (map msgBytes demo_msgs)) = Ok s'
    /\ rv_answers s' = [(2, replicate 4096 7)] /\ queue_repr (rv_requests s') [100].
Proof.
  destruct (fuse_receiver_correct (Ticks 0 0) demo_receiver [100; 200] demo_msgs) as (s' & Hr & Ha & Hq).
  - split; [|split].
    + cbn. split; [done|]. split; [done|]. eexists. split; [done|]. split; [done|]. split; [done|]. eexists. done.
    + by apply (bool_decide_eq_true_1 _).
    + done.
  - repeat constructor; by vm_compute.
  - cbn -[replicate]. split; [done|]. split; [intros _; eexists; split; [done|by rewrite length_replicate]|]. split; [done|]. split; [done|done].
  - exists s'. split; [exact Hr|]. split; [rewrite Ha; vm_compute; reflexivity|exact Hq].
Defined.
Definition demo_events : list fuse_event := [FRead 100 0 4096 (Ticks 0 0); FSend true; FRead 200 4096 8192 (Ticks 0 0); FSend true].
(** The second request cannot be sent to the new server. *)
Lemma switch_resends_witness :
  exists c c', frun true (fuse0 5) demo_events = Ok c
    /\ switchConnection true true true (fun p => p =? 100) (Ticks 0 0) 7 c = Ok (c', false)
    /\ queue_repr (fc_requests c') [100; 200] /\ fc_wire c' = fc_wire c ++ [(7, 100, 0, 4096)] /\ fc_sock c' = -1.
Proof.
  destruct (frun true (fuse0 5) demo_events) as [c|] eqn:Erun; [|by vm_compute in Erun]. exists c.
  destruct (switch_resends_pending true true true (fun p => p =? 100) (Ticks 0 0) 7 5 demo_events [100; 200] c Erun) as (c' & E & Hq & _ & Hw & Hs & _);
    [vm_compute in Erun; injection Erun as <-..|].
  - reflexivity.
  - reflexivity.
  - split; [|split].
    + cbn. split; [done|]. split; [done|]. eexists. split; [done|]. split; [done|]. split; [done|]. eexists. done.
    + by apply (bool_decide_eq_true_1 _).
    + done.
  - lia.
  - exists c'. split_and!; [reflexivity|exact E|exact Hq| |exact Hs]. rewrite Hw. vm_compute in Erun. by injection Erun as <-.
Defined.
(** A reply with another size than the request asked for is not noticed: the receiver takes the length of
    the request and reads the rest as the next header. *)
Lemma short_reply_desyncs :
  let stream := msgBytes (Msg CMD_GET_BLOCK 100 (replicate 10 1)) ++ msgBytes (Msg CMD_GET_BLOCK 200 (replicate 4096 7)) in
  exists s', connection_receiveThreadMain (Ticks 0 0) demo_receiver stream = Ok s'
    /\ map fst (rv_answers s') = [1] /\ (exists data, snd <$> rv_answers s' !! 0%nat = Some data /\ take 11 data = replicate 10 1 ++ [115]).
Proof.
  destruct (connection_receiveThreadMain (Ticks 0 0) demo_receiver (msgBytes (Msg CMD_GET_BLOCK 100 (replicate 10 1)) ++ msgBytes (Msg CMD_GET_BLOCK 200 (replicate 4096 7)))) as [s'|] eqn:E; [|by vm_compute in E].
  exists s'. split; [done|]. vm_compute in E. injection E as <-. split; [done|]. eexists. split; [done|]. by vm_compute.
Qed.
