(* ===== verification/EndToEnd.v ===== *)
(** * EndToEnd: a FUSE client and a server, byte by byte

    A turn of the loop of [net_handleNewConnection] ([src/server/net.c]) on the bytes a client sends: a read inside the file
    is answered with the bytes of the image file, on the wire as [connection_receiveThreadMain] of the client
    ([src/fuse/connection.c]) reads them.  [FuseMain] puts both together. *)

From S2P Require Import Prelude Timing Types Helper CacheMap Uplink UplinkIO UplinkTrace AltServers Wire Net FuseQueue FuseNet.
Open Scope Z_scope.

(** ** The loop of the server *)

Section Serve.
Context (cfg : config) (env : net_env) (alts : list dnbd3_alt_server_t).
(** One turn of the loop, on what the client has sent; [shutdown] is the global flag when the header was received, [handle] what the
    last block request left in the reply header.  The result tells whether the loop goes on, what is then in the reply
    header, the connection and what was sent. *)
Definition serveOne (shutdown : bool) (handle : Z) (c : connection) (stream : list Z) : result (bool * Z * connection * list Z) :=
  let header := take DNBD3_REQUEST_SIZE stream in
  match recv_request_header [if Nat.eqb (length header) DNBD3_REQUEST_SIZE then HdrFull header else HdrShort EOTHER] with
  | None => Ok (false, handle, c, [])
  | Some request =>
      if shutdown then Ok (false, handle, c, [])
      else
        r ← handleRequest cfg env alts handle c request;
        match r with
        | None => Fault OutOfBounds
        | Some (c, bytes, _, next) =>
            let handle := if rq_cmd request =? CMD_GET_BLOCK then rq_handle request else handle in
            Ok (match next with Keep => true | DropClient => false end, handle, c, bytes)
        end
  end.

(** A read: the address of the request, the offset and the length. *)
Definition readBytes (r : ptr * Z * Z) : list Z := let '(p, offset, length) := r in dnbd3_get_block offset length p 0.
Definition readMsg (r : ptr * Z * Z) : server_msg :=
  let '(p, offset, length) := r in Msg CMD_GET_BLOCK p (imageBytes (ne_file env) offset length).

Lemma get_block_decoded p offset size : 0 <= offset < 2 ^ 56 -> in_u32 size -> in_u64 p ->
  let r := decode_request (dnbd3_get_block offset size p 0) in
  request_ok r /\ rq_magic r = dnbd3_packet_magic /\ rq_cmd r = CMD_GET_BLOCK /\ rq_size r = size /\ rq_handle r = p /\ offset_small r = offset.
Proof.
  intros Ho Hs Hp. unfold dnbd3_get_block. assert (request_ok (Request dnbd3_packet_magic CMD_GET_BLOCK size (set_offset_hops offset 0) p)) as Hok.
  { split; cbn [rq_magic rq_cmd rq_size rq_offset rq_handle]; [by vm_compute|by vm_compute|done| |done].
    unfold set_offset_hops. rewrite Z.mod_small by done. crange. }
  rewrite decode_encode_request by done. cbv zeta. split_and!; [done..|]. unfold offset_small, set_offset_hops. cbn [rq_offset].
  rewrite Z.mul_0_l, Z.add_0_r, Z.mod_mod by lia. by apply Z.mod_small.
Qed.
Lemma length_get_block offset size p : length (dnbd3_get_block offset size p 0) = DNBD3_REQUEST_SIZE.
Proof. unfold dnbd3_get_block, encode_request. rewrite !length_app, !length_le_bytes. done. Qed.
Lemma length_imageBytes file offset size : length (imageBytes file offset size) = Z.to_nat size.
Proof. unfold imageBytes. by rewrite length_map, length_seq. Qed.

(** The read is inside the image and its blocks are available to the server. *)
Definition read_ok (c : connection) (r : ptr * Z * Z) : Prop :=
  let '(p, offset, size) := r in
  in_u64 p /\ in_u32 size /\ 0 <= offset <= img_realFilesize (cn_image c) /\ offset < img_virtualFilesize (cn_image c)
  /\ offset + size <= img_virtualFilesize (cn_image c) /\ locally c (decode_request (dnbd3_get_block offset size p 0)).

(** The connection after requests that were served. *)
Record still_served (c c' : connection) : Prop := StillServed {
  ss_served : served c' env;
  ss_image : cn_image c' = cn_image c;
  ss_local : forall r, locally c r -> locally c' r;
}.
Lemma read_ok_still c c' r : still_served c c' -> read_ok c r -> read_ok c' r.
Proof. intros [_ Hi Hl]. destruct r as [[p o] n]. unfold read_ok. rewrite Hi. intros (H1 & H2 & H3 & H4 & H5 & H6). apply Hl in H6. exact (conj H1 (conj H2 (conj H3 (conj H4 (conj H5 H6))))). Qed.
Lemma still_served_trans c1 c2 c3 : still_served c1 c2 -> still_served c2 c3 -> still_served c1 c3.
Proof. intros [? H1 ?] [? H2 ?]. split; [done|congruence|auto]. Qed.
(** A read that is in order gets the bytes of the file, and the connection stays. *)
Lemma serveOne_read handle c r rest : served c env -> net_works env -> read_ok c r ->
  exists c', serveOne false handle c (readBytes r ++ rest) = Ok (true, r.1.1, c', msgBytes (readMsg r)) /\ still_served c c'.
Proof.
  destruct r as [[p offset] size]. intros Hsv Hw (Hp & Hs & Ho & Hov & He & Hloc). pose proof (sv_virtual _ _ Hsv) as Hv.
  destruct (get_block_decoded p offset size) as (Hreq & Hmagic & Hcmd & Hsize & Hhandle & Hoff); [lia|done|done|].
  set (r := decode_request (dnbd3_get_block offset size p 0)) in *.
  unfold serveOne. cbn [readBytes]. pose proof (length_get_block offset size p) as Hlen.
  rewrite (take_app_exact _ _ _ Hlen). rewrite Hlen, Nat.eqb_refl.
  assert (recv_request_header [HdrFull (dnbd3_get_block offset size p 0)] = Some r) as ->.
  { unfold recv_request_header. cbn [recvHeader]. fold r. by rewrite Hmagic, Hcmd, Z.eqb_refl. }
  unfold handleRequest. rewrite Hcmd, Z.eqb_refl.
  destruct (get_block_local cfg env c r Hsv Hreq Hw Hloc) as (c1 & -> & _ & _ & Himg & _ & Hheld); [rewrite ?Hoff, ?Hsize; lia..|].
  cbn [mbind result_bind]. rewrite Hsize, Hhandle, Hoff. exists c1. split.
  - unfold msgBytes. cbn [readMsg m_cmd m_handle m_payload]. rewrite length_imageBytes, Z2Nat.id by (unfold in_u32 in Hs; lia). done.
  - split; [destruct Hsv; split; by rewrite ?Himg|done|]. intros r'. unfold locally. by rewrite Hheld.
Qed.
End Serve.
