(* ===== verification/FuseInit.v ===== *)
(** * FuseInit: how the FUSE client finds its first server ([src/fuse/connection.c])

    [connection_init] splits the list of hosts, fills the table of servers and starts a
    thread for each host until one of them has a connection.  Filling the table is a
    function of the text; connecting is a transition system of the main thread and any
    number of connecting threads, with an invariant that holds in every interleaving. *)

From Stdlib Require Import Ascii.
From stdpp Require Import relations.
From S2P Require Import Prelude Types Helper FileUtil FuseAlts.
Open Scope Z_scope.

(** ** The list of hosts *)

Definition isHostSep (c : ascii) : bool := Ascii.eqb c " " || Ascii.eqb c (ascii_of_N 9) || Ascii.eqb c LF.
(** The next host and what is behind it; a host of more than 99 characters is cut. *)
Definition nextHost (s : list ascii) : option (list ascii * list ascii) :=
  let '(h, rest) := span isHostSep (dropWhile isHostSep s) in
  match h with [] => None | _ => Some (take 99 h, rest) end.
(** The entries of [altservers] below [altIndex], and the one at [altIndex] if it was
    written but not counted. *)
Record host_table := HostTable { ht_hosts : list dnbd3_host_t; ht_extra : option dnbd3_host_t }.
Definition ht_all (t : host_table) : list dnbd3_host_t := ht_hosts t ++ option_list (ht_extra t).
Section Hosts.
(** [sock_resolveToDnbd3Host], whose addresses have a type; and whether the thread for a host is not needed or could be
    created. *)
Context (resolve : list ascii -> list dnbd3_host_t) (started : dnbd3_host_t -> bool).

(** The loop over the addresses of one host. *)
Fixpoint addHosts (hosts : list dnbd3_host_t) (t : host_table) : host_table :=
  match hosts with
  | [] => t
  | h :: hosts =>
      if (MAX_ALTS <=? length (ht_hosts t))%nat then t
      else if existsb (isSameAddress h) (ht_all t) then addHosts hosts t
      else addHosts hosts (if started h then HostTable (ht_hosts t ++ [h]) None else HostTable (ht_hosts t) (Some h))
  end.
(** The loop over the list. *)
Fixpoint hostLoop (fuel : nat) (s : list ascii) (t : host_table) : host_table :=
  match fuel with
  | O => t
  | S fuel =>
      match nextHost s with
      | None => t
      | Some (h, rest) =>
          let t := addHosts (resolve h) t in
          match rest with
          | [] => t
          | _ :: rest => if (length (ht_hosts t) <? MAX_ALTS)%nat then hostLoop fuel rest t else t
          end
      end
  end.
Definition initHosts (hosts : list ascii) : host_table := hostLoop (S (length hosts)) hosts (HostTable [] None).

(** *** The table that results *)

Definition ht_ok (t : host_table) : Prop :=
  (length (ht_hosts t) <= MAX_ALTS)%nat /\ (ht_extra t <> None -> (length (ht_hosts t) < MAX_ALTS)%nat)
  /\ base.NoDup (addrKey <$> ht_all t).

Lemma existsb_same h l : existsb (isSameAddress h) l = false -> addrKey h ∉ addrKey <$> l.
Proof.
  intros Hn Hin. apply list_elem_of_fmap in Hin as (x & E & Hx). apply isSameAddress_key in E.
  rewrite <- not_true_iff_false in Hn. apply Hn, existsb_exists. exists x. split; [by apply list_elem_of_In|done].
Qed.
Lemma ht_add_ok h t : ht_ok t -> (length (ht_hosts t) < MAX_ALTS)%nat -> existsb (isSameAddress h) (ht_all t) = false ->
  ht_ok (HostTable (ht_hosts t ++ [h]) None) /\ ht_ok (HostTable (ht_hosts t) (Some h)).
Proof.
  intros (Hl & He & Hd) Hlt Hn%existsb_same.
  assert (base.NoDup (addrKey <$> (ht_hosts t ++ [h]))) as Hd'.
  { unfold ht_all in Hd, Hn. rewrite fmap_app in *. apply list.NoDup_app in Hd as (Hd & _ & _). apply list.NoDup_app. split_and!; [done| |apply NoDup_singleton].
    intros x Hx ->%list_elem_of_singleton. apply Hn. apply elem_of_app. by left. }
  split; split_and!; cbn; rewrite ?length_app; cbn; try lia; unfold ht_all; cbn; by rewrite ?app_nil_r.
Qed.
Lemma addHosts_ok hosts : forall t, ht_ok t -> ht_ok (addHosts hosts t).
Proof.
  induction hosts as [|h hosts IH]; intros t Ht; [done|]. cbn [addHosts].
  destruct (Nat.leb_spec MAX_ALTS (length (ht_hosts t))) as [|Hlt]; [done|].
  destruct (existsb _ _) eqn:E; [by apply IH|]. destruct (ht_add_ok h t Ht Hlt E). apply IH. by destruct (started h).
Qed.
Lemma hostLoop_ok fuel : forall s t, ht_ok t -> ht_ok (hostLoop fuel s t).
Proof.
  induction fuel as [|fuel IH]; intros s t Ht; [done|]. cbn [hostLoop]. destruct (nextHost s) as [[h rest]|]; [|done].
  apply (addHosts_ok (resolve h)) in Ht. destruct rest as [|c rest]; [done|]. destruct (_ <? _)%nat; [by apply IH|done].
Qed.

(** The loop against the list of words *)

Lemma addHosts_full hosts t : (MAX_ALTS <= length (ht_hosts t))%nat -> addHosts hosts t = t.
Proof. intros Hf. destruct hosts; [done|]. cbn [addHosts]. by rewrite (proj2 (Nat.leb_le _ _) Hf). Qed.
Lemma addHosts_app l1 l2 : forall t, addHosts (l1 ++ l2) t = addHosts l2 (addHosts l1 t).
Proof.
  induction l1 as [|h l1 IH]; intros t; [done|]. cbn [addHosts app].
  destruct (Nat.leb_spec MAX_ALTS (length (ht_hosts t))) as [Hf|]; [by rewrite addHosts_full|].
  destruct (existsb _ _); apply IH.
Qed.
End Hosts.

(** The words of a text, the separators being blanks, tabs and line ends. *)
Definition flush (w : list ascii) : list (list ascii) := match w with [] => [] | _ => [w] end.
Fixpoint wordsFrom (w : list ascii) (s : list ascii) : list (list ascii) :=
  match s with
  | [] => flush w
  | c :: s => if isHostSep c then flush w ++ wordsFrom [] s else wordsFrom (w ++ [c]) s
  end.
Definition hostWords (s : list ascii) : list (list ascii) := wordsFrom [] s.

Lemma hostWords_dropSep s : hostWords (dropWhile isHostSep s) = hostWords s.
Proof. induction s as [|c s IH]; [done|]. cbn [dropWhile]. unfold hostWords at 2. cbn [wordsFrom flush app]. destruct (isHostSep c) eqn:E; [done|]. unfold hostWords. cbn [wordsFrom]. by rewrite E. Qed.
Lemma hostWords_span s : forall w, wordsFrom w s = let '(h, rest) := span isHostSep s in
  flush (w ++ h) ++ match rest with [] => [] | _ :: rest => hostWords rest end.
Proof.
  induction s as [|c s IH]; intros w; cbn [wordsFrom span]; [by rewrite !app_nil_r|].
  destruct (isHostSep c); [by rewrite app_nil_r|]. rewrite IH. destruct (span isHostSep s) as [h rest]. by rewrite <- app_assoc.
Qed.
Lemma span_shorter s : (length (snd (span isHostSep s)) <= length s)%nat.
Proof. induction s as [|c s IH]; cbn [span]; [done|]. destruct (isHostSep c); [done|]. destruct (span isHostSep s). cbn in *. lia. Qed.
Lemma dropSep_shorter s : (length (dropWhile isHostSep s) <= length s)%nat.
Proof. induction s as [|c s IH]; cbn [dropWhile]; [done|]. destruct (isHostSep c); cbn; lia. Qed.
Lemma hostLoop_hostWords resolve started fuel : forall s t, (length s < fuel)%nat ->
  hostLoop resolve started fuel s t = addHosts started (hostWords s ≫= (fun w => resolve (take 99 w))) t.
Proof.
  induction fuel as [|fuel IH]; intros s t Hf; [lia|]. cbn [hostLoop]. unfold nextHost.
  rewrite <- (hostWords_dropSep s). unfold hostWords. rewrite hostWords_span. cbn [app].
  pose proof (span_shorter (dropWhile isHostSep s)) as Hs. pose proof (dropSep_shorter s) as Hd.
  destruct (span isHostSep (dropWhile isHostSep s)) as [h rest] eqn:E. destruct h as [|c h].
  - destruct (dropWhile isHostSep s) as [|c r] eqn:Ed; cbn [span] in E; [by simplify_eq|].
    destruct (isHostSep c) eqn:Ec; [|destruct (span isHostSep r); done].
    exfalso. clear -Ed Ec. induction s as [|d s IHs]; [done|]. cbn [dropWhile] in Ed. destruct (isHostSep d) eqn:?; [by apply IHs|congruence].
  - cbn [flush app]. rewrite bind_cons, addHosts_app. destruct rest as [|d rest]; [done|]. cbn [snd length] in Hs.
    destruct (Nat.ltb_spec (length (ht_hosts (addHosts started (resolve (take 99 (c :: h))) t))) MAX_ALTS) as [|Hfull].
    + apply IH. lia.
    + symmetry. by apply addHosts_full.
Qed.

(** The table of servers [connection_init] fills is the one that the words of the list
    of hosts give when the addresses of each (cut to 99 characters) are added in order and an address that is there already or
    finds the table full is passed over; it has at most sixteen entries and no address twice, also when threads cannot be
    created. *)
Theorem initHosts_spec resolve started hosts :
  let t := initHosts resolve started hosts in
  t = addHosts started (hostWords hosts ≫= (fun w => resolve (take 99 w))) (HostTable [] None)
  /\ (length (ht_all t) <= MAX_ALTS)%nat /\ base.NoDup (addrKey <$> ht_all t).
Proof.
  cbn zeta. split; [apply hostLoop_hostWords; lia|].
  destruct (hostLoop_ok resolve started (S (length hosts)) hosts (HostTable [] None)) as (Hl & He & Hd); [|split; [|done]].
  - split_and!; cbn; [unfold MAX_ALTS; lia|done|apply NoDup_nil_2].
  - change (hostLoop resolve started _ _ _) with (initHosts resolve started hosts) in *. unfold ht_all. rewrite length_app.
    destruct (ht_extra _) as [x|].
    + change (length (option_list (Some x))) with 1%nat. specialize (He ltac:(done)). lia.
    + change (length (option_list None)) with 0%nat. lia.
Qed.

(** ** Connecting *)

(** [connection_init] after the lock is taken, with [todo] hosts to do ([MHost]), waiting for a thread
    ([MWait]), waiting at the end, and after giving the lock back ([MCheck]). *)
Inductive main_at := MLock (todo : nat) | MHost (todo : nat) | MWait (todo : nat) | MFinal | MFinalWait | MUnlock | MCheck | MDone (connected : bool).
(** [connectThread]: connecting and the handshake, the lock, the checks behind it, asking for servers,
    installing the connection; the exit behind [bailout] from [BClose] on. *)
Inductive conn_at := TNet | TLock | TCheck | TAlt | TInstall | TUnlock | BClose | BDec | BLock | BUnlock | TEnd.
Inductive holder := HMain | HThread (i : nat).
#[global] Instance main_at_eq_dec : EqDecision main_at.
Proof. solve_decision. Defined.
#[global] Instance conn_at_eq_dec : EqDecision conn_at.
Proof. solve_decision. Defined.
#[global] Instance holder_eq_dec : EqDecision holder.
Proof. solve_decision. Defined.

(** A thread: where it is, and whether it has no open socket of its own any more. *)
Record conn_thread := ConnThread { ct_at : conn_at; ct_closed : bool }.
(** [ci_sock] is the thread whose socket is installed, [ci_lock] who holds [mutexCondConn];
    [ci_learn] is [learnNewServers], [ci_altOk] says that asking for servers works. *)
Record conn_init := ConnInit {
  ci_learn : bool;
  ci_altOk : bool;
  ci_sock : option nat;
  ci_lock : option holder;
  ci_pending : nat;
  ci_main : main_at;
  ci_threads : list conn_thread;
}.
Definition ci_setSock (v : option nat) (s : conn_init) : conn_init := let 'ConnInit a b _ d e f g := s in ConnInit a b v d e f g.
Definition ci_setLock (v : option holder) (s : conn_init) : conn_init := let 'ConnInit a b c _ e f g := s in ConnInit a b c v e f g.
Definition ci_setPending (v : nat) (s : conn_init) : conn_init := let 'ConnInit a b c d _ f g := s in ConnInit a b c d v f g.
Definition ci_setMain (v : main_at) (s : conn_init) : conn_init := let 'ConnInit a b c d e _ g := s in ConnInit a b c d e v g.
Definition ci_setThreads (v : list conn_thread) (s : conn_init) : conn_init := let 'ConnInit a b c d e f _ := s in ConnInit a b c d e f v.
(** Taking [mutexCondConn] waits while anybody holds it, the caller included. *)
Definition lockCond (h : holder) (s : conn_init) : list conn_init :=
  match ci_lock s with None => [ci_setLock (Some h) s] | Some _ => [] end.
Definition connected (s : conn_init) : bool := bool_decide (ci_sock s <> None).

(** [pthread_cond_timedwait] gives the lock back and takes it again after a signal or when the time is over. *)
Definition connection_init (s : conn_init) : list conn_init :=
  match ci_main s with
  | MLock todo => ci_setMain (MHost todo) <$> lockCond HMain s
  | MHost O => [ci_setMain MFinal s]
  | MHost (S todo) =>
      if connected s then [ci_setMain (MHost todo) s]
      else [ci_setMain (MHost todo) s;    (* the thread could not be created *)
            ci_setMain (MWait todo) (ci_setLock None
              (ci_setThreads (ci_threads s ++ [ConnThread TNet false]) (ci_setPending (S (ci_pending s)) s)))]
  | MWait todo => ci_setMain (MHost todo) <$> lockCond HMain s
  | MFinal =>
      if negb (connected s) && (0 <? ci_pending s)%nat then [ci_setMain MFinalWait (ci_setLock None s)]
      else [ci_setMain MUnlock s]
  | MFinalWait => ci_setMain MUnlock <$> lockCond HMain s
  | MUnlock => [ci_setMain MCheck (ci_setLock None s)]
  | MCheck => [ci_setMain (MDone (connected s)) s]
  | MDone _ => []
  end.
(** [connectionInitDone], which is set in the last step of [connection_init]. *)
Definition connectionInitDone (s : conn_init) : bool := match ci_main s with MDone b => b | _ => false end.
Definition connectThread (i : nat) (s : conn_init) : list conn_init :=
  match ci_threads s !! i with
  | None => []
  | Some t =>
      let goto pc s := ci_setThreads (<[i := ConnThread pc (ct_closed t)]> (ci_threads s)) s in
      match ct_at t with
      | TNet => [goto TLock s; goto BClose s]
      | TLock => goto TCheck <$> lockCond (HThread i) s
      | TCheck =>
          if connected s || connectionInitDone s then [goto BClose (ci_setLock None s)]
          else [goto TAlt s]
      | TAlt => goto TInstall s :: (if ci_learn s && negb (ci_altOk s) then [goto BClose s] else [])
      | TInstall => [goto TUnlock (ci_setPending (Nat.pred (ci_pending s)) (ci_setSock (Some i) s))]
      | TUnlock => [goto TEnd (ci_setLock None s)]
      | BClose => [ci_setThreads (<[i := ConnThread BDec true]> (ci_threads s)) s]
      | BDec => [goto (if (ci_pending s =? 1)%nat then BLock else TEnd) (ci_setPending (Nat.pred (ci_pending s)) s)]
      | BLock => goto BUnlock <$> lockCond (HThread i) s
      | BUnlock => [goto TEnd (ci_setLock None s)]
      | TEnd => []
      end
  end.
Inductive ci_step (s s' : conn_init) : Prop :=
| step_main : s' ∈ connection_init s -> ci_step s s'
| step_thread i : s' ∈ connectThread i s -> ci_step s s'.
Definition ci_start (learn altOk : bool) (hosts : nat) : conn_init := ConnInit learn altOk None None 0 (MLock hosts) [].

(** *** The invariant *)

Definition holdsT (pc : conn_at) : bool := match pc with TCheck | TAlt | TInstall | TUnlock | BUnlock => true | _ => false end.
Definition holdsM (m : main_at) : bool := match m with MHost _ | MFinal | MUnlock => true | _ => false end.
(** The attempts that [pendingConnectionAttempts] counts. *)
Definition counts (t : conn_thread) : bool :=
  match ct_at t with TNet | TLock | TCheck | TAlt | TInstall | BClose | BDec => true | _ => false end.
Definition threadOk (sock : option nat) (lock : option holder) (i : nat) (t : conn_thread) : Prop :=
  (lock = Some (HThread i) <-> holdsT (ct_at t) = true)
  /\ match ct_at t with
     | TNet | TLock | TCheck | BClose => sock <> Some i /\ ct_closed t = false
     | TAlt | TInstall => sock = None /\ ct_closed t = false
     | TUnlock => sock = Some i /\ ct_closed t = false
     | BDec | BLock | BUnlock => sock <> Some i /\ ct_closed t = true
     | TEnd => ct_closed t = bool_decide (sock <> Some i)
     end.
Definition pendingOf (ts : list conn_thread) : nat := sum_list_with (fun t => Nat.b2n (counts t)) ts.
Record ci_inv (s : conn_init) : Prop := CiInv {
  ii_main : ci_lock s = Some HMain <-> holdsM (ci_main s) = true;
  ii_threads : forall i t, ci_threads s !! i = Some t -> threadOk (ci_sock s) (ci_lock s) i t;
  ii_lock : forall i, ci_lock s = Some (HThread i) -> is_Some (ci_threads s !! i);
  ii_sock : forall i, ci_sock s = Some i -> is_Some (ci_threads s !! i);
  ii_pending : ci_pending s = pendingOf (ci_threads s);
  ii_done : forall b, ci_main s = MDone b -> b = true -> ci_sock s <> None;
}.

Lemma sum_insert {A} (f : A -> nat) (l : list A) : forall i x y, l !! i = Some x ->
  (sum_list_with f (<[i := y]> l) + f x = sum_list_with f l + f y)%nat.
Proof. induction l as [|z l IH]; intros [|i] x y; cbn; [done..|intros [= ->]; lia|]. intros H. rewrite <- !Nat.add_assoc. f_equal. exact (IH i x y H). Qed.

(** A step of thread [i] leaves the others as they are. *)
Lemma inv_thread s i t t' sock lock pending : ci_inv s -> ci_threads s !! i = Some t ->
  lock = ci_lock s \/ (ci_lock s = None /\ lock = Some (HThread i)) \/ (ci_lock s = Some (HThread i) /\ lock = None) ->
  sock = ci_sock s \/ (ci_sock s = None /\ sock = Some i /\ ci_lock s = Some (HThread i)) ->
  threadOk sock lock i t' -> (pending + Nat.b2n (counts t) = ci_pending s + Nat.b2n (counts t'))%nat ->
  ci_inv (ConnInit (ci_learn s) (ci_altOk s) sock lock pending (ci_main s) (<[i := t']> (ci_threads s))).
Proof.
  intros [Hm Ht Hl Hs Hp Hd] Hi Hlock Hsock Hok Hpend.
  assert (forall j, j <> i -> lock = Some (HThread j) <-> ci_lock s = Some (HThread j)) as Hlj by (intros; intuition congruence).
  assert (is_Some (<[i := t']> (ci_threads s) !! i)) as Hin by (rewrite list_lookup_insert_eq; [done|by eapply lookup_lt_Some]).
  split; cbn.
  - rewrite <- Hm. clear Hm. split; intuition congruence.
  - intros j u Hj. destruct (decide (j = i)) as [->|Hne].
    { rewrite list_lookup_insert_eq in Hj by (by eapply lookup_lt_Some). by simplify_eq. }
    rewrite list_lookup_insert_ne in Hj by done. specialize (Ht j u Hj) as [H1 H2]. split; [rewrite Hlj; done|].
    destruct Hsock as [->|(H0 & -> & Hli)]; [done|]. rewrite H0 in H2.
    assert (holdsT (ct_at u) = false) as Hno by (apply not_true_iff_false; rewrite <- H1; congruence).
    destruct (ct_at u); cbn in Hno; try done; try (destruct H2; split; congruence).
    rewrite H2. rewrite !bool_decide_eq_true_2 by congruence. done.
  - intros j Hj. destruct (decide (j = i)) as [->|Hne]; [done|]. rewrite list_lookup_insert_ne by done. by apply Hl, Hlj.
  - intros j Hj. destruct (decide (j = i)) as [->|Hne]; [done|]. rewrite list_lookup_insert_ne by done. apply Hs. intuition congruence.
  - unfold pendingOf in *. pose proof (sum_insert (fun t => Nat.b2n (counts t)) _ i t t' Hi). cbn in *. lia.
  - intros b Hb Ht'. specialize (Hd b Hb Ht'). intuition congruence.
Qed.

Lemma inv_main s main lock : ci_inv s -> (lock = ci_lock s \/ (ci_lock s = None /\ lock = Some HMain) \/ (ci_lock s = Some HMain /\ lock = None)) ->
  (lock = Some HMain <-> holdsM main = true) -> (forall b, main = MDone b -> b = connected s) -> ci_inv (ci_setMain main (ci_setLock lock s)).
Proof.
  intros [Hm Ht Hl Hs Hp Hd] Hlock Hh Hdone. destruct s as [learn altOk sock lock0 pending m ts]; cbn in *.
  assert (forall j, lock = Some (HThread j) <-> lock0 = Some (HThread j)) as Hlj by (intros; intuition congruence).
  split; cbn; try done.
  - intros j u Hj. destruct (Ht j u Hj) as [H1 H2]. split; [by rewrite Hlj|done].
  - intros j Hj. by apply Hl, Hlj.
  - intros b Hb ->. specialize (Hdone _ Hb). unfold connected in Hdone. cbn in Hdone. symmetry in Hdone. by apply bool_decide_eq_true in Hdone.
Qed.
Lemma setLock_same s : ci_setLock (ci_lock s) s = s.
Proof. by destruct s. Qed.
Lemma lockCond_elem h s s' : s' ∈ lockCond h s -> ci_lock s = None /\ s' = ci_setLock (Some h) s.
Proof. unfold lockCond. destruct (ci_lock s); [by intros ?%elem_of_nil|]. by intros ->%list_elem_of_singleton. Qed.
Lemma inv_spawn s todo : ci_inv s -> ci_lock s = Some HMain ->
  ci_inv (ci_setMain (MWait todo) (ci_setLock None
    (ci_setThreads (ci_threads s ++ [ConnThread TNet false]) (ci_setPending (S (ci_pending s)) s)))).
Proof.
  intros [Hm Ht Hl Hs Hp Hd] Hlock. destruct s as [learn altOk sock lock pending m ts]; cbn in *. split; cbn; try done.
  - intros j u Hj. apply lookup_app_Some in Hj as [Hj|[Hlen Hj]].
    + destruct (Ht j u Hj) as [H1 H2]. split; [|done]. rewrite <- H1. split; congruence.
    + apply list_lookup_singleton_Some in Hj as [? <-]. split; [done|]. cbn. split; [|done]. intros Hsock.
      apply Hs, lookup_lt_is_Some in Hsock. lia.
  - intros j Hj. apply lookup_lt_is_Some. rewrite length_app. specialize (Hs j Hj). apply lookup_lt_is_Some in Hs. lia.
  - unfold pendingOf in *. rewrite sum_list_with_app. cbn. lia.
Qed.
Lemma connection_init_inv s s' : ci_inv s -> s' ∈ connection_init s -> ci_inv s'.
Proof.
  intros Hinv. pose proof (ii_main _ Hinv) as Hm. unfold connection_init.
  assert (forall main, holdsM main = holdsM (ci_main s) -> (forall b, main = MDone b -> b = connected s) -> ci_inv (ci_setMain main s)) as Hstay.
  { intros main Hh Hd. rewrite <- (setLock_same s). apply inv_main; [done|by left|by rewrite Hh|done]. }
  assert (forall main, holdsM main = true -> forall x, x ∈ lockCond HMain s -> ci_inv (ci_setMain main x)) as Htake.
  { intros main Hh x [Hl ->]%lockCond_elem. apply inv_main; [done|by right; left|done|by destruct main]. }
  assert (forall main, holdsM (ci_main s) = true -> holdsM main = false -> (forall b, main <> MDone b) -> ci_inv (ci_setMain main (ci_setLock None s))) as Hgive.
  { intros main Hh Hn Hd. apply inv_main; [done|right; right; split; [by apply Hm|done]|by rewrite Hn|]. intros b Hb. by destruct (Hd b). }
  destruct (ci_main s) as [n|[|n]|n| | | | |b] eqn:E; cbn [holdsM] in *; rewrite ?list_elem_of_fmap.
  - intros (x & -> & Hx). by eapply Htake.
  - intros ->%list_elem_of_singleton. by apply Hstay.
  - destruct (connected s); [intros ->%list_elem_of_singleton; by apply Hstay|].
    intros [-> | ->%list_elem_of_singleton]%elem_of_cons; [by apply Hstay|]. apply inv_spawn; [done|by apply Hm].
  - intros (x & -> & Hx). by eapply Htake.
  - destruct (_ && _); intros ->%list_elem_of_singleton; [by apply Hgive|by apply Hstay].
  - intros (x & -> & Hx). by eapply Htake.
  - intros ->%list_elem_of_singleton. by apply Hgive.
  - intros ->%list_elem_of_singleton. apply Hstay; [done|]. by intros b [= <-].
  - by intros ?%elem_of_nil.
Qed.

(** Of the ways out only the one with the lock held breaks the invariant. *)
Lemma connectThread_inv i s s' : ci_learn s = false \/ ci_altOk s = true -> ci_inv s -> s' ∈ connectThread i s -> ci_inv s'.
Proof.
  intros Halt Hinv. unfold connectThread. destruct (ci_threads s !! i) as [t|] eqn:Hi; [|by intros ?%elem_of_nil].
  pose proof (ii_threads _ Hinv i t Hi) as [Hl Hc]. pose proof (ii_pending _ Hinv) as Hp.
  assert (forall t' sock lock pending,
    lock = ci_lock s \/ (ci_lock s = None /\ lock = Some (HThread i)) \/ (ci_lock s = Some (HThread i) /\ lock = None) ->
    sock = ci_sock s \/ (ci_sock s = None /\ sock = Some i /\ ci_lock s = Some (HThread i)) ->
    threadOk sock lock i t' -> (pending + Nat.b2n (counts t) = ci_pending s + Nat.b2n (counts t'))%nat ->
    ci_inv (ConnInit (ci_learn s) (ci_altOk s) sock lock pending (ci_main s) (<[i := t']> (ci_threads s)))) as Hmv
    by (intros; by eapply inv_thread).
  assert (counts t = true -> 0 < ci_pending s)%nat as Hpos.
  { intros Hct. pose proof (sum_insert (fun t => Nat.b2n (counts t)) _ i t (ConnThread TEnd true) Hi) as Hsum. cbn in Hsum. rewrite Hct in Hsum.
    unfold pendingOf in Hp. cbn in Hsum. lia. }
  destruct s as [learn altOk sock lock pending m ts]; destruct t as [pc closed]; cbn in *.
  destruct pc; cbn in *; rewrite ?list_elem_of_fmap.
  - intros [-> | ->%list_elem_of_singleton]%elem_of_cons; apply Hmv; by auto.
  - intros (x & -> & [Hn ->]%lockCond_elem). cbn in *. apply Hmv; by auto.
  - assert (lock = Some (HThread i)) as -> by by apply Hl.
    destruct (connected _ || _) eqn:Econn; intros ->%list_elem_of_singleton; apply Hmv; auto; [done|].
    split; [done|]. apply orb_false_iff in Econn as [Hn%bool_decide_eq_false _]. cbn in *. destruct sock; [by destruct Hn|]. by destruct Hc.
  - intros [-> | Hs']%elem_of_cons; [apply Hmv; by auto|].
    destruct (learn && negb altOk) eqn:E; [|by apply elem_of_nil in Hs']. destruct Halt as [-> | ->]; [done|by rewrite andb_false_r in E].
  - intros ->%list_elem_of_singleton. destruct Hc as [-> ->]. specialize (Hpos eq_refl). apply Hmv; [by left| |done|cbn; lia].
    right. split_and!; [done..|by apply Hl].
  - intros ->%list_elem_of_singleton. destruct Hc as [-> ->]. apply Hmv; auto; [right; right; split; [by apply Hl|done]|].
    split; [done|]. cbn. by rewrite bool_decide_eq_false_2 by auto.
  - intros ->%list_elem_of_singleton. destruct Hc as [Hc ->]. apply Hmv; by auto.
  - intros ->%list_elem_of_singleton. destruct Hc as [Hc ->]. specialize (Hpos eq_refl). destruct (Nat.eqb_spec pending 1) as [->|].
    + apply Hmv; by auto.
    + apply Hmv; auto; [|cbn; lia]. split; [done|]. cbn. by rewrite bool_decide_eq_true_2.
  - intros (x & -> & [Hn ->]%lockCond_elem). cbn in *. apply Hmv; by auto.
  - intros ->%list_elem_of_singleton. destruct Hc as [Hc ->]. apply Hmv; auto; [right; right; split; [by apply Hl|done]|].
    split; [done|]. cbn. by rewrite bool_decide_eq_true_2.
  - by intros ?%elem_of_nil.
Qed.

(** *** Nobody waits for ever *)

(** How many steps are left at most; a host costs the steps of its thread. *)
Definition rankT (t : conn_thread) : nat :=
  match ct_at t with
  | TNet => 10 | TLock => 9 | TCheck => 8 | TAlt => 7 | TInstall => 6 | TUnlock => 5
  | BClose => 5 | BDec => 4 | BLock => 3 | BUnlock => 2 | TEnd => 0
  end.
Definition rankM (m : main_at) : nat :=
  match m with
  | MLock n => 20 * n + 8 | MHost n => 20 * n + 6 | MWait n => 20 * n + 7
  | MFinal => 5 | MFinalWait => 4 | MUnlock => 3 | MCheck => 2 | MDone _ => 0
  end.
Definition ci_rank (s : conn_init) : nat := rankM (ci_main s) + sum_list_with rankT (ci_threads s).
Definition ci_finished (s : conn_init) : Prop :=
  (exists b, ci_main s = MDone b) /\ forall i t, ci_threads s !! i = Some t -> ct_at t = TEnd.

Lemma ci_step_rank s s' : ci_step s s' -> (ci_rank s' < ci_rank s)%nat.
Proof.
  unfold ci_rank. intros [Hm|i Ht].
  - destruct s as [learn altOk sock lock pending m ts]. unfold connection_init in Hm. cbn in Hm.
    destruct m as [n|[|n]|n| | | | |b]; rewrite ?list_elem_of_fmap in Hm.
    all: try (destruct Hm as (x & -> & [_ ->]%lockCond_elem); cbn; lia).
    all: repeat case_match; rewrite ?elem_of_cons, ?elem_of_nil in Hm; intuition (subst; cbn; rewrite ?sum_list_with_app; cbn; lia).
  - unfold connectThread in Ht. destruct (ci_threads s !! i) as [t|] eqn:Hi; [|by apply elem_of_nil in Ht].
    destruct s as [learn altOk sock lock pending m ts], t as [pc closed]; cbn in *.
    assert (forall t', (rankT t' < rankT (ConnThread pc closed))%nat ->
      (rankM m + sum_list_with rankT (<[i := t']> ts) < rankM m + sum_list_with rankT ts)%nat) as Hd.
    { intros t' Hlt. pose proof (sum_insert rankT ts i _ t' Hi). lia. }
    destruct pc; rewrite ?list_elem_of_fmap in Ht.
    all: try (destruct Ht as (x & -> & [_ ->]%lockCond_elem); cbn; apply Hd; cbn; lia).
    all: repeat case_match; rewrite ?elem_of_cons, ?elem_of_nil in Ht; intuition (subst; cbn; apply Hd; cbn; lia).
Qed.

Lemma elem_head {A} (x : A) l : x ∈ x :: l.
Proof. apply list_elem_of_here. Qed.
Lemma main_free s : (forall b, ci_main s <> MDone b) -> holdsM (ci_main s) = true \/ ci_lock s = None -> exists s', s' ∈ connection_init s.
Proof.
  intros Hd Hfree. unfold connection_init, lockCond. destruct (ci_main s) as [n|[|n]|n| | | | |b]; cbn in Hfree.
  all: try (destruct Hfree as [?| ->]; [done|eexists; cbn; apply elem_head]).
  all: try (eexists; apply elem_head).
  - destruct (connected s); eexists; apply elem_head.
  - destruct (_ && _); eexists; apply elem_head.
  - by destruct (Hd b).
Qed.
Lemma thread_free s i t : ci_threads s !! i = Some t -> ct_at t <> TEnd -> holdsT (ct_at t) = true \/ ci_lock s = None ->
  exists s', s' ∈ connectThread i s.
Proof.
  intros Hi Hd Hfree. unfold connectThread, lockCond. rewrite Hi. destruct (ct_at t); cbn in Hfree.
  all: try (destruct Hfree as [?| ->]; [done|eexists; cbn; apply elem_head]).
  all: try (eexists; apply elem_head).
  - destruct (_ || _); eexists; apply elem_head.
  - by destruct Hd.
Qed.
Lemma ci_progress s : ci_inv s -> ~ ci_finished s -> exists s', ci_step s s'.
Proof.
  intros Hinv Hnf. destruct (ci_lock s) as [[|i]|] eqn:El.
  - assert (holdsM (ci_main s) = true) as Hh by by apply (ii_main _ Hinv).
    destruct (main_free s) as [s' Hs']; [by intros b Hb; rewrite Hb in Hh|by left|]. exists s'. by apply step_main.
  - destruct (ii_lock _ Hinv i El) as [t Hi]. destruct (ii_threads _ Hinv i t Hi) as [Hh%proj1 _]. specialize (Hh El).
    destruct (thread_free s i t Hi) as [s' Hs']; [by intros Hb; rewrite Hb in Hh|by left|]. exists s'. by apply (step_thread _ _ i).
  - destruct (decide (Exists (fun t => ct_at t <> TEnd) (ci_threads s))) as [He|Hne].
    + apply list.Exists_exists in He as (t & [i Hi]%list_elem_of_lookup & Hd).
      destruct (thread_free s i t Hi Hd) as [s' Hs']; [by right|]. exists s'. by apply (step_thread _ _ i).
    + destruct (main_free s) as [s' Hs']; [|by right|exists s'; by apply step_main]. intros b Hb. apply Hnf. split; [by exists b|].
      intros i t Hi. destruct (decide (ct_at t = TEnd)); [done|]. destruct Hne. apply list.Exists_exists. exists t. split; [by eapply list_elem_of_lookup_2|done].
Qed.
Lemma ci_step_params s s' : ci_step s s' -> ci_learn s' = ci_learn s /\ ci_altOk s' = ci_altOk s.
Proof.
  destruct s as [learn altOk sock lock pending m ts]. intros [Hm|i Ht].
  - unfold connection_init in Hm. cbn in Hm. destruct m as [n|[|n]|n| | | | |b]; rewrite ?list_elem_of_fmap in Hm.
    all: try (destruct Hm as (x & -> & [_ ->]%lockCond_elem); done).
    all: repeat case_match; rewrite ?elem_of_cons, ?elem_of_nil in Hm; intuition (subst; done).
  - unfold connectThread in Ht. cbn in Ht. destruct (ts !! i) as [[pc closed]|]; [|by apply elem_of_nil in Ht].
    destruct pc; cbn [ct_at] in Ht; rewrite ?list_elem_of_fmap in Ht.
    all: try (destruct Ht as (x & -> & [_ ->]%lockCond_elem); done).
    all: repeat case_match; rewrite ?elem_of_cons, ?elem_of_nil in Ht; intuition (subst; done).
Qed.
Lemma ci_reach_inv learn altOk hosts s : learn = false \/ altOk = true -> rtc ci_step (ci_start learn altOk hosts) s ->
  ci_inv s.
Proof.
  intros Hok. assert (forall s0 s, rtc ci_step s0 s -> ci_learn s0 = learn -> ci_altOk s0 = altOk -> ci_inv s0 -> ci_inv s) as Hgen.
  { induction 1 as [|s0 s1 s2 Hst _ IH]; [done|]. intros Hl Ha Hinv. destruct (ci_step_params _ _ Hst) as [Hl' Ha'].
    apply IH; [congruence..|]. destruct Hst as [Hm|i Ht]; [by eapply connection_init_inv|].
    eapply connectThread_inv; [by rewrite Hl, Ha|done..]. }
  intros Hr. eapply Hgen; [done..|]. split; cbn; try done.
Qed.

(** C26. The start of the client, however the threads that connect to the servers are interleaved with [connection_init]
    and whichever attempts fail, under the condition that the request for other servers can be sent to the new server or is not wanted: every step brings
    the start closer to its end and some step is possible until everybody has returned; nobody is left waiting for the lock.
    A thread that has returned has either closed its socket or is the one whose socket is the connection, the
    function reports success only with a connection, and at the end the lock is free and no attempt is counted as pending.  If the request
    cannot be sent the lock is never given back ([connection_init_deadlock]). *)
Theorem connection_init_ends learn altOk hosts s : learn = false \/ altOk = true -> rtc ci_step (ci_start learn altOk hosts) s ->
  (forall s', ci_step s s' -> (ci_rank s' < ci_rank s)%nat)
  /\ (~ ci_finished s -> exists s', ci_step s s')
  /\ (forall i t, ci_threads s !! i = Some t -> ct_at t = TEnd -> ct_closed t = false <-> ci_sock s = Some i)
  /\ (ci_main s = MDone true -> ci_sock s <> None)
  /\ (ci_finished s -> ci_lock s = None /\ ci_pending s = 0%nat).
Proof.
  intros Hok Hinv%ci_reach_inv; [|done]. split_and!.
  - apply ci_step_rank.
  - by apply ci_progress.
  - intros i t Hi Hend. destruct (ii_threads _ Hinv i t Hi) as [_ Hc]. rewrite Hend in Hc. rewrite Hc. rewrite bool_decide_eq_false.
    destruct (decide (ci_sock s = Some i)); naive_solver.
  - intros Hd. by apply (ii_done _ Hinv true).
  - intros [[b Hb] Hall]. split.
    + destruct (ci_lock s) as [[|i]|] eqn:El; [|exfalso..|done].
      * apply (ii_main _ Hinv) in El. by rewrite Hb in El.
      * destruct (ii_lock _ Hinv i El) as [t Hi]. destruct (ii_threads _ Hinv i t Hi) as [Hh _]. apply Hh in El. by rewrite (Hall i t Hi) in El.
    + rewrite (ii_pending _ Hinv). unfold pendingOf. assert (Forall (fun t => ct_at t = TEnd) (ci_threads s)) as Hf by by apply Forall_lookup.
      clear -Hf. induction Hf as [|t l Ht _ IH]; [done|]. cbn. unfold counts at 1. by rewrite Ht.
Qed.
(** A schedule: who takes the next step, and which of the possible outcomes it has. *)
Fixpoint ci_run (sched : list (option nat * nat)) (s : conn_init) : conn_init :=
  match sched with
  | [] => s
  | (w, k) :: sched =>
      match (match w with None => connection_init s | Some i => connectThread i s end) !! k with
      | Some s' => ci_run sched s'
      | None => s
      end
  end.
Lemma ci_run_reach sched : forall s, rtc ci_step s (ci_run sched s).
Proof.
  induction sched as [|[w k] sched IH]; intros s; [done|]. cbn. destruct w as [i|]; destruct (_ !! k) as [s'|] eqn:E; try done.
  - eapply rtc_l; [|apply IH]. apply (step_thread _ _ i). by eapply list_elem_of_lookup_2.
  - eapply rtc_l; [|apply IH]. apply step_main. by eapply list_elem_of_lookup_2.
Qed.
(** Two hosts: the first thread fails, the second connects. *)
Definition demo_init : conn_init := ci_run
  [(None, 0); (None, 1); (Some 0, 1); (None, 0); (None, 1); (Some 1, 0); (Some 0, 0); (Some 1, 0); (Some 1, 0); (Some 0, 0);
   (Some 1, 0); (Some 1, 0); (Some 1, 0); (None, 0); (None, 0); (None, 0); (None, 0); (None, 0)]%nat (ci_start true true 2).
Lemma connection_init_ends_witness :
  ci_main demo_init = MDone true /\ ci_sock demo_init = Some 1%nat /\ ci_lock demo_init = None /\ ci_pending demo_init = 0%nat.
Proof.
  split; [vm_compute; reflexivity|]. split; [vm_compute; reflexivity|].
  destruct (connection_init_ends true true 2 demo_init) as (_ & _ & _ & _ & H); [by right|apply ci_run_reach|].
  apply H. split; [exists true; vm_compute; reflexivity|].
  intros [|[|i]] t E; vm_compute in E; [injection E as <-; reflexivity|injection E as <-; reflexivity|discriminate].
Defined.
(** If the request for other servers cannot be sent the thread leaves without giving the
    lock back: with one host the thread then waits for itself, and [connection_init] never returns. *)
Theorem connection_init_deadlock : exists s, rtc ci_step (ci_start true false 1) s /\
  ~ ci_finished s /\ (forall b, ci_main s <> MDone b) /\ forall s', ~ ci_step s s'.
Proof.
  exists (ci_run [(None, 0); (None, 1); (Some 0, 0); (Some 0, 0); (Some 0, 0); (Some 0, 1); (Some 0, 0); (Some 0, 0)]%nat (ci_start true false 1)).
  split; [apply ci_run_reach|]. vm_compute. split_and!.
  - intros [[b Hb] _]. discriminate.
  - discriminate.
  - intros s' [Hm|i Ht].
    + by apply elem_of_nil in Hm.
    + unfold connectThread in Ht. destruct i as [|i]; vm_compute in Ht; by apply elem_of_nil in Ht.
Qed.
