(* ===== verification/UplinkMain.v ===== *)
(** * UplinkMain: the uplink thread ([src/server/uplink.c])

    [uplink_init] creates an uplink and starts its thread; [uplink_mainloop] switches to
    the server the round-trip check has found, relays requests, receives replies, replicates in
    the background and starts new checks, until it is told to stop or the image is complete.
    The operations are those of [Uplink], [UplinkIO], [Replication] and [AltCheck]; this
    file composes them the way the thread does.

    A turn of the loop is a function of what [poll], the sockets and the clock return
    in it ([turn_in]).  What it does outside the uplink is a list of [action]s. *)

From S2P Require Import Prelude Timing Types CacheMap Crc32 ImageCrc Wire Uplink UplinkIO UplinkTrace Replication AltServers AltCheck.
Open Scope Z_scope.

Definition SERVER_UPLINK_KEEPALIVE_INTERVAL : Z := 10.
Definition SERVER_RTT_INTERVAL_INIT : Z := 5.
Definition SERVER_RTT_INTERVAL_MAX : Z := 45.
Definition SERVER_RTT_MAX_UNREACH : Z := 10.
Definition SERVER_RTT_INTERVAL_FAILED : Z := 180.

(** ** Starting an uplink *)

(** What the calls made by [uplink_init] return: [_isProxy], [_shutdown], whether there is
    a server for the image, whether the image has an uplink, and whether the signal and the
    thread could be created. *)
Record init_env := InitEnv {
  ie_isProxy : bool;
  ie_shutdown : bool;
  ie_hasAltServers : bool;
  ie_existing : bool;
  ie_signal : bool;
  ie_thread : bool;
}.
(** The sockets and files [freeUplinkStruct] closes. *)
Definition openFds (l : list Z) : list Z := filter (fun fd => fd <> -1) l.
Definition freeUplinkStruct (u : dnbd3_uplink_t) : result (list Z) :=
  _ ← assert_ (up_queueLen u =? 0);
  Ok (openFds [conn_fd (up_current u); conn_fd (up_better u); up_cacheFd u]).
(** The struct as [calloc] and the assignments before [signal_new] leave it: the file
    descriptors of the connections are 0. *)
Definition newUplink (image : dnbd3_image_t) : dnbd3_uplink_t :=
  Uplink (Conn 0 0 0) (Conn 0 0 0) 0 (-1) [] false false false 0 0 0 (SERVER_UPLINK_IDLE_TIMEOUT - 90) [] 0 image.
Definition set_init_problems (i : dnbd3_image_t) : dnbd3_image_t :=
  set_problem_queue false (set_problem_write true (set_problem_uplink true i)).
(** The connections as [uplink_init] sets them: a socket that is passed becomes [better]. *)
Definition initConnections (alts : list dnbd3_alt_server_t) (sock : Z) (host : dnbd3_host_t) (version : Z) (u : dnbd3_uplink_t)
  : dnbd3_uplink_t :=
  let index := altservers_hostToIndex alts host in
  let better := if sock =? -1 then Conn (-1) 0 0 else Conn sock version (if index =? -1 then 0 else index) in
  let u := up_set_current u (Conn (-1) 0 0) 0 (set_init_problems (up_image u)) in
  up_set_rtt better (if sock =? -1 then RTT_IDLE else RTT_DOCHANGE) false u.
Record init_result := InitResult { ir_ok : bool; ir_uplink : option dnbd3_uplink_t; ir_closed : list Z }.
(** The result, the uplink whose thread was started, and what was closed. *)
Definition uplink_init (e : init_env) (alts : list dnbd3_alt_server_t) (image : dnbd3_image_t) (sock : Z) (host : dnbd3_host_t) (version : Z)
  : result init_result :=
  if negb (ie_isProxy e) || ie_shutdown e then Ok (InitResult false None [])
  else if (sock =? -1) && negb (ie_hasAltServers e) then Ok (InitResult false None [])
  else if ie_existing e then Ok (InitResult true None (openFds [sock]))
  else if bool_decide (img_cacheMap image = None) then Ok (InitResult false None [])
  else
    let u := newUplink image in
    if negb (ie_signal e) then closed ← freeUplinkStruct u; Ok (InitResult false None closed)
    else
      let u := initConnections alts sock host version u in
      if negb (ie_thread e) then closed ← freeUplinkStruct u; Ok (InitResult false None closed)
      else Ok (InitResult true (Some u) []).
(** [loadImageProxy] hands the socket of the server it copied the image from to the
    uplink, and closes it if there is none. *)
Definition startUplink (e : init_env) (alts : list dnbd3_alt_server_t) (image : dnbd3_image_t) (sock : Z) (host : dnbd3_host_t) (version : Z)
  : result init_result :=
  r ← uplink_init e alts image sock host version;
  Ok (InitResult (ir_ok r) (ir_uplink r) (ir_closed r ++ if ir_ok r then [] else [sock])).

(** ** The checksum list of the server *)

(** [dnbd3_get_crc32]: whether the request was sent, the header of the reply and the bytes
    behind it.  [None] is failure, [Some None] a server that has no list. *)
Definition dnbd3_get_crc32 (sent : bool) (reply : option (Z * Z)) (stream : list Z) (bufferLen : Z) : option (option (Z * list Z)) :=
  if negb sent then None
  else match reply with
  | None => None
  | Some (cmd, size) =>
      if size =? 0 then Some None
      else if size <? 4 then None
      else if negb (cmd =? CMD_GET_CRC32) || (bufferLen <? size - 4) then None
      else if Z.of_nat (length stream) <? size then None
      else Some (Some (le_val (take 4 stream), take (Z.to_nat (size - 4)) (drop 4 stream)))
  end.
Definition img_set_crc32 (list : option (list Z)) (master : Z) (i : dnbd3_image_t) : dnbd3_image_t :=
  Image (img_path i) (img_name i) (img_cacheMap i) (img_virtualFilesize i) (img_realFilesize i)
    (img_atime i) (img_nextCompletenessEstimate i) list master (img_readFd i)
    (img_completenessEstimate i) (img_users i) (img_id i) (img_problem i) (img_rid i) (img_accessed i).
(** [junk] is what [malloc] leaves in the part of the buffer the reply does not fill.  The
    second result is what is written to the checksum file. *)
Definition requestCrc32List (pclmul : bool) (addr junk : Z) (sent : bool) (reply : option (Z * Z)) (stream : list Z) (u : dnbd3_uplink_t)
  : dnbd3_uplink_t * option (list Z) :=
  let image := up_image u in
  if img_virtualFilesize image =? 0 then (u, None)
  else
    let bytes := IMGSIZE_TO_HASHBLOCKS (img_virtualFilesize image) * 4 in
    match dnbd3_get_crc32 sent reply stream bytes with
    | None => (up_set_image u (set_problem_uplink true image), None)
    | Some None | Some (Some (_, [])) => (u, None)
    | Some (Some (masterCrc, buffer)) =>
        if negb (crc32 pclmul addr (crc32 pclmul addr 0 None) (Some buffer) =? masterCrc) then (u, None)
        else
          let list := words (Z.to_nat (bytes / 4)) (buffer ++ replicate (Z.to_nat bytes - length buffer) junk) in
          (up_set_image u (img_set_crc32 (Some list) masterCrc image), Some (le_bytes 4 masterCrc ++ buffer))
    end.

(** ** One turn of the main loop *)

Inductive poll_event := EvNone | EvIn | EvErr.
(** What the thread does to the rest of the world, in order. *)
Inductive action :=
| Sends (l : list packet)
| AsksCrc
| WritesCrc (bytes : list Z)
| SendsKeepalive
| Answers (l : list answer)
| CloseFd (fd : Z)
| ServerFailed (index : Z)
| StartsCheck.
(** What happens in a turn: whether [poll] succeeded and which events it reports, [_shutdown]
    after [poll] and after receiving, the clock, which sends succeed, what the server answers, and the table
    of servers; [isCurrent] says that the image's uplink is still this one. *)
Record turn_in := TurnIn {
  ti_pollOk : bool;
  ti_signal : poll_event;
  ti_socket : poll_event;
  ti_stop : bool;
  ti_stopLate : bool;
  ti_now : ticks;
  ti_send : packet -> bool;
  ti_sendAll : list packet -> bool;
  ti_keepalive : bool;
  ti_crcSent : bool;
  ti_crcReply : option (Z * Z);
  ti_crcStream : list Z;
  ti_world : world;
  ti_input : list (recv * list wres);
  ti_alts : list dnbd3_alt_server_t;
  ti_isCurrent : bool;
}.
(** The uplink, the image file and the variables of [uplink_mainloop]. *)
Record main_t := Main {
  m_up : dnbd3_uplink_t;
  m_file : UplinkIO.file;
  m_altCheckInterval : Z;
  m_discoverFailCount : Z;
  m_nextAltCheck : ticks;
  m_lastKeepalive : ticks;
}.
Definition m_set_up (u : dnbd3_uplink_t) (m : main_t) : main_t :=
  Main u (m_file m) (m_altCheckInterval m) (m_discoverFailCount m) (m_nextAltCheck m) (m_lastKeepalive m).

(** The time to wait in [poll], in milliseconds. *)
Definition pollTimeout (now : ticks) (m : main_t) : Z :=
  if up_rttTestResult (m_up m) =? RTT_DOCHANGE then 0
  else
    let waitTime := i32 (timing_diffMs now (m_nextAltCheck m)) in
    if waitTime <? 100 then 100 else if 10000 <? waitTime then 10000 else waitTime.

Section Turn.
Context (cfg : config) (pclmul : bool) (addr junk : Z) (ti : turn_in).

(** [connectionFailed] with what it closes and starts. *)
Definition dropConnection (u : dnbd3_uplink_t) : result (dnbd3_uplink_t * list action) :=
  let c := up_current u in
  if conn_fd c =? -1 then Ok (u, [])
  else
    let '(u, search) := connectionFailed cfg u true in
    started ← (if search then altservers_findUplinkAsync (ti_alts ti) u (ti_isCurrent ti) else Ok false);
    Ok (u, [ServerFailed (conn_index c); CloseFd (conn_fd c)] ++ (if (started : bool) then [StartsCheck] else [])).
(** The first assignments when the round-trip check says to switch. *)
Definition takeBetter (u : dnbd3_uplink_t) : dnbd3_uplink_t :=
  let better := up_better u in
  let u := up_set_current u better (up_nextReplicationIndex u) (set_problem_uplink false (up_image u)) in
  let u := up_set_rtt (Conn (-1) (conn_version better) (conn_index better)) RTT_IDLE false u in
  up_set_replication u false (up_nextReplicationIndex u) (up_queueId u).
Definition switchServer (m : main_t) : result (main_t * list action) :=
  let u := m_up m in
  if negb (up_rttTestResult u =? RTT_DOCHANGE) then Ok (m, [])
  else
    let closed := CloseFd <$> openFds [conn_fd (up_current u)] in
    let u := takeBetter u in
    let '(u, crc) :=
      if bool_decide (img_crc32 (up_image u) = None)
      then let '(u, written) := requestCrc32List pclmul addr junk (ti_crcSent ti) (ti_crcReply ti) (ti_crcStream ti) u in
           (u, AsksCrc :: match written with Some b => [WritesCrc b] | None => [] end)
      else (u, []) in
    '(u, batches) ← sendQueuedRequests u false (ti_sendAll ti);
    '(_, u, sent) ← sendReplicationRequest cfg (ti_send ti) u;
    '(u, failed) ← (if pr_uplink (img_problem (up_image u)) then dropConnection u else Ok (u, []));
    Ok (Main u (m_file m) (m_altCheckInterval m) 0 (timing_set (ti_now ti) (m_altCheckInterval m)) (m_lastKeepalive m),
        closed ++ crc ++ (map Sends batches) ++ [Sends sent] ++ failed).
(** The signal; [true] ends the loop. *)
Definition handleSignal (m : main_t) : result (bool * main_t * list action) :=
  let u := m_up m in
  match ti_signal ti with
  | EvErr => Ok (true, m_set_up (up_set_image u (set_problem_uplink true (up_image u))) m, [])
  | EvIn =>
      if negb (conn_fd (up_current u) =? -1) then
        '(u, batches) ← sendQueuedRequests u true (ti_sendAll ti);
        Ok (false, m_set_up u m, map Sends batches)
      else if negb (up_queueLen u =? 0) then Ok (false, m_set_up (up_set_idle u 0 (up_nextReplicationIndex u)) m, [])
      else Ok (false, m, [])
  | EvNone => Ok (false, m, [])
  end.
(** What [handleReceive] does when it drops the connection. *)
Definition lostActs (c c' : dnbd3_server_connection_t) : list action :=
  if negb (conn_fd c =? -1) && (conn_fd c' =? -1) then [ServerFailed (conn_index c); CloseFd (conn_fd c)] else [].
(** The socket; [None] if the given input ends before [handleReceive] does. *)
Definition handleSocket (m : main_t) : result (option (bool * main_t * list action)) :=
  let u := m_up m in
  match ti_socket ti with
  | EvErr => '(u, acts) ← dropConnection u; Ok (Some (false, m_set_up u m, acts))
  | EvIn =>
      received ← handleReceive cfg (ti_world ti) junk (ti_send ti) (ti_input ti) u (m_file m);
      match received with
      | None => Ok None
      | Some (u', f, answers, sent, search) =>
          started ← (if (search : bool) then altservers_findUplinkAsync (ti_alts ti) u' (ti_isCurrent ti) else Ok false);
          Ok (Some (ti_stopLate ti || up_shutdown u',
                    Main u' f (m_altCheckInterval m) (m_discoverFailCount m) (m_nextAltCheck m) (m_lastKeepalive m),
                    [Answers answers; Sends sent] ++ lostActs (up_current u) (up_current u')
                    ++ (if (started : bool) then [StartsCheck] else [])))
      end
  | EvNone => Ok (Some (false, m, []))
  end.
(** Keep-alive and replication; [true] ends the loop because the uplink is idle. *)
Definition keepAlive (m : main_t) : result (bool * main_t * list action) :=
  let u := m_up m in
  let timepassed := timing_diff (m_lastKeepalive m) (ti_now ti) in
  if (SERVER_UPLINK_KEEPALIVE_INTERVAL <=? timepassed) || ((2 <=? timepassed) && (up_idleTime u <? _bgrWindowSize cfg)) then
    let u := up_set_idle u (i32 (up_idleTime u + timepassed)) (up_nextReplicationIndex u) in
    '(u, acts) ←
      (if negb (conn_fd (up_current u) =? -1) && (up_queueLen u <? _bgrWindowSize cfg) then
         if ti_keepalive ti then
           '(ok, u, sent) ← sendReplicationRequest cfg (ti_send ti) u;
           '(u, acts) ← (if (ok : bool) then Ok (u, []) else dropConnection u);
           Ok (u, SendsKeepalive :: Sends sent :: acts)
         else '(u, acts) ← dropConnection u; Ok (u, SendsKeepalive :: acts)
       else Ok (u, []));
    Ok (connectionShouldShutdown cfg u,
        Main u (m_file m) (m_altCheckInterval m) (m_discoverFailCount m) (m_nextAltCheck m) (ti_now ti), acts)
  else Ok (false, m, []).
(** See if a round-trip check is due; [true] ends the loop because the image is complete. *)
Definition rttCheck (m : main_t) : result (bool * main_t * list action) :=
  let u := m_up m in
  let now := ti_now ti in
  let res := up_rttTestResult u in
  if (res =? RTT_IDLE) || (res =? RTT_DONTCHANGE) then
    if timing_reached (m_nextAltCheck m) now || ((conn_fd (up_current u) =? -1) && (m_discoverFailCount m =? 0)) || up_cycleDetected u then
      '(complete, _, image) ← image_isComplete (up_image u);
      let u := up_set_image u image in
      if (complete : bool) then Ok (true, m_set_up (up_set_image u (set_problem_uplink false image)) m, [])
      else
        started ← altservers_findUplinkAsync (ti_alts ti) u (ti_isCurrent ti);
        let next := if (_backgroundReplication cfg =? BGR_FULL) && (up_nextReplicationIndex u =? -1) then 0 else up_nextReplicationIndex u in
        let interval := Z.min (m_altCheckInterval m + 1) SERVER_RTT_INTERVAL_MAX in
        Ok (false, Main (up_set_idle u (up_idleTime u) next) (m_file m) interval (m_discoverFailCount m) (timing_set now interval) (m_lastKeepalive m),
            if (started : bool) then [StartsCheck] else [])
    else Ok (false, m, [])
  else if res =? RTT_NOT_REACHABLE then
    let fails := u32 (m_discoverFailCount m + 1) in
    let u := up_set_rtt (up_better u) RTT_IDLE (if conn_fd (up_current u) =? -1 then false else up_cycleDetected u) u in
    Ok (false, Main u (m_file m) (m_altCheckInterval m) fails
                 (timing_set now (if fails <? SERVER_RTT_MAX_UNREACH then m_altCheckInterval m else SERVER_RTT_INTERVAL_FAILED)) (m_lastKeepalive m), [])
  else Ok (false, m, []).
(** The body of the loop up to the events of the socket: the server to switch to and the
    signal; [true] ends the loop. *)
Definition turnFirst (m : main_t) : result (bool * main_t * list action) :=
  '(m, acts1) ← switchServer m;
  '(stop, m, acts2) ← handleSignal m;
  Ok (stop, m, acts1 ++ acts2).
(** The rest of it; [None] as in [handleSocket]. *)
Definition turnRest (m : main_t) : result (option (bool * main_t * list action)) :=
  received ← handleSocket m;
  match received with
  | None => Ok None
  | Some (true, m, acts1) => Ok (Some (true, m, acts1))
  | Some (false, m, acts1) =>
      '(stop, m, acts2) ← keepAlive m;
      if (stop : bool) then Ok (Some (true, m, acts1 ++ acts2))
      else '(stop, m, acts3) ← rttCheck m; Ok (Some (stop, m, acts1 ++ acts2 ++ acts3))
  end.
(** The body of the loop after [poll]: whether the loop ends, and what was done. *)
Definition uplink_turn (m : main_t) : result (option (bool * main_t * list action)) :=
  if ti_stop ti || up_shutdown (m_up m) then Ok (Some (true, m, []))
  else if negb (ti_pollOk ti) then Ok (Some (false, m, []))
  else
    '(stop, m, acts1) ← turnFirst m;
    if (stop : bool) then Ok (Some (true, m, acts1))
    else
      rest ← turnRest m;
      Ok ('(stop, m, acts2) ← rest; Some (stop, m, acts1 ++ acts2)).
End Turn.

(** What follows the label [cleanup]: the map is marked as changed; the thread takes a reference to the image
    unless [uplink_shutdown] did, and tells the clients off if the image still has this uplink. *)
Definition markDirty (i : dnbd3_image_t) : dnbd3_image_t :=
  img_set_cacheMap (cm_set_dirty true <$> img_cacheMap i) i.
Definition uplink_cleanup (isCurrent : bool) (u : dnbd3_uplink_t) : dnbd3_uplink_t * list answer * bool :=
  let exp := up_shutdown u in
  let u := up_set_shutdown (up_set_image u (markDirty (up_image u))) true in
  if isCurrent then let '(u, answers) := cancelAllRequests u in (u, answers, negb exp) else (u, [], negb exp).
(** The start of the thread: the file is opened, and the first server looked for unless one was passed. *)
Definition uplink_begin (w : world) (now : ticks) (u : dnbd3_uplink_t) (f : UplinkIO.file) : main_t * bool :=
  let u := (reopenCacheFd w u false).2 in
  (Main u f SERVER_RTT_INTERVAL_INIT 0 now now, negb (up_rttTestResult u =? RTT_DOCHANGE)).

(** ** What the operations leave alone *)

Lemma conns_markRequestUnsent u h : conns (markRequestUnsent u h) = conns u.
Proof. unfold markRequestUnsent. by destruct (list_find _ _) as [[]|]. Qed.
Lemma conns_queueRequest cfg u data callback handle start length hops rstart rend u' p :
  queueRequest cfg u data callback handle start length hops rstart rend = Some (u', p) -> conns u' = conns u /\ up_nextReplicationIndex u' = up_nextReplicationIndex u.
Proof.
  unfold queueRequest. destruct (up_shutdown u); [done|].
  destruct (acquireRequest _ _ _ _ _ _ _) as [[[u1 i] isNew]|] eqn:Ea; cbn [mbind option_bind]; [|done].
  assert (conns u1 = conns u /\ up_nextReplicationIndex u1 = up_nextReplicationIndex u) as [H1 N1] by (unfold acquireRequest in Ea; repeat case_match; by simplify_eq).
  destruct (prefetch _ _ _ _ _ _ _ _ _) as [u2 pre] eqn:Ep.
  assert (conns u2 = conns u1 /\ up_nextReplicationIndex u2 = up_nextReplicationIndex u1) as [H2 N2] by (unfold prefetch in Ep; repeat case_match; by simplify_eq).
  destruct (up_queue u2 !! i); cbn [mbind option_bind]; [|done]. intros [= <- <-].
  rewrite <- H1, <- H2, <- N1, <- N2. destruct (callback =? NULL); [done|]. unfold attachClient. by destruct (up_queue u2 !! i).
Qed.
Lemma conns_requestInternal cfg send u data callback handle start length hops ok u' sent :
  uplink_requestInternal cfg send u data callback handle start length hops = Ok (ok, u', sent) -> conns u' = conns u.
Proof.
  unfold uplink_requestInternal. destruct (assert_ _); cbn [mbind result_bind]; [|done].
  destruct (_ && _); [by intros [= <- <- <-]|]. destruct (up_shutdown u); [by intros [= <- <- <-]|]. destruct (_ <? _); [by intros [= <- <- <-]|].
  destruct (requestRange _ _ _ _ _) as [rstart rend]. destruct (queueRequest _ _ _ _ _ _ _ _ _ _) as [[u1 p]|] eqn:Eq; [|by intros [= <- <- <-]].
  apply conns_queueRequest in Eq as [E _]. match goal with |- (if ?b then _ else _) = _ -> _ => destruct b end; [by intros [= <- <- <-]|].
  destruct (sendPrepared _ _ _ _ _ _) as [u2 out] eqn:Es. intros [= <- <- <-]. rewrite <- E. unfold sendPrepared in Es.
  repeat case_match; simplify_eq; by rewrite ?conns_markRequestUnsent.
Qed.
Lemma conns_sendQueued u newOnly sendAll u' out :
  sendQueuedRequests u newOnly sendAll = Ok (u', out) -> conns u' = conns u /\ up_nextReplicationIndex u' = up_nextReplicationIndex u.
Proof.
  unfold sendQueuedRequests. destruct (resendLoop _ _ _ _ _) as [[[[q o] r] f]|]; cbn [mbind result_bind]; [|done].
  destruct f, r; try destruct (_ =? -1); by intros [= <- <-].
Qed.
Lemma sendQueued_empty u newOnly sendAll u' out : sendQueuedRequests u newOnly sendAll = Ok (u', out) -> up_queue u = [] -> up_queue u' = [].
Proof. unfold sendQueuedRequests. intros Hr Hq. rewrite Hq in Hr. cbn in Hr. by simplify_eq. Qed.
(** Nothing is queued once the uplink is to stop. *)
Lemma sendReplication_shutdown cfg send u ok u' sent : sendReplicationRequest cfg send u = Ok (ok, u', sent) -> up_shutdown u = true ->
  up_queue u' = up_queue u.
Proof.
  unfold sendReplicationRequest. intros Hr Hd. repeat case_match; try (by simplify_eq).
  destruct (Z.to_nat _) as [|n]; cbn [replicationLoop] in Hr; [by simplify_eq|].
  destruct (_ <? 10); [by simplify_eq|]. destruct (replicationIndex _ _ _ _) as [i|]; cbn [mbind result_bind] in Hr; [|done].
  destruct (i =? -1); [by simplify_eq|]. destruct (if _ =? BGR_FULL then _ else _) as [[i2 s2]|]; cbn [mbind result_bind] in Hr; [|done].
  unfold uplink_requestInternal in Hr. cbn [assert_ NULL Z.eqb orb mbind result_bind up_set_replication up_shutdown] in Hr.
  rewrite Hd in Hr. change (0 .& HOP_FLAG_BGR =? 0) with true in Hr. cbn [andb mbind result_bind negb] in Hr. by simplify_eq.
Qed.
Lemma conns_replicationLoop cfg send m n : forall u ok u' sent,
  replicationLoop cfg send m n u = Ok (ok, u', sent) -> conns u' = conns u.
Proof.
  induction n as [|n IH]; intros u ok u' sent; cbn [replicationLoop]; [by intros [= <- <- <-]|].
  destruct (_ <? 10); [by intros [= <- <- <-]|]. destruct (replicationIndex _ _ _ _) as [i|]; cbn [mbind result_bind]; [|done].
  destruct (i =? -1); [by intros [= <- <- <-]|].
  destruct (if _ =? BGR_FULL then _ else _) as [[i2 s2]|]; cbn [mbind result_bind]; [|done].
  destruct (uplink_requestInternal _ _ _ _ _ _ _ _ _) as [[[ok1 u1] sent1]|] eqn:Er; cbn [mbind result_bind]; [|done].
  apply conns_requestInternal in Er. change (conns (up_set_replication u _ _ _)) with (conns u) in Er.
  destruct ok1; cbn [negb]; [|intros [= <- <- <-]; done].
  assert (forall u2, conns u2 = conns u1 -> forall k ok u' sent, replicationLoop cfg send m n u2 = k ->
    ('(ok, u, more) ← k; Ok (ok, u, sent1 ++ more)) = Ok (ok, u', sent) -> conns u' = conns u) as Hgo.
  { intros u2 E2 [[[ok2 u3] more]|] ok3 u3' sent3 Ek; cbn [mbind result_bind]; [|done]. intros [= <- <- <-]. apply IH in Ek. by rewrite Ek, E2, Er. }
  destruct (_ && _); [|intros H; exact (Hgo (up_set_replication u1 _ _ _) eq_refl _ _ _ _ eq_refl H)].
  destruct (findNextIncompleteHashBlock _ _) as [v|]; cbn [mbind result_bind]; [|done].
  destruct (v =? -1); [intros [= <- <- <-]; exact Er|]. intros H. exact (Hgo (up_set_replication (up_set_replication u1 _ _ _) _ _ _) eq_refl _ _ _ _ eq_refl H).
Qed.
Lemma conns_sendReplication cfg send u ok u' sent : sendReplicationRequest cfg send u = Ok (ok, u', sent) -> conns u' = conns u.
Proof.
  unfold sendReplicationRequest.
  repeat case_match; try (by intros [= <- <- <-]). apply conns_replicationLoop.
Qed.

(** ** What a turn keeps *)

Definition answersOf (acts : list action) : list answer := acts ≫= (fun a => match a with Answers l => l | _ => [] end).
Definition closedOf (acts : list action) : list Z := acts ≫= (fun a => match a with CloseFd fd => [fd] | _ => [] end).
Definition sentOf (acts : list action) : list packet := acts ≫= (fun a => match a with Sends l => l | _ => [] end).
Definition failedOf (acts : list action) : list Z := acts ≫= (fun a => match a with ServerFailed i => [i] | _ => [] end).
(** The sockets of an uplink. *)
Definition socks (u : dnbd3_uplink_t) : list Z := openFds [conn_fd (up_current u); conn_fd (up_better u)].

Lemma openFds_open fd l : fd <> -1 -> openFds (fd :: l) = fd :: openFds l.
Proof. intros. unfold openFds. by rewrite filter_cons_True. Qed.
Lemma openFds_none l : openFds (-1 :: l) = openFds l.
Proof. unfold openFds. by rewrite filter_cons_False by (intros H; by apply H). Qed.

Section Main.
Context (truth : UplinkIO.file).

(** The queue and the image are well formed, every block recorded as cached is in the file,
    the index for replication is in the map, and there is a better server exactly if the
    uplink is to change to it. *)
Record main_ok (u : dnbd3_uplink_t) (f : UplinkIO.file) : Prop := MainOk {
  mo_wf : uplink_wf u;
  mo_image : image_wf (up_image u);
  mo_file : consistent truth f (up_image u);
  mo_next : next_ok u;
  mo_rtt : up_rttTestResult u = RTT_DOCHANGE <-> conn_fd (up_better u) <> -1;
}.
(** A part of a turn: every waiting client is answered with the bytes of the image or waits on, every
    socket is kept or closed once, and at most [n] handles were used. *)
Record stepped (n : Z) (u : dnbd3_uplink_t) (f : UplinkIO.file) (u' : dnbd3_uplink_t) (f' : UplinkIO.file) (acts : list action) : Prop := Stepped {
  sp_ok : main_ok u' f';
  sp_pending : pending (up_queue u) ≡ₚ pending (up_queue u') ++ answered (answersOf acts);
  sp_good : Forall (good_answer truth) (answersOf acts);
  sp_socks : socks u ≡ₚ socks u' ++ closedOf acts;
  sp_id : up_queueId u' <= up_queueId u + n;
  sp_shutdown : up_shutdown u' = up_shutdown u;
  sp_empty : up_shutdown u = true -> up_queue u = [] -> up_queue u' = [];
}.

Lemma stepped_refl u f : main_ok u f -> stepped 0 u f u f [].
Proof. intros. split; [done|by rewrite app_nil_r|exact (List.Forall_nil _)|by rewrite app_nil_r|lia|done|done]. Qed.
Lemma stepped_trans n1 n2 u1 f1 u2 f2 u3 f3 a1 a2 :
  stepped n1 u1 f1 u2 f2 a1 -> stepped n2 u2 f2 u3 f3 a2 -> stepped (n1 + n2) u1 f1 u3 f3 (a1 ++ a2).
Proof.
  intros [_ Hp1 Hg1 Hs1 Hi1 Hd1 He1] [Hok Hp2 Hg2 Hs2 Hi2 Hd2 He2]. split; [done|..].
  - unfold answersOf, answered in *. rewrite bind_app, map_app, Hp1, Hp2. solve_Permutation.
  - unfold answersOf in *. rewrite bind_app. by apply Forall_app.
  - unfold closedOf in *. rewrite bind_app, Hs1, Hs2. solve_Permutation.
  - lia.
  - congruence.
  - intros Hd He. apply He2; [congruence|by apply He1].
Qed.
Lemma stepped_weaken n n' u f u' f' acts : n <= n' -> stepped n u f u' f' acts -> stepped n' u f u' f' acts.
Proof. intros Hn []. split; try done. lia. Qed.
(** The image as far as the cache is concerned. *)
Definition same_image (u u' : dnbd3_uplink_t) : Prop :=
  img_virtualFilesize (up_image u') = img_virtualFilesize (up_image u)
  /\ img_realFilesize (up_image u') = img_realFilesize (up_image u)
  /\ img_cacheMap (up_image u') = img_cacheMap (up_image u).
Lemma same_rest_image u u' : same_rest u u' -> same_image u u'.
Proof. by intros []. Qed.
Lemma main_ok_frame u f u' : main_ok u f -> uplink_wf u' -> same_image u u' -> next_ok u' ->
  (up_rttTestResult u' = RTT_DOCHANGE <-> conn_fd (up_better u') <> -1) -> main_ok u' f.
Proof.
  intros [? [] Hf ? ?] Hwf (Hv & Hr & Hm) Hn Hrtt. split; try done; [split; rewrite ?Hv, ?Hr, ?Hm; done|].
  intros b Hb Hc. unfold num_blocks in Hb. rewrite Hv in Hb. apply Hf; [done|]. unfold is_cached in *. by rewrite <- Hm.
Qed.
(** A step that leaves the clients, the file and the map alone. *)
Lemma stepped_quiet n u f u' acts :
  main_ok u f -> uplink_wf u' -> same_image u u' -> pending (up_queue u') ≡ₚ pending (up_queue u) -> next_ok u' ->
  (up_rttTestResult u' = RTT_DOCHANGE <-> conn_fd (up_better u') <> -1) ->
  answersOf acts = [] -> socks u ≡ₚ socks u' ++ closedOf acts -> up_queueId u' <= up_queueId u + n -> up_shutdown u' = up_shutdown u ->
  (up_shutdown u = true -> up_queue u = [] -> up_queue u' = []) -> stepped n u f u' f acts.
Proof.
  intros Hok Hwf Him Hp Hn Hrtt Ha Hs Hi Hd He. split; try done.
  - by eapply main_ok_frame.
  - by rewrite Ha, Hp, app_nil_r.
  - rewrite Ha. constructor.
Qed.
(** The same when the connections stay. *)
Lemma stepped_conns n u f u' acts :
  main_ok u f -> uplink_wf u' -> same_image u u' -> pending (up_queue u') ≡ₚ pending (up_queue u) -> next_ok u' ->
  conns u' = conns u -> answersOf acts = [] -> closedOf acts = [] -> up_queueId u' <= up_queueId u + n ->
  (up_shutdown u = true -> up_queue u = [] -> up_queue u' = []) -> stepped n u f u' f acts.
Proof.
  intros Hok Hwf Him Hp Hn [= Hc Hb Hr Hd] Ha Hcl Hi He. apply stepped_quiet; try done.
  - rewrite Hb, Hr. apply Hok.
  - unfold socks. by rewrite Hb, Hc, Hcl, app_nil_r.
Qed.
Lemma same_queue_stepped u f u' : main_ok u f -> up_queue u' = up_queue u -> up_queueLen u' = up_queueLen u -> up_queueId u' = up_queueId u ->
  same_image u u' -> next_ok u' -> conns u' = conns u -> stepped 0 u f u' f [].
Proof.
  intros Hok Hq Hl Hi Him Hn Hc. pose proof (mo_wf _ _ Hok) as [? ? ? ? ?]. apply stepped_conns; try done; [|by rewrite Hq|lia|by rewrite Hq].
  destruct Him as (Hv & _ & _). split; rewrite ?Hq, ?Hl, ?Hi, ?Hv; done.
Qed.

(** *** Each part of a turn *)

Section Parts.
Context (cfg : config) (pclmul : bool) (addr junk : Z) (ti : turn_in).
Context (Hcfg : config_ok cfg) (Hwin : 0 <= _bgrWindowSize cfg).
Let W := 3 * _bgrWindowSize cfg.

Lemma zero_next u : uplink_wf u -> 0 <= (img_virtualFilesize (up_image u) + 32767) / 32768.
Proof. intros Hwf. pose proof (uw_size _ Hwf). apply Z.div_pos; lia. Qed.
Lemma findUplink_ok u : conn_fd (up_better u) = -1 -> exists b, altservers_findUplinkAsync (ti_alts ti) u (ti_isCurrent ti) = Ok b.
Proof.
  intros Hb. unfold altservers_findUplinkAsync. destruct (up_shutdown u); [by eexists|]. destruct (_ && _); [by eexists|].
  rewrite Hb. cbn. by eexists.
Qed.
Lemma connectionFailed_step u f u' search : main_ok u f -> conn_fd (up_current u) <> -1 -> connectionFailed cfg u true = (u', search) ->
  conn_fd (up_current u') = -1 /\ (search = true -> conn_fd (up_better u') = -1)
  /\ forall acts, answersOf acts = [] -> closedOf acts = [conn_fd (up_current u)] -> stepped 0 u f u' f acts.
Proof.
  intros Hok Hfd. unfold connectionFailed. rewrite (proj2 (Z.eqb_neq _ _) Hfd). intros [= <- <-]. split; [done|]. split.
  - cbn. intros Hb. apply negb_true_iff, orb_false_iff in Hb as [_ Hb]. apply negb_false_iff, Z.eqb_eq in Hb. done.
  - intros acts Ha Hc. pose proof (mo_wf _ _ Hok) as Hwf. pose proof (zero_next u Hwf). apply stepped_quiet; try done.
    + destruct Hwf; split; done.
    + destruct (mo_next _ _ Hok). unfold next_ok. cbn. destruct (_ && _); [lia|done].
    + apply Hok.
    + rewrite Hc. unfold socks. cbn [up_set_current up_current up_better conn_fd]. rewrite openFds_open, openFds_none by done.
      apply Permutation_cons_append.
    + cbn; lia.
Qed.
Lemma dropConnection_step u f : main_ok u f ->
  exists u' acts, dropConnection cfg ti u = Ok (u', acts) /\ stepped 0 u f u' f acts /\ conn_fd (up_current u') = -1.
Proof.
  intros Hok. unfold dropConnection. destruct (Z.eqb_spec (conn_fd (up_current u)) (-1)) as [E|E].
  - eexists _, _. split; [done|]. split; [by apply stepped_refl|done].
  - destruct (connectionFailed cfg u true) as [u' search] eqn:Ef. destruct (connectionFailed_step u f u' search Hok E Ef) as (Hfd & Hb & Hst).
    assert (exists b, (if search then altservers_findUplinkAsync (ti_alts ti) u' (ti_isCurrent ti) else Ok false) = Ok b) as [b ->].
    { destruct search; [apply findUplink_ok; by apply Hb|by eexists]. }
    cbn [mbind result_bind]. eexists _, _. split; [done|]. split; [|done]. apply Hst; by destruct b.
Qed.
Lemma sendQueued_step u f newOnly sendAll : main_ok u f ->
  exists u' out, sendQueuedRequests u newOnly sendAll = Ok (u', out) /\ stepped 0 u f u' f (map Sends out) /\ conns u' = conns u.
Proof.
  intros Hok. destruct (sendQueuedRequests_spec u newOnly sendAll (mo_wf _ _ Hok)) as (u' & out & Hrun & Hwf & Hs & Hid & Hp & _).
  exists u', out. split; [done|]. pose proof (sendQueued_empty _ _ _ _ _ Hrun) as He. apply conns_sendQueued in Hrun as [Hc Hn]. split; [|done].
  apply stepped_conns; try done; [by apply same_rest_image|by rewrite Hp| | | |lia].
  - destruct (mo_next _ _ Hok). unfold next_ok. by rewrite Hn, (sr_vfs _ _ Hs).
  - induction out; [done|by cbn].
  - induction out; [done|by cbn].
Qed.
Lemma sendReplication_step u f : main_ok u f -> up_queueId u + W < 2 ^ 64 - 3 ->
  exists ok u' sent, sendReplicationRequest cfg (ti_send ti) u = Ok (ok, u', sent) /\ stepped W u f u' f [Sends sent] /\ conns u' = conns u.
Proof.
  intros Hok Hid. destruct (img_cacheMap (up_image u)) as [c|] eqn:Ec.
  - destruct (sendReplicationRequest_spec cfg Hcfg (ti_send ti) c u) as (ok & u' & sent & Hrun & Hr & Hs & Hp & Hi); [|done|done|].
    { split; [apply Hok|apply Hok|done|apply Hok]. }
    exists ok, u', sent. split; [done|]. pose proof (sendReplication_shutdown _ _ _ _ _ _ Hrun) as He. apply conns_sendReplication in Hrun. split; [|done].
    apply stepped_conns; try done; [apply Hr|by apply same_rest_image|apply Hr|]. intros Hd Hq. by rewrite (He Hd).
  - assert (exists ok, sendReplicationRequest cfg (ti_send ti) u = Ok (ok, u, [])) as [ok Hrun].
    { unfold sendReplicationRequest. rewrite Ec. repeat case_match; by eexists. }
    exists ok, u, []. split; [done|]. split; [|done]. apply stepped_conns; try done; [apply Hok..|lia].
Qed.
Lemma closedOf_map l : closedOf (CloseFd <$> l) = l /\ answersOf (CloseFd <$> l) = [].
Proof. induction l as [|x l [IH1 IH2]]; [done|]. unfold closedOf, answersOf in *. cbn. by rewrite IH1, IH2. Qed.
Lemma takeBetter_step u f : main_ok u f -> stepped 0 u f (takeBetter u) f (CloseFd <$> openFds [conn_fd (up_current u)]).
Proof.
  intros Hok. destruct (closedOf_map (openFds [conn_fd (up_current u)])) as [Hcl Ha].
  apply stepped_quiet; try done; [|apply Hok| |cbn; lia].
  - destruct (mo_wf _ _ Hok). split; done.
  - rewrite Hcl. unfold socks. cbn [takeBetter up_set_replication up_set_rtt up_set_current up_current up_better conn_fd].
    unfold openFds. change [conn_fd (up_current u); conn_fd (up_better u)] with ([conn_fd (up_current u)] ++ [conn_fd (up_better u)]).
    change [conn_fd (up_better u); -1] with ([conn_fd (up_better u)] ++ [-1]). rewrite !list.filter_app.
    rewrite (filter_cons_False _ (-1)) by (intros H; by apply H). rewrite filter_nil, app_nil_r. apply Permutation_app_comm.
Qed.
Lemma requestCrc_step u f sent reply stream : main_ok u f ->
  let '(u', _) := requestCrc32List pclmul addr junk sent reply stream u in stepped 0 u f u' f [] /\ conns u' = conns u.
Proof.
  intros Hok. assert (stepped 0 u f u f [] /\ conns u = conns u) as Hsame by (split; [by apply stepped_refl|done]).
  unfold requestCrc32List. destruct (_ =? 0); [done|]. destruct (dnbd3_get_crc32 _ _ _ _) as [[[master [|b buffer]]|]|]; [done| |done|].
  - destruct (negb _); [done|]. split; [|done]. by apply same_queue_stepped; try apply Hok.
  - split; [|done]. by apply same_queue_stepped; try apply Hok.
Qed.
Lemma stepped_acts n u f u' f' acts acts' : answersOf acts' = answersOf acts -> closedOf acts' = closedOf acts ->
  stepped n u f u' f' acts -> stepped n u f u' f' acts'.
Proof. intros Ha Hc []. split; rewrite ?Ha, ?Hc; done. Qed.
Lemma switchServer_step m : main_ok (m_up m) (m_file m) -> up_queueId (m_up m) + W < 2 ^ 64 - 3 ->
  exists m' acts, switchServer cfg pclmul addr junk ti m = Ok (m', acts) /\ stepped W (m_up m) (m_file m) (m_up m') (m_file m') acts.
Proof.
  intros Hok Hid. unfold switchServer. destruct (negb _).
  { eexists _, _. split; [done|]. apply (stepped_weaken 0); [lia|by apply stepped_refl]. }
  pose proof (takeBetter_step _ _ Hok) as H1. set (u1 := takeBetter (m_up m)) in *.
  destruct (if bool_decide (img_crc32 (up_image u1) = None) then _ else _) as [u2 crc] eqn:Ecrc.
  assert (stepped 0 u1 (m_file m) u2 (m_file m) crc) as H2.
  { case_bool_decide; [|injection Ecrc as <- <-; apply stepped_refl, H1].
    pose proof (requestCrc_step u1 (m_file m) (ti_crcSent ti) (ti_crcReply ti) (ti_crcStream ti) (sp_ok _ _ _ _ _ _ H1)) as Hc.
    destruct (requestCrc32List _ _ _ _ _ _ _) as [u2' w]. injection Ecrc as <- <-. destruct Hc as [Hc _]. eapply stepped_acts; [| |exact Hc]; by destruct w. }
  destruct (sendQueued_step u2 (m_file m) false (ti_sendAll ti) (sp_ok _ _ _ _ _ _ H2)) as (u3 & out & -> & H3 & _). cbn [mbind result_bind].
  pose proof (stepped_trans _ _ _ _ _ _ _ _ _ _ (stepped_trans _ _ _ _ _ _ _ _ _ _ H1 H2) H3) as H123.
  destruct (sendReplication_step u3 (m_file m) (sp_ok _ _ _ _ _ _ H3)) as (ok & u4 & sent & -> & H4 & _).
  { pose proof (sp_id _ _ _ _ _ _ H123). lia. }
  cbn [mbind result_bind].
  assert (exists u5 failed, (if pr_uplink (img_problem (up_image u4)) then dropConnection cfg ti u4 else Ok (u4, [])) = Ok (u5, failed)
    /\ stepped 0 u4 (m_file m) u5 (m_file m) failed) as (u5 & failed & -> & H5).
  { destruct (pr_uplink _); [|eexists _, _; split; [done|]; apply stepped_refl, H4].
    destruct (dropConnection_step u4 (m_file m) (sp_ok _ _ _ _ _ _ H4)) as (u5 & acts & -> & H5 & _). by eexists _, _. }
  cbn [mbind result_bind]. eexists _, _. split; [done|]. cbn [m_up m_file].
  pose proof (stepped_trans _ _ _ _ _ _ _ _ _ _ (stepped_trans _ _ _ _ _ _ _ _ _ _ H123 H4) H5) as H.
  rewrite <- !app_assoc in H. eapply stepped_weaken; [|exact H]. lia.
Qed.
Lemma handleSignal_step m : main_ok (m_up m) (m_file m) ->
  exists stop m' acts, handleSignal ti m = Ok (stop, m', acts) /\ stepped 0 (m_up m) (m_file m) (m_up m') (m_file m') acts.
Proof.
  intros Hok. unfold handleSignal. assert (forall b, exists stop m' acts, Ok (b, m, []) = Ok (A := bool * main_t * list action) (stop, m', acts)
    /\ stepped 0 (m_up m) (m_file m) (m_up m') (m_file m') acts) as Hsame by (intros b; eexists _, _, _; split; [done|by apply stepped_refl]).
  destruct (ti_signal ti); [done| |].
  - destruct (negb _).
    + destruct (sendQueued_step (m_up m) (m_file m) true (ti_sendAll ti) Hok) as (u & out & -> & H & _). cbn [mbind result_bind]. by eexists _, _, _.
    + destruct (negb _); [|done]. eexists _, _, _. split; [done|]. by apply same_queue_stepped; try apply Hok.
  - eexists _, _, _. split; [done|]. by apply same_queue_stepped; try apply Hok.
Qed.
Lemma received_step u f u' f' answers : main_ok u f -> received truth u f u' f' answers -> stepped 0 u f u' f' [Answers answers].
Proof.
  intros Hok [? ? Hq Hp Hg Hf Hc Hn Hi]. injection Hc as Hc Hb Hr Hd. split; cbn; rewrite ?app_nil_r; try done.
  - split; try done; [by apply Hf, Hok|by apply Hn, Hok|]. rewrite Hr, Hb. apply Hok.
  - unfold socks. by rewrite Hc, Hb.
  - lia.
  - intros _ He. destruct (up_queue u') as [|e q]; [done|]. destruct (not_elem_of_nil e). rewrite <- He. apply Hq. by left.
Qed.
(** What the server sends in a turn: replies with the content of the requests that are queued, until the socket is
    empty; enough results of the writes. *)
Definition good_input (u : dnbd3_uplink_t) (input : list (recv * list wres)) : Prop :=
  exists inp last, input = inp ++ [(ReplyAgain, last)] /\ enough cfg last
    /\ Forall (fun x => honest truth (up_queue u) x.1 /\ enough cfg x.2) inp.
Lemma stepped_app n1 n2 u1 f1 u2 f2 u3 f3 a1 a2 n a :
  stepped n1 u1 f1 u2 f2 a1 -> stepped n2 u2 f2 u3 f3 a2 -> n1 + n2 <= n -> a = a1 ++ a2 -> stepped n u1 f1 u3 f3 a.
Proof. intros H1 H2 Hn ->. eapply stepped_weaken; [exact Hn|by eapply stepped_trans]. Qed.
(** The connection is dropped or kept after receiving. *)
Lemma kept_step u u2 f : main_ok u2 f -> conns u2 = conns u -> stepped 0 u2 f u2 f (lostActs (up_current u) (up_current u2)).
Proof.
  intros Hok [= Hc _ _ _]. unfold lostActs. rewrite Hc. destruct (_ =? -1); by apply stepped_refl.
Qed.
Lemma lost_step u u2 f u3 search : main_ok u2 f -> conns u2 = conns u -> connectionFailed cfg u2 true = (u3, search) ->
  stepped 0 u2 f u3 f (lostActs (up_current u) (up_current u3)) /\ (search = true -> conn_fd (up_better u3) = -1).
Proof.
  intros Hok Hc Hf. pose proof (kept_step u u2 f Hok Hc) as Hk. injection Hc as Hc _ _ _.
  destruct (Z.eqb_spec (conn_fd (up_current u2)) (-1)) as [E|E].
  - unfold connectionFailed in Hf. rewrite E in Hf. injection Hf as <- <-. done.
  - destruct (connectionFailed_step u2 f u3 search Hok E Hf) as (Hfd & Hb & Hst). split; [|done].
    unfold lostActs. rewrite <- Hc, (proj2 (Z.eqb_neq _ _) E), Hfd. by apply Hst.
Qed.
(** What arrives is received well. *)
Definition loop_ok (u : dnbd3_uplink_t) (f : UplinkIO.file) : Prop :=
  exists ok u' f' answers, receiveLoop cfg (ti_world ti) junk (ti_input ti) u f = Ok (Some (ok, u', f', answers)) /\ received truth u f u' f' answers.
Lemma good_loop u f : main_ok u f -> good_input u (ti_input ti) -> loop_ok u f.
Proof. intros Hok (inp & last & E & Hlast & Hhon). unfold loop_ok. rewrite E. apply receiveLoop_spec; try done; apply Hok. Qed.
Lemma handleReceive_step u f : main_ok u f -> up_queueId u + W < 2 ^ 64 - 3 -> loop_ok u f ->
  exists u' f' answers sent search,
    handleReceive cfg (ti_world ti) junk (ti_send ti) (ti_input ti) u f = Ok (Some (u', f', answers, sent, search))
    /\ stepped W u f u' f' ([Answers answers; Sends sent] ++ lostActs (up_current u) (up_current u'))
    /\ (search = true -> conn_fd (up_better u') = -1).
Proof.
  intros Hok Hid (ok & u1 & f1 & answers & Hloop & Hr). unfold handleReceive. rewrite (uw_len _ (mo_wf _ _ Hok)).
  rewrite (proj2 (Z.leb_le 0 _)) by lia. cbn [assert_ mbind result_bind].
  rewrite Hloop. cbn [mbind result_bind]. pose proof (rc_conns _ _ _ _ _ _ Hr) as Hc1. apply (received_step _ _ _ _ _ Hok) in Hr as H1.
  destruct ok.
  - destruct (sendReplication_step u1 f1 (sp_ok _ _ _ _ _ _ H1)) as (ok & u2 & sent & -> & H2 & Hc2); [pose proof (sp_id _ _ _ _ _ _ H1); lia|].
    cbn [mbind result_bind]. pose proof (stepped_trans _ _ _ _ _ _ _ _ _ _ H1 H2) as H12. destruct ok.
    + eexists _, _, _, _, _. split; [done|]. split; [|done]. eapply stepped_app; [exact H12|apply (kept_step u); [apply H2|congruence]|lia|done].
    + destruct (connectionFailed cfg u2 true) as [u3 search] eqn:Ef.
      destruct (lost_step u u2 f1 u3 search (sp_ok _ _ _ _ _ _ H2)) as [H3 Hb]; [congruence|done|].
      eexists _, _, _, _, _. split; [done|]. split; [|done]. eapply stepped_app; [exact H12|exact H3|lia|done].
  - destruct (connectionFailed cfg u1 true) as [u3 search] eqn:Ef.
    destruct (lost_step u u1 f1 u3 search (sp_ok _ _ _ _ _ _ H1)) as [H3 Hb]; [congruence|done|].
    eexists _, _, _, _, _. split; [done|]. split; [|done].
    eapply stepped_acts; [| |eapply (stepped_app _ _ _ _ _ _ _ _ _ _ W _ H1 H3); [lia|reflexivity]]; done.
Qed.
Lemma handleSocket_step m : main_ok (m_up m) (m_file m) -> up_queueId (m_up m) + W < 2 ^ 64 - 3 ->
  (ti_socket ti = EvIn -> loop_ok (m_up m) (m_file m)) ->
  exists stop m' acts, handleSocket cfg junk ti m = Ok (Some (stop, m', acts)) /\ stepped W (m_up m) (m_file m) (m_up m') (m_file m') acts.
Proof.
  intros Hok Hid Hin. unfold handleSocket. destruct (ti_socket ti); [|specialize (Hin eq_refl)|].
  - eexists _, _, _. split; [done|]. apply (stepped_weaken 0); [lia|by apply stepped_refl].
  - destruct (handleReceive_step _ _ Hok Hid Hin) as (u' & f' & answers & sent & search & -> & H & Hb). cbn [mbind result_bind].
    assert (exists b, (if search then altservers_findUplinkAsync (ti_alts ti) u' (ti_isCurrent ti) else Ok false) = Ok b) as [b ->].
    { destruct search; [apply findUplink_ok; by apply Hb|by eexists]. }
    cbn [mbind result_bind]. eexists _, _, _. split; [done|]. cbn [m_up m_file].
    eapply stepped_acts; [| |exact H]; destruct b; unfold answersOf, closedOf; rewrite ?bind_app, ?app_nil_r; cbn; by rewrite ?bind_app, ?app_nil_r.
  - destruct (dropConnection_step (m_up m) (m_file m) Hok) as (u & acts & -> & H & _). cbn [mbind result_bind].
    eexists _, _, _. split; [done|]. eapply stepped_weaken; [|exact H]. lia.
Qed.
Lemma keepAlive_step m : main_ok (m_up m) (m_file m) -> up_queueId (m_up m) + W < 2 ^ 64 - 3 ->
  exists stop m' acts, keepAlive cfg ti m = Ok (stop, m', acts) /\ stepped W (m_up m) (m_file m) (m_up m') (m_file m') acts.
Proof.
  intros Hok Hid. unfold keepAlive. destruct (_ || _); [|eexists _, _, _; split; [done|]; apply (stepped_weaken 0); [lia|by apply stepped_refl]].
  set (u1 := up_set_idle (m_up m) _ _).
  assert (stepped 0 (m_up m) (m_file m) u1 (m_file m) []) as H1 by (by apply same_queue_stepped; try apply Hok).
  assert (up_queueId u1 = up_queueId (m_up m)) as Hid1 by done. clearbody u1.
  assert (forall u2 acts, stepped W u1 (m_file m) u2 (m_file m) acts -> exists stop m' acts',
    Ok (connectionShouldShutdown cfg u2, Main u2 (m_file m) (m_altCheckInterval m) (m_discoverFailCount m) (m_nextAltCheck m) (ti_now ti), acts)
    = Ok (A := bool * main_t * list action) (stop, m', acts') /\ stepped W (m_up m) (m_file m) (m_up m') (m_file m') acts') as Hend.
  { intros u2 acts H2. eexists _, _, _. split; [done|]. by eapply stepped_app; [exact H1|exact H2|lia|]. }
  destruct (_ && _).
  2: { cbn [mbind result_bind]. apply Hend. apply (stepped_weaken 0); [lia|apply stepped_refl, H1]. }
  destruct (ti_keepalive ti).
  - destruct (sendReplication_step u1 (m_file m) (sp_ok _ _ _ _ _ _ H1)) as (ok & u2 & sent & -> & H2 & _); [lia|]. cbn [mbind result_bind].
    destruct ok; cbn [mbind result_bind].
    + apply Hend. by eapply stepped_acts; [| |exact H2].
    + destruct (dropConnection_step u2 (m_file m) (sp_ok _ _ _ _ _ _ H2)) as (u3 & acts & -> & H3 & _). cbn [mbind result_bind]. apply Hend.
      eapply stepped_acts; [| |eapply (stepped_app _ _ _ _ _ _ _ _ _ _ W _ H2 H3); [lia|reflexivity]]; done.
  - destruct (dropConnection_step u1 (m_file m) (sp_ok _ _ _ _ _ _ H1)) as (u3 & acts & -> & H3 & _). cbn [mbind result_bind]. apply Hend.
    eapply stepped_acts; [| |eapply stepped_weaken; [|exact H3]; lia]; done.
Qed.
Lemma isComplete_step u f : main_ok u f -> exists r x image', image_isComplete (up_image u) = Ok (r, x, image')
  /\ stepped 0 u f (up_set_image u image') f [] /\ (r = false -> image' = up_image u)
  /\ (r = true -> forall p, 0 <= p < img_virtualFilesize (up_image u) -> f p = truth p).
Proof.
  intros Hok. assert (up_set_image u (up_image u) = u) as Hsame by (by destruct u).
  assert (forall r : bool, (r = true <-> forall b, 0 <= b < num_blocks (up_image u) -> is_cached (up_image u) b = true) ->
    r = true -> forall p, 0 <= p < img_virtualFilesize (up_image u) -> f p = truth p) as Hall.
  { intros r Hr Ht p Hp. pose proof (uw_aligned _ (mo_wf _ _ Hok)). pose proof (Z.div_mod p 4096). pose proof (Z.mod_pos_bound p 4096).
    assert (0 <= p / 4096 < num_blocks (up_image u)) as Hb.
    { split; [apply Z.div_pos; lia|]. unfold num_blocks, DNBD3_BLOCK_SIZE. apply Z.div_lt_upper_bound; [lia|].
      pose proof (Z.div_mod (img_virtualFilesize (up_image u)) 4096). lia. }
    apply (mo_file _ _ Hok (p / 4096)); [done|by apply Hr|lia]. }
  destruct (img_cacheMap (up_image u)) as [c|] eqn:Ec.
  - destruct (image_isComplete_map (up_image u) c (mo_image _ _ Hok) Ec) as (r & -> & Hr). eexists r, r, _. split; [done|].
    assert (is_cached (up_image u) = block_cached (cm_map c)) as Eic.
    { unfold is_cached. by rewrite Ec. }
    rewrite <- Eic in Hr. destruct r; [|rewrite Hsame; split_and!; [by apply stepped_refl|done|by apply Hall]].
    split_and!; [|done|by apply Hall]. pose proof (proj1 Hr eq_refl) as Hc.
    pose proof (mo_wf _ _ Hok) as [? ? ? ? ?]. pose proof (mo_image _ _ Hok) as [? ? ? ?]. split; cbn; rewrite ?app_nil_r; try done; [|lia].
    split; [by split|by split| |apply Hok|apply Hok]. intros b Hb _. apply (mo_file _ _ Hok); [exact Hb|by apply Hc].
  - destruct (image_isComplete_spec (up_image u) (mo_image _ _ Hok)) as (r & x & image' & Hrun & Hr & _).
    pose proof Hrun as Hrun'. unfold image_isComplete in Hrun'. rewrite Ec in Hrun'.
    eexists _, _, _. split; [exact Hrun|].
    assert (image' = up_image u) as -> by (destruct (_ =? 0); by simplify_eq). rewrite Hsame. split_and!; [by apply stepped_refl|done|by apply Hall].
Qed.
Lemma rttCheck_step m : main_ok (m_up m) (m_file m) ->
  exists stop m' acts, rttCheck cfg ti m = Ok (stop, m', acts) /\ stepped 0 (m_up m) (m_file m) (m_up m') (m_file m') acts
    /\ (stop = true -> forall p, 0 <= p < img_virtualFilesize (up_image (m_up m)) -> m_file m p = truth p).
Proof.
  intros Hok. unfold rttCheck.
  assert (exists stop m' acts, Ok (false, m, []) = Ok (A := bool * main_t * list action) (stop, m', acts)
    /\ stepped 0 (m_up m) (m_file m) (m_up m') (m_file m') acts /\ (stop = true -> forall p, 0 <= p < img_virtualFilesize (up_image (m_up m)) -> m_file m p = truth p)) as Hsame
    by (eexists _, _, _; split; [done|]; split; [by apply stepped_refl|done]).
  set (u := m_up m) in *. destruct ((_ =? RTT_IDLE) || _) eqn:Er.
  - destruct (timing_reached _ _ || _ || _); [|done].
    destruct (isComplete_step u (m_file m) Hok) as (r & x & image & -> & H1 & Hi & Hall). cbn [mbind result_bind]. destruct r.
    + eexists _, _, _. split; [done|]. split; [|by intros _; apply Hall]. pose proof (sp_ok _ _ _ _ _ _ H1) as Hok1.
      eapply (stepped_app _ 0 _ _ _ _ _ _ _ _ 0 _ H1); [|lia|done]. by apply same_queue_stepped; try apply Hok1.
    + rewrite (Hi eq_refl) in *. destruct (findUplink_ok (up_set_image u (up_image u))) as [b ->].
      { cbn. apply dec_stable. intros Hb. apply (mo_rtt _ _ Hok) in Hb. rewrite Hb in Er. done. }
      cbn [mbind result_bind]. eexists _, _, _. split; [done|]. split; [|done]. cbn [m_up m_file].
      eapply (stepped_acts _ _ _ _ _ []); [by destruct b..|]. pose proof (zero_next u (mo_wf _ _ Hok)). pose proof (mo_next _ _ Hok) as Hn.
      apply same_queue_stepped; try done. unfold next_ok in *. cbn. destruct (_ && _); [lia|done].
  - destruct (Z.eqb_spec (up_rttTestResult u) RTT_NOT_REACHABLE) as [E|]; [|done]. eexists _, _, _. split; [done|]. split; [|done]. cbn [m_up m_file].
    pose proof (mo_rtt _ _ Hok) as Hr. rewrite E in Hr. pose proof (mo_wf _ _ Hok) as [? ? ? ? ?]. apply stepped_quiet; try done; [apply Hok|cbn|by rewrite app_nil_r|cbn; lia].
    by split; [|intros Hb%Hr].
Qed.
Lemma turnFirst_step m : main_ok (m_up m) (m_file m) -> up_queueId (m_up m) + W < 2 ^ 64 - 3 ->
  exists stop m' acts, turnFirst cfg pclmul addr junk ti m = Ok (stop, m', acts) /\ stepped W (m_up m) (m_file m) (m_up m') (m_file m') acts.
Proof.
  intros Hok Hid. unfold turnFirst. destruct (switchServer_step m Hok Hid) as (m1 & a1 & -> & H1). cbn [mbind result_bind].
  destruct (handleSignal_step m1 (sp_ok _ _ _ _ _ _ H1)) as (stop & m2 & a2 & -> & H2). cbn [mbind result_bind].
  eexists _, _, _. split; [done|]. by eapply stepped_app; [exact H1|exact H2|lia|].
Qed.
Lemma turnRest_step m : main_ok (m_up m) (m_file m) -> up_queueId (m_up m) + 2 * W < 2 ^ 64 - 3 -> good_input (m_up m) (ti_input ti) ->
  exists stop m' acts, turnRest cfg junk ti m = Ok (Some (stop, m', acts)) /\ stepped (2 * W) (m_up m) (m_file m) (m_up m') (m_file m') acts.
Proof.
  intros Hok Hid Hin. unfold turnRest. destruct (handleSocket_step m Hok ltac:(lia) (fun _ => good_loop _ _ Hok Hin)) as (stop & m1 & a1 & -> & H1). cbn [mbind result_bind].
  destruct stop; [eexists _, _, _; split; [done|]; eapply stepped_weaken; [|exact H1]; lia|].
  destruct (keepAlive_step m1 (sp_ok _ _ _ _ _ _ H1)) as (stop & m2 & a2 & -> & H2); [pose proof (sp_id _ _ _ _ _ _ H1); lia|]. cbn [mbind result_bind].
  pose proof (stepped_trans _ _ _ _ _ _ _ _ _ _ H1 H2) as H12. replace (W + W) with (2 * W) in H12 by lia.
  destruct stop; [by eexists _, _, _|].
  destruct (rttCheck_step m2 (sp_ok _ _ _ _ _ _ H2)) as (stop & m3 & a3 & -> & H3 & _). cbn [mbind result_bind].
  eexists _, _, _. split; [done|]. eapply stepped_app; [exact H12|exact H3|lia|by rewrite app_assoc].
Qed.
End Parts.
End Main.

(** ** The thread among the others *)

Section Thread.
Context (truth : UplinkIO.file) (cfg : config) (pclmul : bool) (addr junk : Z).

(** What other threads do to the uplink: clients queue requests, mark one as not sent, or leave; the
    uplink is told to stop; the round-trip check reports, with a new socket if it found a server. *)
Inductive other : dnbd3_uplink_t -> list dnbd3_queue_client_t -> list answer -> list Z -> dnbd3_uplink_t -> Prop :=
| ot_queue u data callback handle start length hops rstart rend u' p :
    0 <= start -> 0 <= length <= _maxPayload cfg -> start + length <= img_virtualFilesize (up_image u) ->
    up_queueId u < 2 ^ 64 - 2 ->
    requestRange cfg (up_image u) callback start length = (rstart, rend) ->
    queueRequest cfg u data callback handle start length (requestHops cfg callback hops) rstart rend = Some (u', p) ->
    other u (with_client data callback handle start length []) [] [] u'
| ot_unsent u handle : other u [] [] [] (markRequestUnsent u handle)
| ot_remove u data callback u' answers : uplink_removeEntry u data callback = (u', answers) -> other u [] answers [] u'
| ot_shutdown u u' answers : shutdownQueue u = (u', answers) -> other u [] answers [] u'
| ot_rtt u better res cycle :
    conn_fd (up_better u) = -1 -> (res = RTT_DOCHANGE <-> conn_fd better <> -1) ->
    other u [] [] (openFds [conn_fd better]) (up_set_rtt better res cycle u).
(** Where the thread is in [handleReceive]: not in the middle of a reply; the request of a reply was found and the queue unlocked
    again, with its handle, its start and the size of the reply; the payload was written. *)
Inductive stage := BetweenReplies | RequestFound (handle start size : Z) | PayloadStored (handle start size : Z).
(** An iteration of the loop of [handleReceive] up to where the queue is unlocked after the request was looked up. *)
Definition receiveHead (w : world) (r : recv) (u : dnbd3_uplink_t) : UplinkIO.outcome * dnbd3_uplink_t * stage :=
  match r with
  | ReplyIntr => (if negb (w_shutdown w) && negb (up_shutdown u) then RecvMore else RecvFailed, u, BetweenReplies)
  | ReplyAgain => (RecvDone, u, BetweenReplies)
  | ReplyClosed | ReplyWrongMagic | ReplyError => (RecvFailed, u, BetweenReplies)
  | Reply cmd size handle payload =>
      if _maxPayload cfg <? size then (RecvFailed, u, BetweenReplies)
      else
        let u := receivePayload cfg junk u size payload in
        if negb (Z.of_nat (length payload) =? size) then (RecvFailed, u, BetweenReplies)
        else if negb (cmd =? CMD_GET_BLOCK) then (RecvMore, u, BetweenReplies)
        else
          let u := up_set_recv u (up_recvBuffer u) (u64 (up_bytesReceived u + size)) (up_cacheFd u) in
          (RecvMore, u, match findEntry u handle with None => BetweenReplies | Some (_, e) => RequestFound handle (qe_from e) size end)
  end.
(** The parts of a turn, with what the outside returns: the loop of [handleReceive] takes three for a reply, so that other threads
    can run where it has unlocked the queue, and [PSocket] is the iteration that ends the loop with what follows. *)
Inductive part :=
| PSwitch (ti : turn_in) | PSignal (ti : turn_in) | PSocket (ti : turn_in) | PKeepAlive (ti : turn_in) | PRtt (ti : turn_in)
| PReply (w : world) (r : recv) | PStore (w : world) (script : list wres) | PAnswer.
Definition endsLoop (ti : turn_in) (u : dnbd3_uplink_t) : bool :=
  match ti_socket ti, ti_input ti with
  | EvIn, [(r, _)] => match (receiveHead (ti_world ti) r u).1.1 with RecvMore => false | _ => true end
  | EvIn, _ => false
  | _, _ => true
  end.
(** [None]: the thread does not come to this part here, or the given results end too early. *)
Definition do_part (p : part) (st : stage) (m : main_t) : result (option (stage * main_t * list action)) :=
  match st, p with
  | BetweenReplies, PSwitch ti => '(m, acts) ← switchServer cfg pclmul addr junk ti m; Ok (Some (BetweenReplies, m, acts))
  | BetweenReplies, PSignal ti => '(_, m, acts) ← handleSignal ti m; Ok (Some (BetweenReplies, m, acts))
  | BetweenReplies, PKeepAlive ti => '(_, m, acts) ← keepAlive cfg ti m; Ok (Some (BetweenReplies, m, acts))
  | BetweenReplies, PRtt ti => '(_, m, acts) ← rttCheck cfg ti m; Ok (Some (BetweenReplies, m, acts))
  | BetweenReplies, PSocket ti =>
      if endsLoop ti (m_up m) then
        r ← handleSocket cfg junk ti m;
        Ok (match r with Some (_, m, acts) => Some (BetweenReplies, m, acts) | None => None end)
      else Ok None
  | BetweenReplies, PReply w r =>
      Ok (match receiveHead w r (m_up m) with (RecvMore, u, st) => Some (st, m_set_up u m, []) | _ => None end)
  | RequestFound handle start size, PStore w script =>
      stored ← storePayload w script (false, false) (m_up m) (m_file m) start size;
      Ok (match stored with
          | Some (u, f, _) =>
              Some (PayloadStored handle start size, Main u f (m_altCheckInterval m) (m_discoverFailCount m) (m_nextAltCheck m) (m_lastKeepalive m), [])
          | None => None
          end)
  | PayloadStored handle _ _, PAnswer =>
      '(u, answers) ← finishEntry (m_up m) handle; Ok (Some (BetweenReplies, m_set_up u m, [Answers answers]))
  | _, _ => Ok None
  end.
(** The server answers a request with the content of its range; enough results of the writes; the
    handles do not wrap around. *)
Definition part_good (p : part) (m : main_t) : Prop :=
  up_queueId (m_up m) + 3 * _bgrWindowSize cfg < 2 ^ 64 - 3
  /\ match p with PReply _ r => honest truth (up_queue (m_up m)) r | PStore _ script => enough cfg script | _ => True end.
(** Any interleaving of parts of turns with the other threads: the requests accepted, the callbacks called, the sockets
    opened and closed. *)
Inductive uplink_run : stage -> main_t -> list dnbd3_queue_client_t -> list answer -> list Z -> list Z -> stage -> main_t -> Prop :=
| run_nil st m : uplink_run st m [] [] [] [] st m
| run_part p st m st1 m1 acts acc ans opened closed st2 m2 :
    part_good p m -> do_part p st m = Ok (Some (st1, m1, acts)) ->
    uplink_run st1 m1 acc ans opened closed st2 m2 -> uplink_run st m acc (answersOf acts ++ ans) opened (closedOf acts ++ closed) st2 m2
| run_other st m acc1 ans1 opened1 u acc ans opened closed st2 m2 :
    other (m_up m) acc1 ans1 opened1 u -> uplink_run st (m_set_up u m) acc ans opened closed st2 m2 ->
    uplink_run st m (acc1 ++ acc) (ans1 ++ ans) (opened1 ++ opened) closed st2 m2.

(** The three parts of a reply are the iteration. *)
Lemma receiveOne_parts w script r u f : receiveOne cfg w script junk r u f =
  match receiveHead w r u with
  | (_, u, RequestFound handle start size) =>
      stored ← storePayload w script (false, false) u f start size;
      match stored with
      | None => Ok None
      | Some (u, f, _) => '(u, answers) ← finishEntry u handle; Ok (Some (RecvMore, u, f, answers))
      end
  | (o, u, _) => Ok (Some (o, u, f, []))
  end.
Proof.
  destruct r as [| | | | |cmd size handle payload]; try reflexivity. unfold receiveOne, receiveHead. cbv zeta.
  destruct (_ <? size); [done|]. destruct (negb (_ =? size)); [done|]. destruct (negb (_ =? _)); [done|].
  by destruct (findEntry _ _) as [[i e]|].
Qed.

Context (Hcfg : config_ok cfg) (Hwin : 0 <= _bgrWindowSize cfg).

(** The reply the thread is working on is in the buffer, and a queued request with its handle is the one that was found. *)
Definition stage_ok (u : dnbd3_uplink_t) (st : stage) : Prop :=
  match st with
  | BetweenReplies => True
  | RequestFound handle start size | PayloadStored handle start size =>
      0 <= start /\ 0 <= size <= _maxPayload cfg /\ start + size <= img_virtualFilesize (up_image u) /\ handle <= up_queueId u
      /\ (forall e, e ∈ up_queue u -> qe_handle e = handle -> qe_from e = start /\ qe_to e = start + size)
      /\ exists rest, up_recvBuffer u = truth_bytes truth start size ++ rest
  end.
(** What holds between the parts: an uplink that is to stop has no requests. *)
Record run_ok (st : stage) (m : main_t) : Prop := RunOk {
  ro_main : main_ok truth (m_up m) (m_file m);
  ro_down : up_shutdown (m_up m) = true -> up_queue (m_up m) = [];
  ro_stage : stage_ok (m_up m) st;
}.
(** The ranges of requests are never changed and new requests have new handles. *)
Definition keeps_ranges (u u' : dnbd3_uplink_t) : Prop :=
  forall e', e' ∈ up_queue u' -> up_queueId u < qe_handle e'
    \/ exists e, e ∈ up_queue u /\ qe_handle e = qe_handle e' /\ qe_from e = qe_from e' /\ qe_to e = qe_to e'.
#[local] Instance keeps_ranges_refl : Reflexive keeps_ranges.
Proof. intros u e He. right. by exists e. Qed.
Lemma keeps_ranges_trans u1 u2 u3 : up_queueId u1 <= up_queueId u2 -> keeps_ranges u1 u2 -> keeps_ranges u2 u3 -> keeps_ranges u1 u3.
Proof.
  intros Hid H12 H23 e3 H3. destruct (H23 e3 H3) as [?|(e2 & H2 & Eh & Ef & Et)]; [left; lia|].
  destruct (H12 e2 H2) as [?|(e1 & H1 & ? & ? & ?)]; [left; lia|]. right. exists e1. split_and!; [done|congruence..].
Qed.
Lemma keeps_ranges_insert u u' i e e' : up_queue u !! i = Some e -> up_queue u' = <[i := e']> (up_queue u) ->
  qe_handle e' = qe_handle e -> qe_from e' = qe_from e -> qe_to e' = qe_to e -> keeps_ranges u u'.
Proof.
  intros Hi Hq Eh Ef Et x Hx. right. rewrite Hq in Hx. apply list_elem_of_lookup in Hx as [j Hj].
  destruct (decide (i = j)) as [<-|Hne].
  - rewrite list_lookup_insert_eq in Hj by (by eapply lookup_lt_Some). injection Hj as <-. exists e. split; [by eapply list_elem_of_lookup_2|done].
  - rewrite list_lookup_insert_ne in Hj by done. exists x. split; [by eapply list_elem_of_lookup_2|done].
Qed.
Lemma stage_ok_keeps u u' st : stage_ok u st -> keeps_ranges u u' -> up_queueId u <= up_queueId u' -> up_recvBuffer u' = up_recvBuffer u ->
  img_virtualFilesize (up_image u') = img_virtualFilesize (up_image u) -> stage_ok u' st.
Proof.
  intros Hst Hk Hid Hb Hv. destruct st as [|h start size|h start size]; [done|..]; destruct Hst as (? & ? & ? & ? & He & Hbuf).
  all: unfold stage_ok; rewrite Hv, Hb; split_and!; try done; try lia; intros e' H' Eh;
    destruct (Hk e' H') as [?|(e & He1 & E1 & <- & <-)]; [lia|]; apply He; [done|congruence].
Qed.
Lemma queueRequest_keeps u data callback handle start length hops rstart rend u' p : uplink_wf u -> up_queueId u < 2 ^ 64 - 2 ->
  queueRequest cfg u data callback handle start length hops rstart rend = Some (u', p) -> keeps_ranges u u'.
Proof.
  intros Hwf Hid. pose proof (uw_id _ Hwf) as Hid0. unfold queueRequest. destruct (up_shutdown u); [done|].
  destruct (acquireRequest _ _ _ _ _ _ _) as [[[u1 i] isNew]|] eqn:Ha; cbn [mbind option_bind]; [|done].
  assert (keeps_ranges u u1 /\ up_queueId u <= up_queueId u1 <= up_queueId u + 1) as [Hk1 Hid1].
  { unfold acquireRequest in Ha. repeat case_match; simplify_eq; (split; [|cbn; rewrite ?u64_id by crange; lia]); try done.
    all: intros e [He|He%list_elem_of_singleton]%elem_of_app; [right; by exists e|left; subst e; cbn; rewrite u64_id by crange; lia]. }
  destruct (prefetch _ _ _ _ _ _ _ _ _) as [u2 pre] eqn:Hp.
  assert (keeps_ranges u1 u2 /\ up_queueId u1 <= up_queueId u2) as [Hk2 Hid2].
  { unfold prefetch in Hp. destruct (up_queue u1 !! i) as [e0|]; [|by injection Hp as <- <-]. destruct (_ && (length <=? _)); [|by injection Hp as <- <-].
    destruct (_ <? extendRequest _ _ _ _ _); [|by injection Hp as <- <-]. injection Hp as <- <-. split; [|cbn; rewrite u64_id by crange; lia].
    intros e He. cbn [up_set_queue up_queue] in He. rewrite elem_of_app, elem_of_cons in He. destruct He as [He|[->|He]].
    - right. exists e. split; [|done]. rewrite <- (take_drop (S i) (up_queue u1)). apply elem_of_app. by left.
    - left. cbn. rewrite u64_id by crange. lia.
    - right. exists e. split; [|done]. rewrite <- (take_drop (S i) (up_queue u1)). apply elem_of_app. by right. }
  destruct (up_queue u2 !! i) as [e|] eqn:Hi; cbn [mbind option_bind]; [|done]. intros [= <- _].
  apply (keeps_ranges_trans u u2); [lia|apply (keeps_ranges_trans u u1); [lia|done..]|]. destruct (callback =? NULL); [done|].
  unfold attachClient. rewrite Hi. by eapply keeps_ranges_insert.
Qed.
Lemma other_keeps u acc ans opened u' : uplink_wf u -> other u acc ans opened u' ->
  keeps_ranges u u' /\ up_queueId u <= up_queueId u' /\ up_recvBuffer u' = up_recvBuffer u /\ img_virtualFilesize (up_image u') = img_virtualFilesize (up_image u).
Proof.
  intros Hwf Ho. destruct Ho as [v data callback handle start length hops rstart rend v' p Hs Hl He Hid Hrange Hq|v handle|v data callback v' a Hr|v v' a Hr|v better res cycle Hb Hres].
  - pose proof (co_payload _ Hcfg).
    pose proof (requestRange_covers cfg Hcfg v Hwf callback start length Hs ltac:(lia) He rstart rend ltac:(lia) Hrange) as Hcov.
    destruct (queueRequest_spec cfg Hcfg v Hwf data callback handle start length Hs ltac:(lia) He Hid _ rstart rend v' p Hcov Hq) as (_ & Hsr & _ & ?).
    split_and!; [by eapply queueRequest_keeps|lia|apply Hsr|apply Hsr].
  - unfold markRequestUnsent. destruct (list_find _ _) as [[i e]|] eqn:E; [|done]. apply list_find_Some in E as (Hi & _).
    split_and!; [by eapply keeps_ranges_insert|done..].
  - unfold uplink_removeEntry in Hr. injection Hr as <- _. split_and!; try done. intros e' He'. right.
    apply list_elem_of_fmap in He' as (e & -> & He). by exists e.
  - unfold shutdownQueue, cancelAllRequests in Hr. injection Hr as <- _. split_and!; try done. intros e' He'. by apply not_elem_of_nil in He'.
  - split_and!; [exact (keeps_ranges_refl v)|cbn; lia|done..].
Qed.

(** The parts of a reply. *)
Lemma receiveHead_step w r u f o u' st : main_ok truth u f -> honest truth (up_queue u) r -> receiveHead w r u = (o, u', st) ->
  stepped truth 0 u f u' f [] /\ (o = RecvMore -> stage_ok u' st) /\ (o <> RecvMore -> st = BetweenReplies).
Proof.
  intros Hok Hhon Hr.
  assert (forall b n c, stepped truth 0 u f (up_set_recv u b n c) f []) as Hset by (intros; by apply same_queue_stepped; try apply Hok).
  destruct r as [| | | | |cmd size handle payload]; cbn [receiveHead] in Hr;
    try (injection Hr as <- <- <-; split; [by apply stepped_refl|by split]).
  destruct Hhon as [Hsz Hhon]. destruct (Z.ltb_spec (_maxPayload cfg) size); [injection Hr as <- <- <-; split; [by apply stepped_refl|done]|].
  destruct (Z.eqb_spec (Z.of_nat (length payload)) size) as [Hlen|]; cbn [negb] in Hr; [|injection Hr as <- <- <-; split; [apply Hset|done]].
  destruct (negb (cmd =? CMD_GET_BLOCK)); injection Hr as <- <- <-; (split; [apply Hset|]); split; try done. intros _.
  destruct (findEntry _ handle) as [[i e]|] eqn:Hf; [|done]. apply list_find_Some in Hf as (Hi & Hh & _).
  cbn [up_set_recv receivePayload up_queue] in Hi.
  assert (e ∈ up_queue u) as He by (by apply list_elem_of_lookup_2 in Hi). destruct (Hhon e He Hh) as [Hse Hpay].
  pose proof (queue_wf_lookup _ _ _ _ _ (uw_queue _ (mo_wf _ _ _ Hok)) Hi) as Heo. pose proof (eo_range _ _ _ Heo) as [? ?]. pose proof (eo_handle _ _ _ Heo).
  unfold stage_ok. cbn [up_set_recv receivePayload up_queue up_image up_queueId up_recvBuffer]. split_and!; try lia.
  - intros e' He' Hh'. assert (e' = e) as ->; [|lia].
    apply list_elem_of_lookup in He' as [j Hj]. pose proof (qw_handles _ _ _ (uw_queue _ (mo_wf _ _ _ Hok))) as Hnd.
    assert (i = j) as ->; [|congruence]. eapply (NoDup_lookup _ _ _ (qe_handle e)); [exact Hnd|..]; rewrite list_lookup_fmap; [by rewrite Hi|rewrite Hj; cbn; congruence].
  - rewrite <- Hpay by done. by eexists.
Qed.
Lemma store_step w script u f handle start size : main_ok truth u f -> stage_ok u (RequestFound handle start size) -> enough cfg script ->
  exists u' f' checks, storePayload w script (false, false) u f start size = Ok (Some (u', f', checks))
    /\ stepped truth 0 u f u' f' [] /\ stage_ok u' (PayloadStored handle start size).
Proof.
  intros Hok (Hs & Hsz & He & Hh & Hq & rest & Hbuf) Hen. unfold enough in Hen.
  assert (size <= Z.of_nat (length (up_recvBuffer u))) as Hlen by (rewrite Hbuf, length_app; pose proof (length_truth_bytes truth start size); lia).
  destruct (storePayload_spec w script truth f u start size) with (junk := (false, false)) as (u' & f' & checks & Hst & Hsq & Himg & Hcons); [apply Hok|lia..|].
  pose proof Hst as Hst0. apply conns_storePayload in Hst as [Hc Hn]. injection Hc as Hc1 Hc2 Hc3 Hc4. exists u', f', checks. split; [exact Hst0|].
  pose proof (sq_queue _ _ Hsq) as Eq. split.
  - split; cbn; rewrite ?app_nil_r; try done; [|by rewrite Eq|unfold socks; by rewrite Hc1, Hc2|rewrite (sq_id _ _ Hsq); lia|by rewrite Eq].
    split; [eapply same_queue_wf; [exact Hsq|apply Hok]|done| |unfold next_ok; rewrite Hn, (sq_vfs _ _ Hsq); apply Hok|rewrite Hc3, Hc2; apply Hok].
    apply Hcons; [|apply Hok]. intros p Hp. rewrite Hbuf, lookup_total_app_l by (pose proof (length_truth_bytes truth start size); lia).
    rewrite (list_lookup_total_correct _ _ (truth p)); [done|]. rewrite lookup_truth_bytes by lia. f_equal. f_equal. lia.
  - unfold stage_ok. rewrite Eq, (sq_id _ _ Hsq), (sq_vfs _ _ Hsq), (sq_buffer _ _ Hsq). split_and!; try done; try lia. by exists rest.
Qed.
Lemma answer_step u f handle start size : main_ok truth u f -> stage_ok u (PayloadStored handle start size) ->
  exists u' answers, finishEntry u handle = Ok (u', answers) /\ stepped truth 0 u f u' f [Answers answers].
Proof.
  intros Hok (Hs & Hsz & He & Hh & Hq & rest & Hbuf).
  assert (size <= Z.of_nat (length (up_recvBuffer u))) as Hlen by (rewrite Hbuf, length_app; pose proof (length_truth_bytes truth start size); lia).
  destruct (finishEntry_spec u handle (mo_wf _ _ _ Hok)) as (u' & answers & Hfin & Hwf & Hsr & Hid & Hp & Ha & Hq').
  { intros e Hin Eh. destruct (Hq e Hin Eh). lia. }
  exists u', answers. split; [done|]. pose proof (next_finishEntry u handle u' answers (mo_wf _ _ _ Hok) Hfin) as Hn. apply conns_finishEntry in Hfin as Hc.
  injection Hc as Hc1 Hc2 Hc3 Hc4. split; cbn; rewrite ?app_nil_r; try done.
  - eapply main_ok_frame; [exact Hok|done|by apply same_rest_image|apply Hn, Hok|rewrite Hc3, Hc2; apply Hok].
  - destruct (findEntry u handle) as [[i e]|] eqn:Hf.
    + apply list_find_Some in Hf as (Hi & Eh & _). assert (e ∈ up_queue u) as Hin by (by apply list_elem_of_lookup_2 in Hi).
      destruct (Hq e Hin Eh) as [Ef Et]. rewrite (Ha e Hin Eh). apply List.Forall_map.
      pose proof (queue_wf_lookup _ _ _ _ _ (uw_queue _ (mo_wf _ _ _ Hok)) Hi) as Heo.
      eapply list.Forall_impl; [apply (eo_clients _ _ _ Heo)|]. intros c (H1 & H2 & H3).
      unfold good_answer, client_answer. cbn. f_equal. rewrite Hbuf, Ef. apply truth_slice; lia.
    + assert (answers = []) as ->; [|constructor]. revert Hfin. unfold finishEntry, takeEntry. fold (findEntry u handle). rewrite Hf. by intros [= _ <-].
  - unfold socks. by rewrite Hc1, Hc2.
  - lia.
  - intros _ Hemp. destruct (up_queue u') as [|e q]; [done|]. destruct (not_elem_of_nil e). rewrite <- Hemp. apply Hq'. by left.
Qed.

(** Every part works and keeps what holds. *)
Lemma part_stepped p st m : run_ok st m -> part_good p m -> exists r, do_part p st m = Ok r
  /\ forall st' m' acts, r = Some (st', m', acts) ->
     stepped truth (3 * _bgrWindowSize cfg) (m_up m) (m_file m) (m_up m') (m_file m') acts /\ stage_ok (m_up m') st'.
Proof.
  intros [Hok Hsd Hst] [Hid Hp].
  assert (forall n st' m' acts, n <= 3 * _bgrWindowSize cfg -> stepped truth n (m_up m) (m_file m) (m_up m') (m_file m') acts -> stage_ok (m_up m') st' ->
    exists r, Ok (Some (st', m', acts)) = Ok (A := option (stage * main_t * list action)) r /\ forall st1 m1 acts1, r = Some (st1, m1, acts1) ->
     stepped truth (3 * _bgrWindowSize cfg) (m_up m) (m_file m) (m_up m1) (m_file m1) acts1 /\ stage_ok (m_up m1) st1) as Hend.
  { intros n st' m' acts Hn H Hs. eexists. split; [done|]. intros ? ? ? [= <- <- <-]. split; [|done]. by eapply stepped_weaken. }
  destruct st as [|h start size|h start size], p as [ti|ti|ti|ti|ti|w r|w script|]; cbn [do_part]; try (by eexists; split; [done|]).
  - destruct (switchServer_step truth cfg pclmul addr junk ti Hcfg Hwin m Hok) as (m1 & a & -> & H); [lia|]. cbn [mbind result_bind]. by eapply Hend; [|exact H|].
  - destruct (handleSignal_step truth cfg ti m Hok) as (s1 & m1 & a & -> & H). cbn [mbind result_bind]. eapply Hend; [|exact H|done]. lia.
  - destruct (endsLoop ti (m_up m)) eqn:Ee; [|by eexists; split; [done|]].
    destruct (handleSocket_step truth cfg junk ti Hcfg Hwin m Hok) as (s1 & m1 & a & -> & H); [lia| |].
    + intros Hin. unfold endsLoop in Ee. rewrite Hin in Ee. destruct (ti_input ti) as [|[r script] [|]] eqn:Ei; try done.
      destruct (receiveHead (ti_world ti) r (m_up m)) as [[o u] st] eqn:Er. cbn [fst] in Ee.
      assert (st = BetweenReplies /\ received truth (m_up m) (m_file m) u (m_file m) []) as [-> Hrec].
      { unfold receiveHead in Er. repeat case_match; simplify_eq; try done; (split; [done|]); apply received_same; try done; apply Hok. }
      unfold loop_ok. rewrite Ei. cbn [receiveLoop]. rewrite receiveOne_parts, Er. cbn [mbind result_bind].
      destruct o; try done; by eexists _, _, _, _.
    + cbn [mbind result_bind]. by eapply Hend; [|exact H|].
  - destruct (keepAlive_step truth cfg ti Hcfg Hwin m Hok) as (s1 & m1 & a & -> & H); [lia|]. cbn [mbind result_bind]. by eapply Hend; [|exact H|].
  - destruct (rttCheck_step truth cfg ti m Hok) as (s1 & m1 & a & -> & H & _). cbn [mbind result_bind]. eapply Hend; [|exact H|done]. lia.
  - destruct (receiveHead w r (m_up m)) as [[o u] st] eqn:Er. destruct (receiveHead_step _ _ _ _ _ _ _ Hok Hp Er) as (H & Hs & _).
    destruct o; try (by eexists; split; [done|]). eapply Hend; [|exact H|by apply Hs]. lia.
  - destruct (store_step w script _ _ _ _ _ Hok Hst Hp) as (u & f & checks & -> & H & Hs). cbn [mbind result_bind]. eapply Hend; [|exact H|exact Hs]. lia.
  - destruct (answer_step _ _ _ _ _ Hok Hst) as (u & answers & -> & H). cbn [mbind result_bind]. eapply Hend; [|exact H|done]. lia.
Qed.
Definition told (a : answer) : Prop := good_answer truth a \/ ans_data a = None.
Lemma other_ok u acc ans opened u' f : main_ok truth u f -> (up_shutdown u = true -> up_queue u = []) -> other u acc ans opened u' ->
  main_ok truth u' f /\ (up_shutdown u' = true -> up_queue u' = [])
  /\ pending (up_queue u') ++ answered ans ≡ₚ acc ++ pending (up_queue u) /\ socks u ++ opened ≡ₚ socks u' /\ Forall told ans.
Proof.
  intros Hok Hsd Ho. pose proof (mo_wf _ _ _ Hok) as Hwf.
  assert (forall u', same_rest u u' -> uplink_wf u' -> conns u' = conns u -> up_nextReplicationIndex u' = up_nextReplicationIndex u ->
    main_ok truth u' f /\ socks u ++ [] ≡ₚ socks u') as Hframe.
  { intros v Hs Hv Hc Hn. injection Hc as Hc Hb Hr _. split; [|unfold socks; by rewrite Hc, Hb, app_nil_r].
    eapply main_ok_frame; [done|done|by apply same_rest_image| |rewrite Hr, Hb; apply Hok]. unfold next_ok. rewrite Hn, (sr_vfs _ _ Hs). apply Hok. }
  destruct Ho as [u data callback handle start length hops rstart rend u' p Hs Hl He Hid Hrange Hq|u handle|u data callback u' ans Hr|u u' ans Hr|u better res cycle Hb Hres].
  - pose proof (co_payload _ Hcfg).
    pose proof (requestRange_covers cfg Hcfg u Hwf callback start length Hs ltac:(lia) He rstart rend ltac:(lia) Hrange) as Hcov.
    destruct (queueRequest_spec cfg Hcfg u Hwf data callback handle start length Hs ltac:(lia) He Hid _ rstart rend u' p Hcov Hq) as (Hwf' & Hsr & Hp & _).
    destruct (conns_queueRequest _ _ _ _ _ _ _ _ _ _ _ _ Hq) as [Hc Hn]. destruct (Hframe u') as [Hok' Hso]; [done..|].
    assert (up_shutdown u = false) as Hnot by (unfold queueRequest in Hq; by destruct (up_shutdown u) in Hq |- *).
    split_and!; [done|rewrite (sr_shutdown _ _ Hsr), Hnot; done|rewrite Hp, with_client_nil, app_nil_r; done|done|exact (List.Forall_nil _)].
  - destruct (markRequestUnsent_spec u Hwf handle) as (Hwf' & Hsr & Hp & _).
    assert (up_queue u = [] -> up_queue (markRequestUnsent u handle) = []) as He by (intros E; unfold markRequestUnsent; by rewrite E).
    destruct (Hframe (markRequestUnsent u handle)) as [Hok' Hso]; [done|done|apply conns_markRequestUnsent|unfold markRequestUnsent; by destruct (list_find _ _) as [[]|]|].
    split_and!; [done|rewrite (sr_shutdown _ _ Hsr); auto|by rewrite Hp, app_nil_r|done|exact (List.Forall_nil _)].
  - destruct (uplink_removeEntry_spec u data callback u' ans Hwf Hr) as (Hwf' & Hsr & _ & Hp & _ & Hans).
    unfold uplink_removeEntry in Hr. injection Hr as <- <-. destruct (Hframe _ Hsr Hwf') as [Hok' Hso]; [done..|].
    split_and!; [done| |by rewrite Hp|done|eapply list.Forall_impl; [exact Hans|]; by intros a [? _]; right]. intros Hd. cbn. by rewrite (Hsd Hd).
  - unfold shutdownQueue in Hr.
    assert (main_ok truth (up_set_shutdown u true) f) as Hok1 by (eapply main_ok_frame; [exact Hok|by destruct Hwf; split|done|apply Hok|apply Hok]).
    destruct (cancelAllRequests_spec _ u' ans (mo_wf _ _ _ Hok1) Hr) as (Hwf' & Hsr & _ & Hq & Hp & Hans). unfold cancelAllRequests in Hr. injection Hr as <- <-.
    split_and!; [eapply main_ok_frame; [exact Hok|done|done|apply Hok|apply Hok]|done|by rewrite Hq, Hp|by rewrite app_nil_r|].
    eapply list.Forall_impl; [exact Hans|]. by right.
  - split_and!; [eapply main_ok_frame; [exact Hok|by destruct Hwf; split|done|apply Hok|done]|done|by rewrite app_nil_r| |exact (List.Forall_nil _)].
    unfold socks. cbn [up_set_rtt up_current up_better]. rewrite Hb. unfold openFds.
    change [conn_fd (up_current u); -1] with ([conn_fd (up_current u)] ++ [-1]).
    change [conn_fd (up_current u); conn_fd better] with ([conn_fd (up_current u)] ++ [conn_fd better]).
    rewrite !list.filter_app, (filter_cons_False _ (-1)) by (intros H; by apply H). by rewrite filter_nil, app_nil_r.
Qed.
Lemma run_keeps st m acc ans opened closed st' m' : uplink_run st m acc ans opened closed st' m' -> run_ok st m ->
  run_ok st' m' /\ pending (up_queue (m_up m')) ++ answered ans ≡ₚ acc ++ pending (up_queue (m_up m))
  /\ socks (m_up m) ++ opened ≡ₚ socks (m_up m') ++ closed /\ Forall told ans.
Proof.
  induction 1 as [st m|p st m st1 m1 acts acc ans opened closed st2 m2 Hgood Hpart _ IH|st m acc1 ans1 opened1 u acc ans opened closed st2 m2 Ho _ IH]; intros Hrun.
  - split_and!; [done|by rewrite app_nil_r|done|exact (List.Forall_nil _)].
  - destruct (part_stepped p st m Hrun Hgood) as (r & E & Hr). rewrite Hpart in E. injection E as <-.
    destruct (Hr _ _ _ eq_refl) as [[Hok1 Hp1 Hg1 Hs1 _ Hd1 He1] Hst1]. destruct Hrun as [Hok Hsd Hst].
    destruct IH as (Hr2 & Hp2 & Hs2 & Ht2); [split; [done| |done]; intros Hd; rewrite Hd1 in Hd; auto|]. split_and!; [done|..].
    + unfold answered in *. rewrite map_app, Hp1. rewrite (Permutation_app_comm (map _ _)), app_assoc, Hp2. solve_Permutation.
    + rewrite Hs1, (Permutation_app_comm (closedOf acts)), !app_assoc, <- Hs2. solve_Permutation.
    + apply Forall_app. split; [|done]. eapply list.Forall_impl; [exact Hg1|]. by left.
  - destruct Hrun as [Hok Hsd Hst]. destruct (other_ok _ _ _ _ _ (m_file m) Hok Hsd Ho) as (Hok1 & Hsd1 & Hp1 & Hs1 & Ht1).
    destruct (other_keeps _ _ _ _ _ (mo_wf _ _ _ Hok) Ho) as (Hk & Hid & Hb & Hv).
    destruct IH as (Hr2 & Hp2 & Hs2 & Ht2); [split; [done|done|by eapply stage_ok_keeps]|]. split_and!; [done|..].
    + unfold answered in *. rewrite map_app, (Permutation_app_comm (map _ ans1)), app_assoc, Hp2. cbn. rewrite <- !app_assoc, Hp1. solve_Permutation.
    + rewrite app_assoc, Hs1. done.
    + by apply Forall_app.
Qed.
End Thread.

(** ** Theorems *)

(** C6. A turn of the uplink thread, from the switch to another server over relaying, receiving
    and keep-alives to starting the next round-trip check, with everything that can fail in it: with a
    server that answers requests with the content of their range the turn never faults, every client it answers gets the bytes of
    the image and every other one waits on, the queue and the image stay well formed and the
    cache consistent, and every socket is either still in use or was closed exactly once. *)
Theorem uplink_turn_correct truth cfg pclmul addr junk ti m :
  config_ok cfg -> 0 <= _bgrWindowSize cfg -> main_ok truth (m_up m) (m_file m) ->
  up_queueId (m_up m) + 9 * _bgrWindowSize cfg < 2 ^ 64 - 3 ->
  (forall m1 acts, turnFirst cfg pclmul addr junk ti m = Ok (false, m1, acts) -> good_input truth cfg (m_up m1) (ti_input ti)) ->
  exists stop m' acts, uplink_turn cfg pclmul addr junk ti m = Ok (Some (stop, m', acts))
    /\ main_ok truth (m_up m') (m_file m')
    /\ pending (up_queue (m_up m)) ≡ₚ pending (up_queue (m_up m')) ++ answered (answersOf acts)
    /\ Forall (good_answer truth) (answersOf acts)
    /\ socks (m_up m) ≡ₚ socks (m_up m') ++ closedOf acts.
Proof.
  intros Hcfg Hwin Hok Hid Hin. unfold uplink_turn.
  assert (forall stop, exists stop' m' acts, Ok (Some (stop, m, [])) = Ok (A := option (bool * main_t * list action)) (Some (stop', m', acts))
    /\ main_ok truth (m_up m') (m_file m') /\ pending (up_queue (m_up m)) ≡ₚ pending (up_queue (m_up m')) ++ answered (answersOf acts)
    /\ Forall (good_answer truth) (answersOf acts) /\ socks (m_up m) ≡ₚ socks (m_up m') ++ closedOf acts) as Hsame.
  { intros stop. eexists _, _, _. split; [done|]. destruct (stepped_refl truth _ _ Hok). done. }
  destruct (_ || _); [done|]. destruct (negb _); [done|].
  destruct (turnFirst_step truth cfg pclmul addr junk ti Hcfg Hwin m Hok) as (stop & m1 & a1 & E1 & H1); [lia|].
  rewrite E1. cbn [mbind result_bind]. destruct stop.
  { eexists _, _, _. split; [done|]. by destruct H1. }
  destruct (turnRest_step truth cfg junk ti Hcfg Hwin m1 (sp_ok _ _ _ _ _ _ _ H1)) as (stop & m2 & a2 & -> & H2).
  { pose proof (sp_id _ _ _ _ _ _ _ H1). lia. }
  { by eapply Hin. }
  cbn [mbind result_bind option_bind]. eexists _, _, _. split; [done|].
  by destruct (stepped_trans _ _ _ _ _ _ _ _ _ _ _ H1 H2).
Qed.

Lemma image_size_ok image : image_wf image -> 0 < img_virtualFilesize image <= 2 ^ 46 - 2 ^ 15 /\ img_virtualFilesize image mod 4096 = 0.
Proof.
  intros [Hr Hv Hl _]. rewrite Hv in *. assert (1 <= (img_realFilesize image + 4095) / 4096) by (apply Z.div_le_lower_bound; lia).
  split; [lia|]. rewrite Z.mul_comm. apply Z.mod_mul. lia.
Qed.
Lemma uplink_begin_ok truth cfg e alts image sock host version u closed w now f :
  image_wf image -> consistent truth f image -> uplink_init e alts image sock host version = Ok (InitResult true (Some u) closed) ->
  let m := (uplink_begin w now u f).1 in
  run_ok truth cfg BetweenReplies m /\ up_queue (m_up m) = [] /\ socks (m_up m) = openFds [sock] /\ m_file m = f.
Proof.
  intros Hwf Hf Hi. destruct (image_size_ok image Hwf) as [Hsz Hal].
  assert (u = initConnections alts sock host version (newUplink image)) as ->.
  { unfold uplink_init in Hi. repeat case_match; try done; by simplify_eq. }
  set (u := initConnections alts sock host version (newUplink image)).
  assert (main_ok truth u f /\ up_queue u = [] /\ up_shutdown u = false /\ socks u = openFds [sock]) as (Hok & Hq & Hd & Hs).
  { split_and!; try done.
    - split; cbn; try done.
      + split; cbn; try done. split; constructor.
      + by destruct Hwf; split.
      + unfold next_ok. cbn. split; [lia|]. apply Z.div_pos; lia.
      + destruct (Z.eqb_spec sock (-1)); done.
    - unfold socks, u, initConnections. cbn [up_set_rtt up_set_current up_current up_better conn_fd]. rewrite openFds_none.
      destruct (Z.eqb_spec sock (-1)) as [->|]; done. }
  clearbody u. unfold uplink_begin, reopenCacheFd. cbn zeta.
  destruct (negb _ && _); cbn [snd fst m_up m_file]; [by split_and!; try split|]. split_and!; try done. split; [|done|done].
  eapply main_ok_frame; [exact Hok|by destruct (mo_wf _ _ _ Hok); split|done|apply Hok|apply Hok].
Qed.

(** The end of the thread: the requests that are left are dropped. *)
Lemma cleanup_answers truth m f u ans' held : main_ok truth m f -> (up_shutdown m = true -> up_queue m = []) ->
  uplink_cleanup (negb (up_shutdown m)) m = (u, ans', held) ->
  up_queue u = [] /\ up_queueLen u = 0 /\ answered ans' = pending (up_queue m) /\ Forall (fun a => ans_data a = None) ans'
  /\ up_current u = up_current m /\ up_better u = up_better m.
Proof.
  intros Hok Hsd Hclean. pose proof (mo_wf _ _ _ Hok) as Hwfm. unfold uplink_cleanup in Hclean. destruct (up_shutdown m); cbn [negb] in Hclean.
  - injection Hclean as <- <- <-. specialize (Hsd eq_refl). pose proof (uw_len _ Hwfm) as Hlen. cbn. rewrite Hsd in *. by split_and!.
  - destruct (cancelAllRequests _) as [u1 a1] eqn:Ec. injection Hclean as <- <- <-.
    assert (uplink_wf (up_set_shutdown (up_set_image m (markDirty (up_image m))) true)) as Hwf1 by (by destruct Hwfm; split).
    destruct (cancelAllRequests_spec _ _ _ Hwf1 Ec) as (_ & _ & _ & Hq & Ha & Hn).
    unfold cancelAllRequests in Ec. injection Ec as <- <-. by split_and!.
Qed.

(** C18. The life of an uplink: it is started with or without a socket, its thread takes any number
    of turns, and then cleans up.  Clients that queue and leave, the round-trip check that opens sockets
    and a call that stops the uplink come in at any place between the parts of a turn: the switch of the server, the
    signal, the keep-alive, the check, and for each reply its arrival with the search for its request, the
    writing of its payload, and the answers; so wherever [handleReceive] has unlocked the queue.  If the server
    answers a request only with the content of its range, and the handles do not wrap around, then no part faults;
    and when the thread has cleaned up, every
    request that was accepted has been answered exactly once, with the bytes of the image or with
    the notice that it was dropped, and every socket that was passed or opened has been closed exactly once. *)
Theorem uplink_lifecycle truth cfg pclmul addr junk e alts image sock host version u0 w now f acc ans opened closed st m :
  config_ok cfg -> 0 <= _bgrWindowSize cfg -> image_wf image -> consistent truth f image ->
  uplink_init e alts image sock host version = Ok (InitResult true (Some u0) []) ->
  uplink_run truth cfg pclmul addr junk BetweenReplies (uplink_begin w now u0 f).1 acc ans opened closed st m ->
  (forall p, part_good truth cfg p m -> exists r, do_part cfg pclmul addr junk p st m = Ok r)
  /\ (st = BetweenReplies -> forall u ans' held, uplink_cleanup (negb (up_shutdown (m_up m))) (m_up m) = (u, ans', held) ->
      answered (ans ++ ans') ≡ₚ acc
      /\ Forall (fun a => good_answer truth a \/ ans_data a = None) (ans ++ ans')
      /\ exists freed, freeUplinkStruct u = Ok (freed ++ openFds [up_cacheFd u]) /\ openFds [sock] ++ opened ≡ₚ closed ++ freed).
Proof.
  intros Hcfg Hwin Hwf Hf Hi Hrun. destruct (uplink_begin_ok truth cfg e alts image sock host version u0 [] w now f Hwf Hf Hi) as (Hok0 & Hq0 & Hs0 & _).
  destruct (run_keeps truth cfg pclmul addr junk Hcfg Hwin _ _ _ _ _ _ _ _ Hrun Hok0) as (Hrok & Hp & Hs & Ht). rewrite Hs0 in Hs. rewrite Hq0, app_nil_r in Hp.
  split; [intros p Hgood; destruct (part_stepped truth cfg pclmul addr junk Hcfg Hwin p st m Hrok Hgood) as (r & E & _); by exists r|].
  intros _ u ans' held Hclean. destruct Hrok as [Hok Hsd _].
  destruct (cleanup_answers truth _ _ _ _ _ Hok Hsd Hclean) as (Hq & Hl & Ha & Hn & Hc & Hb).
  split_and!.
  - unfold answered in *. rewrite map_app, Ha, Permutation_app_comm. exact Hp.
  - apply Forall_app. split; [done|]. eapply list.Forall_impl; [exact Hn|]. by right.
  - exists (socks u). split.
    + unfold freeUplinkStruct. rewrite Hl. cbn [Z.eqb assert_ mbind result_bind]. f_equal. unfold socks, openFds.
      change [conn_fd (up_current u); conn_fd (up_better u); up_cacheFd u] with ([conn_fd (up_current u); conn_fd (up_better u)] ++ [up_cacheFd u]).
      apply list.filter_app.
    + rewrite Hs. unfold socks. rewrite Hc, Hb. apply Permutation_app_comm.
Qed.

(** A turn that switches from socket 5 to socket 6 and receives the reply to the queued request. *)
Definition demo_main : main_t :=
  Main (up_set_rtt (Conn 6 3 1) RTT_DOCHANGE false demo_queued) demo_truth 5 0 (Ticks 0 0) (Ticks 0 0).
Definition demo_turn : turn_in :=
  TurnIn true EvNone EvIn false false (Ticks 1 0) (fun _ => true) (fun _ => true) true true None [] (World false true 4)
    ([(Reply CMD_GET_BLOCK 4096 1 (truth_bytes demo_truth 0 4096), demo_script)] ++ [(ReplyAgain, demo_script)]) [] true.
Lemma demo_main_ok : main_ok demo_truth (m_up demo_main) (m_file demo_main).
Proof.
  split.
  - destruct demo_queued_wf. split; done.
  - exact demo_image_wf.
  - intros b _ _ p _. reflexivity.
  - vm_compute. split; congruence.
  - split; [intros _; discriminate|reflexivity].
Qed.
Lemma uplink_turn_correct_witness :
  exists stop m' acts, uplink_turn demo_config false 0 0 demo_turn demo_main = Ok (Some (stop, m', acts))
    /\ Forall (good_answer demo_truth) (answersOf acts) /\ [5; 6] ≡ₚ socks (m_up m') ++ closedOf acts.
Proof.
  destruct (uplink_turn_correct demo_truth demo_config false 0 0 demo_turn demo_main) as (stop & m' & acts & Hrun & _ & _ & Hg & Hs).
  - exact demo_config_ok.
  - cbn. lia.
  - exact demo_main_ok.
  - vm_compute. reflexivity.
  - intros m1 acts H. vm_compute in H. injection H as <- <-. assert (enough demo_config demo_script) as Hen by (vm_compute; congruence).
    exists [(Reply CMD_GET_BLOCK 4096 1 (truth_bytes demo_truth 0 4096), demo_script)], demo_script. split; [reflexivity|]. split; [exact Hen|].
    constructor; [split; [|exact Hen]|constructor]. split; [lia|]. intros e He Hh.
    apply list_elem_of_singleton in He as ->. split; reflexivity.
  - exists stop, m', acts. split; [exact Hrun|]. split; [exact Hg|exact Hs].
Defined.
(** An uplink that is started with socket 5; one client asks and the uplink ends. *)
Definition demo_env : init_env := InitEnv true false true false true true.
Definition demo_host : dnbd3_host_t := Host (replicate 16 0) 0 2.
Definition demo_new : dnbd3_uplink_t := initConnections [] 5 demo_host 3 (newUplink demo_image).
Definition demo_begin : main_t := (uplink_begin (World false true 4) (Ticks 0 0) demo_new demo_truth).1.
Definition demo_switched : main_t :=
  match do_part demo_config false 0 0 (PSwitch demo_turn) BetweenReplies demo_begin with Ok (Some (_, m, _)) => m | _ => demo_begin end.
Definition demo_ask (data : Z) (m : main_t) : main_t :=
  match queueRequest demo_config (m_up m) data 1 77 100 200 1 0 4096 with Some (u, _) => m_set_up u m | None => m end.
Definition demo_asked : main_t := demo_ask 9 demo_switched.
Definition demo_reply : part := PReply (World false true 4) (Reply CMD_GET_BLOCK 4096 (up_queueId (m_up demo_asked)) (truth_bytes demo_truth 0 4096)).
Definition demo_after (p : part) (st : stage) (m : main_t) : main_t :=
  match do_part demo_config false 0 0 p st m with Ok (Some (_, m, _)) => m | _ => m end.
Definition demo_found : stage := RequestFound (up_queueId (m_up demo_asked)) 0 4096.
Definition demo_attached : main_t := demo_ask 8 (demo_after demo_reply BetweenReplies demo_asked).
Definition demo_stored : main_t := demo_after (PStore (World false true 4) demo_script) demo_found demo_attached.
Definition demo_done : stage := PayloadStored (up_queueId (m_up demo_asked)) 0 4096.
Definition demo_last : main_t := demo_after PAnswer demo_done demo_stored.
Definition demo_second : dnbd3_queue_client_t := QueueClient 8 77 100 300 1.
Definition demo_answers : list answer := (fun c => Answer c (Some (truth_bytes demo_truth 100 200))) <$> [demo_client; demo_second].
(** The uplink switches to socket 5, a client asks, the reply arrives, a second client attaches while it is written, and both are
    answered. *)
Lemma demo_uplink_run : uplink_run demo_truth demo_config false 0 0 BetweenReplies demo_begin [demo_client; demo_second] (demo_answers ++ []) [] [] BetweenReplies demo_last.
Proof.
  eapply (run_part _ _ _ _ _ (PSwitch demo_turn) _ _ _ demo_switched [Sends []] _ _ _ []); [vm_compute; by split|vm_compute; reflexivity|].
  eapply (run_other _ _ _ _ _ _ _ [demo_client] [] [] (m_up demo_asked) [demo_second] _ [] []).
  { eapply (ot_queue _ _ 9 1 77 100 200 0 0 4096); try (vm_compute; reflexivity); vm_compute; try split; congruence. }
  eapply (run_part _ _ _ _ _ demo_reply _ _ demo_found (demo_after demo_reply BetweenReplies demo_asked) [] _ _ _ []).
  { split; [vm_compute; reflexivity|]. split; [lia|]. intros e He _. vm_compute in He. apply list_elem_of_singleton in He as ->. split; reflexivity. }
  { vm_compute. reflexivity. }
  eapply (run_other _ _ _ _ _ _ _ [demo_second] [] [] (m_up demo_attached) [] _ [] []).
  { eapply (ot_queue _ _ 8 1 77 100 200 0 0 4096); try (vm_compute; reflexivity); vm_compute; try split; congruence. }
  eapply (run_part _ _ _ _ _ (PStore (World false true 4) demo_script) _ _ demo_done demo_stored [] _ _ _ []).
  { split; vm_compute; congruence. }
  { vm_compute. reflexivity. }
  eapply (run_part _ _ _ _ _ PAnswer _ _ BetweenReplies demo_last [Answers demo_answers] _ _ _ []); [vm_compute; by split|vm_compute; reflexivity|].
  apply run_nil.
Qed.
Lemma uplink_lifecycle_witness :
  answered (demo_answers ++ (uplink_cleanup true (m_up demo_last)).1.2) ≡ₚ [demo_client; demo_second] /\ [5] ≡ₚ socks (uplink_cleanup true (m_up demo_last)).1.1.
Proof.
  destruct (uplink_lifecycle demo_truth demo_config false 0 0 demo_env [] demo_image 5 demo_host 3 demo_new (World false true 4) (Ticks 0 0) demo_truth
    [demo_client; demo_second] (demo_answers ++ []) [] [] BetweenReplies demo_last) as (_ & Hend).
  - exact demo_config_ok.
  - cbn. lia.
  - exact demo_image_wf.
  - intros b _ _ p _. reflexivity.
  - reflexivity.
  - exact demo_uplink_run.
  - destruct (Hend eq_refl (uplink_cleanup true (m_up demo_last)).1.1 (uplink_cleanup true (m_up demo_last)).1.2
      (uplink_cleanup true (m_up demo_last)).2) as (Ha & _ & freed & Hfree & Hs).
    + by rewrite <- !surjective_pairing.
    + split; [exact Ha|]. vm_compute in Hfree. injection Hfree as E. vm_compute.
      destruct freed as [|a [|b [|c freed]]]; cbn in E; try discriminate. injection E as <-. exact Hs.
Defined.

(** The checksum list that is asked for after a switch: when the server answers with a complete list,
    the image gets exactly this list, and what is written beside the image is loaded
    again as the same list. *)
Theorem crc_list_relayed pclmul addr junk u l rest script n master :
  Forall in_u32 l -> (0 < length l)%nat -> IMGSIZE_TO_HASHBLOCKS (img_virtualFilesize (up_image u)) = Z.of_nat (length l) ->
  img_virtualFilesize (up_image u) <> 0 -> 4 * Z.of_nat (length l) <= n ->
  let crc := crc32_ref 0 (encodeList l) in
  let reply := Some (CMD_GET_CRC32, 4 + 4 * Z.of_nat (length l)) in
  exists u' file, requestCrc32List pclmul addr junk true reply (le_bytes 4 crc ++ encodeList l ++ rest) u = (u', Some file)
    /\ img_crc32 (up_image u') = Some l /\ img_masterCrc32 (up_image u') = crc
    /\ image_loadCrcList pclmul addr (Some file) true (RdData n :: script) (img_virtualFilesize (up_image u)) master = Ok (Some l, crc).
Proof.
  intros Hu Hl Hb Hv Hn crc reply. assert (in_u32 crc /\ crc = crc32_ref 0 (encodeList l)) as [Hcrc Ecrc] by (split; [apply crc32_ref_range|done]). clearbody crc.
  unfold requestCrc32List. rewrite (proj2 (Z.eqb_neq _ _) Hv), Hb. unfold dnbd3_get_crc32, reply. cbn [negb].
  pose proof (length_encodeList l) as Hlen. destruct (Z.eqb_spec (4 + 4 * Z.of_nat (length l)) 0); [lia|]. destruct (Z.ltb_spec (4 + 4 * Z.of_nat (length l)) 4); [lia|].
  rewrite Z.eqb_refl. cbn [negb orb]. destruct (Z.ltb_spec (Z.of_nat (length l) * 4) (4 + 4 * Z.of_nat (length l) - 4)); [lia|].
  rewrite !length_app, length_le_bytes, Hlen. destruct (Z.ltb_spec (Z.of_nat (4 + (4 * length l + length rest))) (4 + 4 * Z.of_nat (length l))); [lia|].
  rewrite take_app_length', drop_app_length' by (by rewrite length_le_bytes). rewrite le_val_bytes by crange.
  replace (Z.to_nat (4 + 4 * Z.of_nat (length l) - 4)) with (length (encodeList l)) by lia. rewrite take_app_length.
  destruct (encodeList l) as [|b0 bs] eqn:Ee; [cbn in Hlen; lia|]. rewrite <- Ee in *.
  change (crc32 pclmul addr 0 None) with 0. rewrite crc32_is_ref by apply encodeList_u8. rewrite <- Ecrc, Z.eqb_refl. cbn [negb].
  eexists _, _. split; [done|]. cbn [up_image up_set_image up_set_queue img_set_crc32 img_crc32 img_masterCrc32]. split; [|split; [done|]].
  - replace (Z.to_nat (Z.of_nat (length l) * 4) - length (encodeList l))%nat with 0%nat by lia. cbn [replicate]. rewrite app_nil_r.
    rewrite Z.div_mul by lia. rewrite Nat2Z.id. f_equal. by apply words_encodeList.
  - rewrite Ecrc. by apply loadCrcList_any.
Qed.
Lemma crc_list_relayed_witness : exists u' file,
  requestCrc32List false 0 0 true (Some (CMD_GET_CRC32, 8)) (le_bytes 4 (crc32_ref 0 (encodeList [77])) ++ encodeList [77] ++ [1; 2]) demo_uplink = (u', Some file)
  /\ img_crc32 (up_image u') = Some [77].
Proof.
  destruct (crc_list_relayed false 0 0 demo_uplink [77] [1; 2] [] 4 0) as (u' & file & Hrun & Hl & _).
  - constructor; [vm_compute; split; congruence|constructor].
  - cbn. lia.
  - reflexivity.
  - discriminate.
  - cbn. lia.
  - exists u', file. split; [exact Hrun|exact Hl].
Defined.

(** ** Flaws *)

(** If the thread cannot be started, [freeUplinkStruct] closes the socket that was passed
    and the caller closes it again. *)
Theorem failed_thread_double_close e alts image sock host version :
  ie_isProxy e = true -> ie_shutdown e = false -> ie_existing e = false -> ie_signal e = true -> ie_thread e = false ->
  img_cacheMap image <> None -> sock <> -1 ->
  startUplink e alts image sock host version = Ok (InitResult false None [sock; sock]).
Proof.
  intros H1 H2 H3 H4 H5 Hm Hs. unfold startUplink, uplink_init. rewrite H1, H2, H3, H4, H5. apply Z.eqb_neq in Hs as Hs'.
  rewrite Hs'. cbn [negb orb andb]. rewrite bool_decide_eq_false_2 by done. unfold freeUplinkStruct, initConnections.
  cbn [newUplink up_set_rtt up_set_current up_queueLen up_current up_better up_cacheFd conn_fd Z.eqb assert_ mbind result_bind].
  rewrite Hs'. cbn [conn_fd]. by rewrite openFds_none, openFds_open, openFds_none by done.
Qed.
(** If the signal cannot be created, the connections still hold the zeros of [calloc]:
    descriptor 0 is closed, twice. *)
Theorem failed_signal_closes_stdin e alts image sock host version :
  ie_isProxy e = true -> ie_shutdown e = false -> ie_existing e = false -> ie_signal e = false ->
  img_cacheMap image <> None -> sock <> -1 ->
  startUplink e alts image sock host version = Ok (InitResult false None [0; 0; sock]).
Proof.
  intros H1 H2 H3 H4 Hm Hs. unfold startUplink, uplink_init. rewrite H1, H2, H3, H4. apply Z.eqb_neq in Hs as Hs'.
  rewrite Hs'. cbn [negb orb andb]. by rewrite bool_decide_eq_false_2 by done.
Qed.
(** The events [poll] reported for the old socket are applied to the new one: if the
    old server hangs up in the turn of the switch, the new connection is dropped and its server blamed. *)
Theorem stale_event_drops_new_connection : exists m' acts,
  uplink_turn demo_config false 0 0
    (TurnIn true EvNone EvErr false false (Ticks 1 0) (fun _ => true) (fun _ => true) true true None [] (World false true 4) [] [] true) demo_main
  = Ok (Some (false, m', acts)) /\ conn_fd (up_current (m_up m')) = -1 /\ closedOf acts = [5; 6]
  /\ failedOf acts = [1].
Proof. eexists _, _. split; [vm_compute; reflexivity|]. split_and!; reflexivity. Qed.
(** A failure to get the checksum list is noted in [problem.uplink], which sending the queued requests then overwrites: the
    connection is kept although nobody knows how much of the reply was read. *)
Theorem crc_failure_forgotten : exists m' acts,
  switchServer demo_config false 0 0
    (TurnIn true EvNone EvNone false false (Ticks 1 0) (fun _ => true) (fun _ => true) true true None [] (World false true 4) [] [] true)
    (m_set_up (up_set_image (m_up demo_main) (img_set_crc32 None 0 (up_image (m_up demo_main)))) demo_main)
  = Ok (m', acts) /\ conn_fd (up_current (m_up m')) = 6 /\ pr_uplink (img_problem (up_image (m_up m'))) = false
  /\ (requestCrc32List false 0 0 true None [] demo_uplink).1
     = up_set_image demo_uplink (set_problem_uplink true (up_image demo_uplink)).
Proof. eexists _, _. split; [vm_compute; reflexivity|]. split_and!; reflexivity. Qed.
(** A list that is shorter than the image needs is accepted; the rest of the buffer is what [malloc] left. *)
Theorem short_crc_list junk : let image := Image "/x/big.r1" "big" None 33554432 33554432 (Ticks 0 0) (Ticks 0 0) None 0 3 0 0 1 (Problems false false false false false) 1 false in
  img_crc32 (up_image (requestCrc32List false 0 junk true (Some (CMD_GET_CRC32, 8)) (le_bytes 4 (crc32_ref 0 (encodeList [77])) ++ encodeList [77])
    (up_set_image demo_uplink image)).1) = Some [77; le_val [junk; junk; junk; junk]].
Proof. vm_compute. reflexivity. Qed.
