(* ===== verification/ImageProxy.v ===== *)
(** * ImageProxy: fetching an image from an upstream server ([src/server/image.c])

    [image_getOrLoad] looks for an image in the list, on disk and, for a proxy, on the
    servers it knows: [loadImageProxy] connects to several of them at once, asks each for the
    image, prepares a copy of the first that is acceptable ([image_clone]) and hands the connection to an uplink.

    The images that are loaded are given by their revisions ([image_get] is modelled in
    [Images]); calls that go to the disk or the network are arguments.  References
    to images that are taken and given back are recorded as a list of [ref_op]. *)

From Stdlib Require Import Ascii.
From S2P Require Import Prelude Timing Types Helper Crc32 ImageCrc CacheMap Wire Sockets ImageName ImageLoad AltServers UplinkMain.
Open Scope Z_scope.

(** ** Revisions that are loaded *)

Fixpoint highest (l : list Z) : option Z :=
  match l with [] => None | r :: l => Some (match highest l with Some h => Z.max r h | None => r end) end.
(** What [image_get] finds for a revision; 0 stands for the highest. *)
Definition getRid (revision : Z) (loaded : list Z) : option Z :=
  if revision =? 0 then highest loaded else if bool_decide (revision ∈ loaded) then Some revision else None.
Inductive ref_op := Get (rid : Z) | Release (rid : Z).

(** ** Preparing a copy *)

(** Whether the files could be created, a checksum file is there already, the request for the checksums was
    sent, the reply to it, whether the checksum file could be written, and [image_load]'s result. *)
Record clone_env := CloneEnv {
  cl_created : bool;
  cl_crcReadable : bool;
  cl_sent : bool;
  cl_reply : option (Z * Z);
  cl_stream : list Z;
  cl_written : bool;
  cl_loaded : bool;
}.
(** Success, and the checksum file that was written. *)
Definition image_clone (pclmul : bool) (addr : Z) (e : clone_env) (imageSize : Z) : bool * option (list Z) :=
  if negb (cl_created e) then (false, None)
  else if cl_crcReadable e then (cl_loaded e, None)
  else
    match dnbd3_get_crc32 (cl_sent e) (cl_reply e) (cl_stream e) (IMGSIZE_TO_HASHBLOCKS imageSize * 4) with
    | None => (false, None)
    | Some None | Some (Some (_, [])) => (cl_loaded e, None)
    | Some (Some (masterCrc, crc32list)) =>
        if negb (crc32 pclmul addr (crc32 pclmul addr 0 None) (Some crc32list) =? masterCrc) then (cl_loaded e, None)
        else (cl_loaded e, if cl_written e then Some (le_bytes 4 masterCrc ++ crc32list) else None)
    end.

(** ** Asking the servers *)

(** One iteration: what [sock_connect] gave for the next host (nothing in the last five
    iterations), the results of [poll], and for the socket that is connected: [getpeername], sending
    the request, the reply (version, name, revision, size), the disk space and the copy. *)
Record attempt := Attempt {
  at_newSock : option Z;
  at_polls : list pollResult;
  at_peerName : bool;
  at_select : bool;
  at_reply : option (Z * option (list ascii) * Z * Z);
  at_space : bool;
  at_clone : clone_env;
}.
Record accepted_t := Accepted { ac_sock : Z; ac_rid : Z; ac_version : Z; ac_crc : option (list Z) }.

Section Proxy.
Context (pclmul : bool) (addr : Z) (name : list ascii) (revision maxReplicationSize : Z).
(** Whether a socket is connected to a peer. *)
Context (peer : Z -> bool).
(** What [uplink_init] meets, the images of the list by revision, and the host a socket is connected to. *)
Context (ie : init_env) (alts : list dnbd3_alt_server_t) (imageOf : Z -> dnbd3_image_t) (hostOf : Z -> dnbd3_host_t).

Definition tryServer (localRid : option Z) (sock : Z) (a : attempt) : option accepted_t :=
  if negb (at_peerName a) then None
  else if negb (at_select a) then None
  else match at_reply a with
  | None => None
  | Some (version, remoteName, rid, size) =>
      if negb (acceptReply name revision localRid maxReplicationSize version rid remoteName size) then None
      else if negb (at_space a) then None
      else let '(ok, crc) := image_clone pclmul addr (at_clone a) size in
           if ok then Some (Accepted sock rid version crc) else None
  end.
(** The loop over the servers: what was accepted, the sockets still pending and those closed;
    [None] if the results of [poll] that are given do not suffice. *)
Fixpoint proxyLoop (localRid : option Z) (attempts : list attempt) (pl : poll_list_t) (closed : list Z)
  : result (option (option accepted_t * poll_list_t * list Z)) :=
  match attempts with
  | [] => Ok (Some (None, pl, closed))
  | a :: rest =>
      o ← sock_multiConnect pl (at_newSock a) (at_polls a) 100 peer;
      match o with
      | Waiting => Ok None
      | Returned (sock, pl, c) =>
          let closed := closed ++ c in
          if bool_decide (at_newSock a = None) && (sock =? -2) then Ok (Some (None, pl, closed))
          else if (sock =? -1) || (sock =? -2) then proxyLoop localRid rest pl closed
          else match tryServer localRid sock a with
               | Some acc => Ok (Some (Some acc, pl, closed))
               | None => proxyLoop localRid rest pl (closed ++ [sock])
               end
      end
  end.

(** The result: the revision of the image that is returned, the table of recent questions, the revisions loaded, the references
    taken and given back, the sockets closed and the one handed to the uplink with its version. *)
Record proxy_result := ProxyResult {
  px_image : option Z;
  px_cache : list imagecache;
  px_loaded : list Z;
  px_refs : list ref_op;
  px_closed : list Z;
  px_uplink : option (Z * Z);
}.
Definition gets (r : option Z) : list ref_op := match r with Some rid => [Get rid] | None => [] end.
(** After the loop: keep the local image, or take the one that was copied. *)
Definition chooseImage (image : option Z) (acc : option accepted_t) (loaded : list Z) : option Z * list ref_op * bool :=
  let acceptedRemoteRid := from_option ac_rid 0 acc in
  match image with
  | Some r =>
      if ((revision =? 0) && (acceptedRemoteRid <=? r)) || (r =? revision) then (Some r, [], false)
      else let i := getRid acceptedRemoteRid loaded in (i, Release r :: gets i, true)
  | None => let i := getRid acceptedRemoteRid loaded in (i, gets i, true)
  end.
(** [loaded] are the revisions loaded when the function starts, [loaded2] when the table is locked. *)
Definition loadImageProxy (now : ticks) (cache : list imagecache) (loaded loaded2 : list Z) (attempts : list attempt) (garbage : list pollfd)
  : result (option proxy_result) :=
  let image := if revision =? 0 then getRid 0 loaded else None in
  match checkRecently now name revision cache with
  | None => Ok (Some (ProxyResult image cache loaded2 (gets image) [] None))
  | Some cache' =>
      match (if revision =? 0 then None else getRid revision loaded2) with
      | Some rid => Ok (Some (ProxyResult (Some rid) cache loaded2 [Get rid] [] None))
      | None =>
          o ← proxyLoop image attempts (sock_newPollList garbage) [];
          match o with
          | None => Ok None
          | Some (acc, pl, closed) =>
              let closed := closed ++ sock_destroyPollList pl in
              let loaded' := match acc with Some a => ac_rid a :: loaded2 | None => loaded2 end in
              let '(i, refs, newImage) := chooseImage image acc loaded' in
              '(uplink, extra) ←
                match acc with
                | None => Ok (None, [])
                | Some a =>
                    if (newImage : bool) then
                      if i is Some rid then
                        r ← startUplink ie alts (imageOf rid) (ac_sock a) (hostOf (ac_sock a)) (ac_version a);
                        Ok (if ir_uplink r is Some _ then Some (ac_sock a, ac_version a) else None, ir_closed r)
                      else Ok (None, [ac_sock a])
                    else Ok (None, [])    (* [return image], the socket stays open *)
                end;
              Ok (Some (ProxyResult i cache' loaded' (gets image ++ refs) (closed ++ extra) uplink))
          end
      end
  end.

(** ** Looking for an image *)

(** [loadImageServer] carries out its plan; [loadOk] says whether [image_load] succeeded. *)
Definition serverLoad (plan : load_plan) (loadOk : bool) (loaded : list Z) : option Z * list Z :=
  match plan with
  | PlanGet rid => (getRid rid loaded, loaded)
  | PlanLoad _ rid => let loaded := if loadOk then rid :: loaded else loaded in (getRid revision loaded, loaded)
  end.
(** The names that are refused: empty, or with a hidden file or an empty part in it. *)
Definition nameRefused : bool :=
  match name with
  | [] => true
  | c :: _ => bool_decide (list.last name = Some "/"%char) || Ascii.eqb c "/" || Ascii.eqb c "."
              || existsb (fun k => bool_decide (take 2 (drop k name) = ["/"; "."]%char)) (seq 0 (length name))
  end.
Definition image_getOrLoad (isProxy : bool) (plan : load_plan) (loadOk : bool) (loaded : list Z)
    (proxy : list Z -> result (option proxy_result)) : result (option (option Z * list ref_op)) :=
  match (if revision =? 0 then None else getRid revision loaded) with
  | Some rid => Ok (Some (Some rid, [Get rid]))
  | None =>
      if nameRefused then Ok (Some (None, []))
      else
        let '(image, loaded) := serverLoad plan loadOk loaded in
        if negb isProxy then Ok (Some (image, gets image))
        else
          o ← proxy loaded;
          Ok (r ← o; Some (px_image r, gets image ++ match image with Some rid => [Release rid] | None => [] end ++ px_refs r))
  end.
End Proxy.

(** ** No socket is lost *)

(** The sockets that the connects of some iterations gave. *)
Definition newSocks (l : list attempt) : list Z := l ≫= (fun a => match at_newSock a with Some fd => returnedFd fd | None => [] end).
Definition hostsLeft (l : list attempt) : nat := length (filter (fun a => at_newSock a <> None) l).
Definition attempt_ok (a : attempt) : Prop := forall fd, at_newSock a = Some fd -> fd = -1 \/ 0 <= fd.

Lemma newSocks_hosts a : (length (newSocks [a]) <= length (filter (fun a => at_newSock a <> None) [a]))%nat.
Proof.
  unfold newSocks. cbn [mbind list_bind]. rewrite app_nil_r. destruct (at_newSock a) as [fd|] eqn:E; [|cbn; lia].
  rewrite filter_cons_True by (by rewrite E). unfold returnedFd. destruct (_ =? _); cbn; lia.
Qed.

Section Loop.
Context (pclmul : bool) (addr : Z) (name : list ascii) (revision maxReplicationSize : Z) (peer : Z -> bool) (localRid : option Z).
Let tryS := tryServer pclmul addr name revision maxReplicationSize localRid.
Let loop := proxyLoop pclmul addr name revision maxReplicationSize peer localRid.

Definition accSock (acc : option accepted_t) : list Z := match acc with Some a => [ac_sock a] | None => [] end.
(** What is accepted comes from a connected socket whose server passed every test. *)
Definition accOk (attempts : list attempt) (acc : option accepted_t) : Prop :=
  forall a, acc = Some a -> peer (ac_sock a) = true /\ exists at_, at_ ∈ attempts /\ tryS (ac_sock a) at_ = Some a.

Lemma tryServer_sock sock a acc : tryS sock a = Some acc -> ac_sock acc = sock.
Proof. unfold tryS, tryServer. repeat case_match; intros; by simplify_eq. Qed.
Lemma proxyLoop_spec attempts : forall pl closed,
  pl_wf pl -> Forall (fun fd => 0 <= fd) (fds pl) -> Forall attempt_ok attempts ->
  Z.of_nat (length (fds pl)) + Z.of_nat (hostsLeft attempts) <= MAXLISTEN ->
  exists o, loop attempts pl closed = Ok o /\ forall acc pl' closed', o = Some (acc, pl', closed') ->
    exists executed rest, attempts = executed ++ rest /\ Forall (fun fd => 0 <= fd) (fds pl')
      /\ closed ++ fds pl ++ newSocks executed ≡ₚ closed' ++ fds pl' ++ accSock acc /\ accOk attempts acc.
Proof.
  induction attempts as [|a attempts IH]; intros pl closed Hwf Hfd Hok Hroom; unfold loop; cbn [proxyLoop].
  { eexists. split; [done|]. intros acc pl' closed' [= <- <- <-]. exists [], []. split_and!; [done|done| |done]. cbn. by rewrite !app_nil_r. }
  apply list.Forall_cons in Hok as [Ha Hok].
  assert (newFds pl (at_newSock a) = newSocks [a]) as Hnew.
  { unfold newFds, newSocks. cbn. destruct (at_newSock a) as [fd|] eqn:E; [|done]. rewrite app_nil_r.
    unfold hostsLeft in Hroom. rewrite filter_cons_True in Hroom by (by rewrite E). cbn in Hroom.
    pose proof (used_length pl Hwf) as Hlen. unfold fds in Hroom. rewrite length_map in Hroom. destruct (Z.ltb_spec (pl_count pl) MAXLISTEN); [done|lia]. }
  assert (Forall (fun fd => 0 <= fd) (newSocks [a])) as Hpos.
  { unfold newSocks. cbn. rewrite app_nil_r. destruct (at_newSock a) as [fd|] eqn:E; [|exact (List.Forall_nil _)]. unfold returnedFd.
    destruct (Z.eqb_spec fd (-1)); [exact (List.Forall_nil _)|]. apply list.Forall_singleton. destruct (Ha fd E); [done|lia]. }
  destruct (multiConnect_spec pl (at_newSock a) (at_polls a) 100 peer Hwf) as (o & Hrun & Ho).
  { rewrite Hnew. by apply list.Forall_app. }
  rewrite Hrun. cbn [mbind result_bind]. destruct o as [[[sock pl1] c]|]; [|eexists; split; [done|]; done].
  destruct (Ho sock pl1 c eq_refl) as (Hwf1 & Hp & Hpeer & _ & Hrange). rewrite Hnew in Hp.
  assert (Forall (fun fd => 0 <= fd) (fds pl1)) as Hfd1.
  { assert (Forall (fun fd => 0 <= fd) (c ++ (if 0 <=? sock then [sock] else []) ++ fds pl1)) as Hall by (rewrite <- Hp; by apply list.Forall_app).
    apply list.Forall_app in Hall as [_ Hall]. by apply list.Forall_app in Hall as [_ ?]. }
  assert (Z.of_nat (length (fds pl1)) + Z.of_nat (hostsLeft attempts) <= MAXLISTEN) as Hroom1.
  { apply Permutation_length in Hp. rewrite !length_app in Hp. pose proof (newSocks_hosts a). unfold hostsLeft in Hroom.
    change (a :: attempts) with ([a] ++ attempts) in Hroom. rewrite list.filter_app, length_app in Hroom. unfold hostsLeft in *. lia. }
  assert (forall closed1 acc pl' closed', (exists executed rest, attempts = executed ++ rest /\ Forall (fun fd => 0 <= fd) (fds pl')
      /\ closed1 ++ fds pl1 ++ newSocks executed ≡ₚ closed' ++ fds pl' ++ accSock acc /\ accOk attempts acc) ->
    closed ++ c ++ (if 0 <=? sock then [sock] else []) ≡ₚ closed1 ->
    exists executed rest, a :: attempts = executed ++ rest /\ Forall (fun fd => 0 <= fd) (fds pl')
      /\ closed ++ fds pl ++ newSocks executed ≡ₚ closed' ++ fds pl' ++ accSock acc /\ accOk (a :: attempts) acc) as Hgo.
  { intros closed1 acc pl' closed' (executed & rest & -> & Hf & Hperm & Hacc) Hc. exists (a :: executed), rest. split_and!; [done|done| |].
    - rewrite <- Hperm, <- Hc. change (a :: executed) with ([a] ++ executed). unfold newSocks in *. rewrite bind_app.
      rewrite (app_assoc (fds pl)), Hp. solve_Permutation.
    - intros x Hx. destruct (Hacc x Hx) as (H1 & at_ & Hin & H2). split; [done|]. exists at_. split; [by right|done]. }
  assert (forall acc, (acc = None -> sock < 0) -> (forall x, acc = Some x -> ac_sock x = sock /\ 0 <= sock /\ tryS sock a = Some x) ->
    exists executed rest, a :: attempts = executed ++ rest /\ Forall (fun fd => 0 <= fd) (fds pl1)
      /\ closed ++ fds pl ++ newSocks executed ≡ₚ (closed ++ c) ++ fds pl1 ++ accSock acc /\ accOk (a :: attempts) acc) as Hstop.
  { intros acc Hnone Hsome. exists [a], attempts. split_and!; [done|done| |].
    - rewrite Hp. destruct acc as [x|]; [destruct (Hsome x eq_refl) as (<- & H0 & _)|specialize (Hnone eq_refl)]; cbn [accSock].
      + rewrite (proj2 (Z.leb_le _ _) H0). solve_Permutation.
      + rewrite (proj2 (Z.leb_gt _ _) Hnone). solve_Permutation.
    - intros x Hx. destruct (Hsome x Hx) as (<- & H0 & Ht). split; [by apply Hpeer|]. exists a. split; [by left|done]. }
  destruct (Z.leb_spec 0 sock) as [Hpos0|Hneg].
  - destruct (Z.eqb_spec sock (-2)); [lia|]. destruct (Z.eqb_spec sock (-1)); [lia|]. rewrite andb_false_r. cbn [orb].
    destruct (tryServer _ _ _ _ _ _ _ _) as [x|] eqn:Et.
    + eexists. split; [done|]. intros acc pl' closed' [= <- <- <-]. apply Hstop; [done|]. intros y [= <-]. split_and!; [by eapply tryServer_sock|done|done].
    + destruct (IH pl1 ((closed ++ c) ++ [sock]) Hwf1 Hfd1 Hok Hroom1) as (o & Hrun1 & Ho1). exists o. split; [done|].
      intros acc pl' closed' E. eapply Hgo; [by apply Ho1|]. by rewrite app_assoc.
  - destruct (bool_decide _ && _).
    + eexists. split; [done|]. intros acc pl' closed' [= <- <- <-]. by apply Hstop.
    + assert ((sock =? -1) || (sock =? -2) = true) as ->.
      { by destruct (Hrange Hneg) as [->| ->]. }
      destruct (IH pl1 (closed ++ c) Hwf1 Hfd1 Hok Hroom1) as (o & Hrun1 & Ho1). exists o. split; [done|].
      intros acc pl' closed' E. eapply Hgo; [by apply Ho1|]. by rewrite app_nil_r.
Qed.
End Loop.

(** ** Which image is returned *)

Lemma highest_ge l x : x ∈ l -> exists h, highest l = Some h /\ x <= h.
Proof.
  induction l as [|y l IH]; [by intros ?%elem_of_nil|]. intros [->|Hx]%elem_of_cons; cbn [highest].
  - destruct (highest l); eexists; (split; [done|]); lia.
  - destruct (IH Hx) as (h & -> & ?). eexists. split; [done|]. lia.
Qed.
Lemma highest_in l h : highest l = Some h -> h ∈ l /\ forall x, x ∈ l -> x <= h.
Proof.
  revert h. induction l as [|y l IH]; intros h; [done|]. cbn [highest]. destruct (highest l) as [h'|] eqn:E; intros [= <-].
  - destruct (IH h' eq_refl) as [Hin Hmax]. split.
    + destruct (Z.max_spec y h') as [[_ ->]|[_ ->]]; [by right|by left].
    + intros x [->|Hx]%elem_of_cons; [lia|]. specialize (Hmax x Hx). lia.
  - destruct l as [|z l]; [|cbn in E; by destruct (highest l)]. split; [by left|]. intros x ->%list_elem_of_singleton. lia.
Qed.
Lemma highest_cons_new rid l : (forall h, highest l = Some h -> h < rid) -> highest (rid :: l) = Some rid.
Proof. intros Hh. cbn [highest]. destruct (highest l) as [h|]; [|done]. f_equal. specialize (Hh h eq_refl). lia. Qed.

Definition getsOf (refs : list ref_op) : list Z := refs ≫= (fun o => match o with Get r => [r] | Release _ => [] end).
Definition releasesOf (refs : list ref_op) : list Z := refs ≫= (fun o => match o with Release r => [r] | Get _ => [] end).
(** One reference is held, to the image that is returned. *)
Definition balanced (image : option Z) (refs : list ref_op) : Prop := getsOf refs ≡ₚ option_list image ++ releasesOf refs.
Lemma balanced_gets i : balanced i (gets i).
Proof. unfold balanced. by destruct i. Qed.

(** The reply that is accepted: the revision asked for, or a higher one than the local. *)
Lemma tryServer_rid pclmul addr name revision maxR localRid sock a acc :
  tryServer pclmul addr name revision maxR localRid sock a = Some acc ->
  ac_rid acc <> 0 /\ (revision <> 0 -> ac_rid acc = revision) /\ (revision = 0 -> forall r, localRid = Some r -> r < ac_rid acc).
Proof.
  unfold tryServer. destruct (negb (at_peerName a)); [done|]. destruct (negb (at_select a)); [done|].
  destruct (at_reply a) as [[[[version remoteName] rid] size]|]; [|done]. destruct (acceptReply _ _ _ _ _ _ _ _) eqn:Ea; [|done]. cbn [negb].
  destruct (negb (at_space a)); [done|]. destruct (image_clone _ _ _ _) as [[] crc]; [|done]. intros [= <-]. cbn [ac_rid].
  unfold acceptReply in Ea. rewrite !andb_true_iff, !negb_true_iff in Ea. destruct Ea as ((((H1 & H2) & H3) & _) & _).
  apply orb_false_iff in H1 as [_ H1%Z.eqb_neq]. split; [done|]. split.
  - intros Hr. apply Z.eqb_neq in Hr. rewrite Hr in H2. cbn in H2. by apply negb_false_iff, Z.eqb_eq in H2.
  - intros -> r ->. cbn in H3. by apply Z.leb_gt in H3.
Qed.
Section Choose.
Context (revision : Z) (loaded : list Z) (acc : option accepted_t).
Hypothesis Hpos : Forall (fun x => 0 < x) loaded.
Hypothesis Hnot : revision <> 0 -> revision ∉ loaded.
Let image := if revision =? 0 then getRid 0 loaded else None.
Hypothesis Hacc : forall a, acc = Some a ->
  ac_rid a <> 0 /\ (revision <> 0 -> ac_rid a = revision) /\ (revision = 0 -> forall r, image = Some r -> r < ac_rid a).
Let loaded' := match acc with Some a => ac_rid a :: loaded | None => loaded end.

Lemma chooseImage_spec : let '(i, refs, new) := chooseImage revision image acc loaded' in
  (revision = 0 -> i = highest loaded') /\ (revision <> 0 -> revision ∈ loaded' -> i = Some revision)
  /\ balanced i (gets image ++ refs) /\ (acc <> None -> new = true /\ i <> None).
Proof.
  unfold chooseImage. destruct (Z.eqb_spec revision 0) as [E|E]; unfold image.
  - unfold getRid at 1. cbn [Z.eqb]. destruct (highest loaded) as [r|] eqn:Eh.
    + destruct (highest_in _ _ Eh) as [Hin Hmax]. assert (0 < r) as Hr by (rewrite list.Forall_forall in Hpos; by apply Hpos).
      rewrite (proj2 (Z.eqb_neq r revision)) by lia. rewrite orb_false_r.
      destruct acc as [a|] eqn:Ea; cbn [from_option].
      * destruct (Hacc a eq_refl) as (Ha0 & _ & Hlt). specialize (Hlt E r).
        assert (r < ac_rid a) as Hlt' by (apply Hlt; unfold image, getRid; by rewrite ?E). destruct (Z.leb_spec (ac_rid a) r); [lia|]. cbn [andb].
        unfold getRid. rewrite (proj2 (Z.eqb_neq _ _) Ha0), bool_decide_eq_true_2 by (by left).
        split_and!; [intros _; symmetry; unfold loaded'; apply highest_cons_new; intros h; rewrite Eh; intros [= <-]; done|done| |done].
        unfold balanced. cbn [getRid Z.eqb]. rewrite Eh. cbn. apply Permutation_swap.
      * rewrite (proj2 (Z.leb_le 0 r)) by lia. cbn [andb]. split_and!; [by rewrite <- Eh|done| |done]. unfold balanced. cbn [getRid Z.eqb]. by rewrite Eh.
    + destruct acc as [a|] eqn:Ea; cbn [from_option].
      * destruct (Hacc a eq_refl) as (Ha0 & _ & _). unfold getRid. rewrite (proj2 (Z.eqb_neq _ _) Ha0), bool_decide_eq_true_2 by (by left).
        split_and!; [intros _; symmetry; unfold loaded'; apply highest_cons_new; intros h; by rewrite Eh|done| |done]. unfold balanced. cbn [getRid Z.eqb]. by rewrite Eh.
      * unfold getRid. cbn [Z.eqb]. unfold loaded'. rewrite Eh. split_and!; [done|done|by unfold balanced|done].
  - destruct acc as [a|] eqn:Ea; cbn [from_option].
    + destruct (Hacc a eq_refl) as (Ha0 & Hr & _). specialize (Hr E). unfold getRid. rewrite (proj2 (Z.eqb_neq _ _) Ha0), bool_decide_eq_true_2 by (by left).
      rewrite Hr. split_and!; [done|done|by unfold balanced|done].
    + split_and!; [done| |apply balanced_gets|done]. intros _ Hin. by destruct (Hnot E).
Qed.
End Choose.

Lemma filter_nonneg l : Forall (fun fd => 0 <= fd) l -> filter (fun fd => 0 <= fd) l = l.
Proof. induction 1 as [|x l Hx _ IH]; [done|]. rewrite filter_cons_True by done. by rewrite IH. Qed.

(** *** It returns *)

Lemma pollLoop_returns polls : forall tries ms, 1 <= tries <= Z.of_nat (length polls) -> pollLoop polls tries ms <> Waiting.
Proof.
  induction polls as [|x polls IH]; intros tries ms Ht; cbn [pollLoop length] in *; [lia|]. destruct x as [rs| |e]; [done|done|].
  destruct (bool_decide _ || bool_decide _); [|done]. destruct (Z.eqb_spec (tries - 1) 0); [done|]. apply IH. lia.
Qed.
Lemma multiConnect_returns l newSock polls ms peer : (5 <= length polls)%nat -> sock_multiConnect l newSock polls ms peer <> Ok Waiting.
Proof.
  intros Hp. unfold sock_multiConnect. match goal with |- (?m ≫= _) <> _ => destruct m as [l1|] end; [|done]. cbn [mbind result_bind].
  destruct (_ =? 0); [done|]. pose proof (pollLoop_returns polls 5 ms ltac:(lia)). destruct (pollLoop polls 5 ms) as [[rs|]|]; [|done|done].
  cbv zeta. destruct (checkLoop _ _ _ _); done.
Qed.
Definition polls_enough (a : attempt) : Prop := (5 <= length (at_polls a))%nat.
Lemma proxyLoop_returns pclmul addr name revision maxR peer localRid attempts : forall pl closed,
  Forall polls_enough attempts -> proxyLoop pclmul addr name revision maxR peer localRid attempts pl closed <> Ok None.
Proof.
  induction attempts as [|a attempts IH]; intros pl closed Hp; cbn [proxyLoop]; [done|]. apply list.Forall_cons in Hp as [Ha Hp].
  pose proof (multiConnect_returns pl (at_newSock a) (at_polls a) 100 peer Ha). destruct (sock_multiConnect _ _ _ _ _) as [[[[sock pl1] c]|]|]; cbn [mbind result_bind]; [|done|done].
  destruct (_ && _); [done|]. destruct (_ || _); [by apply IH|]. destruct (tryServer _ _ _ _ _ _ _ _); [done|by apply IH].
Qed.

(** *** Handing the socket over *)

(** The uplink can be created: a signal and a thread are to be had. *)
Definition init_works (ie : init_env) : Prop := ie_signal ie = true /\ ie_thread ie = true.
(** An uplink is wanted: the server is a proxy and not shutting down, the image is incomplete and has no uplink yet. *)
Definition uplinkWanted (ie : init_env) (image : dnbd3_image_t) : bool :=
  ie_isProxy ie && negb (ie_shutdown ie) && negb (ie_existing ie) && negb (bool_decide (img_cacheMap image = None)).
Lemma startUplink_spec ie alts image sock host version :
  init_works ie -> sock <> -1 ->
  exists r, startUplink ie alts image sock host version = Ok r
    /\ (ir_uplink r = None <-> uplinkWanted ie image = false)
    /\ ir_closed r = if uplinkWanted ie image then [] else [sock].
Proof.
  intros [Hs Ht] Hn. unfold startUplink, uplink_init, uplinkWanted. rewrite Hs, Ht. rewrite (proj2 (Z.eqb_neq _ _) Hn). cbn [andb negb].
  assert (openFds [sock] = [sock]) as Ho by (by apply openFds_open).
  destruct (ie_isProxy ie), (ie_shutdown ie), (ie_existing ie); cbn -[openFds]; rewrite ?Ho; try (by eexists).
  case_bool_decide; cbn -[openFds]; by eexists.
Qed.
Lemma newSocks_nonneg l : Forall attempt_ok l -> Forall (fun fd => 0 <= fd) (newSocks l).
Proof.
  unfold newSocks. induction 1 as [|a l Ha _ IH]; [exact (List.Forall_nil _)|]. cbn. apply list.Forall_app. split; [|done].
  destruct (at_newSock a) as [fd|] eqn:E; [|exact (List.Forall_nil _)]. unfold returnedFd.
  destruct (Z.eqb_spec fd (-1)); [exact (List.Forall_nil _)|]. apply list.Forall_singleton. destruct (Ha fd E); [done|lia].
Qed.

(** C17. Fetching an image as a proxy, from the question whether a server was asked recently to the uplink that takes over the
    connection, for at most eight hosts, with nobody else loading revisions of the image meanwhile and with a signal and a thread
    to be had for the uplink (if [uplink_init] fails for want of them the socket is closed twice): it returns and never faults.
    Asked for revision 0 it returns the highest revision there is afterwards.  Asked for a certain one that is there afterwards it
    returns that one, unless a server was asked for it recently; if it is not there, nothing is said of what it returns.  One
    reference is held, to the image returned; a copy is made only of the revision asked for, or of one that is newer than
    all local ones, and then its connection is handed to an uplink if the image needs one; and every other socket that was
    opened is closed exactly once. *)
Theorem loadImageProxy_correct pclmul addr name revision maxR peer ie alts imageOf hostOf now cache loaded attempts garbage :
  length garbage = 20%nat -> Forall attempt_ok attempts -> Forall polls_enough attempts -> (hostsLeft attempts <= 8)%nat ->
  Forall (fun x => 0 < x) loaded -> init_works ie ->
  exists r, loadImageProxy pclmul addr name revision maxR peer ie alts imageOf hostOf now cache loaded loaded attempts garbage = Ok (Some r)
    /\ (revision = 0 -> px_image r = highest (px_loaded r))
    /\ (revision <> 0 -> checkRecently now name revision cache <> None -> revision ∈ px_loaded r -> px_image r = Some revision)
    /\ balanced (px_image r) (px_refs r)
    /\ (px_loaded r = loaded /\ px_uplink r = None
        \/ exists rid, px_loaded r = rid :: loaded /\ px_image r = Some rid /\ (px_uplink r = None <-> uplinkWanted ie (imageOf rid) = false)
            /\ (if revision =? 0 then forall x, x ∈ loaded -> x < rid else rid = revision))
    /\ exists executed rest, attempts = executed ++ rest /\ newSocks executed ≡ₚ px_closed r ++ option_list (fst <$> px_uplink r).
Proof.
  intros Hg Hok Hpolls Hh Hpos Hinit. unfold loadImageProxy. set (image := if revision =? 0 then getRid 0 loaded else None).
  destruct (checkRecently now name revision cache) as [cache'|] eqn:Ec.
  2: { eexists. split; [done|]. cbn. split_and!; [|done|apply balanced_gets|by left|by exists [], attempts]. intros ->. done. }
  destruct (if revision =? 0 then None else getRid revision loaded) as [rid|] eqn:Er.
  { destruct (Z.eqb_spec revision 0) as [E|E]; [done|]. unfold getRid in Er. rewrite (proj2 (Z.eqb_neq _ _) E) in Er.
    case_bool_decide; [|done]. injection Er as <-. eexists. split; [done|]. cbn. split_and!; [done|done|by unfold balanced|by left|by exists [], attempts]. }
  assert (revision <> 0 -> revision ∉ loaded) as Hnot.
  { intros E. rewrite (proj2 (Z.eqb_neq _ _) E) in Er. unfold getRid in Er. rewrite (proj2 (Z.eqb_neq _ _) E) in Er. by case_bool_decide. }
  destruct (proxyLoop_spec pclmul addr name revision maxR peer image attempts (sock_newPollList garbage) []) as (o & Hrun & Ho).
  { split; cbn; [unfold MAXLISTEN; lia|done]. }
  { exact (List.Forall_nil _). }
  { done. }
  { change (fds (sock_newPollList garbage)) with (@nil Z). cbn [length]. unfold MAXLISTEN. lia. }
  pose proof (proxyLoop_returns pclmul addr name revision maxR peer image attempts (sock_newPollList garbage) [] Hpolls) as Hret.
  rewrite Hrun in Hret |- *. cbn [mbind result_bind]. destruct o as [[[acc pl] closed]|]; [|done].
  destruct (Ho acc pl closed eq_refl) as (executed & rest & Hatt & Hfd & Hperm & Hacc).
  assert (sock_destroyPollList pl = fds pl) as Hdes.
  { unfold sock_destroyPollList. by apply filter_nonneg. }
  rewrite Hdes. clear Hdes Ho Hrun Hret. cbn in Hperm.
  assert (forall a, acc = Some a -> ac_rid a <> 0 /\ (revision <> 0 -> ac_rid a = revision)
    /\ (revision = 0 -> forall r, image = Some r -> r < ac_rid a)) as Hrid.
  { intros a Ha. destruct (Hacc a Ha) as (_ & at_ & _ & Ht). by eapply tryServer_rid. }
  pose proof (chooseImage_spec revision loaded acc Hpos Hnot Hrid) as Hch. fold image in Hch.
  set (loaded' := match acc with Some a => _ | None => _ end) in *.
  destruct (chooseImage revision image acc loaded') as [[i refs] new]. destruct Hch as (H1 & H2 & H3 & H4).
  destruct acc as [a|]; cbn [accSock] in *.
  - destruct (H4 ltac:(done)) as [-> Hi]. destruct i as [ri|]; [|done].
    assert (ac_sock a <> -1) as Hsock.
    { assert (Forall (fun fd => 0 <= fd) (newSocks executed)) as Hnn by (apply newSocks_nonneg; rewrite Hatt in Hok; by apply list.Forall_app in Hok as [? _]).
      rewrite Hperm in Hnn. apply list.Forall_app in Hnn as [_ Hnn]. apply list.Forall_app in Hnn as [_ Hnn]. apply list.Forall_cons in Hnn as [Hnn _]. lia. }
    destruct (startUplink_spec ie alts (imageOf ri) (ac_sock a) (hostOf (ac_sock a)) (ac_version a) Hinit Hsock) as (ir & -> & Hup & Hcl).
    cbn [mbind result_bind]. eexists. split; [done|]. cbn [px_image px_loaded px_refs px_uplink px_closed].
    destruct (Hrid a eq_refl) as (Ha0 & Hr1 & Hr2).
    assert (revision = 0 -> forall x, x ∈ loaded -> x < ac_rid a) as Hnew.
    { intros E x Hx. destruct (highest_ge _ _ Hx) as (h & Hh' & Hle). specialize (Hr2 E h). unfold image, getRid in Hr2. rewrite E in Hr2. cbn [Z.eqb] in Hr2.
      specialize (Hr2 Hh'). lia. }
    assert (Some ri = Some (ac_rid a)) as [= ->].
    { destruct (Z.eqb_spec revision 0) as [E|E].
      - rewrite (H1 E). apply highest_cons_new. intros h [Hin _]%highest_in. by apply Hnew.
      - rewrite (Hr1 E). apply H2; [done|]. unfold loaded'. rewrite (Hr1 E). by left. }
    split_and!; [done|intros; by apply H2|done| |].
    + right. exists (ac_rid a). split_and!; [done|done|by rewrite <- Hup; destruct (ir_uplink ir)|]. destruct (Z.eqb_spec revision 0); auto.
    + exists executed, rest. split; [done|]. rewrite Hperm, Hcl. destruct (ir_uplink ir) eqn:Eu.
      * destruct (uplinkWanted ie (imageOf (ac_rid a))); [|by discriminate (proj2 Hup eq_refl)]. cbn. rewrite app_nil_r. solve_Permutation.
      * rewrite (proj1 Hup eq_refl). cbn. rewrite !app_nil_r. solve_Permutation.
  - eexists. split; [done|]. cbn [px_image px_loaded px_refs px_uplink px_closed].
    split_and!; [done|intros; by apply H2|done|by left|]. exists executed, rest. split; [done|]. rewrite Hperm. cbn. by rewrite !app_nil_r.
Qed.

(** Revision 2 is loaded; the first server does not answer, the second has revision 4. *)
Definition demo_clone : clone_env := CloneEnv true true false None [] false true.
Definition demo_attempts : list attempt :=
  [Attempt (Some 6) (replicate 5 TimedOut) true true None true demo_clone;
   Attempt (Some 7) (replicate 5 (Ready [0; POLLOUT])) true true (Some (3, Some (chars "img"), 4, 8192)) true demo_clone].
Definition demo_cache : list imagecache := replicate CACHELEN (ImageCache (Ticks 0 0) [] 0).
Definition demo_garbage : list pollfd := replicate 20 (PollFd 0 0 0).
Definition demo_init : init_env := InitEnv true false true false true true.
Lemma loadImageProxy_correct_witness :
  exists r, loadImageProxy false 0 (chars "img") 0 1000000 (fun fd => fd =? 7) demo_init [] (fun _ => demo_image) (fun _ => demo_host) (Ticks 500 0) demo_cache
      [2] [2] demo_attempts demo_garbage = Ok (Some r)
    /\ px_image r = Some 4 /\ balanced (px_image r) (px_refs r) /\ px_uplink r = Some (7, 3).
Proof.
  destruct (loadImageProxy_correct false 0 (chars "img") 0 1000000 (fun fd => fd =? 7) demo_init [] (fun _ => demo_image) (fun _ => demo_host) (Ticks 500 0) demo_cache
    [2] demo_attempts demo_garbage) as (r & Hrun & H1 & _ & H3 & _).
  - reflexivity.
  - constructor; [intros fd [= <-]; right; lia|]. constructor; [intros fd [= <-]; right; lia|exact (List.Forall_nil _)].
  - constructor; [apply Nat.leb_le; reflexivity|]. constructor; [apply Nat.leb_le; reflexivity|exact (List.Forall_nil _)].
  - apply Nat.leb_le. vm_compute. reflexivity.
  - constructor; [lia|exact (List.Forall_nil _)].
  - split; reflexivity.
  - assert (px_uplink r = Some (7, 3) /\ px_loaded r = [4; 2]) as [Hu Hl].
    { vm_compute in Hrun. injection Hrun as <-. split; reflexivity. }
    exists r. split; [exact Hrun|]. split; [|split; [exact H3|exact Hu]]. rewrite (H1 eq_refl), Hl. reflexivity.
Defined.
(** Without a thread for the uplink the socket is closed twice. *)
Theorem proxy_double_close :
  exists r, loadImageProxy false 0 (chars "img") 0 1000000 (fun fd => fd =? 7) (InitEnv true false true false true false) [] (fun _ => demo_image) (fun _ => demo_host)
      (Ticks 500 0) demo_cache [2] [2] demo_attempts demo_garbage = Ok (Some r)
    /\ px_closed r = [6; 7; 7] /\ px_image r = Some 4.
Proof. eexists. split; [vm_compute; reflexivity|]. split; reflexivity. Qed.

(** [image_getOrLoad] holds one reference, to what it returns, if the function it asks as a proxy does. *)
Theorem getOrLoad_balanced name revision isProxy plan loadOk loaded proxy i refs :
  (forall l r, proxy l = Ok (Some r) -> balanced (px_image r) (px_refs r)) ->
  image_getOrLoad name revision isProxy plan loadOk loaded proxy = Ok (Some (i, refs)) -> balanced i refs.
Proof.
  intros Hproxy. unfold image_getOrLoad. destruct (if revision =? 0 then None else getRid revision loaded); [intros [= <- <-]; by unfold balanced|].
  destruct (nameRefused name); [intros [= <- <-]; by unfold balanced|]. destruct (serverLoad revision plan loadOk loaded) as [image loaded'].
  destruct isProxy; cbn [negb]; [|intros [= <- <-]; apply balanced_gets].
  destruct (proxy loaded') as [[r|]|] eqn:E; cbn [mbind result_bind option_bind]; [|done..]. intros [= <- <-]. apply Hproxy in E.
  unfold balanced in *. destruct image as [rid|]; [|done]. unfold getsOf, releasesOf in *. cbn [gets app mbind list_bind]. rewrite E. apply Permutation_middle.
Qed.
(** Asked for a revision that no server has, it returns the highest local one instead of
    nothing: [acceptedRemoteRid] is still 0, which [image_get] takes for any. *)
Theorem wrong_revision_returned :
  exists r, loadImageProxy false 0 (chars "img") 3 1000000 (fun _ => false) demo_init [] (fun _ => demo_image) (fun _ => demo_host) (Ticks 500 0) demo_cache [5] [5] [] demo_garbage = Ok (Some r)
    /\ px_image r = Some 5.
Proof. eexists. split; [vm_compute; reflexivity|reflexivity]. Qed.
(** If a server was asked recently, a revision that [loadImageServer] has just loaded from
    the disk is not returned, although the comment in [image_getOrLoad] says it is. *)
Theorem recent_question_hides_local :
  exists cache, checkRecently (Ticks 500 0) (chars "img") 3 demo_cache = Some cache
  /\ image_getOrLoad (chars "img") 3 true (PlanLoad [] 3) true [] (fun loaded =>
       loadImageProxy false 0 (chars "img") 3 1000000 (fun _ => false) demo_init [] (fun _ => demo_image) (fun _ => demo_host) (Ticks 501 0) cache loaded loaded [] demo_garbage)
     = Ok (Some (None, [Get 3; Release 3]))
  /\ image_getOrLoad (chars "img") 3 false (PlanLoad [] 3) true [] (fun _ => Ok None) = Ok (Some (Some 3, [Get 3])).
Proof. eexists. split; [vm_compute; reflexivity|]. split; vm_compute; reflexivity. Qed.
