(* ===== verification/Locks.v ===== *)
(** * Locks: the lock checker of debug builds ([src/server/locks.c], [locks.h])

    In debug builds every mutex call of the server goes through a checker that keeps a table
    of all mutexes with their priorities and a table of the threads that hold some, and ends
    the program when a mutex is taken out of order.  The calls are transitions of any number
    of threads: one step for every section under [initdestory] and for every call of the
    system's mutex functions. *)

From stdpp Require Import gmap relations.
From S2P Require Import Prelude Timing Types.
Open Scope Z_scope.

(** ** Priorities ([locks.h]) *)

Definition LOCK_RELOAD : Z := 90.
Definition LOCK_LOAD_CONFIG : Z := 100.
Definition LOCK_REMOTE_CLONE : Z := 110.
Definition LOCK_CLIENT_LIST : Z := 120.
Definition LOCK_CLIENT : Z := 130.
Definition LOCK_INTEGRITY_QUEUE : Z := 140.
Definition LOCK_IMAGE_LIST : Z := 150.
Definition LOCK_IMAGE : Z := 160.
Definition LOCK_UPLINK_QUEUE : Z := 170.
Definition LOCK_ALT_SERVER_LIST : Z := 180.
Definition LOCK_CLIENT_SEND : Z := 190.
Definition LOCK_UPLINK_RTT : Z := 200.
Definition LOCK_UPLINK_SEND : Z := 210.
Definition LOCK_RPC_ACL : Z := 220.
Definition LOCK_FUSE_INIT : Z := 300.
Definition LOCK_FUSE_DIR : Z := 310.

(** ** The tables *)

Definition MAXLOCKS : Z := SERVER_MAX_CLIENTS * 2 + SERVER_MAX_ALTS + 200 + SERVER_MAX_IMAGES.
Definition MAXTHREADS : Z := SERVER_MAX_CLIENTS + 100.
Definition MAXLPT : nat := 20.
Definition LOCKLEN : nat := 60.
(** [snprintf( dst, LOCKLEN, "%s", text )] *)
Definition printName (text : string) : string := String.substring 0 (LOCKLEN - 1) text.

(** A mutex is its address, a thread what [pthread_self] returns; 0 is the null pointer and no thread. *)
Record debug_lock_t := DebugLock {
  dl_lock : Z;
  dl_locktime : ticks;
  dl_locked : bool;
  dl_thread : Z;
  dl_lockId : Z;
  dl_prio : Z;
  dl_name : string;
  dl_where : string;
}.
(** [dt_locks] holds indices of the table of locks. *)
Record debug_thread_t := DebugThread {
  dt_tid : Z;
  dt_time : ticks;
  dt_name : string;
  dt_where : string;
  dt_locks : list (option nat);
}.

(** Where a thread is in one of the calls, with the local variables it still needs.  [Acquiring] is
    in front of the system's call, [Acquired] behind it; [CondRelease] in front of [pthread_cond_wait], [Sleeping] inside it,
    [Waking] there but waiting for the mutex, [CondGot] behind it. *)
Inductive lpc :=
| Running
| Acquiring (try : bool) (lock : Z) (l t idx : nat)
| Acquired (lock : Z) (l t idx : nat)
| Releasing (lock : Z) (l : nat)
| CondRelease (lock : Z) (l : nat)
| Sleeping (lock : Z) (l : nat)
| Waking (lock : Z) (l : nat)
| CondGot (lock : Z) (l : nat).
#[global] Instance lpc_eq_dec : EqDecision lpc.
Proof. solve_decision. Defined.

(** [db_mutexes] are the system's mutexes: who holds one. *)
Record debugger := Debugger {
  db_locks : list debug_lock_t;
  db_threads : list debug_thread_t;
  db_lockId : Z;
  db_mutexes : gmap Z Z;
  db_at : gmap Z lpc;
}.
Definition at_ (s : debugger) (tid : Z) : lpc := default Running (db_at s !! tid).
Definition setLocks (v : list debug_lock_t) (s : debugger) : debugger := let 'Debugger _ b c d e := s in Debugger v b c d e.
Definition setThreads (v : list debug_thread_t) (s : debugger) : debugger := let 'Debugger a _ c d e := s in Debugger a v c d e.
Definition setId (v : Z) (s : debugger) : debugger := let 'Debugger a b _ d e := s in Debugger a b v d e.
Definition setMutexes (v : gmap Z Z) (s : debugger) : debugger := let 'Debugger a b c _ e := s in Debugger a b c v e.
Definition goto (tid : Z) (p : lpc) (s : debugger) : debugger :=
  let 'Debugger a b c d e := s in Debugger a b c d (<[tid := p]> e).

(** What ends the program; a number is an index of a table. *)
Inductive report :=
| AlreadyInitialized
| NoFreeLocks
| LockUninitialized
| TooManyThreads
| PriorityViolation (held : nat)
| RecursiveLock
| TooManyLocks
| AlreadyLocked
| AcquireFailed (code : Z)
| UnlockUnknownThread
| UnlockNotHeld
| UnlockMismatch
| WaitUnknownThread
| WaitNotHeld
| WaitMismatch
| WaitPriority (held : option nat)
| WaitNotFree
| DestroyLocked
| DestroyUnknown.

(** The loops that search the tables. *)
Definition findLock (lock : Z) (s : debugger) : option nat := fst <$> list_find (fun d => dl_lock d = lock) (db_locks s).
Definition findThread (tid : Z) (s : debugger) : option nat := fst <$> list_find (fun t => dt_tid t = tid) (db_threads s).

Section Calls.
(** The calling thread, the name of the mutex in the source, where the call is (file and line), and the clock. *)
Context (self : Z) (name site : string) (now : ticks).

Definition initLock (lock prio : Z) (d : debug_lock_t) : debug_lock_t :=
  DebugLock lock (dl_locktime d) false (dl_thread d) (dl_lockId d) prio (printName name) (printName ("I " +:+ site)).
(** [pthread_mutex_init] makes the mutex free. *)
Definition debug_mutex_init (lock prio : Z) (s : debugger) : report + debugger :=
  match findLock lock s with
  | Some _ => inl AlreadyInitialized
  | None =>
      match findLock 0 s with
      | None => inl NoFreeLocks
      | Some first => inr (setMutexes (delete lock (db_mutexes s)) (setLocks (alter (initLock lock prio) first (db_locks s)) s))
      end
  end.

(** The loop over the mutexes that the thread holds: the first free place. *)
Fixpoint checkOrder (locks : list debug_lock_t) (l : nat) (prio : Z) (i : nat) (held : list (option nat)) (idx : option nat) : report + option nat :=
  match held with
  | [] => inr idx
  | None :: held => checkOrder locks l prio (S i) held (match idx with None => Some i | Some _ => idx end)
  | Some j :: held =>
      if prio <=? from_option dl_prio 0 (locks !! j) then inl (PriorityViolation j)
      else if bool_decide (j = l) then inl RecursiveLock
      else checkOrder locks l prio (S i) held idx
  end.
Definition newThread : debug_thread_t := DebugThread self now (printName name) (printName site) (replicate MAXLPT None).
(** The section in front of the system's call. *)
Definition debug_mutex_lock (lock : Z) (try : bool) (s : debugger) : report + debugger :=
  match findLock lock s with
  | None => inl LockUninitialized
  | Some l =>
      match findThread self s with
      | None =>
          match findThread 0 s with
          | None => inl TooManyThreads
          | Some first => inr (goto self (Acquiring try lock l first 0) (setThreads (<[first := newThread]> (db_threads s)) s))
          end
      | Some t =>
          match checkOrder (db_locks s) l (from_option dl_prio 0 (db_locks s !! l)) 0 (from_option dt_locks [] (db_threads s !! t)) None with
          | inl r => inl r
          | inr None => inl TooManyLocks
          | inr (Some idx) => inr (goto self (Acquiring try lock l t idx) s)
          end
      end
  end.
Definition takeLock (id : Z) (d : debug_lock_t) : debug_lock_t :=
  DebugLock (dl_lock d) now true self id (dl_prio d) (dl_name d) (printName ("L " +:+ site)).
Definition setHeld (idx : nat) (v : option nat) (t : debug_thread_t) : debug_thread_t :=
  DebugThread (dt_tid t) (dt_time t) (dt_name t) (dt_where t) (<[idx := v]> (dt_locks t)).
(** The rest of [debug_mutex_lock], the mutex held. *)
Definition recordLock (l t idx : nat) (s : debugger) : report + debugger :=
  if from_option dl_locked false (db_locks s !! l) then inl AlreadyLocked
  else
    let id := db_lockId s + 1 in
    inr (goto self Running (setId id (setThreads (alter (setHeld idx (Some l)) t (db_threads s)) (setLocks (alter (takeLock id) l (db_locks s)) s)))).

(** The index in [dt_locks] of the mutex; the last one counts. *)
Fixpoint findHeld (locks : list debug_lock_t) (lock : Z) (i : nat) (held : list (option nat)) (idx : option nat) : option nat :=
  match held with
  | [] => idx
  | o :: held =>
      findHeld locks lock (S i) held
        (match o with
         | Some j => if from_option dl_lock 0 (locks !! j) =? lock then Some i else idx
         | None => idx
         end)
  end.
Definition heldCount (held : list (option nat)) : nat := length (omap id held).
Definition dropLock (mark : string) (d : debug_lock_t) : debug_lock_t :=
  DebugLock (dl_lock d) (dl_locktime d) false 0 (dl_lockId d) (dl_prio d) (dl_name d) (printName (mark +:+ site)).
Definition freeThread (t : debug_thread_t) : debug_thread_t := DebugThread 0 (dt_time t) (dt_name t) (dt_where t) (dt_locks t).
Definition isMine (s : debugger) (l : nat) : bool :=
  match db_locks s !! l with Some d => (dl_thread d =? self) && dl_locked d | None => false end.
(** The section in front of [pthread_mutex_unlock]. *)
Definition debug_mutex_unlock (lock : Z) (s : debugger) : report + debugger :=
  match findThread self s with
  | None => inl UnlockUnknownThread
  | Some t =>
      let held := from_option dt_locks [] (db_threads s !! t) in
      match findHeld (db_locks s) lock 0 held None with
      | None => inl UnlockNotHeld
      | Some idx =>
          match mjoin (held !! idx) with
          | None => inl UnlockNotHeld
          | Some l =>
              if negb (isMine s l) then inl UnlockMismatch
              else
                let forget th := (if (heldCount held =? 1)%nat then freeThread else id) (setHeld idx None th) in
                inr (goto self (Releasing lock l) (setThreads (alter forget t (db_threads s)) (setLocks (alter (dropLock "U ") l (db_locks s)) s)))
          end
      end
  end.

(** The loop of [debug_mutex_cond_wait]: the mutex, the highest priority of the others and where it is. *)
Fixpoint waitScan (locks : list debug_lock_t) (lock : Z) (held : list (option nat)) (l : option nat) (mp : Z) (mpi : option nat)
  : option nat * Z * option nat :=
  match held with
  | [] => (l, mp, mpi)
  | None :: held => waitScan locks lock held l mp mpi
  | Some j :: held =>
      let d := locks !! j in
      if from_option dl_lock 0 d =? lock then waitScan locks lock held (Some j) mp mpi
      else if mp <? from_option dl_prio 0 d then waitScan locks lock held l (from_option dl_prio 0 d) (Some j)
      else waitScan locks lock held l mp mpi
  end.
Definition debug_mutex_cond_wait (lock : Z) (s : debugger) : report + debugger :=
  match findThread self s with
  | None => inl WaitUnknownThread
  | Some t =>
      let '(l, mp, mpi) := waitScan (db_locks s) lock (from_option dt_locks [] (db_threads s !! t)) None 0 None in
      match l with
      | None => inl WaitNotHeld
      | Some l =>
          if negb (isMine s l) then inl WaitMismatch
          else if from_option dl_prio 0 (db_locks s !! l) <=? mp then inl (WaitPriority mpi)
          else inr (goto self (CondRelease lock l) (setLocks (alter (dropLock "CWU ") l (db_locks s)) s))
      end
  end.
Definition retakeLock (id : Z) (d : debug_lock_t) : debug_lock_t :=
  DebugLock (dl_lock d) now true self id (dl_prio d) (dl_name d) (dl_where d).
(** Behind [pthread_cond_wait]. *)
Definition recordWake (l : nat) (s : debugger) : report + debugger :=
  match db_locks s !! l with
  | None => inl WaitNotFree
  | Some d =>
      if dl_locked d || negb (dl_thread d =? 0) then inl WaitNotFree
      else
        let id := db_lockId s + 1 in
        inr (goto self Running (setId id (setLocks (alter (retakeLock id) l (db_locks s)) s)))
  end.

Definition destroyLock (d : debug_lock_t) : debug_lock_t :=
  DebugLock 0 (dl_locktime d) (dl_locked d) (dl_thread d) (dl_lockId d) (dl_prio d) (dl_name d) (printName ("D " +:+ site)).
Definition debug_mutex_destroy (lock : Z) (s : debugger) : report + debugger :=
  match findLock lock s with
  | None => inl DestroyUnknown
  | Some l =>
      if from_option dl_locked false (db_locks s !! l) then inl DestroyLocked
      else inr (setMutexes (delete lock (db_mutexes s)) (setLocks (alter destroyLock l (db_locks s)) s))
  end.
End Calls.

(** What [debug_dump_lock_stats] prints: the mutexes, those that are held with their thread, and the threads with what they hold. *)
Inductive dump_line :=
| DumpLocked (name where_ : string) (secs serial thread : Z)
| DumpFree (name where_ : string)
| DumpThread (tid : Z) (name where_ : string) (secs : Z)
| DumpHeld (name where_ : string).
Definition dumpLock (now : ticks) (d : debug_lock_t) : list dump_line :=
  if dl_lock d =? 0 then []
  else if dl_locked d then [DumpLocked (dl_name d) (dl_where d) (timing_diff (dl_locktime d) now) (dl_lockId d) (dl_thread d)]
  else [DumpFree (dl_name d) (dl_where d)].
Definition dumpThread (locks : list debug_lock_t) (now : ticks) (t : debug_thread_t) : list dump_line :=
  if dt_tid t =? 0 then []
  else DumpThread (dt_tid t) (dt_name t) (dt_where t) (timing_diff (dt_time t) now)
    :: concat (map (fun o => match o ≫= (fun j => locks !! j) with Some d => [DumpHeld (dl_name d) (dl_where d)] | None => [] end) (dt_locks t)).
Definition debug_dump_lock_stats (now : ticks) (s : debugger) : list dump_line :=
  concat (map (dumpLock now) (db_locks s)) ++ concat (map (dumpThread (db_locks s) now) (db_threads s)).

(** ** Steps *)

Inductive event :=
| Init (name site : string) (lock prio : Z)
| Lock (name site : string) (now : ticks) (lock : Z) (try : bool)
| Acquire                           (* the system's call returns 0 *)
| Busy                              (* [pthread_mutex_trylock] returns EBUSY *)
| Fails (code : Z)                  (* it returns something else *)
| Record_ (site : string) (now : ticks)
| Unlock (site : string) (lock : Z)
| Release
| CondWait (site : string) (lock : Z)
| Sleep                             (* [pthread_cond_wait] gives the mutex back *)
| Wake                              (* the condition is signalled *)
| Destroy (site : string) (lock : Z).
(** [None]: the thread cannot do this where it is, or must wait. *)
Definition step (self : Z) (e : event) (s : debugger) : option (report + debugger) :=
  let free lock := bool_decide (db_mutexes s !! lock = None) in
  let take lock := setMutexes (<[lock := self]> (db_mutexes s)) s in
  let give lock := setMutexes (delete lock (db_mutexes s)) s in
  match e, at_ s self with
  | Init name site lock prio, Running => Some (debug_mutex_init name site lock prio s)
  | Lock name site now lock try, Running => Some (debug_mutex_lock self name site now lock try s)
  | Acquire, Acquiring _ lock l t idx => if free lock then Some (inr (goto self (Acquired lock l t idx) (take lock))) else None
  | Acquire, Waking lock l => if free lock then Some (inr (goto self (CondGot lock l) (take lock))) else None
  | Busy, Acquiring true lock _ _ _ => if free lock then None else Some (inr (goto self Running s))
  | Fails code, Acquiring _ _ _ _ _ => Some (inl (AcquireFailed code))
  | Record_ site now, Acquired _ l t idx => Some (recordLock self site now l t idx s)
  | Record_ _ now, CondGot _ l => Some (recordWake self now l s)
  | Unlock site lock, Running => Some (debug_mutex_unlock self site lock s)
  | Release, Releasing lock _ => Some (inr (goto self Running (give lock)))
  | CondWait site lock, Running => Some (debug_mutex_cond_wait self site lock s)
  | Sleep, CondRelease lock l => Some (inr (goto self (Sleeping lock l) (give lock)))
  | Wake, Sleeping lock l => Some (inr (goto self (Waking lock l) s))
  | Destroy site lock, Running => Some (debug_mutex_destroy site lock s)
  | _, _ => None
  end.

Definition dbg_start : debugger :=
  Debugger (replicate (Z.to_nat MAXLOCKS) (DebugLock 0 (Ticks 0 0) false 0 0 0 "" ""))
    (replicate (Z.to_nat MAXTHREADS) (DebugThread 0 (Ticks 0 0) "" "" (replicate MAXLPT None))) 0 ∅ ∅.

(** ** The invariant *)

Definition lockOf (L : list debug_lock_t) (l : nat) : Z := from_option dl_lock 0 (L !! l).
Definition prioOf (L : list debug_lock_t) (l : nat) : Z := from_option dl_prio 0 (L !! l).
Definition lockedOf (L : list debug_lock_t) (l : nat) : bool := from_option dl_locked false (L !! l).
Definition threadOf (L : list debug_lock_t) (l : nat) : Z := from_option dl_thread 0 (L !! l).
(** Thread [tid] has lock [l] in its list. *)
Definition listed (T : list debug_thread_t) (tid : Z) (l : nat) : Prop :=
  exists t th k, T !! t = Some th /\ dt_tid th = tid /\ dt_locks th !! k = Some (Some l).
Definition freeSlot (T : list debug_thread_t) (tid : Z) (t idx : nat) : Prop :=
  exists th, T !! t = Some th /\ dt_tid th = tid /\ dt_locks th !! idx = Some None.
(** All that the thread has in its list, except [l] itself, has a lower priority than [l]. *)
Definition below (L : list debug_lock_t) (T : list debug_thread_t) (tid : Z) (l : nat) : Prop :=
  forall j, listed T tid j -> j <> l -> lockOf L j <> 0 /\ prioOf L j < prioOf L l.
Definition isLock (L : list debug_lock_t) (l : nat) (lock : Z) : Prop := lockOf L l = lock /\ lock <> 0.

Definition pc_ok (L : list debug_lock_t) (T : list debug_thread_t) (M : gmap Z Z) (tid : Z) (p : lpc) : Prop :=
  match p with
  | Running => True
  | Acquiring _ lock l t idx => tid <> 0 /\ isLock L l lock /\ freeSlot T tid t idx /\ ~ listed T tid l /\ below L T tid l
  | Acquired lock l t idx => tid <> 0 /\ isLock L l lock /\ freeSlot T tid t idx /\ ~ listed T tid l /\ M !! lock = Some tid
  | Releasing lock l => tid <> 0 /\ isLock L l lock /\ ~ listed T tid l /\ M !! lock = Some tid
  | CondRelease lock l | CondGot lock l => tid <> 0 /\ isLock L l lock /\ listed T tid l /\ below L T tid l /\ M !! lock = Some tid
  | Sleeping lock l | Waking lock l => tid <> 0 /\ isLock L l lock /\ listed T tid l /\ below L T tid l /\ M !! lock <> Some tid
  end.
(** The thread holds the mutex, but the tables do not say so (yet, or any more). *)
Definition busy (p : lpc) (l : nat) : bool :=
  match p with
  | Acquired _ l' _ _ | Releasing _ l' | CondRelease _ l' | CondGot _ l' => bool_decide (l' = l)
  | _ => false
  end.
Definition asleep (p : lpc) (l : nat) : bool :=
  match p with Sleeping _ l' | Waking _ l' => bool_decide (l' = l) | _ => false end.

Record inv (s : debugger) : Prop := Inv {
  i_locks : forall i j, lockOf (db_locks s) i = lockOf (db_locks s) j -> lockOf (db_locks s) i <> 0 -> i = j;
  i_prio : forall l, lockOf (db_locks s) l <> 0 -> 0 < prioOf (db_locks s) l;
  i_threads : forall a b x y, db_threads s !! a = Some x -> db_threads s !! b = Some y -> dt_tid x = dt_tid y -> dt_tid x <> 0 -> a = b;
  i_once : forall t th j k l, db_threads s !! t = Some th -> dt_locks th !! j = Some (Some l) -> dt_locks th !! k = Some (Some l) -> j = k;
  i_len : forall t th, db_threads s !! t = Some th -> length (dt_locks th) = MAXLPT;
  i_listed : forall tid l, tid <> 0 -> listed (db_threads s) tid l ->
    lockOf (db_locks s) l <> 0 /\ (db_mutexes s !! lockOf (db_locks s) l = Some tid \/ asleep (at_ s tid) l = true);
  i_owned : forall tid lock, db_mutexes s !! lock = Some tid ->
    tid <> 0 /\ exists l, isLock (db_locks s) l lock
      /\ if busy (at_ s tid) l then lockedOf (db_locks s) l = false
         else lockedOf (db_locks s) l = true /\ threadOf (db_locks s) l = tid /\ listed (db_threads s) tid l;
  i_unowned : forall l, lockOf (db_locks s) l = 0 \/ db_mutexes s !! lockOf (db_locks s) l = None -> lockedOf (db_locks s) l = false;
  i_zero : forall l, lockedOf (db_locks s) l = false -> threadOf (db_locks s) l = 0;
  i_pc : forall tid, pc_ok (db_locks s) (db_threads s) (db_mutexes s) tid (at_ s tid);
}.

(** What a call of the program must respect: mutexes have an address and a positive priority, and a mutex is not
    destroyed while another thread is inside a call on it. *)
Definition mentions (p : lpc) (lock : Z) : bool :=
  match p with
  | Running => false
  | Acquiring _ m _ _ _ | Acquired m _ _ _ | Releasing m _ | CondRelease m _ | Sleeping m _ | Waking m _ | CondGot m _ => m =? lock
  end.
Definition legal (s : debugger) (self : Z) (e : event) : Prop :=
  self <> 0 /\
  match e with
  | Init _ _ lock prio => lock <> 0 /\ 0 < prio
  | Lock _ _ _ lock _ | Unlock _ lock | CondWait _ lock => lock <> 0
  | Destroy _ lock => lock <> 0 /\ forall tid, mentions (at_ s tid) lock = false
  | _ => True
  end.

(** *** The tables *)

Lemma get_alter {A} (g : debug_lock_t -> A) x f l j (L : list debug_lock_t) :
  from_option g x (alter f l L !! j) = if decide (j = l) then from_option (fun d => g (f d)) x (L !! l) else from_option g x (L !! j).
Proof. destruct (decide (j = l)) as [->|]; [rewrite list_lookup_alter_eq; by destruct (L !! l)|by rewrite list_lookup_alter_ne]. Qed.
Lemma alter_keeps {A} (g : debug_lock_t -> A) x f l j (L : list debug_lock_t) :
  (forall d, g (f d) = g d) -> from_option g x (alter f l L !! j) = from_option g x (L !! j).
Proof. intros H. rewrite get_alter. destruct (decide (j = l)) as [->|]; [|done]. destruct (L !! l); cbn; [apply H|done]. Qed.
Lemma alter_sets {A} (g : debug_lock_t -> A) x f l j L v :
  lockOf L l <> 0 -> (forall d, g (f d) = v) -> from_option g x (alter f l L !! j) = if decide (j = l) then v else from_option g x (L !! j).
Proof. intros Hl H. rewrite get_alter. destruct (decide (j = l)); [|done]. unfold lockOf in Hl. by destruct (L !! l); cbn in *. Qed.

Lemma findLock_inv s lock l : findLock lock s = Some l -> lockOf (db_locks s) l = lock.
Proof. unfold findLock. intros ([j d] & (Hd & Hl & _)%list_find_Some & ->)%fmap_Some. unfold lockOf. cbn [fst]. by rewrite Hd. Qed.
Lemma findLock_None s lock l : lock <> 0 -> findLock lock s = None -> lockOf (db_locks s) l <> lock.
Proof.
  unfold findLock. intros Hz E%fmap_None%list_find_None Hl. unfold lockOf in Hl. destruct (_ !! l) eqn:El; [|done].
  rewrite list.Forall_forall in E. by eapply E, Hl; eapply list_elem_of_lookup_2.
Qed.
Lemma findThread_Some s tid t : findThread tid s = Some t -> exists th, db_threads s !! t = Some th /\ dt_tid th = tid.
Proof. unfold findThread. intros ([j d] & (Hd & Hl & _)%list_find_Some & ->)%fmap_Some. eauto. Qed.
Lemma findThread_None s tid : findThread tid s = None -> forall l, ~ listed (db_threads s) tid l.
Proof.
  unfold findThread. intros E%fmap_None%list_find_None l (t & th & k & Ht & Hid & _).
  rewrite list.Forall_forall in E. by eapply E, Hid; eapply list_elem_of_lookup_2.
Qed.

(** What a thread has in its list is what is in its entry. *)
Lemma listed_entry s tid t th l :
  inv s -> tid <> 0 -> db_threads s !! t = Some th -> dt_tid th = tid -> listed (db_threads s) tid l <-> exists k, dt_locks th !! k = Some (Some l).
Proof.
  intros Hi Hz Ht Hid. split; [|intros [k Hk]; by exists t, th, k].
  intros (t' & th' & k & Ht' & Hid' & Hk). assert (t' = t) as -> by (eapply (i_threads s Hi); [done..|congruence|congruence]).
  simplify_eq. eauto.
Qed.

(** The order check. *)
Lemma checkOrder_ok L l prio held : forall i idx r,
  checkOrder L l prio i held idx = inr r ->
  (forall k j, held !! k = Some (Some j) -> prioOf L j < prio /\ j <> l)
  /\ match r with
     | None => idx = None /\ forall k o, held !! k = Some o -> o <> None
     | Some n => idx = Some n \/ idx = None /\ exists k, n = (i + k)%nat /\ held !! k = Some None
     end.
Proof.
  induction held as [|o held IH]; intros i idx r; cbn [checkOrder].
  { intros [= <-]. split; [done|]. destruct idx; [by left|]. split; [done|]. done. }
  destruct o as [j|].
  - fold (prioOf L j). destruct (Z.leb_spec prio (prioOf L j)); [done|]. destruct (bool_decide (j = l)) eqn:El; [done|]. apply bool_decide_eq_false in El.
    intros [H1 H2]%IH. split; [intros [|k] j' Hk; [by simplify_eq/=|by apply (H1 k)]|]. destruct r.
    + destruct H2 as [->|(-> & k & -> & Hk)]; [by left|]. right. split; [done|]. exists (S k). split; [lia|done].
    + destruct H2 as [-> H2]. split; [done|]. intros [|k] o Hk; [by simplify_eq/=|by apply (H2 k)].
  - intros [H1 H2]%IH. split; [intros [|k] j' Hk; [by simplify_eq/=|by apply (H1 k)]|]. destruct r as [n|].
    + destruct idx as [m|]; [left; by destruct H2 as [->|(? & _)]|]. right. split; [done|].
      destruct H2 as [[= ->]|(? & _)]; [|done]. exists 0%nat. split; [lia|done].
    + destruct idx; by destruct H2.
Qed.
Lemma checkOrder_violation L l prio held : forall i idx r,
  prio <= prioOf L l -> checkOrder L l prio i held idx = inl r -> exists k j, r = PriorityViolation j /\ held !! k = Some (Some j) /\ prio <= prioOf L j.
Proof.
  induction held as [|o held IH]; intros i idx r Hp; cbn [checkOrder]; [done|]. destruct o as [j|].
  - fold (prioOf L j). destruct (Z.leb_spec prio (prioOf L j)); [intros [= <-]; by exists 0%nat, j|].
    destruct (bool_decide (j = l)) eqn:El; [apply bool_decide_eq_true in El; subst; lia|].
    intros (k & j' & ? & ? & ?)%IH; [|done]. by exists (S k), j'.
  - intros (k & j' & ? & ? & ?)%IH; [|done]. by exists (S k), j'.
Qed.
Lemma findHeld_Some L lock held : forall i idx n,
  findHeld L lock i held idx = Some n -> idx = Some n \/ exists k j, n = (i + k)%nat /\ held !! k = Some (Some j) /\ lockOf L j = lock.
Proof.
  induction held as [|o held IH]; intros i idx n; cbn [findHeld]; [by left|].
  intros [H|(k & j & -> & Hk & Hl)]%IH; [|right; exists (S k), j; split; [lia|done]].
  destruct o as [j|]; [|by left]. fold (lockOf L j) in H. destruct (Z.eqb_spec (lockOf L j) lock); [|by left].
  injection H as <-. right. exists 0%nat, j. split; [lia|done].
Qed.
Lemma findHeld_None L lock held : forall i idx,
  findHeld L lock i held idx = None -> idx = None /\ forall k j, held !! k = Some (Some j) -> lockOf L j <> lock.
Proof.
  induction held as [|o held IH]; intros i idx; cbn [findHeld]; [done|].
  intros [H1 H2]%IH. destruct o as [j|].
  - fold (lockOf L j) in H1. destruct (Z.eqb_spec (lockOf L j) lock); [done|]. split; [done|]. intros [|k] j' Hk; [by simplify_eq/=|by apply (H2 k)].
  - split; [done|]. intros [|k] j' Hk; [done|by apply (H2 k)].
Qed.
(** What the loop of [debug_mutex_cond_wait] has found. *)
Definition scanned (L : list debug_lock_t) (lock : Z) (held : list (option nat)) (l : option nat) (mp : Z) (l' : option nat) (mp' : Z) : Prop :=
  mp <= mp'
  /\ (forall k j, held !! k = Some (Some j) -> lockOf L j <> lock -> prioOf L j <= mp')
  /\ (mp' = mp \/ exists k j, held !! k = Some (Some j) /\ lockOf L j <> lock /\ prioOf L j = mp')
  /\ match l' with
     | None => l = None /\ forall k j, held !! k = Some (Some j) -> lockOf L j <> lock
     | Some n => l = Some n \/ exists k, held !! k = Some (Some n) /\ lockOf L n = lock
     end.
Lemma scanned_cons L lock o held l l1 mp mp1 l' mp' :
  scanned L lock held l1 mp1 l' mp' -> mp <= mp1 ->
  (forall j, o = Some j -> lockOf L j <> lock -> prioOf L j <= mp1) ->
  (mp1 = mp \/ exists j, o = Some j /\ lockOf L j <> lock /\ prioOf L j = mp1) ->
  (l1 = l /\ (forall j, o = Some j -> lockOf L j <> lock) \/ exists j, o = Some j /\ lockOf L j = lock /\ l1 = Some j) ->
  scanned L lock (o :: held) l mp l' mp'.
Proof.
  intros (H1 & H2 & H3 & H4) Hmp Ho Hm Hl. split_and!; [lia| | |].
  - intros [|k] j Hk Hj; [|by apply (H2 k)]. cbn in Hk. simplify_eq. pose proof (Ho j eq_refl Hj). lia.
  - destruct H3 as [->|(k & j & H3)]; [|right; by exists (S k), j]. destruct Hm as [->|(j & -> & Hj)]; [by left|right]. by exists 0%nat, j.
  - destruct l' as [n|].
    + destruct H4 as [->|(k & H4)]; [|right; by exists (S k)]. destruct Hl as [[<- _]|(j & -> & Hj & [= ->])]; [by left|right]. by exists 0%nat.
    + destruct H4 as [-> H4]. destruct Hl as [[<- Hl]|(j & _ & _ & ?)]; [|done]. split; [done|]. intros [|k] j Hk; [|by apply (H4 k)]. cbn in Hk. simplify_eq. by apply Hl.
Qed.
Lemma waitScan_ok L lock held : forall l mp mpi l' mp' mpi',
  waitScan L lock held l mp mpi = (l', mp', mpi') -> scanned L lock held l mp l' mp'.
Proof.
  induction held as [|o held IH]; intros l mp mpi l' mp' mpi'; cbn [waitScan].
  { intros [= <- <- <-]. split_and!; [lia|done|by left|]. destruct l; [by left|done]. }
  destruct o as [j|]; cbn zeta.
  - fold (lockOf L j) (prioOf L j). destruct (Z.eqb_spec (lockOf L j) lock) as [Hl|Hl]; [|destruct (Z.ltb_spec mp (prioOf L j))];
      intros Hs%IH; (eapply scanned_cons; [exact Hs|lia|intros ? [= <-] ?; try done; lia| |]); try (by left); try (left; split; [done|by intros ? [= <-]]).
    + right. by exists j.
    + right. by exists j.
  - intros Hs%IH. eapply scanned_cons; [exact Hs|lia|done|by left|by left].
Qed.

(** *** Steps keep the invariant *)

Lemma at_goto s tid p t : at_ (goto tid p s) t = if decide (t = tid) then p else at_ s t.
Proof. destruct s. unfold at_. cbn. destruct (decide (t = tid)) as [->|]; [by rewrite lookup_insert_eq|by rewrite lookup_insert_ne]. Qed.
Lemma isLock_inj s l l' lock : inv s -> isLock (db_locks s) l lock -> isLock (db_locks s) l' lock -> l = l'.
Proof. intros Hi [Hl Hz] [Hl' _]. apply (i_locks s Hi); congruence. Qed.
(** The mutex of the call that a thread is in. *)
Definition refers (p : lpc) (l : nat) : Prop :=
  match p with
  | Running => False
  | Acquiring _ _ l' _ _ | Acquired _ l' _ _ | Releasing _ l' | CondRelease _ l' | Sleeping _ l' | Waking _ l' | CondGot _ l' => l' = l
  end.
(** What another thread finds when it goes on. *)
Lemma pc_ok_frame (L L' : list debug_lock_t) T T' M M' tid p :
  pc_ok L T M tid p ->
  (forall l, lockOf L l <> 0 -> refers p l \/ listed T tid l -> lockOf L' l = lockOf L l /\ prioOf L' l = prioOf L l) ->
  (tid <> 0 -> forall l, listed T' tid l <-> listed T tid l) -> (tid <> 0 -> forall t i, freeSlot T tid t i -> freeSlot T' tid t i) ->
  (forall lock, M' !! lock = Some tid <-> M !! lock = Some tid) -> pc_ok L' T' M' tid p.
Proof.
  intros Hp HL HT HF HM.
  assert (forall l lock, isLock L l lock -> refers p l -> isLock L' l lock) as HI.
  { intros l lock [Hl Hz] Hr. split; [|done]. destruct (HL l); [congruence|by left|congruence]. }
  assert (tid <> 0 -> forall l lock, isLock L l lock -> refers p l -> below L T tid l -> below L' T' tid l) as HB.
  { intros Hz l lock [Hl Hl0] Hr Hb j Hj Hjl. rewrite HT in Hj by done. destruct (Hb j Hj Hjl) as [Hj0 Hpr].
    destruct (HL j Hj0) as [-> ->]; [by right|]. destruct (HL l) as [_ ->]; [congruence|by left|done]. }
  destruct p; cbn [pc_ok] in *; try done; destruct_and!; split_and!; rewrite ?HT, ?HM by done; eauto; try (by apply HI); (by eapply HB).
Qed.

(** What a step of thread [self] changes at most, and what it must establish for itself. *)
Record changes (self : Z) (s s' : debugger) : Prop := Changes {
  c_lock : forall j, lockOf (db_locks s') j = lockOf (db_locks s) j;
  c_prio : forall j, prioOf (db_locks s') j = prioOf (db_locks s) j;
  c_at : forall tid, tid <> self -> at_ s' tid = at_ s tid;
  c_listed : forall tid l, tid <> self -> tid <> 0 -> listed (db_threads s') tid l <-> listed (db_threads s) tid l;
  c_free : forall tid t i, tid <> self -> tid <> 0 -> freeSlot (db_threads s) tid t i -> freeSlot (db_threads s') tid t i;
  c_mutex : forall tid lock, tid <> self -> db_mutexes s' !! lock = Some tid <-> db_mutexes s !! lock = Some tid;
  c_locked : forall j, (lockedOf (db_locks s') j = lockedOf (db_locks s) j /\ threadOf (db_locks s') j = threadOf (db_locks s) j)
    \/ ((db_mutexes s !! lockOf (db_locks s) j = Some self \/ db_mutexes s' !! lockOf (db_locks s) j = Some self)
        /\ (lockedOf (db_locks s') j = false -> threadOf (db_locks s') j = 0));
  c_given : forall j, db_mutexes s !! lockOf (db_locks s) j = Some self -> db_mutexes s' !! lockOf (db_locks s) j = None -> lockedOf (db_locks s') j = false;
}.
Record table_ok (T : list debug_thread_t) : Prop := TableOk {
  t_threads : forall a b x y, T !! a = Some x -> T !! b = Some y -> dt_tid x = dt_tid y -> dt_tid x <> 0 -> a = b;
  t_once : forall t th j k l, T !! t = Some th -> dt_locks th !! j = Some (Some l) -> dt_locks th !! k = Some (Some l) -> j = k;
  t_len : forall t th, T !! t = Some th -> length (dt_locks th) = MAXLPT;
}.
Lemma inv_table s : inv s -> table_ok (db_threads s).
Proof. intros [? ? H1 H2 H3 ? ? ? ? ?]. by split. Qed.
Record own_ok (self : Z) (s : debugger) : Prop := OwnOk {
  o_listed : forall l, listed (db_threads s) self l ->
    lockOf (db_locks s) l <> 0 /\ (db_mutexes s !! lockOf (db_locks s) l = Some self \/ asleep (at_ s self) l = true);
  o_owned : forall lock, db_mutexes s !! lock = Some self -> exists l, isLock (db_locks s) l lock
    /\ if busy (at_ s self) l then lockedOf (db_locks s) l = false
       else lockedOf (db_locks s) l = true /\ threadOf (db_locks s) l = self /\ listed (db_threads s) self l;
  o_pc : pc_ok (db_locks s) (db_threads s) (db_mutexes s) self (at_ s self);
}.
Lemma inv_own s self : self <> 0 -> inv s -> own_ok self s.
Proof. intros Hz Hi. split; [intros l; by apply (i_listed s Hi)|intros lock H; by apply (i_owned s Hi) in H as [_ ?]|apply (i_pc s Hi)]. Qed.
Lemma step_inv self s s' : self <> 0 -> inv s -> changes self s s' -> table_ok (db_threads s') -> own_ok self s' -> inv s'.
Proof.
  intros Hself Hi [CL CP CA CT CF CM CK CG] [TT TO TL] [OL OO OP]. split.
  - intros i j. rewrite !CL. apply (i_locks s Hi).
  - intros l. rewrite CL, CP. apply (i_prio s Hi).
  - done.
  - done.
  - done.
  - intros tid l Hz Hl. destruct (decide (tid = self)) as [->|Hne]; [by apply OL|]. rewrite CT in Hl by done. rewrite CL, CA by done.
    destruct (i_listed s Hi tid l Hz Hl) as [H0 H]. split; [done|]. by rewrite CM.
  - intros tid lock Ho. destruct (decide (tid = self)) as [->|Hne]; [split; [done|by apply OO]|].
    pose proof Ho as Ho'. rewrite CM in Ho by done. destruct (i_owned s Hi tid lock Ho) as (Hz & l & [Hl Hl0] & H). split; [done|]. exists l. split; [split; [by rewrite CL|done]|].
    destruct (CK l) as [[-> ->]|[Hc _]]; [|rewrite Hl in Hc; destruct Hc; congruence]. rewrite CA by done. destruct (busy _ l); [done|]. by rewrite CT.
  - intros l Hl. rewrite CL in Hl. destruct (CK l) as [[E _]|[Hc _]].
    + destruct Hl as [Hl|Hl]; [rewrite E; apply (i_unowned s Hi); by left|].
      destruct (db_mutexes s !! lockOf (db_locks s) l) as [tid|] eqn:Em; [|rewrite E; apply (i_unowned s Hi); by right].
      destruct (decide (tid = self)) as [->|Hne]; [by apply CG|]. apply CM in Em; [congruence|done].
    + destruct Hc as [Hc|Hc].
      * destruct Hl as [Hl|Hl]; [|by apply CG]. destruct (i_owned s Hi _ _ Hc) as (_ & l' & [_ Hz] & _). congruence.
      * destruct Hl as [Hl|Hl]; [|congruence]. destruct (OO _ Hc) as (l' & [_ Hz] & _). congruence.
  - intros l Hl. destruct (CK l) as [[E ->]|[_ H]]; [apply (i_zero s Hi); congruence|by apply H].
  - intros tid. destruct (decide (tid = self)) as [->|Hne]; [done|]. rewrite CA by done.
    eapply pc_ok_frame; [apply (i_pc s Hi)|intros; by rewrite CL, CP|intros Hz l; by apply CT|intros Hz t i; by apply CF|intros lock; by apply CM].
Qed.

(** Only the place in the code of the thread changes. *)
Lemma goto_inv s self p :
  inv s -> self <> 0 -> pc_ok (db_locks s) (db_threads s) (db_mutexes s) self p ->
  (forall l, busy p l = busy (at_ s self) l) -> (forall l, asleep (at_ s self) l = true -> asleep p l = true) -> inv (goto self p s).
Proof.
  intros Hi Hz Hp Hb Ha. destruct (inv_own s self Hz Hi) as [OL OO _].
  assert (at_ (goto self p s) self = p) as Hself by (rewrite at_goto; by rewrite decide_True).
  apply (step_inv self s); [done|done|split|destruct s; by apply inv_table in Hi|split]; rewrite ?Hself.
  - by destruct s.
  - by destruct s.
  - intros tid Ht. rewrite at_goto. by rewrite decide_False.
  - by destruct s.
  - by destruct s.
  - by destruct s.
  - destruct s. by left.
  - destruct s. intros j Hj. cbn in *. congruence.
  - intros l Hl. destruct (OL l) as [H1 H2]; [by destruct s|]. destruct s; cbn in *. split; [done|]. destruct H2; [by left|right; by apply Ha].
  - intros lock Hl. destruct (OO lock) as (l & H1 & H2); [by destruct s|]. exists l. rewrite Hb. by destruct s.
  - by destruct s.
Qed.
(** The system's mutex is taken. *)
Lemma take_inv s self p lock l :
  inv s -> self <> 0 -> db_mutexes s !! lock = None -> isLock (db_locks s) l lock ->
  (forall j, busy p j = bool_decide (j = l)) -> (forall j, busy (at_ s self) j = false) -> (forall j, asleep (at_ s self) j = true -> j = l) ->
  pc_ok (db_locks s) (db_threads s) (<[lock := self]> (db_mutexes s)) self p ->
  inv (goto self p (setMutexes (<[lock := self]> (db_mutexes s)) s)).
Proof.
  intros Hi Hz Hm Hl Hb Hb0 Ha Hp. destruct (inv_own s self Hz Hi) as [OL OO _].
  assert (lockedOf (db_locks s) l = false) as Hfree. { apply (i_unowned s Hi). right. by rewrite (proj1 Hl). }
  set (s' := goto _ _ _). assert (at_ s' self = p) as Hself by (unfold s'; rewrite at_goto; by rewrite decide_True).
  assert (forall tid, tid <> self -> at_ s' tid = at_ s tid) as Hother. { intros tid Ht. unfold s'. rewrite at_goto, decide_False by done. by destruct s. }
  assert (db_locks s' = db_locks s /\ db_threads s' = db_threads s /\ db_mutexes s' = <[lock := self]> (db_mutexes s)) as (EL & ET & EM) by (by destruct s).
  apply (step_inv self s); [done|done|split|rewrite ET; by apply inv_table|split]; rewrite ?EL, ?ET, ?EM, ?Hself; try done.
  - intros tid lk Ht. rewrite lookup_insert. case_decide; [subst lk|done]. rewrite Hm. split; [intros [= ->]; done|done].
  - by left.
  - intros j _ Hn. rewrite lookup_insert in Hn. case_decide; [done|]. apply (i_unowned s Hi). by right.
  - intros j Hj. destruct (OL j Hj) as [H1 H2]. split; [done|]. left. rewrite lookup_insert. case_decide; [done|].
    destruct H2 as [H2|H2%Ha]; [done|]. subst j. by destruct Hl.
  - intros lk Hlk. rewrite lookup_insert in Hlk. case_decide as Hd.
    + subst lk. exists l. rewrite Hb, bool_decide_eq_true_2 by done. done.
    + destruct (OO lk Hlk) as (l2 & H1 & H2). exists l2. split; [done|]. rewrite Hb0 in H2. rewrite Hb, bool_decide_eq_false_2; [done|].
      intros ->. destruct H1, Hl. congruence.
Qed.
(** The system's mutex is given back. *)
Lemma give_inv s self p lock l :
  inv s -> self <> 0 -> db_mutexes s !! lock = Some self -> isLock (db_locks s) l lock ->
  (forall j, busy p j = false) -> (forall j, busy (at_ s self) j = bool_decide (j = l)) ->
  (listed (db_threads s) self l -> asleep p l = true) -> (forall j, asleep (at_ s self) j = false) ->
  pc_ok (db_locks s) (db_threads s) (delete lock (db_mutexes s)) self p ->
  inv (goto self p (setMutexes (delete lock (db_mutexes s)) s)).
Proof.
  intros Hi Hz Hm Hl Hb0 Hb Ha Ha0 Hp. destruct (inv_own s self Hz Hi) as [OL OO _].
  assert (lockedOf (db_locks s) l = false) as Hfree.
  { destruct (OO lock Hm) as (l' & H1 & H2). assert (l' = l) as -> by (by eapply isLock_inj). by rewrite Hb, bool_decide_eq_true_2 in H2. }
  set (s' := goto _ _ _). assert (at_ s' self = p) as Hself by (unfold s'; rewrite at_goto; by rewrite decide_True).
  assert (forall tid, tid <> self -> at_ s' tid = at_ s tid) as Hother. { intros tid Ht. unfold s'. rewrite at_goto, decide_False by done. by destruct s. }
  assert (db_locks s' = db_locks s /\ db_threads s' = db_threads s /\ db_mutexes s' = delete lock (db_mutexes s)) as (EL & ET & EM) by (by destruct s).
  apply (step_inv self s); [done|done|split|rewrite ET; by apply inv_table|split]; rewrite ?EL, ?ET, ?EM, ?Hself; try done.
  - intros tid lk Ht. rewrite lookup_delete. case_decide; [subst lk|done]. rewrite Hm. split; [done|intros [= ->]; done].
  - by left.
  - intros j Hj Hn. rewrite lookup_delete in Hn. case_decide as Hd; [|congruence]. assert (j = l) as ->; [|done].
    eapply isLock_inj; [done| |exact Hl]. split; [done|apply Hl].
  - intros j Hj. destruct (OL j Hj) as [H1 H2]. split; [done|]. rewrite Ha0 in H2. destruct H2 as [H2|]; [|done]. rewrite lookup_delete. case_decide as Hd; [right|by left].
    assert (j = l) as ->; [|by apply Ha]. eapply isLock_inj; [done| |exact Hl]. split; [done|apply Hl].
  - intros lk Hlk. rewrite lookup_delete in Hlk. case_decide as Hd; [done|].
    destruct (OO lk Hlk) as (l2 & H1 & H2). exists l2. split; [done|]. rewrite Hb0. rewrite Hb, bool_decide_eq_false_2 in H2; [done|].
    intros ->. destruct H1, Hl. congruence.
Qed.

(** A thread changes its own entry. *)
Lemma listed_alter T f t th tid l :
  T !! t = Some th -> (forall th, dt_tid (f th) = dt_tid th \/ dt_tid (f th) = 0) -> tid <> dt_tid th -> tid <> 0 ->
  listed (alter f t T) tid l <-> listed T tid l.
Proof.
  intros Ht Hf Hne Hz. split; intros (t' & x & k & Hx & Hid & Hk).
  - rewrite list_lookup_alter in Hx. case_decide as Hd; [subst t'|by exists t', x, k]. rewrite Ht in Hx. injection Hx as <-. exfalso.
    destruct (Hf th); congruence.
  - exists t', x, k. rewrite list_lookup_alter_ne; [done|]. intros <-. congruence.
Qed.
Lemma freeSlot_alter T f t th tid t' i :
  T !! t = Some th -> tid <> dt_tid th -> freeSlot T tid t' i -> freeSlot (alter f t T) tid t' i.
Proof. intros Ht Hne (x & Hx & Hid & Hi). exists x. rewrite list_lookup_alter_ne; [done|]. intros <-. congruence. Qed.
Lemma setHeld_table T t th idx v g :
  table_ok T -> T !! t = Some th -> (forall l, v = Some l -> forall k, dt_locks th !! k <> Some (Some l)) ->
  (forall x, dt_tid (g x) = dt_tid x \/ dt_tid (g x) = 0) -> (forall x, dt_locks (g x) = dt_locks x) ->
  table_ok (alter (fun x => g (setHeld idx v x)) t T).
Proof.
  intros [T1 T2 T3] Ht Hv Hg Hd. split.
  - intros a b x y Ha Hb. rewrite !list_lookup_alter in *. intros E Hz.
    assert (forall c z, (if decide (t = c) then (fun x => g (setHeld idx v x)) <$> T !! t else T !! c) = Some z -> dt_tid z <> 0 -> exists z', T !! c = Some z' /\ dt_tid z' = dt_tid z) as H.
    { intros c z Hc Hc0. case_decide; [subst c|by exists z]. rewrite Ht in Hc. injection Hc as <-. exists th. split; [done|].
      destruct (Hg (setHeld idx v th)) as [->|]; [done|congruence]. }
    destruct (H a x Ha Hz) as (x' & Hx' & Ex), (H b y Hb) as (y' & Hy' & Ey); [congruence|]. eapply T1; [exact Hx'|exact Hy'|congruence|congruence].
  - intros t' x j k l Hx Hj Hk. rewrite list_lookup_alter in Hx. case_decide as Hdt; [subst t'|by eapply T2].
    rewrite Ht in Hx. injection Hx as <-. rewrite Hd in Hj, Hk. cbn [setHeld dt_locks] in Hj, Hk.
    apply list_lookup_insert_Some in Hj, Hk.
    destruct Hj as [(<- & Ev & Hlt)|[Hj1 Hj]], Hk as [(<- & Ev' & _)|[Hk1 Hk]]; [done| | |by eapply T2].
    + by exfalso; eapply (Hv l).
    + by exfalso; eapply (Hv l).
  - intros t' x Hx. rewrite list_lookup_alter in Hx. case_decide; [|by eapply T3]. subst t'. rewrite Ht in Hx. injection Hx as <-. rewrite Hd. cbn. rewrite length_insert. by eapply T3.
Qed.
Lemma newThread_inv s self name site now first :
  inv s -> self <> 0 -> at_ s self = Running -> findThread self s = None -> findThread 0 s = Some first ->
  let s' := setThreads (<[first := newThread self name site now]> (db_threads s)) s in
  inv s' /\ freeSlot (db_threads s') self first 0 /\ forall l, ~ listed (db_threads s') self l.
Proof.
  intros Hi Hz Hrun Hn (th & Hf & H0)%findThread_Some s'. pose proof (findThread_None s self Hn) as Hnl0.
  assert (forall t x, db_threads s' !! t = Some x -> (t = first /\ x = newThread self name site now) \/ (t <> first /\ db_threads s !! t = Some x)) as HT.
  { intros t x. unfold s'. destruct s; cbn in *. rewrite list_lookup_insert. case_decide as Hd; [destruct Hd as [-> _]; intros [= <-]; by left|].
    intros Hx. right. split; [|done]. intros ->. apply Hd. split; [done|]. by eapply lookup_lt_Some. }
  assert (forall t, t <> first -> db_threads s' !! t = db_threads s !! t) as HT'. { intros t Ht. unfold s'. destruct s; cbn. by rewrite list_lookup_insert_ne. }
  assert (db_threads s' !! first = Some (newThread self name site now)) as Hnew. { unfold s'. destruct s; cbn in *. rewrite list_lookup_insert_eq; [done|by eapply lookup_lt_Some]. }
  assert (forall l, ~ listed (db_threads s') self l) as Hnl.
  { intros l (t & x & k & [[-> ->]|[Hne Hx]]%HT & Hid & Hk).
    - unfold newThread in Hk. cbn [dt_locks] in Hk. apply lookup_replicate in Hk as [? _]. done.
    - by apply (Hnl0 l); exists t, x, k. }
  assert (forall tid l, tid <> self -> tid <> 0 -> listed (db_threads s') tid l <-> listed (db_threads s) tid l) as HL.
  { intros tid l Hne Hz'. split; intros (t & x & k & Hx & Hid & Hk).
    - apply HT in Hx as [[-> ->]|[Hne' Hx]]; [done|]. by exists t, x, k.
    - exists t, x, k. rewrite HT'; [done|]. intros ->. congruence. }
  destruct (inv_own s self Hz Hi) as [OL OO OP], (inv_table s Hi) as [T1 T2 T3]. split_and!; [|exists (newThread self name site now); done|done].
  assert (forall x t, db_threads s !! t = Some x -> dt_tid x <> self) as Hno.
  { intros x t Hx Hid. unfold findThread in Hn. apply fmap_None, list_find_None in Hn. rewrite list.Forall_forall in Hn. by eapply Hn, Hid; eapply list_elem_of_lookup_2. }
  apply (step_inv self s); [done|done|split|split|split].
  - by destruct s.
  - by destruct s.
  - by destruct s.
  - done.
  - intros tid t i Hne Hz' (x & Hx & Hid & Hk). exists x. rewrite HT'; [done|]. intros ->. congruence.
  - by destruct s.
  - destruct s. by left.
  - intros j. destruct s; cbn. congruence.
  - intros a b x y [[-> ->]|[Ha Hx]]%HT [[-> ->]|[Hb Hy]]%HT E Hne; [done| | |by eapply T1].
    + exfalso. eapply Hno; [exact Hy|done].
    + exfalso. by eapply Hno; [exact Hx|].
  - intros t x j k l [[-> ->]|[Ha Hx]]%HT; [|by eapply T2]. cbn [newThread dt_locks]. intros Hj. apply lookup_replicate in Hj as [? _]. done.
  - intros t x [[-> ->]|[Ha Hx]]%HT; [done|by eapply T3].
  - intros l Hl. by apply Hnl in Hl.
  - intros lock Hl. destruct (OO lock) as (l & H1 & H2); [by destruct s|]. exists l. destruct s; cbn in *. split; [done|].
    destruct (busy _ l); [done|]. exfalso. by eapply Hnl0, H2.
  - assert (at_ s' self = Running) as ->; [by destruct s|done].
Qed.

(** A thread changes the entry of a mutex it holds, and perhaps its own list. *)
Lemma slot_inv s s' self f l lock p :
  inv s -> self <> 0 -> isLock (db_locks s) l lock -> db_mutexes s !! lock = Some self ->
  (forall d, dl_lock (f d) = dl_lock d) -> (forall d, dl_prio (f d) = dl_prio d) ->
  (forall d, dl_locked (f d) = true /\ dl_thread (f d) = self \/ dl_locked (f d) = false /\ dl_thread (f d) = 0) ->
  db_locks s' = alter f l (db_locks s) -> db_mutexes s' = db_mutexes s -> (forall tid, at_ s' tid = if decide (tid = self) then p else at_ s tid) ->
  table_ok (db_threads s') ->
  (forall tid l, tid <> self -> tid <> 0 -> listed (db_threads s') tid l <-> listed (db_threads s) tid l) ->
  (forall tid t i, tid <> self -> tid <> 0 -> freeSlot (db_threads s) tid t i -> freeSlot (db_threads s') tid t i) ->
  (forall j, j <> l -> listed (db_threads s') self j <-> listed (db_threads s) self j) ->
  (forall j, j <> l -> busy (at_ s self) j = false /\ busy p j = false) -> (forall j, asleep (at_ s self) j = false) ->
  (if busy p l then forall d, dl_locked (f d) = false else (forall d, dl_locked (f d) = true) /\ listed (db_threads s') self l) ->
  pc_ok (alter f l (db_locks s)) (db_threads s') (db_mutexes s) self p -> inv s'.
Proof.
  intros Hi Hz Hl Hm Fl Fp Ft EL EM EA HT HLs HFs HLo Hb Ha Hown Hp. destruct (inv_own s self Hz Hi) as [OL OO OP].
  assert (forall j, lockOf (alter f l (db_locks s)) j = lockOf (db_locks s) j) as ELk by (intros j; by apply alter_keeps).
  assert (lockOf (db_locks s) l <> 0) as Hl0 by (destruct Hl; congruence).
  assert (forall j, j <> l -> lockedOf (alter f l (db_locks s)) j = lockedOf (db_locks s) j /\ threadOf (alter f l (db_locks s)) j = threadOf (db_locks s) j) as Eo.
  { intros j Hj. unfold lockedOf, threadOf. rewrite !get_alter, !decide_False by done. done. }
  assert (exists d, db_locks s !! l = Some d) as [d Hd]. { unfold lockOf in Hl0. destruct (db_locks s !! l); [eauto|done]. }
  assert (lockedOf (alter f l (db_locks s)) l = dl_locked (f d) /\ threadOf (alter f l (db_locks s)) l = dl_thread (f d)) as [Ek Et].
  { unfold lockedOf, threadOf. by rewrite list_lookup_alter_eq, Hd. }
  assert (at_ s' self = p) as Es by (by rewrite EA, decide_True).
  apply (step_inv self s); [done|done|split|done|split]; rewrite ?EL, ?EM, ?Es; try done.
  - intros j. by apply alter_keeps.
  - intros tid Ht. by rewrite EA, decide_False.
  - intros j. destruct (decide (j = l)) as [->|Hj]; [|left; by apply Eo]. right. destruct Hl as [-> _]. split; [by left|].
    rewrite Ek, Et. destruct (Ft d) as [[-> _]|[_ ->]]; done.
  - intros j Hj. congruence.
  - intros j Hj. rewrite ELk. destruct (decide (j = l)) as [->|Hne]; [split; [done|left; destruct Hl; congruence]|].
    rewrite HLo in Hj by done. destruct (OL j Hj) as [H1 H2]. split; [done|]. rewrite Ha in H2. destruct H2; [by left|done].
  - intros lk Hlk. destruct (OO lk Hlk) as (j & H1 & H2). exists j. split; [destruct H1 as [H1 H1']; split; [by rewrite ELk|done]|].
    destruct (decide (j = l)) as [->|Hj].
    + destruct (busy p l); [rewrite Ek; apply Hown|]. destruct Hown as [Hown1 Hown2]. rewrite Ek, Et. split_and!; [apply Hown1| |done].
      destruct (Ft d) as [[_ ?]|[E _]]; [done|]. rewrite Hown1 in E. done.
    + destruct (Hb j Hj) as [B1 B2], (Eo j Hj) as [-> ->]. rewrite B1 in H2. rewrite B2. by rewrite HLo.
Qed.

Lemma at_frame s self p tid L T id :
  at_ (goto self p (setId id (setThreads T (setLocks L s)))) tid = if decide (tid = self) then p else at_ s tid.
Proof. rewrite at_goto. by destruct s. Qed.
Lemma record_inv s self site now lock l t idx s' :
  inv s -> self <> 0 -> at_ s self = Acquired lock l t idx -> recordLock self site now l t idx s = inr s' -> inv s'.
Proof.
  intros Hi Hz Hat. pose proof (i_pc s Hi self) as Hp. rewrite Hat in Hp. cbn in Hp. destruct Hp as (_ & Hl & (th & Ht & Hid & Hk) & Hnl & Hm).
  unfold recordLock. destruct (from_option _ _ _); [done|]. intros [= <-]. pose proof (inv_table s Hi) as HT.
  assert (forall T', db_threads (goto self Running (setId (db_lockId s + 1) (setThreads T' (setLocks (alter (takeLock self site now (db_lockId s + 1)) l (db_locks s)) s)))) = T') as ET by (by destruct s).
  assert (listed (alter (setHeld idx (Some l)) t (db_threads s)) self l) as Hnew.
  { exists t, (setHeld idx (Some l) th), idx. rewrite list_lookup_alter_eq, Ht. split_and!; [done|done|]. cbn. rewrite list_lookup_insert_eq; [done|by eapply lookup_lt_Some]. }
  eapply (slot_inv s _ self (takeLock self site now (db_lockId s + 1)) l lock Running); try done; rewrite ?ET.
  - intros d. by left.
  - by destruct s.
  - by destruct s.
  - intros tid. apply at_frame.
  - apply (setHeld_table _ t th idx (Some l) id); [done|done| |by left|done]. intros l' [= <-] k Hk'. apply Hnl. by exists t, th, k.
  - intros tid j Hne Hz'. apply (listed_alter _ _ t th); [done|by left|congruence|done].
  - intros tid t' i Hne Hz'. apply (freeSlot_alter _ _ t th); [done|congruence].
  - intros j Hj. split; intros (t' & x & k & Hx & Hid' & Hk').
    + rewrite list_lookup_alter in Hx. case_decide; [subst t'|by exists t', x, k]. rewrite Ht in Hx. injection Hx as <-. cbn in Hk'.
      apply list_lookup_insert_Some in Hk' as [(_ & [= ->] & _)|[_ Hk']]; [done|]. by exists t, th, k.
    + assert (t' = t) as -> by (eapply (t_threads _ HT); [done..|congruence|congruence]). simplify_eq.
      exists t, (setHeld idx (Some l) th), k. rewrite list_lookup_alter_eq, Ht. split_and!; [done|done|]. cbn. rewrite list_lookup_insert_ne; [done|]. intros ->. congruence.
  - intros j Hj. rewrite Hat. cbn. by rewrite bool_decide_eq_false_2 by done.
  - by rewrite Hat.
  - by cbn.
Qed.

Lemma heldCount_one (held : list (option nat)) idx l k j :
  heldCount held = 1%nat -> held !! idx = Some (Some l) -> held !! k = Some (Some j) -> k = idx.
Proof.
  unfold heldCount. revert idx k. induction held as [|o held IH]; intros idx k Hc Hi Hk; [done|].
  assert (forall i x, length (omap id held) = 0%nat -> held !! i = Some (Some x) -> False) as Hnone.
  { clear. intros i x Hl Hi. apply length_zero_iff_nil in Hl. assert (x ∈ omap id held) as Hx; [|rewrite Hl in Hx; by apply elem_of_nil in Hx].
    apply list_elem_of_omap. exists (Some x). split; [by eapply list_elem_of_lookup_2|done]. }
  destruct o as [x|]; cbn [omap list_omap id length] in Hc.
  - injection Hc as Hc. destruct idx, k; cbn in *; [done| | |]; exfalso; by eapply Hnone.
  - destruct idx, k; cbn in *; try done. f_equal. by apply IH.
Qed.
Lemma isMine_spec s self l d : db_locks s !! l = Some d -> isMine self s l = true <-> dl_thread d = self /\ dl_locked d = true.
Proof. intros Hd. unfold isMine. rewrite Hd, andb_true_iff, Z.eqb_eq. done. Qed.
(** What is in the list of a running thread is what it holds. *)
Lemma listed_owner s self l :
  inv s -> self <> 0 -> (forall j, asleep (at_ s self) j = false) -> (forall j, busy (at_ s self) j = false) -> listed (db_threads s) self l ->
  db_mutexes s !! lockOf (db_locks s) l = Some self /\ isLock (db_locks s) l (lockOf (db_locks s) l) /\ isMine self s l = true.
Proof.
  intros Hi Hz Ha Hb Hl. destruct (i_listed s Hi self l Hz Hl) as [H0 [Ho|Ho]]; [|by rewrite Ha in Ho]. split_and!; [done|done|].
  destruct (i_owned s Hi self _ Ho) as (_ & l' & [Hl' _] & H). assert (l' = l) as -> by (by apply (i_locks s Hi); [|rewrite Hl']).
  rewrite Hb in H. destruct H as (H1 & H2 & _). unfold lockOf in H0. destruct (db_locks s !! l) as [d|] eqn:Ed; [|done].
  apply (isMine_spec s self l d Ed). unfold threadOf, lockedOf in *. rewrite Ed in H1, H2. done.
Qed.
Lemma owner_listed s self lock :
  inv s -> (forall j, busy (at_ s self) j = false) -> db_mutexes s !! lock = Some self ->
  exists l, isLock (db_locks s) l lock /\ listed (db_threads s) self l.
Proof. intros Hi Hb Ho. destruct (i_owned s Hi self _ Ho) as (_ & l & Hl & H). rewrite Hb in H. exists l. by destruct H as (_ & _ & ?). Qed.

(** The thread's list behind an unlock: the entry is freed with the last mutex. *)
Definition forget (held : list (option nat)) (idx : nat) (x : debug_thread_t) : debug_thread_t :=
  (if (heldCount held =? 1)%nat then freeThread else id) (setHeld idx None x).
Lemma forget_tid held idx x : dt_tid (forget held idx x) = dt_tid x \/ dt_tid (forget held idx x) = 0.
Proof. unfold forget. destruct (_ =? _)%nat; [by right|by left]. Qed.
Lemma forget_locks held idx x : dt_locks (forget held idx x) = <[idx := None]> (dt_locks x).
Proof. unfold forget. by destruct (_ =? _)%nat. Qed.
Lemma listed_forget s self t th k l j :
  inv s -> self <> 0 -> db_threads s !! t = Some th -> dt_tid th = self -> dt_locks th !! k = Some (Some l) ->
  listed (alter (forget (dt_locks th) k) t (db_threads s)) self j <-> listed (db_threads s) self j /\ j <> l.
Proof.
  intros Hi Hz Ht Hid Hk. pose proof (inv_table s Hi) as HT. rewrite (listed_entry s self t th j Hi Hz Ht Hid). split.
  - intros (t' & x & k' & Hx & Hid' & Hk'). rewrite list_lookup_alter in Hx. case_decide as Hd.
    + subst t'. rewrite Ht in Hx. injection Hx as <-. rewrite forget_locks in Hk'. apply list_lookup_insert_Some in Hk' as [(_ & ? & _)|[Hne Hk']]; [done|].
      split; [eauto|]. intros ->. apply Hne. by eapply (t_once _ HT).
    + exfalso. apply Hd. eapply (t_threads _ HT); [done..|congruence|congruence].
  - intros [[k' Hk'] Hj]. exists t, (forget (dt_locks th) k th), k'. rewrite list_lookup_alter_eq, Ht. split; [done|]. rewrite forget_locks.
    assert (k' <> k) as Hne by congruence. split; [|by rewrite list_lookup_insert_ne].
    unfold forget. destruct (Nat.eqb_spec (heldCount (dt_locks th)) 1) as [E1|]; [|done]. exfalso. by eapply Hne, heldCount_one.
Qed.
Lemma unlock_spec s self site lock :
  inv s -> self <> 0 -> lock <> 0 -> at_ s self = Running ->
  match debug_mutex_unlock self site lock s with
  | inl r => (r = UnlockUnknownThread \/ r = UnlockNotHeld) /\ db_mutexes s !! lock <> Some self
  | inr s' => db_mutexes s !! lock = Some self /\ inv s'
  end.
Proof.
  intros Hi Hz Hlz Hat. unfold debug_mutex_unlock. assert (forall j, busy (at_ s self) j = false) as Hb by (by rewrite Hat).
  assert (forall j, asleep (at_ s self) j = false) as Ha by (by rewrite Hat).
  destruct (findThread self s) as [t|] eqn:Ef.
  2: { split; [by left|]. intros (l & _ & Hl)%owner_listed; [|done|done]. by eapply findThread_None. }
  apply findThread_Some in Ef as (th & Ht & Hid). rewrite Ht. cbn [from_option].
  destruct (findHeld _ _ _ _ _) as [idx|] eqn:Eh.
  2: { split; [by right|]. intros (l & [Hl _] & Hls)%owner_listed; [|done|done]. apply findHeld_None in Eh as [_ Eh].
       apply (listed_entry s self t th l Hi Hz Ht Hid) in Hls as [k Hk]. by eapply Eh. }
  apply findHeld_Some in Eh as [|(k & l & -> & Hk & Hl)]; [done|]. cbn [Nat.add]. rewrite Hk. cbn [mjoin option_join].
  assert (listed (db_threads s) self l) as Hls by (by exists t, th, k). destruct (listed_owner s self l Hi Hz Ha Hb Hls) as (Ho & Hlk & ->). rewrite Hl in *. cbn [negb]. split; [done|].
  fold (forget (dt_locks th) k). set (s' := goto _ _ _). assert (db_threads s' = alter (forget (dt_locks th) k) t (db_threads s)) as ET by (by destruct s).
  pose proof (fun j => listed_forget s self t th k l j Hi Hz Ht Hid Hk) as HLf.
  eapply (slot_inv s s' self (dropLock site "U ") l lock (Releasing lock l)); try done; rewrite ?ET.
  - intros d. by right.
  - by destruct s.
  - by destruct s.
  - intros tid. unfold s'. rewrite at_goto. by destruct s.
  - apply (setHeld_table _ t th k None (if (heldCount (dt_locks th) =? 1)%nat then freeThread else id)); [by apply inv_table|done|done| |].
    + intros x. destruct (_ =? _)%nat; [by right|by left].
    + intros x. by destruct (_ =? _)%nat.
  - intros tid j Hne Hz'. apply (listed_alter _ _ t th); [done|intros x; apply forget_tid|congruence|done].
  - intros tid t' i Hne Hz'. apply (freeSlot_alter _ _ t th); [done|congruence].
  - intros j Hj. rewrite HLf. naive_solver.
  - intros j Hj. rewrite Hat. cbn. by rewrite bool_decide_eq_false_2.
  - cbn. by rewrite bool_decide_eq_true_2.
  - cbn [pc_ok]. split_and!; [done| |rewrite HLf; naive_solver|done]. split; [|done]. unfold lockOf. by rewrite (alter_keeps dl_lock 0).
Qed.

Lemma wait_spec s self site lock :
  inv s -> self <> 0 -> lock <> 0 -> at_ s self = Running ->
  match debug_mutex_cond_wait self site lock s with
  | inl (WaitPriority _) => exists l, isLock (db_locks s) l lock /\ db_mutexes s !! lock = Some self
      /\ exists j, lockOf (db_locks s) j <> lock /\ db_mutexes s !! lockOf (db_locks s) j = Some self /\ prioOf (db_locks s) l <= prioOf (db_locks s) j
  | inl r => (r = WaitUnknownThread \/ r = WaitNotHeld) /\ db_mutexes s !! lock <> Some self
  | inr s' => inv s' /\ db_mutexes s !! lock = Some self
      /\ forall l j, isLock (db_locks s) l lock -> j <> l -> db_mutexes s !! lockOf (db_locks s) j = Some self -> prioOf (db_locks s) j < prioOf (db_locks s) l
  end.
Proof.
  intros Hi Hz Hlz Hat. unfold debug_mutex_cond_wait. assert (forall j, busy (at_ s self) j = false) as Hb by (by rewrite Hat).
  assert (forall j, asleep (at_ s self) j = false) as Ha by (by rewrite Hat).
  destruct (findThread self s) as [t|] eqn:Ef.
  2: { split; [by left|]. intros (l & _ & Hl)%owner_listed; [|done|done]. by eapply findThread_None. }
  apply findThread_Some in Ef as (th & Ht & Hid). rewrite Ht. cbn [from_option].
  pose proof (fun l => listed_entry s self t th l Hi Hz Ht Hid) as HL.
  destruct (waitScan _ _ _ _ _ _) as [[[l|] mp] mpi] eqn:Ew; apply waitScan_ok in Ew as (H1 & H2 & H3 & H4).
  2: { split; [by right|]. intros (l & [Hl _] & [k Hk]%HL)%owner_listed; [|done|done]. by eapply H4. }
  destruct H4 as [|(k & Hk & Hl)]; [done|]. assert (listed (db_threads s) self l) as Hls by (apply HL; eauto).
  destruct (listed_owner s self l Hi Hz Ha Hb Hls) as (Ho & Hlk & ->). rewrite Hl in *. cbn [negb]. fold (prioOf (db_locks s) l).
  destruct (Z.leb_spec (prioOf (db_locks s) l) mp) as [Hle|Hlt].
  { exists l. split_and!; [done|done|]. destruct H3 as [->|(k' & j & Hj & Hne & <-)].
    - pose proof (i_prio s Hi l ltac:(by destruct Hlk; congruence)). lia.
    - exists j. split_and!; [done| |done]. apply (listed_owner s self j Hi Hz Ha Hb). apply HL. eauto. }
  assert (forall j, listed (db_threads s) self j -> j <> l -> lockOf (db_locks s) j <> 0 /\ prioOf (db_locks s) j < prioOf (db_locks s) l) as Hbelow.
  { intros j Hj Hjl. split; [by apply (i_listed s Hi self)|]. apply HL in Hj as [k' Hk']. enough (prioOf (db_locks s) j <= mp) by lia. apply (H2 k'); [done|].
    intros E. apply Hjl, (i_locks s Hi); [congruence|]. rewrite E. done. }
  split_and!; [|done|].
  - set (s' := goto _ _ _). assert (db_threads s' = db_threads s) as ET by (by destruct s).
    eapply (slot_inv s s' self (dropLock site "CWU ") l lock (CondRelease lock l)); try done; rewrite ?ET; try done.
    + intros d. by right.
    + by destruct s.
    + by destruct s.
    + intros tid. unfold s'. rewrite at_goto. by destruct s.
    + by apply inv_table.
    + intros j Hj. rewrite Hat. cbn. by rewrite bool_decide_eq_false_2.
    + cbn. by rewrite bool_decide_eq_true_2.
    + cbn [pc_ok]. split_and!; [done| |done| |done].
      * split; [|done]. unfold lockOf. by rewrite (alter_keeps dl_lock 0).
      * intros j Hj Hjl. unfold lockOf, prioOf. rewrite !(alter_keeps dl_lock 0), !(alter_keeps dl_prio 0) by done. by apply Hbelow.
  - intros l' j Hl' Hj Hoj. assert (l' = l) as -> by (by eapply isLock_inj). apply owner_listed in Hoj as (j' & [Hj' Hj0] & Hlj); [|done|done].
    assert (j' = j) as -> by (apply (i_locks s Hi); congruence). by apply Hbelow.
Qed.

Lemma wake_spec s self now lock l :
  inv s -> self <> 0 -> at_ s self = CondGot lock l -> exists s', recordWake self now l s = inr s' /\ inv s'.
Proof.
  intros Hi Hz Hat. pose proof (i_pc s Hi self) as Hp. rewrite Hat in Hp. cbn in Hp. destruct Hp as (_ & Hl & Hls & Hb & Hm).
  destruct (i_owned s Hi self lock Hm) as (_ & l' & Hl' & H). assert (l' = l) as -> by (by eapply isLock_inj).
  rewrite Hat in H. cbn in H. rewrite bool_decide_eq_true_2 in H by done. pose proof (i_zero s Hi l H) as Ht.
  unfold recordWake. destruct Hl as [Hl Hl0]. unfold lockOf, lockedOf, threadOf in Hl, H, Ht. destruct (db_locks s !! l) as [d|] eqn:Ed; [|done]. cbn in Hl, H, Ht. rewrite H, Ht. cbn.
  eexists. split; [done|]. set (s' := goto _ _ _). assert (db_threads s' = db_threads s) as ET by (by destruct s).
  assert (isLock (db_locks s) l lock) as Hlk by done.
  eapply (slot_inv s s' self (retakeLock self now (db_lockId s + 1)) l lock Running); try done; rewrite ?ET; try done.
  - intros x. by left.
  - by destruct s.
  - by destruct s.
  - intros tid. unfold s'. rewrite at_goto. by destruct s.
  - by apply inv_table.
  - intros j Hj. rewrite Hat. cbn. by rewrite bool_decide_eq_false_2.
  - by rewrite Hat.
Qed.
Lemma record_spec s self site now lock l t idx :
  inv s -> self <> 0 -> at_ s self = Acquired lock l t idx -> exists s', recordLock self site now l t idx s = inr s' /\ inv s'.
Proof.
  intros Hi Hz Hat. destruct (recordLock self site now l t idx s) as [r|s'] eqn:E; [|exists s'; split; [done|by eapply record_inv]]. exfalso.
  pose proof (i_pc s Hi self) as Hp. rewrite Hat in Hp. cbn in Hp. destruct Hp as (_ & Hl & _ & _ & Hm).
  destruct (i_owned s Hi self lock Hm) as (_ & l' & Hl' & H). assert (l' = l) as -> by (by eapply isLock_inj).
  rewrite Hat in H. cbn in H. rewrite bool_decide_eq_true_2 in H by done. unfold recordLock in E. unfold lockedOf in H. by rewrite H in E.
Qed.

Lemma lock_spec s self name site now lock try :
  inv s -> self <> 0 -> lock <> 0 -> at_ s self = Running ->
  match debug_mutex_lock self name site now lock try s with
  | inl LockUninitialized => forall l, ~ isLock (db_locks s) l lock
  | inl TooManyThreads => Forall (fun th => dt_tid th <> 0) (db_threads s)
  | inl (PriorityViolation j) => exists l, isLock (db_locks s) l lock /\ db_mutexes s !! lockOf (db_locks s) j = Some self
      /\ prioOf (db_locks s) l <= prioOf (db_locks s) j
  | inl TooManyLocks => exists t th, db_threads s !! t = Some th /\ dt_tid th = self /\ length (dt_locks th) = MAXLPT /\ Forall is_Some (dt_locks th)
  | inl _ => False
  | inr s' => inv s' /\ exists l, isLock (db_locks s) l lock
      /\ forall j, db_mutexes s !! lockOf (db_locks s) j = Some self -> prioOf (db_locks s) j < prioOf (db_locks s) l
  end.
Proof.
  intros Hi Hz Hlz Hat. unfold debug_mutex_lock. assert (forall j, busy (at_ s self) j = false) as Hb by (by rewrite Hat).
  assert (forall j, asleep (at_ s self) j = false) as Ha by (by rewrite Hat).
  destruct (findLock lock s) as [l|] eqn:El; [|intros l [Hl _]; by eapply findLock_None].
  apply findLock_inv in El. assert (isLock (db_locks s) l lock) as Hl by done.
  assert (forall j, db_mutexes s !! lockOf (db_locks s) j = Some self -> listed (db_threads s) self j) as Hown.
  { intros j Hj. destruct (owner_listed s self _ Hi Hb Hj) as (j' & [Ej Hj0] & Hls). assert (j' = j) as -> by (apply (i_locks s Hi); congruence). done. }
  destruct (findThread self s) as [t|] eqn:Ef.
  - apply findThread_Some in Ef as (th & Ht & Hid). rewrite Ht. cbn [from_option]. fold (prioOf (db_locks s) l).
    pose proof (fun l => listed_entry s self t th l Hi Hz Ht Hid) as HL.
    destruct (checkOrder _ _ _ _ _ _) as [r|[idx|]] eqn:Ec.
    + apply checkOrder_violation in Ec as (k & j & -> & Hk & Hp); [|done]. exists l. split_and!; [done| |done]. apply (listed_owner s self j Hi Hz Ha Hb), HL. eauto.
    + apply checkOrder_ok in Ec as [H1 [|(_ & k & -> & Hk)]]; [done|]. assert (forall j, listed (db_threads s) self j -> prioOf (db_locks s) j < prioOf (db_locks s) l /\ j <> l) as Hbelow.
      { intros j [k' Hk']%HL. by eapply H1. }
      split; [|exists l; split; [done|]; intros j Hj%Hown; by apply Hbelow].
      apply goto_inv; [done|done| |by intros; rewrite Hb|by intros j; rewrite Ha]. cbn. split_and!; [done|done|by exists th| |].
      * intros Hc%Hbelow. naive_solver.
      * intros j Hj _. split; [by apply (i_listed s Hi self)|by apply Hbelow].
    + apply checkOrder_ok in Ec as [_ [_ H]]. exists t, th. split_and!; [done|done|by apply (i_len s Hi t)|]. apply list.Forall_lookup. intros k o Hk. apply not_eq_None_Some. by eapply H.
  - pose proof (findThread_None s self Ef) as Hn. destruct (findThread 0 s) as [first|] eqn:E0.
    + destruct (newThread_inv s self name site now first Hi Hz Hat Ef E0) as (Hi' & Hfree & Hnl).
      split; [|exists l; split; [done|]; intros j Hj%Hown; by apply Hn in Hj].
      set (s1 := setThreads _ s) in *. assert (at_ s1 self = Running) as Hat1 by (by destruct s). apply goto_inv; [done|done| |by rewrite Hat1|by rewrite Hat1].
      cbn. split_and!; [done|by destruct s|done|by apply Hnl|]. intros j Hj. by apply Hnl in Hj.
    + unfold findThread in E0. by apply fmap_None, list_find_None in E0.
Qed.

Lemma init_spec s self name site lock prio :
  inv s -> self <> 0 -> lock <> 0 -> 0 < prio ->
  match debug_mutex_init name site lock prio s with
  | inl AlreadyInitialized => exists l, isLock (db_locks s) l lock
  | inl NoFreeLocks => Forall (fun d => dl_lock d <> 0) (db_locks s)
  | inl _ => False
  | inr s' => (forall l, ~ isLock (db_locks s) l lock) /\ inv s'
  end.
Proof.
  intros Hi Hz Hl Hp. unfold debug_mutex_init. destruct (findLock lock s) as [l|] eqn:El; [apply findLock_inv in El; by exists l|].
  pose proof (fun l => findLock_None s lock l Hl El) as Hno.
  destruct (findLock 0 s) as [first|] eqn:E0; [|unfold findLock in E0; by apply fmap_None, list_find_None in E0].
  split; [intros l [? _]; by eapply Hno|]. pose proof (findLock_inv _ _ _ E0) as Hf.
  assert (is_Some (db_locks s !! first)) as [d0 Hd0]. { unfold findLock in E0. apply fmap_Some in E0 as ([j d] & (Hd & _)%list_find_Some & ->). eauto. }
  assert (db_mutexes s !! lock = None) as Hm.
  { destruct (db_mutexes s !! lock) eqn:E; [|done]. apply (i_owned s Hi) in E as (_ & l & [? _] & _). by exfalso; eapply Hno. }
  set (L' := alter (initLock name site lock prio) first (db_locks s)). set (s' := setMutexes _ _).
  assert (db_locks s' = L' /\ db_threads s' = db_threads s /\ db_mutexes s' = db_mutexes s /\ forall tid, at_ s' tid = at_ s tid) as (EL & ET & EM & EA).
  { destruct s; cbn in *. split_and!; [done|done|by apply delete_id|done]. }
  assert (forall j, lockOf L' j = if decide (j = first) then lock else lockOf (db_locks s) j) as Lk.
  { intros j. unfold L', lockOf. rewrite get_alter. case_decide; [by rewrite Hd0|done]. }
  assert (forall j, prioOf L' j = if decide (j = first) then prio else prioOf (db_locks s) j) as Pk.
  { intros j. unfold L', prioOf. rewrite get_alter. case_decide; [by rewrite Hd0|done]. }
  assert (lockedOf (db_locks s) first = false) as Hlf by (apply (i_unowned s Hi); by left).
  assert (forall j, lockedOf L' j = lockedOf (db_locks s) j) as Kk.
  { intros j. unfold L', lockedOf. rewrite get_alter. case_decide; [subst j|done]. unfold lockedOf in Hlf. rewrite Hlf. by destruct (db_locks s !! first). }
  assert (forall j, threadOf L' j = threadOf (db_locks s) j) as Tk by (intros j; by apply (alter_keeps dl_thread 0)).
  assert (forall j, lockOf (db_locks s) j <> 0 -> j <> first) as Hne by (intros j Hj ->; done).
  assert (forall l lk, isLock (db_locks s) l lk -> isLock L' l lk) as HI. { intros l lk [H1 H2]. split; [|done]. rewrite Lk, decide_False; [done|]. apply Hne. congruence. }
  split; rewrite ?EL, ?ET, ?EM.
  - intros i j. rewrite !Lk. repeat case_decide; subst; intros Hij Hi0; [done| | |by apply (i_locks s Hi)]; exfalso; by eapply Hno.
  - intros l. rewrite Lk, Pk. case_decide; [done|apply (i_prio s Hi)].
  - apply (i_threads s Hi).
  - apply (i_once s Hi).
  - apply (i_len s Hi).
  - intros tid l Ht Hls. destruct (i_listed s Hi tid l Ht Hls) as [H1 H2]. rewrite EA, Lk, decide_False by (by apply Hne). done.
  - intros tid lk Ho. rewrite EA. destruct (i_owned s Hi tid lk Ho) as (H1 & l & H2 & H3). split; [done|]. exists l. split; [by apply HI|]. by rewrite Kk, Tk.
  - intros l Hu. rewrite Kk. rewrite Lk in Hu. case_decide; [by subst|by apply (i_unowned s Hi)].
  - intros l. rewrite Kk, Tk. apply (i_zero s Hi).
  - intros tid. rewrite EA. eapply pc_ok_frame; [apply (i_pc s Hi)| |done|done|done]. intros l H0 _. rewrite Lk, Pk, !decide_False by (by apply Hne). done.
Qed.

Lemma busy_mentions s tid l lock : inv s -> isLock (db_locks s) l lock -> busy (at_ s tid) l = true \/ asleep (at_ s tid) l = true -> mentions (at_ s tid) lock = true.
Proof.
  intros Hi [Hl _] Hb. pose proof (i_pc s Hi tid) as Hp. destruct (at_ s tid); cbn in *; destruct Hb as [Hb|Hb]; try done;
    apply bool_decide_eq_true in Hb; subst; destruct Hp as (_ & [Hp _] & _); by apply Z.eqb_eq.
Qed.
Lemma refers_mentions s tid l lock : inv s -> lockOf (db_locks s) l = lock -> refers (at_ s tid) l -> mentions (at_ s tid) lock = true.
Proof.
  intros Hi Hl Hr. pose proof (i_pc s Hi tid) as Hp. destruct (at_ s tid); cbn in *; [done|..]; subst; destruct Hp as (_ & [Hp _] & _); by apply Z.eqb_eq.
Qed.
Lemma destroy_spec s self site lock :
  inv s -> self <> 0 -> lock <> 0 -> (forall tid, mentions (at_ s tid) lock = false) ->
  match debug_mutex_destroy site lock s with
  | inl DestroyUnknown => forall l, ~ isLock (db_locks s) l lock
  | inl DestroyLocked => exists tid, db_mutexes s !! lock = Some tid
  | inl _ => False
  | inr s' => db_mutexes s !! lock = None /\ inv s'
  end.
Proof.
  intros Hi Hz Hl Hno. unfold debug_mutex_destroy. destruct (findLock lock s) as [l|] eqn:El; [|intros l [Hlk _]; by eapply findLock_None].
  apply findLock_inv in El. assert (isLock (db_locks s) l lock) as Hlk by done. fold (lockedOf (db_locks s) l).
  destruct (lockedOf (db_locks s) l) eqn:Ek.
  { destruct (db_mutexes s !! lock) as [tid|] eqn:Em; [by exists tid|]. rewrite (i_unowned s Hi l) in Ek; [done|]. right. by rewrite El. }
  assert (db_mutexes s !! lock = None) as Hm.
  { destruct (db_mutexes s !! lock) as [tid|] eqn:E; [|done]. exfalso. apply (i_owned s Hi) in E as (_ & l' & Hl' & H). assert (l' = l) as -> by (by eapply isLock_inj).
    destruct (busy (at_ s tid) l) eqn:Eb; [|destruct H; congruence]. specialize (Hno tid). by rewrite (busy_mentions s tid l lock) in Hno by auto. }
  assert (forall tid, tid <> 0 -> ~ listed (db_threads s) tid l) as Hnl.
  { intros tid Ht H. apply (i_listed s Hi) in H as [_ [H|H]]; [congruence| |done]. specialize (Hno tid). by rewrite (busy_mentions s tid l lock) in Hno by auto. }
  split; [done|]. set (L' := alter (destroyLock site) l (db_locks s)). set (s' := setMutexes _ _).
  assert (db_locks s' = L' /\ db_threads s' = db_threads s /\ db_mutexes s' = db_mutexes s /\ forall tid, at_ s' tid = at_ s tid) as (EL & ET & EM & EA).
  { destruct s; cbn in *. split_and!; [done|done|by apply delete_id|done]. }
  assert (forall j, lockOf L' j = if decide (j = l) then 0 else lockOf (db_locks s) j) as Lk. { intros j. apply alter_sets; [congruence|done]. }
  assert (forall j, prioOf L' j = prioOf (db_locks s) j) as Pk by (intros j; by apply (alter_keeps dl_prio 0)).
  assert (forall j, lockedOf L' j = lockedOf (db_locks s) j) as Kk by (intros j; by apply (alter_keeps dl_locked false)).
  assert (forall j, threadOf L' j = threadOf (db_locks s) j) as Tk by (intros j; by apply (alter_keeps dl_thread 0)).
  split; rewrite ?EL, ?ET, ?EM.
  - intros i j. rewrite !Lk. repeat case_decide; subst; intros Hij Hi0; [done|done|congruence|by apply (i_locks s Hi)].
  - intros j. rewrite Lk, Pk. case_decide; [done|apply (i_prio s Hi)].
  - apply (i_threads s Hi).
  - apply (i_once s Hi).
  - apply (i_len s Hi).
  - intros tid j Ht Hls. destruct (i_listed s Hi tid j Ht Hls) as [H1 H2]. rewrite EA, Lk, decide_False by (intros ->; by apply (Hnl tid)). done.
  - intros tid lk Ho. rewrite EA. destruct (i_owned s Hi tid lk Ho) as (H1 & j & [H2 H20] & H3). split; [done|]. exists j. rewrite Kk, Tk. split; [|done].
    split; [|done]. rewrite Lk, decide_False; [done|]. intros ->. congruence.
  - intros j Hu. rewrite Kk. rewrite Lk in Hu. case_decide; [by subst|by apply (i_unowned s Hi)].
  - intros j. rewrite Kk, Tk. apply (i_zero s Hi).
  - intros tid. rewrite EA. destruct (decide (at_ s tid = Running)) as [->|Hr]; [done|]. assert (tid <> 0) as Ht. { pose proof (i_pc s Hi tid) as Hp. destruct (at_ s tid); cbn in Hp; [done|..]; apply Hp. }
    eapply pc_ok_frame; [apply (i_pc s Hi)| |done|done|done]. intros j H0 Hrl. rewrite Lk, Pk, decide_False; [done|]. intros ->.
    destruct Hrl as [Hrl|Hrl]; [|by apply (Hnl tid)]. specialize (Hno tid). by rewrite (refers_mentions s tid l lock) in Hno.
Qed.

(** ** What the checker guarantees *)

(** The reason for which a call may end the program, in terms of the mutexes that threads really hold. *)
Definition genuine (s : debugger) (self : Z) (e : event) (r : report) : Prop :=
  let L := db_locks s in let holds lock := db_mutexes s !! lock = Some self in
  match e, r with
  | Init _ _ lock _, AlreadyInitialized => exists l, isLock L l lock
  | Init _ _ _ _, NoFreeLocks => Forall (fun d => dl_lock d <> 0) L
  | Lock _ _ _ lock _, LockUninitialized => forall l, ~ isLock L l lock
  | Lock _ _ _ _ _, TooManyThreads => Forall (fun th => dt_tid th <> 0) (db_threads s)
  | Lock _ _ _ lock _, PriorityViolation j => exists l, isLock L l lock /\ holds (lockOf L j) /\ prioOf L l <= prioOf L j
  | Lock _ _ _ _ _, TooManyLocks =>
      exists t th, db_threads s !! t = Some th /\ dt_tid th = self /\ length (dt_locks th) = MAXLPT /\ Forall is_Some (dt_locks th)
  | Fails code, AcquireFailed code' => code = code'
  | Unlock _ lock, (UnlockUnknownThread | UnlockNotHeld) => ~ holds lock
  | CondWait _ lock, (WaitUnknownThread | WaitNotHeld) => ~ holds lock
  | CondWait _ lock, WaitPriority _ =>
      exists l, isLock L l lock /\ holds lock /\ exists j, lockOf L j <> lock /\ holds (lockOf L j) /\ prioOf L l <= prioOf L j
  | Destroy _ lock, DestroyUnknown => forall l, ~ isLock L l lock
  | Destroy _ lock, DestroyLocked => exists tid, db_mutexes s !! lock = Some tid
  | _, _ => False
  end.
(** What a call that goes on has respected. *)
Definition respected (s : debugger) (self : Z) (e : event) : Prop :=
  let L := db_locks s in let holds lock := db_mutexes s !! lock = Some self in
  match e with
  | Init _ _ lock _ => forall l, ~ isLock L l lock
  | Lock _ _ _ lock _ => exists l, isLock L l lock /\ forall j, holds (lockOf L j) -> prioOf L j < prioOf L l
  | Unlock _ lock => holds lock
  | CondWait _ lock => holds lock /\ forall l j, isLock L l lock -> j <> l -> holds (lockOf L j) -> prioOf L j < prioOf L l
  | Destroy _ lock => db_mutexes s !! lock = None
  | _ => True
  end.

Lemma step_correct s self e o :
  inv s -> legal s self e -> step self e s = Some o ->
  match o with inl r => genuine s self e r | inr s' => inv s' /\ respected s self e end.
Proof.
  intros Hi [Hz Hleg]. pose proof (i_pc s Hi self) as Hp. unfold step. destruct e; destruct (at_ s self) eqn:Hat; try done; cbn [pc_ok] in Hp; cbn in Hleg |- *.
  - intros [= <-]. destruct Hleg as [Hl0 Hp0]. pose proof (init_spec s self name site lock prio Hi Hz Hl0 Hp0) as H. destruct (debug_mutex_init _ _ _ _ _) as [[]|]; cbn; try tauto; split; by apply H.
  - intros [= <-]. pose proof (lock_spec s self name site now lock try Hi Hz Hleg Hat) as H. destruct (debug_mutex_lock _ _ _ _ _ _ _) as [[]|]; cbn; try done; by apply H.
  - case_bool_decide as Hf; [|done]. intros [= <-]. split; [|done]. destruct Hp as (_ & Hl & Hs & Hn & Hb).
    apply take_inv with l; [done|done|done|done|by cbn; intros; apply bool_decide_ext|by rewrite Hat|by rewrite Hat|]. cbn. split_and!; try done. by rewrite lookup_insert_eq.
  - case_bool_decide as Hf; [|done]. intros [= <-]. split; [|done]. destruct Hp as (_ & Hl & Hs & Hb & Hm).
    apply take_inv with l; [done|done|done|done|by cbn; intros; apply bool_decide_ext|by rewrite Hat| |].
    + intros j. rewrite Hat. cbn. by intros ->%bool_decide_eq_true.
    + cbn. split_and!; try done. by rewrite lookup_insert_eq.
  - destruct try; [|done]. case_bool_decide; [done|]. intros [= <-]. split; [|done]. apply goto_inv; [done|done|done|by rewrite Hat|by rewrite Hat].
  - intros [= <-]. done.
  - intros [= <-]. destruct (record_spec s self site now _ _ _ _ Hi Hz Hat) as (s' & -> & Hs). done.
  - intros [= <-]. destruct (wake_spec s self now _ _ Hi Hz Hat) as (s' & -> & Hs). done.
  - intros [= <-]. pose proof (unlock_spec s self site lock Hi Hz Hleg Hat) as H. destruct (debug_mutex_unlock _ _ _ _) as [r|]; cbn; [|naive_solver]. destruct H as [[-> | ->] Hh]; done.
  - intros [= <-]. split; [|done]. destruct Hp as (_ & Hl & Hn & Hm).
    apply give_inv with l; [done|done|done|done|done| |by intros|by rewrite Hat|done]. intros j. rewrite Hat. cbn. by apply bool_decide_ext.
  - intros [= <-]. pose proof (wait_spec s self site lock Hi Hz Hleg Hat) as H. destruct (debug_mutex_cond_wait _ _ _ _) as [[]|]; cbn; try done; try (by destruct H as [[? | ?] ?]).
  - intros [= <-]. split; [|done]. destruct Hp as (_ & Hl & Hls & Hb & Hm).
    apply give_inv with l; [done|done|done|done|done| | |by rewrite Hat|].
    + intros j. rewrite Hat. cbn. by apply bool_decide_ext.
    + intros _. cbn. by apply bool_decide_eq_true.
    + cbn. split_and!; try done. by rewrite lookup_delete_eq.
  - intros [= <-]. split; [|done]. apply goto_inv; [done|done|done|by rewrite Hat|by rewrite Hat].
  - intros [= <-]. destruct Hleg as [Hl0 Hm]. pose proof (destroy_spec s self site lock Hi Hz Hl0 Hm) as H. destruct (debug_mutex_destroy _ _ _) as [[]|]; cbn; try done. by destruct H.
Qed.

(** The states that the server can be in, whatever its threads do, as long as the checker does not end it. *)
Inductive reach : debugger -> Prop :=
| reach_start : reach dbg_start
| reach_step s self e s' : reach s -> legal s self e -> step self e s = Some (inr s') -> reach s'.

Lemma start_inv : inv dbg_start.
Proof.
  assert (forall l, db_locks dbg_start !! l = None \/ db_locks dbg_start !! l = Some (DebugLock 0 (Ticks 0 0) false 0 0 0 "" "")) as HL.
  { intros l. unfold dbg_start. cbn [db_locks]. destruct (replicate _ _ !! l) eqn:E; [right|by left]. by apply lookup_replicate in E as [-> _]. }
  assert (forall t th, db_threads dbg_start !! t = Some th -> dt_tid th = 0 /\ dt_locks th = replicate MAXLPT None) as HT.
  { intros t th. unfold dbg_start. cbn [db_threads]. intros [-> _]%lookup_replicate. done. }
  split; unfold lockOf, prioOf, lockedOf, threadOf.
  - intros i j _. by destruct (HL i) as [-> | ->].
  - intros l. by destruct (HL l) as [-> | ->].
  - intros a b x y [H _]%HT. by rewrite H.
  - intros t th j k l [_ ->]%HT Hj. by apply lookup_replicate in Hj as [? _].
  - intros t th [_ ->]%HT. done.
  - intros tid l Hz (t & th & k & [H _]%HT & Hid & _). congruence.
  - done.
  - intros l _. by destruct (HL l) as [-> | ->].
  - intros l _. by destruct (HL l) as [-> | ->].
  - done.
Qed.
Lemma reach_inv s : reach s -> inv s.
Proof. induction 1 as [|s self e s' _ IH Hl Hs]; [apply start_inv|]. by apply (step_correct s self e (inr s') IH Hl Hs). Qed.

(** C27. The checker reports only what is there, and lets nothing pass that breaks its rules, as far as no mutex is destroyed while another thread is in the middle of a call
    on it.  In every state that any number of threads can reach, a call ends the program only if what the message says is so: the
    calling thread initialises a mutex again, takes one that is not initialised or whose priority is not above that of
    all it holds, gives back or waits with one it does not hold, destroys one that is held or unknown, the system call failed, or one of the checker's tables is full.
    And a call that goes on has respected the rules; the checks of the checker's own tables never fail.  Destroying a mutex that another thread has
    taken and not yet entered is excluded: it is not noticed ([destroy_of_taken_mutex_missed]). *)
Theorem lock_checker_exact s self e o :
  reach s -> legal s self e -> step self e s = Some o ->
  match o with inl r => genuine s self e r | inr _ => respected s self e end.
Proof. intros Hr%reach_inv Hl Hs. pose proof (step_correct s self e o Hr Hl Hs) as H. destruct o; [done|apply H]. Qed.

(** A mutex that a thread holds while it is in no call is in the dump, with the thread. *)
Lemma dump_shows_holder s now lock tid :
  reach s -> db_mutexes s !! lock = Some tid -> at_ s tid = Running ->
  exists d, d ∈ db_locks s /\ dl_lock d = lock
    /\ DumpLocked (dl_name d) (dl_where d) (timing_diff (dl_locktime d) now) (dl_lockId d) tid ∈ debug_dump_lock_stats now s.
Proof.
  intros Hi%reach_inv Ho Hat. destruct (i_owned s Hi tid lock Ho) as (_ & l & [Hl Hl0] & H). rewrite Hat in H. cbn in H. destruct H as (Hk & Ht & _).
  unfold lockOf, lockedOf, threadOf in *. destruct (db_locks s !! l) as [d|] eqn:Ed; [|done]. cbn in *. apply list_elem_of_lookup_2 in Ed.
  exists d. split_and!; [done|done|]. apply elem_of_app. left. apply list_elem_of_In, in_concat. exists (dumpLock now d). split; [by apply in_map, list_elem_of_In|].
  unfold dumpLock. destruct (Z.eqb_spec (dl_lock d) 0); [congruence|]. rewrite Hk, Ht. by left.
Qed.

(** ** No deadlock *)

(** The mutex a thread waits for; [trylock] does not wait. *)
Definition wants (p : lpc) : option (Z * nat) :=
  match p with Acquiring false lock l _ _ | Waking lock l => Some (lock, l) | _ => None end.
Definition waits (s : debugger) (a b : Z) : Prop := exists lock l, wants (at_ s a) = Some (lock, l) /\ db_mutexes s !! lock = Some b.
Definition blocked (s : debugger) (a : Z) : Prop := exists b, waits s a b.
Definition wantPrio (s : debugger) (a : Z) : Z := from_option (fun x => prioOf (db_locks s) x.2) 0 (wants (at_ s a)).

Lemma waits_climbs s a b : inv s -> waits s a b -> blocked s b -> wantPrio s a < wantPrio s b.
Proof.
  intros Hi (lock & l & Ha & Ho) (c & lock' & l' & Hb & _). unfold wantPrio. rewrite Ha, Hb. cbn.
  destruct (i_owned s Hi b lock Ho) as (Hz & i & Hl & H).
  assert (isLock (db_locks s) l lock) as Hl1. { pose proof (i_pc s Hi a) as Hp. destruct (at_ s a) as [|[] ? ? ? ?| | | | | |]; cbn in Ha, Hp; simplify_eq; apply Hp. }
  assert (i = l) as -> by (by eapply isLock_inj).
  assert (busy (at_ s b) l = false) as Hbusy by (destruct (at_ s b) as [|[] ? ? ? ?| | | | | |]; done).
  rewrite Hbusy in H. destruct H as (_ & _ & Hls). pose proof (i_pc s Hi b) as Hp.
  destruct (at_ s b) as [|[] ? ? ? ?| | | | | |] eqn:Eb; cbn in Hb, Hp; simplify_eq.
  - destruct Hp as (_ & _ & _ & Hn & Hbl). apply Hbl; [done|]. by intros ->.
  - destruct Hp as (_ & Hl' & _ & Hbl & Hm). apply Hbl; [done|]. intros ->. apply Hm. destruct Hl1, Hl'. congruence.
Qed.
Lemma blocked_or_not s a : blocked s a \/ ~ blocked s a.
Proof.
  unfold blocked, waits. destruct (wants (at_ s a)) as [[lock l]|]; [|right; naive_solver].
  destruct (db_mutexes s !! lock) as [b|] eqn:E; [left; by exists b, lock, l|right; naive_solver].
Qed.
Lemma prio_bound L : exists B, forall l, prioOf L l <= B.
Proof.
  induction L as [|d L [B IH]]; [exists 0; by intros [|l]|]. exists (Z.max B (dl_prio d)). intros [|l]; [cbn; lia|]. specialize (IH l). change (prioOf (d :: L) (S l)) with (prioOf L l). lia.
Qed.
Lemma tc_waits_climbs s a b : inv s -> tc (waits s) a b -> blocked s b -> wantPrio s a < wantPrio s b.
Proof.
  intros Hi Ht Hb. induction Ht as [a b Hab|a c b Hac Hcb IH]; [by apply waits_climbs|].
  specialize (IH Hb). assert (blocked s c) as Hc by (inversion Hcb as [? ? H|? ? ? H]; subst; by eexists). pose proof (waits_climbs s a c Hi Hac Hc). lia.
Qed.

(** C15. The rule that the checker enforces excludes deadlocks.  In every state that any number of threads can reach
    without being stopped (and without destroying a mutex that another thread is about to take or give back), no thread waits for itself through a chain of mutexes, and behind every
    thread that waits for a mutex there is a thread that does not wait for one. *)
Theorem lock_order_prevents_deadlock s a :
  reach s -> blocked s a -> ~ tc (waits s) a a /\ exists b, tc (waits s) a b /\ ~ blocked s b.
Proof.
  intros Hi%reach_inv Ha. split; [intros Ht; pose proof (tc_waits_climbs s a a Hi Ht Ha); lia|].
  destruct (prio_bound (db_locks s)) as [B HB]. remember (Z.to_nat (B - wantPrio s a)) as n eqn:En. revert a Ha En.
  induction (lt_wf n) as [n _ IH]. intros a Ha ->. destruct Ha as [b Hab].
  destruct (blocked_or_not s b) as [Hbb|Hb].
  - pose proof (waits_climbs s a b Hi Hab Hbb) as Hlt. destruct (IH (Z.to_nat (B - wantPrio s b))) with (a := b) as (c & Hc & Hn); [|done|done|].
    + enough (wantPrio s b <= B) by lia. destruct Hbb as (c & lock & l & Hw & _). unfold wantPrio. rewrite Hw. cbn. apply HB.
    + exists c. split; [|done]. by eapply tc_l.
  - exists b. split; [by apply tc_once|done].
Qed.

(** ** Concrete runs *)

Fixpoint run (steps : list (Z * event)) (s : debugger) : option debugger :=
  match steps with
  | [] => Some s
  | (self, e) :: steps => match step self e s with Some (inr s) => run steps s | _ => None end
  end.
(** Steps that are legal in every state. *)
Definition plain (x : Z * event) : bool :=
  negb (x.1 =? 0) && match x.2 with
  | Init _ _ lock prio => negb (lock =? 0) && (0 <? prio)
  | Lock _ _ _ lock _ | Unlock _ lock | CondWait _ lock => negb (lock =? 0)
  | Destroy _ _ => false
  | _ => true
  end.
Lemma plain_legal s self e : plain (self, e) = true -> legal s self e.
Proof. unfold plain, legal. cbn. destruct e; intros H; b2p; split; try done; lia. Qed.
Lemma run_reach steps : forall s s', forallb plain steps = true -> reach s -> run steps s = Some s' -> reach s'.
Proof.
  induction steps as [|[self e] steps IH]; intros s s' Hp Hr; cbn [run]; [by intros [= <-]|].
  cbn [forallb] in Hp. apply andb_true_iff in Hp as [Hp Hps]. destruct (step self e s) as [[r|s1]|] eqn:E; [done| |done].
  apply IH; [done|]. eapply reach_step; [exact Hr|by apply plain_legal|exact E].
Qed.

Definition lockNow : ticks := Ticks 5 0.
Definition demo_init : list (Z * event) :=
  [(1, Init "&imageListLock" "image.c:77" 100 LOCK_IMAGE_LIST); (1, Init "&image->lock" "image.c:909" 200 LOCK_IMAGE)].
Definition takes (self lock : Z) : list (Z * event) :=
  [(self, Lock "lock" "image.c:1" lockNow lock false); (self, Acquire); (self, Record_ "image.c:1" lockNow)].
(** Thread 1 has the list and wants the image, which thread 2 has. *)
Definition after (steps : list (Z * event)) : debugger := default dbg_start (run steps dbg_start).
Lemma after_reach steps : forallb plain steps = true -> reach (after steps).
Proof. unfold after. intros Hp. destruct (run steps dbg_start) eqn:E; [by eapply run_reach, E; [|apply reach_start]|apply reach_start]. Qed.
Definition demo_wait : debugger := after (demo_init ++ takes 1 100 ++ takes 2 200 ++ [(1, Lock "lock" "image.c:2" lockNow 200 false)]).
Lemma demo_wait_reach : reach demo_wait.
Proof. apply after_reach. reflexivity. Qed.

Lemma lock_order_prevents_deadlock_witness :
  blocked demo_wait 1 /\ ~ tc (waits demo_wait) 1 1 /\ exists b, tc (waits demo_wait) 1 b /\ ~ blocked demo_wait b.
Proof.
  assert (blocked demo_wait 1) as Hb. { exists 2, 200, 1%nat. vm_compute. done. }
  split; [exact Hb|]. exact (lock_order_prevents_deadlock demo_wait 1 demo_wait_reach Hb).
Defined.
(** Thread 2, which has the image, asks for the list: the checker stops it. *)
Lemma lock_checker_exact_witness :
  step 2 (Lock "lock" "image.c:3" lockNow 100 false) demo_wait = Some (inl (PriorityViolation 1))
  /\ genuine demo_wait 2 (Lock "lock" "image.c:3" lockNow 100 false) (PriorityViolation 1).
Proof.
  assert (step 2 (Lock "lock" "image.c:3" lockNow 100 false) demo_wait = Some (inl (PriorityViolation 1))) as Hs by (vm_compute; reflexivity).
  split; [exact Hs|]. apply (lock_checker_exact demo_wait 2 (Lock "lock" "image.c:3" lockNow 100 false) (inl (PriorityViolation 1)) demo_wait_reach); [|exact Hs].
  split; [lia|]. lia.
Defined.

(** ** Where the checker falls short *)

(** A thread without mutexes whose [trylock] finds the mutex taken keeps its entry in the table of threads, although it holds
    nothing; the entry is freed only when the thread gives back its next mutex. *)
Lemma busy_trylock_keeps_entry :
  let s := after (demo_init ++ takes 1 100 ++ [(2, Lock "lock" "image.c:4" lockNow 100 true); (2, Busy)]) in
  at_ s 2 = Running /\ findThread 2 s = Some 1%nat /\ from_option (fun th => heldCount (dt_locks th)) 0%nat (db_threads s !! 1%nat) = 0%nat.
Proof. split_and!; vm_compute; reflexivity. Qed.
(** The message for taking the same mutex twice is never printed: the test of the priorities comes first and
    is not strict. *)
Lemma recursive_lock_reported_as_order :
  step 1 (Lock "lock" "image.c:5" lockNow 200 false) (after (demo_init ++ takes 1 200)) = Some (inl (PriorityViolation 1)).
Proof. vm_compute. reflexivity. Qed.
(** A mutex that another thread has just taken, but not yet entered in the tables, is destroyed without a message. *)
Lemma destroy_of_taken_mutex_missed :
  let s := after (demo_init ++ [(1, Lock "lock" "image.c:6" lockNow 200 false); (1, Acquire)]) in
  db_mutexes s !! 200 = Some 1 /\ match step 2 (Destroy "image.c:7" 200) s with Some (inr s') => lockOf (db_locks s') 1 = 0 | _ => False end.
Proof. split; vm_compute; reflexivity. Qed.
