(* ===== verification/FuseMain.v ===== *)
(** * FuseMain: the file system of the FUSE client ([src/fuse/main.c], [helper.c])

    The client mounts a directory with two files, the image and a text with the state of the
    connection.  The callbacks of libfuse are functions of their arguments; [main] is the
    sequence of calls it makes, with the results of the calls as arguments.  The last part
    puts a read of the file system together with the server. *)

From Stdlib Require Import Ascii.
From S2P Require Import Prelude Timing Types Helper CacheMap Wire Uplink UplinkIO UplinkTrace FuseQueue Net AltServers FuseNet FuseAlts Sockets FileUtil ServerFuse EndToEnd.
Open Scope Z_scope.

Definition FUSE_INO_ROOT : Z := 1.
Definition INO_STATS : Z := 2.
Definition INO_IMAGE : Z := 3.
Definition IMAGE_NAME : list ascii := chars "img".
Definition STATS_NAME : list ascii := chars "status".

(** ** The text with the state of the connection *)

(** [% *d] and [% 5d]: at least [width] characters, a space where a sign would be. *)
Definition printSpaced (width v : Z) : list ascii :=
  let t := (if v <? 0 then "-"%char else " "%char) :: print_digits 10 (Z.abs v) in
  replicate (Z.to_nat (width - Z.of_nat (length t))) " "%char ++ t.
Definition printPlain (v : Z) : list ascii := (if v <? 0 then ["-"%char] else []) ++ print_digits 10 (Z.abs v).
Definition MICRO : list ascii := [ascii_of_N 194; ascii_of_N 181; "s"%char].
Section Stats.
Context (inet_ntop4 inet_ntop6 : list Z -> string).
Definition printHeader (name : list ascii) (rid secs : Z) : list ascii :=
  chars "Image:    " ++ name ++ [LF] ++ chars "Revision: " ++ printPlain rid ++ [LF; LF]
  ++ chars "Current connection time: " ++ printPlain secs ++ chars "s" ++ [LF; LF].
(** The line behind the address, which has [addrlen] characters. *)
Definition printServer (addrlen : Z) (a : alt_server_t) : list ascii :=
  let width := if 35 <=? addrlen then 0 else 35 - addrlen in
  let '(unit, value, width) := if 5000 <? fa_rtt a then (chars "ms   ", fa_rtt a / 1000, width) else (MICRO, fa_rtt a, width + 3) in
  printSpaced width value ++ chars " " ++ unit ++ chars "   Unreachable:" ++ printSpaced 5 (fa_consecutiveFails a)
  ++ chars "   BestCount:" ++ printSpaced 5 (fa_bestCount a) ++ chars "  Live:" ++ printSpaced 5 (fa_liveRtt a) ++ MICRO ++ [LF].
(** The loop; [remaining] bytes of the buffer are left.  The address is printed behind the mark, but into a buffer that is said
    to be as long as before the mark. *)
Fixpoint printServers (current : dnbd3_host_t) (i : nat) (alts : list alt_server_t) (remaining : Z) : result (list ascii * Z) :=
  match alts with
  | [] => Ok ([], remaining)
  | a :: alts =>
      if negb (3 <? remaining) then Ok ([], remaining)
      else if host_type (fa_host a) =? 0 then printServers current (S i) alts remaining
      else
        let mark := if isSameAddressPort current (fa_host a) then "*"%char else if (MAX_ALTS_ACTIVE <=? i)%nat then "-"%char else " "%char in
        o ← sock_printHost inet_ntop4 inet_ntop6 (fun v => unchars (printPlain v)) (fa_host a) remaining;
        let addr := from_option chars [] o in
        let addrlen := Z.of_nat (length addr) in
        if remaining <? 1 + addrlen + 1 then Fault OutOfBounds
        else
          let remaining := remaining - (addrlen + 1) in
          if remaining <? 3 then Ok (mark :: addr, remaining)
          else
            let line := printServer addrlen a in
            if remaining <=? Z.of_nat (length line) then Ok (mark :: addr ++ take (Z.to_nat (remaining - 1)) line, 0)
            else
              '(rest, remaining) ← printServers current (S i) alts (remaining - Z.of_nat (length line));
              Ok (mark :: addr ++ line ++ rest, remaining)
  end.
(** The text in the buffer and what is returned. *)
Definition connection_printStats (name : list ascii) (rid secs : Z) (current : dnbd3_host_t) (alts : list alt_server_t) (len : Z)
  : result (list ascii * Z) :=
  let header := printHeader name rid secs in
  if len <=? Z.of_nat (length header) then Ok (take (Z.to_nat (len - 1)) header, len)
  else
    '(text, remaining) ← printServers current 0 alts (len - Z.of_nat (length header));
    Ok (header ++ text, len - remaining).
End Stats.

(** ** Attributes *)

Record file_stat := FileStat { fs_mode : Z; fs_nlink : Z; fs_size : Z; fs_mtim : Z; fs_ctim : Z; fs_uid : Z; fs_ino : Z }.
Definition S_IFDIR : Z := 16384.
Definition S_IFREG : Z := 32768.
Section Callbacks.
Context (imageSize startupTime owner : Z).

Definition image_stat (now ino : Z) : option file_stat :=
  let stat mode nlink size mtim := Some (FileStat mode nlink size mtim startupTime owner ino) in
  if ino =? FUSE_INO_ROOT then stat (S_IFDIR .| 360) 2 0 startupTime
  else if ino =? INO_IMAGE then stat (S_IFREG .| 288) 1 imageSize startupTime
  else if ino =? INO_STATS then stat (S_IFREG .| 288) 1 4096 now
  else None.
(** The attributes and for how many seconds they are valid. *)
Definition image_ll_getattr (now ino : Z) : (file_stat * Z) + fuseErr :=
  match image_stat now ino with
  | None => inr F_ENOENT
  | Some st => inl (st, if ino =? INO_IMAGE then 1200 else 1)
  end.
Definition image_ll_lookup (now : Z) (name : list ascii) : (file_stat * Z) + fuseErr :=
  if bool_decide (name = IMAGE_NAME) || bool_decide (name = STATS_NAME) then
    let '(ino, timeout) := if bool_decide (name = IMAGE_NAME) then (INO_IMAGE, 1200) else (INO_STATS, 0) in
    match image_stat now ino with Some st => inl (st, timeout) | None => inr F_ENOENT end
  else inr F_ENOENT.

(** ** Reading *)

Section Listing.
Context (direntry : list ascii -> Z -> Z -> list Z).
Definition imageListing : list Z :=
  dirbuf_add direntry (dirbuf_add direntry (dirbuf_add direntry (dirbuf_add direntry [] (chars ".") FUSE_INO_ROOT) (chars "..") FUSE_INO_ROOT)
    IMAGE_NAME INO_IMAGE) STATS_NAME INO_STATS.
Definition image_ll_readdir (ino size off : Z) : list Z + fuseErr :=
  if negb (ino =? FUSE_INO_ROOT) then inr F_ENOTDIR else inl (reply_buf_limited imageListing off size).
End Listing.
Definition image_ll_open (ino flags : Z) : option fuseErr :=
  if negb (ino =? INO_IMAGE) && negb (ino =? INO_STATS) then Some F_EISDIR
  else if negb (O_ACCMODE flags =? 0) then Some F_EACCES
  else None.

Definition STATS_BUFFER : Z := 4096.
(** [buffer] is the buffer after [connection_printStats], which returned [ret]. *)
Definition fillStatsFile (buffer : list ascii) (ret size offset : Z) : result (list ascii + fuseErr) :=
  let len := Z.min (i32 (ret - i32 offset)) (i32 size) in
  if len <? 0 then Ok (inr F_OK)
  else if (offset <? 0) || (STATS_BUFFER <? offset + len) then Fault OutOfBounds
  else Ok (inl (take (Z.to_nat len) (drop (Z.to_nat offset) buffer))).

(** The statistics of [--debug]: how often a block was asked for, in 8 bits. *)
Record log_info := LogInfo { li_imageSize : Z; li_receivedBytes : Z; li_imageBlockCount : Z; li_blockRequestCount : list Z }.
Definition countBlock (startBlock : Z) (counts : list Z) : result (list Z) :=
  n ← aget counts startBlock; aset counts startBlock (u8 (n + 1)).
Definition countBlocks (offset size : Z) (counts : list Z) : result (list Z) :=
  for_each countBlock (offset / 4096) 1 (trips (offset / 4096) ((offset + size - 1) / 4096 + 1) 1) counts.

Inductive read_action :=
| ReplyErr (e : fuseErr)             (* [fuse_reply_err] *)
| ReplyStats (r : list ascii + fuseErr)  (* the text *)
| AskServer (offset length : Z).     (* a request for [connection_read] *)
(** The part of the image that is asked for. *)
Definition limitRead (size offset : Z) : option (Z * Z) :=
  if imageSize <=? u64 offset then None
  else
    let size := if imageSize <? u64 (offset + size) then u64 (imageSize - offset) else size in
    if (size =? 0) || (2 ^ 32 - 1 <? size) then None else Some (offset, u32 size).
Definition image_ll_read (useDebug : bool) (buffer : list ascii) (ret ino size offset : Z) (counts : list Z) : result (read_action * list Z) :=
  _ ← assert_ ((ino =? INO_STATS) || (ino =? INO_IMAGE));
  if ino =? INO_STATS then r ← fillStatsFile buffer ret size offset; Ok (ReplyStats r, counts)
  else
    match limitRead size offset with
    | None => Ok (ReplyErr F_OK, counts)
    | Some (offset, length) =>
        counts ← (if useDebug then countBlocks offset length counts else Ok counts);
        Ok (AskServer offset length, counts)
    end.
End Callbacks.

(** ** Starting and stopping *)

(** [image_ll_init]: whether the session is told to exit. *)
Definition image_ll_init (locks receiver background : bool) (s : conn_state) : conn_state * bool :=
  let '(s, ok) := connection_initThreads locks receiver background s in (s, negb ok).
(** Whether [connection_join] waits for the two threads. *)
Definition connection_join (s : conn_state) : bool := cs_threadsDone s.

(** [printLog]: the text of log.txt. *)
Fixpoint printCounts (counts : list Z) (i : Z) (n : nat) : result (list ascii) :=
  match n with
  | O => Ok []
  | S n =>
      v ← aget counts i;
      rest ← printCounts counts (i + 1) n;
      Ok ((if i mod 50 =? 0 then [LF] else []) ++ printPlain v ++ chars " " ++ rest)
  end.
Definition printLog (info : log_info) : result (list ascii) :=
  counts ← printCounts (li_blockRequestCount info) 0 (Z.to_nat (li_imageBlockCount info));
  Ok (chars "ImageSize: " ++ printPlain (li_imageSize info / (1024 * 1024)) ++ chars " MiB" ++ [LF]
      ++ chars "ReceivedMiB: " ++ printPlain (li_receivedBytes info / (1024 * 1024)) ++ chars " MiB" ++ [LF]
      ++ chars "imageBlockCount: " ++ printPlain (li_imageBlockCount info) ++ [LF] ++ chars "Blocksize: 4KiB" ++ [LF; LF]
      ++ chars "Block access count:" ++ [LF] ++ counts ++ [LF]).
(** The statistics as [main] sets them up. *)
Definition initLogInfo (useDebug : bool) (imageSize : Z) : log_info :=
  let n := u64 (imageSize + 4095) / 4096 in
  LogInfo imageSize 0 n (if useDebug then replicate (Z.to_nat n) 0 else []).
(** [image_destroy]: the log that is written, and what [connection_close] does. *)
Definition image_destroy (useDebug : bool) (info : log_info) (s : conn_state) : result (option (list ascii) * (conn_state * (bool * bool))) :=
  log ← (if useDebug then Some <$> printLog info else Ok None);
  Ok (log, connection_close s).

(** *** The command line *)

Record fuse_opts := FuseOpts {
  fo_host : option string;
  fo_image : option string;
  fo_log : option string;
  fo_rid : Z;
  fo_args : list string;      (* [newArgv] *)
  fo_debug : bool;
  fo_single : bool;
  fo_learn : bool;
  fo_foreground : bool;
}.
(** [newArgv] has room for [cap] pointers. *)
Definition pushArg (cap : nat) (x : string) (args : list string) : result (list string) :=
  if (length args <? cap)%nat then Ok (args ++ [x]) else Fault OutOfBounds.
(** The loop over what [getopt_long] returns; [inl] is the code the program exits with. *)
Fixpoint parseOptions (cap : nat) (opts : list (ascii * string)) (o : fuse_opts) : result (Z + fuse_opts) :=
  match opts with
  | [] => Ok (inr o)
  | (c, arg) :: opts =>
      let 'FuseOpts host image log rid args debug single learn foreground := o in
      let go := parseOptions cap opts in
      if Ascii.eqb c "h" then go (FuseOpts (Some arg) image log rid args debug single learn foreground)
      else if Ascii.eqb c "i" then go (FuseOpts host (Some arg) log rid args debug single learn foreground)
      else if Ascii.eqb c "r" then go (FuseOpts host image log (u16 (atoi arg)) args debug single learn foreground)
      else if Ascii.eqb c "o" then
        args ← pushArg cap "-o" args;
        args ← pushArg cap arg args;
        go (FuseOpts host image log rid args debug single learn foreground)
      else if Ascii.eqb c "l" then go (FuseOpts host image (Some arg) rid args debug single learn foreground)
      else if Ascii.eqb c "H" || Ascii.eqb c "v" || Ascii.eqb c "V" then Ok (inl 0)
      else if Ascii.eqb c "d" then
        args ← pushArg cap "-d" args;
        go (FuseOpts host image log rid args true single learn true)
      else if Ascii.eqb c "s" then go (FuseOpts host image log rid args debug true learn foreground)
      else if Ascii.eqb c "S" then go (FuseOpts host image log rid args debug single false foreground)
      else if Ascii.eqb c "f" then go (FuseOpts host image log rid args debug single learn true)
      else Ok (inl 1)
  end.

(** What [main] calls, in order. *)
Inductive main_call :=
| Connect (host image : string) (rid : Z) (learn : bool)
| Mount (args : list string)
| NewSession
| SetHandlers
| AddChannel
| Daemonize (foreground : bool)
| SessionLoop (single : bool)
| RemoveHandlers
| RemoveChannel
| DestroySession
| Unmount
| JoinThreads.
(** Which calls succeed, and what the loop of the session returns. *)
Record main_env := MainEnv { me_connect : bool; me_parse : bool; me_mount : bool; me_session : bool; me_handlers : bool; me_loop : Z }.
Definition runSession (e : main_env) (o : fuse_opts) : Z * list main_call :=
  if negb (me_session e) then (1, [NewSession])
  else
    let '(err, calls) :=
      if negb (me_handlers e) then (1, [SetHandlers])
      else (me_loop e, [SetHandlers; AddChannel; Daemonize (fo_foreground o); SessionLoop (fo_single o); RemoveHandlers; RemoveChannel]) in
    (err, NewSession :: calls ++ [DestroySession]).
Definition mountAndRun (e : main_env) (o : fuse_opts) : Z * list main_call :=
  if negb (me_parse e) then (1, [])
  else if negb (me_mount e) then (1, [Mount (fo_args o)])
  else let '(err, calls) := runSession e o in (err, Mount (fo_args o) :: calls ++ [Unmount]).
(** [opts] are the options as [getopt_long] returns them, [mountpoint] the first other argument. *)
Definition fuse_main (e : main_env) (argv : list string) (opts : list (ascii * string)) (mountpoint : option string)
  : result (Z * list main_call) :=
  let first := default "" (argv !! 1%nat) in
  if (length argv <=? 1)%nat || bool_decide (first = "--help") || bool_decide (first = "--usage") then Ok (0, [])
  else
    let cap := (length argv + 10)%nat in
    args ← pushArg cap (default "" (argv !! 0%nat)) [];
    r ← parseOptions cap opts (FuseOpts None None None 0 args false false true false);
    match r with
    | inl code => Ok (code, [])
    | inr o =>
        match mountpoint, fo_host o, fo_image o with
        | Some mp, Some host, Some image =>
            let connect := Connect host image (fo_rid o) (fo_learn o) in
            if negb (me_connect e) then Ok (1, [connect])
            else
              args ← pushArg cap "-o" (fo_args o);
              args ← pushArg cap "ro,default_permissions" args;
              args ← pushArg cap mp args;
              let o := FuseOpts (fo_host o) (fo_image o) (fo_log o) (fo_rid o) args (fo_debug o) (fo_single o) (fo_learn o) (fo_foreground o) in
              let '(err, calls) := mountAndRun e o in
              Ok (err, connect :: calls ++ [JoinThreads])
        | _, _, _ => Ok (1, [])
        end
    end.

(** ** Reads of the file system *)

(** A read: where [malloc] puts the request, the request of libfuse, the size and the offset. *)
Definition read_call : Type := ptr * Z * Z * Z.
(** A mounted client with its connection to a server: its pending requests and what [fuse_reply_buf] was called with, the requests
    of libfuse that were answered at once, the request that is queued and about to be sent by the thread that has
    [connection.sendMutex], the bytes under way in both directions, and the thread of the server. *)
Record traffic := Traffic {
  tr_client : receiver;
  tr_ended : list Z;
  tr_sending : ptr;
  tr_up : list Z;
  tr_handle : Z;
  tr_server : connection;
  tr_down : list Z;
  tr_open : bool;
}.
Inductive traffic_event :=
| TRead (x : read_call)       (* the file system reads: [image_ll_read], and [connection_read] up to the end of [enqueueRequest] *)
| TSend                       (* the rest of [connection_read] *)
| TServe (shutdown : bool)    (* a turn of the loop of the server *)
| TReceive.                   (* a turn of the loop of the receiver *)
Section Traffic.
Context (cfg : config) (env : net_env) (alts : list dnbd3_alt_server_t) (imageSize : Z) (now : ticks).
(** [None]: the event cannot happen.  The memory of a new request is not in use; both sides wait for what they
    receive; there is one thread that sends at a time. *)
Definition traffic_step (t : traffic) (e : traffic_event) : result (option traffic) :=
  match e with
  | TRead (p, req, size, offset) =>
      let q := rv_requests (tr_client t) in
      if (p =? NULL) || bool_decide (is_Some (q_heap q !! p)) || negb (tr_sending t =? NULL) then Ok None
      else
        '(r, _) ← image_ll_read imageSize false [] 0 INO_IMAGE size offset [];
        match r with
        | AskServer offset length =>
            q ← enqueueRequest now (Requests (<[p := Async NULL (Ticks 0 0) offset length req]> (q_heap q)) (q_head q) (q_tail q)) p;
            Ok (Some (Traffic (Receiver q (rv_answers (tr_client t)) (rv_newservers (tr_client t))) (tr_ended t) p (tr_up t) (tr_handle t)
                        (tr_server t) (tr_down t) (tr_open t)))
        | _ => Ok (Some (Traffic (tr_client t) (tr_ended t ++ [req]) NULL (tr_up t) (tr_handle t) (tr_server t) (tr_down t) (tr_open t)))
        end
  | TSend =>
      if tr_sending t =? NULL then Ok None
      else
        a ← deref (q_heap (rv_requests (tr_client t))) (tr_sending t);
        Ok (Some (Traffic (tr_client t) (tr_ended t) NULL (tr_up t ++ dnbd3_get_block (a_offset a) (a_length a) (tr_sending t) 0) (tr_handle t)
                    (tr_server t) (tr_down t) (tr_open t)))
  | TServe shutdown =>
      if negb (tr_open t) || (length (tr_up t) <? DNBD3_REQUEST_SIZE)%nat then Ok None
      else
        '(open, handle, c, bytes) ← serveOne cfg env alts shutdown (tr_handle t) (tr_server t) (tr_up t);
        Ok (Some (Traffic (tr_client t) (tr_ended t) (tr_sending t) (drop DNBD3_REQUEST_SIZE (tr_up t)) handle c (tr_down t ++ bytes) open))
  | TReceive =>
      if bool_decide (tr_down t = []) then Ok None
      else
        '(s, rest) ← fuseReceiveOne now (tr_client t) (tr_down t);
        Ok (Some (Traffic s (tr_ended t) (tr_sending t) (tr_up t) (tr_handle t) (tr_server t) (default [] rest)
                    (match rest with Some _ => tr_open t | None => false end)))
  end.
Fixpoint traffic_run (t : traffic) (es : list traffic_event) : result (option traffic) :=
  match es with
  | [] => Ok (Some t)
  | e :: es =>
      r ← traffic_step t e;
      match r with None => Ok None | Some t => traffic_run t es end
  end.
End Traffic.
Definition traffic0 (c : connection) : traffic := Traffic (Receiver (Requests ∅ NULL NULL) [] []) [] NULL [] 0 c [] true.
Definition readsOf (es : list traffic_event) : list read_call := omap (fun e => match e with TRead x => Some x | _ => None end) es.

Lemma limitRead_spec imageSize size offset :
  0 <= imageSize < 2 ^ 63 -> 0 <= offset < 2 ^ 63 -> 0 <= size < 2 ^ 32 ->
  limitRead imageSize size offset = if (offset <? imageSize) && (0 <? size) then Some (offset, Z.min size (imageSize - offset)) else None.
Proof.
  intros Hi Ho Hs. unfold limitRead. rewrite (u64_id offset) by crange. destruct (Z.leb_spec imageSize offset); [by rewrite (proj2 (Z.ltb_ge _ _)) by lia|].
  rewrite (proj2 (Z.ltb_lt offset imageSize)) by lia. cbn [andb]. rewrite (u64_id (offset + size)) by crange.
  destruct (Z.ltb_spec imageSize (offset + size)).
  - rewrite (u64_id (imageSize - offset)) by crange. destruct (Z.eqb_spec (imageSize - offset) 0), (Z.ltb_spec (2 ^ 32 - 1) (imageSize - offset)), (Z.ltb_spec 0 size); cbn [orb]; try lia.
    rewrite u32_id by crange. do 2 f_equal. lia.
  - destruct (Z.eqb_spec size 0), (Z.ltb_spec (2 ^ 32 - 1) size), (Z.ltb_spec 0 size); cbn [orb]; try lia; [done|]. rewrite u32_id by crange. do 2 f_equal. lia.
Qed.
Lemma image_read_spec imageSize size offset :
  image_ll_read imageSize false [] 0 INO_IMAGE size offset [] =
  Ok (match limitRead imageSize size offset with Some (o, n) => AskServer o n | None => ReplyErr F_OK end, []).
Proof. unfold image_ll_read. cbn [Z.eqb]. change (INO_IMAGE =? INO_STATS) with false. cbn. by destruct (limitRead _ _ _) as [[o n]|]. Qed.

(** The calls that reach into the image, with what they ask for; the others are answered at once. *)
Definition askOf (imageSize : Z) (x : read_call) : option (ptr * (Z * Z * Z)) :=
  let '(p, req, size, offset) := x in
  if (offset <? imageSize) && (0 <? size) then Some (p, (req, offset, Z.min size (imageSize - offset))) else None.
Definition endOf (imageSize : Z) (x : read_call) : option Z :=
  let '(p, req, size, offset) := x in if (offset <? imageSize) && (0 <? size) then None else Some req.
Definition askBytes (x : ptr * (Z * Z * Z)) : list Z := let '(p, (_, offset, length)) := x in dnbd3_get_block offset length p 0.
Definition call_range (x : read_call) : Prop := let '(p, _, size, offset) := x in p <> NULL /\ 0 <= offset < 2 ^ 63 /\ 0 <= size < 2 ^ 32.

(** What the file system must be given: the bytes of the file, as far as the image goes. *)
Definition answerOf (imageSize : Z) (file : list Z) (x : read_call) : option (Z * list Z) :=
  let '(p, req, size, offset) := x in
  if (offset <? imageSize) && (0 <? size) then Some (req, imageBytes file offset (Z.min size (imageSize - offset))) else None.
(** The server has the blocks; a read does not start behind the end of the file in the last, incomplete block. *)
Definition call_served (c : connection) (x : read_call) : Prop :=
  let '(p, _, size, offset) := x in let imageSize := img_virtualFilesize (cn_image c) in
  in_u64 p /\ (offset < imageSize -> offset <= img_realFilesize (cn_image c)
    /\ locally c (decode_request (dnbd3_get_block offset (Z.min size (imageSize - offset)) p 0))).

Section TrafficInv.
Context (cfg : config) (env : net_env) (alts : list dnbd3_alt_server_t) (c0 : connection) (now : ticks).
Hypothesis (Hsv0 : served c0 env) (Hw : net_works env).
Local Abbreviation imageSize := (img_virtualFilesize (cn_image c0)).
(** What was asked for, as [EndToEnd] has it, and what it must be answered with. *)
Definition askRead (y : ptr * (Z * Z * Z)) : ptr * Z * Z := let '(p, (_, offset, length)) := y in (p, offset, length).
Definition askAnswer (y : ptr * (Z * Z * Z)) : Z * list Z := let '(_, (req, offset, length)) := y in (req, imageBytes (ne_file env) offset length).
Definition downBytes (d : list (ptr * (Z * Z * Z))) : list Z := concat (map (fun y => msgBytes (readMsg env (askRead y))) d).
Definition upBytes (u : list (ptr * (Z * Z * Z))) : list Z := concat (map (fun y => readBytes (askRead y)) u).
(** Every read is answered, or on its way: about to be sent ([s]), sent to the server ([u]), or answered by the
    server ([d]); [n] steps were made. *)
Record traffic_ok (n : nat) (reads : list read_call) (s u d : list (ptr * (Z * Z * Z))) (t : traffic) : Prop := TrafficOk {
  to_sending : if tr_sending t =? NULL then s = [] else map fst s = [tr_sending t];
  to_up : tr_up t = upBytes u;
  to_down : tr_down t = downBytes d;
  to_pending : exists l, queue_repr (rv_requests (tr_client t)) l /\ l ≡ₚ map fst (s ++ u ++ d);
  to_asks : Forall (fun y => asks <$> q_heap (rv_requests (tr_client t)) !! y.1 = Some y.2 /\ read_ok c0 (askRead y)) (s ++ u ++ d);
  to_answers : rv_answers (tr_client t) ++ map askAnswer (s ++ u ++ d) ≡ₚ omap (answerOf imageSize (ne_file env)) reads;
  to_ended : tr_ended t = omap (endOf imageSize) reads;
  to_server : still_served env c0 (tr_server t);
  to_open : tr_open t = true;
  to_steps : (n + 3 * length s + 2 * length u + length d <= 4 * length reads)%nat;
}.
Lemma pending_nodup n reads s u d t : traffic_ok n reads s u d t -> base.NoDup (map fst (s ++ u ++ d)).
Proof. intros H. destruct (to_pending _ _ _ _ _ _ H) as (l & (_ & Hnd & _) & Hp). by rewrite <- Hp. Qed.
Lemma asked_ok x y : call_range x -> call_served c0 x -> askOf imageSize x = Some y -> read_ok c0 (askRead y).
Proof.
  pose proof (sv_virtual _ _ Hsv0). destruct x as [[[p req] size] offset]. intros (_ & Ho & Hs) (Hp & Hoff). unfold askOf.
  destruct (Z.ltb_spec offset imageSize), (Z.ltb_spec 0 size); try done. destruct Hoff as [Hoff Hloc]; [done|]. intros [= <-].
  unfold read_ok, askRead. split_and!; try done; crange.
Qed.
Lemma traffic_read_step n reads s u d t x : traffic_ok n reads s u d t -> call_range x -> call_served c0 x ->
  exists r, traffic_step cfg env alts imageSize now t (TRead x) = Ok r
    /\ forall t', r = Some t' -> exists s', traffic_ok (S n) (reads ++ [x]) s' u d t'.
Proof.
  intros Hok Hr Hc. pose proof (sv_virtual _ _ Hsv0) as Hv. pose proof (sv_real _ _ Hsv0) as Hre. pose proof (asked_ok x) as Hask. destruct x as [[[p req] size] offset]. pose proof Hr as (Hpn & Ho & Hs).
  cbn [traffic_step]. set (q := rv_requests (tr_client t)). rewrite (proj2 (Z.eqb_neq p NULL) Hpn). cbn [orb].
  destruct (bool_decide_reflect (is_Some (q_heap q !! p))) as [|Hfree]; [by eexists|]. destruct (Z.eqb_spec (tr_sending t) NULL) as [Esend|]; [|by eexists].
  cbn [orb negb]. destruct Hok as [Hsend Hup Hdown (l & Hq & Hl) Hasks Hans Hend Hsrv Hopen Hn]. rewrite Esend in Hsend. cbn in Hsend. subst s.
  rewrite image_read_spec, limitRead_spec by (done || lia). cbn [mbind result_bind].
  assert (askOf imageSize (p, req, size, offset) = if (offset <? imageSize) && (0 <? size) then Some (p, (req, offset, Z.min size (imageSize - offset))) else None) as Eask by done.
  assert (endOf imageSize (p, req, size, offset) = if (offset <? imageSize) && (0 <? size) then None else Some req) as Eend by done.
  assert (answerOf imageSize (ne_file env) (p, req, size, offset) = if (offset <? imageSize) && (0 <? size)
    then Some (req, imageBytes (ne_file env) offset (Z.min size (imageSize - offset))) else None) as Eans by done.
  assert (forall (A : Type) (g : read_call -> option A) x, omap g (reads ++ [x]) = omap g reads ++ option_list (g x)) as Homap.
  { intros A g x. rewrite omap_app. cbn. by destruct (g x). }
  destruct ((offset <? imageSize) && (0 <? size)).
  - set (m := Z.min size (imageSize - offset)) in *. fold q in Hq. set (a := Async NULL (Ticks 0 0) offset m req). set (q1 := Requests _ _ _).
    assert (p ∉ l) as Hpl by (intros Hin; destruct (chain_alive _ _ _ _ (proj1 Hq) Hin); done).
    assert (queue_repr q1 l) as Hq1. { destruct Hq as (H1 & H2 & H3). split_and!; [by apply chain_frame|done|done]. }
    destruct (enqueue_repr now q1 l p a Hq1 Hpl Hpn) as (q2 & -> & Hq2 & Hs2 & _); [by apply lookup_insert_eq|].
    cbn [mbind result_bind]. eexists. split; [done|]. intros t' [= <-]. exists [(p, (req, offset, m))].
    split; cbn [tr_client tr_ended tr_sending tr_up tr_handle tr_server tr_down tr_open rv_requests rv_answers]; try done.
    + by rewrite (proj2 (Z.eqb_neq _ _) Hpn).
    + exists (l ++ [p]). split; [done|]. rewrite Hl. cbn. by rewrite Permutation_app_comm.
    + cbn [app]. constructor; [|eapply list.Forall_impl; [apply Forall_and; split; [exact Hasks|apply list.Forall_forall; intros y Hy; exact Hy]|]].
      * cbn [fst snd]. rewrite Hs2. unfold q1. cbn [q_heap]. rewrite lookup_insert_eq. split; [done|by apply Hask].
      * intros y [[Hy Hyo] Hin]. split; [|done]. rewrite Hs2. unfold q1. cbn [q_heap]. rewrite lookup_insert_ne; [done|]. intros ->. apply Hpl. rewrite Hl.
        apply list_elem_of_fmap. by exists y.
    + rewrite Homap, Eans, <- Hans. cbn. solve_Permutation.
    + by rewrite Homap, Eend, app_nil_r.
    + rewrite length_app. cbn in *. lia.
  - eexists. split; [done|]. intros t' [= <-]. exists []. split; cbn [tr_client tr_ended tr_sending tr_up tr_handle tr_server tr_down tr_open]; try done.
    + by exists l.
    + by rewrite Homap, Eans, app_nil_r.
    + by rewrite Homap, Eend, Hend.
    + rewrite length_app. cbn in *. lia.
Qed.
Lemma traffic_send_step n reads s u d t : traffic_ok n reads s u d t ->
  exists r, traffic_step cfg env alts imageSize now t TSend = Ok r /\ (r = None -> s = [])
    /\ forall t', r = Some t' -> exists s' u', traffic_ok (S n) reads s' u' d t'.
Proof.
  intros [Hsend Hup Hdown (l & Hq & Hl) Hasks Hans Hend Hsrv Hopen Hn]. cbn [traffic_step]. destruct (Z.eqb_spec (tr_sending t) NULL) as [E|Hnn]; [by eexists|].
  destruct s as [|[p k] [|]]; try done. injection Hsend as Ep. pose proof Hasks as Hasks0. cbn [app] in Hasks0. apply list.Forall_cons in Hasks0 as [[Ha _] _]. cbn [fst snd] in Ha.
  rewrite Ep in Ha. apply fmap_Some in Ha as (a & Ha & ->). rewrite (deref_ok _ _ a Hnn Ha). cbn [mbind result_bind]. eexists. split; [done|]. split; [done|].
  intros t' [= <-]. exists [], (u ++ [(p, asks a)]).
  assert ([(p, asks a)] ++ u ++ d ≡ₚ [] ++ (u ++ [(p, asks a)]) ++ d) as Hperm by (cbn; rewrite <- app_assoc; cbn; apply Permutation_middle).
  split; cbn [tr_client tr_ended tr_sending tr_up tr_handle tr_server tr_down tr_open]; try done.
  - unfold upBytes. rewrite map_app, concat_app, Hup, <- Ep. cbn [map concat askRead asks readBytes]. by rewrite app_nil_r.
  - exists l. split; [done|]. by rewrite Hl, Hperm.
  - by rewrite <- Hperm.
  - rewrite <- Hans. by rewrite Hperm.
  - rewrite length_app. cbn in *. lia.
Qed.
Lemma length_readBytes r : length (readBytes r) = DNBD3_REQUEST_SIZE.
Proof. destruct r as [[p o] m]. apply length_get_block. Qed.
Lemma traffic_serve_step n reads s u d t : traffic_ok n reads s u d t ->
  exists r, traffic_step cfg env alts imageSize now t (TServe false) = Ok r /\ (r = None -> u = [])
    /\ forall t', r = Some t' -> exists u' d', traffic_ok (S n) reads s u' d' t'.
Proof.
  intros [Hsend Hup Hdown (l & Hq & Hl) Hasks Hans Hend Hsrv Hopen Hn]. cbn [traffic_step]. rewrite Hopen. cbn [negb orb]. rewrite Hup.
  destruct u as [|y u]; [by eexists|]. change (upBytes (y :: u)) with (readBytes (askRead y) ++ upBytes u).
  rewrite length_app, length_readBytes, (proj2 (Nat.ltb_ge _ _)) by lia.
  assert (read_ok c0 (askRead y)) as Hy. { rewrite list.Forall_forall in Hasks. apply Hasks, elem_of_app. right. cbn. by left. }
  destruct (serveOne_read cfg env alts (tr_handle t) (tr_server t) (askRead y) (upBytes u)) as (c & -> & Hc); [apply Hsrv|done|by eapply read_ok_still|].
  cbn [mbind result_bind]. eexists. split; [done|]. split; [done|]. intros t' [= <-]. exists u, (d ++ [y]).
  assert (s ++ (y :: u) ++ d ≡ₚ s ++ u ++ d ++ [y]) as Hperm by (cbn; solve_Permutation).
  split; cbn [tr_client tr_ended tr_sending tr_up tr_handle tr_server tr_down tr_open]; try done.
  - by rewrite drop_app_length' by (by rewrite length_readBytes).
  - unfold downBytes. rewrite map_app, concat_app, Hdown. cbn [map concat]. by rewrite app_nil_r.
  - exists l. split; [done|]. by rewrite Hl, Hperm.
  - by rewrite <- Hperm.
  - rewrite <- Hans. by rewrite Hperm.
  - by eapply still_served_trans.
  - rewrite length_app. cbn in *. lia.
Qed.
Lemma traffic_receive_step n reads s u d t : traffic_ok n reads s u d t ->
  exists r, traffic_step cfg env alts imageSize now t TReceive = Ok r /\ (r = None -> d = [])
    /\ forall t', r = Some t' -> exists d', traffic_ok (S n) reads s u d' t'.
Proof.
  intros Hok. pose proof (pending_nodup _ _ _ _ _ _ Hok) as Hnd. destruct Hok as [Hsend Hup Hdown (l & Hq & Hl) Hasks Hans Hend Hsrv Hopen Hn].
  cbn [traffic_step]. rewrite Hdown. destruct d as [|[p k] d]; [by eexists|].
  change (downBytes ((p, k) :: d)) with (msgBytes (readMsg env (askRead (p, k))) ++ downBytes d). set (msg := readMsg env (askRead (p, k))).
  assert (s ++ u ++ (p, k) :: d ≡ₚ (p, k) :: s ++ u ++ d) as Hperm by solve_Permutation.
  rewrite Hperm in Hasks, Hnd, Hl, Hans. apply list.Forall_cons in Hasks as [[Ha Hro] Hasks]. cbn [map fst snd] in *. apply list.NoDup_cons in Hnd as [Hp Hnd].
  apply fmap_Some in Ha as (a & Ha & ->). destruct Hro as (Hp64 & Hm & _). unfold in_u32 in Hm.
  assert (m_handle msg = p) as Eh by done. assert (Z.of_nat (length (m_payload msg)) = a_length a) as El.
  { cbn [msg readMsg askRead asks m_payload]. rewrite length_imageBytes. lia. }
  assert (p ∈ l) as Hpl by (rewrite Hl; by left).
  assert (isAnswer l msg = true) as Eans. { unfold isAnswer. cbn [msg readMsg askRead asks m_cmd m_handle]. by rewrite bool_decide_eq_true_2. }
  destruct (fuseReceiveOne_msg now (q_heap (rv_requests (tr_client t))) l (tr_client t) msg (downBytes d)) as (r & -> & [Hq' Hk] & Ha'); [by split| | |].
  { unfold msg_ok. rewrite Eh, El. split_and!; [cbn [msg readMsg askRead asks m_cmd]; by vm_compute|done..]. }
  { intros _. exists a. by rewrite Eh. }
  rewrite Eans, Eh in Hq', Hk, Ha'. rewrite bool_decide_eq_false_2; [|by intros [E _]%app_nil; unfold msgBytes in E; apply app_nil in E as [E _]; apply (f_equal length) in E; rewrite length_encode_reply in E].
  cbn [mbind result_bind]. eexists. split; [done|]. split; [done|]. intros t' [= <-]. exists d.
  assert (without p l ≡ₚ map fst (s ++ u ++ d)) as Hwl. { transitivity (without p (p :: map fst (s ++ u ++ d))); [unfold without; by rewrite Hl|]. by rewrite (without_middle p [] (map fst (s ++ u ++ d)) (not_elem_of_nil p) Hp : without p (p :: map fst (s ++ u ++ d)) = _). }
  split; cbn [tr_client tr_ended tr_sending tr_up tr_handle tr_server tr_down tr_open default]; try done.
  - by exists (without p l).
  - eapply list.Forall_impl; [apply Forall_and; split; [exact Hasks|apply list.Forall_forall; intros y Hy; exact Hy]|]. intros y [[Hy Hyo] Hin]. split; [|done].
    rewrite Hk; [done|]. rewrite Hwl. apply list_elem_of_fmap. by exists y.
  - rewrite Ha', Ha. rewrite <- Hans. cbn [askAnswer asks]. rewrite <- app_assoc. done.
  - cbn in *. lia.
Qed.
(** Any sequence of events keeps it. *)
Lemma traffic_run_ok es : forall n reads s u d t, traffic_ok n reads s u d t -> TServe true ∉ es ->
  Forall call_range (readsOf es) -> Forall (call_served c0) (readsOf es) ->
  exists r, traffic_run cfg env alts imageSize now t es = Ok r
    /\ forall t', r = Some t' -> exists s' u' d', traffic_ok (n + length es) (reads ++ readsOf es) s' u' d' t'.
Proof.
  induction es as [|e es IH]; intros n reads s u d t Hok Hdown Hr Hc; cbn [traffic_run].
  { eexists. split; [done|]. intros t' [= <-]. exists s, u, d. by rewrite Nat.add_0_r, app_nil_r. }
  apply not_elem_of_cons in Hdown as [He Hdown].
  assert (exists r, traffic_step cfg env alts imageSize now t e = Ok r /\ forall t', r = Some t' -> exists s' u' d', traffic_ok (S n) (reads ++ readsOf [e]) s' u' d' t') as (r & -> & Hnext).
  { destruct e as [x| |[]|]; [| |by destruct He| |]; cbn; rewrite ?app_nil_r.
    - apply list.Forall_cons in Hr as [Hr _], Hc as [Hc _]. destruct (traffic_read_step n reads s u d t x Hok Hr Hc) as (r & E & H). exists r. split; [done|].
      intros t' Et. destruct (H t' Et) as (s' & ?). by exists s', u, d.
    - destruct (traffic_send_step n reads s u d t Hok) as (r & E & _ & H). exists r. split; [done|]. intros t' Et. destruct (H t' Et) as (s' & u' & ?). by exists s', u', d.
    - destruct (traffic_serve_step n reads s u d t Hok) as (r & E & _ & H). exists r. split; [done|]. intros t' Et. destruct (H t' Et) as (u' & d' & ?). by exists s, u', d'.
    - destruct (traffic_receive_step n reads s u d t Hok) as (r & E & _ & H). exists r. split; [done|]. intros t' Et. destruct (H t' Et) as (d' & ?). by exists s, u, d'. }
  cbn [mbind result_bind]. destruct r as [t1|]; [|by eexists]. destruct (Hnext t1 eq_refl) as (s1 & u1 & d1 & Hok1).
  assert (readsOf (e :: es) = readsOf [e] ++ readsOf es) as Ere by (by destruct e).
  rewrite Ere in *. apply Forall_app in Hr as [_ Hr], Hc as [_ Hc]. destruct (IH (S n) _ s1 u1 d1 t1 Hok1 Hdown Hr Hc) as (r & E & H). exists r. split; [done|].
  intros t' Et. destruct (H t' Et) as (s' & u' & d' & ?). exists s', u', d'. rewrite app_assoc. by replace (n + length (e :: es))%nat with (S n + length es)%nat by (cbn; lia).
Qed.
End TrafficInv.

(** C1. From a read of the mounted file to the file on the server and back.  Reads of the file system, the sending of a request
    that was queued, turns of the server's loop and turns of the client's receiver happen in any order.  The connection
    works in both directions (no send fails: [net_works] for the server), the server is not shut down, and every read that starts in the image
    starts at most at the end of the file on the server, and that file has all its blocks ([call_served]); memory that
    is allocated is not in use.  Then nothing faults; every read that does not start in the image is answered at once with
    nothing; every other one is answered at most once, with the bytes of
    the file from its offset on, cut at the end of the image; and whenever nothing is left to be sent, served or
    received, which is so after at most three of these steps for a read, all of them have been answered and no request is pending. *)
Theorem file_reads_get_image_bytes cfg env alts c now es :
  served c env -> net_works env -> TServe true ∉ es -> Forall call_range (readsOf es) -> Forall (call_served c) (readsOf es) ->
  let imageSize := img_virtualFilesize (cn_image c) in let answers := omap (answerOf imageSize (ne_file env)) (readsOf es) in
  exists r, traffic_run cfg env alts imageSize now (traffic0 c) es = Ok r
  /\ forall t, r = Some t ->
     tr_ended t = omap (endOf imageSize) (readsOf es)
     /\ (exists later, rv_answers (tr_client t) ++ later ≡ₚ answers)
     /\ (length es <= 4 * length (readsOf es))%nat
     /\ ((forall e, e ∈ [TSend; TServe false; TReceive] -> traffic_step cfg env alts imageSize now t e = Ok None) ->
         rv_answers (tr_client t) ≡ₚ answers /\ queue_repr (rv_requests (tr_client t)) []).
Proof.
  intros Hsv Hw Hdown Hr Hc imageSize answers.
  destruct (traffic_run_ok cfg env alts c now Hsv Hw es 0 [] [] [] [] (traffic0 c)) as (r & Hrun & Hok); [|done..|].
  { split; cbn; try done. exists []. split; [|done]. split_and!; [done|constructor|done]. }
  exists r. split; [done|]. intros t ->. destruct (Hok t eq_refl) as (s & u & d & Ht). pose proof Ht as [Hsend Hup Hdw (l & Hq & Hl) Hasks Hans Hend Hsrv Hopen Hn].
  split_and!; [done|by eexists|cbn in Hn; lia|]. intros Hstuck.
  destruct (traffic_send_step cfg env alts c now _ _ _ _ _ _ Ht) as (r1 & E1 & H1 & _). rewrite Hstuck in E1 by set_solver. injection E1 as <-. specialize (H1 eq_refl).
  destruct (traffic_serve_step cfg env alts c now Hw _ _ _ _ _ _ Ht) as (r2 & E2 & H2 & _). rewrite Hstuck in E2 by set_solver. injection E2 as <-. specialize (H2 eq_refl).
  destruct (traffic_receive_step cfg env alts c now _ _ _ _ _ _ Ht) as (r3 & E3 & H3 & _). rewrite Hstuck in E3 by set_solver. injection E3 as <-. specialize (H3 eq_refl).
  subst s u d. cbn in Hans, Hl. rewrite app_nil_r in Hans. split; [done|]. apply Permutation_nil_r in Hl. by subst l.
Qed.

(** Four reads, mixed with the sending, serving and receiving; the third one starts behind the end, and the last one gets the
    memory of the first. *)
Definition demo_traffic : list traffic_event :=
  [TRead (100, 1, 4096, 8192); TSend; TRead (200, 2, 3000, 100); TServe false; TSend; TReceive; TRead (300, 3, 100, 20000);
   TRead (100, 4, 9000, 8192); TServe false; TSend; TServe false; TReceive; TReceive].
Lemma file_reads_witness :
  exists t, traffic_run demo_config demo_net_env [] 12288 (Ticks 0 0) (traffic0 demo_connection) demo_traffic = Ok (Some t)
    /\ tr_ended t = [3]
    /\ rv_answers (tr_client t) ≡ₚ [(1, imageBytes demo_file 8192 4096); (2, imageBytes demo_file 100 3000); (4, imageBytes demo_file 8192 4096)].
Proof.
  destruct (file_reads_get_image_bytes demo_config demo_net_env [] demo_connection (Ticks 0 0) demo_traffic demo_served demo_net_works)
    as (r & H1 & H2).
  - intros H. unfold demo_traffic in H. rewrite !elem_of_cons in H. repeat (destruct H as [H|H]; [discriminate H|]). by apply not_elem_of_nil in H.
  - repeat constructor; vm_compute; congruence.
  - assert (call_served demo_connection (300, 3, 100, 20000)) as Hend by (split; [by vm_compute|intros H; exfalso; by vm_compute in H]).
    do 4 (constructor; [first [exact Hend|split; [by vm_compute|intros _; split; [by vm_compute|right; vm_compute; reflexivity]]]|]). constructor.
  - assert (match traffic_run demo_config demo_net_env [] 12288 (Ticks 0 0) (traffic0 demo_connection) demo_traffic with
      | Ok (Some t) => bool_decide (tr_sending t = NULL /\ tr_up t = [] /\ tr_down t = []) | _ => false end = true) as H3 by (vm_compute; reflexivity).
    cbv zeta in H1. change (img_virtualFilesize (cn_image demo_connection)) with 12288 in H1. rewrite H1 in H3. destruct r as [t|]; [|done].
    apply bool_decide_eq_true_1 in H3 as (E1 & E2 & E3). destruct (H2 t eq_refl) as (Hend & _ & _ & Hall). exists t. split; [exact H1|]. split; [exact Hend|].
    apply Hall. intros e He. rewrite !elem_of_cons in He. destruct He as [->|[->|[->|He]]].
    + cbn [traffic_step]. rewrite E1. reflexivity.
    + cbn [traffic_step]. rewrite E2. change (_ <? _)%nat with true. rewrite orb_true_r. reflexivity.
    + cbn [traffic_step]. rewrite E3. reflexivity.
    + exfalso. exact (not_elem_of_nil _ He).
Defined.

(** ** The text fits its buffer *)

Lemma digits_at_most f n : (length (print_digits f n) <= S f)%nat.
Proof. revert n. induction f as [|f IH]; intros n; cbn [print_digits]; [done|]. destruct (n <? 10); [cbn; lia|]. rewrite length_app. specialize (IH (n / 10)). cbn. lia. Qed.
Lemma printSpaced_length width v : Z.of_nat (length (printSpaced width v)) <= Z.max width 12.
Proof.
  unfold printSpaced. set (t := _ :: _). assert (length t <= 12)%nat as Ht. { unfold t. cbn [length]. pose proof (digits_at_most 10 (Z.abs v)). lia. }
  clearbody t. rewrite length_app, length_replicate. lia.
Qed.
Lemma printPlain_length v : (length (printPlain v) <= 12)%nat.
Proof. unfold printPlain. rewrite length_app. pose proof (digits_at_most 10 (Z.abs v)). destruct (v <? 0); cbn [length]; lia. Qed.
Lemma printServer_length addrlen a : 0 <= addrlen -> Z.of_nat (length (printServer addrlen a)) <= 120.
Proof.
  intros Ha. unfold printServer. set (width := if 35 <=? addrlen then _ else _). assert (0 <= width <= 35) as Hw by (unfold width; destruct (Z.leb_spec 35 addrlen); lia).
  pose proof (printSpaced_length 5 (fa_consecutiveFails a)). pose proof (printSpaced_length 5 (fa_bestCount a)). pose proof (printSpaced_length 5 (fa_liveRtt a)).
  destruct (5000 <? fa_rtt a).
  - pose proof (printSpaced_length width (fa_rtt a / 1000)). rewrite !length_app. cbn [length MICRO String.list_ascii_of_string]. lia.
  - pose proof (printSpaced_length (width + 3) (fa_rtt a)). rewrite !length_app. cbn [length MICRO String.list_ascii_of_string]. lia.
Qed.
Lemma printHeader_length name rid secs : (length (printHeader name rid secs) <= length name + 80)%nat.
Proof.
  unfold printHeader. pose proof (printPlain_length rid). pose proof (printPlain_length secs). rewrite !length_app. cbn [length String.list_ascii_of_string]. lia.
Qed.
Section StatsFit.
(** [inet_ntop] prints at most [INET6_ADDRSTRLEN - 1] characters. *)
Context (inet_ntop4 inet_ntop6 : list Z -> string).
Hypothesis ntop4_short : forall a, (String.length (inet_ntop4 a) <= 45)%nat.
Hypothesis ntop6_short : forall a, (String.length (inet_ntop6 a) <= 45)%nat.
Definition host_known (a : alt_server_t) : Prop :=
  host_type (fa_host a) = 0 \/ host_type (fa_host a) = HOST_IP4 \/ host_type (fa_host a) = HOST_IP6.

Lemma printHost_short print h len :
  host_type h = HOST_IP4 \/ host_type h = HOST_IP6 -> 60 <= len ->
  exists t, sock_printHost inet_ntop4 inet_ntop6 print h len = Ok (Some t) /\ (String.length t <= 53)%nat.
Proof.
  intros Ht Hlen. unfold sock_printHost. destruct (Z.ltb_spec len 10); [lia|]. set (port := if host_port h =? 0 then _ else _).
  assert (String.length port <= 6)%nat as Hp.
  { subst port. destruct (host_port h =? 0); [cbn; lia|]. rewrite string_app_length. pose proof (port_length (host_port h)). change (String.length ":") with 1%nat. lia. }
  destruct (Z.eqb_spec (host_type h) HOST_IP6); [|destruct (Z.eqb_spec (host_type h) HOST_IP4); [|by destruct Ht]].
  - pose proof (ntop6_short (host_addr h)). unfold ntop. rewrite (proj2 (Z.ltb_lt _ _)) by lia. cbn [mbind result_bind]. eexists. split; [done|].
    rewrite !string_app_length. change (String.length "[") with 1%nat. change (String.length "]") with 1%nat. lia.
  - pose proof (ntop4_short (take 4 (host_addr h))). unfold ntop. rewrite (proj2 (Z.ltb_lt _ _)) by lia. cbn [mbind result_bind]. eexists. split; [done|].
    rewrite string_app_length. lia.
Qed.
Lemma printServers_fits current alts : Forall host_known alts -> forall i remaining, 200 * Z.of_nat (length alts) + 60 <= remaining ->
  exists text, printServers inet_ntop4 inet_ntop6 current i alts remaining = Ok (text, remaining - Z.of_nat (length text))
    /\ Z.of_nat (length text) <= 200 * Z.of_nat (length alts).
Proof.
  induction 1 as [|a alts Hk _ IH]; intros i remaining Hr; cbn [printServers length] in *; [exists []; split; [do 2 f_equal; cbn; lia|done]|].
  destruct (Z.ltb_spec 3 remaining); [|lia]. cbn [negb]. destruct (Z.eqb_spec (host_type (fa_host a)) 0) as [|Ht].
  { destruct (IH (S i) remaining ltac:(lia)) as (text & -> & Hl). exists text. split; [done|lia]. }
  destruct Hk as [|Hk]; [done|]. destruct (printHost_short (fun v => unchars (printPlain v)) (fa_host a) remaining Hk ltac:(lia)) as (t & -> & Hlt). cbn [mbind result_bind from_option].
  set (mark := if isSameAddressPort _ _ then _ else _). set (addr := chars t). assert (Z.of_nat (length addr) <= 53) as Ha.
  { unfold addr. rewrite <- (unchars_length (chars t)), String.string_of_list_ascii_of_string. lia. }
  clearbody mark addr. destruct (Z.ltb_spec remaining (1 + Z.of_nat (length addr) + 1)); [lia|]. destruct (Z.ltb_spec (remaining - (Z.of_nat (length addr) + 1)) 3); [lia|].
  pose proof (printServer_length (Z.of_nat (length addr)) a ltac:(lia)) as Hline. set (line := printServer _ a) in *. clearbody line.
  destruct (Z.leb_spec (remaining - (Z.of_nat (length addr) + 1)) (Z.of_nat (length line))); [lia|].
  destruct (IH (S i) (remaining - (Z.of_nat (length addr) + 1) - Z.of_nat (length line)) ltac:(lia)) as (text & -> & Hl). cbn [mbind result_bind].
  exists (mark :: addr ++ line ++ text). cbn [length]. rewrite !length_app. split; [do 2 f_equal; lia|lia].
Qed.
(** The file with the state of the connection: with a name of at most 700 characters and the servers that the table can
    hold, the text fits the buffer, and reading the file anywhere below 2 GiB gives the part of the text at that offset. *)
Theorem stats_file_correct name rid secs current alts junk :
  (length name <= 700)%nat -> (length alts <= MAX_ALTS)%nat -> Forall host_known alts ->
  exists text, connection_printStats inet_ntop4 inet_ntop6 name rid secs current alts STATS_BUFFER = Ok (text, Z.of_nat (length text))
    /\ Z.of_nat (length text) < STATS_BUFFER
    /\ forall size offset, 0 <= offset < 2 ^ 31 -> 0 <= size < 2 ^ 31 ->
       fillStatsFile (text ++ junk) (Z.of_nat (length text)) size offset =
       Ok (if Z.of_nat (length text) <? offset then inr F_OK else inl (take (Z.to_nat size) (drop (Z.to_nat offset) text))).
Proof.
  intros Hn Ha Hk. unfold connection_printStats, STATS_BUFFER. pose proof (printHeader_length name rid secs) as Hh. set (header := printHeader name rid secs) in *. clearbody header.
  destruct (Z.leb_spec 4096 (Z.of_nat (length header))); [lia|]. unfold MAX_ALTS in Ha.
  destruct (printServers_fits current alts Hk 0 (4096 - Z.of_nat (length header)) ltac:(lia)) as (text & -> & Hl). cbn [mbind result_bind].
  exists (header ++ text). rewrite length_app. split; [do 2 f_equal; lia|]. split; [lia|]. intros size offset Ho Hs.
  unfold fillStatsFile. rewrite (i32_id offset), (i32_id size) by crange. rewrite i32_id by crange. set (n := Z.of_nat (length header + length text)).
  destruct (Z.ltb_spec n offset); [destruct (Z.ltb_spec (Z.min (n - offset) size) 0); [done|lia]|].
  destruct (Z.ltb_spec (Z.min (n - offset) size) 0); [lia|]. destruct (Z.ltb_spec offset 0); [lia|]. cbn [orb].
  destruct (Z.ltb_spec STATS_BUFFER (offset + Z.min (n - offset) size)) as [Hov|]; [unfold STATS_BUFFER in Hov; lia|]. do 2 f_equal.
  assert (length (header ++ text) = Z.to_nat n) as El by (rewrite length_app; lia). rewrite drop_app_le by lia. set (rest := drop _ (header ++ text)).
  assert (length rest = Z.to_nat (n - offset)) as Er by (unfold rest; rewrite length_drop; lia). rewrite take_app_le by lia.
  destruct (Z.min_spec (n - offset) size) as [[? ->]|[? ->]]; [|done]. rewrite !take_ge by lia. done.
Qed.
End StatsFit.
Lemma stats_file_witness :
  exists text, connection_printStats (fun _ => "10.0.0.1") (fun _ => "::1") (chars "stateless.vmdk") 3 7 (Host [] 0 0)
      [FuseAlt (Host [10; 0; 0; 1] 0 HOST_IP4) 0 900 [0; 0; 0; 0] 0 0 0] STATS_BUFFER = Ok (text, Z.of_nat (length text))
    /\ fillStatsFile (text ++ []) (Z.of_nat (length text)) 20 10 = Ok (if Z.of_nat (length text) <? 10 then inr F_OK else inl (take 20 (drop 10 text))).
Proof.
  destruct (stats_file_correct (fun _ => "10.0.0.1") (fun _ => "::1") ltac:(intros; cbn; lia) ltac:(intros; cbn; lia) (chars "stateless.vmdk") 3 7 (Host [] 0 0)
    [FuseAlt (Host [10; 0; 0; 1] 0 HOST_IP4) 0 900 [0; 0; 0; 0] 0 0 0] []) as (text & H1 & _ & H2).
  - apply Nat.leb_le. reflexivity.
  - apply Nat.leb_le. reflexivity.
  - constructor; [right; left; reflexivity|constructor].
  - exists text. split; [exact H1|]. apply (H2 20 10); lia.
Defined.

(** ** The statistics *)

Lemma countBlocks_loop n : forall a counts,
  0 <= a -> a + Z.of_nat n <= Z.of_nat (length counts) -> exists counts', for_each countBlock a 1 n counts = Ok counts' /\ length counts' = length counts.
Proof.
  induction n as [|n IH]; intros a counts Ha Hn; cbn [for_each]; [by exists counts|].
  destruct (lookup_lt_is_Some_2 counts (Z.to_nat a)) as [v Hv]; [lia|].
  assert (countBlock a counts = Ok (<[Z.to_nat a := u8 (v + 1)]> counts)) as ->.
  { unfold countBlock. rewrite (aget_ok counts a v Ha Hv). cbn [mbind result_bind]. by rewrite aset_ok by lia. }
  cbn [mbind result_bind].
  destruct (IH (a + 1) (<[Z.to_nat a := u8 (v + 1)]> counts)) as (c & -> & Hc); [lia|rewrite length_insert; lia|]. exists c. by rewrite Hc, length_insert.
Qed.
Lemma printCounts_ok counts n : forall i, 0 <= i -> i + Z.of_nat n <= Z.of_nat (length counts) -> exists t, printCounts counts i n = Ok t.
Proof.
  induction n as [|n IH]; intros i Hi Hn; cbn [printCounts]; [by exists []|].
  destruct (lookup_lt_is_Some_2 counts (Z.to_nat i)) as [v Hv]; [lia|]. rewrite (aget_ok counts i v Hi Hv). cbn [mbind result_bind].
  destruct (IH (i + 1)) as (t & ->); [lia|lia|]. by eexists.
Qed.
(** With [--debug] every read that [image_ll_read] accepts is counted inside the array that [main] allocates, and the log that is
    written at the end stays inside it too. *)
Theorem block_counts_in_bounds imageSize buffer ret size offset counts :
  0 <= imageSize < 2 ^ 63 -> 0 <= offset < 2 ^ 63 -> 0 <= size < 2 ^ 32 ->
  length counts = length (li_blockRequestCount (initLogInfo true imageSize)) ->
  (exists r counts', image_ll_read imageSize true buffer ret INO_IMAGE size offset counts = Ok (r, counts') /\ length counts' = length counts)
  /\ exists text, printLog (LogInfo imageSize 0 (li_imageBlockCount (initLogInfo true imageSize)) counts) = Ok text.
Proof.
  intros Hi Ho Hs Hc. cbn [initLogInfo li_blockRequestCount li_imageBlockCount] in *. rewrite length_replicate in Hc. rewrite (u64_id (imageSize + 4095)) in * by crange.
  assert (0 <= (imageSize + 4095) / 4096) as Hn by (apply Z.div_pos; lia). split.
  - unfold image_ll_read. change (INO_IMAGE =? INO_STATS) with false. cbn [orb]. change (INO_IMAGE =? INO_IMAGE) with true. cbn [assert_ mbind result_bind]. rewrite limitRead_spec by done.
    destruct (Z.ltb_spec offset imageSize), (Z.ltb_spec 0 size); cbn [andb]; [|by exists (ReplyErr F_OK), counts..].
    set (n := Z.min size (imageSize - offset)). unfold countBlocks. rewrite trips_1.
    destruct (countBlocks_loop (Z.to_nat ((offset + n - 1) / 4096 + 1 - offset / 4096)) (offset / 4096) counts) as (c & -> & Hl).
    + apply Z.div_pos; lia.
    + assert (offset / 4096 <= (offset + n - 1) / 4096) by (apply Z.div_le_mono; lia).
      assert ((offset + n - 1) / 4096 + 1 <= (imageSize + 4095) / 4096); [|lia].
      replace (imageSize + 4095) with (imageSize - 1 + 1 * 4096) by lia. rewrite Z.div_add by lia.
      assert ((offset + n - 1) / 4096 <= (imageSize - 1) / 4096) by (apply Z.div_le_mono; lia). lia.
    + cbn [mbind result_bind]. by eexists _, c.
  - unfold printLog. cbn [li_blockRequestCount li_imageBlockCount]. destruct (printCounts_ok counts (Z.to_nat ((imageSize + 4095) / 4096)) 0) as (t & ->); [lia|lia|]. by eexists.
Qed.
Lemma block_counts_witness :
  exists r counts', image_ll_read 9000 true [] 0 INO_IMAGE 8192 4096 [0; 255; 7] = Ok (r, counts') /\ length counts' = 3%nat.
Proof. destruct (block_counts_in_bounds 9000 [] 0 8192 4096 [0; 255; 7]) as [H _]; [lia..|by vm_compute|exact H]. Defined.

(** ** What [main] acquires it gives back *)

Inductive fuse_res := RConn | RMount | RSession | RHandlers | RChannel.
#[global] Instance fuse_res_eq_dec : EqDecision fuse_res.
Proof. solve_decision. Defined.
(** The resources that are held after the calls; [None]: something is given back that is not held, or the loop of the
    session runs without one of them. *)
Fixpoint follow (e : main_env) (calls : list main_call) (held : list fuse_res) : option (list fuse_res) :=
  let get (ok : bool) r := if ok then r :: held else held in
  let put r := if bool_decide (r ∈ held) then Some (filter (fun x => x <> r) held) else None in
  match calls with
  | [] => Some held
  | call :: calls =>
      match call with
      | Connect _ _ _ _ => follow e calls (get (me_connect e) RConn)
      | Mount _ => follow e calls (get (me_mount e) RMount)
      | NewSession => follow e calls (get (me_session e) RSession)
      | SetHandlers => follow e calls (get (me_handlers e) RHandlers)
      | AddChannel => follow e calls (get true RChannel)
      | Daemonize _ => follow e calls held
      | SessionLoop _ => if bool_decide (length held = 5%nat) then follow e calls held else None
      | RemoveHandlers => put RHandlers ≫= follow e calls
      | RemoveChannel => put RChannel ≫= follow e calls
      | DestroySession => put RSession ≫= follow e calls
      | Unmount => put RMount ≫= follow e calls
      | JoinThreads => put RConn ≫= follow e calls
      end
  end.
Lemma pushArg_ok cap x args : (length args < cap)%nat -> pushArg cap x args = Ok (args ++ [x]).
Proof. intros H. unfold pushArg. by rewrite (proj2 (Nat.ltb_lt _ _) H). Qed.
(** How many entries an option adds to [newArgv]. *)
Definition optArgs (x : ascii * string) : nat := if Ascii.eqb x.1 "o" then 2 else if Ascii.eqb x.1 "d" then 1 else 0.
Lemma parseOptions_ok cap opts : forall o, (length (fo_args o) + sum_list_with optArgs opts <= cap)%nat ->
  exists r, parseOptions cap opts o = Ok r /\ forall o', r = inr o' -> (length (fo_args o') <= length (fo_args o) + sum_list_with optArgs opts)%nat.
Proof.
  induction opts as [|[c arg] opts IH]; intros o Hc; cbn [parseOptions sum_list_with] in *; [exists (inr o); split; [done|intros o' [= <-]; lia]|].
  destruct o as [host image log rid args debug single learn foreground]. cbn [fo_args] in *.
  assert (forall args' host image log rid debug single learn foreground, (length args' <= length args + optArgs (c, arg))%nat ->
    exists r, parseOptions cap opts (FuseOpts host image log rid args' debug single learn foreground) = Ok r
      /\ forall o', r = inr o' -> (length (fo_args o') <= length args + (optArgs (c, arg) + sum_list_with optArgs opts))%nat) as Hgo.
  { intros args' h i l r d s le f Hl. edestruct (IH (FuseOpts h i l r args' d s le f)) as (x & -> & Hx); [cbn; lia|]. exists x. split; [done|]. intros o' E. specialize (Hx o' E). cbn in Hx. lia. }
  assert (forall k, exists r, Ok (inl k) = Ok (A := Z + fuse_opts) r /\ forall o', r = inr o' -> (length (fo_args o') <= length args + (optArgs (c, arg) + sum_list_with optArgs opts))%nat) as Hstop.
  { intros k. by exists (inl k). }
  repeat (match goal with |- context [if ?b then _ else _] => destruct b eqn:? end); try (apply Hgo; cbn; lia); try apply Hstop.
  - assert (optArgs (c, arg) = 2%nat) as E2 by (unfold optArgs; cbn [fst]; by case_match). rewrite pushArg_ok by lia. cbn [mbind result_bind]. rewrite pushArg_ok by (rewrite length_app; cbn; lia). cbn [mbind result_bind].
    apply Hgo. rewrite !length_app. cbn. lia.
  - assert (optArgs (c, arg) = 1%nat) as E1 by (unfold optArgs; cbn [fst]; repeat case_match; congruence). rewrite pushArg_ok by lia. cbn [mbind result_bind].
    apply Hgo. rewrite length_app. cbn. lia.
Qed.
Lemma mountAndRun_follow e o : follow e ((mountAndRun e o).2 ++ [JoinThreads]) [RConn] = Some [].
Proof. destruct e as [cn pa mo se ha lo], pa, mo, se, ha; reflexivity. Qed.
(** [main] for any arguments and any results of the calls it makes, as long as the options do not add more than six
    entries beyond the arguments to [newArgv]: it never leaves the array, ends, gives back everything it acquired and nothing
    else, and the loop of the session only runs with the connection, the mount point, the session, its signal handlers and its channel. *)
Theorem fuse_main_releases e argv opts mountpoint :
  (sum_list_with optArgs opts <= length argv + 6)%nat ->
  exists code calls, fuse_main e argv opts mountpoint = Ok (code, calls) /\ follow e calls [] = Some [].
Proof.
  intros Hs. unfold fuse_main. destruct (_ || _); [by exists 0, []|]. rewrite pushArg_ok by (cbn; lia). cbn [mbind result_bind app].
  destruct (parseOptions_ok (length argv + 10) opts (FuseOpts None None None 0 [default "" (argv !! 0%nat)] false false true false)) as (r & -> & Hr); [cbn; lia|].
  cbn [mbind result_bind app]. destruct r as [code|o]; [by exists code, []|]. specialize (Hr o eq_refl). cbn [fo_args length] in Hr.
  destruct mountpoint as [mp|]; [|by exists 1, []]. destruct (fo_host o) as [host|]; [|by exists 1, []]. destruct (fo_image o) as [image|]; [|by exists 1, []].
  destruct (me_connect e) eqn:Ec; cbn [negb]; [|eexists _, _; split; [done|]; cbn [follow]; by rewrite Ec].
  do 3 (rewrite pushArg_ok by (rewrite ?length_app; cbn [length]; lia); cbn [mbind result_bind]).
  set (o' := FuseOpts _ _ _ _ _ _ _ _ _). destruct (mountAndRun e o') as [err calls] eqn:Em. eexists _, _. split; [done|].
  pose proof (mountAndRun_follow e o') as Hf. rewrite Em in Hf. cbn [snd] in Hf. cbn [follow]. by rewrite Ec.
Qed.
Definition demo_argv : list string := ["dnbd3-fuse"; "-d"; "-h"; "10.0.0.1"; "-i"; "img"; "/mnt"].
Definition demo_fuse_opts : list (ascii * string) := [("d"%char, ""); ("h"%char, "10.0.0.1"); ("i"%char, "img")].
Lemma fuse_main_witness :
  exists code calls, fuse_main (MainEnv true true true true true 0) demo_argv demo_fuse_opts (Some "/mnt") = Ok (code, calls)
    /\ follow (MainEnv true true true true true 0) calls [] = Some [].
Proof. apply (fuse_main_releases (MainEnv true true true true true 0) demo_argv demo_fuse_opts (Some "/mnt")). vm_compute. lia. Defined.

(** ** Where the code falls short *)

(** Options can be combined in one argument: every [d] of -ddd... adds an entry to [newArgv], which has room for ten more
    than there are arguments. *)
Lemma combined_options_overflow :
  fuse_main (MainEnv true true true true true 0) ["dnbd3-fuse"; "-dddddddddddddddd"; "-h"; "10.0.0.1"; "-i"; "img"; "/mnt"]
    (replicate 16 ("d"%char, "") ++ [("h"%char, "10.0.0.1"); ("i"%char, "img")]) (Some "/mnt") = Fault OutOfBounds.
Proof. vm_compute. reflexivity. Qed.
(** A read of the text at an offset of 4 GiB: the offset is converted to an [int], so the length is that of the whole text,
    but the address is 4 GiB behind the buffer. *)
Lemma stats_offset_truncated : fillStatsFile (replicate 100 " "%char) 100 50 (2 ^ 32) = Fault OutOfBounds.
Proof. vm_compute. reflexivity. Qed.
(** When a thread cannot be created [threadInitDone] is set nevertheless: closing sends a signal to a thread that does not
    exist, and [connection_join] waits for it. *)
Lemma failed_threads_signalled :
  let s := (image_ll_init true false true (ConnState true false true false 5)).1 in
  (image_ll_init true false true (ConnState true false true false 5)).2 = true
  /\ (connection_close s).2.1 = true /\ connection_join s = true.
Proof. vm_compute. done. Qed.
(** A counter has eight bits: a block that is read 256 times is logged as never read. *)
Lemma block_count_wraps : countBlocks 0 1 [255] = Ok [0].
Proof. vm_compute. reflexivity. Qed.
