(* ===== verification/Client.v ===== *)
(** * Client: the command line client of the kernel module ([src/client/client.c])

    The client either talks to a device itself or, when a daemon runs, sends its arguments to it.
    The daemon opens devices for users and remembers in [openDevices] who owns which.  What
    [getopt_long] finds in the arguments, the resolver, [stat] and the kernel's answers to
    [ioctl] are arguments. *)

From Stdlib Require Import Ascii.
From S2P Require Import Prelude Types Helper FileUtil KernelServers KernelIoctl.
Open Scope Z_scope.

Definition SOCK_BUFFER : Z := 1000.
Definition MAX_DEVS : nat := 50.
Definition TMP_STR_LEN : nat := 100.
Definition DEFAULT_READ_AHEAD_KB : Z := 512.

(** ** Hosts *)

Definition setPort (port : Z) (h : dnbd3_host_t) : dnbd3_host_t := Host (host_addr h) port (host_type h).
Section Resolve.
Context (inet_pton4 inet_pton6 : string -> option (list Z)) (gethostbyname : string -> option (Z * list Z)).

(** The address is copied over the first bytes of the old one. *)
Definition setAddr (type : Z) (addr : list Z) (h : dnbd3_host_t) : dnbd3_host_t :=
  Host (addr ++ drop (length addr) (host_addr h)) (host_port h) type.
Definition tryIp (s : string) (h : dnbd3_host_t) : option dnbd3_host_t :=
  match inet_pton4 s with
  | Some v4 => Some (setAddr HOST_IP4 v4 h)
  | None => match inet_pton6 s with Some v6 => Some (setAddr HOST_IP6 v6 h) | None => None end
  end.
(** The string as it is left behind: a port is cut off, and a bracket in front of it. *)
Definition cutPort (ip : string) : string :=
  if bool_decide (stripBrackets ip = ip) then ip else "[" +:+ stripBrackets ip.
(** Whether there is an address, the struct and the string afterwards. *)
Definition client_parse_address (s : string) (h : dnbd3_host_t) : bool * dnbd3_host_t * string :=
  match tryIp s h with
  | Some h => (true, setPort (htons PORT) h, s)
  | None =>
      match splitPort s with
      | None => (false, h, s)
      | Some (ip, port) =>
          let p := atoi port in
          if (p <? 1) || (65535 <? p) then (false, h, cutPort ip)
          else
            let h := setPort (htons p) h in
            match tryIp (stripBrackets ip) h with
            | Some h => (true, h, cutPort ip)
            | None => (false, h, cutPort ip)
            end
      end
  end.
Definition dnbd3_get_ip (s : string) (h : dnbd3_host_t) : bool * dnbd3_host_t * string :=
  let '(ok, h, s) := client_parse_address s h in
  if ok then (true, h, s)
  else
    match gethostbyname s with
    | None => (false, h, s)
    | Some (type, addr) =>
        if (type =? HOST_IP4) || (type =? HOST_IP6) then (true, setPort (htons PORT) (setAddr type addr h), s) else (false, h, s)
    end.

Definition isSpaceC (c : ascii) : bool := Ascii.eqb c " ".
Definition emptyHost : dnbd3_host_t := Host (replicate 16 0) 0 0.
(** The hosts of a list that is separated by spaces, at most [room]; [None]: one of them is unknown. *)
Fixpoint dnbd3_get_resolved_hosts (room : nat) (s : list ascii) : option (list dnbd3_host_t) :=
  match room with
  | O => Some []
  | S room =>
      let '(token, rest) := span isSpaceC (dropWhile isSpaceC s) in
      let '(ok, h, _) := dnbd3_get_ip (unchars (take (TMP_STR_LEN - 1) token)) emptyHost in
      if negb ok then None
      else
        match rest with
        | [] => Some [h]
        | _ :: rest => (h ::.) <$> dnbd3_get_resolved_hosts room rest
        end
  end.
End Resolve.

(** ** The command line *)

(** [dnbd3_ioctl_t] *)
Record client_msg := ClientMsg {
  cm_hosts : list dnbd3_host_t;
  cm_hosts_num : Z;
  cm_imgname : option string;
  cm_imgnamelen : Z;
  cm_rid : Z;
  cm_read_ahead_kb : Z;
  cm_learn : bool;
}.
(** [dnbd3_ioctl]: [ioctl] is what the kernel answers, [None] when the device cannot be opened. *)
Definition dnbd3_ioctl (ioctl : string -> ioctl_cmd -> client_msg -> option Z) (dev : string) (cmd : ioctl_cmd) (m : client_msg) : Z :=
  let m := match cm_imgname m with
           | Some n => ClientMsg (cm_hosts m) (cm_hosts_num m) (Some n) (u16 (Z.of_nat (String.length n))) (cm_rid m) (cm_read_ahead_kb m) (cm_learn m)
           | None => m
           end in
  default (- 19) (ioctl dev cmd m).

Record client_opts := ClientOpts { co_dev : option string; co_action : option ioctl_cmd; co_learn : bool; co_msg : client_msg }.
Definition noMsg : client_msg := ClientMsg (replicate (Z.to_nat NUMBER_SERVERS) emptyHost) 0 None 0 0 DEFAULT_READ_AHEAD_KB false.
Inductive client_end :=
| ClientExit (code : Z)
| ClientDaemon                                 (* [dnbd3_client_daemon], which does not return *)
| ClientSend                                   (* the arguments are sent to the daemon *)
| ClientIoctl (dev : string) (cmd : ioctl_cmd) (m : client_msg) (code : Z).
Definition EXIT_FAILURE : Z := 1.
Section Main.
Context (inet_pton4 inet_pton6 : string -> option (list Z)) (gethostbyname : string -> option (Z * list Z)).
Context (ioctl : string -> ioctl_cmd -> client_msg -> option Z).

(** [-s], [-A] and [-R]: the first host is written, whether or not it is known. *)
Definition oneHost (arg : string) (cmd : ioctl_cmd) (o : client_opts) : client_opts :=
  let m := co_msg o in
  let h := (dnbd3_get_ip inet_pton4 inet_pton6 gethostbyname arg (default emptyHost (head (cm_hosts m)))).1.2 in
  ClientOpts (co_dev o) (Some cmd) (co_learn o)
    (ClientMsg (h :: tail (cm_hosts m)) 1 (cm_imgname m) (cm_imgnamelen m) (cm_rid m) (cm_read_ahead_kb m) (cm_learn m)).
Fixpoint clientOptions (opts : list (ascii * string)) (o : client_opts) : client_end + client_opts :=
  match opts with
  | [] => inr o
  | (c, arg) :: opts =>
      let 'ClientOpts dev action learn m := o in
      let go := clientOptions opts in
      if Ascii.eqb c "h" then
        match dnbd3_get_resolved_hosts inet_pton4 inet_pton6 gethostbyname (Z.to_nat NUMBER_SERVERS) (chars arg) with
        | None => inl (ClientExit EXIT_FAILURE)
        | Some hs => go (ClientOpts dev action learn (ClientMsg (hs ++ drop (length hs) (cm_hosts m)) (u8 (Z.of_nat (length hs)))
                           (cm_imgname m) (cm_imgnamelen m) (cm_rid m) (cm_read_ahead_kb m) (cm_learn m)))
        end
      else if Ascii.eqb c "i" then
        go (ClientOpts dev (Some IOCTL_OPEN) learn (ClientMsg (cm_hosts m) (cm_hosts_num m) (Some arg) (cm_imgnamelen m) (cm_rid m) (cm_read_ahead_kb m) (cm_learn m)))
      else if Ascii.eqb c "r" then
        go (ClientOpts dev action learn (ClientMsg (cm_hosts m) (cm_hosts_num m) (cm_imgname m) (cm_imgnamelen m) (atoi arg) (cm_read_ahead_kb m) (cm_learn m)))
      else if Ascii.eqb c "d" then go (ClientOpts (Some arg) action learn m)
      else if Ascii.eqb c "a" then
        go (ClientOpts dev action learn (ClientMsg (cm_hosts m) (cm_hosts_num m) (cm_imgname m) (cm_imgnamelen m) (cm_rid m) (atoi arg) (cm_learn m)))
      else if Ascii.eqb c "c" then go (ClientOpts dev (Some IOCTL_CLOSE) learn m)
      else if Ascii.eqb c "s" then go (oneHost arg IOCTL_SWITCH o)
      else if Ascii.eqb c "S" then go (ClientOpts dev action false m)
      else if Ascii.eqb c "A" then go (oneHost arg IOCTL_ADD_SRV o)
      else if Ascii.eqb c "R" then go (oneHost arg IOCTL_REM_SRV o)
      else if Ascii.eqb c "H" || Ascii.eqb c "V" || Ascii.eqb c "?" then inl (ClientExit 0)
      else if Ascii.eqb c "D" then inl ClientDaemon
      else go o
  end.
Definition isAction (o : client_opts) (cmds : list ioctl_cmd) : bool :=
  match co_action o, cmds with
  | Some IOCTL_OPEN, [IOCTL_OPEN] | Some IOCTL_CLOSE, [IOCTL_CLOSE] => true
  | Some (IOCTL_SWITCH | IOCTL_ADD_SRV | IOCTL_REM_SRV), [IOCTL_SWITCH; IOCTL_ADD_SRV; IOCTL_REM_SRV] => true
  | _, _ => false
  end.
(** [daemonRuns]: the socket of the daemon exists. *)
Definition client_main (daemonRuns : bool) (opts : list (ascii * string)) : client_end :=
  match clientOptions opts (ClientOpts None None true noMsg) with
  | inl e => e
  | inr o =>
      if negb (co_learn o) && negb (isAction o [IOCTL_OPEN]) then ClientExit EXIT_FAILURE
      else if daemonRuns then ClientSend
      else
        let m := co_msg o in
        let m := ClientMsg (cm_hosts m) (cm_hosts_num m) (cm_imgname m) (cm_imgnamelen m) (cm_rid m) (cm_read_ahead_kb m) (co_learn o) in
        match co_dev o, co_action o with
        | Some dev, Some cmd =>
            let noName := bool_decide (cm_imgname m = None) in
            let run (ok : Z -> bool) := ClientIoctl dev cmd m (if ok (dnbd3_ioctl ioctl dev cmd m) then 0 else EXIT_FAILURE) in
            if isAction o [IOCTL_CLOSE] && (cm_hosts_num m =? 0) && noName then run (fun r => r =? 0)
            else if isAction o [IOCTL_SWITCH; IOCTL_ADD_SRV; IOCTL_REM_SRV] && (cm_hosts_num m =? 1) && noName then run (fun r => r =? 0)
            else if isAction o [IOCTL_OPEN] && (0 <? cm_hosts_num m) && negb noName then run (fun r => 0 <=? r)
            else ClientExit EXIT_FAILURE
        | _, _ => ClientExit EXIT_FAILURE
        end
  end.
End Main.

(** ** Sending the arguments to the daemon *)

Definition NULC : ascii := "000".
(** The loop of [dnbd3_daemon_send]: [pos] bytes of the buffer are used.  What is sent is read from the buffer, so a
    position behind its end is a fault. *)
Fixpoint packArgs (pos : Z) (args : list (list ascii)) : result (list ascii) :=
  if SOCK_BUFFER <? pos then Fault OutOfBounds
  else
    match args with
    | [] => Ok []
    | a :: args =>
        if SOCK_BUFFER <=? pos then Ok []
        else rest ← packArgs (pos + Z.of_nat (length a) + 1) args; Ok (a ++ [NULC] ++ rest)
    end.
(** The loop of [dnbd3_client_daemon] over what it received; [argc] stays below 20. *)
Definition isNulC (c : ascii) : bool := Ascii.eqb c NULC.
Fixpoint splitArgs (room : nat) (buffer : list ascii) : list (list ascii) :=
  match room with
  | O => []
  | S room =>
      match dropWhile isNulC buffer with
      | [] => []
      | rest => let '(a, rest) := span isNulC rest in a :: splitArgs room rest
      end
  end.
(** [None]: the connection is closed without an answer. *)
Definition daemonReceive (len : Z) (payload : list ascii) : option (list (list ascii)) :=
  if (len <=? 0) || (SOCK_BUFFER <? len + 4) then None
  else if negb (Z.of_nat (length payload) =? len) then None
  else Some (chars "dnbd3-client" :: splitArgs 19 payload).

(** What the client makes of the answer: [None] is a length or a text that does not arrive. *)
Inductive send_end :=
| SendPrints (text : list ascii)
| SendExits (code : Z)
| SendFails.
Definition daemonAnswer (len : option Z) (payload : option (list ascii)) : send_end :=
  match len with
  | None => SendFails
  | Some len =>
      if len <=? 0 then SendExits (- len)
      else if SOCK_BUFFER <? len + 4 then SendFails
      else match payload with
           | Some text => if Z.of_nat (length text) =? len then SendPrints text else SendFails
           | None => SendFails
           end
  end.

(** ** The daemon *)

Definition devName (i : nat) : string := "/dev/dnbd" +:+ unchars (print_digits 9 (Z.of_nat i)).
Inductive daemon_effect :=
| DIoctl (i : nat) (cmd : ioctl_cmd) (m : client_msg)
| DReply (len : Z)
| DReplyDev (dev : string)
| DCloseClient
| DExit.
Section Daemon.
Context (inet_pton4 inet_pton6 : string -> option (list Z)) (gethostbyname : string -> option (Z * list Z)).
Context (ioctl : string -> ioctl_cmd -> client_msg -> option Z) (devExists : nat -> bool) (junk : client_msg).

Definition deviceIndex (device : string) : Z :=
  if bool_decide (String.substring 0 9 device = "/dev/dnbd") then atoi (String.substring 9 (String.length device - 9) device) else atoi device.
(** The table afterwards, whether it worked, and the call of the kernel. *)
Definition dnbd3_daemon_ioctl (uid : Z) (device : string) (cmd : ioctl_cmd) (host : option string) (open : list Z)
  : result (list Z * bool * list daemon_effect) :=
  let index := deviceIndex device in
  let h := match host with
           | Some s => (dnbd3_get_ip inet_pton4 inet_pton6 gethostbyname s emptyHost).1.2
           | None => emptyHost
           end in
  let m := ClientMsg (h :: replicate (Z.to_nat NUMBER_SERVERS - 1) emptyHost) 0 None 0 0 0 false in
  if (index <? 0) || (Z.of_nat MAX_DEVS <=? index) then Ok (open, false, [])
  else
    owner ← aget open index;
    if owner =? -1 then Ok (open, true, [])
    else if negb (owner =? uid) then Ok (open, false, [])
    else
      let call := DIoctl (Z.to_nat index) cmd m in
      if dnbd3_ioctl ioctl (devName (Z.to_nat index)) cmd m =? 0
      then open ← aset open index (-1); Ok (open, true, [call])
      else Ok (open, false, [call]).

(** The loop over the devices.  [host] is what earlier calls of [dnbd3_get_ip] left of the string; the message is not
    initialised, [junk] is what it holds. *)
Fixpoint daemonOpenLoop (uid : Z) (host image : string) (rid ahead : Z) (learn : bool) (i : nat) (rest open : list Z)
  : list Z * option nat * list daemon_effect :=
  match rest with
  | [] => (open, None, [])
  | owner :: rest =>
      if negb (owner =? -1) then daemonOpenLoop uid host image rid ahead learn (S i) rest open
      else if negb (devExists i) then (open, None, [])
      else
        let '(ok, h, host) := dnbd3_get_ip inet_pton4 inet_pton6 gethostbyname host (default emptyHost (head (cm_hosts junk))) in
        if negb ok then (open, None, [])
        else
          let m := ClientMsg (h :: tail (cm_hosts junk)) (cm_hosts_num junk) (Some image) (u16 (Z.of_nat (String.length image))) rid ahead learn in
          let call := DIoctl i IOCTL_OPEN m in
          if 0 <=? dnbd3_ioctl ioctl (devName i) IOCTL_OPEN m then (<[i := uid]> open, Some i, [call])
          else let '(open, found, calls) := daemonOpenLoop uid host image rid ahead learn (S i) rest open in (open, found, call :: calls)
  end.
Definition sameUser (uid : Z) (open : list Z) : Z := Z.of_nat (length (filter (fun o => o = uid) open)).
Definition dnbd3_daemon_open (uid : Z) (host image : string) (rid ahead : Z) (learn : bool) (open : list Z)
  : list Z * option nat * list daemon_effect :=
  if negb (uid =? 0) && (1 <? sameUser uid open) then (open, None, [])
  else daemonOpenLoop uid host image rid ahead learn 0 open open.

Record daemon_opts := DaemonOpts {
  do_host : option string; do_image : option string; do_device : option string;
  do_rid : Z; do_kill : bool; do_ahead : Z; do_action : option ioctl_cmd; do_learn : bool;
}.
Fixpoint daemonOptions (opts : list (ascii * string)) (o : daemon_opts) : daemon_opts :=
  match opts with
  | [] => o
  | (c, arg) :: opts =>
      let 'DaemonOpts host image device rid kill ahead action learn := o in
      daemonOptions opts
        (if Ascii.eqb c "d" then DaemonOpts host image (Some arg) rid kill ahead action learn
         else if Ascii.eqb c "h" then DaemonOpts (Some arg) image device rid kill ahead action learn
         else if Ascii.eqb c "i" then DaemonOpts host (Some arg) device rid kill ahead (Some IOCTL_OPEN) learn
         else if Ascii.eqb c "r" then DaemonOpts host image device (atoi arg) kill ahead action learn
         else if Ascii.eqb c "c" then DaemonOpts host image device rid kill ahead (Some IOCTL_CLOSE) learn
         else if Ascii.eqb c "S" then DaemonOpts host image device rid kill ahead action false
         else if Ascii.eqb c "A" then DaemonOpts host image device rid kill ahead (Some IOCTL_ADD_SRV) learn
         else if Ascii.eqb c "R" then DaemonOpts host image device rid kill ahead (Some IOCTL_REM_SRV) learn
         else if Ascii.eqb c "a" then DaemonOpts host image device rid kill (atoi arg) action learn
         else if Ascii.eqb c "k" then DaemonOpts host image device rid true ahead action learn
         else o)
  end.
(** One request of a user; [euid] is the user the daemon runs as. *)
Definition dnbd3_daemon_action (euid uid : Z) (opts : list (ascii * string)) (open : list Z) : result (list Z * list daemon_effect) :=
  let o := daemonOptions opts (DaemonOpts None None None 0 false 512 None true) in
  if do_kill o then Ok (open, if uid =? euid then [DCloseClient; DExit] else [DCloseClient])
  else
    let manage cmd dev := '(open, ok, calls) ← dnbd3_daemon_ioctl uid dev cmd (do_host o) open; Ok (open, calls ++ [DReply (if (ok : bool) then 0 else -1)]) in
    match do_action o, do_device o, do_host o, do_image o with
    | Some IOCTL_CLOSE, Some dev, _, _ => manage IOCTL_CLOSE dev
    | Some IOCTL_ADD_SRV, Some dev, Some _, _ => manage IOCTL_ADD_SRV dev
    | Some IOCTL_REM_SRV, Some dev, Some _, _ => manage IOCTL_REM_SRV dev
    | Some IOCTL_OPEN, _, Some host, Some image =>
        if do_rid o <? 0 then Ok (open, [])
        else
          let '(open, found, calls) := dnbd3_daemon_open uid host image (do_rid o) (do_ahead o) (do_learn o) open in
          Ok (open, calls ++ [match found with Some i => DReplyDev (devName i) | None => DReply (-1) end])
    | _, _, _, _ => Ok (open, [])
    end.
End Daemon.

(** ** The arguments arrive as they were given *)

Definition packed (args : list (list ascii)) : list ascii := concat (map (fun a => a ++ [NULC]) args).
Lemma packArgs_ok args : forall pos, 0 <= pos -> pos + Z.of_nat (length (packed args)) <= SOCK_BUFFER -> packArgs pos args = Ok (packed args).
Proof.
  induction args as [|a args IH]; intros pos Hp Hl; cbn [packArgs]; unfold packed in *; cbn [map concat] in *.
  - destruct (Z.ltb_spec SOCK_BUFFER pos); [cbn in Hl; lia|done].
  - rewrite !length_app in Hl. cbn [length] in Hl. destruct (Z.ltb_spec SOCK_BUFFER pos); [lia|]. destruct (Z.leb_spec SOCK_BUFFER pos); [lia|].
    rewrite IH by lia. cbn [mbind result_bind]. by rewrite <- app_assoc.
Qed.
Definition arg_ok (a : list ascii) : Prop := a <> [] /\ Forall (fun c => c <> NULC) a.
Lemma span_nul a rest : Forall (fun c => c <> NULC) a -> span isNulC (a ++ NULC :: rest) = (a, NULC :: rest).
Proof.
  induction 1 as [|c a Hc _ IH]; [done|]. cbn [app span]. assert (isNulC c = false) as -> by (unfold isNulC; by apply Ascii.eqb_neq). by rewrite IH.
Qed.
Lemma splitArgs_packed args : forall room pre, Forall arg_ok args -> (length args <= room)%nat -> Forall (fun c => c = NULC) pre ->
  splitArgs room (pre ++ packed args) = args.
Proof.
  assert (forall pre l, Forall (fun c => c = NULC) pre -> dropWhile isNulC (pre ++ l) = dropWhile isNulC l) as Hd.
  { intros pre l. induction 1 as [|c pre -> _ IH]; [done|]. exact IH. }
  induction args as [|a args IH]; intros room pre Ha Hl Hpre.
  - destruct room; [done|]. cbn [splitArgs]. by rewrite Hd.
  - apply list.Forall_cons in Ha as [[Hne Hnn] Ha]. destruct room as [|room]; [cbn in Hl; lia|]. cbn [splitArgs]. rewrite Hd by done. unfold packed. cbn [map concat].
    rewrite <- app_assoc. cbn [app]. destruct a as [|c a]; [done|]. pose proof Hnn as Hc. apply list.Forall_cons in Hc as [Hc _].
    cbn [app dropWhile]. assert (isNulC c = false) as -> by (unfold isNulC; by apply Ascii.eqb_neq). change (c :: a ++ ?x) with ((c :: a) ++ x).
    rewrite span_nul by done. f_equal. apply (IH room [NULC]); [done|cbn in Hl; lia|by constructor].
Qed.
(** Up to nineteen arguments, none of them empty, that fit the buffer arrive at the daemon exactly as they were given to the
    client. *)
Theorem daemon_args_roundtrip args :
  Forall arg_ok args -> (1 <= length args <= 19)%nat -> Z.of_nat (length (packed args)) <= SOCK_BUFFER - 4 ->
  exists buffer, packArgs 0 args = Ok buffer /\ daemonReceive (Z.of_nat (length buffer)) buffer = Some (chars "dnbd3-client" :: args).
Proof.
  intros Ha Hn Hl. exists (packed args). split; [by apply packArgs_ok; lia|]. unfold daemonReceive.
  destruct (Z.leb_spec (Z.of_nat (length (packed args))) 0) as [H0|].
  { destruct args as [|a args]; [cbn in Hn; lia|]. unfold packed in H0. cbn [map concat] in H0. rewrite !length_app in H0. cbn in H0. lia. }
  destruct (Z.ltb_spec SOCK_BUFFER (Z.of_nat (length (packed args)) + 4)); [lia|]. cbn [orb]. rewrite Z.eqb_refl. cbn [negb].
  do 2 f_equal. apply (splitArgs_packed args 19 []); [done|lia|constructor].
Qed.
Lemma daemon_args_witness :
  exists buffer, packArgs 0 [chars "-c"; chars "-d"; chars "3"] = Ok buffer
    /\ daemonReceive (Z.of_nat (length buffer)) buffer = Some [chars "dnbd3-client"; chars "-c"; chars "-d"; chars "3"].
Proof.
  apply (daemon_args_roundtrip [chars "-c"; chars "-d"; chars "3"]); [|cbn; lia|vm_compute; congruence].
  repeat constructor; try done; cbn; intros H; discriminate.
Defined.

(** ** Users only touch their own devices *)

(** What a request of [uid] may do to the table. *)
Definition owners_kept (uid : Z) (open open' : list Z) : Prop :=
  length open' = length open /\ forall i u, u <> uid -> 0 <= u -> open' !! i = Some u <-> open !! i = Some u.
Definition effect_ok (uid : Z) (open : list Z) (e : daemon_effect) : Prop :=
  match e with
  | DIoctl i IOCTL_OPEN _ => open !! i = Some (-1)
  | DIoctl i _ _ => open !! i = Some uid
  | _ => True
  end.
Lemma insert_owner uid open i o : open !! i = Some o -> (o = -1 \/ o = uid) -> forall v, (v = -1 \/ v = uid) -> owners_kept uid open (<[i := v]> open).
Proof.
  intros Hi Ho v Hv. split; [by rewrite length_insert|]. intros j u Hu Hz. rewrite list_lookup_insert. case_decide as Hd; [|done].
  destruct Hd as [-> _]. rewrite Hi. split; intros [= <-]; destruct Ho, Hv; lia.
Qed.
Section DaemonOwners.
Context (inet_pton4 inet_pton6 : string -> option (list Z)) (gethostbyname : string -> option (Z * list Z)).
Context (ioctl : string -> ioctl_cmd -> client_msg -> option Z) (devExists : nat -> bool) (junk : client_msg).
Lemma daemon_ioctl_ok uid device cmd host open :
  length open = MAX_DEVS -> 0 <= uid -> cmd <> IOCTL_OPEN ->
  exists open' ok effs, dnbd3_daemon_ioctl inet_pton4 inet_pton6 gethostbyname ioctl uid device cmd host open = Ok (open', ok, effs)
    /\ owners_kept uid open open' /\ Forall (effect_ok uid open) effs /\ sameUser uid open' <= sameUser uid open.
Proof.
  intros Hl Hz Hcmd. unfold dnbd3_daemon_ioctl. assert (owners_kept uid open open) as Hrefl by done. set (index := deviceIndex device).
  destruct (Z.ltb_spec index 0); [by eexists open, _, []|]. destruct (Z.leb_spec (Z.of_nat MAX_DEVS) index); [by eexists open, _, []|]. cbn [orb].
  destruct (lookup_lt_is_Some_2 open (Z.to_nat index)) as [o Ho]; [lia|]. rewrite (aget_ok open index o) by done. cbn [mbind result_bind].
  destruct (Z.eqb_spec o (-1)); [by eexists open, _, []|]. destruct (Z.eqb_spec o uid) as [->|]; cbn [negb]; [|by eexists open, _, []].
  assert (forall m, effect_ok uid open (DIoctl (Z.to_nat index) cmd m)) as He by (intros m; by destruct cmd).
  destruct (_ =? 0); [|eexists open, _, _; split; [done|]; split; [done|]; split; [by repeat constructor|done]].
  rewrite aset_ok by lia. cbn [mbind result_bind]. eexists _, _, _. split; [done|]. split; [apply (insert_owner uid open _ uid Ho); tauto|]. split; [by repeat constructor|].
  unfold sameUser. apply inj_le. rewrite <- (take_drop_middle open _ _ Ho) at 2. rewrite insert_take_drop by (by eapply lookup_lt_Some).
  rewrite !list.filter_app, !length_app, !filter_cons. rewrite decide_False by lia. rewrite decide_True by done. cbn. lia.
Qed.
Lemma daemonLoop_ok uid rid ahead learn image rest : forall i host open, 0 <= uid -> (forall k, open !! (i + k)%nat = rest !! k) ->
  let '(open', found, effs) := daemonOpenLoop inet_pton4 inet_pton6 gethostbyname ioctl devExists junk uid host image rid ahead learn i rest open in
  owners_kept uid open open' /\ Forall (effect_ok uid open) effs /\ sameUser uid open' <= sameUser uid open + 1
  /\ forall j, found = Some j -> open !! j = Some (-1) /\ open' !! j = Some uid.
Proof.
  induction rest as [|o rest IH]; intros i host open Hz Hr; cbn [daemonOpenLoop]; [split_and!; [done|constructor|lia|done]|].
  assert (open !! i = Some o) as Hi by (specialize (Hr 0%nat); by rewrite Nat.add_0_r in Hr).
  assert (forall k, open !! (S i + k)%nat = rest !! k) as Hr' by (intros k; specialize (Hr (S k)); by rewrite <- Nat.add_succ_comm in Hr).
  destruct (Z.eqb_spec o (-1)) as [->|]; cbn [negb]; [|by apply IH]. destruct (devExists i); cbn [negb]; [|split_and!; [done|constructor|lia|done]].
  destruct (dnbd3_get_ip _ _ _ _ _) as [[[] h] host']; cbn [negb]; [|split_and!; [done|constructor|lia|done]].
  destruct (0 <=? _).
  - split_and!; [apply (insert_owner uid open i (-1) Hi); tauto|by repeat constructor| |].
    + unfold sameUser. rewrite <- (take_drop_middle open _ _ Hi) at 2. rewrite insert_take_drop by (by eapply lookup_lt_Some).
      rewrite !list.filter_app, !length_app, !filter_cons. rewrite decide_True by done. rewrite decide_False by lia. cbn [length]. lia.
    + intros j [= <-]. split; [done|]. rewrite list_lookup_insert_eq; [done|by eapply lookup_lt_Some].
  - specialize (IH (S i) host' open Hz Hr'). destruct (daemonOpenLoop _ _ _ _ _ _ _ _ _ _ _ _ _ _ _) as [[open' found] effs]. destruct IH as (H1 & H2 & H3 & H4).
    split_and!; [done|by constructor|done|done].
Qed.
Lemma daemon_open_ok uid host image rid ahead learn open :
  0 <= uid -> let '(open', found, effs) := dnbd3_daemon_open inet_pton4 inet_pton6 gethostbyname ioctl devExists junk uid host image rid ahead learn open in
  owners_kept uid open open' /\ Forall (effect_ok uid open) effs /\ (uid <> 0 -> sameUser uid open' <= Z.max 2 (sameUser uid open))
  /\ forall j, found = Some j -> open !! j = Some (-1) /\ open' !! j = Some uid.
Proof.
  intros Hz. unfold dnbd3_daemon_open. destruct (Z.eqb_spec uid 0) as [E0|E0]; cbn [negb andb].
  - pose proof (daemonLoop_ok uid rid ahead learn image open 0 host open Hz (fun k => eq_refl)) as H. destruct (daemonOpenLoop _ _ _ _ _ _ _ _ _ _ _ _ _ _ _) as [[? ?] ?]. destruct H as (H1 & H2 & _ & H4). by split_and!.
  - destruct (Z.ltb_spec 1 (sameUser uid open)); [split_and!; [done|constructor|lia|done]|].
    pose proof (daemonLoop_ok uid rid ahead learn image open 0 host open Hz (fun k => eq_refl)) as H'. destruct (daemonOpenLoop _ _ _ _ _ _ _ _ _ _ _ _ _ _ _) as [[? ?] ?]. destruct H' as (H1 & H2 & H3 & H4). split_and!; [done|done|lia|done].
Qed.
End DaemonOwners.

(** What the outside contributes to a request: the resolver, the kernel, the device files and what is on the stack. *)
Record daemon_env := DaemonEnv {
  de_pton4 : string -> option (list Z);
  de_pton6 : string -> option (list Z);
  de_resolve : string -> option (Z * list Z);
  de_ioctl : string -> ioctl_cmd -> client_msg -> option Z;
  de_exists : nat -> bool;
  de_junk : client_msg;
}.
Definition daemonRequest (e : daemon_env) : Z -> Z -> list (ascii * string) -> list Z -> result (list Z * list daemon_effect) :=
  dnbd3_daemon_action (de_pton4 e) (de_pton6 e) (de_resolve e) (de_ioctl e) (de_exists e) (de_junk e).
Inductive daemon_reach (euid : Z) : list Z -> Prop :=
| daemon_start : daemon_reach euid (replicate MAX_DEVS (-1))
| daemon_next open e uid opts open' effs :
    daemon_reach euid open -> 0 <= uid -> daemonRequest e euid uid opts open = Ok (open', effs) -> daemon_reach euid open'.

Lemma daemon_action_ok e euid uid opts open :
  length open = MAX_DEVS -> 0 <= uid ->
  exists open' effs, daemonRequest e euid uid opts open = Ok (open', effs) /\ owners_kept uid open open' /\ Forall (effect_ok uid open) effs
    /\ (uid <> 0 -> sameUser uid open' <= Z.max 2 (sameUser uid open)).
Proof.
  intros Hl Hz. unfold daemonRequest, dnbd3_daemon_action. set (o := daemonOptions _ _).
  assert (forall effs, (forall i cmd m, DIoctl i cmd m ∉ effs) -> exists open' effs', Ok (open, effs) = Ok (A := list Z * list daemon_effect) (open', effs') /\ owners_kept uid open open' /\ Forall (effect_ok uid open) effs'
    /\ (uid <> 0 -> sameUser uid open' <= Z.max 2 (sameUser uid open))) as Hidle.
  { intros effs He. exists open, effs. split_and!; [done|done| |lia]. apply list.Forall_forall. intros x Hx. destruct x; try done. by apply He in Hx. }
  destruct (do_kill o).
  { apply Hidle. intros i cmd m. destruct (uid =? euid); rewrite !elem_of_cons, elem_of_nil; naive_solver. }
  assert (forall cmd dev host, cmd <> IOCTL_OPEN -> exists open' effs,
    ('(open, ok, calls) ← dnbd3_daemon_ioctl (de_pton4 e) (de_pton6 e) (de_resolve e) (de_ioctl e) uid dev cmd host open; Ok (open, calls ++ [DReply (if (ok : bool) then 0 else -1)])) = Ok (open', effs)
    /\ owners_kept uid open open' /\ Forall (effect_ok uid open) effs /\ (uid <> 0 -> sameUser uid open' <= Z.max 2 (sameUser uid open))) as Hm.
  { intros cmd dev host Hc. destruct (daemon_ioctl_ok (de_pton4 e) (de_pton6 e) (de_resolve e) (de_ioctl e) (de_junk e) uid dev cmd host open Hl Hz Hc) as (open' & ok & effs & -> & H1 & H2 & H3).
    cbn [mbind result_bind]. eexists _, _. split; [done|]. split; [done|]. split; [apply list.Forall_app; split; [done|by repeat constructor]|lia]. }
  assert (Hidle0 := Hidle [] ltac:(intros; apply not_elem_of_nil)).
  destruct (do_action o) as [[]|]; destruct (do_device o) as [dev|]; destruct (do_host o) as [host|]; destruct (do_image o) as [image|]; try exact Hidle0; try (by apply Hm).
  all: destruct (do_rid o <? 0); [exact Hidle0|].
  all: pose proof (daemon_open_ok (de_pton4 e) (de_pton6 e) (de_resolve e) (de_ioctl e) (de_exists e) (de_junk e) uid host image (do_rid o) (do_ahead o) (do_learn o) open Hz) as H;
    destruct (dnbd3_daemon_open _ _ _ _ _ _ _ _ _ _ _ _ _) as [[open' found] effs]; destruct H as (H1 & H2 & H3 & H4);
    eexists _, _; (split; [done|]); split_and!; [done|apply list.Forall_app; split; [done|]; destruct found; by repeat constructor|done].
Qed.
Definition table_inv (open : list Z) : Prop := length open = MAX_DEVS /\ forall u, 0 < u -> sameUser u open <= 2.
Lemma kept_count uid open open' u : owners_kept uid open open' -> u <> uid -> 0 <= u -> sameUser u open' = sameUser u open.
Proof.
  intros [Hl Hk] Hu Hz. unfold sameUser. f_equal. revert open' Hl Hk. induction open as [|a open IH]; intros open' Hl Hk; (destruct open' as [|b open']; [done || cbn in Hl; lia|]); [cbn in Hl; lia|].
  rewrite !filter_cons. assert (length (filter (fun o => o = u) open') = length (filter (fun o => o = u) open)) as E.
  { apply IH; [cbn in Hl; lia|]. intros i v Hv Hv0. exact (Hk (S i) v Hv Hv0). }
  specialize (Hk 0%nat u Hu Hz). cbn in Hk. destruct (decide (b = u)) as [->|], (decide (a = u)) as [->|]; cbn [length]; rewrite ?E; try done; exfalso; naive_solver.
Qed.
Lemma daemon_reach_inv euid open : daemon_reach euid open -> table_inv open.
Proof.
  induction 1 as [|open e uid opts open' effs _ [Hl Hq] Hz Ha].
  - split; [done|]. intros u Hu. unfold sameUser. enough (filter (fun o => o = u) (replicate MAX_DEVS (-1)) = []) as -> by (cbn; lia).
    generalize MAX_DEVS. induction n as [|n IH]; [done|]. cbn [replicate]. rewrite filter_cons_False by lia. done.
  - destruct (daemon_action_ok e euid uid opts open Hl Hz) as (o1 & e1 & E & Hk & _ & Hq'). rewrite E in Ha. injection Ha as <- <-. split; [destruct Hk as [-> _]; done|].
    intros u Hu. destruct (decide (u = uid)) as [->|Hne]; [specialize (Hq uid Hu); specialize (Hq' ltac:(lia)); lia|]. rewrite (kept_count uid open o1 u Hk) by lia. by apply Hq.
Qed.
(** C29. The daemon keeps users apart, by what its table of devices says: after any requests of any users, whatever the kernel and the resolver answer, a further
    request is handled without leaving the table; it opens only devices that the table gives to nobody, closes or changes only devices the table
    gives to the user who asks, leaves the entries of all others alone, and no user but root has more than two entries.  The table can lose a device that is open: adding a server to one
    clears its entry ([adding_a_server_loses_device]), so nothing is said about how many devices a user has really open. *)
Theorem daemon_keeps_users_apart euid open e uid opts :
  daemon_reach euid open -> 0 <= uid ->
  exists open' effs, daemonRequest e euid uid opts open = Ok (open', effs)
    /\ owners_kept uid open open' /\ Forall (effect_ok uid open) effs /\ forall u, 0 < u -> sameUser u open' <= 2.
Proof.
  intros Hr Hz. destruct (daemon_reach_inv euid open Hr) as [Hl _].
  destruct (daemon_action_ok e euid uid opts open Hl Hz) as (open' & effs & E & H1 & H2 & _). exists open', effs. split_and!; [done|done|done|].
  apply (daemon_reach_inv euid open'). by eapply daemon_next.
Qed.

(** What the daemon sends back, as the client reads it. *)
Definition answerOfEffects (effs : list daemon_effect) : send_end :=
  match list.last effs with
  | Some (DReply len) => daemonAnswer (Some len) None
  | Some (DReplyDev dev) => daemonAnswer (Some (Z.of_nat (String.length dev))) (Some (chars dev))
  | _ => SendFails
  end.
Lemma devName_short i : (10 <= String.length (devName i) <= 19)%nat.
Proof.
  unfold devName. assert (forall a b, String.length (a +:+ b) = (String.length a + String.length b)%nat) as Happ by (intros a b; induction a as [|c a IH]; [done|exact (f_equal S IH)]).
  rewrite Happ. assert (forall l, String.length (unchars l) = length l) as Hu by (intros l; induction l as [|c l IH]; [done|cbn; by rewrite IH]). rewrite Hu.
  assert (forall f n, 1 <= length (print_digits f n) <= S f)%nat as Hd.
  { induction f as [|f IH]; intros n; cbn [print_digits]; [cbn; lia|]. destruct (n <? 10); [cbn; lia|]. rewrite length_app. specialize (IH (n / 10)). cbn [length]. lia. }
  specialize (Hd 9%nat (Z.of_nat i)). change (String.length "/dev/dnbd") with 9%nat. lia.
Qed.
(** A user who gets a device sees its name: the client prints the name of a device that was free before and is the user's now. *)
Theorem open_prints_device e euid uid host image open rest :
  length open = MAX_DEVS -> 0 <= uid ->
  daemonRequest e euid uid [("h"%char, host); ("i"%char, image)] open = Ok rest ->
  match answerOfEffects rest.2 with
  | SendPrints text => exists i, text = chars (devName i) /\ open !! i = Some (-1) /\ rest.1 !! i = Some uid
  | SendExits code => code = 1
  | SendFails => False
  end.
Proof.
  intros Hl Hz. unfold daemonRequest, dnbd3_daemon_action. cbn [daemonOptions Ascii.eqb Bool.eqb do_kill do_action do_device do_host do_image do_rid do_ahead do_learn].
  change (0 <? 0) with false. cbv iota.
  pose proof (daemon_open_ok (de_pton4 e) (de_pton6 e) (de_resolve e) (de_ioctl e) (de_exists e) (de_junk e) uid host image 0 512 true open Hz) as H.
  destruct (dnbd3_daemon_open _ _ _ _ _ _ _ _ _ _ _ _ _) as [[open' found] effs]. destruct H as (_ & _ & _ & H). intros [= <-]. cbn [fst snd].
  unfold answerOfEffects. rewrite list.last_snoc. destruct found as [i|]; [|done].
  pose proof (devName_short i) as Hs. unfold daemonAnswer. assert (length (chars (devName i)) = String.length (devName i)) as El.
  { generalize (devName i). intros t. induction t as [|c t IH]; [done|cbn; by rewrite IH]. }
  destruct (Z.leb_spec (Z.of_nat (String.length (devName i))) 0); [lia|]. destruct (Z.ltb_spec SOCK_BUFFER (Z.of_nat (String.length (devName i)) + 4)) as [Hb|]; [unfold SOCK_BUFFER in Hb; lia|].
  rewrite El, Z.eqb_refl. exists i. split; [done|]. by apply H.
Qed.

(** ** Concrete runs *)

Definition demo_pton4 (s : string) : option (list Z) := if bool_decide (s = "1.2.3.4") then Some [1; 2; 3; 4] else None.
(** A kernel that opens devices from the first on for which [ok] holds. *)
Definition demo_env (ok : string -> bool) : daemon_env :=
  DaemonEnv demo_pton4 (fun _ => None) (fun _ => None) (fun dev cmd m => Some (if ok dev then 0 else -16)) (fun _ => true) noMsg.
Definition demo_open : list (ascii * string) := [("h"%char, "1.2.3.4:6666"); ("i"%char, "img")].
Definition after_open : list Z := match daemonRequest (demo_env (fun _ => true)) 0 1000 demo_open (replicate MAX_DEVS (-1)) with Ok (o, _) => o | _ => [] end.
Lemma daemon_keeps_users_apart_witness :
  exists open' effs, daemonRequest (demo_env (fun _ => true)) 0 1001 [("c"%char, ""); ("d"%char, "0")] after_open = Ok (open', effs)
    /\ owners_kept 1001 after_open open' /\ Forall (effect_ok 1001 after_open) effs /\ forall u, 0 < u -> sameUser u open' <= 2.
Proof.
  apply (daemon_keeps_users_apart 0); [|lia]. eapply (daemon_next 0 _ (demo_env (fun _ => true)) 1000 demo_open); [apply daemon_start|lia|vm_compute; reflexivity].
Defined.

(** ** Where the code falls short *)

(** Adding a server to a device takes the device away from its user: afterwards the daemon says that it is closed, and
    the user can never close it. *)
Lemma adding_a_server_loses_device :
  exists open', daemonRequest (demo_env (fun _ => true)) 0 1000 [("A"%char, "x"); ("h"%char, "1.2.3.4"); ("d"%char, "0")] after_open = Ok (open', [DIoctl 0 IOCTL_ADD_SRV
      (ClientMsg (Host ([1; 2; 3; 4] ++ replicate 12 0) (htons PORT) HOST_IP4 :: replicate 7 emptyHost) 0 None 0 0 0 false); DReply 0])
    /\ after_open !! 0%nat = Some 1000 /\ open' !! 0%nat = Some (-1)
    /\ daemonRequest (demo_env (fun _ => true)) 0 1000 [("c"%char, ""); ("d"%char, "0")] open' = Ok (open', [DReply 0]).
Proof. eexists. split_and!; vm_compute; reflexivity. Qed.
(** When the first free device cannot be opened, the next is tried with what [dnbd3_get_ip] left of the host: the port is gone. *)
Lemma second_device_loses_port :
  match daemonRequest (demo_env (fun dev => bool_decide (dev = "/dev/dnbd1"))) 0 1000 demo_open (replicate MAX_DEVS (-1)) with
  | Ok (_, [DIoctl 0 _ m0; DIoctl 1 _ m1; DReplyDev "/dev/dnbd1"]) =>
      head (host_port <$> cm_hosts m0) = Some (htons 6666) /\ head (host_port <$> cm_hosts m1) = Some (htons PORT)
  | _ => False
  end.
Proof. vm_compute. done. Qed.
(** The number of hosts in the message of the daemon is never set. *)
Lemma daemon_hosts_num_uninitialised :
  match daemonRequest (DaemonEnv demo_pton4 (fun _ => None) (fun _ => None) (fun _ _ _ => Some 0) (fun _ => true)
          (ClientMsg [] 77 None 0 0 0 false)) 0 1000 demo_open (replicate MAX_DEVS (-1)) with
  | Ok (_, DIoctl _ _ m :: _) => cm_hosts_num m = 77
  | _ => False
  end.
Proof. vm_compute. done. Qed.
(** Arguments that do not fit the buffer: the length that is sent is that of the whole text, so memory behind the
    buffer is sent. *)
Lemma long_arguments_overread : packArgs 0 [replicate 1200 "x"%char] = Fault OutOfBounds.
Proof. vm_compute. reflexivity. Qed.
(** A space behind the last host makes the list invalid. *)
Lemma trailing_space_rejected :
  dnbd3_get_resolved_hosts demo_pton4 (fun _ => None) (fun _ => None) 8 (chars "1.2.3.4 ") = None
  /\ dnbd3_get_resolved_hosts demo_pton4 (fun _ => None) (fun _ => None) 8 (chars " 1.2.3.4") = Some [Host ([1; 2; 3; 4] ++ replicate 12 0) (htons PORT) HOST_IP4].
Proof. vm_compute. done. Qed.
