(* ===== verification/Signals.v ===== *)
(** * Signals: waking up a thread through a file descriptor ([src/shared/fdsignal.inc/*.c], [fdsignal.h])

    There are three implementations, one of which is compiled: on an eventfd, and on a pipe whose
    two descriptors are packed into the pointer or allocated.  What the rest of the program relies on is
    the class [SignalImpl]; each implementation is an instance, and the theorems about
    counting are proved for the class. *)

From S2P Require Import Prelude.
Open Scope Z_scope.

Definition SIGNAL_OK : Z := 0.
Definition SIGNAL_TIMEOUT : Z := -2.
Definition SIGNAL_ERROR : Z := -1.

(** ** The system's objects *)

(** What a system call does: it returns, or it blocks. *)
Inductive sys (A : Type) := Returns (a : A) | Blocks.
Arguments Returns {A} a.
Arguments Blocks {A}.
(** An eventfd: its counter. *)
Record eventfd_t := Eventfd { ef_nonblock : bool; ef_count : Z }.
Definition EVENTFD_MAX : Z := 2 ^ 64 - 2.
(** [write] of the number one, and [read]; [None] is [EAGAIN]. *)
Definition efWrite (e : eventfd_t) : sys (option eventfd_t) :=
  if ef_count e <? EVENTFD_MAX then Returns (Some (Eventfd (ef_nonblock e) (ef_count e + 1)))
  else if ef_nonblock e then Returns None else Blocks.
Definition efRead (e : eventfd_t) : sys (option (eventfd_t * Z)) :=
  if 0 <? ef_count e then Returns (Some (Eventfd (ef_nonblock e) 0, ef_count e))
  else if ef_nonblock e then Returns None else Blocks.
(** A pipe: how many bytes are in it, of at most [pp_size]. *)
Record pipe_t := Pipe { pp_nonblock : bool; pp_size : Z; pp_bytes : Z }.
Definition ppWrite (p : pipe_t) : sys (option pipe_t) :=
  if pp_bytes p <? pp_size p then Returns (Some (Pipe (pp_nonblock p) (pp_size p) (pp_bytes p + 1)))
  else if pp_nonblock p then Returns None else Blocks.
Definition ppRead (n : Z) (p : pipe_t) : sys (option (pipe_t * Z)) :=
  if 0 <? pp_bytes p then Returns (Some (Pipe (pp_nonblock p) (pp_size p) (pp_bytes p - Z.min n (pp_bytes p)), Z.min n (pp_bytes p)))
  else if pp_nonblock p then Returns None else Blocks.

(** ** eventfd.c *)

(** The pointer is the descriptor plus one, so that a failure is the null pointer. *)
Definition ef_signal_new (fd : Z) : Z := fd + 1.
Definition ef_signal_getWaitFd (signal : Z) : Z := if signal =? 0 then -1 else i32 signal - 1.
(** The descriptors that are closed. *)
Definition ef_signal_close (signal : Z) : list Z := [i32 signal - 1].
(** Every operation on the null pointer is an error. *)
Definition withSignal {S} (signal : Z) (op : S -> sys (S * Z)) (s : S) : sys (S * Z) :=
  if signal =? 0 then Returns (s, SIGNAL_ERROR) else op s.
Definition ef_signal_call (e : eventfd_t) : sys (eventfd_t * Z) :=
  match efWrite e with
  | Returns (Some e) => Returns (e, SIGNAL_OK)
  | Returns None => Returns (e, SIGNAL_ERROR)
  | Blocks => Blocks
  end.
(** One [read] of [signal_clear]: the number it got, nothing for [EAGAIN], and whether another one follows. *)
Definition ef_signal_read (e : eventfd_t) : sys (eventfd_t * Z * bool) :=
  match efRead e with
  | Returns (Some (e, n)) => Returns (e, n, false)
  | Returns None => Returns (e, 0, false)
  | Blocks => Blocks
  end.
Definition ef_signal_clear (e : eventfd_t) : sys (eventfd_t * Z) :=
  match ef_signal_read e with
  | Returns (e, n, _) => Returns (e, i32 n)
  | Blocks => Blocks
  end.

(** ** pipe64.c and pipe_malloc.c *)

(** Two descriptors in one pointer, on a little endian machine; a pointer that was allocated is not null. *)
Definition p64_signal_new (fds : option (Z * Z)) : Z := match fds with None => 0 | Some (r, w) => u32 r + u32 w * 2 ^ 32 end.
Definition p64_read (signal : Z) : Z := i32 (signal mod 2 ^ 32).
Definition p64_write (signal : Z) : Z := i32 (signal / 2 ^ 32).
Definition p64_signal_getWaitFd (signal : Z) : Z := if signal =? 0 then -1 else p64_read signal.
Definition p64_signal_close (signal : Z) : list Z := [p64_read signal; p64_write signal].
Definition pp_signal_call (p : pipe_t) : sys (pipe_t * Z) :=
  match ppWrite p with
  | Returns (Some p) => Returns (p, SIGNAL_OK)
  | Returns None => Returns (p, SIGNAL_ERROR)
  | Blocks => Blocks
  end.
Definition THROWAWAY : Z := 100.
Definition pp_signal_read (p : pipe_t) : sys (pipe_t * Z * bool) :=
  match ppRead THROWAWAY p with
  | Returns (Some (p, ret)) => Returns (p, ret, ret =? THROWAWAY)
  | Returns None => Returns (p, 0, false)
  | Blocks => Blocks
  end.

(** The loop reads until it gets less than it asked for; every turn empties the pipe further, so its size is enough fuel. *)
Fixpoint clearLoop (fuel : nat) (total : Z) (p : pipe_t) : sys (pipe_t * Z) :=
  match fuel with
  | O => Blocks
  | S fuel =>
      match pp_signal_read p with
      | Returns (p, ret, more) => if (more : bool) then clearLoop fuel (total + ret) p else Returns (p, i32 (total + ret))
      | Blocks => Blocks
      end
  end.
Definition pp_signal_clear (p : pipe_t) : sys (pipe_t * Z) := clearLoop (S (Z.to_nat (pp_bytes p))) 0 p.

(** ** What the program relies on *)

(** [sig_pending] is how often the signal was called since it was last cleared. *)
Class SignalImpl (S : Type) := {
  sig_ok : S -> Prop;
  sig_pending : S -> Z;
  sig_cap : S -> Z;
  signal_call : S -> sys (S * Z);
  signal_read : S -> sys (S * Z * bool);
  signal_clear : S -> sys (S * Z);
  sig_range : forall s, sig_ok s -> 0 <= sig_pending s <= sig_cap s;
  sig_call_law : forall s, sig_ok s -> sig_pending s < sig_cap s ->
    exists s', signal_call s = Returns (s', SIGNAL_OK) /\ sig_ok s' /\ sig_pending s' = sig_pending s + 1 /\ sig_cap s' = sig_cap s;
  sig_full_law : forall s, sig_ok s -> sig_pending s = sig_cap s -> signal_call s = Returns (s, SIGNAL_ERROR);
  sig_read_law : forall s, sig_ok s ->
    exists s' n more, signal_read s = Returns (s', n, more) /\ sig_ok s' /\ sig_cap s' = sig_cap s
      /\ 0 <= n /\ sig_pending s' = sig_pending s - n /\ (if more then 0 < n else sig_pending s' = 0);
  sig_clear_law : forall s, sig_ok s ->
    exists s', signal_clear s = Returns (s', i32 (sig_pending s)) /\ sig_ok s' /\ sig_pending s' = 0 /\ sig_cap s' = sig_cap s;
}.
(** [poll]: ready when a call is pending; [None]: it waits.  A negative timeout waits for ever. *)
Definition signal_poll {S} `{SignalImpl S} (timeoutMs : Z) (pollFails : bool) (s : S) : option (Z + unit) :=
  if pollFails then Some (inl SIGNAL_ERROR)
  else if 0 <? sig_pending s then Some (inr ())
  else if 0 <=? timeoutMs then Some (inl SIGNAL_TIMEOUT)
  else None.
(** [signal_wait] with nobody else running between its system calls. *)
Definition signal_wait {S} `{SignalImpl S} (timeoutMs : Z) (pollFails : bool) (s : S) : option (sys (S * Z)) :=
  match signal_poll timeoutMs pollFails s with
  | Some (inl err) => Some (Returns (s, err))
  | Some (inr _) => Some (signal_clear s)
  | None => None
  end.

#[local] Obligation Tactic := idtac.
(** The signal is made with [signal_new]: nothing blocks. *)
#[export] Program Instance eventfd_signal : SignalImpl eventfd_t := {
  sig_ok e := ef_nonblock e = true /\ 0 <= ef_count e <= EVENTFD_MAX;
  sig_pending := ef_count;
  sig_cap _ := EVENTFD_MAX;
  signal_call := ef_signal_call;
  signal_read := ef_signal_read;
  signal_clear := ef_signal_clear;
}.
Next Obligation. intros s H. apply H. Qed.
Next Obligation.
  intros [nb n]. cbn. intros [-> Hn] Hlt. unfold ef_signal_call, efWrite. cbn. rewrite (proj2 (Z.ltb_lt _ _) Hlt). eexists. split; [done|]. cbn. split; [|done]. split; [done|lia].
Qed.
Next Obligation. intros [nb n]. cbn. intros [-> Hn] ->. unfold ef_signal_call, efWrite. cbn [ef_count ef_nonblock]. by rewrite Z.ltb_irrefl. Qed.
Next Obligation.
  intros [nb n]. cbn. intros [-> Hn]. unfold ef_signal_read, efRead. cbn [ef_count ef_nonblock]. destruct (Z.ltb_spec 0 n).
  - eexists _, _, _. split; [done|]. cbn. unfold EVENTFD_MAX in *. split_and!; lia || done.
  - assert (n = 0) as -> by lia. eexists _, _, _. split; [done|]. cbn. done.
Qed.
Next Obligation.
  intros [nb n]. cbn. intros [-> Hn]. unfold ef_signal_clear, ef_signal_read, efRead. cbn [ef_count ef_nonblock]. destruct (Z.ltb_spec 0 n).
  - eexists. split; [done|]. cbn. split; [|done]. split; [done|]. unfold EVENTFD_MAX. lia.
  - assert (n = 0) as -> by lia. eexists. split; [done|]. cbn. done.
Qed.

Lemma clearLoop_spec fuel : forall total p, pp_nonblock p = true -> 0 <= pp_bytes p <= pp_size p -> (Z.to_nat (pp_bytes p) < fuel)%nat ->
  clearLoop fuel total p = Returns (Pipe true (pp_size p) 0, i32 (total + pp_bytes p)).
Proof.
  induction fuel as [|fuel IH]; intros total [nb sz n] Hb Hn Hf; cbn [pp_nonblock pp_size pp_bytes] in *; [lia|]. subst nb. cbn [clearLoop]. unfold pp_signal_read, ppRead. cbn [pp_bytes pp_nonblock pp_size].
  destruct (Z.ltb_spec 0 n); [|assert (n = 0) as -> by lia; by rewrite Z.add_0_r].
  destruct (Z.eqb_spec (Z.min THROWAWAY n) THROWAWAY) as [E|E].
  - rewrite IH; cbn [pp_nonblock pp_size pp_bytes]; [do 2 f_equal; f_equal; lia|done|unfold THROWAWAY in *; lia|unfold THROWAWAY in *; lia].
  - assert (Z.min THROWAWAY n = n) as -> by lia. by rewrite Z.sub_diag.
Qed.
(** Both implementations on pipes. *)
#[export] Program Instance pipe_signal : SignalImpl pipe_t := {
  sig_ok p := pp_nonblock p = true /\ 0 <= pp_bytes p <= pp_size p;
  sig_pending := pp_bytes;
  sig_cap := pp_size;
  signal_call := pp_signal_call;
  signal_read := pp_signal_read;
  signal_clear := pp_signal_clear;
}.
Next Obligation. intros s H. apply H. Qed.
Next Obligation.
  intros [nb sz n]. cbn. intros [-> Hn] Hlt. unfold pp_signal_call, ppWrite. cbn. rewrite (proj2 (Z.ltb_lt _ _) Hlt). eexists. split; [done|]. cbn. split; [|done]. split; [done|lia].
Qed.
Next Obligation. intros [nb sz n]. cbn. intros [-> Hn] ->. unfold pp_signal_call, ppWrite. cbn [pp_bytes pp_nonblock pp_size]. by rewrite Z.ltb_irrefl. Qed.
Next Obligation.
  intros [nb sz n]. cbn. intros [-> Hn]. unfold pp_signal_read, ppRead. cbn [pp_bytes pp_nonblock pp_size]. destruct (Z.ltb_spec 0 n).
  - eexists _, _, _. split; [done|]. cbn. unfold THROWAWAY. split_and!; try lia; try done. destruct (Z.eqb_spec (Z.min 100 n) 100); lia.
  - assert (n = 0) as -> by lia. eexists _, _, _. split; [done|]. cbn. done.
Qed.
Next Obligation.
  intros p [Hb Hn]. exists (Pipe true (pp_size p) 0). split; [exact (clearLoop_spec _ 0 p Hb Hn (Nat.lt_succ_diag_r _))|].
  split; [|done]. split; [done|]. cbn. lia.
Qed.

(** ** No call is lost *)

(** Every system call is a step: while one thread is in the loop of [signal_clear], others may call the signal or read as well. *)
Section Counting.
Context {S : Type} `{SignalImpl S}.
Inductive sig_op :=
| OpCall                                      (* [signal_call] *)
| OpClear                                     (* a thread enters [signal_clear] *)
| OpPoll (timeoutMs : Z) (pollFails : bool)   (* [poll] of [signal_wait]; when it is ready the thread enters [signal_clear] *)
| OpRead (k : nat).                           (* the next [read] of the [k]-th thread in [signal_clear] *)
(** The signal, what each thread in [signal_clear] has read so far, and what [signal_clear] has returned in all. *)
Record signal_state := SignalState { ss_signal : S; ss_clearing : list Z; ss_seen : Z }.
(** [None]: the system call blocks. *)
Definition sigStep (op : sig_op) (st : signal_state) : option signal_state :=
  let '(SignalState s clearing seen) := st in
  match op with
  | OpCall => match signal_call s with Returns (s, _) => Some (SignalState s clearing seen) | Blocks => None end
  | OpClear => Some (SignalState s (clearing ++ [0]) seen)
  | OpPoll t fails => match signal_poll t fails s with Some (inr _) => Some (SignalState s (clearing ++ [0]) seen) | _ => Some st end
  | OpRead k =>
      match clearing !! k with
      | None => Some st
      | Some total =>
          match signal_read s with
          | Returns (s, n, true) => Some (SignalState s (<[k := total + n]> clearing) seen)
          | Returns (s, n, false) => Some (SignalState s (delete k clearing) (seen + i32 (total + n)))
          | Blocks => None
          end
      end
  end.
Fixpoint sigRun (ops : list sig_op) (st : signal_state) : option signal_state :=
  match ops with
  | [] => Some st
  | op :: ops => match sigStep op st with Some st => sigRun ops st | None => None end
  end.
Definition isCall (op : sig_op) : bool := match op with OpCall => true | _ => false end.
Definition callCount (ops : list sig_op) : Z := Z.of_nat (length (filter (fun op => isCall op = true) ops)).
Lemma callCount_cons op ops : callCount (op :: ops) = (if isCall op then 1 else 0) + callCount ops.
Proof. unfold callCount. rewrite filter_cons. destruct op; cbn [isCall]; case_decide; try done; cbn [length]; lia. Qed.
Lemma callCount_nonneg ops : 0 <= callCount ops.
Proof. unfold callCount. lia. Qed.
Definition inHands (clearing : list Z) : Z := zsum (fun n => n) clearing.
Lemma inHands_delete clearing k n : clearing !! k = Some n -> inHands (delete k clearing) = inHands clearing - n.
Proof.
  intros Hk. unfold inHands. rewrite delete_take_drop. rewrite <- (take_drop_middle clearing k n Hk) at 3. rewrite !zsum_app. cbn. lia.
Qed.

(** [calls] calls have been made, fewer than the signal can count. *)
Record counted (calls : Z) (st : signal_state) : Prop := Counted {
  ct_ok : sig_ok (ss_signal st);
  ct_nonneg : Forall (fun n => 0 <= n) (ss_clearing st);
  ct_sum : ss_seen st + inHands (ss_clearing st) + sig_pending (ss_signal st) = calls;
  ct_seen : 0 <= ss_seen st;
}.
Lemma inHands_nonneg l : Forall (fun n => 0 <= n) l -> 0 <= inHands l.
Proof. intros Hl. apply zsum_nonneg. intros i x Hx. rewrite list.Forall_lookup in Hl. eauto. Qed.
Lemma inHands_le l k n : Forall (fun n => 0 <= n) l -> l !! k = Some n -> n <= inHands l.
Proof.
  intros Hl Hk. pose proof (inHands_delete l k n Hk). assert (0 <= inHands (delete k l)); [|lia].
  apply inHands_nonneg. apply list.Forall_forall. intros x [j Hj]%list_elem_of_lookup. rewrite list_lookup_delete in Hj. rewrite list.Forall_lookup in Hl. eauto.
Qed.
Lemma enter_counted calls s clearing seen : counted calls (SignalState s clearing seen) -> counted calls (SignalState s (clearing ++ [0]) seen).
Proof.
  intros [H1 H2 H3 H4]. split; cbn in *; [done| | |done].
  - apply Forall_app. split; [done|]. by repeat constructor.
  - unfold inHands in *. rewrite zsum_app. cbn. lia.
Qed.
Lemma sigStep_counted op calls st :
  counted calls st -> calls + (if isCall op then 1 else 0) <= sig_cap (ss_signal st) -> calls + (if isCall op then 1 else 0) < 2 ^ 31 ->
  exists st', sigStep op st = Some st' /\ counted (calls + if isCall op then 1 else 0) st' /\ sig_cap (ss_signal st') = sig_cap (ss_signal st).
Proof.
  intros Hc Hcap Hi. destruct st as [s clearing seen]. cbn [ss_signal] in Hcap. pose proof Hc as [Hs Hnn Hsum Hseen]. cbn [ss_signal ss_clearing ss_seen] in *.
  pose proof (inHands_nonneg _ Hnn). destruct op as [| |t fails|k]; cbn [isCall sigStep] in *; rewrite ?Z.add_0_r in *.
  - destruct (sig_call_law s Hs) as (s1 & -> & Hs1 & Hp & Hcap1); [lia|]. eexists. split; [done|]. split; [split; cbn [ss_signal ss_clearing ss_seen]; [done|done|lia|done]|done].
  - eexists. split; [done|]. split; [by apply enter_counted|done].
  - destruct (signal_poll t fails s) as [[]|]; eexists; (split; [done|]); (split; [|done]); [done|by apply enter_counted|done].
  - destruct (clearing !! k) as [total|] eqn:Hk; [|by eexists]. pose proof (inHands_le _ _ _ Hnn Hk) as Hle. pose proof (sig_range s Hs) as Hr.
    assert (0 <= total) as Ht by (rewrite list.Forall_lookup in Hnn; eauto).
    destruct (sig_read_law s Hs) as (s1 & n & more & -> & Hs1 & Hcap1 & Hn & Hp & Hmore). pose proof (sig_range s1 Hs1) as Hr1. destruct more.
    + eexists. split; [done|]. split; [|done]. split; cbn [ss_signal ss_clearing ss_seen]; [done| | |done].
      * apply Forall_insert; [done|lia].
      * unfold inHands in *. rewrite (zsum_insert _ _ _ _ _ Hk). lia.
    + eexists. split; [done|]. split; [|done]. rewrite (i32_id (total + n)) by crange. split; cbn [ss_signal ss_clearing ss_seen]; [done| | |lia].
      * apply list.Forall_forall. intros x [j Hj]%list_elem_of_lookup. rewrite list_lookup_delete in Hj. rewrite list.Forall_lookup in Hnn. eauto.
      * rewrite (inHands_delete _ _ _ Hk). lia.
Qed.
Lemma sigRun_counted ops : forall calls st,
  counted calls st -> calls + callCount ops <= sig_cap (ss_signal st) -> calls + callCount ops < 2 ^ 31 ->
  exists st', sigRun ops st = Some st' /\ counted (calls + callCount ops) st'.
Proof.
  induction ops as [|op ops IH]; intros calls st Hc Hcap Hi; cbn [sigRun]; [exists st; by rewrite Z.add_0_r|].
  rewrite callCount_cons in *. pose proof (callCount_nonneg ops). destruct (sigStep_counted op calls st Hc) as (st1 & -> & Hc1 & Hcap1); [lia|lia|].
  destruct (IH _ st1 Hc1) as (st' & -> & Hc'); [rewrite Hcap1; lia|lia|]. exists st'. split; [done|]. by rewrite Z.add_assoc.
Qed.
(** C37. Threads call, clear and wait for a signal that was made with [signal_new] (its descriptors do not block), on an eventfd or a pipe,
    with fewer calls in all than an [int] counts and than the eventfd or pipe can hold.  Their system calls come in any order: no one blocks,
    and the numbers that clearing and waiting have returned, together with what the threads still in the loop of [signal_clear] have read,
    add up to the number of calls, up to those that are pending.  As long as a call is pending [poll] is ready, and waiting without
    interruption returns the number of pending calls. *)
Theorem signals_counted ops s :
  sig_ok s -> sig_pending s = 0 -> callCount ops <= sig_cap s -> callCount ops < 2 ^ 31 ->
  exists s' clearing seen, sigRun ops (SignalState s [] 0) = Some (SignalState s' clearing seen)
    /\ seen + inHands clearing + sig_pending s' = callCount ops /\ 0 <= seen /\ Forall (fun n => 0 <= n) clearing
    /\ (0 < sig_pending s' -> forall t, exists s'', signal_wait t false s' = Some (Returns (s'', sig_pending s')) /\ sig_pending s'' = 0).
Proof.
  intros Hs Hp Hc Hi. destruct (sigRun_counted ops 0 (SignalState s [] 0)) as ([s' clearing seen] & E & [Hs' Hnn Hsum Hseen]); [|done|done|].
  { split; cbn; [done|constructor|unfold inHands; cbn; lia|done]. }
  cbn [ss_signal ss_clearing ss_seen] in *. exists s', clearing, seen. rewrite Z.add_0_l in Hsum. split_and!; [done|done|done|done|]. intros Hpos t. unfold signal_wait, signal_poll.
  rewrite (proj2 (Z.ltb_lt _ _) Hpos). destruct (sig_clear_law s' Hs') as (s'' & -> & _ & H0 & _). exists s''. split; [|done]. do 3 f_equal. apply i32_id.
  pose proof (inHands_nonneg _ Hnn). crange.
Qed.
End Counting.
#[global] Arguments SignalState {S} _ _ _.
Definition demo_ops : list sig_op := [OpCall; OpPoll 0 false; OpCall; OpClear; OpRead 1; OpCall; OpRead 0; OpCall; OpPoll (-1) false].
Lemma signals_counted_witness :
  (exists s' clearing seen, sigRun demo_ops (SignalState (Eventfd true 0) [] 0) = Some (SignalState s' clearing seen) /\ seen = 3 /\ seen + inHands clearing + sig_pending s' = 4)
  /\ exists s' clearing seen, sigRun demo_ops (SignalState (Pipe true 65536 0) [] 0) = Some (SignalState s' clearing seen) /\ seen + inHands clearing + sig_pending s' = 4.
Proof.
  split.
  - destruct (signals_counted demo_ops (Eventfd true 0)) as (s' & clearing & seen & H1 & H2 & _);
      [split; [reflexivity|vm_compute; split; congruence]|reflexivity|vm_compute; congruence|reflexivity|].
    exists s', clearing, seen. split; [exact H1|]. split; [|exact H2]. vm_compute in H1. injection H1 as <- <- <-. reflexivity.
  - destruct (signals_counted demo_ops (Pipe true 65536 0)) as (s' & clearing & seen & H1 & H2 & _);
      [split; [reflexivity|vm_compute; split; congruence]|reflexivity|vm_compute; congruence|reflexivity|exists s', clearing, seen; split; [exact H1|exact H2]].
Defined.

(** ** Pointers that hold descriptors *)

(** The descriptors come back out of the pointer, and the pointer is null only for a failure: a pipe never has descriptor 0
    at both ends. *)
Lemma p64_roundtrip r w : 0 <= r < 2 ^ 31 -> 0 <= w < 2 ^ 31 -> r <> w ->
  let signal := p64_signal_new (Some (r, w)) in signal <> 0 /\ p64_read signal = r /\ p64_write signal = w /\ p64_signal_getWaitFd signal = r
    /\ p64_signal_close signal = [r; w] /\ forall S (op : S -> sys (S * Z)) s, withSignal signal op s = op s.
Proof.
  intros Hr Hw Hne signal. unfold signal, p64_signal_new, p64_signal_getWaitFd, p64_signal_close, withSignal, p64_read, p64_write. rewrite !u32_id by crange.
  assert ((r + w * 2 ^ 32) mod 2 ^ 32 = r) as -> by (rewrite Z.mod_add by lia; apply Z.mod_small; lia).
  assert ((r + w * 2 ^ 32) / 2 ^ 32 = w) as -> by (rewrite Z.div_add, Z.div_small by lia; lia).
  rewrite !i32_id by crange. destruct (Z.eqb_spec (r + w * 2 ^ 32) 0); [lia|]. split_and!; try done; lia.
Qed.
Lemma ef_roundtrip fd : 0 <= fd < 2 ^ 31 - 1 ->
  let signal := ef_signal_new fd in ef_signal_getWaitFd signal = fd /\ ef_signal_close signal = [fd] /\ forall S (op : S -> sys (S * Z)) s, withSignal signal op s = op s.
Proof.
  intros Hf signal. unfold signal, ef_signal_getWaitFd, ef_signal_close, withSignal, ef_signal_new. rewrite (proj2 (Z.eqb_neq _ _)) by lia. rewrite i32_id by crange.
  split_and!; [lia|f_equal; lia|done].
Qed.
(** A failed [eventfd] gives the null pointer, on which every operation is an error. *)
Lemma ef_failed_is_null S (op : S -> sys (S * Z)) s : withSignal (ef_signal_new (-1)) op s = Returns (s, SIGNAL_ERROR) /\ ef_signal_getWaitFd (ef_signal_new (-1)) = -1.
Proof. done. Qed.

(** ** Where the code falls short *)

(** A signal of [signal_newBlocking] on a pipe: after exactly a hundred calls, clearing it reads a hundred bytes, tries to read more
    and blocks. *)
Lemma blocking_pipe_clear_blocks : pp_signal_clear (Pipe false 65536 100) = Blocks /\ pp_signal_clear (Pipe false 65536 99) = Returns (Pipe false 65536 0, 99).
Proof. vm_compute. done. Qed.
(** A signal on a pipe that nobody clears: when the pipe is full, calling it is an error although the signal is pending. *)
Lemma full_pipe_is_error : pp_signal_call (Pipe true 65536 65536) = Returns (Pipe true 65536 65536, SIGNAL_ERROR).
Proof. vm_compute. reflexivity. Qed.
