(* ===== verification/Log.v ===== *)
(** * Log: writing and reading the log ([src/shared/log.c], [log.h])

    A message is formatted into a buffer of [LINE_LEN] bytes, which the model keeps as an array, so that every
    access outside of it is a fault.  The time stamp, the formatted text and what the system calls do are arguments. *)

From Stdlib Require Import Ascii.
From S2P Require Import Prelude Helper FileUtil.
Open Scope Z_scope.

Definition LOG_ERROR : Z := 1.
Definition LOG_WARNING : Z := 2.
Definition LOG_MINOR : Z := 4.
Definition LOG_INFO : Z := 8.
Definition LOG_DEBUG1 : Z := 16.
Definition LOG_DEBUG2 : Z := 32.
Definition LINE_LEN : Z := 800.

(** [lg_file] is the path, [lg_fd] the descriptor, -1 when there is none. *)
Record log_state := LogState { lg_maskFile : Z; lg_maskCon : Z; lg_file : option string; lg_fd : Z; lg_stamps : bool; lg_stderr : bool }.
Definition log_init : log_state := LogState 31 15 None (-1) false false.
Definition log_hasMask (mask : Z) (s : log_state) : bool := ((lg_maskFile s .| lg_maskCon s) .& mask) =? mask.
Definition log_setFileMask (mask : Z) (s : log_state) : log_state := LogState mask (lg_maskCon s) (lg_file s) (lg_fd s) (lg_stamps s) (lg_stderr s).
Definition log_setConsoleMask (mask : Z) (s : log_state) : log_state := LogState (lg_maskFile s) mask (lg_file s) (lg_fd s) (lg_stamps s) (lg_stderr s).
Definition log_setConsoleTimestamps (on : bool) (s : log_state) : log_state := LogState (lg_maskFile s) (lg_maskCon s) (lg_file s) (lg_fd s) on (lg_stderr s).
Inductive out_stream := Stdout | Stderr | OtherStream.
Definition EINVAL : Z := 22.
Definition log_setConsoleOutputStream (o : out_stream) (s : log_state) : log_state * Z :=
  match o with
  | OtherStream => (s, - EINVAL)
  | _ => (LogState (lg_maskFile s) (lg_maskCon s) (lg_file s) (lg_fd s) (lg_stamps s) (match o with Stderr => true | _ => false end), 0)
  end.
(** [fd] is what [open] returns; the descriptors that are closed. *)
Definition log_openLogFile (path : option string) (fd : Z) (s : log_state) : log_state * bool * list Z :=
  let closed := if 0 <=? lg_fd s then [lg_fd s] else [] in
  match path, lg_file s with
  | None, None => (s, 0 <=? lg_fd s, closed)
  | _, _ =>
      let file := match path with Some p => Some p | None => lg_file s end in
      (LogState (lg_maskFile s) (lg_maskCon s) file fd (lg_stamps s) (lg_stderr s), 0 <=? fd, closed)
  end.

(** ** A line *)

Definition levelWord (level : Z) : list ascii :=
  if level =? LOG_ERROR then chars "ERROR" else if level =? LOG_WARNING then chars "WARNING" else if level =? LOG_MINOR then chars "Warning"
  else if level =? LOG_INFO then chars "Info" else if level =? LOG_DEBUG1 then chars "DEBUG1" else if level =? LOG_DEBUG2 then chars "DEBUG2" else chars "!?!?!?".
(** Characters put into the buffer from an index on. *)
Fixpoint putChars (at_ : Z) (t : list ascii) (buffer : list ascii) : result (list ascii) :=
  match t with
  | [] => Ok buffer
  | c :: t => buffer ← aset buffer at_ c; putChars (at_ + 1) t buffer
  end.
Definition NULL_CHAR : ascii := "000".
(** [writeLevel]: the word with its terminator, the colon over the terminator and a space behind it. *)
Definition writeLevel (at_ level : Z) (buffer : list ascii) : result (list ascii * Z) :=
  let n := Z.of_nat (length (levelWord level)) in
  buffer ← putChars at_ (levelWord level ++ [NULL_CHAR]) buffer;
  buffer ← aset buffer (at_ + n) ":"%char;
  buffer ← aset buffer (at_ + n + 1) " "%char;
  Ok (buffer, n + 2).
(** [vsnprintf] of a text into [room] bytes. *)
Definition printInto (at_ room : Z) (text buffer : list ascii) : result (list ascii) :=
  putChars at_ (take (Z.to_nat (room - 1)) text ++ [NULL_CHAR]) buffer.
(** Cut the line and end it; the buffer and the length of the line. *)
Definition endLine (offset : Z) (buffer : list ascii) : result (list ascii * Z) :=
  '(buffer, offset) ← (if LINE_LEN <=? offset + 1 then b ← aset buffer (LINE_LEN - 2) NULL_CHAR; Ok (b, LINE_LEN - 2) else Ok (buffer, offset));
  last ← aget buffer (offset - 1);
  if Ascii.eqb last LF then Ok (buffer, offset)
  else
    b ← aset buffer offset LF;
    b ← aset b (offset + 1) NULL_CHAR;
    Ok (b, offset + 1).
(** [text] is the whole message; [vsnprintf] returns its length, or fails, for one thing if that is no [int]. *)
Definition formatted (text : option (list ascii)) : option (list ascii) :=
  match text with Some t => if Z.of_nat (length t) <=? 2 ^ 31 - 1 then Some t else None | None => None end.
(** What goes to the file and what to the console; [stamp] is what [strftime] prints, [text] the formatted message.  [buffer] is
    the array with whatever is in it. *)
Definition logadd (mask : Z) (stamp : list ascii) (text : option (list ascii)) (buffer : list ascii) (s : log_state) : result (option (list ascii) * option (list ascii)) :=
  if ((lg_maskFile s .| lg_maskCon s) .& mask) =? 0 then Ok (None, None)
  else
    let toFile := negb ((lg_maskFile s .& mask) =? 0) in
    let toOutStream := negb ((lg_maskCon s .& mask) =? 0) in
    let stamped := toFile || (toOutStream && lg_stamps s) in
    buffer ← (if stamped then putChars 0 (stamp ++ [NULL_CHAR]) buffer else Ok buffer);
    let start := if stamped then Z.of_nat (length stamp) else 0 in
    '(buffer, n) ← writeLevel start mask buffer;
    let offset := start + n in
    match formatted text with
    | None => Ok (None, None)
    | Some text =>
        buffer ← printInto offset (LINE_LEN - offset) text buffer;
        '(buffer, offset) ← endLine (offset + Z.of_nat (length text)) buffer;
        let line := take (Z.to_nat offset) buffer in
        Ok (if toFile && (0 <=? lg_fd s) then Some line else None,
            if toOutStream then Some (if lg_stamps s then line else drop (Z.to_nat start) line) else None)
    end.

(** Writing the line to the file: what each [write] does. *)
Inductive write_result := Wrote (n : Z) | WriteIntr | WriteFailed.
Fixpoint logWriteLoop (line : list ascii) (writes : list write_result) (written : list ascii) : list ascii :=
  if bool_decide (line = []) then written
  else
    match writes with
    | [] => written
    | Wrote n :: writes => logWriteLoop (drop (Z.to_nat n) line) writes (written ++ take (Z.to_nat n) line)
    | WriteIntr :: writes => logWriteLoop line writes written
    | WriteFailed :: _ => written
    end.

(** ** Reading the end of the log *)

(** [content] is the file; [None] when it cannot be opened.  [buffer] has [size] bytes; [readFails] is a failure of [pread]. *)
Definition log_fetch (content : option (list ascii)) (readFails : bool) (size : Z) (buffer : list ascii) (s : log_state) : result (list ascii * Z) :=
  if bool_decide (lg_file s = None) || (size <=? 1) then Ok (buffer, -1)
  else
    match content with
    | None => Ok (buffer, -1)
    | Some content =>
        let off := Z.of_nat (length content) in
        let off := if size <=? off then off - size else 0 in
        let got := if readFails then [] else take (Z.to_nat (size - 1)) (drop (Z.to_nat off) content) in
        let ret := if readFails then -1 else Z.of_nat (length got) in
        buffer ← putChars 0 got buffer;
        buffer ← aset buffer ret NULL_CHAR;
        Ok (buffer, ret)
    end.

(** ** Lines stay inside the buffer *)

(** The buffer has [n] bytes and begins with [p]. *)
Definition startsIn (n : Z) (b p : list ascii) : Prop := Z.of_nat (length b) = n /\ take (length p) b = p.
Abbreviation starts := (startsIn LINE_LEN).
Lemma starts_app n b p q : startsIn n b (p ++ q) -> startsIn n b p.
Proof. intros [Hl H]. split; [done|]. rewrite <- (take_app_length p q) at 2. rewrite <- H, take_take, length_app. f_equal. lia. Qed.
Lemma starts_set n b p c : startsIn n b p -> Z.of_nat (length p) < n -> exists b', aset b (Z.of_nat (length p)) c = Ok b' /\ startsIn n b' (p ++ [c]).
Proof.
  intros [Hl H] Hp. rewrite aset_ok by lia. rewrite Nat2Z.id. eexists. split; [done|]. split; [by rewrite length_insert|].
  rewrite length_app. cbn [length]. rewrite Nat.add_1_r. rewrite (take_S_r _ _ c) by (rewrite list_lookup_insert_eq; [done|lia]). rewrite take_insert_ge by lia. by rewrite H.
Qed.
Lemma starts_put n t : forall b p, startsIn n b p -> Z.of_nat (length (p ++ t)) <= n -> exists b', putChars (Z.of_nat (length p)) t b = Ok b' /\ startsIn n b' (p ++ t).
Proof.
  induction t as [|c t IH]; intros b p Hs Hl; cbn [putChars]; [exists b; by rewrite app_nil_r|].
  rewrite length_app in Hl. cbn [length] in Hl. destruct (starts_set _ b p c Hs) as (b1 & -> & Hs1); [lia|]. cbn [mbind result_bind].
  replace (Z.of_nat (length p) + 1) with (Z.of_nat (length (p ++ [c]))) by (rewrite length_app; cbn; lia).
  destruct (IH b1 (p ++ [c]) Hs1) as (b2 & -> & Hs2); [rewrite !length_app; cbn [length]; lia|]. exists b2. by rewrite <- app_assoc in Hs2.
Qed.
Lemma levelWord_length level : (4 <= length (levelWord level) <= 7)%nat.
Proof. unfold levelWord. repeat case_match; cbn; lia. Qed.
Definition levelText (level : Z) : list ascii := levelWord level ++ chars ": ".
Lemma writeLevel_ok b p level : starts b p -> Z.of_nat (length p) <= 700 ->
  exists b', writeLevel (Z.of_nat (length p)) level b = Ok (b', Z.of_nat (length (levelText level))) /\ starts b' (p ++ levelText level).
Proof.
  intros Hs Hp. pose proof (levelWord_length level) as Hw. unfold writeLevel, levelText. set (w := levelWord level) in *. clearbody w. unfold LINE_LEN in *.
  destruct (starts_put _ (w ++ [NULL_CHAR]) b p Hs) as (b1 & -> & Hs1); [rewrite !length_app; unfold LINE_LEN; cbn; lia|]. cbn [mbind result_bind].
  rewrite app_assoc in Hs1. apply starts_app in Hs1. replace (Z.of_nat (length p) + Z.of_nat (length w)) with (Z.of_nat (length (p ++ w))) by (rewrite length_app; lia).
  destruct (starts_set _ b1 (p ++ w) ":"%char Hs1) as (b2 & -> & Hs2); [rewrite length_app; unfold LINE_LEN; lia|]. cbn [mbind result_bind].
  replace (Z.of_nat (length (p ++ w)) + 1) with (Z.of_nat (length ((p ++ w) ++ [":"%char]))) by (rewrite (length_app (p ++ w)); cbn; lia).
  destruct (starts_set _ b2 _ " "%char Hs2) as (b3 & -> & Hs3); [rewrite !length_app; unfold LINE_LEN; cbn; lia|]. cbn [mbind result_bind].
  exists b3. split; [do 2 f_equal; rewrite length_app; cbn; lia|]. by rewrite <- !app_assoc in Hs3.
Qed.
(** A line as it is logged: cut, and a line feed added if it does not end in one. *)
Definition MAX_LINE : nat := 798.
Definition lineOf (t : list ascii) : list ascii :=
  let l := take MAX_LINE t in if bool_decide (list.last l = Some LF) then l else l ++ [LF].
Lemma endLine_ok b l : starts b l -> (1 <= length l <= MAX_LINE)%nat ->
  exists b' , (last ← aget b (Z.of_nat (length l) - 1);
    if Ascii.eqb last LF then Ok (b, Z.of_nat (length l))
    else b ← aset b (Z.of_nat (length l)) LF; b ← aset b (Z.of_nat (length l) + 1) NULL_CHAR; Ok (b, Z.of_nat (length l) + 1))
    = Ok (b', Z.of_nat (length (if bool_decide (list.last l = Some LF) then l else l ++ [LF])))
    /\ starts b' (if bool_decide (list.last l = Some LF) then l else l ++ [LF]).
Proof.
  unfold MAX_LINE. intros Hs Hl. destruct (list.last l) as [c|] eqn:Elast; [|apply last_None in Elast; subst; cbn in Hl; lia].
  assert (aget b (Z.of_nat (length l) - 1) = Ok c) as ->.
  { apply aget_ok; [lia|]. replace (Z.to_nat (Z.of_nat (length l) - 1)) with (pred (length l)) by lia. rewrite last_lookup in Elast. rewrite <- Elast. destruct Hs as [_ Hs]. rewrite <- Hs at 2 3.
    rewrite length_take. replace (length l `min` length b)%nat with (length l) by (apply (f_equal length) in Hs; rewrite length_take in Hs; lia). by rewrite lookup_take_lt by lia. }
  cbn [mbind result_bind]. destruct (Ascii.eqb_spec c LF) as [->|Hc].
  - rewrite bool_decide_eq_true_2 by done. by exists b.
  - rewrite bool_decide_eq_false_2 by congruence. destruct (starts_set _ b l LF Hs) as (b1 & -> & Hs1); [unfold LINE_LEN; lia|]. cbn [mbind result_bind].
    replace (Z.of_nat (length l) + 1) with (Z.of_nat (length (l ++ [LF]))) by (rewrite length_app; cbn; lia).
    destruct (starts_set _ b1 _ NULL_CHAR Hs1) as (b2 & -> & Hs2); [rewrite length_app; unfold LINE_LEN; cbn; lia|]. cbn [mbind result_bind]. exists b2. split; [done|by apply starts_app in Hs2].
Qed.
Lemma finish_ok b prefix text :
  starts b prefix -> (1 <= length prefix <= 750)%nat ->
  exists b', (b ← printInto (Z.of_nat (length prefix)) (LINE_LEN - Z.of_nat (length prefix)) text b; endLine (Z.of_nat (length prefix) + Z.of_nat (length text)) b)
    = Ok (b', Z.of_nat (length (lineOf (prefix ++ text)))) /\ starts b' (lineOf (prefix ++ text)).
Proof.
  intros Hs Hp. unfold printInto. set (n := Z.to_nat (LINE_LEN - Z.of_nat (length prefix) - 1)). assert (n = 799 - length prefix)%nat as En by (unfold n, LINE_LEN; lia).
  destruct (starts_put _ (take n text ++ [NULL_CHAR]) b prefix Hs) as (b1 & -> & Hs1).
  { rewrite !length_app, length_take. unfold LINE_LEN. cbn [length]. lia. }
  cbn [mbind result_bind]. rewrite app_assoc in Hs1. apply starts_app in Hs1. clearbody n. unfold endLine, lineOf.
  assert (exists b2, (if LINE_LEN <=? Z.of_nat (length prefix) + Z.of_nat (length text) + 1 then b ← aset b1 (LINE_LEN - 2) NULL_CHAR; Ok (b, LINE_LEN - 2) else Ok (b1, Z.of_nat (length prefix) + Z.of_nat (length text)))
    = Ok (b2, Z.of_nat (length (take MAX_LINE (prefix ++ text)))) /\ starts b2 (take MAX_LINE (prefix ++ text))) as (b2 & -> & Hs2).
  { destruct (Z.leb_spec LINE_LEN (Z.of_nat (length prefix) + Z.of_nat (length text) + 1)) as [Hc|Hc]; unfold LINE_LEN in Hc.
    - assert (take MAX_LINE (prefix ++ text) = take MAX_LINE (prefix ++ take n text)) as ->.
      { rewrite !take_app, take_take. do 2 f_equal. unfold MAX_LINE. lia. }
      assert (length (take MAX_LINE (prefix ++ take n text)) = 798)%nat as El by (rewrite length_take, length_app, length_take; unfold MAX_LINE; lia).
      assert (starts b1 (take MAX_LINE (prefix ++ take n text))) as Hs2. { apply (starts_app _ _ _ (drop MAX_LINE (prefix ++ take n text))). by rewrite take_drop. }
      destruct (starts_set _ b1 _ NULL_CHAR Hs2) as (b3 & E3 & Hs3); [rewrite El; unfold LINE_LEN; lia|]. rewrite El in E3. change (LINE_LEN - 2) with (Z.of_nat 798). rewrite E3. cbn [mbind result_bind].
      exists b3. split; [by rewrite El|by apply starts_app in Hs3].
    - rewrite (take_ge text) in Hs1 by lia. rewrite take_ge by (rewrite length_app; unfold MAX_LINE; lia). exists b1. split; [by rewrite length_app, Nat2Z.inj_add|done]. }
  cbn [mbind result_bind]. destruct (endLine_ok b2 _ Hs2) as (b3 & H3 & Hs3); [rewrite length_take, length_app; unfold MAX_LINE; lia|]. exists b3. by split.
Qed.
(** C38. A message of any length, with a time stamp of at most 500 characters, is formatted without leaving the buffer.  If
    [vsnprintf] fails (it does for more than 2^31 - 1 characters) nothing is logged.  Otherwise what is logged is the time stamp, the
    level and the text, cut at 798 characters, with a line feed added if the last of these characters is not one; the
    console sees the stamp only if it is told to, and nothing is written to a destination whose mask does not have the level or to
    a file that is not open. *)
Theorem logadd_line mask stamp text buffer s :
  Z.of_nat (length buffer) = LINE_LEN -> (length stamp <= 500)%nat ->
  let toFile := negb ((lg_maskFile s .& mask) =? 0) in let toCon := negb ((lg_maskCon s .& mask) =? 0) in
  let stamp' := if toFile || (toCon && lg_stamps s) then stamp else [] in
  logadd mask stamp text buffer s =
  Ok match formatted text with
     | None => (None, None)
     | Some text =>
         let line := lineOf (stamp' ++ levelText mask ++ text) in
         (if toFile && (0 <=? lg_fd s) then Some line else None, if toCon then Some (if lg_stamps s then line else drop (length stamp') line) else None)
     end.
Proof.
  intros Hb Hst toFile toCon stamp'. unfold logadd. fold toFile toCon.
  destruct (Z.eqb_spec ((lg_maskFile s .| lg_maskCon s) .& mask) 0) as [E|E].
  { rewrite Z.land_lor_distr_l in E. apply Z.lor_eq_0_iff in E as [E1 E2]. unfold toFile, toCon. rewrite E1, E2. by destruct (formatted text). }
  assert (exists b1, (if toFile || (toCon && lg_stamps s) then putChars 0 (stamp ++ [NULL_CHAR]) buffer else Ok buffer) = Ok b1 /\ starts b1 stamp') as (b1 & -> & Hs1).
  { unfold stamp'. destruct (toFile || (toCon && lg_stamps s)); [|by exists buffer].
    destruct (starts_put LINE_LEN (stamp ++ [NULL_CHAR]) buffer []) as (b1 & E1 & Hs1); [exact (conj Hb eq_refl)|cbn [app]; rewrite length_app; unfold LINE_LEN; cbn; lia|]. exists b1. split; [exact E1|by apply (starts_app _ b1 stamp [NULL_CHAR])]. }
  cbn [mbind result_bind]. assert ((if toFile || (toCon && lg_stamps s) then Z.of_nat (length stamp) else 0) = Z.of_nat (length stamp')) as -> by (unfold stamp'; by destruct (_ || _)).
  assert (length stamp' <= 500)%nat as Hst' by (unfold stamp'; destruct (_ || _); cbn; lia). clearbody stamp'.
  destruct (writeLevel_ok b1 stamp' mask Hs1) as (b2 & -> & Hs2); [lia|]. cbn [mbind result_bind]. pose proof (levelWord_length mask) as Hw.
  destruct (formatted text) as [t|]; [|done]. cbn zeta. set (line := lineOf _).
  assert (length (levelText mask) = length (levelWord mask) + 2)%nat as Hlt by (unfold levelText; rewrite length_app; done).
  destruct (finish_ok b2 (stamp' ++ levelText mask) t Hs2) as (b3 & H3 & Hs3); [rewrite length_app; lia|].
  rewrite length_app, Nat2Z.inj_add in H3. destruct (printInto _ _ t b2) as [b2'|f]; cbn [mbind result_bind] in *; [|done]. rewrite H3. cbn [mbind result_bind].
  rewrite <- app_assoc in *. fold line in H3, Hs3 |- *. rewrite !Nat2Z.id. destruct Hs3 as [_ ->]. done.
Qed.
Lemma logadd_line_witness :
  logadd LOG_INFO (chars "[01.02. 03:04:05] ") (Some (chars "Server is ready.")) (replicate 800 "x"%char) log_init =
  Ok (None, Some (chars "Info: Server is ready." ++ [LF])).
Proof. exact (logadd_line LOG_INFO (chars "[01.02. 03:04:05] ") (Some (chars "Server is ready.")) (replicate 800 "x"%char) log_init eq_refl ltac:(cbn; lia)). Defined.

(** The log file is open only if its path is known, so that it can be opened again. *)
Definition log_ok (s : log_state) : Prop := 0 <= lg_fd s -> lg_file s <> None.
Lemma log_open_ok path fd s : log_ok s ->
  let '(s', ok, closed) := log_openLogFile path fd s in log_ok s' /\ (ok = true <-> 0 <= lg_fd s') /\ (forall c, c ∈ closed -> c = lg_fd s /\ 0 <= c) /\ (lg_fd s' = lg_fd s /\ path = None -> lg_fd s = fd \/ lg_fd s < 0).
Proof.
  intros Hs. unfold log_openLogFile. assert (forall c, c ∈ (if 0 <=? lg_fd s then [lg_fd s] else []) -> c = lg_fd s /\ 0 <= c) as Hc.
  { intros c. destruct (Z.leb_spec 0 (lg_fd s)); [intros ->%list_elem_of_singleton; done|intros []%elem_of_nil]. }
  destruct path as [p|]; [split_and!; [done|by cbn; rewrite Z.leb_le|done|by intros [_ ?]]|]. destruct (lg_file s) as [f|] eqn:Ef.
  - split_and!; [done|by cbn; rewrite Z.leb_le|done|]. intros [E _]. left. by cbn in E.
  - split_and!; [done|by rewrite Z.leb_le|done|]. intros _. right. destruct (Z.le_gt_cases 0 (lg_fd s)) as [H|]; [|done]. by apply Hs in H.
Qed.
(** A line that is written with any number of interrupted and partial writes arrives as long as none fails. *)
Definition isIntr (w : write_result) : bool := match w with WriteIntr => true | _ => false end.
Lemma logWriteLoop_complete writes : forall line written,
  Forall (fun w => match w with Wrote n => 0 < n | WriteIntr => True | WriteFailed => False end) writes ->
  exists k, logWriteLoop line writes written = written ++ take k line /\ ((length line <= length (filter (fun w => isIntr w = false) writes))%nat -> (length line <= k)%nat).
Proof.
  induction writes as [|w writes IH]; intros line written Hw; cbn [logWriteLoop].
  - exists 0%nat. rewrite app_nil_r. split; [by case_bool_decide|done].
  - case_bool_decide as E; [subst; exists 0%nat; by rewrite app_nil_r|]. apply list.Forall_cons in Hw as [Hw Hws]. destruct w as [n| |]; [| |done].
    + destruct (IH (drop (Z.to_nat n) line) (written ++ take (Z.to_nat n) line) Hws) as (k & -> & Hk). exists (Z.to_nat n + k)%nat.
      split; [by rewrite <- app_assoc, take_take_drop|]. rewrite filter_cons, decide_True by done. cbn [length]. rewrite length_drop in Hk. lia.
    + destruct (IH line written Hws) as (k & -> & Hk). exists k. split; [done|]. by rewrite filter_cons, decide_False by done.
Qed.

(** ** Where the code falls short *)

(** The end of the log: the last byte, the line feed of the last line, is never returned when the log is longer than the buffer. *)
Lemma fetch_misses_last_byte :
  exists b, log_fetch (Some (chars "abcdef")) false 4 (replicate 4 "x"%char) (LogState 31 15 (Some "log") 3 false false) = Ok (b, 3) /\ take 3 b = chars "cde".
Proof. eexists. split; vm_compute; reflexivity. Qed.
(** When [pread] fails its result is used as an index: the byte in front of the buffer is overwritten. *)
Lemma failed_read_writes_before_buffer :
  log_fetch (Some (chars "abcdef")) true 4 (replicate 4 "x"%char) (LogState 31 15 (Some "log") 3 false false) = Fault OutOfBounds.
Proof. vm_compute. reflexivity. Qed.
