(* ===== verification/Server.v ===== *)
(** * Server: starting, serving and stopping ([src/server/server.c], parts of [net.c])

    The command line, the order in which the components are started and stopped, the signals and the loop that accepts
    clients.  The components themselves are calls here; which of them succeed is an argument.
    The server is built with support for its file system, and not for fuzzing. *)

From Stdlib Require Import Ascii.
From S2P Require Import Prelude Timing Types Helper FileUtil Sockets Config.
Open Scope Z_scope.

(** ** The command line *)

Inductive server_opt :=
| OptConfig (arg : string) | OptMount (arg : string) | OptNoDaemon | OptHelp | OptVersion | OptBind (arg : string)
| OptCrc (arg : string) | OptAssert | OptCreate (arg : string) | OptRevision (arg : string) | OptSize (arg : string) | OptErrorMsg (arg : string)
| OptOther.
Record server_opts := ServerOpts {
  so_config : string;
  so_mount : option string;
  so_daemon : bool;
  so_bind : option string;
  so_create : option string;
  so_revision : Z;
  so_size : Z;
  so_error : option string;
}.
(** [strtoll] returns zero when there is no number. *)
Definition sizeArg (a : string) : Z := match strtoll (chars a) with Some (n, _) => n | None => 0 end.
(** [crcOk]: what [image_generateCrcFile] returns.  [inl] is the code the program ends with.  The option to test the debugging tools
    uses memory that was freed. *)
Fixpoint serverOptions (crcOk : bool) (opts : list server_opt) (o : server_opts) : result (Z + server_opts) :=
  match opts with
  | [] => Ok (inr o)
  | opt :: opts =>
      let 'ServerOpts config mount daemon bind create revision size error := o in
      let go := serverOptions crcOk opts in
      match opt with
      | OptConfig a => go (ServerOpts a mount daemon bind create revision size error)
      | OptMount a => go (ServerOpts config (Some a) daemon bind create revision size error)
      | OptNoDaemon => go (ServerOpts config mount false bind create revision size error)
      | OptHelp | OptVersion => Ok (inl 0)
      | OptBind a => go (ServerOpts config mount daemon (Some a) create revision size error)
      | OptCrc _ => Ok (inl (if crcOk then 0 else 1))
      | OptAssert => Fault UseAfterFree
      | OptCreate a => go (ServerOpts config mount daemon bind (Some a) revision size error)
      | OptRevision a => go (ServerOpts config mount daemon bind create (atoi a) size error)
      | OptSize a => go (ServerOpts config mount daemon bind create revision (sizeArg a) error)
      | OptErrorMsg a => go (ServerOpts config mount daemon bind create revision size (Some a))
      | OptOther => go o
      end
  end.
Definition defaultOpts : server_opts := ServerOpts "/etc/dnbd3-server" None true None None (-1) (-1) None.

(** ** Starting and stopping *)

Inductive server_call :=
| LoadConfig | CreateImage (name : string) (revision size : Z) | Daemonize | ServeErrorMessage
| InitImages | InitAltServers | InitIntegrity | InitNet | InitUplinks | InitRpc | MountFuse (dir : string)
| LoadAltServers | SetSignals | LoadImages | ListenSockets | InitPool | StartTimer | AcceptLoop
| ShutdownFuse | JoinTimer | DestroyListeners | DisconnectAll | ClosePool | KillUplinks | ShutdownIntegrity
| WaitDisconnected | WaitPoolEmpty | FreeImages (tries : nat).
(** Which calls succeed.  [sv_stopped]: a signal to stop arrives while images are loaded; [sv_free]: what [image_tryFreeAll] returns,
    call by call. *)
Record server_env := ServerEnv {
  sv_basePath : bool; sv_created : bool; sv_daemon : bool; sv_mount : bool; sv_images : bool; sv_stopped : bool;
  sv_listen : bool; sv_pool : bool; sv_timer : bool; sv_free : list bool;
}.
(** How often [image_tryFreeAll] is called, with [retries] left. *)
Fixpoint freeTries (retries : nat) (results : list bool) : nat :=
  match retries with
  | O => 0
  | S retries =>
      match results with
      | true :: _ => 1
      | false :: results => S (match retries with O => 0 | S _ => freeTries retries results end)
      | [] => S (match retries with O => 0 | S _ => freeTries retries [] end)
      end
  end.
Definition dnbd3_cleanup (hasTimer hasListeners : bool) (e : server_env) : list server_call :=
  [ShutdownFuse] ++ (if hasTimer then [JoinTimer] else []) ++ (if hasListeners then [DestroyListeners] else [])
  ++ [DisconnectAll; ClosePool; KillUplinks; ShutdownIntegrity; WaitDisconnected; WaitPoolEmpty; FreeImages (freeTries 5 (sv_free e))].
Definition EXIT_SUCCESS : Z := 0.
(** [dnbd3_cleanup] does not return: what is behind a call of it is never reached. *)
Definition startServer (e : server_env) (o : server_opts) : Z * list server_call :=
  let inits := [InitImages; InitAltServers; InitIntegrity; InitNet; InitUplinks; InitRpc] in
  let mount := match so_mount o with Some dir => [MountFuse dir] | None => [] end in
  if negb (bool_decide (so_mount o = None)) && negb (sv_mount e) then (EXIT_SUCCESS, inits ++ mount ++ dnbd3_cleanup false false e)
  else
    let loaded := inits ++ mount ++ [LoadAltServers; SetSignals; LoadImages] in
    if negb (sv_images e) || sv_stopped e then (EXIT_SUCCESS, loaded ++ dnbd3_cleanup false false e)
    else if negb (sv_listen e) then (1, loaded ++ [ListenSockets])
    else if negb (sv_pool e) then (EXIT_SUCCESS, loaded ++ [ListenSockets; InitPool] ++ dnbd3_cleanup false true e)
    else (EXIT_SUCCESS, loaded ++ [ListenSockets; InitPool; StartTimer; AcceptLoop] ++ dnbd3_cleanup (sv_timer e) true e).
(** [None]: it serves the error message for ever. *)
Definition server_main (e : server_env) (crcOk : bool) (opts : list server_opt) : result (option Z * list server_call) :=
  r ← serverOptions crcOk opts defaultOpts;
  match r with
  | inl code => Ok (Some code, [])
  | inr o =>
      if negb (sv_basePath e) && bool_decide (so_error o = None) then Ok (Some 1, [LoadConfig])
      else match so_create o with
      | Some name => Ok (Some (if sv_created e then 0 else 1), [LoadConfig; CreateImage name (so_revision o) (so_size o)])
      | None =>
          let daemon := if so_daemon o then [Daemonize] else [] in
          if so_daemon o && negb (sv_daemon e) then Ok (Some 1, LoadConfig :: daemon)
          else if bool_decide (so_error o = None)
          then let '(code, calls) := startServer e o in Ok (Some code, LoadConfig :: daemon ++ calls)
          else if negb (sv_listen e) then Ok (Some 1, LoadConfig :: daemon ++ [ListenSockets])
          else Ok (None, LoadConfig :: daemon ++ [ListenSockets; ServeErrorMessage])
      end
  end.

(** Seconds since the server was started; a clock that cannot be read makes zero the base of all times. *)
Definition dnbd3_serverUptime (startupTime now : ticks) : Z := timing_diff startupTime now.
Definition timing_setBase (clock : option ticks) : ticks := match clock with Some t => t | None => Ticks 0 0 end.

(** ** Signals *)

Definition SIGHUP : Z := 1.
Definition SIGINT : Z := 2.
Definition SIGUSR1 : Z := 10.
Definition SIGUSR2 : Z := 12.
Definition SIGTERM : Z := 15.
(** [sg_last]: number and sender of the last signal, 0 when it was printed. *)
Record sig_state := SigState { sg_shutdown : bool; sg_reload : bool; sg_logCycle : bool; sg_last : Z * Z }.
Definition dnbd3_handleSignal (signum : Z) (s : sig_state) : sig_state :=
  if sg_shutdown s then s
  else if (signum =? SIGINT) || (signum =? SIGTERM) then SigState true (sg_reload s) (sg_logCycle s) (sg_last s)
  else if (signum =? SIGUSR1) || (signum =? SIGHUP) then SigState (sg_shutdown s) true (sg_logCycle s) (sg_last s)
  else if signum =? SIGUSR2 then SigState (sg_shutdown s) (sg_reload s) true (sg_last s)
  else s.
(** The state, and the signal that is sent on to the main thread. *)
Definition dnbd3_handleSignal2 (mainPid : Z) (isMain : bool) (signum pid : Z) (s : sig_state) : sig_state * option Z :=
  if pid =? mainPid then (s, None)
  else
    let s := SigState (sg_shutdown s) (sg_reload s) (sg_logCycle s) (signum, pid) in
    let relay := if negb (pid =? 0) && negb isMain then Some signum else None in
    (if isMain then dnbd3_handleSignal signum s else s, relay).
(** A signal of process [pid] that the kernel delivers to some thread of process [self], with the relayed one if there is one. *)
Definition deliver (mainPid self : Z) (isMain : bool) (signum pid : Z) (s : sig_state) : sig_state :=
  let '(s, relay) := dnbd3_handleSignal2 mainPid isMain signum pid s in
  match relay with Some n => (dnbd3_handleSignal2 mainPid true n self s).1 | None => s end.

(** ** The accept loop *)

(** The host of a new client; [None]: an unknown family, or no memory. *)
Definition dnbd3_prepareClient (memory : bool) (sa : sockaddr) : option dnbd3_host_t :=
  if negb memory then None
  else if sa_family sa =? AF_INET then Some (Host (take 4 (sa_addr sa) ++ replicate 12 0) (sa_port sa) HOST_IP4)
  else if sa_family sa =? AF_INET6 then Some (Host (take 16 (sa_addr sa)) (sa_port sa) HOST_IP6)
  else None.
Inductive accept_result :=
| Accepted_ (fd : Z) (sa : sockaddr)
| AcceptIntr
| AcceptFailed.
Inductive accept_act :=
| ReloadImages
| ReopenLog
| CloseSocket (fd : Z)
| Handle (fd : Z) (host : dnbd3_host_t)
| FreeClient (host : dnbd3_host_t)
| Sleep10ms.
(** One turn of the loop.  [poolOk]: what [threadpool_run] returns. *)
Definition acceptTurn (memory poolOk : bool) (r : accept_result) (s : sig_state) : sig_state * list accept_act :=
  let acts := (if sg_reload s then [ReloadImages] else []) ++ (if sg_logCycle s then [ReopenLog] else []) in
  let s := SigState (sg_shutdown s) false false (0, (sg_last s).2) in
  (s, acts ++ match r with
              | AcceptIntr => []
              | AcceptFailed => [Sleep10ms]
              | Accepted_ fd sa =>
                  match dnbd3_prepareClient memory sa with
                  | None => [CloseSocket fd]
                  | Some host => if poolOk then [Handle fd host] else [FreeClient host]
                  end
              end).

(** ** Disconnecting the clients ([net.c]) *)

(** The table of clients, with a socket for every one; the sockets that are shut down. *)
Definition net_disconnectAll (clients : list (option Z)) (num : Z) : list Z := omap id (take (Z.to_nat num) clients).
Definition clientCount (clients : list (option Z)) (num : Z) : nat := length (omap id (take (Z.to_nat num) clients)).
(** [tables] is the table each time it is looked at; how often that is, and whether all clients were gone. *)
Fixpoint waitDisconnected (retries : nat) (num : Z) (tables : list (list (option Z))) : nat * bool :=
  match tables with
  | [] => (0%nat, false)
  | t :: tables =>
      if (clientCount t num =? 0)%nat then (1%nat, true)
      else match retries with
           | S (S retries) => let '(n, ok) := waitDisconnected (S retries) num tables in (S n, ok)
           | _ => (1%nat, false)
           end
  end.

(** The number of clients is zero afterwards, whether they are gone or not. *)
Definition net_waitForAllDisconnected (num : Z) (tables : list (list (option Z))) : nat * bool * Z := (waitDisconnected 10 num tables, 0).

(** ** What holds of starting and stopping *)

(** What must have been started before a call. *)
Definition needs (c : server_call) : list server_call :=
  match c with
  | JoinTimer => [StartTimer]
  | DestroyListeners => [ListenSockets]
  | DisconnectAll | WaitDisconnected => [InitNet]
  | KillUplinks | FreeImages _ | LoadImages => [InitImages]
  | ShutdownIntegrity => [InitIntegrity]
  | LoadAltServers => [InitAltServers]
  | AcceptLoop => [InitImages; InitAltServers; InitIntegrity; InitNet; InitUplinks; InitRpc; SetSignals; LoadImages; ListenSockets; InitPool]
  | _ => []
  end.
#[global] Instance server_call_eq_dec : EqDecision server_call.
Proof. solve_decision. Defined.
(** Every call comes after what it needs, and none is made twice. *)
Fixpoint orderly (seen calls : list server_call) : bool :=
  match calls with
  | [] => true
  | c :: calls => forallb (fun n => bool_decide (n ∈ seen)) (needs c) && bool_decide (c ∉ seen) && orderly (c :: seen) calls
  end.
Definition isStop (c : server_call) : bool := match c with FreeImages _ => true | _ => false end.
Lemma freeTries_bound n results : (1 <= n)%nat -> (1 <= freeTries n results <= n)%nat.
Proof.
  revert results. induction n as [|n IH]; intros results Hn; [lia|]. cbn [freeTries].
  destruct results as [|[] results]; (destruct n as [|n]; [lia|]); try lia; specialize (IH results ltac:(lia)) || specialize (IH [] ltac:(lia)); lia.
Qed.
(** Starting and stopping the server, whichever call fails: everything is started before what relies on it and stopped after, nothing is
    started or stopped twice; clients are accepted only when all components run; and except when the server cannot listen, the last call
    is to free the images, which is tried between once and five times. *)
Theorem server_lifecycle e o :
  let '(code, calls) := startServer e o in
  orderly [] calls = true
  /\ (sv_listen e = true -> exists calls' n, calls = calls' ++ [FreeImages n] /\ (1 <= n <= 5)%nat /\ code = EXIT_SUCCESS)
  /\ (AcceptLoop ∈ calls <-> (so_mount o = None \/ sv_mount e = true) /\ sv_images e = true /\ sv_stopped e = false /\ sv_listen e = true /\ sv_pool e = true).
Proof.
  destruct (startServer e o) as [code calls] eqn:E. unfold startServer, dnbd3_cleanup in E. pose proof (freeTries_bound 5 (sv_free e) ltac:(lia)) as Hf. set (n := freeTries 5 (sv_free e)) in *. clearbody n.
  destruct e as [bp cr dm mo im st li po ti fr], (so_mount o) as [dir|]; cbn [sv_mount sv_images sv_stopped sv_listen sv_pool sv_timer] in *;
    destruct mo, im, st, li, po, ti; cbn in E; (split; [|split; [try done; intros _; exists (removelast calls), n|]]); injection E as <- <-;
    (vm_compute; reflexivity) || (split; [reflexivity|done]) ||
    (rewrite <- (bool_decide_eq_true (AcceptLoop ∈ _)); vm_compute; split; intros H; [first [discriminate H|repeat split; auto]|first [reflexivity|destruct H as ([H|H] & H1 & H2 & H3 & H4); discriminate]]).
Qed.

(** ** Signals and clients *)

(** A signal of another process that reaches the main thread is honoured, until the server stops. *)
Lemma signal_honoured mainPid self signum pid s :
  pid <> mainPid -> sg_shutdown s = false ->
  let s' := deliver mainPid self true signum pid s in
  sg_shutdown s' = ((signum =? SIGINT) || (signum =? SIGTERM)) /\ sg_last s' = (signum, pid)
  /\ (signum = SIGHUP \/ signum = SIGUSR1 -> sg_reload s' = true) /\ (signum = SIGUSR2 -> sg_logCycle s' = true).
Proof.
  intros Hp Hs. unfold deliver, dnbd3_handleSignal2. rewrite (proj2 (Z.eqb_neq _ _) Hp). rewrite andb_false_r. unfold dnbd3_handleSignal. cbn [sg_shutdown sg_reload sg_logCycle sg_last]. rewrite Hs.
  destruct (Z.eqb_spec signum SIGINT), (Z.eqb_spec signum SIGTERM), (Z.eqb_spec signum SIGUSR1), (Z.eqb_spec signum SIGHUP), (Z.eqb_spec signum SIGUSR2); cbn; subst; split_and!; try done; intros; try done; naive_solver.
Qed.
(** A request to reload or to reopen the log is carried out exactly once. *)
Lemma requests_once memory pool r1 r2 s :
  let '(s1, acts1) := acceptTurn memory pool r1 s in let '(_, acts2) := acceptTurn memory pool r2 s1 in
  (ReloadImages ∈ acts1 <-> sg_reload s = true) /\ (ReopenLog ∈ acts1 <-> sg_logCycle s = true) /\ (ReloadImages ∉ acts2) /\ (ReopenLog ∉ acts2).
Proof.
  unfold acceptTurn. cbn [sg_reload sg_logCycle sg_shutdown sg_last app].
  assert (forall r (x : accept_act), x = ReloadImages \/ x = ReopenLog -> x ∉ match r with
    | AcceptIntr => [] | AcceptFailed => [Sleep10ms]
    | Accepted_ fd sa => match dnbd3_prepareClient memory sa with None => [CloseSocket fd] | Some host => if pool then [Handle fd host] else [FreeClient host] end end) as Hn.
  { intros r x Hx. destruct r as [fd sa| |]; [destruct (dnbd3_prepareClient memory sa); [destruct pool|]|..]; rewrite ?elem_of_cons, ?elem_of_nil; naive_solver. }
  split_and!; try (by apply Hn; auto).
  - rewrite !elem_of_app. destruct (sg_reload s), (sg_logCycle s); rewrite ?elem_of_cons, ?elem_of_nil; naive_solver.
  - rewrite !elem_of_app. destruct (sg_reload s), (sg_logCycle s); rewrite ?elem_of_cons, ?elem_of_nil; naive_solver.
Qed.
(** Waiting for the clients succeeds only if the table was empty. *)
Lemma wait_bounded retries num tables : (1 <= retries)%nat ->
  let '(n, ok) := waitDisconnected retries num tables in (n <= retries)%nat /\ (ok = true -> exists t, t ∈ tables /\ clientCount t num = 0%nat).
Proof.
  revert tables. induction retries as [|retries IH]; intros tables Hr; [lia|]. destruct tables as [|t tables]; cbn [waitDisconnected]; [split; [lia|done]|].
  destruct (Nat.eqb_spec (clientCount t num) 0) as [E|E]; [split; [lia|intros _; exists t; split; [by left|done]]|]. destruct retries as [|retries]; [split; [lia|done]|].
  specialize (IH tables ltac:(lia)). destruct (waitDisconnected (S retries) num tables) as [n ok]. destruct IH as [H1 H2]. split; [lia|]. intros Hok. destruct (H2 Hok) as (t' & Ht' & ?). exists t'. split; [by right|done].
Qed.
(** Stopping waits for the clients for at most ten looks at the table. *)
Lemma stop_waits_at_most_ten num tables :
  let '(n, ok, _) := net_waitForAllDisconnected num tables in (n <= 10)%nat /\ (ok = true -> exists t, t ∈ tables /\ net_disconnectAll t num = []).
Proof.
  unfold net_waitForAllDisconnected. pose proof (wait_bounded 10 num tables ltac:(lia)) as H. destruct (waitDisconnected 10 num tables) as [n ok]. destruct H as [H1 H2].
  split; [done|]. intros Hok. destruct (H2 Hok) as (t & Ht & Hc). exists t. split; [done|]. by apply length_zero_iff_nil.
Qed.

(** ** Where the code falls short *)

(** In the foreground the process id that was remembered is that of the server: a signal that another thread gets and relays to the main
    thread is taken for one of the server's own and ignored. *)
Lemma relayed_signal_ignored :
  deliver 100 100 false SIGTERM 1 (SigState false false false (0, 0)) = SigState false false false (SIGTERM, 1)
  /\ sg_shutdown (deliver 100 100 true SIGTERM 1 (SigState false false false (0, 0))) = true.
Proof. vm_compute. done. Qed.
(** When no thread can be started for a client its struct is freed, but its socket stays open. *)
Lemma refused_client_leaks_socket fd sa host s :
  dnbd3_prepareClient true sa = Some host -> sg_reload s = false -> sg_logCycle s = false ->
  (acceptTurn true false (Accepted_ fd sa) s).2 = [FreeClient host].
Proof. intros H H1 H2. unfold acceptTurn. by rewrite H, H1, H2. Qed.
(** A server that cannot mount its file system or load its images cleans up and exits with success: [dnbd3_cleanup] does not return,
    so the code behind it that returns a failure is never reached. *)
Lemma failed_start_exits_with_success o :
  (startServer (ServerEnv true true true true false false true true true []) o).1 = EXIT_SUCCESS.
Proof. unfold startServer. destruct (so_mount o); reflexivity. Qed.
(** A server that cannot listen ends without cleaning up: its file system stays mounted. *)
Lemma failed_listen_skips_cleanup :
  (startServer (ServerEnv true true true true true false false true true []) (ServerOpts "/etc" (Some "/mnt") false None None (-1) (-1) None)).2
  = [InitImages; InitAltServers; InitIntegrity; InitNet; InitUplinks; InitRpc; MountFuse "/mnt"; LoadAltServers; SetSignals; LoadImages; ListenSockets].
Proof. reflexivity. Qed.
