(* ===== verification/KernelLife.v ===== *)
(** * KernelLife: loading and unloading the kernel module, connecting, and its files in sysfs
      ([src/kernel/dnbd3_main.c], [blk.c], [net.c], [sysfs.c])

    For a kernel from 6.0 on.  What the kernel's functions return is an argument; what they hand out is
    recorded as a list of events, against which the theorem about the module's life is stated. *)

From Stdlib Require Import Ascii.
From S2P Require Import Prelude Types Helper Wire KernelServers KernelDiscover KernelNet KernelIoctl FileUtil Log.
Open Scope Z_scope.

(** ** sysfs.c *)

Section Sysfs.
(** What ["%pISpc"] prints for an address. *)
Context (printAddr : sockaddr -> list ascii).
(** [MIN(snprintf(buf, size, ...), size)]; the macro prints twice, the same text. *)
Definition printMin (at_ size : Z) (text buf : list ascii) : result (list ascii * Z) :=
  buf ← printInto at_ size text buf;
  Ok (buf, Z.min (Z.of_nat (length text)) size).
Definition show_cur_server_addr (cur : sockaddr) (buf : list ascii) : result (list ascii * Z) := printMin 0 PAGE_SIZE (printAddr cur ++ [LF]) buf.
Definition show_image_name (imgname : option (list ascii)) (buf : list ascii) : result (list ascii * Z) :=
  printMin 0 PAGE_SIZE (match imgname with Some name => name | None => chars "(null)" end ++ [LF]) buf.
Definition show_rid (rid : Z) (buf : list ascii) : result (list ascii * Z) := printMin 0 PAGE_SIZE (print_digits 10 rid ++ [LF]) buf.
Definition show_update_available (update : bool) (buf : list ascii) : result (list ascii * Z) :=
  printMin 0 PAGE_SIZE (print_digits 10 (if update then 1 else 0) ++ [LF]) buf.
Definition altLine (a : kernel_alt) : list ascii :=
  printAddr (ka_host a) ++ chars " " ++ print_digits 20 (averageRtt (ka_rtts a)) ++ chars " " ++ print_digits 10 (ka_failures a)
  ++ chars " " ++ print_digits 10 (ka_best_count a) ++ [LF].
Fixpoint altLines (alts : list kernel_alt) (at_ size : Z) (buf : list ascii) : result (list ascii * Z) :=
  match alts with
  | [] => Ok (buf, size)
  | a :: alts =>
      if ss_family (ka_host a) =? 0 then altLines alts at_ size buf
      else
        '(buf, ret) ← printMin at_ size (altLine a) buf;
        if size - ret <=? 0 then Ok (buf, 0) else altLines alts (at_ + ret) (size - ret) buf
  end.
(** [locked]: the lock was got; a signal can interrupt the wait. *)
Definition show_alt_servers (locked : bool) (alts : list kernel_alt) (buf : list ascii) : result (list ascii * Z) :=
  if negb locked then Ok (buf, 0)
  else
    '(buf, size) ← altLines alts 0 PAGE_SIZE buf;
    Ok (buf, PAGE_SIZE - size).
End Sysfs.

(** ** Connecting *)

Definition SOCKET_TIMEOUT_SEND : Z := 2.
Definition connectTimeout (panic : bool) (panic_count rtt : Z) : Z :=
  let t := if panic && (1 <? panic_count) then panic_count * 1000 else i32 (u64 (rtt * 2) / 1000) in
  if t <? SOCKET_TIMEOUT_SEND * 1000 then SOCKET_TIMEOUT_SEND * 1000 else if 60000 <? t then 60000 else t.
(** Seconds and microseconds. *)
Definition set_socket_timeout (timeout_ms : Z) : Z * Z := (timeout_ms / 1000, timeout_ms mod 1000 * 1000).
Inductive sock_ev := SockOpen | SockTimeout (send : bool) (t : Z * Z) | SockConnect (addrlen : Z) | SockRelease.
(** [create] and [connect] are what creating the socket and connecting it return; the result and what was done with the socket.
    Every way through the loop with its four tries leaves it in the first turn. *)
Definition dnbd3_connect (create connect : Z) (addr : sockaddr) (panic : bool) (panic_count rtt : Z) : Z * list sock_ev :=
  let addrlen := if ss_family addr =? AF_INET then 16 else 28 in
  if create <? 0 then (create, [])
  else
    let t := set_socket_timeout (connectTimeout panic panic_count rtt) in
    let evs := [SockOpen; SockTimeout false t; SockTimeout true t; SockConnect addrlen] in
    if negb (connect =? 0) then (if connect <? 0 then connect else - EIO, evs ++ [SockRelease])
    else (0, evs).
Definition dnbd3_send_request (cmd handle offset size : Z) : list Z := encode_request (Request dnbd3_packet_magic cmd size offset handle).
(** [sock]: the connection; what is sent to it. *)
Definition dnbd3_send_empty_request (sock : option Z) (sendOk : bool) (cmd : Z) : bool * option (list Z) :=
  match sock with
  | None => (false, None)
  | Some _ => (sendOk, Some (dnbd3_send_request cmd 0 0 0))
  end.
Definition KEEPALIVE_SECONDS : Z := 10.
(** The worker that keeps the connection alive: what it sends, and after how many seconds it runs again. *)
Definition dnbd3_keepalive_workfn (sendOk : bool) (d : kdevice) : option (list Z) * option Z :=
  ((dnbd3_send_empty_request (kx_sock d) sendOk CMD_KEEPALIVE).2, if x_active d then Some KEEPALIVE_SECONDS else None).
Definition RTT_BLOCK_SIZE : Z := 4096.
(** What is sent, whether the test block came, and the input that is left. *)
Definition dnbd3_request_test_block (chunk : Z -> Z) (sendOk : bool) (s : list Z) : list Z * bool * list Z :=
  let request := dnbd3_send_request CMD_GET_BLOCK 0 0 RTT_BLOCK_SIZE in
  if negb sendOk then (request, false, s)
  else
    let '(got, s) := dnbd3_recv_bytes 16 s in
    if negb (length got =? DNBD3_REPLY_SIZE)%nat then (request, false, s)
    else
      let hdr := decode_reply got in
      if negb (rp_magic hdr =? dnbd3_packet_magic) || negb (rp_cmd hdr =? CMD_GET_BLOCK) || negb (rp_size hdr =? RTT_BLOCK_SIZE) || negb (rp_handle hdr =? 0)
      then (request, false, s)
      else let '(ok, s) := dnbd3_drain_socket chunk RTT_BLOCK_SIZE s in (request, ok, s).

(** ** Devices and the module *)

(** What the kernel hands out: the table of devices, the major number, and for each device its lock, tags, disk, the disk's being
    registered, and its entry in sysfs. *)
Inductive kres := KTable | KMajor | KAltLock (i : nat) | KTags (i : nat) | KDisk (i : nat) | KAdded (i : nat) | KSysfs (i : nat).
Inductive kev := Get (r : kres) | Put (r : kres).
(** What allocating the tags, allocating the disk and adding it return; zero is success. *)
Record add_env := AddEnv { ae_tags : Z; ae_disk : Z; ae_add : Z }.
(** Messages are printed for the device of the disk: as long as there is no disk, or its pointer is an error code, printing one
    follows a pointer that is none. *)
Definition dnbd3_blk_add_device (e : add_env) (i : nat) : result (Z * list kev) :=
  if negb (ae_tags e =? 0) then Fault NullDeref
  else if negb (ae_disk e =? 0) then Fault NullDeref
  else
    let evs := [Get (KAltLock i); Get (KTags i); Get (KDisk i)] in
    if negb (ae_add e =? 0) then Ok (ae_add e, evs ++ [Put (KDisk i); Put (KTags i); Put (KAltLock i)])
    else Ok (0, evs ++ [Get (KAdded i); Get (KSysfs i)]).
(** With the connection lock, for which it waits. *)
Definition dnbd3_blk_del_device (i : nat) (d : kdevice) : result (kdevice * list kev) :=
  '(_, d) ← dnbd3_close_device (x_lock true d);
  Ok (d, [Put (KSysfs i); Put (KAdded i); Put (KDisk i); Put (KTags i); Put (KAltLock i)]).
Fixpoint addDevices (env : nat -> add_env) (l : list nat) : result (Z * list kev) :=
  match l with
  | [] => Ok (0, [])
  | i :: l =>
      '(r, evs) ← dnbd3_blk_add_device (env i) i;
      if negb (r =? 0) then Ok (- EIO, evs)
      else '(r, evs') ← addDevices env l; Ok (r, evs ++ evs')
  end.
(** [table]: there is memory; [major]: what [register_blkdev] returns.  The devices are there when the result is zero. *)
Definition dnbd3_init (table : bool) (major : Z) (env : nat -> add_env) (max_devs : nat) : result (Z * list kev * list kdevice) :=
  if negb table then Ok (- ENOMEM, [], [])
  else if major =? 0 then Ok (- EIO, [Get KTable], [])
  else
    '(r, evs) ← addDevices env (seq 0 max_devs);
    Ok (r, Get KTable :: (if 0 <? major then [Get KMajor] else []) ++ evs, if r =? 0 then replicate max_devs freshDevice else []).
Fixpoint delDevices (i : nat) (ds : list kdevice) : result (list kdevice * list kev) :=
  match ds with
  | [] => Ok ([], [])
  | d :: ds =>
      '(d, evs) ← dnbd3_blk_del_device i d;
      '(ds, evs') ← delDevices (S i) ds;
      Ok (d :: ds, evs ++ evs')
  end.
Definition dnbd3_exit (ds : list kdevice) : result (list kdevice * list kev) :=
  '(ds, evs) ← delDevices 0 ds;
  Ok (ds, evs ++ [Put KMajor; Put KTable]).

(** * Properties *)

(** ** Files in sysfs *)

Lemma printMin_ok p text buf :
  startsIn PAGE_SIZE buf p -> Z.of_nat (length p) < PAGE_SIZE ->
  let size := PAGE_SIZE - Z.of_nat (length p) in
  exists buf', printMin (Z.of_nat (length p)) size text buf = Ok (buf', Z.min (Z.of_nat (length text)) size)
    /\ startsIn PAGE_SIZE buf' (p ++ take (Z.to_nat (size - 1)) text).
Proof.
  intros Hs Hp size. unfold printMin, printInto.
  destruct (starts_put PAGE_SIZE (take (Z.to_nat (size - 1)) text ++ [NULL_CHAR]) buf p Hs) as (b & -> & Hb).
  { rewrite !length_app, length_take. cbn [length]. lia. }
  cbn [mbind result_bind]. exists b. split; [done|]. rewrite app_assoc in Hb. by apply starts_app in Hb.
Qed.
Section SysfsProofs.
Context (printAddr : sockaddr -> list ascii).
Definition altUsed (a : kernel_alt) : Prop := ss_family (ka_host a) <> 0.
Definition altText (alts : list kernel_alt) : list ascii := concat (map (altLine printAddr) (filter altUsed alts)).
Lemma altLines_ok alts : forall p buf,
  startsIn PAGE_SIZE buf p -> Z.of_nat (length p) < PAGE_SIZE ->
  exists buf', altLines printAddr alts (Z.of_nat (length p)) (PAGE_SIZE - Z.of_nat (length p)) buf
      = Ok (buf', Z.max 0 (PAGE_SIZE - Z.of_nat (length (p ++ altText alts)))) /\ startsIn PAGE_SIZE buf' (take 4095 (p ++ altText alts)).
Proof.
  induction alts as [|a alts IH]; intros p buf Hs Hp; cbn [altLines]; unfold altText in *.
  { exists buf. cbn. rewrite app_nil_r, take_ge by (unfold PAGE_SIZE in *; lia). split; [do 2 f_equal; lia|done]. }
  rewrite filter_cons. destruct (decide (altUsed a)) as [Hu|Hu]; unfold altUsed in Hu.
  2: { assert (ss_family (ka_host a) = 0) as -> by lia. by apply IH. }
  rewrite (proj2 (Z.eqb_neq _ _) Hu). cbn [map concat]. set (line := altLine printAddr a). set (rest := concat (map (altLine printAddr) (filter altUsed alts))) in *.
  destruct (printMin_ok p line buf Hs Hp) as (b & -> & Hb). cbn [mbind result_bind].
  destruct (Z.leb_spec (PAGE_SIZE - Z.of_nat (length p) - Z.min (Z.of_nat (length line)) (PAGE_SIZE - Z.of_nat (length p))) 0) as [Hc|Hc].
  - exists b. split; [do 2 f_equal; rewrite !length_app; lia|]. unfold PAGE_SIZE in *. rewrite take_app, take_ge by lia.
    rewrite take_app_le by lia. replace (Z.to_nat (4096 - Z.of_nat (length p) - 1)) with (4095 - length p)%nat in Hb by lia. exact Hb.
  - rewrite (take_ge line) in Hb by lia. rewrite Z.min_l by lia.
    replace (Z.of_nat (length p) + Z.of_nat (length line)) with (Z.of_nat (length (p ++ line))) by (rewrite length_app; lia).
    replace (PAGE_SIZE - Z.of_nat (length p) - Z.of_nat (length line)) with (PAGE_SIZE - Z.of_nat (length (p ++ line))) by (rewrite length_app; lia).
    rewrite app_assoc. apply IH; [done|rewrite length_app; lia].
Qed.
(** The list of servers in sysfs never leaves the page it is printed into: the page holds one line for each server of the table,
    cut to a page, and the number of bytes of it is returned. *)
Theorem alt_servers_file alts buf :
  Z.of_nat (length buf) = PAGE_SIZE ->
  exists buf', show_alt_servers printAddr true alts buf = Ok (buf', Z.min (Z.of_nat (length (altText alts))) PAGE_SIZE)
    /\ startsIn PAGE_SIZE buf' (take 4095 (altText alts)).
Proof.
  intros Hb. unfold show_alt_servers. cbn [negb]. destruct (altLines_ok alts [] buf) as (b & E & Hs); [done|done|].
  cbn [length app] in E, Hs. change (Z.of_nat 0) with 0 in E. rewrite Z.sub_0_r in E. rewrite E. cbn [mbind result_bind]. exists b. split; [do 2 f_equal; lia|done].
Qed.
(** So do the other files. *)
Lemma sysfs_file text buf :
  Z.of_nat (length buf) = PAGE_SIZE ->
  exists buf', printMin 0 PAGE_SIZE text buf = Ok (buf', Z.min (Z.of_nat (length text)) PAGE_SIZE) /\ startsIn PAGE_SIZE buf' (take 4095 text).
Proof. intros Hb. exact (printMin_ok [] text buf (conj Hb eq_refl) eq_refl). Qed.
End SysfsProofs.
Lemma alt_servers_file_witness :
  exists buf', show_alt_servers (fun _ => chars "10.0.0.2:5003") true demo_kalts (replicate 4096 "x"%char) = Ok (buf', Z.min (Z.of_nat (length (altText (fun _ => chars "10.0.0.2:5003") demo_kalts))) PAGE_SIZE).
Proof. destruct (alt_servers_file (fun _ => chars "10.0.0.2:5003") demo_kalts (replicate 4096 "x"%char) eq_refl) as (b & E & _). by exists b. Defined.

(** ** Connecting *)

(** Whatever was measured and however long the panic lasts, connecting, sending and receiving are given between two seconds and a minute. *)
Lemma connect_timeout_bounds panic panic_count rtt :
  let t := connectTimeout panic panic_count rtt in 2000 <= t <= 60000
  /\ let '(sec, usec) := set_socket_timeout t in sec * 1000 + usec / 1000 = t /\ 2 <= sec <= 60 /\ 0 <= usec < 1000000.
Proof.
  intros t. assert (2000 <= t <= 60000) as Ht.
  { unfold t, connectTimeout, SOCKET_TIMEOUT_SEND. set (x := if panic && (1 <? panic_count) then _ else _). clearbody x. destruct (Z.ltb_spec x (2 * 1000)), (Z.ltb_spec 60000 x); lia. }
  split; [done|]. unfold set_socket_timeout. pose proof (Z.div_mod t 1000 ltac:(lia)) as Hd. pose proof (Z.mod_pos_bound t 1000 ltac:(lia)) as Hm.
  rewrite Z.div_mul by lia. lia.
Qed.
(** A socket that is not handed out is released. *)
Lemma connect_releases create connect addr panic count rtt :
  let '(r, evs) := dnbd3_connect create connect addr panic count rtt in
  (r = 0 -> 0 <= create /\ connect = 0 /\ SockRelease ∉ evs) /\ (r <> 0 -> r < 0 /\ (SockOpen ∈ evs <-> SockRelease ∈ evs)).
Proof.
  unfold dnbd3_connect. cbv zeta. destruct (Z.ltb_spec create 0); [split; [lia|intros _; split; [lia|by rewrite !elem_of_nil]]|]. destruct (Z.eqb_spec connect 0) as [->|Hc]; cbn [negb].
  - split; [intros _; split_and!; [lia|done|]|done]. rewrite !elem_of_cons, elem_of_nil; naive_solver.
  - split; [destruct (Z.ltb_spec connect 0); unfold EIO; lia|]. intros _. split; [destruct (Z.ltb_spec connect 0); unfold EIO; lia|]. rewrite !elem_of_app, !elem_of_cons. naive_solver.
Qed.
(** A device in use sends a keepalive and goes on doing so; another one stops. *)
Lemma keepalive_while_in_use sendOk d :
  (in_use d -> dnbd3_keepalive_workfn sendOk d = (Some (encode_request (Request dnbd3_packet_magic CMD_KEEPALIVE 0 0 0)), Some KEEPALIVE_SECONDS))
  /\ (not_in_use d -> dnbd3_keepalive_workfn sendOk d = (None, None)).
Proof.
  unfold dnbd3_keepalive_workfn, dnbd3_send_empty_request, x_active. split.
  - intros [_ Hs [sock ->] _]. by rewrite (proj2 (Z.eqb_neq (kx_size d) 0)) by lia.
  - intros [_ -> -> _]. done.
Qed.
(** The test block is taken only if it is one; what follows it is left in the connection. *)
Lemma drainLoop_sound chunk fuel : forall bytes s s', 0 <= bytes -> drainLoop chunk fuel bytes s = (true, s') -> s' = drop (Z.to_nat bytes) s /\ bytes <= Z.of_nat (length s).
Proof.
  induction fuel as [|fuel IH]; intros bytes s s' Hb; cbn [drainLoop]; [intros [= H1%Z.leb_le <-]; assert (bytes = 0) as -> by lia; rewrite drop_0; lia || by split; [|lia]|].
  destruct (Z.leb_spec bytes 0); [intros [= <-]; assert (bytes = 0) as -> by lia; rewrite drop_0; split; [done|lia]|].
  set (n := Z.to_nat (Z.min (Z.min bytes PAGE_SIZE) (Z.max 1 (chunk bytes)))). destruct (Nat.eqb_spec (length (take n s)) 0); [done|].
  pose proof (length_take s n) as Hl. intros H1. destruct (IH (bytes - Z.of_nat (length (take n s))) (drop (length (take n s)) s) s') as [-> H2]; [lia|exact H1|].
  rewrite drop_drop, length_drop in *. split; [f_equal; lia|lia].
Qed.
Lemma drain_sound chunk bytes s s' : 0 <= bytes -> dnbd3_drain_socket chunk bytes s = (true, s') -> s' = drop (Z.to_nat bytes) s /\ bytes <= Z.of_nat (length s).
Proof. apply drainLoop_sound. Qed.
Lemma test_block_taken chunk s req ok s' :
  dnbd3_request_test_block chunk true s = (req, ok, s') ->
  req = encode_request (Request dnbd3_packet_magic CMD_GET_BLOCK RTT_BLOCK_SIZE 0 0)
  /\ (ok = true -> decode_reply (take 16 s) = ReplyHdr dnbd3_packet_magic CMD_GET_BLOCK RTT_BLOCK_SIZE 0 /\ s' = drop (Z.to_nat (16 + RTT_BLOCK_SIZE)) s /\ 16 + RTT_BLOCK_SIZE <= Z.of_nat (length s)).
Proof.
  unfold dnbd3_request_test_block, dnbd3_send_request. assert (0 <= RTT_BLOCK_SIZE) as Hr by (unfold RTT_BLOCK_SIZE; lia). generalize dependent RTT_BLOCK_SIZE. intros size Hr.
  unfold dnbd3_recv_bytes. cbn [negb]. change (Z.to_nat 16) with 16%nat. intros H. split; [clear -H; destruct (negb _); [|destruct (_ || _); [|destruct (dnbd3_drain_socket _ _ _)]]; by injection H as <- _ _|]. intros ->.
  destruct (Nat.eqb_spec (length (take 16 s)) DNBD3_REPLY_SIZE) as [Hl|]; cbn [negb] in H; [|done]. destruct (decode_reply (take 16 s)) as [m c z h]. cbn [rp_magic rp_cmd rp_size rp_handle] in H.
  destruct (Z.eqb_spec m dnbd3_packet_magic), (Z.eqb_spec c CMD_GET_BLOCK), (Z.eqb_spec z size), (Z.eqb_spec h 0); cbn [negb orb] in H; try done. subst.
  destruct (dnbd3_drain_socket chunk size (drop 16 s)) as [b s1] eqn:E. injection H as _ -> ->. apply drain_sound in E as [-> E]; [|done].
  rewrite drop_drop, length_drop in *. rewrite length_take in Hl. unfold DNBD3_REPLY_SIZE in Hl. split; [done|]. split; [f_equal; lia|lia].
Qed.

(** ** The module's life *)

#[global] Instance kres_eq_dec : EqDecision kres.
Proof. solve_decision. Defined.
#[global] Instance kres_countable : Countable kres.
Proof.
  refine (inj_countable' (fun r => match r with KTable => (0, 0) | KMajor => (1, 0) | KAltLock i => (2, i) | KTags i => (3, i) | KDisk i => (4, i) | KAdded i => (5, i) | KSysfs i => (6, i) end)%nat
    (fun p => match p with (0, _) => KTable | (1, _) => KMajor | (2, i) => KAltLock i | (3, i) => KTags i | (4, i) => KDisk i | (5, i) => KAdded i | (_, i) => KSysfs i end)%nat _).
  by intros [].
Defined.
(** What must be there as long as something else is. *)
Definition kdeps (r : kres) : list kres :=
  match r with
  | KTable | KMajor => []
  | KAltLock i | KTags i => [KTable]
  | KDisk i => [KTags i; KMajor]
  | KAdded i => [KDisk i; KAltLock i]
  | KSysfs i => [KAdded i]
  end.
(** What is held after some events; [None] if something is taken twice or without what it needs, or given back when it is not held
    or still needed. *)
Fixpoint heldAfter (evs : list kev) (h : gset kres) : option (gset kres) :=
  match evs with
  | [] => Some h
  | Get r :: evs => if bool_decide (r ∉ h) && bool_decide (Forall (fun q => q ∈ h) (kdeps r)) then heldAfter evs ({[r]} ∪ h) else None
  | Put r :: evs => if bool_decide (r ∈ h) && bool_decide (set_Forall (fun q => r ∉ kdeps q) h) then heldAfter evs (h ∖ {[r]}) else None
  end.
Definition kdevOf (r : kres) : option nat :=
  match r with KTable | KMajor => None | KAltLock i | KTags i | KDisk i | KAdded i | KSysfs i => Some i end.
Definition devRes (i : nat) : gset kres := {[KAltLock i; KTags i; KDisk i; KAdded i; KSysfs i]}.
Definition addEvents (i : nat) : list kev := [Get (KAltLock i); Get (KTags i); Get (KDisk i); Get (KAdded i); Get (KSysfs i)].
Definition delEvents (i : nat) : list kev := [Put (KSysfs i); Put (KAdded i); Put (KDisk i); Put (KTags i); Put (KAltLock i)].
Lemma heldAfter_app a b h : heldAfter (a ++ b) h = heldAfter a h ≫= heldAfter b.
Proof. revert h. induction a as [|[r|r] a IH]; intros h; cbn [app heldAfter]; [done|..]; destruct (_ && _); done || apply IH. Qed.
Lemma get_held r evs h : r ∉ h -> (forall q, q ∈ kdeps r -> q ∈ h) -> heldAfter (Get r :: evs) h = heldAfter evs ({[r]} ∪ h).
Proof. intros H1 H2. cbn [heldAfter]. rewrite !bool_decide_eq_true_2; [done|by apply list.Forall_forall|done]. Qed.
Lemma put_held r evs h : r ∈ h -> (forall q, q ∈ h -> r ∉ kdeps q) -> heldAfter (Put r :: evs) h = heldAfter evs (h ∖ {[r]}).
Proof. intros H1 H2. cbn [heldAfter]. rewrite !bool_decide_eq_true_2; done. Qed.
(** No part of device [i] is held. *)
Definition noDev (i : nat) (h : gset kres) : Prop := forall r, kdevOf r = Some i -> r ∉ h.
Lemma add_held i h : KTable ∈ h -> KMajor ∈ h -> noDev i h -> heldAfter (addEvents i) h = Some (devRes i ∪ h).
Proof.
  intros Ht Hm Hn. unfold addEvents.
  rewrite get_held; [|by apply Hn|cbn; set_solver]. rewrite get_held; [|pose proof (Hn (KTags i) eq_refl); set_solver|cbn; set_solver].
  rewrite get_held; [|pose proof (Hn (KDisk i) eq_refl); set_solver|cbn; set_solver]. rewrite get_held; [|pose proof (Hn (KAdded i) eq_refl); set_solver|cbn; set_solver].
  rewrite get_held; [|pose proof (Hn (KSysfs i) eq_refl); set_solver|cbn; set_solver]. cbn [heldAfter]. f_equal. unfold devRes. set_solver.
Qed.
Lemma deps_dev r q i : kdevOf r = Some i -> r ∈ kdeps q -> kdevOf q = Some i.
Proof. destruct q; cbn [kdeps]; rewrite ?elem_of_cons, ?elem_of_nil; naive_solver. Qed.
Lemma del_held i h : noDev i h -> heldAfter (delEvents i) (devRes i ∪ h) = Some h.
Proof.
  intros Hn. unfold delEvents, devRes. pose proof (Hn (KSysfs i) eq_refl). pose proof (Hn (KAdded i) eq_refl). pose proof (Hn (KDisk i) eq_refl). pose proof (Hn (KTags i) eq_refl). pose proof (Hn (KAltLock i) eq_refl).
  assert (forall r q, kdevOf r = Some i -> q ∈ h -> r ∉ kdeps q) as Hd. { intros r q Hr Hq Hi. apply (Hn q); [by apply (deps_dev r)|done]. }
  repeat (rewrite put_held; [|set_solver|intros q Hq; destruct (decide (q ∈ h)) as [Hh|Hh]; [by apply Hd|];
    assert (q = KAltLock i \/ q = KTags i \/ q = KDisk i \/ q = KAdded i \/ q = KSysfs i) as Hcases by set_solver;
    destruct Hcases as [->|[->|[->|[->| ->]]]]; cbn [kdeps]; set_solver]).
  cbn [heldAfter]. f_equal. set_solver.
Qed.
Definition devsRes (l : list nat) : gset kres := ⋃ (map devRes l).
Lemma elem_devRes r i : r ∈ devRes i <-> kdevOf r = Some i.
Proof. unfold devRes. rewrite !elem_of_union, !elem_of_singleton. destruct r; cbn; naive_solver. Qed.
Lemma elem_devsRes r l : r ∈ devsRes l <-> exists i, i ∈ l /\ kdevOf r = Some i.
Proof.
  unfold devsRes. induction l as [|i l IH]; cbn [map union_list foldr].
  - split; [set_solver|intros (i & []%elem_of_nil & _)].
  - rewrite elem_of_union, IH, elem_devRes. setoid_rewrite elem_of_cons. naive_solver.
Qed.
Lemma adds_held l : forall h, base.NoDup l -> KTable ∈ h -> KMajor ∈ h -> (forall i, i ∈ l -> noDev i h) -> heldAfter (concat (map addEvents l)) h = Some (devsRes l ∪ h).
Proof.
  induction l as [|i l IH]; intros h Hd Ht Hm Hn; cbn [map concat]; [cbn [heldAfter]; f_equal; unfold devsRes; cbn; set_solver|].
  apply NoDup_cons in Hd as [Hi Hd]. rewrite heldAfter_app, add_held; [|done|done|apply Hn; by apply elem_of_cons; left]. cbn [mbind option_bind].
  rewrite IH; [f_equal; unfold devsRes; cbn [map]; rewrite union_list_cons; set_solver|done|set_solver|set_solver|].
  intros j Hj r Hr [Hx|Hx]%elem_of_union; [apply elem_devRes in Hx; congruence|]. revert Hx. apply (Hn j); [by apply elem_of_cons; right|done].
Qed.
Lemma dels_held l : forall h, base.NoDup l -> (forall i, i ∈ l -> noDev i h) -> heldAfter (concat (map delEvents l)) (devsRes l ∪ h) = Some h.
Proof.
  induction l as [|i l IH]; intros h Hd Hn; cbn [map concat]; [cbn [heldAfter]; f_equal; unfold devsRes; cbn; set_solver|].
  apply NoDup_cons in Hd as [Hi Hd]. unfold devsRes. cbn [map]. rewrite union_list_cons, <- union_assoc_L. fold (devsRes l).
  rewrite heldAfter_app, del_held; [cbn [mbind option_bind]; apply IH; [done|intros j Hj; apply Hn; by apply elem_of_cons; right]|].
  intros r Hr [(j & Hj & Hx)%elem_devsRes|Hx]%elem_of_union; [congruence|]. revert Hx. apply (Hn i); [by apply elem_of_cons; left|done].
Qed.
Definition env_ok (e : add_env) : Prop := ae_tags e = 0 /\ ae_disk e = 0 /\ ae_add e = 0.
Lemma addDevices_ok env l : (forall i, env_ok (env i)) -> addDevices env l = Ok (0, concat (map addEvents l)).
Proof.
  intros He. induction l as [|i l IH]; [done|]. cbn [addDevices map concat]. destruct (He i) as (H1 & H2 & H3). unfold dnbd3_blk_add_device. rewrite H1, H2, H3. cbn [Z.eqb negb mbind result_bind].
  rewrite IH. done.
Qed.
(** Nothing of the image is left: no name in memory, no connection, and every socket that was opened is released. *)
Definition closed (d : kdevice) : Prop := not_in_use d /\ kx_heap d = ∅ /\ kx_opened d ≡ₚ kx_released d.
Lemma del_device_ok i d : kx_inv d -> exists d', dnbd3_blk_del_device i d = Ok (d', delEvents i) /\ closed d'.
Proof.
  intros [H1 H2 H3 H4]. unfold dnbd3_blk_del_device. destruct (close_ok NULL (x_lock true d)) as (r & d' & -> & [M1 M2 M3 M4] & Hu & _); [apply x_lock_mid; by split|by right|].
  cbn [mbind result_bind]. exists d'. split; [done|]. split; [done|]. pose proof Hu as [U1 U2 U3 U4]. split.
  - apply map_empty. intros p. destruct (kx_heap d' !! p) eqn:E; [|done]. destruct (proj1 (M2 p)) as [Hp [?|?]]; [by rewrite E|congruence|done].
  - by rewrite M4, U3, app_nil_r.
Qed.
Lemma delDevices_ok ds : forall i, Forall kx_inv ds -> exists ds', delDevices i ds = Ok (ds', concat (map delEvents (seq i (length ds)))) /\ Forall closed ds'.
Proof.
  induction ds as [|d ds IH]; intros i H; cbn [delDevices length seq map concat]; [exists []; by split|]. apply list.Forall_cons in H as [Hd Hds].
  destruct (del_device_ok i d Hd) as (d' & -> & Hc). cbn [mbind result_bind]. destruct (IH (S i) Hds) as (ds' & -> & Hcs). cbn [mbind result_bind]. exists (d' :: ds'). split; [done|]. by constructor.
Qed.

(** What programs ask of the devices: which one, what the servers do, the command and its argument. *)
Inductive arg_src := SrcNone | SrcBad (err : Z) | SrcMsg (m : ioctl_msg).
(** Memory for the name is memory that is not in use. *)
Definition freshPtr (d : kdevice) : ptr := fresh ({[NULL]} ∪ dom (kx_heap d) : gset Z).
Definition mkArg (d : kdevice) (a : arg_src) : ioctl_arg :=
  match a with SrcNone => ArgNone | SrcBad err => ArgBad err | SrcMsg m => ArgMsg m (freshPtr d) end.
Record kernel_op := KernelOp { ko_dev : nat; ko_conn : nat -> conn_result; ko_cmd : ioctl_cmd; ko_arg : arg_src }.
Fixpoint runIoctls (ops : list kernel_op) (ds : list kdevice) : result (list kdevice) :=
  match ops with
  | [] => Ok ds
  | op :: ops =>
      match ds !! ko_dev op with
      | None => runIoctls ops ds
      | Some d => '(_, d) ← dnbd3_blk_ioctl (ko_conn op) (ko_cmd op) (mkArg d (ko_arg op)) d; runIoctls ops (<[ko_dev op := d]> ds)
      end
  end.
Definition kernel_op_ok (op : kernel_op) : Prop :=
  (forall i, conn_ok (ko_conn op i)) /\ match ko_arg op with SrcBad err => err < 0 | SrcMsg m => length (im_hosts m) = 8%nat | SrcNone => True end.
Lemma mkArg_ok d a : match a with SrcBad err => err < 0 | SrcMsg m => length (im_hosts m) = 8%nat | SrcNone => True end -> arg_ok (mkArg d a) d.
Proof.
  intros Ha. destruct a as [|err|m]; cbn; [done|done|]. pose proof (is_fresh ({[NULL]} ∪ dom (kx_heap d) : gset Z)) as Hf. fold (freshPtr d) in Hf.
  split_and!; [set_solver| |done]. apply not_elem_of_dom. set_solver.
Qed.
Lemma runIoctls_ok ops : forall ds, Forall kernel_op_ok ops -> Forall kx_inv ds -> exists ds', runIoctls ops ds = Ok ds' /\ Forall kx_inv ds' /\ length ds' = length ds.
Proof.
  induction ops as [|op ops IH]; intros ds Hops Hds; cbn [runIoctls]; [by exists ds|]. apply list.Forall_cons in Hops as [[Hc Ha] Hops].
  destruct (ds !! ko_dev op) as [d|] eqn:E; [|by apply IH]. pose proof (proj1 (list.Forall_lookup _ _) Hds _ _ E) as Hd.
  destruct (blk_ioctl_spec (ko_conn op) (ko_cmd op) (mkArg d (ko_arg op)) d Hd (mkArg_ok d _ Ha) Hc) as (r & d' & -> & Hd' & _). cbn [mbind result_bind].
  destruct (IH (<[ko_dev op := d']> ds) Hops) as (ds' & -> & H1 & H2); [by apply Forall_insert|]. exists ds'. split; [done|]. split; [done|]. by rewrite length_insert in H2.
Qed.
(** C36. The kernel module from loading to unloading, with any number of devices, if loading meets no error (a major number is registered and every device can be added) and memory can
    be allocated in every ioctl; whatever else programs ask of the devices and servers answer in
    between: loading takes, and unloading gives back, everything exactly once and never while something that needs it is there; no
    request faults; and at the end no device has an image name in memory, a connection or an open socket.  What loading does when something fails is shown in [failed_init_leaks] and
    [failed_major_unnoticed]. *)
Theorem module_lifecycle major env max_devs ops :
  0 < major -> (forall i, env_ok (env i)) -> Forall kernel_op_ok ops ->
  exists evs ds ds1 evs' ds2, dnbd3_init true major env max_devs = Ok (0, evs, ds) /\ length ds = max_devs
    /\ runIoctls ops ds = Ok ds1 /\ dnbd3_exit ds1 = Ok (ds2, evs')
    /\ heldAfter evs ∅ = Some (devsRes (seq 0 max_devs) ∪ {[KTable; KMajor]}) /\ heldAfter (evs ++ evs') ∅ = Some ∅ /\ Forall closed ds2.
Proof.
  intros Hm He Hops. unfold dnbd3_init. cbn [negb]. rewrite (proj2 (Z.eqb_neq major 0)) by lia. rewrite (addDevices_ok env _ He), (proj2 (Z.ltb_lt 0 major) Hm). cbn [mbind result_bind Z.eqb].
  assert (Forall kx_inv (replicate max_devs freshDevice)) as Hf by (apply Forall_replicate, freshDevice_inv).
  destruct (runIoctls_ok ops _ Hops Hf) as (ds1 & E1 & Hi1 & Hl1). rewrite length_replicate in Hl1. destruct (delDevices_ok ds1 0 Hi1) as (ds2 & E2 & Hc). rewrite Hl1 in E2.
  assert (heldAfter ([Get KTable; Get KMajor] ++ concat (map addEvents (seq 0 max_devs))) ∅ = Some (devsRes (seq 0 max_devs) ∪ {[KTable; KMajor]})) as Hh.
  { rewrite heldAfter_app. cbn [heldAfter]. rewrite !bool_decide_eq_true_2; [|by constructor|set_solver|by constructor|set_solver]. cbn [andb mbind option_bind].
    rewrite adds_held; [f_equal; set_solver|apply NoDup_seq|set_solver|set_solver|]. intros i _ r Hr. destruct r; cbn in Hr; try done; set_solver. }
  eexists _, _, ds1, _, ds2. split; [done|]. split; [apply length_replicate|]. split; [exact E1|]. unfold dnbd3_exit. rewrite E2. cbn [mbind result_bind]. split; [done|]. split; [exact Hh|]. split; [|done].
  change (Get KTable :: [Get KMajor] ++ ?x) with ([Get KTable; Get KMajor] ++ x). rewrite heldAfter_app, Hh. cbn [mbind option_bind]. rewrite heldAfter_app, dels_held.
  - cbn [mbind option_bind]. rewrite put_held, put_held; [cbn [heldAfter]; f_equal; set_solver|set_solver| |set_solver|]; intros q Hq; (assert (q = KTable \/ q = KMajor) as [->| ->] by set_solver); cbn; set_solver.
  - apply NoDup_seq.
  - intros i _ r Hr. destruct r; cbn in Hr; try done; set_solver.
Qed.
Lemma module_lifecycle_witness :
  exists evs ds ds1 evs' ds2, dnbd3_init true 252 (fun _ => AddEnv 0 0 0) 8 = Ok (0, evs, ds)
    /\ runIoctls [KernelOp 3 (fun _ => CConnected 7 (Some (3, Some [105; 109; 103], 2, 8192)) 8192 true) IOCTL_OPEN (SrcMsg (IoctlMsg (demo_host 1 :: replicate 7 (Host (replicate 16 0) 0 0)) 1 (Some [105]) 0 true))] ds = Ok ds1
    /\ dnbd3_exit ds1 = Ok (ds2, evs') /\ heldAfter (evs ++ evs') ∅ = Some ∅.
Proof.
  destruct (module_lifecycle 252 (fun _ => AddEnv 0 0 0) 8
    [KernelOp 3 (fun _ => CConnected 7 (Some (3, Some [105; 109; 103], 2, 8192)) 8192 true) IOCTL_OPEN (SrcMsg (IoctlMsg (demo_host 1 :: replicate 7 (Host (replicate 16 0) 0 0)) 1 (Some [105]) 0 true))])
    as (evs & ds & ds1 & evs' & ds2 & H1 & _ & H2 & H3 & _ & H4 & _); [lia|by intros i| |].
  - constructor; [|constructor]. split; [intros i; cbn; split; [done|]; split; [done|lia]|reflexivity].
  - by exists evs, ds, ds1, evs', ds2.
Defined.

(** ** Where the code falls short *)

(** When the second device cannot be added, loading fails and everything taken so far stays taken. *)
Lemma failed_init_leaks :
  exists evs, dnbd3_init true 252 (fun i => match i with 1%nat => AddEnv 0 0 (-12) | _ => AddEnv 0 0 0 end) 8 = Ok (- EIO, evs, [])
    /\ (h ← heldAfter evs ∅; Some (bool_decide (KDisk 0 ∈ h) && bool_decide (KMajor ∈ h))) = Some true.
Proof. eexists. split; [reflexivity|]. vm_compute. reflexivity. Qed.
(** A major number that could not be registered is an error code below zero, which is not noticed: the module is loaded without one. *)
Lemma failed_major_unnoticed :
  exists evs ds, dnbd3_init true (-16) (fun _ => AddEnv 0 0 0) 1 = Ok (0, evs, ds) /\ heldAfter evs ∅ = None.
Proof. eexists _, _. split; [reflexivity|]. vm_compute. reflexivity. Qed.
(** When tags or disk cannot be allocated, printing the message about it follows a pointer that is none. *)
Lemma failed_disk_crashes : dnbd3_blk_add_device (AddEnv 0 (-12) 0) 0 = Fault NullDeref /\ dnbd3_blk_add_device (AddEnv (-12) 0 0) 0 = Fault NullDeref.
Proof. done. Qed.
