(* ===== verification/ImageScan.v ===== *)
(** * ImageScan: finding images on disk ([server/image.c]: [image_loadAll], [image_load_all_internal])

    The directories below the base path are searched for image files, and images whose file has vanished are taken out of the list.
    The file system is given by what [readdir] and [stat] say of a path.  The search recurses into directories; how many
    calls fit on the stack is an argument, and one more is a fault. *)

From Stdlib Require Import Ascii.
From S2P Require Import Prelude Timing Types Helper Images ImageName.
Open Scope Z_scope.

(** ** Scanning *)

Definition SUBDIR_LEN : nat := 150.
Definition SLASH : ascii := "/".
(** [snprintf] of directory and name into [subpath]. *)
Definition joinPath (path name : list ascii) : list ascii :=
  take (Z.to_nat (PATHLEN - 1))
    (if bool_decide (head name = Some SLASH) || bool_decide (list.last path = Some SLASH) then path ++ name else path ++ SLASH :: name).
Section Scan.
(** The names in a directory, [None] if it cannot be opened; whether a path is a directory, [None] if [stat] fails;
    and whether the server is stopping when this is looked at for the n-th time. *)
Context (fs_dir : list ascii -> option (list (list ascii))).
Context (fs_stat : list ascii -> option bool).
Context (down : nat -> bool).
(** The paths [image_load] is called with, and how often was looked. *)
Definition scan_state : Type := list (list ascii) * nat.
Definition scanEntry (rec : list ascii -> nat -> result (bool * scan_state)) (path name : list ascii) (t : nat) : result scan_state :=
  if bool_decide (head name = Some "."%char) then Ok ([], t)
  else if (SUBDIR_LEN <? length name)%nat then Ok ([], t)
  else
    let subpath := joinPath path name in
    match fs_stat subpath with
    | None => Ok ([], t)
    | Some true => '(_, s) ← rec subpath t; Ok s
    | Some false => Ok (if isForbiddenExtension subpath then [] else [subpath], t)
    end.
Fixpoint scanEntries (rec : list ascii -> nat -> result (bool * scan_state)) (path : list ascii) (names : list (list ascii)) (t : nat) : result scan_state :=
  match names with
  | [] => Ok ([], S t)
  | name :: names =>
      if down t then Ok ([], S t)
      else
        '(loads, t) ← scanEntry rec path name (S t);
        '(more, t) ← scanEntries rec path names t;
        Ok (loads ++ more, t)
  end.
Fixpoint image_load_all_internal (stack : nat) (path : list ascii) (t : nat) : result (bool * scan_state) :=
  match stack with
  | O => Fault OutOfBounds
  | S stack =>
      _ ← assert_ (bool_decide (head path = Some SLASH));
      match fs_dir path with
      | None => Ok (false, ([], t))
      | Some names => s ← scanEntries (image_load_all_internal stack) path names t; Ok (true, s)
      end
  end.

(** ** Images that have vanished *)

Context (readable : list ascii -> bool).
(** The loop from slot [n - 1] down; nobody else changes the list while it is unlocked. *)
Fixpoint sweepLoop (n : nat) (t : nat) (s : image_list) : result (image_list * nat) :=
  match n with
  | O => Ok (s, t)
  | S i =>
      if down t then Ok (s, S t)
      else
        match il_images s !! i with
        | None => sweepLoop i (S t) s
        | Some p =>
            if p =? NULL then sweepLoop i (S t) (il_set_images (trimAt i (il_images s)) s)
            else
              img ← deref s p;
              if readable (take (Z.to_nat (PATHLEN - 1)) (chars (img_path img))) then sweepLoop i (S t) s
              else
                '(s, free) ← dropVanished s i (img_id img);
                s ← match free with Some p => '(s, _) ← image_free s p; Ok s | None => Ok s end;
                sweepLoop i (S t) s
        end
  end.
(** The result, the list, and the paths that [image_load] is called with.  [locked]: nobody else is loading the list. *)
Definition image_loadAll (locked removeMissing : bool) (stack : nat) (base : list ascii) (s : image_list) : result (bool * image_list * list (list ascii)) :=
  if negb locked then Ok (false, s, [])
  else
    '(s, t) ← (if removeMissing then sweepLoop (length (il_images s)) 0 s else Ok (s, 0%nat));
    if removeMissing && down t then Ok (true, s, [])
    else
      '(ret, (loads, _)) ← image_load_all_internal stack base (S t);
      Ok (ret, s, loads).
End Scan.

(** * Properties *)

(** ** Exactly the images below the base path are loaded *)

Definition visible (name : list ascii) : Prop := head name <> Some "."%char /\ (length name <= SUBDIR_LEN)%nat.
Definition sub (path name : list ascii) : list ascii := path ++ SLASH :: name.
Section ScanSpec.
Context (fs_dir : list ascii -> option (list (list ascii))).
Context (fs_stat : list ascii -> option bool).
(** A file that is to be loaded, below a directory. *)
Inductive found (path : list ascii) : list ascii -> Prop :=
| FoundFile names name :
    fs_dir path = Some names -> name ∈ names -> visible name -> fs_stat (sub path name) = Some false -> isForbiddenExtension (sub path name) = false ->
    found path (sub path name)
| FoundBelow names name p :
    fs_dir path = Some names -> name ∈ names -> visible name -> fs_stat (sub path name) = Some true -> found (sub path name) p -> found path p.
(** What the system promises of names, and that no directory is so deep that paths are cut. *)
Definition names_ok : Prop := forall path names name, fs_dir path = Some names -> name ∈ names -> name <> [] /\ SLASH ∉ name.
Definition dirs_short : Prop := forall path, fs_stat path = Some true -> Z.of_nat (length path) + 152 <= PATHLEN.
Record dir_ok (path : list ascii) : Prop := DirOk {
  do_head : head path = Some SLASH;
  do_last : list.last path <> Some SLASH;
  do_short : Z.of_nat (length path) + 152 <= PATHLEN;
}.
Lemma join_ok path name : dir_ok path -> name <> [] -> SLASH ∉ name -> visible name -> joinPath path name = sub path name.
Proof.
  intros [Hh Hl Hs] Hn Hno [_ Hv]. unfold joinPath, sub. rewrite (bool_decide_eq_false_2 (list.last path = _)) by done. rewrite bool_decide_eq_false_2.
  - cbn [orb]. apply take_ge. rewrite length_app. cbn [length]. unfold PATHLEN, SUBDIR_LEN in *. lia.
  - destruct name as [|c name]; [done|]. cbn. intros [= ->]. apply Hno. by apply elem_of_cons; left.
Qed.
Lemma last_sub path name : name <> [] -> SLASH ∉ name -> list.last (sub path name) <> Some SLASH.
Proof.
  intros Hn Hno. unfold sub. destruct (list.last name) as [c|] eqn:E; [|by apply last_None in E]. apply last_Some in E as [l ->].
  rewrite app_comm_cons, app_assoc, last_snoc. intros [= ->]. apply Hno. apply elem_of_app. right. by apply elem_of_cons; left.
Qed.
Lemma sub_ok path name : dirs_short -> dir_ok path -> name <> [] -> SLASH ∉ name -> fs_stat (sub path name) = Some true -> dir_ok (sub path name).
Proof.
  intros Hd [Hh Hl Hs] Hn Hno Hst. split; [|by apply last_sub|by apply Hd]. unfold sub. destruct path; [done|]. exact Hh.
Qed.
Definition entry_found (path name p : list ascii) : Prop :=
  visible name /\ (fs_stat (sub path name) = Some false /\ isForbiddenExtension (sub path name) = false /\ p = sub path name \/ fs_stat (sub path name) = Some true /\ found (sub path name) p).
Definition never (t : nat) : bool := false.
Lemma scanEntry_exact rec path name t :
  dir_ok path -> name <> [] -> SLASH ∉ name ->
  (fs_stat (sub path name) = Some true -> exists ok loads t', rec (sub path name) t = Ok (ok, (loads, t')) /\ forall p, p ∈ loads <-> found (sub path name) p) ->
  exists loads t', scanEntry fs_stat rec path name t = Ok (loads, t') /\ forall p, p ∈ loads <-> entry_found path name p.
Proof.
  intros Hp Hn Hno Hrec. unfold scanEntry, entry_found. case_bool_decide as Hh.
  { exists [], t. split; [done|]. intros p. unfold visible. rewrite elem_of_nil. naive_solver. }
  destruct (Nat.ltb_spec SUBDIR_LEN (length name)).
  { exists [], t. split; [done|]. intros p. unfold visible. rewrite elem_of_nil. split; [done|]. intros [[_ ?] _]. lia. }
  assert (visible name) as Hv by done. rewrite join_ok by done. destruct (fs_stat (sub path name)) as [[]|] eqn:E.
  - destruct (Hrec eq_refl) as (ok & loads & t' & -> & Hl). cbn [mbind result_bind]. exists loads, t'. split; [done|]. intros p. rewrite Hl. naive_solver.
  - eexists _, t. split; [done|]. intros p. destruct (isForbiddenExtension (sub path name)); rewrite ?list_elem_of_singleton, ?elem_of_nil; naive_solver.
  - exists [], t. split; [done|]. intros p. rewrite elem_of_nil. naive_solver.
Qed.
Lemma scanEntries_exact rec path names :
  dir_ok path -> (forall name, name ∈ names -> name <> [] /\ SLASH ∉ name) ->
  (forall name t, name ∈ names -> fs_stat (sub path name) = Some true -> exists ok loads t', rec (sub path name) t = Ok (ok, (loads, t')) /\ forall p, p ∈ loads <-> found (sub path name) p) ->
  forall t, exists loads t', scanEntries fs_stat never rec path names t = Ok (loads, t') /\ forall p, p ∈ loads <-> exists name, name ∈ names /\ entry_found path name p.
Proof.
  intros Hp. induction names as [|name names IH]; intros Hn Hrec t; cbn [scanEntries].
  { exists [], (S t). split; [done|]. intros p. rewrite elem_of_nil. split; [done|]. intros (n & []%elem_of_nil & _). }
  destruct (Hn name) as [Hn1 Hn2]; [by apply elem_of_cons; left|]. change (never t) with false. cbv iota.
  destruct (scanEntry_exact rec path name (S t) Hp Hn1 Hn2) as (l1 & t1 & -> & H1); [apply Hrec; by apply elem_of_cons; left|]. cbn [mbind result_bind].
  destruct (IH (fun n H => Hn n (proj2 (elem_of_cons _ _ _) (or_intror H))) (fun n u H => Hrec n u (proj2 (elem_of_cons _ _ _) (or_intror H))) t1) as (l2 & t2 & -> & H2). cbn [mbind result_bind].
  exists (l1 ++ l2), t2. split; [done|]. intros p. rewrite elem_of_app, H1, H2. setoid_rewrite elem_of_cons. naive_solver.
Qed.
Lemma found_entry path p : found path p <-> exists names name, fs_dir path = Some names /\ name ∈ names /\ entry_found path name p.
Proof.
  unfold entry_found. split.
  - intros []; eauto 10.
  - intros (names & name & H1 & H2 & H3 & [(H4 & H5 & ->)|[H4 H5]]); [by eapply FoundFile|by eapply FoundBelow].
Qed.
Lemma scan_exact_from stack : names_ok -> dirs_short -> forall path t, dir_ok path -> PATHLEN - Z.of_nat (length path) <= Z.of_nat stack ->
  exists ok loads t', image_load_all_internal fs_dir fs_stat never stack path t = Ok (ok, (loads, t')) /\ (ok = true <-> is_Some (fs_dir path)) /\ forall p, p ∈ loads <-> found path p.
Proof.
  intros Hno Hsh. induction stack as [|stack IH]; intros path t Hp Hs; cbn [image_load_all_internal]; [destruct Hp; lia|].
  rewrite bool_decide_eq_true_2 by apply Hp. cbn [assert_ mbind result_bind]. destruct (fs_dir path) as [names|] eqn:E.
  - destruct (scanEntries_exact (image_load_all_internal fs_dir fs_stat never stack) path names Hp) with (t := t) as (loads & t' & -> & Hl).
    + intros name Hin. by apply (Hno path names).
    + intros name u Hin Hst. destruct (Hno path names name E Hin) as [H1 H2].
      destruct (IH (sub path name) u) as (ok & loads & t' & -> & _ & Hl); [by apply sub_ok| |by exists ok, loads, t'].
      unfold sub. rewrite length_app. destruct name; [done|]. cbn [length]. lia.
    + cbn [mbind result_bind]. exists true, loads, t'. split; [done|]. split; [by split|]. intros p. rewrite Hl, found_entry. split; [intros (n & ? & ?); by exists names, n|].
      intros (ns & n & H1 & H2 & H3). rewrite E in H1. injection H1 as ->. by exists n.
  - exists false, [], t. split; [done|]. split; [by split; [|intros [? ?]]|]. intros p. rewrite elem_of_nil, found_entry. split; [done|]. intros (ns & n & H1 & _). congruence.
Qed.
End ScanSpec.

(** ** What is loaded has a proper path *)

Record below (base p : list ascii) : Prop := Below {
  bl_split : exists pre file, p = base ++ SLASH :: pre ++ file /\ (pre = [] \/ exists a, pre = a ++ [SLASH]) /\ head (pre ++ file) <> Some SLASH /\ (SLASH ∉ file) /\ file <> [];
}.
Lemma head_name (name : list ascii) : SLASH ∉ name -> head name <> Some SLASH.
Proof. intros Hn. destruct name as [|c name]; [done|]. cbn. intros [= ->]. apply Hn. by apply elem_of_cons; left. Qed.
Lemma below_sub base path name : path = base \/ below base path -> name <> [] -> SLASH ∉ name -> below base (sub path name).
Proof.
  intros Hp Hn Hno. split. destruct Hp as [->|[(pre & file & -> & Hpre & Hh & Hf & Hne)]].
  - exists [], name. split_and!; [done|by left|by apply head_name|done|done].
  - exists (pre ++ file ++ [SLASH]), name. split_and!; [| | |done|done].
    + unfold sub. rewrite <- !app_assoc. cbn [app]. by rewrite <- !app_assoc.
    + right. exists (pre ++ file). by rewrite app_assoc.
    + revert Hh. destruct pre as [|c pre]; [|done]. destruct file as [|c file]; [done|]. done.
Qed.
Lemma found_below fs_dir fs_stat base path p : names_ok fs_dir -> path = base \/ below base path -> found fs_dir fs_stat path p -> below base p.
Proof.
  intros Hno Hp Hf. revert Hp. induction Hf as [path names name H1 H2 H3 H4 H5|path names name p H1 H2 H3 H4 H5 IH]; intros Hp; destruct (Hno _ _ _ H1 H2) as [Hn1 Hn2].
  - by apply below_sub.
  - apply IH. right. by apply below_sub.
Qed.
Lemma below_parses readable base p : base_ok base -> below base p -> exists r, parsePath false readable base p = Ok r.
Proof. intros Hb [(pre & file & -> & Hpre & Hh & Hf & Hne)]. by apply parsePath_total. Qed.

(** Searching the base path for images, with any file system whose directories are not deeper than paths may be long and a stack
    that holds as many calls: the search ends, and [image_load] is called for exactly the files below the base path that
    are not hidden, not in hidden directories and not of another kind; every path it is called with passes the checks at its
    start.  The result is false only if the base path cannot be read. *)
Theorem scan_finds_images fs_dir fs_stat readable stack base t :
  names_ok fs_dir -> dirs_short fs_stat -> base_ok base -> Z.of_nat (length base) + 152 <= PATHLEN -> PATHLEN <= Z.of_nat stack ->
  exists ok loads t', image_load_all_internal fs_dir fs_stat never stack base t = Ok (ok, (loads, t')) /\ (ok = true <-> is_Some (fs_dir base))
    /\ (forall p, p ∈ loads <-> found fs_dir fs_stat base p) /\ forall p, p ∈ loads -> exists r, parsePath false readable base p = Ok r.
Proof.
  intros Hno Hsh Hb Hl Hs. destruct (scan_exact_from fs_dir fs_stat stack Hno Hsh base t) as (ok & loads & t' & E & Hok & Hp); [|lia|].
  - destruct Hb as [H1 (c & H2 & H3)]. split; [done|rewrite H2; unfold SLASH; congruence|done].
  - exists ok, loads, t'. split_and!; [done|done|done|]. intros p Hin. apply below_parses; [done|]. eapply found_below; [done|by left|by apply Hp].
Qed.
Definition demo_dir (p : list ascii) : option (list (list ascii)) :=
  if decide (p = chars "/img") then Some [chars "."; chars ".."; chars "win.r3"; chars "win.r3.map"; chars "lab"]
  else if decide (p = chars "/img/lab") then Some [chars "linux.r1"] else None.
Definition demo_stat (p : list ascii) : option bool :=
  if decide (p = chars "/img/lab") then Some true
  else if decide (p = chars "/img/win.r3") then Some false else if decide (p = chars "/img/win.r3.map") then Some false else if decide (p = chars "/img/lab/linux.r1") then Some false else None.
Lemma scan_finds_images_witness :
  exists loads t', image_load_all_internal demo_dir demo_stat never (Z.to_nat 2000) (chars "/img") 0 = Ok (true, (loads, t')) /\ forall p, p ∈ loads <-> found demo_dir demo_stat (chars "/img") p.
Proof.
  destruct (scan_finds_images demo_dir demo_stat true (Z.to_nat 2000) (chars "/img") 0) as (ok & loads & t' & E & Hok & Hp & _).
  - intros path names name. unfold demo_dir. repeat case_decide; intros [= <-]; rewrite !elem_of_cons, elem_of_nil; intros Hin;
      repeat (destruct Hin as [->|Hin]; [split; [discriminate|by apply (bool_decide_eq_true_1 _)]|]); done.
  - intros path. unfold demo_stat. repeat case_decide; try discriminate. intros _. subst. vm_compute. congruence.
  - split; [reflexivity|]. exists "g"%char. split; [reflexivity|discriminate].
  - vm_compute. congruence.
  - rewrite Z2Nat.id; [reflexivity|lia].
  - exists loads, t'. assert (ok = true) as -> by (apply Hok; vm_compute; by eexists). split; [exact E|exact Hp].
Defined.

(** ** Stopping while images are loaded *)

Section Stop.
Context (fs_dir : list ascii -> option (list (list ascii))).
Context (fs_stat : list ascii -> option bool).
Context (down : nat -> bool).
(** Once the server stops it does not start again. *)
Hypothesis down_stays : forall t t', (t <= t')%nat -> down t = true -> down t' = true.
(** The search that is stopped, compared with the one that is not. *)
Definition stops_early (t : nat) (s s' : scan_state) : Prop :=
  (t <= s.2)%nat /\ (down s.2 = false -> s = s') /\ s.1 `prefix_of` s'.1.
Lemma scanEntry_stops rec rec' path name t s' :
  (forall p u b r, rec' p u = Ok (b, r) -> exists b' r', rec p u = Ok (b', r') /\ stops_early u r' r) ->
  scanEntry fs_stat rec' path name t = Ok s' -> exists s, scanEntry fs_stat rec path name t = Ok s /\ stops_early t s s'.
Proof.
  intros Hrec. unfold scanEntry. case_bool_decide; [|destruct (_ <? _)%nat; [|destruct (fs_stat _) as [[]|]]]; try (intros [= <-]; eexists; split; [done|]; by split_and!).
  destruct (rec' (joinPath path name) t) as [[b r]|] eqn:E; [|done]. cbn [mbind result_bind]. intros [= <-]. destruct (Hrec _ _ _ _ E) as (b' & r' & -> & Hs). cbn [mbind result_bind]. by exists r'.
Qed.
Lemma scanEntries_stops rec rec' path names :
  (forall p u b r, rec' p u = Ok (b, r) -> exists b' r', rec p u = Ok (b', r') /\ stops_early u r' r) ->
  forall t s', scanEntries fs_stat never rec' path names t = Ok s' -> exists s, scanEntries fs_stat down rec path names t = Ok s /\ stops_early t s s'.
Proof.
  intros Hrec. induction names as [|name names IH]; intros t s'; cbn [scanEntries].
  { intros [= <-]. eexists. split; [done|]. split_and!; cbn; [lia|done|done]. }
  change (never t) with false. cbv iota. destruct (scanEntry fs_stat rec' path name (S t)) as [[l1' t1']|] eqn:E1; [|done]. cbn [mbind result_bind].
  destruct (scanEntries fs_stat never rec' path names t1') as [[l2' t2']|] eqn:E2; [|done]. cbn [mbind result_bind]. intros [= <-].
  destruct (down t) eqn:Ed.
  { eexists. split; [done|]. split_and!; cbn; [lia| |by apply prefix_nil]. rewrite (down_stays t (S t)); [done|lia|done]. }
  destruct (scanEntry_stops rec rec' path name (S t) _ Hrec E1) as ([l1 t1] & -> & Ht1 & Heq & Hpre). cbn [fst snd] in *. cbn [mbind result_bind].
  destruct (down t1) eqn:Ed1.
  - assert (scanEntries fs_stat down rec path names t1 = Ok ([], S t1)) as ->. { destruct names as [|n names]; cbn [scanEntries]; [done|]. by rewrite Ed1. }
    cbn [mbind result_bind]. eexists. split; [done|]. split_and!; cbn; [lia| |rewrite app_nil_r; by apply prefix_app_r]. rewrite (down_stays t1 (S t1)); [done|lia|done].
  - specialize (Heq eq_refl). injection Heq as <- <-. destruct (IH t1 _ E2) as ([l2 t2] & -> & Ht2 & Heq2 & Hpre2). cbn [fst snd] in *. cbn [mbind result_bind]. eexists. split; [done|].
    split_and!; cbn; [lia| |by apply prefix_app]. intros Hd. specialize (Heq2 Hd). by injection Heq2 as -> ->.
Qed.
(** A server that is stopped while it searches for images has loaded a part of them, in the same order. *)
Lemma scan_stops stack : forall path t b s', image_load_all_internal fs_dir fs_stat never stack path t = Ok (b, s') ->
  exists b' s, image_load_all_internal fs_dir fs_stat down stack path t = Ok (b', s) /\ stops_early t s s'.
Proof.
  induction stack as [|stack IH]; intros path t b s'; cbn [image_load_all_internal]; [done|]. destruct (assert_ _); [|done]. cbn [mbind result_bind]. destruct (fs_dir path) as [names|].
  - destruct (scanEntries fs_stat never _ path names t) as [r|] eqn:E; [|done]. cbn [mbind result_bind]. intros [= <- <-].
    destruct (scanEntries_stops (image_load_all_internal fs_dir fs_stat down stack) (image_load_all_internal fs_dir fs_stat never stack) path names IH t r E) as (s & -> & Hs). cbn [mbind result_bind]. by exists true, s.
  - intros [= <- <-]. eexists _, _. split; [done|]. by split_and!.
Qed.
End Stop.

(** ** Images that have vanished *)

Lemma trimAt_keeps i l j p : p <> NULL -> l !! j = Some p -> trimAt i l !! j = Some p.
Proof.
  intros Hp Hl. unfold trimAt. destruct (_ && _) eqn:E; [|done]. apply andb_true_iff in E as [E%bool_decide_eq_true L%Nat.eqb_eq].
  pose proof (lookup_lt_Some _ _ _ Hl). destruct (decide (j = i)) as [->|]; [congruence|]. by rewrite lookup_take_lt by lia.
Qed.
Lemma trimAt_sub i l j p : trimAt i l !! j = Some p -> l !! j = Some p.
Proof. unfold trimAt. destruct (_ && _); [|done]. by intros [? _]%lookup_take_Some. Qed.
Lemma image_free_frame s p img : p <> NULL -> il_heap s !! p = Some img -> img_users img = 0 ->
  exists s' gone, image_free s p = Ok (s', gone) /\ il_images s' = il_images s /\ forall q, q <> p -> il_heap s' !! q = il_heap s !! q.
Proof.
  intros Hp Hh Hu. assert (deref s p = Ok img) as Hd by (unfold deref; by rewrite (proj2 (Z.eqb_neq _ _) Hp), Hh).
  unfold image_free, uplink_shutdown, addUsers. rewrite Hd. cbn [mbind result_bind]. rewrite Hu. cbn [Z.eqb assert_ mbind result_bind].
  case_bool_decide; cbn [mbind result_bind]; eexists _, _; (split; [done|]); (split; [done|]); intros q Hq; cbn; [by rewrite lookup_insert_ne|by rewrite lookup_delete_ne].
Qed.
(** Every listed image is there, in one slot. *)
Record listed_once (s : image_list) : Prop := ListedOnce {
  lo_heap : forall i p, il_images s !! i = Some p -> p <> NULL -> is_Some (il_heap s !! p);
  lo_once : forall i j p, il_images s !! i = Some p -> il_images s !! j = Some p -> p <> NULL -> i = j;
}.
Section Sweep.
Context (readable : list ascii -> bool).
Definition imageReadable (img : dnbd3_image_t) : bool := readable (take (Z.to_nat (PATHLEN - 1)) (chars (img_path img))).
(** The slots from [n] on are swept. *)
Record swept (n : nat) (s0 s : image_list) : Prop := Swept {
  sw_sub : forall i p, il_images s !! i = Some p -> p <> NULL -> il_images s0 !! i = Some p /\ ((n <= i)%nat -> forall img, il_heap s0 !! p = Some img -> imageReadable img = true);
  sw_kept : forall i p img, il_images s0 !! i = Some p -> p <> NULL -> il_heap s0 !! p = Some img -> imageReadable img = true \/ (i < n)%nat ->
    il_images s !! i = Some p /\ il_heap s !! p = Some img;
}.
Lemma swept_trim n s0 s : listed_once s0 -> swept (S n) s0 s -> (forall p, il_images s !! n = Some p -> p = NULL) -> swept n s0 (il_set_images (trimAt n (il_images s)) s).
Proof.
  intros Hl [H1 H2] Hn. split.
  - intros i p Hi Hp. apply trimAt_sub in Hi. destruct (H1 i p Hi Hp) as [? Hr]. split; [done|]. intros Hni. apply Hr. destruct (decide (i = n)) as [->|]; [by apply Hn in Hi|lia].
  - intros i p img Hi Hp Hh Hr. destruct (decide (i = n)) as [->|Hne].
    + destruct (H2 n p img Hi Hp Hh (or_intror (Nat.lt_succ_diag_r n))) as [Hx _]. by apply Hn in Hx.
    + destruct (H2 i p img Hi Hp Hh) as [Hx Hy]; [destruct Hr; [by left|right; lia]|]. split; [by apply trimAt_keeps|done].
Qed.
Lemma swept_keep n s0 s p img : swept (S n) s0 s -> il_images s !! n = Some p -> il_heap s0 !! p = Some img -> imageReadable img = true -> swept n s0 s.
Proof.
  intros [H1 H2] Hn Hh Hr. split.
  - intros i q Hi Hq. destruct (H1 i q Hi Hq) as [? Hx]. split; [done|]. intros Hni img' Hh'. destruct (decide (i = n)) as [->|]; [congruence|]. apply Hx; [lia|done].
  - intros i q img' Hi Hq Hh' Hx. apply (H2 i q img' Hi Hq Hh'). destruct Hx; [by left|right; lia].
Qed.
(** Dropping a slot and changing at most what its image is. *)
Lemma swept_drop n s0 s s' p img : listed_once s0 -> swept (S n) s0 s -> il_images s !! n = Some p -> p <> NULL -> il_heap s0 !! p = Some img -> imageReadable img = false ->
  il_images s' = trimAt n (<[n := NULL]> (il_images s)) -> (forall q, q <> p -> il_heap s' !! q = il_heap s !! q) -> swept n s0 s'.
Proof.
  intros [_ Hl] [H1 H2] Hn Hp Hh Hr Hi' Hh'. split.
  - intros i q Hi Hq. rewrite Hi' in Hi. apply trimAt_sub in Hi. destruct (decide (i = n)) as [->|Hne].
    { rewrite list_lookup_insert_eq in Hi by (by eapply lookup_lt_Some). congruence. }
    rewrite list_lookup_insert_ne in Hi by done. destruct (H1 i q Hi Hq) as [? Hx]. split; [done|]. intros Hni. apply Hx. lia.
  - intros i q img' Hi Hq Hhq Hx. destruct (H1 n p Hn Hp) as [Hn0 _]. destruct (decide (i = n)) as [->|Hne].
    { assert (q = p) as -> by congruence. assert (img' = img) as -> by congruence. destruct Hx; [congruence|lia]. }
    assert (q <> p) as Hqp. { intros ->. apply Hne. by apply (Hl i n p). }
    destruct (H2 i q img' Hi Hq Hhq) as [Hy Hz]; [destruct Hx; [by left|right; lia]|]. rewrite Hi', Hh' by done. split; [|done]. apply trimAt_keeps; [done|]. by rewrite list_lookup_insert_ne.
Qed.
Lemma sweepLoop_ok s0 : listed_once s0 -> forall n t s, swept n s0 s -> exists s' t', sweepLoop never readable n t s = Ok (s', t') /\ swept 0 s0 s'.
Proof.
  intros Hl. induction n as [|n IH]; intros t s Hs; cbn [sweepLoop]; [by exists s, t|]. change (never t) with false. cbv iota. destruct (il_images s !! n) as [p|] eqn:En.
  2: { apply IH. assert (swept n s0 (il_set_images (trimAt n (il_images s)) s)) as Hx by (apply swept_trim; [done|done|congruence]). revert Hx. unfold trimAt. rewrite En. cbn. by destruct s. }
  destruct (Z.eqb_spec p NULL) as [->|Hp]; [apply IH, swept_trim; [done|done|congruence]|].
  destruct (sw_sub _ _ _ Hs n p En Hp) as [En0 _]. destruct (lo_heap _ Hl n p En0 Hp) as [img Hh0]. destruct (sw_kept _ _ _ Hs n p img En0 Hp Hh0 (or_intror (Nat.lt_succ_diag_r n))) as [_ Hh].
  assert (deref s p = Ok img) as Hd by (unfold deref; by rewrite (proj2 (Z.eqb_neq _ _) Hp), Hh). rewrite Hd. cbn [mbind result_bind]. fold (imageReadable img).
  destruct (imageReadable img) eqn:Er; [by apply IH, (swept_keep n s0 s p img)|].
  unfold dropVanished. rewrite En, (proj2 (Z.eqb_neq _ _) Hp), Hd. cbn [mbind result_bind]. rewrite Z.eqb_refl. cbn [negb]. destruct (Z.eqb_spec (img_users img) 0) as [Hu|Hu]; cbn [mbind result_bind].
  - destruct (image_free_frame (il_set_images (trimAt n (<[n := NULL]> (il_images s))) s) p img Hp Hh Hu) as (s1 & gone & -> & Hi1 & Hq1). cbn [mbind result_bind]. apply IH. by apply (swept_drop n s0 s s1 p img).
  - apply IH. by apply (swept_drop n s0 s _ p img).
Qed.
End Sweep.
Definition demo_listed (path : string) (users : Z) : dnbd3_image_t := img_set_users users (freshImage path "win" None None 0 4096 4096 3 (-1) (Ticks 0 0) (Ticks 0 0)).

(** ** Where the code falls short *)

(** A directory whose path has exactly as many characters as fit: the path of everything in it is cut to the directory's own, so the
    search calls itself for the same directory until the stack is used up. *)
Lemma cut_path_recurses_for_ever path name stack t :
  head path = Some SLASH -> Z.of_nat (length path) = PATHLEN - 1 -> visible name ->
  image_load_all_internal (fun _ => Some [name]) (fun _ => Some true) never stack path t = Fault OutOfBounds.
Proof.
  intros Hh Hl [Hv1 Hv2]. revert t. induction stack as [|stack IH]; intros t; cbn [image_load_all_internal]; [done|]. rewrite bool_decide_eq_true_2 by done. cbn [assert_ mbind result_bind scanEntries].
  change (never t) with false. cbv iota. unfold scanEntry. rewrite bool_decide_eq_false_2 by done. rewrite (proj2 (Nat.ltb_ge _ _)) by done.
  assert (joinPath path name = path) as ->. { unfold joinPath. destruct (_ || _); by rewrite take_app_length' by lia. }
  by rewrite IH.
Qed.
