(* ===== verification/Report.v ===== *)
(** * Report: what the status interface tells
      ([rpc.c]: [handleStatus], [rpc_init], [rpc_sendErrorMessage]; [image.c]: [image_getListAsJson]; [net.c]: [net_getListAsJson];
      [altservers.c]: [altservers_toJson]; [uplink.c]: [uplink_getHostString])

    The documents are values of [json]; turning them into text is the JSON library's and an argument.  The theorem
    is about what somebody learns who is not permitted everything. *)

From Stdlib Require Import Ascii.
From S2P Require Import Prelude Timing Types Helper CacheMap Images RpcAcl Sockets Rpc Log.
Open Scope Z_scope.

Inductive json := JNull | JInt (n : Z) | JBool (b : bool) | JString (s : string) | JArray (l : list json) | JObject (fields : list (string * json)).
Definition JI (n : Z) : json := JInt (i64 n).   (* [(json_int_t)] *)

(** ** The lists *)

Definition HOSTNAMELEN : nat := 48.
(** A client; [cr_image] is the id of its image if it has one. *)
Record client_row := ClientRow { cr_hostName : string; cr_image : option Z; cr_isServer : bool; cr_bytesSent : Z }.
Definition clientJson (c : client_row) : option json :=
  match cr_image c with
  | None => None
  | Some imgId =>
      Some (JObject [("address", JString (String.substring 0 (HOSTNAMELEN - 1) (cr_hostName c))); ("imageId", JInt imgId);
                     ("isServer", JInt (if cr_isServer c then 1 else 0)); ("bytesSent", JI (cr_bytesSent c))])
  end.
(** The table has empty slots. *)
Definition net_getListAsJson (clients : list (option client_row)) : json := JArray (omap (fun c => c ≫= clientJson) clients).

Definition addproblem (flag : bool) (bit problems : Z) : Z := if flag then Z.lor problems (2 ^ bit) else problems.
Definition problemBits (p : image_problems) : Z :=
  addproblem (pr_queue p) 4 (addproblem (pr_uplink p) 3 (addproblem (pr_changed p) 2 (addproblem (pr_write p) 1 (addproblem (pr_read p) 0 0)))).
(** An image's uplink: the bytes it received and the name of its server, empty if there is none. *)
Record uplink_row := UplinkRow { ur_bytesReceived : Z; ur_server : string }.
(** [uplink_getHostString]: [toString] is [altservers_toString]. *)
Definition uplink_getHostString (toString : Z -> option string) (fd index : Z) : option string :=
  let current := if fd =? -1 then -1 else index in
  if current =? -1 then None else toString current.
Definition imageJson (now : ticks) (completeness : Z) (image : dnbd3_image_t) (uplink : option uplink_row) : json :=
  let '(bytesReceived, uplinkName) := match uplink with None => (0, "") | Some u => (ur_bytesReceived u, ur_server u) end in
  JObject ([("id", JInt (img_id image)); ("name", JString (img_name image)); ("rid", JInt (img_rid image)); ("users", JInt (img_users image));
            ("complete", JInt completeness); ("idle", JInt (i32 (timing_diff (img_atime image) now))); ("size", JI (img_virtualFilesize image));
            ("problems", JInt (problemBits (img_problem image)))]
           ++ (if negb (bytesReceived =? 0) then [("bytesReceived", JI bytesReceived)] else [])
           ++ (if bool_decide (uplinkName = "") then [] else [("uplinkServer", JString uplinkName)])).
(** [rand] is the value of the random number generator for an image; the estimates are remembered. *)
Fixpoint imagesJson (now : ticks) (rand : ptr -> Z) (uplinks : ptr -> option uplink_row) (l : list ptr) (s : image_list) : result (list json * image_list) :=
  match l with
  | [] => Ok ([], s)
  | p :: l =>
      if p =? NULL then imagesJson now rand uplinks l s
      else
        image ← deref s p;
        '(completeness, image) ← image_getCompletenessEstimate now (rand p) image;
        '(rows, s) ← imagesJson now rand uplinks l (store p image s);
        Ok (imageJson now completeness image (uplinks p) :: rows, s)
  end.
Definition image_getListAsJson (now : ticks) (rand : ptr -> Z) (uplinks : ptr -> option uplink_row) (s : image_list) : result (json * image_list) :=
  '(rows, s) ← imagesJson now rand uplinks (il_images s) s; Ok (JArray rows, s).

Section Alts.
Context (inet_ntop4 inet_ntop6 : list Z -> string) (print_int : Z -> string).
(** The history from the oldest measurement to the newest. *)
Definition rttHistory (a : dnbd3_alt_server_t) : result (list Z) :=
  foldr (fun j r => x ← aget (as_rtt a) (Z.rem (Z.of_nat j + as_rttIndex a + 1) SERVER_RTT_PROBES); r ← r; Ok (x :: r)) (Ok []) (seq 0 (Z.to_nat SERVER_RTT_PROBES)).
Definition altJson (a : dnbd3_alt_server_t) : result json :=
  rtts ← rttHistory a;
  host ← sock_printHost inet_ntop4 inet_ntop6 print_int (as_host a) 100;
  Ok (JObject [("comment", JString (as_comment a)); ("host", JString (default "" host)); ("rtt", JArray (map JInt rtts)); ("isPrivate", JBool (as_isPrivate a));
               ("isClientOnly", JBool (as_isClientOnly a)); ("numFails", JInt (as_fails a))]).
Fixpoint altsJson (alts : list dnbd3_alt_server_t) : result (list json) :=
  match alts with
  | [] => Ok []
  | a :: alts => j ← altJson a; l ← altsJson alts; Ok (j :: l)
  end.
Definition altservers_toJson (alts : list dnbd3_alt_server_t) : result json := l ← altsJson alts; Ok (JArray l).
End Alts.

(** ** The document *)

(** [randomRunId]; [urandom] is what could be read. *)
Definition runId (pid time : Z) (urandom : option Z) : Z :=
  let id := i64 (Z.lor (i64 (pid * 2 ^ 16)) time) in
  match urandom with None => id | Some r => i64 (Z.lor (i64 (Z.land id 0xffffffff * 2 ^ 32)) r) end.
Record status_data := StatusData {
  sd_received : Z; sd_sent : Z; sd_clientCount : Z; sd_serverCount : Z; sd_uptime : Z; sd_runId : Z;
  sd_version : string; sd_build : string; sd_spaceTotal : Z; sd_spaceFree : Z;
  sd_clients : json; sd_images : json; sd_log : option string; sd_config : string; sd_alts : json;
}.
Definition statusJson (d : status_data) (flags : section -> bool) : json :=
  JObject ((if flags SStats then [("bytesReceived", JI (sd_received d)); ("bytesSent", JI (sd_sent d)); ("clientCount", JInt (sd_clientCount d));
                                  ("serverCount", JInt (sd_serverCount d)); ("uptime", JI (sd_uptime d)); ("runId", JI (sd_runId d))]
            else [("runId", JI (sd_runId d))])
           ++ (if flags SVersion then [("version", JString (sd_version d)); ("build", JString (sd_build d))] else [])
           ++ (if flags SSpace then [("spaceTotal", JI (sd_spaceTotal d)); ("spaceFree", JI (sd_spaceFree d))] else [])
           ++ (if flags SClients then [("clients", sd_clients d)] else [])
           ++ (if flags SImages then [("images", sd_images d)] else [])
           ++ (if flags SLogfile then [("logfile", match sd_log d with Some t => JString t | None => JNull end)] else [])
           ++ (if flags SConfig then [("config", JString (sd_config d))] else [])
           ++ (if flags SAltservers then [("altservers", sd_alts d)] else [])).
(** The log section: [len] and [buf] are what [log_fetch] returns. *)
Definition logSection (buf : list ascii) (len : Z) : option string := if len <=? 0 then None else Some (unchars (take (Z.to_nat len) buf)).
(** [rpc_sendErrorMessage] keeps the text of the first message. *)
Definition rpc_sendErrorMessage (dumps : json -> list Z) (encoded : option (list Z)) (message : string) : reply * option (list Z) :=
  let text := match encoded with Some t => t | None => dumps (JObject [("errorMsg", JString message)]) end in
  (Reply "200 Somewhat OK" "application/json" text HTTP_CLOSE, Some text).

(** * Properties *)

(** ** Who learns what *)

Definition permitted (permissions bit : Z) : bool := negb (permissions .& bit =? 0).
(** Two servers that differ only in what somebody may not see. *)
Record same_visible (permissions : Z) (d d' : status_data) : Prop := SameVisible {
  sv_runId : sd_runId d = sd_runId d';
  sv_stats : permitted permissions ACL_STATS = true ->
    sd_received d = sd_received d' /\ sd_sent d = sd_sent d' /\ sd_clientCount d = sd_clientCount d' /\ sd_serverCount d = sd_serverCount d' /\ sd_uptime d = sd_uptime d'
    /\ sd_version d = sd_version d' /\ sd_build d = sd_build d' /\ sd_spaceTotal d = sd_spaceTotal d' /\ sd_spaceFree d = sd_spaceFree d';
  sv_clients : permitted permissions ACL_CLIENT_LIST = true -> sd_clients d = sd_clients d';
  sv_imgs : permitted permissions ACL_IMAGE_LIST = true -> sd_images d = sd_images d';
  sv_log : permitted permissions ACL_LOG = true -> sd_log d = sd_log d';
  sv_config : permitted permissions ACL_CONFIG = true -> sd_config d = sd_config d';
  sv_alts : permitted permissions ACL_ALTSERVERS = true -> sd_alts d = sd_alts d';
}.
Lemma statusJson_same d d' flags permissions :
  same_visible permissions d d' ->
  ((flags SStats || flags SSpace || flags SVersion) = true -> permitted permissions ACL_STATS = true) -> (flags SImages = true -> permitted permissions ACL_IMAGE_LIST = true) ->
  (flags SClients = true -> permitted permissions ACL_CLIENT_LIST = true) -> (flags SLogfile = true -> permitted permissions ACL_LOG = true) ->
  (flags SConfig = true -> permitted permissions ACL_CONFIG = true) -> (flags SAltservers = true -> permitted permissions ACL_ALTSERVERS = true) ->
  statusJson d flags = statusJson d' flags.
Proof.
  intros [H0 H1 H2 H3 H4 H5 H6] Hs Hi Hc Hl Hg Ha. unfold statusJson. rewrite H0. f_equal.
  assert (forall b (x y : list (string * json)), (b = true -> x = y) -> (if b then x else []) = (if b then y else [])) as Hif by (intros [] x y E; [by apply E|done]).
  repeat match goal with |- _ ++ _ = _ ++ _ => apply f_equal2 end; try apply Hif.
  - destruct (flags SStats); [|done]. destruct (H1 (Hs eq_refl)) as (-> & -> & -> & -> & -> & _). done.
  - intros E. rewrite E, !orb_true_r in Hs. destruct (H1 (Hs eq_refl)) as (_ & _ & _ & _ & _ & -> & -> & _). done.
  - intros E. rewrite E, !orb_true_r in Hs. destruct (H1 (Hs eq_refl)) as (_ & _ & _ & _ & _ & _ & _ & -> & ->). done.
  - intros E. by rewrite (H2 (Hc E)).
  - intros E. by rewrite (H3 (Hi E)).
  - intros E. by rewrite (H4 (Hl E)).
  - intros E. by rewrite (H5 (Hg E)).
  - intros E. by rewrite (H6 (Ha E)).
Qed.
(** C32. The reply to a status request depends only on what the one who asks may see: of two servers that differ in nothing but the
    statistics, lists, log or configuration he has no permission for, he gets the same bytes, whatever he asks for. *)
Theorem status_reveals_only_permitted dumps permissions fields keepAlive d d' :
  same_visible permissions d d' ->
  handleStatus (fun flags => dumps (statusJson d flags)) permissions fields keepAlive = handleStatus (fun flags => dumps (statusJson d' flags)) permissions fields keepAlive.
Proof.
  intros Hv. unfold handleStatus. cbv zeta. set (flags := readFlags fields noFlags). clearbody flags.
  destruct ((flags SStats || flags SSpace || flags SVersion) && _) eqn:E1; [done|]. destruct (flags SImages && _) eqn:E2; [done|]. destruct (flags SClients && _) eqn:E3; [done|].
  destruct (flags SLogfile && _) eqn:E4; [done|]. destruct (flags SConfig && _) eqn:E5; [done|]. destruct (flags SAltservers && _) eqn:E6; [done|].
  rewrite (statusJson_same d d' flags permissions Hv); [done|..]; unfold permitted; intros E; apply negb_false_iff.
  - by rewrite E in E1.
  - by rewrite E in E2.
  - by rewrite E in E3.
  - by rewrite E in E4.
  - by rewrite E in E5.
  - by rewrite E in E6.
Qed.
Definition demo_status (clients : json) : status_data := StatusData 1 2 1 0 60 7 "3.0" "Release" 100 50 clients (JArray []) None "[dnbd3]" (JArray []).
Lemma status_reveals_only_permitted_witness :
  handleStatus (fun flags => match statusJson (demo_status (JArray [JInt 1])) flags with JObject l => [Z.of_nat (length l)] | _ => [] end) ACL_STATS [(STR_Q, sectionName SStats)] HTTP_CLOSE
  = handleStatus (fun flags => match statusJson (demo_status (JArray [])) flags with JObject l => [Z.of_nat (length l)] | _ => [] end) ACL_STATS [(STR_Q, sectionName SStats)] HTTP_CLOSE.
Proof.
  apply (status_reveals_only_permitted (fun j => match j with JObject l => [Z.of_nat (length l)] | _ => [] end)). split; [done|done|intros H; discriminate H|done..].
Defined.

(** ** The lists are complete *)

(** A client is in the list exactly if it has an image. *)
Definition hasImage (c : option client_row) : bool := match c with Some c => bool_decide (is_Some (cr_image c)) | None => false end.
Lemma clients_reported clients : exists rows, net_getListAsJson clients = JArray rows
  /\ length rows = length (filter (fun c => hasImage c = true) clients)
  /\ forall j, j ∈ rows <-> exists c, Some c ∈ clients /\ clientJson c = Some j.
Proof.
  eexists. split; [done|]. split.
  - induction clients as [|[c|] clients IH]; [done| |].
    + rewrite filter_cons. cbn [omap list_omap mbind option_bind]. unfold clientJson at 1. destruct (cr_image c) as [x|] eqn:E.
      * rewrite decide_True by (cbn; by rewrite E). cbn [length]. by rewrite IH.
      * rewrite decide_False by (cbn; by rewrite E). exact IH.
    + rewrite filter_cons, decide_False by done. exact IH.
  - intros j. rewrite list_elem_of_omap. split.
    + intros ([c|] & Hin & E); [|done]. by exists c.
    + intros (c & Hin & E). by exists (Some c).
Qed.
(** The problems of an image can be read from the number. *)
Lemma problemBits_read p : let n := problemBits p in
  Z.testbit n 0 = pr_read p /\ Z.testbit n 1 = pr_write p /\ Z.testbit n 2 = pr_changed p /\ Z.testbit n 3 = pr_uplink p /\ Z.testbit n 4 = pr_queue p /\ 0 <= n < 32.
Proof. destruct p as [[] [] [] [] []]; vm_compute; repeat split; congruence. Qed.
(** Every image in the list is reported once, in order, and only the estimates in the images change. *)
Lemma images_reported now rand uplinks l : forall s,
  (forall p image, il_heap s !! p = Some image -> exists e image', image_getCompletenessEstimate now (rand p) image = Ok (e, image')
     /\ forall r, exists e', image_getCompletenessEstimate now r image' = Ok (e', image')) ->
  (forall p, p ∈ l -> p <> NULL -> is_Some (il_heap s !! p)) -> base.NoDup (filter (fun p => p <> NULL) l) ->
  exists rows s', imagesJson now rand uplinks l s = Ok (rows, s') /\ length rows = length (filter (fun p => p <> NULL) l) /\ il_images s' = il_images s
    /\ forall p image, il_heap s !! p = Some image -> p ∉ filter (fun p => p <> NULL) l -> il_heap s' !! p = Some image.
Proof.
  induction l as [|p l IH]; intros s He Hl Hd; cbn [imagesJson]; [exists [], s; by split_and!|]. rewrite filter_cons in *.
  destruct (Z.eqb_spec p NULL) as [->|Hp].
  { rewrite decide_False in * by tauto. apply IH; [done| |done]. intros q Hq. apply Hl. by apply elem_of_cons; right. }
  rewrite decide_True in * by done. apply list.NoDup_cons in Hd as [Hn Hd]. destruct (Hl p (proj2 (elem_of_cons _ _ _) (or_introl eq_refl)) Hp) as [image Hi].
  unfold deref. rewrite (proj2 (Z.eqb_neq _ _) Hp), Hi. cbn [mbind result_bind]. destruct (He p image Hi) as (e & image' & -> & Hagain). cbn [mbind result_bind].
  destruct (IH (store p image' s)) as (rows & s' & -> & H1 & H2 & H3).
  - intros q img Hq. cbn in Hq. destruct (decide (q = p)) as [->|Hne].
    + rewrite lookup_insert_eq in Hq. injection Hq as <-. destruct (Hagain (rand p)) as [e' He']. by exists e', image'.
    + rewrite lookup_insert_ne in Hq by done. by apply He.
  - intros q Hq Hqn. cbn. apply lookup_insert_is_Some'. right. apply Hl; [by apply elem_of_cons; right|done].
  - done.
  - cbn [mbind result_bind]. eexists _, s'. split; [done|]. cbn [length]. split_and!; [by rewrite H1|done|]. intros q img Hq [Hqp Hqn]%not_elem_of_cons. apply H3; [|done]. cbn. by rewrite lookup_insert_ne by done.
Qed.
(** The history of a server is complete, and its newest measurement is the last. *)
Lemma history_in_order a : length (as_rtt a) = Z.to_nat SERVER_RTT_PROBES -> 0 <= as_rttIndex a < SERVER_RTT_PROBES ->
  exists h, rttHistory a = Ok h /\ h ≡ₚ as_rtt a /\ list.last h = as_rtt a !! Z.to_nat (as_rttIndex a).
Proof.
  intros Hl Hi. destruct (as_rtt a) as [|r0 [|r1 [|r2 [|r3 [|r4 [|]]]]]] eqn:E; cbn in Hl; try (unfold SERVER_RTT_PROBES in Hl; cbn in Hl; lia).
  unfold SERVER_RTT_PROBES in *. assert (as_rttIndex a = 0 \/ as_rttIndex a = 1 \/ as_rttIndex a = 2 \/ as_rttIndex a = 3 \/ as_rttIndex a = 4) as Hc by lia.
  unfold rttHistory. rewrite E. destruct Hc as [->|[->|[->|[->| ->]]]]; (eexists; split; [vm_compute; reflexivity|]); (split; [solve_Permutation|reflexivity]).
Qed.
(** Everybody who connects to a server that only tells an error is told the same. *)
Lemma error_message_stays dumps m1 m2 :
  let '(r1, e1) := rpc_sendErrorMessage dumps None m1 in let '(r2, e2) := rpc_sendErrorMessage dumps e1 m2 in r2 = r1 /\ e2 = e1.
Proof. done. Qed.
