(* ===== verification/IntegrityLife.v ===== *)
(** * IntegrityLife: starting and stopping the integrity checker, and flushing before a check ([server/integrity.c])

    [Integrity] has the queue and what the worker does with an entry.  Here are the threads: the main
    thread that starts and stops the checker, the worker with its mutex and condition, and any number of threads that
    ask for a check, as a step relation.  Where a thread holds the mutex over several steps, so does the model. *)

From stdpp Require Import relations.
From S2P Require Import Prelude Integrity.
Open Scope Z_scope.

(** ** The threads *)

Inductive qmutex := QNone | QFree | QWorker | QGone.
(** The main thread: before [integrity_init]; running; stopping, before it looks at [bRunning], before it signals, and in
    [thread_join]; done. *)
Inductive stop_pc := MBefore | MRunning | MStopping | MSignal | MJoin | MEnd.
(** The worker: none; before it takes the mutex; at the test of [_shutdown]; behind it; in [pthread_cond_wait]; in the loop with
    entries below [i] to go; working on an entry without the mutex; about to clear [bRunning]; done. *)
Inductive chk_worker_pc := WNone | WStart | WTest | WQueue | WWait | WScan (i : nat) | WWork (i : nat) | WLast | WDone.
(** A thread in [integrity_check]: before it, behind the look at [bRunning], waiting for room, done, or using a mutex that is not there. *)
Inductive check_pc := CBefore | CLock | CSleep | CDone | CFault.
Record checker := Checker {
  lf_shutdown : bool;
  lf_running : bool;
  lf_mutex : qmutex;
  lf_len : Z;              (* [queueLen] *)
  lf_woken : bool;         (* the condition was signalled *)
  lf_main : stop_pc;
  lf_worker : chk_worker_pc;
  lf_checks : list check_pc;
}.
Definition with_worker (m : qmutex) (len : Z) (woken : bool) (w : chk_worker_pc) (s : checker) : checker :=
  Checker (lf_shutdown s) (lf_running s) m len woken (lf_main s) w (lf_checks s).
Definition with_main (m : stop_pc) (s : checker) : checker :=
  Checker (lf_shutdown s) (lf_running s) (lf_mutex s) (lf_len s) (lf_woken s) m (lf_worker s) (lf_checks s).
(** [integrity_init]; [created]: the thread could be created. *)
Definition integrity_init (created : bool) (s : checker) : checker :=
  Checker (lf_shutdown s) created QFree 0 (lf_woken s) MRunning (if created then WStart else WNone) (lf_checks s).
(** Signalling the condition wakes the worker if it waits. *)
Definition wake (s : checker) : bool := lf_woken s || match lf_worker s with WWait => true | _ => false end.
(** The main thread's steps; [None]: it waits. *)
Definition mainStep (created : bool) (s : checker) : option checker :=
  match lf_main s with
  | MBefore => Some (integrity_init created s)
  | MRunning => if lf_shutdown s then Some (with_main MStopping s) else None
  | MStopping => Some (with_main (if lf_running s then MSignal else MEnd) s)
  | MSignal =>
      match lf_mutex s with
      | QFree => Some (Checker (lf_shutdown s) (lf_running s) QFree (lf_len s) (wake s) MJoin (lf_worker s) (lf_checks s))
      | _ => None
      end
  | MJoin =>
      match lf_worker s with
      | WDone => Some (Checker (lf_shutdown s) (lf_running s) QGone (lf_len s) (lf_woken s) MEnd WDone (lf_checks s))
      | _ => None
      end
  | MEnd => None
  end.
(** The worker's steps.  [busy]: the entry is worth a check; [drop]: it is done and the last one; [spurious]: the wait ends without a
    signal. *)
Definition workerStep (busy drop spurious : bool) (s : checker) : option checker :=
  let len i := if drop && (Z.of_nat i + 1 =? lf_len s) then lf_len s - 1 else lf_len s in
  match lf_worker s, lf_mutex s with
  | WStart, QFree => Some (with_worker QWorker (lf_len s) (lf_woken s) WTest s)
  | WTest, QWorker => if lf_shutdown s then Some (with_worker QFree (lf_len s) (lf_woken s) WLast s) else Some (with_worker QWorker (lf_len s) (lf_woken s) WQueue s)
  | WQueue, QWorker =>
      if lf_len s =? 0 then Some (with_worker QFree (lf_len s) false WWait s) else Some (with_worker QWorker (lf_len s) (lf_woken s) (WScan (Z.to_nat (lf_len s))) s)
  | WWait, QFree => if lf_woken s || spurious then Some (with_worker QWorker (lf_len s) false (WScan (Z.to_nat (lf_len s))) s) else None
  | WScan O, QWorker => Some (with_worker QWorker (lf_len s) (lf_woken s) WTest s)
  | WScan (S i), QWorker =>
      if lf_shutdown s then Some (with_worker QWorker (lf_len s) (lf_woken s) WTest s)
      else if busy then Some (with_worker QFree (lf_len s) (lf_woken s) (WWork i) s)
      else Some (with_worker QWorker (len i) (lf_woken s) (WScan i) s)
  | WWork i, QFree => Some (with_worker QWorker (len i) (lf_woken s) (WScan i) s)
  | WLast, _ => Some (Checker (lf_shutdown s) false (lf_mutex s) (lf_len s) (lf_woken s) (lf_main s) WDone (lf_checks s))
  | _, _ => None
  end.
(** A step of thread [k] in [integrity_check].  [room]: the request needs no new slot; [blocking]: as the argument says. *)
Definition checkStep (k : nat) (room blocking : bool) (s : checker) : option checker :=
  let put c := Checker (lf_shutdown s) (lf_running s) (lf_mutex s) (lf_len s) (lf_woken s) (lf_main s) (lf_worker s) (<[k := c]> (lf_checks s)) in
  match lf_checks s !! k with
  | Some CBefore => Some (put (if lf_running s then CLock else CDone))
  | Some CLock | Some CSleep =>
      match lf_mutex s with
      | QNone | QGone => Some (put CFault)
      | QWorker => None
      | QFree =>
          if room then Some (put CDone)
          else if CHECK_QUEUE_SIZE <=? lf_len s then Some (put (if blocking then CSleep else CDone))
          else Some (Checker (lf_shutdown s) (lf_running s) QFree (lf_len s + 1) (wake s) (lf_main s) (lf_worker s) (<[k := CDone]> (lf_checks s)))
      end
  | _ => None
  end.
Inductive life_step : checker -> checker -> Prop :=
| StepMain created s s' : mainStep created s = Some s' -> life_step s s'
| StepWorker busy drop spurious s s' : workerStep busy drop spurious s = Some s' -> life_step s s'
| StepCheck k room blocking s s' : checkStep k room blocking s = Some s' -> life_step s s'
| StepShutdown s : life_step s (Checker true (lf_running s) (lf_mutex s) (lf_len s) (lf_woken s) (lf_main s) (lf_worker s) (lf_checks s)).
Definition checker_start (n : nat) : checker := Checker false false QNone (-1) false MBefore WNone (replicate n CBefore).

(** ** Flushing *)

Definition EINTR : Z := 4.
Definition EIO_errno : Z := 5.
Inductive flush_end := Flushed | FlushExit | FlushWaiting.
(** What each call of [sync_file_range] returns, zero or an error; [down t]: the server is stopping at the t-th look. *)
Fixpoint flushLoop (down : nat -> bool) (t : nat) (results : list Z) : flush_end :=
  match results with
  | [] => FlushWaiting
  | e :: results =>
      if e =? 0 then Flushed
      else if down t then Flushed
      else if e =? EINTR then flushLoop down (S t) results
      else if e =? EIO_errno then FlushExit
      else flushLoop down (S t) results
  end.
(** The descriptor that is flushed, and the ones that are closed afterwards.  [cacheFd]: the uplink's; [dupFd], [openFd]: what [dup]
    and [open] return; [readFd]: the image's. *)
Definition flushFds (cacheFd : option Z) (dupFd openFd readFd : Z) : option Z * list Z :=
  let writableFd := match cacheFd with Some fd => if fd =? -1 then -1 else dupFd | None => -1 end in
  let writableFd := if writableFd =? -1 then openFd else writableFd in
  let flushFd := if writableFd =? -1 then readFd else writableFd in
  if flushFd =? -1 then (None, []) else (Some flushFd, if writableFd =? -1 then [] else [writableFd]).
Definition flushFileRange (cacheFd : option Z) (dupFd openFd readFd : Z) (down : nat -> bool) (results : list Z) : flush_end * list Z :=
  match flushFds cacheFd dupFd openFd readFd with
  | (None, _) => (Flushed, [])
  | (Some _, closed) => match flushLoop down 0 results with Flushed => (Flushed, closed) | e => (e, []) end
  end.

(** * Properties *)

Definition holds (w : chk_worker_pc) : bool := match w with WTest | WQueue | WScan _ => true | _ => false end.
Definition alive (w : chk_worker_pc) : bool := match w with WNone | WDone => false | _ => true end.
Record life_inv (s : checker) : Prop := LifeInv {
  li_before : lf_main s = MBefore -> lf_mutex s = QNone /\ lf_worker s = WNone /\ lf_running s = false /\ lf_len s = -1;
  li_len : lf_main s <> MBefore -> 0 <= lf_len s <= CHECK_QUEUE_SIZE;
  li_running : lf_running s = alive (lf_worker s);
  li_mutex : lf_main s <> MBefore -> lf_mutex s = (if holds (lf_worker s) then QWorker else QFree) \/ lf_mutex s = QGone /\ lf_main s = MEnd /\ alive (lf_worker s) = false;
  li_stopping : match lf_main s with MStopping | MSignal | MJoin | MEnd => lf_shutdown s = true | _ => True end;
  li_joined : match lf_main s with MSignal | MJoin => lf_worker s <> WNone | MEnd => alive (lf_worker s) = false | _ => True end;
  li_woken : lf_main s = MJoin -> lf_worker s <> WQueue /\ (lf_worker s = WWait -> lf_woken s = true);
}.
Lemma life_start_inv n : life_inv (checker_start n).
Proof. split; done. Qed.
Lemma mainStep_inv created s s' : life_inv s -> mainStep created s = Some s' -> life_inv s'.
Proof.
  intros [H1 H2 H3 H4 H5 H6 H7]. unfold mainStep. destruct s as [sd run mx len wk m w cs]. cbn [lf_shutdown lf_running lf_mutex lf_len lf_woken lf_main lf_worker lf_checks] in *.
  destruct m; cbn in *.
  - intros [= <-]. destruct created; split; cbn; done || (unfold CHECK_QUEUE_SIZE; lia) || (intros _; by left).
  - destruct sd; [|done]. intros [= <-]. destruct (H4 ltac:(done)) as [?|(_ & ? & _)]; [|done]. split; cbn; auto; done.
  - intros [= <-]. destruct (H4 ltac:(done)) as [?|(_ & ? & _)]; [|done]. destruct run; split; cbn in *; auto; try done. by destruct w.
  - destruct mx; try done. intros [= <-]. destruct (H4 ltac:(done)) as [Hm|(? & _)]; [|done]. split; cbn in *; auto; try done. intros _. unfold wake. cbn. destruct w; try done. by rewrite orb_true_r.
  - destruct w; try done. intros [= <-]. split; cbn in *; auto; done.
  - done.
Qed.
Lemma workerStep_inv busy drop spurious s s' : life_inv s -> workerStep busy drop spurious s = Some s' -> life_inv s'.
Proof.
  intros [H1 H2 H3 H4 H5 H6 H7]. unfold workerStep, with_worker. destruct s as [sd run mx len wk m w cs]. cbn [lf_shutdown lf_running lf_mutex lf_len lf_woken lf_main lf_worker lf_checks] in *.
  assert (m = MBefore \/ m <> MBefore) as [->|Hm] by (destruct m; (by left) || (by right)); [destruct (H1 eq_refl) as (-> & -> & _); done|]. specialize (H2 Hm). specialize (H4 Hm).
  assert (forall i, 0 <= (if drop && (Z.of_nat i + 1 =? len) then len - 1 else len) <= CHECK_QUEUE_SIZE) as Hlen.
  { intros i. destruct drop; [|done]. cbn [andb]. destruct (Z.eqb_spec (Z.of_nat i + 1) len); lia. }
  assert (alive w = true -> m <> MEnd) as Hend by (intros Ha ->; congruence).
  destruct w as [| | | | |i|i| |]; try done.
  - destruct mx; try done. intros [= <-]. split; cbn in *; try done; try (by left); by destruct m.
  - destruct mx; try done. destruct sd; intros [= <-]; split; cbn in *; try done; try (by left); by destruct m.
  - destruct mx; try done. destruct (len =? 0); intros [= <-]; split; cbn in *; try done; try (by left); try (by destruct m); intros ->; by destruct (H7 eq_refl).
  - destruct mx; try done. destruct (wk || spurious); [|done]. intros [= <-]. split; cbn in *; try done; try (by left); by destruct m.
  - destruct mx; try (by destruct i). destruct i as [|i]; [|destruct sd; [|destruct busy]]; intros [= <-]; split; cbn in *; try done; try (by left); by destruct m.
  - destruct mx; try done. intros [= <-]. split; cbn in *; try done; try (by left); by destruct m.
  - intros [= <-]. assert (mx = QFree) as -> by (destruct H4 as [?|(_ & -> & _)]; [done|by destruct (Hend eq_refl)]). split; cbn in *; try done; try (by left); by destruct m.
Qed.
Lemma checkStep_inv k room blocking s s' : life_inv s -> checkStep k room blocking s = Some s' -> life_inv s' /\ lf_main s' = lf_main s /\ lf_worker s' = lf_worker s /\ lf_shutdown s' = lf_shutdown s.
Proof.
  intros [H1 H2 H3 H4 H5 H6 H7]. unfold checkStep. destruct s as [sd run mx len wk m w cs]. cbn [lf_shutdown lf_running lf_mutex lf_len lf_woken lf_main lf_worker lf_checks] in *.
  assert (forall c, life_inv (Checker sd run mx len wk m w (<[k:=c]> cs))) as Hput by (intros c; by split).
  destruct (cs !! k) as [[]|]; try done; [intros [= <-]; by split|..]; (destruct mx; [intros [= <-]; by split| |done|intros [= <-]; by split]);
    (destruct room; [intros [= <-]; by split|]); (destruct (Z.leb_spec CHECK_QUEUE_SIZE len); intros [= <-]; [by split|]);
    (split; [|done]); (assert (m <> MBefore) as Hm by (intros ->; by destruct (H1 eq_refl))); specialize (H2 Hm); split; cbn in *; try done; try lia; intros Hx; try (by destruct (Hm Hx));
    (split; [by apply H7|]); intros ->; unfold wake; cbn; by rewrite orb_true_r.
Qed.
Lemma life_step_inv s s' : life_inv s -> life_step s s' -> life_inv s'.
Proof.
  intros Hs Hst. destruct Hst as [created s s' H|busy drop spurious s s' H|k room blocking s s' H|s].
  - exact (mainStep_inv _ _ _ Hs H).
  - exact (workerStep_inv _ _ _ _ _ Hs H).
  - exact (proj1 (checkStep_inv _ _ _ _ _ Hs H)).
  - destruct Hs. split; cbn; try done. by destruct (lf_main s).
Qed.
Lemma checker_reachable_inv n s : rtc life_step (checker_start n) s -> life_inv s.
Proof. intros Hr. refine (rtc_ind_r life_inv (checker_start n) (life_start_inv n) _ s Hr). intros x y _ Hxy Hx. exact (life_step_inv x y Hx Hxy). Qed.

(** How many steps main thread and worker have to go once the server stops. *)
Definition mainTodo (m : stop_pc) : nat := match m with MBefore => 5 | MRunning => 4 | MStopping => 3 | MSignal => 2 | MJoin => 1 | MEnd => 0 end.
Definition workerTodo (w : chk_worker_pc) : nat := match w with WNone | WDone => 0 | WLast => 1 | WTest => 2 | WStart | WScan _ => 3 | WWait | WWork _ => 4 | WQueue => 5 end.
Definition todo (s : checker) : nat := mainTodo (lf_main s) + workerTodo (lf_worker s).
Lemma mainStep_todo created s s' : lf_main s <> MBefore -> mainStep created s = Some s' -> (todo s' < todo s)%nat.
Proof.
  intros Hm. unfold mainStep, todo. destruct (lf_main s); try done.
  - destruct (lf_shutdown s); [|done]. intros [= <-]. cbn. lia.
  - intros [= <-]. destruct (lf_running s); cbn; lia.
  - destruct (lf_mutex s); try done. intros [= <-]. cbn. lia.
  - destruct (lf_worker s); try done. intros [= <-]. cbn. lia.
Qed.
Lemma workerStep_todo busy drop spurious s s' : lf_shutdown s = true -> workerStep busy drop spurious s = Some s' -> (todo s' < todo s)%nat.
Proof.
  intros Hs. unfold workerStep, todo. rewrite Hs. destruct (lf_worker s) as [| | | | |[|i]|i| |], (lf_mutex s); try done; try (intros [= <-]; cbn; lia).
  - destruct (lf_len s =? 0); intros [= <-]; cbn; lia.
  - destruct (lf_woken s || spurious); [|done]. intros [= <-]. cbn. lia.
Qed.
(** When the server stops, the main thread or the worker can go on, until the main thread is done. *)
Lemma life_progress s : life_inv s -> lf_shutdown s = true -> lf_main s <> MBefore -> lf_main s <> MEnd -> (exists s', mainStep false s = Some s') \/ exists s', workerStep false false false s = Some s'.
Proof.
  intros [H1 H2 H3 H4 H5 H6 H7] Hs Hm He. destruct s as [sd run mx len wk m w cs]. cbn [lf_shutdown lf_running lf_mutex lf_len lf_woken lf_main lf_worker lf_checks] in *. subst sd.
  destruct (H4 Hm) as [Hx|(_ & -> & _)]; [|done]. assert (holds w = true -> exists s', workerStep false false false (Checker true run mx len wk m w cs) = Some s') as Hw.
  { intros Hh. rewrite Hh in Hx. subst mx. unfold workerStep. cbn. destruct w as [| | | | |[|i]|i| |]; try done; try (by eexists). destruct (len =? 0); by eexists. }
  destruct (holds w) eqn:Hh; [right; by apply Hw|]. subst mx. destruct m; try done; unfold mainStep, workerStep; cbn.
  - left. by eexists.
  - left. by eexists.
  - left. by eexists.
  - destruct w; try done; cbn; try (right; by eexists); try (left; by eexists). right. destruct (H7 eq_refl) as [_ ->]; [|done]. by eexists.
Qed.
(** C39. Stopping the integrity checker ends: in every state that the main thread, the worker and any number of threads asking for checks
    can reach, once the server stops and until [integrity_shutdown] has returned, the main thread or the worker can take a step;
    each of their steps brings the end nearer, no step of another thread puts it off, and at most nine are left.  The
    mutex is destroyed only when the worker is gone, and the queue never exceeds its array. *)
Theorem integrity_shutdown_ends n s :
  rtc life_step (checker_start n) s ->
  (lf_mutex s = QGone -> lf_main s = MEnd /\ alive (lf_worker s) = false) /\ (lf_main s <> MBefore -> 0 <= lf_len s <= CHECK_QUEUE_SIZE)
  /\ (lf_shutdown s = true -> lf_main s <> MBefore ->
      (todo s <= 9)%nat
      /\ (lf_main s <> MEnd -> (exists s', mainStep false s = Some s') \/ exists s', workerStep false false false s = Some s')
      /\ (forall created s', mainStep created s = Some s' -> (todo s' < todo s)%nat)
      /\ (forall busy drop spurious s', workerStep busy drop spurious s = Some s' -> (todo s' < todo s)%nat)
      /\ forall k room blocking s', checkStep k room blocking s = Some s' -> todo s' = todo s).
Proof.
  intros Hr. pose proof (checker_reachable_inv n s Hr) as Hi. split_and!.
  - intros Hg. assert (lf_main s = MBefore \/ lf_main s <> MBefore) as [Hm|Hm] by (destruct (lf_main s); (by left) || (by right)); [destruct (li_before s Hi Hm); congruence|]. destruct (li_mutex s Hi Hm) as [Hx|(_ & ? & ?)]; [|done]. rewrite Hg in Hx. by destruct (holds _).
  - apply Hi.
  - intros Hs Hm. split_and!.
    + unfold todo, mainTodo, workerTodo. destruct (lf_main s); try done; destruct (lf_worker s); lia.
    + by apply life_progress.
    + intros created s'. by apply mainStep_todo.
    + intros busy drop spurious s'. by apply workerStep_todo.
    + intros k room blocking s' H. destruct (checkStep_inv k room blocking s s' Hi H) as (_ & E1 & E2 & _). unfold todo. by rewrite E1, E2.
Qed.
(** Runs that are given by their steps. *)
Inductive life_op := DoMain | DoWorker | DoCheck (k : nat) | DoShutdown.
Definition lifeOp (o : life_op) (s : checker) : option checker :=
  match o with
  | DoMain => mainStep true s
  | DoWorker => workerStep false false false s
  | DoCheck k => checkStep k false false s
  | DoShutdown => Some (Checker true (lf_running s) (lf_mutex s) (lf_len s) (lf_woken s) (lf_main s) (lf_worker s) (lf_checks s))
  end.
Fixpoint lifeRun (ops : list life_op) (s : checker) : option checker :=
  match ops with [] => Some s | o :: ops => s ← lifeOp o s; lifeRun ops s end.
Lemma lifeRun_reached ops : forall s s', lifeRun ops s = Some s' -> rtc life_step s s'.
Proof.
  induction ops as [|o ops IH]; intros s s'; cbn [lifeRun]; [intros [= <-]; apply rtc_refl|]. destruct (lifeOp o s) as [s1|] eqn:E; [|done]. cbn [mbind option_bind]. intros H.
  refine (rtc_l life_step s s1 s' _ (IH _ _ H)). destruct o; cbn in E; [exact (StepMain true s s1 E)|exact (StepWorker false false false s s1 E)|exact (StepCheck k false false s s1 E)|injection E as <-; apply StepShutdown].
Defined.
(** The checker runs, the server stops, and the worker is at its first test. *)
Definition demo_life : checker := Checker true true QWorker 0 false MRunning WTest [CBefore].
Lemma demo_life_reached : rtc life_step (checker_start 1) demo_life.
Proof. apply (lifeRun_reached [DoMain; DoWorker; DoShutdown]). reflexivity. Defined.
Lemma integrity_shutdown_ends_witness : (exists s', mainStep false demo_life = Some s') \/ exists s', workerStep false false false demo_life = Some s'.
Proof.
  destruct (integrity_shutdown_ends 1 demo_life demo_life_reached) as (_ & _ & H). destruct (H eq_refl ltac:(discriminate)) as (_ & Hp & _). apply Hp. discriminate.
Defined.
(** What is closed after flushing is what was opened for it, and the image's descriptor stays open. *)
Lemma flush_closes cacheFd dupFd openFd readFd :
  let '(flushed, closed) := flushFds cacheFd dupFd openFd readFd in
  forall fd, fd ∈ closed -> fd <> -1 /\ flushed = Some fd /\ (fd = openFd \/ fd = dupFd /\ exists c, cacheFd = Some c /\ c <> -1).
Proof.
  unfold flushFds. cbv zeta. set (w := match cacheFd with Some fd => if fd =? -1 then -1 else dupFd | None => -1 end).
  assert (w <> -1 -> w = dupFd /\ exists c, cacheFd = Some c /\ c <> -1) as Hw. { unfold w. destruct cacheFd as [c|]; [|done]. destruct (Z.eqb_spec c (-1)); [done|]. eauto. }
  clearbody w. destruct (Z.eqb_spec w (-1)) as [->|Hne].
  - destruct (Z.eqb_spec openFd (-1)) as [->|Ho].
    + destruct (readFd =? -1); by intros fd []%elem_of_nil.
    + rewrite (proj2 (Z.eqb_neq _ _) Ho). intros fd ->%list_elem_of_singleton. auto.
  - rewrite !(proj2 (Z.eqb_neq _ _) Hne). intros fd ->%list_elem_of_singleton. auto.
Qed.

(** ** Where the code falls short *)

(** A thread that has seen that the checker runs, and is then delayed until the checker has stopped, locks a mutex that was destroyed. *)
Lemma check_after_stop_uses_destroyed_mutex : rtc life_step (checker_start 1) (Checker true false QGone 0 false MEnd WDone [CFault]).
Proof. apply (lifeRun_reached [DoMain; DoCheck 0; DoShutdown; DoMain; DoMain; DoMain; DoWorker; DoWorker; DoWorker; DoMain; DoCheck 0]). reflexivity. Qed.
(** A blocking request that waits for room does not look at [bRunning] again: when the worker has ended with a full queue, it waits for
    ever. *)
Lemma blocking_check_waits_for_ever s k :
  lf_checks s !! k = Some CSleep -> lf_mutex s = QFree -> lf_len s = CHECK_QUEUE_SIZE -> checkStep k false true s = Some s.
Proof.
  intros Hk Hm Hl. unfold checkStep. rewrite Hk, Hm, Hl, Z.leb_refl. f_equal. rewrite list_insert_id by done. destruct s. cbn in *. by subst.
Qed.
(** An error that stays, other than [EIO], is tried again and again; each time an error is logged. *)
Lemma flush_retries_for_ever n : flushLoop (fun _ => false) 0 (replicate n 28) = FlushWaiting.
Proof. generalize 0%nat. induction n as [|n IH]; intros t; [done|]. cbn [replicate flushLoop]. exact (IH (S t)). Qed.
